(* ===== verification/_CoqProject ===== *)
-Q . S2P
Prelude.v
Mem.v
CString.v
Fcall.v
ConvS2M.v
ConvM2S.v
Codec.v
ConvDir.v
Read9p.v
Intmap.v
Eff.v
FileTree.v
FileTreeInv.v
FileTreeThm.v
Srv.v
SrvInv.v
SrvResp.v
SrvHandlers.v
SrvThm.v
Rune.v
Chars.v
Names.v
NamesThm.v
Fields.v
Quote.v
FieldsThm.v
Sort.v
Strtol.v
BaseN.v
BaseNThm.v
Lock.v
QLock.v
QLockInv.v
QLockSteps.v
QLockRW.v
QLockSleep.v
QLockScan.v
QLockThm.v
Chan.v
ChanInv.v
ChanKeep.v
ChanWait.v
ChanRun.v
ChanLoops.v
ChanCopy.v
ChanAlt.v
ChanExec.v
ChanThm.v
MpVec.v
MpHeap.v
MpVecThm.v
MpCmp.v
MpMul.v
MpVecMul.v
MpKaratsuba.v
MpInt.v
MpState.v
MpArith.v
MpMulInt.v
MpShift.v
MpGrow.v
MpDigit.v
MpDiv.v
MpDivInt.v
MpDivThm.v
MpThm.v
