(* ===== verification/Prelude.v ===== *)
(** * The userland core of IPNX

    IPNX runs Plan 9's C userland, compiled to WebAssembly, on a kernel and
    hosts written in Rust.  Everything a program does with files is a 9P2000
    conversation, and every program stands on a few hundred lines of C library.
    This development verifies that core ([src/userspace/sys/src], [libc], [lib9p], [libthread], [libmp]):
    the bytes of the protocol, the server library that answers it, the locks its
    processes share, the channels its threads talk over, the string and number routines under all of
    them, and the integers of any size that its cryptography counts with.

    ** The parts and how they fit

    A file server reads messages from a connection ([read9pmsg]), decodes them
    in place ([convM2S]) into an [Fcall], finds the fid and the request it
    concerns in hash tables ([intmap.c]), runs the handler of [srv.c], which may
    walk or change a tree of files ([file.c]) or hand the request to the
    application, and encodes the reply ([convS2M]).  Directory reads return
    entries encoded by [convD2M].  The processes of a server serialise on the
    locks of [qlock.c], which stand on the spin lock of [lock.c]; its threads
    pass values over the channels of [channel.c].  The integers of [libmp] stand on
    routines for vectors of 32-bit digits ([mpvec*.c]); each is a structure that
    points to its digits, and the results of an operation may be its arguments.

    ** Which file models what

    - [Prelude]: machine integers with their wrap-around, tactics, lemmas on
      lists and on sums over stores.
    - [Mem]: WebAssembly's linear memory as a list of bytes, 32-bit pointers
      that wrap, and the monad [M] of computations that may trap.
    - [CString]: [libc/port] memmove, memset, memccpy, memchr, memcmp, strchr,
      strlen, strrchr, strcmp, strncmp, strcpy, strecpy, strcat, loop by loop.
    - [Fcall]: [include/fcall.h], the [GBIT] and [PBIT] macros, the messages of
      the protocol as an inductive type and their wire form (the abstract
      specification of the codec).  [ConvS2M], [ConvM2S]: [libc/9sys/convS2M.c]
      and [convM2S.c], every message type both ways.  [Codec]: the theorems.
    - [ConvDir]: [libc/9sys/convM2D.c] and [convD2M.c].
    - [Read9p]: [libc/9sys/read9pmsg.c] and [libc/port/readn.c], over a
      connection that delivers bytes in pieces of any size.
    - [Intmap]: [lib9p/intmap.c], with the class [KeyMap] of what a table
      promises; the server is verified against the class and the hash table is
      an instance of it.
    - [Eff]: computations over stores of structures, with [Abort] for a failed
      assertion and [Fault] for the use of a nil or freed pointer.
    - [FileTree], [FileTreeInv], [FileTreeThm]: [lib9p/file.c] with the
      reference counts of [libthread/ref.c]: its state, its invariant, and the
      theorems about any sequence of calls.
    - [Srv], [SrvInv], [SrvResp], [SrvHandlers], [SrvThm]: [lib9p/srv.c],
      [fid.c], [req.c], [uid.c]: every handler, [respond] and [closereq], the
      pools and a round of the loop; the invariant on fids and requests, that
      answering keeps it, that every handler keeps it, and the theorems about
      any conversation.
    - [Rune]: [libc/port/rune.c], utflen, utfnlen, utfrune, utfrrune, utfecpy.
    - [Chars]: reading and writing the characters of a string in place, shared by
      the next five.  [Names], [NamesThm]: [libc/port/cleanname.c], its specification
      as a fold over the elements of a name, and its theorems.
    - [Fields]: [libc/port/tokenize.c] and [getfields.c], with the reference
      definitions of tokens and fields.  [Quote]: [libc/port/quote.c], [strdup.c],
      [needsrcquote.c] and the scan of [libc/fmt/fmtquote.c], against the class
      [Malloc] of what the allocator promises.  [FieldsThm]: the theorems of both.
    - [Sort]: [libc/port/qsort.c], and that it sorts.
    - [Strtol]: [libc/port] strtol, strtoul, strtoll, strtoull.
    - [BaseN], [BaseNThm]: [libc/port/u16.c], [u32.c], [u64.c], and the proofs
      that they compute their texts and invert them.
    - [Lock]: [libc/port/lock.c] and the atomic operations it uses.
    - [QLock], [QLockInv], [QLockSteps], [QLockRW], [QLockSleep], [QLockThm]:
      [libc/9sys/qlock.c]: the shared table of slots, the linked queues, the
      calls as steps between which processes meet by rendezvous; the invariant,
      its preservation step by step, and the theorems about any interleaving.
      [QLockScan]: the scans of the shared table, one access of it at a time.
    - [Chan]: [libthread/channel.c]: channels, arrays of [Alt], every call, and
      the program points of threads between their steps, with a log of the values
      that moved, read from the memory of sender and receiver around the copy.  [ChanInv] states the
      invariant and the steps as a relation, [ChanKeep] and [ChanWait] show that
      steps keep the invariant; [ChanRun], [ChanLoops], [ChanCopy], [ChanAlt] and
      [ChanExec] show what each loop, copy and call computes and so that the code
      refines the relation; [ChanThm] has the theorems about any run.

    - [MpVec]: the vectors of digits of [libmp/port] ([mpvecadd.c], [mpvecsub.c],
      [mpveccmp.c], [mpvectscmp.c], [mpvecdigmuladd.c], [mpdigdiv.c], the vector
      part of [mpmul.c]).  [MpHeap] says what a vector holds and how writes and
      reads may overlap; [MpVecThm], [MpCmp], [MpMul], [MpVecMul] and [MpKaratsuba]
      show what each routine computes.
    - [MpInt]: the integers: [mpaux.c], [mpcmp.c], [mpadd.c], [mpsub.c], [mpleft.c],
      [mpright.c], [mpmul.c], [mpdiv.c], [mpmod.c] and the conversions from and to
      machine integers.  [MpState] has the invariant of the states (each integer
      has its own block of digits) and what an operation on one integer leaves of the others;
      [MpArith], [MpMulInt], [MpShift], [MpDigit], [MpDiv], [MpDivInt] and [MpDivThm]
      follow one operation each, [MpGrow] the sizes of the blocks; [MpThm] has the
      theorems, over any program of operations.

    ** What the theorems show

    The codec: encoding and decoding round trip, the decoder accepts exactly the
    encodings, both stay inside their buffers on any input, and decoding then
    re-encoding in place restores every byte.  Directory entries: the same, and
    [statcheck] is exact.  Framing: messages are reassembled however they are
    split.  The hash table refines a finite map.  File trees: any legal sequence
    of calls is safe, counts are exact, create, walk and directory reads agree.
    The server (one whose application supplies the operations, without a file
    tree): no legal conversation stops it, each message is answered once with
    the type that answers it, a flush is answered after what it flushes,
    a quiet server holds nothing, and which messages end it in any state.  Runes: [chartorune] accepts exactly
    shortest UTF-8, and the string routines agree with that decoding.  Names:
    [cleanname] computes the shortest form of a name in place, and leaves a name in
    that form as it is.  Fields: lines are cut into exactly the tokens and fields of
    the reference definitions, inside the line and the array, and quoted words come
    back from a line or a quoted copy.  Sorting: [qsort] leaves a permutation of the
    array whatever the comparison answers, in order if it is that of an order.  Numbers:
    exact values, clamped at the limits of their types.  Bytes as text: base 16,
    32 and 64 round trip, base 32 for some lengths only.  Locks: mutual exclusion,
    no lost wakeup and no abort but that of a scan without a slot, in any
    interleaving of the legal calls of any number of processes; scans of the
    table share out its slots, end, and may come round without one.  Channels: in any
    interleaving of calls in order nothing aborts or touches freed memory, a
    channel is a queue from senders' memory to receivers', each call moves at
    most one value and its answer and [err] say which, nobody waits for what could proceed, and threads that commit to each
    other meet.  Integers: any lawful program of operations of [libmp] refines arithmetic
    on the integers, whatever arguments are the same integer (but a quotient is
    neither dividend nor divisor); the Karatsuba product
    and Knuth's long division are exact.

    Some theorems show what the code does where it does not do what it means
    to: the wrap of a data count in the decoder, the messages that stop a
    server, a flush of its own tag, a failed [canlock] that lets two holders in,
    the overflow test of [strtoull], the bytes [enc32] forgets, an [alt] that
    names a channel twice, the name of a device read past its end, a closed channel freed under an [alt], the counter of
    a channel that wraps, quotients and remainders with a wrong sign or value.

    ** Bounds and fuel

    Loops over memory take the length of memory as fuel: a pointer that only
    advances must leave memory, and trap, before.  [respond] and [closereq] call
    each other; their fuel is the number of requests plus three, and [srv_safe]
    shows that it is never used up.  [getqlp] scans 1024 slots, and
    [getqlp_terminates] that this is enough.  A memory leaves [2^17] bytes of the
    address space unused ([mem_ok]) so that a pointer advanced by a 16-bit length
    does not wrap.  A call on a
    channel is in order ([legal] in [ChanExec]) when its channels exist and were
    not freed, none is named twice, values have room for an element, and the
    counter of the circular buffer does not wrap or wraps harmlessly
    ([ring_room]); the loops of [channel.c] are structural.
    The recursion of [mpvecmul] has the longer length plus one as fuel, since each level
    shortens it; [mpdigdiv] takes at most 32 rounds, and a trial digit of [mpdiv] at
    most three.  The theorems on the integers of [libmp] are about states without the
    [MPtimesafe] numbers that take another path ([mpvectscmp] and [mpvectsmul] have
    theorems of their own); a program is lawful ([lawful] in [MpThm]) when its
    arguments exist and it keeps away from the divisions that come out wrong.

    ** What is not modelled

    The kernel and hosts are Rust; [read], [rendezvous] and the semaphore calls
    appear as the steps they take.  Of [lib9p]: the end of [srv] when the
    connection closes, authentication over a file, posting and listening, the
    application's callbacks (a callback may keep a request and answer it later,
    in any order), and [ramfs].  A section of [qlock.c] under the spin lock of a
    lock is one step, as [Lock] justifies for programs without a failed [canlock]
    (so a [canqlock] whose [canlock] fails is not in the legal runs), and so is a
    section of [channel.c] under [chanlock].  The table of slots has no lock:
    what a scan of it finds in a step is any slot that is free when it is taken,
    or none, and [QLockScan] shows that interleaved scans do that.  Of [libthread]: the scheduler, the
    rendezvous of its threads (a step of the channels), creation and killing of
    threads and processes.  Of [libc]: quoting of strings of runes and
    the verbs that print quoted strings, the allocator, formatted output, floating
    point, time, and the system call wrappers.  Of [libmp]: text and bytes ([strtomp],
    [mpfmt], [betomp] and the like), powers, greatest common divisors, fields and random
    numbers; a failed allocation, and lengths that overflow an [int].  Other libraries, the commands, APE and vendored
    code are outside.  The next part of the plan is the allocator. *)

From Stdlib Require Export ZArith Lia.
From stdpp Require Export base numbers gmap option list.

(** * Machine integers

    The target is wasm32 ([userspace/wasm/include/u.h]): [int], [long] and
    pointers are 32 bits wide, [vlong] is 64 bits.  An unsigned value is a [Z]
    in range; arithmetic that can leave the range is wrapped explicitly. *)

Declare Scope c_scope.
Delimit Scope c_scope with C.

Open Scope Z_scope.

Definition u8 (x : Z) : Z := x mod 2 ^ 8.
Definition u16 (x : Z) : Z := x mod 2 ^ 16.
Definition u32 (x : Z) : Z := x mod 2 ^ 32.
Definition u64 (x : Z) : Z := x mod 2 ^ 64.

(** Two's complement reading of a 32-bit (64-bit) pattern. *)
Definition s32 (x : Z) : Z :=
  let y := u32 x in if y <? 2 ^ 31 then y else y - 2 ^ 32.
Definition s64 (x : Z) : Z :=
  let y := u64 x in if y <? 2 ^ 63 then y else y - 2 ^ 64.
Definition s8 (x : Z) : Z :=
  let y := u8 x in if y <? 2 ^ 7 then y else y - 2 ^ 8.

(** Pointer arithmetic on a 32-bit address space. *)
Definition padd (p n : Z) : Z := u32 (p + n).
Notation "p +p n" := (padd p n) (at level 50, left associativity) : c_scope.

Definition is_byte (b : Z) : Prop := 0 <= b < 256.
Definition Zlen {A} (l : list A) : Z := Z.of_nat (length l).

(** [C] tests are integers; [cbool] is how a comparison becomes one. *)
Definition cbool (b : bool) : Z := if b then 1 else 0.

(** * Tactics *)

(** Turn boolean comparisons in hypotheses into propositions. *)
Ltac zbool :=
  repeat match goal with
  | H : (_ && _) = true |- _ => apply andb_prop in H; destruct H
  | H : (_ || _) = false |- _ => apply orb_false_elim in H; destruct H
  | H : negb _ = true |- _ => apply negb_true_iff in H
  | H : negb _ = false |- _ => apply negb_false_iff in H
  | H : (_ <? _) = true |- _ => apply Z.ltb_lt in H
  | H : (_ <? _) = false |- _ => apply Z.ltb_ge in H
  | H : (_ <=? _) = true |- _ => apply Z.leb_le in H
  | H : (_ <=? _) = false |- _ => apply Z.leb_gt in H
  | H : (_ =? _) = true |- _ => apply Z.eqb_eq in H
  | H : (_ =? _) = false |- _ => apply Z.eqb_neq in H
  | H : (_ >? _) = true |- _ => rewrite Z.gtb_ltb in H
  | H : (_ >? _) = false |- _ => rewrite Z.gtb_ltb in H
  end.

(** Decide a comparison appearing in the goal by [lia]. *)
Ltac zif :=
  repeat match goal with
  | |- context [?a >? ?b] => rewrite (Z.gtb_ltb a b)
  | |- context [?a <? ?b] =>
      first [ rewrite (proj2 (Z.ltb_lt a b)) by lia
            | rewrite (proj2 (Z.ltb_ge a b)) by lia ]
  | |- context [?a <=? ?b] =>
      first [ rewrite (proj2 (Z.leb_le a b)) by lia
            | rewrite (proj2 (Z.leb_gt a b)) by lia ]
  | |- context [?a =? ?b] =>
      first [ rewrite (proj2 (Z.eqb_eq a b)) by lia
            | rewrite (proj2 (Z.eqb_neq a b)) by lia ]
  end.

(** Unfold the width functions so that [lia] sees the [mod]s. *)
Ltac width_lia :=
  unfold u8, u16, u32, u64, padd, is_byte, Zlen in *;
  repeat match goal with
  | |- context [2 ^ ?k] => let v := eval vm_compute in (2 ^ k) in change (2 ^ k) with v
  | H : context [2 ^ ?k] |- _ =>
      let v := eval vm_compute in (2 ^ k) in change (2 ^ k) with v in H
  end; Z.div_mod_to_equations; lia.

(** * Hint databases *)

Create HintDb width discriminated.
Create HintDb mem discriminated.
Create Rewrite HintDb zlen.

Lemma u8_small x : 0 <= x < 256 -> u8 x = x.
Proof. intros; apply Z.mod_small; lia. Qed.
Lemma u16_small x : 0 <= x < 65536 -> u16 x = x.
Proof. intros; apply Z.mod_small; lia. Qed.
Lemma u32_small x : 0 <= x < 2 ^ 32 -> u32 x = x.
Proof. intros; apply Z.mod_small; lia. Qed.
Lemma u64_small x : 0 <= x < 2 ^ 64 -> u64 x = x.
Proof. intros; apply Z.mod_small; lia. Qed.
Lemma padd_small p n : 0 <= p + n < 2 ^ 32 -> padd p n = p + n.
Proof. apply u32_small. Qed.

Lemma u8_range x : is_byte (u8 x).
Proof. apply Z.mod_pos_bound; lia. Qed.
Lemma u16_range x : 0 <= u16 x < 65536.
Proof. apply Z.mod_pos_bound; lia. Qed.
Lemma u32_range x : 0 <= u32 x < 2 ^ 32.
Proof. apply Z.mod_pos_bound; lia. Qed.
Lemma u64_range x : 0 <= u64 x < 2 ^ 64.
Proof. apply Z.mod_pos_bound; lia. Qed.

#[export] Hint Resolve u8_range u16_range u32_range u64_range : width.

Lemma s32_small x : 0 <= x < 2 ^ 31 -> s32 x = x.
Proof.
  intros H. unfold s32. rewrite u32_small by lia.
  destruct (Z.ltb_spec x (2 ^ 31)); lia.
Qed.

Lemma s32_range x : - 2 ^ 31 <= s32 x < 2 ^ 31.
Proof.
  unfold s32. pose proof (u32_range x). destruct (Z.ltb_spec (u32 x) (2 ^ 31)); lia.
Qed.

(** Setting disjoint bits is addition. *)
Lemma lor_disjoint a b n :
  0 <= n -> 0 <= a -> 0 <= b < 2 ^ n -> Z.lor (a * 2 ^ n) b = a * 2 ^ n + b.
Proof.
  intros Hn Ha Hb. rewrite <- Z.add_lor_land.
  replace (Z.land (a * 2 ^ n) b) with 0; [lia|].
  symmetry. apply Z.bits_inj'. intros i Hi. rewrite Z.bits_0, Z.land_spec.
  destruct (Z.ltb_spec i n).
  - rewrite Z.mul_pow2_bits_low by lia. reflexivity.
  - replace (Z.testbit b i) with false; [apply andb_false_r|].
    symmetry. destruct (Z.eq_dec b 0) as [->|]; [apply Z.bits_0|].
    apply Z.bits_above_log2; [lia|].
    apply Z.log2_lt_pow2; [lia|]. apply Z.lt_le_trans with (2 ^ n); [lia|].
    apply Z.pow_le_mono_r; lia.
Qed.

(** * Lists with [Z] indices *)

Lemma Zlen_nil {A} : Zlen (@nil A) = 0.
Proof. reflexivity. Qed.
Lemma Zlen_cons {A} (x : A) l : Zlen (x :: l) = 1 + Zlen l.
Proof. unfold Zlen. simpl length. lia. Qed.
Lemma Zlen_app {A} (l k : list A) : Zlen (l ++ k) = Zlen l + Zlen k.
Proof. unfold Zlen. rewrite length_app. lia. Qed.
Lemma Zlen_nonneg {A} (l : list A) : 0 <= Zlen l.
Proof. unfold Zlen. lia. Qed.

#[export] Instance Zlen_perm {A} : Proper ((≡ₚ) ==> eq) (@Zlen A).
Proof. intros l k H. unfold Zlen. by rewrite H. Qed.

Lemma to_nat_Zlen {A} (l : list A) : Z.to_nat (Zlen l) = length l.
Proof. unfold Zlen. lia. Qed.

#[export] Hint Rewrite @Zlen_nil @Zlen_cons @Zlen_app : zlen.
#[export] Hint Resolve Zlen_nonneg : width.

(** Record that every length in sight is not negative. *)
Ltac zpos :=
  repeat match goal with
  | |- context [@Zlen ?A ?l] =>
      lazymatch goal with
      | _ : 0 <= Zlen l |- _ => fail
      | _ => pose proof (@Zlen_nonneg A l)
      end
  | _ : context [@Zlen ?A ?l] |- _ =>
      lazymatch goal with
      | _ : 0 <= Zlen l |- _ => fail
      | _ => pose proof (@Zlen_nonneg A l)
      end
  end.

(** Drop the wraps of values known to be small, innermost first. *)
Ltac u32s :=
  repeat match goal with
  | |- context [u32 ?e] =>
      lazymatch e with
      | context [u32 _] => fail
      | _ => rewrite (u32_small e) by lia
      end
  end.

(** * Sums over a store *)

Definition msum {A} (g : A -> Z) (m : gmap Z A) : Z := map_fold (fun _ x n => g x + n) 0 m.

Section Msum.
Context {A : Type} (g : A -> Z).

Lemma msum_empty : msum g ∅ = 0.
Proof. reflexivity. Qed.

Lemma msum_new m k x : m !! k = None -> msum g (<[k := x]> m) = g x + msum g m.
Proof. intros H. unfold msum. rewrite map_fold_insert_L; [done| |done]. intros. lia. Qed.

Lemma msum_delete m k x : m !! k = Some x -> msum g (delete k m) = msum g m - g x.
Proof.
  intros H. rewrite <- (insert_delete_id m k x H) at 2.
  rewrite msum_new by apply lookup_delete_eq. lia.
Qed.

Lemma msum_set m k x y : m !! k = Some x -> msum g (<[k := y]> m) = msum g m - g x + g y.
Proof.
  intros H. rewrite <- insert_delete_eq, msum_new by apply lookup_delete_eq.
  rewrite (msum_delete m k x H). lia.
Qed.

Context (Hg : forall x, 0 <= g x).

Lemma msum_nonneg m : 0 <= msum g m.
Proof.
  induction m as [|k x m Hk IH] using map_ind; [done|].
  rewrite msum_new by done. specialize (Hg x). lia.
Qed.

Lemma msum_le m k x : m !! k = Some x -> g x <= msum g m.
Proof. intros H. pose proof (msum_delete m k x H). pose proof (msum_nonneg (delete k m)). lia. Qed.

Lemma msum_pos m : 0 < msum g m -> exists k x, m !! k = Some x /\ 0 < g x.
Proof.
  induction m as [|k x m Hk IH] using map_ind; [rewrite msum_empty; lia|].
  rewrite msum_new by done. intros H. destruct (decide (0 < g x)) as [|Hx].
  - exists k, x. by rewrite lookup_insert_eq.
  - destruct IH as (k' & y & Hk' & Hy); [specialize (Hg x); lia|].
    exists k', y. rewrite lookup_insert_ne by congruence. done.
Qed.

Lemma msum_none m : (forall k x, m !! k = Some x -> g x = 0) -> msum g m = 0.
Proof.
  intros H. pose proof (msum_nonneg m). destruct (decide (0 < msum g m)) as [Hp|]; [|lia].
  destruct (msum_pos m Hp) as (k & x & Hk & Hx). specialize (H k x Hk). lia.
Qed.

End Msum.
