(* ===== verification/Mem.v ===== *)
(** Linear memory and the program monad.

    A compiled program sees one WebAssembly linear memory: a byte array
    addressed by 32-bit integers, where an access beyond the end traps.  The
    byte-level components of this development are written against that memory:
    a pointer is an address, [nil] is 0, pointer arithmetic wraps at [2 ^ 32],
    and a computation is a function from a memory to either a result with the
    memory it leaves, or [None] for a trap ([abort] included). *)

From S2P Require Import Prelude.

Definition mem := list Z.

(** * The monad *)

Definition M (A : Type) : Type := mem -> option (A * mem).

#[export] Instance M_ret : MRet M := fun A x m => Some (x, m).
#[export] Instance M_bind : MBind M := fun A B k c m =>
  match c m with Some (x, m') => k x m' | None => None end.

Definition trap {A} : M A := fun _ => None.

(** Address [a] of a byte array. *)
Definition lk (l : list Z) (a : Z) : option Z :=
  if 0 <=? a then l !! Z.to_nat a else None.

Definition ld8 (a : Z) : M Z := fun m =>
  match lk m a with Some b => Some (b, m) | None => None end.

Definition st8 (a v : Z) : M unit := fun m =>
  if (0 <=? a) && (a <? Zlen m) then Some (tt, <[Z.to_nat a := u8 v]> m) else None.

(** A [char] load sign-extends. *)
Definition ldc (a : Z) : M Z := b ← ld8 a; mret (s8 b).

(** Fuel for a loop that advances a pointer through memory: it must leave
    memory, and trap, before this many iterations. *)
Definition memfuel : M nat := fun m => Some (S (length m), m).

(** * Memory contents *)

(** [m] with the bytes [bs] written at [a]. *)
Definition wr (m : mem) (a : Z) (bs : list Z) : mem :=
  take (Z.to_nat a) m ++ bs ++ drop (Z.to_nat a + length bs) m.

Definition in_mem (m : mem) (a n : Z) : Prop := 0 <= a /\ 0 <= n /\ a + n <= Zlen m.

Definition bytes_at (m : mem) (a : Z) (bs : list Z) : Prop :=
  in_mem m a (Zlen bs) /\ forall i, 0 <= i < Zlen bs -> lk m (a + i) = lk bs i.

(** A C string of contents [s]: no NUL inside, a NUL after. *)
Definition nonul (s : list Z) : Prop := Forall (fun b => 0 < b < 256) s.
Definition cstr_at (m : mem) (a : Z) (s : list Z) : Prop :=
  nonul s /\ bytes_at m a (s ++ [0]).

(** Memories agree outside [[a, a+n)]. *)
Definition same_outside (a n : Z) (m m' : mem) : Prop :=
  Zlen m' = Zlen m /\ forall i, i < a \/ a + n <= i -> lk m' i = lk m i.

(** A memory of bytes that does not fill the address space: a pointer into it
    can be advanced by any 16-bit length without wrapping. *)
Definition mem_ok (m : mem) : Prop := Forall is_byte m /\ Zlen m + 2 ^ 17 <= 2 ^ 32.

(** * Running computations *)

Lemma bind_run {A B} (c : M A) (k : A -> M B) m x m' :
  c m = Some (x, m') -> (c ≫= k) m = k x m'.
Proof. intros H. unfold mbind, M_bind. by rewrite H. Qed.

Lemma bind_trap {A B} (c : M A) (k : A -> M B) m : c m = None -> (c ≫= k) m = None.
Proof. intros H. unfold mbind, M_bind. by rewrite H. Qed.

Lemma bind_inv {A B} (c : M A) (k : A -> M B) m r :
  (c ≫= k) m = Some r -> exists x m', c m = Some (x, m') /\ k x m' = Some r.
Proof.
  unfold mbind, M_bind. destruct (c m) as [[x m']|] eqn:E; [|done]. eauto.
Qed.

Lemma ret_run {A} (x : A) m : (mret x : M A) m = Some (x, m).
Proof. reflexivity. Qed.

(** * Lookups *)

Lemma lk_Some l a b : lk l a = Some b -> 0 <= a < Zlen l.
Proof.
  unfold lk, Zlen. destruct (Z.leb_spec 0 a); [|done].
  intros H1. apply lookup_lt_Some in H1. lia.
Qed.

Lemma lk_ge l a : Zlen l <= a -> lk l a = None.
Proof.
  unfold lk, Zlen. intros H. destruct (Z.leb_spec 0 a); [|done].
  apply lookup_ge_None. lia.
Qed.

Lemma lk_neg l a : a < 0 -> lk l a = None.
Proof. unfold lk. intros H. destruct (Z.leb_spec 0 a); [lia|done]. Qed.

Lemma lk_in l a : 0 <= a < Zlen l -> exists b, lk l a = Some b.
Proof.
  unfold lk, Zlen. intros H. destruct (Z.leb_spec 0 a); [|lia].
  apply lookup_lt_is_Some. lia.
Qed.

Lemma lk_byte m a b : Forall is_byte m -> lk m a = Some b -> is_byte b.
Proof.
  unfold lk. destruct (0 <=? a); [|done]. intros H1 H2.
  by eapply (proj1 (Forall_lookup _ _) H1).
Qed.

Lemma lk_app_l l k a : a < Zlen l -> lk (l ++ k) a = lk l a.
Proof.
  unfold lk, Zlen. intros H. destruct (Z.leb_spec 0 a); [|done].
  apply lookup_app_l. lia.
Qed.

Lemma lk_app_r l k a : Zlen l <= a -> lk (l ++ k) a = lk k (a - Zlen l).
Proof.
  unfold lk, Zlen. intros H. rewrite !(proj2 (Z.leb_le 0 _)) by lia.
  rewrite lookup_app_r by lia. f_equal. lia.
Qed.

Lemma lk_0 x l : lk (x :: l) 0 = Some x.
Proof. reflexivity. Qed.

Lemma lk_cons x l i : 0 < i -> lk (x :: l) i = lk l (i - 1).
Proof.
  intros H. change (x :: l) with ([x] ++ l). rewrite lk_app_r; [done|].
  unfold Zlen; simpl; lia.
Qed.

Lemma lk_ext l k : (forall i, 0 <= i < Z.max (Zlen l) (Zlen k) -> lk l i = lk k i) -> l = k.
Proof.
  intros H. apply list_eq. intros i.
  destruct (decide (Z.of_nat i < Z.max (Zlen l) (Zlen k))) as [Hl|Hl].
  - specialize (H (Z.of_nat i)). unfold lk in H. rewrite Nat2Z.id in H.
    destruct (Z.leb_spec 0 (Z.of_nat i)); [|lia]. apply H. lia.
  - unfold Zlen in Hl. rewrite !lookup_ge_None_2 by lia. done.
Qed.

(** * Writes *)

Lemma Zlen_wr m a bs : in_mem m a (Zlen bs) -> Zlen (wr m a bs) = Zlen m.
Proof.
  intros (H1 & _ & H2). unfold wr, Zlen in *.
  rewrite !length_app, length_take, length_drop. lia.
Qed.

Lemma lk_wr m a bs i : in_mem m a (Zlen bs) ->
  lk (wr m a bs) i =
    if (a <=? i) && (i <? a + Zlen bs) then lk bs (i - a) else lk m i.
Proof.
  intros (H1 & _ & H2). unfold wr.
  assert (Hl : Zlen (take (Z.to_nat a) m) = a).
  { unfold Zlen in *. rewrite length_take. lia. }
  destruct (Z.leb_spec a i); simpl.
  - rewrite lk_app_r by lia. rewrite Hl.
    destruct (Z.ltb_spec i (a + Zlen bs)).
    + by rewrite lk_app_l by lia.
    + rewrite lk_app_r by lia. unfold lk.
      rewrite !(proj2 (Z.leb_le 0 _)) by (unfold Zlen in *; lia).
      rewrite lookup_drop. f_equal. unfold Zlen in *. lia.
  - rewrite lk_app_l by lia. unfold lk.
    destruct (Z.leb_spec 0 i); [|done]. by rewrite lookup_take_lt by lia.
Qed.

Lemma lk_wr_in m a bs i : in_mem m a (Zlen bs) -> a <= i < a + Zlen bs ->
  lk (wr m a bs) i = lk bs (i - a).
Proof. intros H Hi. rewrite lk_wr by done. zif. done. Qed.

Lemma lk_wr_out m a bs i : in_mem m a (Zlen bs) -> i < a \/ a + Zlen bs <= i ->
  lk (wr m a bs) i = lk m i.
Proof.
  intros H Hi. rewrite lk_wr by done.
  destruct (Z.leb_spec a i); [|done]. destruct (Z.ltb_spec i (a + Zlen bs)); [lia|done].
Qed.

Lemma wr_nil m a : wr m a [] = m.
Proof. unfold wr. simpl. rewrite Nat.add_0_r. apply take_drop. Qed.

Lemma in_mem_wr m a bs p n : in_mem m a (Zlen bs) -> in_mem (wr m a bs) p n <-> in_mem m p n.
Proof. intros H. unfold in_mem. by rewrite Zlen_wr. Qed.

Lemma wr_app m a bs cs : in_mem m a (Zlen bs + Zlen cs) ->
  wr (wr m a bs) (a + Zlen bs) cs = wr m a (bs ++ cs).
Proof.
  intros H. pose proof (Zlen_nonneg bs). pose proof (Zlen_nonneg cs).
  assert (Hb : in_mem m a (Zlen bs)) by (unfold in_mem in *; lia).
  assert (Hc : in_mem (wr m a bs) (a + Zlen bs) (Zlen cs))
    by (rewrite in_mem_wr by done; unfold in_mem in *; lia).
  assert (Ha : in_mem m a (Zlen (bs ++ cs))) by (rewrite Zlen_app; unfold in_mem in *; lia).
  apply lk_ext. intros i _. rewrite !lk_wr by done. rewrite Zlen_app.
  destruct (Z.leb_spec a i), (Z.leb_spec (a + Zlen bs) i), (Z.ltb_spec i (a + Zlen bs)),
    (Z.ltb_spec i (a + Zlen bs + Zlen cs)), (Z.ltb_spec i (a + (Zlen bs + Zlen cs)));
    simpl; try lia; try done.
  - rewrite lk_app_r by lia. f_equal; lia.
  - by rewrite lk_app_l by lia.
Qed.

Lemma wr_same_outside m a bs : in_mem m a (Zlen bs) -> same_outside a (Zlen bs) m (wr m a bs).
Proof. intros H. split; [by apply Zlen_wr|]. intros i Hi. by apply lk_wr_out. Qed.

Lemma Forall_wr m a bs : Forall is_byte m -> Forall is_byte bs -> Forall is_byte (wr m a bs).
Proof. intros H1 H2. unfold wr. rewrite !Forall_app. auto using Forall_take, Forall_drop. Qed.

Lemma mem_ok_wr m a bs : mem_ok m -> Forall is_byte bs -> in_mem m a (Zlen bs) -> mem_ok (wr m a bs).
Proof.
  intros [H1 H2] Hb Hi. split; [by apply Forall_wr|]. by rewrite Zlen_wr.
Qed.

Lemma ld8_run m a b : lk m a = Some b -> ld8 a m = Some (b, m).
Proof. intros H. unfold ld8. by rewrite H. Qed.

Lemma st8_run m a v : in_mem m a 1 -> st8 a v m = Some (tt, wr m a [u8 v]).
Proof.
  intros (H1 & _ & H2). unfold st8. zif. simpl. do 2 f_equal. unfold wr.
  simpl length. rewrite Nat.add_1_r. apply insert_take_drop. unfold Zlen in *; lia.
Qed.

(** * Byte sequences in memory *)

Lemma bytes_at_in m a bs : bytes_at m a bs -> in_mem m a (Zlen bs).
Proof. by intros []. Qed.

Lemma bytes_at_app m a bs cs :
  bytes_at m a (bs ++ cs) <-> bytes_at m a bs /\ bytes_at m (a + Zlen bs) cs.
Proof.
  pose proof (Zlen_nonneg bs). pose proof (Zlen_nonneg cs).
  unfold bytes_at, in_mem. rewrite Zlen_app. split.
  - intros [Hi Hl]. split; (split; [lia|]); intros i Hi'.
    + rewrite Hl by lia. by rewrite lk_app_l by lia.
    + rewrite <- Z.add_assoc, Hl by lia. rewrite lk_app_r by lia. f_equal; lia.
  - intros [[Hi1 Hl1] [Hi2 Hl2]]. split; [lia|]. intros i Hi'.
    destruct (Z.lt_ge_cases i (Zlen bs)).
    + rewrite lk_app_l by lia. apply Hl1; lia.
    + rewrite lk_app_r by lia. rewrite <- Hl2 by lia. f_equal; lia.
Qed.

Lemma bytes_at_cons m a b bs :
  bytes_at m a (b :: bs) <-> lk m a = Some b /\ bytes_at m (a + 1) bs.
Proof.
  change (b :: bs) with ([b] ++ bs). rewrite bytes_at_app.
  change (Zlen [b]) with 1. split; intros [H1 H2]; split; try done.
  - destruct H1 as [_ H1]. rewrite <- (Z.add_0_r a). rewrite H1 by (change (Zlen [b]) with 1; lia). done.
  - pose proof (lk_Some _ _ _ H1). split; [unfold in_mem; change (Zlen [b]) with 1; lia|].
    change (Zlen [b]) with 1. intros i Hi. assert (i = 0) as -> by lia.
    by rewrite Z.add_0_r.
Qed.

Lemma bytes_at_nil m a : bytes_at m a [] <-> 0 <= a <= Zlen m.
Proof.
  unfold bytes_at, in_mem. change (Zlen (@nil Z)) with 0. split; [lia|].
  intros H. split; [lia|]. intros; lia.
Qed.

Lemma bytes_at_wr m a bs : in_mem m a (Zlen bs) -> bytes_at (wr m a bs) a bs.
Proof.
  intros H. split; [by rewrite in_mem_wr|]. intros i Hi.
  rewrite lk_wr_in by (done || lia). f_equal; lia.
Qed.

Lemma bytes_at_agree m m' a bs :
  bytes_at m a bs -> Zlen m' = Zlen m ->
  (forall i, a <= i < a + Zlen bs -> lk m' i = lk m i) -> bytes_at m' a bs.
Proof.
  intros [H1 H2] Hl H. split; [unfold in_mem in *; by rewrite Hl|].
  intros i Hi. rewrite H by lia. by apply H2.
Qed.

Lemma bytes_at_wr_out m a bs p cs :
  in_mem m a (Zlen bs) -> bytes_at m p cs ->
  p + Zlen cs <= a \/ a + Zlen bs <= p -> bytes_at (wr m a bs) p cs.
Proof.
  intros H1 H2 Hd. eapply bytes_at_agree; [done|by apply Zlen_wr|].
  intros i Hi. apply lk_wr_out; [done|]. lia.
Qed.

Lemma wr_bytes_at m a bs : bytes_at m a bs -> wr m a bs = m.
Proof.
  intros [H1 H2]. apply lk_ext. intros i _. rewrite lk_wr by done.
  destruct (Z.leb_spec a i); [|done]. destruct (Z.ltb_spec i (a + Zlen bs)); [|done].
  simpl. rewrite <- H2 by lia. f_equal; lia.
Qed.

Lemma bytes_at_eq m a bs cs :
  bytes_at m a bs -> bytes_at m a cs -> Zlen bs = Zlen cs -> bs = cs.
Proof.
  intros [_ H1] [_ H2] Hl. apply lk_ext. intros i Hi.
  rewrite <- H1, <- H2 by lia. done.
Qed.

(** Reading back what memory holds. *)
Definition sub (m : mem) (a n : Z) : list Z := take (Z.to_nat n) (drop (Z.to_nat a) m).

Lemma Zlen_sub m a n : in_mem m a n -> Zlen (sub m a n) = n.
Proof. intros (H1&H2&H3). unfold sub, Zlen in *. rewrite length_take, length_drop. lia. Qed.

Lemma sub_bytes_at m a n : in_mem m a n -> bytes_at m a (sub m a n).
Proof.
  intros H. pose proof H as (H1&H2&H3). split; [by rewrite Zlen_sub|].
  rewrite Zlen_sub by done. intros i Hi. unfold sub, lk.
  rewrite !(proj2 (Z.leb_le 0 _)) by lia.
  rewrite lookup_take_lt by lia. rewrite lookup_drop. f_equal; lia.
Qed.

(** * C strings *)

Lemma cstr_bytes m a s : cstr_at m a s -> bytes_at m a s.
Proof. intros [_ H]. by apply bytes_at_app in H as [? _]. Qed.

Lemma cstr_cons m a b s :
  cstr_at m a (b :: s) <-> lk m a = Some b /\ 0 < b < 256 /\ cstr_at m (a + 1) s.
Proof.
  unfold cstr_at, nonul. rewrite Forall_cons_iff. simpl app. rewrite bytes_at_cons. tauto.
Qed.

Lemma cstr_nil m a : cstr_at m a [] <-> lk m a = Some 0.
Proof.
  unfold cstr_at, nonul. simpl app. rewrite bytes_at_cons, bytes_at_nil.
  split; [tauto|]. intros H. pose proof (lk_Some _ _ _ H).
  split; [by constructor|]. split; [done|lia].
Qed.

Lemma cstr_range m a s : cstr_at m a s -> 0 <= a /\ a + Zlen s < Zlen m.
Proof.
  intros [_ [(H1&_&H2) _]]. rewrite Zlen_app in H2. change (Zlen [0]) with 1 in H2. lia.
Qed.

Lemma cstr_det m a s t : cstr_at m a s -> cstr_at m a t -> s = t.
Proof.
  revert a t. induction s as [|b s IH]; intros a [|c t]; try done.
  - intros H1%cstr_nil (H2&H3&_)%cstr_cons. rewrite H1 in H2. injection H2. lia.
  - intros (H2&H3&_)%cstr_cons H1%cstr_nil. rewrite H1 in H2. injection H2. lia.
  - intros (H1&_&H2)%cstr_cons (H3&_&H4)%cstr_cons. f_equal; [congruence|eauto].
Qed.

Lemma cstr_agree m m' a s :
  cstr_at m a s -> Zlen m' = Zlen m ->
  (forall i, a <= i <= a + Zlen s -> lk m' i = lk m i) -> cstr_at m' a s.
Proof.
  intros [H1 H2] Hl H. split; [done|]. eapply bytes_at_agree; [done..|].
  rewrite Zlen_app. change (Zlen [0]) with 1. intros i Hi. apply H. lia.
Qed.

Lemma nonul_bytes s : nonul s -> Forall is_byte s.
Proof. intros H. eapply Forall_impl; [exact H|]. unfold is_byte. simpl. lia. Qed.

#[export] Hint Resolve nonul_bytes bytes_at_in : mem.
