(* ===== verification/CString.v ===== *)
(** The memory and string primitives of [libc/port]: the routines every other
    byte-level component calls.  Each is the C loop over linear memory; the
    lemmas give its effect on memory as a whole. *)

From S2P Require Import Prelude Mem.

Local Open Scope c_scope.

(** * Definitions *)

(** ** memmove.c *)

Fixpoint memmove_fwd (n : nat) (s1 s2 : Z) : M unit :=
  match n with
  | O => mret tt
  | S n => b ← ld8 s2; _ ← st8 s1 b; memmove_fwd n (s1 +p 1) (s2 +p 1)
  end.

Fixpoint memmove_back (n : nat) (s1 s2 : Z) : M unit :=
  match n with
  | O => mret tt
  | S n =>
      let s1 := s1 +p (-1) in
      let s2 := s2 +p (-1) in
      b ← ld8 s2; _ ← st8 s1 b; memmove_back n s1 s2
  end.

Definition memmove (a1 a2 n : Z) : M Z :=
  if s32 n <? 0 then trap
  else if (a2 <? a1) && (a2 +p n >? a1) then
    _ ← memmove_back (Z.to_nat n) (a1 +p n) (a2 +p n); mret a1
  else
    _ ← memmove_fwd (Z.to_nat n) a1 a2; mret a1.

(** ** memset.c, memccpy.c, memchr.c, memcmp.c *)

Fixpoint memset_loop (n : nat) (p c : Z) : M unit :=
  match n with
  | O => mret tt
  | S n => _ ← st8 p c; memset_loop n (p +p 1) c
  end.

Definition memset (ap c n : Z) : M Z := _ ← memset_loop (Z.to_nat n) ap c; mret ap.

Fixpoint memccpy_loop (n : nat) (s1 s2 c : Z) : M Z :=
  match n with
  | O => mret 0
  | S n =>
      b ← ld8 s2; _ ← st8 s1 b;
      if b =? c then mret (s1 +p 1) else memccpy_loop n (s1 +p 1) (s2 +p 1) c
  end.

Definition memccpy (a1 a2 c n : Z) : M Z := memccpy_loop (Z.to_nat n) a1 a2 (u8 c).

Fixpoint memchr_loop (n : nat) (sp c : Z) : M Z :=
  match n with
  | O => mret 0
  | S n => b ← ld8 sp; if b =? c then mret sp else memchr_loop n (sp +p 1) c
  end.

Definition memchr (ap c n : Z) : M Z := memchr_loop (Z.to_nat n) ap (u8 c).

Fixpoint memcmp_loop (n : nat) (s1 s2 : Z) : M Z :=
  match n with
  | O => mret 0
  | S n =>
      c1 ← ld8 s1; c2 ← ld8 s2;
      if negb (c1 =? c2) then mret (if c1 >? c2 then 1 else -1)
      else memcmp_loop n (s1 +p 1) (s2 +p 1)
  end.

Definition memcmp (a1 a2 n : Z) : M Z := memcmp_loop (Z.to_nat n) a1 a2.

(** ** strchr.c, strlen.c, strrchr.c *)

Fixpoint strchr_nul (fuel : nat) (s : Z) : M Z :=
  match fuel with
  | O => trap
  | S fuel => c ← ldc s; if c =? 0 then mret s else strchr_nul fuel (s +p 1)
  end.

Fixpoint strchr_loop (fuel : nat) (s c0 : Z) : M Z :=
  match fuel with
  | O => trap
  | S fuel =>
      c1 ← ldc s;
      if c1 =? 0 then mret 0
      else if c1 =? c0 then mret s else strchr_loop fuel (s +p 1) c0
  end.

Definition strchr (s c : Z) : M Z :=
  fuel ← memfuel;
  if c =? 0 then strchr_nul fuel s else strchr_loop fuel s (s8 c).

Definition strlen (s : Z) : M Z := e ← strchr s 0; mret (s32 (e - s)).

Fixpoint strrchr_loop (fuel : nat) (s c r : Z) : M Z :=
  match fuel with
  | O => trap
  | S fuel =>
      s ← strchr s c;
      if s =? 0 then mret r else strrchr_loop fuel (s +p 1) c s
  end.

Definition strrchr (s c : Z) : M Z :=
  if c =? 0 then strchr s 0
  else fuel ← memfuel; strrchr_loop fuel s c 0.

(** ** strcmp.c, strncmp.c: [unsigned c1, c2] are loaded from [char]s *)

Fixpoint strcmp_loop (fuel : nat) (s1 s2 : Z) : M Z :=
  match fuel with
  | O => trap
  | S fuel =>
      b1 ← ldc s1; b2 ← ldc s2;
      let c1 := u32 b1 in
      let c2 := u32 b2 in
      if negb (c1 =? c2) then mret (if c1 >? c2 then 1 else -1)
      else if c1 =? 0 then mret 0 else strcmp_loop fuel (s1 +p 1) (s2 +p 1)
  end.

Definition strcmp (s1 s2 : Z) : M Z := fuel ← memfuel; strcmp_loop fuel s1 s2.

Fixpoint strncmp_loop (n : nat) (s1 s2 : Z) : M Z :=
  match n with
  | O => mret 0
  | S n =>
      b1 ← ldc s1; b2 ← ldc s2;
      let c1 := u32 b1 in
      let c2 := u32 b2 in
      if negb (c1 =? c2) then mret (if c1 >? c2 then 1 else -1)
      else if c1 =? 0 then mret 0 else strncmp_loop n (s1 +p 1) (s2 +p 1)
  end.

Definition strncmp (s1 s2 n : Z) : M Z := strncmp_loop (Z.to_nat n) s1 s2.

(** ** strcpy.c, strecpy.c, strcat.c *)

Definition strcpy_N : Z := 10000.

Fixpoint strcpy_loop (fuel : nat) (s1 s2 : Z) : M unit :=
  match fuel with
  | O => trap
  | S fuel =>
      r ← memccpy s1 s2 0 strcpy_N;
      if r =? 0 then strcpy_loop fuel (s1 +p strcpy_N) (s2 +p strcpy_N) else mret tt
  end.

Definition strcpy (s1 s2 : Z) : M Z :=
  fuel ← memfuel; _ ← strcpy_loop fuel s1 s2; mret s1.

Definition strecpy (to e from : Z) : M Z :=
  if to >=? e then mret to
  else
    r ← memccpy to from 0 (u32 (e - to));
    if r =? 0 then _ ← st8 (e +p (-1)) 0; mret (e +p (-1))
    else mret (r +p (-1)).

Definition strcat (s1 s2 : Z) : M Z :=
  e ← strchr s1 0; _ ← strcpy e s2; mret s1.

(** * Specifications *)

(** Unsigned lexicographic order, as the three-way result C returns. *)
Fixpoint lexcmp (s t : list Z) : Z :=
  match s, t with
  | [], [] => 0
  | [], _ :: _ => -1
  | _ :: _, [] => 1
  | b :: s, c :: t => if b =? c then lexcmp s t else if b >? c then 1 else -1
  end.

(** Offset of the first occurrence. *)
Fixpoint find_first (c : Z) (s : list Z) : option Z :=
  match s with
  | [] => None
  | b :: s => if b =? c then Some 0 else option_map (Z.add 1) (find_first c s)
  end.

(** * Lemmas *)

(** Run the next command of a computation with a known result. *)
Ltac run_with H := erewrite bind_run by (exact H); cbv beta iota.

Lemma mem_ok_lt m a : mem_ok m -> a <= Zlen m -> a < 2 ^ 32.
Proof. intros [_ H] ?. lia. Qed.

Lemma ldc_run m a b : lk m a = Some b -> ldc a m = Some (s8 b, m).
Proof. intros H. unfold ldc. run_with (ld8_run m a b H). done. Qed.

Lemma s8_zero b : is_byte b -> (s8 b =? 0) = (b =? 0).
Proof.
  intros H. unfold s8. rewrite u8_small by (unfold is_byte in H; lia).
  change (2 ^ 7) with 128. change (2 ^ 8) with 256. unfold is_byte in H.
  destruct (Z.ltb_spec b 128); [done|].
  rewrite !(proj2 (Z.eqb_neq _ _)) by lia. done.
Qed.

Lemma s8_inj b c : is_byte b -> is_byte c -> s8 b = s8 c -> b = c.
Proof.
  unfold is_byte. intros Hb Hc. unfold s8. rewrite !u8_small by lia.
  change (2 ^ 7) with 128. change (2 ^ 8) with 256.
  destruct (Z.ltb_spec b 128), (Z.ltb_spec c 128); lia.
Qed.

(** Sign extension to [unsigned] keeps the unsigned order of the bytes. *)
Lemma u32_s8 b : is_byte b -> u32 (s8 b) = if b <? 128 then b else b + (2 ^ 32 - 256).
Proof.
  unfold is_byte. intros Hb. unfold s8. rewrite u8_small by lia.
  change (2 ^ 7) with 128. change (2 ^ 8) with 256.
  destruct (Z.ltb_spec b 128); [apply u32_small; lia|].
  unfold u32. symmetry. apply (Z.mod_unique_pos _ _ (-1)); lia.
Qed.

Lemma lk_cstr_byte m a s i b : cstr_at m a s -> lk (s ++ [0]) i = Some b -> is_byte b.
Proof.
  intros [H _] Hl. apply (lk_byte (s ++ [0]) i); [|done]. apply Forall_app.
  split; [by apply nonul_bytes|]. repeat constructor; lia.
Qed.

Lemma memmove_fwd_run m n a1 a2 bs :
  mem_ok m -> length bs = n -> bytes_at m a2 bs -> in_mem m a1 (Zlen bs) ->
  a1 <= a2 \/ a2 + Zlen bs <= a1 ->
  memmove_fwd n a1 a2 m = Some (tt, wr m a1 bs).
Proof.
  revert m a1 a2 bs. induction n as [|n IH]; intros m a1 a2 bs Hok Hn Hb Hi Hd.
  { destruct bs; [|done]. by rewrite wr_nil. }
  destruct bs as [|b bs]; [done|]. injection Hn as Hn.
  pose proof Hb as Hb'. apply bytes_at_cons in Hb as [Hb1 Hb2].
  pose proof (bytes_at_in _ _ _ Hb') as Hib.
  rewrite Zlen_cons in Hi, Hib, Hd. pose proof (Zlen_nonneg bs).
  assert (Hbb : is_byte b) by (eapply lk_byte; [apply Hok|done]).
  cbn [memmove_fwd]. run_with (ld8_run m a2 b Hb1).
  rewrite (bind_run _ _ m tt (wr m a1 [b])).
  2: { rewrite st8_run by (unfold in_mem in *; lia). by rewrite u8_small by apply Hbb. }
  assert (Hi1 : in_mem m a1 (Zlen [b])) by (change (Zlen [b]) with 1; unfold in_mem in *; lia).
  destruct Hi as (?&?&?). destruct Hib as (?&?&?).
  pose proof (mem_ok_lt m (a1 + 1) Hok ltac:(lia)).
  pose proof (mem_ok_lt m (a2 + 1) Hok ltac:(lia)).
  rewrite !padd_small by lia.
  rewrite (IH _ _ _ bs).
  - f_equal. f_equal. change (a1 + 1) with (a1 + Zlen [b]). rewrite wr_app; [done|].
    change (Zlen [b]) with 1. unfold in_mem; lia.
  - apply mem_ok_wr; [done| |done]. repeat constructor; apply Hbb.
  - done.
  - apply bytes_at_wr_out; [done|done|]. change (Zlen [b]) with 1. lia.
  - rewrite in_mem_wr by done. unfold in_mem; lia.
  - lia.
Qed.

Lemma memmove_back_run m n a1 a2 bs :
  mem_ok m -> length bs = n -> bytes_at m a2 bs -> in_mem m a1 (Zlen bs) ->
  a2 <= a1 ->
  memmove_back n (a1 + Zlen bs) (a2 + Zlen bs) m = Some (tt, wr m a1 bs).
Proof.
  revert m a1 a2 bs. induction n as [|n IH]; intros m a1 a2 bs Hok Hn Hb Hi Hd.
  { destruct bs; [|done]. by rewrite wr_nil. }
  destruct bs as [|b bs _] using rev_ind; [done|].
  rewrite length_app in Hn. simpl in Hn.
  pose proof (bytes_at_in _ _ _ Hb) as Hib.
  apply bytes_at_app in Hb as [Hb1 Hb2]. apply bytes_at_cons in Hb2 as [Hb2 _].
  assert (Hbb : is_byte b) by (eapply lk_byte; [apply Hok|done]).
  rewrite !Zlen_app in *. change (Zlen [b]) with 1 in *.
  pose proof (Zlen_nonneg bs). destruct Hi as (?&?&?). destruct Hib as (?&?&?).
  pose proof (mem_ok_lt m (a1 + Zlen bs) Hok ltac:(lia)).
  pose proof (mem_ok_lt m (a2 + Zlen bs) Hok ltac:(lia)).
  cbn [memmove_back]. rewrite !padd_small by lia.
  replace (a1 + (Zlen bs + 1) + -1) with (a1 + Zlen bs) by lia.
  replace (a2 + (Zlen bs + 1) + -1) with (a2 + Zlen bs) by lia.
  run_with (ld8_run m _ b Hb2).
  rewrite (bind_run _ _ m tt (wr m (a1 + Zlen bs) [b])).
  2: { rewrite st8_run by (unfold in_mem; lia). by rewrite u8_small by apply Hbb. }
  assert (Hi1 : in_mem m (a1 + Zlen bs) (Zlen [b]))
    by (change (Zlen [b]) with 1; unfold in_mem; lia).
  rewrite IH.
  - f_equal. f_equal.
    assert (Hin : in_mem m a1 (Zlen bs)) by (unfold in_mem; lia).
    assert (Hin' : in_mem m a1 (Zlen (bs ++ [b])))
      by (rewrite Zlen_app; change (Zlen [b]) with 1; unfold in_mem; lia).
    apply lk_ext. intros i _.
    rewrite !lk_wr by (try rewrite in_mem_wr; done).
    rewrite Zlen_app. change (Zlen [b]) with 1.
    destruct (Z.leb_spec a1 i), (Z.leb_spec (a1 + Zlen bs) i), (Z.ltb_spec i (a1 + Zlen bs)),
      (Z.ltb_spec i (a1 + Zlen bs + 1)), (Z.ltb_spec i (a1 + (Zlen bs + 1)));
      simpl; try lia; try done.
    + rewrite lk_app_r by lia. f_equal; lia.
    + by rewrite lk_app_l by lia.
  - apply mem_ok_wr; [done| |done]. repeat constructor; apply Hbb.
  - lia.
  - apply bytes_at_wr_out; [done|done|]. lia.
  - rewrite in_mem_wr by done. unfold in_mem; lia.
  - lia.
Qed.

(** [memmove] copies as if through a temporary, whatever the overlap. *)
Lemma memmove_run m a1 a2 bs :
  mem_ok m -> bytes_at m a2 bs -> in_mem m a1 (Zlen bs) -> Zlen bs < 2 ^ 31 ->
  memmove a1 a2 (Zlen bs) m = Some (a1, wr m a1 bs).
Proof.
  intros Hok Hb Hi Hn. pose proof (bytes_at_in _ _ _ Hb) as Hib.
  pose proof (Zlen_nonneg bs). destruct Hi as (?&?&?), Hib as (?&?&?).
  pose proof (mem_ok_lt m (a1 + Zlen bs) Hok ltac:(lia)).
  pose proof (mem_ok_lt m (a2 + Zlen bs) Hok ltac:(lia)).
  unfold memmove. rewrite s32_small by lia. rewrite Z.gtb_ltb.
  rewrite !padd_small by lia.
  assert (Hnat : length bs = Z.to_nat (Zlen bs)) by (unfold Zlen; lia).
  destruct (Z.ltb_spec (Zlen bs) 0); [lia|].
  destruct (Z.ltb_spec a2 a1), (Z.ltb_spec a1 (a2 + Zlen bs)); cbn [andb].
  1: rewrite (bind_run _ _ m tt (wr m a1 bs)); [done|];
    apply memmove_back_run; (done || (unfold in_mem; lia)).
  all: rewrite (bind_run _ _ m tt (wr m a1 bs)); [done|];
    apply (memmove_fwd_run m _ a1 a2); (done || (unfold in_mem; lia)).
Qed.

Lemma memset_loop_run m n p c :
  mem_ok m -> in_mem m p (Z.of_nat n) ->
  memset_loop n p c m = Some (tt, wr m p (replicate n (u8 c))).
Proof.
  revert m p. induction n as [|n IH]; intros m p Hok Hi.
  { simpl. by rewrite wr_nil. }
  destruct Hi as (?&?&?).
  pose proof (mem_ok_lt m (p + 1) Hok ltac:(lia)).
  cbn [memset_loop]. erewrite bind_run by (apply st8_run; unfold in_mem; lia).
  assert (Hi1 : in_mem m p (Zlen [u8 c])) by (change (Zlen [u8 c]) with 1; unfold in_mem; lia).
  rewrite padd_small by lia. rewrite IH.
  - f_equal. f_equal. change (p + 1) with (p + Zlen [u8 c]). rewrite wr_app; [done|].
    change (Zlen [u8 c]) with 1. unfold Zlen at 1. rewrite length_replicate.
    unfold in_mem; lia.
  - apply mem_ok_wr; [done| |done]. repeat constructor; apply u8_range.
  - rewrite in_mem_wr by done. unfold in_mem; lia.
Qed.

(** ** Scanning strings *)

Lemma strchr_nul_run m a s fuel :
  mem_ok m -> cstr_at m a s -> (length s < fuel)%nat ->
  strchr_nul fuel a m = Some (a + Zlen s, m).
Proof.
  revert a fuel. induction s as [|b s IH]; intros a [|fuel] Hok Hs Hf; try (simpl in Hf; lia).
  - apply cstr_nil in Hs. cbn [strchr_nul]. run_with (ldc_run m a 0 Hs).
    change (Zlen (@nil Z)) with 0. by rewrite Z.add_0_r.
  - pose proof (cstr_range _ _ _ Hs) as [??]. rewrite Zlen_cons in *.
    pose proof (Zlen_nonneg s).
    apply cstr_cons in Hs as (Hb&Hr&Hs).
    cbn [strchr_nul]. run_with (ldc_run m a b Hb).
    rewrite s8_zero by (unfold is_byte; lia). rewrite (proj2 (Z.eqb_neq b 0)) by lia.
    pose proof (mem_ok_lt m (a + 1) Hok ltac:(lia)).
    rewrite padd_small by lia. rewrite IH; [|done..|simpl in Hf; lia].
    do 2 f_equal. lia.
Qed.

Lemma cstr_fuel m a s : cstr_at m a s -> (length s < S (length m))%nat.
Proof. intros H. apply cstr_range in H as [H1 H2]. unfold Zlen in H2. lia. Qed.

Lemma strlen_run m a s :
  mem_ok m -> cstr_at m a s -> Zlen s < 2 ^ 31 -> strlen a m = Some (Zlen s, m).
Proof.
  intros Hok Hs Hn. unfold strlen, strchr. pose proof (Zlen_nonneg s).
  rewrite (bind_run _ _ m (a + Zlen s) m).
  - rewrite ret_run. do 2 f_equal. rewrite s32_small; lia.
  - unfold memfuel. erewrite bind_run by done. rewrite Z.eqb_refl.
    apply strchr_nul_run; [done..|by eapply cstr_fuel].
Qed.

Lemma strchr_loop_run m a s c fuel :
  mem_ok m -> cstr_at m a s -> 0 < c < 256 -> (length s < fuel)%nat ->
  strchr_loop fuel a (s8 c) m =
    Some (match find_first c s with Some i => a + i | None => 0 end, m).
Proof.
  intros Hok Hs Hc. revert a fuel Hs. induction s as [|b s IH];
    intros a [|fuel] Hs Hf; try (simpl in Hf; lia).
  - apply cstr_nil in Hs. cbn [strchr_loop]. run_with (ldc_run m a 0 Hs). done.
  - pose proof (cstr_range _ _ _ Hs) as [??]. rewrite Zlen_cons in *.
    pose proof (Zlen_nonneg s).
    apply cstr_cons in Hs as (Hb&Hr&Hs).
    cbn [strchr_loop find_first]. run_with (ldc_run m a b Hb).
    rewrite s8_zero by (unfold is_byte; lia). rewrite (proj2 (Z.eqb_neq b 0)) by lia.
    destruct (Z.eqb_spec b c) as [->|Hne].
    + rewrite Z.eqb_refl, Z.add_0_r. done.
    + rewrite (proj2 (Z.eqb_neq (s8 b) (s8 c))).
      2: { intros He. apply Hne, s8_inj; (done || unfold is_byte; lia). }
      pose proof (mem_ok_lt m (a + 1) Hok ltac:(lia)).
      rewrite padd_small by lia. rewrite IH; [|done|simpl in Hf; lia].
      destruct (find_first c s); simpl; [|done]. do 2 f_equal. lia.
Qed.

Lemma strchr_run m a s c :
  mem_ok m -> cstr_at m a s -> 0 < c < 256 ->
  strchr a c m = Some (match find_first c s with Some i => a + i | None => 0 end, m).
Proof.
  intros Hok Hs Hc. unfold strchr, memfuel. erewrite bind_run by done.
  rewrite (proj2 (Z.eqb_neq c 0)) by lia.
  apply strchr_loop_run; [done..|by eapply cstr_fuel].
Qed.

(** ** Comparison *)

Lemma cmp_bytes b c : is_byte b -> is_byte c ->
  (u32 (s8 b) =? u32 (s8 c)) = (b =? c) /\ (u32 (s8 b) >? u32 (s8 c)) = (b >? c).
Proof.
  intros Hb Hc. rewrite !u32_s8 by done. rewrite !Z.gtb_ltb. unfold is_byte in *.
  destruct (Z.ltb_spec b 128), (Z.ltb_spec c 128), (Z.eqb_spec b c), (Z.ltb_spec c b);
    split; zif; lia.
Qed.

Lemma strcmp_loop_run m a1 a2 s t fuel :
  mem_ok m -> cstr_at m a1 s -> cstr_at m a2 t -> (length s < fuel)%nat ->
  strcmp_loop fuel a1 a2 m = Some (lexcmp s t, m).
Proof.
  intros Hok. revert a1 a2 t fuel. induction s as [|b s IH];
    intros a1 a2 t [|fuel] Hs Ht Hf; try (simpl in Hf; lia); cbn [strcmp_loop].
  - apply cstr_nil in Hs. run_with (ldc_run m a1 0 Hs). destruct t as [|c t].
    + apply cstr_nil in Ht. run_with (ldc_run m a2 0 Ht). done.
    + apply cstr_cons in Ht as (Hb&Hr&Ht). run_with (ldc_run m a2 c Hb).
      destruct (cmp_bytes 0 c) as [-> ->]; [unfold is_byte; lia..|].
      rewrite Z.gtb_ltb. zif. simpl. done.
  - pose proof (cstr_range _ _ _ Hs) as [??]. rewrite Zlen_cons in *.
    pose proof (Zlen_nonneg s).
    apply cstr_cons in Hs as (Hb&Hr&Hs). run_with (ldc_run m a1 b Hb).
    destruct t as [|c t].
    + apply cstr_nil in Ht. run_with (ldc_run m a2 0 Ht).
      destruct (cmp_bytes b 0) as [-> ->]; [unfold is_byte; lia..|].
      rewrite Z.gtb_ltb. zif. simpl. done.
    + pose proof (cstr_range _ _ _ Ht) as [??]. rewrite Zlen_cons in *.
      pose proof (Zlen_nonneg t).
      apply cstr_cons in Ht as (Hc&Hrc&Ht). run_with (ldc_run m a2 c Hc).
      destruct (cmp_bytes b c) as [-> ->]; [unfold is_byte; lia..|].
      cbn [lexcmp]. destruct (Z.eqb_spec b c) as [->|Hne]; simpl negb; cbn iota; [|done].
      rewrite u32_s8 by (unfold is_byte; lia).
      rewrite (proj2 (Z.eqb_neq (if c <? 128 then _ else _) 0)) by (destruct (c <? 128); lia).
      pose proof (mem_ok_lt m (a1 + 1) Hok ltac:(lia)).
      pose proof (mem_ok_lt m (a2 + 1) Hok ltac:(lia)).
      rewrite !padd_small by lia. apply IH; [done..|simpl in Hf; lia].
Qed.

Lemma strcmp_run m a1 a2 s t :
  mem_ok m -> cstr_at m a1 s -> cstr_at m a2 t ->
  strcmp a1 a2 m = Some (lexcmp s t, m).
Proof.
  intros. unfold strcmp, memfuel. erewrite bind_run by done.
  apply strcmp_loop_run; [done..|by eapply cstr_fuel].
Qed.

Lemma lexcmp_eq s t : lexcmp s t = 0 <-> s = t.
Proof.
  revert t. induction s as [|b s IH]; intros [|c t]; simpl; try (split; (lia || done)).
  destruct (Z.eqb_spec b c) as [->|].
  - rewrite IH. split; congruence.
  - destruct (b >? c); split; (lia || congruence).
Qed.
