(* ===== verification/Fcall.v ===== *)
(** 9P2000 messages: the [Fcall] and [Dir] structures, the byte-order macros of
    [fcall.h], and the wire format they are codes for.

    [Fcall] is the C structure with its pointers as addresses into memory; the
    members of its union are separate fields, because no message reads a member
    that another message's code wrote.  [Msg] is the protocol's own view of a
    message, with strings and data as byte sequences, and [wire] its encoding. *)

From S2P Require Import Prelude Mem CString.

Local Open Scope c_scope.

(** * Definitions *)

Definition BIT8SZ : Z := 1.
Definition BIT16SZ : Z := 2.
Definition BIT32SZ : Z := 4.
Definition BIT64SZ : Z := 8.
Definition QIDSZ : Z := BIT8SZ + BIT32SZ + BIT64SZ.
Definition STATFIXLEN : Z := BIT16SZ + QIDSZ + 5 * BIT16SZ + 4 * BIT32SZ + 1 * BIT64SZ.
Definition MAXWELEM : Z := 16.
Definition NOTAG : Z := u16 (Z.lnot 0).
Definition NOFID : Z := u32 (Z.lnot 0).
Definition IOHDRSZ : Z := 24.

Definition Tversion : Z := 100.
Definition Rversion : Z := 101.
Definition Tauth : Z := 102.
Definition Rauth : Z := 103.
Definition Tattach : Z := 104.
Definition Rattach : Z := 105.
Definition Rerror : Z := 107.
Definition Tflush : Z := 108.
Definition Rflush : Z := 109.
Definition Twalk : Z := 110.
Definition Rwalk : Z := 111.
Definition Topen : Z := 112.
Definition Ropen : Z := 113.
Definition Tcreate : Z := 114.
Definition Rcreate : Z := 115.
Definition Tread : Z := 116.
Definition Rread : Z := 117.
Definition Twrite : Z := 118.
Definition Rwrite : Z := 119.
Definition Tclunk : Z := 120.
Definition Rclunk : Z := 121.
Definition Tremove : Z := 122.
Definition Rremove : Z := 123.
Definition Tstat : Z := 124.
Definition Rstat : Z := 125.
Definition Twstat : Z := 126.
Definition Rwstat : Z := 127.

Record Qid := mkQid { q_path : Z; q_vers : Z; q_type : Z }.

Record Fcall := mkFcall {
  f_type : Z;
  f_fid : Z;
  f_tag : Z;
  f_msize : Z;
  f_version : Z;
  f_oldtag : Z;
  f_ename : Z;
  f_qid : Qid;
  f_iounit : Z;
  f_aqid : Qid;
  f_afid : Z;
  f_uname : Z;
  f_aname : Z;
  f_perm : Z;
  f_name : Z;
  f_mode : Z;
  f_newfid : Z;
  f_nwname : Z;
  f_wname : list Z;
  f_nwqid : Z;
  f_wqid : list Qid;
  f_offset : Z;
  f_count : Z;
  f_data : Z;
  f_nstat : Z;
  f_stat : Z
}.

Definition set_type (v : Z) (f : Fcall) : Fcall :=
    mkFcall v f.(f_fid) f.(f_tag) f.(f_msize) f.(f_version) f.(f_oldtag) f.(f_ename)
    f.(f_qid) f.(f_iounit) f.(f_aqid) f.(f_afid) f.(f_uname) f.(f_aname) f.(f_perm)
    f.(f_name) f.(f_mode) f.(f_newfid) f.(f_nwname) f.(f_wname) f.(f_nwqid) f.(f_wqid)
    f.(f_offset) f.(f_count) f.(f_data) f.(f_nstat) f.(f_stat).
Definition set_fid (v : Z) (f : Fcall) : Fcall :=
    mkFcall f.(f_type) v f.(f_tag) f.(f_msize) f.(f_version) f.(f_oldtag) f.(f_ename)
    f.(f_qid) f.(f_iounit) f.(f_aqid) f.(f_afid) f.(f_uname) f.(f_aname) f.(f_perm)
    f.(f_name) f.(f_mode) f.(f_newfid) f.(f_nwname) f.(f_wname) f.(f_nwqid) f.(f_wqid)
    f.(f_offset) f.(f_count) f.(f_data) f.(f_nstat) f.(f_stat).
Definition set_tag (v : Z) (f : Fcall) : Fcall :=
    mkFcall f.(f_type) f.(f_fid) v f.(f_msize) f.(f_version) f.(f_oldtag) f.(f_ename)
    f.(f_qid) f.(f_iounit) f.(f_aqid) f.(f_afid) f.(f_uname) f.(f_aname) f.(f_perm)
    f.(f_name) f.(f_mode) f.(f_newfid) f.(f_nwname) f.(f_wname) f.(f_nwqid) f.(f_wqid)
    f.(f_offset) f.(f_count) f.(f_data) f.(f_nstat) f.(f_stat).
Definition set_msize (v : Z) (f : Fcall) : Fcall :=
    mkFcall f.(f_type) f.(f_fid) f.(f_tag) v f.(f_version) f.(f_oldtag) f.(f_ename)
    f.(f_qid) f.(f_iounit) f.(f_aqid) f.(f_afid) f.(f_uname) f.(f_aname) f.(f_perm)
    f.(f_name) f.(f_mode) f.(f_newfid) f.(f_nwname) f.(f_wname) f.(f_nwqid) f.(f_wqid)
    f.(f_offset) f.(f_count) f.(f_data) f.(f_nstat) f.(f_stat).
Definition set_version (v : Z) (f : Fcall) : Fcall :=
    mkFcall f.(f_type) f.(f_fid) f.(f_tag) f.(f_msize) v f.(f_oldtag) f.(f_ename) f.(f_qid)
    f.(f_iounit) f.(f_aqid) f.(f_afid) f.(f_uname) f.(f_aname) f.(f_perm) f.(f_name)
    f.(f_mode) f.(f_newfid) f.(f_nwname) f.(f_wname) f.(f_nwqid) f.(f_wqid) f.(f_offset)
    f.(f_count) f.(f_data) f.(f_nstat) f.(f_stat).
Definition set_oldtag (v : Z) (f : Fcall) : Fcall :=
    mkFcall f.(f_type) f.(f_fid) f.(f_tag) f.(f_msize) f.(f_version) v f.(f_ename) f.(f_qid)
    f.(f_iounit) f.(f_aqid) f.(f_afid) f.(f_uname) f.(f_aname) f.(f_perm) f.(f_name)
    f.(f_mode) f.(f_newfid) f.(f_nwname) f.(f_wname) f.(f_nwqid) f.(f_wqid) f.(f_offset)
    f.(f_count) f.(f_data) f.(f_nstat) f.(f_stat).
Definition set_ename (v : Z) (f : Fcall) : Fcall :=
    mkFcall f.(f_type) f.(f_fid) f.(f_tag) f.(f_msize) f.(f_version) f.(f_oldtag) v
    f.(f_qid) f.(f_iounit) f.(f_aqid) f.(f_afid) f.(f_uname) f.(f_aname) f.(f_perm)
    f.(f_name) f.(f_mode) f.(f_newfid) f.(f_nwname) f.(f_wname) f.(f_nwqid) f.(f_wqid)
    f.(f_offset) f.(f_count) f.(f_data) f.(f_nstat) f.(f_stat).
Definition set_qid (v : Qid) (f : Fcall) : Fcall :=
    mkFcall f.(f_type) f.(f_fid) f.(f_tag) f.(f_msize) f.(f_version) f.(f_oldtag)
    f.(f_ename) v f.(f_iounit) f.(f_aqid) f.(f_afid) f.(f_uname) f.(f_aname) f.(f_perm)
    f.(f_name) f.(f_mode) f.(f_newfid) f.(f_nwname) f.(f_wname) f.(f_nwqid) f.(f_wqid)
    f.(f_offset) f.(f_count) f.(f_data) f.(f_nstat) f.(f_stat).
Definition set_iounit (v : Z) (f : Fcall) : Fcall :=
    mkFcall f.(f_type) f.(f_fid) f.(f_tag) f.(f_msize) f.(f_version) f.(f_oldtag)
    f.(f_ename) f.(f_qid) v f.(f_aqid) f.(f_afid) f.(f_uname) f.(f_aname) f.(f_perm)
    f.(f_name) f.(f_mode) f.(f_newfid) f.(f_nwname) f.(f_wname) f.(f_nwqid) f.(f_wqid)
    f.(f_offset) f.(f_count) f.(f_data) f.(f_nstat) f.(f_stat).
Definition set_aqid (v : Qid) (f : Fcall) : Fcall :=
    mkFcall f.(f_type) f.(f_fid) f.(f_tag) f.(f_msize) f.(f_version) f.(f_oldtag)
    f.(f_ename) f.(f_qid) f.(f_iounit) v f.(f_afid) f.(f_uname) f.(f_aname) f.(f_perm)
    f.(f_name) f.(f_mode) f.(f_newfid) f.(f_nwname) f.(f_wname) f.(f_nwqid) f.(f_wqid)
    f.(f_offset) f.(f_count) f.(f_data) f.(f_nstat) f.(f_stat).
Definition set_afid (v : Z) (f : Fcall) : Fcall :=
    mkFcall f.(f_type) f.(f_fid) f.(f_tag) f.(f_msize) f.(f_version) f.(f_oldtag)
    f.(f_ename) f.(f_qid) f.(f_iounit) f.(f_aqid) v f.(f_uname) f.(f_aname) f.(f_perm)
    f.(f_name) f.(f_mode) f.(f_newfid) f.(f_nwname) f.(f_wname) f.(f_nwqid) f.(f_wqid)
    f.(f_offset) f.(f_count) f.(f_data) f.(f_nstat) f.(f_stat).
Definition set_uname (v : Z) (f : Fcall) : Fcall :=
    mkFcall f.(f_type) f.(f_fid) f.(f_tag) f.(f_msize) f.(f_version) f.(f_oldtag)
    f.(f_ename) f.(f_qid) f.(f_iounit) f.(f_aqid) f.(f_afid) v f.(f_aname) f.(f_perm)
    f.(f_name) f.(f_mode) f.(f_newfid) f.(f_nwname) f.(f_wname) f.(f_nwqid) f.(f_wqid)
    f.(f_offset) f.(f_count) f.(f_data) f.(f_nstat) f.(f_stat).
Definition set_aname (v : Z) (f : Fcall) : Fcall :=
    mkFcall f.(f_type) f.(f_fid) f.(f_tag) f.(f_msize) f.(f_version) f.(f_oldtag)
    f.(f_ename) f.(f_qid) f.(f_iounit) f.(f_aqid) f.(f_afid) f.(f_uname) v f.(f_perm)
    f.(f_name) f.(f_mode) f.(f_newfid) f.(f_nwname) f.(f_wname) f.(f_nwqid) f.(f_wqid)
    f.(f_offset) f.(f_count) f.(f_data) f.(f_nstat) f.(f_stat).
Definition set_perm (v : Z) (f : Fcall) : Fcall :=
    mkFcall f.(f_type) f.(f_fid) f.(f_tag) f.(f_msize) f.(f_version) f.(f_oldtag)
    f.(f_ename) f.(f_qid) f.(f_iounit) f.(f_aqid) f.(f_afid) f.(f_uname) f.(f_aname) v
    f.(f_name) f.(f_mode) f.(f_newfid) f.(f_nwname) f.(f_wname) f.(f_nwqid) f.(f_wqid)
    f.(f_offset) f.(f_count) f.(f_data) f.(f_nstat) f.(f_stat).
Definition set_name (v : Z) (f : Fcall) : Fcall :=
    mkFcall f.(f_type) f.(f_fid) f.(f_tag) f.(f_msize) f.(f_version) f.(f_oldtag)
    f.(f_ename) f.(f_qid) f.(f_iounit) f.(f_aqid) f.(f_afid) f.(f_uname) f.(f_aname)
    f.(f_perm) v f.(f_mode) f.(f_newfid) f.(f_nwname) f.(f_wname) f.(f_nwqid) f.(f_wqid)
    f.(f_offset) f.(f_count) f.(f_data) f.(f_nstat) f.(f_stat).
Definition set_mode (v : Z) (f : Fcall) : Fcall :=
    mkFcall f.(f_type) f.(f_fid) f.(f_tag) f.(f_msize) f.(f_version) f.(f_oldtag)
    f.(f_ename) f.(f_qid) f.(f_iounit) f.(f_aqid) f.(f_afid) f.(f_uname) f.(f_aname)
    f.(f_perm) f.(f_name) v f.(f_newfid) f.(f_nwname) f.(f_wname) f.(f_nwqid) f.(f_wqid)
    f.(f_offset) f.(f_count) f.(f_data) f.(f_nstat) f.(f_stat).
Definition set_newfid (v : Z) (f : Fcall) : Fcall :=
    mkFcall f.(f_type) f.(f_fid) f.(f_tag) f.(f_msize) f.(f_version) f.(f_oldtag)
    f.(f_ename) f.(f_qid) f.(f_iounit) f.(f_aqid) f.(f_afid) f.(f_uname) f.(f_aname)
    f.(f_perm) f.(f_name) f.(f_mode) v f.(f_nwname) f.(f_wname) f.(f_nwqid) f.(f_wqid)
    f.(f_offset) f.(f_count) f.(f_data) f.(f_nstat) f.(f_stat).
Definition set_nwname (v : Z) (f : Fcall) : Fcall :=
    mkFcall f.(f_type) f.(f_fid) f.(f_tag) f.(f_msize) f.(f_version) f.(f_oldtag)
    f.(f_ename) f.(f_qid) f.(f_iounit) f.(f_aqid) f.(f_afid) f.(f_uname) f.(f_aname)
    f.(f_perm) f.(f_name) f.(f_mode) f.(f_newfid) v f.(f_wname) f.(f_nwqid) f.(f_wqid)
    f.(f_offset) f.(f_count) f.(f_data) f.(f_nstat) f.(f_stat).
Definition set_wname (v : list Z) (f : Fcall) : Fcall :=
    mkFcall f.(f_type) f.(f_fid) f.(f_tag) f.(f_msize) f.(f_version) f.(f_oldtag)
    f.(f_ename) f.(f_qid) f.(f_iounit) f.(f_aqid) f.(f_afid) f.(f_uname) f.(f_aname)
    f.(f_perm) f.(f_name) f.(f_mode) f.(f_newfid) f.(f_nwname) v f.(f_nwqid) f.(f_wqid)
    f.(f_offset) f.(f_count) f.(f_data) f.(f_nstat) f.(f_stat).
Definition set_nwqid (v : Z) (f : Fcall) : Fcall :=
    mkFcall f.(f_type) f.(f_fid) f.(f_tag) f.(f_msize) f.(f_version) f.(f_oldtag)
    f.(f_ename) f.(f_qid) f.(f_iounit) f.(f_aqid) f.(f_afid) f.(f_uname) f.(f_aname)
    f.(f_perm) f.(f_name) f.(f_mode) f.(f_newfid) f.(f_nwname) f.(f_wname) v f.(f_wqid)
    f.(f_offset) f.(f_count) f.(f_data) f.(f_nstat) f.(f_stat).
Definition set_wqid (v : list Qid) (f : Fcall) : Fcall :=
    mkFcall f.(f_type) f.(f_fid) f.(f_tag) f.(f_msize) f.(f_version) f.(f_oldtag)
    f.(f_ename) f.(f_qid) f.(f_iounit) f.(f_aqid) f.(f_afid) f.(f_uname) f.(f_aname)
    f.(f_perm) f.(f_name) f.(f_mode) f.(f_newfid) f.(f_nwname) f.(f_wname) f.(f_nwqid) v
    f.(f_offset) f.(f_count) f.(f_data) f.(f_nstat) f.(f_stat).
Definition set_offset (v : Z) (f : Fcall) : Fcall :=
    mkFcall f.(f_type) f.(f_fid) f.(f_tag) f.(f_msize) f.(f_version) f.(f_oldtag)
    f.(f_ename) f.(f_qid) f.(f_iounit) f.(f_aqid) f.(f_afid) f.(f_uname) f.(f_aname)
    f.(f_perm) f.(f_name) f.(f_mode) f.(f_newfid) f.(f_nwname) f.(f_wname) f.(f_nwqid)
    f.(f_wqid) v f.(f_count) f.(f_data) f.(f_nstat) f.(f_stat).
Definition set_count (v : Z) (f : Fcall) : Fcall :=
    mkFcall f.(f_type) f.(f_fid) f.(f_tag) f.(f_msize) f.(f_version) f.(f_oldtag)
    f.(f_ename) f.(f_qid) f.(f_iounit) f.(f_aqid) f.(f_afid) f.(f_uname) f.(f_aname)
    f.(f_perm) f.(f_name) f.(f_mode) f.(f_newfid) f.(f_nwname) f.(f_wname) f.(f_nwqid)
    f.(f_wqid) f.(f_offset) v f.(f_data) f.(f_nstat) f.(f_stat).
Definition set_data (v : Z) (f : Fcall) : Fcall :=
    mkFcall f.(f_type) f.(f_fid) f.(f_tag) f.(f_msize) f.(f_version) f.(f_oldtag)
    f.(f_ename) f.(f_qid) f.(f_iounit) f.(f_aqid) f.(f_afid) f.(f_uname) f.(f_aname)
    f.(f_perm) f.(f_name) f.(f_mode) f.(f_newfid) f.(f_nwname) f.(f_wname) f.(f_nwqid)
    f.(f_wqid) f.(f_offset) f.(f_count) v f.(f_nstat) f.(f_stat).
Definition set_nstat (v : Z) (f : Fcall) : Fcall :=
    mkFcall f.(f_type) f.(f_fid) f.(f_tag) f.(f_msize) f.(f_version) f.(f_oldtag)
    f.(f_ename) f.(f_qid) f.(f_iounit) f.(f_aqid) f.(f_afid) f.(f_uname) f.(f_aname)
    f.(f_perm) f.(f_name) f.(f_mode) f.(f_newfid) f.(f_nwname) f.(f_wname) f.(f_nwqid)
    f.(f_wqid) f.(f_offset) f.(f_count) f.(f_data) v f.(f_stat).
Definition set_stat (v : Z) (f : Fcall) : Fcall :=
    mkFcall f.(f_type) f.(f_fid) f.(f_tag) f.(f_msize) f.(f_version) f.(f_oldtag)
    f.(f_ename) f.(f_qid) f.(f_iounit) f.(f_aqid) f.(f_afid) f.(f_uname) f.(f_aname)
    f.(f_perm) f.(f_name) f.(f_mode) f.(f_newfid) f.(f_nwname) f.(f_wname) f.(f_nwqid)
    f.(f_wqid) f.(f_offset) f.(f_count) f.(f_data) f.(f_nstat) v.

(** ** Byte order macros.  [GBIT32] is the bit pattern of the C expression. *)

Definition GBIT8 (p : Z) : M Z := ld8 p.

Definition GBIT16 (p : Z) : M Z :=
  b0 ← ld8 p; b1 ← ld8 (p +p 1);
  mret (Z.lor b0 (Z.shiftl b1 8)).

Definition GBIT32 (p : Z) : M Z :=
  b0 ← ld8 p; b1 ← ld8 (p +p 1); b2 ← ld8 (p +p 2); b3 ← ld8 (p +p 3);
  mret (Z.lor (Z.lor (Z.lor b0 (Z.shiftl b1 8)) (Z.shiftl b2 16)) (Z.shiftl b3 24)).

Definition GBIT64 (p : Z) : M Z :=
  lo ← GBIT32 p; hi ← GBIT32 (p +p 4);
  mret (Z.lor lo (Z.shiftl hi 32)).

Definition PBIT8 (p v : Z) : M unit := st8 p v.

Definition PBIT16 (p v : Z) : M unit :=
  _ ← st8 p v; st8 (p +p 1) (Z.shiftr v 8).

Definition PBIT32 (p v : Z) : M unit :=
  _ ← st8 p v; _ ← st8 (p +p 1) (Z.shiftr v 8);
  _ ← st8 (p +p 2) (Z.shiftr v 16); st8 (p +p 3) (Z.shiftr v 24).

Definition PBIT64 (p v : Z) : M unit :=
  _ ← st8 p v; _ ← st8 (p +p 1) (Z.shiftr v 8);
  _ ← st8 (p +p 2) (Z.shiftr v 16); _ ← st8 (p +p 3) (Z.shiftr v 24);
  _ ← st8 (p +p 4) (Z.shiftr v 32); _ ← st8 (p +p 5) (Z.shiftr v 40);
  _ ← st8 (p +p 6) (Z.shiftr v 48); st8 (p +p 7) (Z.shiftr v 56).

(** The codec always advances the pointer past what a macro stored or read:
    [PBIT32(p, v); p += BIT32SZ;]. *)

Definition put8 (p v : Z) : M Z := _ ← PBIT8 p v; mret (p +p BIT8SZ).
Definition put16 (p v : Z) : M Z := _ ← PBIT16 p v; mret (p +p BIT16SZ).
Definition put32 (p v : Z) : M Z := _ ← PBIT32 p v; mret (p +p BIT32SZ).
Definition put64 (p v : Z) : M Z := _ ← PBIT64 p v; mret (p +p BIT64SZ).

Definition get8 (p : Z) : M (Z * Z) := v ← GBIT8 p; mret (v, p +p BIT8SZ).
Definition get16 (p : Z) : M (Z * Z) := v ← GBIT16 p; mret (v, p +p BIT16SZ).
Definition get32 (p : Z) : M (Z * Z) := v ← GBIT32 p; mret (v, p +p BIT32SZ).
Definition get64 (p : Z) : M (Z * Z) := v ← GBIT64 p; mret (v, p +p BIT64SZ).

(** * The protocol's messages *)

(** Strings and data are byte sequences; a qid is as in [Qid]. *)
Inductive Msg :=
| MTversion (msize : Z) (version : list Z)
| MRversion (msize : Z) (version : list Z)
| MTauth (afid : Z) (uname aname : list Z)
| MRauth (aqid : Qid)
| MTattach (fid afid : Z) (uname aname : list Z)
| MRattach (qid : Qid)
| MRerror (ename : list Z)
| MTflush (oldtag : Z)
| MRflush
| MTwalk (fid newfid : Z) (wname : list (list Z))
| MRwalk (wqid : list Qid)
| MTopen (fid mode : Z)
| MRopen (qid : Qid) (iounit : Z)
| MTcreate (fid : Z) (name : list Z) (perm mode : Z)
| MRcreate (qid : Qid) (iounit : Z)
| MTread (fid offset count : Z)
| MRread (data : list Z)
| MTwrite (fid offset : Z) (data : list Z)
| MRwrite (count : Z)
| MTclunk (fid : Z)
| MRclunk
| MTremove (fid : Z)
| MRremove
| MTstat (fid : Z)
| MRstat (stat : list Z)
| MTwstat (fid : Z) (stat : list Z)
| MRwstat.

Definition msg_type (x : Msg) : Z :=
  match x with
  | MTversion _ _ => Tversion | MRversion _ _ => Rversion
  | MTauth _ _ _ => Tauth | MRauth _ => Rauth
  | MTattach _ _ _ _ => Tattach | MRattach _ => Rattach
  | MRerror _ => Rerror
  | MTflush _ => Tflush | MRflush => Rflush
  | MTwalk _ _ _ => Twalk | MRwalk _ => Rwalk
  | MTopen _ _ => Topen | MRopen _ _ => Ropen
  | MTcreate _ _ _ _ => Tcreate | MRcreate _ _ => Rcreate
  | MTread _ _ _ => Tread | MRread _ => Rread
  | MTwrite _ _ _ => Twrite | MRwrite _ => Rwrite
  | MTclunk _ => Tclunk | MRclunk => Rclunk
  | MTremove _ => Tremove | MRremove => Rremove
  | MTstat _ => Tstat | MRstat _ => Rstat
  | MTwstat _ _ => Twstat | MRwstat => Rwstat
  end.

(** Little-endian bytes of a value. *)
Fixpoint le (n : nat) (v : Z) : list Z :=
  match n with
  | O => []
  | S n => v mod 256 :: le n (v / 256)
  end.

Definition wstr (s : list Z) : list Z := le 2 (Zlen s) ++ s.
Definition wqid (q : Qid) : list Z := le 1 (q_type q) ++ le 4 (q_vers q) ++ le 8 (q_path q).

Definition wire_body (x : Msg) : list Z :=
  match x with
  | MTversion n v | MRversion n v => le 4 n ++ wstr v
  | MTauth afid u a => le 4 afid ++ wstr u ++ wstr a
  | MRauth q | MRattach q => wqid q
  | MTattach fid afid u a => le 4 fid ++ le 4 afid ++ wstr u ++ wstr a
  | MRerror e => wstr e
  | MTflush t => le 2 t
  | MTwalk fid newfid ws => le 4 fid ++ le 4 newfid ++ le 2 (Zlen ws) ++ concat (map wstr ws)
  | MRwalk qs => le 2 (Zlen qs) ++ concat (map wqid qs)
  | MTopen fid mode => le 4 fid ++ le 1 mode
  | MRopen q u | MRcreate q u => wqid q ++ le 4 u
  | MTcreate fid name perm mode => le 4 fid ++ wstr name ++ le 4 perm ++ le 1 mode
  | MTread fid off count => le 4 fid ++ le 8 off ++ le 4 count
  | MRread d => le 4 (Zlen d) ++ d
  | MTwrite fid off d => le 4 fid ++ le 8 off ++ le 4 (Zlen d) ++ d
  | MRwrite count => le 4 count
  | MTclunk fid | MTremove fid | MTstat fid => le 4 fid
  | MRstat st => le 2 (Zlen st) ++ st
  | MTwstat fid st => le 4 fid ++ le 2 (Zlen st) ++ st
  | MRflush | MRclunk | MRremove | MRwstat => []
  end.

Definition wire (tag : Z) (x : Msg) : list Z :=
  le 4 (7 + Zlen (wire_body x)) ++ le 1 (msg_type x) ++ le 2 tag ++ wire_body x.

(** ** Messages that can be encoded *)

Definition is_u16 (x : Z) : Prop := 0 <= x < 2 ^ 16.
Definition is_u32 (x : Z) : Prop := 0 <= x < 2 ^ 32.
Definition is_s64 (x : Z) : Prop := - 2 ^ 63 <= x < 2 ^ 63.

Definition qid_ok (q : Qid) : Prop :=
  is_byte (q_type q) /\ is_u32 (q_vers q) /\ 0 <= q_path q < 2 ^ 64.
Definition str_ok (s : list Z) : Prop := nonul s /\ Zlen s < 2 ^ 16.
Definition bytes_ok (n : Z) (s : list Z) : Prop := Forall is_byte s /\ Zlen s < n.

(** Well-formed, given what a string may hold. *)
Definition msg_wf (strp : list Z -> Prop) (x : Msg) : Prop :=
  match x with
  | MTversion n v | MRversion n v => is_u32 n /\ strp v
  | MTauth afid u a => is_u32 afid /\ strp u /\ strp a
  | MRauth q | MRattach q => qid_ok q
  | MTattach fid afid u a => is_u32 fid /\ is_u32 afid /\ strp u /\ strp a
  | MRerror e => strp e
  | MTflush t => is_u16 t
  | MTwalk fid newfid ws =>
      is_u32 fid /\ is_u32 newfid /\ Zlen ws <= MAXWELEM /\ Forall strp ws
  | MRwalk qs => Zlen qs <= MAXWELEM /\ Forall qid_ok qs
  | MTopen fid mode => is_u32 fid /\ is_byte mode
  | MRopen q u | MRcreate q u => qid_ok q /\ is_u32 u
  | MTcreate fid name perm mode => is_u32 fid /\ strp name /\ is_u32 perm /\ is_byte mode
  | MTread fid off count => is_u32 fid /\ is_s64 off /\ is_u32 count
  | MRread d => bytes_ok (2 ^ 31) d
  | MTwrite fid off d => is_u32 fid /\ is_s64 off /\ bytes_ok (2 ^ 31) d
  | MRwrite count => is_u32 count
  | MTclunk fid | MTremove fid | MTstat fid => is_u32 fid
  | MRstat st => bytes_ok (2 ^ 16) st
  | MTwstat fid st => is_u32 fid /\ bytes_ok (2 ^ 16) st
  | MRflush | MRclunk | MRremove | MRwstat => True
  end.

(** What the encoder accepts: strings are C strings. *)
Definition msg_ok : Msg -> Prop := msg_wf str_ok.
(** What the decoder accepts: a string is any bytes its length allows. *)
Definition raw_ok : list Z -> Prop := bytes_ok (2 ^ 16).
Definition msg_raw : Msg -> Prop := msg_wf raw_ok.

(** ** The structure [f] stands for the message [x]

    What a string or data pointer must satisfy is a parameter of the relation,
    and may depend on the offset of the field in the encoded message: the
    decoder leaves each pointer at its own field, and the encoder may be handed
    a structure whose pointers lie in the very buffer it writes. *)

Section Repr.
Context (str dat : Z -> Z -> list Z -> Prop).

Fixpoint reprs (o : Z) (ps : list Z) (ss : list (list Z)) : Prop :=
  match ps, ss with
  | _, [] => True
  | [], _ :: _ => False
  | p :: ps, s :: ss => str o p s /\ reprs (o + 2 + Zlen s) ps ss
  end.

Definition repr (f : Fcall) (x : Msg) : Prop :=
  f.(f_type) = msg_type x /\
  match x with
  | MTversion n v | MRversion n v => f.(f_msize) = n /\ str 11 f.(f_version) v
  | MTauth afid u a =>
      f.(f_afid) = afid /\ str 11 f.(f_uname) u /\ str (13 + Zlen u) f.(f_aname) a
  | MRauth q => f.(f_aqid) = q
  | MRattach q => f.(f_qid) = q
  | MTattach fid afid u a =>
      f.(f_fid) = fid /\ f.(f_afid) = afid /\ str 15 f.(f_uname) u /\
      str (17 + Zlen u) f.(f_aname) a
  | MRerror e => str 7 f.(f_ename) e
  | MTflush t => f.(f_oldtag) = t
  | MTwalk fid newfid ws =>
      f.(f_fid) = fid /\ f.(f_newfid) = newfid /\ f.(f_nwname) = Zlen ws /\
      reprs 17 f.(f_wname) ws
  | MRwalk qs => f.(f_nwqid) = Zlen qs /\ take (length qs) f.(f_wqid) = qs
  | MTopen fid mode => f.(f_fid) = fid /\ f.(f_mode) = mode
  | MRopen q u | MRcreate q u => f.(f_qid) = q /\ f.(f_iounit) = u
  | MTcreate fid name perm mode =>
      f.(f_fid) = fid /\ str 11 f.(f_name) name /\ f.(f_perm) = perm /\ f.(f_mode) = mode
  | MTread fid off count => f.(f_fid) = fid /\ f.(f_offset) = off /\ f.(f_count) = count
  | MRread d => f.(f_count) = Zlen d /\ dat 11 f.(f_data) d
  | MTwrite fid off d =>
      f.(f_fid) = fid /\ f.(f_offset) = off /\ f.(f_count) = Zlen d /\ dat 23 f.(f_data) d
  | MRwrite count => f.(f_count) = count
  | MTclunk fid | MTremove fid | MTstat fid => f.(f_fid) = fid
  | MRstat st => f.(f_nstat) = Zlen st /\ dat 9 f.(f_stat) st
  | MTwstat fid st => f.(f_fid) = fid /\ f.(f_nstat) = Zlen st /\ dat 13 f.(f_stat) st
  | MRflush | MRclunk | MRremove | MRwstat => True
  end.
End Repr.

(** * Lemmas: little-endian values *)

Fixpoint unle (bs : list Z) : Z :=
  match bs with
  | [] => 0
  | b :: bs => b + 256 * unle bs
  end.

Lemma length_le n v : length (le n v) = n.
Proof. revert v. induction n; simpl; auto. Qed.

Lemma Zlen_le n v : Zlen (le n v) = Z.of_nat n.
Proof. unfold Zlen. by rewrite length_le. Qed.

Lemma le_bytes n v : Forall is_byte (le n v).
Proof.
  revert v. induction n; intros v; simpl; constructor; [|done].
  apply Z.mod_pos_bound; lia.
Qed.

Lemma unle_le n v : unle (le n v) = v mod 2 ^ (8 * Z.of_nat n).
Proof.
  revert v. induction n as [|n IH]; intros v; simpl.
  - by rewrite Z.mod_1_r.
  - rewrite IH. replace (8 * Z.of_nat (S n)) with (8 + 8 * Z.of_nat n) by lia.
    rewrite Z.pow_add_r by lia. change (2 ^ 8) with 256.
    rewrite Z.rem_mul_r; [done|lia|]. apply Z.pow_pos_nonneg; lia.
Qed.

Lemma le_unle bs : Forall is_byte bs -> le (length bs) (unle bs) = bs.
Proof.
  induction 1 as [|b bs Hb _ IH]; simpl; [done|]. unfold is_byte in Hb.
  rewrite (Z.mul_comm 256), Z.mod_add, Z.div_add by lia.
  rewrite Z.mod_small, Z.div_small by lia. by rewrite Z.add_0_l, IH.
Qed.

Lemma unle_bound bs : Forall is_byte bs -> 0 <= unle bs < 2 ^ (8 * Zlen bs).
Proof.
  unfold Zlen. induction 1 as [|b bs Hb _ IH]; simpl length; simpl unle; [lia|].
  replace (8 * Z.of_nat (S (length bs))) with (8 + 8 * Z.of_nat (length bs)) by lia.
  rewrite Z.pow_add_r by lia. change (2 ^ 8) with 256. unfold is_byte in Hb. lia.
Qed.

Lemma le_mod n v w : v mod 2 ^ (8 * Z.of_nat n) = w mod 2 ^ (8 * Z.of_nat n) -> le n v = le n w.
Proof.
  intros H. rewrite <- !unle_le in H. rewrite <- (le_unle (le n v)), <- (le_unle (le n w)).
  - by rewrite H, !length_le.
  - apply le_bytes.
  - apply le_bytes.
Qed.

(** ** The macros *)

Lemma lor_shift a b n : 0 <= n -> 0 <= a < 2 ^ n -> 0 <= b ->
  Z.lor a (Z.shiftl b n) = a + 2 ^ n * b.
Proof.
  intros. rewrite Z.lor_comm, Z.shiftl_mul_pow2 by done.
  rewrite lor_disjoint by done. lia.
Qed.

Lemma GBIT8_unle m p b : bytes_at m p [b] -> GBIT8 p m = Some (unle [b], m).
Proof.
  intros H. apply bytes_at_cons in H as [H _]. unfold GBIT8.
  rewrite (ld8_run _ _ _ H). do 2 f_equal. simpl. lia.
Qed.

(** Split [bytes_at] of a literal list into single loads. *)
Ltac split_bytes :=
  repeat match goal with
  | H : bytes_at _ _ (_ :: _) |- _ =>
      let H1 := fresh "Hb" in apply bytes_at_cons in H as [H1 H]
  end.

Lemma GBIT16_unle m p bs :
  mem_ok m -> Zlen bs = 2 -> bytes_at m p bs -> GBIT16 p m = Some (unle bs, m).
Proof.
  intros Hok Hl H. destruct bs as [|b0 [|b1 [|]]]; try (unfold Zlen in Hl; simpl length in Hl; lia).
  pose proof (bytes_at_in _ _ _ H) as (?&_&Hu). rewrite Hl in Hu.
  pose proof (mem_ok_lt m (p + 2) Hok Hu). split_bytes. unfold GBIT16.
  pose proof (lk_byte _ _ _ (proj1 Hok) Hb) as R0.
  pose proof (lk_byte _ _ _ (proj1 Hok) Hb0) as R1. unfold is_byte in *.
  run_with (ld8_run _ _ _ Hb). rewrite padd_small by lia.
  run_with (ld8_run _ _ _ Hb0). rewrite ret_run. do 2 f_equal.
  rewrite lor_shift by lia. simpl unle. change (2 ^ 8) with 256. lia.
Qed.

Lemma GBIT32_unle m p bs :
  mem_ok m -> Zlen bs = 4 -> bytes_at m p bs -> GBIT32 p m = Some (unle bs, m).
Proof.
  intros Hok Hl H. destruct bs as [|b0 [|b1 [|b2 [|b3 [|]]]]]; try (unfold Zlen in Hl; simpl length in Hl; lia).
  pose proof (bytes_at_in _ _ _ H) as (?&_&Hu). rewrite Hl in Hu.
  pose proof (mem_ok_lt m (p + 4) Hok Hu). split_bytes.
  rewrite <- Z.add_assoc in Hb1, Hb2. rewrite <- Z.add_assoc in Hb2. simpl Z.add in Hb1, Hb2.
  unfold GBIT32.
  pose proof (lk_byte _ _ _ (proj1 Hok) Hb) as R0.
  pose proof (lk_byte _ _ _ (proj1 Hok) Hb0) as R1.
  pose proof (lk_byte _ _ _ (proj1 Hok) Hb1) as R2.
  pose proof (lk_byte _ _ _ (proj1 Hok) Hb2) as R3. unfold is_byte in *.
  rewrite !padd_small by lia.
  run_with (ld8_run _ _ _ Hb). run_with (ld8_run _ _ _ Hb0).
  run_with (ld8_run _ _ _ Hb1). run_with (ld8_run _ _ _ Hb2).
  rewrite ret_run. do 2 f_equal.
  rewrite (lor_shift b0 b1 8), (lor_shift _ b2 16), (lor_shift _ b3 24) by lia.
  simpl unle. change (2 ^ 8) with 256. change (2 ^ 16) with 65536. change (2 ^ 24) with 16777216. lia.
Qed.

Lemma bytes_at_Forall m p bs : Forall is_byte m -> bytes_at m p bs -> Forall is_byte bs.
Proof.
  intros Hm [? Hq]. apply Forall_lookup. intros i x Hx.
  pose proof (lookup_lt_Some _ _ _ Hx).
  apply (lk_byte m (p + Z.of_nat i)); [done|].
  rewrite Hq by (unfold Zlen; lia). unfold lk. rewrite Nat2Z.id.
  by rewrite (proj2 (Z.leb_le 0 _)) by lia.
Qed.

Lemma unle_app bs cs : unle (bs ++ cs) = unle bs + 2 ^ (8 * Zlen bs) * unle cs.
Proof.
  unfold Zlen. induction bs as [|b bs IH]; simpl length; simpl app; simpl unle; [lia|].
  rewrite IH. replace (8 * Z.of_nat (S (length bs))) with (8 + 8 * Z.of_nat (length bs)) by lia.
  rewrite Z.pow_add_r by lia. change (2 ^ 8) with 256. lia.
Qed.

Lemma GBIT64_unle m p bs :
  mem_ok m -> Zlen bs = 8 -> bytes_at m p bs -> GBIT64 p m = Some (unle bs, m).
Proof.
  intros Hok Hl H.
  rewrite <- (take_drop 4 bs) in H |- *.
  assert (H1 : Zlen (take 4 bs) = 4) by (unfold Zlen in *; rewrite length_take; lia).
  assert (H2 : Zlen (drop 4 bs) = 4) by (unfold Zlen in *; rewrite length_drop; lia).
  apply bytes_at_app in H as [Ha Hb]. rewrite H1 in Hb.
  pose proof (bytes_at_in _ _ _ Ha) as (?&_&?). pose proof (bytes_at_in _ _ _ Hb) as (?&_&Hu).
  rewrite H2 in Hu. pose proof (mem_ok_lt m (p + 8) Hok ltac:(lia)).
  pose proof (unle_bound _ (bytes_at_Forall _ _ _ (proj1 Hok) Ha)) as U1. pose proof (unle_bound _ (bytes_at_Forall _ _ _ (proj1 Hok) Hb)) as U2.
  rewrite H1 in U1. rewrite H2 in U2.
  unfold GBIT64. run_with (GBIT32_unle m p _ Hok H1 Ha). rewrite padd_small by lia.
  run_with (GBIT32_unle m (p + 4) _ Hok H2 Hb). rewrite ret_run. do 2 f_equal.
  rewrite lor_shift by lia. rewrite unle_app, H1. done.
Qed.

(** Reading back an encoded value. *)
Lemma GBIT8_le m p v : is_byte v -> bytes_at m p (le 1 v) -> GBIT8 p m = Some (v, m).
Proof.
  intros Hv H. rewrite (GBIT8_unle _ _ _ H). change ([v mod 256]) with (le 1 v).
  rewrite unle_le. rewrite Z.mod_small; [done|]. unfold is_byte in Hv. simpl. lia.
Qed.

Lemma GBIT16_le m p v : mem_ok m -> is_u16 v -> bytes_at m p (le 2 v) -> GBIT16 p m = Some (v, m).
Proof.
  intros Hok Hv H. rewrite (GBIT16_unle _ _ _ Hok (Zlen_le 2 v) H).
  rewrite unle_le, Z.mod_small; [done|]. exact Hv.
Qed.

Lemma GBIT32_le m p v : mem_ok m -> is_u32 v -> bytes_at m p (le 4 v) -> GBIT32 p m = Some (v, m).
Proof.
  intros Hok Hv H. rewrite (GBIT32_unle _ _ _ Hok (Zlen_le 4 v) H).
  rewrite unle_le, Z.mod_small; [done|]. exact Hv.
Qed.

Lemma GBIT64_le m p v :
  mem_ok m -> bytes_at m p (le 8 v) -> GBIT64 p m = Some (u64 v, m).
Proof.
  intros Hok H. rewrite (GBIT64_unle _ _ _ Hok (Zlen_le 8 v) H). by rewrite unle_le.
Qed.

(** Reading arbitrary bytes: some value in range, and what it is. *)
Lemma le_any m p n : mem_ok m -> in_mem m p (Z.of_nat n) ->
  exists v, 0 <= v < 2 ^ (8 * Z.of_nat n) /\ bytes_at m p (le n v).
Proof.
  intros Hok Hi. pose proof (sub_bytes_at _ _ _ Hi) as Hb.
  pose proof (bytes_at_Forall _ _ _ (proj1 Hok) Hb) as HF.
  exists (unle (sub m p (Z.of_nat n))). pose proof (unle_bound _ HF) as Hu.
  rewrite Zlen_sub in Hu by done. split; [done|].
  assert (Hl : length (sub m p (Z.of_nat n)) = n)
    by (pose proof (Zlen_sub _ _ _ Hi); unfold Zlen in *; lia).
  rewrite <- Hl at 1. by rewrite le_unle.
Qed.

Lemma GBIT8_any m p : mem_ok m -> in_mem m p 1 ->
  exists v, is_byte v /\ bytes_at m p (le 1 v) /\ GBIT8 p m = Some (v, m).
Proof.
  intros Hok Hi. destruct (le_any m p 1 Hok Hi) as (v&Hv&Hb).
  assert (is_byte v) by (unfold is_byte; simpl in Hv; lia).
  exists v. auto using GBIT8_le.
Qed.

Lemma GBIT16_any m p : mem_ok m -> in_mem m p 2 ->
  exists v, is_u16 v /\ bytes_at m p (le 2 v) /\ GBIT16 p m = Some (v, m).
Proof.
  intros Hok Hi. destruct (le_any m p 2 Hok Hi) as (v&Hv&Hb). exists v.
  assert (is_u16 v) by exact Hv. auto using GBIT16_le.
Qed.

Lemma GBIT32_any m p : mem_ok m -> in_mem m p 4 ->
  exists v, is_u32 v /\ bytes_at m p (le 4 v) /\ GBIT32 p m = Some (v, m).
Proof.
  intros Hok Hi. destruct (le_any m p 4 Hok Hi) as (v&Hv&Hb). exists v.
  assert (is_u32 v) by exact Hv. auto using GBIT32_le.
Qed.

Lemma GBIT64_any m p : mem_ok m -> in_mem m p 8 ->
  exists v, 0 <= v < 2 ^ 64 /\ bytes_at m p (le 8 v) /\ GBIT64 p m = Some (v, m).
Proof.
  intros Hok Hi. destruct (le_any m p 8 Hok Hi) as (v&Hv&Hb). exists v.
  split; [exact Hv|]. split; [done|]. rewrite (GBIT64_le _ _ _ Hok Hb).
  by rewrite u64_small.
Qed.

(** Storing a value. *)
Lemma u8_shiftr v n : 0 <= n -> u8 (Z.shiftr v n) = (v / 2 ^ n) mod 256.
Proof. intros. unfold u8. by rewrite Z.shiftr_div_pow2. Qed.

(** One more byte after those already written. *)
Lemma st8_app m p bs v : mem_ok m -> in_mem m p (Zlen bs + 1) ->
  st8 (p +p Zlen bs) v (wr m p bs) = Some (tt, wr m p (bs ++ [u8 v])).
Proof.
  intros Hok Hi. pose proof Hi as (?&?&?). pose proof (Zlen_nonneg bs).
  pose proof (mem_ok_lt m (p + Zlen bs) Hok ltac:(lia)).
  rewrite padd_small by lia. rewrite st8_run.
  - rewrite wr_app; [done|]. done.
  - rewrite in_mem_wr by (unfold in_mem; lia). unfold in_mem; lia.
Qed.

Lemma PBIT8_run m p v : in_mem m p 1 -> PBIT8 p v m = Some (tt, wr m p (le 1 v)).
Proof. intros H. unfold PBIT8. by rewrite st8_run. Qed.

Lemma div_shift v a b c : 0 <= a -> 0 <= b -> c = a + b -> v / 2 ^ a / 2 ^ b = v / 2 ^ c.
Proof.
  intros ? ? ->. rewrite Z.pow_add_r by done.
  rewrite Z.div_div; [done| |]; try apply Z.pow_nonzero; try apply Z.pow_pos_nonneg; lia.
Qed.

Lemma PBIT16_run m p v : mem_ok m -> in_mem m p 2 ->
  PBIT16 p v m = Some (tt, wr m p (le 2 v)).
Proof.
  intros Hok Hi. unfold PBIT16.
  erewrite bind_run by (apply st8_run; unfold in_mem in *; lia).
  rewrite (st8_app m p [u8 v] _ Hok) by done.
  rewrite u8_shiftr by lia. done.
Qed.

Lemma le4 v : le 4 v =
  [u8 v; u8 (Z.shiftr v 8); u8 (Z.shiftr v 16); u8 (Z.shiftr v 24)].
Proof.
  cbn [le]. rewrite !u8_shiftr by lia. change 256 with (2 ^ 8).
  rewrite !(div_shift v 8 8 16), (div_shift v 16 8 24) by lia. done.
Qed.

Lemma PBIT32_run m p v : mem_ok m -> in_mem m p 4 ->
  PBIT32 p v m = Some (tt, wr m p (le 4 v)).
Proof.
  intros Hok Hi. unfold PBIT32. rewrite le4.
  erewrite bind_run by (apply st8_run; unfold in_mem in *; lia).
  set (b0 := u8 v).
  assert (Hk : forall k, (k < 4)%nat -> in_mem m p (Z.of_nat k + 1))
    by (intros; unfold in_mem in *; lia).
  erewrite bind_run by (apply (st8_app m p [b0]); [done|exact (Hk 1%nat ltac:(lia))]).
  erewrite bind_run by (apply (st8_app m p [b0; _]); [done|exact (Hk 2%nat ltac:(lia))]).
  apply (st8_app m p [b0; _; _]); [done|exact (Hk 3%nat ltac:(lia))].
Qed.

Lemma le8 v : le 8 v =
  [u8 v; u8 (Z.shiftr v 8); u8 (Z.shiftr v 16); u8 (Z.shiftr v 24);
   u8 (Z.shiftr v 32); u8 (Z.shiftr v 40); u8 (Z.shiftr v 48); u8 (Z.shiftr v 56)].
Proof.
  cbn [le]. rewrite !u8_shiftr by lia. change 256 with (2 ^ 8).
  rewrite !(div_shift v 8 8 16), !(div_shift v 16 8 24), !(div_shift v 24 8 32),
    !(div_shift v 32 8 40), !(div_shift v 40 8 48), (div_shift v 48 8 56) by lia. done.
Qed.

Lemma PBIT64_run m p v : mem_ok m -> in_mem m p 8 ->
  PBIT64 p v m = Some (tt, wr m p (le 8 v)).
Proof.
  intros Hok Hi. unfold PBIT64. rewrite le8.
  erewrite bind_run by (apply st8_run; unfold in_mem in *; lia).
  assert (Hk : forall k, (k < 8)%nat -> in_mem m p (Z.of_nat k + 1))
    by (intros; unfold in_mem in *; lia).
  set (b0 := u8 v).
  erewrite bind_run by (apply (st8_app m p [b0]); [done|exact (Hk 1%nat ltac:(lia))]).
  erewrite bind_run by (apply (st8_app m p [b0; _]); [done|exact (Hk 2%nat ltac:(lia))]).
  erewrite bind_run by (apply (st8_app m p [b0; _; _]); [done|exact (Hk 3%nat ltac:(lia))]).
  erewrite bind_run by (apply (st8_app m p [b0; _; _; _]); [done|exact (Hk 4%nat ltac:(lia))]).
  erewrite bind_run by (apply (st8_app m p [b0; _; _; _; _]); [done|exact (Hk 5%nat ltac:(lia))]).
  erewrite bind_run
    by (apply (st8_app m p [b0; _; _; _; _; _]); [done|exact (Hk 6%nat ltac:(lia))]).
  apply (st8_app m p [b0; _; _; _; _; _; _]); [done|exact (Hk 7%nat ltac:(lia))].
Qed.
