(* ===== verification/ConvS2M.v ===== *)
(** [libc/9sys/convS2M.c]: encoding a message structure into a buffer.

    The main lemma, [convS2M_run], is functional correctness: the bytes written
    are the [wire] encoding, no byte outside them changes, and the size is
    returned.  Its hypothesis on the source strings and data is only that each
    lies wholly before the buffer or starts at or after its own field, so it
    covers the in-place re-encoding the source's comment promises. *)

From S2P Require Import Prelude Mem CString Fcall.

Local Open Scope c_scope.

(** * Definitions *)

Definition uadd (a b : Z) : Z := u32 (a + b).
Notation "a +u b" := (uadd a b) (at level 50, left associativity) : c_scope.

Definition pstring (p s : Z) : M Z :=
  if s =? 0 then
    _ ← PBIT16 p 0;
    mret (p +p BIT16SZ)
  else
    l ← strlen s;
    let n := u32 l in
    _ ← memmove (p +p BIT16SZ) s n;
    _ ← PBIT16 p n;
    mret (p +p (n +u BIT16SZ)).

Definition pqid (p : Z) (q : Qid) : M Z :=
  p ← put8 p q.(q_type);
  p ← put32 p q.(q_vers);
  put64 p q.(q_path).

Definition stringsz (s : Z) : M Z :=
  if s =? 0 then mret BIT16SZ
  else l ← strlen s; mret (BIT16SZ +u l).

(** [for(i=0; i<f->nwname; i++) n += stringsz(f->wname[i]);] *)
Fixpoint stringszs (k i : nat) (n : Z) (ws : list Z) : M Z :=
  match k with
  | O => mret n
  | S k =>
      match ws !! i with
      | None => trap
      | Some s => z ← stringsz s; stringszs k (S i) (n +u z) ws
      end
  end.

Definition sizeS2M (f : Fcall) : M Z :=
  let n := BIT32SZ + BIT8SZ + BIT16SZ in
  let t := f.(f_type) in
  if (t =? Tversion) || (t =? Rversion) then
    z ← stringsz f.(f_version); mret (n +u BIT32SZ +u z)
  else if t =? Tflush then mret (n +u BIT16SZ)
  else if t =? Tauth then
    z1 ← stringsz f.(f_uname); z2 ← stringsz f.(f_aname);
    mret (n +u BIT32SZ +u z1 +u z2)
  else if t =? Tattach then
    z1 ← stringsz f.(f_uname); z2 ← stringsz f.(f_aname);
    mret (n +u BIT32SZ +u BIT32SZ +u z1 +u z2)
  else if t =? Twalk then
    stringszs (Z.to_nat f.(f_nwname)) 0 (n +u BIT32SZ +u BIT32SZ +u BIT16SZ) f.(f_wname)
  else if t =? Topen then mret (n +u BIT32SZ +u BIT8SZ)
  else if t =? Tcreate then
    z ← stringsz f.(f_name); mret (n +u BIT32SZ +u z +u BIT32SZ +u BIT8SZ)
  else if t =? Tread then mret (n +u BIT32SZ +u BIT64SZ +u BIT32SZ)
  else if t =? Twrite then mret (n +u BIT32SZ +u BIT64SZ +u BIT32SZ +u f.(f_count))
  else if (t =? Tclunk) || (t =? Tremove) || (t =? Tstat) then mret (n +u BIT32SZ)
  else if t =? Twstat then mret (n +u BIT32SZ +u BIT16SZ +u f.(f_nstat))
  else if t =? Rerror then z ← stringsz f.(f_ename); mret (n +u z)
  else if t =? Rflush then mret n
  else if (t =? Rauth) || (t =? Rattach) then mret (n +u QIDSZ)
  else if t =? Rwalk then mret (n +u BIT16SZ +u f.(f_nwqid) * QIDSZ)
  else if (t =? Ropen) || (t =? Rcreate) then mret (n +u QIDSZ +u BIT32SZ)
  else if t =? Rread then mret (n +u BIT32SZ +u f.(f_count))
  else if t =? Rwrite then mret (n +u BIT32SZ)
  else if (t =? Rclunk) || (t =? Rremove) || (t =? Rwstat) then mret n
  else if t =? Rstat then mret (n +u BIT16SZ +u f.(f_nstat))
  else mret 0.

Fixpoint pstrings (k i : nat) (p : Z) (ws : list Z) : M Z :=
  match k with
  | O => mret p
  | S k =>
      match ws !! i with
      | None => trap
      | Some s => p ← pstring p s; pstrings k (S i) p ws
      end
  end.

Fixpoint pqids (k i : nat) (p : Z) (qs : list Qid) : M Z :=
  match k with
  | O => mret p
  | S k =>
      match qs !! i with
      | None => trap
      | Some q => p ← pqid p q; pqids k (S i) p qs
      end
  end.

(** The body of the switch: the pointer after the message, or [None] for the
    [return 0] of an unknown type or of too many path elements. *)
Definition s2m_T (p : Z) (f : Fcall) : M (option Z) :=
  let t := f.(f_type) in
  if t =? Tversion then
    p ← put32 p f.(f_msize); p ← pstring p f.(f_version); mret (Some p)
  else if t =? Tflush then
    p ← put16 p f.(f_oldtag); mret (Some p)
  else if t =? Tauth then
    p ← put32 p f.(f_afid);
    p ← pstring p f.(f_uname); p ← pstring p f.(f_aname); mret (Some p)
  else if t =? Tattach then
    p ← put32 p f.(f_fid); p ← put32 p f.(f_afid);
    p ← pstring p f.(f_uname); p ← pstring p f.(f_aname); mret (Some p)
  else if t =? Twalk then
    p ← put32 p f.(f_fid); p ← put32 p f.(f_newfid); p ← put16 p f.(f_nwname);
    if f.(f_nwname) >? MAXWELEM then mret None
    else p ← pstrings (Z.to_nat f.(f_nwname)) 0 p f.(f_wname); mret (Some p)
  else if t =? Topen then
    p ← put32 p f.(f_fid); p ← put8 p f.(f_mode); mret (Some p)
  else if t =? Tcreate then
    p ← put32 p f.(f_fid); p ← pstring p f.(f_name);
    p ← put32 p f.(f_perm); p ← put8 p f.(f_mode); mret (Some p)
  else if t =? Tread then
    p ← put32 p f.(f_fid); p ← put64 p f.(f_offset); p ← put32 p f.(f_count);
    mret (Some p)
  else if t =? Twrite then
    p ← put32 p f.(f_fid); p ← put64 p f.(f_offset); p ← put32 p f.(f_count);
    _ ← memmove p f.(f_data) f.(f_count);
    mret (Some (p +p f.(f_count)))
  else if (t =? Tclunk) || (t =? Tremove) then
    p ← put32 p f.(f_fid); mret (Some p)
  else if t =? Tstat then
    p ← put32 p f.(f_fid); mret (Some p)
  else if t =? Twstat then
    p ← put32 p f.(f_fid); p ← put16 p f.(f_nstat);
    _ ← memmove p f.(f_stat) f.(f_nstat);
    mret (Some (p +p f.(f_nstat)))
  else mret None.

Definition s2m_R (p : Z) (f : Fcall) : M (option Z) :=
  let t := f.(f_type) in
  if t =? Rversion then
    p ← put32 p f.(f_msize); p ← pstring p f.(f_version); mret (Some p)
  else if t =? Rerror then
    p ← pstring p f.(f_ename); mret (Some p)
  else if t =? Rflush then mret (Some p)
  else if t =? Rauth then
    p ← pqid p f.(f_aqid); mret (Some p)
  else if t =? Rattach then
    p ← pqid p f.(f_qid); mret (Some p)
  else if t =? Rwalk then
    p ← put16 p f.(f_nwqid);
    if f.(f_nwqid) >? MAXWELEM then mret None
    else p ← pqids (Z.to_nat f.(f_nwqid)) 0 p f.(f_wqid); mret (Some p)
  else if (t =? Ropen) || (t =? Rcreate) then
    p ← pqid p f.(f_qid); p ← put32 p f.(f_iounit); mret (Some p)
  else if t =? Rread then
    p ← put32 p f.(f_count);
    _ ← memmove p f.(f_data) f.(f_count);
    mret (Some (p +p f.(f_count)))
  else if t =? Rwrite then
    p ← put32 p f.(f_count); mret (Some p)
  else if t =? Rclunk then mret (Some p)
  else if t =? Rremove then mret (Some p)
  else if t =? Rstat then
    p ← put16 p f.(f_nstat);
    _ ← memmove p f.(f_stat) f.(f_nstat);
    mret (Some (p +p f.(f_nstat)))
  else if t =? Rwstat then mret (Some p)
  else mret None.

(** T-messages have even types and R-messages odd ones. *)
Definition s2m_body (p : Z) (f : Fcall) : M (option Z) :=
  if Z.even f.(f_type) then s2m_T p f else s2m_R p f.

Definition convS2M (f : Fcall) (ap nap : Z) : M Z :=
  size ← sizeS2M f;
  if size =? 0 then mret 0
  else if size >? nap then mret 0
  else
    p ← put32 ap size;
    p ← put8 p f.(f_type);
    p ← put16 p f.(f_tag);
    r ← s2m_body p f;
    match r with
    | None => mret 0
    | Some p => if negb (size =? u32 (p - ap)) then mret 0 else mret size
    end.

(** * Source pointers the encoder may be given

    [src m ap o p s]: the string [s] is at [p] (or [p] is [nil] and [s] empty),
    wholly before the buffer or not before its own field at offset [o]. *)

Definition src (m : mem) (ap o p : Z) (s : list Z) : Prop :=
  (p = 0 /\ s = []) \/
  (p <> 0 /\ cstr_at m p s /\ (p + Zlen s < ap \/ ap + o <= p)).

Definition dsrc (m : mem) (ap o p : Z) (d : list Z) : Prop :=
  bytes_at m p d /\ (p + Zlen d <= ap \/ ap + o <= p).

(** * Appending to what has been written *)

Implicit Types (bs cs d s h : list Z).

Create Rewrite HintDb zl.
#[export] Hint Rewrite @Zlen_nil @Zlen_cons @Zlen_app Zlen_le : zl.
Ltac zl := autorewrite with zl in *.

Lemma wr_hole m p h s : in_mem m p (Zlen h + Zlen s) ->
  wr (wr m (p + Zlen h) s) p h = wr m p (h ++ s).
Proof.
  intros H. pose proof (Zlen_nonneg h). pose proof (Zlen_nonneg s).
  assert (Hs : in_mem m (p + Zlen h) (Zlen s)) by (unfold in_mem in *; lia).
  assert (Hh : in_mem (wr m (p + Zlen h) s) p (Zlen h))
    by (rewrite in_mem_wr by done; unfold in_mem in *; lia).
  assert (Ha : in_mem m p (Zlen (h ++ s))) by (rewrite Zlen_app; done).
  apply lk_ext. intros i _. rewrite !lk_wr by done. rewrite Zlen_app.
  destruct (Z.leb_spec p i), (Z.leb_spec (p + Zlen h) i), (Z.ltb_spec i (p + Zlen h)),
    (Z.ltb_spec i (p + Zlen h + Zlen s)), (Z.ltb_spec i (p + (Zlen h + Zlen s)));
    simpl; try lia; try done.
  - rewrite lk_app_r by lia. f_equal; lia.
  - by rewrite lk_app_l by lia.
Qed.

Section Emit.
Context (m : mem) (ap N : Z) (Hok : mem_ok m) (Hroom : in_mem m ap N).

Lemma wr_ok bs : Forall is_byte bs -> Zlen bs <= N -> mem_ok (wr m ap bs).
Proof.
  intros Hb Hl. pose proof (Zlen_nonneg bs). apply mem_ok_wr; [done..|].
  unfold in_mem in *; lia.
Qed.

Lemma wr_room bs k : Zlen bs + k <= N -> 0 <= k -> in_mem (wr m ap bs) (ap + Zlen bs) k.
Proof.
  intros Hl ?. pose proof (Zlen_nonneg bs).
  rewrite in_mem_wr by (unfold in_mem in *; lia). unfold in_mem in *; lia.
Qed.

Lemma wr_next bs cs : Zlen bs + Zlen cs <= N ->
  wr (wr m ap bs) (ap + Zlen bs) cs = wr m ap (bs ++ cs).
Proof.
  intros. pose proof (Zlen_nonneg bs). pose proof (Zlen_nonneg cs).
  apply wr_app. unfold in_mem in *; lia.
Qed.

Lemma padd_next bs k : Zlen bs + k <= N -> 0 <= k ->
  (ap + Zlen bs) +p k = ap + Zlen bs + k.
Proof.
  intros. pose proof (Zlen_nonneg bs). destruct Hroom as (?&?&?).
  pose proof (mem_ok_lt m (ap + Zlen bs + k) Hok ltac:(lia)). apply padd_small. lia.
Qed.

(** The four macros, uniformly. *)
Lemma put_app (P : Z -> Z -> M unit) n bs v :
  (forall m p, mem_ok m -> in_mem m p (Z.of_nat n) -> P p v m = Some (tt, wr m p (le n v))) ->
  Forall is_byte bs -> Zlen bs + Z.of_nat n <= N ->
  (_ ← P (ap + Zlen bs) v; mret ((ap + Zlen bs) +p Z.of_nat n)) (wr m ap bs) =
    Some (ap + Zlen (bs ++ le n v), wr m ap (bs ++ le n v)).
Proof.
  intros HP Hb Hl. erewrite bind_run.
  2: { apply HP; [apply wr_ok; [done|lia]|apply wr_room; lia]. }
  rewrite ret_run, wr_next by (rewrite Zlen_le; lia).
  rewrite padd_next by lia. do 2 f_equal. rewrite Zlen_app, Zlen_le. lia.
Qed.

Lemma put8_app bs v : Forall is_byte bs -> Zlen bs + 1 <= N ->
  put8 (ap + Zlen bs) v (wr m ap bs) = Some (ap + Zlen (bs ++ le 1 v), wr m ap (bs ++ le 1 v)).
Proof. apply (put_app PBIT8 1). intros. by apply PBIT8_run. Qed.

Lemma put16_app bs v : Forall is_byte bs -> Zlen bs + 2 <= N ->
  put16 (ap + Zlen bs) v (wr m ap bs) = Some (ap + Zlen (bs ++ le 2 v), wr m ap (bs ++ le 2 v)).
Proof. apply (put_app PBIT16 2). intros. by apply PBIT16_run. Qed.

Lemma put32_app bs v : Forall is_byte bs -> Zlen bs + 4 <= N ->
  put32 (ap + Zlen bs) v (wr m ap bs) = Some (ap + Zlen (bs ++ le 4 v), wr m ap (bs ++ le 4 v)).
Proof. apply (put_app PBIT32 4). intros. by apply PBIT32_run. Qed.

Lemma put64_app bs v : Forall is_byte bs -> Zlen bs + 8 <= N ->
  put64 (ap + Zlen bs) v (wr m ap bs) = Some (ap + Zlen (bs ++ le 8 v), wr m ap (bs ++ le 8 v)).
Proof. apply (put_app PBIT64 8). intros. by apply PBIT64_run. Qed.

Lemma src_survives bs p s : Zlen bs <= N ->
  cstr_at m p s -> p + Zlen s < ap \/ ap + Zlen bs <= p -> cstr_at (wr m ap bs) p s.
Proof.
  intros Hl Hs Hd. pose proof (Zlen_nonneg bs).
  assert (in_mem m ap (Zlen bs)) by (unfold in_mem in *; lia).
  eapply cstr_agree; [done|by apply Zlen_wr|]. intros i Hi. apply lk_wr_out; [done|lia].
Qed.

Lemma pstring_app bs p s :
  Forall is_byte bs -> str_ok s -> Zlen bs + 2 + Zlen s <= N -> src m ap (Zlen bs) p s ->
  pstring (ap + Zlen bs) p (wr m ap bs) =
    Some (ap + Zlen (bs ++ wstr s), wr m ap (bs ++ wstr s)).
Proof.
  intros Hb [Hs Hsl] Hl Hsrc. pose proof (Zlen_nonneg s). unfold pstring.
  destruct Hsrc as [[-> ->]|(Hp&Hc&Hd)].
  { cbn [Z.eqb]. apply (put16_app bs 0 Hb). change (Zlen (@nil Z)) with 0 in Hl. lia. }
  rewrite (proj2 (Z.eqb_neq p 0)) by done.
  pose proof (src_survives bs p s ltac:(lia) Hc Hd) as Hc'.
  pose proof (wr_ok bs Hb ltac:(lia)) as Hok'.
  run_with (strlen_run _ _ _ Hok' Hc' ltac:(lia)).
  rewrite u32_small by lia. unfold BIT16SZ, uadd.
  rewrite (u32_small (Zlen s + 2)) by lia.
  rewrite (padd_next bs 2) by lia.
  assert (Hr : in_mem (wr m ap bs) (ap + Zlen bs) (2 + Zlen s)) by (apply wr_room; lia).
  assert (Hr2 : in_mem (wr m ap bs) (ap + Zlen bs + 2) (Zlen s)) by (unfold in_mem in *; lia).
  run_with (memmove_run _ _ _ _ Hok' (cstr_bytes _ _ _ Hc') Hr2 ltac:(lia)).
  erewrite bind_run.
  2: { apply PBIT16_run.
       - apply mem_ok_wr; [done|by apply nonul_bytes|done].
       - rewrite in_mem_wr by done. unfold in_mem in *; lia. }
  rewrite ret_run.
  pose proof (wr_hole (wr m ap bs) (ap + Zlen bs) (le 2 (Zlen s)) s) as Hh.
  rewrite Zlen_le in Hh. change (Z.of_nat 2) with 2 in Hh. rewrite Hh by done.
  rewrite padd_next by lia. rewrite wr_next by (rewrite Zlen_app, Zlen_le; lia).
  do 2 f_equal. unfold wstr. rewrite !Zlen_app, Zlen_le. lia.
Qed.

Lemma pqid_app bs q : Forall is_byte bs -> Zlen bs + 13 <= N ->
  pqid (ap + Zlen bs) q (wr m ap bs) =
    Some (ap + Zlen (bs ++ wqid q), wr m ap (bs ++ wqid q)).
Proof.
  intros Hb Hl. unfold pqid, wqid.
  assert (H1 : Forall is_byte (bs ++ le 1 (q_type q))) by (apply Forall_app; auto using le_bytes).
  run_with (put8_app bs (q_type q) Hb ltac:(lia)).
  run_with (put32_app _ (q_vers q) H1 ltac:(rewrite Zlen_app, Zlen_le; lia)).
  rewrite put64_app.
  - by rewrite !(app_assoc bs), !app_assoc.
  - apply Forall_app; auto using le_bytes.
  - rewrite !Zlen_app, !Zlen_le; lia.
Qed.

Lemma data_app bs p d :
  Forall is_byte bs -> bytes_ok (2 ^ 31) d -> Zlen bs + Zlen d <= N -> dsrc m ap (Zlen bs) p d ->
  memmove (ap + Zlen bs) p (Zlen d) (wr m ap bs) = Some (ap + Zlen bs, wr m ap (bs ++ d)).
Proof.
  intros Hb [Hd Hdl] Hl [Hs Hdis]. pose proof (Zlen_nonneg d). pose proof (Zlen_nonneg bs).
  assert (in_mem m ap (Zlen bs)) by (unfold in_mem in *; lia).
  rewrite memmove_run.
  - by rewrite wr_next.
  - by apply wr_ok; [|lia].
  - apply bytes_at_wr_out; (done || lia).
  - apply wr_room; lia.
  - lia.
Qed.

Lemma pstrings_app ws ss : forall pre bs,
  Forall is_byte bs -> Forall str_ok ss -> Zlen bs + Zlen (concat (map wstr ss)) <= N ->
  reprs (src m ap) (Zlen bs) ws ss ->
  pstrings (length ss) (length pre) (ap + Zlen bs) (pre ++ ws) (wr m ap bs) =
    Some (ap + Zlen (bs ++ concat (map wstr ss)), wr m ap (bs ++ concat (map wstr ss))).
Proof.
  revert ws. induction ss as [|s ss IH]; intros ws pre bs Hb Hss Hl Hr.
  { simpl. by rewrite app_nil_r. }
  destruct ws as [|w ws]; [done|]. destruct Hr as [Hw Hr].
  inversion Hss as [|? ? Hs Hss']; subst.
  cbn [map concat] in Hl |- *. unfold wstr in Hl at 1. rewrite !Zlen_app, Zlen_le in Hl.
  pose proof (Zlen_nonneg (concat (map wstr ss))).
  cbn [pstrings length]. rewrite lookup_app_r, Nat.sub_diag by lia. cbn [lookup list_lookup].
  run_with (pstring_app bs w s Hb Hs ltac:(lia) Hw).
  assert (Hb' : Forall is_byte (bs ++ wstr s)).
  { unfold wstr. rewrite !Forall_app. repeat split; auto using le_bytes.
    apply nonul_bytes, Hs. }
  pose proof (IH ws (pre ++ [w]) (bs ++ wstr s) Hb' Hss') as IH'.
  assert (HZ : Zlen (bs ++ wstr s) = Zlen bs + 2 + Zlen s)
    by (unfold wstr; rewrite !Zlen_app, Zlen_le; lia).
  rewrite <- !(app_assoc pre), <- !(app_assoc bs), length_app, Nat.add_1_r in IH'. simpl in IH'.
  apply IH'.
  - rewrite HZ. lia.
  - by rewrite HZ.
Qed.

Lemma pqids_app qs : forall pre bs,
  Forall is_byte bs -> Zlen bs + Zlen (concat (map wqid qs)) <= N ->
  forall rest,
  pqids (length qs) (length pre) (ap + Zlen bs) (pre ++ qs ++ rest) (wr m ap bs) =
    Some (ap + Zlen (bs ++ concat (map wqid qs)), wr m ap (bs ++ concat (map wqid qs))).
Proof.
  induction qs as [|q qs IH]; intros pre bs Hb Hl rest.
  { simpl. by rewrite app_nil_r. }
  cbn [map concat] in Hl |- *. rewrite Zlen_app in Hl.
  assert (HZ : Zlen (wqid q) = 13) by (unfold wqid; rewrite !Zlen_app, !Zlen_le; lia).
  pose proof (Zlen_nonneg (concat (map wqid qs))).
  cbn [pqids length app]. rewrite lookup_app_r, Nat.sub_diag by lia. cbn [lookup list_lookup].
  run_with (pqid_app bs q Hb ltac:(lia)).
  assert (Hb' : Forall is_byte (bs ++ wqid q)).
  { unfold wqid. rewrite !Forall_app. auto using le_bytes. }
  pose proof (IH (pre ++ [q]) (bs ++ wqid q) Hb') as IH'.
  rewrite <- !(app_assoc bs), length_app, Nat.add_1_r in IH'.
  specialize (IH' ltac:(rewrite Zlen_app; lia) rest).
  rewrite <- (app_assoc pre) in IH'. simpl in IH'. exact IH'.
Qed.
End Emit.

(** * The encoder *)

(** Decide the type tests of a switch whose type is known. *)
Ltac eval_types :=
  repeat match goal with
  | |- context [Z.eqb ?a ?b] =>
      let v := eval vm_compute in (Z.eqb a b) in
      match v with
      | true => change (Z.eqb a b) with true
      | false => change (Z.eqb a b) with false
      end
  | |- context [Z.even ?a] =>
      let v := eval vm_compute in (Z.even a) in
      match v with
      | true => change (Z.even a) with true
      | false => change (Z.even a) with false
      end
  end; cbn [orb]; cbv iota.

Lemma Zlen_wstr s : Zlen (wstr s) = 2 + Zlen s.
Proof. unfold wstr. rewrite Zlen_app, Zlen_le. lia. Qed.
Lemma Zlen_wqid q : Zlen (wqid q) = 13.
Proof. unfold wqid. rewrite !Zlen_app, !Zlen_le. lia. Qed.
#[export] Hint Rewrite Zlen_wstr Zlen_wqid : zl.

Lemma Zlen_wqids qs : Zlen (concat (map wqid qs)) = 13 * Zlen qs.
Proof.
  induction qs as [|q qs IH]; [done|]. cbn [map concat].
  rewrite Zlen_app, Zlen_cons, IH, Zlen_wqid. lia.
Qed.

Lemma wstr_bytes s : str_ok s -> Forall is_byte (wstr s).
Proof. intros [H _]. apply Forall_app. auto using le_bytes, nonul_bytes. Qed.
Lemma wqid_bytes q : Forall is_byte (wqid q).
Proof. unfold wqid. rewrite !Forall_app. auto using le_bytes. Qed.

Lemma Zlen_wire tag x : Zlen (wire tag x) = 7 + Zlen (wire_body x).
Proof. unfold wire. rewrite !Zlen_app, !Zlen_le. lia. Qed.

(** Prove that some bytes are bytes, and that lengths fit. *)
Ltac fbytes :=
  repeat first [ assumption | apply le_bytes | apply wqid_bytes
               | apply wstr_bytes; assumption | apply Forall_app; split | apply Forall_nil; done ].
Ltac zlia := autorewrite with zl in *; try change (Zlen (@nil Z)) with 0 in *; zpos; lia.

Lemma bytes_ok_weaken n k d : n <= k -> bytes_ok n d -> bytes_ok k d.
Proof. intros ? []. split; [done|lia]. Qed.

(** The same with the offset of the source given by the message's layout. *)
Lemma pstring_at m ap N o bs p s :
  mem_ok m -> in_mem m ap N -> src m ap o p s -> str_ok s -> o = Zlen bs ->
  Forall is_byte bs -> Zlen bs + 2 + Zlen s <= N ->
  pstring (ap + Zlen bs) p (wr m ap bs) =
    Some (ap + Zlen (bs ++ wstr s), wr m ap (bs ++ wstr s)).
Proof. intros ? ? ? ? -> ? ?. by eapply pstring_app. Qed.

Lemma data_at m ap N o bs p d :
  mem_ok m -> in_mem m ap N -> dsrc m ap o p d -> bytes_ok (2 ^ 31) d -> o = Zlen bs ->
  Forall is_byte bs -> Zlen bs + Zlen d <= N ->
  memmove (ap + Zlen bs) p (Zlen d) (wr m ap bs) = Some (ap + Zlen bs, wr m ap (bs ++ d)).
Proof. intros ? ? ? ? -> ? ?. by eapply data_app. Qed.

Ltac emit Hok Hroom :=
  first
  [ rewrite ret_run
  | erewrite bind_run by (apply (put8_app _ _ _ Hok Hroom); [fbytes|zlia])
  | erewrite bind_run by (apply (put16_app _ _ _ Hok Hroom); [fbytes|zlia])
  | erewrite bind_run by (apply (put32_app _ _ _ Hok Hroom); [fbytes|zlia])
  | erewrite bind_run by (apply (put64_app _ _ _ Hok Hroom); [fbytes|zlia])
  | erewrite bind_run by (apply (pqid_app _ _ _ Hok Hroom); [fbytes|zlia])
  | erewrite bind_run by (eapply (pstring_at _ _ _ _ _ _ _ Hok Hroom);
      [eassumption|assumption|zlia|fbytes|zlia])
  | erewrite bind_run by (eapply (data_at _ _ _ _ _ _ _ Hok Hroom);
      [eassumption|assumption|zlia|fbytes|zlia]) ].

Lemma stringsz_run m ap o p s :
  mem_ok m -> src m ap o p s -> str_ok s -> stringsz p m = Some (2 + Zlen s, m).
Proof.
  intros Hok Hs [_ Hl]. pose proof (Zlen_nonneg s). unfold stringsz.
  destruct Hs as [[-> ->]|(Hp&Hc&_)]; [done|].
  rewrite (proj2 (Z.eqb_neq p 0)) by done.
  run_with (strlen_run m p s Hok Hc ltac:(lia)). rewrite ret_run. do 2 f_equal.
  unfold uadd, BIT16SZ. apply u32_small. lia.
Qed.

Lemma stringszs_run m ap ws ss : forall pre o n,
  mem_ok m -> Forall str_ok ss -> reprs (src m ap) o ws ss ->
  0 <= n -> n + Zlen (concat (map wstr ss)) < 2 ^ 32 ->
  stringszs (length ss) (length pre) n (pre ++ ws) m =
    Some (n + Zlen (concat (map wstr ss)), m).
Proof.
  revert ws. induction ss as [|s ss IH]; intros ws pre o n Hok Hss Hr Hn Hl.
  { simpl. change (Zlen (@nil Z)) with 0. by rewrite Z.add_0_r. }
  destruct ws as [|w ws]; [done|]. destruct Hr as [Hw Hr].
  inversion Hss as [|? ? Hs Hss']; subst. cbn [map concat] in *. rewrite Zlen_app, Zlen_wstr in *.
  pose proof (Zlen_nonneg (concat (map wstr ss))). pose proof (Zlen_nonneg s).
  cbn [stringszs length]. rewrite lookup_app_r, Nat.sub_diag by lia. cbn [lookup list_lookup].
  run_with (stringsz_run m ap o w s Hok Hw Hs).
  unfold uadd. rewrite u32_small by lia.
  pose proof (IH ws (pre ++ [w]) _ (n + (2 + Zlen s)) Hok Hss' Hr ltac:(lia) ltac:(lia)) as IH'.
  rewrite <- (app_assoc pre), length_app, Nat.add_1_r in IH'. simpl in IH'.
  rewrite IH'. do 2 f_equal. lia.
Qed.

(** [sizeS2M] computes the length of the encoding. *)
Lemma sizeS2M_run m ap f x :
  mem_ok m -> msg_ok x -> repr (src m ap) (dsrc m ap) f x ->
  7 + Zlen (wire_body x) < 2 ^ 32 ->
  sizeS2M f m = Some (7 + Zlen (wire_body x), m).
Proof.
  intros Hok Hx [Ht Hr] Hl. unfold sizeS2M. rewrite Ht. clear Ht.
  destruct x; cbn [msg_type]; eval_types;
    unfold msg_ok in *; cbn [wire_body msg_wf] in *; destruct_and?;
    change (BIT32SZ + BIT8SZ + BIT16SZ) with 7;
    unfold QIDSZ, BIT8SZ, BIT16SZ, BIT32SZ, BIT64SZ, uadd in *;
    rewrite ?Zlen_app, ?Zlen_wqids, ?Zlen_le, ?Zlen_wqid, ?Zlen_wstr in *;
    repeat (erewrite bind_run by (eapply stringsz_run; eassumption));
    repeat match goal with
    | H : f_count f = _ |- _ => rewrite H
    | H : f_nstat f = _ |- _ => rewrite H
    | H : f_nwqid f = _ |- _ => rewrite H
    | H : f_nwname f = _ |- _ => rewrite H
    end; zpos; u32s; rewrite ?to_nat_Zlen;
    try (erewrite (stringszs_run m ap (f_wname f) _ []) by (eassumption || lia));
    rewrite ?ret_run; do 2 f_equal; lia.
Qed.

Lemma s2m_body_run m ap N f x bs :
  mem_ok m -> in_mem m ap N -> msg_ok x -> repr (src m ap) (dsrc m ap) f x ->
  Forall is_byte bs -> Zlen bs = 7 -> 7 + Zlen (wire_body x) <= N ->
  s2m_body (ap + Zlen bs) f (wr m ap bs) =
    Some (Some (ap + Zlen (bs ++ wire_body x)), wr m ap (bs ++ wire_body x)).
Proof.
  intros Hok Hroom Hx [Ht Hr] Hb Hbl Hl. unfold s2m_body, s2m_T, s2m_R. rewrite Ht. clear Ht.
  destruct x; cbn [msg_type]; eval_types;
    unfold msg_ok in *; cbn [wire_body msg_wf] in *; destruct_and?;
    rewrite ?Zlen_app, ?Zlen_le, ?Zlen_wqid, ?Zlen_wstr in Hl;
    repeat match goal with
    | H : f_count f = _ |- _ => rewrite H
    | H : f_nstat f = _ |- _ => rewrite H
    | H : bytes_ok (2 ^ 16) _ |- _ => apply (bytes_ok_weaken _ (2 ^ 31)) in H; [|lia]
    end.
  all: subst; repeat emit Hok Hroom; rewrite <- ?app_assoc, ?app_nil_r; try done.
  all: try (rewrite (padd_next m ap N Hok Hroom) by zlia; do 3 f_equal;
            autorewrite with zl; lia).
  all: match goal with H : _ = Zlen _ |- _ => rewrite H end;
    rewrite Z.gtb_ltb, (proj2 (Z.ltb_ge _ _)) by done; rewrite to_nat_Zlen.
  - erewrite bind_run.
    2: { eapply (pstrings_app m ap N Hok Hroom (f_wname f) _ []); [fbytes|done|zlia|].
         replace (Zlen (bs ++ _)) with 17 by zlia. done. }
    rewrite ret_run, <- !app_assoc. done.
  - rewrite <- (take_drop (length wqid) (f_wqid f)).
    match goal with H : take _ _ = _ |- _ => rewrite H end.
    erewrite bind_run.
    2: { eapply (pqids_app m ap N Hok Hroom wqid []); [fbytes|zlia]. }
    rewrite ret_run, <- !app_assoc. done.
Qed.

(** Functional correctness of the encoder. *)
Lemma convS2M_run m ap nap f tag x :
  mem_ok m -> in_mem m ap nap -> msg_ok x -> f.(f_tag) = tag ->
  repr (src m ap) (dsrc m ap) f x -> Zlen (wire tag x) <= nap ->
  convS2M f ap nap m = Some (Zlen (wire tag x), wr m ap (wire tag x)).
Proof.
  intros Hok Hroom Hx Htag Hr Hl. rewrite Zlen_wire in *. pose proof Hroom as (?&?&?).
  pose proof (mem_ok_lt m (ap + nap) Hok ltac:(lia)).
  pose proof (Zlen_nonneg (wire_body x)).
  unfold convS2M. run_with (sizeS2M_run m ap f x Hok Hx Hr ltac:(lia)).
  set (sz := 7 + Zlen (wire_body x)) in *.
  rewrite (proj2 (Z.eqb_neq sz 0)) by lia. rewrite Z.gtb_ltb, (proj2 (Z.ltb_ge _ _)) by lia.
  rewrite <- (wr_nil m ap) at 1.
  replace ap with (ap + Zlen (@nil Z)) at 1 by (change (Zlen (@nil Z)) with 0; lia).
  do 3 emit Hok Hroom. cbn [app].
  assert (Hbs : Forall is_byte ((le 4 sz ++ le 1 (f_type f)) ++ le 2 (f_tag f))) by fbytes.
  erewrite bind_run by (eapply s2m_body_run;
    [exact Hok|exact Hroom|exact Hx|exact Hr|exact Hbs|zlia|lia]).
  rewrite <- !app_assoc.
  replace (le 4 sz ++ le 1 (f_type f) ++ le 2 (f_tag f) ++ wire_body x) with (wire tag x)
    by (unfold wire; by rewrite (proj1 Hr), Htag).
  rewrite Zlen_wire. fold sz.
  replace (ap + sz - ap) with sz by lia. rewrite u32_small, Z.eqb_refl by lia. done.
Qed.

(** A message that does not fit is refused before anything is written. *)
Lemma convS2M_small m ap nap f tag x :
  mem_ok m -> msg_ok x -> repr (src m ap) (dsrc m ap) f x ->
  nap < Zlen (wire tag x) < 2 ^ 32 ->
  convS2M f ap nap m = Some (0, m).
Proof.
  intros Hok Hx Hr Hl. rewrite Zlen_wire in *. pose proof (Zlen_nonneg (wire_body x)).
  unfold convS2M. run_with (sizeS2M_run m ap f x Hok Hx Hr ltac:(lia)).
  rewrite (proj2 (Z.eqb_neq _ 0)) by lia. by rewrite Z.gtb_ltb, (proj2 (Z.ltb_lt _ _)) by lia.
Qed.
