(* ===== verification/ConvM2S.v ===== *)
(** [libc/9sys/convM2S.c]: decoding a message from a buffer.

    Pointers are 32-bit addresses and their arithmetic wraps, as the compiled
    code's does; a buffer is [nap] bytes at [ap].  Decoding moves each string
    down over its length to make room for a NUL, so it rewrites the buffer:
    the definitions return the memory they leave. *)

From S2P Require Import Prelude Mem CString Fcall ConvS2M.

Local Open Scope c_scope.

(** * Definitions *)

(** [*s] is a member of the structure: [s] is its setter.  0 is [nil]. *)
Definition gstring (p ep : Z) (s : Z -> Fcall -> Fcall) (f : Fcall) : M (Z * Fcall) :=
  if p +p BIT16SZ >? ep then mret (0, f)
  else
    n ← GBIT16 p;
    let p := p +p (BIT16SZ - 1) in
    if p +p n +p 1 >? ep then mret (0, f)
    else
      _ ← memmove p (p +p 1) n;
      _ ← st8 (p +p n) 0;
      mret (p +p (n + 1), s p f).

Definition gqid (p ep : Z) (q : Qid -> Fcall -> Fcall) (f : Fcall) : M (Z * Fcall) :=
  if p +p QIDSZ >? ep then mret (0, f)
  else
    '(ty, p) ← get8 p;
    '(vers, p) ← get32 p;
    '(path, p) ← get64 p;
    mret (p, q (mkQid path vers ty) f).

(** The loops over path elements: [i] counts up, [k] is what is left. *)
Fixpoint gstrings (k i : nat) (p ep : Z) (f : Fcall) : M (Z * Fcall) :=
  match k with
  | O => mret (p, f)
  | S k =>
      '(p, f) ← gstring p ep (fun s f => set_wname (<[i := s]> f.(f_wname)) f) f;
      if p =? 0 then mret (p, f) else gstrings k (S i) p ep f
  end.

Fixpoint gqids (k i : nat) (p ep : Z) (f : Fcall) : M (Z * Fcall) :=
  match k with
  | O => mret (p, f)
  | S k =>
      '(p, f) ← gqid p ep (fun q f => set_wqid (<[i := q]> f.(f_wqid)) f) f;
      if p =? 0 then mret (p, f) else gqids k (S i) p ep f
  end.

(** A case of the switch ends in [break] with a pointer, or in [return 0]. *)
Definition brk (pf : Z * Fcall) : M (option Z * Fcall) := mret (Some pf.1, pf.2).
Definition ret0 (f : Fcall) : M (option Z * Fcall) := mret (None, f).

Definition m2s_T (p ep : Z) (f : Fcall) : M (option Z * Fcall) :=
  let t := f.(f_type) in
  if t =? Tversion then
    if p +p BIT32SZ >? ep then ret0 f else
    '(v, p) ← get32 p;
    pf ← gstring p ep set_version (set_msize v f); brk pf
  else if t =? Tflush then
    if p +p BIT16SZ >? ep then ret0 f else
    '(v, p) ← get16 p; brk (p, set_oldtag v f)
  else if t =? Tauth then
    if p +p BIT32SZ >? ep then ret0 f else
    '(v, p) ← get32 p;
    '(p, f) ← gstring p ep set_uname (set_afid v f);
    if p =? 0 then brk (p, f) else
    pf ← gstring p ep set_aname f; brk pf
  else if t =? Tattach then
    if p +p BIT32SZ >? ep then ret0 f else
    '(v, p) ← get32 p; let f := set_fid v f in
    if p +p BIT32SZ >? ep then ret0 f else
    '(v, p) ← get32 p;
    '(p, f) ← gstring p ep set_uname (set_afid v f);
    if p =? 0 then brk (p, f) else
    pf ← gstring p ep set_aname f; brk pf
  else if t =? Twalk then
    if p +p (BIT32SZ + BIT32SZ + BIT16SZ) >? ep then ret0 f else
    '(v, p) ← get32 p; let f := set_fid v f in
    '(v, p) ← get32 p; let f := set_newfid v f in
    '(v, p) ← get16 p; let f := set_nwname v f in
    if f.(f_nwname) >? MAXWELEM then ret0 f else
    pf ← gstrings (Z.to_nat f.(f_nwname)) 0 p ep f; brk pf
  else if t =? Topen then
    if p +p (BIT32SZ + BIT8SZ) >? ep then ret0 f else
    '(v, p) ← get32 p; let f := set_fid v f in
    '(v, p) ← get8 p; brk (p, set_mode v f)
  else if t =? Tcreate then
    if p +p BIT32SZ >? ep then ret0 f else
    '(v, p) ← get32 p; let f := set_fid v f in
    '(p, f) ← gstring p ep set_name f;
    if p =? 0 then brk (p, f) else
    if p +p (BIT32SZ + BIT8SZ) >? ep then ret0 f else
    '(v, p) ← get32 p; let f := set_perm v f in
    '(v, p) ← get8 p; brk (p, set_mode v f)
  else if t =? Tread then
    if p +p (BIT32SZ + BIT64SZ + BIT32SZ) >? ep then ret0 f else
    '(v, p) ← get32 p; let f := set_fid v f in
    '(v, p) ← get64 p; let f := set_offset (s64 v) f in
    '(v, p) ← get32 p; brk (p, set_count v f)
  else if t =? Twrite then
    if p +p (BIT32SZ + BIT64SZ + BIT32SZ) >? ep then ret0 f else
    '(v, p) ← get32 p; let f := set_fid v f in
    '(v, p) ← get64 p; let f := set_offset (s64 v) f in
    '(v, p) ← get32 p; let f := set_count v f in
    if p +p f.(f_count) >? ep then ret0 f else
    brk (p +p f.(f_count), set_data p f)
  else if (t =? Tclunk) || (t =? Tremove) then
    if p +p BIT32SZ >? ep then ret0 f else
    '(v, p) ← get32 p; brk (p, set_fid v f)
  else if t =? Tstat then
    if p +p BIT32SZ >? ep then ret0 f else
    '(v, p) ← get32 p; brk (p, set_fid v f)
  else if t =? Twstat then
    if p +p (BIT32SZ + BIT16SZ) >? ep then ret0 f else
    '(v, p) ← get32 p; let f := set_fid v f in
    '(v, p) ← get16 p; let f := set_nstat v f in
    if p +p f.(f_nstat) >? ep then ret0 f else
    brk (p +p f.(f_nstat), set_stat p f)
  else ret0 f.

Definition m2s_R (p ep : Z) (f : Fcall) : M (option Z * Fcall) :=
  let t := f.(f_type) in
  if t =? Rversion then
    if p +p BIT32SZ >? ep then ret0 f else
    '(v, p) ← get32 p;
    pf ← gstring p ep set_version (set_msize v f); brk pf
  else if t =? Rerror then
    pf ← gstring p ep set_ename f; brk pf
  else if t =? Rflush then brk (p, f)
  else if t =? Rauth then
    pf ← gqid p ep set_aqid f; brk pf
  else if t =? Rattach then
    pf ← gqid p ep set_qid f; brk pf
  else if t =? Rwalk then
    if p +p BIT16SZ >? ep then ret0 f else
    '(v, p) ← get16 p; let f := set_nwqid v f in
    if f.(f_nwqid) >? MAXWELEM then ret0 f else
    pf ← gqids (Z.to_nat f.(f_nwqid)) 0 p ep f; brk pf
  else if (t =? Ropen) || (t =? Rcreate) then
    '(p, f) ← gqid p ep set_qid f;
    if p =? 0 then brk (p, f) else
    if p +p BIT32SZ >? ep then ret0 f else
    '(v, p) ← get32 p; brk (p, set_iounit v f)
  else if t =? Rread then
    if p +p BIT32SZ >? ep then ret0 f else
    '(v, p) ← get32 p; let f := set_count v f in
    if p +p f.(f_count) >? ep then ret0 f else
    brk (p +p f.(f_count), set_data p f)
  else if t =? Rwrite then
    if p +p BIT32SZ >? ep then ret0 f else
    '(v, p) ← get32 p; brk (p, set_count v f)
  else if (t =? Rclunk) || (t =? Rremove) then brk (p, f)
  else if t =? Rstat then
    if p +p BIT16SZ >? ep then ret0 f else
    '(v, p) ← get16 p; let f := set_nstat v f in
    if p +p f.(f_nstat) >? ep then ret0 f else
    brk (p +p f.(f_nstat), set_stat p f)
  else if t =? Rwstat then brk (p, f)
  else ret0 f.

Definition m2s_body (p ep : Z) (f : Fcall) : M (option Z * Fcall) :=
  if Z.even f.(f_type) then m2s_T p ep f else m2s_R p ep f.

(** Returns the value of the C function and the structure it has filled in. *)
Definition convM2S (ap nap : Z) (f : Fcall) : M (Z * Fcall) :=
  let p := ap in
  let ep := p +p nap in
  if p +p (BIT32SZ + BIT8SZ + BIT16SZ) >? ep then mret (0, f) else
  '(size, p) ← get32 p;
  if size <? BIT32SZ + BIT8SZ + BIT16SZ then mret (0, f) else
  '(v, p) ← get8 p; let f := set_type v f in
  '(v, p) ← get16 p; let f := set_tag v f in
  '(r, f) ← m2s_body p ep f;
  match r with
  | None => mret (0, f)
  | Some p =>
      if (p =? 0) || (p >? ep) then mret (0, f)
      else if ap +p size =? p then mret (size, f)
      else mret (0, f)
  end.

(** * What decoded pointers point at *)

Definition decstr (m : mem) (ap o p : Z) (s : list Z) : Prop :=
  p = ap + o + 1 /\ bytes_at m p (s ++ [0]).
Definition decdat (m : mem) (ap o p : Z) (d : list Z) : Prop :=
  p = ap + o /\ bytes_at m p d.

(** The arrays of the structure have their declared size. *)
Definition fcall_wf (f : Fcall) : Prop :=
  length f.(f_wname) = 16%nat /\ length f.(f_wqid) = 16%nat.

(** * Reading an encoded message *)

Implicit Types (s d rest : list Z).

Lemma same_outside_trans a n b k m1 m2 m3 :
  same_outside a n m1 m2 -> same_outside b k m2 m3 ->
  forall c j, c <= a -> c <= b -> a + n <= c + j -> b + k <= c + j -> same_outside c j m1 m3.
Proof.
  intros [H1 H2] [H3 H4] c j ? ? ? ?. split; [congruence|].
  intros i Hi. rewrite H4, H2 by lia. done.
Qed.

Lemma same_outside_weaken a n m1 m2 c j :
  same_outside a n m1 m2 -> c <= a -> a + n <= c + j -> same_outside c j m1 m2.
Proof. intros [H1 H2] ? ?. split; [done|]. intros i Hi. apply H2. lia. Qed.

Lemma same_outside_refl a n m : same_outside a n m m.
Proof. by split. Qed.

Lemma bytes_at_outside a n m m' p bs : same_outside a n m m' ->
  bytes_at m p bs -> p + Zlen bs <= a \/ a + n <= p -> bytes_at m' p bs.
Proof. intros [H1 H2] Hb Hd. eapply bytes_at_agree; [done..|]. intros. apply H2. lia. Qed.

Lemma get_rd (G : Z -> M Z) n m p v rest :
  mem_ok m -> (bytes_at m p (le n v) -> G p m = Some (v, m)) ->
  bytes_at m p (le n v ++ rest) ->
  (x ← G p; mret (x, p +p Z.of_nat n)) m = Some ((v, p + Z.of_nat n), m) /\
  bytes_at m (p + Z.of_nat n) rest.
Proof.
  intros Hok HG H. pose proof (bytes_at_in _ _ _ H) as (?&?&Hi). rewrite Zlen_app, Zlen_le in Hi.
  apply bytes_at_app in H as [Ha Hr]. rewrite Zlen_le in Hr. split; [|done].
  run_with (HG Ha). rewrite ret_run. pose proof (Zlen_nonneg rest).
  pose proof (mem_ok_lt m (p + Z.of_nat n) Hok ltac:(lia)). by rewrite padd_small by lia.
Qed.

Lemma get8_rd m p v rest : mem_ok m -> is_byte v -> bytes_at m p (le 1 v ++ rest) ->
  get8 p m = Some ((v, p + 1), m) /\ bytes_at m (p + 1) rest.
Proof. intros. by apply (get_rd GBIT8 1); [|apply GBIT8_le|]. Qed.
Lemma get16_rd m p v rest : mem_ok m -> is_u16 v -> bytes_at m p (le 2 v ++ rest) ->
  get16 p m = Some ((v, p + 2), m) /\ bytes_at m (p + 2) rest.
Proof. intros. by apply (get_rd GBIT16 2); [|apply GBIT16_le|]. Qed.
Lemma get32_rd m p v rest : mem_ok m -> is_u32 v -> bytes_at m p (le 4 v ++ rest) ->
  get32 p m = Some ((v, p + 4), m) /\ bytes_at m (p + 4) rest.
Proof. intros. by apply (get_rd GBIT32 4); [|apply GBIT32_le|]. Qed.
Lemma le8_u64 v : le 8 (u64 v) = le 8 v.
Proof. apply le_mod. unfold u64. change (8 * Z.of_nat 8) with 64. apply Z.mod_mod. lia. Qed.
Lemma get64_rd m p v rest : mem_ok m -> bytes_at m p (le 8 v ++ rest) ->
  get64 p m = Some ((u64 v, p + 8), m) /\ bytes_at m (p + 8) rest.
Proof.
  intros Hok H. rewrite <- le8_u64 in H. apply (get_rd GBIT64 8); [done| |done].
  intros Hb. rewrite (GBIT64_le _ _ _ Hok Hb). rewrite (u64_small (u64 v)); [done|].
  apply u64_range.
Qed.
Lemma s64_u64 v : is_s64 v -> s64 (u64 v) = v.
Proof.
  unfold is_s64, s64. intros H. rewrite (u64_small (u64 v)) by apply u64_range.
  unfold u64. destruct (Z.lt_ge_cases v 0).
  - assert (v mod 2 ^ 64 = v + 2 ^ 64) as ->
      by (symmetry; apply (Z.mod_unique_pos _ _ (-1)); lia).
    destruct (Z.ltb_spec (v + 2 ^ 64) (2 ^ 63)); lia.
  - rewrite Z.mod_small by lia. destruct (Z.ltb_spec v (2 ^ 63)); lia.
Qed.

Lemma gqid_rd m p ep q rest set f :
  mem_ok m -> qid_ok q -> bytes_at m p (wqid q ++ rest) -> p + 13 <= ep ->
  gqid p ep set f m = Some ((p + 13, set q f), m) /\ bytes_at m (p + 13) rest.
Proof.
  intros Hok (H1&H2&H3) Hb Hep.
  pose proof (bytes_at_in _ _ _ Hb) as (?&_&Hi). zl. pose proof (Zlen_nonneg rest).
  pose proof (mem_ok_lt m (p + 13) Hok ltac:(lia)).
  unfold gqid, wqid in *. change QIDSZ with 13.
  rewrite padd_small, Z.gtb_ltb, (proj2 (Z.ltb_ge _ _)) by lia.
  rewrite <- !app_assoc in Hb.
  apply get8_rd in Hb as [E1 Hb]; [|done..]. run_with E1.
  apply get32_rd in Hb as [E2 Hb]; [|done..]. run_with E2.
  apply get64_rd in Hb as [E3 Hb]; [|done..]. run_with E3.
  rewrite u64_small by done. destruct q as [qp qv qt]; simpl in *.
  replace (p + 1 + 4 + 8) with (p + 13) in * by lia. done.
Qed.

Lemma gstring_rd m p ep s rest set f :
  mem_ok m -> raw_ok s -> bytes_at m p (wstr s ++ rest) ->
  p + 2 + Zlen s <= ep -> ep <= Zlen m ->
  exists m', gstring p ep set f m = Some ((p + (2 + Zlen s), set (p + 1) f), m') /\
    bytes_at m' (p + (2 + Zlen s)) rest /\ bytes_at m' (p + 1) (s ++ [0]) /\ mem_ok m' /\
    same_outside (p + 1) (Zlen s + 1) m m'.
Proof.
  intros Hok [Hs Hsl] Hb Hep Hm. pose proof Hb as Hb0. unfold wstr in Hb.
  rewrite <- app_assoc in Hb. apply bytes_at_app in Hb as [Hn Hb].
  apply bytes_at_app in Hb as [Hd Hb]. rewrite Zlen_le in *. change (Z.of_nat 2) with 2 in *.
  pose proof (Zlen_nonneg s). pose proof (bytes_at_in _ _ _ Hn) as (?&_&_).
  pose proof Hok as [_ Hlim].
  unfold gstring. change BIT16SZ with 2.
  rewrite (padd_small p) by lia. rewrite Z.gtb_ltb, (proj2 (Z.ltb_ge _ _)) by lia.
  run_with (GBIT16_le m p (Zlen s) Hok ltac:(unfold is_u16; lia) Hn).
  cbv zeta. change (2 - 1) with 1. rewrite (padd_small p 1) by lia. rewrite (padd_small (p + 1)) by lia.
  rewrite (padd_small (p + 1 + Zlen s)) by lia.
  rewrite Z.gtb_ltb, (proj2 (Z.ltb_ge _ _)) by lia.
  rewrite (padd_small (p + 1) 1) by lia. replace (p + 1 + 1) with (p + 2) by lia.
  assert (Hi1 : in_mem m (p + 1) (Zlen s)) by (unfold in_mem; lia).
  run_with (memmove_run m (p + 1) (p + 2) s Hok Hd Hi1 ltac:(lia)).
  assert (Hi2 : in_mem m (p + 1) (Zlen s + Zlen [0]))
    by (change (Zlen [0]) with 1; unfold in_mem; lia).
  assert (Hi3 : in_mem m (p + 1) (Zlen (s ++ [0]))) by (rewrite Zlen_app; done).
  erewrite bind_run by (apply st8_run; rewrite in_mem_wr by done; unfold in_mem; lia).
  change (u8 0) with 0. rewrite wr_app by done.
  rewrite (padd_small (p + 1)) by lia.
  exists (wr m (p + 1) (s ++ [0])). rewrite ret_run. split_and!.
  - do 3 f_equal. lia.
  - eapply bytes_at_wr_out; [done| |].
    + replace (p + (2 + Zlen s)) with (p + 2 + Zlen s) by lia. done.
    + rewrite Zlen_app. change (Zlen [0]) with 1. lia.
  - by apply bytes_at_wr.
  - apply mem_ok_wr; [done| |done]. apply Forall_app. split; [done|].
    repeat constructor; unfold is_byte; lia.
  - pose proof (wr_same_outside m (p + 1) (s ++ [0]) Hi3) as Hso.
    by rewrite Zlen_app in Hso.
Qed.

Lemma gstrings_rd ap ep ss : forall m i p f,
  mem_ok m -> Forall raw_ok ss -> (i + length ss <= 16)%nat -> length f.(f_wname) = 16%nat ->
  bytes_at m p (concat (map wstr ss)) -> 0 < p ->
  p + Zlen (concat (map wstr ss)) <= ep -> ep <= Zlen m ->
  exists m' ws,
    gstrings (length ss) i p ep f m =
      Some ((p + Zlen (concat (map wstr ss)), set_wname ws f), m') /\
    length ws = 16%nat /\ (forall j, (j < i)%nat -> ws !! j = f.(f_wname) !! j) /\
    reprs (decstr m' ap) (p - ap) (drop i ws) ss /\ mem_ok m' /\
    same_outside p (Zlen (concat (map wstr ss))) m m'.
Proof.
  induction ss as [|s ss IH]; intros m i p f Hok Hss Hi Hf Hb Hp Hl Hep.
  { exists m, (f_wname f). simpl. change (Zlen (@nil Z)) with 0.
    split_and!; try done; [|by destruct (drop i (f_wname f))].
    rewrite Z.add_0_r. by destruct f. }
  inversion Hss as [|? ? Hs Hss']; subst. cbn [map concat length] in *.
  zl. pose proof (Zlen_nonneg (concat (map wstr ss))). pose proof (Zlen_nonneg s).
  cbn [gstrings].
  destruct (gstring_rd m p ep s _ (fun w f => set_wname (<[i := w]> f.(f_wname)) f) f Hok Hs Hb)
    as (m1 & E & Hb1 & Hd & Hok1 & Hso); [lia..|].
  run_with E. rewrite (proj2 (Z.eqb_neq _ 0)) by lia.
  destruct (IH m1 (S i) (p + (2 + Zlen s)) (set_wname (<[i:=p + 1]> (f_wname f)) f))
    as (m2 & ws & E2 & Hlw & Hsame & Hr & Hok2 & Hso2);
    [done|done|lia|by simpl; rewrite length_insert|done|lia|lia|destruct Hso as [-> _]; lia|].
  exists m2, ws. rewrite E2. split_and!; try done.
  - do 3 f_equal. lia.
  - intros j Hj. rewrite Hsame by lia. cbn [f_wname set_wname].
    by rewrite list_lookup_insert_ne by lia.
  - assert (Hw : ws !! i = Some (p + 1)).
    { rewrite Hsame by lia. cbn [f_wname set_wname]. apply list_lookup_insert_eq. lia. }
    rewrite (drop_S _ _ _ Hw). split.
    + split; [lia|]. eapply bytes_at_outside; [exact Hso2|exact Hd|].
      rewrite Zlen_app. change (Zlen [0]) with 1. lia.
    + replace (p - ap + 2 + Zlen s) with (p + (2 + Zlen s) - ap) by lia. done.
  - eapply same_outside_trans; [exact Hso|exact Hso2|lia..].
Qed.

Lemma gqids_rd ep qs : forall m i p f,
  mem_ok m -> Forall qid_ok qs -> (i + length qs <= 16)%nat -> length f.(f_wqid) = 16%nat ->
  bytes_at m p (concat (map wqid qs)) -> 0 < p -> p + Zlen (concat (map wqid qs)) <= ep ->
  exists ws,
    gqids (length qs) i p ep f m =
      Some ((p + Zlen (concat (map wqid qs)), set_wqid ws f), m) /\
    length ws = 16%nat /\ (forall j, (j < i)%nat -> ws !! j = f.(f_wqid) !! j) /\
    take (length qs) (drop i ws) = qs.
Proof.
  induction qs as [|q qs IH]; intros m i p f Hok Hqs Hi Hf Hb Hp Hl.
  { exists (f_wqid f). simpl. change (Zlen (@nil Z)) with 0.
    split_and!; try done. rewrite Z.add_0_r. by destruct f. }
  inversion Hqs as [|? ? Hq Hqs']; subst. cbn [map concat length] in *.
  zl. pose proof (Zlen_nonneg (concat (map wqid qs))). cbn [gqids].
  destruct (gqid_rd m p ep q _ (fun q f => set_wqid (<[i := q]> f.(f_wqid)) f) f Hok Hq Hb)
    as [E Hb1]; [lia|].
  run_with E. rewrite (proj2 (Z.eqb_neq _ 0)) by lia.
  destruct (IH m (S i) (p + 13) (set_wqid (<[i:=q]> (f_wqid f)) f))
    as (ws & E2 & Hlw & Hsame & Hr); [done|done|lia|by simpl; rewrite length_insert|done|lia|lia|].
  exists ws. rewrite E2. split_and!; try done.
  - do 3 f_equal. lia.
  - intros j Hj. rewrite Hsame by lia. cbn [f_wqid set_wqid].
    by rewrite list_lookup_insert_ne by lia.
  - assert (Hw : ws !! i = Some q).
    { rewrite Hsame by lia. cbn [f_wqid set_wqid]. apply list_lookup_insert_eq. lia. }
    rewrite (drop_S _ _ _ Hw). simpl. by rewrite Hr.
Qed.

(** * The decoder on an encoded message *)

(** The guards of the switch hold on a complete message. *)
Ltac pass_guard :=
  match goal with
  | |- context [?p +p ?n >? ?ep] =>
      rewrite (padd_small p n), (Z.gtb_ltb (p + n) ep), (proj2 (Z.ltb_ge ep (p + n)))
        by (unfold BIT8SZ, BIT16SZ, BIT32SZ, BIT64SZ; lia)
  | |- context [?p =? 0] => rewrite (proj2 (Z.eqb_neq p 0)) by lia
  end.

Ltac in_width :=
  first [ assumption | unfold is_u16, is_u32, is_byte, MAXWELEM in *; zpos; lia ].

(** Read the next field from the bytes that are left. *)
Ltac field Hb :=
  let E := fresh "E" in
  match type of Hb with
  | bytes_at ?m ?p (le 1 _ ++ _) => apply get8_rd in Hb as [E Hb]; [|done|in_width]
  | bytes_at ?m ?p (le 2 _ ++ _) => apply get16_rd in Hb as [E Hb]; [|done|in_width]
  | bytes_at ?m ?p (le 4 _ ++ _) => apply get32_rd in Hb as [E Hb]; [|done|in_width]
  | bytes_at ?m ?p (le 8 _ ++ _) => apply get64_rd in Hb as [E Hb]; [|done..]
  end; run_with E.

Ltac field_str Hb :=
  match type of Hb with
  | bytes_at ?m ?p (wstr ?s ++ ?rest) =>
      match goal with
      | |- context [gstring p ?ep ?set ?f] =>
          let m1 := fresh "m" in let E := fresh "E" in let Hb1 := fresh "Hb" in
          let Hd := fresh "Hd" in let Hok1 := fresh "Hok" in let Hso := fresh "Hso" in
          let Hz := fresh "Hz" in
          destruct (gstring_rd m p ep s rest set f) as (m1 & E & Hb1 & Hd & Hok1 & Hso);
            [done|done|done|zpos; lia|zpos; lia|];
          run_with E; clear Hb; rename Hb1 into Hb; pose proof (proj1 Hso) as Hz;
          zpos
      end
  end.

Ltac field_qid Hb :=
  match type of Hb with
  | bytes_at ?m ?p (wqid ?q ++ ?rest) =>
      match goal with
      | |- context [gqid p ?ep ?set ?f] =>
          let E := fresh "E" in
          destruct (gqid_rd m p ep q rest set f) as [E Hb']; [done|done|done|lia|];
          run_with E; clear Hb; rename Hb' into Hb
      end
  end.

(** One step of the switch on a complete message. *)
Ltac decode Hb :=
  first [ pass_guard | field Hb | field_str Hb | field_qid Hb | rewrite ret_run ];
  cbv zeta; cbn [fst snd f_count f_nstat f_nwname f_nwqid
                 set_fid set_newfid set_offset set_count set_nstat set_nwname set_nwqid].

(** The pointers of the decoded structure. *)
Ltac decoded :=
  unfold decstr, decdat; cbn [f_version f_uname f_aname f_ename f_name f_data f_stat
    set_version set_uname set_aname set_ename set_name set_data set_stat set_perm set_mode];
  split; [lia|];
  first [ eassumption
        | eapply bytes_at_outside; [eassumption|eassumption|];
          rewrite Zlen_app; change (Zlen [0]) with 1; lia ].

(** What the strings' moves leave alone. *)
Ltac outside :=
  first [ apply same_outside_refl
        | eapply same_outside_weaken; [eassumption|lia|lia]
        | eapply same_outside_trans; [eassumption|eassumption|lia..] ].

Lemma m2s_body_run m ap nap f x :
  mem_ok m -> in_mem m ap nap -> fcall_wf f -> msg_raw x -> f.(f_type) = msg_type x ->
  bytes_at m (ap + 7) (wire_body x) -> 7 + Zlen (wire_body x) <= nap ->
  exists f' m',
    m2s_body (ap + 7) (ap + nap) f m = Some ((Some (ap + 7 + Zlen (wire_body x)), f'), m') /\
    f'.(f_tag) = f.(f_tag) /\ repr (decstr m' ap) (decdat m' ap) f' x /\ mem_ok m' /\
    same_outside (ap + 7) (Zlen (wire_body x)) m m'.
Proof.
  intros Hok Hroom [Hf1 Hf2] Hx Ht Hb Hl. pose proof Hok as [_ Hlim].
  pose proof Hroom as (?&?&?).
  unfold m2s_body, m2s_T, m2s_R. rewrite Ht.
  rewrite <- (app_nil_r (wire_body x)) in Hb.
  destruct x; cbn [msg_type]; eval_types;
    unfold msg_raw in *; cbn [wire_body msg_wf] in *; destruct_and?;
    rewrite ?Zlen_app, ?Zlen_le, ?Zlen_wqid, ?Zlen_wstr in *;
    rewrite <- ?app_assoc in Hb; zpos.
  all: repeat match goal with H : bytes_ok _ _ |- _ => destruct H end.
  all: cbv zeta; unfold brk; repeat decode Hb.
  all: rewrite ?app_nil_r in Hb; try change (Zlen (@nil Z)) with 0.
  all: try match goal with
    | |- exists f' m', Some ((Some ?q, ?f1), ?m1) = Some ((Some ?q', _), _) /\ _ =>
        exists f1, m1; split; [do 4 f_equal; lia|];
        split; [reflexivity|]; split; [split; [exact Ht|]|split]
    end; try done; split_and?; try done; try decoded; try outside.
  all: try (cbn; by apply s64_u64).
  - rewrite Z.gtb_ltb, (proj2 (Z.ltb_ge _ _)) by done. rewrite to_nat_Zlen.
    unfold MAXWELEM in *.
    destruct (gstrings_rd ap (ap + nap) wname m 0 (ap + 7 + 4 + 4 + 2)
      (set_nwname (Zlen wname) (set_newfid newfid (set_fid fid f))))
      as (m' & ws & E' & Hw & _ & Hr & Hok' & Hso); try done; [unfold Zlen in *; lia|lia..|].
    run_with E'. cbn [fst snd]. rewrite ret_run. eexists _, m'.
    split; [do 4 f_equal; lia|]. split; [reflexivity|].
    split; [split; [exact Ht|]|split; [done|outside]].
    split_and!; try reflexivity. cbn. rewrite drop_0 in Hr.
    replace (ap + 7 + 4 + 4 + 2 - ap) with 17 in Hr by lia. exact Hr.
  - rewrite Z.gtb_ltb, (proj2 (Z.ltb_ge _ _)) by done. rewrite to_nat_Zlen.
    unfold MAXWELEM in *.
    destruct (gqids_rd (ap + nap) wqid m 0 (ap + 7 + 2) (set_nwqid (Zlen wqid) f))
      as (ws & E' & Hw & _ & Hr); try done; [unfold Zlen in *; lia|lia..|].
    run_with E'. cbn [fst snd]. rewrite ret_run. eexists _, m.
    split; [do 4 f_equal; lia|]. split; [reflexivity|].
    split; [split; [exact Ht|]|split; [done|outside]].
    split_and!; try reflexivity. cbn. by rewrite drop_0 in Hr.
Qed.

Lemma msg_type_byte x : is_byte (msg_type x).
Proof. destruct x; split; done. Qed.

(** Functional correctness of the decoder: every encoded message is accepted,
    and the structure filled in stands for it. *)
Lemma convM2S_run m ap nap f tag x :
  mem_ok m -> in_mem m ap nap -> fcall_wf f -> msg_raw x -> is_u16 tag ->
  bytes_at m ap (wire tag x) -> Zlen (wire tag x) <= nap ->
  exists f' m',
    convM2S ap nap f m = Some ((Zlen (wire tag x), f'), m') /\
    f'.(f_tag) = tag /\ repr (decstr m' ap) (decdat m' ap) f' x /\ mem_ok m' /\
    same_outside ap (Zlen (wire tag x)) m m'.
Proof.
  intros Hok Hroom Hf Hx Htag Hb Hl. rewrite Zlen_wire in *. pose proof Hroom as (?&?&?).
  pose proof Hok as [_ Hlim]. zpos. unfold convM2S, wire in *. cbv zeta.
  rewrite (padd_small ap nap) by lia. change (BIT32SZ + BIT8SZ + BIT16SZ) with 7.
  rewrite (padd_small ap 7), Z.gtb_ltb, (proj2 (Z.ltb_ge _ _)) by lia.
  set (sz := 7 + Zlen (wire_body x)) in *.
  field Hb. rewrite (proj2 (Z.ltb_ge _ _)) by lia.
  pose proof (msg_type_byte x). field Hb. field Hb.
  replace (ap + 4 + 1 + 2) with (ap + 7) in * by lia.
  destruct (m2s_body_run m ap nap (set_tag tag (set_type (msg_type x) f)) x)
    as (f' & m' & E' & Ht & Hr & Hok' & Hso); try done.
  run_with E'. rewrite (proj2 (Z.eqb_neq _ 0)), Z.gtb_ltb, (proj2 (Z.ltb_ge _ _)) by lia.
  cbn [orb]. rewrite padd_small by lia.
  rewrite (proj2 (Z.eqb_eq (ap + sz) _)) by lia. rewrite ret_run.
  exists f', m'. split_and!; try done. outside.
Qed.

(** * The decoder on arbitrary bytes *)

Lemma get_any (G : Z -> M Z) n (R : Z -> Prop) m p :
  mem_ok m -> in_mem m p (Z.of_nat n) ->
  (exists v, R v /\ bytes_at m p (le n v) /\ G p m = Some (v, m)) ->
  exists v, R v /\ bytes_at m p (le n v) /\
    (x ← G p; mret (x, p +p Z.of_nat n)) m = Some ((v, p + Z.of_nat n), m).
Proof.
  intros Hok (?&?&?) (v&Hv&Hb&E). exists v. split_and!; try done. run_with E.
  rewrite ret_run. pose proof (mem_ok_lt m (p + Z.of_nat n) Hok ltac:(lia)).
  by rewrite padd_small by lia.
Qed.

Lemma get8_any m p : mem_ok m -> in_mem m p 1 ->
  exists v, is_byte v /\ bytes_at m p (le 1 v) /\ get8 p m = Some ((v, p + 1), m).
Proof. intros. apply (get_any GBIT8 1); auto using GBIT8_any. Qed.
Lemma get16_any m p : mem_ok m -> in_mem m p 2 ->
  exists v, is_u16 v /\ bytes_at m p (le 2 v) /\ get16 p m = Some ((v, p + 2), m).
Proof. intros. apply (get_any GBIT16 2); auto using GBIT16_any. Qed.
Lemma get32_any m p : mem_ok m -> in_mem m p 4 ->
  exists v, is_u32 v /\ bytes_at m p (le 4 v) /\ get32 p m = Some ((v, p + 4), m).
Proof. intros. apply (get_any GBIT32 4); auto using GBIT32_any. Qed.
Lemma get64_any m p : mem_ok m -> in_mem m p 8 ->
  exists v, 0 <= v < 2 ^ 64 /\ bytes_at m p (le 8 v) /\ get64 p m = Some ((v, p + 8), m).
Proof.
  intros. apply (get_any GBIT64 8 (fun v => 0 <= v < 2 ^ 64)); auto using GBIT64_any.
Qed.

Lemma gqid_any m p ep set f :
  mem_ok m -> 0 <= p -> p <= ep -> ep <= Zlen m ->
  gqid p ep set f m = Some ((0, f), m) \/
  exists q, qid_ok q /\ bytes_at m p (wqid q) /\ p + 13 <= ep /\
    gqid p ep set f m = Some ((p + 13, set q f), m).
Proof.
  intros Hok Hp Hpe He. pose proof Hok as [_ Hlim]. unfold gqid. change QIDSZ with 13.
  rewrite padd_small, Z.gtb_ltb by lia. destruct (Z.ltb_spec ep (p + 13)); [by left|right].
  destruct (get8_any m p Hok) as (t&Ht&B1&E1); [unfold in_mem; lia|].
  destruct (get32_any m (p + 1) Hok) as (v&Hv&B2&E2); [unfold in_mem; lia|].
  destruct (get64_any m (p + 1 + 4) Hok) as (u&Hu&B3&E3); [unfold in_mem; lia|].
  run_with E1. run_with E2. run_with E3. exists (mkQid u v t). split_and!; try done.
  - unfold wqid. cbn [q_type q_vers q_path]. rewrite !bytes_at_app, !Zlen_le. done.
  - rewrite ret_run. do 3 f_equal. lia.
Qed.

Lemma gstring_any m p ep set f :
  mem_ok m -> 0 <= p -> p <= ep -> ep <= Zlen m ->
  gstring p ep set f m = Some ((0, f), m) \/
  exists s m', raw_ok s /\ bytes_at m p (wstr s) /\ p + (2 + Zlen s) <= ep /\
    gstring p ep set f m = Some ((p + (2 + Zlen s), set (p + 1) f), m') /\
    mem_ok m' /\ same_outside (p + 1) (Zlen s + 1) m m'.
Proof.
  intros Hok Hp Hpe He. pose proof Hok as [_ Hlim].
  destruct (Z.lt_ge_cases ep (p + 2)) as [Hs|Hs].
  { left. unfold gstring. change BIT16SZ with 2. rewrite padd_small by lia.
    by rewrite Z.gtb_ltb, (proj2 (Z.ltb_lt _ _)) by lia. }
  destruct (GBIT16_any m p Hok) as (n&Hn&B&E); [unfold in_mem; lia|]. unfold is_u16 in Hn.
  destruct (Z.lt_ge_cases ep (p + 2 + n)) as [Hl|Hl].
  { left. unfold gstring. change BIT16SZ with 2. rewrite (padd_small p 2) by lia.
    rewrite Z.gtb_ltb, (proj2 (Z.ltb_ge _ _)) by lia. run_with E.
    change (2 - 1) with 1. rewrite (padd_small p 1), (padd_small (p + 1)),
      (padd_small (p + 1 + n)) by lia.
    by rewrite Z.gtb_ltb, (proj2 (Z.ltb_lt _ _)) by lia. }
  right. assert (Hi : in_mem m (p + 2) n) by (unfold in_mem; lia).
  pose proof (sub_bytes_at _ _ _ Hi) as Bs. pose proof (Zlen_sub _ _ _ Hi) as Ls.
  set (s := sub m (p + 2) n) in *.
  assert (Hraw : raw_ok s).
  { split; [|lia]. by eapply bytes_at_Forall; [apply Hok|]. }
  assert (Hb : bytes_at m p (wstr s ++ [])).
  { rewrite app_nil_r. unfold wstr. apply bytes_at_app. rewrite Zlen_le, Ls. done. }
  destruct (gstring_rd m p ep s [] set f Hok Hraw Hb) as (m'&E'&_&_&Hok'&Hso); [lia..|].
  exists s, m'. rewrite app_nil_r in Hb. split_and!; try done. lia.
Qed.

Lemma gstrings_any ep k : forall m i p f,
  mem_ok m -> 0 < p -> p <= ep -> ep <= Zlen m ->
  exists p' f' m', gstrings k i p ep f m = Some ((p', f'), m') /\ mem_ok m' /\
    same_outside p (ep - p) m m' /\
    (p' = 0 \/ exists ss, length ss = k /\ Forall raw_ok ss /\
       bytes_at m p (concat (map wstr ss)) /\ p' = p + Zlen (concat (map wstr ss)) /\ p' <= ep).
Proof.
  induction k as [|k IH]; intros m i p f Hok Hp Hpe He.
  { exists p, f, m. split_and!; try done. right. exists []. simpl.
    change (Zlen (@nil Z)) with 0. split_and!; try done; try lia. apply bytes_at_nil; lia. }
  cbn [gstrings].
  destruct (gstring_any m p ep (fun w f => set_wname (<[i := w]> f.(f_wname)) f) f Hok)
    as [E|(s&m1&Hs&Hb&Hl&E&Hok1&Hso)]; [lia..| |]; run_with E.
  { exists 0, f, m. cbn. split_and!; try done. by left. }
  zpos. rewrite (proj2 (Z.eqb_neq _ 0)) by lia.
  destruct (IH m1 (S i) (p + (2 + Zlen s)) (set_wname (<[i:=p + 1]> (f_wname f)) f))
    as (p'&f'&m'&E'&Hok'&Hso'&Hr); [done|lia|lia|destruct Hso as [-> _]; lia|].
  exists p', f', m'. split_and!; try done.
  { eapply same_outside_trans; [exact Hso|exact Hso'|lia..]. }
  destruct Hr as [->|(ss&Hlen&Hss&Hbs&Hp'&Hle)]; [by left|right].
  exists (s :: ss). cbn [map concat length]. rewrite Zlen_app, Zlen_wstr.
  split_and!; [lia|by constructor| |lia|lia].
  apply bytes_at_app. split; [done|]. rewrite Zlen_wstr.
  destruct Hso as [Hz Ho]. eapply bytes_at_agree; [exact Hbs|lia|].
  intros j Hj. symmetry. apply Ho. lia.
Qed.

Lemma gqids_any ep k : forall m i p f,
  mem_ok m -> 0 < p -> p <= ep -> ep <= Zlen m ->
  exists p' f', gqids k i p ep f m = Some ((p', f'), m) /\
    (p' = 0 \/ exists qs, length qs = k /\ Forall qid_ok qs /\
       bytes_at m p (concat (map wqid qs)) /\ p' = p + Zlen (concat (map wqid qs)) /\ p' <= ep).
Proof.
  induction k as [|k IH]; intros m i p f Hok Hp Hpe He.
  { exists p, f. split_and!; try done. right. exists []. simpl.
    change (Zlen (@nil Z)) with 0. split_and!; try done; try lia. apply bytes_at_nil; lia. }
  cbn [gqids].
  destruct (gqid_any m p ep (fun q f => set_wqid (<[i := q]> f.(f_wqid)) f) f Hok)
    as [E|(q&Hq&Hb&Hl&E)]; [lia..| |]; run_with E.
  { exists 0, f. cbn. split_and!; try done. by left. }
  rewrite (proj2 (Z.eqb_neq _ 0)) by lia.
  destruct (IH m (S i) (p + 13) (set_wqid (<[i:=q]> (f_wqid f)) f))
    as (p'&f'&E'&Hr); [done|lia..|].
  exists p', f'. split; [done|].
  destruct Hr as [->|(qs&Hlen&Hqs&Hbs&Hp'&Hle)]; [by left|right].
  exists (q :: qs). cbn [map concat length]. rewrite Zlen_app, Zlen_wqid.
  split_and!; [lia|by constructor| |lia|lia].
  apply bytes_at_app. rewrite Zlen_wqid. done.
Qed.

Lemma bytes_at_back a n m m' p bs : same_outside a n m m' ->
  bytes_at m' p bs -> p + Zlen bs <= a \/ a + n <= p -> bytes_at m p bs.
Proof.
  intros [H1 H2] Hb Hd. eapply bytes_at_agree; [exact Hb|lia|]. intros. symmetry. apply H2. lia.
Qed.

Lemma s64_range v : 0 <= v < 2 ^ 64 -> is_s64 (s64 v).
Proof.
  intros H. unfold is_s64, s64. rewrite u64_small by done. destruct (Z.ltb_spec v (2 ^ 63)); lia.
Qed.
Lemma le8_s64 v : 0 <= v < 2 ^ 64 -> le 8 (s64 v) = le 8 v.
Proof.
  intros H. unfold s64. rewrite u64_small by done. destruct (Z.ltb_spec v (2 ^ 63)); [done|].
  apply le_mod. change (8 * Z.of_nat 8) with 64.
  rewrite <- (Z.mod_add (v - 2 ^ 64) 1) by lia. f_equal. lia.
Qed.

(** A 32-bit count added to a pointer either fits or wraps once. *)
Lemma padd_wraps p n : 0 <= p < 2 ^ 32 -> is_u32 n ->
  p +p n = p + n \/ p +p n = p + n - 2 ^ 32.
Proof.
  unfold is_u32, padd, u32. intros. destruct (Z.lt_ge_cases (p + n) (2 ^ 32)).
  - left. apply Z.mod_small. lia.
  - right. symmetry. apply (Z.mod_unique_pos _ _ 1); lia.
Qed.

(** How a case of the switch may end: memory changes only in the buffer, and a
    [break] at its end means the buffer held a message of type [t]. *)
Definition m2s_post (ap nap : Z) (m : mem) (t : Z) (r : option Z) (m' : mem) : Prop :=
  mem_ok m' /\ same_outside (ap + 7) (nap - 7) m m' /\
  (r = Some (ap + nap) -> exists x, msg_raw x /\ msg_type x = t /\
     bytes_at m (ap + 7) (wire_body x) /\ 7 + Zlen (wire_body x) = nap).

Ltac a_fail :=
  eexists _, _, _; split; [reflexivity|]; split_and!;
  [done | outside | intros Hend; first [discriminate Hend | injection Hend; intros; lia]].

Ltac a_step :=
  match goal with
  | |- context [if ?p +p ?n >? ?ep then ret0 _ else _] =>
      rewrite (padd_small p n) by (unfold BIT8SZ, BIT16SZ, BIT32SZ, BIT64SZ; lia);
      rewrite (Z.gtb_ltb (p + n) ep); destruct (Z.ltb_spec ep (p + n)); [a_fail|];
      unfold BIT8SZ, BIT16SZ, BIT32SZ, BIT64SZ in *
  | |- context [if ?v >? MAXWELEM then _ else _] =>
      rewrite (Z.gtb_ltb v MAXWELEM); destruct (Z.ltb_spec MAXWELEM v); [a_fail|]
  | |- context [(get8 ?p ≫= _) ?m] =>
      let E := fresh "E" in destruct (get8_any m p) as (?v&?&?&E); [done|unfold in_mem; lia|]; run_with E
  | |- context [(get16 ?p ≫= _) ?m] =>
      let E := fresh "E" in destruct (get16_any m p) as (?v&?&?&E); [done|unfold in_mem; lia|]; run_with E
  | |- context [(get32 ?p ≫= _) ?m] =>
      let E := fresh "E" in destruct (get32_any m p) as (?v&?&?&E); [done|unfold in_mem; lia|]; run_with E
  | |- context [(get64 ?p ≫= _) ?m] =>
      let E := fresh "E" in destruct (get64_any m p) as (?v&?&?&E); [done|unfold in_mem; lia|]; run_with E
  | |- context [(gstring ?p ?ep ?set ?f ≫= _) ?m] =>
      let E := fresh "E" in let Hso := fresh "Hso" in
      destruct (gstring_any m p ep set f) as [E|(?s&?m&?&?&?&E&?&Hso)];
      [done|lia|lia|lia|run_with E; cbn [Z.eqb fst snd]; rewrite ?ret_run; a_fail
      |run_with E; pose proof (proj1 Hso); zpos;
       rewrite ?(proj2 (Z.eqb_neq (p + _) 0)) by lia]
  | |- context [(gqid ?p ?ep ?set ?f ≫= _) ?m] =>
      let E := fresh "E" in destruct (gqid_any m p ep set f) as [E|(?q&?&?&?&E)];
      [done|lia|lia|lia|run_with E; cbn [Z.eqb fst snd]; rewrite ?ret_run; a_fail
      |run_with E; rewrite ?(proj2 (Z.eqb_neq (p + _) 0)) by lia]
  | |- context [mret _ _] => rewrite ret_run
  end; cbv zeta; cbn [fst snd f_count f_nstat f_nwname f_nwqid
                 set_fid set_newfid set_offset set_count set_nstat set_nwname set_nwqid].

(** The message that was read. *)
Ltac a_msg x :=
  match goal with
  | |- exists r f' m', Some ((?q, ?f1), ?m1) = _ /\ _ =>
      exists q, f1, m1; split; [reflexivity|]; split; [done|]; split; [outside|];
      let He := fresh in intros He; injection He as He; exists x;
      unfold msg_raw; cbn [msg_wf wire_body msg_type];
      try change (Zlen (@nil Z)) with 0;
      rewrite ?le8_s64 by done; rewrite ?Zlen_app, ?Zlen_le, ?Zlen_wstr, ?Zlen_wqid;
      split_and!; try done; try (by apply s64_range); try lia;
      try (split; [assumption|lia]); try (apply bytes_at_nil; lia);
      rewrite ?bytes_at_app, ?Zlen_le, ?Zlen_wstr, ?Zlen_wqid;
      split_and?; try eassumption;
      try (eapply bytes_at_back; [eassumption|eassumption|autorewrite with zl; lia])
  end.

(** A counted block: the count may wrap the pointer, but then the block does
    not end where the buffer does. *)
Ltac a_data d :=
  match goal with
  | |- context [if ?p +p ?n >? ?ep then _ else _] =>
      let E := fresh "E" in
      unfold is_u16, is_u32 in *;
      destruct (padd_wraps p n) as [E|E];
      [lia|unfold is_u32; lia
      |rewrite E, (Z.gtb_ltb (p + n) ep); destruct (Z.ltb_spec ep (p + n)); [a_fail|]
      |rewrite E, (Z.gtb_ltb (p + n - 2 ^ 32) ep);
       destruct (Z.ltb_spec ep (p + n - 2 ^ 32)); a_fail]
  end;
  rewrite ret_run; cbn [fst snd];
  match goal with
  | Hok : mem_ok ?m |- exists r f' m', Some ((Some (?p + ?n), _), ?m) = _ /\ _ =>
      let Hi := fresh "Hi" in let Hd := fresh "Hd" in let Hl := fresh "Hl" in
      assert (Hi : in_mem m p n) by (unfold in_mem; lia);
      pose proof (sub_bytes_at m p n Hi) as Hd; pose proof (Zlen_sub m p n Hi) as Hl;
      pose proof (bytes_at_Forall _ _ _ (proj1 Hok) Hd);
      set (d := sub m p n) in *; rewrite <- Hl in *
  end.

Lemma m2s_T_any m ap nap f :
  mem_ok m -> in_mem m ap nap -> 7 <= nap < 2 ^ 31 ->
  exists r f' m', m2s_T (ap + 7) (ap + nap) f m = Some ((r, f'), m') /\
    m2s_post ap nap m f.(f_type) r m'.
Proof.
  intros Hok Hroom Hn. pose proof Hok as [_ Hlim]. pose proof Hroom as (?&?&?).
  unfold m2s_post, m2s_T, brk. cbv zeta.
  destruct (Z.eqb_spec (f_type f) Tversion) as [Ht|_]; cbn [orb].
  { repeat a_step. a_msg (MTversion v s). }
  destruct (Z.eqb_spec (f_type f) Tflush) as [Ht|_]; cbn [orb].
  { repeat a_step. a_msg (MTflush v). }
  destruct (Z.eqb_spec (f_type f) Tauth) as [Ht|_]; cbn [orb].
  { repeat a_step. a_msg (MTauth v s s0). }
  destruct (Z.eqb_spec (f_type f) Tattach) as [Ht|_]; cbn [orb].
  { repeat a_step. a_msg (MTattach v v0 s s0). }
  destruct (Z.eqb_spec (f_type f) Twalk) as [Ht|_]; cbn [orb].
  { repeat a_step. unfold MAXWELEM in *.
    destruct (gstrings_any (ap + nap) (Z.to_nat v1) m 0 (ap + 7 + 4 + 4 + 2)
      (set_nwname v1 (set_newfid v0 (set_fid v f))))
      as (p'&f'&m'&E'&Hok'&Hso&Hp'); [done|lia..|]. run_with E'. cbn [fst snd]. rewrite ret_run.
    destruct Hp' as [->|(ss&Hk&Hss&Hb&->&_)]; [a_fail|]. unfold is_u16 in *.
    assert (Zlen ss = v1) as <- by (unfold Zlen; lia). a_msg (MTwalk v v0 ss). }
  destruct (Z.eqb_spec (f_type f) Topen) as [Ht|_]; cbn [orb].
  { repeat a_step. a_msg (MTopen v v0). }
  destruct (Z.eqb_spec (f_type f) Tcreate) as [Ht|_]; cbn [orb].
  { repeat a_step. a_msg (MTcreate v s v0 v1). }
  destruct (Z.eqb_spec (f_type f) Tread) as [Ht|_]; cbn [orb].
  { repeat a_step. a_msg (MTread v (s64 v0) v1). }
  destruct (Z.eqb_spec (f_type f) Twrite) as [Ht|_]; cbn [orb].
  { repeat a_step. a_data d. a_msg (MTwrite v (s64 v0) d). }
  destruct (Z.eqb_spec (f_type f) Tclunk) as [Ht|_]; cbn [orb].
  { repeat a_step. a_msg (MTclunk v). }
  destruct (Z.eqb_spec (f_type f) Tremove) as [Ht|_]; cbn [orb].
  { repeat a_step. a_msg (MTremove v). }
  destruct (Z.eqb_spec (f_type f) Tstat) as [Ht|_]; cbn [orb].
  { repeat a_step. a_msg (MTstat v). }
  destruct (Z.eqb_spec (f_type f) Twstat) as [Ht|_]; cbn [orb].
  { repeat a_step. a_data d. a_msg (MTwstat v d). }
  a_fail.
Qed.

Lemma m2s_R_any m ap nap f :
  mem_ok m -> in_mem m ap nap -> 7 <= nap < 2 ^ 31 ->
  exists r f' m', m2s_R (ap + 7) (ap + nap) f m = Some ((r, f'), m') /\
    m2s_post ap nap m f.(f_type) r m'.
Proof.
  intros Hok Hroom Hn. pose proof Hok as [_ Hlim]. pose proof Hroom as (?&?&?).
  unfold m2s_post, m2s_R, brk. cbv zeta.
  destruct (Z.eqb_spec (f_type f) Rversion) as [Ht|_]; cbn [orb].
  { repeat a_step. a_msg (MRversion v s). }
  destruct (Z.eqb_spec (f_type f) Rerror) as [Ht|_]; cbn [orb].
  { repeat a_step. a_msg (MRerror s). }
  destruct (Z.eqb_spec (f_type f) Rflush) as [Ht|_]; cbn [orb].
  { repeat a_step. a_msg MRflush. }
  destruct (Z.eqb_spec (f_type f) Rauth) as [Ht|_]; cbn [orb].
  { repeat a_step. a_msg (MRauth q). }
  destruct (Z.eqb_spec (f_type f) Rattach) as [Ht|_]; cbn [orb].
  { repeat a_step. a_msg (MRattach q). }
  destruct (Z.eqb_spec (f_type f) Rwalk) as [Ht|_]; cbn [orb].
  { repeat a_step. unfold MAXWELEM in *.
    destruct (gqids_any (ap + nap) (Z.to_nat v) m 0 (ap + 7 + 2) (set_nwqid v f))
      as (p'&f'&E'&Hp'); [done|lia..|]. run_with E'. cbn [fst snd]. rewrite ret_run.
    destruct Hp' as [->|(qs&Hk&Hss&Hb&->&_)]; [a_fail|]. unfold is_u16 in *.
    assert (Zlen qs = v) as <- by (unfold Zlen; lia). a_msg (MRwalk qs). }
  destruct (Z.eqb_spec (f_type f) Ropen) as [Ht|_]; cbn [orb].
  { repeat a_step. a_msg (MRopen q v). }
  destruct (Z.eqb_spec (f_type f) Rcreate) as [Ht|_]; cbn [orb].
  { repeat a_step. a_msg (MRcreate q v). }
  destruct (Z.eqb_spec (f_type f) Rread) as [Ht|_]; cbn [orb].
  { repeat a_step. a_data d. a_msg (MRread d). }
  destruct (Z.eqb_spec (f_type f) Rwrite) as [Ht|_]; cbn [orb].
  { repeat a_step. a_msg (MRwrite v). }
  destruct (Z.eqb_spec (f_type f) Rclunk) as [Ht|_]; cbn [orb].
  { repeat a_step. a_msg MRclunk. }
  destruct (Z.eqb_spec (f_type f) Rremove) as [Ht|_]; cbn [orb].
  { repeat a_step. a_msg MRremove. }
  destruct (Z.eqb_spec (f_type f) Rstat) as [Ht|_]; cbn [orb].
  { repeat a_step. a_data d. a_msg (MRstat d). }
  destruct (Z.eqb_spec (f_type f) Rwstat) as [Ht|_]; cbn [orb].
  { repeat a_step. a_msg MRwstat. }
  a_fail.
Qed.

(** The decoder never traps, writes only in the buffer, and accepts a buffer
    in full only when it holds an encoded message. *)
Lemma convM2S_any m ap nap f :
  mem_ok m -> in_mem m ap nap -> nap < 2 ^ 31 ->
  exists n f' m', convM2S ap nap f m = Some ((n, f'), m') /\ mem_ok m' /\
    same_outside ap nap m m' /\
    (n <> 0 -> n = nap ->
       exists tag x, is_u16 tag /\ msg_raw x /\ bytes_at m ap (wire tag x) /\
         Zlen (wire tag x) = nap).
Proof.
  intros Hok Hroom Hn. pose proof Hok as [_ Hlim]. pose proof Hroom as (?&?&?).
  unfold convM2S. cbv zeta. change (BIT32SZ + BIT8SZ + BIT16SZ) with 7.
  rewrite (padd_small ap nap), (padd_small ap 7), Z.gtb_ltb by lia.
  destruct (Z.ltb_spec (ap + nap) (ap + 7)).
  { exists 0, f, m. split_and!; try done. }
  destruct (get32_any m ap Hok) as (size&Hs&B1&E1); [unfold in_mem; lia|]. run_with E1.
  destruct (Z.ltb_spec size 7). { exists 0, f, m. split_and!; try done. }
  destruct (get8_any m (ap + 4) Hok) as (t&Ht&B2&E2); [unfold in_mem; lia|]. run_with E2.
  destruct (get16_any m (ap + 4 + 1) Hok) as (tag&Htag&B3&E3); [unfold in_mem; lia|].
  run_with E3. replace (ap + 4 + 1 + 2) with (ap + 7) by lia.
  assert (Hb : exists r f' m',
    m2s_body (ap + 7) (ap + nap) (set_tag tag (set_type t f)) m = Some ((r, f'), m') /\
    m2s_post ap nap m t r m').
  { unfold m2s_body. cbn [f_type set_type set_tag].
    destruct (Z.even t); [apply m2s_T_any|apply m2s_R_any]; (done || lia). }
  destruct Hb as (r&f'&m'&E'&Hok'&Hso&Hpost). run_with E'.
  assert (Hso' : same_outside ap nap m m') by outside.
  destruct r as [p|]; [|exists 0, f', m'; split_and!; done].
  destruct ((p =? 0) || (p >? ap + nap)) eqn:Hp; [exists 0, f', m'; split_and!; done|].
  destruct (Z.eqb_spec (ap +p size) p) as [Hz|]; [|exists 0, f', m'; split_and!; done].
  exists size, f', m'. split_and!; try done. intros _ ->.
  rewrite padd_small in Hz by lia. subst p.
  destruct (Hpost eq_refl) as (x&Hx&<-&Bx&Hlx). exists tag, x. split_and!; try done.
  - unfold wire. rewrite Hlx, !bytes_at_app, !Zlen_le.
    change (Z.of_nat 4) with 4. change (Z.of_nat 1) with 1. change (Z.of_nat 2) with 2.
    replace (ap + 4 + 1 + 2) with (ap + 7) by lia. done.
  - rewrite Zlen_wire. lia.
Qed.
