(* ===== verification/Codec.v ===== *)
(** What the 9P codec guarantees as a whole: encoding and decoding are inverse,
    in a fresh buffer and in place; the decoder accepts exactly the encodings,
    never leaves its buffer and never traps. *)

From S2P Require Import Prelude Mem CString Fcall ConvS2M ConvM2S.

(** * Changing what pointers are known to point at *)

Section Mono.
Context (strp : list Z -> Prop) (str str' dat dat' : Z -> Z -> list Z -> Prop) (N : Z).
Hypothesis Hstr : forall o p s,
  7 <= o -> o + 2 + Zlen s <= N -> strp s -> str o p s -> str' o p s.
Hypothesis Hdat : forall o p d, 7 <= o -> o + Zlen d <= N -> dat o p d -> dat' o p d.

Lemma reprs_mono ss : forall o ps, 7 <= o -> o + Zlen (concat (map wstr ss)) <= N ->
  Forall strp ss -> reprs str o ps ss -> reprs str' o ps ss.
Proof.
  induction ss as [|s ss IH]; intros o [|p ps] Ho Hl Hs; cbn [reprs]; try done.
  cbn [map concat] in Hl. zl. zpos.
  inversion Hs; subst. intros [Hp Hps]. split; [apply Hstr; (done || lia)|].
  apply IH; (done || lia).
Qed.

Lemma repr_mono f x : msg_wf strp x -> 7 + Zlen (wire_body x) <= N ->
  repr str dat f x -> repr str' dat' f x.
Proof.
  intros Hx Hl [Ht Hr]. split; [done|].
  destruct x; cbn [msg_wf wire_body] in Hx, Hl;
    rewrite ?Zlen_app, ?Zlen_le, ?Zlen_wstr in Hl; zpos; destruct_and?; split_and?; auto;
    try (apply Hstr; (done || lia)); try (apply Hdat; (done || lia));
    apply reprs_mono; (done || lia).
Qed.
End Mono.

Lemma msg_ok_raw x : msg_ok x -> msg_raw x.
Proof.
  assert (Hs : forall s, str_ok s -> raw_ok s).
  { intros s [H1 H2]. split; [by apply nonul_bytes|done]. }
  unfold msg_ok, msg_raw. destruct x; cbn [msg_wf]; try tauto;
    intros; destruct_and?; split_and?; auto.
  by eapply Forall_impl.
Qed.

Lemma wire_bytes tag x : msg_raw x -> Forall is_byte (wire tag x).
Proof.
  assert (Hs : forall s, raw_ok s -> Forall is_byte (wstr s)).
  { intros s [H1 _]. apply Forall_app. auto using le_bytes. }
  unfold msg_raw. intros Hx. unfold wire. rewrite !Forall_app. split_and!; try apply le_bytes.
  destruct x; cbn [msg_wf wire_body] in *; destruct_and?; rewrite ?Forall_app; split_and?;
    auto using le_bytes, wqid_bytes;
    try match goal with H : bytes_ok _ _ |- _ => by destruct H end.
  - apply Forall_concat, Forall_map. by eapply Forall_impl.
  - apply Forall_concat, Forall_map, Forall_true. apply wqid_bytes.
Qed.

Lemma decstr_cstr m ap o p s : str_ok s -> decstr m ap o p s -> cstr_at m p s.
Proof. intros [H _] [_ Hb]. by split. Qed.

(** * Theorems *)

(** A decoded structure, seen by a client: strings are C strings inside the
    message, data is inside the message. *)
Definition in_msg_str (m : mem) (ap n : Z) (_ p : Z) (s : list Z) : Prop :=
  cstr_at m p s /\ ap <= p /\ p + Zlen s < ap + n.
Definition in_msg_dat (m : mem) (ap n : Z) (_ p : Z) (d : list Z) : Prop :=
  bytes_at m p d /\ ap <= p /\ p + Zlen d <= ap + n.

(** C1.  Round trip.  Whatever message a structure stands for, encoding it and
    decoding the buffer gives back a structure that stands for the same message
    and tag, with every string and every data block inside the message and no
    memory outside the message touched. *)
Theorem codec_roundtrip m ap nap f f0 tag x :
  mem_ok m -> in_mem m ap nap -> msg_ok x -> is_u16 tag -> f.(f_tag) = tag ->
  repr (src m ap) (dsrc m ap) f x -> Zlen (wire tag x) <= nap -> fcall_wf f0 ->
  exists n m1 f' m2,
    convS2M f ap nap m = Some (n, m1) /\ convM2S ap n f0 m1 = Some ((n, f'), m2) /\
    n = Zlen (wire tag x) /\ f'.(f_tag) = tag /\
    repr (in_msg_str m2 ap n) (in_msg_dat m2 ap n) f' x /\ same_outside ap n m m2.
Proof.
  intros Hok Hroom Hx Hu Htag Hr Hl Hf0. pose proof (Zlen_nonneg (wire tag x)).
  set (n := Zlen (wire tag x)) in *.
  assert (Hin : in_mem m ap n) by (unfold in_mem in *; lia).
  exists n, (wr m ap (wire tag x)).
  destruct (convM2S_run (wr m ap (wire tag x)) ap n f0 tag x) as (f'&m2&E&Ht&Hr'&Hok2&Hso);
    try done.
  - apply mem_ok_wr; [done|by apply wire_bytes, msg_ok_raw|done].
  - by rewrite in_mem_wr.
  - by apply msg_ok_raw.
  - by apply bytes_at_wr.
  - exists f', m2. split_and!; try done.
    + by eapply convS2M_run.
    + eapply (repr_mono str_ok _ _ _ _ n); [| |exact Hx| |exact Hr'].
      * intros o p s Ho Hle Hs Hd. pose proof (decstr_cstr _ _ _ _ _ Hs Hd). destruct Hd as [-> _].
        unfold in_msg_str. split_and!; [done|lia..].
      * intros o p d Ho Hle [-> Hd]. unfold in_msg_dat. split_and!; [done|lia..].
      * unfold n. rewrite Zlen_wire. lia.
    + eapply same_outside_trans; [by apply wr_same_outside|exact Hso|lia..].
Qed.

(** C6.  Decoding in place and re-encoding the structure, whose pointers now lie
    inside the buffer being written, restores every byte of memory: the promise
    of the comment in [pstring]. *)
Theorem reencode_in_place m ap nap f0 tag x :
  mem_ok m -> in_mem m ap nap -> msg_ok x -> is_u16 tag -> fcall_wf f0 ->
  bytes_at m ap (wire tag x) -> Zlen (wire tag x) <= nap ->
  exists n f' m1, convM2S ap nap f0 m = Some ((n, f'), m1) /\ convS2M f' ap nap m1 = Some (n, m).
Proof.
  intros Hok Hroom Hx Hu Hf Hb Hl.
  destruct (convM2S_run m ap nap f0 tag x) as (f'&m1&E&Ht&Hr&Hok1&[Hz Hso]); try done.
  { by apply msg_ok_raw. }
  exists (Zlen (wire tag x)), f', m1. split; [done|].
  assert (Hroom1 : in_mem m1 ap nap) by (unfold in_mem in *; lia).
  rewrite (convS2M_run m1 ap nap f' tag x); try done.
  - do 2 f_equal. pose proof (bytes_at_in _ _ _ Hb) as Hin.
    assert (Hin1 : in_mem m1 ap (Zlen (wire tag x))) by (unfold in_mem in *; lia).
    transitivity (wr m ap (wire tag x)); [|by apply wr_bytes_at]. apply lk_ext. intros i _. rewrite !lk_wr by done.
    destruct (Z.leb_spec ap i), (Z.ltb_spec i (ap + Zlen (wire tag x))); simpl; auto;
      apply Hso; lia.
  - eapply (repr_mono str_ok _ _ _ _ (Zlen (wire tag x))); [| |exact Hx| |exact Hr].
    + intros o p s Ho Hle Hs Hd. pose proof (decstr_cstr _ _ _ _ _ Hs Hd). destruct Hd as [-> _].
      right. destruct Hroom as (?&_&_). split_and!; [lia|done|lia].
    + intros o p d Ho Hle [-> Hd]. split; [done|lia].
    + by rewrite Zlen_wire.
Qed.

(** C7.  The decoder accepts exactly the encodings: it reports a buffer of [nap]
    bytes as one complete message just when those bytes are the encoding of a
    well-formed message. *)
Theorem decoder_accepts_encodings m ap nap f0 :
  mem_ok m -> in_mem m ap nap -> 0 < nap < 2 ^ 31 -> fcall_wf f0 ->
  (exists f' m', convM2S ap nap f0 m = Some ((nap, f'), m')) <->
  (exists tag x, is_u16 tag /\ msg_raw x /\ sub m ap nap = wire tag x).
Proof.
  intros Hok Hroom Hn Hf. pose proof (sub_bytes_at _ _ _ Hroom) as Hs.
  pose proof (Zlen_sub _ _ _ Hroom) as Hsl. split.
  - intros (f'&m'&E). destruct (convM2S_any m ap nap f0) as (n&f1&m1&E1&_&_&Hx); [done..|lia|].
    rewrite E in E1. injection E1 as <- <- <-.
    destruct Hx as (tag&x&Ht&Hx&Hb&Hl); [lia|done|]. exists tag, x. split_and!; try done.
    eapply bytes_at_eq; [done..|lia].
  - intros (tag&x&Ht&Hx&Heq). rewrite Heq in Hs, Hsl.
    destruct (convM2S_run m ap nap f0 tag x) as (f'&m'&E&_); try done; [lia|].
    exists f', m'. by rewrite <- Hsl at 2.
Qed.

(** C8.  Whatever bytes arrive, decoding terminates without a trap or an abort
    and changes no memory outside the buffer. *)
Theorem decoder_safe m ap nap f0 :
  mem_ok m -> in_mem m ap nap -> nap < 2 ^ 31 ->
  exists n f' m', convM2S ap nap f0 m = Some ((n, f'), m') /\ mem_ok m' /\
    same_outside ap nap m m'.
Proof.
  intros. destruct (convM2S_any m ap nap f0) as (n&f'&m'&?&?&?&_); [done..|]. eauto 6.
Qed.

(** C9.  The encoder writes exactly the message's wire encoding and nothing
    else, and returns its size, which is also what [sizeS2M] computes; when the
    buffer is too small it returns 0 and writes nothing. *)
Theorem encoder_correct m ap nap f tag x :
  mem_ok m -> in_mem m ap nap -> msg_ok x -> f.(f_tag) = tag ->
  repr (src m ap) (dsrc m ap) f x -> Zlen (wire tag x) < 2 ^ 32 ->
  sizeS2M f m = Some (Zlen (wire tag x), m) /\
  convS2M f ap nap m =
    if Zlen (wire tag x) <=? nap then Some (Zlen (wire tag x), wr m ap (wire tag x))
    else Some (0, m).
Proof.
  intros Hok Hroom Hx Ht Hr Hl. split.
  - rewrite Zlen_wire in *. by eapply sizeS2M_run.
  - destruct (Z.leb_spec (Zlen (wire tag x)) nap).
    + by eapply convS2M_run.
    + eapply convS2M_small; (done || lia).
Qed.

(** * A concrete exchange

    A 64-byte memory with the string ["9P2000"] at address 1 and a buffer at
    address 16: the version message every session starts with. *)

Definition ex_version : list Z := [57; 80; 50; 48; 48; 48].
Definition ex_mem : mem := [0] ++ ex_version ++ replicate 57 0.
Definition ex_fcall0 : Fcall :=
  mkFcall 0 0 0 0 0 0 0 (mkQid 0 0 0) 0 (mkQid 0 0 0) 0 0 0 0 0 0 0 0 (replicate 16 0) 0
    (replicate 16 (mkQid 0 0 0)) 0 0 0 0 0.
Definition ex_fcall : Fcall :=
  set_tag NOTAG (set_msize 8192 (set_version 1 (set_type Tversion ex_fcall0))).
Definition ex_msg : Msg := MTversion 8192 ex_version.

Lemma ex_mem_ok : mem_ok ex_mem.
Proof. split; [repeat (constructor; [unfold is_byte; lia|]); constructor|done]. Qed.
Lemma ex_msg_ok : msg_ok ex_msg.
Proof. repeat split; try done; repeat (constructor; [lia|]); constructor. Qed.
Lemma ex_cstr : cstr_at ex_mem 1 ex_version.
Proof.
  split; [repeat (constructor; [lia|]); constructor|].
  repeat (apply bytes_at_cons; split; [reflexivity|]). apply bytes_at_nil. done.
Qed.
Lemma ex_room : in_mem ex_mem 16 40.
Proof. done. Qed.
Lemma ex_repr : repr (src ex_mem 16) (dsrc ex_mem 16) ex_fcall ex_msg.
Proof.
  split; [done|]. split; [done|]. right. split; [done|]. split; [exact ex_cstr|]. left. done.
Qed.
Lemma ex_wf0 : fcall_wf ex_fcall0.
Proof. done. Qed.
Definition ex_mem1 : mem := wr ex_mem 16 (wire NOTAG ex_msg).
Lemma ex_mem1_ok : mem_ok ex_mem1.
Proof. apply mem_ok_wr; [apply ex_mem_ok|apply wire_bytes, msg_ok_raw, ex_msg_ok|done]. Qed.
Lemma ex_wire_at : bytes_at ex_mem1 16 (wire NOTAG ex_msg).
Proof. apply bytes_at_wr. done. Qed.

Lemma codec_roundtrip_witness :
  exists n m1 f' m2,
    convS2M ex_fcall 16 40 ex_mem = Some (n, m1) /\
    convM2S 16 n ex_fcall0 m1 = Some ((n, f'), m2) /\
    n = Zlen (wire NOTAG ex_msg) /\ f'.(f_tag) = NOTAG /\
    repr (in_msg_str m2 16 n) (in_msg_dat m2 16 n) f' ex_msg /\ same_outside 16 n ex_mem m2.
Proof.
  apply (codec_roundtrip ex_mem 16 40 ex_fcall ex_fcall0 NOTAG ex_msg);
    [exact ex_mem_ok|exact ex_room|exact ex_msg_ok|done|done|exact ex_repr|done|exact ex_wf0].
Defined.

Lemma reencode_in_place_witness :
  exists n f' m1, convM2S 16 40 ex_fcall0 ex_mem1 = Some ((n, f'), m1) /\
    convS2M f' 16 40 m1 = Some (n, ex_mem1).
Proof.
  apply (reencode_in_place ex_mem1 16 40 ex_fcall0 NOTAG ex_msg);
    [exact ex_mem1_ok|done|exact ex_msg_ok|done|exact ex_wf0|exact ex_wire_at|done].
Defined.

Lemma decoder_accepts_encodings_witness :
  exists f' m', convM2S 16 19 ex_fcall0 ex_mem1 = Some ((19, f'), m').
Proof.
  apply (decoder_accepts_encodings ex_mem1 16 19 ex_fcall0);
    [exact ex_mem1_ok|done|done|exact ex_wf0|].
  exists NOTAG, ex_msg. split; [done|]. split; [exact (msg_ok_raw _ ex_msg_ok)|reflexivity].
Defined.

Lemma decoder_safe_witness :
  exists n f' m', convM2S 16 40 ex_fcall0 ex_mem = Some ((n, f'), m') /\ mem_ok m' /\
    same_outside 16 40 ex_mem m'.
Proof. apply (decoder_safe ex_mem 16 40 ex_fcall0); [exact ex_mem_ok|done|done]. Defined.

Lemma encoder_correct_witness :
  sizeS2M ex_fcall ex_mem = Some (19, ex_mem) /\
  convS2M ex_fcall 16 40 ex_mem = Some (19, ex_mem1).
Proof.
  exact (encoder_correct ex_mem 16 40 ex_fcall NOTAG ex_msg ex_mem_ok ex_room ex_msg_ok
    eq_refl ex_repr ltac:(done)).
Defined.

(** * Counts that wrap the pointer *)

(** An [Rread] that announces 4294967295 bytes of data in a message of 10. *)
Definition ex_wrap_mem : mem := replicate 16 0 ++ [10; 0; 0; 0; 117; 0; 0; 255; 255; 255; 255] ++ replicate 5 0.

(** When the caller's buffer is longer than the message, a count near
    [2 ^ 32] wraps the pointer past the bounds check and the message is accepted
    with data far larger than memory; the check against the message's own size
    does not catch it.  (Callers that compare the result with the buffer's
    length, as the server does, refuse it: the previous property.) *)
Theorem decoder_count_wraps :
  exists f' m', convM2S 16 11 ex_fcall0 ex_wrap_mem = Some ((10, f'), m') /\
    f'.(f_type) = Rread /\ f'.(f_count) = 2 ^ 32 - 1 /\ Zlen ex_wrap_mem = 32.
Proof. eexists _, _. split; [vm_compute; reflexivity|]. split_and!; reflexivity. Qed.
