(* ===== verification/ConvDir.v ===== *)
(** [libc/9sys/convD2M.c] and [convM2D.c]: the machine-independent form of a
    directory entry, which [stat], [wstat] and directory reads carry.

    [Dir] is the C structure with string pointers; [Stat] is the entry it
    stands for, and [wire_stat] the encoding both routines agree on. *)

From S2P Require Import Prelude Mem CString Fcall ConvS2M ConvM2S.

Local Open Scope c_scope.

(** * Definitions *)

Record Dir := mkDir {
  d_type : Z;
  d_dev : Z;
  d_qid : Qid;
  d_mode : Z;
  d_atime : Z;
  d_mtime : Z;
  d_length : Z;
  d_name : Z;
  d_uid : Z;
  d_gid : Z;
  d_muid : Z
}.

Fixpoint statcheck_loop (k : nat) (buf ebuf : Z) : M Z :=
  match k with
  | O => if negb (buf =? ebuf) then mret (-1) else mret 0
  | S k =>
      if buf +p BIT16SZ >? ebuf then mret (-1)
      else n ← GBIT16 buf; statcheck_loop k (buf +p (BIT16SZ + n)) ebuf
  end.

Definition statcheck (buf nbuf : Z) : M Z :=
  let ebuf := buf +p nbuf in
  if nbuf <? STATFIXLEN then mret (-1) else
  n ← GBIT16 buf;
  if negb (nbuf =? BIT16SZ + n) then mret (-1) else
  statcheck_loop 4 (buf +p (STATFIXLEN - 4 * BIT16SZ)) ebuf.

(** The strings: each is copied to [strs], when there is one, and terminated.
    [None] is the early [return 0]; otherwise the copies and the pointer. *)
Fixpoint gdstrs (k : nat) (p ebuf strs : Z) : M (option (list Z * Z)) :=
  match k with
  | O => mret (Some ([], p))
  | S k =>
      if p +p BIT16SZ >? ebuf then mret None else
      ns ← GBIT16 p;
      let p := p +p BIT16SZ in
      if p +p ns >? ebuf then mret None else
      strs' ← (if strs =? 0 then mret 0
               else _ ← memmove strs p ns;
                    _ ← st8 (strs +p ns) 0;
                    mret (strs +p (ns + 1)));
      r ← gdstrs k (p +p ns) ebuf strs';
      mret (match r with Some (sv, p) => Some (strs :: sv, p) | None => None end)
  end.

(** [nullstring] is the address of the static empty string. *)
Definition convM2D (nullstring buf nbuf : Z) (d : Dir) (strs : Z) : M (Z * Dir) :=
  if nbuf <? STATFIXLEN then mret (0, d) else
  let p := buf in
  let ebuf := buf +p nbuf in
  let p := p +p BIT16SZ in
  '(type, p) ← get16 p;
  '(dev, p) ← get32 p;
  '(qtype, p) ← get8 p;
  '(qvers, p) ← get32 p;
  '(qpath, p) ← get64 p;
  '(mode, p) ← get32 p;
  '(atime, p) ← get32 p;
  '(mtime, p) ← get32 p;
  '(length, p) ← get64 p;
  let fixed := mkDir type dev (mkQid qpath qvers qtype) mode atime mtime (s64 length) in
  r ← gdstrs 4 p ebuf strs;
  mret match r with
  | Some (sv, p) =>
      (u32 (p - buf),
       if strs =? 0 then fixed nullstring nullstring nullstring nullstring
       else fixed (nth 0 sv 0) (nth 1 sv 0) (nth 2 sv 0) (nth 3 sv 0))
  | None => (0, fixed d.(d_name) d.(d_uid) d.(d_gid) d.(d_muid))
  end.

(** [nsv[i]], and their sum, as [int]s. *)
Fixpoint strlens (sv : list Z) : M (list Z) :=
  match sv with
  | [] => mret []
  | s :: sv =>
      n ← (if s =? 0 then mret 0 else strlen s);
      nsv ← strlens sv; mret (n :: nsv)
  end.
Definition isum (nsv : list Z) : Z := fold_left (fun a n => s32 (a + n)) nsv 0.

Definition sizeD2M (d : Dir) : M Z :=
  nsv ← strlens [d.(d_name); d.(d_uid); d.(d_gid); d.(d_muid)];
  mret (u32 (STATFIXLEN + isum nsv)).

Fixpoint pdstrs (sv nsv : list Z) (p ebuf : Z) : M (option Z) :=
  match sv, nsv with
  | s :: sv, ns :: nsv =>
      if p +p ns +p BIT16SZ >? ebuf then mret None else
      p ← put16 p ns;
      _ ← (if ns =? 0 then mret p else memmove p s ns);
      pdstrs sv nsv (p +p ns) ebuf
  | _, _ => mret (Some p)
  end.

Definition convD2M (d : Dir) (buf nbuf : Z) : M Z :=
  if nbuf <? BIT16SZ then mret 0 else
  let p := buf in
  let ebuf := buf +p nbuf in
  let sv := [d.(d_name); d.(d_uid); d.(d_gid); d.(d_muid)] in
  nsv ← strlens sv;
  let ss := s32 (STATFIXLEN + isum nsv) in
  p ← put16 p (ss - BIT16SZ);
  if u32 ss >? nbuf then mret BIT16SZ else
  p ← put16 p d.(d_type);
  p ← put32 p d.(d_dev);
  p ← put8 p d.(d_qid).(q_type);
  p ← put32 p d.(d_qid).(q_vers);
  p ← put64 p d.(d_qid).(q_path);
  p ← put32 p d.(d_mode);
  p ← put32 p d.(d_atime);
  p ← put32 p d.(d_mtime);
  p ← put64 p d.(d_length);
  r ← pdstrs sv nsv p ebuf;
  mret match r with
  | None => 0
  | Some p => if negb (u32 ss =? u32 (p - buf)) then 0 else u32 (p - buf)
  end.

(** * Entries and their encoding *)

Record Stat := mkStat {
  st_type : Z;
  st_dev : Z;
  st_qid : Qid;
  st_mode : Z;
  st_atime : Z;
  st_mtime : Z;
  st_length : Z;
  st_name : list Z;
  st_uid : list Z;
  st_gid : list Z;
  st_muid : list Z
}.

Definition st_strs (x : Stat) : list (list Z) := [st_name x; st_uid x; st_gid x; st_muid x].
Definition wire_fix (x : Stat) : list Z :=
  le 2 (st_type x) ++ le 4 (st_dev x) ++ wqid (st_qid x) ++ le 4 (st_mode x) ++
  le 4 (st_atime x) ++ le 4 (st_mtime x) ++ le 8 (st_length x).
Definition wire_stat (x : Stat) : list Z :=
  le 2 (39 + Zlen (concat (map wstr (st_strs x)))) ++ wire_fix x ++ concat (map wstr (st_strs x)).

Definition stat_wf (strp : list Z -> Prop) (x : Stat) : Prop :=
  is_u16 (st_type x) /\ is_u32 (st_dev x) /\ qid_ok (st_qid x) /\ is_u32 (st_mode x) /\
  is_u32 (st_atime x) /\ is_u32 (st_mtime x) /\ is_s64 (st_length x) /\ Forall strp (st_strs x).

(** The fixed part of the structure is the entry's. *)
Definition dir_fix (d : Dir) (x : Stat) : Prop :=
  d_type d = st_type x /\ d_dev d = st_dev x /\ d_qid d = st_qid x /\ d_mode d = st_mode x /\
  d_atime d = st_atime x /\ d_mtime d = st_mtime x /\ d_length d = st_length x.
Definition d_strs (d : Dir) : list Z := [d_name d; d_uid d; d_gid d; d_muid d].

(** The strings one after another, each with its NUL; and where each starts. *)
Definition nuls (ss : list (list Z)) : list Z := concat (map (fun s => s ++ [0]) ss).
Fixpoint spread (a : Z) (ss : list (list Z)) : list Z :=
  match ss with [] => [] | s :: ss => a :: spread (a + (Zlen s + 1)) ss end.

(** * The encoder *)

Implicit Types (bs s : list Z) (ss : list (list Z)) (x : Stat).

Lemma Zlen_wire_fix x : Zlen (wire_fix x) = 39.
Proof. unfold wire_fix. rewrite !Zlen_app, !Zlen_le, Zlen_wqid. lia. Qed.
Lemma wire_fix_bytes x : Forall is_byte (wire_fix x).
Proof. unfold wire_fix. fbytes. Qed.
Lemma Zlen_wire_stat x : Zlen (wire_stat x) = 41 + Zlen (concat (map wstr (st_strs x))).
Proof. unfold wire_stat. rewrite !Zlen_app, Zlen_le, Zlen_wire_fix. lia. Qed.

Lemma Zlen_wstrs ss : Zlen (concat (map wstr ss)) = 2 * Zlen ss + foldr Z.add 0 (map Zlen ss).
Proof.
  induction ss as [|s ss IH]; [done|]. cbn [map concat foldr].
  rewrite Zlen_app, Zlen_wstr, Zlen_cons, IH. lia.
Qed.

Lemma strlens_run m f ps ss : forall o,
  mem_ok m -> Forall str_ok ss -> length ps = length ss ->
  reprs (fun o => src m f (o + 2)) o ps ss -> strlens ps m = Some (map Zlen ss, m).
Proof.
  revert ps. induction ss as [|s ss IH]; intros [|p ps] o Hok Hs Hl Hr; try done.
  inversion Hs as [|? ? [H1 H2] Hs']; subst. destruct Hr as [Hp Hr].
  cbn [strlens map]. pose proof (Zlen_nonneg s).
  assert (E : (if p =? 0 then mret 0 else strlen p) m = Some (Zlen s, m)).
  { destruct Hp as [[-> ->]|(Hp&Hc&_)]; [done|].
    rewrite (proj2 (Z.eqb_neq p 0)) by done. apply strlen_run; (done || lia). }
  run_with E. erewrite bind_run by (eapply IH; [done|done| |done]; by injection Hl). done.
Qed.

Lemma isum_sum ss : forall a, 0 <= a -> a + foldr Z.add 0 (map Zlen ss) < 2 ^ 31 ->
  fold_left (fun a n => s32 (a + n)) (map Zlen ss) a = a + foldr Z.add 0 (map Zlen ss).
Proof.
  induction ss as [|s ss IH]; intros a Ha Hl; cbn [map foldr fold_left] in *; [lia|].
  assert (Hp : 0 <= foldr Z.add 0 (map Zlen ss)).
  { clear. induction ss as [|s ss IH]; cbn [map foldr]; [lia|]. pose proof (Zlen_nonneg s). lia. }
  pose proof (Zlen_nonneg s). rewrite s32_small by lia. rewrite IH by lia. lia.
Qed.

Lemma pdstrs_app m ap N : mem_ok m -> in_mem m ap N -> forall ss ps bs,
  Forall is_byte bs -> Forall str_ok ss -> length ps = length ss ->
  Zlen bs + Zlen (concat (map wstr ss)) <= N ->
  reprs (fun o => src m ap (o + 2)) (Zlen bs) ps ss ->
  pdstrs ps (map Zlen ss) (ap + Zlen bs) (ap + N) (wr m ap bs) =
    Some (Some (ap + Zlen (bs ++ concat (map wstr ss))), wr m ap (bs ++ concat (map wstr ss))).
Proof.
  intros Hok Hroom. induction ss as [|s ss IH]; intros [|p ps] bs Hb Hs Hl Hn Hr; try done.
  { cbn. by rewrite app_nil_r. }
  inversion Hs as [|? ? Hs1 Hs2]; subst. pose proof Hs1 as [Hnn Hsl]. destruct Hr as [Hp Hr].
  cbn [map concat pdstrs] in *. rewrite Zlen_app, Zlen_wstr in Hn.
  pose proof Hroom as (?&?&?). pose proof Hok as [_ Hlim]. zpos.
  unfold BIT16SZ. rewrite (padd_next m ap N Hok Hroom) by lia.
  rewrite padd_small, Z.gtb_ltb, (proj2 (Z.ltb_ge _ _)) by lia.
  run_with (put16_app m ap N Hok Hroom bs (Zlen s) Hb ltac:(lia)).
  assert (Hb2 : Forall is_byte (bs ++ le 2 (Zlen s))) by fbytes.
  assert (E : (if Zlen s =? 0 then mret (ap + Zlen (bs ++ le 2 (Zlen s)))
               else memmove (ap + Zlen (bs ++ le 2 (Zlen s))) p (Zlen s))
                 (wr m ap (bs ++ le 2 (Zlen s))) =
              Some (ap + Zlen (bs ++ le 2 (Zlen s)), wr m ap (bs ++ wstr s))).
  { unfold wstr. destruct Hp as [[-> ->]|(Hp&Hc&Hd)]; [by rewrite app_nil_r|].
    destruct (Z.eqb_spec (Zlen s) 0) as [E0|_].
    { destruct s; [by rewrite app_nil_r|rewrite Zlen_cons in E0; zpos; lia]. }
    rewrite (app_assoc bs). apply (data_app m ap N Hok Hroom); [done| |zlia|].
    - split; [by apply nonul_bytes|lia].
    - split; [by apply cstr_bytes|]. rewrite Zlen_app, Zlen_le. lia. }
  run_with E. rewrite (padd_next m ap N Hok Hroom) by zlia.
  replace (ap + Zlen (bs ++ le 2 (Zlen s)) + Zlen s) with (ap + Zlen (bs ++ wstr s)) by zlia.
  rewrite IH; [by rewrite <- app_assoc|fbytes|done|by injection Hl|zlia|].
  rewrite Zlen_app, Zlen_wstr. by replace (Zlen bs + (2 + Zlen s)) with (Zlen bs + 2 + Zlen s) by lia.
Qed.

(** What [convD2M] does with a buffer of any size: nothing when not even the
    count fits, the count alone when the entry does not, and the whole entry
    otherwise. *)
Lemma convD2M_run m buf nbuf d x :
  mem_ok m -> in_mem m buf nbuf -> Forall str_ok (st_strs x) -> dir_fix d x ->
  reprs (fun o => src m buf (o + 2)) 41 (d_strs d) (st_strs x) ->
  convD2M d buf nbuf m =
    if nbuf <? 2 then Some (0, m)
    else if nbuf <? Zlen (wire_stat x) then Some (2, wr m buf (le 2 (Zlen (wire_stat x) - 2)))
    else Some (Zlen (wire_stat x), wr m buf (wire_stat x)).
Proof.
  intros Hok Hroom Hs (F1&F2&F3&F4&F5&F6&F7) Hr. unfold convD2M. change BIT16SZ with 2.
  destruct (Z.ltb_spec nbuf 2) as [|Hn2]; [done|].
  pose proof Hroom as (?&?&?). pose proof Hok as [_ Hlim].
  change [d_name d; d_uid d; d_gid d; d_muid d] with (d_strs d).
  run_with (strlens_run m buf (d_strs d) (st_strs x) 41 Hok Hs eq_refl Hr).
  assert (Hsum : 0 <= foldr Z.add 0 (map Zlen (st_strs x)) < 2 ^ 18).
  { repeat (apply Forall_cons in Hs as [[_ ?] Hs]).
    cbn [st_strs map foldr]. zpos. lia. }
  unfold isum. rewrite isum_sum by lia. rewrite Z.add_0_l.
  pose proof (Zlen_wire_stat x) as HW. rewrite Zlen_wstrs in HW. change (Zlen (st_strs x)) with 4 in HW.
  change STATFIXLEN with 49. rewrite s32_small by lia.
  replace (49 + foldr Z.add 0 (map Zlen (st_strs x))) with (Zlen (wire_stat x)) by lia.
  rewrite (u32_small (Zlen (wire_stat x))) by lia.
  rewrite <- (wr_nil m buf) at 1.
  replace buf with (buf + Zlen (@nil Z)) at 1 by (change (Zlen (@nil Z)) with 0; lia).
  emit Hok Hroom. cbn [app]. rewrite Z.gtb_ltb.
  destruct (Z.ltb_spec nbuf (Zlen (wire_stat x))) as [|Hle]; [done|].
  rewrite (padd_small buf nbuf) by lia.
  set (sz := Zlen (wire_stat x)) in *. pose proof (Zlen_wire_stat x) as HW2. fold sz in HW2.
  zpos. do 9 emit Hok Hroom.
  rewrite F1, F2, F3, F4, F5, F6, F7.
  match goal with |- context [pdstrs _ _ (buf + Zlen ?b) _] => set (bs := b) end.
  assert (Hbs : bs = le 2 (sz - 2) ++ wire_fix x).
  { unfold bs, wire_fix, wqid. by rewrite <- !app_assoc. }
  assert (Hbl : Zlen bs = 41) by (rewrite Hbs, Zlen_app, Zlen_le, Zlen_wire_fix; lia).
  erewrite bind_run.
  2: { apply (pdstrs_app m buf nbuf Hok Hroom); [|done|done|lia|by rewrite Hbl].
       rewrite Hbs. apply Forall_app. auto using le_bytes, wire_fix_bytes. }
  replace (bs ++ concat (map wstr (st_strs x))) with (wire_stat x).
  2: { rewrite Hbs, <- app_assoc. unfold wire_stat. do 2 f_equal. lia. }
  rewrite ret_run. fold sz. replace (buf + sz - buf) with sz by lia.
  rewrite u32_small, Z.eqb_refl by lia. done.
Qed.

Lemma sizeD2M_run m d x o f :
  mem_ok m -> Forall str_ok (st_strs x) ->
  reprs (fun o => src m f (o + 2)) o (d_strs d) (st_strs x) ->
  sizeD2M d m = Some (Zlen (wire_stat x), m).
Proof.
  intros Hok Hs Hr. unfold sizeD2M.
  change [d_name d; d_uid d; d_gid d; d_muid d] with (d_strs d).
  run_with (strlens_run m f (d_strs d) (st_strs x) o Hok Hs eq_refl Hr).
  assert (Hsum : 0 <= foldr Z.add 0 (map Zlen (st_strs x)) < 2 ^ 18).
  { repeat (apply Forall_cons in Hs as [[_ ?] Hs]). cbn [st_strs map foldr]. zpos. lia. }
  unfold isum. rewrite isum_sum by lia. rewrite ret_run. do 2 f_equal.
  rewrite Zlen_wire_stat, Zlen_wstrs. change (Zlen (st_strs x)) with 4.
  change STATFIXLEN with 49. rewrite u32_small; lia.
Qed.

(** * The decoder *)

Lemma nuls_cons s ss : nuls (s :: ss) = (s ++ [0]) ++ nuls ss.
Proof. done. Qed.
Lemma Zlen_nuls ss : Zlen (nuls ss) = Zlen ss + foldr Z.add 0 (map Zlen ss).
Proof.
  induction ss as [|s ss IH]; [done|]. rewrite nuls_cons, !Zlen_app, IH.
  cbn [map foldr]. rewrite !Zlen_cons, Zlen_nil. lia.
Qed.
Lemma nuls_bytes ss : Forall raw_ok ss -> Forall is_byte (nuls ss).
Proof.
  induction 1 as [|s ss [H _] _ IH]; [constructor|]. rewrite nuls_cons, !Forall_app.
  split_and!; [done| |done]. repeat constructor; unfold is_byte; lia.
Qed.

(** The write of the copies never reaches the part of the buffer still to be
    read: it starts at or before the next count, or after the buffer. *)
Lemma gdstrs_rd ebuf ss : forall m p strs,
  mem_ok m -> Forall raw_ok ss -> bytes_at m p (concat (map wstr ss)) ->
  p + Zlen (concat (map wstr ss)) <= ebuf -> ebuf <= Zlen m ->
  0 < strs -> strs <= p + 1 \/ ebuf <= strs -> strs + Zlen (nuls ss) <= Zlen m ->
  gdstrs (length ss) p ebuf strs m =
    Some (Some (spread strs ss, p + Zlen (concat (map wstr ss))), wr m strs (nuls ss)).
Proof.
  induction ss as [|s ss IH]; intros m p strs Hok Hs Hb Hle Hm H0 Hd Hroom.
  { cbn. by rewrite wr_nil, Z.add_0_r. }
  inversion Hs as [|? ? [Hs1 Hsl] Hs2]; subst. cbn [map concat length gdstrs spread] in *.
  rewrite nuls_cons in *. rewrite !Zlen_app, Zlen_wstr in *. change (Zlen [0]) with 1 in *.
  pose proof Hok as [_ Hlim]. zpos. apply bytes_at_app in Hb as [Hb1 Hb2].
  rewrite Zlen_wstr in Hb2. unfold wstr in Hb1. apply bytes_at_app in Hb1 as [Hn Hd1].
  rewrite Zlen_le in Hd1. change (Z.of_nat 2) with 2 in Hd1.
  pose proof (bytes_at_in _ _ _ Hn) as (?&_&_).
  unfold BIT16SZ. rewrite (padd_small p 2), Z.gtb_ltb, (proj2 (Z.ltb_ge _ _)) by lia.
  run_with (GBIT16_le m p (Zlen s) Hok ltac:(unfold is_u16; lia) Hn). cbv zeta.
  rewrite (padd_small (p + 2)), Z.gtb_ltb, (proj2 (Z.ltb_ge _ _)) by lia.
  rewrite (proj2 (Z.eqb_neq strs 0)) by lia.
  assert (Hi : in_mem m strs (Zlen s)) by (unfold in_mem; lia).
  assert (Hi1 : in_mem m strs (Zlen (s ++ [0]))) by (rewrite Zlen_app; unfold in_mem; change (Zlen [0]) with 1; lia).
  set (m1 := wr m strs (s ++ [0])).
  erewrite bind_run.
  2: { run_with (memmove_run m strs (p + 2) s Hok Hd1 Hi ltac:(lia)).
       rewrite !padd_small by lia.
       erewrite bind_run by (apply st8_run; rewrite in_mem_wr by done; unfold in_mem; lia).
       change (u8 0) with 0. rewrite wr_app by (unfold in_mem; change (Zlen [0]) with 1; lia).
       fold m1. reflexivity. }
  erewrite bind_run.
  2: { apply IH; [| |replace (p + 2 + Zlen s) with (p + (2 + Zlen s)) by lia| | | | | ].
       - apply mem_ok_wr; [done| |done]. apply Forall_app. split; [done|].
         repeat constructor; unfold is_byte; lia.
       - done.
       - apply bytes_at_wr_out; [done|done|]. rewrite Zlen_app. change (Zlen [0]) with 1. lia.
       - lia.
       - unfold m1. rewrite Zlen_wr by done. lia.
       - lia.
       - lia.
       - unfold m1. rewrite Zlen_wr by done. zpos. lia. }
  rewrite ret_run. unfold m1.
  replace (strs + (Zlen s + 1)) with (strs + Zlen (s ++ [0])) by (rewrite Zlen_app; done).
  rewrite wr_app by (rewrite Zlen_app; change (Zlen [0]) with 1; unfold in_mem; lia).
  do 4 f_equal. lia.
Qed.

(** Without [strs] nothing is written. *)
Lemma gdstrs_nil ebuf ss : forall m p,
  mem_ok m -> Forall raw_ok ss -> bytes_at m p (concat (map wstr ss)) ->
  p + Zlen (concat (map wstr ss)) <= ebuf -> ebuf <= Zlen m ->
  gdstrs (length ss) p ebuf 0 m =
    Some (Some (map (fun _ => 0) ss, p + Zlen (concat (map wstr ss))), m).
Proof.
  induction ss as [|s ss IH]; intros m p Hok Hs Hb Hle Hm.
  { cbn. by rewrite Z.add_0_r. }
  inversion Hs as [|? ? [Hs1 Hsl] Hs2]; subst. cbn [map concat length gdstrs] in *.
  rewrite !Zlen_app, Zlen_wstr in *. pose proof Hok as [_ Hlim]. zpos.
  apply bytes_at_app in Hb as [Hb1 Hb2]. rewrite Zlen_wstr in Hb2.
  unfold wstr in Hb1. apply bytes_at_app in Hb1 as [Hn _]. pose proof (bytes_at_in _ _ _ Hn) as (?&_&_).
  unfold BIT16SZ. rewrite (padd_small p 2), Z.gtb_ltb, (proj2 (Z.ltb_ge _ _)) by lia.
  run_with (GBIT16_le m p (Zlen s) Hok ltac:(unfold is_u16; lia) Hn). cbv zeta.
  rewrite (padd_small (p + 2)), Z.gtb_ltb, (proj2 (Z.ltb_ge _ _)) by lia. cbn [Z.eqb].
  erewrite bind_run by done. replace (p + 2 + Zlen s) with (p + (2 + Zlen s)) by lia.
  erewrite bind_run by (apply IH; (done || lia)). rewrite ret_run. do 4 f_equal. lia.
Qed.

(** What the fixed part reads, followed by [k]. *)
Lemma convM2D_fix nullstring m buf nbuf d strs x :
  mem_ok m -> in_mem m buf nbuf -> 49 <= nbuf -> stat_wf (fun _ => True) x ->
  bytes_at m (buf + 2) (wire_fix x) ->
  convM2D nullstring buf nbuf d strs m =
  (r ← gdstrs 4 (buf + 41) (buf + nbuf) strs;
   mret match r with
   | Some (sv, p) =>
       (u32 (p - buf),
        let fixed := mkDir (st_type x) (st_dev x) (st_qid x) (st_mode x) (st_atime x) (st_mtime x)
                       (st_length x) in
        if strs =? 0 then fixed nullstring nullstring nullstring nullstring
        else fixed (nth 0 sv 0) (nth 1 sv 0) (nth 2 sv 0) (nth 3 sv 0))
   | None => (0, mkDir (st_type x) (st_dev x) (st_qid x) (st_mode x) (st_atime x) (st_mtime x)
                       (st_length x) d.(d_name) d.(d_uid) d.(d_gid) d.(d_muid))
   end) m.
Proof.
  intros Hok Hroom Hn (W1&W2&(Wq1&Wq2&Wq3)&W3&W4&W5&W6&_) Hb.
  pose proof Hroom as (?&?&?). pose proof Hok as [_ Hlim].
  unfold convM2D. change STATFIXLEN with 49. rewrite (proj2 (Z.ltb_ge _ _)) by lia. cbv zeta.
  change BIT16SZ with 2. rewrite (padd_small buf 2), (padd_small buf nbuf) by lia.
  unfold wire_fix, wqid in Hb. rewrite <- !app_assoc in Hb.
  rewrite <- (app_nil_r (le 8 (st_length x))) in Hb.
  do 9 field Hb. rewrite s64_u64 by done. rewrite (u64_small (q_path _)) by done.
  replace (buf + 2 + 2 + 4 + 1 + 4 + 8 + 4 + 4 + 4 + 8) with (buf + 41) by lia.
  destruct x as [? ? [] ]. done.
Qed.

(** Functional correctness of the decoder: [strs] may be the buffer itself. *)
Lemma convM2D_run nullstring m buf nbuf d strs x :
  mem_ok m -> in_mem m buf nbuf -> stat_wf raw_ok x -> bytes_at m buf (wire_stat x) ->
  Zlen (wire_stat x) <= nbuf ->
  0 < strs -> strs <= buf \/ buf + nbuf <= strs -> strs + Zlen (nuls (st_strs x)) <= Zlen m ->
  exists d', convM2D nullstring buf nbuf d strs m =
      Some ((Zlen (wire_stat x), d'), wr m strs (nuls (st_strs x))) /\
    dir_fix d' x /\ d_strs d' = spread strs (st_strs x).
Proof.
  intros Hok Hroom Hx Hb Hl H0 Hd Hs. pose proof Hroom as (?&?&?). pose proof Hok as [_ Hlim].
  pose proof (Zlen_wire_stat x) as HW. rewrite Zlen_wstrs in HW. change (Zlen (st_strs x)) with 4 in HW.
  assert (Hsum : 0 <= foldr Z.add 0 (map Zlen (st_strs x))) by (cbn [st_strs map foldr]; zpos; lia).
  unfold wire_stat in Hb. rewrite app_assoc in Hb. apply bytes_at_app in Hb as [Hf Hss].
  apply bytes_at_app in Hf as [_ Hf]. rewrite Zlen_app, !Zlen_le, Zlen_wire_fix in *.
  change (Z.of_nat 2) with 2 in *.
  rewrite (convM2D_fix _ m buf nbuf d strs x); [|done|done|lia| |done].
  2: { destruct Hx as (?&?&?&?&?&?&?&_). unfold stat_wf. split_and!; try done. by apply Forall_true. }
  pose proof (gdstrs_rd (buf + nbuf) (st_strs x) m (buf + 41) strs) as E.
  change (length (st_strs x)) with 4%nat in E.
  erewrite bind_run.
  2: { apply E; [done|apply Hx|done|rewrite Zlen_wstrs; change (Zlen (st_strs x)) with 4; lia|lia|lia|lia|done]. }
  rewrite ret_run, (proj2 (Z.eqb_neq strs 0)) by lia. cbv zeta.
  eexists. split.
  - rewrite Zlen_wstrs. change (Zlen (st_strs x)) with 4. do 3 f_equal.
    rewrite u32_small by lia. lia.
  - split; [unfold dir_fix; split_and!|]; reflexivity.
Qed.

(** * Arbitrary bytes *)

(** A string field either runs past the end, or is one. *)
Lemma wstr_any m p ebuf :
  mem_ok m -> 0 <= p -> p + 2 <= ebuf -> ebuf <= Zlen m ->
  exists n, GBIT16 p m = Some (n, m) /\ is_u16 n /\
    (p + 2 + n <= ebuf -> exists s, raw_ok s /\ Zlen s = n /\ bytes_at m p (wstr s)).
Proof.
  intros Hok Hp Hpe He. destruct (GBIT16_any m p Hok) as (n&Hn&B&E); [unfold in_mem; lia|].
  exists n. split_and!; [done..|]. intros Hl. unfold is_u16 in Hn.
  assert (Hi : in_mem m (p + 2) n) by (unfold in_mem; lia).
  pose proof (sub_bytes_at _ _ _ Hi) as Bs. pose proof (Zlen_sub _ _ _ Hi) as Ls.
  exists (sub m (p + 2) n). split_and!; [|done|].
  - split; [by eapply bytes_at_Forall; [apply Hok|]|lia].
  - unfold wstr. apply bytes_at_app. rewrite Zlen_le, Ls. done.
Qed.

Lemma statcheck_loop_any m ebuf k : forall p,
  mem_ok m -> 0 <= p -> p <= ebuf + 2 ^ 16 -> ebuf <= Zlen m ->
  exists r, statcheck_loop k p ebuf m = Some (r, m) /\ (r = 0 \/ r = -1) /\
    (r = 0 -> exists ss, length ss = k /\ Forall raw_ok ss /\
       bytes_at m p (concat (map wstr ss)) /\ p + Zlen (concat (map wstr ss)) = ebuf).
Proof.
  induction k as [|k IH]; intros p Hok Hp Hpe He; cbn [statcheck_loop]; pose proof Hok as [_ Hlim].
  { destruct (Z.eqb_spec p ebuf) as [->|]; eexists; (split; [done|]); (split; [lia|]); [|lia].
    intros _. exists []. split_and!; [done|constructor|apply bytes_at_nil; lia|].
    change (Zlen (concat (map wstr []))) with 0. lia. }
  unfold BIT16SZ. rewrite padd_small, Z.gtb_ltb by lia.
  destruct (Z.ltb_spec ebuf (p + 2)); [eexists; split; [done|]; lia|].
  destruct (wstr_any m p ebuf Hok) as (n&E&Hn&Hs); [lia..|]. unfold is_u16 in Hn.
  run_with E. rewrite padd_small by lia.
  destruct (IH (p + (2 + n)) Hok) as (r&E'&Hr&Hr0); [lia..|]. exists r. split_and!; try done.
  intros H0. destruct (Hr0 H0) as (ss&Hl&Hf&Hb&Hz). zpos.
  destruct Hs as (s&Hs1&Hs2&Hs3); [lia|]. exists (s :: ss). cbn [map concat].
  rewrite Zlen_app, Zlen_wstr, bytes_at_app, Zlen_wstr, Hs2. split_and!; [simpl; lia| |done|done|lia].
  by constructor.
Qed.

Lemma statcheck_loop_run m ss : forall p,
  mem_ok m -> Forall raw_ok ss -> bytes_at m p (concat (map wstr ss)) ->
  statcheck_loop (length ss) p (p + Zlen (concat (map wstr ss))) m = Some (0, m).
Proof.
  induction ss as [|s ss IH]; intros p Hok Hs Hb.
  { cbn. by rewrite Z.add_0_r, Z.eqb_refl. }
  inversion Hs as [|? ? [Hs1 Hsl] Hs2]; subst. cbn [map concat length statcheck_loop] in *.
  pose proof (bytes_at_in _ _ _ Hb) as (?&_&Hi). rewrite Zlen_app, Zlen_wstr in *.
  pose proof Hok as [_ Hlim]. zpos. apply bytes_at_app in Hb as [Hb1 Hb2]. rewrite Zlen_wstr in Hb2.
  unfold wstr in Hb1. apply bytes_at_app in Hb1 as [Hn _].
  unfold BIT16SZ. rewrite (padd_small p 2), Z.gtb_ltb, (proj2 (Z.ltb_ge _ _)) by lia.
  run_with (GBIT16_le m p (Zlen s) Hok ltac:(unfold is_u16; lia) Hn).
  rewrite padd_small by lia. rewrite <- (IH (p + (2 + Zlen s))) by done. f_equal. lia.
Qed.

Lemma fix_any m p : mem_ok m -> in_mem m p 39 -> forall a b c e,
  exists x, bytes_at m p (wire_fix x) /\ stat_wf (fun _ => True) x /\ st_strs x = [a; b; c; e].
Proof.
  intros Hok (?&?&?) a b c e.
  destruct (get16_any m p Hok) as (v1&R1&B1&_); [unfold in_mem; lia|].
  destruct (get32_any m (p + 2) Hok) as (v2&R2&B2&_); [unfold in_mem; lia|].
  destruct (get8_any m (p + 2 + 4) Hok) as (v3&R3&B3&_); [unfold in_mem; lia|].
  destruct (get32_any m (p + 2 + 4 + 1) Hok) as (v4&R4&B4&_); [unfold in_mem; lia|].
  destruct (get64_any m (p + 2 + 4 + 1 + 4) Hok) as (v5&R5&B5&_); [unfold in_mem; lia|].
  destruct (get32_any m (p + 2 + 4 + 1 + 4 + 8) Hok) as (v6&R6&B6&_); [unfold in_mem; lia|].
  destruct (get32_any m (p + 2 + 4 + 1 + 4 + 8 + 4) Hok) as (v7&R7&B7&_); [unfold in_mem; lia|].
  destruct (get32_any m (p + 2 + 4 + 1 + 4 + 8 + 4 + 4) Hok) as (v8&R8&B8&_); [unfold in_mem; lia|].
  destruct (get64_any m (p + 2 + 4 + 1 + 4 + 8 + 4 + 4 + 4) Hok) as (v9&R9&B9&_); [unfold in_mem; lia|].
  exists (mkStat v1 v2 (mkQid v5 v4 v3) v6 v7 v8 (s64 v9) a b c e). split_and!; [| |done].
  - unfold wire_fix, wqid. cbn [st_type st_dev st_qid q_type q_vers q_path st_mode st_atime st_mtime st_length].
    rewrite le8_s64 by done. rewrite <- !app_assoc, !bytes_at_app, !Zlen_le. done.
  - refine (conj R1 (conj R2 (conj (conj R3 (conj R4 R5)) (conj R6 (conj R7 (conj R8 (conj _ _))))))).
    + by apply s64_range.
    + by apply Forall_true.
Qed.

(** The loop that reads the strings, on any bytes: an early return, or the
    strings. *)
Lemma gdstrs_any ebuf k : forall m p strs,
  mem_ok m -> 0 <= p -> p <= ebuf -> ebuf <= Zlen m ->
  0 < strs -> strs <= p + 1 \/ (ebuf <= strs /\ strs + (ebuf - p) <= Zlen m) ->
  exists r m', gdstrs k p ebuf strs m = Some (r, m') /\ mem_ok m' /\
    same_outside strs (ebuf - p) m m'.
Proof.
  induction k as [|k IH]; intros m p strs Hok Hp Hpe He H0 Hd; cbn [gdstrs]; pose proof Hok as [_ Hlim].
  { eauto using same_outside_refl. }
  unfold BIT16SZ. rewrite (padd_small p 2), Z.gtb_ltb by lia.
  destruct (Z.ltb_spec ebuf (p + 2)) as [|Hp2]; [eauto using same_outside_refl|].
  destruct (wstr_any m p ebuf Hok) as (n&E&Hn&Hs); [lia..|]. unfold is_u16 in Hn.
  run_with E. cbv zeta. rewrite (padd_small (p + 2)), Z.gtb_ltb by lia.
  destruct (Z.ltb_spec ebuf (p + 2 + n)) as [|Hpn]; [eauto using same_outside_refl|].
  destruct (Hs Hpn) as (s&[Hs1 _]&Hs2&Hs3). rewrite (proj2 (Z.eqb_neq strs 0)) by lia. subst n.
  unfold wstr in Hs3. apply bytes_at_app in Hs3 as [_ Hd1]. rewrite Zlen_le in Hd1.
  assert (Hi : in_mem m strs (Zlen s)) by (unfold in_mem; lia).
  assert (Hi1 : in_mem m strs (Zlen (s ++ [0])))
    by (rewrite Zlen_app; unfold in_mem; change (Zlen [0]) with 1; lia).
  erewrite bind_run.
  2: { run_with (memmove_run m strs (p + 2) s Hok Hd1 Hi ltac:(lia)). rewrite !padd_small by lia.
       erewrite bind_run by (apply st8_run; rewrite in_mem_wr by done; unfold in_mem; lia).
       change (u8 0) with 0. rewrite wr_app by (unfold in_mem; change (Zlen [0]) with 1; lia).
       reflexivity. }
  destruct (IH (wr m strs (s ++ [0])) (p + 2 + Zlen s) (strs + (Zlen s + 1)))
    as (r&m'&E'&Hok'&Hso).
  { apply mem_ok_wr; [done| |done]. apply Forall_app. split; [done|].
    repeat constructor; unfold is_byte; lia. }
  1-3: rewrite ?Zlen_wr by done; lia.
  { lia. }
  { rewrite ?Zlen_wr by done; lia. }
  run_with E'. rewrite ret_run. eexists _, m'. split; [done|]. split; [done|].
  pose proof (wr_same_outside m strs (s ++ [0]) Hi1) as Hso1.
  rewrite Zlen_app in Hso1. change (Zlen [0]) with 1 in Hso1.
  eapply same_outside_trans; [exact Hso1|exact Hso|lia..].
Qed.

(** * Theorems *)

Lemma spread_cstr m ss : forall a, Forall nonul ss -> bytes_at m a (nuls ss) ->
  Forall2 (cstr_at m) (spread a ss) ss.
Proof.
  induction ss as [|s ss IH]; intros a Hs Hb; [constructor|].
  inversion Hs; subst. rewrite nuls_cons in Hb. apply bytes_at_app in Hb as [Hb1 Hb2].
  rewrite Zlen_app in Hb2. cbn [spread]. constructor; [by split|]. by apply IH.
Qed.

Lemma stat_ok_raw x : stat_wf str_ok x -> stat_wf raw_ok x.
Proof.
  intros (?&?&?&?&?&?&?&H). unfold stat_wf. split_and!; try done.
  eapply Forall_impl; [exact H|]. intros s [Hs1 Hs2]. split; [by apply nonul_bytes|done].
Qed.

Lemma wire_stat_bytes x : stat_wf raw_ok x -> Forall is_byte (wire_stat x).
Proof.
  intros (_&_&_&_&_&_&_&H). unfold wire_stat. rewrite !Forall_app.
  split_and!; [apply le_bytes|apply wire_fix_bytes|].
  apply Forall_concat, Forall_map. eapply Forall_impl; [exact H|].
  intros s [H1 _]. apply Forall_app. auto using le_bytes.
Qed.

Lemma Zlen_nuls_le x : Zlen (nuls (st_strs x)) <= Zlen (wire_stat x).
Proof.
  rewrite Zlen_nuls, Zlen_wire_stat, Zlen_wstrs. change (Zlen (st_strs x)) with 4. lia.
Qed.

(** C28.  Round trip of a directory entry.  Encoding an entry and decoding the
    bytes gives back the entry; the decoder's copies of the four strings may be
    written over the encoded entry itself, as [swstat] has it do. *)
Theorem stat_roundtrip nullstring m buf nbuf d d0 strs x :
  mem_ok m -> in_mem m buf nbuf -> 0 < buf -> stat_wf str_ok x -> dir_fix d x ->
  reprs (fun o => src m buf (o + 2)) 41 (d_strs d) (st_strs x) ->
  Zlen (wire_stat x) <= nbuf ->
  strs = buf \/ (buf + nbuf <= strs /\ strs + nbuf <= Zlen m) ->
  exists n m1 d' m2,
    convD2M d buf nbuf m = Some (n, m1) /\ n = Zlen (wire_stat x) /\
    convM2D nullstring buf n d0 strs m1 = Some ((n, d'), m2) /\
    dir_fix d' x /\ Forall2 (cstr_at m2) (d_strs d') (st_strs x).
Proof.
  intros Hok Hroom H0 Hx Hd Hr Hl Hs. pose proof Hx as (_&_&_&_&_&_&_&Hss).
  pose proof (Zlen_nuls_le x) as Hnl. pose proof (Zlen_nonneg (wire_stat x)).
  pose proof Hroom as (?&?&?).
  assert (Hin : in_mem m buf (Zlen (wire_stat x))) by (unfold in_mem; lia).
  pose proof (convD2M_run m buf nbuf d x Hok Hroom Hss Hd Hr) as E.
  rewrite Zlen_wire_stat in Hl. pose proof (Zlen_nonneg (concat (map wstr (st_strs x)))).
  rewrite (proj2 (Z.ltb_ge nbuf 2)) in E by lia. rewrite <- Zlen_wire_stat in Hl.
  rewrite (proj2 (Z.ltb_ge _ _)) in E by lia.
  pose proof (stat_ok_raw x Hx) as Hraw.
  destruct (convM2D_run nullstring (wr m buf (wire_stat x)) buf (Zlen (wire_stat x)) d0 strs x)
    as (d'&E'&Hd'&Hs').
  - apply mem_ok_wr; [done|by apply wire_stat_bytes|done].
  - by rewrite in_mem_wr.
  - done.
  - by apply bytes_at_wr.
  - lia.
  - lia.
  - lia.
  - rewrite Zlen_wr by done. lia.
  - eexists _, _, d', _. split_and!; [exact E|done|exact E'|done|].
    rewrite Hs'. apply spread_cstr; [eapply Forall_impl; [exact Hss|]; by intros s []|].
    apply bytes_at_wr. rewrite in_mem_wr by done. zpos. unfold in_mem; lia.
Qed.

(** [statcheck] accepts exactly the encodings of directory entries, and
    never traps or writes. *)
Theorem statcheck_exact m buf nbuf :
  mem_ok m -> in_mem m buf nbuf ->
  exists r, statcheck buf nbuf m = Some (r, m) /\ (r = 0 \/ r = -1) /\
    (r = 0 <-> exists x, stat_wf raw_ok x /\ Zlen (wire_stat x) - 2 < 2 ^ 16 /\
                           sub m buf nbuf = wire_stat x).
Proof.
  intros Hok Hroom. pose proof Hroom as (?&?&?). pose proof Hok as [_ Hlim].
  pose proof (sub_bytes_at _ _ _ Hroom) as Hsub. pose proof (Zlen_sub _ _ _ Hroom) as Hsl.
  unfold statcheck. change STATFIXLEN with 49. rewrite (padd_small buf nbuf) by lia. cbv zeta.
  destruct (Z.ltb_spec nbuf 49) as [Hlt|Hge].
  { exists (-1). split_and!; [done|by right|]. split; [done|]. intros (x&_&_&Hx). exfalso.
    rewrite Hx, Zlen_wire_stat, Zlen_wstrs in Hsl. change (Zlen (st_strs x)) with 4 in Hsl.
    cbn [st_strs map foldr] in Hsl. zpos. lia. }
  destruct (GBIT16_any m buf Hok) as (n&Hn&Hbn&E); [unfold in_mem; lia|]. unfold is_u16 in Hn.
  run_with E. change BIT16SZ with 2. rewrite (padd_small buf) by lia.
  change (49 - 4 * 2) with 41.
  destruct (Z.eqb_spec nbuf (2 + n)) as [Heq|Hne]; cbn [negb].
  - destruct (statcheck_loop_any m (buf + nbuf) 4 (buf + 41) Hok) as (r&Er&Hr&Hr0); [lia..|].
    exists r. split_and!; [done..|]. split.
    + intros Hz. destruct (Hr0 Hz) as (ss&Hl&Hf&Hb&Hlen).
      destruct ss as [|a [|b [|c [|e [|]]]]]; try done.
      destruct (fix_any m (buf + 2) Hok) with a b c e as (x&Hfx&Hwf&Hxs); [unfold in_mem; lia|].
      exists x. split.
      { destruct Hwf as (?&?&?&?&?&?&?&_). unfold stat_wf. rewrite Hxs. split_and!; done. }
      assert (Hw : bytes_at m buf (wire_stat x)).
      { unfold wire_stat. rewrite Hxs, !bytes_at_app, Zlen_le, Zlen_wire_fix.
        rewrite <- Z.add_assoc. split_and!; [|done|done]. by replace (39 + _) with n by lia. }
      assert (Hwl : Zlen (wire_stat x) = nbuf) by (rewrite Zlen_wire_stat, Hxs; lia).
      split; [lia|]. eapply bytes_at_eq; [done..|]. lia.
    + intros (x&Hwf&_&Hx). rewrite Hx in Hsub, Hsl. rewrite Zlen_wire_stat in Hsl.
      unfold wire_stat in Hsub. rewrite !bytes_at_app, Zlen_le, Zlen_wire_fix in Hsub.
      destruct Hsub as (_&_&Hb). rewrite <- Z.add_assoc in Hb.
      pose proof (statcheck_loop_run m (st_strs x) (buf + 41) Hok) as E'.
      replace (buf + 41 + _) with (buf + nbuf) in E' by lia. cbn [st_strs length] in E'.
      rewrite E' in Er; [by injection Er|apply Hwf|done].
  - exists (-1). split_and!; [done|by right|]. split; [done|]. intros (x&Hwf&Hsz&Hx). exfalso.
    rewrite Hx in Hsub, Hsl. rewrite Zlen_wire_stat in Hsl. unfold wire_stat in Hsub.
    apply bytes_at_app in Hsub as [Hb _]. apply Hne.
    assert (Hb2 : unle (le 2 n) = unle (le 2 (39 + Zlen (concat (map wstr (st_strs x)))))).
    { f_equal. eapply bytes_at_eq; [done..|]. by rewrite !Zlen_le. }
    rewrite !unle_le in Hb2. change (2 ^ (8 * Z.of_nat 2)) with (2 ^ 16) in Hb2.
    rewrite (Z.mod_small n) in Hb2 by lia. rewrite Zlen_wire_stat in Hsz. zpos.
    rewrite Z.mod_small in Hb2; lia.
Qed.

(** The encoder of directory entries, for a buffer of any size: it writes
    nothing when the count does not fit, the count alone (how much is needed)
    when the entry does not, and otherwise exactly the entry; and [sizeD2M]
    tells which size is enough. *)
Theorem dir_encoder_correct m buf nbuf d x :
  mem_ok m -> in_mem m buf nbuf -> Forall str_ok (st_strs x) -> dir_fix d x ->
  reprs (fun o => src m buf (o + 2)) 41 (d_strs d) (st_strs x) ->
  sizeD2M d m = Some (Zlen (wire_stat x), m) /\
  convD2M d buf nbuf m =
    if nbuf <? 2 then Some (0, m)
    else if nbuf <? Zlen (wire_stat x) then Some (2, wr m buf (le 2 (Zlen (wire_stat x) - 2)))
    else Some (Zlen (wire_stat x), wr m buf (wire_stat x)).
Proof.
  intros Hok Hroom Hs Hd Hr. split.
  - by eapply sizeD2M_run.
  - by apply convD2M_run.
Qed.

(** Whatever bytes a [wstat] carries, decoding them in place returns
    without a trap and writes only inside the buffer. *)
Theorem dir_decoder_safe nullstring m buf nbuf d :
  mem_ok m -> in_mem m buf nbuf -> 0 < buf ->
  exists n d' m', convM2D nullstring buf nbuf d buf m = Some ((n, d'), m') /\ mem_ok m' /\
    same_outside buf nbuf m m'.
Proof.
  intros Hok Hroom H0. pose proof Hroom as (?&?&?).
  destruct (Z.lt_ge_cases nbuf 49) as [Hlt|Hge].
  { unfold convM2D. change STATFIXLEN with 49. rewrite (proj2 (Z.ltb_lt _ _)) by lia.
    eauto 7 using same_outside_refl. }
  destruct (fix_any m (buf + 2) Hok) with (@nil Z) (@nil Z) (@nil Z) (@nil Z)
    as (x&Hfx&Hwf&_); [unfold in_mem; lia|].
  rewrite (convM2D_fix _ m buf nbuf d buf x) by done.
  destruct (gdstrs_any (buf + nbuf) 4 m (buf + 41) buf Hok) as (r&m'&E&Hok'&Hso); [lia..|].
  run_with E. rewrite ret_run.
  assert (Hso' : same_outside buf nbuf m m') by (eapply same_outside_weaken; [done|lia..]).
  destruct r as [[sv p]|]; eauto 7.
Qed.

(** * A concrete entry *)

Definition ex_stat : Stat :=
  mkStat 0 0 (mkQid 7 1 0) 420 100 200 5 [102] [103; 108] [103; 108] [].
Definition ex_dmem : mem := [0; 102; 0; 103; 108; 0] ++ replicate 122 0.
Definition ex_dir : Dir := mkDir 0 0 (mkQid 7 1 0) 420 100 200 5 1 3 3 0.
Definition ex_dir0 : Dir := mkDir 0 0 (mkQid 0 0 0) 0 0 0 0 0 0 0 0.

Lemma ex_dmem_ok : mem_ok ex_dmem.
Proof. split; [repeat (constructor; [unfold is_byte; lia|]); constructor|done]. Qed.
Lemma ex_stat_wf : stat_wf str_ok ex_stat.
Proof.
  unfold stat_wf. split_and!; try done.
  unfold st_strs. repeat (constructor; [split; [repeat (constructor; [lia|]); constructor|done]|]).
  constructor.
Qed.
Lemma ex_dir_reprs : reprs (fun o => src ex_dmem 16 (o + 2)) 41 (d_strs ex_dir) (st_strs ex_stat).
Proof.
  assert (H : forall p s, p <> 0 -> cstr_at ex_dmem p s -> p + Zlen s < 16 ->
            forall o, src ex_dmem 16 o p s) by (intros; right; auto).
  assert (C1 : cstr_at ex_dmem 1 [102]) by (apply cstr_cons; split_and!; [done|lia|lia|by apply cstr_nil]).
  assert (C3 : cstr_at ex_dmem 3 [103; 108]).
  { apply cstr_cons; split_and!; [done|lia|lia|]. apply cstr_cons; split_and!; [done|lia|lia|by apply cstr_nil]. }
  cbn [reprs d_strs st_strs]. split_and!; [by apply H..|by left|done].
Qed.

Lemma stat_roundtrip_witness :
  exists n m1 d' m2,
    convD2M ex_dir 16 64 ex_dmem = Some (n, m1) /\ n = Zlen (wire_stat ex_stat) /\
    convM2D 0 16 n ex_dir0 16 m1 = Some ((n, d'), m2) /\
    dir_fix d' ex_stat /\ Forall2 (cstr_at m2) (d_strs d') (st_strs ex_stat).
Proof.
  apply (stat_roundtrip 0 ex_dmem 16 64 ex_dir ex_dir0 16 ex_stat);
    [exact ex_dmem_ok|done|lia|exact ex_stat_wf|done|exact ex_dir_reprs|done|by left].
Defined.

Lemma statcheck_exact_witness :
  exists r, statcheck 16 54 (wr ex_dmem 16 (wire_stat ex_stat)) =
      Some (r, wr ex_dmem 16 (wire_stat ex_stat)) /\ (r = 0 \/ r = -1) /\
    (r = 0 <-> exists x, stat_wf raw_ok x /\ Zlen (wire_stat x) - 2 < 2 ^ 16 /\
       sub (wr ex_dmem 16 (wire_stat ex_stat)) 16 54 = wire_stat x).
Proof.
  apply (statcheck_exact (wr ex_dmem 16 (wire_stat ex_stat)) 16 54); [|done].
  apply mem_ok_wr; [exact ex_dmem_ok|apply wire_stat_bytes, stat_ok_raw, ex_stat_wf|done].
Defined.

Lemma dir_encoder_correct_witness :
  sizeD2M ex_dir ex_dmem = Some (54, ex_dmem) /\
  convD2M ex_dir 16 30 ex_dmem = Some (2, wr ex_dmem 16 [52; 0]).
Proof.
  exact (dir_encoder_correct ex_dmem 16 30 ex_dir ex_stat ex_dmem_ok ltac:(done)
    (proj2 (proj2 (proj2 (proj2 (proj2 (proj2 (proj2 ex_stat_wf)))))))
    ltac:(done) ex_dir_reprs).
Defined.

Lemma dir_decoder_safe_witness :
  exists n d' m', convM2D 0 16 64 ex_dir0 16 ex_dmem = Some ((n, d'), m') /\ mem_ok m' /\
    same_outside 16 64 ex_dmem m'.
Proof. apply (dir_decoder_safe 0 ex_dmem 16 64 ex_dir0); [exact ex_dmem_ok|done|lia]. Defined.
