(* ===== verification/Read9p.v ===== *)
(** [libc/port/readn.c] and [read9pmsg.c]: assembling a message from a file
    descriptor.

    What the kernel has to deliver is a list of pieces: each [read] takes at
    most the bytes asked for from the first piece and leaves the rest of it, an
    empty piece is end of file and [Rderr] a failed call.  The theorems hold
    for every way of cutting the bytes into pieces. *)

From S2P Require Import Prelude Mem CString Fcall ConvS2M ConvM2S Codec.

Local Open Scope c_scope.

(** * Definitions *)

Inductive piece := Rddata (bs : list Z) | Rderr.
Definition input := list piece.

(** A computation that reads: memory and input are threaded. *)
Definition IO (A : Type) : Type := mem * input -> option (A * (mem * input)).
#[export] Instance IO_ret : MRet IO := fun A x s => Some (x, s).
#[export] Instance IO_bind : MBind IO := fun A B k c s =>
  match c s with Some (x, s') => k x s' | None => None end.

Definition liftM {A} (c : M A) : IO A := fun '(m, i) =>
  match c m with Some (x, m') => Some (x, (m', i)) | None => None end.

(** The system call, for [0 < n]: the bytes land at [a], where [n] bytes must
    be addressable. *)
Definition read (a n : Z) : IO Z := fun '(m, i) =>
  match i with
  | [] => Some (0, (m, []))
  | Rderr :: i => Some (-1, (m, i))
  | Rddata bs :: i =>
      let got := take (Z.to_nat n) bs in
      let left := drop (Z.to_nat n) bs in
      if (0 <=? a) && (a + n <=? Zlen m) then
        Some (Zlen got, (wr m a got, match left with [] => i | _ => Rddata left :: i end))
      else None
  end.

(** [while(t < n)]: every iteration reads at least one byte or leaves. *)
Fixpoint readn_loop (fuel : nat) (a t n : Z) : IO Z :=
  match fuel with
  | O => mret t
  | S fuel =>
      if t <? n then
        m ← read (a +p t) (n - t);
        if m <=? 0 then (if t =? 0 then mret m else mret t)
        else readn_loop fuel a (t + m) n
      else mret t
  end.

Definition readn (av n : Z) : IO Z := readn_loop (S (Z.to_nat n)) av 0 n.

Definition read9pmsg (abuf n : Z) : IO Z :=
  let buf := abuf in
  m ← readn buf BIT32SZ;
  if negb (m =? BIT32SZ) then (if m <? 0 then mret (-1) else mret 0) else
  g ← liftM (GBIT32 buf);
  let len := s32 g in
  if (len <=? BIT32SZ) || (u32 len >? n) then mret (-1) else
  let len := len - BIT32SZ in
  m ← readn (buf +p BIT32SZ) len;
  if m <? len then mret 0 else mret (BIT32SZ + m).

(** * The stream a list of pieces stands for *)

(** Only data, and no empty piece. *)
Definition stream (i : input) (bs : list Z) : Prop :=
  exists ps, i = map Rddata ps /\ Forall (fun p => p <> []) ps /\ concat ps = bs.

Lemma io_bind_run {A B} (c : IO A) (k : A -> IO B) s x s' :
  c s = Some (x, s') -> (c ≫= k) s = k x s'.
Proof. intros H. unfold mbind, IO_bind. by rewrite H. Qed.

Lemma stream_nil_inv i : stream i [] -> i = [].
Proof.
  intros (ps&->&Hf&Hc). destruct ps as [|[|b p] ps]; [done| |done].
  by inversion Hf.
Qed.

(** A read of a stream that is not at its end delivers some bytes of it. *)
Lemma read_stream m i a n bs :
  stream i bs -> bs <> [] -> 0 < n -> in_mem m a n ->
  exists g bs' i', read a n (m, i) = Some (Zlen g, (wr m a g, i')) /\
    bs = g ++ bs' /\ 0 < Zlen g <= n /\ stream i' bs'.
Proof.
  intros (ps&->&Hf&Hc) Hne Hn (?&_&?). destruct ps as [|p ps]; [by subst|].
  inversion Hf as [|? ? Hp Hf']; subst. cbn [map concat].
  exists (take (Z.to_nat n) p), (drop (Z.to_nat n) p ++ concat ps).
  eexists. split; [|split; [|split]].
  - unfold read. zif. cbn [andb]. reflexivity.
  - by rewrite app_assoc, take_drop.
  - unfold Zlen. rewrite length_take. destruct p; [done|]. simpl length. lia.
  - destruct (drop (Z.to_nat n) p) as [|b l] eqn:E.
    + exists ps. auto.
    + exists ((b :: l) :: ps). split_and!; [done| |done]. by constructor.
Qed.

Lemma readn_loop_stream fuel : forall m i a t n bs rest pre,
  mem_ok m -> in_mem m a n -> stream i (bs ++ rest) -> 0 <= t -> t = Zlen pre ->
  Zlen bs = n - t -> Forall is_byte (pre ++ bs) -> (Z.to_nat (n - t) < fuel)%nat ->
  exists i', readn_loop fuel a t n (wr m a pre, i) = Some (n, (wr m a (pre ++ bs), i')) /\
    stream i' rest.
Proof.
  induction fuel as [|fuel IH]; intros m i a t n bs rest pre Hok Hroom Hi Ht Htp Hbs Hby Hf; [lia|].
  cbn [readn_loop]. destruct (Z.ltb_spec t n) as [Hlt|Hge].
  2: { assert (Hz : Zlen bs = 0) by (zpos; lia). destruct bs; [|rewrite Zlen_cons in Hz; zpos; lia].
       rewrite app_nil_r. exists i. split; [|done]. rewrite Zlen_nil in Hbs.
       by replace t with n by lia. }
  pose proof Hroom as (?&?&?). pose proof Hok as [_ Hlim].
  assert (Hip : in_mem m a (Zlen pre)) by (unfold in_mem; lia).
  destruct (read_stream (wr m a pre) i (a + t) (n - t) (bs ++ rest))
    as (g&bs'&i'&E&Hg&Hgl&Hi'); [done| |lia| |].
  { intros Hnil. apply app_eq_nil in Hnil as [-> _]. rewrite Zlen_nil in Hbs. lia. }
  { rewrite in_mem_wr by done. unfold in_mem; lia. }
  rewrite padd_small by lia. erewrite io_bind_run by exact E. cbv beta.
  rewrite (proj2 (Z.leb_gt _ _)) by lia.
  assert (Hsplit : exists bs2, bs = g ++ bs2 /\ bs' = bs2 ++ rest).
  { exists (drop (length g) bs).
    assert (Hgt : g = take (length g) bs).
    { rewrite <- (take_app_length g bs') at 1. rewrite <- Hg, take_app_le; [done|].
      unfold Zlen in *. lia. }
    split; [rewrite Hgt at 1; by rewrite take_drop|].
    rewrite <- (drop_app_length g bs'), <- Hg, drop_app_le; [done|]. unfold Zlen in *. lia. }
  destruct Hsplit as (bs2&->&->).
  subst t. rewrite wr_app by (unfold in_mem; lia).
  rewrite Zlen_app in Hbs.
  destruct (IH m i' a (Zlen pre + Zlen g) n bs2 rest (pre ++ g)) as (i2&E2&Hi2); try done;
    [lia|by rewrite Zlen_app|lia|by rewrite <- app_assoc|lia|].
  exists i2. rewrite E2, <- app_assoc. done.
Qed.

Lemma readn_stream m i a n bs rest :
  mem_ok m -> in_mem m a n -> stream i (bs ++ rest) -> Zlen bs = n -> Forall is_byte bs ->
  exists i', readn a n (m, i) = Some (n, (wr m a bs, i')) /\ stream i' rest.
Proof.
  intros Hok Hroom Hi Hn Hb. unfold readn. zpos.
  destruct (readn_loop_stream (S (Z.to_nat n)) m i a 0 n bs rest []) as (i'&E&Hi'); try done; try lia.
  rewrite wr_nil in E. eauto.
Qed.

(** * Any input at all *)

(** The pieces hold bytes. *)
Definition input_ok (i : input) : Prop :=
  Forall (fun p => match p with Rddata bs => Forall is_byte bs | Rderr => True end) i.

Lemma read_any m i a n :
  mem_ok m -> input_ok i -> in_mem m a n -> 0 < n ->
  exists r m' i', read a n (m, i) = Some (r, (m', i')) /\ mem_ok m' /\ input_ok i' /\
    -1 <= r <= n /\ same_outside a n m m'.
Proof.
  intros Hok Hi Hin Hn. pose proof Hin as (?&?&?). destruct i as [|[bs|] i].
  - eexists 0, m, []. split_and!; try done; lia.
  - inversion Hi as [|? ? Hb Hi']; subst. unfold read. zif. cbn [andb].
    set (g := take (Z.to_nat n) bs).
    assert (Hg : 0 <= Zlen g <= n) by (unfold g, Zlen; rewrite length_take; lia).
    assert (Hing : in_mem m a (Zlen g)) by (unfold in_mem; lia).
    eexists _, _, _. split; [reflexivity|]. split_and!; try lia.
    + apply mem_ok_wr; [done|by apply Forall_take|done].
    + destruct (drop (Z.to_nat n) bs) as [|b l] eqn:E; [done|]. constructor; [|done].
      rewrite <- E. by apply Forall_drop.
    + eapply same_outside_weaken; [by apply wr_same_outside|lia..].
  - inversion Hi; subst. eexists (-1), m, i. split_and!; try done; lia.
Qed.

Lemma readn_loop_any fuel : forall m i a t n,
  mem_ok m -> input_ok i -> in_mem m a n -> 0 <= t <= n ->
  exists r m' i', readn_loop fuel a t n (m, i) = Some (r, (m', i')) /\ mem_ok m' /\ input_ok i' /\
    -1 <= r <= n /\ same_outside a n m m'.
Proof.
  induction fuel as [|fuel IH]; intros m i a t n Hok Hi Hin Ht; cbn [readn_loop].
  { eexists _, _, _. split; [done|]. split_and!; try done; lia. }
  pose proof Hin as (?&?&?). pose proof Hok as [_ Hlim].
  destruct (Z.ltb_spec t n) as [Hlt|]; [|eexists _, _, _; split; [done|]; split_and!; (done || lia)].
  rewrite padd_small by lia.
  destruct (read_any m i (a + t) (n - t) Hok Hi) as (r&m'&i'&E&Hok'&Hi'&Hr&Hso);
    [unfold in_mem; lia|lia|].
  erewrite io_bind_run by exact E. cbv beta.
  assert (Hso' : same_outside a n m m') by (eapply same_outside_weaken; [done|lia..]).
  destruct (Z.leb_spec r 0).
  { destruct (t =? 0); eexists _, _, _; (split; [done|]); split_and!; (done || lia). }
  destruct (IH m' i' a (t + r) n Hok' Hi') as (r2&m2&i2&E2&Hok2&Hi2&Hr2&Hso2); [|lia|].
  { destruct Hso as [Hz _]. unfold in_mem in *; lia. }
  exists r2, m2, i2. split_and!; try done; try lia.
  eapply same_outside_trans; [exact Hso'|exact Hso2|lia..].
Qed.

(** * Theorems *)

(** C29.  Message framing does not depend on how the bytes arrive: whatever
    pieces the kernel delivers, [read9pmsg] puts exactly the next message in the
    buffer, returns its size, and leaves the rest of the stream unread. *)
Theorem read9pmsg_reassembles m i buf n tag x rest :
  mem_ok m -> in_mem m buf n -> msg_raw x -> Zlen (wire tag x) <= n -> Zlen (wire tag x) < 2 ^ 31 ->
  stream i (wire tag x ++ rest) ->
  exists i', read9pmsg buf n (m, i) =
      Some (Zlen (wire tag x), (wr m buf (wire tag x), i')) /\ stream i' rest.
Proof.
  intros Hok Hroom Hx Hl H31 Hi. pose proof (wire_bytes tag x Hx) as Hb.
  pose proof Hroom as (?&?&?). pose proof Hok as [_ Hlim].
  rewrite Zlen_wire in Hl, H31. zpos.
  set (sz := 7 + Zlen (wire_body x)) in *.
  assert (Hw : exists tl, wire tag x = le 4 sz ++ tl /\ Zlen tl = sz - 4).
  { unfold wire. eexists. split; [done|]. rewrite !Zlen_app, !Zlen_le. lia. }
  destruct Hw as (tl&Hw&Htl). rewrite Zlen_wire. rewrite Hw in *.
  apply Forall_app in Hb as [Hb1 Hb2]. rewrite <- app_assoc in Hi.
  destruct (readn_stream m i buf 4 (le 4 sz) (tl ++ rest)) as (i1&E1&Hi1);
    try done; [unfold in_mem; lia|].
  unfold read9pmsg. change BIT32SZ with 4. cbv zeta.
  erewrite io_bind_run by exact E1. cbv beta. cbn [Z.eqb Pos.eqb negb].
  assert (Hin4 : in_mem m buf (Zlen (le 4 sz))) by (rewrite Zlen_le; unfold in_mem; lia).
  set (m1 := wr m buf (le 4 sz)).
  assert (Hok1 : mem_ok m1) by (by apply mem_ok_wr).
  erewrite io_bind_run.
  2: { unfold liftM. rewrite (GBIT32_le m1 buf sz); [reflexivity|done|unfold is_u32; lia|].
       by apply bytes_at_wr. }
  cbv beta. rewrite s32_small by lia. rewrite u32_small by lia.
  rewrite (proj2 (Z.leb_gt _ _)), Z.gtb_ltb, (proj2 (Z.ltb_ge _ _)) by lia. cbn [orb].
  rewrite padd_small by lia.
  destruct (readn_stream m1 i1 (buf + 4) (sz - 4) tl rest) as (i2&E2&Hi2); try done.
  { unfold m1. rewrite in_mem_wr by done. unfold in_mem; lia. }
  erewrite io_bind_run by exact E2. cbv beta. rewrite Z.ltb_irrefl.
  exists i2. split; [|done]. unfold mret, IO_ret. f_equal. f_equal; [lia|]. f_equal.
  unfold m1. replace (buf + 4) with (buf + Zlen (le 4 sz)) by (rewrite Zlen_le; lia).
  apply wr_app. rewrite Zlen_le. unfold in_mem; lia.
Qed.

(** Whatever the descriptor delivers, errors, early end of file and
    hostile length fields included, [read9pmsg] returns without a trap, writes
    only inside the buffer and reports at most [n] bytes. *)
Theorem read9pmsg_safe m i buf n :
  mem_ok m -> input_ok i -> in_mem m buf n -> 4 <= n ->
  exists r m' i', read9pmsg buf n (m, i) = Some (r, (m', i')) /\ mem_ok m' /\
    -1 <= r <= n /\ same_outside buf n m m'.
Proof.
  intros Hok Hi Hroom Hn. pose proof Hroom as (?&?&?). pose proof Hok as [_ Hlim].
  unfold read9pmsg. change BIT32SZ with 4. cbv zeta.
  destruct (readn_loop_any (S (Z.to_nat 4)) m i buf 0 4 Hok Hi) as (r1&m1&i1&E1&Hok1&Hi1&Hr1&Hso1);
    [unfold in_mem; lia|lia|].
  erewrite io_bind_run by exact E1. cbv beta. pose proof (proj1 Hso1) as Hz1.
  assert (Hso1' : same_outside buf n m m1) by (eapply same_outside_weaken; [done|lia..]).
  destruct (Z.eqb_spec r1 4); cbn [negb].
  2: { destruct (r1 <? 0); eexists _, _, _; (split; [done|]); split_and!; (done || lia). }
  destruct (GBIT32_any m1 buf Hok1) as (g&Hg&_&Eg); [unfold in_mem; lia|].
  erewrite io_bind_run by (unfold liftM; rewrite Eg; reflexivity). cbv beta.
  pose proof (s32_range g) as Hs.
  destruct (Z.leb_spec (s32 g) 4); cbn [orb].
  { eexists _, _, _; (split; [done|]); split_and!; (done || lia). }
  rewrite u32_small, Z.gtb_ltb by lia. destruct (Z.ltb_spec n (s32 g)).
  { eexists _, _, _; (split; [done|]); split_and!; (done || lia). }
  rewrite padd_small by lia.
  destruct (readn_loop_any (S (Z.to_nat (s32 g - 4))) m1 i1 (buf + 4) 0 (s32 g - 4) Hok1 Hi1)
    as (r2&m2&i2&E2&Hok2&_&Hr2&Hso2); [unfold in_mem; lia|lia|].
  erewrite io_bind_run by exact E2. cbv beta.
  assert (Hso : same_outside buf n m m2).
  { eapply same_outside_trans; [exact Hso1'|exact Hso2|lia..]. }
  destruct (Z.ltb_spec r2 (s32 g - 4)); eexists _, _, _; (split; [done|]); split_and!; (done || lia).
Qed.

(** * A concrete stream *)

(** A [Tflush] delivered in three pieces, the middle one of a single byte. *)
Definition ex_flush : Msg := MTflush 7.
Definition ex_pieces : input :=
  [Rddata [9; 0; 0]; Rddata [0]; Rddata [108; 1; 0; 7; 0; 55]].

Lemma read9pmsg_reassembles_witness :
  exists i', read9pmsg 16 40 (ex_mem, ex_pieces) =
      Some (9, (wr ex_mem 16 (wire 1 ex_flush), i')) /\ stream i' [55].
Proof.
  apply (read9pmsg_reassembles ex_mem ex_pieces 16 40 1 ex_flush [55]);
    [exact ex_mem_ok|done|done|done|done|].
  exists [[9; 0; 0]; [0]; [108; 1; 0; 7; 0; 55]]. split_and!; [done| |done].
  repeat (constructor; [done|]). constructor.
Defined.

Lemma read9pmsg_safe_witness :
  exists r m' i', read9pmsg 16 40 (ex_mem, [Rddata [255; 255; 255; 255]; Rderr]) =
      Some (r, (m', i')) /\ mem_ok m' /\ -1 <= r <= 40 /\ same_outside 16 40 ex_mem m'.
Proof.
  apply (read9pmsg_safe ex_mem [Rddata [255; 255; 255; 255]; Rderr] 16 40);
    [exact ex_mem_ok| |done|lia].
  constructor; [|by repeat constructor]. repeat (constructor; [unfold is_byte; lia|]). constructor.
Defined.
