(* ===== verification/Intmap.v ===== *)
(** [lib9p/intmap.c]: the hash table from fid numbers and tags to structures.

    The table is an array of [NHASH] chains.  [Intmap_impl] shows that it is a
    finite map, as the class [KeyMap] states it: the pools of the file server
    are written and verified against that class. *)

From S2P Require Import Prelude.

(** * Definitions *)

Definition NHASH : Z := 128.

Record Intlist (V : Type) := mkIntlist { il_id : Z; il_aux : V }.
Arguments mkIntlist {V} _ _.
Arguments il_id {V} _.
Arguments il_aux {V} _.

(** A chain is the list of its nodes in [link] order. *)
Abbreviation chain V := (list (Intlist V)).
Record Intmap (V : Type) := mkIntmap { hash : list (chain V) }.
Arguments mkIntmap {V} _.
Arguments hash {V} _.

Section Intmap.
Context {V : Type}.

Definition hashid (id : Z) : nat := Z.to_nat (id mod NHASH).

Definition allocmap : Intmap V := mkIntmap (replicate (Z.to_nat NHASH) []).

(** The node pointer [lf] stops at, as the chain before it and the chain it
    points to. *)
Fixpoint llookup_chain (c : chain V) (id : Z) : chain V * chain V :=
  match c with
  | [] => ([], [])
  | n :: c' =>
      if n.(il_id) =? id then ([], c)
      else let '(before, at_) := llookup_chain c' id in (n :: before, at_)
  end.

Definition bucket (m : Intmap V) (id : Z) : chain V := default [] (m.(hash) !! hashid id).
Definition llookup (m : Intmap V) (id : Z) : chain V * chain V := llookup_chain (bucket m id) id.

(** [*lf = c] and [map->hash[h] = c]. *)
Definition setbucket (m : Intmap V) (id : Z) (c : chain V) : Intmap V :=
  mkIntmap (<[hashid id := c]> m.(hash)).

(** [lookupkey] applies [inc] to a value it finds: the caller's state [S] is
    where [inc] counts. *)
Definition lookupkey {S : Type} (inc : V -> S -> option S) (m : Intmap V) (id : Z) (s : S) :
    option (option V * S) :=
  match (llookup m id).2 with
  | f :: _ => match inc f.(il_aux) s with Some s' => Some (Some f.(il_aux), s') | None => None end
  | [] => Some (None, s)
  end.

Definition insertkey (m : Intmap V) (id : Z) (v : V) : option V * Intmap V :=
  match llookup m id with
  | (b, f :: c) => (Some f.(il_aux), setbucket m id (b ++ mkIntlist f.(il_id) v :: c))
  | (_, []) => (None, setbucket m id (mkIntlist id v :: bucket m id))
  end.

Definition caninsertkey (m : Intmap V) (id : Z) (v : V) : bool * Intmap V :=
  match (llookup m id).2 with
  | _ :: _ => (false, m)
  | [] => (true, setbucket m id (mkIntlist id v :: bucket m id))
  end.

Definition deletekey (m : Intmap V) (id : Z) : option V * Intmap V :=
  match llookup m id with
  | (b, f :: c) => (Some f.(il_aux), setbucket m id (b ++ c))
  | (_, []) => (None, m)
  end.

(** [freemap] destroys every value, bucket by bucket and in chain order. *)
Fixpoint freechain {S : Type} (destroy : V -> S -> option S) (c : chain V) (s : S) : option S :=
  match c with
  | [] => Some s
  | p :: c => match destroy p.(il_aux) s with Some s => freechain destroy c s | None => None end
  end.
Fixpoint freemap {S : Type} (destroy : V -> S -> option S) (h : list (chain V)) (s : S) : option S :=
  match h with
  | [] => Some s
  | c :: h => match freechain destroy c s with Some s => freemap destroy h s | None => None end
  end.

(** * The map a table stands for *)

Definition assocs (c : chain V) : list (Z * V) := map (fun n => (n.(il_id), n.(il_aux))) c.
Definition chain_get (c : chain V) (id : Z) : option V :=
  match (llookup_chain c id).2 with f :: _ => Some f.(il_aux) | [] => None end.
Definition im_abs (m : Intmap V) : gmap Z V := list_to_map (assocs (concat m.(hash))).

(** Every node is in the chain its id hashes to, and no chain holds an id twice. *)
Definition chain_wf (i : nat) (c : chain V) : Prop :=
  NoDup (map il_id c) /\ Forall (fun n => hashid n.(il_id) = i) c.
Definition im_wf (m : Intmap V) : Prop :=
  length m.(hash) = Z.to_nat NHASH /\ forall i c, m.(hash) !! i = Some c -> chain_wf i c.

(** ** Chains *)

Lemma llookup_chain_split c id b a :
  llookup_chain c id = (b, a) ->
  c = b ++ a /\ Forall (fun n => n.(il_id) <> id) b /\
  match a with [] => True | f :: _ => f.(il_id) = id end.
Proof.
  revert b a. induction c as [|n c IH]; intros b a; cbn [llookup_chain].
  - intros [= <- <-]. auto.
  - destruct (Z.eqb_spec n.(il_id) id).
    + intros [= <- <-]. auto.
    + destruct (llookup_chain c id) as [b' a']. intros [= <- <-].
      destruct (IH b' a' eq_refl) as (->&?&?). split_and!; auto.
Qed.

Lemma hashid_lt id : (hashid id < Z.to_nat NHASH)%nat.
Proof. unfold hashid, NHASH. pose proof (Z.mod_pos_bound id 128). lia. Qed.

Lemma bucket_lookup m id : im_wf m -> m.(hash) !! hashid id = Some (bucket m id).
Proof.
  intros [Hl _]. unfold bucket.
  destruct (lookup_lt_is_Some_2 m.(hash) (hashid id)) as [c Hc].
  - rewrite Hl. apply hashid_lt.
  - by rewrite Hc.
Qed.

Lemma elem_of_concat_lookup (h : list (chain V)) x :
  x ∈ concat h <-> exists i c, h !! i = Some c /\ x ∈ c.
Proof.
  rewrite list_elem_of_In, in_concat. split.
  - intros (c&Hc&Hx). apply list_elem_of_In, list_elem_of_lookup in Hc as [i Hi].
    exists i, c. by rewrite list_elem_of_In.
  - intros (i&c&Hi&Hx). exists c. rewrite <- !list_elem_of_In. split; [|done].
    by eapply list_elem_of_lookup_2.
Qed.

Lemma chain_get_Some c id v : NoDup (map il_id c) ->
  chain_get c id = Some v <-> mkIntlist id v ∈ c.
Proof.
  unfold chain_get. intros Hnd. destruct (llookup_chain c id) as [b a] eqn:E.
  apply llookup_chain_split in E as (->&Hb&Ha). rewrite elem_of_app.
  rewrite map_app in Hnd. apply list.NoDup_app in Hnd as (_&_&Hnd).
  assert (Hnb : mkIntlist id v ∉ b).
  { intros Hin. rewrite Forall_forall in Hb. by apply (Hb _ Hin). }
  destruct a as [|[i w] a]; cbn [snd]; [set_solver|]. simpl in Ha. subst i.
  rewrite elem_of_cons. simpl in Hnd. apply list.NoDup_cons in Hnd as [Hn _]. split.
  - intros [= ->]. auto.
  - intros [?|[[= ->]|Hin]]; [done|done|]. destruct Hn.
    apply list_elem_of_fmap. by exists (mkIntlist id v).
Qed.

(** The table's map, read through the one chain that matters. *)
Lemma im_wf_concat m : im_wf m -> NoDup (map il_id (concat m.(hash))).
Proof.
  intros [_ Hw]. destruct m as [h]. simpl in *.
  assert (Hg : forall k, (forall i c, h !! i = Some c -> chain_wf (k + i) c) ->
    NoDup (map il_id (concat h)) /\ Forall (fun n => (k <= hashid n.(il_id))%nat) (concat h)).
  { clear Hw. induction h as [|c h IH]; intros k Hw; simpl; [split; constructor|].
    destruct (IH (S k)) as [IH1 IH2].
    { intros i c' Hi. replace (S k + i)%nat with (k + S i)%nat by lia. by apply Hw. }
    destruct (Hw 0%nat c eq_refl) as [Hn Hf]. rewrite Nat.add_0_r in Hf. split.
    - rewrite map_app, list.NoDup_app. split_and!; [done| |done].
      intros z (n&->&Hin)%list_elem_of_fmap (n'&Heq&Hin')%list_elem_of_fmap.
      rewrite Forall_forall in Hf, IH2. specialize (Hf _ Hin). specialize (IH2 _ Hin').
      rewrite <- Heq in IH2. lia.
    - apply Forall_app. split; eapply Forall_impl; [exact Hf| |exact IH2|]; simpl; intros; lia. }
  apply (Hg 0%nat). done.
Qed.

Lemma assocs_keys c : (assocs c).*1 = map il_id c.
Proof. unfold assocs. rewrite <- list_fmap_compose. done. Qed.

Lemma elem_of_assocs c id v : (id, v) ∈ assocs c <-> mkIntlist id v ∈ c.
Proof.
  unfold assocs. rewrite list_elem_of_fmap. split.
  - intros ([i w]&[= -> ->]&Hin). done.
  - intros Hin. by exists (mkIntlist id v).
Qed.

Lemma im_abs_get m id : im_wf m -> im_abs m !! id = chain_get (bucket m id) id.
Proof.
  intros Hw. pose proof (bucket_lookup m id Hw) as Hb.
  assert (Hbw : NoDup (map il_id (bucket m id))) by (apply (proj2 Hw _ _ Hb)).
  apply option_eq. intros v. unfold im_abs.
  rewrite <- elem_of_list_to_map by (rewrite assocs_keys; by apply im_wf_concat).
  rewrite elem_of_assocs, chain_get_Some by done. rewrite elem_of_concat_lookup. split.
  - intros (i&c&Hi&Hin). destruct (proj2 Hw i c Hi) as [_ Hf].
    rewrite Forall_forall in Hf. specialize (Hf _ Hin). simpl in Hf. subst i. congruence.
  - intros Hin. eauto.
Qed.

(** Replacing the chain of [id] by one that holds no other ids. *)
Lemma setbucket_wf m id c : im_wf m -> chain_wf (hashid id) c -> im_wf (setbucket m id c).
Proof.
  intros Hw Hc. split; simpl; [rewrite length_insert; apply Hw|].
  intros i c' Hi. apply list_lookup_insert_Some in Hi as [(<-&<-&_)|[_ Hi]]; [done|].
  by apply Hw.
Qed.

Lemma bucket_setbucket m id c k : im_wf m ->
  bucket (setbucket m id c) k = if decide (hashid k = hashid id) then c else bucket m k.
Proof.
  intros Hw. unfold bucket at 1, setbucket. simpl. destruct (decide _) as [->|Hne].
  - rewrite list_lookup_insert_eq; [done|]. rewrite (proj1 Hw). apply hashid_lt.
  - by rewrite list_lookup_insert_ne.
Qed.

Lemma setbucket_abs m id c (f : gmap Z V -> gmap Z V) :
  im_wf m -> chain_wf (hashid id) c ->
  (forall k, hashid k = hashid id -> chain_get c k = f (im_abs m) !! k) ->
  (forall k, hashid k <> hashid id -> f (im_abs m) !! k = im_abs m !! k) ->
  im_abs (setbucket m id c) = f (im_abs m).
Proof.
  intros Hw Hc H1 H2. apply map_eq. intros k.
  rewrite im_abs_get by by apply setbucket_wf. rewrite bucket_setbucket by done.
  destruct (decide _) as [He|Hne]; [by apply H1|]. rewrite H2 by done.
  by rewrite im_abs_get.
Qed.

Lemma chain_get_not c id : chain_get c id = None -> Forall (fun n => n.(il_id) <> id) c.
Proof.
  unfold chain_get. destruct (llookup_chain c id) as [b a] eqn:E.
  apply llookup_chain_split in E as (->&Hb&_). destruct a; [|done]. by rewrite app_nil_r.
Qed.

Lemma bucket_wf m id : im_wf m -> chain_wf (hashid id) (bucket m id).
Proof. intros Hw. apply Hw. by apply bucket_lookup. Qed.

Lemma chain_get_cons n c k :
  chain_get (n :: c) k = if n.(il_id) =? k then Some n.(il_aux) else chain_get c k.
Proof.
  unfold chain_get. cbn [llookup_chain]. destruct (n.(il_id) =? k); [done|].
  by destruct (llookup_chain c k).
Qed.

Lemma chain_get_app b c k : Forall (fun n => n.(il_id) <> k) b ->
  chain_get (b ++ c) k = chain_get c k.
Proof.
  induction 1 as [|n b Hn _ IH]; [done|]. simpl. rewrite chain_get_cons, IH. zif. done.
Qed.

Lemma chain_get_mid b n c k : n.(il_id) <> k ->
  chain_get (b ++ n :: c) k = chain_get (b ++ c) k.
Proof.
  intros Hne. induction b as [|x b IH]; simpl; rewrite !chain_get_cons; [zif|rewrite IH]; done.
Qed.

(** ** Operations *)

Lemma lookupkey_abs {S} (inc : V -> S -> option S) m id s : im_wf m ->
  lookupkey inc m id s =
    match im_abs m !! id with
    | Some v => match inc v s with Some s' => Some (Some v, s') | None => None end
    | None => Some (None, s)
    end.
Proof.
  intros Hw. rewrite im_abs_get by done. unfold lookupkey, chain_get, llookup.
  by destruct (llookup_chain (bucket m id) id) as [b [|f a]].
Qed.

Lemma push_spec m id v : im_wf m -> im_abs m !! id = None ->
  im_wf (setbucket m id (mkIntlist id v :: bucket m id)) /\
  im_abs (setbucket m id (mkIntlist id v :: bucket m id)) = <[id := v]> (im_abs m).
Proof.
  intros Hw Hn. rewrite im_abs_get in Hn by done. pose proof (bucket_wf m id Hw) as [Hb1 Hb2].
  assert (Hc : chain_wf (hashid id) (mkIntlist id v :: bucket m id)).
  { split; [|by constructor]. simpl. constructor; [|done].
    intros (n&Heq&Hin)%list_elem_of_fmap. apply chain_get_not in Hn.
    rewrite Forall_forall in Hn. by apply (Hn n). }
  split; [by apply setbucket_wf|]. apply (setbucket_abs _ _ _ (insert id v)); [done..| |].
  - intros k Hk. rewrite chain_get_cons. simpl. destruct (Z.eqb_spec id k) as [<-|Hne].
    + by rewrite lookup_insert_eq.
    + rewrite lookup_insert_ne, im_abs_get by done. unfold bucket. by rewrite Hk.
  - intros k Hk. apply lookup_insert_ne. by intros ->.
Qed.

Lemma caninsertkey_abs m id v : im_wf m ->
  match im_abs m !! id with
  | Some _ => caninsertkey m id v = (false, m)
  | None => exists m', caninsertkey m id v = (true, m') /\ im_wf m' /\
                       im_abs m' = <[id := v]> (im_abs m)
  end.
Proof.
  intros Hw. pose proof (push_spec m id v Hw) as Hp.
  rewrite im_abs_get in * by done. unfold caninsertkey, llookup, chain_get in *.
  destruct (llookup_chain (bucket m id) id) as [b [|f a]]; simpl in *; [|done].
  eexists. split; [done|]. by apply Hp.
Qed.

Lemma insertkey_abs m id v : im_wf m ->
  exists m', insertkey m id v = (im_abs m !! id, m') /\ im_wf m' /\
    im_abs m' = <[id := v]> (im_abs m).
Proof.
  intros Hw. pose proof (push_spec m id v Hw) as Hp. rewrite im_abs_get in * by done.
  pose proof (bucket_wf m id Hw) as Hbw. unfold insertkey, llookup.
  unfold chain_get in *. destruct (llookup_chain (bucket m id) id) as [b [|f c]] eqn:E;
    simpl in *; (eexists; split; [done|]).
  - by apply Hp.
  - apply llookup_chain_split in E as (Eb&Hb&Hf).
    assert (Hc : chain_wf (hashid id) (b ++ mkIntlist f.(il_id) v :: c)).
    { rewrite Eb in Hbw. destruct Hbw as [H1 H2]. split.
      - rewrite map_app in *. done.
      - rewrite !Forall_app, !list.Forall_cons in *. naive_solver. }
    split; [by apply setbucket_wf|]. apply (setbucket_abs _ _ _ (insert id v)); [done..| |].
    + intros k Hk. destruct (decide (id = k)) as [<-|Hne].
      * rewrite lookup_insert_eq, chain_get_app, chain_get_cons by done. simpl. zif. done.
      * rewrite lookup_insert_ne, im_abs_get by done. rewrite chain_get_mid by (simpl; congruence).
        unfold bucket at 1. rewrite Hk. fold (bucket m id). rewrite Eb.
        by rewrite chain_get_mid by congruence.
    + intros k Hk. apply lookup_insert_ne. by intros ->.
Qed.

Lemma deletekey_abs m id : im_wf m ->
  exists m', deletekey m id = (im_abs m !! id, m') /\ im_wf m' /\
    im_abs m' = delete id (im_abs m).
Proof.
  intros Hw. pose proof (bucket_wf m id Hw) as Hbw.
  pose proof (im_abs_get m id Hw) as Hg. unfold deletekey, llookup, chain_get in *.
  destruct (llookup_chain (bucket m id) id) as [b [|f c]] eqn:E; simpl in *; rewrite Hg.
  - exists m. split_and!; [done..|]. symmetry. by apply delete_id.
  - eexists. split; [done|]. apply llookup_chain_split in E as (Eb&Hb&Hf).
    rewrite Eb in Hbw. destruct Hbw as [H1 H2]. rewrite map_app in H1. simpl in H1.
    assert (Hc : chain_wf (hashid id) (b ++ c)).
    { split; [rewrite map_app|]; [|rewrite Forall_app, list.Forall_cons in H2; rewrite Forall_app; tauto].
      apply list.NoDup_app in H1 as (?&Hd&Hn). apply list.NoDup_cons in Hn as [_ Hn].
      apply list.NoDup_app. split_and!; [done| |done]. intros x Hx Hxc. apply (Hd x Hx). by right. }
    split; [by apply setbucket_wf|]. apply (setbucket_abs _ _ _ (delete id)); [done..| |].
    + intros k Hk. destruct (decide (id = k)) as [<-|Hne].
      * rewrite lookup_delete_eq, chain_get_app by done.
        destruct (chain_get c id) as [w|] eqn:Ec; [|done]. exfalso.
        apply list.NoDup_app in H1 as (_&_&[Hn Hnd]%list.NoDup_cons).
        apply chain_get_Some in Ec; [|done]. apply Hn. rewrite Hf.
        apply list_elem_of_fmap. by exists (mkIntlist id w).
      * rewrite lookup_delete_ne, im_abs_get by done.
        unfold bucket. rewrite Hk. fold (bucket m id). rewrite Eb.
        by rewrite chain_get_mid by congruence.
    + intros k Hk. apply lookup_delete_ne. by intros ->.
Qed.

Lemma allocmap_abs : im_wf allocmap /\ im_abs allocmap = ∅.
Proof.
  split; [|by vm_compute]. split; [done|]. intros i c Hi. unfold allocmap in Hi.
  cbv [hash] in Hi. apply lookup_replicate in Hi as [-> _]. split; constructor.
Qed.

(** [freemap] with a destructor that logs what it is given. *)
Lemma freemap_log (h : list (chain V)) s :
  freemap (fun v s => Some (s ++ [v])) h s = Some (s ++ map il_aux (concat h)).
Proof.
  assert (Hc : forall (c : chain V) (s : list V),
    freechain (fun v s => Some (s ++ [v])) c s = Some (s ++ map il_aux c)).
  { intros c. induction c as [|n c IH]; intros s0; simpl; [by rewrite app_nil_r|].
    rewrite IH, <- app_assoc. done. }
  revert s. induction h as [|c h IH]; intros s; simpl; [by rewrite app_nil_r|].
  rewrite Hc, IH, map_app, app_assoc. done.
Qed.

Lemma im_abs_values m : im_wf m ->
  (map_to_list (im_abs m)).*2 ≡ₚ map il_aux (concat m.(hash)).
Proof.
  intros Hw. unfold im_abs. rewrite map_to_list_to_map.
  - unfold assocs. rewrite <- list_fmap_compose. done.
  - rewrite assocs_keys. by apply im_wf_concat.
Qed.

End Intmap.

(** * What the pools rely on *)

(** A table of keyed values: its state, its operations, and the finite map it
    must behave as. *)
Class KeyMap (V T : Type) := {
  km_alloc : T;
  km_lookup {S : Type} : (V -> S -> option S) -> T -> Z -> S -> option (option V * S);
  km_caninsert : T -> Z -> V -> bool * T;
  km_delete : T -> Z -> option V * T;
  km_abs : T -> gmap Z V;
  km_wf : T -> Prop;
  km_alloc_ok : km_wf km_alloc /\ km_abs km_alloc = ∅;
  km_lookup_ok {S : Type} (inc : V -> S -> option S) m id s : km_wf m ->
    km_lookup inc m id s =
      match km_abs m !! id with
      | Some v => match inc v s with Some s' => Some (Some v, s') | None => None end
      | None => Some (None, s)
      end;
  km_caninsert_ok m id v : km_wf m ->
    match km_abs m !! id with
    | Some _ => km_caninsert m id v = (false, m)
    | None => exists m', km_caninsert m id v = (true, m') /\ km_wf m' /\
                         km_abs m' = <[id := v]> (km_abs m)
    end;
  km_delete_ok m id : km_wf m ->
    exists m', km_delete m id = (km_abs m !! id, m') /\ km_wf m' /\ km_abs m' = delete id (km_abs m)
}.

#[export] Instance Intmap_impl (V : Type) : KeyMap V (Intmap V) := {|
  km_alloc := allocmap;
  km_lookup := @lookupkey V;
  km_caninsert := caninsertkey;
  km_delete := deletekey;
  km_abs := im_abs;
  km_wf := im_wf;
  km_alloc_ok := allocmap_abs;
  km_lookup_ok := @lookupkey_abs V;
  km_caninsert_ok := caninsertkey_abs;
  km_delete_ok := deletekey_abs
|}.

(** * Refinement *)

(** A client's calls, and what each returns. *)
Inductive mapop (V : Type) :=
| Olookup (id : Z)
| Oinsert (id : Z) (v : V)
| Ocaninsert (id : Z) (v : V)
| Odelete (id : Z).
Arguments Olookup {V} _.
Arguments Oinsert {V} _ _.
Arguments Ocaninsert {V} _ _.
Arguments Odelete {V} _.

Inductive mapret (V : Type) := Rval (ov : option V) | Rbool (rv : bool).
Arguments Rval {V} _.
Arguments Rbool {V} _.

Section Refine.
Context {V : Type}.

Definition table_op (o : mapop V) (m : Intmap V) : mapret V * Intmap V :=
  match o with
  | Olookup id =>
      (Rval match lookupkey (fun _ s => Some s) m id tt with Some (ov, _) => ov | None => None end, m)
  | Oinsert id v => let '(ov, m') := insertkey m id v in (Rval ov, m')
  | Ocaninsert id v => let '(rv, m') := caninsertkey m id v in (Rbool rv, m')
  | Odelete id => let '(ov, m') := deletekey m id in (Rval ov, m')
  end.

Definition map_op (o : mapop V) (m : gmap Z V) : mapret V * gmap Z V :=
  match o with
  | Olookup id => (Rval (m !! id), m)
  | Oinsert id v => (Rval (m !! id), <[id := v]> m)
  | Ocaninsert id v =>
      match m !! id with Some _ => (Rbool false, m) | None => (Rbool true, <[id := v]> m) end
  | Odelete id => (Rval (m !! id), delete id m)
  end.

Fixpoint run_ops {St : Type} (step : mapop V -> St -> mapret V * St) (os : list (mapop V)) (s : St) :
    list (mapret V) * St :=
  match os with
  | [] => ([], s)
  | o :: os =>
      let '(r, s) := step o s in
      let '(rs, s) := run_ops step os s in (r :: rs, s)
  end.

Lemma table_op_sim o m : im_wf m ->
  exists m', table_op o m = ((map_op o (im_abs m)).1, m') /\ im_wf m' /\
    im_abs m' = (map_op o (im_abs m)).2.
Proof.
  intros Hw. destruct o as [id|id v|id v|id]; cbn [table_op map_op].
  - rewrite lookupkey_abs by done. exists m. by destruct (im_abs m !! id).
  - destruct (insertkey_abs m id v Hw) as (m'&->&?&?). eauto.
  - pose proof (caninsertkey_abs m id v Hw) as H. destruct (im_abs m !! id).
    + rewrite H. eauto.
    + destruct H as (m'&->&?&?). eauto.
  - destruct (deletekey_abs m id Hw) as (m'&->&?&?). eauto.
Qed.

Lemma run_ops_sim os : forall m, im_wf m ->
  (run_ops table_op os m).1 = (run_ops map_op os (im_abs m)).1 /\
  im_wf (run_ops table_op os m).2 /\
  im_abs (run_ops table_op os m).2 = (run_ops map_op os (im_abs m)).2.
Proof.
  induction os as [|o os IH]; intros m Hw; simpl; [done|].
  destruct (table_op_sim o m Hw) as (m'&->&Hw'&Ha).
  destruct (map_op o (im_abs m)) as [r a]. simpl in Ha. subst a.
  specialize (IH m' Hw'). destruct (run_ops table_op os m'), (run_ops map_op os (im_abs m')).
  simpl in *. naive_solver.
Qed.

(** C10.  The hash table is a finite map: whatever calls a client makes on a
    fresh table, in whatever order, every call returns what the same calls on a
    finite map return, and destroying the table hands the destructor exactly the
    values then in that map, each once. *)
Theorem intmap_refines (os : list (mapop V)) :
  let t := run_ops table_op os allocmap in
  let a := run_ops map_op os ∅ in
  t.1 = a.1 /\
  exists vs, freemap (fun v s => Some (s ++ [v])) t.2.(hash) [] = Some vs /\
    vs ≡ₚ (map_to_list a.2).*2.
Proof.
  intros t a. destruct (@allocmap_abs V) as [Hw Ha].
  destruct (run_ops_sim os allocmap Hw) as (H1&H2&H3). rewrite Ha in H1, H3.
  split; [exact H1|]. eexists. split; [apply freemap_log|].
  unfold t, a. rewrite <- H3. simpl. by rewrite (im_abs_values _ H2).
Qed.

End Refine.
