(* ===== verification/Eff.v ===== *)
(** Computations over a store of structures.

    The file server's own code (unlike the byte-level codec) works on linked
    structures reached by pointers.  Those are modelled by stores: finite maps
    from addresses to records, one per structure type.  A computation is a
    function from a state to an outcome: a result with the state it leaves,
    [Abort] for [abort], [sysfatal] or a failed [assert], and [Fault] for the
    use of a nil or freed pointer, which C leaves undefined. *)

From Stdlib Require Import String Ascii.
From S2P Require Import Prelude.

(** * The monad *)

Inductive outcome (A : Type) := Ok (x : A) | Abort | Fault.
Arguments Ok {A} _.
Arguments Abort {A}.
Arguments Fault {A}.

Definition eff (S A : Type) : Type := S -> outcome (A * S).

#[export] Instance eff_ret {S} : MRet (eff S) := fun A x s => Ok (x, s).
#[export] Instance eff_bind {S} : MBind (eff S) := fun A B k c s =>
  match c s with Ok (x, s') => k x s' | Abort => Abort | Fault => Fault end.

Definition abort {S A} : eff S A := fun _ => Abort.
Definition fault {S A} : eff S A := fun _ => Fault.
Definition gets {S A} (f : S -> A) : eff S A := fun s => Ok (f s, s).
Definition modify {S} (f : S -> S) : eff S unit := fun s => Ok (tt, f s).
Definition assertb {S} (b : bool) : eff S unit := if b then mret tt else abort.

(** Dereference: the structure at an address that must be live. *)
Definition deref {S A} (store : S -> gmap Z A) (p : Z) : eff S A := fun s =>
  match store s !! p with Some x => Ok (x, s) | None => Fault end.
(** The pointer in a member that may be [nil]. *)
Definition nonnil {S} (p : option Z) : eff S Z :=
  match p with Some p => mret p | None => fault end.

(** String constants of the source, as the bytes of a C string. *)
Fixpoint str (s : String.string) : list Z :=
  match s with
  | String.EmptyString => []
  | String.String c s => Z.of_N (Ascii.N_of_ascii c) :: str s
  end.

Arguments str _%_string.

(** * Lemmas *)

Section Eff.
Context {S : Type}.

Lemma eff_bind_ok {A B} (c : eff S A) (k : A -> eff S B) s x s' :
  c s = Ok (x, s') -> (c ≫= k) s = k x s'.
Proof. intros H. unfold mbind, eff_bind. by rewrite H. Qed.

Lemma eff_bind_inv {A B} (c : eff S A) (k : A -> eff S B) s r :
  (c ≫= k) s = Ok r -> exists x s', c s = Ok (x, s') /\ k x s' = Ok r.
Proof.
  unfold mbind, eff_bind. destruct (c s) as [[x s']| |] eqn:E; try done. eauto.
Qed.

Lemma eff_ret_run {A} (x : A) s : (mret x : eff S A) s = Ok (x, s).
Proof. done. Qed.

Lemma deref_run {A} (store : S -> gmap Z A) p x s :
  store s !! p = Some x -> deref store p s = Ok (x, s).
Proof. intros H. unfold deref. by rewrite H. Qed.

Lemma gets_run {A} (f : S -> A) s : gets f s = Ok (f s, s).
Proof. done. Qed.
Lemma modify_run (f : S -> S) s : modify f s = Ok (tt, f s).
Proof. done. Qed.

Lemma eff_bind_assoc {A B C} (c : eff S A) (k : A -> eff S B) (h : B -> eff S C) s :
  ((c ≫= k) ≫= h) s = (c ≫= fun x => k x ≫= h) s.
Proof. unfold mbind, eff_bind. by destruct (c s) as [[]| |]. Qed.

End Eff.

(** Run the next command: by a known equation, or one of the primitives. *)
Ltac eff_with H := erewrite eff_bind_ok by (exact H); cbv beta iota.
Ltac eff_prim :=
  first
  [ erewrite eff_bind_ok by (apply gets_run)
  | erewrite eff_bind_ok by (apply modify_run)
  | erewrite eff_bind_ok by (apply eff_ret_run)
  | erewrite eff_bind_ok by (apply deref_run; eassumption) ]; cbv beta iota.
