(* ===== verification/FileTree.v ===== *)
(** [lib9p/file.c]: the in-memory file trees of the 9P library.

    Files, the cells of directory lists and directory readers are structures in
    a store; a directory's list is the sequence of its cells, and a cell whose
    file has been removed stays, empty, until no reader is left.  A handler runs
    with the locks it takes already free, so locking is not part of this model. *)

From Stdlib Require Import String.
From S2P Require Import Prelude Mem CString Fcall ConvS2M ConvM2S ConvDir Eff.

(** * Definitions *)

Definition QTDIR : Z := 0x80.
Definition QTAPPEND : Z := 0x40.
Definition QTEXCL : Z := 0x20.
Definition DMDIR : Z := 0x80000000.
Definition DMAPPEND : Z := 0x40000000.
Definition DMEXCL : Z := 0x20000000.

(** [struct File]: its [Dir] is the entry [fdir], its [Ref] is [ref]. *)
Record File := mkFile {
  ref : Z;
  fdir : Stat;
  parent : option Z;
  faux : Z;
  filelist : list Z;
  nchild : Z;
  allocd : Z;
  nxchild : Z;
  readers : Z
}.

Record Readdir := mkReaddir { rd_dir : Z; rd_fl : option Z }.

(** The store, the free list of [File]s with what each remembers ([allocd]),
    the tree's root and generator, and the process's error string.  [brk] is
    the next address; [destroyed] lists what was handed to [tree->destroy]. *)
Record FS := mkFS {
  files : gmap Z File;
  cells : gmap Z (option Z);
  rdirs : gmap Z Readdir;
  freefilelist : list (Z * Z);
  root : Z;
  qidgen : Z;
  brk : Z;
  errstr : list Z;
  destroyed : list Z
}.

Definition set_files (v : gmap Z File) (s : FS) : FS :=
  mkFS v s.(cells) s.(rdirs) s.(freefilelist) s.(root) s.(qidgen) s.(brk) s.(errstr) s.(destroyed).
Definition set_cells (v : gmap Z (option Z)) (s : FS) : FS :=
  mkFS s.(files) v s.(rdirs) s.(freefilelist) s.(root) s.(qidgen) s.(brk) s.(errstr) s.(destroyed).
Definition set_rdirs (v : gmap Z Readdir) (s : FS) : FS :=
  mkFS s.(files) s.(cells) v s.(freefilelist) s.(root) s.(qidgen) s.(brk) s.(errstr) s.(destroyed).
Definition set_freefilelist (v : list (Z * Z)) (s : FS) : FS :=
  mkFS s.(files) s.(cells) s.(rdirs) v s.(root) s.(qidgen) s.(brk) s.(errstr) s.(destroyed).
Definition set_root (v : Z) (s : FS) : FS :=
  mkFS s.(files) s.(cells) s.(rdirs) s.(freefilelist) v s.(qidgen) s.(brk) s.(errstr) s.(destroyed).
Definition set_qidgen (v : Z) (s : FS) : FS :=
  mkFS s.(files) s.(cells) s.(rdirs) s.(freefilelist) s.(root) v s.(brk) s.(errstr) s.(destroyed).
Definition set_brk (v : Z) (s : FS) : FS :=
  mkFS s.(files) s.(cells) s.(rdirs) s.(freefilelist) s.(root) s.(qidgen) v s.(errstr) s.(destroyed).
Definition set_errstr (v : list Z) (s : FS) : FS :=
  mkFS s.(files) s.(cells) s.(rdirs) s.(freefilelist) s.(root) s.(qidgen) s.(brk) v s.(destroyed).
Definition set_destroyed (v : list Z) (s : FS) : FS :=
  mkFS s.(files) s.(cells) s.(rdirs) s.(freefilelist) s.(root) s.(qidgen) s.(brk) s.(errstr) v.

Definition with_ref (v : Z) (f : File) : File :=
  mkFile v f.(fdir) f.(parent) f.(faux) f.(filelist) f.(nchild) f.(allocd) f.(nxchild) f.(readers).
Definition with_parent (v : option Z) (f : File) : File :=
  mkFile f.(ref) f.(fdir) v f.(faux) f.(filelist) f.(nchild) f.(allocd) f.(nxchild) f.(readers).
(** The list and its two counters. *)
Definition with_list (l : list Z) (n x : Z) (f : File) : File :=
  mkFile f.(ref) f.(fdir) f.(parent) f.(faux) l n f.(allocd) x f.(readers).
Definition with_readers (v : Z) (f : File) : File :=
  mkFile f.(ref) f.(fdir) f.(parent) f.(faux) f.(filelist) f.(nchild) f.(allocd) f.(nxchild) v.
Definition with_dir (v : Stat) (f : File) : File :=
  mkFile f.(ref) v f.(parent) f.(faux) f.(filelist) f.(nchild) f.(allocd) f.(nxchild) f.(readers).

Definition werrstr (e : list Z) : eff FS unit := modify (set_errstr e).
Definition putfile (f : Z) (x : File) : eff FS unit :=
  modify (fun s => set_files (<[f := x]> s.(files)) s).
Definition putcell (c : Z) (o : option Z) : eff FS unit :=
  modify (fun s => set_cells (<[c := o]> s.(cells)) s).
Definition freecell (c : Z) : eff FS unit :=
  modify (fun s => set_cells (delete c s.(cells)) s).

(** [emalloc9p(n*sizeof(...))]: [n] structures at fresh addresses. *)
Definition emalloc9p (n : Z) : eff FS Z :=
  b ← gets brk; _ ← modify (set_brk (b + n)); mret b.

Definition incref (f : Z) : eff FS unit :=
  x ← deref files f; putfile f (with_ref (x.(ref) + 1) x).
Definition decref (f : Z) : eff FS Z :=
  x ← deref files f; _ ← putfile f (with_ref (x.(ref) - 1) x); mret (x.(ref) - 1).

Definition emptystat : Stat := mkStat 0 0 (mkQid 0 0 0) 0 0 0 0 [] [] [] [].
Definition zerofile (a : Z) : File := mkFile 0 emptystat None 0 [] 0 a 0 0.

Definition FILEN : Z := 16.

Definition allocfile : eff FS Z :=
  l ← gets freefilelist;
  _ ← match l with
      | [] =>
          b ← emalloc9p FILEN;
          modify (set_freefilelist
            ((b, 1) :: map (fun i => (b + Z.of_nat i, 0)) (seq 1 (Z.to_nat FILEN - 1))))
      | _ => mret tt
      end;
  l ← gets freefilelist;
  match l with
  | [] => fault
  | (f, a) :: l =>
      _ ← modify (set_freefilelist l);
      _ ← putfile f (zerofile a);
      mret f
  end.

Fixpoint freecells (l : list Z) : eff FS unit :=
  match l with
  | [] => mret tt
  | c :: l =>
      o ← deref cells c;
      _ ← assertb (match o with None => true | Some _ => false end);
      _ ← freecell c;
      freecells l
  end.

Definition freefile (f : Z) : eff FS unit :=
  x ← deref files f;
  _ ← freecells x.(filelist);
  x ← deref files f;
  _ ← assertb (x.(ref) =? 0);
  _ ← modify (fun s => set_freefilelist ((f, x.(allocd)) :: s.(freefilelist)) s);
  modify (fun s => set_files (delete f s.(files)) s).

(** Remove the empty cells of a list and free them; the cells kept. *)
Fixpoint cleancells (l : list Z) : eff FS (list Z) :=
  match l with
  | [] => mret []
  | c :: l =>
      o ← deref cells c;
      match o with
      | None => _ ← freecell c; cleancells l
      | Some _ => l' ← cleancells l; mret (c :: l')
      end
  end.

Definition cleanfilelist (f : Z) : eff FS unit :=
  x ← deref files f;
  if negb (x.(readers) =? 0) then mret tt else
  if x.(nxchild) =? 0 then mret tt else
  l ← cleancells x.(filelist);
  putfile f (with_list l x.(nchild) 0 x).

Definition treedestroy (f : Z) : eff FS unit :=
  modify (fun s => set_destroyed (s.(destroyed) ++ [f]) s).

Definition closefile (f : Z) : eff FS unit :=
  r ← decref f;
  if r =? 0 then _ ← treedestroy f; freefile f else mret tt.

(** The cell of [f] in a directory's list. *)
Fixpoint findcell (l : list Z) (f : Z) : eff FS (option Z) :=
  match l with
  | [] => mret None
  | c :: l =>
      o ← deref cells c;
      match o with
      | Some g => if g =? f then mret (Some c) else findcell l f
      | None => findcell l f
      end
  end.

Definition removefile (f : Z) : eff FS Z :=
  x ← deref files f;
  match x.(parent) with
  | None => _ ← werrstr (str "no parent"); _ ← closefile f; mret (-1)
  | Some fp =>
      if fp =? f then _ ← werrstr (str "cannot remove root"); _ ← closefile f; mret (-1) else
      _ ← deref files fp;
      if negb (x.(nchild) =? 0) then _ ← werrstr (str "has children"); _ ← closefile f; mret (-1) else
      if decide (x.(parent) <> Some fp) then
        _ ← werrstr (str "parent changed underfoot"); _ ← closefile f; mret (-1)
      else
      y ← deref files fp;
      oc ← findcell y.(filelist) f;
      match oc with
      | None => abort
      | Some c =>
          _ ← putcell c None;
          _ ← putfile fp (with_list y.(filelist) (y.(nchild) - 1) (y.(nxchild) + 1) y);
          _ ← putfile f (with_parent None x);
          _ ← cleanfilelist fp;
          _ ← closefile fp;
          _ ← closefile f;
          _ ← closefile f;
          mret 0
      end
  end.

(** Whether a live entry of the list has the name. *)
Fixpoint hasname (l : list Z) (name : list Z) : eff FS bool :=
  match l with
  | [] => mret false
  | c :: l =>
      o ← deref cells c;
      match o with
      | Some g =>
          y ← deref files g;
          if decide (st_name y.(fdir) = name) then mret true else hasname l name
      | None => hasname l name
      end
  end.

Definition createfile (fp : Z) (name : list Z) (uid : option (list Z)) (perm aux now : Z) :
    eff FS (option Z) :=
  x ← deref files fp;
  if Z.land (q_type (st_qid x.(fdir))) QTDIR =? 0 then
    _ ← werrstr (str "create in non-directory"); mret None
  else
  dup ← hasname x.(filelist) name;
  if (dup : bool) then _ ← werrstr (str "file already exists"); mret None else
  fl ← emalloc9p 1;
  _ ← putcell fl None;
  f ← allocfile;
  g ← gets qidgen;
  _ ← modify (set_qidgen (u32 (g + 1)));
  x ← deref files fp;
  z ← deref files f;
  let ty := Z.lor (Z.lor (if Z.land perm DMDIR =? 0 then 0 else QTDIR)
                         (if Z.land perm DMAPPEND =? 0 then 0 else QTAPPEND))
                  (if Z.land perm DMEXCL =? 0 then 0 else QTEXCL) in
  let d := mkStat 0 0 (mkQid g 0 ty) perm now now 0 name
             (match uid with Some u => u | None => st_uid x.(fdir) end) (st_gid x.(fdir))
             (match uid with Some u => u | None => str "unknown" end) in
  _ ← putfile f (mkFile 2 d (Some fp) aux [] 0 z.(allocd) 0 0);
  _ ← putcell fl (Some f);
  _ ← putfile fp (with_ref (x.(ref) + 1)
                    (with_list (x.(filelist) ++ [fl]) (x.(nchild) + 1) x.(nxchild) x));
  mret (Some f).

(** The live entry with the name, with a reference for the caller. *)
Fixpoint findname (l : list Z) (elem : list Z) : eff FS (option Z) :=
  match l with
  | [] => mret None
  | c :: l =>
      o ← deref cells c;
      match o with
      | Some g =>
          y ← deref files g;
          if decide (st_name y.(fdir) = elem) then _ ← incref g; mret (Some g) else findname l elem
      | None => findname l elem
      end
  end.

Definition walkfile1 (dir : Z) (elem : list Z) : eff FS (option Z) :=
  x ← deref files dir;
  if decide (elem = str "..") then
    fp ← nonnil x.(parent);
    _ ← incref fp;
    _ ← closefile dir;
    mret (Some fp)
  else
    fp ← findname x.(filelist) elem;
    _ ← closefile dir;
    mret fp.

(** The elements [walkfile]'s loop sees: the pieces between slashes, without a
    last empty one. *)
Fixpoint path_elems (cur s : list Z) : list (list Z) :=
  match s with
  | [] => match cur with [] => [] | _ => [cur] end
  | b :: s => if b =? 47 then cur :: path_elems [] s else path_elems (cur ++ [b]) s
  end.

Fixpoint walkelems (f : Z) (es : list (list Z)) : eff FS (option Z) :=
  match es with
  | [] => mret (Some f)
  | e :: es =>
      r ← walkfile1 f e;
      match r with None => mret None | Some f => walkelems f es end
  end.

Definition walkfile (f : Z) (path : list Z) : eff FS (option Z) :=
  if decide (47 ∈ path) then walkelems f (path_elems [] path) else walkfile1 f path.

(** [user] is what [getuser()] returns. *)
Definition alloctree (user uid gid : option (list Z)) (mode now : Z) : eff FS unit :=
  f ← allocfile;
  z ← deref files f;
  let uid := match uid with
             | Some u => u
             | None => match user with Some u => u | None => str "none" end
             end in
  let gid := match gid with Some g => g | None => uid end in
  let d := mkStat 0 0 (mkQid 0 0 QTDIR) (Z.lor DMDIR mode) now now 0 (str "/") uid gid uid in
  _ ← putfile f (mkFile 1 d (Some f) 0 [] 0 z.(allocd) 0 0);
  _ ← modify (set_root f);
  modify (set_qidgen 0).

(** [_freefiles], with fuel for the depth of the tree. *)
Fixpoint freefiles (fuel : nat) (f : Z) : eff FS unit :=
  match fuel with
  | O => fault
  | S fuel =>
      x ← deref files f;
      _ ← (fix loop (l : list Z) : eff FS unit :=
             match l with
             | [] => mret tt
             | c :: l =>
                 o ← deref cells c;
                 g ← nonnil o;
                 _ ← freefiles fuel g;
                 _ ← freecell c;
                 loop l
             end) x.(filelist);
      _ ← treedestroy f;
      freefile f
  end.

Definition freetree (fuel : nat) : eff FS unit := r ← gets root; freefiles fuel r.

Definition opendirfile (dir : Z) : eff FS (option Z) :=
  x ← deref files dir;
  if Z.land (st_mode x.(fdir)) DMDIR =? 0 then mret None else
  r ← emalloc9p 1;
  _ ← modify (fun s => set_rdirs (<[r := mkReaddir dir (head x.(filelist))]> s.(rdirs)) s);
  _ ← putfile dir (with_readers (x.(readers) + 1) x);
  mret (Some r).

(** What [convD2M] returns and stores for an entry and a buffer of [n] bytes. *)
Definition d2m (x : Stat) (n : Z) : Z * list Z :=
  if n <? 2 then (0, [])
  else if n <? Zlen (wire_stat x) then (2, le 2 (Zlen (wire_stat x) - 2))
  else (Zlen (wire_stat x), wire_stat x).

(** The cells from [c] on. *)
Fixpoint from (c : Z) (l : list Z) : list Z :=
  match l with [] => [] | d :: l' => if d =? c then l else from c l' end.

(** The loop of [readdirfile]: the bytes stored below [m], and where it stops. *)
Fixpoint readcells (l : list Z) (m n : Z) (out : list Z) : eff FS (list Z * option Z) :=
  match l with
  | [] => mret (out, None)
  | c :: l =>
      if m + 2 <=? n then
        o ← deref cells c;
        match o with
        | None => readcells l m n out
        | Some g =>
            y ← deref files g;
            let '(x, bs) := d2m y.(fdir) (n - m) in
            if x <=? BIT16SZ then mret (out, Some c)
            else readcells l (m + x) n (out ++ bs)
        end
      else mret (out, Some c)
  end.

Definition readdirfile (r : Z) (n : Z) : eff FS (list Z) :=
  rd ← deref rdirs r;
  match rd.(rd_fl) with
  | None => mret []
  | Some c =>
      x ← deref files rd.(rd_dir);
      let l := from c x.(filelist) in
      _ ← nonnil (head l);
      '(out, fl) ← readcells l 0 n [];
      _ ← modify (fun s => set_rdirs (<[r := mkReaddir rd.(rd_dir) fl]> s.(rdirs)) s);
      mret out
  end.

Definition closedirfile (r : Z) : eff FS unit :=
  rd ← deref rdirs r;
  let dir := rd.(rd_dir) in
  x ← deref files dir;
  _ ← putfile dir (with_readers (x.(readers) - 1) x);
  _ ← (if x.(readers) - 1 =? 0 then cleanfilelist dir else mret tt);
  modify (fun s => set_rdirs (delete r s.(rdirs)) s).
