(* ===== verification/FileTreeInv.v ===== *)
(** The invariant of the file tree and its preservation.

    [E f] counts the references to [f] held outside the tree (by fids, and by
    callers between calls).  The invariant says what every counter means: a
    file's [ref] is [E f] plus one per child plus one for its place in the
    tree; [nchild] and [nxchild] count the live and the empty cells of its
    list; [readers] counts the open directory readers, and a reader's position
    is a cell that has not been freed. *)

From Stdlib Require Import String.
From S2P Require Import Prelude Mem CString Fcall ConvS2M ConvM2S ConvDir Eff FileTree.

(** * The invariant *)

(** The files in the live cells of a list. *)
Definition kids (cl : gmap Z (option Z)) (l : list Z) : list Z := omap (fun c => mjoin (cl !! c)) l.

Definition bump (E : Z -> Z) (f d : Z) : Z -> Z := fun g => E g + (if decide (g = f) then d else 0).

Definition nreaders (rs : gmap Z Readdir) (f : Z) : Z :=
  Z.of_nat (size (filter (fun p : Z * Readdir => rd_dir p.2 = f) rs)).

Definition tree_ref (x : File) : Z := match x.(parent) with Some _ => 1 | None => 0 end.

Record file_ok (E : Z -> Z) (s : FS) (f : Z) (x : File) : Prop := {
  fo_cells : NoDup x.(filelist) /\ forall c, c ∈ x.(filelist) -> is_Some (s.(cells) !! c);
  fo_kids : NoDup (kids s.(cells) x.(filelist)) /\
    forall g, g ∈ kids s.(cells) x.(filelist) ->
      g <> s.(root) /\ exists y, s.(files) !! g = Some y /\ y.(parent) = Some f;
  fo_names : forall g1 g2 y1 y2, g1 ∈ kids s.(cells) x.(filelist) -> g2 ∈ kids s.(cells) x.(filelist) ->
    s.(files) !! g1 = Some y1 -> s.(files) !! g2 = Some y2 ->
    st_name y1.(fdir) = st_name y2.(fdir) -> g1 = g2;
  fo_nchild : x.(nchild) = Zlen (kids s.(cells) x.(filelist));
  fo_nxchild : x.(nxchild) = Zlen x.(filelist) - Zlen (kids s.(cells) x.(filelist));
  fo_ref : x.(ref) = E f + x.(nchild) + tree_ref x /\ 0 < x.(ref);
  fo_parent : match x.(parent) with
    | None => f <> s.(root)
    | Some p => (f = s.(root) /\ p = s.(root)) \/
        (f <> s.(root) /\ p <> f /\
         exists y, s.(files) !! p = Some y /\ f ∈ kids s.(cells) y.(filelist))
    end;
  fo_readers : x.(readers) = nreaders s.(rdirs) f
}.

Record tree_inv (E : Z -> Z) (s : FS) : Prop := {
  ti_file : forall f x, s.(files) !! f = Some x -> file_ok E s f x;
  ti_owner : forall p q x y c, s.(files) !! p = Some x -> s.(files) !! q = Some y ->
    c ∈ x.(filelist) -> c ∈ y.(filelist) -> p = q;
  ti_root : exists x, s.(files) !! s.(root) = Some x /\ x.(parent) = Some s.(root);
  ti_ext : forall f, 0 <= E f /\ (E f <> 0 -> is_Some (s.(files) !! f));
  ti_free : NoDup s.(freefilelist).*1 /\
    forall a, a ∈ s.(freefilelist).*1 -> s.(files) !! a = None /\ a < s.(brk);
  ti_brk_files : forall f, is_Some (s.(files) !! f) -> f < s.(brk);
  ti_brk_cells : forall c, is_Some (s.(cells) !! c) -> c < s.(brk);
  ti_brk_rdirs : forall r, is_Some (s.(rdirs) !! r) -> r < s.(brk);
  ti_leak : forall c, is_Some (s.(cells) !! c) -> exists f x, s.(files) !! f = Some x /\ c ∈ x.(filelist);
  ti_rdir : forall r rd, s.(rdirs) !! r = Some rd -> 1 <= E rd.(rd_dir) /\
    forall x c, s.(files) !! rd.(rd_dir) = Some x -> rd.(rd_fl) = Some c -> c ∈ x.(filelist)
}.

Arguments fo_cells {E s f x} _.
Arguments fo_kids {E s f x} _.
Arguments fo_names {E s f x} _.
Arguments fo_nchild {E s f x} _.
Arguments fo_nxchild {E s f x} _.
Arguments fo_ref {E s f x} _.
Arguments fo_parent {E s f x} _.
Arguments fo_readers {E s f x} _.
Arguments ti_file {E s} _.
Arguments ti_owner {E s} _.
Arguments ti_root {E s} _.
Arguments ti_ext {E s} _.
Arguments ti_free {E s} _.
Arguments ti_brk_files {E s} _.
Arguments ti_brk_cells {E s} _.
Arguments ti_brk_rdirs {E s} _.
Arguments ti_leak {E s} _.
Arguments ti_rdir {E s} _.

(** Only the values of [E] matter. *)
#[export] Instance tree_inv_proper :
  Proper (pointwise_relation Z eq ==> eq ==> iff) tree_inv.
Proof.
  assert (H : forall E E' s, pointwise_relation Z eq E E' -> tree_inv E s -> tree_inv E' s).
  { intros E E' s HE [H1 H2 H3 H4 H5 H6 H7 H8 H9 H10].
    split; try done.
    - intros f x Hf. destruct (H1 f x Hf). split; try done. by rewrite <- HE.
    - intros f. rewrite <- HE. apply H4.
    - intros r rd Hr. rewrite <- HE. by eapply H10. }
  intros E E' HE s ? <-. split; apply H; [done|]. intros f. by rewrite HE.
Qed.

Lemma bump_same E f d : bump E f d f = E f + d.
Proof. unfold bump. rewrite decide_True by done. done. Qed.
Lemma bump_other E f d g : g <> f -> bump E f d g = E g.
Proof. intros. unfold bump. rewrite decide_False by done. lia. Qed.
Lemma bump_comm E f a g b :
  pointwise_relation Z eq (bump (bump E f a) g b) (bump (bump E g b) f a).
Proof. intros h. unfold bump. lia. Qed.

Lemma tree_inv_ext E E' s : (forall g, E g = E' g) -> tree_inv E s -> tree_inv E' s.
Proof. intros H HI. by rewrite <- (H : pointwise_relation Z eq E E'). Qed.
(** Two descriptions of the same references. *)
Ltac same_refs := intros ?; unfold bump; repeat destruct (decide _); subst; try done; lia.

(** * Changes that keep a file's place in the tree *)

Definition same_shape (x x' : File) : Prop :=
  x'.(parent) = x.(parent) /\ x'.(filelist) = x.(filelist) /\ x'.(nchild) = x.(nchild) /\
  x'.(nxchild) = x.(nxchild) /\ x'.(readers) = x.(readers) /\
  st_name x'.(fdir) = st_name x.(fdir).

Lemma inv_update E s f x x' d :
  tree_inv E s -> s.(files) !! f = Some x -> same_shape x x' -> x'.(ref) = x.(ref) + d ->
  0 <= E f + d -> 0 < x'.(ref) ->
  (forall r rd, s.(rdirs) !! r = Some rd -> rd.(rd_dir) = f -> 1 <= E f + d) ->
  tree_inv (bump E f d) (set_files (<[f := x']> s.(files)) s).
Proof.
  intros [H1 H2 H3 H4 H5 H6 H7 H8 H9 H10] Hf (S1&S2&S3&S4&S5&S6) Hr He Hpos Hrd.
  assert (Hlk : forall g y, <[f := x']> s.(files) !! g = Some y ->
    exists y0, s.(files) !! g = Some y0 /\ same_shape y0 y).
  { intros g y [[<- <-]|[_ Hg]]%lookup_insert_Some; [exists x|exists y]; unfold same_shape; auto 8. }
  assert (Hback : forall g y0, s.(files) !! g = Some y0 ->
    exists y, <[f := x']> s.(files) !! g = Some y /\ same_shape y0 y).
  { intros g y0 Hg. destruct (decide (g = f)) as [->|Hne].
    - rewrite lookup_insert_eq. exists x'. assert (y0 = x) as -> by congruence. unfold same_shape. auto 8.
    - rewrite lookup_insert_ne by done. exists y0. unfold same_shape. auto 8. }
  split; simpl.
  - intros g y Hg. destruct (Hlk g y Hg) as (y0&Hg0&(T1&T2&T3&T4&T5&T6)).
    destruct (H1 g y0 Hg0) as [F1 F2 F3 F4 F5 F6 F7 F8].
    split; simpl; rewrite ?T1, ?T2, ?T3, ?T4, ?T5; try done.
    + split; [apply F2|]. intros k Hk. destruct (proj2 F2 k Hk) as (?&y1&Hy1&Hp1). split; [done|].
      destruct (Hback k y1 Hy1) as (y2&Hy2&(U1&_)). exists y2. split; [done|]. congruence.
    + intros g1 g2 z1 z2 K1 K2 (w1&Hw1&(_&_&_&_&_&V1))%Hlk (w2&Hw2&(_&_&_&_&_&V2))%Hlk Hn.
      eapply F3; [exact K1|exact K2|exact Hw1|exact Hw2|congruence].
    + unfold tree_ref. rewrite T1. fold (tree_ref y0).
      apply lookup_insert_Some in Hg as [[<- <-]|[Hne Hg]].
      * rewrite bump_same. assert (y0 = x) as -> by congruence. lia.
      * assert (y = y0) as -> by congruence. by rewrite bump_other by congruence.
    + destruct (parent y0) as [p|]; [|done]. destruct F7 as [?|(?&?&y1&Hy1&Hk)]; [by left|right].
      split; [done|]. split; [done|]. destruct (Hback p y1 Hy1) as (y2&Hy2&(_&U2&_)). exists y2. by rewrite U2.
  - intros p q y z c (y0&Hy0&(_&T2&_))%Hlk (z0&Hz0&(_&U2&_))%Hlk. rewrite T2, U2. by apply (H2 p q y0 z0).
  - destruct H3 as (y0&Hy0&Hp). destruct (Hback _ _ Hy0) as (y&Hy&(T1&_)). exists y. split; congruence.
  - intros g. destruct (H4 g) as [G1 G2]. destruct (decide (g = f)) as [->|Hne].
    + rewrite bump_same, lookup_insert_eq. eauto.
    + rewrite bump_other, lookup_insert_ne by done. done.
  - split; [apply H5|]. intros a Ha. destruct (proj2 H5 a Ha). rewrite lookup_insert_ne; [done|].
    intros ->. congruence.
  - intros g [y (y0&Hy0&_)%Hlk]. apply H6. eauto.
  - done.
  - done.
  - intros c Hc. destruct (H9 c Hc) as (g&y0&Hy0&Hin). destruct (Hback g y0 Hy0) as (y&Hy&(_&T2&_)).
    exists g, y. by rewrite T2.
  - intros r rd Hrr. destruct (H10 r rd Hrr) as [R1 R2]. split.
    + destruct (decide (rd_dir rd = f)) as [Heq|Hne]; [rewrite Heq, bump_same; eauto|].
      by rewrite bump_other.
    + intros y c (y0&Hy0&(_&T2&_))%Hlk Hc. rewrite T2. by eapply R2.
Qed.

(** * Lists of cells *)

Lemma kids_elem cl l g : g ∈ kids cl l <-> exists c, c ∈ l /\ cl !! c = Some (Some g).
Proof.
  unfold kids. rewrite list_elem_of_omap. split.
  - intros (c&Hc&Hj). exists c. split; [done|]. destruct (cl !! c) as [[]|]; simpl in Hj; congruence.
  - intros (c&Hc&Hj). exists c. split; [done|]. by rewrite Hj.
Qed.

Lemma kids_cons cl c l :
  kids cl (c :: l) = match cl !! c with Some (Some g) => g :: kids cl l | _ => kids cl l end.
Proof. unfold kids. simpl. by destruct (cl !! c) as [[]|]. Qed.

Lemma kids_app cl l k : kids cl (l ++ k) = kids cl l ++ kids cl k.
Proof. apply omap_app. Qed.

Lemma kids_agree cl cl' l : (forall c, c ∈ l -> cl' !! c = cl !! c) -> kids cl' l = kids cl l.
Proof.
  induction l as [|c l IH]; intros H; [done|]. rewrite !kids_cons, (H c), IH by set_solver. done.
Qed.

Lemma kids_nil_all_empty cl l : (forall c, c ∈ l -> is_Some (cl !! c)) -> kids cl l = [] ->
  forall c, c ∈ l -> cl !! c = Some None.
Proof.
  intros Hl Hk c Hc. destruct (Hl c Hc) as [[g|] Hg]; [|done]. exfalso.
  assert (g ∈ kids cl l) as Hin by (apply kids_elem; eauto). rewrite Hk in Hin. by apply elem_of_nil in Hin.
Qed.

Lemma kids_zlen_le cl l : 0 <= Zlen (kids cl l) <= Zlen l.
Proof.
  induction l as [|c l IH]; [done|]. rewrite kids_cons.
  destruct (cl !! c) as [[g|]|]; rewrite ?Zlen_cons; lia.
Qed.

(** Fold a deletion of several keys. *)
Definition delcells (l : list Z) (cl : gmap Z (option Z)) : gmap Z (option Z) := foldr delete cl l.

Lemma lookup_delcells l cl c : delcells l cl !! c = if decide (c ∈ l) then None else cl !! c.
Proof.
  induction l as [|d l IH]; simpl; [destruct (decide (c ∈ [])); set_solver|].
  destruct (decide (c = d)) as [->|Hne].
  - rewrite lookup_delete_eq. destruct (decide (d ∈ d :: l)); set_solver.
  - rewrite lookup_delete_ne, IH by done.
    destruct (decide (c ∈ l)), (decide (c ∈ d :: l)); set_solver.
Qed.

Lemma delcells_delete l cl c : c ∉ l -> delcells l (delete c cl) = delcells (c :: l) cl.
Proof.
  intros Hc. apply map_eq. intros d. rewrite !lookup_delcells.
  destruct (decide (d = c)) as [->|Hne].
  - rewrite lookup_delete_eq. destruct (decide (c ∈ l)), (decide (c ∈ c :: l)); set_solver.
  - rewrite lookup_delete_ne by done. destruct (decide (d ∈ l)), (decide (d ∈ c :: l)); set_solver.
Qed.

Lemma set_cells_cells a b s : set_cells a (set_cells b s) = set_cells a s.
Proof. done. Qed.
Lemma set_cells_self s : set_cells s.(cells) s = s.
Proof. by destruct s. Qed.

(** Freeing a list all of whose cells are empty. *)
Lemma freecells_run l : forall s, NoDup l -> (forall c, c ∈ l -> s.(cells) !! c = Some None) ->
  freecells l s = Ok (tt, set_cells (delcells l s.(cells)) s).
Proof.
  induction l as [|c l IH]; intros s Hnd Hl; cbn [freecells]; [by destruct s|].
  apply list.NoDup_cons in Hnd as [Hc Hnd].
  erewrite eff_bind_ok by (apply deref_run, Hl; set_solver). cbv beta iota.
  cbn [assertb]. eff_prim. unfold freecell. eff_prim.
  rewrite IH; [|done|].
  - simpl. by rewrite delcells_delete, set_cells_cells.
  - intros d Hd. simpl. rewrite lookup_delete_ne by set_solver. apply Hl. set_solver.
Qed.

(** * References *)

Lemma incref_run f s x : s.(files) !! f = Some x ->
  incref f s = Ok (tt, set_files (<[f := with_ref (x.(ref) + 1) x]> s.(files)) s).
Proof. intros H. unfold incref. eff_prim. done. Qed.

Lemma incref_inv E s f x : tree_inv E s -> s.(files) !! f = Some x ->
  exists s', incref f s = Ok (tt, s') /\ tree_inv (bump E f 1) s'.
Proof.
  intros HI Hf. eexists. split; [by apply incref_run|].
  destruct (fo_ref (ti_file HI f x Hf)) as [_ ?]. pose proof (ti_ext HI f) as [? _].
  eapply inv_update; [done|done|by repeat split|done|lia|simpl; lia|intros; lia].
Qed.

(** A file no one refers to leaves the store with its cells. *)
Lemma inv_free E s f x :
  tree_inv E s -> s.(files) !! f = Some x -> E f = 1 -> x.(parent) = None -> x.(nchild) = 0 ->
  (forall r rd, s.(rdirs) !! r = Some rd -> rd.(rd_dir) <> f) ->
  tree_inv (bump E f (-1))
    (set_files (delete f s.(files))
      (set_cells (delcells x.(filelist) s.(cells))
        (set_freefilelist ((f, x.(allocd)) :: s.(freefilelist)) s))).
Proof.
  intros HI Hf HE Hp Hn Hrd. pose proof HI as [H1 H2 H3 H4 H5 H6 H7 H8 H9 H10].
  pose proof (H1 f x Hf) as Fx.
  assert (Hkx : kids (cells s) (filelist x) = []).
  { pose proof (fo_nchild Fx) as Hnc. rewrite Hn in Hnc. destruct (kids _ _); [done|].
    rewrite Zlen_cons in Hnc. zpos. lia. }
  assert (Hfr : f <> root s) by (pose proof (fo_parent Fx) as Hpp; by rewrite Hp in Hpp).
  assert (Hnp : forall g y, s.(files) !! g = Some y -> y.(parent) <> Some f).
  { intros g y Hg Hpg. pose proof (fo_parent (H1 g y Hg)) as Hpp. rewrite Hpg in Hpp.
    destruct Hpp as [[_ ?]|(_&_&z&Hz&Hin)]; [done|]. assert (z = x) as -> by congruence.
    rewrite Hkx in Hin. by apply elem_of_nil in Hin. }
  assert (Hsub : forall g y, delete f s.(files) !! g = Some y -> g <> f /\ s.(files) !! g = Some y).
  { intros g y Hg. apply lookup_delete_Some in Hg as [? ?]. done. }
  assert (Hk : forall g y, g <> f -> s.(files) !! g = Some y ->
    forall c, c ∈ filelist y -> delcells (filelist x) (cells s) !! c = cells s !! c).
  { intros g y Hne Hg c Hc. rewrite lookup_delcells, decide_False; [done|].
    intros Hcx. apply Hne. by eapply (H2 g f). }
  assert (Hks : forall g y, g <> f -> s.(files) !! g = Some y ->
    kids (delcells (filelist x) (cells s)) (filelist y) = kids (cells s) (filelist y)).
  { intros. eapply kids_agree. by eapply Hk. }
  split; simpl.
  - intros g y (Hne&Hg)%Hsub. destruct (H1 g y Hg) as [F1 F2 F3 F4 F5 F6 F7 F8].
    split; simpl; rewrite ?(Hks g y Hne Hg); try done.
    + split; [apply F1|]. intros c Hc. rewrite (Hk g y) by done. by apply F1.
    + split; [apply F2|]. intros k Hkk. destruct (proj2 F2 k Hkk) as (?&z&Hz&Hpz). split; [done|].
      exists z. split; [|done]. rewrite lookup_delete_ne; [done|]. intros ->. congruence.
    + intros g1 g2 z1 z2 K1 K2 (_&Z1)%Hsub (_&Z2)%Hsub. by apply F3.
    + by rewrite bump_other.
    + destruct (parent y) as [p|] eqn:Ep; [|done]. destruct F7 as [?|(?&?&z&Hz&Hin)]; [by left|right].
      split; [done|]. split; [done|]. assert (p <> f) by (intros ->; by apply (Hnp g y)). exists z.
      rewrite lookup_delete_ne by done. split; [done|]. by rewrite (Hks p z).
  - intros p q y z c (?&Hy)%Hsub (?&Hz)%Hsub. by apply (H2 p q y z).
  - destruct H3 as (y&Hy&Hpy). exists y. by rewrite lookup_delete_ne.
  - intros g. destruct (H4 g) as [G1 G2]. destruct (decide (g = f)) as [->|Hne].
    + rewrite bump_same. split; lia.
    + rewrite bump_other, lookup_delete_ne by done. done.
  - assert (Hnf : f ∉ (freefilelist s).*1) by (intros Hin; destruct (proj2 H5 f Hin); congruence).
    split; [by constructor; [|apply H5]|].
    intros a [->|Ha]%elem_of_cons; [split; [apply lookup_delete_eq|apply H6; eauto]|].
    destruct (proj2 H5 a Ha). rewrite lookup_delete_ne; [done|]. by intros ->.
  - intros g [y (_&Hy)%Hsub]. apply H6. eauto.
  - intros c [o Ho]. rewrite lookup_delcells in Ho. destruct (decide _); [done|]. apply H7. eauto.
  - done.
  - intros c [o Ho]. rewrite lookup_delcells in Ho. destruct (decide _) as [|Hc]; [done|].
    destruct (H9 c ltac:(eauto)) as (g&y&Hy&Hin). exists g, y. split; [|done].
    rewrite lookup_delete_ne; [done|]. intros ->. congruence.
  - intros r rd Hr. destruct (H10 r rd Hr) as [R1 R2]. rewrite bump_other by by eapply Hrd.
    split; [done|]. intros y c (_&Hy)%Hsub. by apply R2.
Qed.

(** What only logs or reports leaves the invariant alone. *)
Lemma inv_destroyed E s l : tree_inv E s <-> tree_inv E (set_destroyed l s).
Proof.
  split; intros [H1 H2 H3 H4 H5 H6 H7 H8 H9 H10]; split; try done;
    intros f x Hf; destruct (H1 f x Hf); by split.
Qed.
Lemma inv_errstr E s l : tree_inv E s -> tree_inv E (set_errstr l s).
Proof.
  intros [H1 H2 H3 H4 H5 H6 H7 H8 H9 H10]; split; try done;
    intros f x Hf; destruct (H1 f x Hf); by split.
Qed.

(** Dropping a reference one holds. *)
Lemma closefile_inv E s f :
  tree_inv E s -> 1 <= E f ->
  (forall r rd, s.(rdirs) !! r = Some rd -> rd.(rd_dir) = f -> 2 <= E f) ->
  exists s', closefile f s = Ok (tt, s') /\ tree_inv (bump E f (-1)) s' /\
    s'.(rdirs) = s.(rdirs) /\ s'.(root) = s.(root).
Proof.
  intros HI HE Hrd. destruct (proj2 (ti_ext HI f)) as [x Hf]; [lia|].
  pose proof (ti_file HI f x Hf) as Fx. destruct (fo_ref Fx) as [Hr Hr0].
  unfold closefile, decref. erewrite eff_bind_ok.
  2: { eff_prim. unfold putfile. eff_prim. reflexivity. }
  cbv beta. destruct (Z.eqb_spec (ref x - 1) 0) as [Hz|Hnz].
  - pose proof (kids_zlen_le (cells s) (filelist x)) as Hkl. rewrite <- (fo_nchild Fx) in Hkl.
    assert (Hpn : parent x = None) by (unfold tree_ref in Hr; destruct (parent x); [lia|done]).
    assert (Hx0 : nchild x = 0) by (unfold tree_ref in Hr; rewrite Hpn in Hr; lia).
    assert (HE1 : E f = 1) by (unfold tree_ref in Hr; rewrite Hpn in Hr; lia).
    assert (Hkn : kids (cells s) (filelist x) = []).
    { pose proof (fo_nchild Fx) as Hnc. rewrite Hx0 in Hnc. destruct (kids _ _); [done|].
      rewrite Zlen_cons in Hnc. zpos. lia. }
    unfold treedestroy, freefile. eff_prim.
    erewrite eff_bind_ok by (apply deref_run; simpl; apply lookup_insert_eq). cbv beta. simpl filelist.
    erewrite eff_bind_ok.
    2: { apply freecells_run; [apply Fx|]. simpl. apply kids_nil_all_empty; [apply Fx|done]. }
    cbv beta. erewrite eff_bind_ok by (apply deref_run; simpl; apply lookup_insert_eq). cbv beta.
    simpl ref. rewrite (proj2 (Z.eqb_eq _ 0)) by lia. cbn [assertb]. eff_prim. eff_prim.
    rewrite modify_run. eexists. split; [reflexivity|]. split; [|done].
    assert (Hfin : tree_inv (bump E f (-1))
      (set_files (delete f s.(files)) (set_cells (delcells x.(filelist) s.(cells))
        (set_freefilelist ((f, x.(allocd)) :: s.(freefilelist)) s)))).
    { apply inv_free; [done..|]. intros r rd Hrr Heq. specialize (Hrd r rd Hrr Heq). lia. }
    apply (inv_destroyed _ _ (destroyed s ++ [f])) in Hfin. unfold set_files. simpl.
    rewrite delete_insert_eq. exact Hfin.
  - eexists. split; [reflexivity|]. split; [|done].
    eapply inv_update; [done|done|by repeat split|done|lia|simpl; lia|].
    intros r rd Hrr Heq. specialize (Hrd r rd Hrr Heq). lia.
Qed.

(** * Walking *)

Lemma findname_run E s f x : tree_inv E s -> s.(files) !! f = Some x -> forall e l,
  (forall c, c ∈ l -> c ∈ x.(filelist)) ->
  (findname l e s = Ok (None, s) /\
     forall g y, g ∈ kids s.(cells) l -> s.(files) !! g = Some y -> st_name y.(fdir) <> e) \/
  (exists g y, g ∈ kids s.(cells) l /\ s.(files) !! g = Some y /\ st_name y.(fdir) = e /\
     findname l e s = Ok (Some g, set_files (<[g := with_ref (y.(ref) + 1) y]> s.(files)) s)).
Proof.
  intros HI Hf e l. pose proof (ti_file HI f x Hf) as Fx.
  induction l as [|c l IH]; intros Hl; cbn [findname].
  { left. split; [done|]. intros g y Hg. by apply elem_of_nil in Hg. }
  destruct (proj2 (fo_cells Fx) c (Hl c ltac:(set_solver))) as [[g|] Ho]; rewrite kids_cons, Ho.
  - destruct (proj2 (fo_kids Fx) g) as (_&y&Hy&_).
    { apply kids_elem. exists c. split; [apply Hl; set_solver|done]. }
    eff_prim. eff_prim. destruct (decide (st_name (fdir y) = e)) as [He|He].
    + right. exists g, y. split_and!; [set_solver|done..|].
      erewrite eff_bind_ok by (by apply incref_run). done.
    + destruct IH as [[E1 E2]|(g'&y'&?&?&?&E1)]; [set_solver|left|right].
      * split; [done|]. intros g' y' [->|Hg']%elem_of_cons Hy'; [congruence|by eapply E2].
      * exists g', y'. split_and!; [set_solver|done..].
  - eff_prim. apply IH. set_solver.
Qed.

(** A walk element other than [".."] finds the child of that name, if any, and
    moves the caller's reference to it. *)
Lemma walkfile1_inv E s dir x e :
  tree_inv E s -> s.(files) !! dir = Some x -> e <> str ".." -> 1 <= E dir ->
  (forall r rd, s.(rdirs) !! r = Some rd -> rd.(rd_dir) = dir -> 2 <= E dir) ->
  exists r s', walkfile1 dir e s = Ok (r, s') /\ s'.(rdirs) = s.(rdirs) /\
    match r with
    | Some g => tree_inv (bump (bump E dir (-1)) g 1) s' /\
        exists y, g ∈ kids s.(cells) x.(filelist) /\ s.(files) !! g = Some y /\ st_name y.(fdir) = e
    | None => tree_inv (bump E dir (-1)) s' /\
        forall g y, g ∈ kids s.(cells) x.(filelist) -> s.(files) !! g = Some y -> st_name y.(fdir) <> e
    end.
Proof.
  intros HI Hd He HE Hrd. unfold walkfile1. eff_prim. rewrite decide_False by done.
  destruct (findname_run E s dir x HI Hd e (filelist x)) as [[E1 E2]|(g&y&Hg&Hy&Hn&E1)]; [done| |].
  - eff_with E1. destruct (closefile_inv E s dir HI HE Hrd) as (s'&E3&HI'&Hr&_).
    eff_with E3. exists None, s'. split_and!; done.
  - eff_with E1. destruct (incref_inv E s g y HI Hy) as (s1&E2&HI1).
    rewrite (incref_run g s y Hy) in E2. injection E2 as Es1.
    destruct (closefile_inv (bump E g 1) s1 dir) as (s'&E3&HI'&Hr&_); [done| | |].
    { unfold bump. destruct (decide _); lia. }
    { intros r rd Hr Heq. rewrite <- Es1 in Hr. specialize (Hrd r rd Hr Heq).
      unfold bump. destruct (decide _); lia. }
    rewrite Es1. eff_with E3. exists (Some g), s'. split; [done|]. split; [by rewrite Hr, <- Es1|].
    split; [by rewrite bump_comm|]. eauto.
Qed.

(** [".."] of a file that is still in the tree is its parent. *)
Lemma walkup_inv E s dir x p :
  tree_inv E s -> s.(files) !! dir = Some x -> x.(parent) = Some p -> 1 <= E dir ->
  (forall r rd, s.(rdirs) !! r = Some rd -> rd.(rd_dir) = dir -> 2 <= E dir) ->
  exists s', walkfile1 dir (str "..") s = Ok (Some p, s') /\ s'.(rdirs) = s.(rdirs) /\
    tree_inv (bump (bump E dir (-1)) p 1) s'.
Proof.
  intros HI Hd Hp HE Hrd. unfold walkfile1. eff_prim. rewrite decide_True, Hp by done.
  cbn [nonnil]. eff_prim.
  assert (Hlive : exists y, s.(files) !! p = Some y).
  { pose proof (fo_parent (ti_file HI dir x Hd)) as Hpp. rewrite Hp in Hpp.
    destruct Hpp as [[-> ->]|(_&_&y&Hy&_)]; eauto. }
  destruct Hlive as [y Hy]. destruct (incref_inv E s p y HI Hy) as (s1&E2&HI1).
  eff_with E2. rewrite (incref_run p s y Hy) in E2. injection E2 as Es1.
  destruct (closefile_inv (bump E p 1) s1 dir) as (s'&E3&HI'&Hr&_); [done| | |].
  { unfold bump. destruct (decide _); lia. }
  { intros r rd Hr Heq. rewrite <- Es1 in Hr. specialize (Hrd r rd Hr Heq).
    unfold bump. destruct (decide _); lia. }
  eff_with E3. exists s'. split_and!; [done|by rewrite Hr, <- Es1|]. by rewrite bump_comm.
Qed.

(** * Directory lists *)

Lemma nreaders_0 rs f : nreaders rs f = 0 -> forall r rd, rs !! r = Some rd -> rd.(rd_dir) <> f.
Proof.
  unfold nreaders. intros Hs r rd Hr Heq.
  assert (Hz : size (filter (fun p : Z * Readdir => rd_dir p.2 = f) rs) = 0%nat) by lia.
  apply map_size_empty_inv in Hz. apply (f_equal (fun m => m !! r)) in Hz.
  rewrite lookup_empty in Hz. by rewrite (map_lookup_filter_Some_2 _ _ r rd) in Hz.
Qed.

Definition livecells (cl : gmap Z (option Z)) (l : list Z) : list Z :=
  filter (fun c => cl !! c <> Some None) l.
Definition emptycells (cl : gmap Z (option Z)) (l : list Z) : list Z :=
  filter (fun c => cl !! c = Some None) l.

Lemma filter_agree (P Q : Z -> Prop) `{forall x, Decision (P x)} `{forall x, Decision (Q x)} (l : list Z) :
  (forall d, d ∈ l -> P d <-> Q d) -> filter P l = filter Q l.
Proof.
  induction l as [|d l IH]; intros Hl; [done|]. rewrite !filter_cons, IH by set_solver.
  pose proof (Hl d ltac:(set_solver)). destruct (decide (P d)), (decide (Q d)); tauto.
Qed.

Lemma cleancells_run l : forall s, NoDup l -> (forall c, c ∈ l -> is_Some (s.(cells) !! c)) ->
  cleancells l s = Ok (livecells s.(cells) l,
    set_cells (delcells (emptycells s.(cells) l) s.(cells)) s).
Proof.
  induction l as [|c l IH]; intros s Hnd Hl; cbn [cleancells]; [by destruct s|].
  apply list.NoDup_cons in Hnd as [Hc Hnd]. destruct (Hl c ltac:(set_solver)) as [o Ho].
  unfold livecells, emptycells. rewrite !filter_cons. eff_prim. destruct o as [g|].
  - rewrite decide_True, decide_False by congruence.
    erewrite eff_bind_ok by (apply IH; [done|set_solver]). cbv beta. done.
  - rewrite decide_False, decide_True by (rewrite Ho; tauto). unfold freecell. eff_prim.
    assert (Hag : forall d, d ∈ l -> delete c s.(cells) !! d = s.(cells) !! d)
      by (intros d Hd; apply lookup_delete_ne; set_solver).
    rewrite IH; [|done|].
    2: { intros d Hd. simpl. rewrite Hag by done. apply Hl. set_solver. }
    simpl. rewrite set_cells_cells. unfold livecells, emptycells.
    assert (E1 : filter (fun d => delete c s.(cells) !! d <> Some None) l =
                 filter (fun d => s.(cells) !! d <> Some None) l)
      by (apply filter_agree; intros d Hd; by rewrite Hag).
    assert (E2 : filter (fun d => delete c s.(cells) !! d = Some None) l =
                 filter (fun d => s.(cells) !! d = Some None) l)
      by (apply filter_agree; intros d Hd; by rewrite Hag).
    rewrite E1, E2, delcells_delete; [done|]. rewrite list_elem_of_filter. tauto.
Qed.

Lemma kids_livecells cl l : kids cl (livecells cl l) = kids cl l.
Proof.
  induction l as [|c l IH]; [done|]. unfold livecells in *. rewrite filter_cons, kids_cons.
  destruct (decide (cl !! c <> Some None)) as [Hd|Hd].
  - rewrite kids_cons, IH. done.
  - rewrite IH. destruct (cl !! c) as [[]|]; [destruct Hd; congruence|done|done].
Qed.

Lemma Zlen_livecells cl l : (forall c, c ∈ l -> is_Some (cl !! c)) ->
  Zlen (livecells cl l) = Zlen (kids cl l).
Proof.
  induction l as [|c l IH]; intros Hl; [done|]. unfold livecells in *. rewrite filter_cons, kids_cons.
  destruct (Hl c ltac:(set_solver)) as [[g|] Ho].
  - rewrite decide_True, Ho, !Zlen_cons, IH by (congruence || set_solver). done.
  - rewrite decide_False, Ho, IH by (rewrite ?Ho; (tauto || set_solver)). done.
Qed.

Lemma elem_livecells cl l c : c ∈ livecells cl l <-> c ∈ l /\ cl !! c <> Some None.
Proof. unfold livecells. rewrite list_elem_of_filter. tauto. Qed.
Lemma elem_emptycells cl l c : c ∈ emptycells cl l <-> c ∈ l /\ cl !! c = Some None.
Proof. unfold emptycells. rewrite list_elem_of_filter. tauto. Qed.

(** Replacing one directory's list by another with the same children, and the
    store of cells by one that agrees on all lists. *)
Lemma inv_relist E s f x l' cl' n' :
  tree_inv E s -> s.(files) !! f = Some x ->
  NoDup l' -> (forall c, c ∈ l' -> c ∈ x.(filelist)) -> n' = Zlen l' - Zlen (kids cl' l') ->
  (forall c, c ∈ l' -> cl' !! c = s.(cells) !! c) -> kids cl' l' = kids s.(cells) x.(filelist) ->
  (forall c, c ∉ x.(filelist) -> cl' !! c = s.(cells) !! c) ->
  (forall c, is_Some (cl' !! c) -> c ∈ x.(filelist) -> c ∈ l') ->
  (forall r rd, s.(rdirs) !! r = Some rd -> rd.(rd_dir) <> f) ->
  tree_inv E (set_files (<[f := with_list l' x.(nchild) n' x]> s.(files)) (set_cells cl' s)).
Proof.
  intros HI Hf Hnd Hsub Hn Hag Hk Hout Hin Hrd. pose proof HI as [H1 H2 H3 H4 H5 H6 H7 H8 H9 H10].
  assert (Hlk : forall g y, <[f := with_list l' x.(nchild) n' x]> s.(files) !! g = Some y ->
    exists y0, s.(files) !! g = Some y0 /\ y.(parent) = y0.(parent) /\ fdir y = fdir y0 /\
      kids cl' y.(filelist) = kids s.(cells) y0.(filelist) /\
      (forall c, c ∈ y.(filelist) -> c ∈ y0.(filelist) /\ cl' !! c = s.(cells) !! c)).
  { intros g y [[<- <-]|[Hne Hg]]%lookup_insert_Some; [exists x; simpl; split_and!; auto|].
    assert (Hay : forall c, c ∈ filelist y -> cl' !! c = s.(cells) !! c).
    { intros c Hc. apply Hout. intros Hcx. apply Hne. by eapply (H2 f g x y c). }
    exists y. split_and!; auto using kids_agree. }
  assert (Hback : forall g y0, s.(files) !! g = Some y0 -> exists y,
    <[f := with_list l' x.(nchild) n' x]> s.(files) !! g = Some y /\ y.(parent) = y0.(parent) /\
    kids cl' y.(filelist) = kids s.(cells) y0.(filelist) /\
    (forall c, is_Some (cl' !! c) -> c ∈ y0.(filelist) -> c ∈ y.(filelist))).
  { intros g y0 Hg. destruct (decide (g = f)) as [->|Hne].
    - rewrite lookup_insert_eq. assert (y0 = x) as -> by congruence. eexists. split; [done|]. simpl. auto.
    - destruct (Hlk g y0) as (?&?&?&?&?&?); [by rewrite lookup_insert_ne|].
      rewrite lookup_insert_ne by done. exists y0. split_and!; auto. congruence. }
  split; simpl.
  - intros g y Hg. destruct (Hlk g y Hg) as (y0&Hg0&T1&T2&T3&T4).
    destruct (H1 g y0 Hg0) as [F1 F2 F3 F4 F5 F6 F7 F8].
    apply lookup_insert_Some in Hg as [[<- <-]|[Hne Hg]].
    + assert (y0 = x) as -> by congruence. simpl in *. split; simpl; rewrite ?Hk; try done.
      * split; [done|]. intros c Hc. rewrite Hag by done. apply F1. auto.
      * split; [apply F2|]. intros k Hkk. destruct (proj2 F2 k Hkk) as (?&z&Hz&Hpz). split; [done|].
        destruct (Hback k z Hz) as (z'&Hz'&Hp'&_). exists z'. split; [done|congruence].
      * intros g1 g2 z1 z2 K1 K2 (w1&Hw1&_&V1&_)%Hlk (w2&Hw2&_&V2&_)%Hlk.
        rewrite V1, V2. by apply F3.
      * by rewrite <- Hk.
      * destruct (parent x) as [p|]; [|done]. destruct F7 as [?|(?&?&z&Hz&Hkz)]; [by left|right].
        split; [done|]. split; [done|]. destruct (Hback p z Hz) as (z'&Hz'&_&Hk'&_). exists z'. by rewrite Hk'.
    + assert (y = y0) as -> by congruence. split; simpl; rewrite ?T3; try done.
      * split; [apply F1|]. intros c Hc. rewrite (proj2 (T4 c Hc)). by apply F1.
      * split; [apply F2|]. intros k Hkk. destruct (proj2 F2 k Hkk) as (?&z&Hz&Hpz). split; [done|].
        destruct (Hback k z Hz) as (z'&Hz'&Hp'&_). exists z'. split; [done|congruence].
      * intros g1 g2 z1 z2 K1 K2 (w1&Hw1&_&V1&_)%Hlk (w2&Hw2&_&V2&_)%Hlk.
        rewrite V1, V2. by apply F3.
      * destruct (parent y0) as [p|]; [|done]. destruct F7 as [?|(?&?&z&Hz&Hkz)]; [by left|right].
        split; [done|]. split; [done|]. destruct (Hback p z Hz) as (z'&Hz'&_&Hk'&_). exists z'. by rewrite Hk'.
  - intros p q y z c (y0&Hy0&_&_&_&Ty)%Hlk (z0&Hz0&_&_&_&Tz)%Hlk Cy Cz.
    eapply H2; [exact Hy0|exact Hz0|by apply Ty|by apply Tz].
  - destruct H3 as (y0&Hy0&Hp). destruct (Hback _ _ Hy0) as (y&Hy&Hp'&_). exists y. split; congruence.
  - intros g. destruct (H4 g) as [G1 G2]. split; [done|]. intros Hg. destruct (G2 Hg) as [y0 Hy0].
    destruct (Hback g y0 Hy0) as (y&Hy&_). eauto.
  - split; [apply H5|]. intros a Ha. destruct (proj2 H5 a Ha). rewrite lookup_insert_ne; [done|].
    intros ->. congruence.
  - intros g [y (y0&Hy0&_)%Hlk]. apply H6. eauto.
  - intros c Hc. destruct (decide (c ∈ filelist x)) as [Hcx|Hcx].
    + apply H7. by apply (fo_cells (H1 f x Hf)).
    + apply H7. by rewrite <- (Hout c Hcx).
  - done.
  - intros c Hc. destruct (decide (c ∈ filelist x)) as [Hcx|Hcx].
    + exists f. eexists. rewrite lookup_insert_eq. split; [done|]. simpl. auto.
    + rewrite (Hout c Hcx) in Hc. destruct (H9 c Hc) as (g&y0&Hy0&Hcy).
      destruct (decide (g = f)) as [->|Hne]; [congruence|]. exists g, y0. by rewrite lookup_insert_ne.
  - intros r rd Hr. destruct (H10 r rd Hr) as [R1 R2]. split; [done|]. intros y c.
    rewrite lookup_insert_ne by (intros ->; by eapply Hrd). apply R2.
Qed.

(** Cleaning is invisible: the children stay, in order. *)
Lemma cleanfilelist_inv E s f x : tree_inv E s -> s.(files) !! f = Some x ->
  exists s', cleanfilelist f s = Ok (tt, s') /\ tree_inv E s' /\ s'.(rdirs) = s.(rdirs) /\
    s'.(root) = s.(root) /\ (forall g, g <> f -> s'.(files) !! g = s.(files) !! g).
Proof.
  intros HI Hf. pose proof (ti_file HI f x Hf) as Fx. unfold cleanfilelist. eff_prim.
  destruct (Z.eqb_spec (readers x) 0) as [Hr|]; cbn [negb]; [|eauto 10].
  destruct (Z.eqb_spec (nxchild x) 0) as [Hx|]; [eauto 10|].
  erewrite eff_bind_ok by (apply cleancells_run; apply Fx). cbv beta.
  unfold putfile. rewrite modify_run. eexists. split; [reflexivity|].
  split; [|split_and!; [done..|by intros g Hg; apply lookup_insert_ne]].
  assert (Hl : forall c, c ∈ livecells (cells s) (filelist x) ->
    delcells (emptycells (cells s) (filelist x)) (cells s) !! c = cells s !! c).
  { intros c [Hc1 Hc2]%elem_livecells. rewrite lookup_delcells, decide_False; [done|].
    rewrite elem_emptycells. tauto. }
  apply (inv_relist E s f x); try done.
  - apply list.NoDup_filter, Fx.
  - intros c. rewrite elem_livecells. tauto.
  - rewrite (kids_agree (cells s)), kids_livecells by done.
    rewrite Zlen_livecells by apply Fx. lia.
  - by rewrite (kids_agree (cells s)), kids_livecells.
  - intros c Hc. rewrite lookup_delcells, decide_False; [done|]. rewrite elem_emptycells. tauto.
  - intros c Hc Hcx. rewrite lookup_delcells in Hc. destruct (decide _) as [|Hne]; [by destruct Hc|].
    apply elem_livecells. rewrite elem_emptycells in Hne. tauto.
  - apply nreaders_0. rewrite <- (fo_readers Fx). done.
Qed.

(** * Removing *)

Lemma findcell_run E s p y f : tree_inv E s -> s.(files) !! p = Some y -> forall l,
  (forall c, c ∈ l -> c ∈ y.(filelist)) -> f ∈ kids s.(cells) l ->
  exists c, findcell l f s = Ok (Some c, s) /\ c ∈ l /\ s.(cells) !! c = Some (Some f).
Proof.
  intros HI Hp l. pose proof (ti_file HI p y Hp) as Fy.
  induction l as [|c l IH]; intros Hl Hf; [by apply elem_of_nil in Hf|]. cbn [findcell].
  destruct (proj2 (fo_cells Fy) c (Hl c ltac:(set_solver))) as [o Ho]. rewrite kids_cons, Ho in Hf.
  eff_prim. destruct o as [g|].
  - destruct (Z.eqb_spec g f) as [->|Hne].
    + exists c. split_and!; [done|set_solver|done].
    + destruct IH as (d&E1&Hd&?); [set_solver|set_solver|]. exists d. split_and!; [done|set_solver|done].
  - destruct IH as (d&E1&Hd&?); [set_solver|done|]. exists d. split_and!; [done|set_solver|done].
Qed.

Lemma kids_remove cl l c f : NoDup l -> c ∈ l -> cl !! c = Some (Some f) ->
  kids cl l ≡ₚ f :: kids (<[c := None]> cl) l.
Proof.
  induction l as [|d l IH]; intros Hnd Hc Hcl; [by apply elem_of_nil in Hc|].
  apply list.NoDup_cons in Hnd as [Hd Hnd]. rewrite !kids_cons.
  apply elem_of_cons in Hc as [->|Hc].
  - rewrite Hcl, lookup_insert_eq. rewrite (kids_agree cl (<[d := None]> cl)); [done|].
    intros e He. apply lookup_insert_ne. set_solver.
  - rewrite lookup_insert_ne by set_solver. specialize (IH Hnd Hc Hcl).
    destruct (cl !! d) as [[g|]|]; [|done..]. rewrite IH. apply Permutation_swap.
Qed.

Lemma kids_remove_elem cl l c f g : NoDup l -> NoDup (kids cl l) -> c ∈ l -> cl !! c = Some (Some f) ->
  g ∈ kids (<[c := None]> cl) l <-> g ∈ kids cl l /\ g <> f.
Proof.
  intros Hnd Hk Hc Hcl. pose proof (kids_remove cl l c f Hnd Hc Hcl) as Hp.
  rewrite Hp in Hk. apply list.NoDup_cons in Hk as [Hk _]. rewrite Hp, elem_of_cons. set_solver.
Qed.

(** Taking [f] out of its directory: its place in the tree and its reference to
    the parent become references the caller holds. *)
Lemma inv_unlink E s f x p y c :
  tree_inv E s -> s.(files) !! f = Some x -> s.(files) !! p = Some y -> x.(parent) = Some p ->
  f <> p -> c ∈ y.(filelist) -> s.(cells) !! c = Some (Some f) ->
  tree_inv (bump (bump E p 1) f 1)
    (set_files (<[f := with_parent None x]>
                 (<[p := with_list y.(filelist) (y.(nchild) - 1) (y.(nxchild) + 1) y]> s.(files)))
      (set_cells (<[c := None]> s.(cells)) s)).
Proof.
  intros HI Hf Hp Hpar Hfp Hc Hcc. pose proof HI as [H1 H2 H3 H4 H5 H6 H7 H8 H9 H10].
  pose proof (H1 f x Hf) as Fx. pose proof (H1 p y Hp) as Fy.
  set (y' := with_list _ _ _ y). set (x' := with_parent None x).
  set (cl := <[c := None]> s.(cells)).
  assert (Hfr : f <> root s).
  { pose proof (fo_parent Fx) as Hpp. rewrite Hpar in Hpp. destruct Hpp as [[-> ->]|[? _]]; done. }
  assert (Hkp : kids (cells s) (filelist y) ≡ₚ f :: kids cl (filelist y)) by (apply kids_remove; [apply Fy|done..]).
  assert (Hky : forall g, g ∈ kids cl (filelist y) <-> g ∈ kids (cells s) (filelist y) /\ g <> f)
    by (intros g; apply kids_remove_elem; [apply Fy|apply Fy|done..]).
  assert (Hlk : forall g z, <[f := x']> (<[p := y']> s.(files)) !! g = Some z ->
    exists z0, s.(files) !! g = Some z0 /\ fdir z = fdir z0 /\ filelist z = filelist z0 /\
      readers z = readers z0 /\ (g <> p -> kids cl (filelist z) = kids s.(cells) (filelist z0)) /\
      (g <> f -> parent z = parent z0) /\ (g <> f -> g <> p -> z = z0)).
  { intros g z [[<- <-]|[Hne Hg]]%lookup_insert_Some.
    - exists x. simpl. split_and!; try done. intros _. apply kids_agree. intros d Hd.
      apply lookup_insert_ne. intros ->. apply Hfp. by apply (H2 f p x y d).
    - apply lookup_insert_Some in Hg as [[<- <-]|[Hnp Hg]]; [exists y; by split_and!|].
      exists z. split_and!; try done. intros _. apply kids_agree. intros d Hd.
      apply lookup_insert_ne. intros ->. apply Hnp. by apply (H2 p g y z d). }
  assert (Hback : forall g z0, s.(files) !! g = Some z0 -> exists z,
    <[f := x']> (<[p := y']> s.(files)) !! g = Some z /\ fdir z = fdir z0 /\
    filelist z = filelist z0 /\ (g <> f -> parent z = parent z0)).
  { intros g z0 Hg. destruct (decide (g = f)) as [->|Hne].
    - rewrite lookup_insert_eq. assert (z0 = x) as -> by congruence. by exists x'.
    - rewrite lookup_insert_ne by done. destruct (decide (g = p)) as [->|Hnp].
      + rewrite lookup_insert_eq. assert (z0 = y) as -> by congruence. by exists y'.
      + rewrite lookup_insert_ne by done. by exists z0. }
  assert (Hkk : forall g z z0, <[f := x']> (<[p := y']> s.(files)) !! g = Some z ->
    s.(files) !! g = Some z0 -> forall k, k ∈ kids cl (filelist z) -> k ∈ kids s.(cells) (filelist z0) /\ k <> f).
  { intros g z z0 Hg Hg0 k Hk. destruct (Hlk g z Hg) as (z1&Hz1&_&T2&_&T3&_).
    assert (z1 = z0) as -> by congruence. destruct (decide (g = p)) as [->|Hnp].
    - assert (z0 = y) as -> by congruence. rewrite T2 in Hk. by apply Hky.
    - rewrite T3 in Hk by done. split; [done|]. intros ->.
      destruct (proj2 (fo_kids (H1 g z0 Hg0)) f Hk) as (_&w&Hw&Hpw). congruence. }
  split; simpl.
  - intros g z Hg. destruct (Hlk g z Hg) as (z0&Hg0&T1&T2&T5&T3&T4&T6).
    destruct (H1 g z0 Hg0) as [F1 F2 F3 F4 F5 F6 F7 F8]. split; simpl.
    + rewrite T2. split; [apply F1|]. intros d Hd. unfold cl. destruct (decide (d = c)) as [->|].
      * rewrite lookup_insert_eq. eauto.
      * rewrite lookup_insert_ne by done. by apply F1.
    + split.
      * destruct (decide (g = p)) as [->|Hnp]; [|rewrite T3 by done; apply F2].
        assert (z0 = y) as -> by congruence. rewrite T2.
        pose proof (proj1 (fo_kids Fy)) as Hn. rewrite Hkp in Hn. by apply list.NoDup_cons in Hn as [_ ?].
      * intros k Hk. destruct (Hkk g z z0 Hg Hg0 k Hk) as [Hk0 Hkf].
        destruct (proj2 F2 k Hk0) as (?&w&Hw&Hpw). split; [done|].
        destruct (Hback k w Hw) as (w'&Hw'&_&_&Hp'). exists w'. split; [done|]. rewrite Hp'; done.
    + intros g1 g2 z1 z2 K1 K2 Z1 Z2. destruct (Hkk g z z0 Hg Hg0 g1 K1), (Hkk g z z0 Hg Hg0 g2 K2).
      destruct (Hlk g1 z1 Z1) as (w1&W1&V1&_), (Hlk g2 z2 Z2) as (w2&W2&V2&_).
      rewrite V1, V2. by apply F3.
    + destruct (decide (g = p)) as [->|Hnp].
      * rewrite lookup_insert_ne, lookup_insert_eq in Hg by done. injection Hg as <-. simpl.
        rewrite (fo_nchild Fy), Hkp, Zlen_cons. lia.
      * rewrite T3 by done. destruct (decide (g = f)) as [->|Hnf].
        -- rewrite lookup_insert_eq in Hg. injection Hg as <-. simpl. assert (z0 = x) as -> by congruence. done.
        -- by rewrite (T6 Hnf Hnp).
    + destruct (decide (g = p)) as [->|Hnp].
      * rewrite lookup_insert_ne, lookup_insert_eq in Hg by done. injection Hg as <-. simpl.
        rewrite (fo_nxchild Fy), Hkp, Zlen_cons. lia.
      * rewrite T3, T2 by done. destruct (decide (g = f)) as [->|Hnf].
        -- rewrite lookup_insert_eq in Hg. injection Hg as <-. simpl. assert (z0 = x) as -> by congruence. done.
        -- by rewrite (T6 Hnf Hnp).
    + destruct (decide (g = f)) as [->|Hnf].
      * rewrite lookup_insert_eq in Hg. injection Hg as <-. assert (z0 = x) as -> by congruence.
        rewrite bump_same, bump_other by done. unfold tree_ref in *. rewrite Hpar in F6. simpl. lia.
      * rewrite bump_other by done. destruct (decide (g = p)) as [->|Hnp].
        -- rewrite lookup_insert_ne, lookup_insert_eq in Hg by done. injection Hg as <-.
           assert (z0 = y) as -> by congruence. rewrite bump_same. unfold tree_ref in *. simpl. lia.
        -- rewrite bump_other, (T6 Hnf Hnp) by done. done.
    + destruct (decide (g = f)) as [->|Hnf].
      * rewrite lookup_insert_eq in Hg. by injection Hg as <-.
      * rewrite T4 by done. destruct (parent z0) as [q|] eqn:Eq; [|done].
        destruct F7 as [?|(?&?&w&Hw&Hin)]; [by left|right]. split; [done|]. split; [done|].
        destruct (Hback q w Hw) as (w'&Hw'&_&L'&_). exists w'. split; [done|]. rewrite L'.
        destruct (decide (q = p)) as [->|Hqp].
        -- assert (w = y) as -> by congruence. by apply Hky.
        -- destruct (Hlk q w' Hw') as (w1&W1&_&L1&_&K1&_). rewrite <- L', K1 by done.
           by assert (w1 = w) as -> by congruence.
    + by rewrite T5.
  - intros q r z w d (z0&Hz0&_&Lz&_)%Hlk (w0&Hw0&_&Lw&_)%Hlk. rewrite Lz, Lw. by apply (H2 q r z0 w0).
  - destruct H3 as (z0&Hz0&Hpz). destruct (Hback _ _ Hz0) as (z&Hz&_&_&Hp'). exists z.
    split; [done|]. rewrite Hp'; congruence.
  - intros g. destruct (H4 g) as [G1 G2]. split; [unfold bump; destruct (decide _), (decide _); lia|].
    intros Hb. assert (Hl : is_Some (files s !! g)).
    { unfold bump in Hb. destruct (decide (g = f)) as [->|]; [eauto|].
      destruct (decide (g = p)) as [->|]; [eauto|]. apply G2. lia. }
    destruct Hl as [z0 Hz0]. destruct (Hback g z0 Hz0) as (z&Hz&_). eauto.
  - split; [apply H5|]. intros a Ha. destruct (proj2 H5 a Ha).
    rewrite !lookup_insert_ne; [done| |]; intros ->; congruence.
  - intros g [z (z0&Hz0&_)%Hlk]. apply H6. eauto.
  - intros d Hd. apply H7. unfold cl in Hd. destruct (decide (d = c)) as [->|]; [eauto|].
    by rewrite lookup_insert_ne in Hd.
  - done.
  - intros d Hd. assert (Hd' : is_Some (cells s !! d)).
    { unfold cl in Hd. destruct (decide (d = c)) as [->|]; [eauto|]. by rewrite lookup_insert_ne in Hd. }
    destruct (H9 d Hd') as (g&z0&Hz0&Hin). destruct (Hback g z0 Hz0) as (z&Hz&_&L&_).
    exists g, z. by rewrite L.
  - intros r rd Hr. destruct (H10 r rd Hr) as [R1 R2].
    split; [unfold bump; destruct (decide _), (decide _); lia|].
    intros z d (z0&Hz0&_&L&_)%Hlk. rewrite L. by apply R2.
Qed.

(** Removing consumes the caller's reference, whatever the result; it succeeds
    exactly on a childless file that is in the tree and is not its root. *)
Lemma removefile_inv E s f x :
  tree_inv E s -> s.(files) !! f = Some x -> 1 <= E f ->
  (forall r rd, s.(rdirs) !! r = Some rd -> rd.(rd_dir) = f -> 2 <= E f) ->
  exists r s', removefile f s = Ok (r, s') /\ tree_inv (bump E f (-1)) s' /\
    s'.(rdirs) = s.(rdirs) /\
    ((r = 0 /\ x.(parent) <> None /\ f <> s.(root) /\ x.(nchild) = 0) \/
     (r = -1 /\ (x.(parent) = None \/ f = s.(root) \/ x.(nchild) <> 0))).
Proof.
  intros HI Hf HE Hrd. pose proof (ti_file HI f x Hf) as Fx. pose proof (fo_parent Fx) as Hpp.
  assert (Herr : forall e (r : Z), exists s', (_ ← werrstr e; _ ← closefile f; mret r) s = Ok (r, s') /\
    tree_inv (bump E f (-1)) s' /\ s'.(rdirs) = s.(rdirs)).
  { intros e r. unfold werrstr. eff_prim.
    destruct (closefile_inv E (set_errstr e s) f) as (s'&E1&?&?&_); [by apply inv_errstr|done|done|].
    eff_with E1. eauto. }
  unfold removefile. eff_prim. destruct (parent x) as [p|] eqn:Ep.
  2: { destruct (Herr (str "no parent") (-1)) as (s'&E1&?&?). rewrite E1.
       eexists _, s'. split_and!; [done..|]. right. auto. }
  destruct (Z.eqb_spec p f) as [->|Hpf].
  { destruct (Herr (str "cannot remove root") (-1)) as (s'&E1&?&?). rewrite E1.
    eexists _, s'. split_and!; [done..|]. right. split; [done|].
    destruct Hpp as [[? _]|(_&?&_)]; [auto|done]. }
  destruct Hpp as [[-> ->]|(Hfr&_&y&Hy&Hin)]; [done|]. eff_prim.
  destruct (Z.eqb_spec (nchild x) 0) as [Hn|Hn]; cbn [negb].
  2: { destruct (Herr (str "has children") (-1)) as (s'&E1&?&?). rewrite E1.
       eexists _, s'. split_and!; [done..|]. right. auto. }
  rewrite decide_False by tauto. eff_prim.
  destruct (findcell_run E s p y f HI Hy (filelist y)) as (c&E1&Hc&Hcc); [done..|]. eff_with E1.
  unfold putcell, putfile. do 3 eff_prim.
  pose proof (inv_unlink E s f x p y c HI Hf Hy Ep ltac:(done) Hc Hcc) as HI1.
  match type of HI1 with tree_inv _ ?t => set (s1 := t) in * end.
  destruct (cleanfilelist_inv _ s1 p (with_list y.(filelist) (y.(nchild) - 1) (y.(nxchild) + 1) y) HI1)
    as (s2&E2&HI2&R2&_); [simpl; rewrite lookup_insert_ne by done; apply lookup_insert_eq|].
  eff_with E2. change (rdirs s1) with (rdirs s) in R2.
  pose proof (fun g => proj1 (ti_ext HI g)) as Hpos.
  assert (Hrd1 : forall r rd, rdirs s2 !! r = Some rd -> 1 <= E (rd_dir rd)).
  { intros r rd Hr. rewrite R2 in Hr. by apply (ti_rdir HI r rd). }
  destruct (closefile_inv _ s2 p HI2) as (s3&E3&HI3&R3&_).
  { pose proof (Hpos p). rewrite bump_other, bump_same by done. lia. }
  { intros r rd Hr <-. rewrite bump_other, bump_same by done. specialize (Hrd1 r rd Hr). lia. }
  eff_with E3. apply (tree_inv_ext _ (bump E f 1)) in HI3; [|same_refs].
  destruct (closefile_inv _ s3 f HI3) as (s4&E4&HI4&R4&_).
  { rewrite bump_same. lia. }
  { intros r rd Hr <-. rewrite bump_same. rewrite R3 in Hr. specialize (Hrd1 r rd Hr). lia. }
  eff_with E4. apply (tree_inv_ext _ E) in HI4; [|same_refs].
  destruct (closefile_inv E s4 f HI4 HE) as (s5&E5&HI5&R5&_).
  { intros r rd Hr. rewrite R4, R3, R2 in Hr. by apply (Hrd r rd). }
  eff_with E5. exists 0, s5. split_and!; [done|done|congruence|]. left. split_and!; done.
Qed.

(** * Creating *)

Lemma hasname_run E s f x : tree_inv E s -> s.(files) !! f = Some x -> forall e l,
  (forall c, c ∈ l -> c ∈ x.(filelist)) ->
  exists b, hasname l e s = Ok (b, s) /\
    (b = true <-> exists g y, g ∈ kids s.(cells) l /\ s.(files) !! g = Some y /\ st_name y.(fdir) = e).
Proof.
  intros HI Hf e l. pose proof (ti_file HI f x Hf) as Fx.
  induction l as [|c l IH]; intros Hl; cbn [hasname].
  { exists false. split; [done|]. split; [done|]. intros (g&y&Hg&_). by apply elem_of_nil in Hg. }
  destruct IH as (b&Eb&Hb); [set_solver|].
  destruct (proj2 (fo_cells Fx) c (Hl c ltac:(set_solver))) as [[g|] Ho]; rewrite kids_cons, Ho.
  - destruct (proj2 (fo_kids Fx) g) as (_&y&Hy&_).
    { apply kids_elem. exists c. split; [apply Hl; set_solver|done]. }
    eff_prim. eff_prim. destruct (decide (st_name (fdir y) = e)) as [He|He].
    + exists true. split; [done|]. split; [|done]. intros _. exists g, y. set_solver.
    + exists b. split; [done|]. rewrite Hb. split.
      * intros (g'&y'&?&?&?). exists g', y'. set_solver.
      * intros (g'&y'&[->|Hg']%elem_of_cons&?&?); [congruence|]. eauto.
  - eff_prim. exists b. done.
Qed.

Definition freelist_ok (s : FS) : Prop :=
  NoDup s.(freefilelist).*1 /\
  (forall a, a ∈ s.(freefilelist).*1 -> s.(files) !! a = None /\ a < s.(brk)) /\
  (forall f, is_Some (s.(files) !! f) -> f < s.(brk)).

Lemma emalloc9p_run n s : emalloc9p n s = Ok (s.(brk), set_brk (s.(brk) + n) s).
Proof. done. Qed.

Lemma allocfile_run s : freelist_ok s ->
  exists f a l b, allocfile s =
      Ok (f, set_files (<[f := zerofile a]> s.(files)) (set_freefilelist l (set_brk b s))) /\
    s.(files) !! f = None /\ f < b /\ s.(brk) <= b /\ f ∉ l.*1 /\ NoDup l.*1 /\
    (forall a, a ∈ l.*1 -> s.(files) !! a = None /\ a < b).
Proof.
  intros (Hnd&Hfree&Hlive). unfold allocfile. eff_prim. destruct (freefilelist s) as [|[f a] l] eqn:El.
  - set (k := map (fun i => (brk s + Z.of_nat i, 0)) (seq 1 (Z.to_nat FILEN - 1))).
    erewrite eff_bind_ok.
    2: { eff_with (emalloc9p_run FILEN s). apply modify_run. }
    cbv beta. eff_prim. cbn [freefilelist set_freefilelist]. eff_prim. unfold putfile. eff_prim.
    exists (brk s), 1, k, (brk s + FILEN). split; [done|].
    assert (Hnone : forall a, brk s <= a -> s.(files) !! a = None).
    { intros a Ha. apply eq_None_not_Some. intros Hs. specialize (Hlive a Hs). lia. }
    assert (Hk : k.*1 = map (fun i => brk s + Z.of_nat i) (seq 1 15))
      by (unfold k; by rewrite <- list_fmap_compose).
    assert (Hin : forall a, a ∈ k.*1 -> brk s < a < brk s + FILEN).
    { intros a Ha. rewrite Hk in Ha. apply list_elem_of_fmap in Ha as (i&->&Hi).
      apply elem_of_seq in Hi. unfold FILEN. lia. }
    split_and!; [apply Hnone; lia|unfold FILEN; lia|unfold FILEN; lia| | |].
    + intros Ha. specialize (Hin _ Ha). lia.
    + rewrite Hk. apply NoDup_fmap_2; [intros ???; lia|apply NoDup_seq].
    + intros a Ha. specialize (Hin a Ha). split; [apply Hnone; lia|lia].
  - eff_prim. eff_prim. rewrite El. cbv iota beta. eff_prim. unfold putfile. eff_prim.
    exists f, a, l, (brk s). apply list.NoDup_cons in Hnd as [Hn Hnd].
    destruct (Hfree f) as [Hf1 Hf2]; [set_solver|].
    split_and!; try done. intros b Hb. apply Hfree. set_solver.
Qed.

Lemma nreaders_none rs f : (forall r rd, rs !! r = Some rd -> rd.(rd_dir) <> f) -> nreaders rs f = 0.
Proof.
  intros H. unfold nreaders. replace (filter _ rs) with (∅ : gmap Z Readdir).
  - by rewrite map_size_empty.
  - symmetry. apply map_empty. intros r. apply map_lookup_filter_None. right. intros rd Hr. by apply (H r).
Qed.

(** A new file at the end of a directory's list. *)
Lemma inv_link E s p x f c d a l b q :
  tree_inv E s -> s.(files) !! p = Some x -> s.(files) !! f = None -> s.(cells) !! c = None ->
  f < b -> c < b -> s.(brk) <= b -> f ∉ l.*1 -> NoDup l.*1 ->
  (forall a, a ∈ l.*1 -> s.(files) !! a = None /\ a < b) ->
  (forall g y, g ∈ kids s.(cells) x.(filelist) -> s.(files) !! g = Some y -> st_name y.(fdir) <> st_name d) ->
  forall aux, tree_inv (bump E f 1)
    (set_files (<[p := with_ref (x.(ref) + 1) (with_list (x.(filelist) ++ [c]) (x.(nchild) + 1) x.(nxchild) x)]>
        (<[f := mkFile 2 d (Some p) aux [] 0 a 0 0]> s.(files)))
      (set_cells (<[c := Some f]> s.(cells)) (set_qidgen q (set_freefilelist l (set_brk b s))))).
Proof.
  intros HI Hp Hf Hc Hfb Hcb Hbb Hfl Hnd Hl Hname aux. pose proof HI as [H1 H2 H3 H4 H5 H6 H7 H8 H9 H10].
  pose proof (H1 p x Hp) as Fx.
  set (nf := mkFile 2 d (Some p) aux [] 0 a 0 0).
  set (x' := with_ref _ _). set (cl := <[c := Some f]> s.(cells)).
  assert (Hpf : p <> f) by congruence.
  assert (Hrf : f <> root s) by (destruct H3 as (?&?&_); congruence).
  assert (Hcx : forall g y, s.(files) !! g = Some y -> c ∉ filelist y).
  { intros g y Hy Hin. destruct (proj2 (fo_cells (H1 g y Hy)) c Hin). congruence. }
  assert (Hks : forall g y, s.(files) !! g = Some y -> kids cl (filelist y) = kids s.(cells) (filelist y)).
  { intros g y Hy. apply kids_agree. intros e He. apply lookup_insert_ne. intros ->. by eapply Hcx. }
  assert (Hkx : kids cl (filelist x') = kids s.(cells) (filelist x) ++ [f]).
  { simpl. rewrite kids_app, (Hks p x Hp). f_equal. rewrite kids_cons. unfold cl.
    by rewrite lookup_insert_eq. }
  assert (Hfk : forall g y, s.(files) !! g = Some y -> f ∉ kids s.(cells) (filelist y)).
  { intros g y Hy Hin. destruct (proj2 (fo_kids (H1 g y Hy)) f Hin) as (_&?&?&_). congruence. }
  assert (Hlk : forall g z, <[p := x']> (<[f := nf]> s.(files)) !! g = Some z ->
    (g = f /\ z = nf) \/ (g = p /\ z = x') \/ (g <> f /\ g <> p /\ s.(files) !! g = Some z)).
  { intros g z [[<- <-]|[Hne Hg]]%lookup_insert_Some; [auto|].
    apply lookup_insert_Some in Hg as [[<- <-]|[Hnf Hg]]; auto 6. }
  assert (Hback : forall g z, s.(files) !! g = Some z -> exists z',
    <[p := x']> (<[f := nf]> s.(files)) !! g = Some z' /\ parent z' = parent z /\ fdir z' = fdir z /\
    (forall k, k ∈ kids s.(cells) (filelist z) -> k ∈ kids cl (filelist z')) /\
    (forall e, e ∈ filelist z -> e ∈ filelist z')).
  { intros g z Hg. destruct (decide (g = p)) as [->|Hne].
    - rewrite lookup_insert_eq. assert (z = x) as -> by congruence. exists x'. rewrite Hkx. simpl.
      split_and!; [done..| |]; set_solver.
    - rewrite lookup_insert_ne, lookup_insert_ne by congruence. exists z. rewrite (Hks g z Hg). done. }
  assert (Hpx : exists y, <[p := x']> (<[f := nf]> s.(files)) !! p = Some y /\ y = x')
    by (rewrite lookup_insert_eq; eauto).
  assert (Hfn : <[p := x']> (<[f := nf]> s.(files)) !! f = Some nf)
    by (rewrite lookup_insert_ne, lookup_insert_eq by done; done).
  assert (Hkids_ok : forall g y z, s.(files) !! g = Some y -> z ∈ kids s.(cells) (filelist y) ->
    z <> root s /\ exists w, <[p := x']> (<[f := nf]> s.(files)) !! z = Some w /\ parent w = Some g).
  { intros g y z Hg Hz. destruct (proj2 (fo_kids (H1 g y Hg)) z Hz) as (?&w&Hw&Hpw). split; [done|].
    destruct (Hback z w Hw) as (w'&Hw'&Hp'&_). exists w'. split; congruence. }
  assert (Hnm : forall g z, <[p := x']> (<[f := nf]> s.(files)) !! g = Some z -> g <> f ->
    exists z0, s.(files) !! g = Some z0 /\ fdir z = fdir z0).
  { intros g z [[-> ->]|[[-> ->]|(?&?&?)]]%Hlk Hne; [done|by exists x|by exists z]. }
  split; simpl.
  - intros g z Hg. destruct (Hlk g z Hg) as [[-> ->]|[[-> ->]|(Hgf&Hgp&Hg0)]].
    + split; simpl; try done.
      * split; [constructor|]. set_solver.
      * split; [constructor|]. intros k Hk. by apply elem_of_nil in Hk.
      * intros g1 g2 y1 y2 K1. by apply elem_of_nil in K1.
      * rewrite bump_same. destruct (H4 f) as [G1 G2]. assert (E f = 0).
        { destruct (Z.eq_dec (E f) 0); [done|]. destruct (G2 n). congruence. }
        unfold tree_ref. simpl. lia.
      * right. split_and!; [done..|]. eexists. rewrite lookup_insert_eq. split; [done|]. rewrite Hkx. set_solver.
      * symmetry. apply nreaders_none. intros r rd Hr Heq. destruct (H10 r rd Hr) as [R1 _].
        destruct (proj2 (H4 (rd_dir rd))); [lia|]. congruence.
    + pose proof Fx as [F1 F2 F3 F4 F5 F6 F7 F8].
      split; cbn [cells files rdirs root set_files set_cells set_qidgen set_freefilelist set_brk];
        rewrite ?Hkx.
      * simpl. split.
        -- apply list.NoDup_app. split_and!; [apply F1| |apply NoDup_singleton].
           intros e He Hec%list_elem_of_singleton. subst e. by eapply Hcx.
        -- intros e [He| ->%list_elem_of_singleton]%elem_of_app; unfold cl.
           ++ rewrite lookup_insert_ne; [by apply F1|]. intros ->. by eapply Hcx.
           ++ rewrite lookup_insert_eq. eauto.
      * split.
        -- apply list.NoDup_app. split_and!; [apply F2| |apply NoDup_singleton].
           intros k Hk Hkf%list_elem_of_singleton. subst k. by apply (Hfk p x Hp).
        -- intros k [Hk| ->%list_elem_of_singleton]%elem_of_app; [by eapply Hkids_ok|].
           split; [done|]. eauto.
      * intros g1 g2 y1 y2 K1 K2 Y1 Y2 Hn.
        assert (Hsym : forall g y, g ∈ kids (cells s) (filelist x) -> <[p:=x']> (<[f:=nf]> s.(files)) !! g = Some y ->
          st_name (fdir y) <> st_name (fdir nf)).
        { intros g y Hg0 Hy. destruct (Hnm g y Hy) as (y0&Hy0&Hd); [intros ->; by apply (Hfk p x Hp)|].
          rewrite Hd. by apply (Hname g). }
        apply elem_of_app in K1 as [K1| ->%list_elem_of_singleton], K2 as [K2| ->%list_elem_of_singleton].
        -- destruct (Hnm g1 y1 Y1) as (z1&Z1&D1), (Hnm g2 y2 Y2) as (z2&Z2&D2);
             [intros ->; by apply (Hfk p x Hp)..|]. rewrite D1, D2 in Hn. by eapply F3.
        -- assert (y2 = nf) as -> by congruence. by destruct (Hsym g1 y1 K1 Y1).
        -- assert (y1 = nf) as -> by congruence. by destruct (Hsym g2 y2 K2 Y2).
        -- done.
      * simpl. rewrite F4, Zlen_app. done.
      * simpl. rewrite F5, !Zlen_app. change (Zlen [c]) with 1. change (Zlen [f]) with 1. lia.
      * rewrite bump_other by done. unfold tree_ref in *. simpl. lia.
      * simpl. destruct (parent x) as [r|] eqn:Er; [|done]. destruct F7 as [?|(?&?&w&Hw&Hin)]; [by left|right].
        split; [done|]. split; [done|]. destruct (Hback r w Hw) as (w'&Hw'&_&_&Hk'&_). eauto.
      * done.
    + destruct (H1 g z Hg0) as [F1 F2 F3 F4 F5 F6 F7 F8]. split; simpl; rewrite ?(Hks g z Hg0); try done.
      * split; [apply F1|]. intros e He. unfold cl. rewrite lookup_insert_ne; [by apply F1|].
        intros ->. by eapply Hcx.
      * split; [apply F2|]. intros k Hk. by eapply Hkids_ok.
      * intros g1 g2 y1 y2 K1 K2 Y1 Y2 Hn.
        destruct (Hnm g1 y1 Y1) as (z1&Z1&D1); [intros ->; by apply (Hfk g z Hg0)|].
        destruct (Hnm g2 y2 Y2) as (z2&Z2&D2); [intros ->; by apply (Hfk g z Hg0)|].
        rewrite D1, D2 in Hn. by apply (F3 g1 g2 z1 z2).
      * by rewrite bump_other.
      * destruct (parent z) as [r|] eqn:Er; [|done]. destruct F7 as [?|(?&?&w&Hw&Hin)]; [by left|right].
        split; [done|]. split; [done|]. destruct (Hback r w Hw) as (w'&Hw'&_&_&Hk'&_). eauto.
  - assert (Hown : forall g z e, <[p := x']> (<[f := nf]> s.(files)) !! g = Some z -> e ∈ filelist z ->
      (e = c /\ g = p) \/ exists z0, s.(files) !! g = Some z0 /\ e ∈ filelist z0).
    { intros g z e [[-> ->]|[[-> ->]|(?&?&?)]]%Hlk He; [by apply elem_of_nil in He| |eauto].
      simpl in He. apply elem_of_app in He as [He| ->%list_elem_of_singleton]; eauto. }
    intros g h y z e Hy Hz Ey Ez.
    destruct (Hown g y e Hy Ey) as [[He ->]|(y0&Hy0&Ey0)], (Hown h z e Hz Ez) as [[He' ->]|(z0&Hz0&Ez0)];
      try subst e; try done.
    + by destruct (Hcx h z0 Hz0).
    + by destruct (Hcx g y0 Hy0).
    + by eapply (H2 g h y0 z0).
  - destruct H3 as (z0&Hz0&Hpz). destruct (Hback _ _ Hz0) as (z&Hz&Hp'&_). exists z. split; congruence.
  - intros g. destruct (H4 g) as [G1 G2]. split; [unfold bump; destruct (decide _); lia|]. intros Hb.
    destruct (decide (g = f)) as [->|Hne]; [eauto|]. rewrite bump_other in Hb by done.
    destruct (G2 Hb) as [z0 Hz0]. destruct (Hback g z0 Hz0) as (z&Hz&_). eauto.
  - split; [done|]. intros e He. destruct (Hl e He). split; [|done].
    rewrite !lookup_insert_ne; [done| |]; intros ->; [done|congruence].
  - intros g [z [[-> ->]|[[-> ->]|(?&?&Hg)]]%Hlk]; [done| |]; (eapply Z.lt_le_trans; [apply H6; eauto|done]).
  - intros e He. unfold cl in He. destruct (decide (e = c)) as [->|]; [done|].
    rewrite lookup_insert_ne in He by done. specialize (H7 e He). lia.
  - intros r Hr. specialize (H8 r Hr). lia.
  - intros e He. unfold cl in He. destruct (decide (e = c)) as [->|].
    + exists p, x'. rewrite lookup_insert_eq. split; [done|]. simpl. set_solver.
    + rewrite lookup_insert_ne in He by done. destruct (H9 e He) as (g&z0&Hz0&Hin).
      destruct (Hback g z0 Hz0) as (z&Hz&_&_&_&Hl'). eauto 6.
  - intros r rd Hr. destruct (H10 r rd Hr) as [R1 R2]. split; [unfold bump; destruct (decide _); lia|].
    intros z e Hz He. destruct (Hlk _ z Hz) as [[Heq ->]|[[Heq ->]|(?&?&Hz0)]]; [|  |by eapply R2].
    + destruct (proj2 (H4 (rd_dir rd))); [lia|]. congruence.
    + simpl. apply elem_of_app. left. eapply R2; [by rewrite Heq|done].
Qed.

Definition newstat (x : File) (name : list Z) (uid : option (list Z)) (perm now g : Z) : Stat :=
  mkStat 0 0
    (mkQid g 0 (Z.lor (Z.lor (if Z.land perm DMDIR =? 0 then 0 else QTDIR)
                             (if Z.land perm DMAPPEND =? 0 then 0 else QTAPPEND))
                      (if Z.land perm DMEXCL =? 0 then 0 else QTEXCL)))
    perm now now 0 name
    (match uid with Some u => u | None => st_uid x.(fdir) end) (st_gid x.(fdir))
    (match uid with Some u => u | None => str "unknown" end).

(** Creating fails, without effect, in what is not a directory or where the
    name is taken; otherwise the caller gets the only outside reference to a
    fresh file, last in the directory's list. *)
Lemma createfile_inv E s p x name uid perm aux now :
  tree_inv E s -> s.(files) !! p = Some x ->
  exists r s', createfile p name uid perm aux now s = Ok (r, s') /\ s'.(rdirs) = s.(rdirs) /\
    match r with
    | None => tree_inv E s' /\ s'.(files) = s.(files) /\ s'.(cells) = s.(cells) /\
        (Z.land (q_type (st_qid x.(fdir))) QTDIR = 0 \/
         exists g y, g ∈ kids s.(cells) x.(filelist) /\ s.(files) !! g = Some y /\ st_name y.(fdir) = name)
    | Some f => tree_inv (bump E f 1) s' /\ s.(files) !! f = None /\
        (forall g y, g ∈ kids s.(cells) x.(filelist) -> s.(files) !! g = Some y -> st_name y.(fdir) <> name) /\
        exists y x', s'.(files) !! f = Some y /\ y.(fdir) = newstat x name uid perm now s.(qidgen) /\
          s'.(files) !! p = Some x' /\
          kids s'.(cells) x'.(filelist) = kids s.(cells) x.(filelist) ++ [f] /\
          (forall g z, s.(files) !! g = Some z -> exists z', s'.(files) !! g = Some z' /\ z'.(fdir) = z.(fdir))
    end.
Proof.
  intros HI Hp. unfold createfile. eff_prim.
  destruct (Z.eqb_spec (Z.land (q_type (st_qid (fdir x))) QTDIR) 0) as [Hq|Hq].
  { unfold werrstr. eff_prim. exists None. eexists. split; [reflexivity|]. split; [done|].
    split; [by apply inv_errstr|]. auto. }
  destruct (hasname_run E s p x HI Hp name (filelist x)) as (b&Eb&Hb); [done|]. eff_with Eb.
  destruct b.
  { unfold werrstr. eff_prim. exists None. eexists. split; [reflexivity|]. split; [done|].
    split; [by apply inv_errstr|]. split_and!; [done..|]. right. by apply Hb. }
  assert (Hname : forall g y, g ∈ kids s.(cells) x.(filelist) -> s.(files) !! g = Some y ->
    st_name y.(fdir) <> name).
  { intros g y Hg Hy Hn. assert (false = true) by (apply Hb; eauto). done. }
  eff_with (emalloc9p_run 1 s). unfold putcell. eff_prim.
  set (c := brk s).
  match goal with |- context [allocfile ≫= _] => idtac end.
  match goal with |- context [(allocfile ≫= _) ?t] => set (s1 := t) end.
  destruct (ti_free HI) as [Hfn Hff].
  destruct (allocfile_run s1) as (f&a&l&b&Ea&Hf&Hfb&Hbb&Hfl&Hnd&Hl).
  { split_and!; [done| |].
    - intros d Hd. destruct (Hff d Hd). split; [done|]. simpl. lia.
    - intros g Hg. pose proof (ti_brk_files HI g Hg). simpl. lia. }
  eff_with Ea. eff_prim. eff_prim.
  simpl in Hf, Hbb, Hl.
  assert (Hpf : p <> f) by congruence.
  erewrite eff_bind_ok by (apply deref_run; simpl; rewrite lookup_insert_ne by done; exact Hp).
  cbv beta. erewrite eff_bind_ok by (apply deref_run; simpl; apply lookup_insert_eq). cbv beta.
  unfold putfile. do 3 eff_prim.
  exists (Some f). eexists. split; [reflexivity|]. split; [done|].
  assert (Hc : s.(cells) !! c = None).
  { apply eq_None_not_Some. intros Hs. pose proof (ti_brk_cells HI c Hs). unfold c in *. lia. }
  pose proof (inv_link E s p x f c (newstat x name uid perm now s.(qidgen)) a l b
    (u32 (qidgen s + 1)) HI Hp Hf Hc Hfb ltac:(unfold c; lia) ltac:(lia) Hfl Hnd Hl Hname aux) as HI'.
  split; [|split_and!; [done..|]].
  - unfold set_files, set_cells, set_qidgen, set_freefilelist, set_brk in *. simpl in *.
    rewrite !insert_insert_eq. exact HI'.
  - assert (Hk : kids (<[c := Some f]> s.(cells)) (filelist x ++ [c]) = kids s.(cells) (filelist x) ++ [f]).
    { rewrite kids_app. rewrite (kids_agree s.(cells) (<[c := Some f]> s.(cells)) (filelist x)).
      - rewrite kids_cons, lookup_insert_eq. done.
      - intros d Hd. apply lookup_insert_ne. intros ->.
        destruct (proj2 (fo_cells (ti_file HI p x Hp)) d Hd). congruence. }
    eexists _, _. simpl. rewrite (lookup_insert_ne _ p f), !lookup_insert_eq by done.
    split; [done|]. split; [done|]. split; [done|]. split; [simpl; rewrite !insert_insert_eq; exact Hk|].
    intros g z Hg. destruct (decide (g = p)) as [->|Hne].
    + rewrite lookup_insert_eq. eexists. split; [done|]. simpl. congruence.
    + rewrite !lookup_insert_ne by congruence. eauto.
Qed.

(** * Readers *)

Lemma nreaders_insert rs r rd f : rs !! r = None ->
  nreaders (<[r := rd]> rs) f = nreaders rs f + (if decide (rd.(rd_dir) = f) then 1 else 0).
Proof.
  intros Hr. unfold nreaders. rewrite map_filter_insert. simpl.
  destruct (decide (rd_dir rd = f)).
  - rewrite map_size_insert_None by (apply map_lookup_filter_None; auto). lia.
  - rewrite (delete_id rs) by done. lia.
Qed.

Lemma nreaders_replace rs r rd rd' f : rs !! r = Some rd -> rd'.(rd_dir) = rd.(rd_dir) ->
  nreaders (<[r := rd']> rs) f = nreaders rs f.
Proof.
  intros Hr He. rewrite <- (insert_delete_id rs r rd Hr), insert_insert_eq.
  rewrite !nreaders_insert by apply lookup_delete_eq. by rewrite He.
Qed.

Lemma nreaders_delete rs r rd f : rs !! r = Some rd ->
  nreaders (delete r rs) f = nreaders rs f - (if decide (rd.(rd_dir) = f) then 1 else 0).
Proof.
  intros Hr. rewrite <- (insert_delete_id rs r rd Hr) at 2.
  rewrite nreaders_insert by apply lookup_delete_eq. lia.
Qed.

(** The readers change and with them one directory's count. *)
Lemma inv_readers E s f x rs b :
  tree_inv E s -> s.(files) !! f = Some x -> s.(brk) <= b ->
  (forall g, g <> f -> nreaders rs g = nreaders s.(rdirs) g) ->
  (forall r, is_Some (rs !! r) -> r < b) ->
  (forall r rd, rs !! r = Some rd -> 1 <= E rd.(rd_dir) /\
    forall y c, s.(files) !! rd.(rd_dir) = Some y -> rd.(rd_fl) = Some c -> c ∈ y.(filelist)) ->
  tree_inv E (set_files (<[f := with_readers (nreaders rs f) x]> s.(files)) (set_rdirs rs (set_brk b s))).
Proof.
  intros [H1 H2 H3 H4 H5 H6 H7 H8 H9 H10] Hf Hb Hn Hrb Hrs. set (x' := with_readers _ x).
  assert (Hlk : forall g y, <[f := x']> s.(files) !! g = Some y ->
    exists y0, s.(files) !! g = Some y0 /\ parent y = parent y0 /\ filelist y = filelist y0 /\ fdir y = fdir y0).
  { intros g y [[<- <-]|[_ Hg]]%lookup_insert_Some; [by exists x|by exists y]. }
  assert (Hback : forall g y0, s.(files) !! g = Some y0 ->
    exists y, <[f := x']> s.(files) !! g = Some y /\ parent y = parent y0 /\ filelist y = filelist y0).
  { intros g y0 Hg. destruct (decide (g = f)) as [->|Hne].
    - rewrite lookup_insert_eq. assert (y0 = x) as -> by congruence. by exists x'.
    - rewrite lookup_insert_ne by done. by exists y0. }
  assert (Hok : forall g y y0, s.(files) !! g = Some y0 -> <[f := x']> s.(files) !! g = Some y ->
    y.(readers) = nreaders rs g -> ref y = ref y0 -> nchild y = nchild y0 -> nxchild y = nxchild y0 ->
    parent y = parent y0 -> filelist y = filelist y0 ->
    file_ok E (set_files (<[f := x']> s.(files)) (set_rdirs rs (set_brk b s))) g y).
  { intros g y y0 Hg0 Hg R1 R2 R3 R4 R5 R6. destruct (H1 g y0 Hg0) as [F1 F2 F3 F4 F5 F6 F7 F8].
    split; simpl; rewrite ?R2, ?R3, ?R4, ?R6; try done.
    - split; [apply F2|]. intros k Hk. destruct (proj2 F2 k Hk) as (?&z&Hz&Hp). split; [done|].
      destruct (Hback k z Hz) as (z'&Hz'&Hp'&_). exists z'. split; congruence.
    - intros g1 g2 z1 z2 K1 K2 (w1&W1&_&_&D1)%Hlk (w2&W2&_&_&D2)%Hlk. rewrite D1, D2. by apply F3.
    - unfold tree_ref. by rewrite R5.
    - rewrite R5. destruct (parent y0) as [p|]; [|done]. destruct F7 as [?|(?&?&w&Hw&Hin)]; [by left|right].
      split; [done|]. split; [done|]. destruct (Hback p w Hw) as (w'&Hw'&_&L). exists w'. by rewrite L. }
  split; simpl; try done.
  - intros g y Hg. pose proof Hg as [[<- <-]|[Hne Hg0]]%lookup_insert_Some; [by apply (Hok _ _ x)|].
    apply (Hok _ _ y); try done. rewrite (fo_readers (H1 g y Hg0)). symmetry. by apply Hn.
  - intros p q y z c (y0&Hy0&_&L1&_)%Hlk (z0&Hz0&_&L2&_)%Hlk. rewrite L1, L2. by apply (H2 p q y0 z0).
  - destruct H3 as (y0&Hy0&Hp). destruct (Hback _ _ Hy0) as (y&Hy&Hp'&_). exists y. split; congruence.
  - intros g. split; [apply H4|]. intros Hg. destruct (proj2 (H4 g) Hg) as [y0 Hy0].
    destruct (Hback g y0 Hy0) as (y&Hy&_). eauto.
  - split; [apply H5|]. intros e He. destruct (proj2 H5 e He). split; [|lia].
    rewrite lookup_insert_ne; [done|]. intros ->. congruence.
  - intros g [y (y0&Hy0&_)%Hlk]. specialize (H6 g ltac:(eauto)). lia.
  - intros c Hc. specialize (H7 c Hc). lia.
  - intros c Hc. destruct (H9 c Hc) as (g&y0&Hy0&Hin). destruct (Hback g y0 Hy0) as (y&Hy&_&L).
    exists g, y. by rewrite L.
  - intros r rd Hr. destruct (Hrs r rd Hr) as [R1 R2]. split; [done|].
    intros y c (y0&Hy0&_&L&_)%Hlk. rewrite L. by apply R2.
Qed.

Lemma opendirfile_inv E s dir x : tree_inv E s -> s.(files) !! dir = Some x -> 1 <= E dir ->
  exists r s', opendirfile dir s = Ok (r, s') /\ tree_inv E s' /\
    match r with
    | None => s' = s /\ Z.land (st_mode x.(fdir)) DMDIR = 0
    | Some r => s.(rdirs) !! r = None /\
        s'.(rdirs) = <[r := mkReaddir dir (head x.(filelist))]> s.(rdirs) /\
        s'.(cells) = s.(cells) /\ s'.(root) = s.(root) /\
        s'.(files) = <[dir := with_readers (x.(readers) + 1) x]> s.(files)
    end.
Proof.
  intros HI Hd HE. unfold opendirfile. eff_prim.
  destruct (Z.eqb_spec (Z.land (st_mode (fdir x)) DMDIR) 0); [by exists None, s|].
  eff_with (emalloc9p_run 1 s). eff_prim. unfold putfile. eff_prim.
  assert (Hr : s.(rdirs) !! brk s = None).
  { apply eq_None_not_Some. intros Hs. pose proof (ti_brk_rdirs HI _ Hs). lia. }
  exists (Some (brk s)). eexists. split; [reflexivity|]. split; [|done].
  set (rs := <[brk s := mkReaddir dir (head (filelist x))]> s.(rdirs)).
  replace (readers x + 1) with (nreaders rs dir).
  2: { unfold rs. rewrite nreaders_insert, decide_True by done. by rewrite (fo_readers (ti_file HI dir x Hd)). }
  apply (inv_readers E s dir x rs (brk s + 1) HI Hd); [lia|..].
  - intros g Hg. unfold rs. rewrite nreaders_insert, decide_False by (simpl; congruence). lia.
  - intros r [rd [[<- _]|[_ Hrr]]%lookup_insert_Some]; [lia|].
    pose proof (ti_brk_rdirs HI r ltac:(eauto)). lia.
  - intros r rd [[<- <-]|[_ Hrr]]%lookup_insert_Some; [|by apply (ti_rdir HI r rd)]. simpl.
    split; [done|]. intros y c Hy Hc. assert (y = x) as -> by congruence.
    destruct (filelist x); [done|]. injection Hc as <-. set_solver.
Qed.

Lemma cleanfilelist_rdirs E s f x rs s' : tree_inv E s -> s.(files) !! f = Some x ->
  cleanfilelist f s = Ok (tt, s') -> cleanfilelist f (set_rdirs rs s) = Ok (tt, set_rdirs rs s').
Proof.
  intros HI Hf. pose proof (ti_file HI f x Hf) as Fx. unfold cleanfilelist. eff_prim.
  erewrite (eff_bind_ok (deref files f) _ (set_rdirs rs s)) by (by apply deref_run). cbv beta.
  destruct (negb (readers x =? 0)); [by intros [= <-]|]. destruct (nxchild x =? 0); [by intros [= <-]|].
  erewrite eff_bind_ok by (apply cleancells_run; apply Fx). cbv beta.
  erewrite eff_bind_ok by (apply cleancells_run; apply Fx). cbv beta.
  unfold putfile. rewrite !modify_run. by intros [= <-].
Qed.

Lemma closedirfile_inv E s r rd : tree_inv E s -> s.(rdirs) !! r = Some rd ->
  exists s', closedirfile r s = Ok (tt, s') /\ tree_inv E s' /\ s'.(rdirs) = delete r s.(rdirs).
Proof.
  intros HI Hr. destruct (ti_rdir HI r rd Hr) as [HE Hpos].
  destruct (proj2 (ti_ext HI (rd_dir rd))) as [x Hx]; [lia|].
  unfold closedirfile. eff_prim. eff_prim. unfold putfile. eff_prim.
  set (rs := delete r s.(rdirs)).
  assert (HI1 : tree_inv E (set_files (<[rd_dir rd := with_readers (nreaders rs (rd_dir rd)) x]> s.(files))
                              (set_rdirs rs (set_brk s.(brk) s)))).
  { apply (inv_readers E s _ x rs s.(brk) HI Hx); [lia|..].
    - intros g Hg. unfold rs. rewrite (nreaders_delete _ r rd), decide_False by congruence. lia.
    - intros q [rd' [_ Hq]%lookup_delete_Some]. apply (ti_brk_rdirs HI). eauto.
    - intros q rd' [_ Hq]%lookup_delete_Some. by apply (ti_rdir HI q rd'). }
  assert (Hn : nreaders rs (rd_dir rd) = readers x - 1).
  { unfold rs. rewrite (nreaders_delete _ r rd), decide_True by done.
    by rewrite (fo_readers (ti_file HI _ x Hx)). }
  rewrite Hn in HI1. set (x' := with_readers (readers x - 1) x) in *.
  match type of HI1 with tree_inv _ ?t => set (s1 := t) in * end.
  assert (Hx' : files s1 !! rd_dir rd = Some x') by (simpl; apply lookup_insert_eq).
  assert (Hs : set_files (<[rd_dir rd := x']> s.(files)) s = set_rdirs s.(rdirs) s1) by (by destruct s).
  rewrite Hs. destruct (readers x - 1 =? 0).
  - destruct (cleanfilelist_inv E s1 _ x' HI1 Hx') as (s2&E2&HI2&R2&_).
    rewrite (eff_bind_ok _ _ _ _ _ (cleanfilelist_rdirs E s1 _ x' s.(rdirs) s2 HI1 Hx' E2)).
    rewrite modify_run. eexists. split; [reflexivity|]. simpl.
    replace (set_rdirs (delete r (rdirs s)) (set_rdirs (rdirs s) s2)) with s2; [done|].
    fold rs. change rs with (rdirs s1). rewrite <- R2. by destruct s2.
  - eff_prim. rewrite modify_run. eexists. split; [reflexivity|]. simpl. done.
Qed.

(** * Reading *)

(** The entries in the live cells of a list. *)
Definition entries (s : FS) (l : list Z) : list Stat :=
  omap (fun c => match s.(cells) !! c with Some (Some g) => fdir <$> s.(files) !! g | _ => None end) l.

Lemma entries_cons s c l : entries s (c :: l) =
  match s.(cells) !! c with
  | Some (Some g) => match s.(files) !! g with Some y => y.(fdir) :: entries s l | None => entries s l end
  | _ => entries s l
  end.
Proof. unfold entries. simpl. destruct (s.(cells) !! c) as [[g|]|]; simpl; try done. by destruct (files s !! g). Qed.

Lemma Zlen_entries_nil s : Zlen (concat (map wire_stat (entries s []))) = 0.
Proof. done. Qed.

(** One call delivers whole entries, from the position on, as many as fit. *)
Lemma readcells_run E s p x n : tree_inv E s -> s.(files) !! p = Some x -> forall l m out,
  (forall c, c ∈ l -> c ∈ x.(filelist)) -> m <= n ->
  exists l1 l2, l = l1 ++ l2 /\
    readcells l m n out s = Ok ((out ++ concat (map wire_stat (entries s l1)), head l2), s) /\
    m + Zlen (concat (map wire_stat (entries s l1))) <= n /\
    match l2 with
    | [] => True
    | c :: _ => n < m + Zlen (concat (map wire_stat (entries s l1))) + 2 \/
        exists g y, s.(cells) !! c = Some (Some g) /\ s.(files) !! g = Some y /\
          n < m + Zlen (concat (map wire_stat (entries s l1))) + Zlen (wire_stat y.(fdir))
    end.
Proof.
  intros HI Hp. pose proof (ti_file HI p x Hp) as Fx.
  induction l as [|c l IH]; intros m out Hl Hm; cbn [readcells].
  { exists [], []. split_and!; [done|by rewrite app_nil_r|rewrite Zlen_entries_nil; lia|done]. }
  destruct (Z.leb_spec (m + 2) n) as [H2|H2].
  2: { exists [], (c :: l). split_and!; [done|by rewrite app_nil_r|rewrite Zlen_entries_nil; lia|]. left. rewrite Zlen_entries_nil; lia. }
  destruct (proj2 (fo_cells Fx) c (Hl c ltac:(set_solver))) as [o Ho]. eff_prim. destruct o as [g|].
  - destruct (proj2 (fo_kids Fx) g) as (_&y&Hy&_).
    { apply kids_elem. exists c. split; [apply Hl; set_solver|done]. }
    eff_prim. unfold d2m. rewrite (proj2 (Z.ltb_ge (n - m) 2)) by lia.
    pose proof (Zlen_wire_stat (fdir y)) as Hw. zpos.
    destruct (Z.ltb_spec (n - m) (Zlen (wire_stat (fdir y)))) as [Hlt|Hge].
    + exists [], (c :: l). split_and!; [done|by rewrite app_nil_r|rewrite Zlen_entries_nil; lia|].
      right. exists g, y. split_and!; [done..|]. rewrite Zlen_entries_nil. lia.
    + rewrite (proj2 (Z.leb_gt _ _)) by (unfold BIT16SZ; lia).
      destruct (IH (m + Zlen (wire_stat (fdir y))) (out ++ wire_stat (fdir y)))
        as (l1&l2&->&E1&Hle&Hst); [set_solver|lia|].
      exists (c :: l1), l2. rewrite entries_cons, Ho, Hy. cbn [map concat]. rewrite Zlen_app.
      split_and!; [done|by rewrite E1, <- app_assoc|lia|].
      destruct l2; [done|]. destruct Hst as [?|(g'&y'&?&?&?)]; [left; lia|right].
      exists g', y'. split_and!; [done..|lia].
  - destruct (IH m out) as (l1&l2&->&E1&Hle&Hst); [set_solver|done|].
    exists (c :: l1), l2. rewrite entries_cons, Ho. done.
Qed.

Lemma from_split c l : c ∈ l -> exists l0, l = l0 ++ from c l /\ head (from c l) = Some c.
Proof.
  induction l as [|d l IH]; intros Hc; [by apply elem_of_nil in Hc|]. simpl.
  destruct (Z.eqb_spec d c) as [->|Hne]; [by exists []|].
  destruct IH as (l0&Hl&Hh); [set_solver|]. exists (d :: l0). simpl. split; [by f_equal|done].
Qed.

(** What is left to read at a position. *)
Definition unread (s : FS) (rd : Readdir) : list Z :=
  match rd.(rd_fl) with
  | None => []
  | Some c => match s.(files) !! rd.(rd_dir) with Some x => from c x.(filelist) | None => [] end
  end.

Lemma inv_position E s r rd fl : tree_inv E s -> s.(rdirs) !! r = Some rd ->
  (forall x c, s.(files) !! rd.(rd_dir) = Some x -> fl = Some c -> c ∈ x.(filelist)) ->
  tree_inv E (set_rdirs (<[r := mkReaddir rd.(rd_dir) fl]> s.(rdirs)) s).
Proof.
  intros [H1 H2 H3 H4 H5 H6 H7 H8 H9 H10] Hr Hfl. split; try done.
  - intros f x Hf. destruct (H1 f x Hf) as [F1 F2 F3 F4 F5 F6 F7 F8]. split; try done. simpl.
    by rewrite (nreaders_replace _ r rd).
  - simpl. intros q [rd' [[<- _]|[_ Hq]]%lookup_insert_Some]; apply H8; eauto.
  - simpl. intros q rd' [[<- <-]|[_ Hq]]%lookup_insert_Some; [|by apply (H10 q rd')].
    split; [by apply (H10 r rd)|]. exact Hfl.
Qed.
