(* ===== verification/FileTreeThm.v ===== *)
(** What the file trees of [lib9p] guarantee to their clients: safety of every
    legal sequence of calls, exact reference counts, and what creation, walks
    and directory reads mean. *)

From Stdlib Require Import String.
From S2P Require Import Prelude Mem CString Fcall ConvS2M ConvM2S ConvDir Eff FileTree FileTreeInv.

(** * Clients

    [E] is the client's side: how many references it holds on each file.  A
    call returns the client's side after it. *)

Inductive fop :=
| FAttach
| FCreate (p : Z) (name : list Z) (uid : option (list Z)) (perm aux now : Z)
| FWalk (dir : Z) (elem : list Z)
| FClose (f : Z)
| FRemove (f : Z)
| FOpendir (dir : Z)
| FReaddir (r n : Z)
| FClosedir (r : Z).

Definition fexec (op : fop) (E : Z -> Z) : eff FS (Z -> Z) :=
  match op with
  | FAttach => r ← gets root; _ ← incref r; mret (bump E r 1)
  | FCreate p name uid perm aux now =>
      o ← createfile p name uid perm aux now;
      mret (match o with Some f => bump E f 1 | None => E end)
  | FWalk dir elem =>
      o ← walkfile1 dir elem;
      mret (match o with Some g => bump (bump E dir (-1)) g 1 | None => bump E dir (-1) end)
  | FClose f => _ ← closefile f; mret (bump E f (-1))
  | FRemove f => _ ← removefile f; mret (bump E f (-1))
  | FOpendir dir => _ ← opendirfile dir; mret E
  | FReaddir r n => _ ← readdirfile r n; mret E
  | FClosedir r => _ ← closedirfile r; mret E
  end.

(** A reference other than the last one an open reader relies on. *)
Definition spare (E : Z -> Z) (s : FS) (f : Z) : Prop :=
  1 <= E f /\ forall r rd, s.(rdirs) !! r = Some rd -> rd.(rd_dir) = f -> 2 <= E f.

(** The library's conventions: a client uses only files it holds, and asks for
    [".."] only of a file that has not been removed. *)
Definition legal (E : Z -> Z) (s : FS) (op : fop) : Prop :=
  match op with
  | FAttach => True
  | FCreate p _ _ _ _ _ => 1 <= E p
  | FWalk dir elem => spare E s dir /\
      (elem = str ".." -> forall x, s.(files) !! dir = Some x -> x.(parent) <> None)
  | FClose f | FRemove f => spare E s f
  | FOpendir dir => 1 <= E dir
  | FReaddir r n => is_Some (s.(rdirs) !! r) /\ 0 <= n
  | FClosedir r => is_Some (s.(rdirs) !! r)
  end.

Definition fs0 : FS := mkFS ∅ ∅ ∅ [] 0 0 1 [] [].

(** Every state a client can bring about from a fresh tree. *)
Inductive reach : (Z -> Z) -> FS -> Prop :=
| reach_new user uid gid mode now s :
    alloctree user uid gid mode now fs0 = Ok (tt, s) -> reach (fun _ => 0) s
| reach_step E s op E' s' :
    reach E s -> legal E s op -> fexec op E s = Ok (E', s') -> reach E' s'.

(** * Lemmas *)

Lemma alloctree_inv user uid gid mode now :
  exists s, alloctree user uid gid mode now fs0 = Ok (tt, s) /\ tree_inv (fun _ => 0) s.
Proof.
  destruct (allocfile_run fs0) as (f&a&l&b&E1&_&Hfb&_&Hfl&Hnd&Hl).
  { split_and!; [constructor| |]; simpl; [intros d Hd; by apply elem_of_nil in Hd|].
    intros g [y Hy]. by rewrite lookup_empty in Hy. }
  unfold alloctree. eff_with E1.
  erewrite eff_bind_ok by (apply deref_run; simpl; apply lookup_insert_eq). cbv beta.
  unfold putfile. do 2 eff_prim. rewrite modify_run. eexists. split; [reflexivity|].
  match goal with |- tree_inv _ (set_qidgen 0 (set_root f (set_files (<[f := ?y]> _) _))) => set (x := y) end.
  cbn [files set_files]. rewrite insert_insert_eq.
  assert (Hf : forall g y, (<[f := x]> (files fs0)) !! g = Some y -> g = f /\ y = x).
  { intros g y [[-> ->]|[_ Hg]]%lookup_insert_Some; [done|]. simpl in Hg. by rewrite lookup_empty in Hg. }
  split; simpl.
  - intros g y [-> ->]%Hf. split; simpl; try done.
    + split; [constructor|]. intros c Hc. by apply elem_of_nil in Hc.
    + split; [constructor|]. intros k Hk. by apply elem_of_nil in Hk.
    + intros g1 g2 y1 y2 Hk. by apply elem_of_nil in Hk.
    + by left.
  - intros p q y z c [-> ->]%Hf _ Hc. by apply elem_of_nil in Hc.
  - eexists. rewrite lookup_insert_eq. done.
  - done.
  - split; [done|]. intros d Hd. destruct (Hl d Hd). split; [|done].
    rewrite lookup_insert_ne; [done|]. by intros ->.
  - intros g [y [-> _]%Hf]. done.
  - intros c [o Ho]. by rewrite lookup_empty in Ho.
  - intros c [o Ho]. by rewrite lookup_empty in Ho.
  - intros c [o Ho]. by rewrite lookup_empty in Ho.
  - intros r rd Hr. by rewrite lookup_empty in Hr.
Qed.

Lemma entries_rdirs s rs l : entries (set_rdirs rs s) l = entries s l.
Proof. done. Qed.
Lemma entries_app s l k : entries s (l ++ k) = entries s l ++ entries s k.
Proof. apply omap_app. Qed.

Lemma from_suffix c l0 l : NoDup (l0 ++ c :: l) -> from c (l0 ++ c :: l) = c :: l.
Proof.
  induction l0 as [|d l0 IH]; simpl; intros Hnd; [by rewrite Z.eqb_refl|].
  apply list.NoDup_cons in Hnd as [Hd Hnd]. rewrite (proj2 (Z.eqb_neq d c)) by set_solver. by apply IH.
Qed.

(** One call reads some of what is left, whole entries, and moves past them. *)
Lemma readdirfile_inv E s r rd n : tree_inv E s -> s.(rdirs) !! r = Some rd -> 0 <= n ->
  exists l1 l2, unread s rd = l1 ++ l2 /\
    let rd' := mkReaddir rd.(rd_dir) (head l2) in
    let s' := set_rdirs (<[r := rd']> s.(rdirs)) s in
    readdirfile r n s = Ok (concat (map wire_stat (entries s l1)), s') /\ tree_inv E s' /\
    unread s' rd' = l2 /\ Zlen (concat (map wire_stat (entries s l1))) <= n /\
    (2 <= n -> Forall (fun x => Zlen (wire_stat x) <= n) (entries s (unread s rd)) ->
     concat (map wire_stat (entries s l1)) = [] -> l2 = []).
Proof.
  intros HI Hr Hn. destruct (ti_rdir HI r rd Hr) as [HE Hpos].
  destruct (proj2 (ti_ext HI (rd_dir rd))) as [x Hx]; [lia|].
  unfold readdirfile, unread. eff_prim. destruct (rd_fl rd) as [c|] eqn:Ec.
  2: { exists [], []. simpl. split_and!; try done.
       - by rewrite insert_id by (destruct rd; simpl in *; congruence); destruct s.
       - by apply inv_position. }
  eff_prim. rewrite Hx. pose proof (Hpos x c Hx eq_refl) as Hc.
  destruct (from_split c (filelist x) Hc) as (l0&Hl0&Hh). rewrite Hh. cbn [nonnil]. eff_prim.
  destruct (readcells_run E s (rd_dir rd) x n HI Hx (from c (filelist x)) 0 [])
    as (l1&l2&Hl&E1&Hle&Hst); [|lia|].
  { intros d Hd. rewrite Hl0. set_solver. }
  eff_with E1. eff_prim. exists l1, l2. split; [done|]. cbv zeta. split; [done|].
  assert (Hsub : forall d, head l2 = Some d -> d ∈ filelist x /\ from d (filelist x) = l2).
  { intros d Hd. destruct l2 as [|d' l2]; [done|]. injection Hd as ->.
    rewrite Hl, app_assoc in Hl0. rewrite Hl0. split; [set_solver|]. apply from_suffix.
    rewrite <- Hl0. apply (ti_file HI _ x Hx). }
  split_and!.
  - apply inv_position; [done..|]. intros y d Hy Hd. assert (y = x) as -> by congruence. by apply Hsub.
  - simpl. rewrite Hx. destruct l2 as [|d l2]; [done|]. simpl. by apply Hsub.
  - lia.
  - intros H2 Hfit H0. rewrite H0 in Hst. change (Zlen (@nil Z)) with 0 in Hst.
    destruct l2 as [|d l2]; [done|]. exfalso. destruct Hst as [?|(g&y&Hg&Hy&?)]; [lia|].
    rewrite Hl, entries_app, entries_cons, Hg, Hy in Hfit.
    apply Forall_app in Hfit as [_ Hfit]. inversion Hfit; subst. lia.
Qed.

(** Read until nothing comes back, as a client does. *)
Fixpoint readall (fuel : nat) (r n : Z) : eff FS (list Z) :=
  match fuel with
  | O => mret []
  | S fuel =>
      out ← readdirfile r n;
      match out with
      | [] => mret []
      | _ => rest ← readall fuel r n; mret (out ++ rest)
      end
  end.

Lemma wire_stat_nonempty x : wire_stat x <> [].
Proof. intros H. pose proof (Zlen_wire_stat x) as Hw. rewrite H in Hw. zpos. change (Zlen (@nil Z)) with 0 in *. lia. Qed.

(** A read that returns nothing has passed only empty cells. *)
Lemma no_bytes_no_entries s l : concat (map wire_stat (entries s l)) = [] -> entries s l = [].
Proof.
  destruct (entries s l) as [|e es]; [done|]. cbn [map concat]. intros H. apply app_eq_nil in H as [H _].
  by apply wire_stat_nonempty in H.
Qed.

Lemma readall_run E n : 2 <= n -> forall fuel s r rd,
  tree_inv E s -> s.(rdirs) !! r = Some rd -> (length (unread s rd) < fuel)%nat ->
  Forall (fun x => Zlen (wire_stat x) <= n) (entries s (unread s rd)) ->
  exists s', readall fuel r n s = Ok (concat (map wire_stat (entries s (unread s rd))), s') /\
    tree_inv E s'.
Proof.
  intros Hn. induction fuel as [|fuel IH]; intros s r rd HI Hr Hf Hfit; [lia|]. cbn [readall].
  destruct (readdirfile_inv E s r rd n HI Hr) as (l1&l2&Hl&E1&HI1&Hu&Hle&Hprog); [lia|]. cbv zeta in *.
  specialize (Hprog Hn Hfit). eff_with E1.
  rewrite Hl, entries_app, map_app, concat_app in *.
  destruct (concat (map wire_stat (entries s l1))) as [|b bs] eqn:Eout.
  - rewrite (Hprog eq_refl) in *. rewrite eff_ret_run. eexists. split; [reflexivity|done].
  - set (s1 := set_rdirs _ s) in *.
    destruct (IH s1 r (mkReaddir rd.(rd_dir) (head l2))) as (s2&E2&HI2); [done| | | |].
    + simpl. apply lookup_insert_eq.
    + rewrite Hu. rewrite length_app in Hf. destruct l1; [done|]. simpl in Hf. lia.
    + rewrite Hu. apply Forall_app in Hfit as [_ Hfit]. exact Hfit.
    + eff_with E2. rewrite eff_ret_run, Hu. eexists. split; [reflexivity|done].
Qed.

(** * Theorems *)

Lemma legal_run E s op : tree_inv E s -> legal E s op ->
  exists E' s', fexec op E s = Ok (E', s') /\ tree_inv E' s'.
Proof.
  intros HI Hl.
  assert (Hlive : forall f, 1 <= E f -> exists x, s.(files) !! f = Some x).
  { intros f Hf. apply (proj2 (ti_ext HI f)). lia. }
  destruct op as [|p name uid perm aux now|dir e|f|f|dir|r n|r]; cbn [legal fexec] in *.
  - eff_prim. destruct (ti_root HI) as (x&Hx&_). destruct (incref_inv E s _ x HI Hx) as (s'&E1&HI').
    eff_with E1. eauto.
  - destruct (Hlive p Hl) as [x Hx].
    destruct (createfile_inv E s p x name uid perm aux now HI Hx) as (r&s'&E1&_&Hr).
    eff_with E1. eexists _, s'. split; [done|]. destruct r; tauto.
  - destruct Hl as [[H1 H2] Hup]. destruct (Hlive dir H1) as [x Hx].
    destruct (decide (e = str "..")) as [->|Hne].
    + destruct (parent x) as [p|] eqn:Ep; [|by destruct (Hup eq_refl x Hx)].
      destruct (walkup_inv E s dir x p HI Hx Ep H1 H2) as (s'&E1&_&HI'). eff_with E1. eauto.
    + destruct (walkfile1_inv E s dir x e HI Hx Hne H1 H2) as (r&s'&E1&_&Hr). eff_with E1.
      eexists _, s'. split; [done|]. destruct r; tauto.
  - destruct Hl as [H1 H2]. destruct (closefile_inv E s f HI H1 H2) as (s'&E1&HI'&_). eff_with E1. eauto.
  - destruct Hl as [H1 H2]. destruct (Hlive f H1) as [x Hx].
    destruct (removefile_inv E s f x HI Hx H1 H2) as (r&s'&E1&HI'&_). eff_with E1. eauto.
  - destruct (Hlive dir Hl) as [x Hx].
    destruct (opendirfile_inv E s dir x HI Hx Hl) as (r&s'&E1&HI'&_). eff_with E1. eauto.
  - destruct Hl as [[rd Hrd] Hn]. destruct (readdirfile_inv E s r rd n HI Hrd Hn) as (l1&l2&_&E1&HI'&_).
    cbv zeta in E1. eff_with E1. eauto.
  - destruct Hl as [rd Hrd]. destruct (closedirfile_inv E s r rd HI Hrd) as (s'&E1&HI'&_). eff_with E1. eauto.
Qed.

Lemma reach_inv E s : reach E s -> tree_inv E s.
Proof.
  induction 1 as [user uid gid mode now s Hs|E s op E' s' _ IH Hl E1].
  - destruct (alloctree_inv user uid gid mode now) as (s'&E1&HI). congruence.
  - destruct (legal_run E s op IH Hl) as (E2&s2&E3&HI). congruence.
Qed.

(** C14.  Safety of the file trees: after any legal sequence of attaches,
    creations, walks, closes, removals and directory reads the invariant
    [tree_inv] holds, and the next legal call runs to completion (no freed file
    or cell is touched and no assertion fails) and keeps it, for the references
    the clients then hold. *)
Theorem tree_calls_safe E s op : reach E s -> legal E s op ->
  tree_inv E s /\ exists E' s', fexec op E s = Ok (E', s') /\ tree_inv E' s'.
Proof. intros Hr Hl. split; [by apply reach_inv|]. apply legal_run; [by apply reach_inv|done]. Qed.

(** C15.  Exact accounting: in every reachable state, a file's reference count
    is what its clients hold, plus one per child, plus one for its place in the
    tree; it is positive; [nchild] and [nxchild] count the live and the empty
    cells of its list, [readers] its open readers; its children are distinct
    files with distinct names that name it as their parent; and every cell in
    the store is in the list of exactly one file. *)
Theorem tree_accounting E s : reach E s ->
  (forall f x, s.(files) !! f = Some x ->
    x.(ref) = E f + x.(nchild) + tree_ref x /\ 0 < x.(ref) /\
    x.(nchild) = Zlen (kids s.(cells) x.(filelist)) /\
    x.(nxchild) = Zlen x.(filelist) - Zlen (kids s.(cells) x.(filelist)) /\
    x.(readers) = nreaders s.(rdirs) f /\
    NoDup (kids s.(cells) x.(filelist)) /\
    (forall g, g ∈ kids s.(cells) x.(filelist) -> exists y, s.(files) !! g = Some y /\ y.(parent) = Some f) /\
    (forall g1 g2 y1 y2, g1 ∈ kids s.(cells) x.(filelist) -> g2 ∈ kids s.(cells) x.(filelist) ->
      s.(files) !! g1 = Some y1 -> s.(files) !! g2 = Some y2 ->
      st_name y1.(fdir) = st_name y2.(fdir) -> g1 = g2)) /\
  (forall c, is_Some (s.(cells) !! c) -> exists f, forall g y,
    s.(files) !! g = Some y -> c ∈ y.(filelist) <-> g = f).
Proof.
  intros HI%reach_inv. split.
  - intros f x Hf. destruct (ti_file HI f x Hf) as [F1 F2 F3 F4 F5 F6 F7 F8].
    split_and!; try tauto. intros g Hg. by apply F2.
  - intros c Hc. destruct (ti_leak HI c Hc) as (f&x&Hx&Hin). exists f. intros g y Hy. split.
    + intros Hcy. by apply (ti_owner HI g f y x c).
    + intros ->. congruence.
Qed.

(** A created file is found by its name, and creating it changes no other
    walk from its directory. *)
Theorem create_then_walk E s p x name uid perm aux now f s1 :
  reach E s -> s.(files) !! p = Some x -> spare E s p -> name <> str ".." ->
  createfile p name uid perm aux now s = Ok (Some f, s1) ->
  (exists s2, walkfile1 p name s1 = Ok (Some f, s2)) /\
  forall e, e <> name -> e <> str ".." -> exists r s2 s2',
    walkfile1 p e s = Ok (r, s2) /\ walkfile1 p e s1 = Ok (r, s2').
Proof.
  intros HI%reach_inv Hp [H1 H2] Hdd Ec.
  destruct (createfile_inv E s p x name uid perm aux now HI Hp) as (r&s'&E1&Hrd&Hr).
  rewrite Ec in E1. injection E1 as <- <-.
  destruct Hr as (HI1&Hf&Hnew&y&x'&Hy&Hd&Hx'&Hk&Hsame).
  assert (Hn : st_name (fdir y) = name) by (by rewrite Hd).
  assert (Hpf : p <> f) by congruence.
  assert (HE1 : 1 <= bump E f 1 p) by (rewrite bump_other by done; lia).
  assert (HE2 : forall r rd, s1.(rdirs) !! r = Some rd -> rd.(rd_dir) = p -> 2 <= bump E f 1 p).
  { intros r rd Hr. rewrite bump_other by done. rewrite Hrd in Hr. by apply (H2 r rd). }
  assert (Hf1 : f ∈ kids s1.(cells) x'.(filelist)) by (rewrite Hk; set_solver).
  pose proof (ti_file HI1 p x' Hx') as Fx'.
  split.
  - destruct (walkfile1_inv _ s1 p x' name HI1 Hx' Hdd HE1 HE2) as ([g|]&s2&E2&_&Hr2).
    + destruct Hr2 as (_&z&Hg&Hz&Hnz). exists s2. rewrite E2.
      by rewrite (fo_names Fx' g f z y Hg Hf1 Hz Hy ltac:(congruence)).
    + destruct Hr2 as [_ Hr2]. by destruct (Hr2 f y Hf1 Hy).
  - intros e He Hed.
    destruct (walkfile1_inv E s p x e HI Hp Hed H1 H2) as (r&s2&E2&_&Hr2).
    destruct (walkfile1_inv _ s1 p x' e HI1 Hx' Hed HE1 HE2) as (r'&s2'&E2'&_&Hr2').
    exists r, s2, s2'. split; [done|]. rewrite E2'. do 2 f_equal.
    destruct r as [g|], r' as [g'|]; try done.
    + destruct Hr2 as (_&z&Hg&Hz&Hnz), Hr2' as (_&z'&Hg'&Hz'&Hnz').
      destruct (Hsame g z Hz) as (w&Hw&Hdw). f_equal. symmetry.
      apply (fo_names Fx' g g' w z'); [rewrite Hk; set_solver|done..|congruence].
    + destruct Hr2 as (_&z&Hg&Hz&Hnz), Hr2' as [_ Hno]. destruct (Hsame g z Hz) as (w&Hw&Hdw).
      destruct (Hno g w); [rewrite Hk; set_solver|done|congruence].
    + destruct Hr2 as [_ Hno], Hr2' as (_&z'&Hg'&Hz'&Hnz'). rewrite Hk in Hg'.
      apply elem_of_app in Hg' as [Hg'| ->%list_elem_of_singleton].
      * destruct (proj2 (fo_kids (ti_file HI p x Hp)) g' Hg') as (_&z&Hz&_).
        destruct (Hsame g' z Hz) as (w&Hw&Hdw). destruct (Hno g' z); [done..|congruence].
      * congruence.
Qed.

(** C16.  Reading a directory from a fresh reader until a read returns nothing
    delivers the entries of its children, each once and in creation order, when
    the buffer has room for the largest of them; an entry is never split. *)
Theorem readdir_complete E s dir x n r s1 :
  reach E s -> s.(files) !! dir = Some x -> 1 <= E dir -> 2 <= n ->
  Forall (fun e => Zlen (wire_stat e) <= n) (entries s x.(filelist)) ->
  opendirfile dir s = Ok (Some r, s1) ->
  exists s2, readall (S (length x.(filelist))) r n s1 =
    Ok (concat (map wire_stat (entries s x.(filelist))), s2).
Proof.
  intros HI%reach_inv Hd HE Hn Hfit Eo.
  destruct (opendirfile_inv E s dir x HI Hd HE) as (r'&s'&E1&HI1&Hr). rewrite Eo in E1.
  injection E1 as <- <-. destruct Hr as (_&Hrd&Hc&_&Hf).
  set (rd := mkReaddir dir (head x.(filelist))) in *.
  assert (Hu : unread s1 rd = filelist x).
  { unfold unread, rd. simpl. rewrite Hf, lookup_insert_eq. simpl.
    destruct (filelist x) as [|c l]; [done|]. simpl. by rewrite Z.eqb_refl. }
  assert (He : entries s1 (filelist x) = entries s (filelist x)).
  { unfold entries. apply list_omap_ext. apply Forall_Forall2_diag, Forall_true. intros c. rewrite Hc, Hf.
    destruct (cells s !! c) as [[g|]|]; [|done..]. destruct (decide (g = dir)) as [->|Hne].
    - by rewrite lookup_insert_eq, Hd.
    - by rewrite lookup_insert_ne. }
  destruct (readall_run E n Hn (S (length (filelist x))) s1 r rd) as (s2&E2&_); [done| | | |].
  - rewrite Hrd. apply lookup_insert_eq.
  - rewrite Hu. lia.
  - by rewrite Hu, He.
  - exists s2. by rewrite E2, Hu, He.
Qed.

(** * Where the library falls short *)

Lemma freefiles_stuck fuel : forall f s,
  (forall g x, s.(files) !! g = Some x -> x.(ref) <> 0) -> forall r, freefiles fuel f s <> Ok r.
Proof.
  induction fuel as [|fuel IH]; intros f s Hs r; [done|]. cbn [freefiles].
  intros (x&s1&E1&E2)%eff_bind_inv.
  assert (Hx : s.(files) !! f = Some x /\ s1 = s).
  { unfold deref in E1. destruct (files s !! f) as [y|]; [|done]. by injection E1 as -> ->. }
  destruct Hx as [Hx ->]. clear E1. destruct (filelist x) as [|c l] eqn:El.
  - apply eff_bind_inv in E2 as (?&s2&E2&E3). injection E2 as _ <-.
    apply eff_bind_inv in E3 as (?&s3&E3&E4). injection E3 as _ <-.
    unfold freefile in E4. apply eff_bind_inv in E4 as (y&s4&E4&E5).
    unfold deref in E4. simpl in E4. rewrite Hx in E4. injection E4 as <- <-. rewrite El in E5.
    apply eff_bind_inv in E5 as (?&s5&E5&E6). injection E5 as _ <-.
    apply eff_bind_inv in E6 as (y&s6&E6&E7). unfold deref in E6. simpl in E6. rewrite Hx in E6.
    injection E6 as <- <-. apply eff_bind_inv in E7 as (?&?&E7&_).
    by rewrite (proj2 (Z.eqb_neq _ 0)) in E7 by by apply (Hs f x).
  - apply eff_bind_inv in E2 as (?&s2&E2&_). apply eff_bind_inv in E2 as (o&s3&E2&E3).
    assert (s3 = s) as -> by (unfold deref in E2; destruct (cells s !! c); [by injection E2|done]).
    apply eff_bind_inv in E3 as (g&s4&E3&E4).
    assert (s4 = s) as -> by (destruct o; [by injection E3|done]).
    apply eff_bind_inv in E4 as (?&s5&E4&_). by destruct (IH g s Hs _ E4).
Qed.

(** [freetree] never returns: the assertion in [freefile] that no
    reference is left fails on the first childless file it reaches, since the
    tree's own reference is never dropped. *)
Theorem freetree_never_returns E s fuel r : reach E s -> freetree fuel s <> Ok r.
Proof.
  intros HI%reach_inv. unfold freetree. eff_prim. apply freefiles_stuck.
  intros g x Hg. destruct (fo_ref (ti_file HI g x Hg)) as [_ ?]. lia.
Qed.

(** A session: a directory is made, walked to, and removed through one of the
    two references; the other remains. *)
Definition ex_E : Z -> Z := fun _ => 0.
Definition ex_tree : outcome (unit * FS) := alloctree (Some (str "glenda")) None None 0x1ED 7 fs0.
Definition ex_dirname : list Z := str "d".

Definition then_ {A B} (o : outcome (A * FS)) (k : eff FS B) : outcome (B * FS) :=
  match o with Ok (_, s) => k s | Abort => Abort | Fault => Fault end.
Definition out_fs {A} (o : outcome (A * FS)) : FS :=
  match o with Ok (_, s) => s | _ => fs0 end.

Definition ex_s0 : FS := Eval vm_compute in out_fs ex_tree.
Definition ex_create : fop := FCreate 1 ex_dirname None (Z.lor DMDIR 0x1ED) 0 8.
Definition ex_s1 : FS := Eval vm_compute in out_fs (fexec FAttach ex_E ex_s0).
Definition ex_E1 : Z -> Z := bump ex_E 1 1.
Definition ex_s2 : FS := Eval vm_compute in out_fs (fexec ex_create ex_E1 ex_s1).
Definition ex_E2 : Z -> Z := bump ex_E1 2 1.
Definition ex_s3 : FS := Eval vm_compute in out_fs (fexec (FWalk 1 ex_dirname) ex_E2 ex_s2).
Definition ex_E3 : Z -> Z := bump (bump ex_E2 1 (-1)) 2 1.
Definition ex_s4 : FS := Eval vm_compute in out_fs (fexec (FRemove 2) ex_E3 ex_s3).
Definition ex_E4 : Z -> Z := bump ex_E3 2 (-1).

Lemma ex_spare E s f : s.(rdirs) = ∅ -> 1 <= E f -> spare E s f.
Proof. intros H1 H2. split; [done|]. intros r rd. rewrite H1. by rewrite lookup_empty. Qed.

Lemma ex_reach0 : reach ex_E ex_s0.
Proof. apply (reach_new (Some (str "glenda")) None None 0x1ED 7). by vm_compute. Qed.
Lemma ex_reach1 : reach ex_E1 ex_s1.
Proof. apply (reach_step ex_E ex_s0 FAttach); [exact ex_reach0|done|by vm_compute]. Qed.
Lemma ex_reach2 : reach ex_E2 ex_s2.
Proof. apply (reach_step ex_E1 ex_s1 ex_create); [exact ex_reach1|done|by vm_compute]. Qed.
Lemma ex_reach3 : reach ex_E3 ex_s3.
Proof.
  apply (reach_step ex_E2 ex_s2 (FWalk 1 ex_dirname)); [exact ex_reach2| |by vm_compute].
  split; [by apply ex_spare|]. intros Hd. discriminate Hd.
Qed.
Lemma ex_reach4 : reach ex_E4 ex_s4.
Proof.
  apply (reach_step ex_E3 ex_s3 (FRemove 2)); [exact ex_reach3|by apply ex_spare|by vm_compute].
Qed.

(** The convention on [".."] is needed: a client can hold a removed
    directory (an open fid on it does), and walking up from there dereferences
    its nil parent. *)
Lemma walk_up_from_removed_faults :
  exists E s f, reach E s /\ 1 <= E f /\ walkfile1 f (str "..") s = Fault.
Proof. exists ex_E4, ex_s4, 2. split; [exact ex_reach4|]. split; [done|by vm_compute]. Qed.

(** Qids are not unique: the generator starts at the root's own path, so
    the first directory a tree gets has the qid of the root. *)
Lemma first_directory_has_root_qid :
  exists E s f x y, reach E s /\ f <> s.(root) /\ s.(files) !! f = Some x /\
    s.(files) !! s.(root) = Some y /\ st_qid x.(fdir) = st_qid y.(fdir).
Proof.
  eexists ex_E2, ex_s2, 2, _, _. split; [exact ex_reach2|]. split; [done|].
  split; [by vm_compute|]. split; [by vm_compute|done].
Qed.

(** * Witnesses *)

Lemma tree_calls_safe_witness :
  exists E' s', fexec (FOpendir 1) ex_E2 ex_s2 = Ok (E', s') /\ tree_inv E' s'.
Proof. apply (tree_calls_safe ex_E2 ex_s2 (FOpendir 1)); [exact ex_reach2|done]. Defined.

Definition ex_root1 : File := Eval vm_compute in default (zerofile 0) (ex_s1.(files) !! 1).

Lemma create_then_walk_witness :
  (exists s2, walkfile1 1 ex_dirname ex_s2 = Ok (Some 2, s2)) /\
  forall e, e <> ex_dirname -> e <> str ".." -> exists r s2 s2',
    walkfile1 1 e ex_s1 = Ok (r, s2) /\ walkfile1 1 e ex_s2 = Ok (r, s2').
Proof.
  apply (create_then_walk ex_E1 ex_s1 1 ex_root1 ex_dirname None (Z.lor DMDIR 0x1ED) 0 8 2 ex_s2);
    [exact ex_reach1|by vm_compute|by apply ex_spare|discriminate|by vm_compute].
Defined.

Definition ex_root2 : File := Eval vm_compute in default (zerofile 0) (ex_s2.(files) !! 1).
Definition ex_open : outcome (option Z * FS) := Eval vm_compute in opendirfile 1 ex_s2.

Lemma tree_accounting_witness : ex_root2.(ref) = 1 + ex_root2.(nchild) + tree_ref ex_root2.
Proof.
  apply (proj1 (tree_accounting ex_E2 ex_s2 ex_reach2) 1 ex_root2). by vm_compute.
Defined.

Lemma readdir_complete_witness :
  exists s2, readall 2 18 128 (out_fs ex_open) = Ok (concat (map wire_stat (entries ex_s2 [17])), s2).
Proof.
  apply (readdir_complete ex_E2 ex_s2 1 ex_root2 128 18 (out_fs ex_open));
    [exact ex_reach2|by vm_compute|done|done| |by vm_compute].
  vm_compute. repeat (constructor; [done|]). constructor.
Defined.

Lemma freetree_never_returns_witness : freetree 5 ex_s2 <> Ok (tt, fs0).
Proof. exact (freetree_never_returns ex_E2 ex_s2 5 (tt, fs0) ex_reach2). Defined.
