(* ===== verification/Srv.v ===== *)
(** [lib9p/fid.c], [req.c], [uid.c] and [srv.c]: the 9P file server.

    Fids and requests are reference-counted structures in stores, found by
    number through the tables of [intmap.c].  The functions an application
    supplies ([srv->open] and the like) are not part of the library: a handler
    that calls one leaves its request with the application, and the answer, a
    call of [respond] at any later time, is an event of its own.  The state's
    [sent] is what has been written to the connection; a handler runs with the
    locks it takes already free. *)

From Stdlib Require Import String.
From S2P Require Import Prelude Mem CString Fcall ConvS2M ConvM2S ConvDir Intmap Eff FileTree.

(** * Definitions *)

Definition OREAD : Z := 0.
Definition OWRITE : Z := 1.
Definition ORDWR : Z := 2.
Definition OEXEC : Z := 3.
Definition OTRUNC : Z := 16.
Definition ORCLOSE : Z := 64.
Definition AEXEC : Z := 1.
Definition AWRITE : Z := 2.
Definition AREAD : Z := 4.

Definition Ebadoffset := str "bad offset".
Definition Ebotch := str "9P protocol botch".
Definition Ecreatenondir := str "create in non-directory".
Definition Edupfid := str "duplicate fid".
Definition Eduptag := str "duplicate tag".
Definition Eisdir := str "is a directory".
Definition Enocreate := str "create prohibited".
Definition Enoremove := str "remove prohibited".
Definition Enostat := str "stat prohibited".
Definition Enotfound := str "file not found".
Definition Enowstat := str "wstat prohibited".
Definition Eperm := str "permission denied".
Definition Eunknownfid := str "unknown fid".
Definition Ebaddir := str "bad directory in wstat".
Definition Ewalknodir := str "walk in non-directory".

(** [struct Fid]; [omode] is a [char], -1 when not open. *)
Record Fid := mkFid {
  fd_fid : Z;
  omode : Z;
  file : option Z;
  fd_uid : option (list Z);
  fd_qid : Qid;
  fd_aux : Z;
  rdir : option Z;
  fd_ref : Z;
  diroffset : Z
}.

(** The members of [r->ofcall] that handlers and applications fill in; for a
    read, [o_data] is the [count] bytes at [data]. *)
Record Ofcall := mkOfcall {
  o_msize : Z;
  o_version : list Z;
  o_qid : Qid;
  o_aqid : Qid;
  o_iounit : Z;
  o_nwqid : Z;
  o_wqid : list Qid;
  o_data : list Z;
  o_count : Z;
  o_stat : list Z
}.

(** [struct Req]; [rq_pool] is whether [pool] is not [nil]. *)
Record Req := mkReq {
  rq_tag : Z;
  ifcall : Msg;
  ofcall : Ofcall;
  rq_d : Stat;
  oldreq : option Z;
  rq_fid : option Z;
  rq_afid : option Z;
  rq_newfid : option Z;
  rq_ref : Z;
  rq_pool : bool;
  responded : bool;
  rq_error : option (list Z);
  flush : list Z
}.

(** Which functions the application supplies; [walk1] and [clone] are called
    and return at once, the others answer later.  [argv0] is the program's name. *)
Record SrvOps := mkSrvOps {
  op_tree : bool;
  op_auth : bool;
  op_attach : bool;
  op_open : bool;
  op_create : bool;
  op_read : bool;
  op_write : bool;
  op_remove : bool;
  op_flush : bool;
  op_stat : bool;
  op_wstat : bool;
  op_walk : bool;
  op_walk1 : option (Fid -> list Z -> Z * (list Z + Qid));
  op_clone : option (Fid -> Fid -> Z * option (list Z));
  argv0 : list Z
}.

Record reply := mkReply { rp_req : Z; rp_tag : Z; rp_msg : Msg }.

Section Srv.
Context {T : Type} `{KM : KeyMap Z T}.

(** [struct Srv] and what it points to.  [calls] lists the requests handed to
    the application so far. *)
Record St := mkSt {
  fs : FS;
  fids : gmap Z Fid;
  fpool : T;
  reqs : gmap Z Req;
  rpool : T;
  msize : Z;
  next : Z;
  sent : list reply;
  calls : list Z
}.

Definition set_fs (v : FS) (s : St) : St :=
  mkSt v s.(fids) s.(fpool) s.(reqs) s.(rpool) s.(msize) s.(next) s.(sent) s.(calls).
Definition set_fids (v : gmap Z Fid) (s : St) : St :=
  mkSt s.(fs) v s.(fpool) s.(reqs) s.(rpool) s.(msize) s.(next) s.(sent) s.(calls).
Definition set_fpool (v : T) (s : St) : St :=
  mkSt s.(fs) s.(fids) v s.(reqs) s.(rpool) s.(msize) s.(next) s.(sent) s.(calls).
Definition set_reqs (v : gmap Z Req) (s : St) : St :=
  mkSt s.(fs) s.(fids) s.(fpool) v s.(rpool) s.(msize) s.(next) s.(sent) s.(calls).
Definition set_rpool (v : T) (s : St) : St :=
  mkSt s.(fs) s.(fids) s.(fpool) s.(reqs) v s.(msize) s.(next) s.(sent) s.(calls).
Definition set_smsize (v : Z) (s : St) : St :=
  mkSt s.(fs) s.(fids) s.(fpool) s.(reqs) s.(rpool) v s.(next) s.(sent) s.(calls).
Definition set_next (v : Z) (s : St) : St :=
  mkSt s.(fs) s.(fids) s.(fpool) s.(reqs) s.(rpool) s.(msize) v s.(sent) s.(calls).
Definition set_sent (v : list reply) (s : St) : St :=
  mkSt s.(fs) s.(fids) s.(fpool) s.(reqs) s.(rpool) s.(msize) s.(next) v s.(calls).
Definition set_calls (v : list Z) (s : St) : St :=
  mkSt s.(fs) s.(fids) s.(fpool) s.(reqs) s.(rpool) s.(msize) s.(next) s.(sent) v.

Definition E_ (A : Type) : Type := eff St A.

(** Run a file-tree operation on the server's tree. *)
Definition onfs {A} (c : eff FS A) : eff St A := fun s =>
  match c s.(fs) with Ok (x, t) => Ok (x, set_fs t s) | Abort => Abort | Fault => Fault end.

Definition putfid (f : Z) (x : Fid) : eff St unit := modify (fun s => set_fids (<[f := x]> s.(fids)) s).
Definition putreq (r : Z) (x : Req) : eff St unit := modify (fun s => set_reqs (<[r := x]> s.(reqs)) s).
Definition updfid (f : Z) (g : Fid -> Fid) : eff St unit := x ← deref fids f; putfid f (g x).
Definition updreq (r : Z) (g : Req -> Req) : eff St unit := x ← deref reqs r; putreq r (g x).
Definition newaddr : eff St Z := a ← gets next; _ ← modify (set_next (a + 1)); mret a.

Definition fid_ref (v : Z) (x : Fid) : Fid :=
  mkFid x.(fd_fid) x.(omode) x.(file) x.(fd_uid) x.(fd_qid) x.(fd_aux) x.(rdir) v x.(diroffset).
Definition fid_uid (v : option (list Z)) (x : Fid) : Fid :=
  mkFid x.(fd_fid) x.(omode) x.(file) v x.(fd_qid) x.(fd_aux) x.(rdir) x.(fd_ref) x.(diroffset).
Definition fid_file (v : option Z) (x : Fid) : Fid :=
  mkFid x.(fd_fid) x.(omode) v x.(fd_uid) x.(fd_qid) x.(fd_aux) x.(rdir) x.(fd_ref) x.(diroffset).
Definition fid_qid (v : Qid) (x : Fid) : Fid :=
  mkFid x.(fd_fid) x.(omode) x.(file) x.(fd_uid) v x.(fd_aux) x.(rdir) x.(fd_ref) x.(diroffset).
Definition fid_aux (v : Z) (x : Fid) : Fid :=
  mkFid x.(fd_fid) x.(omode) x.(file) x.(fd_uid) x.(fd_qid) v x.(rdir) x.(fd_ref) x.(diroffset).
Definition fid_omode (v : Z) (x : Fid) : Fid :=
  mkFid x.(fd_fid) v x.(file) x.(fd_uid) x.(fd_qid) x.(fd_aux) x.(rdir) x.(fd_ref) x.(diroffset).
Definition fid_rdir (v : option Z) (x : Fid) : Fid :=
  mkFid x.(fd_fid) x.(omode) x.(file) x.(fd_uid) x.(fd_qid) x.(fd_aux) v x.(fd_ref) x.(diroffset).
Definition fid_diroffset (v : Z) (x : Fid) : Fid :=
  mkFid x.(fd_fid) x.(omode) x.(file) x.(fd_uid) x.(fd_qid) x.(fd_aux) x.(rdir) x.(fd_ref) v.

Definition req_ref (v : Z) (x : Req) : Req :=
  mkReq x.(rq_tag) x.(ifcall) x.(ofcall) x.(rq_d) x.(oldreq) x.(rq_fid) x.(rq_afid) x.(rq_newfid) v
    x.(rq_pool) x.(responded) x.(rq_error) x.(flush).
Definition req_ifcall (v : Msg) (x : Req) : Req :=
  mkReq x.(rq_tag) v x.(ofcall) x.(rq_d) x.(oldreq) x.(rq_fid) x.(rq_afid) x.(rq_newfid) x.(rq_ref)
    x.(rq_pool) x.(responded) x.(rq_error) x.(flush).
Definition req_ofcall (v : Ofcall) (x : Req) : Req :=
  mkReq x.(rq_tag) x.(ifcall) v x.(rq_d) x.(oldreq) x.(rq_fid) x.(rq_afid) x.(rq_newfid) x.(rq_ref)
    x.(rq_pool) x.(responded) x.(rq_error) x.(flush).
Definition req_d (v : Stat) (x : Req) : Req :=
  mkReq x.(rq_tag) x.(ifcall) x.(ofcall) v x.(oldreq) x.(rq_fid) x.(rq_afid) x.(rq_newfid) x.(rq_ref)
    x.(rq_pool) x.(responded) x.(rq_error) x.(flush).
Definition req_oldreq (v : option Z) (x : Req) : Req :=
  mkReq x.(rq_tag) x.(ifcall) x.(ofcall) x.(rq_d) v x.(rq_fid) x.(rq_afid) x.(rq_newfid) x.(rq_ref)
    x.(rq_pool) x.(responded) x.(rq_error) x.(flush).
Definition req_fid (v : option Z) (x : Req) : Req :=
  mkReq x.(rq_tag) x.(ifcall) x.(ofcall) x.(rq_d) x.(oldreq) v x.(rq_afid) x.(rq_newfid) x.(rq_ref)
    x.(rq_pool) x.(responded) x.(rq_error) x.(flush).
Definition req_afid (v : option Z) (x : Req) : Req :=
  mkReq x.(rq_tag) x.(ifcall) x.(ofcall) x.(rq_d) x.(oldreq) x.(rq_fid) v x.(rq_newfid) x.(rq_ref)
    x.(rq_pool) x.(responded) x.(rq_error) x.(flush).
Definition req_newfid (v : option Z) (x : Req) : Req :=
  mkReq x.(rq_tag) x.(ifcall) x.(ofcall) x.(rq_d) x.(oldreq) x.(rq_fid) x.(rq_afid) v x.(rq_ref)
    x.(rq_pool) x.(responded) x.(rq_error) x.(flush).
Definition req_responded (v : bool) (x : Req) : Req :=
  mkReq x.(rq_tag) x.(ifcall) x.(ofcall) x.(rq_d) x.(oldreq) x.(rq_fid) x.(rq_afid) x.(rq_newfid)
    x.(rq_ref) x.(rq_pool) v x.(rq_error) x.(flush).
Definition req_error (v : option (list Z)) (x : Req) : Req :=
  mkReq x.(rq_tag) x.(ifcall) x.(ofcall) x.(rq_d) x.(oldreq) x.(rq_fid) x.(rq_afid) x.(rq_newfid)
    x.(rq_ref) x.(rq_pool) x.(responded) v x.(flush).
Definition req_flush (v : list Z) (x : Req) : Req :=
  mkReq x.(rq_tag) x.(ifcall) x.(ofcall) x.(rq_d) x.(oldreq) x.(rq_fid) x.(rq_afid) x.(rq_newfid)
    x.(rq_ref) x.(rq_pool) x.(responded) x.(rq_error) v.

Definition of_version (m : Z) (v : list Z) (o : Ofcall) : Ofcall :=
  mkOfcall m v o.(o_qid) o.(o_aqid) o.(o_iounit) o.(o_nwqid) o.(o_wqid) o.(o_data) o.(o_count) o.(o_stat).
Definition of_qid (q : Qid) (o : Ofcall) : Ofcall :=
  mkOfcall o.(o_msize) o.(o_version) q o.(o_aqid) o.(o_iounit) o.(o_nwqid) o.(o_wqid) o.(o_data)
    o.(o_count) o.(o_stat).
Definition of_walk (n : Z) (qs : list Qid) (o : Ofcall) : Ofcall :=
  mkOfcall o.(o_msize) o.(o_version) o.(o_qid) o.(o_aqid) o.(o_iounit) n qs o.(o_data) o.(o_count)
    o.(o_stat).
Definition of_data (d : list Z) (o : Ofcall) : Ofcall :=
  mkOfcall o.(o_msize) o.(o_version) o.(o_qid) o.(o_aqid) o.(o_iounit) o.(o_nwqid) o.(o_wqid) d
    o.(o_count) o.(o_stat).
Definition of_stat (b : list Z) (o : Ofcall) : Ofcall :=
  mkOfcall o.(o_msize) o.(o_version) o.(o_qid) o.(o_aqid) o.(o_iounit) o.(o_nwqid) o.(o_wqid) o.(o_data)
    o.(o_count) b.

Definition zeroqid : Qid := mkQid 0 0 0.
Definition zeroofcall : Ofcall := mkOfcall 0 [] zeroqid zeroqid 0 0 (replicate 16 zeroqid) [] 0 [].

(** ** fid.c *)

Definition incfidref (f : Z) (s : St) : option St :=
  match s.(fids) !! f with
  | Some x => Some (set_fids (<[f := fid_ref (x.(fd_ref) + 1) x]> s.(fids)) s)
  | None => None
  end.

Definition whenptr (p : option Z) (k : Z -> eff St unit) : eff St unit :=
  match p with Some p => k p | None => mret tt end.

Definition closefid (f : Z) : eff St unit :=
  x ← deref fids f;
  _ ← putfid f (fid_ref (x.(fd_ref) - 1) x);
  if x.(fd_ref) - 1 =? 0 then
    _ ← whenptr x.(rdir) (fun r => onfs (closedirfile r));
    _ ← whenptr x.(file) (fun g => onfs (closefile g));
    modify (fun s => set_fids (delete f s.(fids)) s)
  else mret tt.

Definition allocfid (fid : Z) : eff St (option Z) :=
  f ← newaddr;
  _ ← putfid f (mkFid fid (-1) None None zeroqid 0 None 2 0);
  p ← gets fpool;
  match km_caninsert p fid f with
  | (true, p) => _ ← modify (set_fpool p); mret (Some f)
  | (false, _) => _ ← closefid f; _ ← closefid f; mret None
  end.

(** The table calls [inc] on what it finds. *)
Definition lookupfid (fid : Z) : eff St (option Z) := fun s =>
  match km_lookup incfidref s.(fpool) fid s with Some (v, s') => Ok (v, s') | None => Fault end.

Definition removefid (fid : Z) : eff St (option Z) :=
  p ← gets fpool;
  let '(v, p) := km_delete p fid in
  _ ← modify (set_fpool p); mret v.

(** ** uid.c *)

Definition hasperm (f : Z) (uid : option (list Z)) (p : Z) : eff St bool :=
  x ← onfs (deref files f);
  let mode := st_mode x.(fdir) in
  let m := Z.land mode 7 in
  if Z.land p m =? p then mret true else
  match uid with
  | None => fault
  | Some uid =>
      let own := bool_decide (st_uid x.(fdir) = uid) in
      let m := if own then Z.lor m (Z.land (Z.shiftr mode 6) 7) else m in
      if own && (Z.land p m =? p) then mret true else
      let grp := bool_decide (st_gid x.(fdir) = uid) in
      let m := if grp then Z.lor m (Z.land (Z.shiftr mode 3) 7) else m in
      mret (grp && (Z.land p m =? p))
  end.

(** ** srv.c: what [respond] does for each kind of request *)

Definition changemsize (m : Z) : eff St unit := modify (set_smsize m).

Definition rversion (r : Z) (error : option (list Z)) : eff St unit :=
  _ ← assertb (match error with None => true | Some _ => false end);
  x ← deref reqs r;
  changemsize x.(ofcall).(o_msize).

(** [closefid(removefid(srv->fpool, f->fid))]: the table must have the fid. *)
Definition dropfid (f : Z) : eff St unit :=
  x ← deref fids f;
  v ← removefid x.(fd_fid);
  f' ← nonnil v;
  closefid f'.

Definition rauth (r : Z) (error : option (list Z)) : eff St unit :=
  x ← deref reqs r;
  match error with Some _ => whenptr x.(rq_afid) dropfid | None => mret tt end.

Definition rattach (r : Z) (error : option (list Z)) : eff St unit :=
  x ← deref reqs r;
  match error with Some _ => whenptr x.(rq_fid) dropfid | None => mret tt end.

(** The number of names of a walk. *)
Definition nwname (x : Msg) : Z := match x with MTwalk _ _ ws => Zlen ws | _ => 0 end.

Definition rwalk (r : Z) (error : option (list Z)) : eff St unit :=
  x ← deref reqs r;
  match x.(ifcall) with
  | MTwalk fid newfid ws =>
      let nwqid := x.(ofcall).(o_nwqid) in
      if (match error with Some _ => true | None => false end) || (nwqid <? Zlen ws) then
        _ ← (if negb (fid =? newfid) then whenptr x.(rq_newfid) dropfid else mret tt);
        if nwqid =? 0 then
          match error with
          | None => if negb (Zlen ws =? 0) then updreq r (req_error (Some Enotfound)) else mret tt
          | Some _ => mret tt
          end
        else updreq r (req_error None)
      else
        nf ← nonnil x.(rq_newfid);
        if nwqid =? 0 then
          f ← nonnil x.(rq_fid);
          y ← deref fids f;
          updfid nf (fid_qid y.(fd_qid))
        else
          match x.(ofcall).(o_wqid) !! Z.to_nat (nwqid - 1) with
          | Some q => updfid nf (fid_qid q)
          | None => fault
          end
  | _ => mret tt
  end.

(** The [mode] of an open or create. *)
Definition imode (x : Msg) : Z :=
  match x with MTopen _ m => m | MTcreate _ _ _ m => m | _ => 0 end.

Definition ropen (r : Z) (error : option (list Z)) : eff St unit :=
  match error with
  | Some _ => mret tt
  | None =>
      x ← deref reqs r;
      f ← nonnil x.(rq_fid);
      _ ← updfid f (fid_omode (s8 (imode x.(ifcall))));
      _ ← updfid f (fid_qid x.(ofcall).(o_qid));
      if negb (Z.land x.(ofcall).(o_qid).(q_type) QTDIR =? 0) then updfid f (fid_diroffset 0) else mret tt
  end.

Definition rcreate (r : Z) (error : option (list Z)) : eff St unit :=
  match error with
  | Some _ => mret tt
  | None =>
      x ← deref reqs r;
      f ← nonnil x.(rq_fid);
      _ ← updfid f (fid_omode (s8 (imode x.(ifcall))));
      updfid f (fid_qid x.(ofcall).(o_qid))
  end.

Definition rread (r : Z) (error : option (list Z)) : eff St unit :=
  match error with
  | Some _ => mret tt
  | None =>
      x ← deref reqs r;
      f ← nonnil x.(rq_fid);
      y ← deref fids f;
      if negb (Z.land y.(fd_qid).(q_type) QTDIR =? 0)
      then updfid f (fid_diroffset (y.(diroffset) + Zlen x.(ofcall).(o_data)))
      else mret tt
  end.

Definition stat_qid (q : Qid) (d : Stat) : Stat :=
  mkStat (st_type d) (st_dev d) q (st_mode d) (st_atime d) (st_mtime d) (st_length d) (st_name d)
    (st_uid d) (st_gid d) (st_muid d).

Definition rwrite (r : Z) (error : option (list Z)) : eff St unit :=
  match error with
  | Some _ => mret tt
  | None =>
      x ← deref reqs r;
      f ← nonnil x.(rq_fid);
      y ← deref fids f;
      whenptr y.(file) (fun g => onfs (
        z ← deref files g;
        let q := st_qid z.(fdir) in
        putfile g (with_dir (stat_qid (mkQid (q_path q) (u32 (q_vers q + 1)) (q_type q)) z.(fdir)) z)))
  end.

Definition rremove (r : Z) (error : option (list Z)) : eff St unit :=
  match error with
  | Some _ => mret tt
  | None =>
      x ← deref reqs r;
      f ← nonnil x.(rq_fid);
      y ← deref fids f;
      whenptr y.(file) (fun g =>
        v ← onfs (removefile g);
        _ ← (if v <? 0 then
               z ← onfs (deref files g);
               e ← onfs (gets errstr);
               updreq r (req_error (Some (take 127 (str "remove " ++ st_name z.(fdir) ++ str ": " ++ e))))
             else mret tt);
        updfid f (fid_file None))
  end.

(** Both calls of [convD2M]: the first for the size alone. *)
Definition rstat (r : Z) (error : option (list Z)) : eff St unit :=
  match error with
  | Some _ => mret tt
  | None =>
      x ← deref reqs r;
      let n := u16 (Zlen (wire_stat x.(rq_d)) - BIT16SZ) + BIT16SZ in
      let '(v, bs) := d2m x.(rq_d) n in
      if u16 v <=? BIT16SZ then updreq r (req_error (Some (str "convD2M fails")))
      else updreq r (fun x => req_ofcall (of_stat bs x.(ofcall)) x)
  end.

(** The reply [r->ofcall] stands for, given its type. *)
Definition rmsg (x : Req) : option Msg :=
  let o := x.(ofcall) in
  match x.(ifcall) with
  | MTversion _ _ => Some (MRversion o.(o_msize) o.(o_version))
  | MTauth _ _ _ => Some (MRauth o.(o_aqid))
  | MTattach _ _ _ _ => Some (MRattach o.(o_qid))
  | MTflush _ => Some MRflush
  | MTwalk _ _ _ =>
      if o.(o_nwqid) >? MAXWELEM then None else Some (MRwalk (take (Z.to_nat o.(o_nwqid)) o.(o_wqid)))
  | MTopen _ _ => Some (MRopen o.(o_qid) o.(o_iounit))
  | MTcreate _ _ _ _ => Some (MRcreate o.(o_qid) o.(o_iounit))
  | MTread _ _ _ => Some (MRread o.(o_data))
  | MTwrite _ _ _ => Some (MRwrite o.(o_count))
  | MTclunk _ => Some MRclunk
  | MTremove _ => Some MRremove
  | MTstat _ => Some (MRstat o.(o_stat))
  | MTwstat _ _ => Some MRwstat
  | _ => None
  end.

(** [setfcallerror] and the encoder: [None] when [convS2M] returns 0. *)
Definition encode (msz : Z) (x : Req) : option Msg :=
  let m := match x.(rq_error) with Some e => Some (MRerror e) | None => rmsg x end in
  match m with
  | Some m => if Zlen (wire x.(rq_tag) m) <=? msz then Some m else None
  | None => None
  end.

Definition increqref (r : Z) (s : St) : option St :=
  match s.(reqs) !! r with
  | Some x => Some (set_reqs (<[r := req_ref (x.(rq_ref) + 1) x]> s.(reqs)) s)
  | None => None
  end.

Definition lookupreq (tag : Z) : eff St (option Z) := fun s =>
  match km_lookup increqref s.(rpool) tag s with Some (v, s') => Ok (v, s') | None => Fault end.

Definition removereq (tag : Z) : eff St (option Z) :=
  p ← gets rpool;
  let '(v, p) := km_delete p tag in
  _ ← modify (set_rpool p); mret v.

(** [for(i=0; i<n; i++) k(l[i])] *)
Fixpoint each (l : list Z) (k : Z -> eff St unit) : eff St unit :=
  match l with [] => mret tt | a :: l => _ ← k a; each l k end.

(** [rflush], given [closereq]: whether to go on and answer. *)
Definition rflush (close : Z -> eff St unit) (r : Z) (error : option (list Z)) : eff St bool :=
  _ ← assertb (match error with None => true | Some _ => false end);
  x ← deref reqs r;
  match x.(oldreq) with
  | None => mret true
  | Some o =>
      y ← deref reqs o;
      if negb y.(responded) then
        _ ← putreq o (req_flush (y.(flush) ++ [r]) y); mret false
      else
        _ ← close o;
        _ ← updreq r (req_oldreq None);
        mret true
  end.

(** The switch of [respond]: what answering does for the type of request. *)
Definition rcall (close : Z -> eff St unit) (r : Z) (m : Msg) (error : option (list Z)) : eff St bool :=
  match m with
  | MTflush _ => rflush close r error
  | MTversion _ _ => _ ← rversion r error; mret true
  | MTauth _ _ _ => _ ← rauth r error; mret true
  | MTattach _ _ _ _ => _ ← rattach r error; mret true
  | MTwalk _ _ _ => _ ← rwalk r error; mret true
  | MTopen _ _ => _ ← ropen r error; mret true
  | MTcreate _ _ _ _ => _ ← rcreate r error; mret true
  | MTread _ _ _ => _ ← rread r error; mret true
  | MTwrite _ _ _ => _ ← rwrite r error; mret true
  | MTclunk _ => mret true
  | MTremove _ => _ ← rremove r error; mret true
  | MTstat _ => _ ← rstat r error; mret true
  | MTwstat _ _ => mret true
  | _ => abort
  end.

(** The rest of [respond]: encode and send the reply, then answer the flushes
    that waited for it. *)
Definition rsend (close resp : Z -> eff St unit) (r : Z) : eff St unit :=
  x ← deref reqs r;
  msz ← gets msize;
  match encode msz x with
  | None => abort
  | Some m =>
      _ ← (if x.(rq_pool) then
             v ← removereq x.(rq_tag);
             match v with Some r' => close r' | None => mret tt end
           else mret tt);
      _ ← modify (fun s => set_sent (s.(sent) ++ [mkReply r x.(rq_tag) m]) s);
      _ ← updreq r (req_responded true);
      x ← deref reqs r;
      _ ← each x.(flush) resp;
      _ ← updreq r (req_flush []);
      if x.(rq_pool) then close r
      else modify (fun s => set_reqs (delete r s.(reqs)) s)
  end.

(** [respond] and [closereq] call each other; the fuel bounds the nesting. *)
Fixpoint respond (fuel : nat) (r : Z) (error : option (list Z)) : eff St unit :=
  match fuel with
  | O => fault
  | S fuel =>
      x ← deref reqs r;
      _ ← assertb (negb x.(responded));
      _ ← updreq r (req_error error);
      go ← rcall (closereq fuel) r x.(ifcall) error;
      if negb go then mret tt else rsend (closereq fuel) (fun q => respond fuel q None) r
  end
with closereq (fuel : nat) (r : Z) : eff St unit :=
  match fuel with
  | O => fault
  | S fuel =>
      x ← deref reqs r;
      _ ← putreq r (req_ref (x.(rq_ref) - 1) x);
      if x.(rq_ref) - 1 =? 0 then
        _ ← whenptr x.(rq_fid) closefid;
        _ ← whenptr x.(rq_newfid) closefid;
        _ ← whenptr x.(rq_afid) closefid;
        _ ← whenptr x.(oldreq) (closereq fuel);
        _ ← each x.(flush) (fun q => respond fuel q None);
        modify (fun s => set_reqs (delete r s.(reqs)) s)
      else mret tt
  end.

(** Enough nesting for the requests there are. *)
Definition answer (r : Z) (error : option (list Z)) : eff St unit :=
  n ← gets (fun s => size s.(reqs)); respond (S (S (S n))) r error.
Definition release (r : Z) : eff St unit :=
  n ← gets (fun s => size s.(reqs)); closereq (S (S (S n))) r.

Definition allocreq (tag : Z) (x : Msg) : eff St (option Z) :=
  r ← newaddr;
  _ ← putreq r (mkReq tag x zeroofcall emptystat None None None None 2 true false None []);
  p ← gets rpool;
  match km_caninsert p tag r with
  | (true, p) => _ ← modify (set_rpool p); mret (Some r)
  | (false, _) => _ ← release r; _ ← release r; mret None
  end.
(** ** srv.c: handling a request *)

Context (ops : SrvOps).

(** Hand the request to the application. *)
Definition callback (r : Z) : eff St unit := modify (fun s => set_calls (s.(calls) ++ [r]) s).
Definition respond_err (r : Z) (e : list Z) : eff St unit := answer r (Some e).
Definition respond_ok (r : Z) : eff St unit := answer r None.

(** A string of a message as C sees it: up to the first NUL. *)
Fixpoint cut0 (s : list Z) : list Z :=
  match s with [] => [] | b :: s => if b =? 0 then [] else b :: cut0 s end.

Definition sversion (r : Z) : eff St unit :=
  x ← deref reqs r;
  match x.(ifcall) with
  | MTversion m v =>
      if negb (bool_decide (take 2 (cut0 v) = str "9P")) then
        _ ← putreq r (req_ofcall (of_version x.(ofcall).(o_msize) (str "unknown") x.(ofcall)) x);
        respond_ok r
      else
        _ ← putreq r (req_ofcall (of_version m (str "9P2000") x.(ofcall)) x);
        respond_ok r
  | _ => fault
  end.

Definition sauth (r : Z) (afid : Z) : eff St unit :=
  f ← allocfid afid;
  _ ← updreq r (req_afid f);
  match f with
  | None => respond_err r Edupfid
  | Some _ =>
      if op_auth ops then callback r
      else respond_err r (take 127 (argv0 ops ++ str ": authentication not required"))
  end.

Definition sattach (r : Z) (fid afid : Z) (uname : list Z) : eff St unit :=
  f ← allocfid fid;
  _ ← updreq r (req_fid f);
  match f with
  | None => respond_err r Edupfid
  | Some f =>
      _ ← updreq r (req_afid None);
      ok ← (if negb (afid =? NOFID) then
              a ← lookupfid afid;
              _ ← updreq r (req_afid a);
              mret (match a with Some _ => true | None => false end)
            else mret true);
      if negb ok then respond_err r Eunknownfid else
      _ ← updfid f (fid_uid (Some (cut0 uname)));
      _ ← (if op_tree ops then
             g ← onfs (gets root);
             _ ← updfid f (fid_file (Some g));
             _ ← onfs (incref g);
             z ← onfs (deref files g);
             _ ← updreq r (fun x => req_ofcall (of_qid (st_qid z.(fdir)) x.(ofcall)) x);
             updfid f (fid_qid (st_qid z.(fdir)))
           else mret tt);
      if op_attach ops then callback r else respond_ok r
  end.

Definition sflush (r : Z) (oldtag : Z) : eff St unit :=
  o ← lookupreq oldtag;
  _ ← updreq r (req_oldreq o);
  match o with
  | None => respond_ok r
  | Some o =>
      if o =? r then respond_ok r
      else if op_flush ops then callback r
      else respond_ok r
  end.

(** The loop of [filewalk]: the file reached or [nil], and the qids passed. *)
Fixpoint filewalk_loop (ws : list (list Z)) (f : Z) (qs : list Qid) : eff St (option Z * list Qid) :=
  match ws with
  | [] => mret (Some f, qs)
  | w :: ws =>
      g ← onfs (walkfile f (cut0 w));
      match g with
      | None => mret (None, qs)
      | Some g => z ← onfs (deref files g); filewalk_loop ws g (qs ++ [st_qid z.(fdir)])
      end
  end.

(** [r->ofcall.wqid[i] = ...] for the first [i] elements. *)
Definition putqids (qs old : list Qid) : list Qid := qs ++ drop (length qs) old.

Definition filewalk (r : Z) (f0 : Z) (newfid : Z) (ws : list (list Z)) : eff St unit :=
  _ ← onfs (incref f0);
  '(f, qs) ← filewalk_loop ws f0 [];
  _ ← updreq r (fun x => req_ofcall (of_walk (Zlen qs) (putqids qs x.(ofcall).(o_wqid)) x.(ofcall)) x);
  _ ← whenptr f (fun f =>
        z ← onfs (deref files f);
        _ ← updfid newfid (fid_file (Some f));
        updfid newfid (fid_qid (st_qid z.(fdir))));
  respond_ok r.

(** [oldwalk1] and [oldclone] around the application's functions, which may
    change [fid->aux]. *)
Definition oldwalk1 (w1 : Fid -> list Z -> Z * (list Z + Qid)) (f : Z) (name : list Z) :
    eff St (option (list Z)) :=
  x ← deref fids f;
  let '(aux, res) := w1 x name in
  _ ← updfid f (fid_aux aux);
  match res with
  | inl e => mret (Some e)
  | inr q => _ ← updfid f (fid_qid q); mret None
  end.

Definition oldclone (f newfid : Z) : eff St (option (list Z)) :=
  match op_clone ops with
  | None => mret None
  | Some cl =>
      x ← deref fids f;
      y ← deref fids newfid;
      let '(aux, res) := cl x y in
      _ ← updfid newfid (fid_aux aux);
      mret res
  end.

Fixpoint walk_loop (w1 : Fid -> list Z -> Z * (list Z + Qid)) (newfid : Z) (ws : list (list Z))
    (qs : list Qid) : eff St (option (list Z) * list Qid) :=
  match ws with
  | [] => mret (None, qs)
  | w :: ws =>
      e ← oldwalk1 w1 newfid (cut0 w);
      match e with
      | Some e => mret (Some e, qs)
      | None => y ← deref fids newfid; walk_loop w1 newfid ws (qs ++ [y.(fd_qid)])
      end
  end.

Definition walkandclone (w1 : Fid -> list Z -> Z * (list Z + Qid)) (r f newfid : Z)
    (ws : list (list Z)) : eff St unit :=
  if (f =? newfid) && (Zlen ws >? 1) then
    respond_err r (str "lib9p: unused documented feature not implemented")
  else
  e ← (if negb (f =? newfid) then
         y ← deref fids f;
         _ ← updfid newfid (fid_qid y.(fd_qid));
         oldclone f newfid
       else mret None);
  match e with
  | Some e => respond_err r e
  | None =>
      '(e, qs) ← walk_loop w1 newfid ws [];
      _ ← updreq r (fun x => req_ofcall (of_walk (Zlen qs) (putqids qs x.(ofcall).(o_wqid)) x.(ofcall)) x);
      match e with
      | Some e => if Zlen qs =? 0 then respond_err r e else respond_ok r
      | None => respond_ok r
      end
  end.

Definition swalk (r : Z) (fid newfid : Z) (ws : list (list Z)) : eff St unit :=
  f ← lookupfid fid;
  _ ← updreq r (req_fid f);
  match f with
  | None => respond_err r Eunknownfid
  | Some f =>
      y ← deref fids f;
      if negb (y.(omode) =? -1) then respond_err r (str "cannot clone open fid") else
      if negb (Zlen ws =? 0) && (Z.land y.(fd_qid).(q_type) QTDIR =? 0) then respond_err r Ewalknodir else
      nf ← (if negb (fid =? newfid) then
              nf ← allocfid newfid;
              _ ← updreq r (req_newfid nf);
              _ ← whenptr nf (fun nf =>
                    match y.(fd_uid) with Some u => updfid nf (fid_uid (Some u)) | None => fault end);
              mret nf
            else
              _ ← updfid f (fun y => fid_ref (y.(fd_ref) + 1) y);
              _ ← updreq r (req_newfid (Some f));
              mret (Some f));
      match nf with
      | None => respond_err r Edupfid
      | Some nf =>
          match y.(file) with
          | Some g => filewalk r g nf ws
          | None =>
              match op_walk1 ops with
              | Some w1 => walkandclone w1 r f nf ws
              | None => if op_walk ops then callback r else abort
              end
          end
      end
  end.

(** The permission an open mode needs: [mode&3], and [OTRUNC]. *)
Definition openperm (mode : Z) : Z :=
  let p := if Z.land mode 3 =? OREAD then AREAD
           else if Z.land mode 3 =? OWRITE then AWRITE
           else if Z.land mode 3 =? ORDWR then Z.lor AREAD AWRITE
           else AEXEC in
  if Z.land mode OTRUNC =? 0 then p else Z.lor p AWRITE.

Definition sopen (r : Z) (fid mode : Z) : eff St unit :=
  f ← lookupfid fid;
  _ ← updreq r (req_fid f);
  match f with
  | None => respond_err r Eunknownfid
  | Some f =>
      y ← deref fids f;
      let isdir := negb (Z.land y.(fd_qid).(q_type) QTDIR =? 0) in
      if negb (y.(omode) =? -1) then respond_err r Ebotch else
      if isdir && negb (Z.land mode (Z.lnot ORCLOSE) =? OREAD) then respond_err r Eisdir else
      _ ← updreq r (fun x => req_ofcall (of_qid y.(fd_qid) x.(ofcall)) x);
      let p := openperm mode in
      if isdir && negb (p =? AREAD) then respond_err r Eperm else
      e ← match y.(file) with
          | None => mret None
          | Some g =>
              ok ← hasperm g y.(fd_uid) p;
              if negb ok then mret (Some Eperm) else
              z ← onfs (deref files g);
              ok ← (if Z.land mode ORCLOSE =? 0 then mret true
                    else q ← nonnil z.(parent); hasperm q y.(fd_uid) AWRITE);
              if negb ok then mret (Some Eperm) else
              _ ← updreq r (fun x => req_ofcall (of_qid (st_qid z.(fdir)) x.(ofcall)) x);
              if Z.land (q_type (st_qid z.(fdir))) QTDIR =? 0 then mret None else
              d ← onfs (opendirfile g);
              _ ← updfid f (fid_rdir d);
              mret (match d with None => Some (str "opendirfile failed") | Some _ => None end)
          end;
      match e with
      | Some e => respond_err r e
      | None => if op_open ops then callback r else respond_ok r
      end
  end.

Definition screate (r : Z) (fid : Z) : eff St unit :=
  f ← lookupfid fid;
  _ ← updreq r (req_fid f);
  match f with
  | None => respond_err r Eunknownfid
  | Some f =>
      y ← deref fids f;
      if negb (y.(omode) =? -1) then respond_err r Ebotch else
      if Z.land y.(fd_qid).(q_type) QTDIR =? 0 then respond_err r Ecreatenondir else
      ok ← match y.(file) with Some g => hasperm g y.(fd_uid) AWRITE | None => mret true end;
      if negb ok then respond_err r Eperm else
      if op_create ops then callback r else respond_err r Enocreate
  end.

Definition sread (r : Z) (fid offset count : Z) : eff St unit :=
  f ← lookupfid fid;
  _ ← updreq r (req_fid f);
  match f with
  | None => respond_err r Eunknownfid
  | Some f =>
      y ← deref fids f;
      let isdir := negb (Z.land y.(fd_qid).(q_type) QTDIR =? 0) in
      if s32 count <? 0 then respond_err r Ebotch else
      if (offset <? 0) || (isdir && negb (offset =? 0) && negb (offset =? y.(diroffset)))
      then respond_err r Ebadoffset else
      msz ← gets msize;
      let lim := u32 (msz - IOHDRSZ) in
      let count := if count >? lim then lim else count in
      _ ← updreq r (req_ifcall (MTread fid offset count));
      let o := Z.land y.(omode) 3 in
      if negb (o =? OREAD) && negb (o =? ORDWR) && negb (o =? OEXEC) then respond_err r Ebotch else
      match isdir, y.(file) with
      | true, Some _ =>
          d ← nonnil y.(rdir);
          bs ← onfs (readdirfile d count);
          _ ← updreq r (fun x => req_ofcall (of_data bs x.(ofcall)) x);
          respond_ok r
      | _, _ => if op_read ops then callback r else respond_err r (str "no srv->read")
      end
  end.

(** [%ux] of an [int]. *)
Fixpoint hexdigits (k : nat) (v : Z) : list Z :=
  let d := v mod 16 in
  let c := if d <? 10 then 48 + d else 87 + d in
  match k with
  | O => [c]
  | S k => if v <? 16 then [c] else hexdigits k (v / 16) ++ [c]
  end.

Definition swrite (r : Z) (fid offset : Z) (data : list Z) : eff St unit :=
  f ← lookupfid fid;
  _ ← updreq r (req_fid f);
  match f with
  | None => respond_err r Eunknownfid
  | Some f =>
      y ← deref fids f;
      if s32 (Zlen data) <? 0 then respond_err r Ebotch else
      if offset <? 0 then respond_err r Ebotch else
      msz ← gets msize;
      let lim := u32 (msz - IOHDRSZ) in
      let data := if Zlen data >? lim then take (Z.to_nat lim) data else data in
      _ ← updreq r (req_ifcall (MTwrite fid offset data));
      let o := Z.land y.(omode) 3 in
      if negb (o =? OWRITE) && negb (o =? ORDWR) then
        respond_err r (str "write on fid with open mode 0x" ++ hexdigits 7 (u32 y.(omode)))
      else if op_write ops then callback r else respond_err r (str "no srv->write")
  end.

Definition sclunk (r : Z) (fid : Z) : eff St unit :=
  f ← removefid fid;
  _ ← updreq r (req_fid f);
  match f with
  | None => respond_err r Eunknownfid
  | Some _ => respond_ok r
  end.

Definition sremove (r : Z) (fid : Z) : eff St unit :=
  f ← removefid fid;
  _ ← updreq r (req_fid f);
  match f with
  | None => respond_err r Eunknownfid
  | Some f =>
      y ← deref fids f;
      ok ← match y.(file) with
           | Some g => z ← onfs (deref files g); q ← nonnil z.(parent); hasperm q y.(fd_uid) AWRITE
           | None => mret true
           end;
      if negb ok then respond_err r Eperm else
      if op_remove ops then callback r
      else answer r (match y.(file) with Some _ => None | None => Some Enoremove end)
  end.

Definition sstat (r : Z) (fid : Z) : eff St unit :=
  f ← lookupfid fid;
  _ ← updreq r (req_fid f);
  match f with
  | None => respond_err r Eunknownfid
  | Some f =>
      y ← deref fids f;
      _ ← whenptr y.(file) (fun g => z ← onfs (deref files g); updreq r (req_d z.(fdir)));
      if op_stat ops then callback r
      else match y.(file) with Some _ => respond_ok r | None => respond_err r Enostat end
  end.

(** What [convM2D] makes of the bytes of a [Twstat], when it consumes all of
    them: four strings follow the fixed part. *)
Fixpoint strs_of (k : nat) (bs : list Z) : option (list (list Z)) :=
  match k with
  | O => match bs with [] => Some [] | _ => None end
  | S k =>
      match bs with
      | a :: b :: bs =>
          let n := Z.to_nat (unle [a; b]) in
          if Nat.leb n (length bs) then
            match strs_of k (drop n bs) with
            | Some ss => Some (cut0 (take n bs) :: ss)
            | None => None
            end
          else None
      | _ => None
      end
  end.

Definition at_ (o n : nat) (bs : list Z) : Z := unle (take n (drop o bs)).
Definition stat_of (bs : list Z) : option Stat :=
  if Zlen bs <? STATFIXLEN then None else
  match strs_of 4 (drop 41 bs) with
  | Some [name; uid; gid; muid] =>
      Some (mkStat (at_ 2 2 bs) (at_ 4 4 bs) (mkQid (at_ 13 8 bs) (at_ 9 4 bs) (at_ 8 1 bs))
              (at_ 21 4 bs) (at_ 25 4 bs) (at_ 29 4 bs) (s64 (at_ 33 8 bs)) name uid gid muid)
  | _ => None
  end.

(** [r->d] after [convM2D], when what that returns is [nstat]: no bytes are none
    consumed, and leave [r->d] as it was. *)
Definition wstat_of (bs : list Z) (d : Stat) : option Stat :=
  match bs with [] => Some d | _ => stat_of bs end.

Definition swstat (r : Z) (fid : Z) (stat : list Z) : eff St unit :=
  f ← lookupfid fid;
  _ ← updreq r (req_fid f);
  match f with
  | None => respond_err r Eunknownfid
  | Some f =>
      if negb (op_wstat ops) then respond_err r Enowstat else
      x ← deref reqs r;
      match wstat_of stat x.(rq_d) with
      | None => respond_err r Ebaddir
      | Some d =>
          _ ← updreq r (req_d d);
          y ← deref fids f;
          if negb (u16 (Z.lnot (st_type d)) =? 0)
          then respond_err r (str "wstat -- attempt to change type") else
          if negb (u32 (Z.lnot (st_dev d)) =? 0)
          then respond_err r (str "wstat -- attempt to change dev") else
          if negb (u8 (Z.lnot (q_type (st_qid d))) =? 0) || negb (u32 (Z.lnot (q_vers (st_qid d))) =? 0)
             || negb (u64 (Z.lnot (q_path (st_qid d))) =? 0)
          then respond_err r (str "wstat -- attempt to change qid") else
          if negb (Zlen (st_muid d) =? 0) then respond_err r (str "wstat -- attempt to change muid") else
          if negb (u32 (Z.lnot (st_mode d)) =? 0)
             && negb (Z.shiftr (Z.land (st_mode d) DMDIR) 24 =? Z.land y.(fd_qid).(q_type) QTDIR)
          then respond_err r (str "wstat -- attempt to change DMDIR bit")
          else callback r
      end
  end.

(** [getreq] after decoding, for the message [x]: a request already answered by
    its error, when the tag is in use. *)
Definition getreq (tag : Z) (x : Msg) : eff St Z :=
  r ← allocreq tag x;
  match r with
  | Some r => mret r
  | None =>
      r ← newaddr;
      _ ← putreq r (mkReq tag x zeroofcall emptystat None None None None 1 false false (Some Eduptag) []);
      mret r
  end.

(** One round of the loop of [srv]. *)
Definition srv_round (tag : Z) (m : Msg) : eff St unit :=
  r ← getreq tag m;
  x ← deref reqs r;
  match x.(rq_error) with
  | Some e => respond_err r e
  | None =>
      match m with
      | MTversion _ _ => sversion r
      | MTauth afid _ _ => sauth r afid
      | MTattach fid afid uname _ => sattach r fid afid uname
      | MTflush oldtag => sflush r oldtag
      | MTwalk fid newfid ws => swalk r fid newfid ws
      | MTopen fid mode => sopen r fid mode
      | MTcreate fid _ _ _ => screate r fid
      | MTread fid offset count => sread r fid offset count
      | MTwrite fid offset data => swrite r fid offset data
      | MTclunk fid => sclunk r fid
      | MTremove fid => sremove r fid
      | MTstat fid => sstat r fid
      | MTwstat fid stat => swstat r fid stat
      | _ => respond_err r (str "unknown message")
      end
  end.

(** The application answers: it has filled in [r->ofcall] and [r->d]. *)
Definition app_respond (r : Z) (o : Ofcall) (d : Stat) (e : option (list Z)) : eff St unit :=
  _ ← updreq r (fun x => req_d d (req_ofcall o x));
  answer r e.

(** [srv] before its loop. *)
Definition srv_start (t : FS) (m : Z) : St :=
  mkSt t ∅ km_alloc ∅ km_alloc (if m =? 0 then 16 * 1024 + IOHDRSZ else m) 1 [] [].

End Srv.
