(* ===== verification/SrvInv.v ===== *)
(** The bookkeeping of the 9P server: what its reference counts, tables and
    flush lists promise, for a server without a file tree.

    Two halves.  [FInv] is about fids: a fid's count is one for the table that
    finds it by number plus one for each member of a request that points to it.
    [RInv] is about requests: a request not yet answered is in the table and is
    held twice, a flush request holds the request it flushes, and it waits in
    the list of the request it flushes or with the application.  [RInv] also
    relates the replies sent to a log of the messages received. *)

From Stdlib Require Import String.
From S2P Require Import Prelude Mem CString Fcall ConvS2M ConvM2S ConvDir Intmap Eff FileTree Srv.

(** [1] when the pointer is [p]. *)
Definition ptr (p : Z) (o : option Z) : Z := if decide (o = Some p) then 1 else 0.

Lemma ptr_nonneg p o : 0 <= ptr p o.
Proof. unfold ptr. case_decide; lia. Qed.
Lemma ptr_none p : ptr p None = 0.
Proof. done. Qed.
Lemma ptr_same p : ptr p (Some p) = 1.
Proof. unfold ptr. by rewrite decide_True. Qed.

(** The members of a request that point to the fid, or to the request. *)
Definition fcount (f : Z) (x : Req) : Z := ptr f x.(rq_fid) + ptr f x.(rq_newfid) + ptr f x.(rq_afid).
Definition ocount (r : Z) (x : Req) : Z := ptr r x.(oldreq).
Definition ucount (x : Req) : Z := if x.(responded) then 0 else 1.

Lemma fcount_nonneg f x : 0 <= fcount f x.
Proof. unfold fcount, ptr. repeat case_decide; lia. Qed.
Lemma ocount_nonneg f x : 0 <= ocount f x.
Proof. apply ptr_nonneg. Qed.
Lemma ucount_nonneg x : 0 <= ucount x.
Proof. unfold ucount. destruct responded; lia. Qed.

(** What was received: each request's tag and message and, for a flush, the
    request its tag found. *)
Notation Log := (gmap Z (Z * Msg * option Z)).

Section SrvInv.
Context {T : Type} `{KM : KeyMap Z T}.
Notation St := (@St T).

(** * Fids *)

Definition inpool (p : T) (f : Z) (y : Fid) : Z := ptr f (km_abs p !! y.(fd_fid)).

(** [c f] is how many members of requests point to [f]. *)
Record FInv (c : Z -> Z) (fids : gmap Z Fid) (p : T) (next : Z) : Prop := {
  fi_wf : km_wf p;
  fi_pool n f : km_abs p !! n = Some f -> exists y, fids !! f = Some y /\ y.(fd_fid) = n;
  fi_count f : 0 <= c f;
  fi_live f y : fids !! f = Some y ->
    y.(fd_ref) = inpool p f y + c f /\ 0 < y.(fd_ref) /\ y.(file) = None /\ y.(rdir) = None /\ f < next;
  fi_dead f : fids !! f = None -> c f = 0
}.

Lemma finv_ext c c' fids p nx : (forall f, c f = c' f) -> FInv c fids p nx -> FInv c' fids p nx.
Proof.
  intros H [Hw Hp Hc Hl Hd]. split; [done|done|intros; rewrite <- H; auto| |].
  - intros f y Hy. rewrite <- H. auto.
  - intros f Hf. rewrite <- H. auto.
Qed.

Lemma finv_next c fids p nx nx' : nx <= nx' -> FInv c fids p nx -> FInv c fids p nx'.
Proof.
  intros H [Hw Hp Hc Hl Hd]. split; [done..| |done].
  intros f y Hy. destruct (Hl f y Hy) as (?&?&?&?&?). split_and!; auto; lia.
Qed.

(** Members that are not counted may change. *)
Lemma finv_same c fids p nx f y y' :
  FInv c fids p nx -> fids !! f = Some y ->
  y'.(fd_fid) = y.(fd_fid) -> y'.(fd_ref) = y.(fd_ref) -> y'.(file) = y.(file) -> y'.(rdir) = y.(rdir) ->
  FInv c (<[f := y']> fids) p nx.
Proof.
  intros [Hw Hp Hc Hl Hd] Hy Hf Hr Hfi Hrd. split; [done| |done| |].
  - intros n g Hg. destruct (Hp n g Hg) as (z & Hz & Hn). destruct (decide (g = f)) as [->|].
    + exists y'. rewrite lookup_insert_eq. split; [done|]. congruence.
    + exists z. by rewrite lookup_insert_ne.
  - intros g z Hz. destruct (decide (g = f)) as [->|].
    + rewrite lookup_insert_eq in Hz. injection Hz as <-.
      destruct (Hl f y Hy) as (?&?&?&?&?). unfold inpool in *. rewrite Hf, Hr, Hfi, Hrd. done.
    + rewrite lookup_insert_ne in Hz by done. auto.
  - intros g Hg. destruct (decide (g = f)) as [->|]; [by rewrite lookup_insert_eq in Hg|].
    rewrite lookup_insert_ne in Hg by done. auto.
Qed.

(** One more member points to [f]. *)
Lemma finv_inc c fids p nx f y :
  FInv c fids p nx -> fids !! f = Some y ->
  FInv (fun g => c g + ptr g (Some f)) (<[f := fid_ref (y.(fd_ref) + 1) y]> fids) p nx.
Proof.
  intros [Hw Hp Hc Hl Hd] Hy. split; [done| | | |].
  - intros n g Hg. destruct (Hp n g Hg) as (z & Hz & Hn). destruct (decide (g = f)) as [->|].
    + exists (fid_ref (y.(fd_ref) + 1) y). rewrite lookup_insert_eq. split; [done|].
      simpl. congruence.
    + exists z. by rewrite lookup_insert_ne.
  - intros g. specialize (Hc g). pose proof (ptr_nonneg g (Some f)). lia.
  - intros g z Hz. destruct (decide (g = f)) as [->|].
    + rewrite lookup_insert_eq in Hz. injection Hz as <-. rewrite ptr_same.
      destruct (Hl f y Hy) as (?&?&?&?&?). unfold inpool in *. simpl. split_and!; auto; lia.
    + rewrite lookup_insert_ne in Hz by done. unfold ptr. rewrite decide_False by congruence.
      rewrite Z.add_0_r. auto.
  - intros g Hg. destruct (decide (g = f)) as [->|]; [by rewrite lookup_insert_eq in Hg|].
    rewrite lookup_insert_ne in Hg by done. unfold ptr. rewrite decide_False by congruence.
    rewrite Z.add_0_r. auto.
Qed.

(** What a live fid's count becomes when a reference goes. *)
Definition unref (f : Z) (y : Fid) (m : gmap Z Fid) : gmap Z Fid :=
  if y.(fd_ref) - 1 =? 0 then delete f m else <[f := fid_ref (y.(fd_ref) - 1) y]> m.

Lemma unref_ne f y m g : g <> f -> unref f y m !! g = m !! g.
Proof.
  intros H. unfold unref. destruct (_ =? _); [by rewrite lookup_delete_ne|by rewrite lookup_insert_ne].
Qed.

Lemma finv_dec c fids p nx f y :
  FInv c fids p nx -> fids !! f = Some y -> 0 < c f ->
  FInv (fun g => c g - ptr g (Some f)) (unref f y fids) p nx.
Proof.
  intros [Hw Hp Hc Hl Hd] Hy Hf.
  assert (Hne : forall g, g <> f -> ptr g (Some f) = 0)
    by (intros g Hg; unfold ptr; rewrite decide_False; congruence).
  destruct (Hl f y Hy) as (Hr & H0 & Hfi & Hrd & Hnx).
  pose proof (ptr_nonneg f (km_abs p !! y.(fd_fid))) as Hpos.
  split; [done| | | |].
  - intros n g Hg. destruct (Hp n g Hg) as (z & Hz & Hn). destruct (decide (g = f)) as [->|Hgf].
    + rewrite Hy in Hz. injection Hz as <-. unfold unref.
      destruct (Z.eqb_spec (fd_ref y - 1) 0) as [H1|H1].
      * unfold inpool, ptr in Hr. rewrite Hn, Hg, decide_True in Hr by done. lia.
      * eexists. rewrite lookup_insert_eq. done.
    + exists z. by rewrite unref_ne.
  - intros g. destruct (decide (g = f)) as [->|Hgf]; [rewrite ptr_same; lia|].
    rewrite Hne by done. specialize (Hc g). lia.
  - intros g z. destruct (decide (g = f)) as [->|Hgf].
    + unfold unref. rewrite ptr_same. destruct (Z.eqb_spec (fd_ref y - 1) 0) as [H1|H1].
      * by rewrite lookup_delete_eq.
      * rewrite lookup_insert_eq. intros [= <-]. unfold inpool in *. simpl. split_and!; auto; lia.
    + rewrite unref_ne, Hne, Z.sub_0_r by done. auto.
  - intros g. destruct (decide (g = f)) as [->|Hgf].
    + unfold unref. rewrite ptr_same. destruct (Z.eqb_spec (fd_ref y - 1) 0) as [H1|H1].
      * unfold inpool in *. lia.
      * by rewrite lookup_insert_eq.
    + rewrite unref_ne, Hne, Z.sub_0_r by done. auto.
Qed.

Lemma set_fids_fids v w (s : St) : set_fids v (set_fids w s) = set_fids v s.
Proof. done. Qed.

Lemma closefid_run c f (s : St) nx :
  FInv c s.(fids) s.(fpool) nx -> 0 < c f ->
  exists m, closefid f s = Ok (tt, set_fids m s) /\
    FInv (fun g => c g - ptr g (Some f)) m s.(fpool) nx.
Proof.
  intros HI Hc. destruct (s.(fids) !! f) as [y|] eqn:Hy.
  2:{ rewrite (fi_dead _ _ _ _ HI f Hy) in Hc. lia. }
  exists (unref f y s.(fids)). split; [|by apply finv_dec].
  destruct (fi_live _ _ _ _ HI f y Hy) as (_ & _ & Hfi & Hrd & _).
  unfold closefid. eff_prim. unfold putfid. eff_prim. unfold unref. destruct (_ =? _); [|done].
  rewrite Hfi, Hrd. simpl. unfold modify, mbind, eff_bind, mret, eff_ret. simpl.
  rewrite set_fids_fids. by rewrite delete_insert_eq.
Qed.

Lemma closefid_opt c o (s : St) nx :
  FInv c s.(fids) s.(fpool) nx -> (forall f, o = Some f -> 0 < c f) ->
  exists m, whenptr o closefid s = Ok (tt, set_fids m s) /\
    FInv (fun g => c g - ptr g o) m s.(fpool) nx.
Proof.
  intros HI Hc. destruct o as [f|]; [apply closefid_run; auto|].
  exists s.(fids). split; [by destruct s|]. eapply finv_ext; [|exact HI].
  intros. rewrite ptr_none. lia.
Qed.

Lemma lookupfid_run c n (s : St) nx :
  FInv c s.(fids) s.(fpool) nx ->
  exists m, lookupfid n s = Ok (km_abs s.(fpool) !! n, set_fids m s) /\
    FInv (fun g => c g + ptr g (km_abs s.(fpool) !! n)) m s.(fpool) nx /\
    (forall g y, m !! g = Some y -> exists y', s.(fids) !! g = Some y' /\ y.(fd_uid) = y'.(fd_uid)).
Proof.
  intros HI. unfold lookupfid. rewrite km_lookup_ok by apply HI.
  destruct (km_abs s.(fpool) !! n) as [f|] eqn:Hn.
  - destruct (fi_pool _ _ _ _ HI n f Hn) as (y & Hy & _). unfold incfidref. rewrite Hy.
    eexists. split; [done|]. split; [by apply finv_inc|]. intros g z.
    destruct (decide (g = f)) as [->|].
    + rewrite lookup_insert_eq. intros [= <-]. eauto.
    + rewrite lookup_insert_ne by done. eauto.
  - exists s.(fids). split; [by destruct s|]. split; [|eauto].
    eapply finv_ext; [|exact HI]. intros. rewrite ptr_none. lia.
Qed.

(** The table's own reference passes to the caller. *)
Lemma removefid_run c n (s : St) nx :
  FInv c s.(fids) s.(fpool) nx ->
  exists p, removefid n s = Ok (km_abs s.(fpool) !! n, set_fpool p s) /\
    FInv (fun g => c g + ptr g (km_abs s.(fpool) !! n)) s.(fids) p nx.
Proof.
  intros [Hw Hp Hc Hl Hd]. destruct (km_delete_ok s.(fpool) n Hw) as (p & Hdel & Hw' & Ha).
  exists p. split; [unfold removefid; eff_prim; by rewrite Hdel|]. split; [done| | | |].
  - intros k f. rewrite Ha. intros Hk. apply lookup_delete_Some in Hk as [_ Hk]. auto.
  - intros g. specialize (Hc g). pose proof (ptr_nonneg g (km_abs s.(fpool) !! n)). lia.
  - intros f y Hy. destruct (Hl f y Hy) as (Hr & ? & ? & ? & ?). split_and!; auto.
    unfold inpool in *. rewrite Ha. destruct (decide (n = y.(fd_fid))) as [Heq|Hne].
    + rewrite <- Heq in Hr |- *. rewrite lookup_delete_eq, ptr_none. lia.
    + rewrite lookup_delete_ne by done. enough (ptr f (km_abs s.(fpool) !! n) = 0) by lia.
      unfold ptr. rewrite decide_False; [done|]. intros Hk.
      destruct (Hp n f Hk) as (z & Hz & Hn). congruence.
  - intros f Hf. unfold ptr. rewrite decide_False; [rewrite Z.add_0_r; auto|]. intros Hk.
    destruct (Hp n f Hk) as (z & Hz & _). congruence.
Qed.

(** The fid is the one its number finds. *)
Definition listed (s : St) (f : Z) : Prop :=
  exists y, s.(fids) !! f = Some y /\ km_abs s.(fpool) !! y.(fd_fid) = Some f.

Lemma dropfid_run c f (s : St) nx :
  FInv c s.(fids) s.(fpool) nx -> listed s f ->
  exists m p, dropfid f s = Ok (tt, set_fids m (set_fpool p s)) /\ FInv c m p nx.
Proof.
  intros HI (y & Hy & Ha). unfold dropfid. eff_prim.
  destruct (removefid_run c y.(fd_fid) s nx HI) as (p & Hrun & HI'). rewrite Ha in *.
  eff_with Hrun. simpl. eff_prim.
  destruct (closefid_run _ f (set_fpool p s) nx HI') as (m & Hrun' & HI'').
  { pose proof (fi_count _ _ _ _ HI f). rewrite ptr_same. lia. }
  exists m, p. split; [exact Hrun'|]. eapply finv_ext; [|exact HI'']. intros. simpl. lia.
Qed.

Lemma allocfid_run c n (s : St) :
  FInv c s.(fids) s.(fpool) s.(next) ->
  exists o m p, allocfid n s = Ok (o, set_fpool p (set_fids m (set_next (s.(next) + 1) s))) /\
    FInv (fun g => c g + ptr g o) m p (s.(next) + 1) /\
    (forall f, o = Some f -> f = s.(next) /\ km_abs p !! n = Some f /\
       exists y, m !! f = Some y /\ y.(fd_fid) = n) /\
    (forall g, g <> s.(next) -> m !! g = s.(fids) !! g).
Proof.
  intros HI. pose proof HI as [Hw Hp Hc Hl Hd]. set (f := s.(next)).
  assert (Hf : s.(fids) !! f = None).
  { destruct (s.(fids) !! f) as [y|] eqn:Hy; [|done]. destruct (Hl f y Hy) as (_&_&_&_&?).
    subst f. lia. }
  unfold allocfid, newaddr. rewrite eff_bind_assoc. eff_prim. rewrite eff_bind_assoc. eff_prim.
  eff_prim. unfold putfid. eff_prim. eff_prim. simpl. fold f.
  pose proof (km_caninsert_ok s.(fpool) n f Hw) as Hins.
  set (y := mkFid n (-1) None None zeroqid 0 None 2 0).
  destruct (km_abs s.(fpool) !! n) as [g|] eqn:Hn.
  - rewrite Hins. exists None, s.(fids), s.(fpool). split; [|split; [|split]].
    + unfold closefid, putfid, deref, modify, mbind, eff_bind, mret, eff_ret. simpl. fold f.
      rewrite lookup_insert_eq. simpl. rewrite lookup_insert_eq. simpl.
      repeat (rewrite set_fids_fids || rewrite insert_insert_eq || rewrite delete_insert_eq).
      rewrite delete_id by done. by destruct s.
    + eapply finv_next with (nx := s.(next)); [lia|]. eapply finv_ext; [|exact HI].
      intros. rewrite ptr_none. lia.
    + done.
    + done.
  - destruct Hins as (p & Hins & Hw' & Ha). rewrite Hins.
    exists (Some f), (<[f := y]> s.(fids)), p. split; [done|]. split; [|split].
    + split; [done| | | |].
      * intros k g. rewrite Ha. destruct (decide (k = n)) as [->|Hk].
        -- rewrite lookup_insert_eq. intros [= <-]. exists y. by rewrite lookup_insert_eq.
        -- rewrite lookup_insert_ne by done. intros Hg. destruct (Hp k g Hg) as (z & Hz & ?).
           exists z. rewrite lookup_insert_ne by congruence. done.
      * intros g. specialize (Hc g). pose proof (ptr_nonneg g (Some f)). lia.
      * intros g z. destruct (decide (g = f)) as [->|Hg].
        -- rewrite lookup_insert_eq. intros [= <-]. unfold inpool. simpl.
           rewrite Ha, lookup_insert_eq, ptr_same, (Hd f Hf). subst f. split_and!; auto; lia.
        -- rewrite lookup_insert_ne by done. intros Hz. destruct (Hl g z Hz) as (Hr&?&?&?&?).
           split_and!; auto; [|lia]. rewrite Hr. unfold inpool. rewrite Ha.
           assert (ptr g (Some f) = 0) as -> by (unfold ptr; rewrite decide_False; congruence).
           destruct (decide (z.(fd_fid) = n)) as [->|Hne].
           ++ rewrite lookup_insert_eq, Hn. unfold ptr. rewrite !decide_False by congruence. lia.
           ++ rewrite lookup_insert_ne by done. lia.
      * intros g. destruct (decide (g = f)) as [->|Hg]; [by rewrite lookup_insert_eq|].
        rewrite lookup_insert_ne by done. intros Hg'. rewrite (Hd g Hg'). unfold ptr.
        rewrite decide_False by congruence. done.
    + intros g [= <-]. rewrite Ha, lookup_insert_eq. split_and!; auto.
      exists y. by rewrite lookup_insert_eq.
    + intros g Hg. by rewrite lookup_insert_ne.
Qed.

(** * Requests *)

Definition isflush (m : Msg) : bool := match m with MTflush _ => true | _ => false end.

(** The request has what [respond] uses when the application answers it. *)
Definition pend_ok (x : Req) : Prop :=
  match x.(ifcall) with
  | MTauth _ _ _ | MTattach _ _ _ _ | MTflush _ | MTclunk _ | MTstat _ | MTwstat _ _ => True
  | MTwalk _ _ _ => is_Some x.(rq_fid) /\ is_Some x.(rq_newfid)
  | MTopen _ _ | MTcreate _ _ _ _ | MTread _ _ _ | MTwrite _ _ _ | MTremove _ => is_Some x.(rq_fid)
  | _ => False
  end.

(** A reply has the type that answers the message, or is an error. *)
Definition answers (m rep : Msg) : Prop := msg_type rep = Rerror \/ msg_type rep = msg_type m + 1.

Definition replied (sent : list reply) : list Z := rp_req <$> sent.

(** Not yet answered. *)
Definition unanswered (reqs : gmap Z Req) (r : Z) : Prop :=
  exists x, reqs !! r = Some x /\ x.(responded) = false.

(** [q] is a flush of [r] that waits to be answered. *)
Definition flushing (reqs : gmap Z Req) (q r : Z) : Prop :=
  exists y, reqs !! q = Some y /\ y.(responded) = false /\ y.(oldreq) = Some r /\
    isflush y.(ifcall) = true.

(** A live request.  [W] are the requests being answered, [N] the one whose
    handler has not finished, [P] those not answered that wait in no list, [d]
    one that has a reference too many. *)
Record req_ok (d : option Z) (W N P : gset Z) (G : Log) (reqs : gmap Z Req) (rp : T) (nx r : Z) (x : Req) : Prop := {
  ro_pool : x.(rq_pool) = true;
  ro_next : r < nx;
  ro_table : x.(responded) = false -> km_abs rp !! x.(rq_tag) = Some r;
  ro_ref : x.(rq_ref) = ptr r d +
    (if x.(responded) then (if decide (r ∈ W) then 1 else 0) else 2) + msum (ocount r) reqs;
  ro_pos : 0 < x.(rq_ref);
  ro_old o : x.(oldreq) = Some o -> o < r /\ is_Some (reqs !! o) /\ x.(responded) = false;
  ro_kind : isflush x.(ifcall) = false -> x.(oldreq) = None;
  ro_nodup : x.(responded) = false -> NoDup x.(flush);
  ro_flush q : x.(responded) = false -> q ∈ x.(flush) -> q ∉ P /\ q ∉ N /\ flushing reqs q r;
  ro_done : x.(responded) = true -> r ∉ W -> x.(flush) = [];
  ro_pend : x.(responded) = false -> r ∉ N -> pend_ok x;
  ro_wait : x.(responded) = false -> r ∉ P ->
    exists o y, x.(oldreq) = Some o /\ reqs !! o = Some y /\ y.(responded) = false /\ r ∈ y.(flush);
  ro_log : exists m t, G !! r = Some (x.(rq_tag), m, t) /\ msg_type m = msg_type x.(ifcall) /\
    (x.(responded) = false -> r ∉ N -> x.(oldreq) = t)
}.

Record RInv (d : option Z) (W N P : gset Z) (G : Log) (reqs : gmap Z Req) (rp : T) (sent : list reply)
    (ms nx : Z) : Prop := {
  ri_wf : km_wf rp;
  ri_table t r : km_abs rp !! t = Some r ->
    exists x, reqs !! r = Some x /\ x.(rq_tag) = t /\ x.(responded) = false;
  ri_reqs r x : reqs !! r = Some x -> req_ok d W N P G reqs rp nx r x;
  ri_P r : r ∈ P -> unanswered reqs r;
  ri_W r : r ∈ W -> exists x, reqs !! r = Some x /\ x.(responded) = true;
  ri_log r : is_Some (G !! r) -> r < nx;
  ri_nodup : NoDup (replied sent);
  ri_reply i rep : sent !! i = Some rep ->
    exists m t, G !! rep.(rp_req) = Some (rep.(rp_tag), m, t) /\ answers m rep.(rp_msg) /\
      forall o, t = Some o -> o ∈ replied (take i sent);
  ri_once r : is_Some (G !! r) -> r ∈ replied sent <-> ~ unanswered reqs r;
  ri_msize : 256 <= ms
}.

(** Members that matter to nobody else. *)
Definition alike (x x' : Req) : Prop :=
  x'.(rq_tag) = x.(rq_tag) /\ x'.(rq_pool) = x.(rq_pool) /\ x'.(responded) = x.(responded) /\
  x'.(oldreq) = x.(oldreq) /\ x'.(flush) = x.(flush) /\
  msg_type x'.(ifcall) = msg_type x.(ifcall) /\ isflush x'.(ifcall) = isflush x.(ifcall).

Lemma alike_refl x : alike x x.
Proof. by repeat split. Qed.

Section Alike.
Context (reqs : gmap Z Req) (r : Z) (x x' : Req) (Hx : reqs !! r = Some x) (Ha : alike x x').

Lemma alike_lookup k y : <[r := x']> reqs !! k = Some y -> exists z, reqs !! k = Some z /\ alike z y.
Proof.
  destruct (decide (k = r)) as [->|].
  - rewrite lookup_insert_eq. intros [= <-]. eauto.
  - rewrite lookup_insert_ne by done. intros. eexists. split; [done|]. by repeat split.
Qed.

Lemma alike_lookup' k y : reqs !! k = Some y -> exists z, <[r := x']> reqs !! k = Some z /\ alike y z.
Proof.
  destruct (decide (k = r)) as [->|].
  - rewrite lookup_insert_eq, Hx. intros [= <-]. eauto.
  - rewrite lookup_insert_ne by done. intros. eexists. split; [done|]. by repeat split.
Qed.

Lemma alike_ocount k : msum (ocount k) (<[r := x']> reqs) = msum (ocount k) reqs.
Proof.
  rewrite (msum_set _ _ _ _ _ Hx). unfold ocount. destruct Ha as (_&_&_&->&_). lia.
Qed.

Lemma alike_unanswered k : unanswered (<[r := x']> reqs) k <-> unanswered reqs k.
Proof.
  split; intros (y & Hy & Hr).
  - destruct (alike_lookup k y Hy) as (z & Hz & _&_&?&_). exists z. split; [done|congruence].
  - destruct (alike_lookup' k y Hy) as (z & Hz & _&_&?&_). exists z. split; [done|congruence].
Qed.

Lemma alike_flushing q k : flushing reqs q k -> flushing (<[r := x']> reqs) q k.
Proof.
  intros (y & Hy & ? & ? & ?). destruct (alike_lookup' q y Hy) as (z & Hz & ?&?&?&?&?&?&?).
  exists z. split_and!; congruence.
Qed.

End Alike.

Lemma rinv_set d W N P G reqs rp sent ms nx r x x' :
  RInv d W N P G reqs rp sent ms nx -> reqs !! r = Some x -> alike x x' -> x'.(rq_ref) = x.(rq_ref) ->
  (x.(responded) = false -> r ∉ N -> pend_ok x') ->
  RInv d W N P G (<[r := x']> reqs) rp sent ms nx.
Proof.
  intros [] Hx Ha Hr Hpd. split; try done.
  - intros t k Hk. destruct (ri_table0 t k Hk) as (y & Hy & ? & ?).
    destruct (alike_lookup' reqs r x x' Hx Ha k y Hy) as (z & Hz & ?&_&?&_).
    exists z. split_and!; congruence.
  - intros k y Hy. destruct (alike_lookup reqs r x x' Hx Ha k y Hy) as (z & Hz & Hal).
    pose proof (ri_reqs0 k z Hz) as [].
    assert (Href : y.(rq_ref) = z.(rq_ref)).
    { destruct (decide (k = r)) as [->|]; [rewrite lookup_insert_eq in Hy|
        rewrite lookup_insert_ne in Hy by done]; congruence. }
    destruct Hal as (Ht & Hpl & Hrs & Ho & Hf & Hty & Hi).
    split; rewrite ?Ht, ?Hpl, ?Hrs, ?Ho, ?Hf, ?Hi, ?Href, ?(alike_ocount reqs r x x' Hx Ha k); auto.
    + intros o Ho'. destruct (ro_old0 o Ho') as (? & [w Hw] & ?). split_and!; auto.
      destruct (alike_lookup' reqs r x x' Hx Ha o w Hw) as (? & ? & _). eauto.
    + intros q ? Hq. destruct (ro_flush0 q) as (?&?&?); auto. split_and!; auto.
      by apply (alike_flushing _ _ x).
    + intros ? HN. destruct (decide (k = r)) as [->|].
      * rewrite lookup_insert_eq in Hy. injection Hy as <-. rewrite Hx in Hz. injection Hz as <-. auto.
      * rewrite lookup_insert_ne, Hz in Hy by done. injection Hy as <-. auto.
    + intros ? HP. destruct (ro_wait0) as (o & w & ? & Hw & ? & ?); auto.
      destruct (alike_lookup' reqs r x x' Hx Ha o w Hw) as (v & Hv & _&_&?&_&Hfl&_).
      exists o, v. rewrite Hfl. split_and!; congruence.
    + destruct ro_log0 as (m & t & ? & ? & ?). exists m, t. rewrite Hty. done.
  - intros k Hk. apply alike_unanswered with x; auto.
  - intros k Hk. destruct (ri_W0 k Hk) as (y & Hy & ?).
    destruct (alike_lookup' reqs r x x' Hx Ha k y Hy) as (z & Hz & _&_&?&_).
    exists z. split; congruence.
  - intros k Hk. rewrite (alike_unanswered reqs r x x' Hx Ha k). auto.
Qed.

Lemma flushing_live reqs q r : flushing reqs q r -> is_Some (reqs !! q).
Proof. intros (y & -> & _). eauto. Qed.
Lemma unanswered_live reqs r : unanswered reqs r -> is_Some (reqs !! r).
Proof. intros (y & -> & _). eauto. Qed.

Lemma unanswered_ne reqs r x k : k <> r -> unanswered (<[r := x]> reqs) k <-> unanswered reqs k.
Proof. intros H. unfold unanswered. by setoid_rewrite lookup_insert_ne. Qed.
Lemma unanswered_eq reqs r x : unanswered (<[r := x]> reqs) r <-> x.(responded) = false.
Proof.
  unfold unanswered. rewrite lookup_insert_eq. split; [intros (y & [= <-] & ?); done|eauto].
Qed.
Lemma flushing_ne reqs r x q k : q <> r -> flushing (<[r := x]> reqs) q k <-> flushing reqs q k.
Proof. intros H. unfold flushing. by setoid_rewrite lookup_insert_ne. Qed.

Definition newreq (tag : Z) (m : Msg) : Req :=
  mkReq tag m zeroofcall emptystat None None None None 2 true false None [].

Lemma rinv_dead d W N P G reqs rp sent ms nx r :
  RInv d W N P G reqs rp sent ms nx -> nx <= r ->
  reqs !! r = None /\ G !! r = None /\ r ∉ replied sent /\ msum (ocount r) reqs = 0.
Proof.
  intros [] Hr.
  assert (Hd : reqs !! r = None).
  { destruct (reqs !! r) as [x|] eqn:Hx; [|done]. destruct (ri_reqs0 r x Hx). lia. }
  assert (HG : G !! r = None).
  { destruct (G !! r) as [x|] eqn:Hx; [|done]. specialize (ri_log0 r). rewrite Hx in ri_log0.
    specialize (ri_log0 (mk_is_Some _ _ eq_refl)). lia. }
  split_and!; try done.
  - unfold replied. rewrite list_elem_of_fmap. intros (rep & -> & Hin).
    apply list_elem_of_lookup in Hin as [i Hi]. destruct (ri_reply0 i rep Hi) as (m & t & ? & _).
    congruence.
  - apply msum_none; [apply ocount_nonneg|]. intros k x Hx. unfold ocount, ptr.
    rewrite decide_False; [done|]. intros Ho. destruct (ri_reqs0 k x Hx).
    destruct (ro_old0 r Ho) as (_ & [? ?] & _). congruence.
Qed.

Lemma rinv_new W N P G reqs rp rp' sent ms nx nx' r tag m t :
  RInv None W N P G reqs rp sent ms nx -> nx <= r < nx' ->
  km_abs rp !! tag = None -> km_wf rp' -> km_abs rp' = <[tag := r]> (km_abs rp) ->
  RInv None W ({[r]} ∪ N) ({[r]} ∪ P) (<[r := (tag, m, t)]> G) (<[r := newreq tag m]> reqs) rp' sent ms nx'.
Proof.
  intros HI Hr Htag Hw Ha.
  destruct (rinv_dead _ _ _ _ _ _ _ _ _ _ r HI ltac:(lia)) as (Hd & HG & Hns & Hc).
  pose proof HI as [].
  assert (Hne : forall k, is_Some (reqs !! k) -> k <> r) by (intros k [? ?] ->; congruence).
  assert (HneG : forall k, is_Some (G !! k) -> k <> r) by (intros k [? ?] ->; congruence).
  assert (Hcnt : forall k, msum (ocount k) (<[r := newreq tag m]> reqs) = msum (ocount k) reqs)
    by (intros; by rewrite msum_new).
  split; try done.
  - intros u k. rewrite Ha. destruct (decide (u = tag)) as [->|].
    + rewrite lookup_insert_eq. intros [= <-]. exists (newreq tag m). by rewrite lookup_insert_eq.
    + rewrite lookup_insert_ne by done. intros Hk. destruct (ri_table0 u k Hk) as (y & Hy & ? & ?).
      exists y. rewrite lookup_insert_ne by (apply not_eq_sym, Hne; eauto). done.
  - intros k y. destruct (decide (k = r)) as [->|Hkr].
    + rewrite lookup_insert_eq. intros [= <-]. split; try done; try (simpl; lia).
      * intros _. rewrite Ha. apply lookup_insert_eq.
      * rewrite Hcnt, Hc. reflexivity.
      * intros _. constructor.
      * intros q _ Hq. by apply elem_of_nil in Hq.
      * intros _ HN. exfalso. set_solver.
      * intros _ HP. exfalso. set_solver.
      * exists m, t. rewrite lookup_insert_eq. split_and!; [done..|]. intros _ HN. exfalso. set_solver.
    + rewrite lookup_insert_ne by done. intros Hy. destruct (ri_reqs0 k y Hy).
      split; rewrite ?Hcnt; try done; auto.
      * lia.
      * intros Hrs. rewrite Ha, lookup_insert_ne; auto. intros Heq.
        rewrite Heq, (ro_table0 Hrs) in Htag. done.
      * intros o Ho. destruct (ro_old0 o Ho) as (? & ? & ?). split_and!; auto.
        rewrite lookup_insert_ne by (apply not_eq_sym, Hne; eauto). done.
      * intros q ? Hq. destruct (ro_flush0 q) as (? & ? & Hf); auto.
        pose proof (Hne q (flushing_live _ _ _ Hf)). split_and!; [set_solver..|].
        by apply flushing_ne.
      * intros ? ?. apply ro_pend0; set_solver.
      * intros ? HP. destruct ro_wait0 as (o & z & ? & Hz & ? & ?); [done|set_solver|].
        exists o, z. rewrite lookup_insert_ne by (apply not_eq_sym, Hne; eauto). done.
      * destruct ro_log0 as (m' & t' & ? & ? & Hold). exists m', t'.
        rewrite lookup_insert_ne by done. split_and!; [done..|]. intros ? ?. apply Hold; set_solver.
  - intros k Hk. destruct (decide (k = r)) as [->|]; [by apply unanswered_eq|].
    apply unanswered_ne; [done|]. apply ri_P0. set_solver.
  - intros k Hk. destruct (ri_W0 k Hk) as (y & Hy & ?). exists y.
    rewrite lookup_insert_ne by (apply not_eq_sym, Hne; eauto). done.
  - intros k. destruct (decide (k = r)) as [->|]; [lia|].
    rewrite lookup_insert_ne by done. intros Hk. specialize (ri_log0 k Hk). lia.
  - intros i rep Hi. destruct (ri_reply0 i rep Hi) as (m' & t' & HG' & ?).
    exists m', t'. rewrite lookup_insert_ne by (apply not_eq_sym, HneG; eauto). done.
  - intros k. destruct (decide (k = r)) as [->|].
    + intros _. rewrite unanswered_eq. split; [done|]. simpl. tauto.
    + rewrite lookup_insert_ne, unanswered_ne by done. auto.
Qed.

(** The handler is done with the request. *)
Lemma rinv_settle d W N P G reqs rp sent ms nx r x :
  RInv d W N P G reqs rp sent ms nx -> reqs !! r = Some x ->
  (x.(responded) = false -> pend_ok x /\ forall g m t, G !! r = Some (g, m, t) -> x.(oldreq) = t) ->
  RInv d W (N ∖ {[r]}) P G reqs rp sent ms nx.
Proof.
  intros [] Hx Hs. split; try done. intros k y Hy. destruct (ri_reqs0 k y Hy).
  split; try done.
  - intros q Hq Hi. destruct (ro_flush0 q Hq Hi) as (? & ? & ?). split_and!; auto. set_solver.
  - intros Hr Hk. destruct (decide (k = r)) as [->|]; [|apply ro_pend0; set_solver].
    rewrite Hx in Hy. injection Hy as <-. by apply Hs.
  - destruct ro_log0 as (m & t & HG & ? & Ho). exists m, t. split_and!; auto.
    intros Hr Hk. destruct (decide (k = r)) as [->|]; [|apply Ho; set_solver].
    rewrite Hx in Hy. injection Hy as <-. by eapply Hs.
Qed.

(** Case analysis on a lookup in an updated store. *)
Ltac look H :=
  match type of H with
  | <[?r := _]> _ !! ?k = Some _ =>
      destruct (decide (k = r)) as [->|];
      [rewrite lookup_insert_eq in H; injection H as <-|rewrite lookup_insert_ne in H by done]
  end.

(** A flush request finds the request to flush. *)
Lemma rinv_old W N P G reqs rp sent ms nx r x o y :
  RInv None W N P G reqs rp sent ms nx -> reqs !! r = Some x -> r ∈ N -> r ∈ P ->
  x.(responded) = false -> x.(oldreq) = None -> isflush x.(ifcall) = true -> o < r -> reqs !! o = Some y ->
  RInv None W N P G (<[r := req_oldreq (Some o) x]> (<[o := req_ref (y.(rq_ref) + 1) y]> reqs))
    rp sent ms nx.
Proof.
  intros [] Hx HN HP Hu Hold Hisf Hlt Hy.
  set (x' := req_oldreq (Some o) x). set (y' := req_ref (y.(rq_ref) + 1) y).
  assert (Hx' : <[o := y']> reqs !! r = Some x) by (rewrite lookup_insert_ne by lia; done).
  assert (Hcnt : forall k, msum (ocount k) (<[r := x']> (<[o := y']> reqs)) =
                           msum (ocount k) reqs + ptr k (Some o)).
  { intros k. rewrite (msum_set _ _ _ _ _ Hx'), (msum_set _ _ _ _ _ Hy). unfold ocount.
    simpl. rewrite Hold, ptr_none. lia. }
  assert (Hfw : forall k z, reqs !! k = Some z -> exists z', <[r := x']> (<[o := y']> reqs) !! k = Some z' /\
     z'.(rq_tag) = z.(rq_tag) /\ z'.(responded) = z.(responded) /\ z'.(flush) = z.(flush) /\
     (k <> r -> z'.(oldreq) = z.(oldreq)) /\ z'.(ifcall) = z.(ifcall)).
  { intros k z Hz. destruct (decide (k = r)) as [->|].
    { exists x'. rewrite lookup_insert_eq. rewrite Hx in Hz. injection Hz as <-. done. }
    rewrite lookup_insert_ne by done. destruct (decide (k = o)) as [->|].
    - exists y'. rewrite lookup_insert_eq. rewrite Hy in Hz. injection Hz as <-. done.
    - exists z. by rewrite lookup_insert_ne. }
  assert (Hun : forall k, unanswered (<[r := x']> (<[o := y']> reqs)) k <-> unanswered reqs k).
  { intros k. split; [|intros (z & Hz & ?); destruct (Hfw k z Hz) as (z' & ? & _ & ? & _);
      exists z'; split; congruence].
    intros (z & Hz & ?). look Hz; [by exists x|]. look Hz; [by exists y|by exists z]. }
  split; try done.
  - intros t k Hk. destruct (ri_table0 t k Hk) as (z & Hz & ? & ?).
    destruct (Hfw k z Hz) as (z' & ? & ? & ? & _). exists z'. split_and!; congruence.
  - intros k z Hz.
    assert (exists w, reqs !! k = Some w /\ z.(rq_tag) = w.(rq_tag) /\ z.(rq_pool) = w.(rq_pool) /\
      z.(responded) = w.(responded) /\ z.(flush) = w.(flush) /\ z.(ifcall) = w.(ifcall) /\
      (pend_ok w -> pend_ok z) /\ (k <> r -> z.(oldreq) = w.(oldreq)) /\
      z.(rq_ref) = w.(rq_ref) + ptr k (Some o)) as (w & Hw & Ht & Hpl & Hrs & Hf & Hic & Hpd & Ho & Hrf).
    { look Hz; [exists x; unfold ptr; rewrite decide_False by (intros [=]; lia); split_and!; try done; simpl; lia|].
      look Hz; [exists y; rewrite ptr_same; by split_and!|].
      exists z. unfold ptr. rewrite decide_False by congruence. split_and!; try done. lia. }
    destruct (ri_reqs0 k w Hw). pose proof (ptr_nonneg k (Some o)).
    split; rewrite ?Ht, ?Hpl, ?Hrs, ?Hf, ?Hic, ?Hrf, ?Hcnt; auto; try lia.
    + intros o' Ho'. destruct (decide (k = r)) as [->|Hkr].
      * rewrite lookup_insert_eq in Hz. injection Hz as <-. injection Ho' as <-.
        rewrite Hx in Hw. injection Hw as <-. split_and!; auto.
        destruct (Hfw o y Hy) as (? & ? & _). eauto.
      * rewrite Ho in Ho' by done. destruct (ro_old0 o' Ho') as (? & [v Hv] & ?). split_and!; auto.
        destruct (Hfw o' v Hv) as (? & ? & _). eauto.
    + intros Hnf. rewrite Ho; [auto|]. intros ->. rewrite Hx in Hw. congruence.
    + intros q ? Hq. destruct (ro_flush0 q) as (? & ? & v & Hv & ? & ? & ?); auto. split_and!; auto.
      destruct (Hfw q v Hv) as (v' & ? & _ & ? & _ & Hvo & ?). exists v'.
      rewrite Hvo by congruence. split_and!; congruence.
    + intros ? HnP. rewrite Ho by congruence.
      destruct ro_wait0 as (o' & v & ? & Hv & ? & ?); auto.
      destruct (Hfw o' v Hv) as (v' & ? & _ & ? & Hfl & _). exists o', v'. rewrite Hfl.
      split_and!; congruence.
    + destruct ro_log0 as (m & t & ? & ? & Hlo). exists m, t. split_and!; auto. intros ? ?.
      rewrite Ho by congruence. auto.
  - intros k Hk. apply Hun. auto.
  - intros k Hk. destruct (ri_W0 k Hk) as (z & Hz & ?).
    destruct (Hfw k z Hz) as (z' & ? & _ & ? & _). exists z'. split; congruence.
  - intros k Hk. rewrite Hun. auto.
Qed.

(** A flush request joins the list of the request it flushes. *)
Lemma rinv_enqueue d W N P G reqs rp sent ms nx r x o y :
  RInv d W N P G reqs rp sent ms nx -> reqs !! r = Some x -> r ∈ P -> r ∉ N ->
  x.(oldreq) = Some o -> isflush x.(ifcall) = true -> reqs !! o = Some y -> y.(responded) = false ->
  RInv d W N (P ∖ {[r]}) G (<[o := req_flush (y.(flush) ++ [r]) y]> reqs) rp sent ms nx.
Proof.
  intros [] Hx HP HN Hold Hfl Hy Hyu. set (y' := req_flush (y.(flush) ++ [r]) y).
  assert (Hxu : x.(responded) = false) by (destruct (ri_reqs0 r x Hx); by edestruct ro_old0 as (?&?&?)).
  assert (Hor : o <> r) by (destruct (ri_reqs0 r x Hx); edestruct ro_old0 as (?&?&?); [done|lia]).
  assert (Hcnt : forall k, msum (ocount k) (<[o := y']> reqs) = msum (ocount k) reqs).
  { intros k. rewrite (msum_set _ _ _ _ _ Hy). unfold ocount. simpl. lia. }
  assert (Hun : forall k, unanswered (<[o := y']> reqs) k <-> unanswered reqs k).
  { intros k. destruct (decide (k = o)) as [->|]; [|by apply unanswered_ne].
    rewrite unanswered_eq. simpl. split; [|done]. intros _. by exists y. }
  assert (Hfu : forall q k, flushing reqs q k -> flushing (<[o := y']> reqs) q k).
  { intros q k (z & Hz & Hrest). destruct (decide (q = o)) as [->|].
    - exists y'. rewrite lookup_insert_eq. rewrite Hy in Hz. injection Hz as <-. done.
    - exists z. by rewrite lookup_insert_ne. }
  assert (Hlive : forall k, is_Some (reqs !! k) -> is_Some (<[o := y']> reqs !! k))
    by (intros k ?; rewrite lookup_insert_is_Some; destruct (decide (o = k)); auto).
  split; try done.
  - intros t k Hk. destruct (ri_table0 t k Hk) as (z & Hz & ? & ?). destruct (decide (k = o)) as [->|].
    + exists y'. rewrite lookup_insert_eq. rewrite Hy in Hz. injection Hz as <-. done.
    + exists z. by rewrite lookup_insert_ne.
  - intros k z Hz. destruct (decide (k = o)) as [->|Hk].
    + rewrite lookup_insert_eq in Hz. injection Hz as <-. destruct (ri_reqs0 o y Hy).
      split; rewrite ?Hcnt; try done; simpl.
      * intros o' Ho'. destruct (ro_old0 o' Ho') as (?&?&?). split_and!; auto.
      * intros _. apply list.NoDup_app. split_and!; [auto| |apply NoDup_singleton].
        intros q Hq ->%list_elem_of_singleton. by destruct (ro_flush0 r Hyu Hq).
      * intros q _ Hq. apply list.elem_of_app in Hq as [Hq| ->%list_elem_of_singleton].
        -- destruct (ro_flush0 q Hyu Hq) as (?&?&?). split_and!; auto. set_solver.
        -- split_and!; [set_solver|done|]. apply Hfu. by exists x.
      * congruence.
      * intros _ HoP. destruct ro_wait0 as (o' & v & ? & Hv & ? & ?); [done|set_solver|].
        exists o', v. rewrite lookup_insert_ne; [done|]. intros <-.
        destruct (ro_old0 o) as (?&?&?); [done|lia].
    + rewrite lookup_insert_ne in Hz by done. destruct (ri_reqs0 k z Hz).
      split; rewrite ?Hcnt; try done.
      * intros o' Ho'. destruct (ro_old0 o' Ho') as (?&?&?). split_and!; auto.
      * intros q ? Hq. destruct (ro_flush0 q) as (?&?&?); auto. split_and!; auto. set_solver.
      * intros ? HkP. destruct (decide (k = r)) as [->|].
        -- exists o, y'. rewrite lookup_insert_eq. rewrite Hx in Hz. injection Hz as <-.
           split_and!; try done. simpl. set_solver.
        -- destruct ro_wait0 as (o' & v & ? & Hv & ? & ?); [done|set_solver|].
           destruct (decide (o' = o)) as [->|].
           ++ exists o, y'. rewrite lookup_insert_eq. rewrite Hy in Hv. injection Hv as <-.
              split_and!; try done. simpl. set_solver.
           ++ exists o', v. by rewrite lookup_insert_ne.
  - intros k Hk. apply Hun, ri_P0. set_solver.
  - intros k Hk. destruct (ri_W0 k Hk) as (z & Hz & ?). destruct (decide (k = o)) as [->|].
    + exists y'. rewrite lookup_insert_eq. rewrite Hy in Hz. injection Hz as <-. done.
    + exists z. by rewrite lookup_insert_ne.
  - intros k Hk. rewrite Hun. auto.
Qed.

(** A flush request lets go of an answered request. *)
Lemma rinv_unold W N P G reqs rp sent ms nx r x o y :
  RInv None W N P G reqs rp sent ms nx -> reqs !! r = Some x -> r ∈ P ->
  x.(oldreq) = Some o -> reqs !! o = Some y -> y.(responded) = true ->
  RInv (Some o) W ({[r]} ∪ N) P G (<[r := req_oldreq None x]> reqs) rp sent ms nx.
Proof.
  intros [] Hx HP Hold Hy Hyr. set (x' := req_oldreq None x).
  assert (Hxu : x.(responded) = false) by (destruct (ri_reqs0 r x Hx); by edestruct ro_old0 as (?&?&?)).
  assert (Hcnt : forall k, msum (ocount k) (<[r := x']> reqs) = msum (ocount k) reqs - ptr k (Some o)).
  { intros k. rewrite (msum_set _ _ _ _ _ Hx). unfold ocount. simpl. rewrite Hold, ptr_none. lia. }
  assert (Hun : forall k, unanswered (<[r := x']> reqs) k <-> unanswered reqs k).
  { intros k. destruct (decide (k = r)) as [->|]; [|by apply unanswered_ne].
    rewrite unanswered_eq. simpl. split; [|done]. intros _. by exists x. }
  assert (Hlive : forall k, is_Some (reqs !! k) -> is_Some (<[r := x']> reqs !! k))
    by (intros k ?; rewrite lookup_insert_is_Some; destruct (decide (r = k)); auto).
  split; try done.
  - intros t k Hk. destruct (ri_table0 t k Hk) as (z & Hz & ? & ?). destruct (decide (k = r)) as [->|].
    + exists x'. rewrite lookup_insert_eq. rewrite Hx in Hz. injection Hz as <-. done.
    + exists z. by rewrite lookup_insert_ne.
  - intros k z Hz.
    assert (Hq : forall q w, reqs !! k = Some w -> w.(responded) = false -> q ∈ w.(flush) ->
      q ∉ P /\ q ∉ {[r]} ∪ N /\ flushing (<[r := x']> reqs) q k).
    { intros q w Hw Hwu Hq. destruct (ri_reqs0 k w Hw). destruct (ro_flush0 q) as (?&?&?); auto.
      assert (q <> r) by congruence. split_and!; [done|set_solver|by apply flushing_ne]. }
    destruct (decide (k = r)) as [->|Hk].
    + rewrite lookup_insert_eq in Hz. injection Hz as <-. destruct (ri_reqs0 r x Hx).
      split; rewrite ?Hcnt; try done; simpl; auto.
      * rewrite ro_ref0, ptr_none. lia.
      * intros. eapply Hq; eauto.
      * intros _ ?. set_solver.
      * destruct ro_log0 as (m & t & ? & ? & ?). exists m, t. split_and!; auto. intros. set_solver.
    + rewrite lookup_insert_ne in Hz by done. destruct (ri_reqs0 k z Hz).
      split; rewrite ?Hcnt; try done.
      * rewrite ro_ref0, ptr_none. lia.
      * intros o' Ho'. destruct (ro_old0 o' Ho') as (?&?&?). split_and!; auto.
      * intros. eapply Hq; eauto.
      * intros. apply ro_pend0; set_solver.
      * intros ? HkP. destruct ro_wait0 as (o' & v & ? & Hv & ? & ?); [done..|].
        destruct (decide (o' = r)) as [->|].
        -- exists r, x'. rewrite lookup_insert_eq. rewrite Hx in Hv. injection Hv as <-. done.
        -- exists o', v. by rewrite lookup_insert_ne.
      * destruct ro_log0 as (m & t & ? & ? & Ho). exists m, t. split_and!; auto. intros. apply Ho; set_solver.
  - intros k Hk. apply Hun; auto.
  - intros k Hk. destruct (ri_W0 k Hk) as (z & Hz & ?). exists z.
    rewrite lookup_insert_ne; [done|]. congruence.
  - intros k Hk. rewrite Hun. auto.
Qed.

(** [closereq] on an answered request. *)
Definition unrefreq (o : Z) (y : Req) (m : gmap Z Req) : gmap Z Req :=
  if y.(rq_ref) - 1 =? 0 then delete o m else <[o := req_ref (y.(rq_ref) - 1) y]> m.

Lemma ptr_ne k o : k <> o -> ptr k (Some o) = 0.
Proof. intros H. unfold ptr. rewrite decide_False; congruence. Qed.

Lemma rinv_unref W N P G reqs rp sent ms nx o y :
  RInv (Some o) W N P G reqs rp sent ms nx -> reqs !! o = Some y -> y.(responded) = true ->
  RInv None W N P G (unrefreq o y reqs) rp sent ms nx.
Proof.
  intros [] Hy Hyr. pose proof (ri_reqs0 o y Hy) as Hok. unfold unrefreq.
  assert (Hold : y.(oldreq) = None).
  { destruct (y.(oldreq)) as [p|] eqn:E; [|done]. destruct (ro_old _ _ _ _ _ _ _ _ _ _ Hok p E) as (_&_&?).
    congruence. }
  pose proof (ro_ref _ _ _ _ _ _ _ _ _ _ Hok) as Href. rewrite Hyr, ptr_same in Href.
  pose proof (msum_nonneg (ocount o) (ocount_nonneg o) reqs) as Hnn.
  destruct (Z.eqb_spec (y.(rq_ref) - 1) 0) as [H0|H0].
  - case_decide as HW; [lia|].
    assert (Hno : forall k z, reqs !! k = Some z -> z.(oldreq) <> Some o).
    { intros k z Hz Ho. pose proof (msum_le (ocount o) (ocount_nonneg o) reqs k z Hz).
      unfold ocount in *. rewrite Ho, ptr_same in *. lia. }
    assert (Hcnt : forall k, msum (ocount k) (delete o reqs) = msum (ocount k) reqs).
    { intros k. rewrite (msum_delete _ _ _ _ Hy). unfold ocount. rewrite Hold, ptr_none. lia. }
    assert (Hun : forall k, unanswered (delete o reqs) k <-> unanswered reqs k).
    { intros k. unfold unanswered. destruct (decide (k = o)) as [->|]; [|by rewrite lookup_delete_ne].
      rewrite lookup_delete_eq, Hy. split; intros (z & [=] & ?). congruence. }
    split; try done.
    + intros t k Hk. destruct (ri_table0 t k Hk) as (z & Hz & ? & ?). exists z.
      rewrite lookup_delete_ne by congruence. done.
    + intros k z Hz. apply lookup_delete_Some in Hz as [Hk Hz]. destruct (ri_reqs0 k z Hz).
      split; rewrite ?Hcnt; try done.
      * rewrite ro_ref0, ptr_none, ptr_ne by done. done.
      * intros p Hp. destruct (ro_old0 p Hp) as (?&?&?). split_and!; auto.
        rewrite lookup_delete_ne; [done|]. intros ->. by destruct (Hno k z Hz).
      * intros q ? Hq. destruct (ro_flush0 q) as (?&?& v & Hv & ? & ?); auto. split_and!; auto.
        exists v. rewrite lookup_delete_ne by congruence. done.
      * intros ? HkP. destruct ro_wait0 as (p & v & ? & Hv & ? & ?); [done..|].
        exists p, v. rewrite lookup_delete_ne by congruence. done.
    + intros k Hk. apply Hun; auto.
    + intros k Hk. destruct (ri_W0 k Hk) as (z & Hz & ?). exists z.
      rewrite lookup_delete_ne by congruence. done.
    + intros k Hk. rewrite Hun. auto.
  - set (y' := req_ref (y.(rq_ref) - 1) y). assert (Hal : alike y y') by by repeat split.
    split; try done.
    + intros t k Hk. destruct (ri_table0 t k Hk) as (z & Hz & ? & ?). exists z.
      rewrite lookup_insert_ne by congruence. done.
    + intros k w Hw. destruct (alike_lookup reqs o y y' Hy Hal k w Hw) as (z & Hz & Hkz).
      destruct (ri_reqs0 k z Hz).
      assert (Hrf : w.(rq_ref) = z.(rq_ref) - ptr k (Some o)).
      { look Hw; [rewrite Hy in Hz; injection Hz as <-; by rewrite ptr_same|].
        rewrite ptr_ne by done. rewrite Hz in Hw. injection Hw as <-. lia. }
      assert (Hpd : pend_ok z -> pend_ok w).
      { look Hw; [rewrite Hy in Hz; by injection Hz as <-|]. rewrite Hz in Hw. by injection Hw as <-. }
      destruct Hkz as (Ht & Hpl & Hrs & Ho & Hf & Hty & Hi).
      split; rewrite ?Ht, ?Hpl, ?Hrs, ?Ho, ?Hf, ?Hi, ?Hrf, ?(alike_ocount reqs o y y' Hy Hal k); auto.
      * rewrite ptr_none. lia.
      * destruct (decide (k = o)) as [->|]; [|rewrite ptr_ne by done; lia].
        rewrite Hy in Hz. injection Hz as <-. rewrite ptr_same. case_decide; lia.
      * intros p Hp. destruct (ro_old0 p Hp) as (?&[v Hv]&?). split_and!; auto.
        destruct (alike_lookup' reqs o y y' Hy Hal p v Hv) as (? & ? & _). eauto.
      * intros q ? Hq. destruct (ro_flush0 q) as (?&?&?); auto. split_and!; auto.
        by apply (alike_flushing _ _ y).
      * intros ? HkP. destruct ro_wait0 as (p & v & ? & Hv & ? & ?); [done..|].
        exists p, v. rewrite lookup_insert_ne by congruence. done.
      * destruct ro_log0 as (m & t & ? & ? & ?). exists m, t. rewrite Hty. done.
    + intros k Hk. apply (alike_unanswered reqs o y y' Hy Hal). auto.
    + intros k Hk. destruct (ri_W0 k Hk) as (z & Hz & ?).
      destruct (alike_lookup' reqs o y y' Hy Hal k z Hz) as (z' & ? & _&_&?&_). exists z'. split; congruence.
    + intros k Hk. rewrite (alike_unanswered reqs o y y' Hy Hal). auto.
Qed.

(** The end of [respond]: the caller's reference remains to be dropped. *)
Lemma rinv_done W N P G reqs rp sent ms nx r x :
  RInv None W N P G reqs rp sent ms nx -> reqs !! r = Some x -> r ∈ W ->
  RInv (Some r) (W ∖ {[r]}) N P G (<[r := req_flush [] x]> reqs) rp sent ms nx.
Proof.
  intros [] Hx HW. set (x' := req_flush [] x).
  assert (Hxr : x.(responded) = true) by (destruct (ri_W0 r HW) as (?&?&?); congruence).
  assert (Hcnt : forall k, msum (ocount k) (<[r := x']> reqs) = msum (ocount k) reqs).
  { intros k. rewrite (msum_set _ _ _ _ _ Hx). unfold ocount. simpl. lia. }
  assert (Hun : forall k, unanswered (<[r := x']> reqs) k <-> unanswered reqs k).
  { intros k. destruct (decide (k = r)) as [->|]; [|by apply unanswered_ne].
    rewrite unanswered_eq. simpl. split; [congruence|]. intros (?&?&?). congruence. }
  split; try done.
  - intros t k Hk. destruct (ri_table0 t k Hk) as (z & Hz & ? & ?). exists z.
    rewrite lookup_insert_ne by congruence. done.
  - intros k z Hz. destruct (decide (k = r)) as [->|Hk].
    + rewrite lookup_insert_eq in Hz. injection Hz as <-. destruct (ri_reqs0 r x Hx).
      split; rewrite ?Hcnt; simpl; rewrite ?Hxr in *; try done; auto.
      * rewrite decide_True in ro_ref0 by done. rewrite decide_False, ptr_same by set_solver.
        rewrite ro_ref0, ptr_none. lia.
      * intros o' Ho'. destruct (ro_old0 o' Ho') as (?&?&?). done.
    + rewrite lookup_insert_ne in Hz by done. destruct (ri_reqs0 k z Hz).
      split; rewrite ?Hcnt; try done.
      * rewrite ro_ref0, ptr_none, ptr_ne by done.
        destruct z.(responded); [|done]. do 2 case_decide; set_solver.
      * intros o' Ho'. destruct (ro_old0 o' Ho') as (?&?&?). split_and!; auto.
        rewrite lookup_insert_is_Some. destruct (decide (r = o')); auto.
      * intros q ? Hq. destruct (ro_flush0 q) as (?&?& Hf); auto. split_and!; auto.
        apply flushing_ne; [|done]. intros ->. destruct Hf as (?&?&?&?). congruence.
      * intros ? ?. apply ro_done0; set_solver.
      * intros ? HkP. destruct ro_wait0 as (o' & v & ? & Hv & ? & ?); [done..|].
        exists o', v. rewrite lookup_insert_ne by congruence. done.
  - intros k Hk. apply Hun; auto.
  - intros k Hk. destruct (ri_W0 k) as (z & Hz & ?); [set_solver|]. exists z.
    rewrite lookup_insert_ne by set_solver. done.
  - intros k Hk. rewrite Hun. auto.
Qed.

(** A request is answered: it leaves the table, and the flushes that waited for
    it are free to go. *)
Lemma rinv_reply W N P G reqs rp rp' sent ms nx r x rep :
  RInv None W N P G reqs rp sent ms nx -> reqs !! r = Some x -> r ∈ P -> x.(oldreq) = None ->
  (forall g m t, G !! r = Some (g, m, t) -> answers m rep /\ forall o, t = Some o -> o ∈ replied sent) ->
  km_wf rp' -> km_abs rp' = delete x.(rq_tag) (km_abs rp) ->
  RInv None ({[r]} ∪ W) (N ∖ {[r]}) (P ∖ {[r]} ∪ list_to_set x.(flush)) G
    (<[r := req_responded true (req_ref (x.(rq_ref) - 1) x)]> reqs) rp'
    (sent ++ [mkReply r x.(rq_tag) rep]) ms nx.
Proof.
  intros [] Hx HP Hold Hrep Hw Ha. set (x' := req_responded true (req_ref (x.(rq_ref) - 1) x)).
  assert (Hxu : x.(responded) = false) by (destruct (ri_P0 r HP) as (?&?&?); congruence).
  pose proof (ri_reqs0 r x Hx) as Hok.
  assert (HG : exists m t, G !! r = Some (x.(rq_tag), m, t))
    by (destruct (ro_log _ _ _ _ _ _ _ _ _ _ Hok) as (m & t & ? & _); eauto).
  assert (Hns : r ∉ replied sent).
  { destruct HG as (m & t & HG). rewrite (ri_once0 r) by eauto. intros Hu. apply Hu. by exists x. }
  assert (Hcnt : forall k, msum (ocount k) (<[r := x']> reqs) = msum (ocount k) reqs).
  { intros k. rewrite (msum_set _ _ _ _ _ Hx). unfold ocount. simpl. lia. }
  split; try done.
  - intros t k. rewrite Ha. intros Hk. apply lookup_delete_Some in Hk as [Ht Hk].
    destruct (ri_table0 t k Hk) as (z & Hz & ? & ?). exists z.
    rewrite lookup_insert_ne by congruence. done.
  - intros k z Hz. destruct (decide (k = r)) as [->|Hk].
    + rewrite lookup_insert_eq in Hz. injection Hz as <-. destruct Hok.
      split; rewrite ?Hcnt; simpl; try done; auto.
      * rewrite decide_True by set_solver. rewrite ro_ref0, Hxu. lia.
      * rewrite ro_ref0, Hxu, ptr_none. pose proof (msum_nonneg (ocount r) (ocount_nonneg r) reqs). lia.
      * congruence.
      * intros _ ?. set_solver.
      * destruct ro_log0 as (m & t & ? & ? & ?). by exists m, t.
    + rewrite lookup_insert_ne in Hz by done. destruct (ri_reqs0 k z Hz).
      split; rewrite ?Hcnt; try done.
      * intros Hzu. rewrite Ha, lookup_delete_ne; [auto|]. intros Ht.
        specialize (ro_table0 Hzu). rewrite <- Ht, (ro_table _ _ _ _ _ _ _ _ _ _ Hok Hxu) in ro_table0.
        congruence.
      * rewrite ro_ref0. destruct z.(responded); [|done]. do 2 case_decide; set_solver.
      * intros o' Ho'. destruct (ro_old0 o' Ho') as (?&?&?). split_and!; auto.
        rewrite lookup_insert_is_Some. destruct (decide (r = o')); auto.
      * intros q ? Hq. destruct (ro_flush0 q) as (?&?& Hf); auto. split_and!; [|set_solver|].
        -- intros [?|Hq']%elem_of_union; [set_solver|]. apply elem_of_list_to_set in Hq'.
           destruct (ro_flush _ _ _ _ _ _ _ _ _ _ Hok q Hxu Hq') as (_ & _ & v & Hv & _ & Ho & _).
           destruct Hf as (v' & Hv' & _ & Ho' & _). congruence.
        -- apply flushing_ne; [congruence|done].
      * intros ? ?. apply ro_done0; set_solver.
      * intros ? ?. apply ro_pend0; set_solver.
      * intros ? HkP. destruct ro_wait0 as (o' & v & ? & Hv & ? & ?); [done|set_solver|].
        exists o', v. rewrite lookup_insert_ne; [done|]. intros <-. rewrite Hx in Hv.
        injection Hv as <-. apply HkP, elem_of_union_r, elem_of_list_to_set. done.
      * destruct ro_log0 as (m & t & ? & ? & Ho). exists m, t. split_and!; auto. intros. apply Ho; set_solver.
  - intros k [Hk|Hk%elem_of_list_to_set]%elem_of_union.
    + apply unanswered_ne; [set_solver|]. apply ri_P0. set_solver.
    + destruct (ro_flush _ _ _ _ _ _ _ _ _ _ Hok k Hxu Hk) as (? & _ & v & ? & ? & _).
      apply unanswered_ne; [congruence|]. by exists v.
  - intros k Hk. destruct (decide (k = r)) as [->|]; [exists x'; by rewrite lookup_insert_eq|].
    destruct (ri_W0 k) as (z & Hz & ?); [set_solver|]. exists z. by rewrite lookup_insert_ne.
  - unfold replied. rewrite fmap_app. apply list.NoDup_app. split_and!; [done| |apply NoDup_singleton].
    intros k Hk ->%list_elem_of_singleton. done.
  - intros i rp0 Hi. apply lookup_app_Some in Hi as [Hi|[Hi Hl]].
    + pose proof (lookup_lt_Some _ _ _ Hi). rewrite take_app_le by lia. auto.
    + apply list_lookup_singleton_Some in Hl as [Hl <-]. simpl.
      destruct HG as (m & t & HG). exists m, t. destruct (Hrep _ _ _ HG) as [? Ht]. split_and!; auto.
      intros o Ho. rewrite take_app_le, take_ge by lia. auto.
  - intros k Hk. unfold replied. rewrite fmap_app, list.elem_of_app. simpl.
    rewrite list_elem_of_singleton. destruct (decide (k = r)) as [->|].
    + rewrite unanswered_eq. simpl. split; [done|]. auto.
    + rewrite unanswered_ne by done. rewrite <- ri_once0 by done. simpl.
      split; [by intros [?| ?]|by left].
Qed.

(** Weakenings. *)
Lemma rinv_more d W N P G reqs rp sent ms nx r :
  RInv d W N P G reqs rp sent ms nx -> r ∈ P -> RInv d W ({[r]} ∪ N) P G reqs rp sent ms nx.
Proof.
  intros [] HP. split; try done. intros k y Hy. destruct (ri_reqs0 k y Hy). split; try done.
  - intros q ? Hq. destruct (ro_flush0 q) as (?&?&?); auto. split_and!; auto.
    intros [->%elem_of_singleton|]%elem_of_union; done.
  - intros ? ?. apply ro_pend0; set_solver.
  - destruct ro_log0 as (m & t & ? & ? & Ho). exists m, t. split_and!; auto. intros. apply Ho; set_solver.
Qed.

Lemma rinv_msize d W N P G reqs rp sent ms ms' nx :
  RInv d W N P G reqs rp sent ms nx -> 256 <= ms' -> RInv d W N P G reqs rp sent ms' nx.
Proof. intros [] H. by split. Qed.

Lemma rinv_next d W N P G reqs rp sent ms nx nx' :
  RInv d W N P G reqs rp sent ms nx -> nx <= nx' -> RInv d W N P G reqs rp sent ms nx'.
Proof.
  intros [] H. split; try done.
  - intros k y Hy. destruct (ri_reqs0 k y Hy). split; try done. lia.
  - intros k Hk. specialize (ri_log0 k Hk). lia.
Qed.

End SrvInv.
