(* ===== verification/SrvResp.v ===== *)
(** Answering a request: [respond] and [closereq] of the 9P server keep its
    books, whatever flushes wait, and their nesting is bounded. *)

From Stdlib Require Import String.
From S2P Require Import Prelude Mem CString Fcall ConvS2M ConvM2S ConvDir Intmap Eff FileTree Srv SrvInv.

(** * Replies fit *)

Lemma Zlen_rwire tag m : Zlen (wire tag m) = 7 + Zlen (wire_body m).
Proof. unfold wire. rewrite !Zlen_app, !Zlen_le. lia. Qed.

Lemma Zlen_rwqids qs : Zlen (concat (map wqid qs)) = 13 * Zlen qs.
Proof.
  induction qs as [|q qs IH]; [done|]. cbn [map concat]. rewrite Zlen_app, Zlen_cons, Zlen_wqid, IH. lia.
Qed.

(** A reply that fits in a message of [ms] bytes. *)
Definition roomy (ms : Z) (m : Msg) : Prop := Zlen (wire_body m) <= ms - 7.

Lemma encode_error ms x e :
  x.(rq_error) = Some e -> Zlen e <= 200 -> 256 <= ms -> encode ms x = Some (MRerror e).
Proof.
  intros He Hl Hm. unfold encode. rewrite He. rewrite Zlen_rwire. simpl. rewrite Zlen_wstr.
  destruct (Z.leb_spec (7 + (2 + Zlen e)) ms); [done|lia].
Qed.

Lemma encode_reply ms x m :
  x.(rq_error) = None -> rmsg x = Some m -> roomy ms m -> encode ms x = Some m.
Proof.
  intros He Hm Hr. unfold encode. rewrite He, Hm, Zlen_rwire.
  destruct (Z.leb_spec (7 + Zlen (wire_body m)) ms); [done|unfold roomy in Hr; lia].
Qed.

Lemma rmsg_answers x m : rmsg x = Some m -> answers x.(ifcall) m.
Proof.
  intros H. right. unfold rmsg in H.
  destruct (ifcall x); try done; try (by injection H as <-).
  destruct (_ >? _); [done|]. by injection H as <-.
Qed.

Section SrvResp.
Context {T : Type} `{KM : KeyMap Z T}.
Notation St := (@St T).

Lemma updreq_run r g (s : St) x :
  s.(reqs) !! r = Some x -> updreq r g s = Ok (tt, set_reqs (<[r := g x]> s.(reqs)) s).
Proof. intros H. unfold updreq. by eff_prim. Qed.
Lemma updfid_run f g (s : St) y :
  s.(fids) !! f = Some y -> updfid f g s = Ok (tt, set_fids (<[f := g y]> s.(fids)) s).
Proof. intros H. unfold updfid. by eff_prim. Qed.

(** * Before the reply is encoded *)

(** Whether a walk with [n] qids is given up. *)
Definition stopped (e : option (list Z)) (n : Z) (ws : list (list Z)) : bool :=
  (match e with Some _ => true | None => false end) || (n <? Zlen ws).

(** What [respond] needs of a request and an error. *)
Definition ready (s : St) (x : Req) (e : option (list Z)) : Prop :=
  (forall v, e = Some v -> Zlen v <= 200) /\
  match x.(ifcall) with
  | MTversion _ _ => e = None /\ 256 <= x.(ofcall).(o_msize) /\ Zlen x.(ofcall).(o_version) <= 200
  | MTauth _ _ _ => is_Some e -> forall f, x.(rq_afid) = Some f -> listed s f
  | MTattach _ _ _ _ => is_Some e -> forall f, x.(rq_fid) = Some f -> listed s f
  | MTflush _ => e = None
  | MTwalk fid newfid ws =>
      let n := x.(ofcall).(o_nwqid) in
      0 <= n <= 16 /\ length x.(ofcall).(o_wqid) = 16%nat /\
      (stopped e n ws = true -> fid <> newfid -> forall f, x.(rq_newfid) = Some f -> listed s f) /\
      (stopped e n ws = false -> is_Some x.(rq_fid) /\ is_Some x.(rq_newfid))
  | MTopen _ _ | MTcreate _ _ _ _ | MTwrite _ _ _ | MTremove _ => e = None -> is_Some x.(rq_fid)
  | MTread _ _ _ => e = None -> is_Some x.(rq_fid) /\ Zlen x.(ofcall).(o_data) + 11 <= s.(msize)
  | MTstat _ => e = None -> Zlen (wire_stat x.(rq_d)) <= 65535 /\ Zlen (wire_stat x.(rq_d)) + 9 <= s.(msize)
  | MTclunk _ | MTwstat _ _ => True
  | _ => False
  end.

(** The request [x] at [r] is prepared: only its own members, fids and the
    message size have changed, and the reply can be encoded. *)
Definition prepped (c : Z -> Z) (nx r : Z) (x : Req) (s s1 : St) : Prop :=
  exists m p x1 ms rep,
    s1 = set_smsize ms (set_fids m (set_fpool p (set_reqs (<[r := x1]> s.(reqs)) s))) /\
    FInv c m p nx /\ alike x x1 /\ x1.(rq_ref) = x.(rq_ref) /\ (forall f, fcount f x1 = fcount f x) /\
    256 <= ms /\ encode ms x1 = Some rep /\ answers x.(ifcall) rep.

Section Prep.
Context (c : Z -> Z) (nx r : Z) (x : Req) (s : St).
Context (HI : FInv c s.(fids) s.(fpool) nx) (Hc : forall f, fcount f x <= c f).
Context (Hx : s.(reqs) !! r = Some x) (Hms : 256 <= s.(msize)).

(** A fid the request points to is live. *)
Lemma fid_live o f : (o = x.(rq_fid) \/ o = x.(rq_newfid) \/ o = x.(rq_afid)) -> o = Some f ->
  exists y, s.(fids) !! f = Some y.
Proof.
  intros Ho ->. destruct (s.(fids) !! f) as [y|] eqn:Hy; [eauto|].
  pose proof (fi_dead _ _ _ _ HI f Hy) as H0. specialize (Hc f). unfold fcount in Hc.
  pose proof (ptr_nonneg f x.(rq_fid)). pose proof (ptr_nonneg f x.(rq_newfid)).
  pose proof (ptr_nonneg f x.(rq_afid)).
  destruct Ho as [Ho|[Ho|Ho]]; rewrite <- Ho, ptr_same in Hc; lia.
Qed.

Lemma state_eta : set_smsize s.(msize) (set_fids s.(fids) (set_fpool s.(fpool)
  (set_reqs (<[r := x]> s.(reqs)) s))) = s.
Proof. rewrite insert_id by done. by destruct s. Qed.

(** Nothing to do: the reply must be encodable. *)
Lemma prepped_id rep : encode s.(msize) x = Some rep -> answers x.(ifcall) rep -> prepped c nx r x s s.
Proof.
  intros He Ha. exists s.(fids), s.(fpool), x, s.(msize), rep. rewrite state_eta.
  split_and!; auto using alike_refl.
Qed.

Lemma prepped_err e : x.(rq_error) = Some e -> Zlen e <= 200 -> prepped c nx r x s s.
Proof. intros He Hl. eapply prepped_id; [by apply encode_error|]. by left. Qed.

Lemma prepped_ok m :
  x.(rq_error) = None -> rmsg x = Some m -> roomy s.(msize) m -> prepped c nx r x s s.
Proof. intros He Hm Hr. eapply prepped_id; [by apply encode_reply|by apply rmsg_answers]. Qed.

(** Only fids have changed. *)
Lemma prepped_fids m p rep :
  FInv c m p nx -> encode s.(msize) x = Some rep -> answers x.(ifcall) rep ->
  prepped c nx r x s (set_fids m (set_fpool p s)).
Proof.
  intros HI' He Ha. exists m, p, x, s.(msize), rep. rewrite insert_id by done.
  split; [by destruct s|]. split_and!; auto using alike_refl.
Qed.

(** ** One kind of request after another *)

Lemma rversion_ready e m v :
  x.(ifcall) = MTversion m v -> x.(rq_error) = e -> ready s x e ->
  exists s1, rversion r e s = Ok (tt, s1) /\ prepped c nx r x s s1.
Proof.
  intros Hi He [_ H]. rewrite Hi in H. destruct H as (-> & Hm & Hv).
  eexists. split; [unfold rversion; simpl; eff_prim; by eff_prim|].
  exists s.(fids), s.(fpool), x, x.(ofcall).(o_msize), (MRversion x.(ofcall).(o_msize) x.(ofcall).(o_version)).
  split; [rewrite insert_id by done; by destruct s|]. split_and!; auto using alike_refl.
  - apply encode_reply; [done|unfold rmsg; by rewrite Hi|]. unfold roomy. cbn [wire_body].
    rewrite Zlen_app, Zlen_le, Zlen_wstr. lia.
  - right. by rewrite Hi.
Qed.

(** Giving up the fid of an auth, an attach or a walk. *)
Lemma walk_given_up e o :
  x.(rq_error) = Some e -> Zlen e <= 200 -> (forall f, o = Some f -> listed s f) ->
  exists s1, whenptr o dropfid s = Ok (tt, s1) /\ prepped c nx r x s s1.
Proof.
  intros He Hl Ho. destruct o as [f|]; [|exists s; split; [done|by eapply prepped_err]].
  destruct (dropfid_run c f s nx HI (Ho f eq_refl)) as (m & p & Hrun & HI').
  exists (set_fids m (set_fpool p s)). split; [done|].
  eapply prepped_fids; [done|by apply encode_error|by left].
Qed.

Lemma rauth_ready e a u n :
  x.(ifcall) = MTauth a u n -> x.(rq_error) = e -> ready s x e ->
  exists s1, rauth r e s = Ok (tt, s1) /\ prepped c nx r x s s1.
Proof.
  intros Hi He [Hl H]. rewrite Hi in H. unfold rauth. eff_prim. destruct e as [e|].
  - apply (walk_given_up e); eauto.
  - exists s. split; [done|]. eapply prepped_ok; [done|unfold rmsg; by rewrite Hi|]. unfold roomy. cbn [wire_body]. rewrite Zlen_wqid. lia.
Qed.

Lemma rattach_ready e f a u n :
  x.(ifcall) = MTattach f a u n -> x.(rq_error) = e -> ready s x e ->
  exists s1, rattach r e s = Ok (tt, s1) /\ prepped c nx r x s s1.
Proof.
  intros Hi He [Hl H]. rewrite Hi in H. unfold rattach. eff_prim. destruct e as [e|].
  - apply (walk_given_up e); eauto.
  - exists s. split; [done|]. eapply prepped_ok; [done|unfold rmsg; by rewrite Hi|]. unfold roomy. cbn [wire_body]. rewrite Zlen_wqid. lia.
Qed.

(** One fid has changed in members that nobody counts. *)
Lemma prepped_fid f y y' m :
  s.(fids) !! f = Some y -> y'.(fd_fid) = y.(fd_fid) -> y'.(fd_ref) = y.(fd_ref) ->
  y'.(file) = y.(file) -> y'.(rdir) = y.(rdir) ->
  x.(rq_error) = None -> rmsg x = Some m -> roomy s.(msize) m ->
  prepped c nx r x s (set_fids (<[f := y']> s.(fids)) s).
Proof.
  intros. eapply (prepped_fids _ s.(fpool)); [by eapply finv_same|by apply encode_reply|by apply rmsg_answers].
Qed.

Lemma ropen_ready e f m :
  x.(ifcall) = MTopen f m -> x.(rq_error) = e -> ready s x e ->
  exists s1, ropen r e s = Ok (tt, s1) /\ prepped c nx r x s s1.
Proof.
  intros Hi He [Hl H]. rewrite Hi in H. destruct e as [e|]; [exists s; split; [done|by eapply prepped_err; auto]|].
  destruct (H eq_refl) as [g Hg]. destruct (fid_live x.(rq_fid) g) as [y Hy]; auto.
  unfold ropen. eff_prim. rewrite Hg. eff_prim.
  eff_with (updfid_run g (fid_omode (s8 (imode (ifcall x)))) s y Hy).
  erewrite eff_bind_ok by (apply updfid_run; simpl; apply lookup_insert_eq). cbv beta. simpl fids.
  rewrite insert_insert_eq.
  assert (Hrep : rmsg x = Some (MRopen x.(ofcall).(o_qid) x.(ofcall).(o_iounit))) by (unfold rmsg; by rewrite Hi).
  assert (Hfit : roomy s.(msize) (MRopen x.(ofcall).(o_qid) x.(ofcall).(o_iounit))).
  { unfold roomy. cbn [wire_body]. rewrite Zlen_app, Zlen_le, Zlen_wqid. lia. }
  destruct (negb _).
  - erewrite updfid_run by (simpl; apply lookup_insert_eq). simpl fids. rewrite insert_insert_eq.
    eexists. split; [reflexivity|]. by eapply prepped_fid.
  - eexists. split; [reflexivity|]. by eapply prepped_fid.
Qed.

Lemma rcreate_ready e f n pm m :
  x.(ifcall) = MTcreate f n pm m -> x.(rq_error) = e -> ready s x e ->
  exists s1, rcreate r e s = Ok (tt, s1) /\ prepped c nx r x s s1.
Proof.
  intros Hi He [Hl H]. rewrite Hi in H. destruct e as [e|]; [exists s; split; [done|by eapply prepped_err; auto]|].
  destruct (H eq_refl) as [g Hg]. destruct (fid_live x.(rq_fid) g) as [y Hy]; auto.
  unfold rcreate. eff_prim. rewrite Hg. eff_prim.
  eff_with (updfid_run g (fid_omode (s8 (imode (ifcall x)))) s y Hy).
  erewrite updfid_run by (simpl; apply lookup_insert_eq). simpl fids. rewrite insert_insert_eq.
  eexists. split; [reflexivity|]. eapply prepped_fid; try done; [unfold rmsg; by rewrite Hi|].
  unfold roomy. cbn [wire_body]. rewrite Zlen_app, Zlen_le, Zlen_wqid. lia.
Qed.

Lemma rread_ready e f o n :
  x.(ifcall) = MTread f o n -> x.(rq_error) = e -> ready s x e ->
  exists s1, rread r e s = Ok (tt, s1) /\ prepped c nx r x s s1.
Proof.
  intros Hi He [Hl H]. rewrite Hi in H. destruct e as [e|]; [exists s; split; [done|by eapply prepped_err; auto]|].
  destruct (H eq_refl) as [[g Hg] Hd]. destruct (fid_live x.(rq_fid) g) as [y Hy]; auto.
  unfold rread. eff_prim. rewrite Hg. eff_prim. eff_prim.
  assert (Hrep : rmsg x = Some (MRread x.(ofcall).(o_data))) by (unfold rmsg; by rewrite Hi).
  assert (Hfit : roomy s.(msize) (MRread x.(ofcall).(o_data))).
  { unfold roomy. cbn [wire_body]. rewrite Zlen_app, Zlen_le. lia. }
  destruct (negb _).
  - erewrite updfid_run by exact Hy. eexists. split; [reflexivity|]. by eapply prepped_fid.
  - eexists. split; [reflexivity|]. by eapply prepped_ok.
Qed.

Lemma rwrite_ready e f o d :
  x.(ifcall) = MTwrite f o d -> x.(rq_error) = e -> ready s x e ->
  exists s1, rwrite r e s = Ok (tt, s1) /\ prepped c nx r x s s1.
Proof.
  intros Hi He [Hl H]. rewrite Hi in H. destruct e as [e|]; [exists s; split; [done|by eapply prepped_err; auto]|].
  destruct (H eq_refl) as [g Hg]. destruct (fid_live x.(rq_fid) g) as [y Hy]; auto.
  unfold rwrite. eff_prim. rewrite Hg. eff_prim. eff_prim.
  destruct (fi_live _ _ _ _ HI g y Hy) as (_ & _ & -> & _).
  exists s. split; [done|]. eapply prepped_ok; [done|unfold rmsg; by rewrite Hi|].
  unfold roomy. cbn [wire_body]. rewrite Zlen_le. lia.
Qed.

Lemma rremove_ready e f :
  x.(ifcall) = MTremove f -> x.(rq_error) = e -> ready s x e ->
  exists s1, rremove r e s = Ok (tt, s1) /\ prepped c nx r x s s1.
Proof.
  intros Hi He [Hl H]. rewrite Hi in H. destruct e as [e|]; [exists s; split; [done|by eapply prepped_err; auto]|].
  destruct (H eq_refl) as [g Hg]. destruct (fid_live x.(rq_fid) g) as [y Hy]; auto.
  unfold rremove. eff_prim. rewrite Hg. eff_prim. eff_prim.
  destruct (fi_live _ _ _ _ HI g y Hy) as (_ & _ & -> & _).
  exists s. split; [done|]. eapply prepped_ok; [done|unfold rmsg; by rewrite Hi|].
  unfold roomy. cbn [wire_body]. rewrite Zlen_nil. lia.
Qed.

Lemma nothing_ready e :
  (exists f, x.(ifcall) = MTclunk f) \/ (exists f b, x.(ifcall) = MTwstat f b) ->
  x.(rq_error) = e -> ready s x e -> prepped c nx r x s s.
Proof.
  intros Hi He [Hl _]. destruct e as [e|]; [by eapply prepped_err; auto|].
  destruct Hi as [[f Hi]|(f & b & Hi)]; (eapply prepped_ok; [done|unfold rmsg; by rewrite Hi|]);
    unfold roomy; cbn [wire_body]; rewrite Zlen_nil; lia.
Qed.

(** Fids, and members of the request that do not matter elsewhere, have changed. *)
Lemma prepped_req m p x1 rep :
  FInv c m p nx -> alike x x1 -> x1.(rq_ref) = x.(rq_ref) -> (forall f, fcount f x1 = fcount f x) ->
  encode s.(msize) x1 = Some rep -> answers x.(ifcall) rep ->
  prepped c nx r x s (set_fids m (set_fpool p (set_reqs (<[r := x1]> s.(reqs)) s))).
Proof. intros. exists m, p, x1, s.(msize), rep. by split_and!. Qed.

Lemma rstat_ready e f :
  x.(ifcall) = MTstat f -> x.(rq_error) = e -> ready s x e ->
  exists s1, rstat r e s = Ok (tt, s1) /\ prepped c nx r x s s1.
Proof.
  intros Hi He [Hl H]. rewrite Hi in H. destruct e as [e|]; [exists s; split; [done|by eapply prepped_err; auto]|].
  destruct (H eq_refl) as [H16 Hm]. unfold rstat. eff_prim.
  assert (Hmin : 41 <= Zlen (wire_stat x.(rq_d))) by (rewrite Zlen_wire_stat; zpos; lia).
  unfold BIT16SZ. rewrite u16_small by lia. unfold d2m.
  destruct (Z.ltb_spec (Zlen (wire_stat x.(rq_d)) - 2 + 2) 2); [lia|].
  destruct (Z.ltb_spec (Zlen (wire_stat x.(rq_d)) - 2 + 2) (Zlen (wire_stat x.(rq_d)))); [lia|].
  rewrite u16_small by lia. destruct (Z.leb_spec (Zlen (wire_stat x.(rq_d))) 2); [lia|].
  erewrite updreq_run by exact Hx. eexists. split; [reflexivity|].
  eapply (prepped_req s.(fids) s.(fpool)); try done.
  - apply encode_reply; [done|unfold rmsg; simpl; by rewrite Hi|]. unfold roomy. cbn [wire_body].
    rewrite Zlen_app, Zlen_le. simpl o_stat. lia.
  - right. by rewrite Hi.
Qed.

(** The reply to a walk, whole or partial. *)
Lemma walk_reply x1 f g ws :
  x1.(ifcall) = MTwalk f g ws -> x1.(rq_error) = None -> 0 <= x1.(ofcall).(o_nwqid) <= 16 ->
  exists rep, encode s.(msize) x1 = Some rep /\ answers x1.(ifcall) rep.
Proof.
  intros Hi He Hn.
  assert (Hr : rmsg x1 = Some (MRwalk (take (Z.to_nat x1.(ofcall).(o_nwqid)) x1.(ofcall).(o_wqid)))).
  { unfold rmsg. rewrite Hi. unfold MAXWELEM. destruct (Z.gtb_spec x1.(ofcall).(o_nwqid) 16); [lia|done]. }
  eexists. split; [|by apply rmsg_answers]. apply encode_reply; [done|done|].
  unfold roomy. cbn [wire_body]. rewrite Zlen_app, Zlen_le, Zlen_rwqids. unfold Zlen at 1.
  rewrite length_take. lia.
Qed.

(** A walk that is given up: its new fid goes, and its error is settled. *)
Lemma rwalk_stopped e fid newfid ws :
  x.(ifcall) = MTwalk fid newfid ws -> x.(rq_error) = e -> ready s x e ->
  stopped e x.(ofcall).(o_nwqid) ws = true ->
  exists s1, rwalk r e s = Ok (tt, s1) /\ prepped c nx r x s s1.
Proof.
  intros Hi He [Hl H] Hst. rewrite Hi in H. destruct H as (Hn & _ & Hdrop & _).
  unfold rwalk. eff_prim. rewrite Hi. fold (stopped e x.(ofcall).(o_nwqid) ws). rewrite Hst.
  assert (exists m p, (if negb (fid =? newfid) then whenptr x.(rq_newfid) dropfid else mret tt) s =
     Ok (tt, set_fids m (set_fpool p s)) /\ FInv c m p nx) as (m & p & Hrun & HI').
  { assert ((mret tt : eff St unit) s = Ok (tt, set_fids s.(fids) (set_fpool s.(fpool) s))) by by destruct s.
    destruct (Z.eqb_spec fid newfid) as [|Hne]; cbn [negb]; [by eauto|].
    destruct x.(rq_newfid) as [g|]; [|by eauto]. eapply dropfid_run; [done|]. by apply Hdrop. }
  eff_with Hrun.
  assert (Hset : forall er, updreq r (req_error er) (set_fids m (set_fpool p s)) =
    Ok (tt, set_fids m (set_fpool p (set_reqs (<[r := req_error er x]> s.(reqs)) s))))
    by (intros; erewrite updreq_run by exact Hx; done).
  destruct (Z.eqb_spec x.(ofcall).(o_nwqid) 0) as [H0|H0].
  - destruct e as [e|].
    + eexists. split; [reflexivity|]. eapply prepped_fids; [done|apply (encode_error _ _ e); auto|by left].
    + unfold stopped in Hst. simpl in Hst. apply Z.ltb_lt in Hst.
      destruct (Z.eqb_spec (Zlen ws) 0); [lia|]. cbn [negb]. rewrite Hset.
      eexists. split; [reflexivity|]. eapply prepped_req; try done; [by apply encode_error|by left].
  - rewrite Hset. eexists. split; [reflexivity|].
    destruct (walk_reply (req_error None x) fid newfid ws) as (rep & ? & ?); [done|done|simpl; lia|].
    by eapply prepped_req.
Qed.

Lemma rwalk_ready e fid newfid ws :
  x.(ifcall) = MTwalk fid newfid ws -> x.(rq_error) = e -> ready s x e ->
  exists s1, rwalk r e s = Ok (tt, s1) /\ prepped c nx r x s s1.
Proof.
  intros Hi He Hr. destruct (stopped e x.(ofcall).(o_nwqid) ws) eqn:Hst; [by eapply rwalk_stopped|].
  destruct Hr as [Hl H]. rewrite Hi in H. destruct H as (Hn & Hlen & _ & Hgo).
  destruct (Hgo Hst) as [[f Hf] [g Hg]].
  destruct (fid_live x.(rq_fid) f) as [y Hy]; auto. destruct (fid_live x.(rq_newfid) g) as [z Hz]; auto.
  unfold rwalk. eff_prim. rewrite Hi. fold (stopped e x.(ofcall).(o_nwqid) ws). rewrite Hst.
  rewrite Hg. eff_prim.
  assert (e = None) as -> by (destruct e; [by unfold stopped in Hst|done]).
  destruct (walk_reply x fid newfid ws) as (rep & Hrep & Hans); [done|done|lia|].
  destruct (Z.eqb_spec x.(ofcall).(o_nwqid) 0) as [H0|H0].
  - rewrite Hf. eff_prim. eff_prim. erewrite updfid_run by exact Hz.
    eexists. split; [reflexivity|]. eapply (prepped_fids _ s.(fpool)); [by eapply finv_same|done|done].
  - destruct (lookup_lt_is_Some_2 x.(ofcall).(o_wqid) (Z.to_nat (x.(ofcall).(o_nwqid) - 1))) as [q Hq]; [lia|].
    rewrite Hq. erewrite updfid_run by exact Hz.
    eexists. split; [reflexivity|]. eapply (prepped_fids _ s.(fpool)); [by eapply finv_same|done|done].
Qed.

(** All of them. *)
Lemma rcall_ready close e :
  isflush x.(ifcall) = false -> x.(rq_error) = e -> ready s x e ->
  exists s1, rcall close r x.(ifcall) e s = Ok (true, s1) /\ prepped c nx r x s s1.
Proof.
  intros Hfl He Hr.
  assert (Hwrap : forall k : eff St unit, (exists s1, k s = Ok (tt, s1) /\ prepped c nx r x s s1) ->
    exists s1, (_ ← k; mret true) s = Ok (true, s1) /\ prepped c nx r x s s1).
  { intros k (s1 & Hk & ?). exists s1. split; [|done]. by eff_with Hk. }
  pose proof Hr as [_ Hm].
  destruct (ifcall x) eqn:Hi; try done; cbn [rcall];
    try (apply Hwrap; eauto using rversion_ready, rauth_ready, rattach_ready, rwalk_ready, ropen_ready,
      rcreate_ready, rread_ready, rwrite_ready, rremove_ready, rstat_ready).
  all: exists s; split; [done|]; eapply nothing_ready; eauto.
Qed.

End Prep.

(** * The books of the whole server *)

Definition Inv (W N P : gset Z) (G : Log) (s : St) : Prop :=
  FInv (fun f => msum (fcount f) s.(reqs)) s.(fids) s.(fpool) s.(next) /\
  RInv None W N P G s.(reqs) s.(rpool) s.(sent) s.(msize) s.(next).

Lemma closereq_run n c o x (s : St) nx :
  FInv c s.(fids) s.(fpool) nx -> s.(reqs) !! o = Some x -> (forall f, fcount f x <= c f) ->
  (x.(rq_ref) = 1 -> x.(oldreq) = None /\ x.(flush) = []) ->
  exists m, closereq (S n) o s = Ok (tt, set_fids m (set_reqs (unrefreq o x s.(reqs)) s)) /\
    FInv (fun f => if x.(rq_ref) - 1 =? 0 then c f - fcount f x else c f) m s.(fpool) nx.
Proof.
  intros HI Hx Hc Hlast. cbn [closereq]. eff_prim. unfold putreq. eff_prim. unfold unrefreq.
  destruct (Z.eqb_spec (x.(rq_ref) - 1) 0) as [H1|H1].
  2:{ exists s.(fids). split; [by destruct s|done]. }
  destruct Hlast as [Hold Hfl]; [lia|].
  set (s1 := set_reqs _ s).
  assert (Hpos : forall f, ptr f x.(rq_fid) + ptr f x.(rq_newfid) + ptr f x.(rq_afid) <= c f)
    by (intros f; apply (Hc f)).
  pose proof ptr_nonneg as Hnn.
  destruct (closefid_opt c x.(rq_fid) s1 nx HI) as (m1 & Hr1 & HI1).
  { intros f Hf. pose proof (Hpos f). pose proof (Hnn f x.(rq_newfid)). pose proof (Hnn f x.(rq_afid)).
    rewrite Hf, ptr_same in *. lia. }
  destruct (closefid_opt _ x.(rq_newfid) (set_fids m1 s1) nx HI1) as (m2 & Hr2 & HI2).
  { intros f Hf. pose proof (Hpos f). pose proof (Hnn f x.(rq_fid)). pose proof (Hnn f x.(rq_afid)).
    rewrite Hf, ptr_same in *. lia. }
  destruct (closefid_opt _ x.(rq_afid) (set_fids m2 (set_fids m1 s1)) nx HI2) as (m3 & Hr3 & HI3).
  { intros f Hf. pose proof (Hpos f). pose proof (Hnn f x.(rq_fid)). pose proof (Hnn f x.(rq_newfid)).
    rewrite Hf, ptr_same in *. lia. }
  exists m3. split.
  - eff_with Hr1. eff_with Hr2. eff_with Hr3. rewrite Hold, Hfl. simpl. eff_prim. eff_prim.
    unfold modify. subst s1. simpl. unfold set_reqs, set_fids. simpl. by rewrite delete_insert_eq.
  - eapply finv_ext; [|exact HI3]. intros f. unfold fcount. simpl. lia.
Qed.

Lemma fcount_le (m : gmap Z Req) k x f : m !! k = Some x -> fcount f x <= msum (fcount f) m.
Proof. apply msum_le. apply fcount_nonneg. Qed.

Lemma fcount_unref o x (m : gmap Z Req) f :
  m !! o = Some x ->
  msum (fcount f) (unrefreq o x m) =
    (if x.(rq_ref) - 1 =? 0 then msum (fcount f) m - fcount f x else msum (fcount f) m).
Proof.
  intros Hx. unfold unrefreq. destruct (_ =? _); [by apply msum_delete|].
  rewrite (msum_set _ _ _ _ _ Hx). unfold fcount. simpl. lia.
Qed.

Lemma ucount_unref o x (m : gmap Z Req) :
  m !! o = Some x -> msum ucount (unrefreq o x m) <= msum ucount m.
Proof.
  intros Hx. unfold unrefreq. pose proof (ucount_nonneg x).
  destruct (_ =? _); [rewrite (msum_delete _ _ _ _ Hx); lia|].
  rewrite (msum_set _ _ _ _ _ Hx). unfold ucount in *. simpl. lia.
Qed.

(** An answered request that nobody is answering has nothing left to do. *)
Lemma answered_idle d W N P G m rp sent ms nx o y :
  RInv d W N P G m rp sent ms nx -> m !! o = Some y -> y.(responded) = true -> o ∉ W ->
  y.(oldreq) = None /\ y.(flush) = [].
Proof.
  intros HR Hy Hr HW. pose proof (ri_reqs _ _ _ _ _ _ _ _ _ _ HR o y Hy) as Hok. split.
  - destruct (y.(oldreq)) as [p|] eqn:E; [|done].
    destruct (ro_old _ _ _ _ _ _ _ _ _ _ Hok p E) as (_&_&?). congruence.
  - by apply (ro_done _ _ _ _ _ _ _ _ _ _ Hok).
Qed.

Lemma last_ref W N P G m rp sent ms nx o y :
  RInv (Some o) W N P G m rp sent ms nx -> m !! o = Some y -> y.(responded) = true -> y.(rq_ref) = 1 -> o ∉ W.
Proof.
  intros HR Hy Hr H1. pose proof (ro_ref _ _ _ _ _ _ _ _ _ _ (ri_reqs _ _ _ _ _ _ _ _ _ _ HR o y Hy)) as H.
  rewrite Hr, ptr_same, H1 in H. pose proof (msum_nonneg (ocount o) (ocount_nonneg o) m).
  case_decide; [lia|done].
Qed.

(** [closereq] where one reference to an answered request remains to drop. *)
Lemma closereq_inv n W N P G o y (s : St) :
  FInv (fun f => msum (fcount f) s.(reqs)) s.(fids) s.(fpool) s.(next) ->
  RInv (Some o) W N P G s.(reqs) s.(rpool) s.(sent) s.(msize) s.(next) ->
  s.(reqs) !! o = Some y -> y.(responded) = true ->
  exists s', closereq (S n) o s = Ok (tt, s') /\ Inv W N P G s' /\
    msum ucount s'.(reqs) <= msum ucount s.(reqs).
Proof.
  intros HF HR Hy Hr.
  destruct (closereq_run n _ o y s _ HF Hy) as (m & Hrun & HF').
  { intros f. by apply fcount_le with o. }
  { intros H1. by eapply answered_idle, last_ref. }
  exists (set_fids m (set_reqs (unrefreq o y s.(reqs)) s)).
  split; [done|]. split; [split|]; simpl.
  - eapply finv_ext; [|exact HF']. intros f. simpl. by rewrite fcount_unref.
  - by apply rinv_unref.
  - by apply ucount_unref.
Qed.

(** * [respond] *)

(** Let go of an answered request, then forget it. *)
Lemma rflush_close n W N P G r x o y (s : St) :
  Inv W N P G s -> r ∈ P -> s.(reqs) !! r = Some x -> x.(oldreq) = Some o ->
  s.(reqs) !! o = Some y -> y.(responded) = true ->
  exists s1, (_ ← closereq (S n) o; updreq r (req_oldreq None)) s = Ok (tt, s1) /\
    Inv W ({[r]} ∪ N) P G s1 /\ s1.(reqs) !! r = Some (req_oldreq None x) /\ s1.(sent) = s.(sent) /\
    msum ucount s1.(reqs) <= msum ucount s.(reqs).
Proof.
  intros [HF HR] HP Hx Ho Hy Hr. set (x' := req_oldreq None x).
  pose proof (rinv_unold _ _ _ _ _ _ _ _ _ _ _ _ _ HR Hx HP Ho Hy Hr) as HR'. fold x' in HR'.
  assert (Hne : o <> r).
  { destruct (ro_old _ _ _ _ _ _ _ _ _ _ (ri_reqs _ _ _ _ _ _ _ _ _ _ HR r x Hx) o Ho). lia. }
  assert (Hy' : <[r := x']> s.(reqs) !! o = Some y) by (by rewrite lookup_insert_ne).
  destruct (closereq_run n _ o y s _ HF Hy) as (m & Hrun & HF').
  { intros f. by apply fcount_le with o. }
  { intros H1. eapply answered_idle; [exact HR'|done|done|]. by eapply last_ref. }
  assert (Hcomm : <[r := x']> (unrefreq o y s.(reqs)) = unrefreq o y (<[r := x']> s.(reqs))).
  { unfold unrefreq. destruct (_ =? _); [by rewrite delete_insert_ne|by rewrite insert_insert_ne]. }
  assert (Hlook : unrefreq o y s.(reqs) !! r = Some x).
  { unfold unrefreq. destruct (_ =? _); [by rewrite lookup_delete_ne|by rewrite lookup_insert_ne]. }
  exists (set_fids m (set_reqs (unrefreq o y (<[r := x']> s.(reqs))) s)).
  split; [eff_with Hrun; erewrite updreq_run by exact Hlook; simpl reqs; fold x'; by rewrite Hcomm|].
  split; [split|split_and!]; simpl.
  - eapply finv_ext; [|exact HF']. intros f. simpl. rewrite fcount_unref by done.
    rewrite (msum_set _ _ _ _ _ Hx). replace (fcount f x') with (fcount f x) by done.
    destruct (_ =? _); lia.
  - by apply rinv_unref.
  - rewrite <- Hcomm. apply lookup_insert_eq.
  - done.
  - rewrite <- Hcomm, (msum_set _ _ _ _ _ Hlook). pose proof (ucount_unref o y _ Hy).
    replace (ucount x') with (ucount x) by done. lia.
Qed.

Lemma isflush_type m : msg_type m = Tflush -> isflush m = true.
Proof. by destruct m. Qed.
Lemma type_isflush m : isflush m = true -> msg_type m = Tflush.
Proof. by destruct m. Qed.

(** What a flush request already answered has in the log. *)
Lemma answered_replied d W N P G m rp sent ms nx o y :
  RInv d W N P G m rp sent ms nx -> m !! o = Some y -> y.(responded) = true -> o ∈ replied sent.
Proof.
  intros HR Hy Hr. destruct (ro_log _ _ _ _ _ _ _ _ _ _ (ri_reqs _ _ _ _ _ _ _ _ _ _ HR o y Hy)) as (?&?&HG&_).
  apply (ri_once _ _ _ _ _ _ _ _ _ _ HR o); [eauto|]. intros (z & Hz & ?). congruence.
Qed.

(** Answering: the statement, for a given nesting. *)
Definition responds (resp : Z -> option (list Z) -> eff St unit) (u : Z) : Prop :=
  forall W N P G s r x e,
    Inv W N P G s -> r ∈ P -> s.(reqs) !! r = Some x -> ready s x e ->
    (r ∈ N -> x.(oldreq) = None) -> (forall g m t, G !! r = Some (g, m, t) -> x.(oldreq) = t) ->
    msum ucount s.(reqs) < u ->
    exists s', resp r e s = Ok (tt, s') /\ Inv W (N ∖ {[r]}) (P ∖ {[r]}) G s' /\
      msum ucount s'.(reqs) <= msum ucount s.(reqs).

(** The flushes that waited, one after another. *)
Lemma each_flush resp u W G l : responds resp u -> forall N P s,
  Inv W N P G s -> NoDup l ->
  (forall q, q ∈ l -> q ∈ P /\ q ∉ N /\ exists g m t, G !! q = Some (g, m, t) /\ msg_type m = Tflush) ->
  msum ucount s.(reqs) < u ->
  exists s', each l (fun q => resp q None) s = Ok (tt, s') /\
    Inv W (N ∖ list_to_set l) (P ∖ list_to_set l) G s' /\ msum ucount s'.(reqs) <= msum ucount s.(reqs).
Proof.
  intros Hresp. induction l as [|q l IH]; intros N P s HI Hnd Hl Hu.
  - exists s. simpl. rewrite !difference_empty_L. done.
  - apply list.NoDup_cons in Hnd as [Hq Hnd].
    destruct (Hl q) as (HP & HN & g & m & t & HG & Hm); [set_solver|].
    destruct (ri_P _ _ _ _ _ _ _ _ _ _ (proj2 HI) q HP) as (x & Hx & Hxu).
    destruct (ro_log _ _ _ _ _ _ _ _ _ _ (ri_reqs _ _ _ _ _ _ _ _ _ _ (proj2 HI) q x Hx))
      as (m' & t' & HG' & Hm' & Ho).
    rewrite HG in HG'. injection HG' as Heq <- <-.
    assert (Hrd : ready s x None).
    { split; [done|]. destruct (ifcall x) eqn:Hi; try done; rewrite Hm in Hm'; done. }
    destruct (Hresp W N P G s q x None HI HP Hx Hrd) as (s1 & Hrun & HI1 & Hu1); auto.
    { intros. set_solver. }
    { intros g' m'' t'' HG''. rewrite HG in HG''. injection HG'' as <- <- <-. auto. }
    destruct (IH (N ∖ {[q]}) (P ∖ {[q]}) s1 HI1 Hnd) as (s2 & Hrun2 & HI2 & Hu2).
    { intros q' Hq'. destruct (Hl q') as (? & ? & ?); [set_solver|]. split_and!; [set_solver..|done]. }
    { lia. }
    exists s2. simpl. split; [by eff_with Hrun|]. split; [|lia].
    by rewrite !difference_difference_l_L in HI2.
Qed.

(** Out of the table, and marked as answered. *)
Lemma reply_out n W N P G r x rep (s : St) :
  Inv W N P G s -> r ∈ P -> s.(reqs) !! r = Some x -> x.(oldreq) = None ->
  (forall g m t, G !! r = Some (g, m, t) -> answers m rep /\ forall o, t = Some o -> o ∈ replied s.(sent)) ->
  exists s1, (_ ← (v ← removereq x.(rq_tag);
                   match v with Some r' => closereq (S n) r' | None => mret tt end);
              _ ← modify (fun s => set_sent (s.(sent) ++ [mkReply r x.(rq_tag) rep]) s);
              updreq r (req_responded true)) s = Ok (tt, s1) /\
    Inv ({[r]} ∪ W) (N ∖ {[r]}) (P ∖ {[r]} ∪ list_to_set x.(flush)) G s1 /\
    s1.(reqs) !! r = Some (req_responded true (req_ref (x.(rq_ref) - 1) x)) /\
    msum ucount s1.(reqs) = msum ucount s.(reqs) - 1.
Proof.
  intros [HF HR] HP Hx Ho Hrep. pose proof (ri_reqs _ _ _ _ _ _ _ _ _ _ HR r x Hx) as Hok.
  assert (Hu : x.(responded) = false)
    by (destruct (ri_P _ _ _ _ _ _ _ _ _ _ HR r HP) as (?&?&?); congruence).
  pose proof (ro_ref _ _ _ _ _ _ _ _ _ _ Hok) as Href. rewrite Hu, ptr_none in Href.
  pose proof (msum_nonneg (ocount r) (ocount_nonneg r) s.(reqs)) as Hnn.
  destruct (km_delete_ok s.(rpool) x.(rq_tag) (ri_wf _ _ _ _ _ _ _ _ _ _ HR)) as (p & Hdel & Hw & Ha).
  rewrite (ro_table _ _ _ _ _ _ _ _ _ _ Hok Hu) in Hdel.
  destruct (closereq_run n _ r x (set_rpool p s) s.(next) HF Hx) as (m & Hrun & HF').
  { intros f. by apply fcount_le with r. }
  { lia. }
  assert (Hrm : removereq x.(rq_tag) s = Ok (Some r, set_rpool p s))
    by (unfold removereq; eff_prim; by rewrite Hdel).
  set (x1 := req_responded true (req_ref (x.(rq_ref) - 1) x)).
  assert (Hun : unrefreq r x s.(reqs) = <[r := req_ref (x.(rq_ref) - 1) x]> s.(reqs))
    by (unfold unrefreq; destruct (Z.eqb_spec (rq_ref x - 1) 0); [lia|done]).
  eexists. split.
  { rewrite eff_bind_assoc. eff_with Hrm. simpl reqs in Hrun. rewrite Hun in Hrun. eff_with Hrun. eff_prim.
    erewrite updreq_run by (simpl; apply lookup_insert_eq). simpl reqs. rewrite insert_insert_eq. reflexivity. }
  split; [split|split]; simpl.
  - destruct (Z.eqb_spec (rq_ref x - 1) 0) as [|_]; [lia|]. eapply finv_ext; [|exact HF']. intros f. simpl.
    rewrite (msum_set _ _ _ _ _ Hx). unfold fcount. simpl. lia.
  - by apply (rinv_reply _ _ _ _ _ s.(rpool)).
  - apply lookup_insert_eq.
  - rewrite (msum_set _ _ _ _ _ Hx). unfold ucount. simpl. rewrite Hu. lia.
Qed.

Lemma rsend_inv n resp u W N P G r x rep (s : St) :
  responds resp u -> Inv W N P G s -> r ∈ P -> s.(reqs) !! r = Some x -> x.(oldreq) = None ->
  encode s.(msize) x = Some rep ->
  (forall g m t, G !! r = Some (g, m, t) -> answers m rep /\ forall o, t = Some o -> o ∈ replied s.(sent)) ->
  msum ucount s.(reqs) <= u ->
  exists s', rsend (closereq (S n)) (fun q => resp q None) r s = Ok (tt, s') /\
    Inv W (N ∖ {[r]}) (P ∖ {[r]}) G s' /\ msum ucount s'.(reqs) <= msum ucount s.(reqs).
Proof.
  intros Hresp HI HP Hx Ho Henc Hrep Hu. pose proof (proj2 HI) as HR.
  pose proof (ri_reqs _ _ _ _ _ _ _ _ _ _ HR r x Hx) as Hok.
  assert (Hxu : x.(responded) = false)
    by (destruct (ri_P _ _ _ _ _ _ _ _ _ _ HR r HP) as (?&?&?); congruence).
  pose proof (ro_pool _ _ _ _ _ _ _ _ _ _ Hok) as Hpool.
  destruct (reply_out n W N P G r x rep s HI HP Hx Ho Hrep) as (s1 & Hrun1 & HI1 & Hx1 & Hu1).
  unfold rsend. eff_prim. eff_prim. rewrite Henc. rewrite Hpool.
  pose proof Hrun1 as Hrun1'.
  apply eff_bind_inv in Hrun1 as ([] & sa & Ha & Hrun1). eff_with Ha.
  apply eff_bind_inv in Hrun1 as ([] & sb & Hb & Hrun1). eff_with Hb. eff_with Hrun1.
  erewrite eff_bind_ok by (by apply deref_run). simpl flush. simpl rq_pool.
  assert (Hfl : forall q, q ∈ x.(flush) -> q ∉ P /\ q ∉ N /\
    exists g m t, G !! q = Some (g, m, t) /\ msg_type m = Tflush).
  { intros q Hq. destruct (ro_flush _ _ _ _ _ _ _ _ _ _ Hok q Hxu Hq) as (? & ? & y & Hy & _ & _ & Hf).
    split_and!; auto.
    destruct (ro_log _ _ _ _ _ _ _ _ _ _ (ri_reqs _ _ _ _ _ _ _ _ _ _ HR q y Hy)) as (m & t & ? & Hm & _).
    eexists _, m, t. split; [done|]. rewrite Hm. by apply type_isflush. }
  destruct (each_flush resp u ({[r]} ∪ W) G x.(flush) Hresp _ _ s1 HI1) as (s2 & Hrun2 & [HF2 HR2] & Hu2).
  { by apply (ro_nodup _ _ _ _ _ _ _ _ _ _ Hok). }
  { intros q Hq. destruct (Hfl q Hq) as (? & ? & ?). split_and!; [|set_solver|done].
    by apply elem_of_union_r, elem_of_list_to_set. }
  { lia. }
  eff_with Hrun2.
  destruct (ri_W _ _ _ _ _ _ _ _ _ _ HR2 r) as (x2 & Hx2 & Hr2); [set_solver|].
  eff_with (updreq_run r (req_flush []) s2 x2 Hx2). rewrite Hpool.
  pose proof (rinv_done _ _ _ _ _ _ _ _ _ _ _ HR2 Hx2 ltac:(set_solver)) as HR3.
  destruct (closereq_inv n (({[r]} ∪ W) ∖ {[r]}) (N ∖ {[r]} ∖ list_to_set (flush x))
    ((P ∖ {[r]} ∪ list_to_set (flush x)) ∖ list_to_set (flush x)) G r (req_flush [] x2)
    (set_reqs (<[r := req_flush [] x2]> s2.(reqs)) s2)) as (s3 & Hrun3 & HI3 & Hu3); simpl; auto.
  { eapply finv_ext; [|exact HF2]. intros f. simpl. rewrite (msum_set _ _ _ _ _ Hx2). unfold fcount. simpl. lia. }
  { apply lookup_insert_eq. }
  exists s3. split; [exact Hrun3|]. split.
  - assert (r ∉ W) as HrW.
    { intros Hw. destruct (ri_W _ _ _ _ _ _ _ _ _ _ HR r Hw) as (?&?&?). congruence. }
    replace (({[r]} ∪ W) ∖ {[r]}) with W in HI3 by (clear -HrW; set_solver).
    replace (N ∖ {[r]} ∖ list_to_set (flush x)) with (N ∖ {[r]}) in HI3.
    2:{ apply set_eq. intros q. rewrite !elem_of_difference, elem_of_list_to_set.
        split; [|tauto]. intros Hq. split; [done|]. intros Hq'. destruct (Hfl q Hq') as (_ & HN' & _). apply HN', Hq. }
    replace ((P ∖ {[r]} ∪ list_to_set (flush x)) ∖ list_to_set (flush x)) with (P ∖ {[r]}) in HI3; [done|].
    apply set_eq. intros q. rewrite !elem_of_difference, elem_of_union, elem_of_list_to_set, elem_of_difference.
    split; [|tauto]. intros Hq. split; [by left|]. intros Hq'.
    destruct (Hfl q Hq') as (HP' & _). apply HP', Hq.
  - simpl in Hu3. rewrite (msum_set _ _ _ _ _ Hx2) in Hu3. replace (ucount (req_flush [] x2)) with (ucount x2) in Hu3 by done. lia.
Qed.

Lemma ready_error (s s' : St) x e e' :
  s'.(fids) = s.(fids) -> s'.(fpool) = s.(fpool) -> s'.(msize) = s.(msize) ->
  ready s x e -> ready s' (req_error e' x) e.
Proof.
  intros Hf Hp Hm [Hl H]. split; [done|]. simpl. unfold listed in *. rewrite Hf, Hp, Hm. exact H.
Qed.

Lemma inv_error W N P G r x e (s : St) :
  Inv W N P G s -> r ∈ P -> s.(reqs) !! r = Some x ->
  Inv W N P G (set_reqs (<[r := req_error e x]> s.(reqs)) s).
Proof.
  intros [HF HR] HP Hx. split; simpl.
  - eapply finv_ext; [|exact HF]. intros f. simpl. rewrite (msum_set _ _ _ _ _ Hx). unfold fcount. simpl. lia.
  - eapply rinv_set; [done|done|by repeat split|done|]. intros Hu HN.
    apply (ro_pend _ _ _ _ _ _ _ _ _ _ (ri_reqs _ _ _ _ _ _ _ _ _ _ HR r x Hx) Hu HN).
Qed.

(** A request other than a flush is answered. *)
Lemma respond_plain n resp u W N P G r x e (s : St) :
  responds resp u -> Inv W N P G s -> r ∈ P -> s.(reqs) !! r = Some x -> x.(rq_error) = e -> ready s x e ->
  isflush x.(ifcall) = false -> x.(oldreq) = None ->
  (forall g m t, G !! r = Some (g, m, t) -> x.(oldreq) = t) -> msum ucount s.(reqs) <= u ->
  exists s', (go ← rcall (closereq (S n)) r x.(ifcall) e;
              if negb go then mret tt else rsend (closereq (S n)) (fun q => resp q None) r) s = Ok (tt, s') /\
    Inv W (N ∖ {[r]}) (P ∖ {[r]}) G s' /\ msum ucount s'.(reqs) <= msum ucount s.(reqs).
Proof.
  intros Hresp [HF HR] HP Hx He Hrd Hnf Ho Ht Hu.
  pose proof (ri_reqs _ _ _ _ _ _ _ _ _ _ HR r x Hx) as Hok.
  destruct (rcall_ready _ s.(next) r x s HF) with (close := closereq (S n)) (e := e)
    as (s1 & Hrun & m & p & x1 & ms & rep & -> & HF1 & Hal & Hrf & Hfc & Hms & Henc & Hans); auto.
  { intros f. by apply fcount_le with r. }
  { apply (ri_msize _ _ _ _ _ _ _ _ _ _ HR). }
  eff_with Hrun. cbn [negb]. pose proof Hal as (_ & _ & Hal3 & Hal4 & _).
  assert (Huc : ucount x1 = ucount x) by (unfold ucount; by rewrite Hal3).
  assert (HR1 : RInv None W ({[r]} ∪ N) P G (<[r := x1]> s.(reqs)) s.(rpool) s.(sent) ms s.(next)).
  { eapply rinv_set; [|done|done|done|set_solver]. apply rinv_more; [|done]. by eapply rinv_msize. }
  destruct (rsend_inv n resp u W ({[r]} ∪ N) P G r x1 rep
    (set_smsize ms (set_fids m (set_fpool p (set_reqs (<[r := x1]> s.(reqs)) s))))) as (s' & Hrun' & HI' & Hu'); auto.
  - split; [|done]. simpl. eapply finv_ext; [|exact HF1]. intros f. simpl.
    rewrite (msum_set _ _ _ _ _ Hx), Hfc. lia.
  - simpl. apply lookup_insert_eq.
  - congruence.
  - intros g mm t HG. rewrite Ho in Ht. rewrite <- (Ht g mm t HG). split; [|done].
    destruct (ro_log _ _ _ _ _ _ _ _ _ _ Hok) as (m' & t' & HG' & Hmm & _). rewrite HG in HG'.
    injection HG' as _ <- _. unfold answers in *. by rewrite Hmm.
  - simpl. rewrite (msum_set _ _ _ _ _ Hx). lia.
  - exists s'. split; [done|]. split.
    + by replace (({[r]} ∪ N) ∖ {[r]}) with (N ∖ {[r]}) in HI' by set_solver.
    + simpl in Hu'. rewrite (msum_set _ _ _ _ _ Hx) in Hu'. lia.
Qed.

(** A flush is answered, or joins the list of the request it flushes. *)
Lemma respond_flush n resp u W N P G r x (s : St) :
  responds resp u -> Inv W N P G s -> r ∈ P -> s.(reqs) !! r = Some x -> x.(rq_error) = None ->
  isflush x.(ifcall) = true -> (r ∈ N -> x.(oldreq) = None) ->
  (forall g m t, G !! r = Some (g, m, t) -> x.(oldreq) = t) -> msum ucount s.(reqs) <= u ->
  exists s', (go ← rcall (closereq (S n)) r x.(ifcall) None;
              if negb go then mret tt else rsend (closereq (S n)) (fun q => resp q None) r) s = Ok (tt, s') /\
    Inv W (N ∖ {[r]}) (P ∖ {[r]}) G s' /\ msum ucount s'.(reqs) <= msum ucount s.(reqs).
Proof.
  intros Hresp HI HP Hx He Hf HN Ht Hu. pose proof (proj2 HI) as HR.
  pose proof (ri_reqs _ _ _ _ _ _ _ _ _ _ HR r x Hx) as Hok.
  assert (Hrc : rcall (closereq (S n)) r x.(ifcall) None = rflush (closereq (S n)) r None)
    by (by destruct (ifcall x)).
  assert (Henc : forall x', x'.(rq_error) = None -> x'.(ifcall) = x.(ifcall) ->
    forall ms, 256 <= ms -> encode ms x' = Some MRflush).
  { intros x' He' Hi ms Hms. apply encode_reply; [done|unfold rmsg; rewrite Hi; by destruct (ifcall x)|].
    unfold roomy. cbn [wire_body]. rewrite Zlen_nil. lia. }
  assert (Hans : forall g m t, G !! r = Some (g, m, t) -> answers m MRflush).
  { intros g m t HG. destruct (ro_log _ _ _ _ _ _ _ _ _ _ Hok) as (m' & t' & HG' & Hmm & _).
    rewrite HG in HG'. injection HG' as _ <- _. right. by rewrite Hmm, (type_isflush _ Hf). }
  pose proof (ri_msize _ _ _ _ _ _ _ _ _ _ HR) as Hms.
  rewrite Hrc. unfold rflush at 1. cbn [assertb]. rewrite eff_bind_assoc. eff_prim. rewrite eff_bind_assoc. eff_prim.
  destruct (x.(oldreq)) as [o|] eqn:Ho.
  - destruct (ro_old _ _ _ _ _ _ _ _ _ _ Hok o Ho) as (Hlt & [y Hy] & Hxu).
    rewrite eff_bind_assoc. eff_prim. destruct (responded y) eqn:Hyr; cbn [negb].
    + destruct (rflush_close n W N P G r x o y s HI HP Hx Ho Hy Hyr) as (s1 & Hrun & HI1 & Hx1 & Hs1 & Hu1).
      apply eff_bind_inv in Hrun as ([] & sa & Ha & Hb).
      rewrite eff_bind_assoc. eff_with Ha. rewrite eff_bind_assoc. eff_with Hb. eff_prim. cbn [negb].
      destruct (rsend_inv n resp u W ({[r]} ∪ N) P G r (req_oldreq None x) MRflush s1)
        as (s' & Hrun' & HI' & Hu'); auto; [apply Henc; auto| |lia|].
      { apply (ri_msize _ _ _ _ _ _ _ _ _ _ (proj2 HI1)). }
      { intros g m t HG. split; [by eapply Hans|]. intros o' ->.
        pose proof (Ht g m _ HG) as [= <-]. rewrite Hs1. by eapply answered_replied. }
      exists s'. split; [done|]. split; [|lia].
      by replace (({[r]} ∪ N) ∖ {[r]}) with (N ∖ {[r]}) in HI' by set_solver.
    + assert (HrN : r ∉ N) by (intros HrN; by specialize (HN HrN)).
      unfold putreq. rewrite eff_bind_assoc. eff_prim. eff_prim. cbn [negb].
      eexists. split; [reflexivity|]. replace (N ∖ {[r]}) with N by set_solver. split; [split|]; simpl.
      * eapply finv_ext; [|exact (proj1 HI)]. intros f. simpl. rewrite (msum_set _ _ _ _ _ Hy).
        unfold fcount. simpl. lia.
      * by eapply rinv_enqueue.
      * rewrite (msum_set _ _ _ _ _ Hy). replace (ucount (req_flush (flush y ++ [r]) y)) with (ucount y) by done. lia.
  - eff_prim. cbn [negb]. eapply rsend_inv; eauto. intros g m t HG. split; [by eapply Hans|].
    intros o Ho'. specialize (Ht g m t HG). congruence.
Qed.

Lemma respond_eq fuel r e :
  respond (S fuel) r e =
    (x ← deref (@reqs T) r;
     _ ← assertb (negb x.(responded));
     _ ← updreq r (req_error e);
     go ← rcall (closereq fuel) r x.(ifcall) e;
     if negb go then mret tt else rsend (closereq fuel) (fun q => respond fuel q None) r).
Proof. reflexivity. Qed.

(** Answering keeps the books, and a nesting of one more than the requests not
    answered is enough. *)
Lemma respond_inv n : responds (respond n) (Z.of_nat n).
Proof.
  induction n as [|n IH]; intros W N P G s r x e HI HP Hx Hrd HN Ht Hu.
  { pose proof (msum_nonneg ucount ucount_nonneg s.(reqs)). lia. }
  assert (Hxu : x.(responded) = false)
    by (destruct (ri_P _ _ _ _ _ _ _ _ _ _ (proj2 HI) r HP) as (?&?&?); congruence).
  assert (Hge : 1 <= msum ucount s.(reqs)).
  { pose proof (msum_le ucount ucount_nonneg _ _ _ Hx) as H. unfold ucount at 1 in H. by rewrite Hxu in H. }
  destruct n as [|n]; [lia|].
  set (s1 := set_reqs (<[r := req_error e x]> s.(reqs)) s).
  assert (Huc : msum ucount s1.(reqs) = msum ucount s.(reqs)).
  { simpl. rewrite (msum_set _ _ _ _ _ Hx). replace (ucount (req_error e x)) with (ucount x) by done. lia. }
  assert (Hx1 : s1.(reqs) !! r = Some (req_error e x)) by apply lookup_insert_eq.
  pose proof (inv_error W N P G r x e s HI HP Hx) as HI1.
  pose proof (ready_error s s1 x e e eq_refl eq_refl eq_refl Hrd) as Hrd1.
  rewrite respond_eq. eff_prim. rewrite Hxu. cbn [negb assertb]. eff_prim. eff_with (updreq_run r (req_error e) s x Hx).
  rewrite <- Huc. destruct (isflush x.(ifcall)) eqn:Hf.
  - assert (e = None) as -> by (destruct Hrd as [_ H]; by destruct (ifcall x)).
    apply (respond_flush n _ (Z.of_nat (S n)) W N P G r (req_error None x) s1); auto. lia.
  - apply (respond_plain n _ (Z.of_nat (S n)) W N P G r (req_error e x) e s1); auto; [|lia].
    by apply (ro_kind _ _ _ _ _ _ _ _ _ _ (ri_reqs _ _ _ _ _ _ _ _ _ _ (proj2 HI) r x Hx)).
Qed.

End SrvResp.
