(* ===== verification/SrvHandlers.v ===== *)
(** The handlers of the 9P server, one message type after another: each runs
    without fault, keeps the books, and leaves its request answered or with the
    application. *)

From Stdlib Require Import String.
From S2P Require Import Prelude Mem CString Fcall ConvS2M ConvM2S ConvDir Intmap Eff FileTree Srv SrvInv SrvResp.

Section SrvHandlers.
Context {T : Type} `{KM : KeyMap Z T}.
Notation St := (@St T).

(** The books are in order, with no handler running. *)
Definition Good (G : Log) (s : St) : Prop := exists P, Inv ∅ ∅ P G s.

(** The handler of the request [x] at [r], which is no flush, is running. *)
Record Hnd (r : Z) (P : gset Z) (G : Log) (x : Req) (s : St) : Prop := {
  hn_inv : Inv ∅ {[r]} ({[r]} ∪ P) G s;
  hn_req : s.(reqs) !! r = Some x;
  hn_old : x.(oldreq) = None;
  hn_log g m t : G !! r = Some (g, m, t) -> t = None;
  hn_out : r ∉ P
}.

Lemma ucount_size (m : gmap Z Req) : msum ucount m <= Z.of_nat (size m).
Proof.
  induction m as [|k x m Hk IH] using map_ind; [done|].
  rewrite msum_new, map_size_insert_None by done. unfold ucount at 1. destruct (responded x); lia.
Qed.

Lemma answer_inv N P G r x e (s : St) :
  Inv ∅ N P G s -> N ⊆ {[r]} -> r ∈ P -> s.(reqs) !! r = Some x -> ready s x e ->
  (r ∈ N -> x.(oldreq) = None) -> (forall g m t, G !! r = Some (g, m, t) -> x.(oldreq) = t) ->
  exists s', answer r e s = Ok (tt, s') /\ Inv ∅ ∅ (P ∖ {[r]}) G s'.
Proof.
  intros HI HN HP Hx Hrd Ho Ht. pose proof (ucount_size s.(reqs)).
  destruct (respond_inv (S (S (S (size s.(reqs))))) ∅ N P G s r x e) as (s' & Hrun & HI' & _); auto; [lia|].
  exists s'. split; [unfold answer; by eff_prim|].
  by replace (N ∖ {[r]}) with (∅ : gset Z) in HI' by set_solver.
Qed.

Section Hnd.
Context (r : Z) (P : gset Z) (G : Log).

Lemma hnd_answer x e s : Hnd r P G x s -> ready s x e -> exists s', answer r e s = Ok (tt, s') /\ Good G s'.
Proof.
  intros [HI Hx Ho Ht Hout] Hrd.
  destruct (answer_inv {[r]} ({[r]} ∪ P) G r x e s) as (s' & Hrun & HI'); auto; [set_solver..| |].
  { intros g m t HG. by rewrite (Ht g m t HG). }
  exists s'. split; [done|]. by eexists.
Qed.

Lemma hnd_callback x s : Hnd r P G x s -> pend_ok x -> exists s', callback r s = Ok (tt, s') /\ Good G s'.
Proof.
  intros [[HF HR] Hx Ho Ht Hout] Hpd. eexists. split; [reflexivity|]. exists ({[r]} ∪ P). split; simpl; [done|].
  replace (∅ : gset Z) with ({[r]} ∖ {[r]} : gset Z) at 2 by set_solver.
  eapply rinv_settle; [done|done|]. intros _. split; [done|]. intros g m t HG. by rewrite (Ht g m t HG).
Qed.

(** Members that nobody counts. *)
Lemma hnd_upd x g s :
  Hnd r P G x s -> alike x (g x) -> (g x).(rq_ref) = x.(rq_ref) -> (forall f, fcount f (g x) = fcount f x) ->
  exists s', updreq r g s = Ok (tt, s') /\ s' = set_reqs (<[r := g x]> s.(reqs)) s /\ Hnd r P G (g x) s'.
Proof.
  intros [[HF HR] Hx Ho Ht Hout] Hal Hrf Hfc. eexists. split; [by apply updreq_run|]. split; [done|].
  split; simpl; [split; simpl|apply lookup_insert_eq|destruct Hal as (_&_&_&->&_); done|done|done].
  - eapply finv_ext; [|exact HF]. intros f. simpl. rewrite (msum_set _ _ _ _ _ Hx), Hfc. lia.
  - eapply rinv_set; [done|done|done|done|set_solver].
Qed.

(** A member of the request is set to a fid that has been counted for it. *)
Lemma hnd_link x g s nx' c m p :
  Hnd r P G x s -> alike x (g x) -> (g x).(rq_ref) = x.(rq_ref) ->
  FInv c m p nx' -> s.(next) <= nx' ->
  (forall f, c f = msum (fcount f) s.(reqs) - fcount f x + fcount f (g x)) ->
  let s1 := set_fpool p (set_fids m (set_next nx' s)) in
  let s2 := set_reqs (<[r := g x]> s.(reqs)) s1 in
  updreq r g s1 = Ok (tt, s2) /\ Hnd r P G (g x) s2.
Proof.
  intros [[HF HR] Hx Ho Ht Hout] Hal Hrf HF' Hnx Hc. simpl. split; [by erewrite updreq_run|].
  split; simpl; [split; simpl|apply lookup_insert_eq|destruct Hal as (_&_&_&->&_); done|done|done].
  - eapply finv_ext; [|exact HF']. intros f. simpl. rewrite Hc, (msum_set _ _ _ _ _ Hx). done.
  - eapply rinv_set; [|done|done|done|set_solver]. by eapply rinv_next.
Qed.

(** [r->fid = lookupfid(...)] and [r->afid = lookupfid(...)] *)
Lemma hnd_lookup {A} x n (g : option Z -> Req -> Req) (k : option Z -> eff St A) s :
  Hnd r P G x s ->
  (forall o, alike x (g o x) /\ (g o x).(rq_ref) = x.(rq_ref) /\
     forall f, fcount f (g o x) = fcount f x + ptr f o) ->
  exists s', (f ← lookupfid n; _ ← updreq r (g f); k f) s = k (km_abs s.(fpool) !! n) s' /\
    Hnd r P G (g (km_abs s.(fpool) !! n) x) s' /\ s'.(fpool) = s.(fpool) /\ s'.(msize) = s.(msize) /\
    (forall f y, s'.(fids) !! f = Some y -> exists y', s.(fids) !! f = Some y' /\ y.(fd_uid) = y'.(fd_uid)).
Proof.
  intros HH Hg. destruct (Hg (km_abs s.(fpool) !! n)) as (Hal & Hrf & Hfc).
  destruct (lookupfid_run _ n s _ (proj1 (hn_inv _ _ _ _ _ HH))) as (m & Hrun & HF & Huid).
  destruct (hnd_link x (g (km_abs s.(fpool) !! n)) s s.(next) _ m s.(fpool) HH Hal Hrf HF) as [Hup HH'];
    [lia|intros f; simpl; rewrite Hfc; lia|].
  eexists. split; [eff_with Hrun; change (set_fids m s) with (set_fpool (fpool s) (set_fids m (set_next (next s) s)));
    eff_with Hup; reflexivity|]. done.
Qed.

(** [r->fid = removefid(...)] *)
Lemma hnd_remove {A} x n (k : option Z -> eff St A) s :
  Hnd r P G x s -> x.(rq_fid) = None ->
  exists s', (f ← removefid n; _ ← updreq r (req_fid f); k f) s = k (km_abs s.(fpool) !! n) s' /\
    Hnd r P G (req_fid (km_abs s.(fpool) !! n) x) s' /\ s'.(msize) = s.(msize).
Proof.
  intros HH Hn. destruct (removefid_run _ n s _ (proj1 (hn_inv _ _ _ _ _ HH))) as (p & Hrun & HF).
  destruct (hnd_link x (req_fid (km_abs s.(fpool) !! n)) s s.(next) _ s.(fids) p HH
    ltac:(by repeat split) eq_refl HF) as [Hup HH'];
    [lia|intros f; simpl; unfold fcount; simpl; rewrite Hn, ptr_none; lia|].
  eexists. split; [eff_with Hrun; change (set_fpool p s) with (set_fpool p (set_fids (fids s) (set_next (next s) s)));
    eff_with Hup; reflexivity|]. done.
Qed.

(** [... = allocfid(...)] *)
Lemma hnd_alloc {A} x n (g : option Z -> Req -> Req) (k : option Z -> eff St A) s :
  Hnd r P G x s ->
  (forall o, alike x (g o x) /\ (g o x).(rq_ref) = x.(rq_ref) /\
     forall f, fcount f (g o x) = fcount f x + ptr f o) ->
  exists s' o, (f ← allocfid n; _ ← updreq r (g f); k f) s = k o s' /\
    Hnd r P G (g o x) s' /\ s'.(msize) = s.(msize) /\
    (forall f, o = Some f -> km_abs s'.(fpool) !! n = Some f /\ f = s.(next)) /\
    (forall f, f <> s.(next) -> s'.(fids) !! f = s.(fids) !! f).
Proof.
  intros HH Hg. destruct (allocfid_run _ n s (proj1 (hn_inv _ _ _ _ _ HH))) as (o & m & p & Hrun & HF & Ho & Hm).
  destruct (Hg o) as (Hal & Hrf & Hfc).
  destruct (hnd_link x (g o) s (s.(next) + 1) _ m p HH Hal Hrf HF) as [Hup HH'];
    [lia|intros f; simpl; rewrite Hfc; lia|].
  eexists _, o. split; [eff_with Hrun; eff_with Hup; reflexivity|]. split_and!; auto.
  intros f Hf. by destruct (Ho f Hf) as (? & ? & _).
Qed.

Lemma hnd_listed x n f s : Hnd r P G x s -> km_abs s.(fpool) !! n = Some f -> listed s f.
Proof.
  intros HH Hn. destruct (fi_pool _ _ _ _ (proj1 (hn_inv _ _ _ _ _ HH)) n f Hn) as (y & Hy & <-).
  by exists y.
Qed.

(** The fids a request points to. *)
Lemma hnd_live x f s : Hnd r P G x s -> 0 < fcount f x ->
  exists y, s.(fids) !! f = Some y /\ y.(file) = None /\ y.(rdir) = None.
Proof.
  intros HH Hf. pose proof (proj1 (hn_inv _ _ _ _ _ HH)) as HF.
  pose proof (fcount_le _ _ _ f (hn_req _ _ _ _ _ HH)).
  destruct (s.(fids) !! f) as [y|] eqn:Hy.
  - exists y. by destruct (fi_live _ _ _ _ HF f y Hy) as (_&_&?&?&_).
  - pose proof (fi_dead _ _ _ _ HF f Hy) as H0. simpl in H0. lia.
Qed.

(** Members of a fid that nobody counts. *)
Lemma hnd_fid x f g y s :
  Hnd r P G x s -> s.(fids) !! f = Some y -> (g y).(fd_fid) = y.(fd_fid) -> (g y).(fd_ref) = y.(fd_ref) ->
  (g y).(file) = y.(file) -> (g y).(rdir) = y.(rdir) ->
  updfid f g s = Ok (tt, set_fids (<[f := g y]> s.(fids)) s) /\
  Hnd r P G x (set_fids (<[f := g y]> s.(fids)) s).
Proof.
  intros [[HF HR] Hx Ho Ht Hout] Hy H1 H2 H3 H4. split; [by apply updfid_run|].
  split; simpl; auto. split; [|done]. simpl. by eapply finv_same.
Qed.

End Hnd.

(** * The handlers *)

(** What the application's [walk1] and [clone] may answer, and that there is a
    way to walk. *)
Record ops_ok (ops : SrvOps) : Prop := {
  oo_tree : op_tree ops = false;
  oo_walk : op_walk1 ops = None -> op_walk ops = true;
  oo_walk1 w1 y n a e : op_walk1 ops = Some w1 -> w1 y n = (a, inl e) -> Zlen e <= 200;
  oo_clone cl y z a e : op_clone ops = Some cl -> cl y z = (a, Some e) -> Zlen e <= 200
}.

Section Handlers.
Context (ops : SrvOps) (Hops : ops_ok ops) (r : Z) (P : gset Z) (G : Log) (tag : Z).

(** A handler's outcome. *)
Definition fine (k : eff St unit) (s : St) : Prop := exists s', k s = Ok (tt, s') /\ Good G s'.

Lemma fine_eq k k' s s' : k s = k' s' -> fine k' s' -> fine k s.
Proof. intros H (s1 & H1 & H2). exists s1. by rewrite H. Qed.

Lemma fine_bind {A} (c : eff St A) k s x s' : c s = Ok (x, s') -> fine (k x) s' -> fine (c ≫= k) s.
Proof. intros H (s1 & H1 & H2). exists s1. split; [by eff_with H|done]. Qed.

(** Requests whose error needs nothing. *)
Definition simple (m : Msg) : bool :=
  match m with
  | MTopen _ _ | MTcreate _ _ _ _ | MTread _ _ _ | MTwrite _ _ _ | MTremove _ | MTstat _
  | MTclunk _ | MTwstat _ _ => true
  | _ => false
  end.

Lemma fine_err x e s : Hnd r P G x s -> simple x.(ifcall) = true -> Zlen e <= 200 -> fine (respond_err r e) s.
Proof.
  intros HH Hs Hl. eapply hnd_answer; [done|]. split; [intros ? [= <-]; done|]. by destruct (ifcall x).
Qed.

Lemma fine_callback x s : Hnd r P G x s -> pend_ok x -> fine (callback r) s.
Proof. apply hnd_callback. Qed.

(** The reply of a flush is not in doubt; the other handlers look up their fid. *)
Lemma fine_lookup n (k : option Z -> eff St unit) x s :
  Hnd r P G x s -> x.(rq_fid) = None ->
  (forall s', Hnd r P G (req_fid None x) s' -> fine (k None) s') ->
  (forall f y s', Hnd r P G (req_fid (Some f) x) s' -> s'.(fids) !! f = Some y -> y.(file) = None ->
     km_abs s'.(fpool) !! n = Some f -> s'.(msize) = s.(msize) ->
     (exists y', s.(fids) !! f = Some y' /\ y.(fd_uid) = y'.(fd_uid)) -> km_abs s.(fpool) !! n = Some f ->
     fine (k (Some f)) s') ->
  fine (f ← lookupfid n; _ ← updreq r (req_fid f); k f) s.
Proof.
  intros HH Hn HNone HSome.
  destruct (hnd_lookup r P G x n req_fid k s HH) as (s' & Hrun & HH' & Hp & Hm & Hu).
  { intros o. split_and!; [by repeat split|done|]. intros f. unfold fcount. simpl. rewrite Hn, ptr_none. lia. }
  eapply fine_eq; [exact Hrun|]. destruct (km_abs s.(fpool) !! n) as [f|] eqn:Hf; [|by apply HNone].
  destruct (hnd_live r P G _ f s' HH') as (y & Hy & Hfi & _).
  { unfold fcount. simpl. rewrite ptr_same. pose proof (ptr_nonneg f x.(rq_newfid)).
    pose proof (ptr_nonneg f x.(rq_afid)). lia. }
  eapply HSome; eauto. by rewrite Hp.
Qed.

Lemma fine_alloc n (g : option Z -> Req -> Req) (k : option Z -> eff St unit) x s :
  Hnd r P G x s ->
  (forall o, alike x (g o x) /\ (g o x).(rq_ref) = x.(rq_ref) /\
     forall f, fcount f (g o x) = fcount f x + ptr f o) ->
  (forall s', Hnd r P G (g None x) s' -> fine (k None) s') ->
  (forall f s', Hnd r P G (g (Some f) x) s' -> km_abs s'.(fpool) !! n = Some f -> f = s.(next) ->
     (forall f', f' <> s.(next) -> s'.(fids) !! f' = s.(fids) !! f') -> fine (k (Some f)) s') ->
  fine (f ← allocfid n; _ ← updreq r (g f); k f) s.
Proof.
  intros HH Hg HNone HSome.
  destruct (hnd_alloc r P G x n g k s HH Hg) as (s' & o & Hrun & HH' & Hm & Ho & Hf).
  eapply fine_eq; [exact Hrun|]. destruct o as [f|]; [|by apply HNone].
  destruct (Ho f eq_refl) as [? ?]. by apply HSome.
Qed.

Lemma fine_remove n (k : option Z -> eff St unit) x s :
  Hnd r P G x s -> x.(rq_fid) = None ->
  (forall s', Hnd r P G (req_fid None x) s' -> fine (k None) s') ->
  (forall f y s', Hnd r P G (req_fid (Some f) x) s' -> s'.(fids) !! f = Some y -> y.(file) = None ->
     fine (k (Some f)) s') ->
  fine (f ← removefid n; _ ← updreq r (req_fid f); k f) s.
Proof.
  intros HH Hn HNone HSome. destruct (hnd_remove r P G x n k s HH Hn) as (s' & Hrun & HH' & Hm).
  eapply fine_eq; [exact Hrun|]. destruct (km_abs s.(fpool) !! n) as [f|]; [|by apply HNone].
  destruct (hnd_live r P G _ f s' HH') as (y & Hy & Hfi & _); [|by eapply HSome].
  unfold fcount. simpl. rewrite ptr_same. pose proof (ptr_nonneg f x.(rq_newfid)).
  pose proof (ptr_nonneg f x.(rq_afid)). lia.
Qed.

Ltac lk HH := eapply (fine_lookup _ _ _ _ HH); [done| |].

Lemma sversion_fine m v s :
  Hnd r P G (newreq tag (MTversion m v)) s -> take 2 (cut0 v) = str "9P" -> 256 <= m ->
  fine (sversion r) s.
Proof.
  intros HH Hv Hm. unfold sversion.
  eapply fine_bind; [apply deref_run, (hn_req _ _ _ _ _ HH)|]. cbn [ifcall newreq].
  rewrite bool_decide_eq_true_2 by done. cbn [negb].
  destruct (hnd_upd r P G _ (fun x => req_ofcall (of_version m (str "9P2000") x.(ofcall)) x) s HH)
    as (s' & Hrun & -> & HH'); [by repeat split|done|done|].
  eapply fine_bind; [reflexivity|]. eapply hnd_answer; [exact HH'|]. split; [done|]. simpl. split_and!; done.
Qed.

Lemma sauth_fine a u n s : Hnd r P G (newreq tag (MTauth a u n)) s -> fine (sauth ops r a) s.
Proof.
  intros HH. unfold sauth.
  destruct (hnd_alloc r P G _ a req_afid (fun f => match f with
      | None => respond_err r Edupfid
      | Some _ => if op_auth ops then callback r
                  else respond_err r (take 127 (argv0 ops ++ str ": authentication not required"))
      end) s HH) as (s' & o & Hrun & HH' & Hm & Ho & _).
  { intros o. split_and!; [by repeat split|done|]. intros f. unfold fcount. simpl. rewrite ptr_none. lia. }
  eapply fine_eq; [exact Hrun|]. destruct o as [f|].
  - destruct (op_auth ops); [by eapply fine_callback|]. eapply hnd_answer; [done|]. split.
    + intros v [= <-]. unfold Zlen. rewrite length_take. lia.
    + simpl. intros _ f' [= <-]. eapply hnd_listed; [done|]. by apply Ho.
  - eapply hnd_answer; [done|]. split; [by intros v [= <-]|]. done.
Qed.

(** [sattach] after the fid is allocated. *)
Lemma attach_rest f afid fid u n x s :
  Hnd r P G x s -> x.(ifcall) = MTattach fid afid u n -> x.(rq_fid) = Some f -> x.(rq_afid) = None ->
  km_abs s.(fpool) !! fid = Some f ->
  fine (_ ← updreq r (req_afid None);
        ok ← (if negb (afid =? NOFID) then
                a ← lookupfid afid; _ ← updreq r (req_afid a);
                mret (match a with Some _ => true | None => false end)
              else mret true);
        if negb ok then respond_err r Eunknownfid else
        _ ← updfid f (fid_uid (Some (cut0 u)));
        _ ← mret tt;
        if op_attach ops then callback r else respond_ok r) s.
Proof.
  intros HH Hi Hf Ha Hn.
  destruct (hnd_upd r P G _ (req_afid None) s HH) as (s1 & Hrun & -> & HH1);
    [by repeat split|done|intros; unfold fcount; simpl; by rewrite Ha|].
  eapply fine_bind; [exact Hrun|].
  set (x1 := req_afid None x) in *. set (s1 := set_reqs _ s) in *.
  assert (exists s2 b x2, (if negb (afid =? NOFID) then
        a ← lookupfid afid; _ ← updreq r (req_afid a);
        mret (match a with Some _ => true | None => false end) else mret true) s1 = Ok (b, s2) /\
      Hnd r P G x2 s2 /\ x2.(ifcall) = MTattach fid afid u n /\ x2.(rq_fid) = Some f /\
      km_abs s2.(fpool) !! fid = Some f) as (s2 & b & x2 & Hrun2 & HH2 & Hi2 & Hf2 & Hn2).
  { destruct (negb (afid =? NOFID)); [|by exists s1, true, x1].
    destruct (hnd_lookup r P G x1 afid req_afid
      (fun a => mret (match a with Some _ => true | None => false end)) s1 HH1) as (s2 & Hrun2 & HH2 & Hp & _ & _).
    { intros o. split_and!; [by repeat split|done|]. intros g. unfold fcount. simpl. rewrite ptr_none. lia. }
    eexists s2, _, _. split; [rewrite Hrun2; reflexivity|]. split; [done|]. by rewrite Hp. }
  eapply fine_bind; [exact Hrun2|].
  assert (Hrd : forall e s', s'.(fpool) = s2.(fpool) -> Hnd r P G x2 s' -> (forall v, e = Some v -> Zlen v <= 200) ->
    ready s' x2 e).
  { intros e s' Hp HH' Hl. split; [done|]. rewrite Hi2, Hf2. intros _ f' [= <-].
    eapply hnd_listed; [done|]. by rewrite Hp. }
  destruct b; cbn [negb].
  - destruct (hnd_live r P G x2 f s2 HH2) as (y & Hy & _ & _).
    { unfold fcount. rewrite Hf2, ptr_same. pose proof (ptr_nonneg f x2.(rq_newfid)).
      pose proof (ptr_nonneg f x2.(rq_afid)). lia. }
    destruct (hnd_fid r P G x2 f (fid_uid (Some (cut0 u))) y s2) as [Hup HH3]; auto.
    eapply fine_bind; [exact Hup|]. eapply fine_bind; [reflexivity|]. destruct (op_attach ops).
    + eapply fine_callback; [done|]. unfold pend_ok. by rewrite Hi2.
    + eapply hnd_answer; [done|]. by apply Hrd.
  - eapply hnd_answer; [done|]. apply Hrd; auto. by intros v [= <-].
Qed.

Lemma sattach_fine fid afid u n s :
  Hnd r P G (newreq tag (MTattach fid afid u n)) s -> fine (sattach ops r fid afid u) s.
Proof.
  intros HH. unfold sattach. rewrite (oo_tree _ Hops). eapply (fine_alloc fid req_fid); [exact HH| | |].
  - intros o. split_and!; [by repeat split|done|]. intros f. unfold fcount. simpl. rewrite ptr_none. lia.
  - intros s' HH'. eapply hnd_answer; [done|]. split; [by intros v [= <-]|]. done.
  - intros f s' HH' Hn _ _. by eapply attach_rest.
Qed.

(** ** Open, create, read, write *)

Lemma sopen_fine fid mode s : Hnd r P G (newreq tag (MTopen fid mode)) s -> fine (sopen ops r fid mode) s.
Proof.
  intros HH. unfold sopen. lk HH; [intros s' HH'; by eapply fine_err|].
  intros f y s' HH' Hy Hfi _ Hm _ _. eapply fine_bind; [by apply deref_run|]. cbv zeta.
  destruct (negb (omode y =? -1)); [by eapply fine_err|].
  destruct (_ && _); [by eapply fine_err|].
  destruct (hnd_upd r P G _ (fun x => req_ofcall (of_qid (fd_qid y) (ofcall x)) x) s' HH') as (s1 & Hrun & -> & HH1);
    [by repeat split|done|done|].
  eapply fine_bind; [exact Hrun|]. destruct (_ && _); [by eapply fine_err|]. rewrite Hfi.
  eapply fine_bind; [reflexivity|]. cbv iota.
  destruct (op_open ops); [eapply fine_callback; [done|]; unfold pend_ok; simpl; eauto|].
  eapply hnd_answer; [done|]. split; [done|]. simpl. eauto.
Qed.

Lemma screate_fine fid n pm mode s :
  Hnd r P G (newreq tag (MTcreate fid n pm mode)) s -> fine (screate ops r fid) s.
Proof.
  intros HH. unfold screate. lk HH; [intros s' HH'; by eapply fine_err|].
  intros f y s' HH' Hy Hfi _ Hm _ _. eapply fine_bind; [by apply deref_run|].
  destruct (negb (omode y =? -1)); [by eapply fine_err|].
  destruct (_ =? 0); [by eapply fine_err|]. rewrite Hfi. eapply fine_bind; [reflexivity|]. cbn [negb].
  destruct (op_create ops); [|by eapply fine_err].
  eapply fine_callback; [done|]. unfold pend_ok. simpl. eauto.
Qed.

Lemma sread_fine fid o n s : Hnd r P G (newreq tag (MTread fid o n)) s -> fine (sread ops r fid o n) s.
Proof.
  intros HH. unfold sread. lk HH; [intros s' HH'; by eapply fine_err|].
  intros f y s' HH' Hy Hfi _ Hm _ _. eapply fine_bind; [by apply deref_run|]. cbv zeta.
  destruct (s32 n <? 0); [by eapply fine_err|].
  destruct (_ || _); [by eapply fine_err|]. eapply fine_bind; [reflexivity|].
  set (n' := if n >? _ then _ else n).
  destruct (hnd_upd r P G _ (req_ifcall (MTread fid o n')) s' HH') as (s1 & Hrun & -> & HH1);
    [by repeat split|done|done|].
  eapply fine_bind; [exact Hrun|]. destruct (_ && _); [by eapply fine_err|]. rewrite Hfi.
  assert (Hend : fine (if op_read ops then callback r else respond_err r (str "no srv->read"))
    (set_reqs (<[r := req_ifcall (MTread fid o n') (req_fid (Some f) (newreq tag (MTread fid o n)))]> (reqs s')) s')).
  { destruct (op_read ops); [|by eapply fine_err]. eapply fine_callback; [done|]. unfold pend_ok. simpl. eauto. }
  by destruct (negb (Z.land _ QTDIR =? 0)).
Qed.

Lemma hexdigits_len k v : Zlen (hexdigits k v) <= 1 + Z.of_nat k.
Proof.
  revert v. induction k as [|k IH]; intros v; cbn [hexdigits]; cbv zeta; [done|].
  destruct (v <? 16); [rewrite Zlen_cons, Zlen_nil; lia|]. rewrite Zlen_app, Zlen_cons, Zlen_nil.
  specialize (IH (v / 16)). lia.
Qed.

Lemma swrite_fine fid o d s : Hnd r P G (newreq tag (MTwrite fid o d)) s -> fine (swrite ops r fid o d) s.
Proof.
  intros HH. unfold swrite. lk HH; [intros s' HH'; by eapply fine_err|].
  intros f y s' HH' Hy Hfi _ Hm _ _. eapply fine_bind; [by apply deref_run|]. cbv zeta.
  destruct (s32 (Zlen d) <? 0); [by eapply fine_err|].
  destruct (o <? 0); [by eapply fine_err|]. eapply fine_bind; [reflexivity|].
  set (d' := if Zlen d >? _ then _ else d).
  destruct (hnd_upd r P G _ (req_ifcall (MTwrite fid o d')) s' HH') as (s1 & Hrun & -> & HH1);
    [by repeat split|done|done|].
  eapply fine_bind; [exact Hrun|]. destruct (_ && _).
  - eapply fine_err; [done|done|]. rewrite Zlen_app. pose proof (hexdigits_len 7 (u32 (omode y))).
    change (Zlen (str "write on fid with open mode 0x")) with 30. lia.
  - destruct (op_write ops); [|by eapply fine_err]. eapply fine_callback; [done|]. unfold pend_ok. simpl. eauto.
Qed.

(** ** Clunk, remove, stat, wstat *)

Lemma sclunk_fine fid s : Hnd r P G (newreq tag (MTclunk fid)) s -> fine (sclunk r fid) s.
Proof.
  intros HH. unfold sclunk.
  eapply fine_remove; [exact HH|done|intros s' HH'; by eapply fine_err|].
  intros f y s' HH' _ _. eapply hnd_answer; [done|]. by split.
Qed.

Lemma sremove_fine fid s : Hnd r P G (newreq tag (MTremove fid)) s -> fine (sremove ops r fid) s.
Proof.
  intros HH. unfold sremove.
  eapply fine_remove; [exact HH|done|intros s' HH'; by eapply fine_err|].
  intros f y s' HH' Hy Hfi. eapply fine_bind; [by apply deref_run|]. rewrite Hfi.
  eapply fine_bind; [reflexivity|]. cbn [negb].
  destruct (op_remove ops); [|by eapply (fine_err _ Enoremove)].
  eapply fine_callback; [done|]. unfold pend_ok. simpl. eauto.
Qed.

Lemma sstat_fine fid s : Hnd r P G (newreq tag (MTstat fid)) s -> fine (sstat ops r fid) s.
Proof.
  intros HH. unfold sstat. lk HH; [intros s' HH'; by eapply fine_err|].
  intros f y s' HH' Hy Hfi _ Hm _ _. eapply fine_bind; [by apply deref_run|]. rewrite Hfi.
  eapply fine_bind; [reflexivity|]. destruct (op_stat ops); [|by eapply fine_err].
  by eapply fine_callback.
Qed.

Lemma swstat_fine fid b s : Hnd r P G (newreq tag (MTwstat fid b)) s -> fine (swstat ops r fid b) s.
Proof.
  intros HH. unfold swstat. lk HH; [intros s' HH'; by eapply fine_err|].
  intros f y s' HH' Hy Hfi _ Hm _ _. destruct (negb (op_wstat ops)); [by eapply fine_err|].
  eapply fine_bind; [apply deref_run, (hn_req _ _ _ _ _ HH')|].
  destruct (wstat_of b _) as [d|]; [|by eapply fine_err].
  destruct (hnd_upd r P G _ (req_d d) s' HH') as (s1 & Hrun & -> & HH1); [by repeat split|done|done|].
  eapply fine_bind; [exact Hrun|]. eapply fine_bind; [by apply deref_run|].
  do 2 (destruct (negb _); [by eapply fine_err|]). destruct (_ || _); [by eapply fine_err|].
  destruct (negb _); [by eapply fine_err|]. destruct (_ && _); [by eapply fine_err|].
  by eapply fine_callback.
Qed.

(** ** Walk *)

(** A walk's request, with its new fid where its number finds it. *)
Record walking (fid newfid : Z) (ws : list (list Z)) (x : Req) (s : St) : Prop := {
  wk_hnd : Hnd r P G x s;
  wk_call : x.(ifcall) = MTwalk fid newfid ws;
  wk_n : 0 <= x.(ofcall).(o_nwqid) <= 16;
  wk_len : length x.(ofcall).(o_wqid) = 16%nat;
  wk_new nf : x.(rq_newfid) = Some nf -> fid <> newfid -> km_abs s.(fpool) !! newfid = Some nf
}.

Lemma walk_answer fid newfid ws x e s :
  walking fid newfid ws x s -> (forall v, e = Some v -> Zlen v <= 200) ->
  (e = None -> is_Some x.(rq_fid) /\ is_Some x.(rq_newfid)) -> fine (answer r e) s.
Proof.
  intros [HH Hi Hn Hl Hnew] He Hok. eapply hnd_answer; [done|]. split; [done|]. rewrite Hi. split_and!; auto; try lia.
  - intros _ Hne nf Hnf. eapply hnd_listed; [done|]. by apply Hnew.
  - intros Hst. apply Hok. by destruct e.
Qed.

Lemma walk_err fid newfid ws x e s :
  walking fid newfid ws x s -> Zlen e <= 200 -> fine (respond_err r e) s.
Proof. intros Hw Hl. eapply walk_answer; [done|by intros v [= <-]|done]. Qed.

(** The new fid may change in members that nobody counts. *)
Lemma walking_fid fid newfid ws x f g y s :
  walking fid newfid ws x s -> s.(fids) !! f = Some y -> (g y).(fd_fid) = y.(fd_fid) ->
  (g y).(fd_ref) = y.(fd_ref) -> (g y).(file) = y.(file) -> (g y).(rdir) = y.(rdir) ->
  updfid f g s = Ok (tt, set_fids (<[f := g y]> s.(fids)) s) /\
  walking fid newfid ws x (set_fids (<[f := g y]> s.(fids)) s).
Proof.
  intros [HH Hi Hn Hl Hnew] Hy H1 H2 H3 H4. destruct (hnd_fid r P G x f g y s HH Hy H1 H2 H3 H4) as [Hup HH'].
  split; [done|]. by split.
Qed.

Lemma newfid_live fid newfid ws x nf s :
  walking fid newfid ws x s -> x.(rq_newfid) = Some nf -> exists y, s.(fids) !! nf = Some y.
Proof.
  intros [HH _ _ _ _] Hnf. destruct (hnd_live r P G x nf s HH) as (y & ? & _); [|by eauto].
  unfold fcount. rewrite Hnf, ptr_same. pose proof (ptr_nonneg nf x.(rq_fid)).
  pose proof (ptr_nonneg nf x.(rq_afid)). lia.
Qed.

Lemma walk_loop_fine w1 fid newfid ws0 x nf :
  op_walk1 ops = Some w1 -> x.(rq_newfid) = Some nf -> forall ws qs s,
  walking fid newfid ws0 x s ->
  exists s' e qs', walk_loop w1 nf ws qs s = Ok ((e, qs'), s') /\ walking fid newfid ws0 x s' /\
    Zlen qs' <= Zlen qs + Zlen ws /\ (forall v, e = Some v -> Zlen v <= 200).
Proof.
  intros Hw1 Hnf. induction ws as [|w ws IH]; intros qs s Hw.
  { exists s, None, qs. split_and!; try done. rewrite Zlen_nil. lia. }
  destruct (newfid_live _ _ _ _ _ _ Hw Hnf) as [y Hy]. cbn [walk_loop]. unfold oldwalk1.
  rewrite eff_bind_assoc. eff_prim. destruct (w1 y (cut0 w)) as [a res] eqn:Hres. cbv beta iota.
  destruct (walking_fid _ _ _ _ nf (fid_aux a) y s Hw Hy) as [Hup1 Hw2]; try done.
  rewrite eff_bind_assoc. eff_with Hup1. destruct res as [e|q].
  - eff_prim. eexists _, (Some e), qs. split; [reflexivity|]. split; [done|]. zpos. split; [lia|].
    intros v [= <-]. by eapply (oo_walk1 _ Hops).
  - destruct (walking_fid _ _ _ _ nf (fid_qid q) (fid_aux a y) _ Hw2) as [Hup2 Hw3];
      [apply lookup_insert_eq|done..|].
    rewrite eff_bind_assoc. eff_with Hup2. eff_prim.
    erewrite eff_bind_ok by (apply deref_run; simpl; apply lookup_insert_eq). cbv beta.
    destruct (IH (qs ++ [q]) _ Hw3) as (s' & e & qs' & Hrun & Hw' & Hl & He).
    exists s', e, qs'. simpl fd_qid. split; [exact Hrun|]. split_and!; [done| |done].
    rewrite Zlen_app, !Zlen_cons, Zlen_nil in *. lia.
Qed.

(** [oldclone], and the copy of the qid before it. *)
Lemma clone_fine fid newfid ws x f nf s :
  walking fid newfid ws x s -> x.(rq_fid) = Some f -> x.(rq_newfid) = Some nf ->
  exists s' e, (if negb (f =? nf) then
                  y ← deref fids f; _ ← updfid nf (fid_qid y.(fd_qid)); oldclone ops f nf
                else mret None) s = Ok (e, s') /\
    walking fid newfid ws x s' /\ (forall v, e = Some v -> Zlen v <= 200).
Proof.
  intros Hw Hf Hnf. destruct (negb (f =? nf)) eqn:Hne; [|by exists s, None].
  apply negb_true_iff, Z.eqb_neq in Hne.
  destruct (newfid_live _ _ _ _ _ _ Hw Hnf) as [z Hz].
  destruct (hnd_live r P G x f s (wk_hnd _ _ _ _ _ Hw)) as (y & Hy & _).
  { unfold fcount. rewrite Hf, ptr_same. pose proof (ptr_nonneg f x.(rq_newfid)).
    pose proof (ptr_nonneg f x.(rq_afid)). lia. }
  destruct (walking_fid _ _ _ _ nf (fid_qid (fd_qid y)) z s Hw Hz) as [Hup Hw1]; try done.
  eff_prim. eff_with Hup. unfold oldclone. destruct (op_clone ops) as [cl|] eqn:Hcl.
  2:{ eexists _, None. by split_and!. }
  erewrite eff_bind_ok by (apply deref_run; simpl; rewrite lookup_insert_ne by done; exact Hy). cbv beta.
  erewrite eff_bind_ok by (apply deref_run; simpl; apply lookup_insert_eq). cbv beta.
  destruct (cl y _) as [a res] eqn:Hres. cbv beta iota.
  destruct (walking_fid _ _ _ _ nf (fid_aux a) (fid_qid (fd_qid y) z) _ Hw1) as [Hup2 Hw2];
    [apply lookup_insert_eq|done..|].
  eff_with Hup2. eexists _, res. split; [reflexivity|]. split; [done|].
  intros v ->. by eapply (oo_clone _ Hops).
Qed.

Lemma walkandclone_fine w1 fid newfid ws x f nf s :
  op_walk1 ops = Some w1 -> walking fid newfid ws x s -> x.(rq_fid) = Some f -> x.(rq_newfid) = Some nf ->
  Zlen ws <= 16 -> fine (walkandclone ops w1 r f nf ws) s.
Proof.
  intros Hw1 Hw Hf Hnf Hlen. unfold walkandclone. destruct (_ && _); [by eapply walk_err|].
  destruct (clone_fine _ _ _ _ _ _ _ Hw Hf Hnf) as (s1 & e & Hrun & Hw1' & He).
  eapply fine_bind; [exact Hrun|]. destruct e as [e|]; [by eapply walk_err; auto|].
  destruct (walk_loop_fine w1 fid newfid ws x nf Hw1 Hnf ws [] s1 Hw1') as (s2 & e & qs & Hrun2 & Hw2 & Hl & He2).
  eapply fine_bind; [exact Hrun2|]. cbv beta iota. pose proof Hw2 as [HH2 Hi2 Hn2 Hl2 Hnew2].
  rewrite Zlen_nil in Hl. zpos.
  set (g := fun x : Req => req_ofcall (of_walk (Zlen qs) (putqids qs x.(ofcall).(o_wqid)) x.(ofcall)) x).
  destruct (hnd_upd r P G x g s2 HH2) as (s3 & Hrun3 & -> & HH3); [by repeat split|done|done|].
  eapply fine_bind; [exact Hrun3|].
  assert (Hw3 : walking fid newfid ws (g x) (set_reqs (<[r := g x]> s2.(reqs)) s2)).
  { split; try done; simpl; [lia|]. unfold putqids. rewrite length_app, length_drop. unfold Zlen in *. lia. }
  assert (Hrd : fine (respond_ok r) (set_reqs (<[r := g x]> s2.(reqs)) s2)).
  { eapply walk_answer; [done|done|]. intros _. simpl. rewrite Hf, Hnf. eauto. }
  destruct e as [e|]; [|done]. destruct (Zlen qs =? 0); [|done].
  eapply walk_err; [exact Hw3|by apply He2].
Qed.

(** [swalk] once the new fid is there. *)
Lemma swalk_rest fid newfid ws x f nf s :
  walking fid newfid ws x s -> x.(rq_fid) = Some f -> x.(rq_newfid) = Some nf -> Zlen ws <= 16 ->
  fine (match op_walk1 ops with
        | Some w1 => walkandclone ops w1 r f nf ws
        | None => if op_walk ops then callback r else abort
        end) s.
Proof.
  intros Hw Hf Hnf Hlen. destruct (op_walk1 ops) as [w1|] eqn:Hw1; [by eapply walkandclone_fine|].
  rewrite (oo_walk _ Hops Hw1). eapply fine_callback; [apply (wk_hnd _ _ _ _ _ Hw)|].
  unfold pend_ok. rewrite (wk_call _ _ _ _ _ Hw), Hf, Hnf. eauto.
Qed.

Lemma swalk_fine fid newfid ws s :
  Hnd r P G (newreq tag (MTwalk fid newfid ws)) s -> Zlen ws <= 16 ->
  (forall f y, km_abs s.(fpool) !! fid = Some f -> s.(fids) !! f = Some y -> fid <> newfid -> is_Some y.(fd_uid)) ->
  fine (swalk ops r fid newfid ws) s.
Proof.
  intros HH Hlen Huid. unfold swalk. lk HH.
  { intros s' HH'. eapply (walk_err fid newfid ws); [|done]. by split. }
  intros f y s' HH' Hy Hfi Hn Hm (y0 & Hy0 & Hu) Hn0. eapply fine_bind; [by apply deref_run|].
  assert (Hw : walking fid newfid ws (req_fid (Some f) (newreq tag (MTwalk fid newfid ws))) s') by by split.
  destruct (negb (omode y =? -1)); [by eapply walk_err|]. destruct (_ && _); [by eapply walk_err|].
  rewrite Hfi. destruct (Z.eqb_spec fid newfid) as [<-|Hne]; cbn [negb].
  - set (g := fun y : Fid => fid_ref (fd_ref y + 1) y).
    destruct (hnd_link r P G _ (req_newfid (Some f)) s' s'.(next) _ (<[f := g y]> s'.(fids)) s'.(fpool) HH'
      ltac:(by repeat split) eq_refl (finv_inc _ _ _ _ f y (proj1 (hn_inv _ _ _ _ _ HH')) Hy)) as [Hup HH2];
      [lia|intros k; unfold fcount; simpl; rewrite ?ptr_none; lia|].
    eapply fine_bind.
    { erewrite eff_bind_ok by (by apply (updfid_run f g)).
      change (set_fids (<[f:=g y]> (fids s')) s') with
        (set_fpool (fpool s') (set_fids (<[f:=g y]> (fids s')) (set_next (next s') s'))).
      erewrite eff_bind_ok; [|exact Hup]. reflexivity. }
    cbv iota. eapply (swalk_rest fid fid ws); [split; [exact HH2|done..]|done|done|done].
  - destruct (Huid f y0 Hn0 Hy0 Hne) as [u Hu0]. rewrite Hu, Hu0.
    destruct (hnd_alloc r P G _ newfid req_newfid (fun nf => _ ← whenptr nf (fun nf => updfid nf (fid_uid (Some u))); mret nf)
      s' HH') as (s2 & o & Hrun & HH2 & _ & Ho & _).
    { intros o. split_and!; [by repeat split|done|]. intros k. unfold fcount. simpl. rewrite ptr_none. lia. }
    destruct o as [nf|].
    + destruct (Ho nf eq_refl) as [Hnf _]. assert (Hw2 : walking fid newfid ws
        (req_newfid (Some nf) (req_fid (Some f) (newreq tag (MTwalk fid newfid ws)))) s2).
      { split; try done. by intros nf' [= <-]. }
      destruct (newfid_live _ _ _ _ nf _ Hw2 eq_refl) as [z Hz].
      destruct (walking_fid _ _ _ _ nf (fid_uid (Some u)) z s2 Hw2 Hz) as [Hup Hw3]; try done.
      eapply fine_bind; [rewrite Hrun; cbn [whenptr]; eff_with Hup; reflexivity|]. cbv iota.
      by eapply swalk_rest.
    + eapply fine_bind; [rewrite Hrun; reflexivity|]. cbv iota. eapply (walk_err fid newfid ws); [|done]. by split.
Qed.

End Handlers.

End SrvHandlers.
