(* ===== verification/SrvThm.v ===== *)
(** The 9P server as a whole: its events, and what holds of every run.

    An event is the arrival of a message, or an answer of the application to a
    request it holds.  [legal] says which events a server without a file tree
    may meet: what a well-behaved client sends and a well-behaved application
    answers.  The theorems at the end show what the other events can do. *)

From Stdlib Require Import String.
From S2P Require Import Prelude Mem CString Fcall ConvS2M ConvM2S ConvDir Intmap Eff FileTree Srv SrvInv SrvResp SrvHandlers.

Section Events.
Context {T : Type} `{KM : KeyMap Z T}.
Notation St := (@St T).

(** ** Reception *)

Definition inuse (s : St) (tag : Z) : bool :=
  match km_abs s.(rpool) !! tag with Some _ => true | None => false end.

(** The address of the request a message becomes, and what it finds to flush. *)
Definition reqaddr (s : St) (tag : Z) : Z := if inuse s tag then s.(next) + 1 else s.(next).
Definition found (s : St) (tag : Z) (m : Msg) : option Z :=
  if inuse s tag then None else match m with MTflush ot => km_abs s.(rpool) !! ot | _ => None end.

Lemma allocreq_new P G tag m t (s : St) :
  Inv ∅ ∅ P G s -> km_abs s.(rpool) !! tag = None ->
  exists p, let s' := set_rpool p (set_reqs (<[s.(next) := newreq tag m]> s.(reqs)) (set_next (s.(next) + 1) s)) in
    allocreq tag m s = Ok (Some s.(next), s') /\ km_abs p = <[tag := s.(next)]> (km_abs s.(rpool)) /\
    Inv ∅ {[s.(next)]} ({[s.(next)]} ∪ P) (<[s.(next) := (tag, m, t)]> G) s' /\ s.(next) ∉ P.
Proof.
  intros [HF HR] Htag. pose proof (km_caninsert_ok s.(rpool) tag s.(next) (ri_wf _ _ _ _ _ _ _ _ _ _ HR)) as Hins.
  rewrite Htag in Hins. destruct Hins as (p & Hins & Hw & Ha). exists p.
  destruct (rinv_dead _ _ _ _ _ _ _ _ _ _ s.(next) HR ltac:(lia)) as (Hd & _).
  split_and!; [|done| |].
  - unfold allocreq, newaddr. rewrite eff_bind_assoc. eff_prim. rewrite eff_bind_assoc. eff_prim. eff_prim.
    unfold putreq. eff_prim. eff_prim. simpl. by rewrite Hins.
  - split; simpl.
    + eapply finv_next; [|eapply finv_ext; [|exact HF]]; [lia|]. intros f. simpl.
      rewrite msum_new by done. unfold fcount. simpl. rewrite ptr_none. lia.
    + replace ({[s.(next)]} : gset Z) with ({[s.(next)]} ∪ ∅ : gset Z) at 1 by set_solver.
      eapply rinv_new; eauto. lia.
  - intros HP. destruct (ri_P _ _ _ _ _ _ _ _ _ _ HR _ HP) as (?&?&?). congruence.
Qed.

(** A tag in use: the request is let go of again. *)
Lemma allocreq_dup P G tag m (s : St) :
  Inv ∅ ∅ P G s -> is_Some (km_abs s.(rpool) !! tag) ->
  allocreq tag m s = Ok (None, set_next (s.(next) + 1) s).
Proof.
  intros [HF HR] [r0 Htag].
  pose proof (km_caninsert_ok s.(rpool) tag s.(next) (ri_wf _ _ _ _ _ _ _ _ _ _ HR)) as Hins. rewrite Htag in Hins.
  destruct (rinv_dead _ _ _ _ _ _ _ _ _ _ s.(next) HR ltac:(lia)) as (Hd & _).
  unfold allocreq, newaddr. rewrite eff_bind_assoc. eff_prim. rewrite eff_bind_assoc. eff_prim. eff_prim.
  unfold putreq. eff_prim. eff_prim. simpl. rewrite Hins.
  unfold release. rewrite eff_bind_assoc. eff_prim. cbn [closereq].
  unfold deref, putreq, modify, mbind, eff_bind, mret, eff_ret. simpl.
  rewrite lookup_insert_eq. simpl. rewrite lookup_insert_eq. simpl.
  rewrite insert_insert_eq. unfold set_reqs. simpl. rewrite insert_insert_eq, delete_insert_eq, delete_id by done.
  by destruct s.
Qed.

(** The request for a message whose tag is in use is answered at once. *)
Lemma rinv_fake P G m rp sent ms nx nx' r tag mm rep :
  RInv None ∅ ∅ P G m rp sent ms nx -> nx <= r < nx' -> answers mm rep ->
  RInv None ∅ ∅ P (<[r := (tag, mm, None)]> G) m rp (sent ++ [mkReply r tag rep]) ms nx'.
Proof.
  intros HR Hr Ha. destruct (rinv_dead _ _ _ _ _ _ _ _ _ _ r HR ltac:(lia)) as (Hd & HG & Hns & _).
  destruct (rinv_next _ _ _ _ _ _ _ _ _ _ nx' HR ltac:(lia)). split; try done.
  - intros k y Hy. destruct (ri_reqs k y Hy). split; try done.
    destruct ro_log as (m' & t & ? & ?). exists m', t. rewrite lookup_insert_ne by congruence. done.
  - intros k. destruct (decide (k = r)) as [->|]; [lia|]. rewrite lookup_insert_ne by done. auto.
  - unfold replied. rewrite fmap_app. apply list.NoDup_app. split_and!; [done| |apply NoDup_singleton].
    intros k Hk ->%list_elem_of_singleton. done.
  - intros i rp0 Hi. apply lookup_app_Some in Hi as [Hi|[Hi Hl]].
    + pose proof (lookup_lt_Some _ _ _ Hi). rewrite take_app_le by lia.
      destruct (ri_reply i rp0 Hi) as (m' & t & HG' & ?). exists m', t.
      rewrite lookup_insert_ne by congruence. done.
    + apply list_lookup_singleton_Some in Hl as [Hl <-]. simpl. exists mm, None. rewrite lookup_insert_eq. done.
  - intros k Hk. unfold replied. rewrite fmap_app, list.elem_of_app. simpl. rewrite list_elem_of_singleton.
    destruct (decide (k = r)) as [->|].
    + split; [|auto]. intros _ (?&?&?). congruence.
    + rewrite lookup_insert_ne in Hk by done. rewrite <- ri_once by done. simpl.
      split; [by intros [?| ?]|by left].
Qed.

Definition fake (tag : Z) (m : Msg) : Req :=
  mkReq tag m zeroofcall emptystat None None None None 1 false false (Some Eduptag) [].

(** A message a client may send: not a reply, and one [respond] can refuse. *)
Definition refusable (m : Msg) : bool :=
  match m with
  | MTauth _ _ _ | MTattach _ _ _ _ | MTwalk _ _ _ | MTopen _ _ | MTcreate _ _ _ _ | MTread _ _ _
  | MTwrite _ _ _ | MTclunk _ | MTremove _ | MTstat _ | MTwstat _ _ => true
  | _ => false
  end.

Lemma fake_ready s tag m : refusable m = true -> ready s (fake tag m) (Some Eduptag).
Proof.
  intros Hm. split; [by intros v [= <-]|]. destruct m; try done; simpl.
Qed.

Lemma fake_answer P G r tag m (s : St) :
  Inv ∅ ∅ P G s -> s.(next) <= r -> refusable m = true ->
  exists s', answer r (Some Eduptag) (set_reqs (<[r := fake tag m]> s.(reqs)) (set_next (r + 1) s)) = Ok (tt, s') /\
    Good (<[r := (tag, m, None)]> G) s'.
Proof.
  intros [HF HR] Hr Hm. destruct (rinv_dead _ _ _ _ _ _ _ _ _ _ r HR Hr) as (Hd & _).
  set (x := fake tag m). set (s1 := set_reqs _ _). unfold answer. eff_prim. rewrite respond_eq.
  assert (Hx : s1.(reqs) !! r = Some x) by apply lookup_insert_eq.
  eff_prim. cbn [responded fake x negb assertb]. eff_prim. eff_with (updreq_run r (req_error (Some Eduptag)) s1 x Hx).
  replace (req_error (Some Eduptag) x) with x by done. rewrite (insert_id s1.(reqs)) by done.
  replace (set_reqs s1.(reqs) s1) with s1 by (by destruct s).
  destruct (rcall_ready _ s.(next) r x s1 HF) with (close := closereq (S (S (size s1.(reqs))))) (e := Some Eduptag)
    as (s2 & Hrun & m2 & p & x1 & ms & rep & -> & HF2 & Hal & Hrf & Hfc & Hms & Henc & Hans); auto.
  { intros f. unfold fcount. simpl. rewrite ptr_none. apply (msum_nonneg _ (fcount_nonneg f)). }
  { apply (ri_msize _ _ _ _ _ _ _ _ _ _ HR). }
  { by destruct m. }
  { by apply fake_ready. }
  change (ifcall x) with m in Hrun. cbn [ifcall]. eff_with Hrun. cbn [negb].
  destruct Hal as (Ht & Hpl & Hrs & Ho & Hfl & _).
  unfold rsend. erewrite eff_bind_ok by (apply deref_run; simpl; apply lookup_insert_eq). cbv beta. eff_prim.
  cbn [msize set_smsize]. rewrite Henc, Hpl. cbn [rq_pool x fake]. eff_prim. eff_prim.
  erewrite eff_bind_ok by (apply updreq_run; simpl; apply lookup_insert_eq). cbv beta.
  erewrite eff_bind_ok by (apply deref_run; simpl; apply lookup_insert_eq). cbv beta.
  cbn [flush req_responded rq_pool]. rewrite Hfl, Hpl. cbn [flush x fake each rq_pool]. eff_prim.
  erewrite eff_bind_ok by (apply updreq_run; simpl; apply lookup_insert_eq). cbv beta.
  eexists. split; [reflexivity|]. exists P. simpl.
  rewrite !insert_insert_eq, delete_insert_eq, delete_id by done. rewrite Ht. split; simpl.
  - eapply finv_next; [|exact HF2]. lia.
  - eapply rinv_fake; [by eapply rinv_msize|lia|done].
Qed.

(** [sflush] for the request it finds, another than itself. *)
Lemma sflush_fine ops P G r tag ot o (s : St) :
  Inv ∅ {[r]} ({[r]} ∪ P) G s -> s.(reqs) !! r = Some (newreq tag (MTflush ot)) ->
  km_abs s.(rpool) !! ot = o -> (forall p, o = Some p -> p < r) ->
  (forall g m t, G !! r = Some (g, m, t) -> t = o) ->
  exists s', sflush ops r ot s = Ok (tt, s') /\ Good G s'.
Proof.
  intros [HF HR] Hx Ho Hlt Ht. unfold sflush, lookupreq. unfold mbind at 1, eff_bind at 1.
  rewrite km_lookup_ok by apply HR. rewrite Ho. destruct o as [p|].
  - destruct (ri_table _ _ _ _ _ _ _ _ _ _ HR ot p Ho) as (y & Hy & _ & Hyu). unfold increqref. rewrite Hy.
    specialize (Hlt p eq_refl).
    pose proof (rinv_old _ _ _ _ _ _ _ _ _ _ _ _ _ HR Hx ltac:(set_solver) ltac:(set_solver) eq_refl eq_refl eq_refl Hlt Hy) as HR1.
    set (x1 := req_oldreq (Some p) (newreq tag (MTflush ot))) in HR1.
    set (s1 := set_reqs (<[r := x1]> (<[p := req_ref (rq_ref y + 1) y]> s.(reqs))) s).
    assert (Hup : updreq r (req_oldreq (Some p)) (set_reqs (<[p := req_ref (rq_ref y + 1) y]> s.(reqs)) s) = Ok (tt, s1)).
    { erewrite updreq_run by (simpl; rewrite lookup_insert_ne by lia; exact Hx). done. }
    eff_with Hup. destruct (Z.eqb_spec p r); [lia|].
    assert (HI1 : Inv ∅ ∅ ({[r]} ∪ P) G s1).
    { split; simpl.
      - eapply finv_ext; [|exact HF]. intros f. simpl.
        rewrite (msum_set _ _ _ (newreq tag (MTflush ot))) by (rewrite lookup_insert_ne by lia; done).
        rewrite (msum_set _ _ _ _ _ Hy). unfold fcount. simpl. lia.
      - replace (∅ : gset Z) with ({[r]} ∖ {[r]} : gset Z) at 2 by set_solver.
        eapply rinv_settle; [exact HR1|apply lookup_insert_eq|]. intros _. split; [done|].
        intros g m t HG. by rewrite (Ht g m t HG). }
    destruct (op_flush ops).
    + eexists. split; [reflexivity|]. by exists ({[r]} ∪ P).
    + destruct (answer_inv ∅ ({[r]} ∪ P) G r x1 None s1 HI1) as (s' & Hrun & HI');
        [set_solver|set_solver|apply lookup_insert_eq|by split|set_solver| |].
      * intros g m t HG. by rewrite (Ht g m t HG).
      * exists s'. split; [done|]. by eexists.
  - eff_with (updreq_run r (req_oldreq None) s _ Hx). rewrite insert_id by done.
    replace (set_reqs s.(reqs) s) with s by (by destruct s).
    destruct (answer_inv {[r]} ({[r]} ∪ P) G r (newreq tag (MTflush ot)) None s (conj HF HR)) as (s' & Hrun & HI');
      [set_solver|set_solver|exact Hx|by split|done| |].
    + intros g m t HG. by rewrite (Ht g m t HG).
    + exists s'. split; [done|]. by eexists.
Qed.

(** ** Events *)

Inductive event :=
| Recv (tag : Z) (m : Msg)
| Answer (r : Z) (o : Ofcall) (d : Stat) (e : option (list Z)).

Definition step (ops : SrvOps) (ev : event) : eff St unit :=
  match ev with
  | Recv tag m => srv_round ops tag m
  | Answer r o d e => app_respond r o d e
  end.

(** The requests the application holds: not answered, and in no flush list. *)
Definition held (s : St) (r : Z) : Prop :=
  unanswered s.(reqs) r /\
  forall o x, s.(reqs) !! o = Some x -> x.(responded) = false -> r ∉ x.(flush).

(** What a client may send. *)
Definition legal_recv (s : St) (tag : Z) (m : Msg) : Prop :=
  (refusable m = true \/ inuse s tag = false) /\
  match m with
  | MTversion n v => take 2 (cut0 v) = str "9P" /\ 256 <= n
  | MTflush ot => ot <> tag
  | MTwalk fid newfid ws =>
      Zlen ws <= 16 /\
      forall f y, km_abs s.(fpool) !! fid = Some f -> s.(fids) !! f = Some y -> fid <> newfid -> is_Some y.(fd_uid)
  | _ => refusable m = true
  end.

(** What the application may answer to a request it holds: a reply that fits,
    an error only where the request has a fid that can be given up. *)
Definition legal_answer (s : St) (r : Z) (o : Ofcall) (d : Stat) (e : option (list Z)) : Prop :=
  held s r /\ (forall v, e = Some v -> Zlen v <= 200) /\
  forall x, s.(reqs) !! r = Some x ->
  match x.(ifcall) with
  | MTauth _ _ _ => is_Some e -> forall f, x.(rq_afid) = Some f -> listed s f
  | MTattach _ _ _ _ => is_Some e -> forall f, x.(rq_fid) = Some f -> listed s f
  | MTflush _ => e = None
  | MTwalk fid newfid ws =>
      0 <= o.(o_nwqid) <= 16 /\ length o.(o_wqid) = 16%nat /\
      (stopped e o.(o_nwqid) ws = true -> fid <> newfid -> forall f, x.(rq_newfid) = Some f -> listed s f)
  | MTread _ _ _ => e = None -> Zlen o.(o_data) + 11 <= s.(msize)
  | MTstat _ => e = None -> Zlen (wire_stat d) <= 65535 /\ Zlen (wire_stat d) + 9 <= s.(msize)
  | _ => True
  end.

Definition legal (s : St) (ev : event) : Prop :=
  match ev with
  | Recv tag m => legal_recv s tag m
  | Answer r o d e => legal_answer s r o d e
  end.

(** The log after an event. *)
Definition logged (s : St) (ev : event) (G : Log) : Log :=
  match ev with
  | Recv tag m => <[reqaddr s tag := (tag, m, found s tag m)]> G
  | Answer _ _ _ _ => G
  end.

Lemma getreq_dup P G tag m (s : St) :
  Inv ∅ ∅ P G s -> is_Some (km_abs s.(rpool) !! tag) ->
  getreq tag m s = Ok (s.(next) + 1,
    set_reqs (<[s.(next) + 1 := fake tag m]> s.(reqs)) (set_next (s.(next) + 1 + 1) s)).
Proof.
  intros HI Hin. unfold getreq. eff_with (allocreq_dup P G tag m s HI Hin).
  unfold newaddr. rewrite !eff_bind_assoc. eff_prim. rewrite !eff_bind_assoc. eff_prim. eff_prim. reflexivity.
Qed.

Lemma recv_dup ops G tag m (s : St) :
  Good G s -> is_Some (km_abs s.(rpool) !! tag) -> refusable m = true ->
  exists s', srv_round ops tag m s = Ok (tt, s') /\ Good (<[s.(next) + 1 := (tag, m, None)]> G) s'.
Proof.
  intros [P HI] Hin Hm.
  destruct (fake_answer P G (s.(next) + 1) tag m s HI ltac:(lia) Hm) as (s' & Hrun & HG').
  exists s'. split; [|done]. unfold srv_round. eff_with (getreq_dup P G tag m s HI Hin).
  erewrite eff_bind_ok by (apply deref_run; simpl; apply lookup_insert_eq). exact Hrun.
Qed.

Lemma recv_new ops G tag m (s : St) :
  ops_ok ops -> Good G s -> km_abs s.(rpool) !! tag = None -> legal_recv s tag m ->
  exists s', srv_round ops tag m s = Ok (tt, s') /\
    Good (<[s.(next) := (tag, m, match m with MTflush ot => km_abs s.(rpool) !! ot | _ => None end)]> G) s'.
Proof.
  intros Hops [P HI] Hnew [_ Hleg]. set (t := match m with MTflush ot => _ | _ => None end).
  destruct (allocreq_new P G tag m t s HI Hnew) as (p & Hal & Hp & HI1 & HP).
  set (s1 := set_rpool _ _) in *. set (G1 := <[_ := _]> G) in *. set (r := s.(next)) in *.
  assert (Hx : s1.(reqs) !! r = Some (newreq tag m)) by apply lookup_insert_eq.
  assert (HG1 : forall g m' t', G1 !! r = Some (g, m', t') -> t' = t)
    by (intros g m' t'; unfold G1; rewrite lookup_insert_eq; by intros [= <- <- <-]).
  unfold srv_round, getreq. rewrite eff_bind_assoc. eff_with Hal. cbv iota. eff_prim. eff_prim. cbn [rq_error newreq].
  assert (HH : isflush m = false -> Hnd r P G1 (newreq tag m) s1).
  { intros Hf. split; auto. intros g m' t' HG. rewrite (HG1 g m' t' HG). unfold t. by destruct m. }
  destruct m as [n v| |a u n| |fid afid u n| | |ot| |fid newfid ws| |fid mode| |fid n pm mode| |fid o n|
    |fid o b| |fid| |fid| |fid| |fid b|]; simpl in Hleg; try done.
  - destruct Hleg. eapply sversion_fine; eauto.
  - eapply sauth_fine; eauto.
  - eapply sattach_fine; eauto.
  - eapply (sflush_fine ops P G1 r tag ot t); eauto.
    + simpl. by rewrite Hp, lookup_insert_ne by congruence.
    + intros q Hq. destruct (ri_table _ _ _ _ _ _ _ _ _ _ (proj2 HI) ot q Hq) as (y & Hy & _).
      apply (ro_next _ _ _ _ _ _ _ _ _ _ (ri_reqs _ _ _ _ _ _ _ _ _ _ (proj2 HI) q y Hy)).
  - destruct Hleg. eapply swalk_fine; eauto.
  - eapply sopen_fine; eauto.
  - eapply screate_fine; eauto.
  - eapply sread_fine; eauto.
  - eapply swrite_fine; eauto.
  - eapply sclunk_fine; eauto.
  - eapply sremove_fine; eauto.
  - eapply sstat_fine; eauto.
  - eapply swstat_fine; eauto.
Qed.

(** The application's answer. *)
Lemma answer_good G r o d e (s : St) :
  Good G s -> legal_answer s r o d e -> exists s', app_respond r o d e s = Ok (tt, s') /\ Good G s'.
Proof.
  intros [P HI] [[(x & Hx & Hu) Hfl] [Hl Hleg]]. specialize (Hleg x Hx).
  pose proof (ri_reqs _ _ _ _ _ _ _ _ _ _ (proj2 HI) r x Hx) as Hok.
  assert (HP : r ∈ P).
  { destruct (decide (r ∈ P)) as [|HP]; [done|]. exfalso.
    destruct (ro_wait _ _ _ _ _ _ _ _ _ _ Hok Hu HP) as (q & y & _ & Hy & Hyu & Hin). by eapply Hfl. }
  pose proof (ro_pend _ _ _ _ _ _ _ _ _ _ Hok Hu ltac:(set_solver)) as Hpd.
  set (x1 := req_d d (req_ofcall o x)). set (s1 := set_reqs (<[r := x1]> s.(reqs)) s).
  assert (HI1 : Inv ∅ ∅ P G s1).
  { destruct HI as [HF HR]. split; simpl.
    - eapply finv_ext; [|exact HF]. intros f. simpl. rewrite (msum_set _ _ _ _ _ Hx). unfold fcount. simpl. lia.
    - eapply rinv_set; [done|done|by repeat split|done|done]. }
  unfold app_respond. eff_with (updreq_run r (fun x => req_d d (req_ofcall o x)) s x Hx).
  destruct (answer_inv ∅ P G r x1 e s1 HI1) as (s' & Hrun & HI'); auto.
  - set_solver.
  - apply lookup_insert_eq.
  - split; [done|]. unfold listed in *. unfold pend_ok in Hpd. simpl. destruct (ifcall x); try done; tauto.
  - set_solver.
  - intros g m t HG. destruct (ro_log _ _ _ _ _ _ _ _ _ _ Hok) as (m' & t' & HG' & _ & Ho).
    rewrite HG in HG'. injection HG' as _ _ <-. apply Ho; [done|set_solver].
  - exists s'. split; [done|]. by eexists.
Qed.

Lemma step_good ops G ev (s : St) :
  ops_ok ops -> Good G s -> legal s ev -> exists s', step ops ev s = Ok (tt, s') /\ Good (logged s ev G) s'.
Proof.
  intros Hops HG Hleg. destruct ev as [tag m|r o d e]; [|by apply answer_good].
  simpl. unfold reqaddr, found, inuse. destruct (km_abs s.(rpool) !! tag) as [q|] eqn:Htag.
  - apply recv_dup; eauto. destruct Hleg as [[?|Hin] _]; [done|]. unfold inuse in Hin. by rewrite Htag in Hin.
  - by apply recv_new.
Qed.

(** ** Messages that end the server *)

(** A reply; a flush or version request with a tag in use; a version request
    for another protocol, or one whose message size has no room for its own
    reply (19 bytes). *)
Definition fatal (s : St) (tag : Z) (m : Msg) : bool :=
  match m with
  | MTversion n v => inuse s tag || negb (bool_decide (take 2 (cut0 v) = str "9P")) || (n <? 19)
  | MTflush _ => inuse s tag
  | _ => negb (refusable m)
  end.

(** The switch of [respond] aborts on a reply, and its cases for a version
    request and a flush assert that there is no error. *)
Lemma answer_aborts r x e (s : St) :
  s.(reqs) !! r = Some x -> x.(responded) = false ->
  match x.(ifcall) with MTversion _ _ | MTflush _ => is_Some e | m => refusable m = false end ->
  answer r e s = Abort.
Proof.
  intros Hx Hu Hm. unfold answer. eff_prim. rewrite respond_eq.
  erewrite eff_bind_ok by (by apply deref_run). rewrite Hu. cbn [negb assertb]. eff_prim.
  eff_with (updreq_run r (req_error e) s x Hx).
  unfold mbind at 1, eff_bind at 1. destruct x.(ifcall); try done; by destruct Hm as [v ->].
Qed.

(** The answer to a version request that cannot be encoded. *)
Lemma version_aborts r x n v n' v' (s : St) :
  s.(reqs) !! r = Some x -> x.(responded) = false -> x.(ifcall) = MTversion n v ->
  x.(ofcall).(o_msize) = n' -> x.(ofcall).(o_version) = v' -> n' < 13 + Zlen v' -> answer r None s = Abort.
Proof.
  intros Hx Hu Hi Hn Hv Hlt. unfold answer. eff_prim. rewrite respond_eq.
  erewrite eff_bind_ok by (by apply deref_run). rewrite Hu. cbn [negb assertb]. eff_prim.
  eff_with (updreq_run r (req_error None) s x Hx). rewrite Hi. cbn [rcall]. rewrite eff_bind_assoc.
  unfold rversion. cbn [assertb]. rewrite eff_bind_assoc. eff_prim. rewrite eff_bind_assoc.
  erewrite eff_bind_ok by (apply deref_run; simpl; apply lookup_insert_eq). cbn [ofcall req_error].
  unfold changemsize. eff_prim. eff_prim. cbn [negb]. unfold rsend.
  erewrite eff_bind_ok by (apply deref_run; simpl; apply lookup_insert_eq). eff_prim. cbn [msize set_smsize].
  replace (encode _ _) with (@None Msg); [done|]. symmetry. unfold encode, rmsg. cbn [rq_error req_error ifcall].
  rewrite Hi. cbn [ofcall rq_tag req_error]. rewrite Hn, Hv.
  destruct (Z.leb_spec (Zlen (wire (rq_tag x) (MRversion n' v'))) n') as [H|]; [|done]. exfalso. revert H.
  unfold wire, wire_body, wstr. rewrite !Zlen_app, !Zlen_le. lia.
Qed.

Lemma fatal_aborts ops G tag m (s : St) : Good G s -> fatal s tag m = true -> srv_round ops tag m s = Abort.
Proof.
  intros [P HI] Hf. unfold srv_round. destruct (km_abs s.(rpool) !! tag) as [q|] eqn:Htag.
  - eff_with (getreq_dup P G tag m s HI ltac:(by eexists)).
    erewrite eff_bind_ok by (apply deref_run; simpl; apply lookup_insert_eq). cbn [rq_error fake].
    eapply answer_aborts; [simpl; apply lookup_insert_eq|done|]. destruct m; first [done|by eexists].
  - destruct (allocreq_new P G tag m None s HI Htag) as (p & Hal & _).
    set (s1 := set_rpool _ _) in *. set (r := s.(next)) in *.
    assert (Hx : s1.(reqs) !! r = Some (newreq tag m)) by apply lookup_insert_eq.
    unfold getreq. rewrite eff_bind_assoc. eff_with Hal. cbv iota. eff_prim.
    erewrite eff_bind_ok by (by apply deref_run). cbn [rq_error newreq].
    unfold fatal, inuse in Hf. rewrite Htag in Hf.
    destruct m; try done; try (eapply answer_aborts; [exact Hx|done|done]).
    unfold sversion. erewrite eff_bind_ok by (by apply deref_run). cbn [ifcall newreq].
    case_bool_decide as Hv; cbn [negb] in *; unfold putreq; eff_prim;
      (eapply version_aborts; [simpl; apply lookup_insert_eq|done|done|reflexivity|reflexivity|]).
    + simpl. change (Zlen _) with 6. simpl in Hf. lia.
    + done.
Qed.

(** ** Runs *)

Inductive reach (ops : SrvOps) : St -> Log -> Prop :=
| reach_start t n : n = 0 \/ 256 <= n -> reach ops (srv_start t n) ∅
| reach_step s s' G ev :
    reach ops s G -> legal s ev -> step ops ev s = Ok (tt, s') -> reach ops s' (logged s ev G).

Lemma start_good t n : n = 0 \/ 256 <= n -> Good ∅ (srv_start t n : St).
Proof.
  intros Hn. destruct km_alloc_ok as [Hw Ha]. exists ∅. split; simpl; split; try done.
  - intros k f. rewrite Ha. by rewrite lookup_empty.
  - intros k f. rewrite Ha. by rewrite lookup_empty.
  - intros r [x Hx]. by rewrite lookup_empty in Hx.
  - constructor.
  - intros r [x Hx]. by rewrite lookup_empty in Hx.
  - destruct Hn as [->|]; [done|]. destruct (Z.eqb_spec n 0); lia.
Qed.

Lemma reach_good ops s G : ops_ok ops -> reach ops s G -> Good G s.
Proof.
  intros Hops. induction 1 as [t n Hn|s s' G ev _ IH Hleg Hrun]; [by apply start_good|].
  destruct (step_good ops G ev s Hops IH Hleg) as (s1 & Hrun1 & HG). congruence.
Qed.

(** Without a request the application holds, none is left. *)
Lemma none_unanswered P G (s : St) :
  Inv ∅ ∅ P G s -> (forall r, ~ held s r) -> forall r, ~ unanswered s.(reqs) r.
Proof.
  intros [_ HR] Hno.
  assert (HP : forall r, r ∉ P).
  { intros r HP. apply (Hno r). split; [by apply (ri_P _ _ _ _ _ _ _ _ _ _ HR)|]. intros o x Hx Hu Hin.
    by destruct (ro_flush _ _ _ _ _ _ _ _ _ _ (ri_reqs _ _ _ _ _ _ _ _ _ _ HR o x Hx) r Hu Hin) as (? & _). }
  set (X := dom (filter (fun p : Z * Req => p.2.(responded) = false) s.(reqs)) : gset Z).
  assert (HX : forall r, r ∈ X <-> unanswered s.(reqs) r).
  { intros r. unfold X, unanswered. rewrite elem_of_dom. split.
    - intros [x Hx]. apply map_lookup_filter_Some in Hx. by exists x.
    - intros (x & Hx & Hu). exists x. by apply map_lookup_filter_Some. }
  intros r Hr. destruct (minimal_exists_elem_of Z.lt X) as (m & Hm & Hmin); [apply HX in Hr; set_solver|].
  apply HX in Hm as (x & Hx & Hu). pose proof (ri_reqs _ _ _ _ _ _ _ _ _ _ HR m x Hx) as Hok.
  destruct (ro_wait _ _ _ _ _ _ _ _ _ _ Hok Hu (HP m)) as (o & y & Ho & Hy & Hyu & _).
  destruct (ro_old _ _ _ _ _ _ _ _ _ _ Hok o Ho) as (Hlt & _).
  assert (Ho' : o ∈ X) by (apply HX; by exists y). specialize (Hmin o Ho' Hlt). lia.
Qed.

(** ** Checking that an event is legal *)

Definition heldb (s : St) (r : Z) : bool :=
  match s.(reqs) !! r with
  | Some x =>
      negb x.(responded) &&
      forallb (fun p : Z * Req => p.2.(responded) || negb (bool_decide (r ∈ p.2.(flush)))) (map_to_list s.(reqs))
  | None => false
  end.

Lemma heldb_spec s r : heldb s r = true -> held s r.
Proof.
  unfold heldb. destruct (s.(reqs) !! r) as [x|] eqn:Hx; [|done].
  intros [Hu%negb_true_iff Hall]%andb_prop. split; [by exists x|]. intros o y Hy Hyu Hin.
  rewrite forallb_forall in Hall. specialize (Hall (o, y)). simpl in Hall. rewrite Hyu in Hall.
  rewrite bool_decide_eq_true_2 in Hall by done. simpl in Hall. enough (false = true) by done. apply Hall.
  apply list_elem_of_In. by apply elem_of_map_to_list.
Qed.

Definition listedb (s : St) (p : option Z) : bool :=
  match p with
  | Some f => match s.(fids) !! f with
              | Some y => bool_decide (km_abs s.(fpool) !! y.(fd_fid) = Some f)
              | None => false
              end
  | None => true
  end.

Lemma listedb_spec s p : listedb s p = true -> forall f, p = Some f -> listed s f.
Proof.
  intros H f ->. simpl in H. destruct (s.(fids) !! f) as [y|] eqn:Hy; [|done].
  exists y. split; [done|]. by apply bool_decide_eq_true in H.
Qed.

Definition legalb (s : St) (ev : event) : bool :=
  match ev with
  | Recv tag m =>
      (refusable m || negb (inuse s tag)) &&
      match m with
      | MTversion n v => bool_decide (take 2 (cut0 v) = str "9P") && (256 <=? n)
      | MTflush ot => negb (ot =? tag)
      | MTwalk fid newfid ws =>
          (Zlen ws <=? 16) &&
          ((fid =? newfid) ||
           match km_abs s.(fpool) !! fid with
           | Some f => match s.(fids) !! f with Some y => bool_decide (is_Some y.(fd_uid)) | None => true end
           | None => true
           end)
      | _ => refusable m
      end
  | Answer r o d e =>
      heldb s r && match e with Some v => Zlen v <=? 200 | None => true end &&
      match s.(reqs) !! r with
      | Some x =>
          let ok := match e with Some _ => false | None => true end in
          match x.(ifcall) with
          | MTauth _ _ _ => ok || listedb s x.(rq_afid)
          | MTattach _ _ _ _ => ok || listedb s x.(rq_fid)
          | MTflush _ => ok
          | MTwalk fid newfid ws =>
              (0 <=? o.(o_nwqid)) && (o.(o_nwqid) <=? 16) && Nat.eqb (length o.(o_wqid)) 16 &&
              (negb (stopped e o.(o_nwqid) ws) || (fid =? newfid) || listedb s x.(rq_newfid))
          | MTread _ _ _ => negb ok || (Zlen o.(o_data) + 11 <=? s.(msize))
          | MTstat _ => negb ok || ((Zlen (wire_stat d) <=? 65535) && (Zlen (wire_stat d) + 9 <=? s.(msize)))
          | _ => true
          end
      | None => false
      end
  end.

Lemma legalb_spec s ev : legalb s ev = true -> legal s ev.
Proof.
  destruct ev as [tag m|r o d e]; cbn [legalb legal].
  - intros [Hu Hm]%andb_prop. split.
    { apply orb_prop in Hu as [?|?%negb_true_iff]; auto. }
    destruct m; try done.
    + apply andb_prop in Hm as [?%bool_decide_eq_true ?%Z.leb_le]. done.
    + by apply negb_true_iff, Z.eqb_neq in Hm.
    + apply andb_prop in Hm as [Hl%Z.leb_le Hf]. split; [done|]. intros f y Hn Hy Hne.
      apply orb_prop in Hf as [?%Z.eqb_eq|Hf]; [done|]. rewrite Hn, Hy in Hf. by apply bool_decide_eq_true in Hf.
  - intros [[Hh Hl]%andb_prop Hx]%andb_prop. split; [by apply heldb_spec|]. split.
    { intros v ->. by apply Z.leb_le. }
    intros x Hr. rewrite Hr in Hx. destruct (ifcall x); try done.
    + intros [v ->]. by apply listedb_spec.
    + intros [v ->]. by apply listedb_spec.
    + by destruct e.
    + repeat (apply andb_prop in Hx as [Hx ?]). split; [split; by apply Z.leb_le|].
      split; [by apply Nat.eqb_eq|]. intros Hst Hne. apply orb_prop in H as [H|H]; [|by apply listedb_spec].
      apply orb_prop in H as [H|H%Z.eqb_eq]; [|done]. by rewrite Hst in H.
    + intros ->. cbn [negb orb] in Hx. by apply Z.leb_le.
    + intros ->. cbn [negb orb] in Hx. apply andb_prop in Hx as [? ?]. split; by apply Z.leb_le.
Qed.

(** Run a list of events, checking each. *)
Fixpoint run (ops : SrvOps) (evs : list event) (s : St) (G : Log) : option (St * Log) :=
  match evs with
  | [] => Some (s, G)
  | ev :: evs =>
      if legalb s ev then
        match step ops ev s with Ok (_, s') => run ops evs s' (logged s ev G) | _ => None end
      else None
  end.

Lemma run_reach ops evs s G s' G' : reach ops s G -> run ops evs s G = Some (s', G') -> reach ops s' G'.
Proof.
  revert s G. induction evs as [|ev evs IH]; intros s G Hr; simpl; [by intros [= <- <-]|].
  destruct (legalb s ev) eqn:Hl; [|done]. destruct (step ops ev s) as [[[] s1]| |] eqn:Hrun; try done.
  apply IH. by eapply reach_step; [done|apply legalb_spec|].
Qed.

End Events.

(** * Theorems *)

Section Theorems.
Context {T : Type} `{KM : KeyMap Z T}.
Notation St := (@St T).

(** C3. Safety of a server whose application supplies the operations and that
    has no file tree ([ops_ok]; the branches of the handlers for a file tree are
    not reached): in every state a run of legal events can reach, every legal
    event runs to the end.  No assertion fails, no pointer used is nil or freed,
    and the nesting of [respond] and [closereq] stays within the fuel of the
    model.  [legal] says what clients may send (no flush of its own tag, no
    message that [client_can_abort_server] is about, a message size of 256 or
    more) and the application may answer.  The fid and request tables are any
    implementation of the table interface. *)
Theorem srv_safe (ops : SrvOps) (s : St) (G : Log) (ev : event) :
  ops_ok ops -> reach ops s G -> legal s ev -> exists s', step ops ev s = Ok (tt, s').
Proof.
  intros Hops Hr Hl. destruct (step_good ops G ev s Hops (reach_good ops s G Hops Hr) Hl) as (s' & ? & _).
  eauto.
Qed.

(** C2. One reply per request: in every reachable state no request has been
    answered twice; each message received has either a reply or a request still
    waiting, and not both; and each reply carries the tag of its request and
    either the type that answers it or an error. *)
Theorem one_reply_per_request (ops : SrvOps) (s : St) (G : Log) :
  ops_ok ops -> reach ops s G ->
  NoDup (replied s.(sent)) /\
  (forall r, is_Some (G !! r) -> r ∈ replied s.(sent) <-> ~ unanswered s.(reqs) r) /\
  (forall rep, rep ∈ s.(sent) ->
     exists m t, G !! rep.(rp_req) = Some (rep.(rp_tag), m, t) /\ answers m rep.(rp_msg)).
Proof.
  intros Hops Hr. destruct (reach_good ops s G Hops Hr) as (P & _ & HR). split_and!.
  - apply HR.
  - intros r. apply (ri_once _ _ _ _ _ _ _ _ _ _ HR).
  - intros rep [i Hi]%list_elem_of_lookup.
    destruct (ri_reply _ _ _ _ _ _ _ _ _ _ HR i rep Hi) as (m & t & ? & ? & _). eauto.
Qed.

(** C4. Nothing is forgotten and nothing leaks, in a server without a file tree
    that has met legal events only (so no request was flushed by a flush with its
    own tag, see [self_flush_waits_for_itself]): when the application holds no
    request, every message received has been answered, flushes too, no request
    is allocated or in the table, and the fids left are those of the table, each
    with the table's one reference. *)
Theorem quiet_server_is_clean (ops : SrvOps) (s : St) (G : Log) :
  ops_ok ops -> reach ops s G -> (forall r, ~ held s r) ->
  (forall r, is_Some (G !! r) -> r ∈ replied s.(sent)) /\ s.(reqs) = ∅ /\ km_abs s.(rpool) = ∅ /\
  (forall f y, s.(fids) !! f = Some y -> y.(fd_ref) = 1 /\ km_abs s.(fpool) !! y.(fd_fid) = Some f).
Proof.
  intros Hops Hr Hno. destruct (reach_good ops s G Hops Hr) as (P & HI).
  pose proof (none_unanswered P G s HI Hno) as Hun. destruct HI as [HF HR].
  assert (Hreqs : s.(reqs) = ∅).
  { apply map_empty. intros r. destruct (s.(reqs) !! r) as [x|] eqn:Hx; [|done]. exfalso.
    pose proof (ri_reqs _ _ _ _ _ _ _ _ _ _ HR r x Hx) as Hok.
    destruct (responded x) eqn:Hrs; [|apply (Hun r); by exists x].
    pose proof (ro_ref _ _ _ _ _ _ _ _ _ _ Hok) as Href. pose proof (ro_pos _ _ _ _ _ _ _ _ _ _ Hok).
    rewrite Hrs, ptr_none, decide_False in Href by set_solver.
    destruct (msum_pos (ocount r) (ocount_nonneg r) s.(reqs)) as (q & y & Hy & Hc); [lia|].
    unfold ocount, ptr in Hc. case_decide as Ho; [|lia]. pose proof (ri_reqs _ _ _ _ _ _ _ _ _ _ HR q y Hy) as Hq.
    destruct (ro_old _ _ _ _ _ _ _ _ _ _ Hq r Ho) as (_ & _ & ?). apply (Hun q). by exists y. }
  split_and!; [|done| |].
  - intros r HG. apply (ri_once _ _ _ _ _ _ _ _ _ _ HR r HG). apply Hun.
  - apply map_empty. intros t. destruct (km_abs s.(rpool) !! t) as [r|] eqn:Ht; [|done].
    destruct (ri_table _ _ _ _ _ _ _ _ _ _ HR t r Ht) as (x & Hx & _ & ?). destruct (Hun r). by exists x.
  - intros f y Hy. destruct (fi_live _ _ _ _ HF f y Hy) as (Href & Hpos & _). rewrite Hreqs in Href.
    rewrite msum_empty in Href. unfold inpool, ptr in Href. case_decide; [|lia]. split; [lia|done].
Qed.

(** C5. Flushes are answered in order: the reply to a flush that found a request
    to flush comes after the reply to that request. *)
Theorem flush_reply_follows (ops : SrvOps) (s : St) (G : Log) (q r tag : Z) (m : Msg) (i : nat) (rep : reply) :
  ops_ok ops -> reach ops s G -> G !! q = Some (tag, m, Some r) ->
  s.(sent) !! i = Some rep -> rep.(rp_req) = q ->
  exists j rep', (j < i)%nat /\ s.(sent) !! j = Some rep' /\ rep'.(rp_req) = r.
Proof.
  intros Hops Hr HG Hi Hq. destruct (reach_good ops s G Hops Hr) as (P & _ & HR).
  destruct (ri_reply _ _ _ _ _ _ _ _ _ _ HR i rep Hi) as (m' & t & HG' & _ & Ho).
  rewrite Hq, HG in HG'. injection HG' as _ _ <-. specialize (Ho r eq_refl).
  apply list_elem_of_fmap in Ho as (rep' & -> & [j Hj]%list_elem_of_lookup).
  apply lookup_take_Some in Hj as [Hj Hlt]. eauto.
Qed.

(** C39. A client can stop the server: in every state that a run can reach, a
    reply sent to it, a flush or version request with a tag in use, a version
    request for another protocol and one whose message size has no room for the
    reply each end in a failed assertion or [abort], although the code has an
    answer for each ("unknown message", "duplicate tag", version "unknown"). *)
Theorem client_can_abort_server (ops : SrvOps) (s : St) (G : Log) (tag : Z) (m : Msg) :
  ops_ok ops -> reach ops s G -> fatal s tag m = true -> step ops (Recv tag m) s = Abort.
Proof. intros Hops Hr Hf. by eapply fatal_aborts; [apply (reach_good ops s G)|]. Qed.

End Theorems.

(** * A run with the tables of [intmap.c] *)

Definition emptyfs : FS := mkFS ∅ ∅ ∅ [] 0 0 1 [] [].

(** An application that answers everything itself, later. *)
Definition lazy_ops : SrvOps :=
  mkSrvOps false true true true true true true true false true true true None None (str "lazyfs").

Definition boot : @St (Intmap Z) := srv_start emptyfs 0.

(** A client attaches, flushes the attach while the application holds it, and
    the application then answers. *)
Definition scene : list event :=
  [Recv 100 (MTversion 8192 (str "9P2000"));
   Recv 1 (MTattach 0 NOFID (str "glenda") []);
   Recv 2 (MTflush 1);
   Recv 1 (MTclunk 7);
   Answer 2 (of_qid (mkQid 0 0 QTDIR) zeroofcall) emptystat None].

Lemma lazy_ok : ops_ok lazy_ops.
Proof. by split. Qed.

Lemma boot_reach : reach lazy_ops boot ∅.
Proof. apply reach_start. by left. Qed.

(** The state after the first [k] events. *)
Definition after (k : nat) : @St (Intmap Z) * Log :=
  match run lazy_ops (take k scene) boot ∅ with Some p => p | None => (boot, ∅) end.

Lemma after_reach k : is_Some (run lazy_ops (take k scene) boot ∅) -> reach lazy_ops (after k).1 (after k).2.
Proof.
  intros [[s G] H]. unfold after. rewrite H. simpl. eapply run_reach; [apply boot_reach|exact H].
Qed.

Lemma scene_runs : forallb (fun k => match run lazy_ops (take k scene) boot ∅ with Some _ => true | None => false end)
  [0; 1; 2; 3; 4; 5]%nat = true.
Proof. vm_compute. reflexivity. Qed.

Lemma scene_reach k : (k <= 5)%nat -> reach lazy_ops (after k).1 (after k).2.
Proof.
  intros Hk. apply after_reach. pose proof scene_runs as H. rewrite forallb_forall in H.
  specialize (H k). cbv beta in H. destruct (run _ _ _ _); [eauto|]. exfalso. enough (false = true) by done. apply H.
  do 6 (destruct k as [|k]; [simpl; tauto|]). lia.
Qed.

Lemma srv_safe_witness : exists s', step lazy_ops (Recv 2 (MTflush 1)) (after 2).1 = Ok (tt, s').
Proof.
  apply (srv_safe lazy_ops (after 2).1 (after 2).2 (Recv 2 (MTflush 1))).
  - exact lazy_ok.
  - apply scene_reach. lia.
  - apply legalb_spec. vm_compute. reflexivity.
Defined.

Lemma one_reply_per_request_witness : NoDup (replied (after 5).1.(sent)) /\ length (after 5).1.(sent) = 4%nat.
Proof.
  split; [|vm_compute; reflexivity].
  apply (one_reply_per_request lazy_ops (after 5).1 (after 5).2); [exact lazy_ok|]. apply scene_reach. lia.
Defined.

Lemma quiet_server_is_clean_witness : (after 5).1.(reqs) = ∅ /\ (4 ∈ replied (after 5).1.(sent)).
Proof.
  assert (H0 : (after 5).1.(reqs) = ∅) by (vm_compute; reflexivity).
  destruct (quiet_server_is_clean lazy_ops (after 5).1 (after 5).2) as (H1 & H2 & _).
  - exact lazy_ok.
  - apply scene_reach. lia.
  - intros r [(x & Hx & _) _]. rewrite H0, lookup_empty in Hx. discriminate.
  - split; [exact H2|]. apply H1. exists (2, MTflush 1, Some 2). vm_compute. reflexivity.
Defined.

Lemma flush_reply_follows_witness :
  exists j rep', (j < 3)%nat /\ (after 5).1.(sent) !! j = Some rep' /\ rep'.(rp_req) = 2.
Proof.
  apply (flush_reply_follows lazy_ops (after 5).1 (after 5).2 4 2 2 (MTflush 1) 3 (mkReply 4 2 MRflush)).
  - exact lazy_ok.
  - apply scene_reach. lia.
  - vm_compute. reflexivity.
  - vm_compute. reflexivity.
  - reflexivity.
Defined.

Lemma client_can_abort_server_witness :
  step lazy_ops (Recv 2 (MTflush 9)) (after 5).1 <> Abort /\
  step lazy_ops (Recv 1 (MTflush 9)) (after 2).1 = Abort /\
  step lazy_ops (Recv 7 (MTversion 8192 (str "8P"))) (after 2).1 = Abort.
Proof.
  split; [by vm_compute|].
  split; apply (client_can_abort_server lazy_ops (after 2).1 (after 2).2);
    [exact lazy_ok|apply scene_reach; lia|vm_compute; reflexivity
    |exact lazy_ok|apply scene_reach; lia|vm_compute; reflexivity].
Defined.

(** * What other events do *)

(** The state after events that need not be legal. *)
Fixpoint play (evs : list event) (s : @St (Intmap Z)) : outcome (unit * @St (Intmap Z)) :=
  match evs with
  | [] => Ok (tt, s)
  | ev :: evs => match step lazy_ops ev s with Ok (_, s') => play evs s' | Abort => Abort | Fault => Fault end
  end.

Definition attach : list event :=
  [Recv 1 (MTattach 0 NOFID (str "glenda") []);
   Answer 1 (of_qid (mkQid 0 0 QTDIR) zeroofcall) emptystat None].

(** A flush whose old tag is its own is never answered: it waits in its own
    list, although the handler means to answer it at once. *)
Theorem self_flush_waits_for_itself :
  match play [Recv 5 (MTflush 5)] boot with
  | Ok (_, s) =>
      s.(sent) = [] /\ heldb s 1 = false /\
      (exists x, s.(reqs) !! 1 = Some x /\ x.(responded) = false /\ x.(flush) = [1] /\ x.(oldreq) = Some 1)
  | _ => False
  end.
Proof.
  match goal with |- match ?c with _ => _ end =>
    let v := eval vm_compute in c in assert (H : c = v) by (vm_compute; reflexivity); rewrite H end.
  split_and!; [reflexivity|vm_compute; reflexivity|].
  eexists. split; [vm_compute; reflexivity|]. split_and!; reflexivity.
Qed.

(** Answering a walk or an attach with an error after the client has clunked
    the new fid dereferences the nil that [removefid] returns. *)
Theorem error_after_clunk_faults :
  play (attach ++ [Recv 2 (MTwalk 0 7 []); Recv 3 (MTclunk 7); Answer 3 zeroofcall emptystat (Some Enotfound)]) boot
    = Fault /\
  play (take 1 attach ++ [Recv 3 (MTclunk 0); Answer 1 zeroofcall emptystat (Some Eperm)]) boot = Fault.
Proof. split; vm_compute; reflexivity. Qed.

(** A read of a fid that was never opened reaches the application: [omode]
    is then -1, whose low bits are [OEXEC].  A write is refused. *)
Theorem read_needs_no_open :
  match play (attach ++ [Recv 2 (MTread 0 0 64); Recv 3 (MTwrite 0 0 [65])]) boot with
  | Ok (_, s) => s.(calls) = [1; 3] /\ map rp_req s.(sent) = [1; 4]
  | _ => False
  end.
Proof. vm_compute. split; reflexivity. Qed.
