(* ===== verification/Rune.v ===== *)
(** [libc/port/rune.c] and the [utf*.c] files: conversion between runes and
    UTF-8, over linear memory.

    A [Rune] is a 32-bit unsigned integer; a pointer that receives one is a
    second result.  The specification is the arithmetic of UTF-8 ([enc], [dec])
    and the decoding of a whole string ([runes]). *)

From S2P Require Import Prelude Mem CString.

Local Open Scope c_scope.

(** * Definitions *)

Definition UTFmax : Z := 4.
Definition Runesync : Z := 0x80.
Definition Runeself : Z := 0x80.
Definition Runeerror : Z := 0xFFFD.
Definition Runemax : Z := 0x10FFFF.

Definition Bit (i : Z) : Z := 7 - i.
Definition T (i : Z) : Z := Z.lxor (Z.shiftl 1 (Bit i + 1) - 1) 0xFF.
Definition Bitx : Z := Bit 1.
Definition RuneX (i : Z) : Z := Z.shiftl 1 (Bit i + (i - 1) * Bitx) - 1.
Definition Tx : Z := T 1.
Definition Rune1 : Z := Z.shiftl 1 (Bit 0 + 0 * Bitx) - 1.
Definition Maskx : Z := Z.shiftl 1 Bitx - 1.
Definition Testx : Z := Z.lxor Maskx 0xFF.
Definition SurrogateMin : Z := 0xD800.
Definition SurrogateMax : Z := 0xDFFF.
Definition Bad : Z := Runeerror.

(** The loop of [chartorune] from [i] on: what it returns, and the rune. *)
Fixpoint chartorune_loop (k : nat) (i str c0 l : Z) : M (Z * Z) :=
  match k with
  | O => mret (1, Bad)
  | S k =>
      b ← ld8 (str +p i);
      let c := Z.lxor b Tx in
      if negb (Z.land c Testx =? 0) then mret (1, Bad) else
      let l := Z.lor (u32 (Z.shiftl l Bitx)) c in
      if c0 <? T (i + 2) then
        let l := Z.land l (RuneX (i + 1)) in
        if (if i =? 1 then (c0 <? T 2) || (l <=? Rune1) else (l <=? RuneX i) || (l >? Runemax))
        then mret (1, Bad) else
        if (i =? 2) && (SurrogateMin <=? l) && (l <=? SurrogateMax) then mret (1, Bad)
        else mret (i + 1, l)
      else chartorune_loop k (i + 1) str c0 l
  end.

Definition chartorune (str : Z) : M (Z * Z) :=
  c0 ← ld8 str;
  if c0 <? Tx then mret (1, c0) else chartorune_loop (Z.to_nat (UTFmax - 1)) 1 str c0 c0.

(** The inner loop of [runetochar]: [str[j]] for [n] values of [j]. *)
Fixpoint runetochar_bytes (n : nat) (j i str c : Z) : M unit :=
  match n with
  | O => mret tt
  | S n =>
      _ ← st8 (str +p j) (Z.lor Tx (Z.land (Z.shiftr c ((i - j - 1) * Bitx)) Maskx));
      runetochar_bytes n (j + 1) i str c
  end.

Fixpoint runetochar_loop (k : nat) (i str c : Z) : M Z :=
  match k with
  | O => mret UTFmax
  | S k =>
      let c := if i =? 3 then
                 let c := if c >? Runemax then Runeerror else c in
                 if (SurrogateMin <=? c) && (c <=? SurrogateMax) then Runeerror else c
               else c in
      if (c <=? RuneX i) || (i =? UTFmax) then
        _ ← st8 str (Z.lor (T i) (Z.shiftr c ((i - 1) * Bitx)));
        _ ← runetochar_bytes (Z.to_nat (i - 1)) 1 i str c;
        mret i
      else runetochar_loop k (i + 1) str c
  end.

Definition runetochar (str rune : Z) : M Z :=
  if rune <=? Rune1 then _ ← st8 str rune; mret 1
  else runetochar_loop (Z.to_nat (UTFmax + 1 - 2)) 2 str rune.

(** [runelen] has the ten bytes of its local array at [str]. *)
Definition runelen (str c : Z) : M Z := runetochar str (u32 c).

(** The number of bytes [runenlen] counts for a rune above [Rune1]. *)
Fixpoint runenlen_width (k : nat) (i c : Z) : Z :=
  match k with
  | O => 0
  | S k => if (c <=? RuneX i) || (i =? UTFmax) then i else runenlen_width k (i + 1) c
  end.

Fixpoint runenlen (r : list Z) : Z :=
  match r with
  | [] => 0
  | c :: r => (if c <=? Rune1 then 1 else runenlen_width (Z.to_nat (UTFmax + 1 - 2)) 2 c) + runenlen r
  end.

Fixpoint fullrune_loop (k : nat) (i c n : Z) : bool :=
  match k with
  | O => UTFmax <=? n
  | S k => if c <? T i then i - 1 <=? n else fullrune_loop k (i + 1) c n
  end.

Definition fullrune (str n : Z) : M bool :=
  if n <=? 0 then mret false else
  c ← ld8 str;
  if c <? Tx then mret true else mret (fullrune_loop (Z.to_nat (UTFmax + 1 - 3)) 3 c n).

(** ** utflen.c, utfnlen.c, utfrune.c, utfrrune.c, utfecpy.c *)

Fixpoint utflen_loop (fuel : nat) (s n : Z) : M Z :=
  match fuel with
  | O => trap
  | S fuel =>
      c ← ld8 s;
      if c <? Runeself then
        if c =? 0 then mret n else utflen_loop fuel (s +p 1) (s32 (n + 1))
      else '(k, _) ← chartorune s; utflen_loop fuel (s +p k) (s32 (n + 1))
  end.

Definition utflen (s : Z) : M Z := fuel ← memfuel; utflen_loop fuel s 0.

Fixpoint utfnlen_loop (fuel : nat) (s es n : Z) : M Z :=
  match fuel with
  | O => trap
  | S fuel =>
      if s <? es then
        c ← ld8 s;
        if c <? Runeself then
          if c =? 0 then mret n else utfnlen_loop fuel (s +p 1) es (s32 (n + 1))
        else
          f ← fullrune s (s32 (es - s));
          if negb f then mret n
          else '(k, _) ← chartorune s; utfnlen_loop fuel (s +p k) es (s32 (n + 1))
      else mret n
  end.

Definition utfnlen (s m : Z) : M Z := fuel ← memfuel; utfnlen_loop fuel s (s +p m) 0.

Fixpoint utfrune_loop (fuel : nat) (s c : Z) : M Z :=
  match fuel with
  | O => trap
  | S fuel =>
      c1 ← ld8 s;
      if c1 <? Runeself then
        if c1 =? 0 then mret 0 else
        if c1 =? c then mret s else utfrune_loop fuel (s +p 1) c
      else
        '(n, r) ← chartorune s;
        if r =? c then mret s else utfrune_loop fuel (s +p n) c
  end.

Definition utfrune (s c : Z) : M Z :=
  if c <? Runesync then strchr s c else fuel ← memfuel; utfrune_loop fuel s c.

Fixpoint utfrrune_loop (fuel : nat) (s c s1 : Z) : M Z :=
  match fuel with
  | O => trap
  | S fuel =>
      c1 ← ld8 s;
      if c1 <? Runeself then
        if c1 =? 0 then mret s1
        else utfrrune_loop fuel (s +p 1) c (if c1 =? c then s else s1)
      else
        '(n, r) ← chartorune s;
        utfrrune_loop fuel (s +p n) c (if r =? c then s else s1)
  end.

Definition utfrrune (s c : Z) : M Z :=
  if c <? Runesync then strrchr s c else fuel ← memfuel; utfrrune_loop fuel s c 0.

(** The loop that moves [end] back over continuation bytes. *)
Fixpoint utfecpy_back (fuel : nat) (e to : Z) : M Z :=
  match fuel with
  | O => trap
  | S fuel =>
      if e >? to then
        b ← ld8 (e +p (-1));
        if Z.land b 0xC0 =? 0x80 then utfecpy_back fuel (e +p (-1)) to else mret (e +p (-1))
      else mret e
  end.

Definition utfecpy (to e from : Z) : M Z :=
  if to >=? e then mret to else
  en ← memccpy to from 0 (e - to);
  if en =? 0 then
    fuel ← memfuel;
    en ← utfecpy_back fuel e to;
    _ ← st8 en 0;
    mret en
  else mret (en +p (-1)).

(** * UTF-8 *)

(** The code points UTF-8 encodes, and what [runetochar] makes of the others. *)
Definition valid (r : Z) : bool := (0 <=? r) && (r <=? 0x10FFFF) && negb ((0xD800 <=? r) && (r <=? 0xDFFF)).
Definition fix_rune (r : Z) : Z := if valid r then r else Runeerror.

Definition enc (r : Z) : list Z :=
  if r <? 0x80 then [r]
  else if r <? 0x800 then [0xC0 + r / 64; 0x80 + r mod 64]
  else if r <? 0x10000 then [0xE0 + r / 4096; 0x80 + (r / 64) mod 64; 0x80 + r mod 64]
  else [0xF0 + r / 262144; 0x80 + (r / 4096) mod 64; 0x80 + (r / 64) mod 64; 0x80 + r mod 64].

(** The bytes of a C string, and the NULs after it. *)
Definition nb (s : list Z) (i : nat) : Z := nth i s 0.

Definition cont (b : Z) : bool := (0x80 <=? b) && (b <? 0xC0).

(** What a string begins with: the length and the rune. *)
Definition dec (s : list Z) : Z * Z :=
  let c0 := nb s 0 in let c1 := nb s 1 in let c2 := nb s 2 in let c3 := nb s 3 in
  if c0 <? 0x80 then (1, c0) else
  if negb (cont c1) then (1, Bad) else
  if c0 <? 0xE0 then
    let l := (c0 mod 32) * 64 + (c1 - 0x80) in
    if (c0 <? 0xC0) || (l <=? 0x7F) then (1, Bad) else (2, l)
  else if negb (cont c2) then (1, Bad) else
  if c0 <? 0xF0 then
    let l := (c0 mod 16) * 4096 + (c1 - 0x80) * 64 + (c2 - 0x80) in
    if (l <=? 0x7FF) || negb (valid l) then (1, Bad) else (3, l)
  else if negb (cont c3) then (1, Bad) else
  if c0 <? 0xF8 then
    let l := (c0 mod 8) * 262144 + (c1 - 0x80) * 4096 + (c2 - 0x80) * 64 + (c3 - 0x80) in
    if (l <=? 0xFFFF) || (l >? 0x10FFFF) then (1, Bad) else (4, l)
  else (1, Bad).

(** The runes of a string with their offsets, for a string no longer than the fuel. *)
Fixpoint runes_from (fuel : nat) (off : Z) (s : list Z) : list (Z * Z) :=
  match fuel, s with
  | S fuel, _ :: _ =>
      let '(n, r) := dec s in
      (off, r) :: runes_from fuel (off + n) (drop (Z.to_nat n) s)
  | _, _ => []
  end.

Definition runes (s : list Z) : list (Z * Z) := runes_from (length s) 0 s.

(** * Lemmas *)

(** A property of bytes, checked on all of them. *)
Definition all_bytes (p : Z -> bool) : bool := forallb (fun n => p (Z.of_nat n)) (seq 0 256).

Lemma all_bytes_spec p b : all_bytes p = true -> is_byte b -> p b = true.
Proof.
  intros H Hb. unfold all_bytes in H. rewrite forallb_forall in H.
  specialize (H (Z.to_nat b)). rewrite Z2Nat.id in H by (unfold is_byte in Hb; lia). apply H.
  apply in_seq. unfold is_byte in Hb. lia.
Qed.

(** The test for a continuation byte. *)
Lemma cont_test b : is_byte b ->
  (Z.land (Z.lxor b Tx) Testx =? 0) = cont b /\ (cont b = true -> Z.lxor b Tx = b - 0x80).
Proof.
  intros Hb.
  assert (H : all_bytes (fun b => Bool.eqb (Z.land (Z.lxor b Tx) Testx =? 0) (cont b) &&
     (negb (cont b) || (Z.lxor b Tx =? b - 0x80))) = true) by (vm_compute; reflexivity).
  pose proof (all_bytes_spec _ b H Hb) as H'. cbv beta in H'. apply andb_prop in H' as [H1 H2].
  split; [by apply eqb_prop|]. intros Hc. rewrite Hc in H2. by apply Z.eqb_eq in H2.
Qed.

Lemma shift_in l c : 0 <= l < 2 ^ 26 -> 0 <= c < 64 -> Z.lor (u32 (Z.shiftl l Bitx)) c = l * 64 + c.
Proof.
  intros Hl Hc. change Bitx with 6. rewrite Z.shiftl_mul_pow2 by lia. rewrite u32_small by lia.
  apply (lor_disjoint l c 6); lia.
Qed.

Lemma mask_ones l n : 0 <= n -> Z.land l (Z.shiftl 1 n - 1) = l mod 2 ^ n.
Proof.
  intros Hn. rewrite Z.shiftl_mul_pow2, Z.mul_1_l by lia.
  rewrite <- Z.land_ones by lia. f_equal. rewrite Z.ones_equiv. lia.
Qed.

Lemma cstr_nb m a s i :
  mem_ok m -> cstr_at m a s -> (i <= length s)%nat ->
  lk m (a + Z.of_nat i) = Some (nb s i) /\ is_byte (nb s i) /\ a + Z.of_nat i < 2 ^ 32 - 8 /\ 0 <= a /\
  a + Zlen s < 2 ^ 32 - 8.
Proof.
  intros Hok Hs Hi. pose proof (cstr_range m a s Hs) as [Ha Hb]. pose proof Hok as [Hby Hlim].
  assert (Hnb : lk (s ++ [0]) (Z.of_nat i) = Some (nb s i)).
  { unfold lk. destruct (Z.leb_spec 0 (Z.of_nat i)); [|lia]. rewrite Nat2Z.id. unfold nb.
    destruct (decide (i < length s)%nat) as [Hlt|Hge].
    - rewrite lookup_app_l by done. destruct (lookup_lt_is_Some_2 s i Hlt) as [x Hx]. rewrite Hx. f_equal.
      symmetry. by apply nth_lookup_Some.
    - rewrite lookup_app_r by lia. replace (i - length s)%nat with 0%nat by lia. simpl.
      by rewrite nth_overflow by lia. }
  assert (Hl : lk m (a + Z.of_nat i) = Some (nb s i)).
  { destruct Hs as [_ [_ Hs]]. rewrite Hs; [done|]. unfold Zlen. rewrite length_app. simpl. lia. }
  split_and!; [done|by eapply lk_byte|unfold Zlen in *; lia|lia|lia].
Qed.

Lemma nb_live s i : nb s i <> 0 -> (i < length s)%nat.
Proof.
  intros H. destruct (decide (i < length s)%nat); [done|]. exfalso. apply H. unfold nb. apply nth_overflow. lia.
Qed.

Lemma cont_live s i : cont (nb s i) = true -> (i < length s)%nat.
Proof. intros H. apply nb_live. intros H0. by rewrite H0 in H. Qed.

Lemma cont_range b : cont b = true -> 0x80 <= b < 0xC0.
Proof. unfold cont. intros [?%Z.leb_le ?%Z.ltb_lt]%andb_prop. done. Qed.

(** Decide the comparisons of [dec] and [enc] by arithmetic. *)
Ltac cmp :=
  repeat match goal with
  | |- context [?a <? ?b] =>
      first [replace (a <? b) with true by (symmetry; apply Z.ltb_lt; lia)
            |replace (a <? b) with false by (symmetry; apply Z.ltb_ge; lia)]
  | |- context [?a <=? ?b] =>
      first [replace (a <=? b) with true by (symmetry; apply Z.leb_le; lia)
            |replace (a <=? b) with false by (symmetry; apply Z.leb_gt; lia)]
  | |- context [?a >? ?b] =>
      first [replace (a >? b) with true by (symmetry; rewrite Z.gtb_ltb; apply Z.ltb_lt; lia)
            |replace (a >? b) with false by (symmetry; rewrite Z.gtb_ltb; apply Z.ltb_ge; lia)]
  end; cbn [andb orb negb].

(** The remainders by powers of two of what has been shifted in. *)
Lemma mod_two c0 a : 0 <= c0 < 256 -> 0 <= a < 64 -> (c0 * 64 + a) mod 2 ^ 11 = c0 mod 32 * 64 + a.
Proof. intros. change (2 ^ 11) with 2048. Z.div_mod_to_equations. lia. Qed.
Lemma mod_three c0 a b : 0 <= c0 < 256 -> 0 <= a < 64 -> 0 <= b < 64 ->
  ((c0 * 64 + a) * 64 + b) mod 2 ^ 16 = c0 mod 16 * 4096 + a * 64 + b.
Proof. intros. change (2 ^ 16) with 65536. Z.div_mod_to_equations. lia. Qed.
Lemma mod_four c0 a b c : 0 <= c0 < 256 -> 0 <= a < 64 -> 0 <= b < 64 -> 0 <= c < 64 ->
  (((c0 * 64 + a) * 64 + b) * 64 + c) mod 2 ^ 21 = c0 mod 8 * 262144 + a * 4096 + b * 64 + c.
Proof. intros. change (2 ^ 21) with 2097152. Z.div_mod_to_equations. lia. Qed.

(** How many bytes a first byte announces. *)
Definition look (c0 : Z) : nat :=
  if c0 <? 0x80 then 1%nat else if c0 <? 0xE0 then 2%nat else if c0 <? 0xF0 then 3%nat else 4%nat.

Lemma look_ge c0 : (1 <= look c0 <= 4)%nat /\ (0x80 <= c0 -> (2 <= look c0)%nat) /\
  (0xE0 <= c0 -> (3 <= look c0)%nat) /\ (0xF0 <= c0 -> look c0 = 4%nat).
Proof.
  unfold look. destruct (Z.ltb_spec c0 0x80), (Z.ltb_spec c0 0xE0), (Z.ltb_spec c0 0xF0); lia.
Qed.

(** Memory holds [s], and a NUL if [s] is shorter than its first byte announces. *)
Definition reads (m : mem) (a : Z) (s : list Z) : Prop :=
  0 <= a /\ a + Zlen s < 2 ^ 32 - 8 /\
  forall i, (i <= length s)%nat -> (i < look (nb s 0))%nat -> lk m (a + Z.of_nat i) = Some (nb s i) /\ is_byte (nb s i).

Lemma cstr_reads m a s : mem_ok m -> cstr_at m a s -> reads m a s.
Proof.
  intros Hok Hs. destruct (cstr_nb m a s 0 Hok Hs) as (_ & _ & _ & ? & ?); [lia|]. split_and!; [done..|].
  intros i Hi _. by destruct (cstr_nb m a s i Hok Hs Hi) as (? & ? & _).
Qed.

Lemma chartorune_run m a s : reads m a s -> chartorune a m = Some (dec s, m).
Proof.
  intros (Ha & Hlim & Hnb). unfold chartorune, dec.
  destruct (Hnb 0%nat) as [K0 B0]; [lia|pose proof (look_ge (nb s 0)); lia|]. rewrite Z.add_0_r in K0.
  rewrite (bind_run _ _ m (nb s 0) m) by by apply ld8_run. change Tx with 0x80.
  destruct (Z.ltb_spec (nb s 0) 0x80) as [|Hc0]; [done|].
  assert (L0 : (0 < length s)%nat) by (apply nb_live; lia).
  change (Z.to_nat (UTFmax - 1)) with 3%nat. cbn [chartorune_loop].
  destruct (Hnb 1%nat) as [K1 B1]; [lia|pose proof (look_ge (nb s 0)); lia|].
  assert (R1 : a + 1 < 2 ^ 32) by (unfold Zlen in Hlim; lia). change (Z.of_nat 1) with 1 in *.
  rewrite (padd_small a 1) by lia. rewrite (bind_run _ _ m (nb s 1) m) by by apply ld8_run. cbv zeta.
  destruct (cont_test _ B1) as [-> E1]. destruct (cont (nb s 1)) eqn:C1; cbn [negb]; [|done].
  rewrite E1 by done. pose proof (cont_range _ C1). unfold is_byte in *.
  rewrite shift_in by lia. change (T (1 + 2)) with 0xE0. change (T 2) with 0xC0. change Rune1 with 0x7F.
  destruct (Z.ltb_spec (nb s 0) 0xE0) as [|Hc1].
  { change (RuneX (1 + 1)) with (Z.shiftl 1 11 - 1). rewrite mask_ones, mod_two by lia.
    cbn [Z.eqb Pos.eqb andb]. destruct ((nb s 0 <? 192) || _); done. }
  assert (L1 := cont_live _ _ C1).
  destruct (Hnb 2%nat) as [K2 B2]; [lia|pose proof (look_ge (nb s 0)); lia|].
  assert (R2 : a + 2 < 2 ^ 32) by (unfold Zlen in Hlim; lia). change (Z.of_nat 2) with 2 in *.
  change (1 + 1) with 2.
  rewrite (padd_small a 2) by lia. rewrite (bind_run _ _ m (nb s 2) m) by by apply ld8_run. cbv zeta.
  destruct (cont_test _ B2) as [-> E2]. destruct (cont (nb s 2)) eqn:C2; cbn [negb]; [|done].
  rewrite E2 by done. pose proof (cont_range _ C2). unfold is_byte in *.
  rewrite shift_in by lia. change (T (2 + 2)) with 0xF0.
  destruct (Z.ltb_spec (nb s 0) 0xF0) as [|Hc2].
  { change (RuneX (2 + 1)) with (Z.shiftl 1 16 - 1). rewrite mask_ones, mod_three by lia.
    change (RuneX 2) with 0x7FF. cbn [Z.eqb Pos.eqb andb].
    set (l := nb s 0 mod 16 * 4096 + _ + _).
    assert (Hl : 0 <= l < 65536) by (pose proof (Z.mod_pos_bound (nb s 0) 16); subst l; lia).
    change Runemax with 0x10FFFF. unfold valid. change SurrogateMin with 0xD800. change SurrogateMax with 0xDFFF.
    destruct (Z.leb_spec l 0x7FF); cbn [orb]; [done|].
    replace (l >? 0x10FFFF) with false by (symmetry; rewrite Z.gtb_ltb; apply Z.ltb_ge; lia).
    replace (0 <=? l) with true by (symmetry; apply Z.leb_le; lia).
    replace (l <=? 0x10FFFF) with true by (symmetry; apply Z.leb_le; lia). cbn [andb].
    destruct ((0xD800 <=? l) && (l <=? 0xDFFF)); done. }
  assert (L2 := cont_live _ _ C2).
  destruct (Hnb 3%nat) as [K3 B3]; [lia|pose proof (look_ge (nb s 0)); lia|].
  assert (R3 : a + 3 < 2 ^ 32) by (unfold Zlen in Hlim; lia). change (Z.of_nat 3) with 3 in *.
  change (2 + 1) with 3.
  rewrite (padd_small a 3) by lia. rewrite (bind_run _ _ m (nb s 3) m) by by apply ld8_run. cbv zeta.
  destruct (cont_test _ B3) as [-> E3]. destruct (cont (nb s 3)) eqn:C3; cbn [negb]; [|done].
  rewrite E3 by done. pose proof (cont_range _ C3). unfold is_byte in *.
  rewrite shift_in by lia. change (T (3 + 2)) with 0xF8.
  destruct (Z.ltb_spec (nb s 0) 0xF8) as [|Hc3]; [|done].
  change (RuneX (3 + 1)) with (Z.shiftl 1 21 - 1). rewrite mask_ones, mod_four by lia.
  change (RuneX 3) with 0xFFFF. change Runemax with 0x10FFFF. cbn [Z.eqb Pos.eqb andb].
  destruct (_ || _); done.
Qed.

(** ** [dec] inverts [enc] *)

Lemma valid_spec r : valid r = true <-> 0 <= r <= 0x10FFFF /\ ~ 0xD800 <= r <= 0xDFFF.
Proof.
  unfold valid. rewrite !andb_true_iff, negb_true_iff, andb_false_iff, !Z.leb_le, !Z.leb_gt. lia.
Qed.

Lemma digits r : 0 <= r -> 0 <= r mod 64 < 64 /\ 0 <= (r / 64) mod 64 < 64 /\ 0 <= (r / 4096) mod 64 < 64 /\
  r = r / 64 * 64 + r mod 64 /\ r / 64 = r / 4096 * 64 + (r / 64) mod 64 /\
  r / 4096 = r / 262144 * 64 + (r / 4096) mod 64 /\ 0 <= r / 262144.
Proof. intros. Z.div_mod_to_equations. lia. Qed.

Lemma cont_add x : 0 <= x < 64 -> cont (0x80 + x) = true.
Proof. intros. unfold cont. cmp. done. Qed.

Lemma dec_enc r t : valid r = true -> dec (enc r ++ t) = (Zlen (enc r), r).
Proof.
  intros Hv. pose proof (proj1 (valid_spec r) Hv) as [Hr Hs]. pose proof (digits r) as (D0&D1&D2&E0&E1&E2&D3); [lia|].
  unfold enc. destruct (Z.ltb_spec r 0x80); [|destruct (Z.ltb_spec r 0x800); [|destruct (Z.ltb_spec r 0x10000)]];
    unfold dec, nb; cbn [app nth]; rewrite ?cont_add by lia; cbn [negb].
  - cmp. done.
  - replace ((0xC0 + r / 64) mod 32) with (r / 64) by (Z.div_mod_to_equations; lia).
    cmp. unfold Zlen. simpl. f_equal; lia.
  - replace ((0xE0 + r / 4096) mod 16) with (r / 4096) by (Z.div_mod_to_equations; lia).
    replace (r / 4096 * 4096 + (0x80 + r / 64 mod 64 - 0x80) * 64 + (0x80 + r mod 64 - 0x80)) with r by lia.
    rewrite Hv. cmp. done.
  - replace ((0xF0 + r / 262144) mod 8) with (r / 262144) by (Z.div_mod_to_equations; lia).
    replace (r / 262144 * 262144 + (0x80 + r / 4096 mod 64 - 0x80) * 4096 + (0x80 + r / 64 mod 64 - 0x80) * 64 +
      (0x80 + r mod 64 - 0x80)) with r by lia.
    cmp. done.
Qed.

Lemma Zlen_enc r : 1 <= Zlen (enc r) <= 4.
Proof. unfold enc, Zlen. repeat destruct (_ <? _); simpl; lia. Qed.

(** The first bytes of a string. *)
Lemma nb_split s k : (k < length s)%nat -> drop k s = nb s k :: drop (S k) s.
Proof.
  intros H. destruct (lookup_lt_is_Some_2 s k H) as [x Hx]. rewrite (drop_S s x k Hx).
  f_equal. symmetry. by apply nth_lookup_Some.
Qed.

(** What is decoded is the encoding of a valid rune, unless it is one bad byte. *)
Lemma dec_cases s n r :
  Forall is_byte s -> s <> [] -> dec s = (n, r) ->
  (n, r) = (1, Bad) \/ (valid r = true /\ n = Zlen (enc r) /\ exists t, s = enc r ++ t).
Proof.
  intros Hb Hne Hd.
  assert (B : forall i, 0 <= nb s i < 256).
  { intros i. destruct (decide (i < length s)%nat) as [Hi|Hi].
    - destruct (lookup_lt_is_Some_2 s i Hi) as [x Hx]. unfold nb. rewrite (nth_lookup_Some _ _ _ _ Hx).
      by apply (proj1 (Forall_lookup _ _) Hb i x).
    - unfold nb. rewrite nth_overflow by lia. lia. }
  assert (L0 : (0 < length s)%nat) by (destruct s; [done|simpl; lia]).
  assert (S0 := nb_split s 0 L0). rewrite drop_0 in S0.
  pose proof (B 0%nat) as B0. unfold dec in Hd.
  destruct (Z.ltb_spec (nb s 0) 0x80) as [|G0].
  { injection Hd as <- <-. right. split; [apply valid_spec; lia|]. unfold enc. cmp. split; [done|].
    exists (drop 1 s). exact S0. }
  destruct (cont (nb s 1)) eqn:C1; cbn [negb] in Hd; [|by left].
  pose proof (cont_range _ C1). pose proof (nb_split s 1 (cont_live _ _ C1)) as S1.
  destruct (Z.ltb_spec (nb s 0) 0xE0) as [|G1].
  { destruct (Z.ltb_spec (nb s 0) 0xC0); cbn [orb] in Hd; [by left|].
    destruct (Z.leb_spec (nb s 0 mod 32 * 64 + (nb s 1 - 128)) 127); [by left|]. injection Hd as <- <-. right.
    assert (E : nb s 0 mod 32 = nb s 0 - 0xC0) by (Z.div_mod_to_equations; lia). rewrite E in *.
    set (r := (nb s 0 - 192) * 64 + (nb s 1 - 128)) in *. split; [apply valid_spec; lia|].
    unfold enc. cmp. split; [done|]. exists (drop 2 s).
    assert (Es : s = nb s 0 :: nb s 1 :: drop 2 s) by (rewrite <- S1; exact S0). rewrite Es at 1.
    replace (r / 64) with (nb s 0 - 0xC0) by (subst r; Z.div_mod_to_equations; lia).
    replace (r mod 64) with (nb s 1 - 0x80) by (subst r; Z.div_mod_to_equations; lia).
    simpl. repeat (apply f_equal2; [lia|]). done. }
  destruct (cont (nb s 2)) eqn:C2; cbn [negb] in Hd; [|by left].
  pose proof (cont_range _ C2). pose proof (nb_split s 2 (cont_live _ _ C2)) as S2.
  destruct (Z.ltb_spec (nb s 0) 0xF0) as [|G2].
  { assert (E : nb s 0 mod 16 = nb s 0 - 0xE0) by (Z.div_mod_to_equations; lia). rewrite E in *.
    set (r1 := (nb s 0 - 224) * 4096 + (nb s 1 - 128) * 64 + (nb s 2 - 128)) in *.
    destruct (Z.leb_spec r1 0x7FF); cbn [orb] in Hd; [by left|].
    destruct (valid r1) eqn:Hv; cbn [negb] in Hd; [|by left]. injection Hd as <- <-. right. split; [done|].
    unfold enc. cmp. split; [done|]. exists (drop 3 s).
    assert (Es : s = nb s 0 :: nb s 1 :: nb s 2 :: drop 3 s) by (rewrite <- S2, <- S1; exact S0). rewrite Es at 1.
    replace (r1 / 4096) with (nb s 0 - 0xE0) by (subst r1; Z.div_mod_to_equations; lia).
    replace (r1 / 64 mod 64) with (nb s 1 - 0x80) by (subst r1; Z.div_mod_to_equations; lia).
    replace (r1 mod 64) with (nb s 2 - 0x80) by (subst r1; Z.div_mod_to_equations; lia).
    simpl. repeat (apply f_equal2; [lia|]). done. }
  destruct (cont (nb s 3)) eqn:C3; cbn [negb] in Hd; [|by left].
  pose proof (cont_range _ C3). pose proof (nb_split s 3 (cont_live _ _ C3)) as S3.
  destruct (Z.ltb_spec (nb s 0) 0xF8) as [|]; [|by left].
  assert (E : nb s 0 mod 8 = nb s 0 - 0xF0) by (Z.div_mod_to_equations; lia). rewrite E in *.
  set (r1 := (nb s 0 - 240) * 262144 + (nb s 1 - 128) * 4096 + (nb s 2 - 128) * 64 + (nb s 3 - 128)) in *.
  destruct (Z.leb_spec r1 0xFFFF); cbn [orb] in Hd; [by left|].
  destruct (r1 >? 0x10FFFF) eqn:Hgt; [by left|]. rewrite Z.gtb_ltb in Hgt. apply Z.ltb_ge in Hgt.
  injection Hd as <- <-. right. split; [apply valid_spec; lia|].
  unfold enc. cmp. split; [done|]. exists (drop 4 s).
  assert (Es : s = nb s 0 :: nb s 1 :: nb s 2 :: nb s 3 :: drop 4 s) by (rewrite <- S3, <- S2, <- S1; exact S0).
  rewrite Es at 1.
  replace (r1 / 262144) with (nb s 0 - 0xF0) by (subst r1; Z.div_mod_to_equations; lia).
  replace (r1 / 4096 mod 64) with (nb s 1 - 0x80) by (subst r1; Z.div_mod_to_equations; lia).
  replace (r1 / 64 mod 64) with (nb s 2 - 0x80) by (subst r1; Z.div_mod_to_equations; lia).
  replace (r1 mod 64) with (nb s 3 - 0x80) by (subst r1; Z.div_mod_to_equations; lia).
  simpl. repeat (apply f_equal2; [lia|]). done.
Qed.

(** ** [runetochar] *)

Lemma tx_low x : Z.lor Tx (Z.land x Maskx) = 0x80 + x mod 64.
Proof.
  change Tx with (2 * 2 ^ 6). change Maskx with (Z.ones 6). rewrite Z.land_ones by lia.
  change (2 ^ 6) with 64. apply (lor_disjoint 2 (x mod 64) 6); [lia|lia|]. apply Z.mod_pos_bound. lia.
Qed.

(** The continuation bytes from the [j]th on. *)
Fixpoint tails (n : nat) (j i c : Z) : list Z :=
  match n with
  | O => []
  | S n => (0x80 + Z.shiftr c ((i - j - 1) * 6) mod 64) :: tails n (j + 1) i c
  end.

Lemma Zlen_tails n j i c : Zlen (tails n j i c) = Z.of_nat n.
Proof. revert j. induction n as [|n IH]; intros j; [done|]. simpl. rewrite Zlen_cons, IH. lia. Qed.

Lemma runetochar_bytes_run n : forall m j i str c,
  Zlen m < 2 ^ 32 -> in_mem m (str + j) (Z.of_nat n) ->
  runetochar_bytes n j i str c m = Some (tt, wr m (str + j) (tails n j i c)).
Proof.
  induction n as [|n IH]; intros m j i str c Hlim Hin.
  { simpl. by rewrite wr_nil. }
  destruct Hin as (? & _ & ?). cbn [runetochar_bytes tails].
  assert (Hin1 : in_mem m (str + j) 1) by (unfold in_mem; lia).
  rewrite padd_small by lia. rewrite tx_low. change Bitx with 6.
  set (b := 128 + _).
  assert (Hb : 0 <= b < 256) by (subst b; pose proof (Z.mod_pos_bound (Z.shiftr c ((i - j - 1) * 6)) 64); lia).
  rewrite (bind_run _ _ m tt (wr m (str + j) [b])) by (rewrite st8_run by done; by rewrite u8_small by lia).
  assert (Zlen (wr m (str + j) [b]) = Zlen m) as Hl by (apply Zlen_wr; done).
  rewrite IH; [|by rewrite Hl|unfold in_mem; rewrite Hl; lia].
  do 2 f_equal. replace (str + (j + 1)) with (str + j + Zlen [b]) by (change (Zlen [b]) with 1; lia).
  rewrite wr_app; [done|]. rewrite Zlen_tails. unfold in_mem. change (Zlen [b]) with 1. lia.
Qed.

(** The first byte and the others. *)
Lemma runetochar_store m i str c first :
  Zlen m < 2 ^ 32 -> 1 <= i -> in_mem m str i -> Z.lor (T i) (Z.shiftr c ((i - 1) * Bitx)) = first ->
  0 <= first < 256 ->
  (_ ← st8 str (Z.lor (T i) (Z.shiftr c ((i - 1) * Bitx)));
   _ ← runetochar_bytes (Z.to_nat (i - 1)) 1 i str c;
   mret i) m = Some (i, wr m str (first :: tails (Z.to_nat (i - 1)) 1 i c)).
Proof.
  intros Hlim Hi (? & _ & ?) Hf Hb. rewrite Hf.
  assert (Hin1 : in_mem m str 1) by (unfold in_mem; lia).
  rewrite (bind_run _ _ m tt (wr m str [first])) by (rewrite st8_run by done; by rewrite u8_small by lia).
  assert (Zlen (wr m str [first]) = Zlen m) as Hl by (apply Zlen_wr; done).
  erewrite bind_run by (apply runetochar_bytes_run; [by rewrite Hl|unfold in_mem; rewrite Hl; lia]).
  rewrite ret_run. do 2 f_equal. change (str + 1) with (str + Zlen [first]). rewrite wr_app; [done|].
  rewrite Zlen_tails. unfold in_mem. change (Zlen [first]) with 1. lia.
Qed.

Lemma enc_tails_2 r : 0x80 <= r < 0x800 -> enc r = (0xC0 + r / 64) :: tails 1 1 2 r.
Proof. intros. unfold enc. cmp. cbn [tails]. change ((2 - 1 - 1) * 6) with 0. by rewrite Z.shiftr_0_r. Qed.
Lemma enc_tails_3 r : 0x800 <= r < 0x10000 -> enc r = (0xE0 + r / 4096) :: tails 2 1 3 r.
Proof.
  intros. unfold enc. cmp. cbn [tails]. change ((3 - 1 - 1) * 6) with 6. change ((3 - (1 + 1) - 1) * 6) with 0.
  by rewrite Z.shiftr_0_r, Z.shiftr_div_pow2 by lia.
Qed.
Lemma enc_tails_4 r : 0x10000 <= r -> enc r = (0xF0 + r / 262144) :: tails 3 1 4 r.
Proof.
  intros. unfold enc. cmp. cbn [tails]. change ((4 - 1 - 1) * 6) with 12. change ((4 - (1 + 1) - 1) * 6) with 6.
  change ((4 - (1 + 1 + 1) - 1) * 6) with 0. by rewrite Z.shiftr_0_r, !Z.shiftr_div_pow2 by lia.
Qed.


Lemma runetochar_run m str r :
  mem_ok m -> in_mem m str 4 -> 0 <= r < 2 ^ 32 ->
  runetochar str r m = Some (Zlen (enc (fix_rune r)), wr m str (enc (fix_rune r))).
Proof.
  intros [_ Hlim] Hin Hr. pose proof Hin as (? & _ & ?).
  assert (Hm : Zlen m < 2 ^ 32) by lia.
  assert (Hsub : forall k, 0 <= k <= 4 -> in_mem m str k) by (intros; unfold in_mem; lia).
  unfold runetochar. change Rune1 with 0x7F. destruct (Z.leb_spec r 0x7F) as [H1|H1].
  { rewrite (bind_run _ _ m tt (wr m str [r])) by (rewrite st8_run by (apply Hsub; lia); by rewrite u8_small by lia).
    assert (Hv : valid r = true) by (apply valid_spec; lia). unfold fix_rune. rewrite Hv. unfold enc. cmp. done. }
  change (Z.to_nat (UTFmax + 1 - 2)) with 3%nat. cbn [runetochar_loop].
  change (2 =? 3) with false. change (2 =? UTFmax) with false. change (2 + 1 =? 3) with true.
  change (2 + 1 =? UTFmax) with false. change (2 + 1 + 1 =? 3) with false. change (2 + 1 + 1 =? UTFmax) with true.
  change (2 + 1 + 1) with 4. change (2 + 1) with 3. cbv iota zeta. rewrite orb_false_r.
  change (RuneX 2) with 0x7FF. destruct (Z.leb_spec r 0x7FF) as [H2|H2].
  { assert (Hv : valid r = true) by (apply valid_spec; lia). unfold fix_rune. rewrite Hv.
    rewrite enc_tails_2, Zlen_cons, Zlen_tails by lia. apply runetochar_store; auto; try lia; [apply Hsub; lia| |].
    - rewrite Z.shiftr_div_pow2 by (change Bitx with 6; lia). change (T 2) with (6 * 2 ^ 5).
      change (2 ^ ((2 - 1) * Bitx)) with 64. apply (lor_disjoint 6 (r / 64) 5); Z.div_mod_to_equations; lia.
    - Z.div_mod_to_equations; lia. }
  set (c := if (_ && _) : bool then Runeerror else _).
  assert (Hc : c = fix_rune r).
  { subst c. unfold fix_rune. change Runemax with 0x10FFFF. change SurrogateMin with 0xD800. change SurrogateMax with 0xDFFF.
    destruct (valid r) eqn:Hv.
    - apply valid_spec in Hv as [? ?]. replace (r >? 0x10FFFF) with false by (symmetry; rewrite Z.gtb_ltb; apply Z.ltb_ge; lia).
      destruct (Z.leb_spec 0xD800 r); [|done]. destruct (Z.leb_spec r 0xDFFF); [lia|done].
    - destruct (r >? 0x10FFFF) eqn:Hg; [done|]. rewrite Z.gtb_ltb in Hg. apply Z.ltb_ge in Hg.
      destruct (Z.leb_spec 0xD800 r); [destruct (Z.leb_spec r 0xDFFF)|]; [done| |];
        exfalso; apply not_true_iff_false in Hv; apply Hv, valid_spec; lia. }
  clearbody c. subst c. rewrite !orb_false_r, !orb_true_r.
  assert (Hf : 0x800 <= fix_rune r <= 0x10FFFF).
  { unfold fix_rune. destruct (valid r) eqn:Hv; [apply valid_spec in Hv; lia|]. unfold Runeerror. lia. }
  set (c := fix_rune r) in *. clearbody c. change (RuneX 3) with 0xFFFF. destruct (Z.leb_spec c 0xFFFF) as [H3|H3].
  - rewrite enc_tails_3, Zlen_cons, Zlen_tails by lia. apply runetochar_store; auto; try lia; [apply Hsub; lia| |].
    + rewrite Z.shiftr_div_pow2 by (change Bitx with 6; lia). change (T 3) with (14 * 2 ^ 4).
      change (2 ^ ((3 - 1) * Bitx)) with 4096. apply (lor_disjoint 14 (c / 4096) 4); Z.div_mod_to_equations; lia.
    + Z.div_mod_to_equations; lia.
  - rewrite enc_tails_4, Zlen_cons, Zlen_tails by lia. apply runetochar_store; auto; try lia.
    + rewrite Z.shiftr_div_pow2 by (change Bitx with 6; lia). change (T 4) with (30 * 2 ^ 3).
      change (2 ^ ((4 - 1) * Bitx)) with 262144. apply (lor_disjoint 30 (c / 262144) 3); Z.div_mod_to_equations; lia.
    + Z.div_mod_to_equations; lia.
Qed.

(** ** Walking a string *)

Lemma cstr_drop m a s n : cstr_at m a s -> (n <= length s)%nat -> cstr_at m (a + Z.of_nat n) (drop n s).
Proof.
  intros [Hn Hb] Hl. split; [by apply Forall_drop|]. rewrite <- (take_drop n s), <- app_assoc in Hb.
  apply bytes_at_app in Hb as [_ Hb]. replace (Zlen (take n s)) with (Z.of_nat n) in Hb; [done|].
  unfold Zlen. rewrite length_take. lia.
Qed.

Lemma dec_step m a s n r :
  mem_ok m -> cstr_at m a s -> s <> [] -> dec s = (n, r) ->
  1 <= n <= Zlen s /\ cstr_at m (a + n) (drop (Z.to_nat n) s).
Proof.
  intros Hok Hs Hne Hd. assert (Hn : 1 <= n <= Zlen s).
  { destruct (dec_cases s n r (nonul_bytes s (proj1 Hs)) Hne Hd) as [[= -> _]|(_ & -> & t & ->)].
    - destruct s; [done|]. rewrite Zlen_cons. zpos. lia.
    - pose proof (Zlen_enc r). rewrite Zlen_app. zpos. lia. }
  split; [done|]. replace (a + n) with (a + Z.of_nat (Z.to_nat n)) by lia.
  apply cstr_drop; [done|]. unfold Zlen in Hn. lia.
Qed.

Lemma dec_ascii b s : 0 <= b < 0x80 -> dec (b :: s) = (1, b).
Proof. intros. unfold dec, nb. cbn [nth]. cmp. done. Qed.

Lemma runes_from_fuel f1 : forall f2 off s, nonul s -> (length s <= f1)%nat -> (length s <= f2)%nat ->
  runes_from f1 off s = runes_from f2 off s.
Proof.
  induction f1 as [|f1 IH]; intros f2 off s Hn H1 H2.
  { destruct s; [by destruct f2|simpl in H1; lia]. }
  destruct f2 as [|f2]; [destruct s; [done|simpl in H2; lia]|].
  destruct s as [|b s]; [done|]. cbn [runes_from]. destruct (dec (b :: s)) as [n r] eqn:Hd. f_equal.
  assert (1 <= n).
  { destruct (dec_cases (b :: s) n r (nonul_bytes _ Hn) ltac:(done) Hd) as [[= -> _]|(_ & -> & _)]; [lia|].
    pose proof (Zlen_enc r). lia. }
  assert (length (drop (Z.to_nat n) (b :: s)) <= length s)%nat by (rewrite length_drop; simpl; lia).
  apply IH; [by apply Forall_drop|simpl in *; lia|simpl in *; lia].
Qed.

Lemma runes_cons off b s n r :
  nonul (b :: s) -> dec (b :: s) = (n, r) ->
  runes_from (length (b :: s)) off (b :: s) =
    (off, r) :: runes_from (length (drop (Z.to_nat n) (b :: s))) (off + n) (drop (Z.to_nat n) (b :: s)).
Proof.
  intros Hn Hd. cbn [length runes_from]. rewrite Hd. f_equal.
  assert (1 <= n).
  { destruct (dec_cases (b :: s) n r (nonul_bytes _ Hn) ltac:(done) Hd) as [[= -> _]|(_ & -> & _)]; [lia|].
    pose proof (Zlen_enc r). lia. }
  apply runes_from_fuel; [by apply Forall_drop| |done]. rewrite length_drop. simpl. lia.
Qed.

(** One step of the loops over a string: past a byte below [Runeself], or past
    what [chartorune] says. *)
Lemma walk_step m a b s n r :
  mem_ok m -> cstr_at m a (b :: s) -> dec (b :: s) = (n, r) ->
  lk m a = Some b /\ 0 < b < 256 /\ (b < 0x80 -> n = 1 /\ r = b) /\
  chartorune a m = Some ((n, r), m) /\ a +p n = a + n /\ 1 <= n <= Zlen (b :: s) /\
  cstr_at m (a + n) (drop (Z.to_nat n) (b :: s)).
Proof.
  intros Hok Hs Hd. destruct (dec_step m a (b :: s) n r Hok Hs ltac:(done) Hd) as [Hn Hs'].
  destruct (cstr_nb m a (b :: s) 0 Hok Hs) as (K & _ & _ & Ha & Hlim); [simpl; lia|]. rewrite Z.add_0_r in K.
  assert (Hb : 0 < b < 256) by (destruct Hs as [Hb _]; by apply Forall_cons in Hb as [? _]).
  split_and!; [done|lia|lia| | | |lia|lia|done].
  - intros H. rewrite dec_ascii in Hd by lia. by injection Hd as <- <-.
  - rewrite (chartorune_run m a (b :: s)) by by apply cstr_reads. by rewrite Hd.
  - apply padd_small. lia.
Qed.

Lemma utflen_loop_run m fuel : forall s a k off,
  mem_ok m -> cstr_at m a s -> (length s < fuel)%nat -> 0 <= k -> k + Zlen s < 2 ^ 31 ->
  utflen_loop fuel a k m = Some (k + Zlen (runes_from (length s) off s), m).
Proof.
  induction fuel as [|fuel IH]; intros s a k off Hok Hs Hf Hk Hl; [lia|]. cbn [utflen_loop].
  destruct s as [|b s].
  { apply cstr_nil in Hs. rewrite (bind_run _ _ m 0 m) by by apply ld8_run. simpl. rewrite Zlen_nil, Z.add_0_r. done. }
  destruct (dec (b :: s)) as [n r] eqn:Hd.
  destruct (walk_step m a b s n r Hok Hs Hd) as (K & Hb & Hasc & Hc & Hp & Hn & Hs').
  rewrite (bind_run _ _ m b m) by by apply ld8_run.
  rewrite (runes_cons off b s n r (proj1 Hs) Hd), Zlen_cons.
  assert (Hlen : length (drop (Z.to_nat n) (b :: s)) = (length (b :: s) - Z.to_nat n)%nat) by apply length_drop.
  assert (Hfu : (length (drop (Z.to_nat n) (b :: s)) < fuel)%nat) by (rewrite Hlen; simpl in *; lia).
  assert (Hkl : k + 1 + Zlen (drop (Z.to_nat n) (b :: s)) < 2 ^ 31) by (unfold Zlen in *; lia).
  specialize (IH _ (a + n) (k + 1) (off + n) Hok Hs' Hfu ltac:(lia) Hkl).
  assert (Hw : s32 (k + 1) = k + 1) by (apply s32_small; zpos; lia).
  change Runeself with 0x80. destruct (Z.ltb_spec b 0x80) as [Hlt|Hge].
  - destruct (Hasc Hlt) as [-> ->]. destruct (Z.eqb_spec b 0); [lia|]. rewrite Hw, Hp, IH. do 2 f_equal. lia.
  - rewrite (bind_run _ _ m (n, r) m) by done. rewrite Hw, Hp, IH. do 2 f_equal. lia.
Qed.

Lemma utflen_run m a s :
  mem_ok m -> cstr_at m a s -> Zlen s < 2 ^ 31 -> utflen a m = Some (Zlen (runes s), m).
Proof.
  intros Hok Hs Hl. unfold utflen, memfuel. erewrite bind_run by done.
  rewrite (utflen_loop_run m _ s a 0 0); [done|done|done|by eapply cstr_fuel|lia|lia].
Qed.

(** The offset of the first (last) rune equal to [c]. *)
Definition first_rune (c : Z) (l : list (Z * Z)) : option Z := fst <$> List.find (fun p => p.2 =? c) l.
Definition last_rune (c : Z) (l : list (Z * Z)) : option Z := first_rune c (rev l).

Lemma utfrune_loop_run m c fuel : forall s a base off,
  mem_ok m -> cstr_at m a s -> (length s < fuel)%nat -> a = base + off -> 0 < c ->
  utfrune_loop fuel a c m =
    Some (match first_rune c (runes_from (length s) off s) with Some o => base + o | None => 0 end, m).
Proof.
  induction fuel as [|fuel IH]; intros s a base off Hok Hs Hf Ha Hc0; [lia|]. cbn [utfrune_loop].
  destruct s as [|b s].
  { apply cstr_nil in Hs. by rewrite (bind_run _ _ m 0 m) by by apply ld8_run. }
  destruct (dec (b :: s)) as [n r] eqn:Hd.
  destruct (walk_step m a b s n r Hok Hs Hd) as (K & Hb & Hasc & Hc & Hp & Hn & Hs').
  rewrite (bind_run _ _ m b m) by by apply ld8_run.
  rewrite (runes_cons off b s n r (proj1 Hs) Hd). unfold first_rune. cbn [List.find snd].
  assert (Hfu : (length (drop (Z.to_nat n) (b :: s)) < fuel)%nat) by (rewrite length_drop; simpl in *; lia).
  specialize (IH _ (a + n) base (off + n) Hok Hs' Hfu ltac:(lia) Hc0). unfold first_rune in IH.
  change Runeself with 0x80. destruct (Z.ltb_spec b 0x80) as [Hlt|Hge].
  - destruct (Hasc Hlt) as [-> ->]. destruct (Z.eqb_spec b 0); [lia|].
    destruct (Z.eqb_spec b c); [by rewrite Ha|]. by rewrite Hp, IH.
  - rewrite (bind_run _ _ m (n, r) m) by done.
    destruct (Z.eqb_spec r c); [by rewrite Ha|]. by rewrite Hp, IH.
Qed.

Lemma first_rune_app c l k :
  first_rune c (l ++ k) = match first_rune c l with Some o => Some o | None => first_rune c k end.
Proof. unfold first_rune. induction l as [|p l IH]; simpl; [done|]. by destruct (p.2 =? c). Qed.

Lemma utfrrune_loop_run m c fuel : forall s a base off s1,
  mem_ok m -> cstr_at m a s -> (length s < fuel)%nat -> a = base + off -> 0 < c ->
  utfrrune_loop fuel a c s1 m =
    Some (match last_rune c (runes_from (length s) off s) with Some o => base + o | None => s1 end, m).
Proof.
  induction fuel as [|fuel IH]; intros s a base off s1 Hok Hs Hf Ha Hc0; [lia|]. cbn [utfrrune_loop].
  destruct s as [|b s].
  { apply cstr_nil in Hs. by rewrite (bind_run _ _ m 0 m) by by apply ld8_run. }
  destruct (dec (b :: s)) as [n r] eqn:Hd.
  destruct (walk_step m a b s n r Hok Hs Hd) as (K & Hb & Hasc & Hc & Hp & Hn & Hs').
  rewrite (bind_run _ _ m b m) by by apply ld8_run.
  rewrite (runes_cons off b s n r (proj1 Hs) Hd). unfold last_rune. cbn [rev].
  rewrite first_rune_app. fold (last_rune c (runes_from (length (drop (Z.to_nat n) (b :: s))) (off + n) (drop (Z.to_nat n) (b :: s)))).
  assert (Hfu : (length (drop (Z.to_nat n) (b :: s)) < fuel)%nat) by (rewrite length_drop; simpl in *; lia).
  assert (Hstep : forall s1', utfrrune_loop fuel (a +p n) c s1' m =
    Some (match last_rune c (runes_from (length (drop (Z.to_nat n) (b :: s))) (off + n) (drop (Z.to_nat n) (b :: s)))
          with Some o => base + o | None => s1' end, m)).
  { intros s1'. rewrite Hp. apply IH; auto. lia. }
  assert (Hlast : first_rune c [(off, r)] = if r =? c then Some off else None)
    by (unfold first_rune; simpl; by destruct (r =? c)).
  rewrite Hlast. change Runeself with 0x80. destruct (Z.ltb_spec b 0x80) as [Hlt|Hge].
  - destruct (Hasc Hlt) as [-> ->]. destruct (Z.eqb_spec b 0); [lia|]. rewrite Hstep.
    destruct (last_rune _ _); [done|]. destruct (Z.eqb_spec b c); [by rewrite Ha|done].
  - rewrite (bind_run _ _ m (n, r) m) by done. rewrite Hstep.
    destruct (last_rune _ _); [done|]. destruct (Z.eqb_spec r c); [by rewrite Ha|done].
Qed.

(** ** Whole strings of runes *)

Lemma runes_enc rs : forall off,
  Forall (fun r => valid r = true /\ 0 < r) rs ->
  nonul (concat (map enc rs)) /\
  map snd (runes_from (length (concat (map enc rs))) off (concat (map enc rs))) = rs.
Proof.
  induction rs as [|r rs IH]; intros off Hv; [by split; [constructor|]|]. apply Forall_cons in Hv as [[Hr H0] Hv].
  assert (Hb : nonul (enc r)).
  { pose proof (proj1 (valid_spec r) Hr). pose proof (digits r ltac:(lia)). unfold enc, nonul.
    destruct (Z.ltb_spec r 0x80); [|destruct (Z.ltb_spec r 0x800); [|destruct (Z.ltb_spec r 0x10000)]];
      repeat (apply Forall_cons; split); try apply Forall_nil; try done; try lia; Z.div_mod_to_equations; lia. }
  assert (Hn : nonul (concat (map enc (r :: rs)))) by (cbn [map concat]; apply Forall_app; split; [exact Hb|exact (proj1 (IH 0 Hv))]).
  split; [done|]. cbn [map concat] in *. pose proof (Zlen_enc r) as Hl.
  pose proof (dec_enc r (concat (map enc rs)) Hr) as Hd. destruct (enc r) as [|b t] eqn:He; [rewrite Zlen_nil in Hl; lia|].
  cbn [app] in *. rewrite (runes_cons off b _ _ _ Hn Hd). cbn [map snd]. f_equal.
  replace (drop (Z.to_nat (Zlen (b :: t))) (b :: t ++ concat (map enc rs))) with (concat (map enc rs)).
  - by apply IH.
  - rewrite to_nat_Zlen. change (b :: t ++ concat (map enc rs)) with ((b :: t) ++ concat (map enc rs)).
    by rewrite drop_app_length.
Qed.

(** [fullrune] compares with what the first byte announces. *)
Lemma fullrune_loop_run c n : 0x80 <= c -> fullrune_loop 2 3 c n = (Z.of_nat (look c) <=? n).
Proof.
  intros Hc. cbn [fullrune_loop]. change (T 3) with 0xE0. change (T (3 + 1)) with 0xF0. unfold look.
  destruct (Z.ltb_spec c 0x80); [lia|]. by destruct (c <? 0xE0), (c <? 0xF0).
Qed.

Lemma fullrune_run m a b n :
  lk m a = Some b -> 1 <= n -> fullrune a n m = Some (Z.of_nat (look b) <=? n, m).
Proof.
  intros Hb Hn. unfold fullrune. destruct (Z.leb_spec n 0); [lia|].
  rewrite (bind_run _ _ m b m) by by apply ld8_run. change Tx with 0x80. destruct (Z.ltb_spec b 0x80) as [Hlt|Hge].
  - unfold look. cmp. done.
  - rewrite ret_run. by rewrite fullrune_loop_run.
Qed.

(** * Theorems *)

(** A rune written by [runetochar] is read back by [chartorune], with its
    length; a rune that UTF-8 does not encode (a surrogate, or beyond [Runemax])
    reads back as [Runeerror].  Only the bytes of the rune are written. *)
Theorem rune_roundtrip (m : mem) (str r : Z) :
  mem_ok m -> in_mem m str 4 -> 0 <= r < 2 ^ 32 ->
  exists n m', runetochar str r m = Some (n, m') /\
    chartorune str m' = Some ((n, if valid r then r else Runeerror), m') /\
    1 <= n <= UTFmax /\ same_outside str n m m'.
Proof.
  intros Hok Hin Hr. pose proof (Zlen_enc (fix_rune r)) as Hl. pose proof Hin as (? & _ & ?).
  assert (Hin' : in_mem m str (Zlen (enc (fix_rune r)))) by (unfold in_mem; lia).
  eexists _, _. split; [by apply runetochar_run|]. split; [|split; [unfold UTFmax; lia|by apply wr_same_outside]].
  set (m' := wr m str (enc (fix_rune r))).
  assert (Hv : valid (fix_rune r) = true) by (unfold fix_rune; by destruct (valid r) eqn:E).
  assert (Hin4 : in_mem m' str 4) by (subst m'; rewrite in_mem_wr by done; done).
  set (s := sub m' str 4). pose proof (sub_bytes_at m' str 4 Hin4) as Hs. fold s in Hs.
  pose proof (Zlen_sub m' str 4 Hin4) as Hls. fold s in Hls.
  assert (Hpre : exists t, s = enc (fix_rune r) ++ t).
  { exists (drop (length (enc (fix_rune r))) s). rewrite <- (take_drop (length (enc (fix_rune r))) s) at 1. f_equal.
    apply (bytes_at_eq m' str).
    - apply bytes_at_app with (cs := drop (length (enc (fix_rune r))) s). by rewrite take_drop.
    - by apply bytes_at_wr.
    - unfold Zlen. rewrite length_take. unfold Zlen in *. lia. }
  destruct Hpre as [t Ht].
  assert (Hbytes : Forall is_byte m').
  { apply Forall_wr; [apply Hok|]. pose proof (proj1 (valid_spec _) Hv). pose proof (digits (fix_rune r) ltac:(lia)).
    unfold enc. destruct (Z.ltb_spec (fix_rune r) 0x80); [|destruct (Z.ltb_spec (fix_rune r) 0x800);
      [|destruct (Z.ltb_spec (fix_rune r) 0x10000)]];
      repeat (apply Forall_cons; split); try apply Forall_nil; try done; unfold is_byte; try lia; Z.div_mod_to_equations; lia. }
  rewrite (chartorune_run m' str s).
  - rewrite Ht, dec_enc by done. done.
  - split; [lia|]. split; [destruct Hok; lia|]. intros i Hi Hlk.
    pose proof (look_ge (nb s 0)).
    assert (Hlk' : lk m' (str + Z.of_nat i) = Some (nb s i)).
    { destruct Hs as [_ Hs]. rewrite Hs by (unfold Zlen in *; lia). unfold lk.
      destruct (Z.leb_spec 0 (Z.of_nat i)); [|lia]. rewrite Nat2Z.id.
      destruct (lookup_lt_is_Some_2 s i) as [x Hx]; [unfold Zlen in *; lia|]. rewrite Hx. f_equal.
      symmetry. by apply nth_lookup_Some. }
    split; [done|]. by eapply lk_byte.
Qed.

(** C30. What [chartorune] makes of a string: either the string begins with the
    encoding of a valid code point, in its shortest form, and the result is that
    code point with its length, or it begins with no such encoding, and the
    result is one byte standing for [Runeerror].  It reads nothing past the NUL. *)
Theorem chartorune_exact (m : mem) (a : Z) (s : list Z) :
  mem_ok m -> cstr_at m a s -> s <> [] ->
  exists n r, chartorune a m = Some ((n, r), m) /\
    ((valid r = true /\ n = Zlen (enc r) /\ exists t, s = enc r ++ t) \/
     (n = 1 /\ r = Runeerror /\ forall r' t, valid r' = true -> s <> enc r' ++ t)).
Proof.
  intros Hok Hs Hne. destruct (dec s) as [n r] eqn:Hd. exists n, r.
  split; [rewrite (chartorune_run m a s) by (by apply cstr_reads); by rewrite Hd|].
  destruct (dec_cases s n r (nonul_bytes s (proj1 Hs)) Hne Hd) as [[= -> ->]|]; [|by left].
  right. split_and!; [done..|]. intros r' t Hv ->. rewrite dec_enc in Hd by done.
  injection Hd as Hl Hr. rewrite Hr in Hl. discriminate Hl.
Qed.

(** [utflen] counts the runes of a string and [utfrune] and [utfrrune] find
    the first and the last occurrence of a rune, for the decoding that
    [chartorune] defines; on the UTF-8 encoding of a list of code points that
    decoding gives back the list. *)
Theorem utf_strings_decode (m : mem) (a : Z) (s : list Z) (c : Z) :
  mem_ok m -> cstr_at m a s -> Zlen s < 2 ^ 31 -> Runesync <= c ->
  utflen a m = Some (Zlen (runes s), m) /\
  utfrune a c m = Some (match first_rune c (runes s) with Some o => a + o | None => 0 end, m) /\
  utfrrune a c m = Some (match last_rune c (runes s) with Some o => a + o | None => 0 end, m) /\
  (forall rs, Forall (fun r => valid r = true /\ 0 < r) rs -> s = concat (map enc rs) -> map snd (runes s) = rs).
Proof.
  intros Hok Hs Hl Hc. unfold Runesync in Hc. split_and!.
  - by apply utflen_run.
  - unfold utfrune, memfuel, Runesync. destruct (Z.ltb_spec c 0x80); [lia|]. erewrite bind_run by done.
    apply utfrune_loop_run; [done|done|by eapply cstr_fuel|lia|lia].
  - unfold utfrrune, memfuel, Runesync. destruct (Z.ltb_spec c 0x80); [lia|]. erewrite bind_run by done.
    apply utfrrune_loop_run; [done|done|by eapply cstr_fuel|lia|lia].
  - intros rs Hv ->. by apply runes_enc.
Qed.

(** [fullrune] is enough: when it says that [n] bytes hold a full rune,
    [chartorune] reads only those bytes, and what follows them makes no
    difference; it always says so for four bytes. *)
Theorem fullrune_sufficient (m : mem) (a : Z) (bs : list Z) :
  mem_ok m -> bytes_at m a bs -> bs <> [] ->
  exists f, fullrune a (Zlen bs) m = Some (f, m) /\ (4 <= Zlen bs -> f = true) /\
    (f = true -> forall m' a', mem_ok m' -> bytes_at m' a' bs -> chartorune a' m' = Some (dec bs, m')).
Proof.
  intros Hok Hb Hne. destruct bs as [|b bs]; [done|]. exists (Z.of_nat (look b) <=? Zlen (b :: bs)).
  assert (Hk : forall m a, bytes_at m a (b :: bs) -> lk m a = Some b).
  { intros m0 a0 Hb0. by apply bytes_at_cons in Hb0 as [? _]. }
  pose proof (look_ge b). split_and!.
  - apply fullrune_run; [by apply Hk|]. rewrite Zlen_cons. zpos. lia.
  - intros. apply Z.leb_le. lia.
  - intros Hf%Z.leb_le m' a' [Hby' Hlim'] Hb'. apply chartorune_run. pose proof Hb' as [(? & _ & ?) Hlk].
    split; [lia|]. split; [lia|]. intros i Hi Hi'. change (nb (b :: bs) 0) with b in Hi'.
    assert (Hlk' : lk m' (a' + Z.of_nat i) = Some (nb (b :: bs) i)).
    { rewrite Hlk by (unfold Zlen in *; lia). unfold lk.
      destruct (Z.leb_spec 0 (Z.of_nat i)); [|lia]. rewrite Nat2Z.id.
      destruct (lookup_lt_is_Some_2 (b :: bs) i) as [x Hx]; [unfold Zlen in *; lia|]. rewrite Hx. f_equal.
      symmetry. by apply nth_lookup_Some. }
    split; [done|]. by eapply lk_byte.
Qed.

(** [runenlen] counts what [runetochar] writes, up to [Runemax]; beyond it
    counts four where three bytes are written. *)
Lemma runenlen_valid rs :
  Forall (fun r => 0 <= r <= Runemax) rs -> runenlen rs = Zlen (concat (map (fun r => enc (fix_rune r)) rs)).
Proof.
  induction 1 as [|r rs Hr _ IH]; [done|]. cbn [runenlen map concat]. rewrite Zlen_app, <- IH. f_equal.
  unfold Runemax in Hr. change Rune1 with 0x7F. change (Z.to_nat (UTFmax + 1 - 2)) with 3%nat.
  cbn [runenlen_width]. change (RuneX 2) with 0x7FF. change (RuneX (2 + 1)) with 0xFFFF.
  change (2 =? UTFmax) with false. change (2 + 1 =? UTFmax) with false. change (2 + 1 + 1 =? UTFmax) with true.
  rewrite !orb_false_r, orb_true_r. unfold fix_rune. destruct (valid r) eqn:Hv.
  - unfold enc. destruct (Z.leb_spec r 0x7F), (Z.leb_spec r 0x7FF), (Z.leb_spec r 0xFFFF); try lia; cmp; done.
  - assert (0xD800 <= r <= 0xDFFF).
    { destruct (decide (0xD800 <= r <= 0xDFFF)); [done|]. exfalso. apply not_true_iff_false in Hv. apply Hv, valid_spec. lia. }
    cmp. done.
Qed.

Example runenlen_over : runenlen [0x110000] = 4 /\ Zlen (enc (fix_rune 0x110000)) = 3.
Proof. split; vm_compute; reflexivity. Qed.

(** * A concrete string: a, e acute, euro, a clef, and a stray byte *)

Definition ex_utf : list Z := [0x61; 0xC3; 0xA9; 0xE2; 0x82; 0xAC; 0xF0; 0x9D; 0x84; 0x9E; 0xFF].
Definition utf_mem : mem := ex_utf ++ replicate 21 0.

Lemma utf_mem_ok : mem_ok utf_mem.
Proof. split; [repeat constructor; unfold is_byte; lia|vm_compute; discriminate]. Qed.

Lemma utf_cstr : cstr_at utf_mem 0 ex_utf.
Proof.
  split; [repeat constructor; lia|]. split; [unfold in_mem; vm_compute; split_and!; discriminate|].
  intros i Hi. change (Zlen (ex_utf ++ [0])) with 12 in Hi.
  assert (i = 0 \/ i = 1 \/ i = 2 \/ i = 3 \/ i = 4 \/ i = 5 \/ i = 6 \/ i = 7 \/ i = 8 \/ i = 9 \/ i = 10 \/ i = 11)
    as Hcase by lia.
  repeat destruct Hcase as [->|Hcase]; try reflexivity. by subst.
Qed.

Lemma rune_roundtrip_witness :
  exists n m', runetochar 16 0x20AC utf_mem = Some (n, m') /\ chartorune 16 m' = Some ((n, 0x20AC), m') /\
    1 <= n <= UTFmax /\ same_outside 16 n utf_mem m'.
Proof.
  apply (rune_roundtrip utf_mem 16 0x20AC); [exact utf_mem_ok|vm_compute; split_and!; discriminate|lia].
Defined.

Lemma chartorune_exact_witness : exists n r, chartorune 0 utf_mem = Some ((n, r), utf_mem).
Proof.
  destruct (chartorune_exact utf_mem 0 ex_utf utf_mem_ok utf_cstr ltac:(discriminate)) as (n & r & H & _).
  exists n, r. exact H.
Defined.

Lemma utf_strings_decode_witness :
  utflen 0 utf_mem = Some (5, utf_mem) /\ utfrune 0 0x20AC utf_mem = Some (3, utf_mem).
Proof.
  destruct (utf_strings_decode utf_mem 0 ex_utf 0x20AC utf_mem_ok utf_cstr) as (H1 & H2 & _);
    [vm_compute; reflexivity|vm_compute; discriminate|].
  split; [exact H1|exact H2].
Defined.

Lemma fullrune_sufficient_witness : exists f, fullrune 1 2 utf_mem = Some (f, utf_mem).
Proof.
  destruct (fullrune_sufficient utf_mem 1 [0xC3; 0xA9] utf_mem_ok) as (f & H & _); [|discriminate|exists f; exact H].
  apply bytes_at_cons. split; [reflexivity|]. apply bytes_at_cons. split; [reflexivity|].
  apply bytes_at_nil. vm_compute. split; discriminate.
Defined.
