(* ===== verification/Chars.v ===== *)
(** Characters and C strings as the string routines of [libc/port] use them:
    reading a character of a string, writing one no later than where the string
    is read, the ends of strings and what lies outside them. *)

From S2P Require Import Prelude Mem CString Rune.

Local Open Scope c_scope.

(** A C string in a memory that is written out. *)
Ltac cstr_eval := repeat (apply cstr_cons; split; [reflexivity|split; [lia|]]); apply cstr_nil; reflexivity.

(** Close a goal on a computation that returns a sum. *)
Ltac ret_lia := rewrite ret_run; do 2 f_equal; lia.

(** * Characters *)

Lemma s8_eqb b c : is_byte b -> 0 <= c < 128 -> (s8 b =? c) = (b =? c).
Proof.
  unfold is_byte. intros Hb Hc. unfold s8. rewrite u8_small by lia. change (2 ^ 7) with 128. change (2 ^ 8) with 256.
  destruct (Z.ltb_spec b 128); [done|]. rewrite !(proj2 (Z.eqb_neq _ _)) by lia. done.
Qed.

Lemma u8_s8 b : is_byte b -> u8 (s8 b) = b.
Proof.
  unfold is_byte. intros Hb. unfold s8. rewrite (u8_small b) by lia. change (2 ^ 7) with 128. change (2 ^ 8) with 256.
  destruct (Z.ltb_spec b 128); [apply u8_small; lia|]. unfold u8. symmetry. change (2 ^ 8) with 256. apply (Z.mod_unique_pos _ _ (-1)); lia.
Qed.

Lemma nb_byte s i : nonul s -> is_byte (nb s i).
Proof.
  intros H. unfold nb. destruct (decide (i < length s)%nat) as [Hi|Hi].
  - destruct (lookup_lt_is_Some_2 s i Hi) as [x Hx]. rewrite (nth_lookup_Some _ _ _ _ Hx).
    apply nonul_bytes in H. by apply (proj1 (Forall_lookup _ _) H i x).
  - rewrite nth_overflow by lia. unfold is_byte. lia.
Qed.

(** The character [i] of a string, its terminator included. *)
Lemma ldc_nb m a s i :
  mem_ok m -> cstr_at m a s -> 0 <= i <= Zlen s -> ldc (a +p i) m = Some (s8 (nb s (Z.to_nat i)), m).
Proof.
  intros Hok Hs Hi. destruct (cstr_nb m a s (Z.to_nat i) Hok Hs) as (K & _ & _ & Ha & Hlim); [unfold Zlen in Hi; lia|].
  rewrite Z2Nat.id in K by lia. rewrite padd_small by lia. by apply ldc_run.
Qed.

Lemma ldc_nb0 m a s : mem_ok m -> cstr_at m a s -> ldc a m = Some (s8 (nb s 0), m).
Proof.
  intros Hok Hs. pose proof (ldc_nb m a s 0 Hok Hs) as H. pose proof (cstr_range m a s Hs) as [Ha Hb].
  pose proof (proj2 Hok). rewrite padd_small, Z.add_0_r in H by (zpos; lia). apply H. zpos. lia.
Qed.

(** Writing one byte of a string not after where it is read. *)
Lemma st8_keep m d a b s :
  mem_ok m -> is_byte b -> 0 <= d -> d < a -> cstr_at m a s ->
  st8 d (s8 b) m = Some (tt, wr m d [b]) /\ mem_ok (wr m d [b]) /\ cstr_at (wr m d [b]) a s /\ in_mem m d 1.
Proof.
  intros Hok Hb H0 Hd Hs. pose proof (cstr_range m a s Hs) as [Ha Hl].
  assert (Hin : in_mem m d 1) by (unfold in_mem; zpos; lia).
  split_and!; [|apply mem_ok_wr; [done|by constructor|done]| |done].
  - rewrite st8_run by done. by rewrite u8_s8.
  - eapply cstr_agree; [done|by apply Zlen_wr|]. intros i Hi. apply lk_wr_out; [done|]. change (Zlen [b]) with 1. lia.
Qed.

Lemma cstr_tail m a b s : cstr_at m a (b :: s) -> cstr_at m (a + 1) s.
Proof. by intros (_&_&H)%cstr_cons. Qed.

Lemma cstr_app m a s t : cstr_at m a (s ++ t) -> cstr_at m (a + Zlen s) t.
Proof.
  intros [Hn Hb]. rewrite <- app_assoc in Hb. apply bytes_at_app in Hb as [_ Hb]. split; [|done].
  by apply Forall_app in Hn as [_ Hn].
Qed.

(** * Parts of a string *)

Lemma cstr_last m a l c : cstr_at m a (l ++ [c]) -> lk m (a + Zlen l) = Some c /\ 0 < c < 256.
Proof. intros H%cstr_app%cstr_cons. tauto. Qed.

Lemma cstr_cut m a l t : mem_ok m -> cstr_at m a (l ++ t) -> cstr_at (wr m (a + Zlen l) [0]) a l.
Proof.
  intros Hok [Hn Hb]. apply Forall_app in Hn as [Hn _]. split; [done|]. rewrite <- app_assoc in Hb.
  pose proof (bytes_at_in _ _ _ Hb) as (H0 & _ & Hl). apply bytes_at_app in Hb as [Hb _].
  rewrite !Zlen_app in Hl. change (Zlen [0]) with 1 in Hl.
  assert (Hin : in_mem m (a + Zlen l) (Zlen [0])) by (unfold in_mem; change (Zlen [0]) with 1; zpos; lia).
  apply bytes_at_app. split; [|by apply bytes_at_wr]. apply bytes_at_wr_out; [done|done|lia].
Qed.

(** * What is left alone *)

Lemma outside_refl a n m : same_outside a n m m.
Proof. by split. Qed.

Lemma outside_trans a n m1 m2 m3 : same_outside a n m1 m2 -> same_outside a n m2 m3 -> same_outside a n m1 m3.
Proof. intros [L1 H1] [L2 H2]. split; [congruence|]. intros i Hi. by rewrite H2, H1. Qed.

Lemma same_outside_sub a n b k m m' : same_outside b k m m' -> a <= b -> b + k <= a + n -> same_outside a n m m'.
Proof. intros [L H] H1 H2. split; [done|]. intros i Hi. apply H. lia. Qed.

(** * The first place of a character *)

Lemma find_first_skip c l u : Forall (fun b => b <> c) l ->
  find_first c (l ++ u) = option_map (Z.add (Zlen l)) (find_first c u).
Proof.
  induction 1 as [|b l Hb Hl IH]; [cbn [app]; by destruct (find_first c u)|]. cbn [app find_first].
  rewrite (proj2 (Z.eqb_neq b c)) by done. rewrite IH, Zlen_cons. destruct (find_first c u); simpl; [f_equal; lia|done].
Qed.

Lemma find_first_in c t : c ∈ t -> exists i, find_first c t = Some i /\ 0 <= i < Zlen t /\
  take (Z.to_nat i + 1) t = take (Z.to_nat i) t ++ [c].
Proof.
  induction t as [|b t IH]; [by intros ?%elem_of_nil|]. intros H. cbn [find_first]. rewrite Zlen_cons.
  destruct (Z.eqb_spec b c) as [->|Hb]; [exists 0; split_and!; try done; zpos; lia|].
  apply elem_of_cons in H as [?|H]; [congruence|]. destruct (IH H) as (i & -> & Hi & Ht). exists (1 + i).
  split_and!; [done|lia|lia|]. replace (Z.to_nat (1 + i)) with (S (Z.to_nat i)) by lia. cbn [take Nat.add app]. by rewrite Ht.
Qed.

Lemma find_first_none c t : c ∉ t -> find_first c t = None.
Proof.
  induction t as [|b t IH]; [done|]. intros H. apply not_elem_of_cons in H as [H1 H2]. cbn [find_first].
  rewrite (proj2 (Z.eqb_neq b c)) by done. by rewrite IH.
Qed.
