(* ===== verification/Names.v ===== *)
(** [libc/port/cleanname.c]: the name of a file put in its shortest form, in
    place.

    The specification is a fold over the elements of the name ([clean]): empty
    elements and [.] are dropped, [..] takes the element before it away, and at
    the start of a name it is dropped below a root and kept otherwise. *)

From S2P Require Import Prelude Mem CString Rune Chars.

Local Open Scope c_scope.

(** * Definitions *)

Definition SEP (x : Z) : bool := (x =? 47) || (x =? 0).

(** Line 25: past the name of a kernel device. *)
Fixpoint skip_device (fuel : nat) (d0 : Z) : M Z :=
  match fuel with
  | O => trap
  | S fuel =>
      c ← ldc d0;
      if SEP c then mret d0 else '(n, _) ← chartorune d0; skip_device fuel (d0 +p n)
  end.

(** Line 39: [for(; *s == '/'; s++)]. *)
Fixpoint skip_slashes (fuel : nat) (s : Z) : M Z :=
  match fuel with
  | O => trap
  | S fuel => c ← ldc s; if c =? 47 then skip_slashes fuel (s +p 1) else mret s
  end.

(** Line 46: [while(s[1] == '/') s++]. *)
Fixpoint last_slash (fuel : nat) (s : Z) : M Z :=
  match fuel with
  | O => trap
  | S fuel => c ← ldc (s +p 1); if c =? 47 then last_slash fuel (s +p 1) else mret s
  end.

(** Lines 43 to 48: remove doubled slashes; where the copy ends. *)
Fixpoint squeeze_loop (fuel : nat) (s d : Z) : M Z :=
  match fuel with
  | O => trap
  | S fuel =>
      c ← ldc s;
      if c =? 0 then mret d else
      _ ← st8 d c;
      c ← ldc s;
      s ← (if c =? 47 then f ← memfuel; last_slash f s else mret s);
      squeeze_loop fuel (s +p 1) (d +p 1)
  end.

(** Line 76: back to the start of the last element. *)
Fixpoint back_element (fuel : nat) (d d0 : Z) : M Z :=
  match fuel with
  | O => trap
  | S fuel =>
      if d >? d0 then
        c ← ldc (d +p (-1));
        if negb (c =? 47) then back_element fuel (d +p (-1)) d0 else mret d
      else mret d
  end.

(** Lines 84 and 85: copy an element; the source and destination after it. *)
Fixpoint copy_element (fuel : nat) (s d : Z) : M (Z * Z) :=
  match fuel with
  | O => trap
  | S fuel =>
      c ← ldc s;
      if SEP c then mret (s, d) else _ ← st8 d c; copy_element fuel (s +p 1) (d +p 1)
  end.

(** Lines 54 and 60: is the element at [s] a dot, or two? *)
Definition is_dot (s : Z) : M bool :=
  c0 ← ldc s;
  if c0 =? 46 then c1 ← ldc (s +p 1); mret (SEP c1) else mret false.

Definition is_dotdot (s : Z) : M bool :=
  c0 ← ldc s;
  if c0 =? 46 then
    c1 ← ldc (s +p 1);
    if c1 =? 46 then c2 ← ldc (s +p 2); mret (SEP c2) else mret false
  else mret false.

(** Lines 53 to 90: the elements one after the other; where the name ends. *)
Fixpoint elements_loop (fuel : nat) (rooted : bool) (s d d0 : Z) : M Z :=
  match fuel with
  | O => trap
  | S fuel =>
      c0 ← ldc s;
      if c0 =? 0 then mret d else
      f ← memfuel;
      one ← is_dot s;
      if one : bool then
        c1 ← ldc (s +p 1);
        if c1 =? 0 then mret d else elements_loop fuel rooted (s +p 2) d d0
      else
      two ← is_dotdot s;
      let d0' := if (two && (d =? d0) && negb rooted)%bool then d0 +p 3 else d0 in
      if (two && (d =? d0) && rooted)%bool then
        c2 ← ldc (s +p 2);
        if c2 =? 0 then mret d else elements_loop fuel rooted (s +p 3) d d0'
      else if (two && (d >? d0'))%bool then
        c ← ldc (d +p (-1));
        if negb ((d +p (-2) >=? d0') && (c =? 47)) then trap else
        d ← back_element f (d +p (-2)) d0';
        c2 ← ldc (s +p 2);
        if c2 =? 0 then mret d else elements_loop fuel rooted (s +p 3) d d0'
      else
        '(s, d) ← copy_element f s d;
        c ← ldc s;
        if c =? 0 then mret d else
        _ ← st8 d c; elements_loop fuel rooted (s +p 1) (d +p 1) d0'
  end.

(** [strcpy(name, ".")]. *)
Definition strcpy_dot (name : Z) : M Z := _ ← st8 name 46; _ ← st8 (name +p 1) 0; mret name.

(** Lines 92 to 96: no slash at the end, and no empty name. *)
Definition clean_end (name d : Z) : M Z :=
  trail ← (if d +p (-1) >? name then c ← ldc (d +p (-1)); mret (c =? 47) else mret false);
  _ ← (if trail : bool then st8 (d +p (-1)) 0 else mret tt);
  c ← ldc name;
  if c =? 0 then strcpy_dot name else mret name.

(** Lines 36 to 96: what follows the root, which ends at [d0]. *)
Definition clean_from (name d0 : Z) (rooted : bool) : M Z :=
  fuel ← memfuel;
  s ← (if rooted then skip_slashes fuel d0 else mret d0);
  d ← squeeze_loop fuel s d0;
  _ ← st8 d 0;
  d ← elements_loop fuel rooted d0 d0 d0;
  _ ← st8 d 0;
  clean_end name d.

(** The test of line 27 is of the pointer [d0], which is not nil. *)
Definition cleanname (name : Z) : M Z :=
  c ← ldc name;
  if c =? 0 then strcpy_dot name else
  if c =? 35 then
    c1 ← ldc (name +p 1);
    if c1 =? 0 then mret name else
    '(n, _) ← chartorune (name +p 1);
    fuel ← memfuel;
    d0 ← skip_device fuel (name +p (1 + n));
    if d0 =? 0 then mret name else clean_from name (d0 +p 1) true
  else if c =? 47 then clean_from name (name +p 1) true
  else clean_from name name false.

(** * Specification *)

(** The elements of a name: what stands between slashes, empty ones included. *)
Fixpoint split_slash (s : list Z) : list (list Z) :=
  match s with
  | [] => [[]]
  | c :: s =>
      if c =? 47 then [] :: split_slash s
      else match split_slash s with e :: es => (c :: e) :: es | [] => [[c]] end
  end.

Definition dot : list Z := [46].
Definition dotdot : list Z := [46; 46].

(** One more element after [out], which lists those kept, the last one first. *)
Definition step (rooted : bool) (out : list (list Z)) (e : list Z) : list (list Z) :=
  if decide (e = [] \/ e = dot) then out
  else if decide (e = dotdot) then
    match out with
    | [] => if rooted then [] else [dotdot]
    | p :: out' => if decide (p = dotdot) then dotdot :: out else out'
    end
  else e :: out.

Fixpoint join (es : list (list Z)) : list Z :=
  match es with
  | [] => []
  | [e] => e
  | e :: es => e ++ 47 :: join es
  end.

Definition kept (rooted : bool) (es : list (list Z)) : list (list Z) := rev (foldl (step rooted) [] es).

(** How many bytes of a name are its root: a slash, or [#], the character
    after it, and all up to the next slash. *)
Definition root_len (s : list Z) : nat :=
  match s with
  | 47 :: _ => 1
  | 35 :: _ :: t => match find_first 47 t with Some i => 3 + Z.to_nat i | None => 0 end
  | _ => 0
  end.

Definition clean (s : list Z) : list Z :=
  let k := root_len s in
  let body := join (kept (0 <? k)%nat (split_slash (drop k s))) in
  if decide (s = [35]) then s
  else if decide (k = 0%nat) then (if decide (body = []) then dot else body)
  else if decide (body = []) then (if decide (k = 1%nat) then [47] else take (k - 1) s)
  else take k s ++ body.

(** * Lemmas *)

(** ** Slashes *)

Fixpoint drop_slashes (t : list Z) : list Z :=
  match t with c :: t' => if c =? 47 then drop_slashes t' else t | [] => [] end.

Lemma drop_slashes_suffix t : exists n, drop_slashes t = drop n t /\ (n <= length t)%nat.
Proof.
  induction t as [|c t (n & IH & Hn)]; [by exists 0%nat|]. simpl. destruct (c =? 47).
  - exists (S n). split; [exact IH|lia].
  - exists 0%nat. split; [done|lia].
Qed.

Lemma drop_slashes_cstr m a t : cstr_at m a t ->
  cstr_at m (a + (Zlen t - Zlen (drop_slashes t))) (drop_slashes t) /\ 0 <= Zlen t - Zlen (drop_slashes t).
Proof.
  intros Hs. destruct (drop_slashes_suffix t) as (n & -> & Hn). split.
  - replace (Zlen t - Zlen (drop n t)) with (Z.of_nat n) by (unfold Zlen; rewrite length_drop; lia).
    by apply cstr_drop.
  - unfold Zlen. rewrite length_drop. lia.
Qed.

Lemma skip_slashes_run m fuel : forall s t,
  mem_ok m -> cstr_at m s t -> (length t < fuel)%nat ->
  skip_slashes fuel s m = Some (s + (Zlen t - Zlen (drop_slashes t)), m).
Proof.
  induction fuel as [|fuel IH]; intros s t Hok Hs Hf; [lia|]. cbn [skip_slashes].
  run_with (ldc_nb0 m s t Hok Hs). rewrite s8_eqb by (try apply nb_byte; try apply Hs; lia).
  destruct t as [|c t]; [unfold nb, Zlen; simpl; ret_lia|]. unfold nb. cbn [nth drop_slashes].
  destruct (Z.eqb_spec c 47) as [->|]; [|ret_lia].
  pose proof (cstr_range _ _ _ Hs) as [Ha Hl]. pose proof (proj2 Hok). rewrite Zlen_cons in *.
  rewrite padd_small by (zpos; lia). rewrite (IH (s + 1) t Hok (cstr_tail _ _ _ _ Hs)) by (simpl in Hf; lia).
  do 2 f_equal. lia.
Qed.

Lemma last_slash_run m fuel : forall s c t,
  mem_ok m -> cstr_at m s (c :: t) -> (length t < fuel)%nat ->
  last_slash fuel s m = Some (s + (Zlen t - Zlen (drop_slashes t)), m).
Proof.
  induction fuel as [|fuel IH]; intros s c t Hok Hs Hf; [lia|]. cbn [last_slash].
  pose proof (cstr_range _ _ _ Hs) as [Ha Hl]. rewrite Zlen_cons in *.
  run_with (ldc_nb m s (c :: t) 1 Hok Hs ltac:(rewrite Zlen_cons; zpos; lia)).
  rewrite s8_eqb by (try apply nb_byte; try apply Hs; lia). change (nb (c :: t) (Z.to_nat 1)) with (nb t 0).
  destruct t as [|c' t]; [unfold nb, Zlen; simpl; ret_lia|]. unfold nb. cbn [nth drop_slashes].
  destruct (Z.eqb_spec c' 47) as [->|]; [|ret_lia].
  pose proof (proj2 Hok). rewrite Zlen_cons in *.
  rewrite padd_small by (zpos; lia). rewrite (IH (s + 1) 47 t Hok (cstr_tail _ _ _ _ Hs)) by (simpl in Hf; lia).
  do 2 f_equal. lia.
Qed.

(** A string with its runs of slashes made single. *)
Fixpoint squeeze (t : list Z) : list Z :=
  match t with
  | [] => []
  | c :: t => if (c =? 47) && (nb t 0 =? 47) then squeeze t else c :: squeeze t
  end.

Lemma squeeze_slash t : squeeze (47 :: t) = 47 :: squeeze (drop_slashes t).
Proof.
  induction t as [|c t IH]; [done|]. cbn [squeeze drop_slashes]. unfold nb. cbn [nth]. rewrite Z.eqb_refl. cbn [andb].
  destruct (Z.eqb_spec c 47) as [->|Hc].
  - rewrite <- IH. done.
  - cbn [squeeze]. rewrite (proj2 (Z.eqb_neq c 47)) by done. done.
Qed.

Lemma squeeze_char c t : c <> 47 -> squeeze (c :: t) = c :: squeeze t.
Proof. intros H. cbn [squeeze]. by rewrite (proj2 (Z.eqb_neq c 47)). Qed.

Lemma squeeze_le t : Zlen (squeeze t) <= Zlen t.
Proof.
  induction t as [|c t IH]; [done|]. cbn [squeeze]. destruct (_ && _); rewrite ?Zlen_cons in *; lia.
Qed.

Lemma squeeze_loop_run fuel : forall m s d t,
  mem_ok m -> cstr_at m s t -> 0 <= d <= s -> (length t < fuel)%nat ->
  squeeze_loop fuel s d m = Some (d + Zlen (squeeze t), wr m d (squeeze t)).
Proof.
  induction fuel as [|fuel IH]; intros m s d t Hok Hs Hd Hf; [lia|]. cbn [squeeze_loop].
  run_with (ldc_nb0 m s t Hok Hs). rewrite s8_zero by (apply nb_byte, Hs).
  destruct t as [|c t]; [simpl; rewrite wr_nil; unfold nb, Zlen; simpl; ret_lia|].
  assert (Hc : 0 < c < 256) by (by apply cstr_cons in Hs as (_&?&_)). unfold nb. cbn [nth].
  rewrite (proj2 (Z.eqb_neq c 0)) by lia. pose proof (cstr_range _ _ _ Hs) as [Ha Hl]. rewrite Zlen_cons in *.
  pose proof (proj2 Hok). pose proof (Zlen_nonneg t).
  destruct (st8_keep m d (s + 1) c t Hok) as (E1 & Hok1 & Hs1 & Hin); [unfold is_byte; lia..|by eapply cstr_tail|].
  run_with E1. set (m1 := wr m d [c]) in *.
  assert (Hsc : cstr_at m1 s (c :: t)).
  { apply cstr_cons. split_and!; [|lia|lia|done]. unfold m1. rewrite lk_wr by done. change (Zlen [c]) with 1.
    destruct (Z.leb_spec d s), (Z.ltb_spec s (d + 1)); cbn [andb]; try lia.
    - replace (s - d) with 0 by lia. done.
    - by apply cstr_cons in Hs as (?&_). }
  run_with (ldc_nb0 m1 s _ Hok1 Hsc). rewrite s8_eqb by (try apply nb_byte; try apply Hsc; lia).
  unfold nb. cbn [nth].
  assert (Hrest : forall s' t', cstr_at m1 (s' + 1) t' -> d + 1 <= s' + 1 -> (length t' <= length t)%nat ->
    0 <= s' -> s' + 1 < 2 ^ 32 ->
    squeeze_loop fuel (s' +p 1) (d +p 1) m1 = Some (d + Zlen (c :: squeeze t'), wr m d (c :: squeeze t'))).
  { intros s' t' Hs' Hd' Hl' K0 K1. rewrite !padd_small by lia. rewrite (IH m1 (s' + 1) (d + 1) t') by (simpl in *; done || lia).
    rewrite Zlen_cons. do 2 f_equal; [lia|]. unfold m1. change (d + 1) with (d + Zlen [c]). rewrite wr_app; [done|].
    change (Zlen [c]) with 1. pose proof (squeeze_le t'). pose proof (cstr_range _ _ _ Hs') as [_ Hr].
    unfold m1 in Hr. rewrite Zlen_wr in Hr by done. unfold in_mem in *. zpos. lia. }
  destruct (Z.eqb_spec c 47) as [->|Hne].
  - rewrite (bind_run _ _ m1 (s + (Zlen t - Zlen (drop_slashes t))) m1).
    2: { unfold memfuel. erewrite bind_run by done. apply (last_slash_run m1 _ s 47); [done..|].
         pose proof (cstr_fuel m1 s _ Hsc). simpl in *. lia. }
    rewrite squeeze_slash. destruct (drop_slashes_cstr m1 (s + 1) t Hs1) as [Hds Hle].
    replace (s + 1 + (Zlen t - Zlen (drop_slashes t))) with (s + (Zlen t - Zlen (drop_slashes t)) + 1) in Hds by lia.
    apply Hrest; [done|lia|unfold Zlen in Hle; lia|lia|]. pose proof (Zlen_nonneg (drop_slashes t)). lia.
  - erewrite bind_run by done. rewrite squeeze_char by done. apply Hrest; [done|lia|lia|lia|lia].
Qed.

(** ** The elements of a string *)

(** What an element that counts is, and the text of elements, each followed by
    a slash but for the last one, which is if [b]. *)
Definition elem (e : list Z) : Prop := e <> [] /\ Forall (fun c => c <> 47) e /\ nonul e.

Fixpoint text (es : list (list Z)) (b : bool) : list Z :=
  match es with
  | [] => []
  | e :: es => e ++ match es with [] => if b then [47] else [] | _ => 47 :: text es b end
  end.

Definition flat (es : list (list Z)) : list Z := concat (map (fun e => e ++ [47]) es).

Lemma text_cons e es b :
  (text (e :: es) b = e /\ es = []) \/ text (e :: es) b = e ++ 47 :: text es b.
Proof.
  destruct es as [|e' es]; [|by right]. destruct b; [by right|left]. by rewrite <- (app_nil_r e) at 2.
Qed.

Lemma flat_app es ks : flat (es ++ ks) = flat es ++ flat ks.
Proof. unfold flat. by rewrite map_app, concat_app. Qed.

Lemma flat_snoc es e : flat (es ++ [e]) = flat es ++ e ++ [47].
Proof. rewrite flat_app. unfold flat at 2. cbn [map concat]. by rewrite app_nil_r. Qed.

Lemma flat_last es : es <> [] -> exists l, flat es = l ++ [47].
Proof.
  intros H. destruct es as [|e es _] using rev_ind; [done|]. exists (flat es ++ e). rewrite flat_snoc. by rewrite app_assoc.
Qed.

Lemma flat_text es : text es true = flat es.
Proof.
  induction es as [|e es IH]; [done|]. unfold flat. cbn [text map concat]. fold (flat es). rewrite <- IH.
  destruct es; by rewrite <- !app_assoc.
Qed.

Lemma text_join es b : es <> [] -> text es b = join es ++ if b then [47] else [].
Proof.
  induction es as [|e es IH]; [done|]. intros _. cbn [text join]. destruct es as [|e' es]; [done|].
  rewrite (IH ltac:(done)). by rewrite <- app_assoc.
Qed.

Lemma elem_cons e : elem e -> exists c e', e = c :: e' /\ 0 < c < 256 /\ c <> 47.
Proof.
  intros (Hne & Hs & Hn). destruct e as [|c e]; [done|]. exists c, e. apply Forall_cons in Hs as [? _].
  by apply Forall_cons in Hn as [? _].
Qed.

Lemma split_slash_ne s : split_slash s <> [].
Proof. destruct s as [|c s]; [done|]. simpl. destruct (c =? 47); [done|]. by destruct (split_slash s). Qed.

(** The elements that are not empty. *)
Definition solid (s : list Z) : list (list Z) := filter (fun e => e <> []) (split_slash s).

Lemma solid_slash s : solid (47 :: s) = solid s.
Proof. unfold solid. cbn [split_slash]. by rewrite Z.eqb_refl, filter_cons_False by auto. Qed.

Lemma solid_drop s : solid (drop_slashes s) = solid s.
Proof.
  induction s as [|c s IH]; [done|]. cbn [drop_slashes]. destruct (Z.eqb_spec c 47) as [->|]; [|done].
  by rewrite solid_slash.
Qed.

Lemma solid_last c : c <> 47 -> solid [c] = [[c]].
Proof. intros H. unfold solid. cbn [split_slash]. by rewrite (proj2 (Z.eqb_neq c 47)). Qed.

Lemma solid_end c s : c <> 47 -> solid (c :: 47 :: s) = [c] :: solid s.
Proof.
  intros H. unfold solid. cbn [split_slash]. rewrite (proj2 (Z.eqb_neq c 47)) by done. rewrite Z.eqb_refl.
  by rewrite filter_cons_True.
Qed.

Lemma solid_next c c' s : c <> 47 -> c' <> 47 ->
  exists e es, solid (c' :: s) = e :: es /\ solid (c :: c' :: s) = (c :: e) :: es.
Proof.
  intros H H'. unfold solid. cbn [split_slash]. rewrite !(proj2 (Z.eqb_neq _ 47)) by done.
  destruct (split_slash s) as [|e es]; rewrite !filter_cons_True by done; eauto.
Qed.

(** A string that does not start with a slash is the text of its elements, once
    its doubled slashes are removed. *)
Lemma squeeze_text n : forall s, (length s <= n)%nat -> nb s 0 <> 47 -> exists b, squeeze s = text (solid s) b.
Proof.
  induction n as [|n IH]; intros s Hl Hs; [destruct s; [by exists false|simpl in Hl; lia]|].
  destruct s as [|c s]; [by exists false|]. unfold nb in Hs. cbn [nth] in Hs. rewrite squeeze_char by done.
  destruct s as [|c' s]; [exists false; rewrite solid_last by done; done|].
  destruct (Z.eq_dec c' 47) as [->|Hc'].
  - rewrite squeeze_slash, solid_end, <- (solid_drop s) by done.
    destruct (drop_slashes s) as [|k t] eqn:Hk; [exists true; done|].
    assert (Hk' : k <> 47 /\ (length (k :: t) <= length s)%nat).
    { destruct (drop_slashes_suffix s) as (j & Hj & Hjl). rewrite Hk in Hj. rewrite Hj at 1. rewrite length_drop. split; [|lia].
      clear -Hk. induction s as [|c s IH]; [done|]. cbn [drop_slashes] in Hk. destruct (Z.eqb_spec c 47); [auto|congruence]. }
    destruct (IH (k :: t)) as [b Hb]; [simpl in *; lia|unfold nb; simpl; tauto|]. exists b. rewrite Hb.
    assert (solid (k :: t) <> []).
    { destruct Hk' as [Hk' _]. destruct t as [|k' t]; [by rewrite solid_last|]. destruct (Z.eq_dec k' 47) as [->|].
      - by rewrite solid_end. - destruct (solid_next k k' t) as (?&?&_&->); done. }
    cbn [text]. by destruct (solid (k :: t)).
  - destruct (IH (c' :: s)) as [b Hb]; [simpl in *; lia|done|]. exists b. rewrite Hb.
    destruct (solid_next c c' s Hs Hc') as (e & es & -> & ->). done.
Qed.

Lemma split_slash_elems s : nonul s -> Forall (fun e => Forall (fun c => c <> 47) e /\ nonul e) (split_slash s).
Proof.
  induction s as [|c s IH]; intros Hn; [by repeat constructor|]. apply Forall_cons in Hn as [Hc Hn].
  specialize (IH Hn). cbn [split_slash]. destruct (Z.eqb_spec c 47); [constructor; [split; by constructor|done]|].
  destruct (split_slash s) as [|e es]; [apply Forall_singleton; split; by apply Forall_singleton|].
  apply Forall_cons in IH as [[H1 H2] IH]. constructor; [|done]. split; by constructor.
Qed.

Lemma solid_elems s : nonul s -> Forall elem (solid s).
Proof.
  intros Hn. apply split_slash_elems in Hn. apply Forall_forall. intros e He. unfold solid in He.
  apply list_elem_of_filter in He as [H1 H2]. by apply (proj1 (Forall_forall _ _) Hn) in H2 as [? ?].
Qed.

(** ** One element *)

Definition ends (t : list Z) : Prop := t = [] \/ exists u, t = 47 :: u.

Lemma SEP_s8 b : is_byte b -> SEP (s8 b) = SEP b.
Proof. intros H. unfold SEP. by rewrite !s8_eqb by (done || lia). Qed.

Lemma SEP_ends t : ends t -> SEP (nb t 0) = true.
Proof. by intros [->|[u ->]]. Qed.

Lemma SEP_not c : c <> 47 -> 0 < c -> SEP c = false.
Proof. intros. unfold SEP. by rewrite !(proj2 (Z.eqb_neq _ _)) by lia. Qed.

Lemma elem_next c c' e : elem (c :: c' :: e) -> SEP c' = false.
Proof.
  intros (_ & H1 & H2). apply Forall_cons in H1 as [_ [? _]%Forall_cons].
  apply Forall_cons in H2 as [_ [? _]%Forall_cons]. apply SEP_not; [done|lia].
Qed.

Lemma is_dot_run m s e t :
  mem_ok m -> elem e -> ends t -> cstr_at m s (e ++ t) -> is_dot s m = Some (bool_decide (e = dot), m).
Proof.
  intros Hok He Ht Hs. unfold is_dot. pose proof (nb_byte _ 0 (proj1 Hs)) as B0. pose proof (nb_byte _ 1 (proj1 Hs)) as B1.
  run_with (ldc_nb0 m s _ Hok Hs). rewrite s8_eqb by (done || lia).
  destruct (elem_cons e He) as (c & e' & -> & Hc & Hc'). unfold nb at 1. cbn [app nth] in *.
  destruct (Z.eqb_spec c 46) as [->|Hne]; [|rewrite bool_decide_false by (unfold dot; congruence); done].
  run_with (ldc_nb m s _ 1 Hok Hs ltac:(rewrite Zlen_cons; zpos; lia)). rewrite ret_run, SEP_s8 by done.
  do 2 f_equal. change (nb (46 :: e' ++ t) (Z.to_nat 1)) with (nb (e' ++ t) 0). destruct e' as [|c' e'].
  - cbn [app]. rewrite SEP_ends by done. by rewrite bool_decide_true.
  - unfold nb. cbn [app nth]. rewrite (elem_next _ _ _ He). by rewrite bool_decide_false.
Qed.

Lemma is_dotdot_run m s e t :
  mem_ok m -> elem e -> ends t -> cstr_at m s (e ++ t) -> is_dotdot s m = Some (bool_decide (e = dotdot), m).
Proof.
  intros Hok He Ht Hs. unfold is_dotdot. pose proof (nb_byte _ 0 (proj1 Hs)) as B0.
  pose proof (nb_byte _ 1 (proj1 Hs)) as B1. pose proof (nb_byte _ 2 (proj1 Hs)) as B2.
  run_with (ldc_nb0 m s _ Hok Hs). rewrite s8_eqb by (done || lia).
  destruct (elem_cons e He) as (c & e' & -> & Hc & Hc'). unfold nb at 1. cbn [app nth] in *.
  destruct (Z.eqb_spec c 46) as [->|Hne]; [|rewrite bool_decide_false by (unfold dotdot; congruence); done].
  run_with (ldc_nb m s _ 1 Hok Hs ltac:(rewrite Zlen_cons; zpos; lia)). rewrite s8_eqb by (done || lia).
  change (nb (46 :: e' ++ t) (Z.to_nat 1)) with (nb (e' ++ t) 0). destruct e' as [|c' e'].
  { cbn [app]. rewrite bool_decide_false by done. replace (nb t 0 =? 46) with false; [done|].
    by destruct Ht as [->|[u ->]]. }
  unfold nb at 1. cbn [app nth] in *.
  destruct (Z.eqb_spec c' 46) as [->|Hne]; [|rewrite bool_decide_false by (unfold dotdot; congruence); done].
  run_with (ldc_nb m s _ 2 Hok Hs ltac:(rewrite !Zlen_cons; zpos; lia)). rewrite ret_run, SEP_s8 by done.
  do 2 f_equal. change (nb (46 :: 46 :: e' ++ t) (Z.to_nat 2)) with (nb (e' ++ t) 0). destruct e' as [|c' e'].
  - cbn [app]. rewrite SEP_ends by done. by rewrite bool_decide_true.
  - unfold nb. cbn [app nth]. rewrite bool_decide_false by done. destruct He as (_ & H1 & H2).
    apply Forall_cons in H1 as [_ [_ [? _]%Forall_cons]%Forall_cons].
    apply Forall_cons in H2 as [_ [_ [? _]%Forall_cons]%Forall_cons]. apply SEP_not; [done|lia].
Qed.

(** Copying bytes that are not separators down to [d]. *)
Lemma copy_element_run e : forall fuel m s d t,
  mem_ok m -> Forall (fun c => c <> 47) e -> ends t -> cstr_at m s (e ++ t) -> 0 <= d <= s -> (length e < fuel)%nat ->
  copy_element fuel s d m = Some ((s + Zlen e, d + Zlen e), wr m d e) /\
  mem_ok (wr m d e) /\ cstr_at (wr m d e) (s + Zlen e) t /\ in_mem m d (Zlen e).
Proof.
  induction e as [|c e IH]; intros [|fuel] m s d t Hok He Ht Hs Hd Hf; try (simpl in Hf; lia); cbn [copy_element].
  - pose proof (cstr_range _ _ _ Hs) as [Ha Hl]. rewrite wr_nil. change (Zlen (@nil Z)) with 0. rewrite !Z.add_0_r.
    split_and!; [|done..|unfold in_mem; zpos; lia]. run_with (ldc_nb0 m s _ Hok Hs). cbn [app] in *.
    by rewrite SEP_s8, SEP_ends by (try apply nb_byte; try apply Hs; done).
  - apply Forall_cons in He as [Hc He]. cbn [app] in Hs. pose proof (cstr_range _ _ _ Hs) as [Ha Hl].
    assert (Hb : 0 < c < 256) by (by apply cstr_cons in Hs as (_&?&_)). rewrite Zlen_cons in *. pose proof (proj2 Hok).
    destruct (st8_keep m d (s + 1) c _ Hok ltac:(unfold is_byte; lia) ltac:(lia) ltac:(lia) (cstr_tail _ _ _ _ Hs))
      as (E1 & Hok1 & Hs1 & Hin).
    destruct (IH fuel (wr m d [c]) (s + 1) (d + 1) t) as (E2 & Hok2 & Hs2 & Hin2); [done..|lia|simpl in Hf; lia|].
    pose proof (Zlen_nonneg e). rewrite Zlen_app in Hl. pose proof (Zlen_nonneg t).
    assert (Hw : wr (wr m d [c]) (d + 1) e = wr m d (c :: e)).
    { change (d + 1) with (d + Zlen [c]). rewrite wr_app; [done|]. change (Zlen [c]) with 1. unfold in_mem in *. lia. }
    rewrite Hw in *. replace (s + 1 + Zlen e) with (s + (1 + Zlen e)) in * by lia.
    replace (d + 1 + Zlen e) with (d + (1 + Zlen e)) in * by lia.
    split_and!; [|done..|unfold in_mem in *; lia]. run_with (ldc_nb0 m s _ Hok Hs).
    unfold nb. cbn [nth]. rewrite SEP_s8, SEP_not by (unfold is_byte; lia || done). run_with E1.
    by rewrite !padd_small by lia.
Qed.

(** Lines 84 to 89, before the next round [K]. *)
Lemma copy_run (K : Z -> Z -> M Z) e t f m s d :
  mem_ok m -> elem e -> ends t -> cstr_at m s (e ++ t) -> 0 <= d <= s -> (length e < f)%nat ->
  let body := ('(s, d) ← copy_element f s d; c ← ldc s;
               if c =? 0 then mret d else _ ← st8 d c; K (s +p 1) (d +p 1)) in
  match t with
  | [] => body m = Some (d + Zlen e, wr m d e) /\ mem_ok (wr m d e) /\ in_mem m d (Zlen e)
  | _ :: u =>
      body m = K (s + (Zlen e + 1)) (d + (Zlen e + 1)) (wr m d (e ++ [47])) /\ mem_ok (wr m d (e ++ [47])) /\
      in_mem m d (Zlen e + 1) /\ cstr_at (wr m d (e ++ [47])) (s + (Zlen e + 1)) u
  end.
Proof.
  intros Hok He Ht Hs Hd Hf body. destruct (copy_element_run e f m s d t) as (E & Hok1 & Hs1 & Hin); [done|apply He|done..|].
  unfold body. rewrite (bind_run _ _ m _ _ E). pose proof (cstr_range _ _ _ Hs1) as [Ha Hl].
  rewrite Zlen_wr in Hl by done. pose proof (proj2 Hok).
  run_with (ldc_nb0 _ _ _ Hok1 Hs1). rewrite s8_zero by (apply nb_byte, Hs1). destruct t as [|c u].
  { by rewrite Z.eqb_refl, ret_run. }
  destruct Ht as [|[u' [= -> <-]]]; [done|]. rewrite Zlen_cons in Hl. unfold nb. cbn [nth].
  rewrite (proj2 (Z.eqb_neq 47 0)) by done.
  destruct (st8_keep (wr m d e) (d + Zlen e) (s + Zlen e + 1) 47 u) as (E2 & Hok2 & Hs2 & Hin2);
    [done|by compute|zpos; lia|lia|by eapply cstr_tail|].
  assert (Hw : wr (wr m d e) (d + Zlen e) [47] = wr m d (e ++ [47])).
  { apply wr_app. change (Zlen [47]) with 1. zpos. unfold in_mem in *. lia. }
  run_with E2. rewrite Hw in *. pose proof (Zlen_nonneg u). pose proof (Zlen_nonneg e). rewrite !padd_small by lia.
  replace (s + Zlen e + 1) with (s + (Zlen e + 1)) in * by lia. rewrite <- Z.add_assoc.
  split_and!; [done..|unfold in_mem in *; lia|done].
Qed.

(** From inside the element that ends before [d], back to its first character. *)
Lemma back_element_run p : forall j fuel m a d0 l,
  mem_ok m -> Forall (fun c => c <> 47) p -> nonul p -> 0 <= a <= d0 -> d0 <= a + Zlen l ->
  (d0 = a + Zlen l \/ exists l', l = l' ++ [47]) -> bytes_at m a (l ++ p) -> (j < length p)%nat -> (j < fuel)%nat ->
  back_element fuel (a + Zlen l + Z.of_nat j) d0 m = Some (a + Zlen l, m).
Proof.
  induction j as [|j IH]; intros [|fuel] m a d0 l Hok Hp Hn Ha Hd0 Hl Hb Hj Hf; try lia; cbn [back_element].
  - rewrite Z.add_0_r. destruct Hl as [->|[l' ->]]; [by rewrite Z.gtb_ltb, Z.ltb_irrefl|].
    destruct (Z.gtb_spec (a + Zlen (l' ++ [47])) d0); [|done].
    pose proof (bytes_at_in _ _ _ Hb) as (_ & _ & Hin). pose proof (proj2 Hok).
    rewrite !Zlen_app in *. change (Zlen [47]) with 1 in *. pose proof (Zlen_nonneg l'). pose proof (Zlen_nonneg p).
    rewrite padd_small by lia. replace (a + (Zlen l' + 1) + -1) with (a + Zlen l') by lia.
    rewrite <- app_assoc in Hb. apply bytes_at_app in Hb as [_ [Hb _]%bytes_at_cons].
    by run_with (ldc_run m _ 47 Hb).
  - pose proof (bytes_at_in _ _ _ Hb) as (_ & _ & Hin). pose proof (proj2 Hok). rewrite !Zlen_app in *.
    pose proof (Zlen_nonneg l). assert (Z.of_nat (S j) < Zlen p) by (unfold Zlen; lia).
    destruct (Z.gtb_spec (a + Zlen l + Z.of_nat (S j)) d0); [|lia]. rewrite padd_small by lia.
    replace (a + Zlen l + Z.of_nat (S j) + -1) with (a + Zlen l + Z.of_nat j) by lia.
    destruct (lookup_lt_is_Some_2 p j) as [c Hc]; [lia|].
    assert (Hlk : lk m (a + Zlen l + Z.of_nat j) = Some c).
    { apply bytes_at_app in Hb as [_ [_ Hb]]. rewrite Hb by lia. unfold lk. rewrite (proj2 (Z.leb_le 0 _)) by lia.
      by rewrite Nat2Z.id. }
    pose proof (proj1 (Forall_lookup _ _) Hp j c Hc) as Hne. pose proof (proj1 (Forall_lookup _ _) Hn j c Hc) as Hr.
    cbv beta in *. run_with (ldc_run m _ c Hlk). rewrite s8_eqb by (unfold is_byte; lia).
    rewrite (proj2 (Z.eqb_neq c 47)) by done. cbn [negb]. apply IH; (done || lia).
Qed.

(** ** All the elements *)

(** The elements kept, the last one first: after [k] times [..], those that
    are not [..]; a rooted name has no [..]. *)
Record rounds (rooted : bool) (m : mem) (base : Z) (k : nat) (rest : list (list Z)) (s d d0 : Z) : Prop := {
  r_ok : mem_ok m;
  r_rest : Forall (fun e => elem e /\ e <> dotdot) rest;
  r_root : rooted = true -> k = 0%nat;
  r_d0 : d0 = base + 3 * Z.of_nat k;
  r_d : d = base + Zlen (flat (rev (rest ++ replicate k dotdot)));
  r_out : bytes_at m base (flat (rev (rest ++ replicate k dotdot)));
  r_le : d <= s }.

Definition kept_at (base : Z) (m : mem) (n : Z) (es : list (list Z)) (r : option (Z * mem)) : Prop :=
  exists m' f, r = Some (base + Zlen f, m') /\ mem_ok m' /\ bytes_at m' base f /\ same_outside base n m m' /\
    Zlen f <= n /\ (f = flat es \/ f ++ [47] = flat es).

Lemma flat_dotdots k : Zlen (flat (replicate k dotdot)) = 3 * Z.of_nat k.
Proof.
  induction k as [|k IH]; [done|]. unfold flat. cbn [replicate map concat]. fold (flat (replicate k dotdot)).
  rewrite Zlen_app, IH. change (Zlen (dotdot ++ [47])) with 3. lia.
Qed.

Lemma flat_rounds rest k :
  Zlen (flat (rev (rest ++ replicate k dotdot))) = 3 * Z.of_nat k + Zlen (flat (rev rest)).
Proof.
  rewrite rev_app_distr, flat_app, Zlen_app. f_equal. rewrite <- (flat_dotdots k). do 2 f_equal.
  rewrite rev_alt. apply reverse_replicate.
Qed.

Lemma flat_pos e es : elem e -> 2 <= Zlen (flat (rev (e :: es))).
Proof.
  intros He. cbn [rev]. rewrite flat_snoc, !Zlen_app. change (Zlen [47]) with 1.
  destruct (elem_cons e He) as (c & e' & -> & _). rewrite Zlen_cons. zpos. lia.
Qed.

Lemma kept_at_done base m n es d :
  mem_ok m -> bytes_at m base (flat es) -> d = base + Zlen (flat es) -> Zlen (flat es) <= n ->
  kept_at base m n es (Some (d, m)).
Proof. intros Hok Hb -> Hn. exists m, (flat es). split_and!; eauto using outside_refl. Qed.

Lemma kept_at_weak base m m1 n n1 es r :
  same_outside base n m m1 -> n1 <= n -> kept_at base m1 n1 es r -> kept_at base m n es r.
Proof.
  intros Hs Hn (m' & f & -> & Hok & Hb & Hs' & Hf & He). exists m', f. split_and!; [done..| |lia|done].
  eapply outside_trans; [done|]. eapply same_outside_sub; [done|lia|lia].
Qed.

(** The state after an element is kept. *)
Lemma rounds_push rooted m base k rest s d d0 e :
  rounds rooted m base k rest s d d0 -> elem e -> in_mem m d (Zlen e + 1) -> s + (Zlen e + 1) < 2 ^ 32 - 8 ->
  mem_ok (wr m d (e ++ [47])) -> 0 <= base ->
  (e <> dotdot -> rounds rooted (wr m d (e ++ [47])) base k (e :: rest) (s + (Zlen e + 1)) (d + (Zlen e + 1)) d0) /\
  (e = dotdot -> rest = [] -> rooted = false ->
   rounds rooted (wr m d (e ++ [47])) base (S k) [] (s + (Zlen e + 1)) (d + (Zlen e + 1)) (d0 +p 3)).
Proof.
  intros [Hok0 Hrest Hroot Hd0 Hd Hout Hle] He Hin Hs Hok Hb.
  assert (Hw : bytes_at (wr m d (e ++ [47])) base (flat (rev (rest ++ replicate k dotdot)) ++ e ++ [47])).
  { assert (Hi : in_mem m d (Zlen (e ++ [47]))) by (rewrite Zlen_app; exact Hin). apply bytes_at_app. split.
    - apply bytes_at_wr_out; [done|done|]. lia.
    - rewrite <- Hd. by apply bytes_at_wr. }
  split; intros Hed; [|intros -> ->]; split; try done; try lia.
  - by constructor.
  - cbn [app rev]. rewrite flat_snoc, !Zlen_app in *. change (Zlen [47]) with 1. lia.
  - cbn [app rev]. by rewrite flat_snoc.
  - rewrite padd_small; [lia|]. pose proof (flat_rounds [] k) as Hf. cbn [app] in *.
    change (Zlen (flat (rev []))) with 0 in Hf. subst e. change (Zlen dotdot) with 2 in *. lia.
  - cbn [app replicate rev] in *. subst e. rewrite flat_snoc, !Zlen_app. change (Zlen [47]) with 1. lia.
  - cbn [app replicate rev] in *. subst e. by rewrite flat_snoc.
Qed.

Lemma rounds_start rooted m base k rest s d d0 :
  rounds rooted m base k rest s d d0 -> d0 <= d /\ (d =? d0) = bool_decide (rest = []) /\ (rest <> [] -> d0 + 2 <= d).
Proof.
  intros [_ Hrest _ Hd0 Hd _ _]. rewrite flat_rounds in Hd. destruct rest as [|p rest].
  - change (Zlen (flat (rev []))) with 0 in Hd. rewrite bool_decide_true by done. split; [lia|]. split; [|done].
    apply Z.eqb_eq. lia.
  - apply Forall_cons in Hrest as [[Hp _] _]. pose proof (flat_pos p rest Hp). rewrite bool_decide_false by done.
    split; [lia|]. split; [apply Z.eqb_neq; lia|lia].
Qed.

Lemma rounds_skip rooted m base k rest s d d0 n :
  rounds rooted m base k rest s d d0 -> 0 <= n -> rounds rooted m base k rest (s + n) d d0.
Proof. intros [] Hn. split; try done. lia. Qed.

(** Lines 75 and 76: the last element is taken away. *)
Lemma rounds_pop rooted m base k p rest s d d0 :
  rounds rooted m base k (p :: rest) s d d0 -> 0 <= base ->
  exists d1, ldc (d +p (-1)) m = Some (47, m) /\ (d +p (-2) >=? d0) = true /\
    back_element (S (length m)) (d +p (-2)) d0 m = Some (d1, m) /\ rounds rooted m base k rest s d1 d0.
Proof.
  intros HR Hb. destruct (rounds_start _ _ _ _ _ _ _ _ HR) as (_ & _ & H2). specialize (H2 ltac:(done)).
  destruct HR as [Hok Hrest Hroot Hd0 Hd Hout Hle]. apply Forall_cons in Hrest as [[He Hdd] Hrest].
  destruct He as (Hne & Hsl & Hnn). set (l := flat (rev (rest ++ replicate k dotdot))) in *.
  cbn [app rev] in Hd, Hout. rewrite flat_snoc in Hd, Hout. fold l in Hd, Hout.
  rewrite !Zlen_app in Hd. change (Zlen [47]) with 1 in Hd. pose proof (bytes_at_in _ _ _ Hout) as (_ & _ & Hin).
  rewrite !Zlen_app in Hin. change (Zlen [47]) with 1 in Hin. pose proof (proj2 Hok). pose proof (Zlen_nonneg l).
  assert (Hp : 1 <= Zlen p) by (destruct p; [done|rewrite Zlen_cons; zpos; lia]).
  rewrite !padd_small by lia. exists (base + Zlen l). rewrite app_assoc in Hout.
  apply bytes_at_app in Hout as [Hout [Hlast _]%bytes_at_cons]. rewrite Zlen_app in Hlast. split_and!.
  - rewrite (ldc_run m _ 47); [done|]. by replace (d + -1) with (base + (Zlen l + Zlen p)) by lia.
  - rewrite Z.geb_leb. apply Z.leb_le. lia.
  - replace (d + -2) with (base + Zlen l + Z.of_nat (length p - 1)) by (unfold Zlen in *; lia).
    apply (back_element_run p); try done; try (unfold Zlen in *; lia).
    + unfold l. rewrite flat_rounds. pose proof (Zlen_nonneg (flat (rev rest))). lia.
    + destruct rest as [|q rest]; [left|right].
      * unfold l. rewrite flat_rounds. change (Zlen (flat (rev []))) with 0. lia.
      * apply flat_last. cbn [app rev]. intros Hnil. by apply app_eq_nil in Hnil as [_ ?].
  - split; try done. + apply bytes_at_app in Hout as [? _]. done. + unfold l in *. lia.
Qed.

(** A later round starts behind the element, if there is one. *)
Lemma next_round (K : Z -> M Z) m s e t d n :
  mem_ok m -> cstr_at m s (e ++ t) -> ends t -> Zlen e = n -> 0 <= s ->
  (c ← ldc (s +p n); if c =? 0 then mret d else K (s +p (n + 1))) m =
    match t with [] => Some (d, m) | _ => K (s + n + 1) m end.
Proof.
  intros Hok Hs Ht <- H0. run_with (ldc_nb m s _ (Zlen e) Hok Hs ltac:(rewrite Zlen_app; zpos; lia)).
  rewrite s8_zero by (apply nb_byte, Hs). rewrite to_nat_Zlen.
  assert (Hnb : nb (e ++ t) (length e) = nb t 0).
  { unfold nb. rewrite app_nth2 by lia. by rewrite Nat.sub_diag. }
  rewrite Hnb. destruct Ht as [->|[u ->]]; [done|]. pose proof (cstr_range _ _ _ Hs) as [_ Hl].
  rewrite Zlen_app, Zlen_cons in Hl. pose proof (proj2 Hok). pose proof (Zlen_nonneg u). pose proof (Zlen_nonneg e).
  cbn. rewrite padd_small by lia. f_equal. lia.
Qed.

Lemma text_ends e es b : exists t, text (e :: es) b = e ++ t /\ ends t /\
  ((t = [] /\ es = []) \/ t = 47 :: text es b).
Proof.
  destruct (text_cons e es b) as [[-> ->]| ->].
  - exists []. rewrite app_nil_r. split_and!; [done|by left|by left].
  - exists (47 :: text es b). split_and!; [done|right; by eexists|by right].
Qed.

Lemma step_push rooted out e : elem e -> e <> dot -> e <> dotdot -> step rooted out e = e :: out.
Proof. intros (Hne & _) H1 H2. unfold step. rewrite decide_False by tauto. by rewrite decide_False. Qed.

Lemma step_dot rooted out : step rooted out dot = out.
Proof. unfold step. by rewrite decide_True by auto. Qed.

Lemma step_pop rooted out p : p <> dotdot -> step rooted (p :: out) dotdot = out.
Proof. intros H. unfold step. rewrite decide_False by (intros [?|?]; discriminate). rewrite decide_True by done. by rewrite decide_False. Qed.

Lemma step_up k : step false (replicate k dotdot) dotdot = replicate (S k) dotdot.
Proof. by destruct k. Qed.

(** A last element without a slash after it. *)
Lemma kept_last m base d n e es :
  mem_ok (wr m d e) -> in_mem m d (Zlen e) -> bytes_at m base (flat es) -> d = base + Zlen (flat es) -> 0 <= base ->
  Zlen (flat es) + Zlen e <= n -> kept_at base m n (es ++ [e]) (Some (d + Zlen e, wr m d e)).
Proof.
  intros Hok Hin Hb -> H0 Hn. exists (wr m (base + Zlen (flat es)) e), (flat es ++ e). rewrite Zlen_app.
  split_and!; [do 2 f_equal; lia|done| | |done|right; by rewrite flat_snoc, app_assoc].
  - apply bytes_at_app. split; [|by apply bytes_at_wr]. apply bytes_at_wr_out; [done..|lia].
  - eapply same_outside_sub; [by apply wr_same_outside|zpos; lia|lia].
Qed.

Section Round.
Context (b rooted : bool) (es : list (list Z)) (e : list Z) (base : Z) (fuel : nat).

(** The rest of the loop, for the elements after [e]. *)
Hypothesis IH : forall m1 k1 rest1 s1 d1 d01,
  rounds rooted m1 base k1 rest1 s1 d1 d01 -> cstr_at m1 s1 (text es b) -> (length (text es b) < fuel)%nat ->
  kept_at base m1 (s1 + Zlen (text es b) - base) (rev (foldl (step rooted) (rest1 ++ replicate k1 dotdot) es))
    (elements_loop fuel rooted s1 d1 d01 m1).

Context (m : mem) (k : nat) (rest : list (list Z)) (s d d0 : Z) (t : list Z).
Hypothesis HR : rounds rooted m base k rest s d d0.
Hypothesis He : elem e.
Hypothesis Hs : cstr_at m s (e ++ t).
Hypothesis Hb : 0 <= base.
Hypothesis Hf : (length e + length t < S fuel)%nat.
Hypothesis Ht : (t = [] /\ es = []) \/ t = 47 :: text es b.

Notation out := (rest ++ replicate k dotdot).
Notation n := (s + (Zlen e + Zlen t) - base).
Notation goal := (kept_at base m n (rev (foldl (step rooted) (step rooted out e) es))).

Lemma round_range : 0 <= s /\ s + Zlen e + Zlen t < 2 ^ 32 - 2 ^ 17 /\ 1 <= Zlen e.
Proof using HR He Hs.
  clear IH Hf Ht.
  pose proof (cstr_range _ _ _ Hs) as [Hs0 Hlim]. pose proof (proj2 (r_ok _ _ _ _ _ _ _ _ HR)).
  rewrite Zlen_app in Hlim. destruct (elem_cons e He) as (c & e' & -> & _). rewrite Zlen_cons in *. zpos. lia.
Qed.

Lemma round_go m1 k1 rest1 d1 d01 :
  rounds rooted m1 base k1 rest1 (s + (Zlen e + 1)) d1 d01 -> cstr_at m1 (s + (Zlen e + 1)) (text es b) ->
  same_outside base n m m1 -> t = 47 :: text es b -> step rooted out e = rest1 ++ replicate k1 dotdot ->
  goal (elements_loop fuel rooted (s + (Zlen e + 1)) d1 d01 m1).
Proof using All.
  intros HR1 Hs1 Hsame Et ->. eapply kept_at_weak; [exact Hsame| |apply IH; try done].
  - rewrite Et, Zlen_cons. lia.
  - rewrite Et in Hf. simpl in Hf. lia.
Qed.

(** The element is not kept: the loop ends, or goes on behind it. *)
Lemma round_next k1 rest1 d1 d01 :
  rounds rooted m base k1 rest1 s d1 d01 -> step rooted out e = rest1 ++ replicate k1 dotdot ->
  goal ((c ← ldc (s +p Zlen e);
         if c =? 0 then mret d1 else elements_loop fuel rooted (s +p (Zlen e + 1)) d1 d01) m).
Proof using All.
  intros HR1 Est. pose proof round_range as (H0 & Hlim & _). pose proof HR1 as [Hok _ _ _ Hd1 Hout1 Hle1].
  rewrite (next_round (fun s => elements_loop fuel rooted s d1 d01) m s e t d1 (Zlen e)); try done.
  2: { destruct Ht as [[-> _]| ->]; [by left|right; by eexists]. }
  destruct Ht as [[-> ->]|Et].
  - cbn [foldl]. rewrite Est. apply kept_at_done; [done..|]. zpos. lia.
  - rewrite Et. cbv iota beta. rewrite <- Et. replace (s + Zlen e + 1) with (s + (Zlen e + 1)) by lia.
    apply (round_go m k1 rest1); [apply rounds_skip; [done|zpos; lia]| |apply outside_refl|done|done].
    rewrite Et in Hs. apply cstr_app, cstr_tail in Hs. by rewrite Z.add_assoc.
Qed.

(** The element is kept. *)
Lemma round_copy k1 rest1 d01 :
  (in_mem m d (Zlen e + 1) -> mem_ok (wr m d (e ++ [47])) ->
   rounds rooted (wr m d (e ++ [47])) base k1 rest1 (s + (Zlen e + 1)) (d + (Zlen e + 1)) d01) ->
  step rooted out e = rest1 ++ replicate k1 dotdot -> step rooted out e = e :: out ->
  goal (('(s, d) ← copy_element (S (length m)) s d; c ← ldc s;
         if c =? 0 then mret d else _ ← st8 d c; elements_loop fuel rooted (s +p 1) (d +p 1) d01) m).
Proof using All.
  intros HR1 Est Epush. pose proof round_range as (H0 & Hlim & _). pose proof HR as [Hok _ _ _ Hd Hout Hle].
  assert (Hends : ends t) by (destruct Ht as [[-> _]| ->]; [by left|right; by eexists]).
  pose proof (cstr_fuel _ _ _ Hs) as Hfu. rewrite length_app in Hfu. pose proof (Zlen_nonneg (flat (rev out))).
  pose proof (copy_run (fun s d => elements_loop fuel rooted s d d01) e t (S (length m)) m s d
    Hok He Hends Hs ltac:(lia) ltac:(lia)) as Hrun. cbv zeta beta in Hrun. destruct Ht as [[Et Ees]|Et].
  - rewrite Et in Hrun. destruct Hrun as (-> & Hok1 & Hin). rewrite Ees. cbn [foldl]. rewrite Epush. cbn [rev].
    apply kept_last; try done. pose proof (Zlen_nonneg t). lia.
  - rewrite Et in Hrun. destruct Hrun as (-> & Hok1 & Hin & Hs1).
    apply (round_go _ k1 rest1); [by apply HR1|done| |done|done].
    eapply same_outside_sub; [apply wr_same_outside|lia|]; rewrite Zlen_app; change (Zlen [47]) with 1; [done|].
    rewrite Et, Zlen_cons. zpos. lia.
Qed.

End Round.

Lemma elements_round b rooted es e base fuel m k rest s d d0 t :
  (forall m1 k1 rest1 s1 d1 d01,
    rounds rooted m1 base k1 rest1 s1 d1 d01 -> cstr_at m1 s1 (text es b) -> (length (text es b) < fuel)%nat ->
    kept_at base m1 (s1 + Zlen (text es b) - base) (rev (foldl (step rooted) (rest1 ++ replicate k1 dotdot) es))
      (elements_loop fuel rooted s1 d1 d01 m1)) ->
  rounds rooted m base k rest s d d0 -> elem e -> cstr_at m s (e ++ t) -> 0 <= base ->
  (length e + length t < S fuel)%nat -> (t = [] /\ es = []) \/ t = 47 :: text es b ->
  kept_at base m (s + (Zlen e + Zlen t) - base)
    (rev (foldl (step rooted) (step rooted (rest ++ replicate k dotdot) e) es)) (elements_loop (S fuel) rooted s d d0 m).
Proof.
  intros IH HR He Hs Hb Hf Ht. destruct (round_range rooted e base m k rest s d d0 t HR He Hs) as (H0 & Hlim & Hlen).
  pose proof HR as [Hok Hrest Hroot Hd0 Hd Hout Hle]. pose proof (Zlen_nonneg t).
  assert (Hends : ends t) by (destruct Ht as [[-> _]| ->]; [by left|right; by eexists]).
  cbn [elements_loop]. run_with (ldc_nb0 m s _ Hok Hs).
  assert (Hc0 : (s8 (nb (e ++ t) 0) =? 0) = false).
  { rewrite s8_zero by apply nb_byte, Hs. destruct (elem_cons e He) as (c & e' & -> & Hc & _). unfold nb.
    cbn [app nth]. apply Z.eqb_neq. lia. }
  rewrite Hc0. unfold memfuel. erewrite bind_run by done. run_with (is_dot_run m s e t Hok He Hends Hs).
  pose proof (round_next b rooted es e base fuel IH m k rest s d d0 t HR He Hs Hb Hf Ht) as Hnext.
  pose proof (fun k1 rest1 d01 => round_copy b rooted es e base fuel IH m k rest s d d0 t HR He Hs Hb Hf Ht k1 rest1 d01) as Hcopy.
  pose proof (rounds_push rooted m base k rest s d d0 e HR He) as Hpush.
  destruct (decide (e = dot)) as [Ed|Hdot].
  { rewrite bool_decide_true by done. specialize (Hnext k rest d d0 HR). rewrite Ed in Hnext |- *.
    apply Hnext. by rewrite step_dot. }
  rewrite bool_decide_false by done. run_with (is_dotdot_run m s e t Hok He Hends Hs).
  destruct (rounds_start _ _ _ _ _ _ _ _ HR) as (_ & -> & Hd2). cbv zeta.
  destruct (decide (e = dotdot)) as [Ed|Hdd]; [rewrite bool_decide_true by done|rewrite bool_decide_false by done]; cbn [andb].
  - destruct rest as [|p rest]; [rewrite bool_decide_true by done|rewrite bool_decide_false by done]; cbn [andb].
    + destruct rooted; cbn [andb negb].
      * specialize (Hnext k [] d d0 HR). rewrite Ed in Hnext |- *. apply Hnext. by rewrite Hroot.
      * replace (d >? d0 +p 3) with false.
        2: { symmetry. rewrite Z.gtb_ltb. apply Z.ltb_ge. pose proof (flat_rounds [] k) as Hfl. cbn [app] in *.
             change (Zlen (flat (rev []))) with 0 in Hfl. rewrite padd_small by lia. lia. }
        cbn [app] in Hcopy |- *. apply (Hcopy (S k) []); [|by rewrite Ed, step_up|by rewrite Ed, step_up].
        intros Hin Hokw. apply Hpush; try done. lia.
    + destruct (rounds_pop _ _ _ _ _ _ _ _ _ HR Hb) as (d1 & E1 & E2 & E3 & HR1).
      replace (d >? d0) with true by (symmetry; rewrite Z.gtb_ltb; apply Z.ltb_lt; specialize (Hd2 ltac:(done)); lia).
      run_with E1. rewrite E2, Z.eqb_refl. cbn [andb negb]. run_with E3.
      specialize (Hnext k rest d1 d0 HR1). rewrite Ed in Hnext |- *. apply Hnext. cbn [app]. apply step_pop.
      by apply Forall_cons in Hrest as [[_ ?] _].
  - apply (Hcopy k (e :: rest)); [|by apply step_push..]. intros Hin Hokw. apply Hpush; try done. lia.
Qed.

Lemma elements_run b rooted : forall es fuel m base k rest s d d0,
  rounds rooted m base k rest s d d0 -> Forall elem es -> cstr_at m s (text es b) -> 0 <= base ->
  (length (text es b) < fuel)%nat ->
  kept_at base m (s + Zlen (text es b) - base) (rev (foldl (step rooted) (rest ++ replicate k dotdot) es))
    (elements_loop fuel rooted s d d0 m).
Proof.
  induction es as [|e es IH]; intros [|fuel] m base k rest s d d0 HR Hes Hs Hb Hf; try lia.
  - cbn [elements_loop]. pose proof HR as [Hok _ _ _ Hd Hout Hle]. run_with (ldc_nb0 m s _ Hok Hs). cbn [foldl].
    apply kept_at_done; [done..|]. zpos. lia.
  - apply Forall_cons in Hes as [He Hes]. destruct (text_ends e es b) as (t & Et & Hends & Ht).
    rewrite Et, length_app in Hf. rewrite Et in Hs |- *. rewrite Zlen_app. cbn [foldl]. eapply elements_round; eauto.
Qed.
