(* ===== verification/NamesThm.v ===== *)
(** The theorems about [cleanname]: it computes the specification of [Names],
    a cleaned name is in shortest form and stays as it is, and the name of a
    device with no slash after it is read past its end. *)

From S2P Require Import Prelude Mem CString Rune Chars Names.

Local Open Scope c_scope.

(** * Lemmas *)

(** ** The elements kept *)

Lemma foldl_solid rooted es : forall out,
  foldl (step rooted) out (filter (fun e => e <> []) es) = foldl (step rooted) out es.
Proof.
  induction es as [|e es IH]; intros out; [done|]. destruct (decide (e = [])) as [->|He].
  - rewrite filter_cons_False by auto. apply IH.
  - rewrite filter_cons_True by done. cbn [foldl]. apply IH.
Qed.

Lemma kept_solid rooted s : kept rooted (split_slash s) = rev (foldl (step rooted) [] (solid s)).
Proof. unfold kept, solid. by rewrite foldl_solid. Qed.

Lemma elem_dotdot : elem dotdot.
Proof. split_and!; [done|by repeat constructor|repeat constructor; lia]. Qed.

Lemma step_elem rooted out e : elem e -> Forall elem out -> Forall elem (step rooted out e).
Proof.
  intros He Ho. unfold step. destruct (decide _); [done|]. destruct (decide _); [|by constructor].
  destruct out as [|p out].
  - destruct rooted; [done|]. apply Forall_singleton, elem_dotdot.
  - destruct (decide _); [constructor; [exact elem_dotdot|done]|by apply Forall_cons in Ho as [_ ?]].
Qed.

Lemma kept_elem rooted s : nonul s -> Forall elem (kept rooted (split_slash s)).
Proof.
  intros Hn. rewrite kept_solid. apply Forall_rev. pose proof (solid_elems s Hn) as He.
  assert (H : Forall elem (@nil (list Z))) by constructor. revert H. generalize (@nil (list Z)).
  induction (solid s) as [|e es IH]; intros out Ho; [done|]. apply Forall_cons in He as [He Hes].
  cbn [foldl]. apply IH; [done|]. by apply step_elem.
Qed.

Lemma flat_nonul es : Forall elem es -> nonul (flat es).
Proof.
  induction 1 as [|e es (_ & _ & He) Hes IH]; [constructor|]. unfold flat. cbn [map concat].
  unfold nonul. rewrite !Forall_app. split_and!; [done|repeat constructor; lia|done].
Qed.

Lemma flat_join es : es <> [] -> flat es = join es ++ [47].
Proof. intros H. by rewrite <- flat_text, text_join. Qed.

Lemma join_last es : es <> [] -> Forall elem es -> exists l c, join es = l ++ [c] /\ c <> 47.
Proof.
  intros Hne He. destruct es as [|e es _] using rev_ind; [done|]. apply Forall_app in He as [_ [(H1 & H2 & _) _]%Forall_cons].
  destruct e as [|c e _] using rev_ind; [done|]. exists (flat es ++ e), c. apply Forall_app in H2 as [_ [H2 _]%Forall_cons].
  split; [|done]. apply (app_inj_2 _ _ [47] [47]); [done|]. rewrite <- flat_join by (by destruct es).
  rewrite flat_snoc. by rewrite <- !app_assoc.
Qed.

(** ** The end of the name *)

Definition strip (w : list Z) : list Z :=
  if decide ((1 < length w)%nat /\ last w = Some 47) then take (length w - 1) w else w.

Lemma strip_snoc l c : strip (l ++ [c]) = if decide (l <> [] /\ c = 47) then l else l ++ [c].
Proof.
  unfold strip. rewrite last_snoc, length_app. cbn [length]. destruct (decide (l <> [] /\ c = 47)) as [[Hl ->]|Hn].
  - rewrite decide_True by (destruct l; [done|simpl; split; [lia|done]]).
    replace (length l + 1 - 1)%nat with (length l) by lia. by rewrite take_app_length.
  - rewrite decide_False; [done|]. intros [H1 [= H2]]. apply Hn. split; [|done]. intros ->. simpl in H1. lia.
Qed.

(** What remains of a root [P] and the text of the elements [es]. *)
Lemma strip_name P es f :
  f = flat es \/ f ++ [47] = flat es -> Forall elem es -> P = [] \/ last P = Some 47 ->
  strip (P ++ f) = if decide (es = []) then strip P else P ++ join es.
Proof.
  intros Hf He HP. destruct (decide (es = [])) as [->|Hne].
  { destruct Hf as [->|Hf]; [by rewrite app_nil_r|]. by apply app_eq_nil in Hf as [_ ?]. }
  rewrite flat_join in Hf by done. destruct (join_last es Hne He) as (l & c & Hj & Hc). rewrite Hj in *.
  destruct Hf as [->|Hf].
  - rewrite (app_assoc P (l ++ [c])), strip_snoc, decide_True; [done|]. split; [|done].
    intros H. apply app_eq_nil in H as [_ H]. by apply app_eq_nil in H as [_ ?].
  - apply app_inj_2 in Hf as [-> _]; [|done]. rewrite (app_assoc P l), strip_snoc, decide_False; [done|]. by intros [_ ?].
Qed.

Definition or_dot (w : list Z) : list Z := if decide (w = []) then dot else w.

Lemma strcpy_dot_run m name :
  mem_ok m -> in_mem m name 2 -> strcpy_dot name m = Some (name, wr m name [46; 0]) /\
  cstr_at (wr m name [46; 0]) name dot.
Proof.
  intros Hok Hin. pose proof Hin as (H0 & _ & Hl). pose proof (proj2 Hok). split.
  - unfold strcpy_dot. erewrite bind_run by (apply st8_run; unfold in_mem; lia). rewrite padd_small by lia.
    change (u8 46) with 46. erewrite bind_run.
    2: { apply st8_run. rewrite in_mem_wr; unfold in_mem; change (Zlen [46]) with 1; lia. }
    rewrite ret_run. do 2 f_equal. change (u8 0) with 0. change (name + 1) with (name + Zlen [46]).
    rewrite wr_app; [done|]. exact Hin.
  - split; [by repeat constructor|]. apply (bytes_at_wr m name [46; 0]). exact Hin.
Qed.

Lemma clean_end_run m name w :
  mem_ok m -> 0 < name -> in_mem m name 2 -> cstr_at m name w ->
  exists m', clean_end name (name + Zlen w) m = Some (name, m') /\ mem_ok m' /\ cstr_at m' name (or_dot (strip w)) /\
    same_outside name (Z.max 2 (Zlen w + 1)) m m'.
Proof.
  intros Hok Hname Hin Hw. pose proof (cstr_range _ _ _ Hw) as [_ Hl]. pose proof (proj2 Hok). unfold clean_end.
  destruct w as [|c l _] using rev_ind.
  { change (Zlen []) with 0 in *. rewrite Z.add_0_r, padd_small by lia.
    destruct (Z.gtb_spec (name + -1) name); [lia|]. rewrite !(bind_run _ _ m _ m (ret_run _ m)). cbv iota.
    run_with (ldc_nb0 m name [] Hok Hw). change (s8 (nb [] 0) =? 0) with true. cbv iota.
    destruct (strcpy_dot_run m name Hok Hin) as [-> Hd].
    eexists. split_and!; [done|apply mem_ok_wr; [done|by repeat constructor|done]|done|].
    apply (wr_same_outside m name [46; 0]). exact Hin. }
  assert (Hnb : forall m1 u, mem_ok m1 -> cstr_at m1 name u -> u <> [] ->
    (c ← ldc name; if c =? 0 then strcpy_dot name else mret name) m1 = Some (name, m1)).
  { intros m1 u Hok1 Hu Hne. run_with (ldc_nb0 m1 name u Hok1 Hu). rewrite s8_zero by (apply nb_byte, Hu).
    destruct u as [|c' u]; [done|]. apply cstr_cons in Hu as (_ & Hc' & _). unfold nb. cbn [nth].
    by rewrite (proj2 (Z.eqb_neq c' 0)) by lia. }
  destruct (cstr_last _ _ _ _ Hw) as [Hc Hcr]. rewrite Zlen_app in *. change (Zlen [c]) with 1 in *.
  pose proof (Zlen_nonneg l). rewrite padd_small by lia. replace (name + (Zlen l + 1) + -1) with (name + Zlen l) by lia.
  rewrite strip_snoc, Z.gtb_ltb. destruct (decide (l <> [] /\ c = 47)) as [[Hl1 ->]|Hno].
  - assert (1 <= Zlen l) by (destruct l; [done|rewrite Zlen_cons; zpos; lia]).
    destruct (Z.ltb_spec name (name + Zlen l)); [|lia].
    rewrite (bind_run _ _ m true m) by (by run_with (ldc_run m _ 47 Hc)). cbv iota.
    assert (Hi1 : in_mem m (name + Zlen l) 1) by (unfold in_mem; lia).
    erewrite bind_run by (by apply st8_run). change (u8 0) with 0.
    assert (Hok1 : mem_ok (wr m (name + Zlen l) [0])) by (apply mem_ok_wr; [done|by repeat constructor|done]).
    pose proof (cstr_cut m name l [47] Hok Hw) as Hcut. rewrite (Hnb _ l Hok1 Hcut Hl1). unfold or_dot.
    rewrite decide_False by done. eexists. split_and!; [done..|].
    eapply same_outside_sub; [by apply wr_same_outside|lia|]. change (Zlen [0]) with 1. lia.
  - rewrite (bind_run _ _ m false m).
    2: { destruct (Z.ltb_spec name (name + Zlen l)); [|done]. run_with (ldc_run m _ c Hc).
         rewrite ret_run, s8_eqb by (unfold is_byte; lia). do 2 f_equal. apply Z.eqb_neq. intros ->. apply Hno.
         split; [|done]. intros ->. change (Zlen (@nil Z)) with 0 in *. lia. }
    erewrite bind_run by (apply ret_run). rewrite (Hnb m _ Hok Hw) by (by destruct l). unfold or_dot.
    rewrite decide_False by (by destruct l). eexists. split_and!; [done..|apply outside_refl].
Qed.

Lemma squeeze_nonul u : nonul u -> nonul (squeeze u).
Proof.
  induction u as [|c u IH]; [done|]. intros Hu. apply Forall_cons in Hu as [Hc Hu].
  cbn [squeeze]. destruct (_ && _); [auto|]. constructor; [done|]. by apply IH.
Qed.

(** Lines 43 to 49. *)
Lemma squeeze_run m d0 s u fuel :
  mem_ok m -> cstr_at m s u -> 0 <= d0 <= s -> (length u < fuel)%nat ->
  let m2 := wr m d0 (squeeze u ++ [0]) in
  squeeze_loop fuel s d0 m = Some (d0 + Zlen (squeeze u), wr m d0 (squeeze u)) /\
  st8 (d0 + Zlen (squeeze u)) 0 (wr m d0 (squeeze u)) = Some (tt, m2) /\
  mem_ok m2 /\ cstr_at m2 d0 (squeeze u) /\ in_mem m d0 (Zlen (squeeze u ++ [0])).
Proof.
  intros Hok Hu H0 Hf m2. pose proof (squeeze_le u) as Hq. pose proof (Zlen_nonneg (squeeze u)).
  pose proof (cstr_range _ _ _ Hu) as [_ Hl]. pose proof (squeeze_nonul u (proj1 Hu)) as Hnu.
  assert (Hin : in_mem m d0 (Zlen (squeeze u) + Zlen [0])) by (unfold in_mem; change (Zlen [0]) with 1; lia).
  assert (Hin2 : in_mem m d0 (Zlen (squeeze u ++ [0]))) by (by rewrite Zlen_app).
  split_and!; [by apply squeeze_loop_run| | | |done].
  - assert (in_mem m d0 (Zlen (squeeze u))) by (unfold in_mem in *; lia).
    rewrite st8_run by (apply in_mem_wr; [done|]; unfold in_mem in *; change (Zlen [0]) with 1 in *; lia).
    change (u8 0) with 0. unfold m2. by rewrite wr_app.
  - apply mem_ok_wr; [done| |done]. apply Forall_app. split; [by apply nonul_bytes|by repeat constructor].
  - split; [done|by apply bytes_at_wr].
Qed.

(** Lines 36 to 91. *)
Lemma clean_core_run m d0 t rooted (K : Z -> M Z) :
  mem_ok m -> cstr_at m d0 t -> (rooted = false -> nb t 0 <> 47) ->
  exists m' f, (fuel ← memfuel;
      s ← (if rooted then skip_slashes fuel d0 else mret d0);
      d ← squeeze_loop fuel s d0;
      _ ← st8 d 0;
      d ← elements_loop fuel rooted d0 d0 d0;
      _ ← st8 d 0; K d) m = K (d0 + Zlen f) m' /\ mem_ok m' /\ cstr_at m' d0 f /\
    same_outside d0 (Zlen t + 1) m m' /\ Zlen f <= Zlen t /\
    (f = flat (kept rooted (split_slash t)) \/ f ++ [47] = flat (kept rooted (split_slash t))).
Proof.
  intros Hok Ht Hroot. pose proof (cstr_range _ _ _ Ht) as [H0 Hl]. pose proof (proj2 Hok).
  set (u := if rooted then drop_slashes t else t).
  assert (Hu : cstr_at m (d0 + (Zlen t - Zlen u)) u /\ 0 <= Zlen t - Zlen u /\ nb u 0 <> 47 /\ solid u = solid t).
  { unfold u. destruct rooted.
    - destruct (drop_slashes_cstr m d0 t Ht). split_and!; [done..| |apply solid_drop].
      clear. induction t as [|c t IH]; [done|]. cbn [drop_slashes]. by destruct (Z.eqb_spec c 47).
    - rewrite Z.sub_diag, Z.add_0_r. split_and!; [done|lia|auto|done]. }
  destruct Hu as (Hu & Hul & Hu0 & Hsol). unfold memfuel at 1. erewrite bind_run by done.
  rewrite (bind_run _ _ m (d0 + (Zlen t - Zlen u)) m).
  2: { unfold u. destruct rooted; [|by rewrite Z.sub_diag, Z.add_0_r].
       apply skip_slashes_run; [done..|by eapply cstr_fuel]. }
  destruct (squeeze_run m d0 (d0 + (Zlen t - Zlen u)) u (S (length m))) as (Hsq & Hst & Hok2 & Hs2 & Hin2);
    [done|done|lia|pose proof (cstr_fuel _ _ _ Hu); lia|].
  pose proof (squeeze_le u) as Hq. pose proof (Zlen_nonneg (squeeze u)). pose proof (Zlen_nonneg u).
  rewrite (bind_run _ _ m _ _ Hsq). run_with Hst. set (m2 := wr m d0 (squeeze u ++ [0])) in *.
  destruct (squeeze_text (length u) u ltac:(lia) Hu0) as [b Hb]. rewrite Hsol in Hb.
  destruct (elements_run b rooted (solid t) (S (length m)) m2 d0 0 [] d0 d0 d0) as (m3 & f & Hr & Hok3 & Hf3 & Hs3 & Hfl & Hfe).
  - split; try done; [lia|change (Zlen (flat _)) with 0; lia|]. apply bytes_at_nil. unfold m2. rewrite Zlen_wr by done. lia.
  - apply solid_elems. apply Ht.
  - by rewrite <- Hb.
  - done.
  - rewrite <- Hb. pose proof (cstr_fuel _ _ _ Hs2) as Hfu. pose proof (Zlen_wr m d0 _ Hin2) as Hw. fold m2 in Hw.
    unfold Zlen in Hw. lia.
  - rewrite (bind_run _ _ m2 _ _ Hr). cbn [app replicate] in Hfe. rewrite <- kept_solid in Hfe. rewrite <- Hb in Hs3, Hfl.
    pose proof (kept_elem rooted t (proj1 Ht)) as Hke. pose proof (flat_nonul _ Hke) as Hfn.
    assert (Hf0 : nonul f) by (destruct Hfe as [->|Hfe]; [done|rewrite <- Hfe in Hfn; by apply Forall_app in Hfn as [? _]]).
    assert (Hl3 : Zlen m3 = Zlen m) by (rewrite (proj1 Hs3); by apply Zlen_wr).
    assert (Hi3 : in_mem m3 (d0 + Zlen f) 1) by (unfold in_mem; zpos; lia).
    erewrite bind_run by (by apply st8_run). change (u8 0) with 0. exists (wr m3 (d0 + Zlen f) [0]), f.
    split_and!; [done|apply mem_ok_wr; [done|by repeat constructor|done]| | |lia|done].
    + split; [done|]. apply bytes_at_app. split; [|by apply bytes_at_wr]. apply bytes_at_wr_out; [done|done|lia].
    + eapply outside_trans; [eapply same_outside_sub; [apply wr_same_outside, Hin2|lia|rewrite Zlen_app; change (Zlen [0]) with 1; lia]|].
      eapply outside_trans; (eapply same_outside_sub; [|..]); [exact Hs3|lia|lia|by apply wr_same_outside|zpos; lia|].
      change (Zlen [0]) with 1. lia.
Qed.

Lemma clean_from_run m name P t (rooted : bool) :
  mem_ok m -> 0 < name -> in_mem m name 2 -> cstr_at m name (P ++ t) ->
  (if rooted then last P = Some 47 else P = [] /\ nb t 0 <> 47) ->
  let body := kept rooted (split_slash t) in
  exists m', clean_from name (name + Zlen P) rooted m = Some (name, m') /\ mem_ok m' /\
    cstr_at m' name (or_dot (if decide (body = []) then strip P else P ++ join body)) /\
    same_outside name (Z.max 2 (Zlen (P ++ t) + 1)) m m'.
Proof.
  intros Hok Hname Hin Hs HP body. pose proof (cstr_app _ _ _ _ Hs) as Ht. pose proof (Zlen_nonneg P).
  destruct (clean_core_run m (name + Zlen P) t rooted (clean_end name) Hok Ht) as (m1 & f & Hr & Hok1 & Hf & Hs1 & Hfl & Hfe).
  { intros ->. by destruct HP. }
  assert (Hw : cstr_at m1 name (P ++ f)).
  { destruct Hs as [Hn Hb], Hf as [Hnf Hbf]. split; [apply Forall_app; split; [by apply Forall_app in Hn as [? _]|done]|].
    rewrite <- app_assoc in *. apply bytes_at_app in Hb as [Hb _]. apply bytes_at_app. split; [|done].
    eapply bytes_at_agree; [done|apply Hs1|]. intros i Hi. apply Hs1. lia. }
  assert (Hin1 : in_mem m1 name 2) by (unfold in_mem in *; rewrite (proj1 Hs1); done).
  destruct (clean_end_run m1 name (P ++ f) Hok1 Hname Hin1 Hw) as (m' & He & Hok' & Hw' & Hs').
  exists m'. rewrite Zlen_app, Z.add_assoc in He. split_and!; [by rewrite <- He, <- Hr|done| |].
  - rewrite <- (strip_name P body f); [done..|by apply kept_elem, Ht|]. destruct rooted; [by right|left; by destruct HP].
  - rewrite Zlen_app in *. apply (outside_trans _ _ m m1).
    + eapply same_outside_sub; [exact Hs1|lia|lia].
    + eapply same_outside_sub; [exact Hs'|lia|lia].
Qed.

(** ** The name of a device *)

(** Only the first byte of a rune can be a slash. *)
Lemma dec_no_slash b s n r :
  nonul (b :: s) -> dec (b :: s) = (n, r) ->
  1 <= n <= Zlen (b :: s) /\ Forall (fun c => c <> 47) (take (Z.to_nat (n - 1)) s).
Proof.
  intros Hn Hd. destruct (dec_cases (b :: s) n r (nonul_bytes _ Hn) ltac:(done) Hd) as [[= -> _]|(Hv & -> & t & Et)].
  { split; [rewrite Zlen_cons; zpos; lia|constructor]. }
  pose proof (Zlen_enc r) as Hl. split; [rewrite Et, Zlen_app; zpos; lia|].
  pose proof (proj1 (valid_spec r) Hv) as [Hr _]. pose proof (digits r ltac:(lia)) as Hdig.
  destruct (enc r) as [|b' e] eqn:He; [rewrite Zlen_nil in Hl; lia|]. injection Et as -> ->.
  rewrite Zlen_cons. replace (Z.to_nat (1 + Zlen e - 1)) with (length e) by (unfold Zlen; lia). rewrite take_app_length.
  unfold enc in He. destruct (Z.ltb_spec r 0x80); [|destruct (Z.ltb_spec r 0x800); [|destruct (Z.ltb_spec r 0x10000)]];
    injection He as _ <-; repeat (apply Forall_cons; split); try apply Forall_nil; lia.
Qed.

Definition slash_at (u : list Z) : Z := match find_first 47 u with Some i => i | None => Zlen u end.

Lemma slash_at_skip b s n r :
  nonul (b :: s) -> dec (b :: s) = (n, r) -> n - 1 + slash_at (drop (Z.to_nat (n - 1)) s) = slash_at s.
Proof.
  intros Hn Hd. destruct (dec_no_slash b s n r Hn Hd) as [Hr Hf]. rewrite Zlen_cons in Hr.
  assert (Hl : Zlen (take (Z.to_nat (n - 1)) s) = n - 1) by (unfold Zlen in *; rewrite length_take; lia).
  transitivity (slash_at (take (Z.to_nat (n - 1)) s ++ drop (Z.to_nat (n - 1)) s)); [|by rewrite take_drop].
  unfold slash_at. rewrite find_first_skip, Zlen_app, Hl by done. by destruct (find_first 47 _).
Qed.

Lemma skip_device_run fuel : forall m a u,
  mem_ok m -> cstr_at m a u -> (length u < fuel)%nat -> skip_device fuel a m = Some (a + slash_at u, m).
Proof.
  induction fuel as [|fuel IH]; intros m a u Hok Hu Hf; [lia|]. cbn [skip_device].
  run_with (ldc_nb0 m a u Hok Hu). rewrite SEP_s8 by apply nb_byte, Hu.
  destruct u as [|b u]; [unfold slash_at, Zlen; simpl; ret_lia|].
  assert (Hb : 0 < b < 256) by (by apply cstr_cons in Hu as (_ & ? & _)). unfold nb. cbn [nth].
  destruct (Z.eq_dec b 47) as [->|Hne]; [unfold slash_at; simpl; ret_lia|].
  rewrite SEP_not by (done || lia). destruct (dec (b :: u)) as [n r] eqn:Hd.
  destruct (walk_step m a b u n r Hok Hu Hd) as (_ & _ & _ & Hc & Hp & Hn & Hs').
  rewrite (bind_run _ _ m (n, r) m) by done. rewrite Hp, (IH m (a + n) _ Hok Hs').
  2: { rewrite length_drop. simpl in *. lia. }
  pose proof (slash_at_skip b u n r (proj1 Hu) Hd) as Hsk.
  replace (drop (Z.to_nat n) (b :: u)) with (drop (Z.to_nat (n - 1)) u).
  2: { replace (Z.to_nat n) with (S (Z.to_nat (n - 1))) by lia. done. }
  do 2 f_equal. rewrite <- Z.add_assoc. f_equal. unfold slash_at in *. cbn [find_first].
  rewrite (proj2 (Z.eqb_neq b 47)) by done. rewrite Zlen_cons. destruct (find_first 47 u); simpl in *; lia.
Qed.

(** ** Names in shortest form *)

(** [..] some times, then elements that are not dots; no [..] below a root. *)
Definition settled (rooted : bool) (es : list (list Z)) : Prop :=
  exists k rest, es = replicate k dotdot ++ rest /\ (rooted = true -> k = 0%nat) /\
    Forall (fun e => elem e /\ e <> dot /\ e <> dotdot) rest.

Lemma step_settled rooted es e : elem e -> settled rooted (rev es) -> settled rooted (rev (step rooted es e)).
Proof.
  intros He (k & rest & Hes & Hk & Hr). unfold step. destruct (decide _) as [|Hnd]; [by exists k, rest|].
  destruct (decide (e = dotdot)) as [->|Hdd].
  - destruct es as [|p es].
    + destruct rooted; [exists 0%nat, []|exists 1%nat, []]; split_and!; done.
    + cbn [rev] in Hes. destruct (decide (p = dotdot)) as [->|Hp].
      * destruct rest as [|q rest _] using rev_ind.
        -- exists (S k), []. rewrite app_nil_r in *. split_and!; [|intros Ht; specialize (Hk Ht); subst k|done].
           ++ cbn [rev]. rewrite Hes. by rewrite <- replicate_S_end.
           ++ by destruct (rev es).
        -- rewrite app_assoc in Hes. apply app_inj_2 in Hes as [_ [= <-]]; [|done].
           apply Forall_app in Hr as [_ [(_ & _ & ?) _]%Forall_cons]. done.
      * destruct rest as [|q rest _] using rev_ind.
        -- rewrite app_nil_r in Hes. destruct k as [|k]; [by destruct (rev es)|]. rewrite replicate_S_end in Hes.
           apply app_inj_2 in Hes as [_ [= ->]]; done.
        -- rewrite app_assoc in Hes. apply app_inj_2 in Hes as [-> _]; [|done].
           apply Forall_app in Hr as [Hr _]. by exists k, rest.
  - exists k, (rest ++ [e]). cbn [rev]. rewrite Hes, app_assoc. split_and!; [done..|]. apply Forall_app. split; [done|].
    apply Forall_singleton. split; [done|]. split; [tauto|done].
Qed.

Lemma kept_settled rooted s : nonul s -> settled rooted (kept rooted (split_slash s)).
Proof.
  intros Hn. rewrite kept_solid. pose proof (solid_elems s Hn) as He.
  assert (H : settled rooted (rev [])) by (exists 0%nat, []; done). revert H. generalize (@nil (list Z)).
  induction (solid s) as [|e es IH]; intros out Ho; [done|]. apply Forall_cons in He as [He Hes].
  cbn [foldl]. apply IH; [done|]. by apply step_settled.
Qed.

Lemma settled_elem rooted es : settled rooted es -> Forall elem es.
Proof.
  intros (k & rest & -> & _ & Hr). apply Forall_app. split; [apply Forall_replicate, elem_dotdot|].
  eapply Forall_impl; [exact Hr|]. by intros e [? _].
Qed.

(** Nothing is left to do. *)
Lemma settled_kept rooted es : settled rooted es -> kept rooted es = es.
Proof.
  intros (k & rest & -> & Hk & Hr). unfold kept. rewrite foldl_app.
  replace (foldl (step rooted) [] (replicate k dotdot)) with (replicate k dotdot).
  2: { destruct rooted; [by rewrite Hk|]. clear. assert (H : forall j, foldl (step false) (replicate j dotdot) (replicate k dotdot)
         = replicate (j + k) dotdot).
       { induction k as [|k IH]; intros j; [by rewrite Nat.add_0_r|]. cbn [replicate foldl].
         rewrite step_up, (IH (S j)). by rewrite Nat.add_succ_r. }
       symmetry. exact (H 0%nat). }
  assert (H : forall out, foldl (step rooted) out rest = rev rest ++ out).
  { induction Hr as [|e rest (He & H1 & H2) Hr IH]; intros out; [done|]. cbn [foldl rev].
    rewrite step_push, IH by done. by rewrite <- app_assoc. }
  rewrite H, rev_app_distr, rev_involutive. f_equal. rewrite rev_alt. apply reverse_replicate.
Qed.

Lemma split_slash_app e s : Forall (fun c => c <> 47) e ->
  split_slash (e ++ 47 :: s) = e :: split_slash s /\ split_slash e = [e].
Proof.
  induction 1 as [|c e Hc He [IH1 IH2]]; [done|]. cbn [app split_slash]. rewrite (proj2 (Z.eqb_neq c 47)) by done.
  by rewrite IH1, IH2.
Qed.

Lemma split_join es : es <> [] -> Forall elem es -> split_slash (join es) = es.
Proof.
  induction es as [|e es IH]; [done|]. intros _ [(_ & He & _) Hes]%Forall_cons. cbn [join].
  destruct es as [|e' es]; [by destruct (split_slash_app e [] He)|].
  destruct (split_slash_app e (join (e' :: es)) He) as [-> _]. by rewrite IH.
Qed.

(** The form of a name that is not a device's: a dot, or a root or none and
    the elements with single slashes between them. *)
Definition canonical (w : list Z) : Prop :=
  w = dot \/ exists (rooted : bool) es, settled rooted es /\ (rooted = false -> es <> []) /\
    w = (if rooted then [47] else []) ++ join es.

Lemma join_ne es : es <> [] -> Forall elem es -> join es <> [] /\ nb (join es) 0 <> 47.
Proof.
  intros Hne He. destruct es as [|e es]; [done|]. apply Forall_cons in He as [He _].
  destruct (elem_cons e He) as (c & e' & -> & _ & Hc). by destruct es.
Qed.

Lemma root_len_none w : nb w 0 <> 47 -> nb w 0 <> 35 -> root_len w = 0%nat.
Proof. unfold nb. destruct w as [|c w]; [done|]. cbn [nth]. intros H1 H2. unfold root_len. by repeat case_match. Qed.

Lemma kept_join rooted es : settled rooted es -> kept rooted (split_slash (join es)) = es.
Proof.
  intros Hs. pose proof (settled_elem _ _ Hs) as He. destruct (decide (es = [])) as [->|Hne].
  - unfold kept. cbn [join split_slash foldl]. by destruct rooted.
  - rewrite split_join by done. by apply settled_kept.
Qed.

Lemma root_len_file s : nb s 0 <> 35 -> root_len s = if nb s 0 =? 47 then 1%nat else 0%nat.
Proof.
  destruct s as [|c s]; [done|]. unfold nb. cbn [nth]. intros H. destruct (Z.eqb_spec c 47) as [->|Hc]; [done|].
  by apply root_len_none.
Qed.

(** What [clean] makes of a name that is not a device's. *)
Lemma clean_file s : nb s 0 <> 35 ->
  clean s = let rooted := nb s 0 =? 47 in
            let es := kept rooted (split_slash s) in
            if rooted then 47 :: join es else or_dot (join es).
Proof.
  intros H. unfold clean. rewrite root_len_file by done. rewrite decide_False by (intros ->; done). cbv zeta.
  destruct s as [|c s]; [done|]. unfold nb in *. cbn [nth] in *. destruct (Z.eqb_spec c 47) as [->|Hc].
  - rewrite decide_False by done. change (drop 1 (47 :: s)) with s. change (0 <? 1)%nat with true.
    replace (kept true (split_slash (47 :: s))) with (kept true (split_slash s)); [|done].
    destruct (decide _) as [Hj|]; [by rewrite Hj|done].
  - done.
Qed.

Lemma clean_canonical s : nonul s -> nb s 0 <> 35 -> canonical (clean s).
Proof.
  intros Hn H. rewrite clean_file by done. cbv zeta. pose proof (kept_settled (nb s 0 =? 47) s Hn) as Hs.
  pose proof (settled_elem _ _ Hs) as He. destruct (nb s 0 =? 47).
  - right. exists true. eexists. split_and!; [exact Hs|done|done].
  - unfold or_dot. destruct (decide _) as [|Hj]; [by left|]. right. exists false. eexists.
    split_and!; [exact Hs|intros _ Hk; by rewrite Hk in Hj|done].
Qed.

Lemma canonical_clean w : nb w 0 <> 35 -> canonical w -> clean w = w.
Proof.
  intros H [->|(rooted & es & Hs & Hne & ->)]; [done|]. rewrite clean_file by done. cbv zeta.
  pose proof (settled_elem _ _ Hs) as He. destruct rooted.
  - cbn [app]. change (nb (47 :: join es) 0 =? 47) with true. cbv iota.
    replace (kept true (split_slash (47 :: join es))) with (kept true (split_slash (join es))); [|done].
    by rewrite kept_join.
  - cbn [app] in *. destruct (join_ne es (Hne ltac:(done)) He) as [Hj Hj'].
    rewrite (proj2 (Z.eqb_neq _ 47)) by done. rewrite kept_join by done. unfold or_dot. by rewrite decide_False.
Qed.

(** A name whose device is followed by a slash, or not a device's. *)
Definition device_ok (s : list Z) : Prop :=
  match s with 35 :: _ :: t => 47 ∈ t | _ => True end.

Lemma cleanname_file_run m name s :
  mem_ok m -> 0 < name -> in_mem m name 2 -> cstr_at m name s -> nb s 0 <> 35 ->
  exists m', cleanname name m = Some (name, m') /\ mem_ok m' /\ cstr_at m' name (clean s) /\
    same_outside name (Z.max 2 (Zlen s + 1)) m m'.
Proof.
  intros Hok Hname Hin Hs H. rewrite clean_file by done. cbv zeta. unfold cleanname.
  pose proof (nb_byte s 0 (proj1 Hs)) as Hby. run_with (ldc_nb0 m name s Hok Hs). rewrite s8_zero by done.
  rewrite !s8_eqb by (done || lia). destruct s as [|c s].
  { change (nb [] 0 =? 0) with true. cbv iota. destruct (strcpy_dot_run m name Hok Hin) as [-> Hd]. eexists. split_and!; [done| |exact Hd|].
    - apply mem_ok_wr; [done|by repeat constructor|done].
    - apply (wr_same_outside m name [46; 0]). exact Hin. }
  assert (Hc : 0 < c < 256) by (by apply cstr_cons in Hs as (_ & ? & _)). unfold nb in *. cbn [nth] in *.
  rewrite (proj2 (Z.eqb_neq c 0)) by lia. rewrite (proj2 (Z.eqb_neq c 35)) by done. destruct (Z.eqb_spec c 47) as [->|Hc'].
  - destruct (clean_from_run m name [47] s true Hok Hname Hin Hs) as (m' & Hr & Hok' & Hw & Ho); [done|].
    exists m'. pose proof (proj2 Hok). destruct Hin as (_ & _ & Hin). rewrite padd_small by lia. split_and!; [exact Hr|done| |done].
    replace (kept true (split_slash (47 :: s))) with (kept true (split_slash s)) by done.
    destruct (decide (kept true (split_slash s) = [])) as [->|]; exact Hw.
  - destruct (clean_from_run m name [] (c :: s) false Hok Hname Hin Hs) as (m' & Hr & Hok' & Hw & Ho); [done|].
    exists m'. change (Zlen []) with 0 in Hr. rewrite Z.add_0_r in Hr. split_and!; [done..| |done].
    destruct (decide (kept false (split_slash (c :: s)) = [])) as [->|]; exact Hw.
Qed.

Lemma cleanname_device_run m name c t :
  mem_ok m -> 0 < name -> cstr_at m name (35 :: c :: t) ->
  cleanname name m = clean_from name (name + 2 + slash_at t +p 1) true m.
Proof.
  intros Hok Hname Hs. pose proof (cstr_range _ _ _ Hs) as [_ Hl]. pose proof (proj2 Hok). rewrite !Zlen_cons in Hl.
  pose proof (Zlen_nonneg t). unfold cleanname. run_with (ldc_nb0 m name _ Hok Hs).
  change (nb (35 :: c :: t) 0) with 35. change (s8 35) with 35. cbv iota beta.
  change (35 =? 0) with false. change (35 =? 35) with true. cbv iota.
  pose proof (cstr_tail _ _ _ _ Hs) as Hs1. pose proof (cstr_range _ _ _ Hs1) as _.
  rewrite (padd_small name 1) by lia. run_with (ldc_nb0 m (name + 1) _ Hok Hs1). rewrite s8_zero by (apply nb_byte, Hs1).
  assert (Hc : 0 < c < 256) by (by apply cstr_cons in Hs1 as (_ & ? & _)). unfold nb. cbn [nth].
  rewrite (proj2 (Z.eqb_neq c 0)) by lia. destruct (dec (c :: t)) as [n r] eqn:Hd.
  destruct (walk_step m (name + 1) c t n r Hok Hs1 Hd) as (_ & _ & _ & Hct & _ & Hn & Hs').
  rewrite (bind_run _ _ m (n, r) m) by done. cbv beta iota. unfold memfuel. erewrite bind_run by done.
  rewrite Zlen_cons in Hn. rewrite (padd_small name (1 + n)) by lia.
  replace (name + (1 + n)) with (name + 1 + n) by lia.
  rewrite (bind_run _ _ m _ _ (skip_device_run (S (length m)) m _ _ Hok Hs' (cstr_fuel _ _ _ Hs'))).
  pose proof (slash_at_skip c t n r (proj1 Hs1) Hd) as Hsk.
  replace (drop (Z.to_nat n) (c :: t)) with (drop (Z.to_nat (n - 1)) t).
  2: { replace (Z.to_nat n) with (S (Z.to_nat (n - 1))) by lia. done. }
  replace (name + 1 + n + slash_at (drop (Z.to_nat (n - 1)) t)) with (name + 2 + slash_at t) by lia.
  destruct (Z.eqb_spec (name + 2 + slash_at t) 0) as [Hz|]; [|done].
  assert (0 <= slash_at t); [|lia]. unfold slash_at. clear. induction t as [|b t IH]; [done|]. cbn [find_first].
  destruct (b =? 47); [done|]. rewrite Zlen_cons. destruct (find_first 47 t); simpl; lia.
Qed.

Lemma cleanname_device_slash m name c t :
  mem_ok m -> 0 < name -> in_mem m name 2 -> cstr_at m name (35 :: c :: t) -> 47 ∈ t ->
  exists m', cleanname name m = Some (name, m') /\ mem_ok m' /\ cstr_at m' name (clean (35 :: c :: t)) /\
    same_outside name (Z.max 2 (Zlen (35 :: c :: t) + 1)) m m'.
Proof.
  intros Hok Hname Hin Hs Hsl. rewrite (cleanname_device_run m name c t) by done.
  destruct (find_first_in 47 t Hsl) as (i & Hi & Hir & Htk). unfold slash_at. rewrite Hi.
  set (s := 35 :: c :: t) in *. set (k := (3 + Z.to_nat i)%nat).
  assert (Hroot : root_len s = k) by (unfold root_len, s; by rewrite Hi).
  assert (Hpre : take k s = (35 :: c :: take (Z.to_nat i) t) ++ [47]).
  { unfold k, s. cbn [take Nat.add app]. rewrite <- Htk. by rewrite Nat.add_1_r. }
  assert (Hlen : Zlen (take k s) = 3 + i).
  { rewrite Hpre. unfold Zlen in *. simpl. rewrite length_app, length_take. simpl. lia. }
  pose proof (cstr_range _ _ _ Hs) as [_ Hl]. pose proof (proj2 Hok). unfold s in Hl. rewrite !Zlen_cons in Hl.
  pose proof Hs as Hs'. rewrite <- (take_drop k s) in Hs'.
  destruct (clean_from_run m name (take k s) (drop k s) true Hok Hname Hin Hs') as (m' & Hr & Hok' & Hw & Ho).
  { rewrite Hpre. apply last_snoc. }
  rewrite take_drop in Ho. exists m'. rewrite padd_small by lia.
  replace (name + 2 + i + 1) with (name + Zlen (take k s)) by lia. split_and!; [done..| |done].
  assert (Hn : nonul (drop k s)) by (apply Forall_drop, Hs).
  unfold clean. rewrite Hroot. rewrite decide_False by done. rewrite decide_False by done.
  change (0 <? k)%nat with true. destruct (decide (kept true (split_slash (drop k s)) = [])) as [Hk|Hk].
  - rewrite Hk in *. rewrite decide_True by done. rewrite decide_False by (unfold k; lia).
    rewrite Hpre, strip_snoc, decide_True in Hw by done. replace (take (k - 1) s) with (35 :: c :: take (Z.to_nat i) t); [exact Hw|].
    unfold k, s. by replace (3 + Z.to_nat i - 1)%nat with (2 + Z.to_nat i)%nat by lia.
  - destruct (join_ne _ Hk (kept_elem true _ Hn)) as [Hj _]. rewrite decide_False by done.
    unfold or_dot in Hw. rewrite decide_False in Hw; [exact Hw|]. rewrite Hpre. by destruct (_ ++ [47]).
Qed.

(** * Theorems *)

(** C31. [cleanname] computes [clean], in place: for every string but the name
    of a device without a slash ([device_ok]; for those see
    [cleanname_device_overrun]) it returns the name, which then holds the
    elements the specification keeps.  It writes at most as many bytes as the
    string and its terminator have, two for the empty name, which becomes "."
    and so needs a byte behind its terminator. *)
Theorem cleanname_exact (m : mem) (name : Z) (s : list Z) :
  mem_ok m -> 0 < name -> in_mem m name 2 -> cstr_at m name s -> device_ok s ->
  exists m', cleanname name m = Some (name, m') /\ cstr_at m' name (clean s) /\
    same_outside name (Z.max 2 (Zlen s + 1)) m m'.
Proof.
  intros Hok Hname Hin Hs Hd. destruct (decide (nb s 0 = 35)) as [H35|H35].
  2: { destruct (cleanname_file_run m name s) as (m' & ? & _ & ? & ?); eauto. }
  destruct s as [|c s]; [done|]. unfold nb in H35. cbn [nth] in H35. subst c. destruct s as [|c t].
  - exists m. split_and!; [|done|apply outside_refl]. unfold cleanname.
    run_with (ldc_nb0 m name _ Hok Hs). change (nb [35] 0) with 35. change (s8 35 =? 0) with false.
    change (s8 35 =? 35) with true. cbv iota. run_with (ldc_nb m name _ 1 Hok Hs ltac:(by compute)). done.
  - destruct (cleanname_device_slash m name c t) as (m' & ? & _ & ? & ?); eauto.
Qed.

(** A cleaned name is in shortest form: single slashes, no [.], and [..]
    only at the start of a name without a root; cleaning it again changes no
    byte of memory. *)
Theorem cleanname_settles (m : mem) (name : Z) (s : list Z) :
  mem_ok m -> 0 < name -> in_mem m name 2 -> cstr_at m name s -> nb s 0 <> 35 -> nb (clean s) 0 <> 35 ->
  canonical (clean s) /\
  exists m', cleanname name m = Some (name, m') /\ cstr_at m' name (clean s) /\ cleanname name m' = Some (name, m').
Proof.
  intros Hok Hname Hin Hs H35 Hc35. pose proof (clean_canonical s (proj1 Hs) H35) as Hcan. split; [done|].
  destruct (cleanname_file_run m name s Hok Hname Hin Hs H35) as (m' & Hr & Hok' & Hs' & Ho).
  exists m'. split_and!; [done..|].
  assert (Hin' : in_mem m' name 2) by (unfold in_mem in *; by rewrite (proj1 Ho)).
  destruct (cleanname_file_run m' name (clean s) Hok' Hname Hin' Hs' Hc35) as (m'' & Hr' & _ & Hs'' & Ho').
  rewrite (canonical_clean _ Hc35 Hcan) in Hs''. rewrite Hr'. do 2 f_equal. apply lk_ext. intros i _.
  destruct (decide (i < name \/ name + Z.max 2 (Zlen (clean s) + 1) <= i)) as [Hi|Hi]; [by apply Ho'|].
  assert (Hlen : 1 <= Zlen (clean s)).
  { destruct (clean s) as [|c w] eqn:Hw; [|rewrite Zlen_cons; zpos; lia]. rewrite clean_file in Hw by done. cbv zeta in Hw.
    destruct (_ =? 47); [done|]. unfold or_dot in Hw. by destruct (decide _). }
  destruct Hs' as [_ [_ Hb1]], Hs'' as [_ [_ Hb2]]. rewrite Zlen_app in Hb1, Hb2. change (Zlen [0]) with 1 in *.
  specialize (Hb1 (i - name) ltac:(lia)). specialize (Hb2 (i - name) ltac:(lia)).
  replace (name + (i - name)) with i in * by lia. congruence.
Qed.

(** The name of a device with no slash after it is read past its end: when
    the terminator is the last byte of memory [cleanname] traps, and otherwise
    it cleans what lies behind the name. *)
Theorem cleanname_device_overrun :
  (forall m name c t, mem_ok m -> 0 < name -> cstr_at m name (35 :: c :: t) -> 47 ∉ t ->
     name + Zlen (35 :: c :: t) + 1 = Zlen m -> cleanname name m = None) /\
  exists m m', cstr_at m 1 [35; 115] /\ cstr_at m 4 [97; 47; 46; 46; 47; 98] /\
    cleanname 1 m = Some (1, m') /\ cstr_at m' 4 [98].
Proof.
  split.
  - intros m name c t Hok Hname Hs Hsl Hend. rewrite (cleanname_device_run m name c t) by done.
    unfold slash_at. rewrite find_first_none by done. rewrite !Zlen_cons in Hend. pose proof (proj2 Hok).
    pose proof (Zlen_nonneg t). rewrite padd_small by lia. unfold clean_from, memfuel. erewrite bind_run by done.
    rewrite bind_trap; [done|]. cbn [skip_slashes]. apply bind_trap. apply bind_trap. unfold ld8. rewrite lk_ge; [done|lia].
  - exists [0; 35; 115; 0; 97; 47; 46; 46; 47; 98; 0]. eexists.
    split_and!; [cstr_eval|cstr_eval|vm_compute; reflexivity|cstr_eval].
Qed.

(** * Witnesses *)

(** "a//b/../c" and "#s" at the end of a memory. *)
Definition names_mem : mem := [0; 97; 47; 47; 98; 47; 46; 46; 47; 99; 0; 35; 115; 0].

Lemma names_mem_ok : mem_ok names_mem.
Proof. split; [repeat (apply Forall_cons; split; [unfold is_byte; lia|]); apply Forall_nil; done|vm_compute; discriminate]. Qed.

Lemma cleanname_exact_witness :
  exists m', cleanname 1 names_mem = Some (1, m') /\ cstr_at m' 1 [97; 47; 99] /\
    same_outside 1 (Z.max 2 (Zlen [97; 47; 47; 98; 47; 46; 46; 47; 99] + 1)) names_mem m'.
Proof.
  apply (cleanname_exact names_mem 1 [97; 47; 47; 98; 47; 46; 46; 47; 99]);
    [exact names_mem_ok|lia|vm_compute; split_and!; discriminate|cstr_eval|exact I].
Defined.

Lemma cleanname_settles_witness :
  canonical [97; 47; 99] /\
  exists m', cleanname 1 names_mem = Some (1, m') /\ cstr_at m' 1 [97; 47; 99] /\ cleanname 1 m' = Some (1, m').
Proof.
  apply (cleanname_settles names_mem 1 [97; 47; 47; 98; 47; 46; 46; 47; 99]);
    [exact names_mem_ok|lia|vm_compute; split_and!; discriminate|cstr_eval|vm_compute; discriminate|vm_compute; discriminate].
Defined.

Lemma cleanname_device_overrun_witness : cleanname 11 names_mem = None.
Proof.
  apply (proj1 cleanname_device_overrun names_mem 11 115 []);
    [exact names_mem_ok|lia|cstr_eval|by intros ?%elem_of_nil|reflexivity].
Defined.
