(* ===== verification/Fields.v ===== *)
(** [libc/port/tokenize.c], [getfields.c], [quote.c], [strdup.c],
    [needsrcquote.c] and the scan of [libc/fmt/fmtquote.c]: a line cut into its
    fields in place, and strings quoted so that a line can hold them.

    The array of arguments is a list of its entries.  [doquote] is the
    program's own test for characters to quote, if it has one; memory comes from
    an allocator known by what it promises ([Malloc]). *)

From S2P Require Import Prelude Mem CString Rune Chars.

Local Open Scope c_scope.

(** * Definitions *)

(** ** tokenize.c *)

(** [utfrune(sep, c) != nil]. *)
Definition in_set (sep c : Z) : M bool := p ← utfrune sep c; mret (negb (p =? 0)).

(** The loop of [qtoken] and of [unquotestrdup], which differ in what [stop]s
    them: where the output ends, and where the input stopped. *)
Fixpoint token_loop (stop : Z -> M bool) (fuel : nat) (quoting : bool) (s t : Z) : M (Z * Z) :=
  match fuel with
  | O => trap
  | S fuel =>
      c ← ldc t;
      if c =? 0 then mret (s, t) else
      e ← (if quoting then mret false else stop c);
      if e : bool then mret (s, t) else
      if negb (c =? 39) then _ ← st8 s c; token_loop stop fuel quoting (s +p 1) (t +p 1)
      else if negb quoting then token_loop stop fuel true s (t +p 1)
      else
        c1 ← ldc (t +p 1);
        if negb (c1 =? 39) then token_loop stop fuel false s (t +p 1)
        else c ← ldc (t +p 1); _ ← st8 s c; token_loop stop fuel quoting (s +p 1) (t +p 1 +p 1)
  end.

Definition qtoken (s sep : Z) : M Z :=
  fuel ← memfuel;
  '(s, t) ← token_loop (in_set sep) fuel false s s;
  c ← ldc s;
  if negb (c =? 0) then _ ← st8 s 0; mret (if t =? s then t +p 1 else t) else mret t.

Fixpoint etoken_loop (fuel : nat) (quoting : bool) (t sep : Z) : M Z :=
  match fuel with
  | O => trap
  | S fuel =>
      c ← ldc t;
      if c =? 0 then mret t else
      e ← (if quoting then mret false else in_set sep c);
      if e : bool then mret t else
      if negb (c =? 39) then etoken_loop fuel quoting (t +p 1) sep
      else if negb quoting then etoken_loop fuel true (t +p 1) sep
      else
        c1 ← ldc (t +p 1);
        if negb (c1 =? 39) then etoken_loop fuel false (t +p 1) sep
        else etoken_loop fuel quoting (t +p 2) sep
  end.

Definition etoken (t sep : Z) : M Z := fuel ← memfuel; etoken_loop fuel false t sep.

(** Separators become NULs (the loop at the head of [gettokens]). *)
Fixpoint clear_seps (fuel : nat) (s sep : Z) : M Z :=
  match fuel with
  | O => trap
  | S fuel =>
      c ← ldc s;
      if c =? 0 then mret s else
      e ← in_set sep c;
      if e : bool then _ ← st8 s 0; clear_seps fuel (s +p 1) sep else mret s
  end.

Fixpoint gettokens_loop (n : nat) (s sep : Z) : M (list Z) :=
  match n with
  | O => mret []
  | S n =>
      fuel ← memfuel;
      s ← clear_seps fuel s sep;
      c ← ldc s;
      if c =? 0 then mret [] else
      t ← etoken s sep;
      args ← gettokens_loop n t sep;
      mret (s :: args)
  end.

(** The arguments; their number is what the function returns. *)
Definition gettokens (s maxargs sep : Z) : M (list Z) := gettokens_loop (Z.to_nat maxargs) s sep.

(** Separators are passed over (the loop at the head of [tokenize]). *)
Fixpoint skip_seps (fuel : nat) (s sep : Z) : M Z :=
  match fuel with
  | O => trap
  | S fuel =>
      c ← ldc s;
      if c =? 0 then mret s else
      e ← in_set sep c;
      if e : bool then skip_seps fuel (s +p 1) sep else mret s
  end.

(** What the static array [qsep] holds: space, tab, carriage return, newline. *)
Definition qsep_bytes : list Z := [32; 9; 13; 10].

Fixpoint tokenize_loop (n : nat) (s qsep : Z) : M (list Z) :=
  match n with
  | O => mret []
  | S n =>
      fuel ← memfuel;
      s ← skip_seps fuel s qsep;
      c ← ldc s;
      if c =? 0 then mret [] else
      t ← qtoken s qsep;
      args ← tokenize_loop n t qsep;
      mret (s :: args)
  end.

Definition tokenize (s maxargs qsep : Z) : M (list Z) := tokenize_loop (Z.to_nat maxargs) s qsep.

(** ** getfields.c *)

(** [args[narg] = v]. *)
Definition set_arg (args : list Z) (narg v : Z) : list Z :=
  if narg <? Zlen args then <[Z.to_nat narg := v]> args else args ++ [v].

Fixpoint getfields_loop (fuel : nat) (str narg max : Z) (mflag intok : bool) (set : Z) (args : list Z) : M (Z * list Z) :=
  match fuel with
  | O => trap
  | S fuel =>
      '(nr, r) ← chartorune str;
      if r =? 0 then mret (narg, args) else
      e ← in_set set r;
      if e : bool then
        if narg >=? max then mret (narg, args) else
        _ ← st8 str 0;
        getfields_loop fuel (str +p nr) (if mflag then narg else narg + 1) max mflag false set
          (set_arg args narg (str +p nr))
      else
        getfields_loop fuel (str +p nr) (if negb intok && mflag then narg + 1 else narg) max mflag true set args
  end.

(** The number of fields and the array. *)
Definition getfields (str max : Z) (mflag : bool) (set : Z) : M (Z * list Z) :=
  if max <=? 0 then mret (0, []) else
  fuel ← memfuel;
  getfields_loop fuel str (if mflag then 0 else 1) max mflag false set [str].

(** * Specification *)

(** The first token of a text: what it stands for, and the text after it.  A
    quote opens a part in which no character stops the token and a doubled quote
    stands for one. *)
Fixpoint unq (stop : Z -> bool) (quoting : bool) (l : list Z) : list Z * list Z :=
  match l with
  | [] => ([], [])
  | c :: l' =>
      if negb quoting && stop c then ([], l)
      else if negb (c =? 39) then let '(o, r) := unq stop quoting l' in (c :: o, r)
      else if negb quoting then unq stop true l'
      else match l' with
           | c1 :: l'' =>
               if c1 =? 39 then let '(o, r) := unq stop true l'' in (39 :: o, r) else unq stop false l'
           | [] => unq stop false l'
           end
  end.

Fixpoint drop_while (p : Z -> bool) (l : list Z) : list Z :=
  match l with c :: l' => if p c then drop_while p l' else l | [] => [] end.

Definition sep_in (seps : list Z) (c : Z) : bool := bool_decide (c ∈ seps).

(** At most [n] tokens, and what they stand for. *)
Fixpoint tokens (seps : list Z) (n : nat) (l : list Z) : list (list Z) :=
  match n with
  | O => []
  | S n =>
      match drop_while (sep_in seps) l with
      | [] => []
      | l1 => let '(o, r) := unq (sep_in seps) false l1 in o :: tokens seps n r
      end
  end.

(** At most [n] tokens as they are written; the last one, if it is the [n]th,
    has all that follows it. *)
Fixpoint raw_tokens (seps : list Z) (n : nat) (l : list Z) : list (list Z) :=
  match n with
  | O => []
  | S n =>
      match drop_while (sep_in seps) l with
      | [] => []
      | l1 =>
          let r := (unq (sep_in seps) false l1).2 in
          match n with
          | O => [l1]
          | _ => take (length l1 - length r) l1 :: raw_tokens seps n r
          end
      end
  end.

(** The characters of a text: the bytes of each, and its rune. *)
Fixpoint cells_from (fuel : nat) (l : list Z) : list (list Z * Z) :=
  match fuel, l with
  | S fuel, _ :: _ =>
      let '(n, r) := dec l in (take (Z.to_nat n) l, r) :: cells_from fuel (drop (Z.to_nat n) l)
  | _, _ => []
  end.

Definition cells (l : list Z) : list (list Z * Z) := cells_from (length l) l.

Definition bytes_of (cs : list (list Z * Z)) : list Z := concat (map fst cs).

(** A text cut at each of its separators, at most [n] times; the last field has
    what is left. *)
Fixpoint fields (sep : Z -> bool) (n : nat) (cs : list (list Z * Z)) : list Z * list (list Z) :=
  match cs with
  | [] => ([], [])
  | (b, r) :: cs' =>
      if sep r then
        match n with
        | O => (bytes_of cs, [])
        | S n => let '(f, fs) := fields sep n cs' in ([], f :: fs)
        end
      else let '(f, fs) := fields sep n cs' in (b ++ f, fs)
  end.

(** The same where separators next to each other count once and those at the
    ends not at all: what is left of the field that [intok] says has begun, and
    at most [n] fields after it. *)
Fixpoint words (sep : Z -> bool) (intok : bool) (n : nat) (cs : list (list Z * Z)) : list Z * list (list Z) :=
  match cs with
  | [] => ([], [])
  | (b, r) :: cs' =>
      if sep r then
        match n with
        | O => (if intok then bytes_of cs else [], [])
        | S _ => ([], (words sep false n cs').2)
        end
      else
        if intok then let '(f, fs) := words sep true n cs' in (b ++ f, fs)
        else let '(f, fs) := words sep true (n - 1) cs' in ([], (b ++ f) :: fs)
  end.

Definition rune_in (set : list Z) (r : Z) : bool := bool_decide (r ∈ map snd (runes set)).

(** * Lemmas *)

(** ** One token *)

Section Unq.
Context (stop : Z -> bool).

(** The text is consumed from the front, and the token is no longer than what
    was consumed. *)
Lemma unq_suffix n : forall q l o r, (length l <= n)%nat -> unq stop q l = (o, r) ->
  exists k, r = drop k l /\ (length o <= k <= length l)%nat.
Proof.
  induction n as [|n IH]; intros q l o r Hn H.
  { destruct l; [|simpl in Hn; lia]. injection H as <- <-. exists 0%nat. simpl. auto. }
  destruct l as [|c l]; [injection H as <- <-; exists 0%nat; simpl; auto|]. cbn [unq] in H. simpl in Hn.
  assert (Hgo : forall q' d, unq stop q' l = (d, r) -> (length o <= S (length d))%nat ->
    exists k, r = drop k (c :: l) /\ (length o <= k <= length (c :: l))%nat).
  { intros q' d Hu Hl. destruct (IH q' l d r ltac:(lia) Hu) as (k & -> & Hk). exists (S k). simpl. split; [done|lia]. }
  destruct (negb q && stop c); [injection H as <- <-; exists 0%nat; simpl; split; [done|lia]|].
  destruct (negb (c =? 39)).
  { destruct (unq stop q l) as [o' r'] eqn:Hu. injection H as <- <-. eapply Hgo; [exact Hu|simpl; lia]. }
  destruct (negb q); [eapply Hgo; [exact H|lia]|]. destruct l as [|c1 l].
  { eapply Hgo; [exact H|lia]. }
  destruct (c1 =? 39); [|eapply Hgo; [exact H|lia]].
  destruct (unq stop true l) as [o' r'] eqn:Hu. injection H as <- <-. simpl in Hn.
  destruct (IH true l o' r' ltac:(lia) Hu) as (k & -> & Hk). exists (S (S k)). simpl. split; [done|lia].
Qed.

Lemma unq_nonul n : forall q l o r, (length l <= n)%nat -> unq stop q l = (o, r) -> nonul l -> nonul o.
Proof.
  induction n as [|n IH]; intros q l o r Hn H Hl.
  { destruct l; [|simpl in Hn; lia]. by injection H as <- <-. }
  destruct l as [|c l]; [by injection H as <- <-|]. cbn [unq] in H. simpl in Hn. apply Forall_cons in Hl as [Hc Hl].
  destruct (negb q && stop c); [injection H as <- <-; constructor|]. destruct (negb (c =? 39)).
  { destruct (unq stop q l) as [o' r'] eqn:Hu. injection H as <- <-. constructor; [done|]. eapply IH; [|exact Hu|done]. lia. }
  destruct (negb q); [eapply IH; [|exact H|done]; lia|]. destruct l as [|c1 l]; [eapply IH; [|exact H|done]; lia|].
  destruct (c1 =? 39); [|eapply IH; [|exact H|done]; lia]. apply Forall_cons in Hl as [_ Hl].
  destruct (unq stop true l) as [o' r'] eqn:Hu. injection H as <- <-. constructor; [lia|]. simpl in Hn.
  eapply IH; [|exact Hu|done]. lia.
Qed.

(** What remains starts with a stop, if anything remains. *)
Lemma unq_rest n : forall q l o r, (length l <= n)%nat -> unq stop q l = (o, r) ->
  r = [] \/ exists c r', r = c :: r' /\ stop c = true.
Proof.
  induction n as [|n IH]; intros q l o r Hn H.
  { destruct l; [|simpl in Hn; lia]. injection H as <- <-. by left. }
  destruct l as [|c l]; [injection H as <- <-; by left|]. cbn [unq] in H. simpl in Hn.
  destruct (negb q && stop c) eqn:Hs.
  { injection H as <- <-. right. apply andb_prop in Hs as [_ Hs]. by exists c, l. }
  destruct (negb (c =? 39)).
  { destruct (unq stop q l) as [o' r'] eqn:Hu. injection H as <- <-. eapply IH; [|exact Hu]. lia. }
  destruct (negb q); [eapply IH; [|exact H]; lia|]. destruct l as [|c1 l]; [eapply IH; [|exact H]; lia|].
  destruct (c1 =? 39); [|eapply IH; [|exact H]; lia].
  destruct (unq stop true l) as [o' r'] eqn:Hu. injection H as <- <-. simpl in Hn. eapply IH; [|exact Hu]. lia.
Qed.

End Unq.

(** A test of characters that holds in any memory kept by the writes to the
    region it stands for. *)
Record tests (test : Z -> M bool) (p : Z -> bool) (lo hi : Z) (inv : mem -> Prop) : Prop := {
  t_run : forall m b, mem_ok m -> inv m -> 0 < b < 256 -> test (s8 b) m = Some (p b, m);
  t_keep : forall m d b, mem_ok m -> inv m -> lo <= d < hi -> in_mem m d 1 -> inv (wr m d [b]) }.

Section Loop.
Context (test : Z -> M bool) (stop : Z -> bool) (lo hi : Z) (inv : mem -> Prop).
Hypothesis Htest : tests test stop lo hi inv.

Definition token_goal m s t l q fuel : Prop :=
  let '(o, r) := unq stop q l in
  token_loop test fuel q s t m = Some ((s + Zlen o, t + (Zlen l - Zlen r)), wr m s o) /\
  mem_ok (wr m s o) /\ inv (wr m s o).

(** A character is put out. *)
Lemma token_put m s t c l q fuel :
  mem_ok m -> inv m -> 0 < c < 256 -> lo <= s <= t -> t + Zlen l < hi -> cstr_at m t (c :: l) ->
  (forall m1, m1 = wr m s [c] -> mem_ok m1 -> inv m1 -> cstr_at m1 (t + 1) l ->
     token_goal m1 (s + 1) (t + 1) l q fuel) ->
  0 <= lo ->
  exists m1, st8 s (s8 c) m = Some (tt, m1) /\
    let '(o, r) := unq stop q l in
    token_loop test fuel q (s + 1) (t + 1) m1 = Some ((s + Zlen (c :: o), t + 1 + (Zlen l - Zlen r)), wr m s (c :: o)) /\
    mem_ok (wr m s (c :: o)) /\ inv (wr m s (c :: o)).
Proof.
  intros Hok Hinv Hc Hs Ht Hcs IH H0. pose proof (cstr_range _ _ _ Hcs) as [_ Hl]. rewrite Zlen_cons in Hl.
  pose proof (Zlen_nonneg l).
  destruct (st8_keep m s (t + 1) c l Hok ltac:(unfold is_byte; lia) ltac:(lia) ltac:(lia) (cstr_tail _ _ _ _ Hcs))
    as (E & Hok1 & Hs1 & Hin).
  exists (wr m s [c]). split; [done|]. specialize (IH _ eq_refl Hok1 (t_keep _ _ _ _ _ Htest m s c Hok Hinv ltac:(lia) Hin) Hs1).
  unfold token_goal in IH. destruct (unq stop q l) as [o r] eqn:Hu.
  destruct (unq_suffix stop _ q l o r (Nat.le_refl _) Hu) as (k' & _ & Hk).
  assert (Hw : wr (wr m s [c]) (s + 1) o = wr m s (c :: o)).
  { change (s + 1) with (s + Zlen [c]). rewrite wr_app; [done|]. change (Zlen [c]) with 1. unfold in_mem, Zlen in *. lia. }
  rewrite Hw in IH. rewrite Zlen_cons. by replace (s + (1 + Zlen o)) with (s + 1 + Zlen o) by lia.
Qed.
Lemma token_loop_run fuel : forall m s t l q,
  mem_ok m -> inv m -> 0 <= lo -> lo <= s <= t -> t + Zlen l < hi -> cstr_at m t l -> (length l < fuel)%nat ->
  token_goal m s t l q fuel.
Proof.
  induction fuel as [|fuel IH]; intros m s t l q Hok Hinv H0 Hs Ht Hl Hf; [lia|]. unfold token_goal.
  pose proof (cstr_range _ _ _ Hl) as [_ Hlim]. pose proof (proj2 Hok). cbn [token_loop].
  run_with (ldc_nb0 m t l Hok Hl). rewrite s8_zero by apply nb_byte, Hl.
  destruct l as [|c l]; [cbn [unq]; rewrite wr_nil; split_and!; [|done..]; unfold nb, Zlen; simpl; rewrite ret_run; do 3 f_equal; lia|].
  assert (Hc : 0 < c < 256) by (by apply cstr_cons in Hl as (_ & ? & _)). unfold nb. cbn [nth unq].
  rewrite (proj2 (Z.eqb_neq c 0)) by lia. rewrite Zlen_cons in *. pose proof (Zlen_nonneg l). simpl in Hf.
  rewrite (bind_run _ _ m (negb q && stop c) m) by (destruct q; [done|by apply (t_run _ _ _ _ _ Htest)]).
  destruct (negb q && stop c); [rewrite wr_nil; split_and!; [|done..]; rewrite Zlen_cons, ret_run; do 3 f_equal; unfold Zlen; simpl; lia|].
  rewrite !s8_eqb by (unfold is_byte; lia).
  assert (Habs : forall q', token_goal m s (t + 1) l q' fuel) by (intros q'; apply IH; (done || lia || by eapply cstr_tail)).
  assert (Hrew : forall r : list Z, t + (1 + Zlen l - Zlen r) = t + 1 + (Zlen l - Zlen r)) by (intros; lia).
  destruct (Z.eqb_spec c 39) as [->|Hne]; cbn [negb].
  2: { destruct (token_put m s t c l q fuel) as (m1 & E & Hr); try done; [lia|by intros; apply IH; (done || lia)|].
       run_with E. rewrite !padd_small by lia. destruct (unq stop q l) as [o r]. by rewrite Hrew. }
  destruct q; cbn [negb].
  2: { rewrite padd_small by lia. specialize (Habs true). unfold token_goal in Habs. destruct (unq stop true l) as [o r].
       by rewrite Hrew. }
  pose proof (cstr_tail _ _ _ _ Hl) as Hl1. rewrite (padd_small t 1) by lia. run_with (ldc_nb0 m (t + 1) l Hok Hl1).
  rewrite s8_eqb by (try apply nb_byte; try apply Hl1; lia). destruct l as [|c1 l].
  { specialize (Habs false). unfold token_goal in Habs. destruct (unq stop false []) as [o r]. by rewrite Hrew. }
  unfold nb. cbn [nth]. specialize (Habs false). unfold token_goal in Habs.
  destruct (Z.eqb_spec c1 39) as [->|Hne]; cbn [negb].
  2: { destruct (unq stop false (c1 :: l)) as [o r]. by rewrite Hrew. }
  rewrite Zlen_cons in *. simpl in Hf. run_with (ldc_nb0 m (t + 1) _ Hok Hl1). unfold nb. cbn [nth].
  destruct (token_put m s (t + 1) 39 l true fuel) as (m1 & E & Hr); try done; [lia|lia|by intros; apply IH; (done || lia)|].
  run_with E. rewrite !padd_small by lia. destruct (unq stop true l) as [o r].
  by replace (t + (1 + (1 + Zlen l) - Zlen r)) with (t + 1 + 1 + (Zlen l - Zlen r)) by lia.
Qed.

End Loop.

(** ** Separators *)

Lemma s8_s8 b : is_byte b -> s8 (s8 b) = s8 b.
Proof. intros H. unfold s8 at 1. rewrite u8_s8 by done. unfold s8. by rewrite u8_small by apply H. Qed.

Lemma find_first_spec c l :
  match find_first c l with Some i => 0 <= i < Zlen l /\ c ∈ l | None => c ∉ l end.
Proof.
  destruct (decide (c ∈ l)) as [H|H].
  - destruct (find_first_in c l H) as (i & -> & Hi & _). done.
  - by rewrite find_first_none.
Qed.

Lemma strchr_char_run m p seps b :
  mem_ok m -> cstr_at m p seps -> 0 < b < 256 ->
  strchr p (s8 b) m = Some (match find_first b seps with Some i => p + i | None => 0 end, m).
Proof.
  intros Hok Hp Hb. unfold strchr, memfuel. erewrite bind_run by done. rewrite s8_zero by (unfold is_byte; lia).
  rewrite (proj2 (Z.eqb_neq b 0)) by lia. rewrite s8_s8 by (unfold is_byte; lia).
  apply strchr_loop_run; [done..|by eapply cstr_fuel].
Qed.

Lemma in_set_run m p seps b :
  mem_ok m -> 0 < p -> cstr_at m p seps -> 0 < b < 256 -> in_set p (s8 b) m = Some (sep_in seps b, m).
Proof.
  intros Hok Hp Hs Hb. unfold in_set, utfrune, Runesync.
  assert (Hlt : s8 b < 128).
  { unfold s8. rewrite u8_small by lia. destruct (Z.ltb_spec b (2 ^ 7)); lia. }
  destruct (Z.ltb_spec (s8 b) 0x80); [|lia]. rewrite (bind_run _ _ m _ _ (strchr_char_run m p seps b Hok Hs Hb)).
  rewrite ret_run. do 2 f_equal. pose proof (find_first_spec b seps) as Hf. unfold sep_in.
  destruct (find_first b seps) as [i|].
  - rewrite bool_decide_true by tauto. by rewrite (proj2 (Z.eqb_neq (p + i) 0)) by lia.
  - by rewrite bool_decide_false.
Qed.

(** A separator string outside the region that is written. *)
Definition apart (p : Z) (seps : list Z) (lo hi : Z) : Prop := p + Zlen seps + 1 <= lo \/ hi <= p.

Lemma cstr_wr_out m d bs p seps :
  in_mem m d (Zlen bs) -> cstr_at m p seps -> p + Zlen seps + 1 <= d \/ d + Zlen bs <= p -> cstr_at (wr m d bs) p seps.
Proof.
  intros Hin Hp Hd. eapply cstr_agree; [done|by apply Zlen_wr|]. intros i Hi. apply lk_wr_out; [done|]. lia.
Qed.

Lemma cstr_outside a n m m' p seps :
  same_outside a n m m' -> cstr_at m p seps -> apart p seps a (a + n) -> cstr_at m' p seps.
Proof. intros [Hl Ho] Hp Hd. eapply cstr_agree; [done|done|]. intros i Hi. apply Ho. unfold apart in Hd. lia. Qed.

Lemma in_set_tests p seps lo hi :
  0 < p -> apart p seps lo hi -> tests (in_set p) (sep_in seps) lo hi (fun m => cstr_at m p seps).
Proof.
  intros Hp Hd. split.
  - intros m b Hok Hs Hb. by apply in_set_run.
  - intros m d b Hok Hs Hr Hin. apply cstr_wr_out; [done|done|]. change (Zlen [b]) with 1. unfold apart in Hd. lia.
Qed.

Lemma drop_while_suffix p l : exists k, drop_while p l = drop k l /\ (k <= length l)%nat.
Proof.
  induction l as [|c l (k & IH & Hk)]; [by exists 0%nat|]. cbn [drop_while]. destruct (p c).
  - exists (S k). simpl. split; [done|lia].
  - exists 0%nat. simpl. split; [done|lia].
Qed.

Lemma drop_while_head p l : match drop_while p l with [] => True | c :: _ => p c = false end.
Proof. induction l as [|c l IH]; [done|]. cbn [drop_while]. destruct (p c) eqn:H; [done|]. by rewrite H. Qed.

Lemma cstr_drop_while m a l p : cstr_at m a l ->
  cstr_at m (a + (Zlen l - Zlen (drop_while p l))) (drop_while p l) /\ 0 <= Zlen l - Zlen (drop_while p l).
Proof.
  intros Hl. destruct (drop_while_suffix p l) as (k & -> & Hk).
  assert (He : Zlen l - Zlen (drop k l) = Z.of_nat k) by (unfold Zlen; rewrite length_drop; lia).
  rewrite He. split; [by apply cstr_drop|lia].
Qed.

Section Tokenize.
Context (qsep : Z) (seps : list Z).
Hypothesis Hq : 0 < qsep.

Lemma skip_seps_run fuel : forall m s l,
  mem_ok m -> cstr_at m qsep seps -> cstr_at m s l -> (length l < fuel)%nat ->
  skip_seps fuel s qsep m = Some (s + (Zlen l - Zlen (drop_while (sep_in seps) l)), m).
Proof using Hq.
  induction fuel as [|fuel IH]; intros m s l Hok Hsep Hl Hf; [lia|]. cbn [skip_seps].
  run_with (ldc_nb0 m s l Hok Hl). rewrite s8_zero by apply nb_byte, Hl.
  destruct l as [|c l]; [unfold nb, Zlen; simpl; ret_lia|].
  assert (Hc : 0 < c < 256) by (by apply cstr_cons in Hl as (_ & ? & _)). unfold nb. cbn [nth drop_while].
  rewrite (proj2 (Z.eqb_neq c 0)) by lia. run_with (in_set_run m qsep seps c Hok Hq Hsep Hc).
  pose proof (cstr_range _ _ _ Hl) as [H0 Hlim]. pose proof (proj2 Hok). rewrite Zlen_cons in *. pose proof (Zlen_nonneg l).
  destruct (sep_in seps c); [|rewrite Zlen_cons; ret_lia]. rewrite padd_small by lia.
  rewrite (IH m (s + 1) l) by (done || (by eapply cstr_tail) || (simpl in Hf; lia)). do 2 f_equal. lia.
Qed.

(** The NUL behind a token that is put out before the end of the text. *)
Lemma cut_token m s l o :
  mem_ok m -> cstr_at m s l -> nonul o -> Zlen o < Zlen l ->
  let m2 := wr m s (o ++ [0]) in
  st8 (s + Zlen o) 0 (wr m s o) = Some (tt, m2) /\ mem_ok m2 /\ cstr_at m2 s o /\ same_outside s (Zlen l + 1) m m2 /\
  forall a t, cstr_at m a t -> s + Zlen o < a -> cstr_at m2 a t.
Proof using.
  intros Hok Hl Hno Hlt m2. pose proof (cstr_range _ _ _ Hl) as [H0 Hlim]. pose proof (Zlen_nonneg o).
  assert (Hin : in_mem m s (Zlen o)) by (unfold in_mem; lia).
  assert (Hz : Zlen (o ++ [0]) = Zlen o + 1) by by rewrite Zlen_app.
  assert (Hin2 : in_mem m s (Zlen (o ++ [0]))) by (rewrite Hz; unfold in_mem; lia). split_and!.
  - rewrite st8_run by (apply in_mem_wr; [done|]; unfold in_mem; lia). change (u8 0) with 0.
    by rewrite wr_app by (change (Zlen [0]) with 1; unfold in_mem; lia).
  - apply mem_ok_wr; [done| |done]. apply Forall_app. split; [by apply nonul_bytes|by repeat constructor].
  - split; [done|by apply bytes_at_wr].
  - eapply same_outside_sub; [apply wr_same_outside, Hin2|lia|lia].
  - intros a t Ht Ha. apply cstr_wr_out; [done|done|lia].
Qed.

(** What is at the end of the output when a token stops. *)
Lemma out_char m s l o :
  mem_ok m -> cstr_at m s l -> Zlen o <= Zlen l ->
  ldc (s + Zlen o) (wr m s o) = Some (s8 (nb l (length o)), wr m s o).
Proof using.
  intros Hok Hl Hle. pose proof (cstr_range _ _ _ Hl) as [H0 Hlim]. pose proof (Zlen_nonneg o).
  destruct (cstr_nb m s l (length o) Hok Hl) as (K & _); [unfold Zlen in *; lia|].
  assert (K1 : lk (wr m s o) (s + Zlen o) = Some (nb l (length o))) by (rewrite lk_wr_out; [exact K|unfold in_mem; lia|lia]).
  by apply ldc_run.
Qed.

(** A token is cut off: what it stands for is at [s], and the scan goes on at
    [t'], where the rest of the text is, perhaps without its first separator. *)
Lemma qtoken_run m s l o r :
  mem_ok m -> cstr_at m qsep seps -> cstr_at m s l -> apart qsep seps s (s + Zlen l + 1) ->
  unq (sep_in seps) false l = (o, r) ->
  exists m' t' r', qtoken s qsep m = Some (t', m') /\ mem_ok m' /\ cstr_at m' s o /\ cstr_at m' t' r' /\
    same_outside s (Zlen l + 1) m m' /\ (r' = [] \/ s + Zlen o < t') /\ t' + Zlen r' = s + Zlen l /\ s + Zlen o <= t' /\
    drop_while (sep_in seps) r' = drop_while (sep_in seps) r.
Proof using Hq.
  intros Hok Hsep Hl Hd Hu. pose proof (cstr_range _ _ _ Hl) as [H0 Hlim]. pose proof (proj2 Hok) as Hsz. unfold qtoken, memfuel.
  erewrite bind_run by done.
  pose proof (token_loop_run (in_set qsep) (sep_in seps) s (s + Zlen l + 1) _ (in_set_tests qsep seps _ _ Hq Hd)
    (S (length m)) m s s l false Hok Hsep H0 ltac:(lia) ltac:(lia) Hl (cstr_fuel _ _ _ Hl)) as Hrun.
  unfold token_goal in Hrun. rewrite Hu in Hrun. destruct Hrun as (Hrun & Hok1 & Hsep1).
  destruct (unq_suffix _ _ false l o r (Nat.le_refl _) Hu) as (k & Hr & Hk).
  assert (Hlen : Zlen l - Zlen r = Z.of_nat k) by (rewrite Hr; unfold Zlen; rewrite length_drop; lia).
  assert (Hol : 0 <= Zlen o <= Z.of_nat k /\ Z.of_nat k <= Zlen l) by (unfold Zlen; lia).
  assert (Hno : nonul o) by (eapply unq_nonul; [done|exact Hu|apply Hl]).
  pose proof (cstr_drop m s l k Hl ltac:(lia)) as Hrest. rewrite <- Hr in Hrest.
  rewrite Hlen in Hrun. run_with Hrun. run_with (out_char m s l o Hok Hl ltac:(lia)). rewrite s8_zero by apply nb_byte, Hl.
  destruct (Z.lt_ge_cases (Zlen o) (Zlen l)) as [Hlt|Hge].
  - destruct (lookup_lt_is_Some_2 l (length o)) as [c Hc]; [unfold Zlen in Hlt; lia|]. unfold nb. rewrite (nth_lookup_Some _ _ _ _ Hc).
    pose proof (proj1 (Forall_lookup _ _) (proj1 Hl) _ _ Hc) as Hcr. cbv beta in Hcr. rewrite (proj2 (Z.eqb_neq c 0)) by lia.
    cbn [negb]. destruct (cut_token m s l o Hok Hl Hno Hlt) as (Hst & Hok2 & Ho & Hsame & Hout). run_with Hst. rewrite ret_run.
    destruct (Z.eqb_spec (s + Z.of_nat k) (s + Zlen o)) as [He|He].
    + destruct (unq_rest _ _ false l o r (Nat.le_refl _) Hu) as [->|(c' & r' & -> & Hstop)].
      { change (Zlen (@nil Z)) with 0 in Hlen. lia. }
      exists (wr m s (o ++ [0])), (s + Z.of_nat k + 1), r'. rewrite Zlen_cons in Hlen. rewrite padd_small by lia.
      split_and!; try done; try lia; [apply Hout; [by eapply cstr_tail|lia]|]. cbn [drop_while]. by rewrite Hstop.
    + exists (wr m s (o ++ [0])), (s + Z.of_nat k), r. split_and!; try done; try lia. apply Hout; [done|lia].
  - unfold nb. rewrite nth_overflow by (unfold Zlen in *; lia). cbn [negb Z.eqb]. rewrite ret_run.
    assert (Hr0 : r = []) by (apply length_zero_iff_nil; unfold Zlen in *; lia). rewrite Hr0 in *.
    exists (wr m s o), (s + Z.of_nat k), []. change (Zlen (@nil Z)) with 0 in *.
    assert (Hin : in_mem m s (Zlen o)) by (unfold in_mem; lia).
    assert (Hz : cstr_at (wr m s o) (s + Z.of_nat k) []) by (apply cstr_wr_out; [done|done|lia]).
    split_and!; try done; try lia; [|eapply same_outside_sub; [by apply wr_same_outside|lia|lia]|by left].
    split; [done|]. apply bytes_at_app. split; [by apply bytes_at_wr|]. replace (s + Zlen o) with (s + Z.of_nat k) by lia.
    apply Hz.
Qed.

Lemma tokens_drop n l k :
  drop_while (sep_in seps) l = drop_while (sep_in seps) k -> tokens seps n l = tokens seps n k.
Proof using. destruct n as [|n]; [done|]. cbn [tokens]. by intros ->. Qed.

Definition token_at (m : mem) (lo hi p : Z) (o : list Z) : Prop := cstr_at m p o /\ lo <= p /\ p + Zlen o <= hi.

Lemma tokenize_loop_run n : forall m s l,
  mem_ok m -> cstr_at m qsep seps -> cstr_at m s l -> apart qsep seps s (s + Zlen l + 1) ->
  exists m' ps, tokenize_loop n s qsep m = Some (ps, m') /\ mem_ok m' /\
    Forall2 (token_at m' s (s + Zlen l)) ps (tokens seps n l) /\ same_outside s (Zlen l + 1) m m' /\ (l = [] -> m' = m).
Proof using Hq.
  induction n as [|n IH]; intros m s l Hok Hsep Hl Hd; cbn [tokenize_loop tokens].
  { exists m, []. split_and!; [done|done|constructor|apply outside_refl|done]. }
  unfold memfuel. erewrite bind_run by done. run_with (skip_seps_run (S (length m)) m s l Hok Hsep Hl (cstr_fuel _ _ _ Hl)).
  destruct (cstr_drop_while m s l (sep_in seps) Hl) as [Hl1 Hle]. remember (drop_while (sep_in seps) l) as l1 eqn:Hdw.
  remember (s + (Zlen l - Zlen l1)) as s1 eqn:Es1. run_with (ldc_nb0 m s1 l1 Hok Hl1). rewrite s8_zero by apply nb_byte, Hl1.
  assert (Hs1 : s <= s1 /\ s1 + Zlen l1 = s + Zlen l) by lia. destruct l1 as [|c l1'] eqn:El1.
  { exists m, []. split_and!; [done|done|constructor|apply outside_refl|done]. }
  assert (Hc : 0 < c < 256) by (by apply cstr_cons in Hl1 as (_ & ? & _)). unfold nb. cbn [nth].
  rewrite (proj2 (Z.eqb_neq c 0)) by lia. rewrite <- El1 in *. destruct (unq (sep_in seps) false l1) as [o r] eqn:Hu.
  destruct (qtoken_run m s1 l1 o r Hok Hsep Hl1) as (m1 & t' & r' & Hq1 & Hok1 & Ho & Hr' & Hsm & Hgap & Hend & Hot & Hdr);
    [unfold apart in *; lia|done|].
  run_with Hq1. rewrite (tokens_drop n r r' (eq_sym Hdr)).
  assert (Hs' : same_outside s (Zlen l + 1) m m1) by (eapply same_outside_sub; [exact Hsm|lia|lia]).
  assert (Hlen1 : 0 <= Zlen o) by apply Zlen_nonneg.
  destruct (IH m1 t' r' Hok1) as (m' & ps & Hrun & Hok' & Hps & Hs2 & Hnil); [| |unfold apart in *; lia|].
  { eapply cstr_outside; [exact Hs'|done|]. unfold apart in *. lia. }
  { done. }
  run_with Hrun. exists m', (s1 :: ps). split_and!; [done|done| | |].
  - constructor.
    + split; [|zpos; lia]. destruct Hgap as [->|Hgap]; [by rewrite (Hnil eq_refl)|].
      eapply cstr_agree; [exact Ho|apply Hs2|]. intros i Hi. apply Hs2. clear -Hi Hgap. lia.
    + eapply Forall2_impl; [exact Hps|]. intros p k (H1 & H2 & H3). split; [done|]. lia.
  - eapply outside_trans; [exact Hs'|]. eapply same_outside_sub; [exact Hs2|lia|lia].
  - intros ->. simpl in Hdw. congruence.
Qed.

(** *** gettokens *)

Lemma etoken_loop_run fuel : forall m t l q o r,
  mem_ok m -> cstr_at m qsep seps -> cstr_at m t l -> (length l < fuel)%nat -> unq (sep_in seps) q l = (o, r) ->
  etoken_loop fuel q t qsep m = Some (t + (Zlen l - Zlen r), m).
Proof using Hq.
  induction fuel as [|fuel IH]; intros m t l q o r Hok Hsep Hl Hf Hu; [lia|].
  pose proof (cstr_range _ _ _ Hl) as [H0 Hlim]. pose proof (proj2 Hok). cbn [etoken_loop].
  run_with (ldc_nb0 m t l Hok Hl). rewrite s8_zero by apply nb_byte, Hl.
  destruct l as [|c l]; [injection Hu as <- <-; unfold nb, Zlen; simpl; ret_lia|].
  assert (Hc : 0 < c < 256) by (by apply cstr_cons in Hl as (_ & ? & _)). unfold nb. cbn [nth]. cbn [unq] in Hu.
  rewrite (proj2 (Z.eqb_neq c 0)) by lia. rewrite Zlen_cons in *. pose proof (Zlen_nonneg l). simpl in Hf.
  pose proof (cstr_tail _ _ _ _ Hl) as Hl1.
  rewrite (bind_run _ _ m (negb q && sep_in seps c) m) by (destruct q; [done|by apply in_set_run]).
  destruct (negb q && sep_in seps c); [injection Hu as <- <-; rewrite Zlen_cons; ret_lia|].
  rewrite !s8_eqb by (unfold is_byte; lia). rewrite !(padd_small t) by lia.
  assert (Hgo : forall q' o', unq (sep_in seps) q' l = (o', r) -> etoken_loop fuel q' (t + 1) qsep m = Some (t + (1 + Zlen l - Zlen r), m)).
  { intros q' o' Hu'. rewrite (IH m (t + 1) l q' o' r) by (done || lia). do 2 f_equal. lia. }
  destruct (Z.eqb_spec c 39) as [->|Hne]; cbn [negb] in *.
  2: { destruct (unq (sep_in seps) q l) as [o' r'] eqn:Hu'. injection Hu as <- <-. by eapply Hgo. }
  destruct q; cbn [negb] in *; [|by eapply Hgo]. run_with (ldc_nb0 m (t + 1) l Hok Hl1).
  rewrite s8_eqb by (try apply nb_byte; try apply Hl1; lia). destruct l as [|c1 l]; [by eapply Hgo|]. unfold nb. cbn [nth].
  destruct (Z.eqb_spec c1 39) as [->|Hne]; cbn [negb]; [|by eapply Hgo].
  destruct (unq (sep_in seps) true l) as [o' r'] eqn:Hu'. injection Hu as <- <-. rewrite Zlen_cons in *. simpl in Hf.
  apply cstr_tail in Hl1. replace (t + 1 + 1) with (t + 2) in Hl1 by lia. zpos.
  rewrite (IH m (t + 2) l true o' r') by (done || lia). do 2 f_equal. lia.
Qed.

Lemma clear_seps_run fuel : forall m s l,
  mem_ok m -> cstr_at m qsep seps -> cstr_at m s l -> apart qsep seps s (s + Zlen l + 1) -> (length l < fuel)%nat ->
  let k := (length l - length (drop_while (sep_in seps) l))%nat in
  clear_seps fuel s qsep m = Some (s + Z.of_nat k, wr m s (replicate k 0)).
Proof using Hq.
  induction fuel as [|fuel IH]; intros m s l Hok Hsep Hl Hd Hf; [lia|]. cbn [clear_seps]. cbv zeta.
  run_with (ldc_nb0 m s l Hok Hl). rewrite s8_zero by apply nb_byte, Hl.
  destruct l as [|c l]; [simpl; rewrite wr_nil; ret_lia|].
  assert (Hc : 0 < c < 256) by (by apply cstr_cons in Hl as (_ & ? & _)). unfold nb. cbn [nth drop_while].
  rewrite (proj2 (Z.eqb_neq c 0)) by lia. run_with (in_set_run m qsep seps c Hok Hq Hsep Hc).
  pose proof (cstr_range _ _ _ Hl) as [H0 Hlim]. pose proof (proj2 Hok). rewrite Zlen_cons in *. pose proof (Zlen_nonneg l).
  destruct (sep_in seps c); [|rewrite Nat.sub_diag, wr_nil; ret_lia].
  assert (Hin : in_mem m s 1) by (unfold in_mem; lia). erewrite bind_run by (by apply st8_run). change (u8 0) with 0.
  assert (Hok1 : mem_ok (wr m s [0])) by (apply mem_ok_wr; [done|by repeat constructor|done]).
  destruct (drop_while_suffix (sep_in seps) l) as (j & Hj & Hjl).
  assert (Hlj : length (drop_while (sep_in seps) l) = (length l - j)%nat) by (rewrite Hj; apply length_drop).
  rewrite padd_small by lia. rewrite (IH (wr m s [0]) (s + 1) l).
  - cbn [length]. rewrite Hlj. replace (S (length l) - (length l - j))%nat with (S (length l - (length l - j))) by lia.
    cbn [replicate]. do 2 f_equal; [lia|]. change (s + 1) with (s + Zlen [0]). rewrite wr_app; [done|].
    change (Zlen [0]) with 1. unfold in_mem, Zlen in *. rewrite length_replicate. lia.
  - done.
  - apply cstr_wr_out; [done|done|]. change (Zlen [0]) with 1. unfold apart in Hd. lia.
  - apply cstr_wr_out; [done|by eapply cstr_tail|]. change (Zlen [0]) with 1. lia.
  - unfold apart in *. lia.
  - simpl in Hf. lia.
Qed.

(** The text is at an end, or a separator is next. *)
Definition at_stop (l : list Z) : Prop := l = [] \/ exists c l', l = c :: l' /\ sep_in seps c = true.

Lemma cleared_stop m s l :
  mem_ok m -> cstr_at m s l -> at_stop l ->
  let k := (length l - length (drop_while (sep_in seps) l))%nat in
  lk (wr m s (replicate k 0)) s = Some 0 /\ (l <> [] -> (1 <= k)%nat).
Proof using.
  intros Hok Hl Hst k. pose proof (cstr_range _ _ _ Hl) as [H0 Hlim]. destruct Hst as [->|(c & l' & -> & Hc)].
  - unfold k. simpl. rewrite wr_nil. split; [by apply cstr_nil|done].
  - destruct (drop_while_suffix (sep_in seps) l') as (j & Hj & Hjl).
    assert (Hk : (1 <= k <= S (length l'))%nat).
    { unfold k. cbn [drop_while]. rewrite Hc, Hj, length_drop. simpl. lia. }
    split; [|lia]. rewrite lk_wr_in; [|unfold in_mem|]; unfold Zlen in *; rewrite ?length_replicate; simpl in *; try lia.
    rewrite Z.sub_diag. destruct k; [lia|done].
Qed.

(** A token whose end has become a NUL. *)
Lemma token_cut m m' a l j :
  cstr_at m a l -> same_outside (a + Z.of_nat j) (Zlen l + 1 - Z.of_nat j) m m' -> (j <= length l)%nat ->
  lk m' (a + Z.of_nat j) = Some 0 -> cstr_at m' a (take j l).
Proof using.
  intros [Hn Hb] Hs Hj H0. split; [by apply Forall_take|]. rewrite <- (take_drop j l), <- app_assoc in Hb.
  apply bytes_at_app in Hb as [Hb _]. assert (Hl : Zlen (take j l) = Z.of_nat j) by (unfold Zlen; rewrite length_take; lia).
  apply bytes_at_app. split.
  - eapply bytes_at_agree; [exact Hb|apply Hs|]. intros i Hi. apply Hs. lia.
  - rewrite Hl. apply bytes_at_cons. split; [done|]. apply bytes_at_nil. pose proof (lk_Some _ _ _ H0). lia.
Qed.

(** The separators before a token are cleared: where the token is, and the
    memory then. *)
Lemma cleared_run m s l l1 :
  mem_ok m -> cstr_at m qsep seps -> cstr_at m s l -> apart qsep seps s (s + Zlen l + 1) ->
  drop_while (sep_in seps) l = l1 ->
  exists mc s1, clear_seps (S (length m)) s qsep m = Some (s1, mc) /\ mem_ok mc /\ cstr_at mc qsep seps /\
    cstr_at mc s1 l1 /\ same_outside s (Zlen l + 1) m mc /\ s <= s1 /\ s1 + Zlen l1 = s + Zlen l /\
    (at_stop l -> lk mc s = Some 0 /\ (l1 <> [] -> s < s1)).
Proof using Hq.
  intros Hok Hsep Hl Hd <-. destruct (cstr_drop_while m s l (sep_in seps) Hl) as [Hl1 Hle].
  pose proof (clear_seps_run (S (length m)) m s l Hok Hsep Hl Hd (cstr_fuel _ _ _ Hl)) as Hrun.
  pose proof (fun H => cleared_stop m s l Hok Hl H) as Hcl. cbv zeta in Hcl, Hrun.
  destruct (drop_while_suffix (sep_in seps) l) as (j & Hj & Hjl).
  remember (drop_while (sep_in seps) l) as l1 eqn:Hdw. remember (length l - length l1)%nat as k eqn:Ek.
  replace (Zlen l - Zlen l1) with (Z.of_nat k) in Hl1 by (unfold Zlen in *; lia).
  assert (Hs1 : s + Z.of_nat k + Zlen l1 = s + Zlen l) by (unfold Zlen in *; lia). pose proof (cstr_range _ _ _ Hl) as [H0 Hlim].
  assert (Hrep : Zlen (replicate k 0) = Z.of_nat k) by (unfold Zlen; by rewrite length_replicate).
  assert (Hin : in_mem m s (Zlen (replicate k 0))) by (rewrite Hrep; unfold in_mem; zpos; lia).
  assert (Hsc : same_outside s (Zlen l + 1) m (wr m s (replicate k 0)))
    by (eapply same_outside_sub; [by apply wr_same_outside|lia|rewrite Hrep; zpos; lia]).
  exists (wr m s (replicate k 0)), (s + Z.of_nat k).
  split_and!; [done|apply mem_ok_wr; [done|by apply Forall_replicate|done]| | |done|lia|done|].
  - eapply cstr_outside; [exact Hsc|done|unfold apart in *; lia].
  - apply cstr_wr_out; [done|done|rewrite Hrep; lia].
  - intros Hst. destruct (Hcl Hst) as [H1 H2]. split; [done|]. intros Hne. assert (l <> []) by (by intros ->). specialize (H2 H). lia.
Qed.

Lemma gettokens_loop_run n : forall m s l,
  mem_ok m -> cstr_at m qsep seps -> cstr_at m s l -> apart qsep seps s (s + Zlen l + 1) ->
  exists m' ps, gettokens_loop n s qsep m = Some (ps, m') /\ mem_ok m' /\
    Forall2 (token_at m' s (s + Zlen l)) ps (raw_tokens seps n l) /\ same_outside s (Zlen l + 1) m m' /\
    (n = 0%nat -> m' = m) /\ (n <> 0%nat -> at_stop l -> lk m' s = Some 0).
Proof using Hq.
  induction n as [|n IH]; intros m s l Hok Hsep Hl Hd; cbn [gettokens_loop].
  { exists m, []. split_and!; [done|done|constructor|apply outside_refl|done|done]. }
  unfold memfuel. erewrite bind_run by done. cbn [raw_tokens]. destruct (drop_while (sep_in seps) l) as [|c l1'] eqn:El1;
    destruct (cleared_run m s l _ Hok Hsep Hl Hd El1) as (mc & s1 & Hrun1 & Hokc & Hsepc & Hlc & Hsc & Hle & Hs1 & Hcl);
    run_with Hrun1; run_with (ldc_nb0 mc s1 _ Hokc Hlc); rewrite s8_zero by apply nb_byte, Hlc.
  { exists mc, []. split_and!; [done|done|constructor|done|done|]. intros _ Hst. by apply Hcl. }
  assert (Hc : 0 < c < 256) by (by apply cstr_cons in Hlc as (_ & ? & _)). unfold nb. cbn [nth].
  rewrite (proj2 (Z.eqb_neq c 0)) by lia. set (l1 := c :: l1') in *. destruct (unq (sep_in seps) false l1) as [o r] eqn:Hu.
  cbn [snd]. unfold etoken, memfuel. rewrite (bind_run _ _ mc (s1 + (Zlen l1 - Zlen r)) mc).
  2: { erewrite bind_run by done. eapply etoken_loop_run; [done..|by eapply cstr_fuel|exact Hu]. }
  destruct (unq_suffix _ _ false l1 o r (Nat.le_refl _) Hu) as (j & Hr & Hj).
  assert (Hlr : Zlen l1 - Zlen r = Z.of_nat j /\ (length l1 - length r)%nat = j) by (rewrite Hr; unfold Zlen; rewrite length_drop; lia).
  destruct Hlr as [-> ->]. pose proof (cstr_drop mc s1 l1 j Hlc ltac:(lia)) as Hlr. rewrite <- Hr in Hlr.
  assert (Hlj : s1 + Z.of_nat j + Zlen r = s + Zlen l) by (rewrite Hr; unfold Zlen in *; rewrite length_drop; lia).
  destruct (IH mc (s1 + Z.of_nat j) r Hokc Hsepc Hlr ltac:(unfold apart in *; lia)) as (m' & ps & Hrun & Hok' & Hps & Hs2 & Hn0 & Hst).
  run_with Hrun. exists m', (s1 :: ps). split_and!; [done|done| | |done|].
  - destruct n as [|n].
    { inversion Hps; subst. rewrite Hn0 by done. constructor; [|constructor]. split; [done|lia]. }
    constructor.
    + assert (Htl : Zlen (take j l1) = Z.of_nat j) by (unfold Zlen; rewrite length_take; lia).
      split; [|rewrite Htl; unfold Zlen in *; lia]. eapply token_cut; [exact Hlc| |lia|].
      * replace (Zlen l1 + 1 - Z.of_nat j) with (Zlen r + 1) by lia. exact Hs2.
      * apply Hst; [done|]. eapply unq_rest; [apply Nat.le_refl|exact Hu].
    + eapply Forall2_impl; [exact Hps|]. intros p t (H1 & H2 & H3). split; [done|]. lia.
  - eapply outside_trans; [exact Hsc|]. eapply same_outside_sub; [exact Hs2|lia|lia].
  - intros _ Hstop. destruct (Hcl Hstop) as [H1 H2]. specialize (H2 ltac:(done)). rewrite (proj2 Hs2); [done|lia].
Qed.

End Tokenize.

(** ** getfields *)

(** A character of more than one byte has no byte below [Runeself]. *)
Lemma dec_high c s n r :
  nonul (c :: s) -> 0x80 <= c -> dec (c :: s) = (n, r) ->
  1 <= n <= Zlen (c :: s) /\ 0x80 <= r <= 0x10FFFF /\ Forall (fun b => 0x80 <= b) (take (Z.to_nat n) (c :: s)).
Proof.
  intros Hn Hc Hd. destruct (dec_cases (c :: s) n r (nonul_bytes _ Hn) ltac:(done) Hd) as [[= -> ->]|(Hv & -> & t & Et)].
  { unfold Bad, Runeerror. split_and!; try lia; [rewrite Zlen_cons; zpos; lia|]. by repeat constructor. }
  pose proof (Zlen_enc r) as Hl. pose proof (proj1 (valid_spec r) Hv) as [Hr _]. pose proof (digits r ltac:(lia)) as Hdig.
  assert (H80 : 0x80 <= r).
  { destruct (Z.ltb_spec r 0x80); [|done]. unfold enc in Et. rewrite (proj2 (Z.ltb_lt r 0x80)) in Et by done.
    injection Et as -> _. lia. }
  rewrite Et, to_nat_Zlen, take_app_length. split_and!; [lia|rewrite Zlen_app; zpos; lia|lia|lia|].
  unfold enc. destruct (Z.ltb_spec r 0x80); [lia|]. destruct (Z.ltb_spec r 0x800); [|destruct (Z.ltb_spec r 0x10000)];
    repeat (apply Forall_cons; split); try apply Forall_nil; try lia; Z.div_mod_to_equations; lia.
Qed.

Lemma dec_len b s n r :
  nonul (b :: s) -> dec (b :: s) = (n, r) -> 1 <= n <= Zlen (b :: s) /\ 0 < r <= 0x10FFFF.
Proof.
  intros Hn Hd. assert (Hb : 0 < b < 256) by (by apply Forall_cons in Hn as [? _]).
  destruct (Z.lt_ge_cases b 0x80) as [Hlt|Hge].
  - rewrite dec_ascii in Hd by lia. injection Hd as <- <-. rewrite Zlen_cons. zpos. lia.
  - destruct (dec_high b s n r Hn Hge Hd) as (? & ? & _). lia.
Qed.

(** A byte below [Runeself] is a character of its own. *)
Lemma ascii_rune n : forall s off c, (length s <= n)%nat -> nonul s -> 0 < c < 0x80 ->
  c ∈ s <-> c ∈ map snd (runes_from (length s) off s).
Proof.
  induction n as [|n IH]; intros s off c Hl Hn Hc; [by destruct s; [|simpl in Hl; lia]|].
  destruct s as [|b s]; [done|]. destruct (dec (b :: s)) as [k r] eqn:Hd. rewrite (runes_cons off b s k r Hn Hd).
  cbn [map snd]. rewrite (elem_of_cons _ c r). assert (Hb : 0 < b < 256) by (by apply Forall_cons in Hn as [? _]).
  assert (Hk : (1 <= Z.to_nat k)%nat).
  { destruct (dec_len b s k r Hn Hd). lia. }
  rewrite <- (IH (drop (Z.to_nat k) (b :: s)) (off + k) c) by
    (try (rewrite length_drop; simpl in *; lia); try done; by apply Forall_drop).
  destruct (Z.lt_ge_cases b 0x80) as [Hlt|Hge].
  - rewrite dec_ascii in Hd by lia. injection Hd as <- <-. rewrite elem_of_cons. done.
  - destruct (dec_high b s k r Hn Hge Hd) as (_ & Hr & Hf). rewrite <- (take_drop (Z.to_nat k) (b :: s)) at 1.
    rewrite elem_of_app. split; [|intros [->|H]; [lia|by right]]. intros [H|H]; [|by right].
    apply (proj1 (Forall_forall _ _) Hf) in H. lia.
Qed.

Lemma runes_from_off n : forall s off o r, nonul s -> (length s <= n)%nat ->
  (o, r) ∈ runes_from (length s) off s -> off <= o.
Proof.
  induction n as [|n IH]; intros s off o r Hn Hl H; [destruct s; [by apply elem_of_nil in H|simpl in Hl; lia]|].
  destruct s as [|b s]; [by apply elem_of_nil in H|]. destruct (dec (b :: s)) as [k r'] eqn:Hd.
  destruct (dec_len b s k r' Hn Hd) as [Hk _]. rewrite (runes_cons off b s k r' Hn Hd) in H.
  apply elem_of_cons in H as [[= -> _]|H]; [lia|]. apply IH in H; [lia|by apply Forall_drop|].
  rewrite length_drop. simpl in *. lia.
Qed.

Lemma first_rune_spec r l :
  match first_rune r l with Some o => (o, r) ∈ l | None => r ∉ map snd l end.
Proof.
  unfold first_rune. induction l as [|[o r'] l IH]; simpl; [by apply not_elem_of_nil|].
  destruct (Z.eqb_spec r' r) as [->|Hne]; simpl; [by left|]. destruct (List.find _ l) as [[o' r'']|]; simpl in *.
  - by right.
  - apply not_elem_of_cons. split; [congruence|done].
Qed.

Lemma in_set_rune_run m p seps r :
  mem_ok m -> 0 < p -> cstr_at m p seps -> 0 < r <= 0x10FFFF -> in_set p r m = Some (rune_in seps r, m).
Proof.
  intros Hok Hp Hs Hr. unfold in_set, utfrune, rune_in, Runesync. destruct (Z.ltb_spec r 0x80) as [Hlt|Hge].
  - rewrite (bind_run _ _ m _ _ (strchr_run m p seps r Hok Hs ltac:(lia))), ret_run. do 2 f_equal.
    pose proof (find_first_spec r seps) as Hf. pose proof (ascii_rune _ seps 0 r (Nat.le_refl _) (proj1 Hs) ltac:(lia)) as Ha.
    fold (runes seps) in Ha. destruct (find_first r seps) as [i|].
    + rewrite bool_decide_true by tauto. by rewrite (proj2 (Z.eqb_neq (p + i) 0)) by lia.
    + by rewrite bool_decide_false by tauto.
  - rewrite (bind_run _ _ m (match first_rune r (runes seps) with Some o => p + o | None => 0 end) m).
    2: { unfold memfuel. erewrite bind_run by done. unfold runes.
         apply (utfrune_loop_run m r _ seps p p 0); [done|done|by eapply cstr_fuel|lia|lia]. }
    rewrite ret_run. do 2 f_equal. pose proof (first_rune_spec r (runes seps)) as Hf.
    destruct (first_rune r (runes seps)) as [o|].
    + pose proof (runes_from_off _ seps 0 o r (proj1 Hs) (Nat.le_refl _) Hf).
      rewrite bool_decide_true by (apply list_elem_of_fmap; by exists (o, r)). by rewrite (proj2 (Z.eqb_neq (p + o) 0)) by lia.
    + by rewrite bool_decide_false.
Qed.

Lemma cells_from_fuel f1 : forall f2 s, nonul s -> (length s <= f1)%nat -> (length s <= f2)%nat ->
  cells_from f1 s = cells_from f2 s.
Proof.
  induction f1 as [|f1 IH]; intros f2 s Hn H1 H2; [destruct s; [by destruct f2|simpl in H1; lia]|].
  destruct s as [|b s]; [by destruct f2|]. destruct f2 as [|f2]; [simpl in H2; lia|]. cbn [cells_from].
  destruct (dec (b :: s)) as [n r] eqn:Hd. destruct (dec_len b s n r Hn Hd) as [Hr _]. f_equal.
  apply IH; [by apply Forall_drop|..]; rewrite length_drop; simpl in *; lia.
Qed.

Lemma cells_cons b s n r : nonul (b :: s) -> dec (b :: s) = (n, r) ->
  cells (b :: s) = (take (Z.to_nat n) (b :: s), r) :: cells (drop (Z.to_nat n) (b :: s)).
Proof.
  intros Hn Hd. unfold cells at 1. cbn [length cells_from]. rewrite Hd. f_equal. destruct (dec_len b s n r Hn Hd) as [Hr _].
  apply cells_from_fuel; [by apply Forall_drop|..]; rewrite ?length_drop; simpl; lia.
Qed.

Lemma bytes_of_cells n : forall l, (length l <= n)%nat -> nonul l -> bytes_of (cells l) = l.
Proof.
  induction n as [|n IH]; intros l Hl Hn; [by destruct l; [|simpl in Hl; lia]|]. destruct l as [|b l]; [done|].
  destruct (dec (b :: l)) as [k r] eqn:Hd. rewrite (cells_cons b l k r Hn Hd). unfold bytes_of. cbn [map fst concat].
  fold (bytes_of (cells (drop (Z.to_nat k) (b :: l)))). destruct (dec_len b l k r Hn Hd) as [Hr _].
  rewrite IH; [apply take_drop|rewrite length_drop; simpl in *; lia|by apply Forall_drop].
Qed.

(** *** The loop *)

Section Getfields.
Context (set : Z) (seps : list Z).
Hypothesis Hset : 0 < set.

(** One round: the end of the text, or a character and its class. *)
Lemma getfields_round fuel m str l narg max mflag intok args :
  mem_ok m -> cstr_at m set seps -> cstr_at m str l ->
  getfields_loop (S fuel) str narg max mflag intok set args m =
    match l with
    | [] => Some ((narg, args), m)
    | _ =>
        let n := (dec l).1 in
        if rune_in seps (dec l).2 then
          if narg >=? max then Some ((narg, args), m)
          else getfields_loop fuel (str + n) (if mflag : bool then narg else narg + 1) max mflag false set
                 (set_arg args narg (str + n)) (wr m str [0])
        else getfields_loop fuel (str + n) (if negb intok && mflag then narg + 1 else narg) max mflag true set args m
    end.
Proof using Hset.
  intros Hok Hsep Hl. cbn [getfields_loop]. destruct l as [|b l].
  - rewrite (bind_run _ _ m (1, 0) m); [done|]. by rewrite (chartorune_run m str []) by by apply cstr_reads.
  - destruct (dec (b :: l)) as [n r] eqn:Hd. cbn [fst snd].
    destruct (walk_step m str b l n r Hok Hl Hd) as (_ & _ & _ & Hc & Hp & _). rewrite (bind_run _ _ m (n, r) m) by done.
    destruct (dec_len b l n r (proj1 Hl) Hd) as [_ Hr]. rewrite (proj2 (Z.eqb_neq r 0)) by lia.
    run_with (in_set_rune_run m set seps r Hok Hset Hsep Hr). rewrite !Hp. destruct (rune_in seps r); [|done].
    destruct (narg >=? max); [done|]. pose proof (cstr_range _ _ _ Hl) as [H0 Hlim]. rewrite Zlen_cons in Hlim.
    erewrite bind_run by (apply st8_run; unfold in_mem; zpos; lia). done.
Qed.

(** The memory after a separator is cut. *)
Lemma getfields_cut m str b l n r :
  mem_ok m -> cstr_at m set seps -> cstr_at m str (b :: l) -> apart set seps str (str + Zlen (b :: l) + 1) ->
  dec (b :: l) = (n, r) ->
  let l' := drop (Z.to_nat n) (b :: l) in
  mem_ok (wr m str [0]) /\ cstr_at (wr m str [0]) set seps /\ cstr_at (wr m str [0]) (str + n) l' /\
  cstr_at (wr m str [0]) str [] /\ str + n + Zlen l' = str + Zlen (b :: l) /\ 1 <= n /\
  same_outside str 1 m (wr m str [0]).
Proof using.
  intros Hok Hsep Hl Hd Hdec l'. pose proof (cstr_range _ _ _ Hl) as [H0 Hlim]. destruct (dec_len b l n r (proj1 Hl) Hdec) as [Hn _].
  assert (Hin : in_mem m str 1) by (unfold in_mem; lia). destruct (walk_step m str b l n r Hok Hl Hdec) as (_&_&_&_&_&_&Hs').
  split_and!.
  - apply mem_ok_wr; [done|by repeat constructor|done].
  - apply cstr_wr_out; [done|done|]. change (Zlen [0]) with 1. unfold apart in Hd. lia.
  - apply cstr_wr_out; [done|done|]. change (Zlen [0]) with 1. lia.
  - apply cstr_nil. by rewrite lk_wr_in, Z.sub_diag by (done || change (Zlen [0]) with 1; lia).
  - unfold l', Zlen in *. rewrite length_drop. lia.
  - lia.
  - by apply (wr_same_outside m str [0]).
Qed.

(** The character stays in the field that goes on behind it. *)
Lemma field_grow m m' str b l n r f :
  mem_ok m -> cstr_at m str (b :: l) -> dec (b :: l) = (n, r) ->
  let l' := drop (Z.to_nat n) (b :: l) in
  same_outside (str + n) (Zlen l' + 1) m m' -> cstr_at m' (str + n) f -> Zlen f <= Zlen l' ->
  cstr_at m' str (take (Z.to_nat n) (b :: l) ++ f) /\ Zlen (take (Z.to_nat n) (b :: l) ++ f) <= Zlen (b :: l).
Proof using.
  intros Hok Hl Hd l' Hs Hf Hle. destruct (dec_len b l n r (proj1 Hl) Hd) as [Hn _].
  assert (Hlt : Zlen (take (Z.to_nat n) (b :: l)) = n) by (unfold Zlen in *; rewrite length_take; lia).
  assert (Hll : Zlen l' = Zlen (b :: l) - n) by (unfold l', Zlen in *; rewrite length_drop; lia).
  split; [|rewrite Zlen_app; lia]. destruct Hl as [Hnn Hb], Hf as [Hnf Hbf].
  split; [apply Forall_app; split; [by apply Forall_take|done]|]. rewrite <- app_assoc. apply bytes_at_app. rewrite Hlt. split; [|done].
  rewrite <- (take_drop (Z.to_nat n) (b :: l)), <- app_assoc in Hb. apply bytes_at_app in Hb as [Hb _].
  eapply bytes_at_agree; [exact Hb|apply Hs|]. intros i Hi. apply Hs. lia.
Qed.

Lemma tokens_in m lo hi lo' hi' ps fs :
  Forall2 (token_at m lo hi) ps fs -> lo' <= lo -> hi <= hi' -> Forall2 (token_at m lo' hi') ps fs.
Proof using. intros H H1 H2. eapply Forall2_impl; [exact H|]. intros p f (? & ? & ?). split; [done|lia]. Qed.

Lemma set_arg_snoc args v : set_arg args (Zlen args) v = args ++ [v].
Proof using. unfold set_arg. by rewrite Z.ltb_irrefl. Qed.

Definition fields_goal (res : list Z * list (list Z)) (m : mem) (str : Z) (l : list Z) (narg : Z) (args : list Z)
    (r : option (Z * list Z * mem)) : Prop :=
  exists m' ps more, r = Some ((narg + Zlen ps, args ++ ps ++ more), m') /\ cstr_at m' str res.1 /\ Zlen res.1 <= Zlen l /\
    Forall2 (token_at m' str (str + Zlen l)) ps res.2 /\ same_outside str (Zlen l + 1) m m'.

(** A field ends at a separator and the next one begins behind it. *)
Lemma fields_next m str b l n r narg args f fs res :
  mem_ok m -> cstr_at m set seps -> cstr_at m str (b :: l) -> apart set seps str (str + Zlen (b :: l) + 1) ->
  dec (b :: l) = (n, r) ->
  fields_goal (f, fs) (wr m str [0]) (str + n) (drop (Z.to_nat n) (b :: l)) (narg + 1) (args ++ [str + n]) res ->
  fields_goal ([], f :: fs) m str (b :: l) narg args res.
Proof using.
  intros Hok Hsep Hl Hd Hdec (m' & ps & more & -> & Hf & Hfl & Hps & Hs). cbn [fst snd] in *.
  destruct (getfields_cut m str b l n r Hok Hsep Hl Hd Hdec) as (Hok1 & Hsep1 & Hl1 & H0 & Hlen & Hn & Hs1).
  pose proof (Zlen_nonneg (drop (Z.to_nat n) (b :: l))). exists m', ((str + n) :: ps), more. cbn [fst snd]. split_and!.
  - rewrite Zlen_cons, <- app_assoc. cbn [app]. do 3 f_equal. lia.
  - eapply cstr_agree; [exact H0|apply Hs|]. intros i Hi. change (Zlen (@nil Z)) with 0 in Hi. apply Hs. lia.
  - rewrite Zlen_cons. change (Zlen (@nil Z)) with 0. zpos. lia.
  - constructor; [split; [done|lia]|]. eapply tokens_in; [exact Hps|lia|lia].
  - eapply outside_trans; (eapply same_outside_sub; [|..]); [exact Hs1|lia|lia|exact Hs|lia|lia].
Qed.

(** A character of a field. *)
Lemma fields_char m str b l n r narg args f fs res :
  mem_ok m -> cstr_at m str (b :: l) -> dec (b :: l) = (n, r) ->
  fields_goal (f, fs) m (str + n) (drop (Z.to_nat n) (b :: l)) narg args res ->
  fields_goal (take (Z.to_nat n) (b :: l) ++ f, fs) m str (b :: l) narg args res.
Proof using.
  intros Hok Hl Hdec (m' & ps & more & -> & Hf & Hfl & Hps & Hs). cbn [fst snd] in *.
  destruct (dec_len b l n r (proj1 Hl) Hdec) as [Hn _].
  assert (Hll : Zlen (drop (Z.to_nat n) (b :: l)) = Zlen (b :: l) - n) by (unfold Zlen in *; rewrite length_drop; lia).
  destruct (field_grow m m' str b l n r f Hok Hl Hdec Hs Hf Hfl) as [Hg Hgl]. exists m', ps, more. cbn [fst snd].
  split_and!; [done|done|done| |].
  - eapply tokens_in; [exact Hps|lia|lia].
  - eapply same_outside_sub; [exact Hs|lia|lia].
Qed.

Lemma fields_stop m str l narg args :
  cstr_at m str l -> fields_goal (l, []) m str l narg args (Some ((narg, args), m)).
Proof using.
  intros Hl. exists m, [], []. cbn [fst snd]. rewrite !app_nil_r, Z.add_0_r.
  split_and!; [done|done|lia|constructor|apply outside_refl].
Qed.

Lemma fields_run fuel : forall m str l narg max intok args,
  mem_ok m -> cstr_at m set seps -> cstr_at m str l -> apart set seps str (str + Zlen l + 1) -> (length l < fuel)%nat ->
  narg = Zlen args ->
  fields_goal (fields (rune_in seps) (Z.to_nat (max - narg)) (cells l)) m str l narg args
    (getfields_loop fuel str narg max false intok set args m).
Proof using Hset.
  induction fuel as [|fuel IH]; intros m str l narg max intok args Hok Hsep Hl Hd Hf Hn; [lia|].
  rewrite (getfields_round fuel m str l) by done. destruct l as [|b l]; [by apply fields_stop|].
  destruct (dec (b :: l)) as [n r] eqn:Hdec. destruct (dec_len b l n r (proj1 Hl) Hdec) as [Hr _].
  destruct (getfields_cut m str b l n r Hok Hsep Hl Hd Hdec) as (Hok1 & Hsep1 & Hl1 & H0 & Hlen & Hn1 & Hs1).
  assert (Hlf : (length (drop (Z.to_nat n) (b :: l)) < fuel)%nat) by (rewrite length_drop; simpl in *; lia).
  assert (Hd1 : apart set seps (str + n) (str + n + Zlen (drop (Z.to_nat n) (b :: l)) + 1)) by (unfold apart in *; lia).
  rewrite (cells_cons b l n r (proj1 Hl) Hdec). cbn [fst snd fields negb andb]. rewrite andb_false_r. destruct (rune_in seps r) eqn:Hsepr.
  - rewrite Z.geb_leb. destruct (Z.leb_spec max narg) as [Hm|Hm].
    + replace (Z.to_nat (max - narg)) with 0%nat by lia. rewrite <- (cells_cons b l n r (proj1 Hl) Hdec).
      rewrite (bytes_of_cells _ _ (Nat.le_refl _) (proj1 Hl)). by apply fields_stop.
    + replace (Z.to_nat (max - narg)) with (S (Z.to_nat (max - (narg + 1)))) by lia. 
      replace (set_arg args narg (str + n)) with (args ++ [str + n]) by (by rewrite Hn, set_arg_snoc).
      assert (Hna : narg + 1 = Zlen (args ++ [str + n])) by (rewrite Zlen_app; change (Zlen [str + n]) with 1; lia).
      specialize (IH (wr m str [0]) (str + n) _ (narg + 1) max false (args ++ [str + n]) Hok1 Hsep1 Hl1 Hd1 Hlf Hna).
      destruct (fields _ _ _) as [f fs]. by eapply fields_next.
  - destruct (walk_step m str b l n r Hok Hl Hdec) as (_&_&_&_&_&_&Hl').
    specialize (IH m (str + n) _ narg max true args Hok Hsep Hl' Hd1 Hlf Hn). destruct (fields _ _ _) as [f fs].
    by eapply fields_char.
Qed.

(** Between fields: the last entry of the array is where the next one may
    begin. *)
Definition words_goal (fs : list (list Z)) (m : mem) (str : Z) (l : list Z) (narg : Z) (args : list Z)
    (r : option (Z * list Z * mem)) : Prop :=
  exists m' ps more, r = Some ((narg + Zlen ps, args ++ ps ++ more), m') /\
    Forall2 (token_at m' str (str + Zlen l)) ps fs /\ same_outside str (Zlen l + 1) m m'.

Lemma set_arg_last args v w : set_arg (args ++ [v]) (Zlen args) w = args ++ [w].
Proof using.
  unfold set_arg. rewrite Zlen_app. change (Zlen [v]) with 1. rewrite (proj2 (Z.ltb_lt _ _)) by lia.
  rewrite to_nat_Zlen. rewrite insert_app_r_alt by lia. by rewrite Nat.sub_diag.
Qed.

Lemma words_cut m str b l n r narg args fs res :
  mem_ok m -> cstr_at m set seps -> cstr_at m str (b :: l) -> apart set seps str (str + Zlen (b :: l) + 1) ->
  dec (b :: l) = (n, r) ->
  words_goal fs (wr m str [0]) (str + n) (drop (Z.to_nat n) (b :: l)) narg args res ->
  words_goal fs m str (b :: l) narg args res /\ fields_goal ([], fs) m str (b :: l) narg args res.
Proof using.
  intros Hok Hsep Hl Hd Hdec (m' & ps & more & -> & Hps & Hs).
  destruct (getfields_cut m str b l n r Hok Hsep Hl Hd Hdec) as (Hok1 & Hsep1 & Hl1 & H0 & Hlen & Hn & Hs1).
  pose proof (Zlen_nonneg (drop (Z.to_nat n) (b :: l))).
  assert (Hsame : same_outside str (Zlen (b :: l) + 1) m m').
  { eapply outside_trans; (eapply same_outside_sub; [|..]); [exact Hs1|lia|lia|exact Hs|lia|lia]. }
  assert (Hps' : Forall2 (token_at m' str (str + Zlen (b :: l))) ps fs) by (eapply tokens_in; [exact Hps|lia|lia]).
  split; exists m', ps, more; [done|]. cbn [fst snd]. split_and!; [done| |rewrite Zlen_cons; change (Zlen (@nil Z)) with 0; zpos; lia|done|done].
  eapply cstr_agree; [exact H0|apply Hs|]. intros i Hi. change (Zlen (@nil Z)) with 0 in Hi. apply Hs. lia.
Qed.

Lemma words_run fuel : forall m str l narg max args,
  mem_ok m -> cstr_at m set seps -> cstr_at m str l -> apart set seps str (str + Zlen l + 1) -> (length l < fuel)%nat ->
  (narg = Zlen args ->
   fields_goal (words (rune_in seps) true (Z.to_nat (max - narg)) (cells l)) m str l narg args
     (getfields_loop fuel str narg max true true set args m)) /\
  (narg = Zlen args -> narg < max ->
   words_goal (words (rune_in seps) false (Z.to_nat (max - narg)) (cells l)).2 m str l narg args
     (getfields_loop fuel str narg max true false set (args ++ [str]) m)).
Proof using Hset.
  induction fuel as [|fuel IH]; intros m str l narg max args Hok Hsep Hl Hd Hf; [lia|].
  rewrite !(getfields_round fuel m str l) by done. destruct l as [|b l].
  { split; intros; [by apply fields_stop|]. exists m, [], [str]. rewrite Z.add_0_r.
    split_and!; [done|constructor|apply outside_refl]. }
  destruct (dec (b :: l)) as [n r] eqn:Hdec. destruct (dec_len b l n r (proj1 Hl) Hdec) as [Hr _].
  destruct (getfields_cut m str b l n r Hok Hsep Hl Hd Hdec) as (Hok1 & Hsep1 & Hl1 & H0 & Hlen & Hn1 & Hs1).
  assert (Hlf : (length (drop (Z.to_nat n) (b :: l)) < fuel)%nat) by (rewrite length_drop; simpl in *; lia).
  assert (Hd1 : apart set seps (str + n) (str + n + Zlen (drop (Z.to_nat n) (b :: l)) + 1)) by (unfold apart in *; lia).
  destruct (walk_step m str b l n r Hok Hl Hdec) as (_&_&_&_&_&_&Hl').
  rewrite !(cells_cons b l n r (proj1 Hl) Hdec). cbn [fst snd words negb andb]. destruct (rune_in seps r) eqn:Hsepr.
  - rewrite Z.geb_leb. split; intros Hna; [|intros Hm]; destruct (Z.leb_spec max narg) as [Hm'|Hm']; try lia.
    + replace (Z.to_nat (max - narg)) with 0%nat by lia. rewrite <- (cells_cons b l n r (proj1 Hl) Hdec).
      rewrite (bytes_of_cells _ _ (Nat.le_refl _) (proj1 Hl)). by apply fields_stop.
    + destruct (Z.to_nat (max - narg)) as [|k] eqn:Hk; [lia|]. rewrite <- Hk.
      replace (set_arg args narg (str + n)) with (args ++ [str + n]) by (by rewrite Hna, set_arg_snoc).
      destruct (IH (wr m str [0]) (str + n) _ narg max args Hok1 Hsep1 Hl1 Hd1 Hlf) as [_ Hw].
      by eapply words_cut, Hw.
    + destruct (Z.to_nat (max - narg)) as [|k] eqn:Hk; [lia|]. rewrite <- Hk. cbn [snd].
      replace (set_arg (args ++ [str]) narg (str + n)) with (args ++ [str + n]) by (by rewrite Hna, set_arg_last).
      destruct (IH (wr m str [0]) (str + n) _ narg max args Hok1 Hsep1 Hl1 Hd1 Hlf) as [_ Hw].
      by eapply words_cut, Hw.
  - split; intros Hna; [|intros Hm].
    + destruct (IH m (str + n) _ narg max args Hok Hsep Hl' Hd1 Hlf) as [Hw _]. specialize (Hw Hna).
      destruct (words _ _ _ _) as [f fs]. by eapply fields_char.
    + destruct (IH m (str + n) _ (narg + 1) max (args ++ [str]) Hok Hsep Hl' Hd1 Hlf) as [Hw _].
      specialize (Hw ltac:(rewrite Zlen_app; change (Zlen [str]) with 1; lia)).
      replace (Z.to_nat (max - narg) - 1)%nat with (Z.to_nat (max - (narg + 1))) by lia.
      destruct (words _ _ _ _) as [f fs]. destruct (fields_char m str b l n r _ _ f fs _ Hok Hl Hdec Hw)
        as (m' & ps & more & -> & Hfm & Hfl & Hps & Hs). cbn [fst snd] in *. exists m', (str :: ps), more.
      split_and!; [rewrite Zlen_cons, <- app_assoc; cbn [app]; do 3 f_equal; lia| |done].
      constructor; [split; [done|lia]|done].
Qed.

End Getfields.
