(* ===== verification/Quote.v ===== *)
(** [libc/port/quote.c], [strdup.c], [needsrcquote.c] and the scan of
    [libc/fmt/fmtquote.c] that they use: strings quoted so that a line can hold
    them, and back.

    [doquote] is the program's own test for characters to quote, if it has set
    one ([needsrcquote] is the one of the library).  Memory comes from an
    allocator that is known by what it promises ([Malloc]). *)

From S2P Require Import Prelude Mem CString Rune Chars Fields.

Local Open Scope c_scope.

(** * The allocator *)

(** What [malloc] promises: it fails, or gives a block apart from every block in
    use, which it leaves as they are. *)
Class Malloc := {
  malloc : Z -> M Z;
  in_use : mem -> Z -> Z -> Prop;
  malloc_run : forall m n, mem_ok m -> 0 <= n -> exists p m', malloc n m = Some (p, m') /\ mem_ok m' /\
    (p = 0 \/ (0 < p /\ in_mem m' p n /\ in_use m' p n)) /\
    forall a k, in_use m a k -> in_use m' a k /\ (forall i, a <= i < a + k -> lk m' i = lk m i) /\
      (p = 0 \/ p + n <= a \/ a + k <= p);
  in_use_wr : forall m b j a bs c k, in_use m b j -> b <= a -> a + Zlen bs <= b + j ->
    in_use m c k -> in_use (wr m a bs) c k }.

(** * Definitions *)

(** ** needsrcquote.c *)

(** The string of characters that [rc] gives a meaning. *)
Definition rc_chars : list Z := [96; 94; 35; 42; 91; 93; 61; 124; 92; 63; 36; 123; 125; 40; 41; 39; 60; 62; 38; 59].

Definition needsrcquote (c : Z) : bool := (c <=? 32) || bool_decide (c ∈ rc_chars).

(** ** fmtquote.c *)

Record Quoteinfo := mkQuoteinfo {
  quoted : bool;
  nrunesin : Z;
  nbytesin : Z;
  nrunesout : Z;
  nbytesout : Z }.

Section Quote.
Context (doquote : option (Z -> bool)).

(** The test of line 54, of a rune. *)
Definition special (c : Z) : bool :=
  (c <=? 32) || (c =? 39) || match doquote with Some f => f c | None => false end.

(** Lines 54 to 78, for a character of [w] bytes: does the scan stop, and the
    counts. *)
Definition quote_char (nout w c : Z) (runesout : bool) (q : Quoteinfo) : bool * Quoteinfo :=
  if negb (special c) then (false, q) else
  if negb (quoted q) && (if runesout then 1 + nrunesout q + 1 + 1 >? nout else 1 + nbytesout q + w + 1 >? nout)
  then (true, q) else
  let q := if quoted q then q
           else mkQuoteinfo true (nrunesin q) (nbytesin q) (nrunesout q + 2) (nbytesout q + 2) in
  if c =? 39 then
    if (if runesout then 1 + nrunesout q + 1 >? nout else 1 + nbytesout q + w >? nout) then (true, q)
    else (false, mkQuoteinfo (quoted q) (nrunesin q) (nbytesin q) (nrunesout q + 1) (nbytesout q + 1))
  else (false, q).

(** Lines 36 to 91, for a string of bytes ([r] nil). *)
Fixpoint quotesetup_loop (fuel : nat) (s nin nout : Z) (runesout : bool) (q : Quoteinfo) : M Quoteinfo :=
  match fuel with
  | O => trap
  | S fuel =>
      if nin =? 0 then mret q else
      '(w, c) ← chartorune s;
      if c =? 0 then mret q else
      if (if runesout then nrunesout q + 1 >? nout else nbytesout q + w >? nout) then mret q else
      let '(stop, q) := quote_char nout w c runesout q in
      if stop : bool then mret q else
      quotesetup_loop fuel (s +p w) (s32 (nin - 1)) nout runesout
        (mkQuoteinfo (quoted q) (nrunesin q + 1) (nbytesin q + w) (nrunesout q + 1) (nbytesout q + w))
  end.

Definition quotesetup (s nin nout : Z) (sharp runesout : bool) : M Quoteinfo :=
  c ← ldc s;
  let must := sharp || (nin =? 0) || (c =? 0) in
  if must && (nout <? 2) then mret (mkQuoteinfo false 0 0 0 0) else
  fuel ← memfuel;
  quotesetup_loop fuel s nin nout runesout (mkQuoteinfo must 0 0 (if must then 2 else 0) (if must then 2 else 0)).

(** [_needsquotes]: the answer, and the length. *)
Definition needsquotes (s : Z) : M (bool * Z) :=
  q ← quotesetup s (-1) 0x7FFFFFFF false false; mret (quoted q, nbytesout q).

Context `{Malloc}.

(** ** strdup.c *)

Definition strdup (s : Z) : M Z :=
  n ← strlen s;
  ns ← malloc (u32 (n + 1));
  if ns =? 0 then mret 0 else strcpy ns s.

(** ** quote.c *)

Fixpoint quote_loop (fuel : nat) (t u : Z) : M Z :=
  match fuel with
  | O => trap
  | S fuel =>
      c ← ldc t;
      if c =? 0 then mret u else
      let r := u32 c in
      u ← (if r =? 39 then _ ← st8 u r; mret (u +p 1) else mret u);
      _ ← st8 u r;
      quote_loop fuel (t +p 1) (u +p 1)
  end.

Definition quotestrdup (s : Z) : M Z :=
  '(need, quotelen) ← needsquotes s;
  if negb need then strdup s else
  ret ← malloc (u32 (quotelen + 1));
  if ret =? 0 then mret 0 else
  _ ← st8 ret 39;
  fuel ← memfuel;
  u ← quote_loop fuel s (ret +p 1);
  _ ← st8 u 39;
  _ ← st8 (u +p 1) 0;
  mret ret.

(** What stops [unquotestrdup]. *)
Definition is_blank (c : Z) : M bool := mret ((c =? 32) || (c =? 9)).

Definition unquotestrdup (s : Z) : M Z :=
  ret ← strdup s;
  if ret =? 0 then mret ret else
  fuel ← memfuel;
  '(s, t) ← token_loop is_blank fuel false ret ret;
  _ ← (if negb (t =? s) then n ← strlen t; memmove s t (u32 (n + 1)) else mret 0);
  mret ret.

End Quote.

(** * Specification *)

(** A string with its quotes doubled, between quotes. *)
Definition doubled (s : list Z) : list Z := concat (map (fun b => if b =? 39 then [39; 39] else [b]) s).
Definition quotes (s : list Z) : list Z := 39 :: doubled s ++ [39].

(** Does a string need quotes: when it is empty or has a character that does. *)
Definition needs (doquote : option (Z -> bool)) (s : list Z) : bool :=
  bool_decide (s = []) || existsb (special doquote) (map snd (runes s)).

Definition quote (doquote : option (Z -> bool)) (s : list Z) : list Z :=
  if needs doquote s then quotes s else s.

(** A line of words, each followed by the separators given with it. *)
Definition line (doquote : option (Z -> bool)) (ws : list (list Z * list Z)) : list Z :=
  concat (map (fun '(w, g) => quote doquote w ++ g) ws).

(** * Lemmas *)

(** ** The scan *)

Definition count (c : Z) (l : list Z) : Z := Zlen (filter (fun b => b = c) l).

Lemma count_app c l k : count c (l ++ k) = count c l + count c k.
Proof. unfold count. by rewrite filter_app, Zlen_app. Qed.

Lemma count_pos c l : 0 <= count c l <= Zlen l.
Proof. unfold count, Zlen. pose proof (length_filter (fun b => b = c) l). lia. Qed.

Lemma Zlen_doubled l : Zlen (doubled l) = Zlen l + count 39 l.
Proof.
  induction l as [|b l IH]; [done|]. unfold doubled in *. cbn [map concat]. rewrite Zlen_app, IH, Zlen_cons.
  unfold count. rewrite filter_cons. destruct (Z.eqb_spec b 39) as [->|Hb].
  - rewrite decide_True by done. rewrite (Zlen_cons 39 (filter _ _)). change (Zlen [39; 39]) with 2. lia.
  - rewrite decide_False by done. change (Zlen [b]) with 1. lia.
Qed.

(** How many quotes a character has. *)
Lemma dec_quotes b s n r : nonul (b :: s) -> dec (b :: s) = (n, r) ->
  count 39 (take (Z.to_nat n) (b :: s)) = if r =? 39 then 1 else 0.
Proof.
  intros Hn Hd. assert (Hb : 0 < b < 256) by (by apply Forall_cons in Hn as [? _]).
  destruct (Z.lt_ge_cases b 0x80) as [Hlt|Hge].
  - rewrite dec_ascii in Hd by lia. injection Hd as <- <-. change (Z.to_nat 1) with 1%nat. cbn [take]. unfold count.
    rewrite filter_cons. destruct (Z.eqb_spec b 39); [by rewrite decide_True|by rewrite decide_False].
  - destruct (dec_high b s n r Hn Hge Hd) as (_ & Hr & Hf). rewrite (proj2 (Z.eqb_neq r 39)) by lia.
    induction Hf as [|c l Hc Hf IH]; [done|]. unfold count in *. rewrite filter_cons, decide_False by lia. done.
Qed.

Section Setup.
Context (doquote : option (Z -> bool)).

(** The counts after the whole of [l] was scanned. *)
Definition scanned (q : Quoteinfo) (l : list Z) : Quoteinfo :=
  let rs := map snd (runes l) in
  let hit := existsb (special doquote) rs in
  let extra := count 39 l + (if negb (quoted q) && hit then 2 else 0) in
  mkQuoteinfo (quoted q || hit) (nrunesin q + Zlen rs) (nbytesin q + Zlen l)
    (nrunesout q + Zlen rs + extra) (nbytesout q + Zlen l + extra).

Lemma runes_off f : forall off off' s, map snd (runes_from f off s) = map snd (runes_from f off' s).
Proof.
  induction f as [|f IH]; intros off off' s; [done|]. cbn [runes_from]. destruct s as [|b s]; [done|].
  destruct (dec (b :: s)) as [n r]. cbn [map snd]. f_equal. apply IH.
Qed.

Lemma runes_next b l n r : nonul (b :: l) -> dec (b :: l) = (n, r) ->
  map snd (runes (b :: l)) = r :: map snd (runes (drop (Z.to_nat n) (b :: l))).
Proof. intros Hn Hd. unfold runes at 1. rewrite (runes_cons 0 b l n r Hn Hd). cbn [map snd]. f_equal. apply runes_off. Qed.

Lemma special_quote : special doquote 39 = true.
Proof. done. Qed.

Lemma quote_char_run nout w c q :
  1 <= w -> nbytesout q + w + 3 <= nout -> (c = 39 -> w = 1) ->
  let hit := special doquote c in
  let extra := (if c =? 39 then 1 else 0) + (if negb (quoted q) && hit then 2 else 0) in
  quote_char doquote nout w c false q =
    (false, mkQuoteinfo (quoted q || hit) (nrunesin q) (nbytesin q) (nrunesout q + extra) (nbytesout q + extra)).
Proof.
  intros Hw Hn Hc. cbv zeta. unfold quote_char. destruct q as [qd ni bi no bo]. cbn [quoted nrunesin nbytesin nrunesout nbytesout] in *.
  destruct (special doquote c) eqn:Hs; cbn [negb].
  2: { destruct (Z.eqb_spec c 39) as [->|]; [by rewrite special_quote in Hs|]. rewrite orb_false_r, andb_false_r. do 2 f_equal; lia. }
  rewrite orb_true_r, andb_true_r. destruct qd; cbn [negb andb quoted nrunesin nbytesin nrunesout nbytesout].
  - destruct (Z.eqb_spec c 39) as [->|]; [|do 2 f_equal; lia].
    destruct (Z.gtb_spec (1 + bo + w) nout); [lia|]. do 2 f_equal; lia.
  - destruct (Z.gtb_spec (1 + bo + w + 1) nout); [lia|]. destruct (Z.eqb_spec c 39) as [->|]; [|do 2 f_equal; lia].
    destruct (Z.gtb_spec (1 + (bo + 2) + w) nout); [lia|]. do 2 f_equal; lia.
Qed.

Lemma scanned_cons q b l n r : nonul (b :: l) -> dec (b :: l) = (n, r) ->
  let hit := special doquote r in
  let extra := (if r =? 39 then 1 else 0) + (if negb (quoted q) && hit then 2 else 0) in
  scanned (mkQuoteinfo (quoted q || hit) (nrunesin q + 1) (nbytesin q + n) (nrunesout q + extra + 1) (nbytesout q + extra + n))
    (drop (Z.to_nat n) (b :: l)) = scanned q (b :: l).
Proof.
  intros Hn Hd hit extra. destruct (dec_len b l n r Hn Hd) as [Hr _]. pose proof (dec_quotes b l n r Hn Hd) as Hq.
  assert (Hlen : Zlen (drop (Z.to_nat n) (b :: l)) = Zlen (b :: l) - n) by (unfold Zlen in *; rewrite length_drop; lia).
  assert (Hcnt : count 39 (b :: l) = (if r =? 39 then 1 else 0) + count 39 (drop (Z.to_nat n) (b :: l))).
  { rewrite <- Hq, <- count_app. by rewrite take_drop. }
  unfold scanned. cbn [quoted nrunesin nbytesin nrunesout nbytesout]. rewrite (runes_next b l n r Hn Hd).
  cbn [existsb]. fold hit. rewrite (Zlen_cons r).
  destruct (quoted q), hit, (existsb (special doquote) _); cbn [negb andb orb] in *; f_equal; unfold extra; simpl; lia.
Qed.
Lemma scanned_nil q : scanned q [] = q.
Proof. destruct q. unfold scanned. cbn. rewrite !Z.add_0_r, orb_false_r, andb_false_r. cbn. by rewrite !Z.add_0_r. Qed.

Lemma quotesetup_loop_run fuel : forall m s l nin nout q,
  mem_ok m -> cstr_at m s l -> (length l < fuel)%nat -> - 2 ^ 31 + Zlen l < nin < 0 ->
  nbytesout q + (if quoted q then 0 else 2) + 2 * Zlen l + 3 <= nout ->
  quotesetup_loop doquote fuel s nin nout false q m = Some (scanned q l, m).
Proof.
  induction fuel as [|fuel IH]; intros m s l nin nout q Hok Hl Hf Hnin Hn; [lia|]. cbn [quotesetup_loop].
  rewrite (proj2 (Z.eqb_neq nin 0)) by lia. destruct l as [|b l].
  { rewrite (bind_run _ _ m (1, 0) m); [by rewrite scanned_nil|]. by rewrite (chartorune_run m s []) by by apply cstr_reads. }
  destruct (dec (b :: l)) as [n r] eqn:Hd. destruct (walk_step m s b l n r Hok Hl Hd) as (_ & _ & _ & Hc & Hp & _ & Hl').
  rewrite (bind_run _ _ m (n, r) m) by done. destruct (dec_len b l n r (proj1 Hl) Hd) as [Hr Hr0].
  assert (Hn' : nbytesout q + 2 * Zlen (b :: l) + 3 <= nout) by (revert Hn; destruct (quoted q); lia).
  rewrite (proj2 (Z.eqb_neq r 0)) by lia. destruct (Z.gtb_spec (nbytesout q + n) nout); [lia|].
  assert (H39 : r = 39 -> n = 1).
  { intros ->. destruct (Z.lt_ge_cases b 0x80) as [Hlt|Hge].
    - assert (0 < b < 256) by (by apply cstr_cons in Hl as (_ & ? & _)). rewrite dec_ascii in Hd by lia. by injection Hd as <- _.
    - destruct (dec_high b l n 39 (proj1 Hl) Hge Hd) as (_ & ? & _). lia. }
  assert (Hlen : Zlen (drop (Z.to_nat n) (b :: l)) = Zlen (b :: l) - n) by (unfold Zlen in *; rewrite length_drop; lia).
  rewrite quote_char_run by (done || lia). cbv beta iota zeta. cbn [quoted nrunesin nbytesin nrunesout nbytesout].
  rewrite Hp. rewrite (IH m (s + n) _ _ nout _ Hok Hl').
  - by rewrite (scanned_cons q b l n r (proj1 Hl) Hd).
  - rewrite length_drop. simpl in *. lia.
  - assert (s32 (nin - 1) = nin - 1); [|lia]. unfold s32, u32. replace ((nin - 1) mod 2 ^ 32) with (nin - 1 + 2 ^ 32).
    + destruct (Z.ltb_spec (nin - 1 + 2 ^ 32) (2 ^ 31)); zpos; lia.
    + apply (Z.mod_unique_pos _ _ (-1)); zpos; lia.
  - cbn [quoted nbytesout]. revert Hn. destruct (quoted q), (special doquote r), (r =? 39); cbn [negb andb orb]; lia.
Qed.

Lemma count_no_quote l : nonul l -> existsb (special doquote) (map snd (runes l)) = false -> count 39 l = 0.
Proof.
  intros Hn H. assert (Hq : 39 ∉ l).
  { intros Hin. apply (ascii_rune _ l 0 39 (Nat.le_refl _) Hn ltac:(lia)) in Hin. fold (runes l) in Hin.
    apply list_elem_of_In in Hin. assert (Ht : existsb (special doquote) (map snd (runes l)) = true).
    { apply existsb_exists. by exists 39. }
    by rewrite Ht in H. }
  unfold count. replace (filter (fun b => b = 39) l) with (@nil Z); [done|]. symmetry.
  clear H Hn. induction l as [|b l IH]; [done|]. apply not_elem_of_cons in Hq as [H1 H2]. rewrite filter_cons_False by congruence. auto.
Qed.

Lemma needsquotes_run m s l :
  mem_ok m -> cstr_at m s l -> Zlen l < 2 ^ 29 ->
  needsquotes doquote s m = Some ((needs doquote l, Zlen (quote doquote l)), m).
Proof.
  intros Hok Hl Hlen. unfold needsquotes, quotesetup. pose proof (Zlen_nonneg l). rewrite (bind_run _ _ m (scanned
    (mkQuoteinfo (bool_decide (l = [])) 0 0 (if bool_decide (l = []) then 2 else 0) (if bool_decide (l = []) then 2 else 0)) l) m).
  - rewrite ret_run. unfold scanned. cbn [quoted nbytesout]. fold (needs doquote l). unfold quote, needs, quotes.
    destruct l as [|b l]; [done|]. rewrite bool_decide_false by done. cbn [orb negb andb].
    destruct (existsb _ _) eqn:He; [|rewrite (count_no_quote (b :: l) (proj1 Hl) He)].
    + cbv iota. rewrite (Zlen_cons 39), Zlen_app, Zlen_doubled. change (Zlen [39]) with 1. do 3 f_equal. lia.
    + do 3 f_equal; lia.
  - run_with (ldc_nb0 m s l Hok Hl). rewrite s8_zero by apply nb_byte, Hl. cbn [orb].
    assert (Hz : (nb l 0 =? 0) = bool_decide (l = [])).
    { destruct l as [|b l]; [done|]. apply cstr_cons in Hl as (_ & Hb & _). unfold nb. cbn [nth].
      rewrite bool_decide_false by done. apply Z.eqb_neq. lia. }
    change (-1 =? 0) with false. cbn [orb]. rewrite Hz. change (0x7FFFFFFF <? 2) with false. rewrite andb_false_r.
    unfold memfuel. erewrite bind_run by done. apply quotesetup_loop_run; [done|done|by eapply cstr_fuel|lia|].
    cbn [quoted nbytesout]. destruct (bool_decide _); lia.
Qed.

End Setup.

(** ** Copies *)

Lemma memccpy_loop_run n : forall m s1 s2 l,
  mem_ok m -> cstr_at m s2 l -> in_mem m s1 (Zlen l + 1) -> apart s2 l s1 (s1 + Zlen l + 1) -> 0 < s1 ->
  memccpy_loop n s1 s2 0 m =
    if (length l <? n)%nat then Some (s1 + Zlen l + 1, wr m s1 (l ++ [0]))
    else Some (0, wr m s1 (take n l)).
Proof.
  induction n as [|n IH]; intros m s1 s2 l Hok Hl Hin Hd Hs1; [cbn [memccpy_loop take]; by rewrite wr_nil|].
  pose proof (cstr_range _ _ _ Hl) as [H0 Hlim]. pose proof (proj2 Hok). pose proof Hin as (_ & _ & Hi2). cbn [memccpy_loop].
  destruct l as [|b l].
  - apply cstr_nil in Hl. rewrite (bind_run _ _ m 0 m) by by apply ld8_run. rewrite Z.eqb_refl.
    erewrite bind_run by (apply st8_run; exact Hin). change (u8 0) with 0. change (Zlen (@nil Z)) with 0 in *.
    cbn. rewrite ret_run, padd_small by lia. do 2 f_equal. lia.
  - apply cstr_cons in Hl as (Hb & Hbr & Hl). rewrite Zlen_cons in *. pose proof (Zlen_nonneg l).
    rewrite (bind_run _ _ m b m) by by apply ld8_run. rewrite (proj2 (Z.eqb_neq b 0)) by lia.
    assert (Hi1 : in_mem m s1 1) by (unfold in_mem; lia). erewrite bind_run by (by apply st8_run). rewrite u8_small by lia.
    assert (Hok1 : mem_ok (wr m s1 [b])) by (apply mem_ok_wr; [done|repeat constructor; unfold is_byte; lia|done]).
    rewrite !padd_small by lia. rewrite (IH (wr m s1 [b]) (s1 + 1) (s2 + 1) l); [|done| | | |lia].
    + change (s1 + 1) with (s1 + Zlen [b]). change (length (b :: l) <? S n)%nat with (length l <? n)%nat.
      destruct (length l <? n)%nat; rewrite wr_app.
      * do 2 f_equal. change (Zlen [b]) with 1. lia.
      * rewrite Zlen_app. change (Zlen [b]) with 1. change (Zlen [0]) with 1. unfold in_mem. lia.
      * done.
      * change (Zlen [b]) with 1. unfold in_mem, Zlen in *. rewrite length_take. lia.
    + apply cstr_wr_out; [done|done|]. change (Zlen [b]) with 1. unfold apart in Hd. rewrite Zlen_cons in Hd. lia.
    + rewrite in_mem_wr by done. unfold in_mem. lia.
    + unfold apart in *. rewrite Zlen_cons in Hd. lia.
Qed.

Lemma strcpy_loop_run fuel : forall m s1 s2 l,
  mem_ok m -> cstr_at m s2 l -> in_mem m s1 (Zlen l + 1) -> apart s2 l s1 (s1 + Zlen l + 1) -> 0 < s1 -> (length l < fuel)%nat ->
  strcpy_loop fuel s1 s2 m = Some (tt, wr m s1 (l ++ [0])).
Proof.
  induction fuel as [|fuel IH]; intros m s1 s2 l Hok Hl Hin Hd Hs1 Hf; [lia|]. cbn [strcpy_loop].
  pose proof (cstr_range _ _ _ Hl) as [H0 Hlim]. pose proof (proj2 Hok). pose proof Hin as (_ & _ & Hi2).
  pose proof (memccpy_loop_run (Z.to_nat strcpy_N) m s1 s2 l Hok Hl Hin Hd Hs1) as Hrun. unfold memccpy. change (u8 0) with 0.
  destruct (Nat.ltb_spec (length l) (Z.to_nat strcpy_N)) as [Hlt|Hge].
  - run_with Hrun. pose proof (Zlen_nonneg l). by rewrite (proj2 (Z.eqb_neq (s1 + Zlen l + 1) 0)) by lia.
  - run_with Hrun. rewrite Z.eqb_refl. set (k := Z.to_nat strcpy_N) in *.
    assert (Hk : Zlen (take k l) = strcpy_N) by (unfold Zlen; rewrite length_take; unfold k, strcpy_N in *; lia).
    assert (Hkl : Zlen (drop k l) = Zlen l - strcpy_N) by (unfold Zlen; rewrite length_drop; unfold k, strcpy_N in *; lia).
    assert (Hi1 : in_mem m s1 (Zlen (take k l))) by (rewrite Hk; unfold in_mem, Zlen, k, strcpy_N in *; lia).
    assert (Hn : strcpy_N <= Zlen l) by (unfold Zlen, k, strcpy_N in *; lia). rewrite !padd_small by (unfold strcpy_N in *; lia).
    rewrite (IH (wr m s1 (take k l)) (s1 + strcpy_N) (s2 + strcpy_N) (drop k l)).
    + rewrite <- Hk, wr_app; [by rewrite app_assoc, take_drop|]. rewrite Zlen_app, Hk, Hkl. change (Zlen [0]) with 1.
      unfold in_mem, strcpy_N in *. lia.
    + apply mem_ok_wr; [done|by apply Forall_take, nonul_bytes, Hl|done].
    + apply cstr_wr_out; [done| |]; rewrite ?Hk, ?Hkl.
      * replace (s2 + strcpy_N) with (s2 + Z.of_nat k) by (unfold k, strcpy_N; lia). apply cstr_drop; [done|lia].
      * unfold apart in Hd. lia.
    + rewrite in_mem_wr by done. rewrite Hkl. unfold in_mem, strcpy_N in *. lia.
    + unfold apart, strcpy_N in *. rewrite Hkl. lia.
    + unfold strcpy_N. lia.
    + rewrite length_drop. unfold k, strcpy_N in *. lia.
Qed.

Lemma strcpy_run m s1 s2 l :
  mem_ok m -> cstr_at m s2 l -> in_mem m s1 (Zlen l + 1) -> apart s2 l s1 (s1 + Zlen l + 1) -> 0 < s1 ->
  strcpy s1 s2 m = Some (s1, wr m s1 (l ++ [0])).
Proof.
  intros Hok Hl Hin Hd Hs1. unfold strcpy, memfuel. erewrite bind_run by done.
  by rewrite (bind_run _ _ m _ _ (strcpy_loop_run (S (length m)) m s1 s2 l Hok Hl Hin Hd Hs1 (cstr_fuel _ _ _ Hl))).
Qed.

Lemma doubled_nonul l : nonul l -> nonul (doubled l).
Proof.
  induction 1 as [|b l Hb Hl IH]; [constructor|]. unfold doubled in *. cbn [map concat]. apply Forall_app. split; [|done].
  destruct (b =? 39); repeat constructor; lia.
Qed.

Lemma quote_loop_run fuel : forall m t u l,
  mem_ok m -> cstr_at m t l -> 0 <= u -> in_mem m u (Zlen (doubled l) + 1) -> apart t l u (u + Zlen (doubled l) + 1) ->
  (length l < fuel)%nat ->
  quote_loop fuel t u m = Some (u + Zlen (doubled l), wr m u (doubled l)).
Proof.
  induction fuel as [|fuel IH]; intros m t u l Hok Hl Hu Hin Hd Hf; [lia|]. cbn [quote_loop].
  run_with (ldc_nb0 m t l Hok Hl). rewrite s8_zero by apply nb_byte, Hl. destruct l as [|b l].
  { cbn. rewrite ret_run, wr_nil. do 2 f_equal. unfold Zlen. simpl. lia. }
  pose proof (cstr_range _ _ _ Hl) as [H0 Hlim]. pose proof (proj2 Hok). pose proof Hin as (_ & _ & Hi2).
  assert (Hb : 0 < b < 256) by (by apply cstr_cons in Hl as (_ & ? & _)). unfold nb. cbn [nth].
  rewrite (proj2 (Z.eqb_neq b 0)) by lia.
  assert (Hr : (u32 (s8 b) =? 39) = (b =? 39) /\ u8 (u32 (s8 b)) = b).
  { rewrite u32_s8 by (unfold is_byte; lia). destruct (Z.ltb_spec b 128); [split; [done|apply u8_small; lia]|].
    split; [rewrite !(proj2 (Z.eqb_neq _ _)) by lia; done|]. unfold u8. symmetry. change (2 ^ 8) with 256.
    apply (Z.mod_unique_pos _ _ (2 ^ 24 - 1)); lia. }
  destruct Hr as [-> Hr]. set (hd := if b =? 39 then [39; 39] else [b]).
  assert (Hdb : doubled (b :: l) = hd ++ doubled l) by done. rewrite Hdb, Zlen_app in *. pose proof (Zlen_nonneg (doubled l)).
  assert (Hhd : 1 <= Zlen hd <= 2 /\ Forall is_byte hd /\ Zlen hd = (if b =? 39 then 2 else 1)).
  { unfold hd. destruct (b =? 39); split_and!; try (by compute); repeat constructor; lia. }
  destruct Hhd as (Hh1 & Hh2 & Hh3). assert (Hinh : in_mem m u (Zlen hd)) by (unfold in_mem; lia).
  assert (Hput : ((u ← (if b =? 39 then _ ← st8 u (u32 (s8 b)); mret (u +p 1) else mret u); _ ← st8 u (u32 (s8 b));
      quote_loop fuel (t +p 1) (u +p 1)) : M Z) m = quote_loop fuel (t + 1) (u + Zlen hd) (wr m u hd)).
  { rewrite Zlen_cons in *. pose proof (Zlen_nonneg l). rewrite (padd_small t 1) by lia. unfold hd in *. destruct (Z.eqb_spec b 39) as [->|].
    - change (Zlen [39; 39]) with 2 in *. assert (Hi1 : in_mem m u 1) by (unfold in_mem; lia).
      rewrite (bind_run _ _ m (u + 1) (wr m u [39])).
      2: { erewrite bind_run by (by apply st8_run). rewrite Hr, ret_run, padd_small by lia. done. }
      erewrite bind_run by (apply st8_run; rewrite in_mem_wr; unfold in_mem; change (Zlen [39]) with 1; lia). rewrite Hr.
      rewrite padd_small by lia. change (u + 1) with (u + Zlen [39]) at 2. rewrite wr_app by exact Hinh. f_equal. lia.
    - change (Zlen [b]) with 1 in *. erewrite (bind_run _ _ m u m) by done.
      erewrite bind_run by (by apply st8_run). rewrite Hr, padd_small by lia. done. }
  rewrite Hput. pose proof (cstr_tail _ _ _ _ Hl) as Hl1. rewrite Zlen_cons in *.
  rewrite (IH (wr m u hd) (t + 1) (u + Zlen hd) l).
  - rewrite wr_app by (unfold in_mem; lia). do 2 f_equal. lia.
  - by apply mem_ok_wr.
  - apply cstr_wr_out; [done|done|]. unfold apart in Hd. rewrite Zlen_cons in Hd. lia.
  - lia.
  - rewrite in_mem_wr by done. unfold in_mem. lia.
  - unfold apart in *. rewrite Zlen_cons in Hd. lia.
  - simpl in Hf. lia.
Qed.

(** ** New strings *)

Section Alloc.
Context `{Malloc}.

(** Blocks in use stay in use and as they are. *)
Definition keeps (m m' : mem) : Prop :=
  forall a k, in_use m a k -> in_use m' a k /\ forall i, a <= i < a + k -> lk m' i = lk m i.

(** [p] is nil or a string of its own, in a new block of [n] bytes. *)
Definition made (m m' : mem) (p : Z) (s : list Z) (n : Z) : Prop :=
  mem_ok m' /\ keeps m m' /\
  (p = 0 \/ (0 < p /\ cstr_at m' p s /\ in_use m' p n /\ forall a k, in_use m a k -> p + n <= a \/ a + k <= p)).

Lemma keeps_refl m : keeps m m.
Proof. by split. Qed.

Lemma keeps_trans m1 m2 m3 : keeps m1 m2 -> keeps m2 m3 -> keeps m1 m3.
Proof.
  intros K1 K2 a k Hu. destruct (K1 a k Hu) as [Hu2 E1]. destruct (K2 a k Hu2) as [Hu3 E2]. split; [done|].
  intros i Hi. by rewrite E2, E1.
Qed.

Lemma cstr_lk m m' a s :
  cstr_at m a s -> (forall i, a <= i < a + Zlen s + 1 -> lk m' i = lk m i) -> cstr_at m' a s.
Proof.
  intros Hs E. pose proof (cstr_range _ _ _ Hs) as [H0 Hl]. destruct Hs as [Hn [Hin Hb]]. split; [done|].
  rewrite Zlen_app in *. change (Zlen [0]) with 1 in *. split.
  - assert (Hz : lk m' (a + Zlen s) = Some 0).
    { rewrite E by (zpos; lia). rewrite Hb by (zpos; lia). rewrite lk_app_r, Z.sub_diag by lia. done. }
    rewrite Zlen_app. change (Zlen [0]) with 1. pose proof (lk_Some _ _ _ Hz). unfold in_mem in *. lia.
  - rewrite Zlen_app. change (Zlen [0]) with 1. intros i Hi. rewrite E by lia. by apply Hb.
Qed.

Lemma cstr_keeps m m' a s : keeps m m' -> in_use m a (Zlen s + 1) -> cstr_at m a s -> cstr_at m' a s.
Proof. intros K Hu Hs. destruct (K _ _ Hu) as [_ E]. eapply cstr_lk; [done|]. intros i Hi. apply E. lia. Qed.

(** Writing inside a block leaves the blocks apart from it. *)
Lemma keeps_wr m m' p n a bs :
  keeps m m' -> in_use m' p n -> (forall a k, in_use m a k -> p + n <= a \/ a + k <= p) ->
  p <= a -> a + Zlen bs <= p + n -> in_mem m' a (Zlen bs) -> keeps m (wr m' a bs) /\ in_use (wr m' a bs) p n.
Proof.
  intros K Hu Hd Ha Hb Hin. split; [|exact (in_use_wr m' p n a bs p n Hu Ha Hb Hu)].
  intros c k Hc. destruct (K c k Hc) as [Hc' Hl]. split; [exact (in_use_wr m' p n a bs c k Hu Ha Hb Hc')|]. intros i Hi.
  rewrite lk_wr_out; [by apply Hl|done|]. destruct (Hd c k Hc); lia.
Qed.

Lemma malloc_block m n :
  mem_ok m -> 0 <= n ->
  exists p m', malloc n m = Some (p, m') /\ mem_ok m' /\ keeps m m' /\
    (p = 0 \/ (0 < p /\ in_mem m' p n /\ in_use m' p n /\ forall a k, in_use m a k -> p + n <= a \/ a + k <= p)).
Proof.
  intros Hok Hn. destruct (malloc_run m n Hok Hn) as (p & m' & E & Hok' & Hp & Hold). exists p, m'.
  assert (K : keeps m m') by (intros a k Hu; destruct (Hold a k Hu) as (? & ? & _); done). split_and!; [done..|].
  destruct Hp as [->|(Hp & Hin & Hu)]; [by left|]. right. split_and!; [done..|].
  intros a k Ha. destruct (Hold a k Ha) as (_ & _ & [?|?]); [lia|done].
Qed.

Lemma Zlen_quotes l : Zlen (quotes l) = Zlen (doubled l) + 2.
Proof. unfold quotes. rewrite Zlen_cons, Zlen_app. change (Zlen [39]) with 1. lia. Qed.

(** The quoted text is written to its block. *)
Lemma quotes_run m p s l :
  mem_ok m -> cstr_at m s l -> 0 < p -> in_mem m p (Zlen (quotes l) + 1) -> apart s l p (p + Zlen (quotes l) + 1) ->
  (_ ← st8 p 39; fuel ← memfuel; u ← quote_loop fuel s (p +p 1); _ ← st8 u 39; _ ← st8 (u +p 1) 0; mret p) m =
    Some (p, wr m p (quotes l ++ [0])).
Proof.
  intros Hok Hl Hp Hin Hd. pose proof Hin as (_ & _ & Hin2). pose proof (proj2 Hok). rewrite Zlen_quotes in *.
  pose proof (Zlen_nonneg (doubled l)). assert (Hi1 : in_mem m p 1) by (unfold in_mem; lia). unfold apart in Hd.
  erewrite bind_run by (by apply st8_run). change (u8 39) with 39. unfold memfuel. erewrite bind_run by done.
  assert (Hok2 : mem_ok (wr m p [39])) by (apply mem_ok_wr; [done|by repeat constructor|done]). rewrite padd_small by lia.
  assert (Hl2 : cstr_at (wr m p [39]) s l) by (apply cstr_wr_out; [done|done|change (Zlen [39]) with 1; lia]).
  rewrite (bind_run _ _ _ _ _ (quote_loop_run (S (length (wr m p [39]))) (wr m p [39]) s (p + 1) l Hok2 Hl2 ltac:(lia)
    ltac:(rewrite in_mem_wr by done; unfold in_mem; lia) ltac:(unfold apart; lia) (cstr_fuel _ _ _ Hl2))).
  change (p + 1) with (p + Zlen [39]). rewrite wr_app by (change (Zlen [39]) with 1; unfold in_mem; lia).
  set (w1 := [39] ++ doubled l).
  assert (Hw1 : Zlen w1 = Zlen (doubled l) + 1) by (unfold w1; rewrite Zlen_app; change (Zlen [39]) with 1; lia).
  replace (p + Zlen [39] + Zlen (doubled l)) with (p + Zlen w1) by (change (Zlen [39]) with 1; lia).
  assert (Hiw : in_mem m p (Zlen w1)) by (unfold in_mem; zpos; lia).
  erewrite bind_run by (apply st8_run; rewrite in_mem_wr by done; unfold in_mem; zpos; lia). change (u8 39) with 39.
  rewrite wr_app by (change (Zlen [39]) with 1; unfold in_mem; zpos; lia).
  assert (Hw2 : Zlen (w1 ++ [39]) = Zlen w1 + 1) by (by rewrite Zlen_app).
  assert (Hiw2 : in_mem m p (Zlen (w1 ++ [39]))) by (unfold in_mem; zpos; lia).
  rewrite padd_small by (zpos; lia). replace (p + Zlen w1 + 1) with (p + Zlen (w1 ++ [39])) by lia.
  erewrite bind_run by (apply st8_run; rewrite in_mem_wr by done; unfold in_mem; zpos; lia). change (u8 0) with 0.
  rewrite wr_app by (change (Zlen [0]) with 1; unfold in_mem; zpos; lia). by rewrite ret_run.
Qed.

Lemma quotes_nonul l : nonul l -> nonul (quotes l).
Proof.
  intros Hn. unfold quotes. constructor; [lia|]. apply Forall_app. split; [by apply doubled_nonul|].
  constructor; [lia|constructor].
Qed.

(** A string written to its block. *)
Lemma made_wr m m1 p bs s n :
  mem_ok m1 -> keeps m m1 -> 0 < p -> in_mem m1 p (Zlen bs) -> in_use m1 p n ->
  (forall a k, in_use m a k -> p + n <= a \/ a + k <= p) -> Zlen bs <= n -> Forall is_byte bs -> cstr_at (wr m1 p bs) p s ->
  made m (wr m1 p bs) p s n.
Proof.
  intros Hok K Hp Hin Hu Hd Hle Hb Hs. destruct (keeps_wr m m1 p n p bs K Hu Hd ltac:(lia) ltac:(lia) Hin) as [K' Hu'].
  split_and!; [by apply mem_ok_wr|done|]. right. by split_and!.
Qed.

Lemma made_block m m1 p s n :
  mem_ok m1 -> keeps m m1 -> 0 < p -> in_mem m1 p n -> in_use m1 p n ->
  (forall a k, in_use m a k -> p + n <= a \/ a + k <= p) -> Zlen s + 1 = n -> nonul s ->
  made m (wr m1 p (s ++ [0])) p s n.
Proof.
  intros Hok K Hp Hin Hu Hd Hle Hn. assert (Hz : Zlen (s ++ [0]) = Zlen s + 1) by (by rewrite Zlen_app).
  apply made_wr; try done; [by rewrite Hz, Hle|lia| |].
  - apply Forall_app. split; [by apply nonul_bytes|by repeat constructor].
  - split; [done|]. apply bytes_at_wr. by rewrite Hz, Hle.
Qed.

Lemma strdup_run m s l :
  mem_ok m -> cstr_at m s l -> in_use m s (Zlen l + 1) -> Zlen l < 2 ^ 30 ->
  exists p m', strdup s m = Some (p, m') /\ made m m' p l (Zlen l + 1).
Proof.
  intros Hok Hl Hu Hlen. pose proof (Zlen_nonneg l). unfold strdup. run_with (strlen_run m s l Hok Hl ltac:(lia)).
  rewrite u32_small by lia. destruct (malloc_block m (Zlen l + 1) Hok ltac:(lia)) as (p & m1 & E & Hok1 & K & Hp).
  run_with E. destruct Hp as [->|(Hp & Hin & Hup & Hd)].
  { exists 0, m1. split; [done|]. split_and!; [done|done|by left]. }
  rewrite (proj2 (Z.eqb_neq p 0)) by lia. exists p, (wr m1 p (l ++ [0])). pose proof (Hd s _ Hu).
  rewrite (strcpy_run m1 p s l) by (done || (by eapply cstr_keeps) || (unfold apart; lia)).
  split; [done|]. apply made_block; try done. apply Hl.
Qed.

Lemma quotestrdup_run doquote m s l :
  mem_ok m -> cstr_at m s l -> in_use m s (Zlen l + 1) -> Zlen l < 2 ^ 29 ->
  exists p m', quotestrdup doquote s m = Some (p, m') /\ made m m' p (quote doquote l) (Zlen (quote doquote l) + 1).
Proof.
  intros Hok Hl Hu Hlen. unfold quotestrdup. run_with (needsquotes_run doquote m s l Hok Hl Hlen). unfold quote.
  destruct (needs doquote l); cbn [negb]; [|apply strdup_run; (done || lia)].
  pose proof (Zlen_nonneg l). pose proof (Zlen_doubled l) as Hdl. pose proof (count_pos 39 l). pose proof (Zlen_quotes l).
  rewrite u32_small by lia. destruct (malloc_block m (Zlen (quotes l) + 1) Hok ltac:(lia)) as (p & m1 & E & Hok1 & K & Hp).
  run_with E. destruct Hp as [->|(Hp & Hin & Hup & Hd)].
  { exists 0, m1. split; [done|]. split_and!; [done|done|by left]. }
  rewrite (proj2 (Z.eqb_neq p 0)) by lia. exists p, (wr m1 p (quotes l ++ [0])). pose proof (Hd s _ Hu). split.
  - apply quotes_run; [done|by eapply cstr_keeps|done|done|unfold apart; lia].
  - apply made_block; try done. apply quotes_nonul, Hl.
Qed.

(** ** unquotestrdup *)

Definition blank (c : Z) : bool := (c =? 32) || (c =? 9).

Lemma is_blank_tests lo hi : tests is_blank blank lo hi (fun _ => True).
Proof.
  split; [|done]. intros m b _ _ Hb. unfold is_blank, blank. by rewrite !s8_eqb by (unfold is_byte; lia).
Qed.

(** What the copy becomes: the first token, and the rest behind it. *)
Lemma unquote_run m ret l o r :
  mem_ok m -> cstr_at m ret l -> Zlen l < 2 ^ 30 -> unq blank false l = (o, r) ->
  exists bs, (fuel ← memfuel; '(s, t) ← token_loop is_blank fuel false ret ret;
      _ ← (if negb (t =? s) then n ← strlen t; memmove s t (u32 (n + 1)) else mret 0); mret ret) m =
    Some (ret, wr m ret bs) /\ Zlen bs <= Zlen l + 1 /\ Forall is_byte bs /\ cstr_at (wr m ret bs) ret (o ++ r).
Proof.
  intros Hok Hl Hlen Hu. pose proof (cstr_range _ _ _ Hl) as [H0 Hlim]. pose proof (proj2 Hok).
  unfold memfuel. erewrite bind_run by done.
  pose proof (token_loop_run is_blank blank ret (ret + Zlen l + 1) _ (is_blank_tests _ _) (S (length m)) m ret ret l false
    Hok I H0 ltac:(lia) ltac:(lia) Hl (cstr_fuel _ _ _ Hl)) as Hrun.
  unfold token_goal in Hrun. rewrite Hu in Hrun. destruct Hrun as (Hrun & Hok1 & _). run_with Hrun.
  destruct (unq_suffix _ _ false l o r (Nat.le_refl _) Hu) as (k & Hr & Hk).
  assert (Hno : nonul o) by (eapply unq_nonul; [done|exact Hu|apply Hl]).
  assert (Hnr : nonul r) by (rewrite Hr; apply Forall_drop, Hl).
  assert (Hkl : Zlen l - Zlen r = Z.of_nat k /\ Zlen o <= Z.of_nat k /\ Z.of_nat k <= Zlen l)
    by (rewrite Hr; unfold Zlen; rewrite length_drop; lia).
  destruct Hkl as (-> & Hok' & Hkl). pose proof (Zlen_nonneg o). assert (Hin : in_mem m ret (Zlen o)) by (unfold in_mem; lia).
  pose proof (cstr_drop m ret l k Hl ltac:(lia)) as Hrest. rewrite <- Hr in Hrest.
  assert (Hr1 : cstr_at (wr m ret o) (ret + Z.of_nat k) r) by (apply cstr_wr_out; [done|done|lia]).
  pose proof (cstr_range _ _ _ Hrest) as [_ Hlr].
  assert (Hrl : Zlen r = Zlen l - Z.of_nat k) by (rewrite Hr; unfold Zlen; rewrite length_drop; lia).
  destruct (Z.eqb_spec (ret + Z.of_nat k) (ret + Zlen o)) as [He|He]; cbn [negb].
  - exists o. erewrite bind_run by done. rewrite ret_run. split_and!; [done|lia|by apply nonul_bytes|].
    split; [by apply Forall_app|]. rewrite <- app_assoc. apply bytes_at_app. split; [by apply bytes_at_wr|].
    replace (ret + Zlen o) with (ret + Z.of_nat k) by lia. apply Hr1.
  - exists (o ++ r ++ [0]). assert (Hrz : Zlen (r ++ [0]) = Zlen r + 1) by (by rewrite Zlen_app). pose proof (Zlen_nonneg r).
    assert (Hmv : ((n ← strlen (ret + Z.of_nat k); memmove (ret + Zlen o) (ret + Z.of_nat k) (u32 (n + 1))) : M Z) (wr m ret o) =
      Some (ret + Zlen o, wr m ret (o ++ r ++ [0]))).
    { run_with (strlen_run (wr m ret o) _ r Hok1 Hr1 ltac:(lia)). rewrite u32_small by lia. rewrite <- Hrz.
      rewrite (memmove_run (wr m ret o) (ret + Zlen o) (ret + Z.of_nat k) (r ++ [0])).
      - by rewrite wr_app by (rewrite Hrz; unfold in_mem; lia).
      - done.
      - apply Hr1.
      - rewrite in_mem_wr by done. rewrite Hrz. unfold in_mem. lia.
      - lia. }
    run_with Hmv. rewrite ret_run, app_assoc. assert (Hz : Zlen ((o ++ r) ++ [0]) = Zlen o + Zlen r + 1) by (by rewrite !Zlen_app).
    split_and!; [done|lia| |].
    + apply Forall_app. split; [apply nonul_bytes; by apply Forall_app|by repeat constructor].
    + split; [by apply Forall_app|]. apply bytes_at_wr. rewrite Hz. unfold in_mem. lia.
Qed.

Lemma unquotestrdup_run m s l o r :
  mem_ok m -> cstr_at m s l -> in_use m s (Zlen l + 1) -> Zlen l < 2 ^ 30 -> unq blank false l = (o, r) ->
  exists p m', unquotestrdup s m = Some (p, m') /\ made m m' p (o ++ r) (Zlen l + 1).
Proof.
  intros Hok Hl Hu Hlen Huq. unfold unquotestrdup. destruct (strdup_run m s l Hok Hl Hu Hlen) as (p & m1 & E & Hok1 & K & Hp).
  run_with E. destruct Hp as [->|(Hp & Hl1 & Hup & Hd)].
  { exists 0, m1. split; [done|]. split_and!; [done|done|by left]. }
  rewrite (proj2 (Z.eqb_neq p 0)) by lia. destruct (unquote_run m1 p l o r Hok1 Hl1 Hlen Huq) as (bs & Hrun & Hbl & Hbb & Hc).
  exists p, (wr m1 p bs). split; [exact Hrun|]. pose proof (cstr_range _ _ _ Hl1) as [_ Hlim].
  apply made_wr; try done. unfold in_mem. zpos. lia.
Qed.

End Alloc.

(** ** Quoted words are tokens *)

Section Words.
Context (doquote : option (Z -> bool)) (stop : Z -> bool).

(** Only blanks and control characters stop a token, so that they are quoted. *)
Hypothesis Hstop : forall b, stop b = true -> b <= 32.

Definition begins (t : list Z) : Prop := t = [] \/ exists c t', t = c :: t' /\ stop c = true.

Lemma begins_39 t : begins t -> nb t 0 <> 39.
Proof using Hstop. intros [->|(c & t' & -> & Hc)]; [done|]. apply Hstop in Hc. unfold nb. cbn [nth]. lia. Qed.

Lemma unq_begins t : begins t -> unq stop false t = ([], t).
Proof using. intros [->|(c & t' & -> & Hc)]; [done|]. cbn [unq]. by rewrite Hc. Qed.

Lemma unq_doubled l t : begins t -> unq stop true (doubled l ++ 39 :: t) = (l, t).
Proof using Hstop.
  intros Ht. pose proof (begins_39 t Ht) as H39. induction l as [|b l IH].
  - cbn [doubled map concat app unq]. cbn [negb andb]. change (negb (39 =? 39)) with false. cbv iota.
    rewrite <- (unq_begins t Ht). destruct t as [|c1 t']; [done|]. unfold nb in H39. cbn [nth] in H39.
    by rewrite (proj2 (Z.eqb_neq c1 39)) by done.
  - unfold doubled in *. cbn [map concat]. rewrite <- app_assoc. destruct (Z.eqb_spec b 39) as [->|Hb].
    + cbn [app unq negb andb]. change (39 =? 39) with true. cbn [negb]. by rewrite IH.
    + cbn [app unq negb andb]. rewrite (proj2 (Z.eqb_neq b 39)) by done. cbn [negb]. by rewrite IH.
Qed.

Lemma unq_plain l t : begins t -> Forall (fun b => 32 < b /\ b <> 39) l -> unq stop false (l ++ t) = (l, t).
Proof using Hstop.
  intros Ht. induction 1 as [|b l [Hb H39] Hl IH]; [by apply unq_begins|]. cbn [app unq negb andb].
  destruct (stop b) eqn:Hs; [apply Hstop in Hs; lia|]. rewrite (proj2 (Z.eqb_neq b 39)) by done. cbn [negb]. by rewrite IH.
Qed.

Lemma plain_chars l : nonul l -> needs doquote l = false -> l <> [] /\ Forall (fun b => 32 < b /\ b <> 39) l.
Proof using.
  unfold needs. intros Hn [H1 H2]%orb_false_elim. split; [intros ->; done|]. apply Forall_forall. intros b Hb.
  pose proof (proj1 (Forall_forall _ _) Hn b Hb) as Hr. cbv beta in Hr. destruct (Z.lt_ge_cases b 0x80) as [Hlt|]; [|lia].
  apply (ascii_rune _ l 0 b (Nat.le_refl _) Hn ltac:(lia)) in Hb. fold (runes l) in Hb.
  assert (Hs : special doquote b = false).
  { destruct (special doquote b) eqn:Hs; [|done]. rewrite <- H2. symmetry. apply existsb_exists. exists b.
    split; [by apply list_elem_of_In|done]. }
  unfold special in Hs. apply orb_false_elim in Hs as [[Hs1 Hs2]%orb_false_elim _]. zbool. lia.
Qed.

Lemma unq_quote l t : nonul l -> begins t -> unq stop false (quote doquote l ++ t) = (l, t).
Proof using Hstop.
  intros Hn Ht. unfold quote. destruct (needs doquote l) eqn:Hnd.
  - unfold quotes. cbn [app unq]. destruct (stop 39) eqn:Hs; [apply Hstop in Hs; lia|]. cbn [negb andb].
    change (39 =? 39) with true. cbn [negb]. rewrite <- app_assoc. by apply unq_doubled.
  - apply unq_plain; [done|]. by apply plain_chars.
Qed.

(** A quoted word is not empty and does not begin with a separator. *)
Lemma quote_head l : nonul l -> exists c t, quote doquote l = c :: t /\ stop c = false.
Proof using Hstop.
  intros Hn. unfold quote. destruct (needs doquote l) eqn:Hnd.
  - exists 39, (doubled l ++ [39]). split; [done|]. destruct (stop 39) eqn:Hs; [apply Hstop in Hs; lia|done].
  - destruct (plain_chars l Hn Hnd) as [Hne Hf]. destruct l as [|b l]; [done|]. apply Forall_cons in Hf as [[Hb _] _].
    exists b, l. split; [done|]. destruct (stop b) eqn:Hs; [apply Hstop in Hs; lia|done].
Qed.

End Words.

(** A line that is in order: each word ends in separators, but perhaps the
    last. *)
Fixpoint line_ok (seps : list Z) (ws : list (list Z * list Z)) : Prop :=
  match ws with
  | [] => True
  | (w, g) :: ws => nonul w /\ Forall (fun c => c ∈ seps) g /\ (g = [] -> ws = []) /\ line_ok seps ws
  end.

Lemma drop_seps seps g t : Forall (fun c => c ∈ seps) g -> drop_while (sep_in seps) (g ++ t) = drop_while (sep_in seps) t.
Proof.
  induction 1 as [|c g Hc Hg IH]; [done|]. cbn [app drop_while]. unfold sep_in at 1. by rewrite bool_decide_true.
Qed.

Lemma tokens_line doquote seps : (forall b, b ∈ seps -> b <= 32) -> forall ws n g,
  line_ok seps ws -> Forall (fun c => c ∈ seps) g -> tokens seps n (g ++ line doquote ws) = take n (map fst ws).
Proof.
  intros Hseps. assert (Hstop : forall b, sep_in seps b = true -> b <= 32).
  { intros b Hb. apply bool_decide_eq_true in Hb. auto. }
  induction ws as [|[w g'] ws IH]; intros n g Hok Hg; (destruct n as [|n]; [done|]); cbn [tokens]; rewrite drop_seps by done.
  - done.
  - destruct Hok as (Hn & Hg' & Hlast & Hok). unfold line. cbn [map concat]. fold (line doquote ws).
    rewrite <- app_assoc. destruct (quote_head doquote (sep_in seps) Hstop w Hn) as (c & t & Hq & Hc).
    assert (Hb : begins (sep_in seps) (g' ++ line doquote ws)).
    { destruct g' as [|c' g']; [rewrite Hlast by done; by left|]. right. apply Forall_cons in Hg' as [Hc' _].
      exists c', (g' ++ line doquote ws). split; [done|]. by apply bool_decide_eq_true. }
    pose proof (unq_quote doquote (sep_in seps) Hstop w _ Hn Hb) as Hu. rewrite Hq in *. cbn [app drop_while] in *.
    rewrite Hc, Hu. cbn [map fst take]. f_equal. by apply IH.
Qed.
