(* ===== verification/FieldsThm.v ===== *)
(** The theorems about fields and quotes: what [tokenize], [gettokens] and
    [getfields] cut a line into, and that quoted strings come back, by
    [unquotestrdup] and through a line. *)

From S2P Require Import Prelude Mem CString Rune Chars Fields Quote.

Local Open Scope c_scope.

(** * Lemmas *)

(** ** The bounds of getfields *)

(** No entry is written beyond [max], and no more are counted. *)
Lemma getfields_loop_bound fuel : forall str narg max mflag intok set args m k a m',
  getfields_loop fuel str narg max mflag intok set args m = Some ((k, a), m') ->
  Zlen args <= max -> 0 <= narg -> narg <= max -> (mflag = true -> intok = false -> narg < max) ->
  0 <= k <= max /\ Zlen a <= max.
Proof.
  induction fuel as [|fuel IH]; intros str narg max mflag intok set args m k a m' H Ha H0 Hn Hi; [done|].
  cbn [getfields_loop] in H. apply bind_inv in H as ([nr r] & m1 & _ & H).
  destruct (r =? 0); [injection H as <- <- _; lia|]. apply bind_inv in H as (e & m2 & _ & H). destruct e.
  - rewrite Z.geb_leb in H. destruct (Z.leb_spec max narg); [injection H as <- <- _; lia|].
    apply bind_inv in H as (_ & m3 & _ & H). apply IH in H; [done| |destruct mflag; lia|destruct mflag; lia|].
    + unfold set_arg. destruct (Z.ltb_spec narg (Zlen args)).
      * unfold Zlen in *. rewrite length_insert. lia.
      * rewrite Zlen_app. change (Zlen [str +p nr]) with 1. lia.
    + intros -> _. lia.
  - apply IH in H; [done|done| | |done]; destruct mflag, intok; cbn [negb andb]; try specialize (Hi eq_refl eq_refl); lia.
Qed.

Lemma fields_length sep n cs : (length (fields sep n cs).2 <= n)%nat.
Proof.
  revert n. induction cs as [|[b r] cs IH]; intros n; [simpl; lia|]. cbn [fields]. destruct (sep r).
  - destruct n as [|n]; [simpl; lia|]. specialize (IH n). destruct (fields sep n cs). simpl in *. lia.
  - specialize (IH n). destruct (fields sep n cs). simpl in *. lia.
Qed.

(** When there is room for all of them, the fields of [words] are those of
    [fields] that are not empty. *)
Lemma words_fields sep cs : Forall (fun c => c.1 <> []) cs -> forall n k,
  (length cs <= n)%nat -> (length cs < k)%nat ->
  let '(f, fs) := fields sep n cs in
  (words sep true k cs).1 = f /\ (words sep true k cs).2 = filter (fun w => w <> []) fs /\
  (words sep false k cs).2 = filter (fun w => w <> []) (f :: fs).
Proof.
  induction 1 as [|[b r] cs Hb Hcs IH]; intros n k Hn Hk; [done|]. cbn [fields words fst] in *. simpl in Hn, Hk.
  destruct k as [|k]; [lia|]. destruct (sep r).
  - destruct n as [|n]; [lia|]. specialize (IH n (S k) ltac:(lia) ltac:(lia)). destruct (fields sep n cs) as [f fs].
    destruct IH as (_ & _ & H3). cbn [fst snd]. split_and!; [done|done|]. by rewrite (filter_cons_False _ []) by auto.
  - pose proof (IH n (S k) ltac:(lia) ltac:(lia)) as H1. pose proof (IH n k ltac:(lia) ltac:(lia)) as H2.
    replace (S k - 1)%nat with k by lia. destruct (fields sep n cs) as [f fs]. destruct H1 as (E1 & E2 & _), H2 as (E3 & E4 & _).
    destruct (words sep true (S k) cs) as [g gs], (words sep true k cs) as [h hs]. cbn [fst snd] in *. subst.
    split_and!; [done|done|]. rewrite filter_cons_True by (by destruct b). done.
Qed.

Lemma cells_ne n : forall l, (length l <= n)%nat -> nonul l ->
  Forall (fun c => c.1 <> []) (cells l) /\ (length (cells l) <= length l)%nat.
Proof.
  induction n as [|n IH]; intros l Hl Hn; [by destruct l; [|simpl in Hl; lia]|]. destruct l as [|b l]; [done|].
  destruct (dec (b :: l)) as [k r] eqn:Hd. rewrite (cells_cons b l k r Hn Hd). destruct (dec_len b l k r Hn Hd) as [Hr _].
  assert (Hk : (1 <= Z.to_nat k)%nat) by lia.
  assert (Hld : (length (drop (Z.to_nat k) (b :: l)) = S (length l) - Z.to_nat k)%nat) by (rewrite length_drop; done).
  destruct (IH (drop (Z.to_nat k) (b :: l))) as [H1 H2]; [simpl in Hl; lia|by apply Forall_drop|]. split.
  - constructor; [|done]. by destruct (Z.to_nat k); [lia|].
  - simpl. lia.
Qed.

(** The fields of a text, the empty ones included or not, at most [max]. *)
Definition all_fields (seps : list Z) (mflag : bool) (max : Z) (l : list Z) : list (list Z) :=
  if mflag then (words (rune_in seps) false (Z.to_nat max) (cells l)).2
  else let '(f, fs) := fields (rune_in seps) (Z.to_nat (max - 1)) (cells l) in f :: fs.

Lemma all_fields_ne seps max l : nonul l -> Zlen l < max ->
  all_fields seps true max l = filter (fun w => w <> []) (all_fields seps false max l).
Proof.
  intros Hn Hm. destruct (cells_ne _ l (Nat.le_refl _) Hn) as [H1 H2]. unfold all_fields, Zlen in *.
  pose proof (words_fields (rune_in seps) (cells l) H1 (Z.to_nat (max - 1)) (Z.to_nat max) ltac:(lia) ltac:(lia)) as H.
  destruct (fields _ _ _) as [f fs]. tauto.
Qed.

(** * Theorems *)

(** C34. [getfields] cuts a text at the characters of [set], in place: the
    pieces between separators, or with [mflag] those of them that are not empty;
    the last of [max] pieces has all that follows.  Each field it counts is a
    string inside the text, no entry beyond [max] is written to the array, and
    no byte outside the text. *)
Theorem getfields_exact (m : mem) (str max set : Z) (mflag : bool) (seps l : list Z) :
  mem_ok m -> 0 < set -> cstr_at m set seps -> cstr_at m str l -> apart set seps str (str + Zlen l + 1) -> 0 < max ->
  exists narg args m', getfields str max mflag set m = Some ((narg, args), m') /\
    0 <= narg <= max /\ Zlen args <= max /\
    Forall2 (token_at m' str (str + Zlen l)) (take (Z.to_nat narg) args) (all_fields seps mflag max l) /\
    same_outside str (Zlen l + 1) m m' /\
    (Zlen l < max -> all_fields seps true max l = filter (fun w => w <> []) (all_fields seps false max l)).
Proof.
  intros Hok Hset Hsep Hl Hd Hm. unfold getfields. destruct (Z.leb_spec max 0); [lia|]. unfold memfuel.
  erewrite bind_run by done.
  assert (Hex : exists narg args m', getfields_loop (S (length m)) str (if mflag then 0 else 1) max mflag false set [str] m =
      Some ((narg, args), m') /\ Forall2 (token_at m' str (str + Zlen l)) (take (Z.to_nat narg) args) (all_fields seps mflag max l) /\
      same_outside str (Zlen l + 1) m m').
  { unfold all_fields. destruct mflag.
    - destruct (words_run set seps Hset (S (length m)) m str l 0 max [] Hok Hsep Hl Hd (cstr_fuel _ _ _ Hl)) as [_ Hw].
      destruct (Hw eq_refl Hm) as (m' & ps & more & E & Hps & Hs). rewrite Z.sub_0_r in *. cbn [app] in E.
      exists (0 + Zlen ps), (ps ++ more), m'. split_and!; [done| |done]. rewrite Z.add_0_l, to_nat_Zlen, take_app_length. done.
    - destruct (fields_run set seps Hset (S (length m)) m str l 1 max false [str] Hok Hsep Hl Hd (cstr_fuel _ _ _ Hl) eq_refl)
        as (m' & ps & more & E & Hf & Hfl & Hps & Hs).
      destruct (fields _ _ _) as [f fs]. cbn [fst snd] in *. exists (1 + Zlen ps), ([str] ++ ps ++ more), m'.
      split_and!; [done| |done]. replace (Z.to_nat (1 + Zlen ps)) with (S (length ps)) by (unfold Zlen; lia).
      cbn [app take]. rewrite take_app_length. constructor; [split; [done|lia]|done]. }
  destruct Hex as (narg & args & m' & E & Hf & Hs). exists narg, args, m'.
  destruct (getfields_loop_bound _ _ _ _ _ _ _ _ _ _ _ _ E) as [Hb1 Hb2]; try (destruct mflag; done || lia).
  { change (Zlen [str]) with 1. lia. }
  split_and!; try done; try lia. intros Hlen. apply all_fields_ne; [apply Hl|done].
Qed.

(** C36. [tokenize] and [gettokens] find the tokens of a line, at most
    [maxargs]: [tokenize] leaves in place what each stands for, its quotes taken
    away and doubled quotes made single; [gettokens] leaves them as they are
    written.  Each is a string inside the line, and nothing outside is written. *)
Theorem tokens_exact (m : mem) (s maxargs sep : Z) (seps l : list Z) :
  mem_ok m -> 0 < sep -> cstr_at m sep seps -> cstr_at m s l -> apart sep seps s (s + Zlen l + 1) ->
  (exists args m', tokenize s maxargs sep m = Some (args, m') /\
     Forall2 (token_at m' s (s + Zlen l)) args (tokens seps (Z.to_nat maxargs) l) /\ same_outside s (Zlen l + 1) m m') /\
  (exists args m', gettokens s maxargs sep m = Some (args, m') /\
     Forall2 (token_at m' s (s + Zlen l)) args (raw_tokens seps (Z.to_nat maxargs) l) /\ same_outside s (Zlen l + 1) m m').
Proof.
  intros Hok Hsep Hse Hl Hd. split.
  - destruct (tokenize_loop_run sep seps Hsep (Z.to_nat maxargs) m s l Hok Hse Hl Hd) as (m' & ps & E & _ & Hp & Hs & _).
    by exists ps, m'.
  - destruct (gettokens_loop_run sep seps Hsep (Z.to_nat maxargs) m s l Hok Hse Hl Hd) as (m' & ps & E & _ & Hp & Hs & _).
    by exists ps, m'.
Qed.

(** C33. A line of quoted words comes back as the words: whatever characters the
    words have, quoted as [quotestrdup] does it with any [doquote], and
    whatever separators stand between them, [tokenize] returns the first
    [maxargs] words. *)
Theorem tokenize_quoted (doquote : option (Z -> bool)) (m : mem) (s maxargs qsep : Z) (g : list Z) (ws : list (list Z * list Z)) :
  mem_ok m -> 0 < qsep -> cstr_at m qsep qsep_bytes -> Forall (fun c => c ∈ qsep_bytes) g -> line_ok qsep_bytes ws ->
  cstr_at m s (g ++ line doquote ws) -> apart qsep qsep_bytes s (s + Zlen (g ++ line doquote ws) + 1) ->
  exists args m', tokenize s maxargs qsep m = Some (args, m') /\
    Forall2 (cstr_at m') args (take (Z.to_nat maxargs) (map fst ws)).
Proof.
  intros Hok Hq Hqs Hg Hws Hl Hd.
  destruct (tokenize_loop_run qsep qsep_bytes Hq (Z.to_nat maxargs) m s _ Hok Hqs Hl Hd) as (m' & ps & E & _ & Hp & _ & _).
  exists ps, m'. split; [done|]. rewrite tokens_line in Hp; [|by unfold qsep_bytes; set_solver by lia|done|done].
  eapply Forall2_impl; [exact Hp|]. by intros p w [? _].
Qed.

(** C35. [unquotestrdup] gives back what [quotestrdup] quoted: both answer nil,
    when there is no memory, or a string in a block of their own, and leave
    every block in use as it was. *)
Theorem quote_unquote `{Malloc} (doquote : option (Z -> bool)) (m : mem) (s : Z) (l : list Z) :
  mem_ok m -> cstr_at m s l -> in_use m s (Zlen l + 1) -> Zlen l < 2 ^ 28 ->
  exists p m1, quotestrdup doquote s m = Some (p, m1) /\ made m m1 p (quote doquote l) (Zlen (quote doquote l) + 1) /\
    (p <> 0 -> exists u m2, unquotestrdup p m1 = Some (u, m2) /\ made m1 m2 u l (Zlen (quote doquote l) + 1)).
Proof.
  intros Hok Hl Hu Hlen. destruct (quotestrdup_run doquote m s l Hok Hl Hu ltac:(lia)) as (p & m1 & E & Hmade).
  exists p, m1. split_and!; [done..|]. intros Hp. destruct Hmade as (Hok1 & _ & [?|(_ & Hq & Huq & _)]); [done|].
  assert (Hql : Zlen (quote doquote l) < 2 ^ 30).
  { unfold quote. destruct (needs _ _); [|lia]. rewrite Zlen_quotes, Zlen_doubled. pose proof (count_pos 39 l). lia. }
  pose proof (unq_quote doquote blank ltac:(unfold blank; intros b Hb; apply orb_true_iff in Hb as [?|?]; zbool; lia) l []
    (proj1 Hl) (or_introl eq_refl)) as Hun. rewrite app_nil_r in Hun.
  destruct (unquotestrdup_run m1 p _ l [] Hok1 Hq Huq Hql Hun) as (u & m2 & E2 & Hm2). rewrite app_nil_r in Hm2. by exists u, m2.
Qed.

(** * Witnesses *)

(** A string in a memory that is written out, whatever computes it. *)
Ltac cstr_vm :=
  match goal with |- cstr_at ?m ?a ?s => let v := eval vm_compute in s in change (cstr_at m a v) end; cstr_eval.

(** ":", and "a::b:" behind it. *)
Definition fields_mem : mem := [0; 58; 0; 97; 58; 58; 98; 58; 0].

Lemma bytes_ok m : forallb (fun b => (0 <=? b) && (b <? 256)) m && (Zlen m <? 1000) = true -> mem_ok m.
Proof.
  intros [H1 H2]%andb_prop. zbool. split; [|lia]. apply Forall_forall. intros b Hb. rewrite forallb_forall in H1.
  apply list_elem_of_In in Hb. apply H1 in Hb. zbool. unfold is_byte. lia.
Qed.

Lemma getfields_exact_witness :
  exists narg args m', getfields 3 8 true 1 fields_mem = Some ((narg, args), m') /\
    Forall2 (token_at m' 3 8) (take (Z.to_nat narg) args) [[97]; [98]].
Proof.
  destruct (getfields_exact fields_mem 3 8 1 true [58] [97; 58; 58; 98; 58]) as (narg & args & m' & E & _ & _ & Hf & _);
    [by apply bytes_ok|lia|cstr_eval|cstr_eval|left; by compute|lia|]. by exists narg, args, m'.
Defined.

(** The separators of [tokenize], and "'it''s' x" behind them. *)
Definition tokens_mem : mem := [0; 32; 9; 13; 10; 0; 39; 105; 116; 39; 39; 115; 39; 32; 120; 0].

Lemma tokens_exact_witness :
  (exists args m', tokenize 6 5 1 tokens_mem = Some (args, m') /\ Forall2 (token_at m' 6 15) args [[105; 116; 39; 115]; [120]] /\
     same_outside 6 10 tokens_mem m') /\
  (exists args m', gettokens 6 5 1 tokens_mem = Some (args, m') /\
     Forall2 (token_at m' 6 15) args [[39; 105; 116; 39; 39; 115; 39]; [120]] /\ same_outside 6 10 tokens_mem m').
Proof.
  apply (tokens_exact tokens_mem 6 5 1 qsep_bytes [39; 105; 116; 39; 39; 115; 39; 32; 120]);
    [by apply bytes_ok|lia|cstr_vm|cstr_eval|left; by compute].
Defined.

Lemma tokenize_quoted_witness :
  exists args m', tokenize 6 5 1 tokens_mem = Some (args, m') /\ Forall2 (cstr_at m') args [[105; 116; 39; 115]; [120]].
Proof.
  apply (tokenize_quoted None tokens_mem 6 5 1 [] [([105; 116; 39; 115], [32]); ([120], [])]);
    [by apply bytes_ok|lia|cstr_vm|constructor| |cstr_vm|left; by compute].
  cbn [line_ok]. unfold nonul, qsep_bytes. split_and!; try done;
    repeat (apply Forall_cons; split; [try lia; by left|]); apply Forall_nil; done.
Defined.

(** An allocator that keeps the promise: it gives out memory upwards from the
    address that byte 0 holds. *)
Definition bump (n : Z) : M Z := fun m =>
  match lk m 0 with
  | Some b => if (1 <=? b) && (b + n <=? Zlen m) && (b + n <? 256) then Some (b, wr m 0 [b + n]) else Some (0, m)
  | None => Some (0, m)
  end.

Definition bump_in_use (m : mem) (a k : Z) : Prop := 1 <= a /\ exists b, lk m 0 = Some b /\ a + k <= b.

#[export] Instance bump_malloc : Malloc.
Proof.
  refine {| malloc := bump; in_use := bump_in_use |}.
  - intros m n Hok Hn. unfold bump. destruct (lk m 0) as [b|] eqn:Hb.
    2: { exists 0, m. split_and!; [done|done|by left|]. intros a k Hu. split_and!; [done|done|by left]. }
    destruct ((1 <=? b) && (b + n <=? Zlen m) && (b + n <? 256)) eqn:Hc.
    2: { exists 0, m. split_and!; [done|done|by left|]. intros a k Hu. split_and!; [done|done|by left]. }
    zbool. assert (Hin : in_mem m 0 (Zlen [b + n])) by (unfold in_mem; change (Zlen [b + n]) with 1; lia).
    assert (Hb0 : lk (wr m 0 [b + n]) 0 = Some (b + n)) by (by rewrite lk_wr_in by (done || change (Zlen [b + n]) with 1; lia)).
    exists b, (wr m 0 [b + n]). split_and!; [done|apply mem_ok_wr; [done|repeat constructor; lia|done]| |].
    + right. split_and!; [lia|rewrite in_mem_wr by done; unfold in_mem; lia|]. split; [lia|]. exists (b + n). split; [done|lia].
    + intros a k (Ha & b' & Hb' & Hak). rewrite Hb in Hb'. injection Hb' as <-. split_and!; [split; [done|]; exists (b + n); split; [done|lia]| |right; lia].
      intros i Hi. apply lk_wr_out; [done|]. change (Zlen [b + n]) with 1. lia.
  - intros m b j a bs c k (Hb & _) Ha _ (Hc & e & He & Hck). split; [done|]. exists e. split; [|done].
    destruct m as [|x m]; [done|]. unfold wr. destruct (Z.to_nat a) as [|a'] eqn:Hz; [lia|]. exact He.
Defined.

(** "it's" at 1, and room behind it. *)
Definition quote_mem : mem := [6; 105; 116; 39; 115; 0] ++ replicate 30 0.

Lemma quote_unquote_witness :
  exists p m1, quotestrdup None 1 quote_mem = Some (p, m1) /\ p <> 0 /\
    exists u m2, unquotestrdup p m1 = Some (u, m2) /\ made m1 m2 u [105; 116; 39; 115] 8.
Proof.
  destruct (quote_unquote None quote_mem 1 [105; 116; 39; 115]) as (p & m1 & E & _ & Hun);
    [by apply bytes_ok|cstr_eval|split; [lia|exists 6; split; [done|by compute]]|by compute|].
  exists p, m1. assert (Hp : p <> 0) by (vm_compute in E; injection E as <- _; done). split_and!; [done|done|]. by apply Hun.
Defined.
