(* ===== verification/Sort.v ===== *)
(** [libc/port/qsort.c]: sorting an array in place, of elements of any size in
    the order of a function of the caller's.

    The comparison function is a parameter: it is given the addresses of two
    elements.  The model is the code's loops over memory; the specification is
    a list of elements ([arr]) and its permutations. *)

From stdpp Require Import sorting.
From S2P Require Import Prelude Mem CString Fcall Chars.

Local Open Scope c_scope.

(** * Definitions *)

(** A [long] in memory: 32 bits, the low byte first. *)
Definition ld32 (p : Z) : M Z := fun m =>
  if (0 <=? p) && (p + 4 <=? Zlen m) then Some (s32 (unle (sub m p 4)), m) else None.

Definition st32 (p v : Z) : M unit := fun m =>
  if (0 <=? p) && (p + 4 <=? Zlen m) then Some (tt, wr m p (le 4 (u32 v))) else None.

Record Sort := mkSort {
  cmp : Z -> Z -> M Z;
  swap : Z -> Z -> Z -> M unit;
  es : Z }.

Fixpoint swapb_loop (fuel : nat) (i j es : Z) : M unit :=
  match fuel with
  | O => trap
  | S fuel =>
      c ← ldc i;
      cj ← ldc j;
      _ ← st8 i cj;
      _ ← st8 j c;
      let es := s32 (es - 1) in
      if es =? 0 then mret tt else swapb_loop fuel (i +p 1) (j +p 1) es
  end.

Definition swapb (i j es : Z) : M unit := fuel ← memfuel; swapb_loop fuel i j es.

Fixpoint swapi_loop (fuel : nat) (i j es : Z) : M unit :=
  match fuel with
  | O => trap
  | S fuel =>
      c ← ld32 i;
      cj ← ld32 j;
      _ ← st32 i cj;
      _ ← st32 j c;
      let es := s32 (es - 4) in
      if es =? 0 then mret tt else swapi_loop fuel (i +p 4) (j +p 4) es
  end.

Definition swapi (ii ij es : Z) : M unit := fuel ← memfuel; swapi_loop fuel ii ij es.

(** The median of the elements at one, three and five sixths. *)
Definition pivot (a n : Z) (p : Sort) : M Z :=
  let j := u32 (n / 6 * p.(es)) in
  let pi := a +p j in
  let j := u32 (j + j) in
  let pj := pi +p j in
  let pk := pj +p j in
  ij ← p.(cmp) pi pj;
  if ij <? 0 then
    ik ← p.(cmp) pi pk;
    if ik <? 0 then
      jk ← p.(cmp) pj pk;
      if jk <? 0 then mret pj else mret pk
    else mret pi
  else
    jk ← p.(cmp) pj pk;
    if jk <? 0 then
      ik ← p.(cmp) pi pk;
      if ik <? 0 then mret pi else mret pk
    else mret pj.

(** Lines 88 to 90, and 91 to 93. *)
Fixpoint up_loop (fuel : nat) (a pn : Z) (p : Sort) (pi : Z) : M Z :=
  match fuel with
  | O => trap
  | S fuel =>
      let pi := pi +p p.(es) in
      if pi <? pn then
        c ← p.(cmp) pi a;
        if c <? 0 then up_loop fuel a pn p pi else mret pi
      else mret pi
  end.

Fixpoint down_loop (fuel : nat) (a : Z) (p : Sort) (pj : Z) : M Z :=
  match fuel with
  | O => trap
  | S fuel =>
      let pj := pj +p - p.(es) in
      if pj >? a then
        c ← p.(cmp) pj a;
        if c >? 0 then down_loop fuel a p pj else mret pj
      else mret pj
  end.

(** Lines 87 to 97: what is left is where [pj] stops. *)
Fixpoint partition_loop (fuel : nat) (a pn : Z) (p : Sort) (pi pj : Z) : M Z :=
  match fuel with
  | O => trap
  | S fuel =>
      up ← memfuel;
      pi ← up_loop up a pn p pi;
      down ← memfuel;
      pj ← down_loop down a p pj;
      if pj <? pi then mret pj else
      _ ← p.(swap) pi pj p.(es);
      partition_loop fuel a pn p pi pj
  end.

(** Lines 78 to 98. *)
Definition partition (a n : Z) (p : Sort) : M Z :=
  pi ← (if n >? 10 then pivot a n p else mret (a +p u32 (Z.shiftr n 1 * p.(es))));
  _ ← p.(swap) a pi p.(es);
  let pn := a +p u32 (n * p.(es)) in
  fuel ← memfuel;
  pj ← partition_loop fuel a pn p a pn;
  _ ← p.(swap) a pj p.(es);
  mret pj.

(** The next iteration of the loop, with the other partition, is the second call. *)
Fixpoint qsorts (fuel : nat) (a n : Z) (p : Sort) : M unit :=
  match fuel with
  | O => trap
  | S fuel =>
      if n >? 1 then
        pj ← partition a n p;
        let j := u32 (pj - a) / p.(es) in
        let n := u32 (n - (j + 1)) in
        let pj := a +p u32 ((j + 1) * p.(es)) in
        if j >=? n then
          _ ← qsorts fuel a j p;
          qsorts fuel pj n p
        else
          _ ← qsorts fuel pj n p;
          qsorts fuel a j p
      else mret tt
  end.

Definition qsort (va n es : Z) (cmp : Z -> Z -> M Z) : M unit :=
  let s := mkSort cmp (if Z.lor va (u32 es) mod 4 =? 0 then swapi else swapb) es in
  qsorts (S (Z.to_nat (u32 n))) va (u32 n) s.

(** ** Specification *)

(** The elements of an array. *)
Definition arr (es : Z) (m : mem) (a : Z) (xs : list (list Z)) : Prop :=
  0 <= a /\ a + Zlen xs * es <= Zlen m /\
  forall k x, xs !! k = Some x -> Zlen x = es /\ bytes_at m (a + Z.of_nat k * es) x.

(** A comparison of elements that puts them in an order, equal ones included. *)
Class Comparison (c : list Z -> list Z -> Z) : Prop := {
  compare_flip : forall x y, c x y <= 0 <-> 0 <= c y x;
  compare_trans : forall x y z, c x y <= 0 -> c y z <= 0 -> c x z <= 0 }.

(** [f], the answers of a comparison function at two addresses, are those of [c]
    on the elements there. *)
Definition compares (es : Z) (f : mem -> Z -> Z -> Z) (c : list Z -> list Z -> Z) : Prop :=
  forall m p q x y, Zlen x = es -> Zlen y = es -> bytes_at m p x -> bytes_at m q y -> f m p q = c x y.

(** What a comparison function may do: answer, and leave memory alone. *)
Definition answers (es : Z) (cmp : Z -> Z -> M Z) (f : mem -> Z -> Z -> Z) : Prop :=
  forall m p q, in_mem m p es -> in_mem m q es -> cmp p q m = Some (f m p q, m).

(** * Exchanging two elements *)

Lemma wr_pair m i j b c x y :
  let k := Zlen b in let n := Zlen b + Zlen x in
  Zlen c = Zlen b -> Zlen y = Zlen x -> in_mem m i n -> in_mem m j n -> (i + n <= j \/ j + n <= i) ->
  wr (wr (wr (wr m i c) j b) (i + k) y) (j + k) x = wr (wr m i (c ++ y)) j (b ++ x).
Proof.
  intros k n Hc Hy Hi Hj Hd. subst k n. pose proof (Zlen_nonneg b). pose proof (Zlen_nonneg x).
  unfold in_mem in Hi, Hj.
  assert (forall m' p (bs : list Z), Zlen m' = Zlen m -> 0 <= p -> p + Zlen bs <= Zlen m -> in_mem m' p (Zlen bs)) as Hin
    by (intros m' p bs Hm H1 H2; pose proof (Zlen_nonneg bs); unfold in_mem; lia).
  assert (L1 : Zlen (wr m i c) = Zlen m) by (apply Zlen_wr, Hin; lia).
  assert (L2 : Zlen (wr (wr m i c) j b) = Zlen m) by (rewrite Zlen_wr; [done|apply Hin; lia]).
  assert (L3 : Zlen (wr (wr (wr m i c) j b) (i + Zlen b) y) = Zlen m) by (rewrite Zlen_wr; [done|apply Hin; lia]).
  assert (L4 : Zlen (wr m i (c ++ y)) = Zlen m) by (apply Zlen_wr, Hin; rewrite ?Zlen_app; lia).
  apply lk_ext. intros o _. rewrite !lk_wr by (apply Hin; rewrite ?Zlen_app; lia). rewrite !Zlen_app.
  repeat match goal with |- context [?u <=? ?v] => destruct (Z.leb_spec u v)
    | |- context [?u <? ?v] => destruct (Z.ltb_spec u v) end; cbn [andb]; try lia; try done.
  all: first [rewrite lk_app_r by lia; f_equal; lia | rewrite lk_app_l by lia; f_equal; lia].
Qed.

(** What exchanging the elements at [i] and [j] leaves. *)
Definition swapped (m : mem) (i j : Z) (x y : list Z) : mem := wr (wr m i y) j x.

Definition apart (i j n : Z) : Prop := i = j \/ i + n <= j \/ j + n <= i.

Lemma swapped_same m i x : bytes_at m i x -> swapped m i i x x = m.
Proof. intros H. unfold swapped. by rewrite !(wr_bytes_at m i x H). Qed.

(** One chunk exchanged, the rest of both elements is where it was. *)
Lemma swapped_step m i j b c x y :
  let k := Zlen b in
  mem_ok m -> bytes_at m i (b ++ x) -> bytes_at m j (c ++ y) -> Zlen c = k -> Zlen y = Zlen x ->
  apart i j (k + Zlen x) -> Forall is_byte b -> Forall is_byte c ->
  let m1 := swapped m i j b c in
  mem_ok m1 /\ bytes_at m1 (i + k) x /\ bytes_at m1 (j + k) y /\
  swapped m1 (i + k) (j + k) x y = swapped m i j (b ++ x) (c ++ y).
Proof.
  intros k Hok Hi Hj Hc Hy Hd Bb Bc m1. subst k m1. pose proof (Zlen_nonneg b). pose proof (Zlen_nonneg x).
  pose proof (bytes_at_in _ _ _ Hi) as (I1 & _ & I2). pose proof (bytes_at_in _ _ _ Hj) as (J1 & _ & J2).
  rewrite Zlen_app in I2, J2. destruct (decide (i = j)) as [->|Hne].
  - assert (Heq : b ++ x = c ++ y) by (eapply bytes_at_eq; [exact Hi|exact Hj|rewrite !Zlen_app; lia]).
    apply app_inj_1 in Heq as [-> ->]; [|unfold Zlen in Hc; lia].
    pose proof Hi as [Hi1 Hi2]%bytes_at_app. rewrite (swapped_same m j c Hi1), !swapped_same by done. done.
  - assert (Hd' : i + (Zlen b + Zlen x) <= j \/ j + (Zlen b + Zlen x) <= i) by (destruct Hd; [done|lia]). clear Hd.
    apply bytes_at_app in Hi as [Hi1 Hi2]. apply bytes_at_app in Hj as [Hj1 Hj2]. rewrite Hc in Hj2.
    assert (Hm1 : in_mem m i (Zlen c)) by (unfold in_mem; lia).
    assert (Hm2 : in_mem (wr m i c) j (Zlen b)) by (rewrite in_mem_wr by done; unfold in_mem; lia).
    unfold swapped. split_and!.
    + apply mem_ok_wr; [by apply mem_ok_wr|done..].
    + apply bytes_at_wr_out; [done|apply bytes_at_wr_out; [done..|lia]|lia].
    + apply bytes_at_wr_out; [done|apply bytes_at_wr_out; [done..|lia]|lia].
    + apply wr_pair; (done || unfold in_mem; lia).
Qed.

Lemma st8_ldc m i b : is_byte b -> in_mem m i 1 -> st8 i (s8 b) m = Some (tt, wr m i [b]).
Proof. intros Hb Hi. rewrite st8_run by done. by rewrite u8_s8. Qed.

Lemma swapb_run m i j x y fuel :
  mem_ok m -> bytes_at m i x -> bytes_at m j y -> Zlen y = Zlen x -> 0 < Zlen x < 2 ^ 31 -> apart i j (Zlen x) ->
  (length x <= fuel)%nat -> swapb_loop fuel i j (Zlen x) m = Some (tt, swapped m i j x y).
Proof.
  revert m i j y fuel. induction x as [|b x IH]; intros m i j [|c y] [|fuel] Hok Hi Hj Hy Hx Hd Hf;
    rewrite ?Zlen_cons, ?Zlen_nil in *; zpos; try (simpl in Hf; lia); try lia.
  pose proof (bytes_at_in _ _ _ Hi) as (I1 & _ & I2). pose proof (bytes_at_in _ _ _ Hj) as (J1 & _ & J2). rewrite Zlen_cons in I2, J2.
  pose proof (proj2 Hok) as Hlim.
  pose proof Hi as [Hb _]%bytes_at_cons. pose proof Hj as [Hc _]%bytes_at_cons.
  pose proof (lk_byte _ _ _ (proj1 Hok) Hb) as Bb. pose proof (lk_byte _ _ _ (proj1 Hok) Hc) as Bc.
  destruct (swapped_step m i j [b] [c] x y) as (Hok1 & Hi1 & Hj1 & Hsw); try done; [lia|by constructor|by constructor|].
  cbn [app] in Hsw. rewrite <- Hsw. clear Hsw.
  change (Zlen [b]) with 1 in *. assert (M1 : in_mem m i 1) by (unfold in_mem; lia).
  assert (M2 : in_mem (wr m i [c]) j 1) by (rewrite in_mem_wr by done; unfold in_mem; lia).
  cbn [swapb_loop]. run_with (ldc_run m i b Hb). run_with (ldc_run m j c Hc). run_with (st8_ldc m i c Bc M1).
  run_with (st8_ldc _ j b Bb M2). rewrite s32_small by lia. replace (1 + Zlen x - 1) with (Zlen x) by lia.
  fold (swapped m i j [b] [c]). destruct (Z.eqb_spec (Zlen x) 0) as [E|E].
  - assert (x = []) as -> by (by destruct x). assert (y = []) as -> by (destruct y; [done|rewrite Zlen_cons in *; zpos; lia]).
    unfold swapped. by rewrite !wr_nil.
  - rewrite !padd_small by lia. apply IH; try done; try lia; [|simpl in Hf; lia]. unfold apart in *. lia.
Qed.

Lemma ld32_run m p b : bytes_at m p b -> Zlen b = 4 -> ld32 p m = Some (s32 (unle b), m).
Proof.
  intros H Hl. pose proof (bytes_at_in _ _ _ H) as (H1 & _ & H2). unfold ld32. rewrite Hl in H2. zif. cbn [andb].
  replace (sub m p 4) with b; [done|]. apply (bytes_at_eq m p); [done|apply sub_bytes_at|rewrite Zlen_sub; [done|]]; unfold in_mem; lia.
Qed.

Lemma u32_s32 x : u32 (s32 x) = u32 x.
Proof.
  unfold s32. pose proof (u32_range x). destruct (Z.ltb_spec (u32 x) (2 ^ 31)); [apply u32_small; lia|].
  unfold u32 at 1. symmetry. apply (Z.mod_unique_pos _ _ (-1)); lia.
Qed.

Lemma st32_ld32 m p b : Forall is_byte b -> Zlen b = 4 -> in_mem m p 4 -> st32 p (s32 (unle b)) m = Some (tt, wr m p b).
Proof.
  intros Hb Hl (H1 & _ & H2). unfold st32. zif. cbn [andb]. rewrite u32_s32, u32_small.
  - replace 4%nat with (length b) by (unfold Zlen in Hl; lia). by rewrite le_unle.
  - pose proof (unle_bound b Hb) as Hu. rewrite Hl in Hu. exact Hu.
Qed.

Lemma swapi_run m i j x y fuel :
  mem_ok m -> bytes_at m i x -> bytes_at m j y -> Zlen y = Zlen x -> 0 < Zlen x < 2 ^ 31 -> Zlen x mod 4 = 0 -> apart i j (Zlen x) ->
  (length x <= fuel)%nat -> swapi_loop fuel i j (Zlen x) m = Some (tt, swapped m i j x y).
Proof.
  revert m i j x y. induction fuel as [|fuel IH]; intros m i j x y Hok Hi Hj Hy Hx H4 Hd Hf; [unfold Zlen in Hx; lia|].
  assert (Hx4 : 4 <= Zlen x) by (apply Z.mod_divide in H4 as [q Hq]; lia).
  assert (Lt : forall z : list Z, 4 <= Zlen z -> Zlen (take 4 z) = 4 /\ Zlen (drop 4 z) = Zlen z - 4)
    by (intros z Hz; unfold Zlen in *; rewrite length_take, length_drop; lia).
  destruct (Lt x Hx4) as [Lb Lx]. destruct (Lt y) as [Lc Ly]; [lia|]. clear Lt.
  pose proof (bytes_at_in _ _ _ Hi) as (I1 & _ & I2). pose proof (bytes_at_in _ _ _ Hj) as (J1 & _ & J2). pose proof (proj2 Hok) as Hlim.
  pose proof (bytes_at_Forall m i x (proj1 Hok) Hi) as Bx. pose proof (bytes_at_Forall m j y (proj1 Hok) Hj) as By.
  assert (Hf' : (length (drop 4 x) <= fuel)%nat) by (rewrite length_drop; lia).
  rewrite <- (take_drop 4 x) in Hi, Bx |- *. rewrite <- (take_drop 4 y) in Hj, By |- *.
  apply Forall_app in Bx as [Bb _]. apply Forall_app in By as [Bc _].
  remember (take 4 x) as b eqn:Eb. remember (take 4 y) as c eqn:Ec. remember (drop 4 x) as x' eqn:Ex. remember (drop 4 y) as y' eqn:Ey.
  pose proof Hi as [Hb _]%bytes_at_app. pose proof Hj as [Hc _]%bytes_at_app.
  destruct (swapped_step m i j b c x' y') as (Hok1 & Hi1 & Hj1 & <-); try done; [lia|lia|rewrite Lb, Lx; by replace (4 + (Zlen x - 4)) with (Zlen x) by lia|].
  rewrite Zlen_app, Lb, Lx. rewrite Lb in *. assert (M1 : in_mem m i (Zlen c)) by (unfold in_mem; lia).
  assert (M2 : in_mem (wr m i c) j 4) by (rewrite in_mem_wr by done; unfold in_mem; lia).
  cbn [swapi_loop]. run_with (ld32_run m i b Hb Lb). run_with (ld32_run m j c Hc Lc). rewrite Lc in M1.
  run_with (st32_ld32 m i c Bc Lc M1). run_with (st32_ld32 _ j b Bb Lb M2).
  fold (swapped m i j b c). rewrite s32_small by lia. replace (4 + (Zlen x - 4) - 4) with (Zlen x') by lia.
  destruct (Z.eqb_spec (Zlen x') 0) as [E|E].
  - assert (x' = []) as -> by (destruct x'; [done|rewrite Zlen_cons in *; zpos; lia]).
    assert (y' = []) as -> by (destruct y'; [done|rewrite Zlen_cons in *; zpos; lia]).
    unfold swapped. by rewrite !wr_nil.
  - rewrite !padd_small by lia. apply IH; try done; try lia.
    + rewrite Lx, Zminus_mod, H4. done.
    + unfold apart in *. lia.
Qed.

(** The exchange that [qsort] picks. *)
Definition swap_of (va es : Z) : Z -> Z -> Z -> M unit :=
  if Z.lor va (u32 es) mod 4 =? 0 then swapi else swapb.

Lemma lor_mod4 a b : 0 <= a -> 0 <= b -> Z.lor a b mod 4 = 0 -> b mod 4 = 0.
Proof.
  intros Ha Hb H. change 4 with (2 ^ 2) in *. rewrite <- Z.land_ones in H |- * by lia.
  rewrite Z.land_comm, Z.land_lor_distr_r in H. apply Z.lor_eq_0_iff in H as [_ H]. by rewrite Z.land_comm.
Qed.

Lemma swap_of_run va m i j x y es :
  mem_ok m -> bytes_at m i x -> bytes_at m j y -> Zlen x = es -> Zlen y = es -> 0 < es < 2 ^ 31 -> 0 <= va -> apart i j es ->
  swap_of va es i j es m = Some (tt, swapped m i j x y).
Proof.
  intros Hok Hi Hj Hx Hy Hes Hva Hd. subst es.
  pose proof (bytes_at_in _ _ _ Hi) as (I1 & _ & I2).
  assert (Hf : (length x <= S (length m))%nat) by (unfold Zlen in *; lia).
  unfold swap_of. rewrite u32_small by lia. destruct (Z.eqb_spec (Z.lor va (Zlen x) mod 4) 0) as [E|E].
  - apply lor_mod4 in E; [|lia..]. unfold swapi. erewrite bind_run by done. by apply swapi_run.
  - unfold swapb. erewrite bind_run by done. by apply swapb_run.
Qed.

(** * Arrays *)

Section Arrays.
Context (es : Z) (Hes : 0 < es).

#[local] Abbreviation el a k := (a + Z.of_nat k * es).

Lemma el_S a k : el a (S k) = el a k + es.
Proof. lia. Qed.

Lemma el_le a j k : el a j <= el a k <-> (j <= k)%nat.
Proof. split; intros; nia. Qed.

Lemma el_lt a j k : el a j < el a k <-> (j < k)%nat.
Proof. split; intros; nia. Qed.

Lemma arr_in m a xs k : arr es m a xs -> (k < length xs)%nat -> in_mem m (el a k) es.
Proof. intros (H1 & H2 & _) Hk. unfold in_mem, Zlen in *. nia. Qed.

Lemma arr_lookup m a xs k x : arr es m a xs -> xs !! k = Some x -> Zlen x = es /\ bytes_at m (el a k) x.
Proof. intros (_ & _ & H). apply H. Qed.

Lemma arr_insert m a xs k x : arr es m a xs -> (k < length xs)%nat -> Zlen x = es ->
  arr es (wr m (el a k) x) a (<[k := x]> xs) /\ same_outside a (Zlen xs * es) m (wr m (el a k) x).
Proof.
  intros Ha Hk Hx. assert (Hin : in_mem m (el a k) (Zlen x)) by (rewrite Hx; by eapply arr_in). destruct Ha as (H1 & H2 & H3).
  split.
  - split_and!; [done|rewrite Zlen_wr by done; unfold Zlen in *; by rewrite length_insert|].
    intros j y Hj. destruct (decide (j = k)) as [->|Hne].
    + rewrite list_lookup_insert_eq in Hj by done. injection Hj as <-. split; [done|by apply bytes_at_wr].
    + rewrite list_lookup_insert_ne in Hj by done. destruct (H3 j y Hj) as [Hy Hb]. split; [done|].
      apply bytes_at_wr_out; [done..|]. rewrite Hx, Hy. nia.
  - destruct (wr_same_outside m (el a k) x Hin) as [Hl Ho]. split; [done|]. intros i Hi. apply Ho. unfold Zlen in *. nia.
Qed.

Lemma arr_swapped m a xs i j x y : mem_ok m -> arr es m a xs -> xs !! i = Some x -> xs !! j = Some y ->
  let m' := swapped m (el a i) (el a j) x y in
  mem_ok m' /\ arr es m' a (<[j := x]> (<[i := y]> xs)) /\ same_outside a (Zlen xs * es) m m'.
Proof.
  intros Hok Ha Hi Hj m'. destruct (arr_lookup _ _ _ _ _ Ha Hi) as [Lx Bx]. destruct (arr_lookup _ _ _ _ _ Ha Hj) as [Ly By].
  pose proof (lookup_lt_Some _ _ _ Hi). pose proof (lookup_lt_Some _ _ _ Hj).
  pose proof (bytes_at_Forall _ _ _ (proj1 Hok) Bx). pose proof (bytes_at_Forall _ _ _ (proj1 Hok) By).
  destruct (arr_insert m a xs i y Ha) as [Ha1 Ho1]; [done|done|].
  destruct (arr_insert _ a (<[i := y]> xs) j x Ha1) as [Ha2 Ho2]; [by rewrite length_insert|done|].
  assert (Zlen (<[i := y]> xs) = Zlen xs) as Hl by (unfold Zlen; by rewrite length_insert). rewrite Hl in Ho2.
  assert (Hin : in_mem m (el a i) (Zlen y)) by (rewrite Ly; by eapply arr_in).
  assert (Hin2 : in_mem (wr m (el a i) y) (el a j) (Zlen x)) by (rewrite Lx; eapply arr_in; [done|by rewrite length_insert]).
  split_and!; [|done|by eapply outside_trans]. apply mem_ok_wr; [by apply mem_ok_wr|done..].
Qed.

Lemma elems_app m a xs ys : arr es m a (xs ++ ys) <-> arr es m a xs /\ arr es m (a + Zlen xs * es) ys.
Proof.
  unfold arr. rewrite Zlen_app. pose proof (Zlen_nonneg xs). pose proof (Zlen_nonneg ys). split.
  - intros (H1 & H2 & H3). split_and!; try nia; intros k x Hk.
    + apply H3. by apply lookup_app_l_Some.
    + replace (a + Zlen xs * es + Z.of_nat k * es) with (el a (length xs + k)) by (rewrite Nat2Z.inj_add; unfold Zlen; ring).
      apply H3. rewrite lookup_app_r by lia. by replace (length xs + k - length xs)%nat with k by lia.
  - intros [(H1 & H2 & H3) (H4 & H5 & H6)]. split_and!; [nia|nia|]. intros k x [Hk|[Hl Hk]]%lookup_app_Some; [by apply H3|].
    replace (el a k) with (a + Zlen xs * es + Z.of_nat (k - length xs) * es) by (rewrite Nat2Z.inj_sub by lia; unfold Zlen; ring). by apply H6.
Qed.

Lemma arr_agree m m' a xs : arr es m a xs -> Zlen m' = Zlen m ->
  (forall i, a <= i < a + Zlen xs * es -> lk m' i = lk m i) -> arr es m' a xs.
Proof.
  intros (H1 & H2 & H3) Hl H. split_and!; [done|lia|]. intros k x Hk. destruct (H3 k x Hk) as [Lx Bx]. split; [done|].
  apply lookup_lt_Some in Hk. eapply bytes_at_agree; [done..|]. intros i Hi. apply H. rewrite Lx in Hi. unfold Zlen in *. nia.
Qed.

(** Changing one part of an array leaves the other. *)
Lemma arr_left m m' a xs xs' ys : arr es m a (xs ++ ys) -> arr es m' a xs' -> Zlen xs' = Zlen xs ->
  same_outside a (Zlen xs * es) m m' -> arr es m' a (xs' ++ ys) /\ same_outside a (Zlen (xs ++ ys) * es) m m'.
Proof.
  intros [H1 H2]%elems_app H3 Hl Ho. pose proof (Zlen_nonneg ys). split.
  - apply elems_app. split; [done|]. rewrite Hl. eapply arr_agree; [done|apply Ho|]. intros i Hi. apply Ho. lia.
  - eapply same_outside_sub; [done|lia|]. rewrite Zlen_app. nia.
Qed.

Lemma arr_right m m' a xs ys ys' : arr es m a (xs ++ ys) -> arr es m' (a + Zlen xs * es) ys' ->
  same_outside (a + Zlen xs * es) (Zlen ys * es) m m' -> arr es m' a (xs ++ ys') /\ same_outside a (Zlen (xs ++ ys) * es) m m'.
Proof.
  intros [H1 H2]%elems_app H3 Ho. pose proof (Zlen_nonneg xs). split.
  - apply elems_app. split; [|done]. eapply arr_agree; [done|apply Ho|]. intros i Hi. apply Ho. lia.
  - eapply same_outside_sub; [done|nia|]. rewrite Zlen_app. lia.
Qed.

End Arrays.

(** Three elements in another order. *)
Ltac perm3 := first [reflexivity | apply perm_swap | apply perm_skip, perm_swap | apply (Permutation_app_comm [_] [_; _])
  | apply (Permutation_app_comm [_; _] [_]) | symmetry; apply (Permutation_rev [_; _; _])].

(** * Partitioning *)

Section Partition.
Context (p : Sort) (f : mem -> Z -> Z -> Z).
Hypothesis Hes : 0 < p.(es) < 2 ^ 31.
Hypothesis Hcmp : answers p.(es) p.(cmp) f.
Hypothesis Hswap : forall m i j x y, mem_ok m -> bytes_at m i x -> bytes_at m j y ->
  Zlen x = p.(es) -> Zlen y = p.(es) -> apart i j p.(es) -> p.(swap) i j p.(es) m = Some (tt, swapped m i j x y).

#[local] Abbreviation el a k := (a + Z.of_nat k * p.(es)).
#[local] Abbreviation array := (arr p.(es)).

(** [c] is the order that the comparison function answers for. *)
Definition sorts_by (c : list Z -> list Z -> Z) : Prop := Comparison c /\ compares p.(es) f c.

Lemma el_next a k : 0 <= a -> el a (S k) < 2 ^ 32 -> el a k +p p.(es) = el a (S k).
Proof. intros Ha H. rewrite padd_small; nia. Qed.

Lemma el_prev a k : 0 <= a -> el a (S k) < 2 ^ 32 -> el a (S k) +p - p.(es) = el a k.
Proof. intros Ha H. rewrite padd_small; nia. Qed.

Lemma array_lim m a xs k : mem_ok m -> array m a xs -> (k <= length xs)%nat -> 0 <= a /\ el a k < 2 ^ 32.
Proof. intros Hok (H1 & H2 & _) Hk. pose proof (proj2 Hok). unfold Zlen in *. nia. Qed.

Lemma array_short m a xs : array m a xs -> (length xs <= length m)%nat.
Proof. intros (H1 & H2 & _). unfold Zlen in *. nia. Qed.

Lemma cmp_run m a xs i j : array m a xs -> (i < length xs)%nat -> (j < length xs)%nat ->
  p.(cmp) (el a i) (el a j) m = Some (f m (el a i) (el a j), m).
Proof. intros Ha Hi Hj. apply Hcmp; eapply arr_in; (eassumption || lia). Qed.

Lemma cmp_first m a xs i : array m a xs -> (i < length xs)%nat -> p.(cmp) (el a i) a m = Some (f m (el a i) a, m).
Proof.
  intros Ha Hi. pose proof (cmp_run m a xs i 0 Ha Hi ltac:(lia)) as H. rewrite Z.mul_0_l, Z.add_0_r in H. exact H.
Qed.

Lemma up_loop_run m a xs i fuel : mem_ok m -> array m a xs -> (i < length xs <= i + fuel)%nat ->
  exists k, (i < k <= length xs)%nat /\ up_loop fuel a (el a (length xs)) p (el a i) m = Some (el a k, m) /\
    (forall j, (i < j < k)%nat -> f m (el a j) a < 0) /\ ((k < length xs)%nat -> 0 <= f m (el a k) a).
Proof.
  intros Hok Ha. revert i. induction fuel as [|fuel IH]; intros i Hi; [lia|]. cbn [up_loop].
  pose proof (array_lim m a xs (S i) Hok Ha ltac:(lia)) as [H0 H1]. rewrite el_next by done.
  destruct (Z.ltb_spec (el a (S i)) (el a (length xs))) as [E|E].
  - apply el_lt in E; [|lia]. run_with (cmp_first m a xs (S i) Ha E).
    destruct (Z.ltb_spec (f m (el a (S i)) a) 0) as [F|F].
    + destruct (IH (S i)) as (k & Hk & -> & K1 & K2); [lia|]. exists k. split_and!; [lia|lia|done| |done].
      intros j Hj. destruct (decide (j = S i)) as [->|]; [done|]. apply K1. lia.
    + exists (S i). split_and!; [lia|lia|done|lia|lia].
  - exists (S i). split_and!; [lia|lia|done|lia|]. intros Hl. apply (el_lt p.(es) ltac:(lia) a) in Hl. lia.
Qed.

Lemma down_loop_run m a xs j fuel : mem_ok m -> array m a xs -> (0 < j <= length xs)%nat -> (j <= fuel)%nat ->
  exists k, (k < j)%nat /\ down_loop fuel a p (el a j) m = Some (el a k, m) /\
    (forall i, (k < i < j)%nat -> 0 < f m (el a i) a) /\ ((0 < k)%nat -> f m (el a k) a <= 0).
Proof.
  intros Hok Ha. revert j. induction fuel as [|fuel IH]; intros [|j] Hj Hf; try lia. cbn [down_loop].
  pose proof (array_lim m a xs (S j) Hok Ha ltac:(lia)) as [H0 H1]. rewrite el_prev by done.
  rewrite !Z.gtb_ltb. destruct (Z.ltb_spec a (el a j)) as [E|E].
  - assert (0 < j)%nat by nia. assert (Hl : (j < length xs)%nat) by lia. run_with (cmp_first m a xs j Ha Hl).
    rewrite Z.gtb_ltb. destruct (Z.ltb_spec 0 (f m (el a j) a)) as [F|F].
    + destruct (IH j) as (k & Hk & -> & K1 & K2); [lia|lia|]. exists k. split_and!; [lia|done| |done].
      intros i Hi. destruct (decide (i = j)) as [->|]; [done|]. apply K1. lia.
    + exists j. split_and!; [lia|done|lia|lia].
  - assert (j = 0)%nat as -> by nia. exists 0%nat. split_and!; [lia|done|lia|lia].
Qed.

(** The elements at [1..i] are not after the first one, those from [j] on not
    before it. *)
Definition split_at (c : list Z -> list Z -> Z) (xs : list (list Z)) (i j : nat) : Prop :=
  exists x0, xs !! 0%nat = Some x0 /\
    (forall k x, (0 < k <= i)%nat -> xs !! k = Some x -> c x x0 <= 0) /\
    (forall k x, (j <= k)%nat -> xs !! k = Some x -> 0 <= c x x0).

(** Answers at the places of elements are those on the elements. *)
Lemma answer_elem m a xs c i j x y : compares p.(es) f c -> array m a xs -> xs !! i = Some x -> xs !! j = Some y ->
  f m (el a i) (el a j) = c x y.
Proof.
  intros Hc Ha Hi Hj. destruct (arr_lookup _ _ _ _ _ _ Ha Hi). destruct (arr_lookup _ _ _ _ _ _ Ha Hj). by apply Hc.
Qed.

Lemma answer_first m a xs c i x x0 : compares p.(es) f c -> array m a xs -> xs !! i = Some x -> xs !! 0%nat = Some x0 ->
  f m (el a i) a = c x x0.
Proof.
  intros Hc Ha Hi H0. pose proof (answer_elem m a xs c i 0 x x0 Hc Ha Hi H0) as H. rewrite Z.mul_0_l, Z.add_0_r in H. exact H.
Qed.

(** One round of the two scans, and where they end. *)
Lemma scan_split m a xs c i j i' j' : compares p.(es) f c -> array m a xs -> split_at c xs i j ->
  (i < i' <= length xs)%nat -> (j' < j <= length xs)%nat ->
  (forall k, (i < k < i')%nat -> f m (el a k) a < 0) -> ((i' < length xs)%nat -> 0 <= f m (el a i') a) ->
  (forall k, (j' < k < j)%nat -> 0 < f m (el a k) a) -> ((0 < j')%nat -> f m (el a j') a <= 0) ->
  split_at c xs (i' - 1) (S j').
Proof.
  intros Hc Ha (x0 & H0 & H1 & H2) Hi Hj A1 A2 B1 B2. exists x0. split_and!; [done|..]; intros k x Hk Hx.
  - destruct (decide (k <= i)%nat); [apply (H1 k); [lia|done]|].
    rewrite <- (answer_first m a xs c k x x0 Hc Ha Hx H0). specialize (A1 k). lia.
  - destruct (decide (j <= k)%nat); [by apply (H2 k)|].
    rewrite <- (answer_first m a xs c k x x0 Hc Ha Hx H0). specialize (B1 k). lia.
Qed.

(** Exchanging the two elements where the scans ended. *)
Lemma split_swap m a xs c i j x y : compares p.(es) f c -> array m a xs -> split_at c xs (i - 1) (S j) ->
  (0 < i <= j)%nat -> xs !! i = Some x -> xs !! j = Some y ->
  0 <= f m (el a i) a -> f m (el a j) a <= 0 -> split_at c (<[j := x]> (<[i := y]> xs)) i j.
Proof.
  intros Hc Ha (x0 & H0 & H1 & H2) Hij Hi Hj Fi Fj. rewrite (answer_first m a xs c i x x0 Hc Ha Hi H0) in Fi.
  rewrite (answer_first m a xs c j y x0 Hc Ha Hj H0) in Fj. pose proof (lookup_lt_Some _ _ _ Hi). pose proof (lookup_lt_Some _ _ _ Hj).
  exists x0. split_and!; [by rewrite !list_lookup_insert_ne by lia|..]; intros k z Hk Hz.
  - destruct (decide (k = j)) as [->|].
    + rewrite list_lookup_insert_eq in Hz by (rewrite length_insert; lia). injection Hz as <-.
      assert (i = j) as -> by lia. congruence || (rewrite Hi in Hj; injection Hj as ->; lia).
    + rewrite list_lookup_insert_ne in Hz by done. destruct (decide (k = i)) as [->|].
      * rewrite list_lookup_insert_eq in Hz by lia. by injection Hz as <-.
      * rewrite list_lookup_insert_ne in Hz by done. apply (H1 k); [lia|done].
  - destruct (decide (k = j)) as [->|].
    + rewrite list_lookup_insert_eq in Hz by (rewrite length_insert; lia). by injection Hz as <-.
    + rewrite !list_lookup_insert_ne in Hz by lia. apply (H2 k); [lia|done].
Qed.

Lemma apart_el a i j : apart (el a i) (el a j) p.(es).
Proof.
  unfold apart. destruct (Nat.lt_total i j) as [H|[->|H]]; [|by left|]; right; [left|right]; rewrite <- el_S; apply el_le; lia.
Qed.

Lemma memfuel_run m : memfuel m = Some (S (length m), m).
Proof. reflexivity. Qed.

Lemma swap_run m a xs i j : mem_ok m -> array m a xs -> (i < length xs)%nat -> (j < length xs)%nat ->
  exists x y m', xs !! i = Some x /\ xs !! j = Some y /\ p.(swap) (el a i) (el a j) p.(es) m = Some (tt, m') /\
    mem_ok m' /\ array m' a (<[j := x]> (<[i := y]> xs)) /\ same_outside a (Zlen xs * p.(es)) m m'.
Proof.
  intros Hok Ha Hi Hj. apply lookup_lt_is_Some_2 in Hi as [x Hx]. apply lookup_lt_is_Some_2 in Hj as [y Hy].
  destruct (arr_lookup _ _ _ _ _ _ Ha Hx) as [Lx Bx]. destruct (arr_lookup _ _ _ _ _ _ Ha Hy) as [Ly By].
  destruct (arr_swapped p.(es) ltac:(lia) m a xs i j x y Hok Ha Hx Hy) as (K1 & K2 & K3).
  exists x, y, (swapped m (el a i) (el a j) x y). split_and!; try done. apply Hswap; try done. by apply apart_el.
Qed.

(** A step of the sorting leaves a permutation of the elements, in their place. *)
Definition rearranged (m : mem) (a : Z) (xs : list (list Z)) (m' : mem) (ys : list (list Z)) : Prop :=
  mem_ok m' /\ array m' a ys /\ ys ≡ₚ xs /\ same_outside a (Zlen xs * p.(es)) m m'.

Lemma rearranged_trans m1 m2 m3 a xs ys zs :
  rearranged m1 a xs m2 ys -> rearranged m2 a ys m3 zs -> rearranged m1 a xs m3 zs.
Proof.
  intros (_ & _ & P1 & O1) (Hok & Ha & P2 & O2). split_and!; [done|done|by rewrite P2|].
  replace (Zlen ys) with (Zlen xs) in O2 by (unfold Zlen; by rewrite P1). by eapply outside_trans.
Qed.

Lemma swap_rearranged m a xs i j : mem_ok m -> array m a xs -> (i < length xs)%nat -> (j < length xs)%nat ->
  exists x y m', xs !! i = Some x /\ xs !! j = Some y /\ p.(swap) (el a i) (el a j) p.(es) m = Some (tt, m') /\
    rearranged m a xs m' (<[j := x]> (<[i := y]> xs)).
Proof.
  intros Hok Ha Hi Hj. destruct (swap_run m a xs i j Hok Ha Hi Hj) as (x & y & m' & Hx & Hy & K1 & K2 & K3 & K4).
  exists x, y, m'. split_and!; try done. split_and!; try done. by apply Permutation_insert_swap.
Qed.

Lemma partition_loop_run fuel : forall m a xs i j, mem_ok m -> array m a xs -> (i <= j <= length xs)%nat ->
  (i < length xs)%nat -> (0 < j)%nat -> (j - i < fuel)%nat ->
  exists m' ys k, partition_loop fuel a (el a (length xs)) p (el a i) (el a j) m = Some (el a k, m') /\
    rearranged m a xs m' ys /\ (k < length xs)%nat /\
    forall c, sorts_by c -> split_at c xs i j -> split_at c ys k (S k).
Proof.
  induction fuel as [|fuel IH]; intros m a xs i j Hok Ha Hij Hi Hj Hf; [lia|]. cbn [partition_loop].
  pose proof (array_short m a xs Ha) as Hs.
  destruct (up_loop_run m a xs i (S (length m)) Hok Ha) as (i' & Hi' & Hup & U1 & U2); [lia|].
  destruct (down_loop_run m a xs j (S (length m)) Hok Ha) as (j' & Hj' & Hdown & D1 & D2); [lia|lia|].
  run_with (memfuel_run m). run_with Hup. run_with (memfuel_run m). run_with Hdown.
  assert (Hsc : forall c, sorts_by c -> split_at c xs i j -> split_at c xs (i' - 1) (S j'))
    by (intros c [_ Hc] Hsp; eapply scan_split; (eassumption || lia)).
  destruct (Z.ltb_spec (el a j') (el a i')) as [E|E].
  - apply (el_lt p.(es) ltac:(lia)) in E. exists m, xs, j'. split_and!; [done| |lia|].
    + split_and!; [done..|apply outside_refl].
    + intros c Hc Hsp. destruct (Hsc c Hc Hsp) as (x0 & H0 & H1 & H2). exists x0. split_and!; [done| |done].
      intros k x Hk. apply H1. lia.
  - apply (el_le p.(es) ltac:(lia)) in E.
    destruct (swap_rearranged m a xs i' j' Hok Ha) as (x & y & m1 & Hx & Hy & Hrun & R1); [lia|lia|].
    run_with Hrun. set (ys := <[j' := x]> (<[i' := y]> xs)) in *.
    assert (Hl : length ys = length xs) by (unfold ys; by rewrite !length_insert). rewrite <- Hl.
    destruct (IH m1 a ys i' j') as (m2 & zs & k & Hrun2 & R2 & Hk & Hsp); [apply R1|apply R1|lia..|].
    exists m2, zs, k. split_and!; [done|by eapply rearranged_trans|lia|]. intros c Hc Hx0. apply (Hsp c Hc).
    eapply split_swap; try eassumption; [apply Hc|by apply Hsc|lia|apply U2; lia|apply D2; lia].
Qed.

Lemma el_0 a : el a 0 = a.
Proof. lia. Qed.

Lemma el_u32 m a xs k : mem_ok m -> array m a xs -> (k <= length xs)%nat -> a +p u32 (Z.of_nat k * p.(es)) = el a k.
Proof.
  intros Hok Ha Hk. destruct (array_lim m a xs k Hok Ha Hk) as [H0 H1]. rewrite u32_small by nia. apply padd_small. nia.
Qed.

(** The pivot of a long array is the middle one of three of its elements. *)
Lemma pivot_run m a xs : mem_ok m -> array m a xs -> (10 < length xs)%nat ->
  let q := (length xs / 6)%nat in
  exists k, (k < length xs)%nat /\ pivot a (Zlen xs) p m = Some (el a k, m) /\
    forall c, sorts_by c -> exists x y z w lo hi, xs !! q = Some x /\ xs !! (3 * q)%nat = Some y /\ xs !! (5 * q)%nat = Some z /\
      xs !! k = Some w /\ [lo; w; hi] ≡ₚ [x; y; z] /\ c lo w <= 0 /\ c w hi <= 0.
Proof.
  intros Hok Ha Hn q. assert (Hq : (5 * q < length xs)%nat) by (subst q; pose proof (Nat.Div0.mul_div_le (length xs) 6); lia).
  destruct (lookup_lt_is_Some_2 xs q) as [x Hx]; [lia|]. destruct (lookup_lt_is_Some_2 xs (3 * q)) as [y Hy]; [lia|].
  destruct (lookup_lt_is_Some_2 xs (5 * q)) as [z Hz]; [lia|].
  assert (Hmid : forall k w, xs !! k = Some w -> (forall c, sorts_by c -> exists lo hi, [lo; w; hi] ≡ₚ [x; y; z] /\ c lo w <= 0 /\ c w hi <= 0) ->
    exists k', (k' < length xs)%nat /\ Some (el a k, m) = Some (el a k', m) /\ forall c, sorts_by c ->
      exists x y z w lo hi, xs !! q = Some x /\ xs !! (3 * q)%nat = Some y /\ xs !! (5 * q)%nat = Some z /\
        xs !! k' = Some w /\ [lo; w; hi] ≡ₚ [x; y; z] /\ c lo w <= 0 /\ c w hi <= 0).
  { intros k w Hk H. exists k. split_and!; [by eapply lookup_lt_Some|done|]. intros c Hc. destruct (H c Hc) as (lo & hi & ?).
    exists x, y, z, w, lo, hi. tauto. }
  unfold pivot. replace (Zlen xs / 6) with (Z.of_nat q) by (subst q; unfold Zlen; by rewrite Nat2Z.inj_div).
  destruct (array_lim m a xs (5 * q) Hok Ha ltac:(lia)) as [H0 H1]. rewrite !Nat2Z.inj_mul in H1. change (Z.of_nat 5) with 5 in H1.
  rewrite (u32_small (Z.of_nat q * p.(es))) by nia. rewrite (u32_small (_ + _)) by nia. rewrite !(padd_small a) by nia.
  rewrite (padd_small (_ + _)) by nia. rewrite (padd_small (_ + _)) by nia.
  replace (a + Z.of_nat q * p.(es) + (Z.of_nat q * p.(es) + Z.of_nat q * p.(es))) with (el a (3 * q)) by (rewrite Nat2Z.inj_mul; lia).
  replace (el a (3 * q) + (Z.of_nat q * p.(es) + Z.of_nat q * p.(es))) with (el a (5 * q)) by (rewrite !Nat2Z.inj_mul; lia).
  assert (Hxy := fun c Hc => answer_elem m a xs c q (3 * q) x y Hc Ha Hx Hy).
  assert (Hxz := fun c Hc => answer_elem m a xs c q (5 * q) x z Hc Ha Hx Hz).
  assert (Hyz := fun c Hc => answer_elem m a xs c (3 * q) (5 * q) y z Hc Ha Hy Hz).
  assert (Rxy := cmp_run m a xs q (3 * q) Ha ltac:(lia) ltac:(lia)). assert (Rxz := cmp_run m a xs q (5 * q) Ha ltac:(lia) ltac:(lia)).
  assert (Ryz := cmp_run m a xs (3 * q) (5 * q) Ha ltac:(lia) ltac:(lia)).
  erewrite bind_run by exact Rxy; cbv beta.
  destruct (Z.ltb_spec (f m (el a q) (el a (3 * q))) 0) as [E1|E1];
    [erewrite bind_run by exact Rxz; cbv beta; destruct (Z.ltb_spec (f m (el a q) (el a (5 * q))) 0) as [E2|E2];
      [erewrite bind_run by exact Ryz; cbv beta; destruct (Z.ltb_spec (f m (el a (3 * q)) (el a (5 * q))) 0) as [E3|E3]|]
    |erewrite bind_run by exact Ryz; cbv beta; destruct (Z.ltb_spec (f m (el a (3 * q)) (el a (5 * q))) 0) as [E2|E2];
      [erewrite bind_run by exact Rxz; cbv beta; destruct (Z.ltb_spec (f m (el a q) (el a (5 * q))) 0) as [E3|E3]|]];
    rewrite ret_run.
  all: first [eapply (Hmid q x Hx) | eapply (Hmid (3 * q)%nat y Hy) | eapply (Hmid (5 * q)%nat z Hz)].
  all: intros c [Hc0 Hc]; rewrite ?(Hxy c Hc), ?(Hxz c Hc), ?(Hyz c Hc) in *;
    pose proof (compare_flip x y); pose proof (compare_flip y x); pose proof (compare_flip x z); pose proof (compare_flip z x);
    pose proof (compare_flip y z); pose proof (compare_flip z y).
  - exists x, z. split_and!; [perm3|lia|lia].
  - exists x, y. split_and!; [perm3|lia|lia].
  - exists z, y. split_and!; [perm3|lia|lia].
  - exists y, z. split_and!; [perm3|lia|lia].
  - exists y, x. split_and!; [perm3|lia|lia].
  - exists z, x. split_and!; [perm3|lia|lia].
Qed.

Lemma middle_in m a xs : mem_ok m -> array m a xs -> (1 < length xs)%nat ->
  exists k, (k < length xs)%nat /\
    (if Zlen xs >? 10 then pivot a (Zlen xs) p else mret (a +p u32 (Z.shiftr (Zlen xs) 1 * p.(es)))) m = Some (el a k, m).
Proof.
  intros Hok Ha Hn. rewrite Z.gtb_ltb. destruct (Z.ltb_spec 10 (Zlen xs)) as [E|E].
  - destruct (pivot_run m a xs Hok Ha) as (k & Hk & Hrun & _); [unfold Zlen in E; lia|eauto].
  - exists (length xs / 2)%nat. assert (Hk : (length xs / 2 < length xs)%nat) by (apply Nat.div_lt; lia). split; [done|].
    rewrite Z.shiftr_div_pow2 by lia. change (2 ^ 1) with (Z.of_nat 2). unfold Zlen. rewrite <- Nat2Z.inj_div.
    rewrite (el_u32 m a xs) by (done || lia). done.
Qed.

Lemma partition_run m a xs : mem_ok m -> array m a xs -> (1 < length xs)%nat ->
  exists m' l x r, partition a (Zlen xs) p m = Some (el a (length l), m') /\ rearranged m a xs m' (l ++ x :: r) /\
    forall c, sorts_by c -> Forall (fun y => c y x <= 0) l /\ Forall (fun y => 0 <= c y x) r.
Proof.
  intros Hok Ha Hn. destruct (middle_in m a xs Hok Ha Hn) as (k & Hk & Hmid). unfold partition. run_with Hmid.
  destruct (swap_rearranged m a xs 0 k Hok Ha) as (x0 & y0 & m1 & _ & _ & Hrun1 & R1); [lia|done|]. rewrite el_0 in Hrun1.
  run_with Hrun1. set (xs1 := <[k := x0]> (<[0%nat := y0]> xs)) in *.
  assert (Hl1 : length xs1 = length xs) by (unfold xs1; by rewrite !length_insert).
  replace (Zlen xs) with (Z.of_nat (length xs1)) by (unfold Zlen; by rewrite Hl1).
  rewrite (el_u32 m1 a xs1) by (apply R1 || lia). run_with (memfuel_run m1).
  destruct (partition_loop_run (S (length m1)) m1 a xs1 0 (length xs1)) as (m2 & ys & j & Hrun2 & R2 & Hj & Hsp);
    [apply R1|apply R1|lia|lia|lia|pose proof (array_short m1 a xs1 ltac:(apply R1)); lia|].
  rewrite el_0 in Hrun2. run_with Hrun2. pose proof (Permutation_length (proj1 (proj2 (proj2 R2)))) as Hl2.
  destruct (swap_rearranged m2 a ys 0 j) as (w & z & m3 & Hw & Hz & Hrun3 & R3); [apply R2|apply R2|lia|lia|].
  rewrite el_0 in Hrun3. run_with Hrun3. set (zs := <[j := w]> (<[0%nat := z]> ys)) in *.
  assert (Hzs : zs !! j = Some w) by (unfold zs; rewrite list_lookup_insert_eq; [done|rewrite length_insert; lia]).
  exists m3, (take j zs), w, (drop (S j) zs).
  assert (Lz : length zs = length ys) by (unfold zs; by rewrite !length_insert).
  rewrite (take_drop_middle zs j w Hzs), length_take, Nat.min_l by lia. split_and!; [done| |].
  { eapply rearranged_trans; [exact R1|]. by eapply rearranged_trans. }
  intros c Hc. destruct (Hsp c Hc) as (x & Hx & H1 & H2).
  { destruct (lookup_lt_is_Some_2 xs1 0) as [v Hv]; [lia|]. exists v. split_and!; [done|intros; lia|].
    intros i y Hi Hy%lookup_lt_Some. lia. }
  assert (w = x) as -> by congruence. assert (Hxx : c x x <= 0) by (pose proof (@compare_flip c (proj1 Hc) x x); lia).
  split; apply Forall_lookup; intros i y Hy.
  - apply lookup_take_Some in Hy as [Hy Hi]. unfold zs in Hy. rewrite list_lookup_insert_ne in Hy by lia.
    destruct (decide (i = 0%nat)) as [->|].
    + rewrite list_lookup_insert_eq in Hy by lia. injection Hy as <-. destruct (decide (j = 0%nat)) as [->|]; [congruence|].
      apply (H1 j); [lia|done].
    + rewrite list_lookup_insert_ne in Hy by lia. apply (H1 i); [lia|done].
  - rewrite lookup_drop in Hy. unfold zs in Hy. rewrite !list_lookup_insert_ne in Hy by lia. apply (H2 (S j + i)%nat); [lia|done].
Qed.

(** * Sorting *)

Lemma rearranged_left m a l t m' l' : array m a (l ++ t) -> rearranged m a l m' l' -> rearranged m a (l ++ t) m' (l' ++ t).
Proof.
  intros Ha (Hok & Ha' & Hp & Ho).
  destruct (arr_left p.(es) ltac:(lia) m m' a l l' t Ha Ha') as [K1 K2]; [unfold Zlen; by rewrite Hp|done|].
  split_and!; [done..|by rewrite Hp|done].
Qed.

Lemma rearranged_right m a l t m' t' : array m a (l ++ t) -> rearranged m (el a (length l)) t m' t' ->
  rearranged m a (l ++ t) m' (l ++ t').
Proof.
  intros Ha (Hok & Ha' & Hp & Ho). destruct (arr_right p.(es) ltac:(lia) m m' a l t t' Ha Ha' Ho) as [K1 K2].
  split_and!; [done..|by rewrite Hp|done].
Qed.

(** The places that [qsorts] computes from where the scan stopped. *)
Lemma parts_run m a l x r : mem_ok m -> array m a (l ++ x :: r) ->
  u32 (el a (length l) - a) / p.(es) = Zlen l /\ u32 (Zlen (l ++ x :: r) - (Zlen l + 1)) = Zlen r /\
  a +p u32 ((Zlen l + 1) * p.(es)) = el a (length (l ++ [x])).
Proof.
  intros Hok Ha. assert (Hl : (length (l ++ [x]) <= length (l ++ x :: r))%nat) by (rewrite !length_app; simpl; lia).
  destruct (array_lim m a _ _ Hok Ha Hl) as [H0 H1]. pose proof (el_u32 m a _ _ Hok Ha Hl) as He.
  destruct (array_lim m a _ _ Hok Ha (le_n _)) as [_ H2]. rewrite !length_app in *. cbn [length] in *. split_and!.
  - rewrite u32_small by nia. replace (el a (length l) - a) with (Zlen l * p.(es)) by (unfold Zlen; lia). apply Z.div_mul. lia.
  - rewrite Zlen_app, Zlen_cons. replace (Zlen l + (1 + Zlen r) - (Zlen l + 1)) with (Zlen r) by lia.
    apply u32_small. unfold Zlen. nia.
  - rewrite <- He. unfold Zlen. do 3 f_equal. lia.
Qed.

Lemma sorted_around c l x r l' r' : sorts_by c -> Forall (fun y => c y x <= 0) l -> Forall (fun y => 0 <= c y x) r ->
  l' ≡ₚ l -> r' ≡ₚ r -> StronglySorted (fun x y => c x y <= 0) l' -> StronglySorted (fun x y => c x y <= 0) r' ->
  StronglySorted (fun x y => c x y <= 0) (l' ++ x :: r').
Proof.
  intros [Hc _] Hl Hr Pl Pr Sl Sr. rewrite <- Pl in Hl. rewrite <- Pr in Hr. rewrite Forall_forall in Hl, Hr.
  assert (Hx : forall z, z ∈ r' -> c x z <= 0) by (intros z Hz; by apply compare_flip, Hr).
  apply StronglySorted_app. split_and!; [|done|].
  - intros y z Hy%Hl [->|Hz]%elem_of_cons; [done|]. eapply compare_trans; [done|by apply Hx].
  - constructor; [done|]. by apply Forall_forall.
Qed.

Lemma array_head m a l t : array m a (l ++ t) -> array m a l.
Proof. intros [H _]%elems_app; [done|lia]. Qed.

Lemma qsorts_run fuel : forall m a xs, mem_ok m -> array m a xs -> (length xs < fuel)%nat ->
  exists m' ys, qsorts fuel a (Zlen xs) p m = Some (tt, m') /\ rearranged m a xs m' ys /\
    forall c, sorts_by c -> StronglySorted (fun x y => c x y <= 0) ys.
Proof.
  induction fuel as [|fuel IH]; intros m a xs Hok Ha Hf; [lia|]. cbn [qsorts]. rewrite Z.gtb_ltb.
  destruct (Z.ltb_spec 1 (Zlen xs)) as [E|E].
  2:{ exists m, xs. split_and!; [done|by split_and!; [..|apply outside_refl]|]. intros c _.
      destruct xs as [|x [|y xs]]; [constructor|repeat constructor|]. rewrite !Zlen_cons in E. zpos. lia. }
  destruct (partition_run m a xs Hok Ha) as (m1 & l & x & r & Hrun & R1 & Hsp); [unfold Zlen in E; lia|].
  run_with Hrun. pose proof R1 as (Hok1 & Ha1 & Hp1 & _). pose proof (Permutation_length Hp1) as Hl.
  replace (Zlen xs) with (Zlen (l ++ x :: r)) by (unfold Zlen; by rewrite Hl).
  destruct (parts_run m1 a l x r Hok1 Ha1) as (-> & -> & ->). rewrite length_app in Hl. cbn [length] in Hl.
  assert (Hr : forall m2 l2, array m2 a (l2 ++ x :: r) -> length l2 = length l -> array m2 (el a (length (l ++ [x]))) r).
  { intros m2 l2 Ha2 Hl2. rewrite cons_middle, app_assoc in Ha2. apply elems_app in Ha2 as [_ Ha2]; [|lia].
    unfold Zlen in Ha2. by rewrite length_app, Hl2, <- length_app in Ha2. }
  assert (Hright : forall m2 l2 m3 r3, length l2 = length l -> array m2 a (l2 ++ x :: r) ->
    rearranged m2 (el a (length (l ++ [x]))) r m3 r3 -> rearranged m2 a (l2 ++ x :: r) m3 (l2 ++ x :: r3)).
  { intros m2 l2 m3 r3 Hl2 Ha2 R. rewrite (cons_middle x l2 r), (cons_middle x l2 r3), !app_assoc in *.
    apply rearranged_right; [done|]. by rewrite length_app, Hl2, <- length_app. }
  rewrite Z.geb_leb. destruct (Z.leb_spec (Zlen r) (Zlen l)) as [F|F].
  - destruct (IH m1 a l) as (m2 & l2 & Hrun2 & R2 & S2); [done|by eapply array_head|lia|].
    run_with Hrun2. pose proof (rearranged_left _ _ _ _ _ _ Ha1 R2) as R2'. pose proof (Permutation_length (proj1 (proj2 (proj2 R2)))) as Hl2.
    destruct (IH m2 (el a (length (l ++ [x]))) r) as (m3 & r3 & Hrun3 & R3 & S3); [apply R2|apply (Hr m2 l2); [apply R2'|done]|lia|].
    exists m3, (l2 ++ x :: r3). split_and!; [done| |].
    + eapply rearranged_trans; [exact R1|]. eapply rearranged_trans; [exact R2'|]. apply (Hright m2); [done|apply R2'|done].
    + intros c Hc. destruct (Hsp c Hc). eapply (sorted_around c l x r); try done; [apply R2|apply R3|auto|auto].
  - destruct (IH m1 (el a (length (l ++ [x]))) r) as (m2 & r2 & Hrun2 & R2 & S2); [done|by apply (Hr m1 l)|lia|].
    run_with Hrun2. pose proof (Hright _ _ _ _ eq_refl Ha1 R2) as R2'.
    destruct (IH m2 a l) as (m3 & l3 & Hrun3 & R3 & S3); [apply R2|eapply array_head, R2'|lia|].
    exists m3, (l3 ++ x :: r2). split_and!; [done| |].
    + eapply rearranged_trans; [exact R1|]. eapply rearranged_trans; [exact R2'|]. apply rearranged_left; [apply R2'|done].
    + intros c Hc. destruct (Hsp c Hc). eapply (sorted_around c l x r); try done; [apply R3|apply R2|auto|auto].
Qed.
End Partition.

(** C32. Whatever a comparison function answers, [qsort] ends, leaves the elements of
    the array in some order and the rest of memory as it was; if the answers are those of
    an order, the elements end in that order. *)
Theorem qsort_sorts va n es cmp f m xs :
  mem_ok m -> 0 < es < 2 ^ 31 -> arr es m va xs -> n = Zlen xs -> answers es cmp f ->
  exists m' ys, qsort va n es cmp m = Some (tt, m') /\ arr es m' va ys /\ ys ≡ₚ xs /\ same_outside va (n * es) m m' /\
    forall c, Comparison c -> compares es f c -> StronglySorted (fun x y => c x y <= 0) ys.
Proof.
  intros Hok Hes Ha -> Hcmp. pose proof Ha as (H0 & H1 & _). pose proof (proj2 Hok). pose proof (Zlen_nonneg xs).
  unfold qsort. fold (swap_of va es). set (s := mkSort cmp (swap_of va es) es). rewrite u32_small by nia.
  destruct (qsorts_run s f Hes Hcmp) with (fuel := S (Z.to_nat (Zlen xs))) (m := m) (a := va) (xs := xs)
    as (m' & ys & Hrun & (Hok' & Ha' & Hp & Ho) & Hs); [|done|done|unfold Zlen; lia|].
  { intros m1 i j x y **. by apply swap_of_run. }
  exists m', ys. split_and!; [done..|]. intros c Hc1 Hc2. by apply Hs.
Qed.

(** ** At concrete inputs *)

(** Pairs ordered by their first byte. *)
Definition by_first (p q : Z) : M Z := a ← ld8 p; b ← ld8 q; mret (a - b).
Definition by_first_answer (m : mem) (p q : Z) : Z := default 0 (lk m p) - default 0 (lk m q).

Lemma by_first_answers : answers 2 by_first by_first_answer.
Proof.
  intros m p q (H1 & _ & H2) (H3 & _ & H4). unfold by_first, by_first_answer.
  destruct (lk_in m p) as [a Ha]; [lia|]. destruct (lk_in m q) as [b Hb]; [lia|].
  run_with (ld8_run m p a Ha). run_with (ld8_run m q b Hb). by rewrite Ha, Hb.
Qed.

Definition first_order (x y : list Z) : Z := nth 0 x 0 - nth 0 y 0.

#[export] Instance first_order_comparison : Comparison first_order.
Proof. unfold first_order. split; intros; lia. Qed.

Lemma by_first_compares : compares 2 by_first_answer first_order.
Proof.
  intros m p q [|a x] [|b y] Lx Ly Hx Hy; try discriminate.
  apply bytes_at_cons in Hx as [Hx _], Hy as [Hy _]. unfold by_first_answer. by rewrite Hx, Hy.
Qed.

Definition sort_mem : mem := [7; 7; 5; 0; 3; 1; 9; 2; 3; 3; 7; 7].
Definition sort_elems : list (list Z) := [[5; 0]; [3; 1]; [9; 2]; [3; 3]].

Lemma qsort_sorts_witness : arr 2 sort_mem 2 sort_elems /\
  exists m' ys, qsort 2 4 2 by_first sort_mem = Some (tt, m') /\ arr 2 m' 2 ys /\ ys ≡ₚ sort_elems /\
    same_outside 2 (4 * 2) sort_mem m' /\
    forall c, Comparison c -> compares 2 by_first_answer c -> StronglySorted (fun x y => c x y <= 0) ys.
Proof.
  assert (Ha : arr 2 sort_mem 2 sort_elems).
  { split_and!; [lia|vm_compute; discriminate|]. intros [|[|[|[|k]]]] x Hx; simplify_eq/=;
      (split; [done|]); repeat (apply bytes_at_cons; split; [reflexivity|]); apply bytes_at_nil; vm_compute; (split; discriminate). }
  split; [done|]. apply (qsort_sorts 2 4 2 by_first by_first_answer sort_mem sort_elems); [|lia|done|done|apply by_first_answers].
  split; [repeat constructor; lia|vm_compute; discriminate].
Defined.

(** The bytes that come out: the pairs that start with 3 change places. *)
Example qsort_pairs : qsort 2 4 2 by_first sort_mem = Some (tt, [7; 7; 3; 1; 3; 3; 5; 0; 9; 2; 7; 7]).
Proof. vm_compute. reflexivity. Qed.

Example qsort_twelve : (qsort 4 12 4 (fun p q => a ← ld32 p; b ← ld32 q; mret (a - b)) ([1; 2; 3; 4] ++
  concat (map (fun k => le 4 (u32 (k * 7 mod 12 - 5))) (map Z.of_nat (seq 0 12))))) =
  Some (tt, [1; 2; 3; 4] ++ concat (map (fun k => le 4 (u32 (k - 5))) (map Z.of_nat (seq 0 12)))).
Proof. vm_compute. reflexivity. Qed.
