(* ===== verification/Strtol.v ===== *)
(** Text to integers: [strtol], [strtoul], [strtoll] and [strtoull] of
    [libc/port].

    The four routines share their structure and differ in the width they
    compute in, in how they treat the prefix [0x], and in the constants they
    compare with.  Arithmetic wraps at its width; for the signed ones that is
    what the machine does where C leaves overflow undefined. *)

From S2P Require Import Prelude Mem CString Fcall.

Local Open Scope c_scope.

(** * The routines *)

Definition LONG_MAX : Z := 2147483647.
Definition LONG_MIN : Z := -2147483648.
Definition ULONG_MAX : Z := 4294967295.
(** [~(1LL<<63)] and [1LL<<63], read as signed. *)
Definition VLONG_MAX : Z := s64 (Z.lnot (Z.shiftl 1 63)).
Definition VLONG_MIN : Z := s64 (Z.shiftl 1 63).
(** [strtoull.c] defines its limit as [(1LL<<63)] too. *)
Definition UVLONG_MAX : Z := s64 (Z.shiftl 1 63).

(** The white space of the first [switch]. *)
Definition isspace (c : Z) : bool :=
  (c =? 0x20) || (c =? 0x09) || (c =? 0x0A) || (c =? 0x0C) || (c =? 0x0D) || (c =? 0x0B).

Fixpoint skip_space (fuel : nat) (p : Z) : M Z :=
  match fuel with
  | O => trap
  | S fuel => c ← ldc p; if isspace c then skip_space fuel (p +p 1) else mret p
  end.

(** The sign: whether it is a minus, and the pointer past it. *)
Definition sign (p : Z) : M (bool * Z) :=
  c ← ldc p;
  mret (if (c =? 0x2D) || (c =? 0x2B) then (c =? 0x2D, p +p 1) else (false, p)).

Definition isx (c : Z) : bool := (c =? 0x78) || (c =? 0x58).

(** The base, and the pointer past the prefix; [None] goes to [Return]. *)
Definition base_prefix (p base : Z) : M (option (Z * Z)) :=
  if base =? 0 then
    c ← ldc p;
    if c =? 0x30 then
      x ← ldc (p +p 1);
      mret (Some (if isx x then (16, p +p 2) else (8, p)))
    else mret (Some (10, p))
  else if base =? 16 then
    c ← ldc p;
    if c =? 0x30 then
      x ← ldc (p +p 1);
      mret (Some (if isx x then (16, p +p 2) else (16, p)))
    else mret (Some (16, p))
  else if (base <? 0) || (36 <? base) then mret None
  else mret (Some (base, p)).

Definition ishex (c : Z) : bool :=
  ((0x30 <=? c) && (c <=? 0x39)) || ((0x61 <=? c) && (c <=? 0x66)) || ((0x41 <=? c) && (c <=? 0x46)).

(** [strtoul] skips the prefix only before a digit. *)
Definition base_prefix_u (p base : Z) : M (option (Z * Z)) :=
  base ← (if base =? 0 then
            c ← ldc p;
            if negb (c =? 0x30) then mret 10
            else x ← ldc (p +p 1); mret (if isx x then 16 else 8)
          else mret base);
  if (base <? 2) || (36 <? base) then mret None else
  if base =? 16 then
    c ← ldc p;
    if c =? 0x30 then
      x ← ldc (p +p 1);
      if isx x then
        y ← ldc (p +p 2); mret (Some (16, if ishex y then p +p 2 else p))
      else mret (Some (16, p))
    else mret (Some (16, p))
  else mret (Some (base, p)).

(** The value of a digit, or the base for what is not one. *)
Definition digit (c base : Z) : Z :=
  if (0x30 <=? c) && (c <=? 0x39) then c - 0x30
  else if (0x61 <=? c) && (c <=? 0x7A) then c - 0x61 + 10
  else if (0x41 <=? c) && (c <=? 0x5A) then c - 0x41 + 10
  else base.

(** The loop over the digits: the pointer past them, the number, how many there
    were, and whether the number left its range. *)
Fixpoint digits_loop (wrap : Z -> Z) (fuel : nat) (base lim p n ndig : Z) (ovfl : bool) : M (Z * Z * Z * bool) :=
  match fuel with
  | O => trap
  | S fuel =>
      c ← ldc p;
      let v := digit c base in
      if v >=? base then mret (p, n, ndig, ovfl) else
      let ovfl := ovfl || (n >? lim) in
      let nn := wrap (n * base + v) in
      let ovfl := ovfl || (nn <? n) in
      digits_loop wrap fuel base lim (p +p 1) nn (s32 (ndig + 1)) ovfl
  end.

(** From [Return:] on, but for the value. *)
Definition store_end (nptr endptr p ndig : Z) : M unit :=
  let p := if ndig =? 0 then nptr else p in
  if endptr =? 0 then mret tt else PBIT32 endptr p.

(** From the beginning to the digits: the sign, the pointer, the number, how many
    digits there were, and whether it left its range. *)
Definition strto (prefix : Z -> Z -> M (option (Z * Z))) (wrap : Z -> Z) (lim : Z -> Z) (nptr base : Z) :
    M (bool * Z * Z * Z * bool) :=
  fuel ← memfuel;
  p ← skip_space fuel nptr;
  '(neg, p) ← sign p;
  b ← prefix p base;
  '(p, n, ndig, ovfl) ←
    match b with
    | None => mret (p, 0, 0, false)
    | Some (base, p) => digits_loop wrap fuel base (lim base) p 0 0 false
    end;
  mret (neg, p, n, ndig, ovfl).

Definition strtol (nptr endptr base : Z) : M Z :=
  '(neg, p, n, ndig, ovfl) ← strto base_prefix s32 (fun base => LONG_MAX ÷ base) nptr base;
  _ ← store_end nptr endptr p ndig;
  mret (if (ovfl : bool) then (if (neg : bool) then LONG_MIN else LONG_MAX)
        else if (neg : bool) then s32 (- n) else n).

Definition strtoll (nptr endptr base : Z) : M Z :=
  '(neg, p, n, ndig, ovfl) ← strto base_prefix s64 (fun base => VLONG_MAX ÷ base) nptr base;
  _ ← store_end nptr endptr p ndig;
  mret (if (ovfl : bool) then (if (neg : bool) then VLONG_MIN else VLONG_MAX)
        else if (neg : bool) then s64 (- n) else n).

Definition strtoul (nptr endptr base : Z) : M Z :=
  '(neg, p, n, ndig, ovfl) ← strto base_prefix_u u32 (fun base => ULONG_MAX ÷ base) nptr base;
  _ ← store_end nptr endptr p ndig;
  mret (if (ovfl : bool) then ULONG_MAX else if (neg : bool) then u32 (- n) else n).

(** The quotient of the limit is a signed division, made unsigned after it. *)
Definition strtoull (nptr endptr base : Z) : M Z :=
  '(neg, p, n, ndig, ovfl) ← strto base_prefix u64 (fun base => u64 (UVLONG_MAX ÷ base)) nptr base;
  _ ← store_end nptr endptr p ndig;
  mret (if (ovfl : bool) then u64 UVLONG_MAX else if (neg : bool) then u64 (- n) else n).

(** * What they compute *)

(** On the bytes of the string: the white space goes, the sign, and the prefix;
    what remains begins with the digits. *)
Fixpoint trim (s : list Z) : list Z :=
  match s with [] => [] | b :: t => if isspace b then trim t else s end.

Definition signed (s : list Z) : bool * list Z :=
  let c := nth 0 s 0 in
  if (c =? 0x2D) || (c =? 0x2B) then (c =? 0x2D, drop 1 s) else (false, s).

Definition based (base : Z) (s : list Z) : option (Z * list Z) :=
  let zx := (nth 0 s 0 =? 0x30) && isx (nth 1 s 0) in
  if base =? 0 then Some (if zx then (16, drop 2 s) else (if nth 0 s 0 =? 0x30 then 8 else 10, s))
  else if base =? 16 then Some (16, if zx then drop 2 s else s)
  else if (base <? 0) || (36 <? base) then None else Some (base, s).

Definition based_u (base : Z) (s : list Z) : option (Z * list Z) :=
  let zx := (nth 0 s 0 =? 0x30) && isx (nth 1 s 0) in
  let base := if base =? 0 then (if zx then 16 else if nth 0 s 0 =? 0x30 then 8 else 10) else base in
  if (base <? 2) || (36 <? base) then None
  else Some (base, if (base =? 16) && zx && ishex (nth 2 s 0) then drop 2 s else s).

Fixpoint span (base : Z) (s : list Z) : list Z :=
  match s with
  | [] => []
  | b :: s => if digit b base <? base then digit b base :: span base s else []
  end.

(** The number written by digits, after the number [n]. *)
Definition val (base n : Z) (ds : list Z) : Z := fold_left (fun n v => n * base + v) ds n.

(** The sign, the magnitude and the bytes used. *)
Definition strto_ref (prefix : Z -> list Z -> option (Z * list Z)) (base : Z) (s : list Z) : bool * Z * Z :=
  let '(neg, t) := signed (trim s) in
  match prefix base t with
  | None => (neg, 0, 0)
  | Some (base, t) =>
      let ds := span base t in
      (neg, val base 0 ds, match ds with [] => 0 | _ => Zlen s - Zlen t + Zlen ds end)
  end.

(** * Lemmas *)

Ltac byte_cases b :=
  unfold s8; rewrite (u8_small b) by lia; change (2 ^ 7) with 128; change (2 ^ 8) with 256;
  destruct (Z.ltb_spec b 128); [done|].

Lemma isspace_s8 b : 0 <= b < 256 -> isspace (s8 b) = isspace b.
Proof. intros Hb. byte_cases b. unfold isspace. zif. done. Qed.
Lemma isx_s8 b : 0 <= b < 256 -> isx (s8 b) = isx b.
Proof. intros Hb. byte_cases b. unfold isx. zif. done. Qed.
Lemma eqb_s8 b k : 0 <= b < 256 -> 0 < k < 128 -> (s8 b =? k) = (b =? k).
Proof. intros Hb Hk. byte_cases b. zif. done. Qed.
Lemma ishex_s8 b : 0 <= b < 256 -> ishex (s8 b) = ishex b.
Proof. intros Hb. byte_cases b. unfold ishex. zif. done. Qed.
Lemma digit_s8 b base : 0 <= b < 256 -> digit (s8 b) base = digit b base.
Proof. intros Hb. byte_cases b. unfold digit. zif. done. Qed.

Lemma digit_nonneg b base : 0 <= base -> 0 <= b < 256 -> 0 <= digit b base.
Proof.
  intros. unfold digit. destruct (Z.leb_spec 0x30 b), (Z.leb_spec b 0x39), (Z.leb_spec 0x61 b), (Z.leb_spec b 0x7A),
    (Z.leb_spec 0x41 b), (Z.leb_spec b 0x5A); simpl; lia.
Qed.

Lemma nul_digit base : digit 0 base = base.
Proof. done. Qed.

Section Walk.
Context (m : mem) (Hok : mem_ok m).

Lemma nth_byte s i : nonul s -> 0 <= nth i s 0 < 256.
Proof.
  intros Hs. destruct (decide (i < length s)%nat) as [Hi|Hi]; [|rewrite nth_overflow by lia; lia].
  destruct (lookup_lt_is_Some_2 s i Hi) as [b Hb]. rewrite (nth_lookup_Some s i 0 b Hb).
  pose proof (proj1 (Forall_lookup _ s) Hs i b Hb) as H. simpl in H. lia.
Qed.

(** A character of the string, or its NUL. *)
Lemma peek p s i : cstr_at m p s -> (i <= length s)%nat -> ldc (p +p Z.of_nat i) m = Some (s8 (nth i s 0), m).
Proof.
  intros Hs Hi. pose proof (cstr_range _ _ _ Hs) as [H1 H2]. pose proof (mem_ok_lt m (p + Zlen s) Hok ltac:(lia)).
  unfold Zlen in *. rewrite padd_small by lia. apply ldc_run. destruct Hs as [_ [_ Hl]]. rewrite Hl.
  2:{ rewrite Zlen_app. change (Zlen [0]) with 1. unfold Zlen. lia. }
  unfold lk. destruct (Z.leb_spec 0 (Z.of_nat i)); [|lia]. rewrite Nat2Z.id.
  destruct (decide (i < length s)%nat) as [Hlt|Hge].
  - rewrite lookup_app_l by done. destruct (lookup_lt_is_Some_2 s i Hlt) as [b Hb]. by rewrite Hb, (nth_lookup_Some s i 0 b Hb).
  - rewrite lookup_app_r by lia. replace (i - length s)%nat with 0%nat by lia. by rewrite nth_overflow by lia.
Qed.

Lemma peek0 p s : cstr_at m p s -> ldc p m = Some (s8 (nth 0 s 0), m).
Proof.
  intros Hs. pose proof (peek p s 0 Hs ltac:(lia)) as H. pose proof (cstr_range _ _ _ Hs).
  pose proof (Zlen_nonneg s). rewrite padd_small in H by (pose proof (mem_ok_lt m p Hok ltac:(lia)); lia).
  by rewrite Z.add_0_r in H.
Qed.

(** Going [i] characters on. *)
Lemma advance p s i : cstr_at m p s -> (i <= length s)%nat ->
  p +p Z.of_nat i = p + (Zlen s - Zlen (drop i s)) /\ cstr_at m (p + (Zlen s - Zlen (drop i s))) (drop i s).
Proof.
  intros Hs Hi. assert (Hz : Zlen s - Zlen (drop i s) = Z.of_nat i) by (unfold Zlen; rewrite length_drop; lia). rewrite Hz.
  pose proof (cstr_range _ _ _ Hs) as [H1 H2]. pose proof (mem_ok_lt m (p + Zlen s) Hok ltac:(lia)). split.
  - apply padd_small. unfold Zlen in *. lia.
  - clear Hz H1 H2 H. revert p s Hs Hi. induction i as [|i IH]; intros p s Hs Hi; [by rewrite Z.add_0_r, drop_0|].
    destruct s as [|b s]; [simpl in Hi; lia|]. apply cstr_cons in Hs as (_ & _ & Hs). simpl.
    replace (p + Z.of_nat (S i)) with (p + 1 + Z.of_nat i) by lia. apply IH; [done|simpl in Hi; lia].
Qed.

Lemma trim_suffix s : Zlen (trim s) <= Zlen s.
Proof. induction s as [|b s IH]; simpl; [done|]. case_match; [rewrite Zlen_cons; lia|done]. Qed.

Lemma skip_space_run fuel : forall p s, cstr_at m p s -> (length s < fuel)%nat ->
  skip_space fuel p m = Some (p + (Zlen s - Zlen (trim s)), m) /\ cstr_at m (p + (Zlen s - Zlen (trim s))) (trim s).
Proof.
  induction fuel as [|fuel IH]; intros p s Hs Hf; [lia|]. cbn [skip_space].
  run_with (peek0 p s Hs). rewrite isspace_s8 by (apply nth_byte, Hs). destruct s as [|b s]; cbn [nth trim].
  - change (isspace 0) with false. cbv iota. rewrite Z.sub_diag, Z.add_0_r. split; [done|exact Hs].
  - destruct (isspace b); [|rewrite Z.sub_diag, Z.add_0_r; split; [done|exact Hs]].
    destruct (advance p (b :: s) 1 Hs ltac:(simpl; lia)) as [Hp Hs']. change (drop 1 (b :: s)) with s in *.
    rewrite Zlen_cons in *. replace (1 + Zlen s - Zlen s) with 1 in Hp, Hs' by lia. change (Z.of_nat 1) with 1 in Hp. rewrite Hp.
    destruct (IH (p + 1) s Hs' ltac:(simpl in Hf; lia)) as [-> H2].
    replace (p + (1 + Zlen s - Zlen (trim s))) with (p + 1 + (Zlen s - Zlen (trim s))) by lia. done.
Qed.

Lemma sign_run p s : cstr_at m p s -> exists t, signed s = (fst (signed s), t) /\
  sign p m = Some ((fst (signed s), p + (Zlen s - Zlen t)), m) /\ cstr_at m (p + (Zlen s - Zlen t)) t /\ Zlen t <= Zlen s.
Proof.
  intros Hs. unfold sign, signed. run_with (peek0 p s Hs). rewrite !eqb_s8 by (first [apply nth_byte, Hs|lia]).
  destruct ((nth 0 s 0 =? 45) || (nth 0 s 0 =? 43)) eqn:E.
  - assert (1 <= length s)%nat by (destruct s; simpl in *; [done|lia]).
    destruct (advance p s 1 Hs ltac:(lia)) as [Hp Hs']. exists (drop 1 s). split_and!; [done| |done|].
    + simpl. change (Z.of_nat 1) with 1 in Hp. rewrite Hp. done.
    + unfold Zlen. rewrite length_drop. lia.
  - exists s. rewrite Z.sub_diag, Z.add_0_r. done.
Qed.

(** What a prefix routine promises of its reference. *)
Definition prefix_runs (f : Z -> Z -> M (option (Z * Z))) (g : Z -> list Z -> option (Z * list Z)) : Prop :=
  forall p s base, cstr_at m p s ->
    match g base s with
    | None => f p base m = Some (None, m)
    | Some (b, t) => f p base m = Some (Some (b, p + (Zlen s - Zlen t)), m) /\
        cstr_at m (p + (Zlen s - Zlen t)) t /\ Zlen t <= Zlen s /\ 1 <= b <= 36
    end.

Lemma same_place p (s : list Z) : p + (Zlen s - Zlen s) = p.
Proof. lia. Qed.

Lemma skip2 p s : cstr_at m p s -> (2 <= length s)%nat ->
  p +p 2 = p + (Zlen s - Zlen (drop 2 s)) /\ cstr_at m (p + (Zlen s - Zlen (drop 2 s))) (drop 2 s) /\ Zlen (drop 2 s) <= Zlen s.
Proof. intros Hs Hl. destruct (advance p s 2 Hs Hl). split_and!; [done..|]. unfold Zlen. rewrite length_drop. lia. Qed.

Lemma nth_pos s i : nth i s 0 <> 0 -> (i < length s)%nat.
Proof. intros H. destruct (decide (i < length s)%nat); [done|]. rewrite nth_overflow in H by lia. done. Qed.

Lemma isx_pos c : isx c = true -> c <> 0.
Proof. intros H ->. done. Qed.

Lemma zx_long s : nth 0 s 0 = 0x30 -> isx (nth 1 s 0) = true -> (2 <= length s)%nat.
Proof. intros _ H. pose proof (nth_pos s 1 (isx_pos _ H)). lia. Qed.

Lemma base_prefix_runs : prefix_runs base_prefix based.
Proof.
  intros p s base Hs. pose proof (proj1 Hs) as Hn. unfold base_prefix, based.
  assert (Hx : nth 0 s 0 = 0x30 -> ldc (p +p 1) m = Some (s8 (nth 1 s 0), m)).
  { intros E. apply (peek p s 1 Hs). pose proof (nth_pos s 0 ltac:(lia)). lia. }
  destruct (Z.eqb_spec base 0) as [->|H0]; [|destruct (Z.eqb_spec base 16) as [->|H16]].
  - run_with (peek0 p s Hs). rewrite eqb_s8 by (first [apply nth_byte, Hn|lia]).
    destruct (Z.eqb_spec (nth 0 s 0) 0x30) as [E|E]; cbn [andb]; cbv iota; [|rewrite same_place; split_and!; done || lia].
    run_with (Hx E). rewrite isx_s8 by (by apply nth_byte). destruct (isx (nth 1 s 0)) eqn:Ex; [|rewrite same_place; split_and!; done || lia].
    destruct (skip2 p s Hs (zx_long s E Ex)) as (-> & Hs' & ?). split_and!; done || lia.
  - run_with (peek0 p s Hs). rewrite eqb_s8 by (first [apply nth_byte, Hn|lia]).
    destruct (Z.eqb_spec (nth 0 s 0) 0x30) as [E|E]; cbn [andb]; cbv iota; [|rewrite same_place; split_and!; done || lia].
    run_with (Hx E). rewrite isx_s8 by (by apply nth_byte). destruct (isx (nth 1 s 0)) eqn:Ex; [|rewrite same_place; split_and!; done || lia].
    destruct (skip2 p s Hs (zx_long s E Ex)) as (-> & Hs' & ?). split_and!; done || lia.
  - destruct (Z.ltb_spec base 0), (Z.ltb_spec 36 base); cbn [orb]; cbv iota; try done. rewrite same_place. split_and!; done || lia.
Qed.

Lemma base_prefix_u_runs : prefix_runs base_prefix_u based_u.
Proof.
  intros p s base Hs. pose proof (proj1 Hs) as Hn. unfold base_prefix_u, based_u.
  assert (Hx : nth 0 s 0 = 0x30 -> ldc (p +p 1) m = Some (s8 (nth 1 s 0), m)).
  { intros E. apply (peek p s 1 Hs). pose proof (nth_pos s 0 ltac:(lia)). lia. }
  set (b := if base =? 0 then if (nth 0 s 0 =? 48) && isx (nth 1 s 0) then 16 else if nth 0 s 0 =? 48 then 8 else 10 else base).
  rewrite (bind_run _ _ m b m).
  2:{ subst b. destruct (Z.eqb_spec base 0); [|done]. run_with (peek0 p s Hs). rewrite eqb_s8 by (first [apply nth_byte, Hn|lia]).
      destruct (Z.eqb_spec (nth 0 s 0) 48) as [E|E]; simpl; [|done]. run_with (Hx E). rewrite isx_s8 by (by apply nth_byte).
      by destruct (isx (nth 1 s 0)). }
  destruct (Z.ltb_spec b 2), (Z.ltb_spec 36 b); cbn [orb]; cbv iota; try done.
  destruct (Z.eqb_spec b 16) as [Eb|Eb]; cbn [andb]; cbv iota; [|rewrite same_place; split_and!; done || lia].
  run_with (peek0 p s Hs). rewrite eqb_s8 by (first [apply nth_byte, Hn|lia]).
  destruct (Z.eqb_spec (nth 0 s 0) 48) as [E|E]; cbn [andb]; cbv iota; [|rewrite same_place, Eb; split_and!; done || lia].
  run_with (Hx E). rewrite isx_s8 by (by apply nth_byte).
  destruct (isx (nth 1 s 0)) eqn:Ex; [|rewrite same_place, Eb; split_and!; done || lia].
  pose proof (zx_long s E Ex) as Hl2. run_with (peek p s 2 Hs Hl2). rewrite ishex_s8 by (by apply nth_byte). cbn [andb].
  destruct (ishex (nth 2 s 0)); cbv iota; [|rewrite same_place, Eb; split_and!; done || lia].
  destruct (skip2 p s Hs Hl2) as (-> & Hs' & ?). rewrite Eb. split_and!; done || lia.
Qed.

(** ** Digits *)

Lemma val_mono base n ds : 1 <= base -> 0 <= n -> Forall (Z.le 0) ds -> n <= val base n ds.
Proof.
  intros Hb. revert n. induction ds as [|v ds IH]; intros n Hn Hds; [done|]. apply Forall_cons in Hds as [Hv Hds].
  change (val base n (v :: ds)) with (val base (n * base + v) ds). specialize (IH (n * base + v) ltac:(nia) Hds). nia.
Qed.

Lemma span_nonneg base s : 0 <= base -> nonul s -> Forall (Z.le 0) (span base s).
Proof.
  intros Hb. induction s as [|b s IH]; intros Hs; [constructor|]. apply Forall_cons in Hs as [Hb' Hs]. simpl.
  case_match; [|constructor]. constructor; [apply digit_nonneg; lia|by apply IH].
Qed.

(** A width: what it keeps, and that it shows when [n * base + v] leaves it. *)
Section Width.
Context (wrap : Z -> Z) (MAX : Z).
Context (Hkeep : forall z, 0 <= z <= MAX -> wrap z = z).
Context (Hover : forall n base v, 1 <= base <= 36 -> 0 <= v < base -> 0 <= n <= MAX / base -> MAX < n * base + v -> wrap (n * base + v) < n).
Context (Hpos : 0 <= MAX).

(** [N] is the number read so far, [n] its representation. *)
Lemma digits_loop_run base : 1 <= base <= 36 -> forall fuel s p n ndig ovfl N,
  cstr_at m p s -> (length s < fuel)%nat -> 0 <= ndig -> ndig + Zlen s < 2 ^ 31 -> 0 <= N ->
  (ovfl = false -> n = N /\ N <= MAX) -> (ovfl = true -> MAX < N) ->
  let ds := span base s in let V := val base N ds in
  exists n', digits_loop wrap fuel base (MAX / base) p n ndig ovfl m =
      Some ((p + Zlen ds, n', ndig + Zlen ds, MAX <? V), m) /\ (V <= MAX -> n' = V).
Proof.
  intros Hb. induction fuel as [|fuel IH]; intros s p n ndig ovfl N Hs Hf Hd Hd2 HN H0 H1; [lia|].
  cbn [digits_loop]. run_with (peek0 p s Hs). rewrite digit_s8 by (apply nth_byte, Hs).
  assert (Hstop : forall n' o, o = ovfl -> n' = n -> exists n2, (mret (p, n', ndig, o) : M _) m =
    Some ((p + Zlen (@nil Z), n2, ndig + Zlen (@nil Z), MAX <? val base N []), m) /\ (val base N [] <= MAX -> n2 = val base N [])).
  { intros n' o -> ->. exists n. rewrite ret_run, !Zlen_nil, !Z.add_0_r. change (val base N []) with N. split.
    - do 3 f_equal. destruct ovfl; [symmetry; apply Z.ltb_lt; auto|symmetry; apply Z.ltb_ge; by apply H0].
    - intros HV. destruct ovfl; [specialize (H1 eq_refl); lia|by apply H0]. }
  destruct s as [|b s]; cbn [nth span].
  { rewrite nul_digit, Z.geb_leb, Z.leb_refl. by apply Hstop. }
  pose proof (cstr_cons m p b s) as Hcc. apply Hcc in Hs as (_ & Hbr & Hs).
  pose proof (digit_nonneg b base ltac:(lia) ltac:(lia)) as Hv. rewrite Z.geb_leb.
  destruct (Z.leb_spec base (digit b base)) as [Hge|Hlt].
  { rewrite (proj2 (Z.ltb_ge _ _) Hge). by apply Hstop. }
  rewrite (proj2 (Z.ltb_lt _ _) Hlt). set (v := digit b base) in *. set (V1 := N * base + v).
  assert (Hp : p +p 1 = p + 1).
  { apply padd_small. pose proof (cstr_range _ _ _ Hs). pose proof (Zlen_nonneg s). pose proof (mem_ok_lt m (p + 1) Hok ltac:(lia)). lia. }
  rewrite Zlen_cons in Hd2. pose proof (Zlen_nonneg s). rewrite Hp, s32_small by lia.
  set (o' := (ovfl || (n >? MAX / base)) || (wrap (n * base + v) <? n)).
  assert (Hm : (MAX / base) * base <= MAX < (MAX / base + 1) * base) by (Z.div_mod_to_equations; nia).
  assert (Hno : o' = false -> wrap (n * base + v) = V1 /\ V1 <= MAX).
  { subst o'. intros Ho. destruct ovfl; [done|]. destruct (H0 eq_refl) as [-> HNM]. cbn [orb] in Ho.
    apply orb_false_elim in Ho as [Ho1 Ho2]. rewrite Z.gtb_ltb in Ho1. apply Z.ltb_ge in Ho1, Ho2. fold V1 in Ho2 |- *.
    destruct (Z.le_gt_cases V1 MAX) as [HV|HV]; [split; [|done]; apply Hkeep; unfold V1; nia|].
    pose proof (Hover N base v Hb ltac:(lia) ltac:(lia) HV) as Ho. fold V1 in Ho. lia. }
  assert (Hyes : o' = true -> MAX < V1).
  { subst o'. intros Ho. destruct ovfl; [specialize (H1 eq_refl); unfold V1; nia|]. destruct (H0 eq_refl) as [-> HNM].
    simpl in Ho. rewrite Z.gtb_ltb in Ho. destruct (Z.ltb_spec (MAX / base) N); [unfold V1; nia|]. simpl in Ho. zbool.
    fold V1 in Ho. destruct (Z.le_gt_cases V1 MAX) as [HV|]; [|done]. rewrite Hkeep in Ho by (unfold V1; nia). unfold V1 in Ho. nia. }
  destruct (IH s (p + 1) (wrap (n * base + v)) (ndig + 1) o' V1 Hs ltac:(simpl in Hf; lia) ltac:(lia) ltac:(lia)
    ltac:(unfold V1; nia) Hno Hyes) as (n' & Hrun & Hval).
  exists n'. rewrite Hrun, Zlen_cons. change (val base N (v :: span base s)) with (val base V1 (span base s)). split; [|done].
  by rewrite <- (Z.add_assoc p 1), <- (Z.add_assoc ndig 1).
Qed.

(** The whole walk, up to the value. *)
Lemma strto_run f g lim nptr s base : prefix_runs f g -> (forall b, 1 <= b <= 36 -> lim b = MAX / b) ->
  cstr_at m nptr s -> Zlen s < 2 ^ 31 ->
  let '(neg, v, k) := strto_ref g base s in
  exists p n ndig, strto f wrap lim nptr base m = Some ((neg, p, n, ndig, MAX <? v), m) /\
    (if ndig =? 0 then nptr else p) = nptr + k /\ (v <= MAX -> n = v) /\ 0 <= v.
Proof.
  intros Hf Hlim Hs Hl. unfold strto_ref. destruct (signed (trim s)) as [neg t] eqn:Es.
  pose proof (cstr_fuel m nptr s Hs) as Hfu.
  destruct (skip_space_run _ nptr s Hs Hfu) as [Hsk Hs1]. pose proof (trim_suffix s) as Ht.
  destruct (sign_run _ _ Hs1) as (t' & Et & Hsi & Hs2 & Hl2). rewrite Es in Et, Hsi. simpl in Et, Hsi. injection Et as <-.
  specialize (Hf _ _ base Hs2). set (p2 := nptr + (Zlen s - Zlen (trim s)) + (Zlen (trim s) - Zlen t)) in *.
  unfold strto, memfuel. erewrite bind_run by done. run_with Hsk. run_with Hsi.
  destruct (g base t) as [[b t3]|]; cbv beta iota in Hf.
  - destruct Hf as (Hb & Hs3 & Hl3 & Hbr). run_with Hb. set (ds := span b t3).
    destruct (digits_loop_run b Hbr (S (length m)) t3 _ 0 0 false 0 Hs3) as (n' & Hd & Hv); try done; try lia.
    { unfold Zlen in *. lia. }
    fold ds in Hd, Hv. rewrite (Hlim b Hbr). eexists _, n', (0 + Zlen ds). split_and!; [by run_with Hd| |done|].
    + destruct ds as [|d ds']; [change (0 + Zlen (@nil Z)) with 0; cbn; lia|]. rewrite Zlen_cons. pose proof (Zlen_nonneg ds').
      destruct (Z.eqb_spec (0 + (1 + Zlen ds')) 0); [lia|]. subst p2. lia.
    + apply val_mono; [lia|done|]. apply span_nonneg; [lia|]. apply Hs3.
  - run_with Hf. exists p2, 0, 0. rewrite (proj2 (Z.ltb_ge MAX 0)) by lia. split_and!; [done|cbn; lia|done|lia].
Qed.
End Width.
End Walk.

(** * Theorems *)

(** Memory with the end pointer stored, when there is a place for it. *)
Definition with_end (m : mem) (endptr v : Z) : mem := if endptr =? 0 then m else wr m endptr (le 4 v).

Lemma store_end_run m nptr endptr p ndig : mem_ok m -> endptr = 0 \/ in_mem m endptr 4 ->
  store_end nptr endptr p ndig m = Some (tt, with_end m endptr (if ndig =? 0 then nptr else p)).
Proof.
  intros Hok He. unfold store_end, with_end. destruct (Z.eqb_spec endptr 0); [done|].
  destruct He as [|He]; [done|]. by apply PBIT32_run.
Qed.

(** A sum that leaves the range by less than a digit shows as a smaller number. *)
Lemma wrap_over MAX n base v (wrap : Z -> Z) M :
  1 <= base <= 36 -> 0 <= v < base -> 0 <= n <= MAX / base -> MAX < n * base + v ->
  (forall z, MAX < z < MAX + 36 -> wrap z = z - M) -> MAX + 36 - M <= MAX / 36 -> wrap (n * base + v) < n.
Proof.
  intros Hb Hv Hn Hover Hw Hlow.
  assert (Hm : (MAX / base) * base <= MAX) by (Z.div_mod_to_equations; nia).
  rewrite Hw by nia. assert (MAX / 36 * 36 <= MAX < (MAX / 36 + 1) * 36) by (Z.div_mod_to_equations; lia). nia.
Qed.

Lemma s32_over z : LONG_MAX < z < LONG_MAX + 36 -> s32 z = z - 2 ^ 32.
Proof. unfold LONG_MAX. intros H. unfold s32. rewrite u32_small by lia. destruct (Z.ltb_spec z (2 ^ 31)); lia. Qed.
Lemma u32_over z : ULONG_MAX < z < ULONG_MAX + 36 -> u32 z = z - 2 ^ 32.
Proof. unfold ULONG_MAX. intros H. width_lia. Qed.
Lemma s64_over z : VLONG_MAX < z < VLONG_MAX + 36 -> s64 z = z - 2 ^ 64.
Proof.
  change VLONG_MAX with (2 ^ 63 - 1). intros H. unfold s64. rewrite u64_small by lia. destruct (Z.ltb_spec z (2 ^ 63)); lia.
Qed.

Lemma s64_keep z : 0 <= z <= VLONG_MAX -> s64 z = z.
Proof.
  change VLONG_MAX with (2 ^ 63 - 1). intros H. unfold s64. rewrite u64_small by lia. destruct (Z.ltb_spec z (2 ^ 63)); lia.
Qed.

Lemma s32_neg z : 0 <= z <= LONG_MAX -> s32 (- z) = - z.
Proof.
  unfold LONG_MAX. intros H. unfold s32. destruct (Z.eq_dec z 0) as [->|]; [done|].
  assert (u32 (- z) = 2 ^ 32 - z) as -> by width_lia. destruct (Z.ltb_spec (2 ^ 32 - z) (2 ^ 31)); lia.
Qed.
Lemma s64_neg z : 0 <= z <= VLONG_MAX -> s64 (- z) = - z.
Proof.
  change VLONG_MAX with (2 ^ 63 - 1). intros H. unfold s64. destruct (Z.eq_dec z 0) as [->|]; [done|].
  assert (u64 (- z) = 2 ^ 64 - z) as -> by width_lia. destruct (Z.ltb_spec (2 ^ 64 - z) (2 ^ 63)); lia.
Qed.

Lemma quot_lim MAX b : 0 <= MAX -> 1 <= b <= 36 -> MAX ÷ b = MAX / b.
Proof. intros. apply Z.quot_div_nonneg; lia. Qed.

(** C37. [strtol] and [strtoll] return the number their digits write, with its
    sign, clamped to the range of the type, and [strtoul] the number modulo
    [2^32], or [ULONG_MAX] when it has more than 32 bits; for every base, string
    and number of digits.  The end pointer is stored past the last digit, or is
    the beginning when there was none. *)
Theorem strto_exact (m : mem) (nptr endptr base : Z) (s : list Z) :
  mem_ok m -> cstr_at m nptr s -> Zlen s < 2 ^ 31 -> endptr = 0 \/ in_mem m endptr 4 ->
  (let '(neg, v, k) := strto_ref based base s in
   strtol nptr endptr base m =
     Some (Z.max LONG_MIN (Z.min LONG_MAX (if neg then - v else v)), with_end m endptr (nptr + k)) /\
   strtoll nptr endptr base m =
     Some (Z.max VLONG_MIN (Z.min VLONG_MAX (if neg then - v else v)), with_end m endptr (nptr + k))) /\
  (let '(neg, v, k) := strto_ref based_u base s in
   strtoul nptr endptr base m =
     Some (if ULONG_MAX <? v then ULONG_MAX else u32 (if neg then - v else v), with_end m endptr (nptr + k))).
Proof.
  intros Hok Hs Hl He. split.
  - pose proof (strto_run m Hok s32 LONG_MAX ltac:(intros; apply s32_small; unfold LONG_MAX in *; lia)
      ltac:(intros; eapply wrap_over; [done..|apply s32_over|done]) ltac:(done) base_prefix based (fun b => LONG_MAX ÷ b) nptr s base
      (base_prefix_runs m Hok) ltac:(intros; by apply quot_lim) Hs Hl) as H32.
    pose proof (strto_run m Hok s64 VLONG_MAX ltac:(intros; apply s64_keep; lia)
      ltac:(intros; eapply wrap_over; [done..|apply s64_over|done]) ltac:(done) base_prefix based (fun b => VLONG_MAX ÷ b) nptr s base
      (base_prefix_runs m Hok) ltac:(intros; by apply quot_lim) Hs Hl) as H64.
    destruct (strto_ref based base s) as [[neg v] k].
    destruct H32 as (p & n & ndig & Hrun & Hp & Hn & Hv), H64 as (p' & n' & ndig' & Hrun' & Hp' & Hn' & _). split.
    + unfold strtol. run_with Hrun. run_with (store_end_run m nptr endptr p ndig Hok He). rewrite Hp. rewrite ret_run. do 2 f_equal.
      destruct (Z.ltb_spec LONG_MAX v) as [Ho|Ho]; [unfold LONG_MAX, LONG_MIN in *; destruct neg; lia|].
      rewrite (Hn Ho). destruct neg; [rewrite s32_neg by lia|]; unfold LONG_MAX, LONG_MIN in *; lia.
    + unfold strtoll. run_with Hrun'. run_with (store_end_run m nptr endptr p' ndig' Hok He). rewrite Hp'. rewrite ret_run. do 2 f_equal.
      change VLONG_MIN with (- 2 ^ 63). change VLONG_MAX with (2 ^ 63 - 1) in *.
      destruct (Z.ltb_spec (2 ^ 63 - 1) v) as [Ho|Ho]; [destruct neg; lia|].
      rewrite (Hn' Ho). destruct neg; [rewrite s64_neg by (change VLONG_MAX with (2 ^ 63 - 1); lia)|]; lia.
  - pose proof (strto_run m Hok u32 ULONG_MAX ltac:(intros; apply u32_small; unfold ULONG_MAX in *; lia)
      ltac:(intros; eapply wrap_over; [done..|apply u32_over|done]) ltac:(done) base_prefix_u based_u (fun b => ULONG_MAX ÷ b) nptr s base
      (base_prefix_u_runs m Hok) ltac:(intros; by apply quot_lim) Hs Hl) as H32.
    destruct (strto_ref based_u base s) as [[neg v] k]. destruct H32 as (p & n & ndig & Hrun & Hp & Hn & Hv).
    unfold strtoul. run_with Hrun. run_with (store_end_run m nptr endptr p ndig Hok He). rewrite Hp. rewrite ret_run. do 2 f_equal.
    destruct (Z.ltb_spec ULONG_MAX v) as [Ho|Ho]; [done|]. rewrite (Hn Ho). destruct neg; [done|].
    symmetry. apply u32_small. unfold ULONG_MAX in *. lia.
Qed.

(** * Concrete strings *)

Lemma cstr_front s r : nonul s -> cstr_at (s ++ 0 :: r) 0 s.
Proof.
  intros Hs. split; [done|]. assert (s ++ 0 :: r = (s ++ [0]) ++ r) as -> by (rewrite <- app_assoc; reflexivity). split.
  - unfold in_mem. rewrite (Zlen_app (s ++ [0])). pose proof (Zlen_nonneg (s ++ [0])). pose proof (Zlen_nonneg r). lia.
  - intros i Hi. rewrite Z.add_0_l. apply lk_app_l. lia.
Qed.

(** "  -0x1f" with room for an end pointer at 16. *)
Definition num_str : list Z := [0x20; 0x20; 0x2D; 0x30; 0x78; 0x31; 0x66].
Definition num_mem : mem := num_str ++ 0 :: replicate 24 0.

Lemma strto_exact_witness :
  strtol 0 16 0 num_mem = Some (-31, with_end num_mem 16 7) /\ strtoul 0 16 0 num_mem = Some (2 ^ 32 - 31, with_end num_mem 16 7).
Proof.
  destruct (strto_exact num_mem 0 16 0 num_str) as [[H1 _] H2].
  - split; [repeat constructor; unfold is_byte; lia|vm_compute; discriminate].
  - apply cstr_front. repeat constructor; lia.
  - vm_compute. reflexivity.
  - right. unfold in_mem. vm_compute. split_and!; discriminate.
  - split; [exact H1|exact H2].
Defined.

(** "30000000000000000000" and "18446744073709551616" *)
Definition big_str : list Z := 0x33 :: replicate 19 0x30.
Definition two64_str : list Z :=
  [0x31; 0x38; 0x34; 0x34; 0x36; 0x37; 0x34; 0x34; 0x30; 0x37; 0x33; 0x37; 0x30; 0x39; 0x35; 0x35; 0x31; 0x36; 0x31; 0x36].

(** [strtoull] means to return its limit when a number has more than 64
    bits, but the limit is [1LL<<63], a negative number whose quotient by the
    base is a large unsigned one: a number of 65 bits is returned modulo [2^64],
    and when the wrap is seen the value is [2^63]. *)
Theorem strtoull_misses_overflow :
  (exists m nptr s, cstr_at m nptr s /\ strto_ref based 10 s = (false, 3 * 10 ^ 19, 20) /\ 2 ^ 64 <= 3 * 10 ^ 19 /\
     strtoull nptr 0 10 m = Some (3 * 10 ^ 19 - 2 ^ 64, m)) /\
  (exists m nptr s, cstr_at m nptr s /\ strto_ref based 10 s = (false, 2 ^ 64, 20) /\ strtoull nptr 0 10 m = Some (2 ^ 63, m)).
Proof.
  split.
  - exists (big_str ++ [0]), 0, big_str. split_and!; [|vm_compute; reflexivity|vm_compute; discriminate|vm_compute; reflexivity].
    apply cstr_front. repeat constructor; lia.
  - exists (two64_str ++ [0]), 0, two64_str. split_and!; [|vm_compute; reflexivity|vm_compute; reflexivity].
    apply cstr_front. repeat constructor; lia.
Qed.
