(* ===== verification/BaseN.v ===== *)
(** Bytes as text: base 16, 32 and 64 of [libc/port/u16.c], [u32.c], [u64.c].

    The tables of the source are lists here, and a lookup by [strchr] the
    position in the list.  The specification is the text as a function of the
    bytes; the routines work on linear memory. *)

From S2P Require Import Prelude Mem CString Fcall.

Local Open Scope c_scope.

(** * Tables *)

(** "0123456789ABCDEF" *)
Definition t16e : list Z := seqZ 0x30 10 ++ seqZ 0x41 6.
(** "23456789abcdefghijkmnpqrstuvwxyz" *)
Definition tab32 : list Z := seqZ 0x32 8 ++ seqZ 0x61 11 ++ seqZ 0x6D 2 ++ seqZ 0x70 11.
(** "A" to "Z", "a" to "z", "0" to "9", "+" and "/" *)
Definition t64e : list Z := seqZ 0x41 26 ++ seqZ 0x61 26 ++ seqZ 0x30 10 ++ [0x2B; 0x2F].

Definition at_ (t : list Z) (j : Z) : Z := nth (Z.to_nat j) t 0.

(** [strchr(tab, c)]: a NUL is found at the end of the table. *)
Definition idx32 (c : Z) : Z :=
  if c =? 0 then 32 else default 0 (find_first c tab32).

Definition INVAL : Z := 255.
Definition t64d : list Z :=
  replicate 43 INVAL ++ [62] ++ replicate 3 INVAL ++ [63] ++ seqZ 52 10 ++ replicate 7 INVAL ++
  seqZ 0 26 ++ replicate 6 INVAL ++ seqZ 26 26 ++ replicate 133 INVAL.

(** [*out++ = c] *)
Definition put (out c : Z) : M Z := _ ← st8 out c; mret (out +p 1).

(** * Base 16 *)

(** The value of a digit; other characters are skipped. *)
Definition hexv (c : Z) : option Z :=
  if (0x30 <=? c) && (c <=? 0x39) then Some (c - 0x30)
  else if (0x61 <=? c) && (c <=? 0x7A) then Some (c - 0x61 + 10)
  else if (0x41 <=? c) && (c <=? 0x5A) then Some (c - 0x41 + 10)
  else None.

Fixpoint dec16_loop (n : nat) (out eout inp w i : Z) : M Z :=
  match n with
  | O => mret out
  | S n =>
      c ← ldc inp;
      let inp := inp +p 1 in
      match hexv c with
      | None => dec16_loop n out eout inp w i
      | Some c =>
          let w := Z.shiftl w 4 + c in
          if i + 1 =? 2 then
            if out +p 1 >? eout then mret out
            else out ← put out w; dec16_loop n out eout inp 0 0
          else dec16_loop n out eout inp w (i + 1)
      end
  end.

Definition dec16 (out lim inp n : Z) : M Z :=
  e ← dec16_loop (Z.to_nat n) out (out +p lim) inp 0 0; mret (s32 (e - out)).

Fixpoint enc16_loop (n : nat) (out eout inp : Z) : M Z :=
  match n with
  | O => mret out
  | S n =>
      c ← ld8 inp;
      if out +p 2 >=? eout then mret out else
      out ← put out (at_ t16e (Z.shiftr c 4));
      out ← put out (at_ t16e (Z.land c 0xf));
      enc16_loop n out eout (inp +p 1)
  end.

Definition enc16 (out lim inp n : Z) : M Z :=
  e ← enc16_loop (Z.to_nat n) out (out +p lim) inp;
  _ ← st8 e 0;
  mret (s32 (e - out)).

(** * Base 32 *)

(** The values of the next [n] characters. *)
Fixpoint u_read (n : nat) (src : Z) : M (list Z) :=
  match n with
  | O => mret []
  | S n => c ← ldc src; us ← u_read n (src +p 1); mret (idx32 c :: us)
  end.

Definition b0_ (u0 u1 : Z) : Z := Z.lor (Z.shiftl u0 3) (Z.land 0x7 (Z.shiftr u1 2)).
Definition b1_ (u1 u2 u3 : Z) : Z :=
  Z.lor (Z.lor (Z.shiftl (Z.land 0x3 u1) 6) (Z.shiftl u2 1)) (Z.land 0x1 (Z.shiftr u3 4)).
Definition b2_ (u3 u4 : Z) : Z := Z.lor (Z.shiftl (Z.land 0xf u3) 4) (Z.land 0xf (Z.shiftr u4 1)).
Definition b3_ (u4 u5 u6 : Z) : Z :=
  Z.lor (Z.lor (Z.shiftl (Z.land 0x1 u4) 7) (Z.shiftl u5 2)) (Z.land 0x3 (Z.shiftr u6 3)).
Definition b4_ (u6 u7 : Z) : Z := Z.lor (Z.shiftl (Z.land 0x7 u6) 5) u7.

(** [*dest++ = ], one after another. *)
Fixpoint puts (dest : Z) (cs : list Z) : M Z :=
  match cs with [] => mret dest | c :: cs => dest ← put dest c; puts dest cs end.

Fixpoint dec32_loop (fuel : nat) (dest src nsrc : Z) : M (Z * Z * Z) :=
  match fuel with
  | O => mret (dest, src, nsrc)
  | S fuel =>
      if nsrc <? 8 then mret (dest, src, nsrc) else
      us ← u_read 8 src;
      let u := at_ us in
      dest ← puts dest [b0_ (u 0) (u 1); b1_ (u 1) (u 2) (u 3); b2_ (u 3) (u 4); b3_ (u 4) (u 5) (u 6); b4_ (u 6) (u 7)];
      dec32_loop fuel dest (src +p 8) (nsrc - 8)
  end.

(** The last characters, from [if(nsrc > 0)] to [out:]; [None] returns -1. *)
Definition dec32_tail (dest src nsrc : Z) : M (option Z) :=
  if nsrc <=? 0 then mret (Some dest) else
  if (nsrc =? 1) || (nsrc =? 3) || (nsrc =? 6) then mret None else
  us ← u_read (Z.to_nat nsrc) src;
  let u := at_ us in
  dest ← put dest (b0_ (u 0) (u 1));
  if nsrc =? 2 then mret (Some dest) else
  dest ← put dest (b1_ (u 1) (u 2) (u 3));
  if nsrc =? 4 then mret (Some dest) else
  dest ← put dest (b2_ (u 3) (u 4));
  if nsrc =? 5 then mret (Some dest) else
  dest ← put dest (b3_ (u 4) (u 5) (u 6));
  mret (Some dest).

Definition dec32 (dest ndest src nsrc : Z) : M Z :=
  if s32 (ndest + 1) <? s32 (5 * nsrc + 7) ÷ 8 then mret (-1) else
  '(d, src, nsrc) ← dec32_loop (Z.to_nat nsrc) dest src nsrc;
  r ← dec32_tail d src nsrc;
  mret (match r with None => -1 | Some d => s32 (d - dest) end).

(** The indices [j] of a group. *)
Definition j0_ (s0 : Z) : Z := Z.land 0x1f (Z.shiftr s0 3).
Definition j1a (s0 : Z) : Z := Z.land 0x1c (Z.shiftl s0 2).
Definition j1b (s1 : Z) : Z := Z.land 0x03 (Z.shiftr s1 6).
Definition j2_ (s1 : Z) : Z := Z.land 0x1f (Z.shiftr s1 1).
Definition j3a (s1 : Z) : Z := Z.land 0x10 (Z.shiftl s1 4).
Definition j3b (s2 : Z) : Z := Z.land 0x0f (Z.shiftr s2 4).
Definition j4a (s2 : Z) : Z := Z.land 0x1e (Z.shiftl s2 1).
Definition j4b (s3 : Z) : Z := Z.land 0x01 (Z.shiftr s3 7).
Definition j5_ (s3 : Z) : Z := Z.land 0x1f (Z.shiftr s3 2).
Definition j6a (s3 : Z) : Z := Z.land 0x18 (Z.shiftl s3 3).
Definition j6b (s4 : Z) : Z := Z.land 0x07 (Z.shiftr s4 5).
Definition j7_ (s4 : Z) : Z := Z.land 0x1f s4.

(** [*dest++ = tab[j]] *)
Definition put32 (dest j : Z) : M Z := put dest (at_ tab32 j).

Fixpoint enc32_loop (fuel : nat) (dest src nsrc : Z) : M (Z * Z * Z) :=
  match fuel with
  | O => mret (dest, src, nsrc)
  | S fuel =>
      if nsrc <? 5 then mret (dest, src, nsrc) else
      s0 ← ld8 src; dest ← put32 dest (j0_ s0);
      s0 ← ld8 src; s1 ← ld8 (src +p 1); dest ← put32 dest (Z.lor (j1a s0) (j1b s1));
      s1 ← ld8 (src +p 1); dest ← put32 dest (j2_ s1);
      s1 ← ld8 (src +p 1); s2 ← ld8 (src +p 2); dest ← put32 dest (Z.lor (j3a s1) (j3b s2));
      s2 ← ld8 (src +p 2); s3 ← ld8 (src +p 3); dest ← put32 dest (Z.lor (j4a s2) (j4b s3));
      s3 ← ld8 (src +p 3); dest ← put32 dest (j5_ s3);
      s3 ← ld8 (src +p 3); s4 ← ld8 (src +p 4); dest ← put32 dest (Z.lor (j6a s3) (j6b s4));
      s4 ← ld8 (src +p 4); dest ← put32 dest (j7_ s4);
      enc32_loop fuel dest (src +p 5) (nsrc - 5)
  end.

(** The last bytes. *)
Definition enc32_tail (dest src nsrc : Z) : M Z :=
  if nsrc =? 0 then mret dest else
  s0 ← ld8 src; dest ← put32 dest (j0_ s0);
  s0 ← ld8 src; let j := j1a s0 in
  if nsrc =? 1 then put32 dest j else
  s1 ← ld8 (src +p 1); dest ← put32 dest (Z.lor j (j1b s1));
  s1 ← ld8 (src +p 1); let j := j2_ s1 in
  if nsrc =? 2 then put32 dest j else
  dest ← put32 dest j;
  s1 ← ld8 (src +p 1); let j := j3a s1 in
  if nsrc =? 3 then put32 dest j else
  s2 ← ld8 (src +p 2); dest ← put32 dest (Z.lor j (j3b s2));
  s2 ← ld8 (src +p 2); let j := j4a s2 in
  if nsrc =? 4 then put32 dest j else
  s3 ← ld8 (src +p 3); dest ← put32 dest (Z.lor j (j4b s3));
  s3 ← ld8 (src +p 3); dest ← put32 dest (j5_ s3);
  s3 ← ld8 (src +p 3); put32 dest (j6a s3).

Definition enc32 (dest ndest src nsrc : Z) : M Z :=
  if ndest <=? s32 (8 * nsrc + 4) ÷ 5 then mret (-1) else
  '(d, src, nsrc) ← enc32_loop (Z.to_nat nsrc) dest src nsrc;
  d ← enc32_tail d src nsrc;
  _ ← st8 d 0;
  mret (s32 (d - dest)).

(** * Base 64 *)

(** The loop of [dec64]: the pointer, the bits and how many characters of the
    group were read, and whether the output was full. *)
Fixpoint dec64_loop (n : nat) (out e inp b24 i : Z) : M (Z * Z * Z * bool) :=
  match n with
  | O => mret (out, b24, i, false)
  | S n =>
      b ← ld8 inp;
      let inp := inp +p 1 in
      let c := at_ t64d b in
      if c =? INVAL then dec64_loop n out e inp b24 i else
      if i =? 0 then dec64_loop n out e inp (Z.shiftl c 18) 1
      else if i =? 1 then dec64_loop n out e inp (Z.lor b24 (Z.shiftl c 12)) 2
      else if i =? 2 then dec64_loop n out e inp (Z.lor b24 (Z.shiftl c 6)) 3
      else
        if out +p 3 >? e then mret (out, b24, i, true) else
        let b24 := Z.lor b24 c in
        out ← puts out [Z.shiftr b24 16; Z.shiftr b24 8; b24];
        dec64_loop n out e inp b24 0
  end.

(** The last characters, [switch(i)]. *)
Definition dec64_tail (out e b24 i : Z) : M Z :=
  if i =? 2 then if out +p 1 >? e then mret out else puts out [Z.shiftr b24 16]
  else if i =? 3 then if out +p 2 >? e then mret out else puts out [Z.shiftr b24 16; Z.shiftr b24 8]
  else mret out.

Definition dec64 (out lim inp n : Z) : M Z :=
  let e := out +p lim in
  '(o, b24, i, full) ← dec64_loop (Z.to_nat n) out e inp 0 0;
  o ← (if (full : bool) then mret o else dec64_tail o e b24 i);
  mret (s32 (o - out)).

(** The first characters of a group. *)
Definition group64 (b24 : Z) (n : nat) : list Z :=
  take n [at_ t64e (Z.shiftr b24 18); at_ t64e (Z.land (Z.shiftr b24 12) 0x3f);
          at_ t64e (Z.land (Z.shiftr b24 6) 0x3f); at_ t64e (Z.land b24 0x3f)].

(** The loop of [enc64], and whether the output was full. *)
Fixpoint enc64_loop (k : nat) (out e inp : Z) : M (Z * Z * bool) :=
  match k with
  | O => mret (out, inp, false)
  | S k =>
      c0 ← ld8 inp; c1 ← ld8 (inp +p 1); c2 ← ld8 (inp +p 2);
      let b24 := Z.lor (Z.lor (Z.shiftl c0 16) (Z.shiftl c1 8)) c2 in
      if out +p 4 >=? e then mret (out, inp +p 3, true) else
      out ← puts out (group64 b24 4);
      enc64_loop k out e (inp +p 3)
  end.

(** The last bytes, [switch(n%3)]. *)
Definition enc64_tail (out e inp n : Z) : M Z :=
  if Z.rem n 3 =? 2 then
    c0 ← ld8 inp; c1 ← ld8 (inp +p 1);
    let b24 := Z.lor (Z.shiftl c0 16) (Z.shiftl c1 8) in
    if out +p 4 >=? e then mret out else puts out (group64 b24 3 ++ [0x3D])
  else if Z.rem n 3 =? 1 then
    c0 ← ld8 inp;
    let b24 := Z.shiftl c0 16 in
    if out +p 4 >=? e then mret out else puts out (group64 b24 2 ++ [0x3D; 0x3D])
  else mret out.

Definition enc64 (out lim inp n : Z) : M Z :=
  let e := out +p lim in
  '(o, inp, full) ← enc64_loop (Z.to_nat (n ÷ 3)) out e inp;
  o ← (if (full : bool) then mret o else enc64_tail o e inp n);
  _ ← st8 o 0;
  mret (s32 (o - out)).

(** * The texts *)

Definition e16 (bs : list Z) : list Z :=
  concat (map (fun c => [at_ t16e (Z.shiftr c 4); at_ t16e (Z.land c 0xf)]) bs).

Definition group32 (s0 s1 s2 s3 s4 : Z) : list Z :=
  map (at_ tab32) [j0_ s0; Z.lor (j1a s0) (j1b s1); j2_ s1; Z.lor (j3a s1) (j3b s2);
                   Z.lor (j4a s2) (j4b s3); j5_ s3; Z.lor (j6a s3) (j6b s4); j7_ s4].

(** Whole groups, then what the tail writes: with 2, 3 or 4 bytes left it
    stops one character early. *)
Fixpoint e32 (bs : list Z) : list Z :=
  match bs with
  | s0 :: s1 :: s2 :: s3 :: s4 :: bs => group32 s0 s1 s2 s3 s4 ++ e32 bs
  | [s0; s1; s2; s3] => map (at_ tab32) [j0_ s0; Z.lor (j1a s0) (j1b s1); j2_ s1; Z.lor (j3a s1) (j3b s2); j4a s2]
  | [s0; s1; s2] => map (at_ tab32) [j0_ s0; Z.lor (j1a s0) (j1b s1); j2_ s1; j3a s1]
  | [s0; s1] => map (at_ tab32) [j0_ s0; Z.lor (j1a s0) (j1b s1); j2_ s1]
  | [s0] => map (at_ tab32) [j0_ s0; j1a s0]
  | [] => []
  end.

Definition b24_ (c0 c1 c2 : Z) : Z := Z.lor (Z.lor (Z.shiftl c0 16) (Z.shiftl c1 8)) c2.

Fixpoint e64 (bs : list Z) : list Z :=
  match bs with
  | c0 :: c1 :: c2 :: bs => group64 (b24_ c0 c1 c2) 4 ++ e64 bs
  | [c0; c1] => group64 (b24_ c0 c1 0) 3 ++ [0x3D]
  | [c0] => group64 (b24_ c0 0 0) 2 ++ [0x3D; 0x3D]
  | [] => []
  end.
