(* ===== verification/BaseNThm.v ===== *)
(** The encodings of [BaseN] compute their texts and invert them.

    First the bits of a group, checked for every value of the one or two bytes
    a fact depends on; then a buffer being filled, where the memory is the
    initial one with an accumulated prefix written; then each loop, by
    induction on the groups of the input. *)

From S2P Require Import Prelude Mem CString Fcall BaseN.

Local Open Scope c_scope.

(** * Exhaustive facts *)

(** A property checked for the values below [n]. *)
Definition below (n : Z) (P : Z -> bool) : bool := forallb P (seqZ 0 n).

Lemma below_spec n P x : below n P = true -> 0 <= x < n -> P x = true.
Proof.
  unfold below. intros H Hx. rewrite forallb_forall in H.
  apply H. apply list_elem_of_In, elem_of_seqZ. lia.
Qed.

(** The characters of the tables, and their values. *)
Lemma tab32_char j : 0 <= j < 32 -> is_byte (at_ tab32 j) /\ idx32 (s8 (at_ tab32 j)) = j.
Proof.
  intros H.
  assert (E : below 32 (fun j => (0 <=? at_ tab32 j) && (at_ tab32 j <? 256) && (idx32 (s8 (at_ tab32 j)) =? j)) = true)
    by (vm_compute; reflexivity).
  apply (below_spec _ _ j E) in H. cbv beta in H. clear E. zbool. done.
Qed.

Lemma t64_char j : 0 <= j < 64 -> is_byte (at_ t64e j) /\ at_ t64d (at_ t64e j) = j.
Proof.
  intros H.
  assert (E : below 64 (fun j => (0 <=? at_ t64e j) && (at_ t64e j <? 256) && (at_ t64d (at_ t64e j) =? j)) = true)
    by (vm_compute; reflexivity).
  apply (below_spec _ _ j E) in H. cbv beta in H. clear E. zbool. done.
Qed.

(** The two digits of a byte. *)
Lemma t16_digits c : is_byte c ->
  let h := at_ t16e (Z.shiftr c 4) in let l := at_ t16e (Z.land c 0xf) in
  is_byte h /\ is_byte l /\ hexv (s8 h) = Some (Z.shiftr c 4) /\ hexv (s8 l) = Some (Z.land c 0xf) /\
  Z.shiftl (Z.shiftl 0 4 + Z.shiftr c 4) 4 + Z.land c 0xf = c.
Proof.
  intros H h l.
  assert (E : below 256 (fun c => let h := at_ t16e (Z.shiftr c 4) in let l := at_ t16e (Z.land c 0xf) in
    (0 <=? h) && (h <? 256) && ((0 <=? l) && (l <? 256)) &&
    bool_decide (hexv (s8 h) = Some (Z.shiftr c 4)) && bool_decide (hexv (s8 l) = Some (Z.land c 0xf)) &&
    (Z.shiftl (Z.shiftl 0 4 + Z.shiftr c 4) 4 + Z.land c 0xf =? c)) = true) by (vm_compute; reflexivity).
  pose proof (below_spec _ _ c E H) as H'. cbv beta zeta in H'. fold h l in H'. clear E. zbool.
  rewrite !bool_decide_eq_true in *. unfold is_byte. tauto.
Qed.

(** The indices of a group, and the bytes that come back from them. *)
Definition is5 (j : Z) : bool := (0 <=? j) && (j <? 32).

Lemma one_byte s : is_byte s ->
  is5 (j0_ s) && is5 (j1a s) && is5 (j2_ s) && is5 (j3a s) && is5 (j4a s) && is5 (j5_ s) && is5 (j7_ s) &&
  (u8 (b0_ (j0_ s) (j1a s)) =? s) = true.
Proof.
  intros H. revert s H. assert (E : below 256 (fun s =>
    is5 (j0_ s) && is5 (j1a s) && is5 (j2_ s) && is5 (j3a s) && is5 (j4a s) && is5 (j5_ s) && is5 (j7_ s) &&
    (u8 (b0_ (j0_ s) (j1a s)) =? s)) = true) by (vm_compute; reflexivity).
  intros s H. exact (below_spec _ _ s E H).
Qed.

(** Two neighbouring bytes [s] and [t]: the index they share, the first byte
    of a group, and the pieces that the others of each index contribute. *)
Definition two_ok (s t : Z) : bool :=
  let j1 := Z.lor (j1a s) (j1b t) in
  let j3 := Z.lor (j3a s) (j3b t) in
  let j4 := Z.lor (j4a s) (j4b t) in
  let j6 := Z.lor (j6a s) (j6b t) in
  is5 j1 && is5 j3 && is5 j4 && is5 j6 &&
  (u8 (b0_ (j0_ s) j1) =? s) && (Z.land 3 j1 =? j1b t) &&
  (Z.land 1 (Z.shiftr j3 4) =? Z.land 1 s) && (Z.land 0xf j3 =? j3b t) &&
  (Z.land 0xf (Z.shiftr j4 1) =? Z.land 0xf s) && (Z.land 1 j4 =? j4b t) &&
  (Z.land 3 (Z.shiftr j6 3) =? Z.land 3 s) && (Z.land 7 j6 =? j6b t).

Lemma two_bytes s t : is_byte s -> is_byte t -> two_ok s t = true.
Proof.
  assert (E : below 256 (fun s => below 256 (two_ok s)) = true) by (vm_compute; reflexivity).
  intros Hs Ht. pose proof (below_spec _ _ s E Hs) as E'. cbv beta in E'.
  exact (below_spec _ _ t E' Ht).
Qed.

(** A byte from its pieces. *)
Lemma pieces s : is_byte s ->
  u8 (Z.lor (Z.lor (Z.shiftl (j1b s) 6) (Z.shiftl (j2_ s) 1)) (Z.land 1 s)) = s /\
  u8 (Z.lor (Z.shiftl (j3b s) 4) (Z.land 0xf s)) = s /\
  u8 (Z.lor (Z.lor (Z.shiftl (j4b s) 7) (Z.shiftl (j5_ s) 2)) (Z.land 3 s)) = s /\
  u8 (Z.lor (Z.shiftl (j6b s) 5) (j7_ s)) = s.
Proof.
  intros H. assert (E : below 256 (fun s =>
    (u8 (Z.lor (Z.lor (Z.shiftl (j1b s) 6) (Z.shiftl (j2_ s) 1)) (Z.land 1 s)) =? s) &&
    (u8 (Z.lor (Z.shiftl (j3b s) 4) (Z.land 0xf s)) =? s) &&
    (u8 (Z.lor (Z.lor (Z.shiftl (j4b s) 7) (Z.shiftl (j5_ s) 2)) (Z.land 3 s)) =? s) &&
    (u8 (Z.lor (Z.shiftl (j6b s) 5) (j7_ s)) =? s)) = true) by (vm_compute; reflexivity).
  apply (below_spec _ _ s E) in H. cbv beta in H. clear E. zbool. done.
Qed.

(** * A buffer being filled *)

(** Lengths of concatenations. *)
Ltac len := autorewrite with zlen; zpos; lia.


Section Buffer.
Context (m : mem) (Hm : mem_ok m) (out cap : Z) (Hout : in_mem m out cap).

Lemma room_in (acc : list Z) : Zlen acc <= cap -> in_mem m out (Zlen acc).
Proof. intros H. pose proof (Zlen_nonneg acc). unfold in_mem in *. lia. Qed.

Lemma at_small n : 0 <= n <= cap -> padd out n = out + n.
Proof.
  intros H. apply padd_small. destruct Hout as (?&?&?). pose proof (mem_ok_lt m (out + n) Hm). lia.
Qed.

Lemma step_small (acc : list Z) k : 0 <= k -> Zlen acc + k <= cap -> padd (out + Zlen acc) k = out + (Zlen acc + k).
Proof.
  intros H1 H2. pose proof (Zlen_nonneg acc). rewrite padd_small; [lia|].
  destruct Hout as (?&?&?). pose proof (mem_ok_lt m (out + (Zlen acc + k)) Hm). lia.
Qed.

Lemma put_acc acc c : Zlen acc + 1 <= cap ->
  put (out + Zlen acc) c (wr m out acc) = Some (out + Zlen (acc ++ [u8 c]), wr m out (acc ++ [u8 c])).
Proof.
  intros H. pose proof (Zlen_nonneg acc). unfold put.
  assert (Ha : in_mem m out (Zlen acc)) by (apply room_in; lia).
  assert (H1 : in_mem (wr m out acc) (out + Zlen acc) 1).
  { rewrite in_mem_wr by done. unfold in_mem in *. lia. }
  run_with (st8_run _ _ c H1). rewrite wr_app by (change (Zlen [u8 c]) with 1; unfold in_mem in *; lia).
  rewrite Zlen_app. change (Zlen [u8 c]) with 1. rewrite Z.add_assoc.
  rewrite padd_small by (destruct Hout as (?&?&?); pose proof (mem_ok_lt m (out + Zlen acc + 1) Hm); lia). done.
Qed.

Lemma puts_acc cs acc : Zlen acc + Zlen cs <= cap ->
  puts (out + Zlen acc) cs (wr m out acc) =
    Some (out + Zlen (acc ++ map u8 cs), wr m out (acc ++ map u8 cs)).
Proof.
  revert acc. induction cs as [|c cs IH]; intros acc H; simpl.
  - by rewrite app_nil_r.
  - rewrite Zlen_cons in H. pose proof (Zlen_nonneg cs).
    run_with (put_acc acc c ltac:(lia)).
    rewrite IH by (rewrite Zlen_app; change (Zlen [u8 c]) with 1; lia).
    by rewrite <- app_assoc.
Qed.

(** The terminating NUL and the returned length. *)
Lemma finish acc : Zlen acc + 1 <= cap -> cap < 2 ^ 31 ->
  (_ ← st8 (out + Zlen acc) 0; mret (s32 (out + Zlen acc - out)) : M Z) (wr m out acc) =
    Some (Zlen acc, wr m out (acc ++ [0])).
Proof.
  intros H Hc. pose proof (Zlen_nonneg acc).
  assert (Ha : in_mem m out (Zlen acc)) by (apply room_in; lia).
  assert (H1 : in_mem (wr m out acc) (out + Zlen acc) 1).
  { rewrite in_mem_wr by done. unfold in_mem in *. lia. }
  run_with (st8_run _ _ 0 H1). change (u8 0) with 0.
  rewrite wr_app by (change (Zlen [0]) with 1; unfold in_mem in *; lia).
  rewrite Z.add_simpl_l, s32_small by lia. done.
Qed.

(** The characters of a table are bytes. *)
Lemma put_char acc c : is_byte c -> Zlen acc + 1 <= cap ->
  put (out + Zlen acc) c (wr m out acc) = Some (out + Zlen (acc ++ [c]), wr m out (acc ++ [c])).
Proof. intros Hc H. rewrite put_acc by done. by rewrite u8_small by apply Hc. Qed.

(** An input that the buffer does not overlap. *)
Definition input (p : Z) (bs : list Z) : Prop :=
  bytes_at m p bs /\ (p + Zlen bs <= out \/ out + cap <= p).

Lemma input_small p bs i : input p bs -> 0 <= i <= Zlen bs -> p +p i = p + i.
Proof. intros [[(?&_&?) _] _] Hi. apply padd_small. pose proof (mem_ok_lt m (p + i) Hm). lia. Qed.

Lemma input_ld0 p b bs acc : input p (b :: bs) -> Zlen acc <= cap ->
  ld8 p (wr m out acc) = Some (b, wr m out acc).
Proof.
  intros [Hb Ha] Hl. apply bytes_at_cons in Hb as [Hb _]. rewrite Zlen_cons in Ha. pose proof (Zlen_nonneg bs).
  apply ld8_run. rewrite lk_wr_out; [done|by apply room_in|]. lia.
Qed.

Lemma input_ldc p b bs acc : input p (b :: bs) -> Zlen acc <= cap ->
  ldc p (wr m out acc) = Some (s8 b, wr m out acc).
Proof. intros Hin Hl. unfold ldc. run_with (input_ld0 p b bs acc Hin Hl). done. Qed.

Lemma input_ld p bs i b acc : input p bs -> lk bs i = Some b -> Zlen acc <= cap ->
  ld8 (p +p i) (wr m out acc) = Some (b, wr m out acc).
Proof.
  intros Hin Hi Hl. pose proof (lk_Some _ _ _ Hi). rewrite (input_small _ _ _ Hin) by lia.
  destruct Hin as [[(?&_&?) Hb] Ha].
  apply ld8_run. rewrite lk_wr_out; [by rewrite Hb|by apply room_in|]. lia.
Qed.

Lemma input_bytes p bs : input p bs -> Forall is_byte bs.
Proof.
  intros [[_ Hb] _]. apply Forall_lookup. intros i b Hi.
  assert (Hl : lk bs (Z.of_nat i) = Some b) by (unfold lk; rewrite (proj2 (Z.leb_le 0 _)), Nat2Z.id by lia; done).
  pose proof (lk_Some _ _ _ Hl). eapply lk_byte; [apply Hm|]. rewrite Hb; [exact Hl|lia].
Qed.

(** The input after its first bytes. *)
Lemma input_app p bs cs : input p (bs ++ cs) -> p +p Zlen bs = p + Zlen bs /\ input (p + Zlen bs) cs.
Proof.
  intros Hin. split; [apply (input_small _ _ _ Hin); len|]. destruct Hin as [Hb Ha].
  apply bytes_at_app in Hb as [_ Hb]. split; [done|]. revert Ha. rewrite Zlen_app. zpos. lia.
Qed.

Lemma input_prefix p bs cs : input p (bs ++ cs) -> input p bs.
Proof. intros [Hb Ha]. apply bytes_at_app in Hb as [Hb _]. split; [done|]. revert Ha. rewrite Zlen_app. zpos. lia. Qed.

(** Run a load from the input, and the store of a character. *)
Ltac ld0 H := erewrite bind_run by (apply (input_ld0 _ _ _ _ H); len); cbv beta iota.
Ltac ldc H := erewrite bind_run by (apply (input_ldc _ _ _ _ H); len); cbv beta iota zeta.
Ltac ld H := erewrite bind_run by (eapply (input_ld _ _ _ _ _ H); [reflexivity|len]); cbv beta iota.
Ltac emit D := erewrite bind_run by (apply put_char; [exact D|len]); cbv beta iota.

(** ** Base 16 *)

Lemma enc16_loop_run bs : forall acc src, input src bs -> Zlen (acc ++ e16 bs) < cap ->
  enc16_loop (length bs) (out + Zlen acc) (out + cap) src (wr m out acc) =
    Some (out + Zlen (acc ++ e16 bs), wr m out (acc ++ e16 bs)).
Proof.
  induction bs as [|c bs IH]; intros acc src Hin Hl.
  { simpl. by rewrite app_nil_r. }
  change (e16 (c :: bs)) with ([at_ t16e (Z.shiftr c 4); at_ t16e (Z.land c 0xf)] ++ e16 bs) in *.
  assert (Zlen acc + 2 < cap) by (revert Hl; len). pose proof (Zlen_nonneg acc).
  pose proof (input_bytes _ _ Hin) as [Hc _]%Forall_cons_iff. destruct (t16_digits c Hc) as (D1 & D2 & _).
  destruct (input_app src [c] bs Hin) as [P Hin']. change (Zlen [c]) with 1 in *.
  cbn [enc16_loop length]. ld0 Hin.
  rewrite P, step_small, Z.geb_leb by lia. zif.
  emit D1. emit D2.
  rewrite IH; [by rewrite <- !app_assoc|done|]. revert Hl. len.
Qed.

(** The decoder, over the digits. *)
Lemma dec16_loop_run bs : forall acc src, Forall is_byte bs -> input src (e16 bs) -> Zlen (acc ++ bs) <= cap ->
  dec16_loop (length (e16 bs)) (out + Zlen acc) (out + cap) src 0 0 (wr m out acc) =
    Some (out + Zlen (acc ++ bs), wr m out (acc ++ bs)).
Proof.
  induction bs as [|c bs IH]; intros acc src Hbs Hin Hl.
  { simpl. by rewrite app_nil_r. }
  apply Forall_cons_iff in Hbs as [Hc Hbs]. destruct (t16_digits c Hc) as (D1 & D2 & H1 & H2 & H3).
  assert (Zlen acc + 1 <= cap) by (revert Hl; len).
  change (e16 (c :: bs)) with ([at_ t16e (Z.shiftr c 4)] ++ [at_ t16e (Z.land c 0xf)] ++ e16 bs) in *.
  destruct (input_app _ _ _ Hin) as [P1 Hin1]. destruct (input_app _ _ _ Hin1) as [P2 Hin2].
  change (Zlen [_]) with 1 in *. cbn [app length dec16_loop]. ldc Hin. rewrite H1, P1.
  change (0 + 1 =? 2) with false. cbv iota. ldc Hin1. rewrite H2, P2, H3.
  change (0 + 1 + 1 =? 2) with true. cbv iota. rewrite step_small by lia. zif. emit Hc.
  rewrite IH; [by rewrite <- app_assoc|done..|]. revert Hl. len.
Qed.

Lemma Zlen_e16 bs : Zlen (e16 bs) = 2 * Zlen bs.
Proof. induction bs as [|c bs IH]; [done|]. unfold e16 in *. cbn [map concat]. rewrite Zlen_app, IH. len. Qed.

Lemma enc16_run bs src : input src bs -> Zlen (e16 bs) < cap -> cap < 2 ^ 31 ->
  enc16 out cap src (Zlen bs) m = Some (Zlen (e16 bs), wr m out (e16 bs ++ [0])).
Proof.
  intros Hin Hl Hc. pose proof (Zlen_nonneg (e16 bs)). unfold enc16. rewrite to_nat_Zlen, at_small by lia.
  rewrite <- (wr_nil m out) at 1. pose proof (enc16_loop_run bs [] src Hin Hl) as W.
  change (Zlen (@nil Z)) with 0 in W. rewrite Z.add_0_r in W. run_with W. apply finish; simpl; lia.
Qed.

Lemma dec16_run bs src : Forall is_byte bs -> input src (e16 bs) -> Zlen bs <= cap < 2 ^ 31 ->
  dec16 out cap src (Zlen (e16 bs)) m = Some (Zlen bs, wr m out bs).
Proof.
  intros Hb Hin Hl. pose proof (Zlen_nonneg bs). unfold dec16. rewrite to_nat_Zlen, at_small by lia.
  rewrite <- (wr_nil m out) at 1. pose proof (dec16_loop_run bs [] src Hb Hin ltac:(simpl; lia)) as W.
  change (Zlen (@nil Z)) with 0 in W. rewrite Z.add_0_r in W. run_with W. simpl app.
  rewrite Z.add_simpl_l, s32_small by lia. done.
Qed.

(** ** Base 32 *)

Lemma u_read_run cs : forall acc p rest, input p (cs ++ rest) -> Zlen acc <= cap ->
  u_read (length cs) p (wr m out acc) = Some (map (fun c => idx32 (s8 c)) cs, wr m out acc).
Proof.
  induction cs as [|c cs IH]; intros acc p rest Hin Hl; [done|].
  cbn [length u_read map]. ldc Hin. destruct (input_app p [c] (cs ++ rest) Hin) as [P Hin'].
  change (Zlen [c]) with 1 in *. rewrite P. erewrite bind_run by (eapply IH; eauto). done.
Qed.

(** The indices of a group are below 32. *)
Lemma char5 j : is5 j = true -> is_byte (at_ tab32 j).
Proof. unfold is5. intros H. zbool. by apply tab32_char. Qed.

(** The indices a byte and two neighbours give. *)
Lemma chars1 s : is_byte s ->
  Forall is_byte (map (at_ tab32) [j0_ s; j1a s; j2_ s; j3a s; j4a s; j5_ s; j7_ s]).
Proof. intros H. pose proof (one_byte s H). zbool. repeat constructor; by apply char5. Qed.

Lemma chars2 s t : is_byte s -> is_byte t ->
  Forall is_byte (map (at_ tab32) [Z.lor (j1a s) (j1b t); Z.lor (j3a s) (j3b t); Z.lor (j4a s) (j4b t); Z.lor (j6a s) (j6b t)]).
Proof.
  intros Hs Ht. pose proof (two_bytes s t Hs Ht) as H. unfold two_ok in H. cbv zeta in H. zbool.
  repeat constructor; by apply char5.
Qed.

(** Split what is known of each character. *)
Ltac chars L := let H := fresh in pose proof L as H; cbn [map] in H; repeat (apply Forall_cons_iff in H as [? H]); clear H.
Ltac emits := unfold put32; erewrite bind_run by (apply put_char; [eassumption|len]); cbv beta iota zeta.

Lemma enc32_loop_run k : forall bs fuel acc src rest,
  length bs = (5 * k)%nat -> (k <= fuel)%nat -> (length rest < 5)%nat ->
  input src (bs ++ rest) -> Zlen acc + Zlen (e32 bs) <= cap ->
  enc32_loop fuel (out + Zlen acc) src (Zlen (bs ++ rest)) (wr m out acc) =
    Some ((out + Zlen (acc ++ e32 bs), src + Zlen bs, Zlen rest), wr m out (acc ++ e32 bs)).
Proof.
  induction k as [|k IH]; intros bs fuel acc src rest Hk Hf Hr Hin Hl.
  { destruct bs; [|done]. change (e32 []) with (@nil Z). change (Zlen (@nil Z)) with 0.
    rewrite app_nil_r, Z.add_0_r. simpl app. destruct fuel; cbn [enc32_loop]; [done|].
    assert (Zlen rest < 5) by (unfold Zlen; lia). zif. done. }
  destruct fuel as [|fuel]; [lia|].
  destruct bs as [|s0 [|s1 [|s2 [|s3 [|s4 bs]]]]]; try (simpl in Hk; lia).
  change (e32 (s0 :: s1 :: s2 :: s3 :: s4 :: bs)) with (group32 s0 s1 s2 s3 s4 ++ e32 bs) in *.
  destruct (input_app src [s0; s1; s2; s3; s4] (bs ++ rest) Hin) as [P Hin'].
  change (Zlen [s0; s1; s2; s3; s4]) with 5 in *.
  assert (Zlen acc + 8 + Zlen (e32 bs) <= cap)
    by (rewrite Zlen_app in Hl; change (Zlen (group32 s0 s1 s2 s3 s4)) with 8 in Hl; lia).
  pose proof (Zlen_nonneg (e32 bs)).
  pose proof (input_bytes _ _ Hin) as Hb. simpl app in *.
  do 5 (apply Forall_cons_iff in Hb as [? Hb]). clear Hb.
  chars (chars1 s0 ltac:(done)). chars (chars1 s1 ltac:(done)). chars (chars1 s2 ltac:(done)).
  chars (chars1 s3 ltac:(done)). chars (chars1 s4 ltac:(done)).
  chars (chars2 s0 s1 ltac:(done) ltac:(done)). chars (chars2 s1 s2 ltac:(done) ltac:(done)).
  chars (chars2 s2 s3 ltac:(done) ltac:(done)). chars (chars2 s3 s4 ltac:(done) ltac:(done)).
  replace (Zlen (s0 :: s1 :: s2 :: s3 :: s4 :: bs ++ rest)) with (5 + Zlen (bs ++ rest)) by len.
  pose proof (Zlen_nonneg (bs ++ rest)).
  cbn [enc32_loop]. zif. rewrite Z.add_simpl_l, P.
  ld0 Hin. emits. ld0 Hin. ld Hin. emits. ld Hin. emits. ld Hin. ld Hin. emits. ld Hin. ld Hin. emits. ld Hin. emits.
  ld Hin. ld Hin. emits. ld Hin. emits.
  rewrite IH; [|simpl in Hk; lia|lia|done|done|len].
  rewrite <- !app_assoc. replace (src + 5 + Zlen bs) with (src + Zlen (s0 :: s1 :: s2 :: s3 :: s4 :: bs)) by len.
  reflexivity.
Qed.

Lemma enc32_tail_run rest acc src : (length rest < 5)%nat -> input src rest -> Zlen acc + Zlen (e32 rest) <= cap ->
  enc32_tail (out + Zlen acc) src (Zlen rest) (wr m out acc) =
    Some (out + Zlen (acc ++ e32 rest), wr m out (acc ++ e32 rest)).
Proof.
  intros Hr Hin Hl. pose proof (input_bytes _ _ Hin) as Hb. unfold enc32_tail, put32. pose proof (Zlen_nonneg acc).
  destruct rest as [|s0 [|s1 [|s2 [|s3 [|]]]]]; try (simpl in Hr; lia);
    repeat (apply Forall_cons_iff in Hb as [? Hb]); clear Hb.
  - change (e32 []) with (@nil Z). by rewrite app_nil_r.
  - chars (chars1 s0 ltac:(done)). change (Zlen [s0]) with 1. change (Zlen (e32 [s0])) with 2 in Hl.
    simpl (1 =? _). cbv iota zeta. ld0 Hin. emits. ld0 Hin. rewrite put_char by (done || len).
    by rewrite <- !app_assoc.
  - chars (chars1 s0 ltac:(done)). chars (chars1 s1 ltac:(done)). chars (chars2 s0 s1 ltac:(done) ltac:(done)).
    change (Zlen [s0; s1]) with 2. change (Zlen (e32 [s0; s1])) with 3 in Hl.
    simpl (2 =? _). cbv iota zeta. ld0 Hin. emits. ld0 Hin. ld Hin. emits. ld Hin. rewrite put_char by (done || len).
    by rewrite <- !app_assoc.
  - chars (chars1 s0 ltac:(done)). chars (chars1 s1 ltac:(done)). chars (chars2 s0 s1 ltac:(done) ltac:(done)).
    change (Zlen [s0; s1; s2]) with 3. change (Zlen (e32 [s0; s1; s2])) with 4 in Hl.
    simpl (3 =? _). cbv iota zeta. ld0 Hin. emits. ld0 Hin. ld Hin. emits. ld Hin. emits. ld Hin.
    rewrite put_char by (done || len). by rewrite <- !app_assoc.
  - chars (chars1 s0 ltac:(done)). chars (chars1 s1 ltac:(done)). chars (chars2 s0 s1 ltac:(done) ltac:(done)).
    chars (chars1 s2 ltac:(done)). chars (chars2 s1 s2 ltac:(done) ltac:(done)).
    change (Zlen [s0; s1; s2; s3]) with 4. change (Zlen (e32 [s0; s1; s2; s3])) with 5 in Hl.
    simpl (4 =? _). cbv iota zeta. ld0 Hin. emits. ld0 Hin. ld Hin. emits. ld Hin. emits. ld Hin. ld Hin. emits.
    ld Hin. rewrite put_char by (done || len). by rewrite <- !app_assoc.
Qed.

(** The text of whole groups, and of what follows them. *)
Lemma e32_groups k : forall bs rest, length bs = (5 * k)%nat ->
  e32 (bs ++ rest) = e32 bs ++ e32 rest /\ Zlen (e32 bs) = 8 * Z.of_nat k.
Proof.
  induction k as [|k IH]; intros bs rest Hk; [by destruct bs|].
  destruct bs as [|s0 [|s1 [|s2 [|s3 [|s4 bs]]]]]; try (simpl in Hk; lia).
  destruct (IH bs rest) as [E L]; [simpl in Hk; lia|]. simpl app.
  change (e32 (s0 :: s1 :: s2 :: s3 :: s4 :: ?bs)) with (group32 s0 s1 s2 s3 s4 ++ e32 bs).
  rewrite E, app_assoc, Zlen_app, L. split; [done|]. change (Zlen (group32 s0 s1 s2 s3 s4)) with 8. lia.
Qed.

(** Every input is some groups and a shorter rest. *)
Lemma split5 (bs : list Z) : exists k front rest,
  bs = front ++ rest /\ length front = (5 * k)%nat /\ (length rest < 5)%nat.
Proof.
  exists (length bs / 5)%nat, (take (5 * (length bs / 5)) bs), (drop (5 * (length bs / 5)) bs).
  rewrite take_drop, length_take, length_drop.
  pose proof (Nat.div_mod_eq (length bs) 5). pose proof (Nat.mod_upper_bound (length bs) 5).
  split; [done|]. lia.
Qed.

Lemma e32_rest rest : (length rest < 5)%nat -> 5 * Zlen (e32 rest) <= 8 * Zlen rest + 4.
Proof.
  intros H. destruct rest as [|s0 [|s1 [|s2 [|s3 [|]]]]]; try (simpl in H; lia); lazy; discriminate.
Qed.

Lemma enc32_run bs src : input src bs -> Zlen bs < 2 ^ 27 -> (8 * Zlen bs + 4) / 5 < cap -> cap < 2 ^ 31 ->
  enc32 out cap src (Zlen bs) m = Some (Zlen (e32 bs), wr m out (e32 bs ++ [0])).
Proof.
  intros Hin Hn Hc Hcap. pose proof (Zlen_nonneg bs).
  destruct (split5 bs) as (k & front & rest & -> & Hk & Hr).
  destruct (e32_groups k front rest Hk) as [E L]. pose proof (e32_rest rest Hr). 
  assert (Hf : Zlen front = 5 * Z.of_nat k) by (unfold Zlen; lia). rewrite Zlen_app in *.
  assert (Hroom : Zlen (e32 front) + Zlen (e32 rest) < cap) by (Z.div_mod_to_equations; lia).
  destruct (input_app src front rest Hin) as [_ Hin'].
  unfold enc32. rewrite s32_small by lia. rewrite Z.quot_div_nonneg by lia. zif.
  rewrite <- (wr_nil m out) at 1. rewrite <- (Zlen_app front rest).
  pose proof (enc32_loop_run k front (Z.to_nat (Zlen (front ++ rest))) [] src rest Hk) as W.
  change (Zlen (@nil Z)) with 0 in W. rewrite Z.add_0_r in W. simpl app in W.
  erewrite bind_run by (apply W; [rewrite to_nat_Zlen, length_app; lia|done|done|pose proof (Zlen_nonneg (e32 rest)); lia]).
  cbv beta iota. erewrite bind_run by (apply enc32_tail_run; [done|done|lia]). cbv beta.
  rewrite finish by (rewrite ?Zlen_app; lia). by rewrite E.
Qed.

(** Decoding a group gives its five bytes. *)
Lemma tab32_back js : forallb is5 js = true ->
  map (fun c => idx32 (s8 c)) (map (at_ tab32) js) = js.
Proof.
  induction js as [|j js IH]; simpl; intros H; [done|]. zbool. rewrite IH by done. f_equal.
  unfold is5 in *. zbool. by apply tab32_char.
Qed.

Definition bytes32 (u : list Z) : list Z :=
  [b0_ (at_ u 0) (at_ u 1); b1_ (at_ u 1) (at_ u 2) (at_ u 3); b2_ (at_ u 3) (at_ u 4);
   b3_ (at_ u 4) (at_ u 5) (at_ u 6); b4_ (at_ u 6) (at_ u 7)].

Lemma group32_back s0 s1 s2 s3 s4 : Forall is_byte [s0; s1; s2; s3; s4] ->
  map u8 (bytes32 (map (fun c => idx32 (s8 c)) (group32 s0 s1 s2 s3 s4))) = [s0; s1; s2; s3; s4].
Proof.
  intros Hb. repeat (apply Forall_cons_iff in Hb as [? Hb]). clear Hb.
  pose proof (two_bytes s0 s1 ltac:(done) ltac:(done)) as T1. pose proof (two_bytes s1 s2 ltac:(done) ltac:(done)) as T2.
  pose proof (two_bytes s2 s3 ltac:(done) ltac:(done)) as T3. pose proof (two_bytes s3 s4 ltac:(done) ltac:(done)) as T4.
  pose proof (one_byte s0 ltac:(done)) as O0. pose proof (one_byte s1 ltac:(done)) as O1.
  pose proof (one_byte s3 ltac:(done)) as O3. pose proof (one_byte s4 ltac:(done)) as O4.
  destruct (pieces s1 ltac:(done)) as (P1 & _). destruct (pieces s2 ltac:(done)) as (_ & P2 & _).
  destruct (pieces s3 ltac:(done)) as (_ & _ & P3 & _). destruct (pieces s4 ltac:(done)) as (_ & _ & _ & P4).
  unfold two_ok in *. cbv zeta in *. zbool.
  unfold group32. rewrite tab32_back by (cbn [forallb]; repeat (apply andb_true_intro; split; [done|]); done).
  cbv [bytes32 at_ nth Z.to_nat Pos.to_nat Pos.iter_op Nat.add map]. unfold b1_, b2_, b3_, b4_. 
  congruence.
Qed.

Lemma dec32_loop_run k : forall bs fuel acc src rest,
  length bs = (5 * k)%nat -> (k <= fuel)%nat -> (length rest < 8)%nat -> Forall is_byte bs ->
  input src (e32 bs ++ rest) -> Zlen acc + Zlen bs <= cap ->
  dec32_loop fuel (out + Zlen acc) src (Zlen (e32 bs ++ rest)) (wr m out acc) =
    Some ((out + Zlen (acc ++ bs), src + Zlen (e32 bs), Zlen rest), wr m out (acc ++ bs)).
Proof.
  induction k as [|k IH]; intros bs fuel acc src rest Hk Hf Hr Hb Hin Hl.
  { destruct bs; [|done]. change (e32 []) with (@nil Z). change (Zlen (@nil Z)) with 0.
    rewrite app_nil_r, Z.add_0_r. simpl app. destruct fuel; cbn [dec32_loop]; [done|].
    assert (Zlen rest < 8) by (unfold Zlen; lia). zif. done. }
  destruct fuel as [|fuel]; [lia|].
  destruct bs as [|s0 [|s1 [|s2 [|s3 [|s4 bs]]]]]; try (simpl in Hk; lia).
  change (s0 :: s1 :: s2 :: s3 :: s4 :: bs) with ([s0; s1; s2; s3; s4] ++ bs) in Hb.
  apply Forall_app in Hb as [Hg Hb].
  change (e32 (s0 :: s1 :: s2 :: s3 :: s4 :: bs)) with (group32 s0 s1 s2 s3 s4 ++ e32 bs) in *.
  rewrite <- app_assoc in *. destruct (input_app _ _ _ Hin) as [P Hin'].
  change (Zlen (group32 s0 s1 s2 s3 s4)) with 8 in *.
  assert (Zlen acc + 5 + Zlen bs <= cap) by (revert Hl; len).
  rewrite (Zlen_app (group32 _ _ _ _ _)). change (Zlen (group32 s0 s1 s2 s3 s4)) with 8.
  pose proof (Zlen_nonneg (e32 bs ++ rest)). pose proof (Zlen_nonneg bs).
  cbn [dec32_loop]. zif. rewrite Z.add_simpl_l, P.
  erewrite bind_run by (eapply (u_read_run (group32 s0 s1 s2 s3 s4)); [exact Hin|lia]). cbv beta zeta.
  pose proof (group32_back s0 s1 s2 s3 s4 Hg) as G.
  erewrite bind_run by (apply (puts_acc (bytes32 _)); change (Zlen (bytes32 _)) with 5; lia).
  rewrite G, IH; [|simpl in Hk; lia|lia|done..|rewrite Zlen_app; change (Zlen [s0; s1; s2; s3; s4]) with 5; lia].
  rewrite <- app_assoc, (Zlen_app (group32 _ _ _ _ _)). change (Zlen (group32 s0 s1 s2 s3 s4)) with 8.
  rewrite Z.add_assoc. reflexivity.
Qed.

Lemma e32_small rest : (length rest < 2)%nat ->
  0 <= Zlen (e32 rest) <= 2 * Zlen rest /\ (length (e32 rest) < 8)%nat.
Proof.
  intros H. destruct rest as [|s [|]]; [| |simpl in H; lia].
  - change (e32 []) with (@nil Z). unfold Zlen. simpl length. lia.
  - change (e32 [s]) with [at_ tab32 (j0_ s); at_ tab32 (j1a s)]. unfold Zlen. simpl length. lia.
Qed.

Lemma dec32_tail_run rest acc src : (length rest < 2)%nat -> Forall is_byte rest -> input src (e32 rest) ->
  Zlen acc + Zlen rest <= cap ->
  dec32_tail (out + Zlen acc) src (Zlen (e32 rest)) (wr m out acc) =
    Some (Some (out + Zlen (acc ++ rest)), wr m out (acc ++ rest)).
Proof.
  intros Hr Hb Hin Hl. destruct rest as [|s [|]]; try (simpl in Hr; lia).
  { change (e32 []) with (@nil Z). rewrite app_nil_r. reflexivity. }
  apply Forall_cons_iff in Hb as [Hs _]. change (Zlen (e32 [s])) with 2. change (Zlen [s]) with 1 in Hl.
  pose proof (one_byte s Hs). zbool. unfold dec32_tail.
  change (2 <=? 0) with false. change ((2 =? 1) || (2 =? 3) || (2 =? 6)) with false. change (2 =? 2) with true.
  cbv iota zeta.
  pose proof (u_read_run (e32 [s]) acc src []) as U. rewrite app_nil_r in U.
  erewrite bind_run by (apply U; [done|lia]). change (e32 [s]) with (map (at_ tab32) [j0_ s; j1a s]).
  rewrite tab32_back by (cbn [forallb]; repeat (apply andb_true_intro; split; [done|]); done).
  cbv beta. change (at_ [j0_ s; j1a s] 0) with (j0_ s). change (at_ [j0_ s; j1a s] 1) with (j1a s).
  erewrite bind_run by (apply put_acc; lia). cbv beta iota.
  match goal with H : u8 _ = s |- _ => rewrite H end. done.
Qed.

Lemma dec32_run bs src : Forall is_byte bs -> Zlen bs mod 5 <= 1 -> input src (e32 bs) -> Zlen bs < 2 ^ 27 ->
  Zlen bs <= cap < 2 ^ 31 - 1 ->
  dec32 out cap src (Zlen (e32 bs)) m = Some (Zlen bs, wr m out bs).
Proof.
  intros Hb H5 Hin Hn Hc. pose proof (Zlen_nonneg bs).
  destruct (split5 bs) as (k & front & rest & -> & Hk & Hr).
  destruct (e32_groups k front rest Hk) as [E L].
  assert (Hf : Zlen front = 5 * Z.of_nat k) by (unfold Zlen; lia). rewrite Zlen_app in *.
  assert (Hr1 : (length rest < 2)%nat).
  { assert (Hz : Zlen rest <= 1); [|unfold Zlen in Hz; lia].
    assert (0 <= Zlen rest < 5) by (unfold Zlen; lia). Z.div_mod_to_equations. lia. }
  apply Forall_app in Hb as [Hb1 Hb2]. rewrite E in *.
  pose proof (e32_small rest Hr1) as Hlr.
  destruct Hlr as [Hlr Hl8]. destruct (input_app src _ _ Hin) as [_ Hin'].
  assert (0 <= Zlen rest <= 1) by (unfold Zlen; lia).
  unfold dec32. rewrite Zlen_app, !s32_small, Z.quot_div_nonneg by lia.
  rewrite (proj2 (Z.ltb_ge _ _)) by (Z.div_mod_to_equations; lia). rewrite <- (Zlen_app (e32 front)).
  rewrite <- (wr_nil m out) at 1.
  pose proof (dec32_loop_run k front (Z.to_nat (Zlen (e32 front ++ e32 rest))) [] src (e32 rest) Hk) as W.
  change (Zlen (@nil Z)) with 0 in W. rewrite Z.add_0_r in W. simpl app in W.
  erewrite bind_run by (apply W; [rewrite Zlen_app; lia|done|done|done|lia]). cbv beta iota.
  erewrite bind_run by (apply dec32_tail_run; [done..|lia]). cbv beta iota.
  rewrite Z.add_simpl_l, s32_small by (rewrite Zlen_app; lia). by rewrite Zlen_app.
Qed.

(** ** Base 64 *)

Lemma b24_arith c0 c1 c2 : is_byte c0 -> is_byte c1 -> is_byte c2 ->
  b24_ c0 c1 c2 = c0 * 2 ^ 16 + c1 * 2 ^ 8 + c2.
Proof.
  unfold is_byte. intros H0 H1 H2. unfold b24_. rewrite !Z.shiftl_mul_pow2 by lia.
  rewrite (lor_disjoint c0 (c1 * 2 ^ 8) 16) by lia.
  replace (c0 * 2 ^ 16 + c1 * 2 ^ 8) with ((c0 * 2 ^ 8 + c1) * 2 ^ 8) by lia.
  rewrite (lor_disjoint _ c2 8) by lia. lia.
Qed.

(** Four indices put together again. *)
Lemma join24 a b c d : 0 <= a < 64 -> 0 <= b < 64 -> 0 <= c < 64 -> 0 <= d < 64 ->
  let ab := Z.lor (Z.shiftl a 18) (Z.shiftl b 12) in let abc := Z.lor ab (Z.shiftl c 6) in
  ab = a * 2 ^ 18 + b * 2 ^ 12 /\ abc = a * 2 ^ 18 + b * 2 ^ 12 + c * 2 ^ 6 /\
  Z.lor abc d = a * 2 ^ 18 + b * 2 ^ 12 + c * 2 ^ 6 + d.
Proof.
  intros Ha Hb Hc Hd ab abc.
  assert (E1 : ab = a * 2 ^ 18 + b * 2 ^ 12)
    by (unfold ab; rewrite !Z.shiftl_mul_pow2 by lia; apply (lor_disjoint a (b * 2 ^ 12) 18); lia).
  assert (E2 : abc = a * 2 ^ 18 + b * 2 ^ 12 + c * 2 ^ 6).
  { unfold abc. rewrite E1, Z.shiftl_mul_pow2 by lia.
    replace (a * 2 ^ 18 + b * 2 ^ 12) with ((a * 2 ^ 6 + b) * 2 ^ 12) by lia. apply lor_disjoint; lia. }
  split_and!; [done|done|]. rewrite E2.
  replace (a * 2 ^ 18 + b * 2 ^ 12 + c * 2 ^ 6) with ((a * 2 ^ 12 + b * 2 ^ 6 + c) * 2 ^ 6) by lia.
  apply lor_disjoint; lia.
Qed.

(** The indices of 24 bits. *)
Definition ix64 (b : Z) : list Z :=
  [Z.shiftr b 18; Z.land (Z.shiftr b 12) 0x3f; Z.land (Z.shiftr b 6) 0x3f; Z.land b 0x3f].

Lemma ix64_arith b : 0 <= b < 2 ^ 24 -> exists w x y z, ix64 b = [w; x; y; z] /\
  0 <= w < 64 /\ 0 <= x < 64 /\ 0 <= y < 64 /\ 0 <= z < 64 /\
  w * 2 ^ 18 + x * 2 ^ 12 + y * 2 ^ 6 + z = b.
Proof.
  intros H. unfold ix64. change 0x3f with (Z.ones 6). rewrite !Z.land_ones, !Z.shiftr_div_pow2 by lia.
  do 4 eexists. split; [reflexivity|]. split_and!; Z.div_mod_to_equations; lia.
Qed.

Lemma group64_ix b n : group64 b n = take n (map (at_ t64e) (ix64 b)).
Proof. reflexivity. Qed.

Lemma group64_bytes b n : 0 <= b < 2 ^ 24 -> Forall is_byte (group64 b n).
Proof.
  intros H. destruct (ix64_arith b H) as (w & x & y & z & E & ? & ? & ? & ? & _).
  rewrite group64_ix, E. apply Forall_take. repeat constructor; by apply t64_char.
Qed.

Lemma puts_bytes cs acc : Forall is_byte cs -> Zlen acc + Zlen cs <= cap ->
  puts (out + Zlen acc) cs (wr m out acc) = Some (out + Zlen (acc ++ cs), wr m out (acc ++ cs)).
Proof.
  intros Hc Hl. rewrite puts_acc by done. replace (map u8 cs) with cs; [done|].
  symmetry. induction Hc as [|c cs Hc _ IH]; simpl; [done|]. rewrite u8_small, IH by (apply Hc || (revert Hl; len)). done.
Qed.

Lemma b24_range c0 c1 c2 : is_byte c0 -> is_byte c1 -> is_byte c2 -> 0 <= b24_ c0 c1 c2 < 2 ^ 24.
Proof. intros. rewrite b24_arith by done. unfold is_byte in *. lia. Qed.

Lemma enc64_loop_run k : forall bs acc src rest, length bs = (3 * k)%nat -> input src (bs ++ rest) ->
  Zlen acc + Zlen (e64 bs) < cap ->
  enc64_loop k (out + Zlen acc) (out + cap) src (wr m out acc) =
    Some ((out + Zlen (acc ++ e64 bs), src + Zlen bs, false), wr m out (acc ++ e64 bs)).
Proof.
  induction k as [|k IH]; intros bs acc src rest Hk Hin Hl.
  { destruct bs; [|done]. change (e64 []) with (@nil Z). change (Zlen (@nil Z)) with 0.
    by rewrite app_nil_r, Z.add_0_r. }
  destruct bs as [|c0 [|c1 [|c2 bs]]]; try (simpl in Hk; lia).
  change (e64 (c0 :: c1 :: c2 :: bs)) with (group64 (b24_ c0 c1 c2) 4 ++ e64 bs) in *.
  rewrite Zlen_app in Hl. change (Zlen (group64 (b24_ c0 c1 c2) 4)) with 4 in Hl.
  pose proof (Zlen_nonneg (e64 bs)). pose proof (Zlen_nonneg acc).
  destruct (input_app src [c0; c1; c2] (bs ++ rest) Hin) as [P Hin']. change (Zlen [c0; c1; c2]) with 3 in *.
  pose proof (input_bytes _ _ Hin) as Hb. simpl app in *.
  do 3 (apply Forall_cons_iff in Hb as [? Hb]). clear Hb.
  cbn [enc64_loop]. ld0 Hin. ld Hin. ld Hin. change (Z.lor (Z.lor _ _) _) with (b24_ c0 c1 c2).
  rewrite step_small, Z.geb_leb, P by lia. zif.
  erewrite bind_run by (apply puts_bytes; [by apply group64_bytes, b24_range|change (Zlen (group64 _ 4)) with 4; lia]).
  rewrite (IH bs _ _ rest); [|simpl in Hk; lia|done|rewrite Zlen_app; change (Zlen (group64 _ 4)) with 4; lia].
  rewrite <- app_assoc, (Zlen_app [c0; c1; c2] bs : Zlen (c0 :: c1 :: c2 :: bs) = _), Z.add_assoc. done.
Qed.

Lemma e64_groups k : forall bs rest, length bs = (3 * k)%nat ->
  e64 (bs ++ rest) = e64 bs ++ e64 rest /\ Zlen (e64 bs) = 4 * Z.of_nat k.
Proof.
  induction k as [|k IH]; intros bs rest Hk; [by destruct bs|].
  destruct bs as [|c0 [|c1 [|c2 bs]]]; try (simpl in Hk; lia).
  destruct (IH bs rest) as [E L]; [simpl in Hk; lia|]. simpl app.
  change (e64 (c0 :: c1 :: c2 :: ?bs)) with (group64 (b24_ c0 c1 c2) 4 ++ e64 bs).
  rewrite E, app_assoc, Zlen_app, L. split; [done|]. change (Zlen (group64 (b24_ c0 c1 c2) 4)) with 4. lia.
Qed.

Lemma split3 (bs : list Z) : exists k front rest,
  bs = front ++ rest /\ length front = (3 * k)%nat /\ (length rest < 3)%nat.
Proof.
  exists (length bs / 3)%nat, (take (3 * (length bs / 3)) bs), (drop (3 * (length bs / 3)) bs).
  rewrite take_drop, length_take, length_drop.
  pose proof (Nat.div_mod_eq (length bs) 3). pose proof (Nat.mod_upper_bound (length bs) 3).
  split; [done|]. lia.
Qed.

Lemma b24_zeros c0 c1 : Z.lor (Z.shiftl c0 16) (Z.shiftl c1 8) = b24_ c0 c1 0 /\ Z.shiftl c0 16 = b24_ c0 0 0.
Proof. unfold b24_. rewrite Z.shiftl_0_l, !Z.lor_0_r. done. Qed.

Lemma enc64_tail_run rest acc src n : (length rest < 3)%nat -> Z.rem n 3 = Zlen rest -> input src rest ->
  Zlen acc + Zlen (e64 rest) < cap ->
  enc64_tail (out + Zlen acc) (out + cap) src n (wr m out acc) =
    Some (out + Zlen (acc ++ e64 rest), wr m out (acc ++ e64 rest)).
Proof.
  intros Hr Hn Hin Hl. pose proof (input_bytes _ _ Hin) as Hb. unfold enc64_tail. rewrite Hn.
  pose proof (Zlen_nonneg acc). assert (Hz : is_byte 0) by done. assert (Heq : is_byte 0x3D) by done.
  destruct rest as [|c0 [|c1 [|]]]; try (simpl in Hr; lia); repeat (apply Forall_cons_iff in Hb as [? Hb]); clear Hb.
  - change (e64 []) with (@nil Z). by rewrite app_nil_r.
  - change (Zlen [c0]) with 1. change (Zlen (e64 [c0])) with 4 in Hl. simpl (1 =? _). cbv iota.
    ld0 Hin. cbv zeta. rewrite (proj2 (b24_zeros c0 0)), step_small, Z.geb_leb by lia. zif.
    rewrite puts_bytes; [done| |rewrite Zlen_app; change (Zlen (group64 _ 2)) with 2; change (Zlen [_; _]) with 2; lia].
    apply Forall_app; split; [by apply group64_bytes, b24_range|by repeat constructor].
  - change (Zlen [c0; c1]) with 2. change (Zlen (e64 [c0; c1])) with 4 in Hl. simpl (2 =? _). cbv iota.
    ld0 Hin. ld Hin. cbv zeta. rewrite (proj1 (b24_zeros c0 c1)), step_small, Z.geb_leb by lia. zif.
    rewrite puts_bytes; [done| |rewrite Zlen_app; change (Zlen (group64 _ 3)) with 3; change (Zlen [_]) with 1; lia].
    apply Forall_app; split; [by apply group64_bytes, b24_range|by repeat constructor].
Qed.

Lemma enc64_run bs src : input src bs -> Zlen (e64 bs) < cap -> cap < 2 ^ 31 ->
  enc64 out cap src (Zlen bs) m = Some (Zlen (e64 bs), wr m out (e64 bs ++ [0])).
Proof.
  intros Hin Hl Hc. destruct (split3 bs) as (k & front & rest & -> & Hk & Hr).
  destruct (e64_groups k front rest Hk) as [E L]. rewrite E in *. rewrite Zlen_app in Hl.
  assert (Hn : Zlen (front ++ rest) = 3 * Z.of_nat k + Zlen rest) by (rewrite Zlen_app; unfold Zlen; lia).
  assert (Hrr : 0 <= Zlen rest < 3) by (unfold Zlen; lia). pose proof (Zlen_nonneg (e64 rest)).
  destruct (input_app src front rest Hin) as [_ Hin'].
  unfold enc64. cbv zeta. rewrite at_small by lia.
  replace (Z.to_nat (Zlen (front ++ rest) ÷ 3)) with k
    by (rewrite Hn, Z.quot_div_nonneg by lia; Z.div_mod_to_equations; lia).
  rewrite <- (wr_nil m out) at 1. pose proof (enc64_loop_run k front [] src rest Hk Hin ltac:(change (Zlen (@nil Z)) with 0; lia)) as W.
  change (Zlen (@nil Z)) with 0 in W. rewrite Z.add_0_r in W. simpl app in W. run_with W.
  erewrite bind_run by (apply enc64_tail_run; [done|rewrite Hn, Z.rem_mod_nonneg by lia; Z.div_mod_to_equations; lia|done|lia]).
  apply finish; rewrite ?Zlen_app; lia.
Qed.

(** A character of the table is one step of the decoder. *)
Lemma dec64_char n j rest acc p o e b24 i : 0 <= j < 64 -> input p (at_ t64e j :: rest) -> Zlen acc <= cap ->
  dec64_loop (S n) o e p b24 i (wr m out acc) =
    (if i =? 0 then dec64_loop n o e (p + 1) (Z.shiftl j 18) 1
     else if i =? 1 then dec64_loop n o e (p + 1) (Z.lor b24 (Z.shiftl j 12)) 2
     else if i =? 2 then dec64_loop n o e (p + 1) (Z.lor b24 (Z.shiftl j 6)) 3
     else if o +p 3 >? e then mret (o, b24, i, true)
     else o ← puts o [Z.shiftr (Z.lor b24 j) 16; Z.shiftr (Z.lor b24 j) 8; Z.lor b24 j];
          dec64_loop n o e (p + 1) (Z.lor b24 j) 0) (wr m out acc).
Proof.
  intros Hj Hin Hl. destruct (t64_char j Hj) as [_ E].
  destruct (input_app p [_] rest Hin) as [P _]. change (Zlen [_]) with 1 in P.
  cbn [dec64_loop]. ld0 Hin. cbv zeta. rewrite E, P. rewrite (proj2 (Z.eqb_neq j INVAL)) by (unfold INVAL; lia). done.
Qed.

(** The first characters of a group. *)
Lemma dec64_two n w x rest acc p o e b24 : 0 <= w < 64 -> 0 <= x < 64 ->
  input p (at_ t64e w :: at_ t64e x :: rest) -> Zlen acc <= cap ->
  dec64_loop (S (S n)) o e p b24 0 (wr m out acc) =
    dec64_loop n o e (p + 2) (Z.lor (Z.shiftl w 18) (Z.shiftl x 12)) 2 (wr m out acc) /\ input (p + 2) rest.
Proof.
  intros Hw Hx Hin Hl. destruct (input_app p [_] _ Hin) as [_ Hin1]. destruct (input_app p [_; _] _ Hin) as [_ Hin2].
  change (Zlen [_]) with 1 in *. change (Zlen [_; _]) with 2 in *. split; [|done].
  rewrite (dec64_char _ w _ _ _ _ _ _ _ Hw Hin) by lia. change (0 =? 0) with true. cbv iota.
  rewrite (dec64_char _ x _ _ _ _ _ _ _ Hx Hin1) by lia. by rewrite <- Z.add_assoc.
Qed.

Lemma dec64_three n w x y rest acc p o e b24 : 0 <= w < 64 -> 0 <= x < 64 -> 0 <= y < 64 ->
  input p (at_ t64e w :: at_ t64e x :: at_ t64e y :: rest) -> Zlen acc <= cap ->
  dec64_loop (S (S (S n))) o e p b24 0 (wr m out acc) =
    dec64_loop n o e (p + 3) (Z.lor (Z.lor (Z.shiftl w 18) (Z.shiftl x 12)) (Z.shiftl y 6)) 3 (wr m out acc) /\
  input (p + 3) rest.
Proof.
  intros Hw Hx Hy Hin Hl. destruct (dec64_two (S n) w x _ acc p o e b24 Hw Hx Hin Hl) as [-> Hin1].
  destruct (input_app _ [_] _ Hin1) as [_ Hin2]. change (Zlen [_]) with 1 in *. rewrite <- Z.add_assoc in Hin2. split; [|done].
  rewrite (dec64_char _ y _ _ _ _ _ _ _ Hy Hin1) by lia. by rewrite <- Z.add_assoc.
Qed.

(** The padding is skipped. *)
Lemma dec64_skip n : forall rest acc p o e b24 i, rest = replicate n 0x3D -> input p rest -> Zlen acc <= cap ->
  dec64_loop n o e p b24 i (wr m out acc) = Some ((o, b24, i, false), wr m out acc).
Proof.
  induction n as [|n IH]; intros rest acc p o e b24 i -> Hin Hl; [done|]. simpl in Hin.
  destruct (input_app p [0x3D] _ Hin) as [P Hin']. change (Zlen [_]) with 1 in *.
  cbn [dec64_loop]. ld0 Hin. cbv zeta. rewrite P. change (at_ t64d 61 =? INVAL) with true. cbv iota. by eapply IH.
Qed.

(** The bytes of 24 bits. *)
Lemma b24_bytes c0 c1 c2 : is_byte c0 -> is_byte c1 -> is_byte c2 ->
  map u8 [Z.shiftr (b24_ c0 c1 c2) 16; Z.shiftr (b24_ c0 c1 c2) 8; b24_ c0 c1 c2] = [c0; c1; c2].
Proof.
  intros H0 H1 H2. rewrite b24_arith by done. rewrite !Z.shiftr_div_pow2 by lia. cbn [map].
  unfold is_byte, u8 in *. repeat f_equal; Z.div_mod_to_equations; lia.
Qed.

Lemma dec64_loop_run k : forall n bs acc src rest b24, length bs = (3 * k)%nat -> Forall is_byte bs ->
  input src (e64 bs ++ rest) -> Zlen acc + Zlen bs <= cap ->
  exists b24',
  dec64_loop (length (e64 bs) + n) (out + Zlen acc) (out + cap) src b24 0 (wr m out acc) =
    dec64_loop n (out + Zlen (acc ++ bs)) (out + cap) (src + Zlen (e64 bs)) b24' 0 (wr m out (acc ++ bs)).
Proof.
  induction k as [|k IH]; intros n bs acc src rest b24 Hk Hb Hin Hl.
  { destruct bs; [|done]. exists b24. change (e64 []) with (@nil Z). change (Zlen (@nil Z)) with 0.
    by rewrite app_nil_r, Z.add_0_r. }
  destruct bs as [|c0 [|c1 [|c2 bs]]]; try (simpl in Hk; lia).
  do 3 (apply Forall_cons_iff in Hb as [? Hb]).
  change (e64 (c0 :: c1 :: c2 :: bs)) with (group64 (b24_ c0 c1 c2) 4 ++ e64 bs) in *.
  change (c0 :: c1 :: c2 :: bs) with ([c0; c1; c2] ++ bs) in *. rewrite Zlen_app in Hl. change (Zlen [_; _; _]) with 3 in Hl.
  pose proof (Zlen_nonneg bs). pose proof (Zlen_nonneg acc).
  pose proof (b24_range c0 c1 c2 ltac:(done) ltac:(done) ltac:(done)) as Hr.
  pose proof (b24_bytes c0 c1 c2 ltac:(done) ltac:(done) ltac:(done)) as Hback.
  destruct (ix64_arith _ Hr) as (w & x & y & z & E & Hw & Hx & Hy & Hz & Sum).
  rewrite group64_ix, E in *. destruct (join24 w x y z Hw Hx Hy Hz) as (_ & _ & J). cbv zeta in J. rewrite Sum in J.
  cbn [take map app] in Hin |- *.
  cbn [length Nat.add].
  match goal with |- context [dec64_loop _ ?o ?e] => destruct (dec64_three (S (length (e64 bs) + n)%nat) w x y _ acc src o e b24 Hw Hx Hy Hin ltac:(lia)) as [-> Hin3] end.
  destruct (input_app _ [_] _ Hin3) as [_ Hin4]. change (Zlen [_]) with 1 in *.
  rewrite (dec64_char _ z _ _ _ _ _ _ _ Hz Hin3) by lia. simpl (3 =? _). cbv iota. rewrite J, step_small by lia. zif.
  erewrite bind_run by (apply puts_acc; change (Zlen [_; _; _]) with 3; lia). rewrite Hback.
  destruct (IH n bs (acc ++ [c0; c1; c2]) (src + 3 + 1) rest (b24_ c0 c1 c2)) as [b' IH'];
    [simpl in Hk; lia|done|done|rewrite Zlen_app; change (Zlen [_; _; _]) with 3; lia|].
  exists b'. rewrite IH', <- app_assoc. f_equal. len.
Qed.

(** The last group, of one or two bytes: what the loop leaves, and the bytes
    stored from it. *)
Definition leaves (rest : list Z) : Prop := forall acc src b24, input src (e64 rest) -> Zlen acc + Zlen rest <= cap ->
  exists b i, dec64_loop (length (e64 rest)) (out + Zlen acc) (out + cap) src b24 0 (wr m out acc) =
      Some ((out + Zlen acc, b, i, false), wr m out acc) /\
    dec64_tail (out + Zlen acc) (out + cap) b i (wr m out acc) = Some (out + Zlen (acc ++ rest), wr m out (acc ++ rest)).

Lemma leaves_one c0 : is_byte c0 -> leaves [c0].
Proof.
  intros Hc0 acc src b24 Hin Hl. pose proof (Zlen_nonneg acc). assert (Hz0 : is_byte 0) by done.
  change (e64 [c0]) with (group64 (b24_ c0 0 0) 2 ++ replicate 2 0x3D) in *. change (Zlen [c0]) with 1 in Hl.
  pose proof (b24_range c0 0 0 Hc0 Hz0 Hz0) as R. pose proof (b24_bytes c0 0 0 Hc0 Hz0 Hz0) as Hback.
  destruct (ix64_arith _ R) as (w & x & y & z & E & Hw & Hx & Hy & Hz & Sum).
  rewrite group64_ix, E in *. destruct (join24 w x y z Hw Hx Hy Hz) as (J & _ & _). cbv zeta in J.
  assert (J0 : Z.lor (Z.shiftl w 18) (Z.shiftl x 12) = b24_ c0 0 0).
  { rewrite J, <- Sum. pose proof Sum as S'. rewrite b24_arith in S' by done. lia. }
  exists (b24_ c0 0 0), 2. cbn [take map app length Nat.add replicate] in Hin |- *.
  match goal with |- context [dec64_loop _ ?o ?e] => destruct (dec64_two 2 w x _ acc src o e b24 Hw Hx Hin ltac:(lia)) as [-> Hin2] end.
  rewrite J0, (dec64_skip 2 _ _ _ _ _ _ _ eq_refl Hin2) by lia. split; [done|].
  unfold dec64_tail. change (2 =? 2) with true. cbv iota. rewrite step_small by lia. zif.
  rewrite puts_acc by (change (Zlen [_]) with 1; lia). cbn [map] in *. injection Hback as -> _. done.
Qed.

Lemma leaves_two c0 c1 : is_byte c0 -> is_byte c1 -> leaves [c0; c1].
Proof.
  intros Hc0 Hc1 acc src b24 Hin Hl. pose proof (Zlen_nonneg acc). assert (Hz0 : is_byte 0) by done.
  change (e64 [c0; c1]) with (group64 (b24_ c0 c1 0) 3 ++ replicate 1 0x3D) in *. change (Zlen [c0; c1]) with 2 in Hl.
  pose proof (b24_range c0 c1 0 Hc0 Hc1 Hz0) as R. pose proof (b24_bytes c0 c1 0 Hc0 Hc1 Hz0) as Hback.
  destruct (ix64_arith _ R) as (w & x & y & z & E & Hw & Hx & Hy & Hz & Sum).
  rewrite group64_ix, E in *. destruct (join24 w x y z Hw Hx Hy Hz) as (_ & J & _). cbv zeta in J.
  assert (J0 : Z.lor (Z.lor (Z.shiftl w 18) (Z.shiftl x 12)) (Z.shiftl y 6) = b24_ c0 c1 0).
  { rewrite J, <- Sum. pose proof Sum as S'. rewrite b24_arith in S' by done. lia. }
  exists (b24_ c0 c1 0), 3. cbn [take map app length Nat.add replicate] in Hin |- *.
  match goal with |- context [dec64_loop _ ?o ?e] => destruct (dec64_three 1 w x y _ acc src o e b24 Hw Hx Hy Hin ltac:(lia)) as [-> Hin3] end.
  rewrite J0, (dec64_skip 1 _ _ _ _ _ _ _ eq_refl Hin3) by lia. split; [done|].
  unfold dec64_tail. simpl (3 =? _). cbv iota. rewrite step_small by lia. zif.
  rewrite puts_acc by (change (Zlen [_; _]) with 2; lia). cbn [map] in *. injection Hback as -> -> _. done.
Qed.

Lemma dec64_rest rest : (length rest < 3)%nat -> Forall is_byte rest -> leaves rest.
Proof.
  intros Hr Hb. destruct rest as [|c0 [|c1 [|]]]; try (simpl in Hr; lia).
  - intros acc src b24 _ _. exists b24, 0. rewrite app_nil_r. done.
  - apply leaves_one. by inversion Hb.
  - apply Forall_cons_iff in Hb as [? Hb]. apply leaves_two; [done|by inversion Hb].
Qed.

Lemma dec64_run bs src : Forall is_byte bs -> input src (e64 bs) -> Zlen bs <= cap < 2 ^ 31 ->
  dec64 out cap src (Zlen (e64 bs)) m = Some (Zlen bs, wr m out bs).
Proof.
  intros Hb Hin Hl. destruct (split3 bs) as (k & front & rest & -> & Hk & Hr).
  destruct (e64_groups k front rest Hk) as [E L]. rewrite E in *. apply Forall_app in Hb as [Hb1 Hb2].
  rewrite Zlen_app in Hl. pose proof (Zlen_nonneg front). pose proof (Zlen_nonneg rest).
  destruct (input_app src _ _ Hin) as [_ Hin'].
  unfold dec64. cbv zeta. rewrite at_small, to_nat_Zlen, length_app by lia.
  rewrite <- (wr_nil m out) at 1.
  destruct (dec64_loop_run k (length (e64 rest)) front [] src _ 0 Hk Hb1 Hin ltac:(change (Zlen (@nil Z)) with 0; lia))
    as [b' W].
  change (Zlen (@nil Z)) with 0 in W. rewrite Z.add_0_r in W. simpl app in W.
  destruct (dec64_rest rest Hr Hb2 front _ b' Hin' ltac:(lia)) as (b & i & W2 & W3).
  rewrite W2 in W. run_with W. run_with W3. rewrite Z.add_simpl_l, s32_small by (rewrite Zlen_app; lia). done.
Qed.

End Buffer.

(** * Round trips *)

(** The encoder writes the text of [bs] and a NUL; from memory holding the
    text, the decoder writes [bs]. *)
Definition roundtrips (enc dec : Z -> Z -> Z -> Z -> M Z) (text : list Z -> list Z) (bs : list Z) : Prop :=
  forall m src txt lim back lim',
    mem_ok m -> bytes_at m src bs -> in_mem m txt lim -> in_mem m back lim' ->
    (src + Zlen bs <= txt \/ txt + lim <= src) -> (txt + lim <= back \/ back + lim' <= txt) ->
    Zlen (text bs) < lim < 2 ^ 31 -> Zlen bs <= lim' < 2 ^ 31 - 1 ->
    let m1 := wr m txt (text bs ++ [0]) in
    enc txt lim src (Zlen bs) m = Some (Zlen (text bs), m1) /\
    dec back lim' txt (Zlen (text bs)) m1 = Some (Zlen bs, wr m1 back bs).

Lemma roundtrips_by enc dec text bs :
  (forall m out cap src, mem_ok m -> in_mem m out cap -> input m out cap src bs -> Zlen (text bs) < cap < 2 ^ 31 ->
    enc out cap src (Zlen bs) m = Some (Zlen (text bs), wr m out (text bs ++ [0]))) ->
  (forall m out cap src, mem_ok m -> in_mem m out cap -> Forall is_byte bs -> input m out cap src (text bs) ->
    Zlen bs <= cap < 2 ^ 31 - 1 -> dec out cap src (Zlen (text bs)) m = Some (Zlen bs, wr m out bs)) ->
  (Forall is_byte bs -> Forall is_byte (text bs)) ->
  roundtrips enc dec text bs.
Proof.
  intros Henc Hdec Htext m src txt lim back lim' Hm Hsrc Htxt Hback D1 D2 Hl Hl' m1.
  pose proof (Zlen_nonneg (text bs)). assert (Hin : input m txt lim src bs) by (split; [done|lia]).
  pose proof (input_bytes m Hm txt lim src bs Hin) as Hb.
  assert (Hw : in_mem m txt (Zlen (text bs ++ [0]))) by (rewrite Zlen_app; change (Zlen [0]) with 1; unfold in_mem in *; lia).
  split; [by apply Henc|]. apply Hdec; [|unfold m1; by rewrite in_mem_wr|done| |done].
  - apply mem_ok_wr; [done| |done]. apply Forall_app; split; [by apply Htext|by repeat constructor].
  - split; [|lia]. pose proof (bytes_at_wr m txt _ Hw) as W. by apply bytes_at_app in W as [W _].
Qed.

Lemma e16_bytes bs : Forall is_byte bs -> Forall is_byte (e16 bs).
Proof.
  induction 1 as [|c bs Hc _ IH]; [constructor|]. destruct (t16_digits c Hc) as (? & ? & _).
  change (e16 (c :: bs)) with ([at_ t16e (Z.shiftr c 4); at_ t16e (Z.land c 0xf)] ++ e16 bs).
  apply Forall_app. split; [|done]. constructor; [done|]. constructor; [done|constructor].
Qed.

Lemma at_byte t j : Forall is_byte t -> is_byte (at_ t j).
Proof.
  intros H. unfold at_. destruct (nth_in_or_default (Z.to_nat j) t 0) as [Hi| ->]; [|done].
  rewrite Forall_forall in H. apply H, list_elem_of_In. done.
Qed.

Lemma tab32_bytes js : Forall is_byte (map (at_ tab32) js).
Proof.
  assert (H : Forall is_byte tab32) by (vm_compute; repeat constructor; discriminate).
  apply Forall_map, Forall_true. intros j. by apply at_byte.
Qed.

Lemma e32_bytes bs : Forall is_byte (e32 bs).
Proof.
  destruct (split5 bs) as (k & front & rest & -> & Hk & Hr).
  destruct (e32_groups k front rest Hk) as [-> _]. apply Forall_app. split.
  - clear Hr rest. revert front Hk. induction k as [|k IH]; intros front Hk; [by destruct front|].
    destruct front as [|s0 [|s1 [|s2 [|s3 [|s4 front]]]]]; try (simpl in Hk; lia).
    change (e32 _) with (group32 s0 s1 s2 s3 s4 ++ e32 front). apply Forall_app.
    split; [apply tab32_bytes|apply IH; simpl in Hk; lia].
  - destruct rest as [|s0 [|s1 [|s2 [|s3 [|]]]]]; try (simpl in Hr; lia); apply tab32_bytes || constructor.
Qed.

Lemma e64_bytes bs : Forall is_byte (e64 bs).
Proof.
  assert (H : Forall is_byte t64e) by (vm_compute; repeat constructor; discriminate).
  assert (G : forall b n, Forall is_byte (group64 b n)).
  { intros b n. apply Forall_take. repeat constructor; by apply at_byte. }
  destruct (split3 bs) as (k & front & rest & -> & Hk & Hr).
  destruct (e64_groups k front rest Hk) as [-> _]. apply Forall_app. split.
  - clear Hr rest. revert front Hk. induction k as [|k IH]; intros front Hk; [by destruct front|].
    destruct front as [|c0 [|c1 [|c2 front]]]; try (simpl in Hk; lia).
    change (e64 _) with (group64 (b24_ c0 c1 c2) 4 ++ e64 front). apply Forall_app.
    split; [apply G|apply IH; simpl in Hk; lia].
  - destruct rest as [|c0 [|c1 [|]]]; try (simpl in Hr; lia); [constructor| |];
      (apply Forall_app; split; [apply G|by repeat constructor]).
Qed.

(** C40. Base 16, 32 and 64 invert: into a buffer with room for the text and
    its NUL, the encoder writes exactly the text and returns its length; from
    that text, into a buffer with room for the bytes, the decoder writes the
    bytes and returns their number, and neither touches anything else.  Base 16
    and 64 do so for every input; base 32 for lengths that are a multiple of 5
    or one more, below the size where its length arithmetic overflows. *)
Theorem base_roundtrip bs :
  roundtrips enc16 dec16 e16 bs /\ roundtrips enc64 dec64 e64 bs /\
  (Zlen bs mod 5 <= 1 -> Zlen bs < 2 ^ 27 -> roundtrips enc32 dec32 e32 bs).
Proof.
  split_and!.
  - apply roundtrips_by; [intros; apply enc16_run; done || lia|intros; apply dec16_run; done || lia|apply e16_bytes].
  - apply roundtrips_by; [intros; apply enc64_run; done || lia|intros; apply dec64_run; done || lia|intros; apply e64_bytes].
  - intros H5 Hn. apply roundtrips_by; [|intros; apply dec32_run; done || lia|intros; apply e32_bytes].
    intros m out cap src Hm Hout Hin Hl. apply enc32_run; [done..| |lia].
    destruct (split5 bs) as (k & front & rest & -> & Hk & Hr).
    destruct (e32_groups k front rest Hk) as [E L]. rewrite E, Zlen_app, L in Hl.
    rewrite Zlen_app in *. assert (Zlen front = 5 * Z.of_nat k) by (unfold Zlen; lia).
    destruct rest as [|s [|s1 rest]].
    + change (e32 []) with (@nil Z) in Hl. change (Zlen (@nil Z)) with 0 in *. Z.div_mod_to_equations; lia.
    + change (Zlen (e32 [s])) with 2 in Hl. change (Zlen [s]) with 1 in *. Z.div_mod_to_equations; lia.
    + exfalso. assert (2 <= Zlen (s :: s1 :: rest) < 5) by (unfold Zlen; simpl in *; lia).
      Z.div_mod_to_equations; lia.
Qed.

Definition sample : list Z := [0xDE; 0xAD; 0xBE; 0xEF; 1; 2].
Definition sample_mem : mem := sample ++ replicate 58 0.

Lemma base_roundtrip_witness :
  let m1 := wr sample_mem 8 (e32 sample ++ [0]) in
  e32 sample = map (at_ tab32) [27; 26; 22; 27; 29; 27; 24; 1; 0; 8] /\
  enc32 8 16 0 6 sample_mem = Some (10, m1) /\ dec32 32 8 8 10 m1 = Some (6, wr m1 32 sample).
Proof.
  split; [vm_compute; reflexivity|].
  apply (proj2 (proj2 (base_roundtrip sample))); [vm_compute; discriminate|reflexivity| | | | | | | |].
  - split; [vm_compute; repeat constructor; discriminate|vm_compute; discriminate].
  - split; [repeat split; vm_compute; discriminate|]. intros i Hi. rewrite Z.add_0_l. unfold sample_mem.
    by rewrite lk_app_l by lia.
  - repeat split; vm_compute; discriminate.
  - repeat split; vm_compute; discriminate.
  - left. vm_compute. discriminate.
  - left. vm_compute. discriminate.
  - split; reflexivity.
  - split; [vm_compute; discriminate|reflexivity].
Defined.

(** * What base 32 loses *)

(** The text when two, three or four bytes are left depends on the last byte
    through its high bits only, or not at all. *)
Lemma e32_last front s s' :
  (Zlen front mod 5 = 1 /\ Z.shiftr s 1 = Z.shiftr s' 1) \/ Zlen front mod 5 = 2 \/ Zlen front mod 5 = 3 ->
  e32 (front ++ [s]) = e32 (front ++ [s']).
Proof.
  destruct (split5 front) as (k & groups & rest & -> & Hk & Hr). intros H.
  rewrite <- !app_assoc. rewrite !(proj1 (e32_groups k groups _ Hk)). f_equal.
  assert (Hm : Zlen (groups ++ rest) mod 5 = Zlen rest).
  { rewrite Zlen_app. replace (Zlen groups) with (5 * Z.of_nat k) by (unfold Zlen; lia).
    assert (0 <= Zlen rest < 5) by (unfold Zlen; lia). Z.div_mod_to_equations; lia. }
  rewrite Hm in H. destruct rest as [|s0 [|s1 [|s2 [|s3 [|]]]]]; unfold Zlen in H; simpl in H; try lia; try done.
  destruct H as [[_ H]|H]; [|lia].
  assert (E : j1b s = j1b s' /\ j2_ s = j2_ s').
  { unfold j1b, j2_. change 6 with (1 + 5). rewrite <- !Z.shiftr_shiftr, H by lia. done. }
  destruct E as [E1 E2]. simpl. by rewrite E1, E2.
Qed.

(** [enc32] drops the end of most inputs.  With two bytes past the whole
    groups the low bit of the last byte, with three or four the whole last
    byte, has no influence on the text: inputs that differ only there are
    encoded alike, so that nothing can decode them. *)
Theorem enc32_forgets m m' out cap src front s s' :
  mem_ok m -> mem_ok m' -> in_mem m out cap -> in_mem m' out cap ->
  bytes_at m src (front ++ [s]) -> bytes_at m' src (front ++ [s']) ->
  (src + Zlen front + 1 <= out \/ out + cap <= src) -> Zlen front < 2 ^ 26 ->
  (8 * (Zlen front + 1) + 4) / 5 < cap < 2 ^ 31 ->
  (Zlen front mod 5 = 1 /\ Z.shiftr s 1 = Z.shiftr s' 1) \/ Zlen front mod 5 = 2 \/ Zlen front mod 5 = 3 ->
  exists text,
    enc32 out cap src (Zlen front + 1) m = Some (Zlen text, wr m out (text ++ [0])) /\
    enc32 out cap src (Zlen front + 1) m' = Some (Zlen text, wr m' out (text ++ [0])).
Proof.
  intros Hm Hm' Ho Ho' Hb Hb' Hd Hf Hc H. exists (e32 (front ++ [s])).
  assert (L : forall x, Zlen (front ++ [x]) = Zlen front + 1) by (intros x; by rewrite Zlen_app).
  split.
  - rewrite <- (L s). apply enc32_run; rewrite ?L; try done; try lia. split; [done|rewrite L; lia].
  - rewrite (e32_last front s s' H), <- (L s'). apply enc32_run; rewrite ?L; try done; try lia.
    split; [done|rewrite L; lia].
Qed.

Lemma enc32_forgets_witness :
  exists text, enc32 8 16 0 3 ([1; 2; 3] ++ replicate 29 0) = Some (Zlen text, wr ([1; 2; 3] ++ replicate 29 0) 8 (text ++ [0])) /\
    enc32 8 16 0 3 ([1; 2; 200] ++ replicate 29 0) = Some (Zlen text, wr ([1; 2; 200] ++ replicate 29 0) 8 (text ++ [0])).
Proof.
  assert (B : forall x, 0 <= x < 256 -> mem_ok ([1; 2; x] ++ replicate 29 0) /\ bytes_at ([1; 2; x] ++ replicate 29 0) 0 ([1; 2] ++ [x])).
  { intros x Hx. split; [split; [simpl; repeat constructor; lia|vm_compute; discriminate]|].
    split; [unfold in_mem, Zlen; simpl; lia|]. intros i Hi. rewrite Z.add_0_l.
    change ([1; 2; x] ++ replicate 29 0) with (([1; 2] ++ [x]) ++ replicate 29 0). by rewrite lk_app_l by lia. }
  apply (enc32_forgets _ _ 8 16 0 [1; 2] 3 200); try (by apply B); try (repeat split; vm_compute; discriminate).
  - left. vm_compute. discriminate.
  - right. left. reflexivity.
Defined.
