(* ===== verification/Lock.v ===== *)
(** The spin lock of [libc/port/lock.c]: a count of the processes at the lock
    and a semaphore for those that wait.

    The atomic operations ([libc/wasm/atom.c]) and the two system calls are the
    steps; a process between two of them is at one of the program points [pc].
    [semacquire] takes one from a semaphore that is positive, waiting until it
    is, or is interrupted and answers a negative number; [semrelease] adds one.
    A run is any interleaving of the steps of any number of processes. *)

From S2P Require Import Prelude.

(** * The lock *)

Record Lock := MkLock { key : Z; sem : Z }.

Definition ainc (l : Lock) : Z * Lock := let k := s32 (l.(key) + 1) in (k, MkLock k l.(sem)).
Definition adec (l : Lock) : Z * Lock := let k := s32 (l.(key) - 1) in (k, MkLock k l.(sem)).

(** The semaphore system calls, as [semacquire(&l->sem, 1)] and
    [semrelease(&l->sem, 1)] use them; [None] is to wait. *)
Definition semacquire (l : Lock) : option Lock :=
  if 0 <? l.(sem) then Some (MkLock l.(key) (l.(sem) - 1)) else None.
Definition semrelease (l : Lock) : Lock := MkLock l.(key) (s32 (l.(sem) + 1)).

(** * Program points *)

Inductive pc :=
  | Idle         (* not in a call and without the lock *)
  | Held         (* [lock] has returned, or [canlock] has returned 1 *)
  | Acquiring    (* in the loop of [lock] *)
  | Releasing    (* in [unlock], before [semrelease] *)
  | Undoing      (* in [canlock], before [adec] *)
  | Reposting.   (* in [canlock], before [semrelease] *)

#[export] Instance pc_eq_dec : EqDecision pc.
Proof. solve_decision. Defined.

(** One function per call: the program point after its next step, and the lock
    it leaves; [None] when the step has to wait or does not apply. *)
Definition lock (c : pc) (l : Lock) : option (pc * Lock) :=
  match c with
  | Idle => let '(k, l) := ainc l in Some (if k =? 1 then Held else Acquiring, l)
  | Acquiring => l ← semacquire l; Some (Held, l)
  | _ => None
  end.

Definition unlock (c : pc) (l : Lock) : option (pc * Lock) :=
  match c with
  | Held => let '(k, l) := adec l in Some (if k =? 0 then Idle else Releasing, l)
  | Releasing => Some (Idle, semrelease l)
  | _ => None
  end.

Definition canlock (c : pc) (l : Lock) : option (pc * Lock) :=
  match c with
  | Idle => let '(k, l) := ainc l in Some (if k =? 1 then Held else Undoing, l)
  | Undoing => let '(k, l) := adec l in Some (if k =? 0 then Idle else Reposting, l)
  | Reposting => Some (Idle, semrelease l)
  | _ => None
  end.

(** * Runs *)

Record conf := MkConf { lk : Lock; procs : gmap Z pc }.

Inductive op := Olock | Ounlock | Ocanlock.
Definition op_step (o : op) : pc -> Lock -> option (pc * Lock) :=
  match o with Olock => lock | Ounlock => unlock | Ocanlock => canlock end.

(** Process [p] makes the next step of call [o]. *)
Definition exec (e : Z * op) (c : conf) : option conf :=
  x ← c.(procs) !! e.1;
  '(x', l) ← op_step e.2 x c.(lk);
  Some (MkConf l (<[e.1 := x']> c.(procs))).

Fixpoint execs (es : list (Z * op)) (c : conf) : option conf :=
  match es with [] => Some c | e :: es => c ← exec e c; execs es c end.

(** A zeroed lock that nobody uses yet. *)
Definition fresh (ps : gmap Z pc) : Prop := map_Forall (fun _ x => x = Idle) ps.

(** Runs of programs that only call [lock] and [unlock]. *)
Inductive run (ps : gmap Z pc) : conf -> Prop :=
  | run_start : run ps (MkConf (MkLock 0 0) ps)
  | run_step c p o c' : run ps c -> o <> Ocanlock -> exec (p, o) c = Some c' -> run ps c'.

(** * The invariant *)

Definition at_pc (a x : pc) : Z := if decide (x = a) then 1 else 0.
Definition number (a : pc) (c : conf) : Z := msum (at_pc a) c.(procs).

Record lock_inv (c : conf) : Prop := {
  li_key : c.(lk).(key) = number Held c + number Acquiring c;
  li_one : number Held c + number Releasing c + c.(lk).(sem) = if 0 <? c.(lk).(key) then 1 else 0;
  li_sem : 0 <= c.(lk).(sem);
  li_no_can : number Undoing c = 0 /\ number Reposting c = 0
}.

Lemma at_pc_nonneg a x : 0 <= at_pc a x.
Proof. unfold at_pc. case_decide; lia. Qed.

Lemma number_nonneg a c : 0 <= number a c.
Proof. apply msum_nonneg, at_pc_nonneg. Qed.

Lemma number_set a c p x x' l :
  c.(procs) !! p = Some x ->
  number a (MkConf l (<[p := x']> c.(procs))) = number a c - at_pc a x + at_pc a x'.
Proof. apply msum_set. Qed.

Lemma number_at a c p : c.(procs) !! p = Some a -> 1 <= number a c.
Proof.
  intros H. etrans; [|apply (msum_le (at_pc a) (at_pc_nonneg a) _ p _ H)]. unfold at_pc. by rewrite decide_True.
Qed.

Lemma sum_size (g : pc -> Z) (m : gmap Z pc) : (forall x, g x <= 1) -> msum g m <= Z.of_nat (size m).
Proof.
  intros Hg. induction m as [|k x m Hk IH] using map_ind; [done|].
  rewrite msum_new, map_size_insert_None by done. specialize (Hg x). lia.
Qed.

Lemma msum_add {A} (g h : A -> Z) m : msum (fun x => g x + h x) m = msum g m + msum h m.
Proof. induction m as [|k x m Hk IH] using map_ind; [done|]. rewrite !msum_new by done. lia. Qed.

Lemma number_procs c : number Held c + number Acquiring c <= Z.of_nat (size c.(procs)).
Proof.
  unfold number. rewrite <- msum_add. apply sum_size. intros []; vm_compute; discriminate.
Qed.

(** A step of [lock] or [unlock] by a process preserves the invariant. *)
Lemma lock_exec_inv c p o c' :
  Z.of_nat (size c.(procs)) < 2 ^ 31 - 1 -> o <> Ocanlock ->
  lock_inv c -> exec (p, o) c = Some c' -> lock_inv c' /\ size c'.(procs) = size c.(procs).
Proof.
  intros Hn Ho [Hk H1 Hs [Hu Hr]] He. unfold exec in He. simpl in He.
  destruct (procs c !! p) as [x|] eqn:Hx; simpl in He; [|done].
  destruct (op_step o x (lk c)) as [[x' l]|] eqn:Hop; simpl in He; [|done]. injection He as <-.
  split; [|simpl; by rewrite map_size_insert, Hx].
  pose proof (number_procs c). pose proof (number_at x c p Hx).
  pose proof (number_nonneg Held c). pose proof (number_nonneg Acquiring c). pose proof (number_nonneg Releasing c).
  destruct (lk c) as [k se] eqn:Hl. simpl in *.
  assert (Hset : forall a l, number a (MkConf l (<[p := x']> (procs c))) = number a c - at_pc a x + at_pc a x')
    by (intros; by apply number_set).
  assert (Hw : forall z, 0 <= z < 2 ^ 31 -> s32 z = z) by apply s32_small.
  destruct o; [| |done]; destruct x; try discriminate Hop;
    unfold op_step, lock, unlock, ainc, adec, semacquire, semrelease in Hop; cbn in Hop;
    try (destruct (Z.ltb_spec 0 se); cbn in Hop; [|discriminate Hop]); injection Hop as <- <-;
    rewrite ?(Hw (k + 1)), ?(Hw (k - 1)), ?(Hw (se + 1)) in * by (revert H1; case_match; lia);
    constructor; simpl; rewrite ?Hset;
    repeat match goal with
    | |- context [?a =? ?b] => destruct (Z.eqb_spec a b)
    | |- context [?a <? ?b] => destruct (Z.ltb_spec a b)
    | H : context [?a <? ?b] |- _ => destruct (Z.ltb_spec a b)
    end; unfold at_pc; simpl; lia.
Qed.

Lemma start_inv ps : fresh ps -> lock_inv (MkConf (MkLock 0 0) ps).
Proof.
  intros Hf. assert (Hz : forall a, a <> Idle -> number a (MkConf (MkLock 0 0) ps) = 0).
  { intros a Ha. apply msum_none; [apply at_pc_nonneg|]. intros k x Hx. rewrite (Hf k x Hx).
    unfold at_pc. by rewrite decide_False. }
  constructor; simpl; rewrite ?Hz by done; auto; lia.
Qed.

Lemma run_inv ps c :
  fresh ps -> Z.of_nat (size ps) < 2 ^ 31 - 1 -> run ps c -> lock_inv c /\ size c.(procs) = size ps.
Proof.
  intros Hf Hn. induction 1 as [|c p o c' _ [IH Hsz] Ho He]; [split; [by apply start_inv|done]|].
  rewrite <- Hsz in Hn. destruct (lock_exec_inv c p o c' Hn Ho IH He) as [? ->]. done.
Qed.

Lemma held_once c p q : lock_inv c -> c.(procs) !! p = Some Held -> c.(procs) !! q = Some Held -> p = q.
Proof.
  intros [_ H1 Hs _] Hp Hq. destruct (decide (p = q)) as [|Hne]; [done|exfalso].
  assert (2 <= number Held c).
  { unfold number. rewrite <- (insert_delete_id (procs c) p Held Hp), msum_new by apply lookup_delete_eq.
    pose proof (msum_le (at_pc Held) (at_pc_nonneg Held) (delete p (procs c)) q Held) as Hle.
    rewrite lookup_delete_ne in Hle by done. specialize (Hle Hq). change (at_pc Held Held) with 1 in *. lia. }
  pose proof (number_nonneg Releasing c). destruct (0 <? key (lk c)); lia.
Qed.

(** * Theorems *)

(** C27. Programs that call only [lock] and [unlock]: however their steps
    interleave, two processes never hold the lock at once; and no wakeup is
    lost: while a process waits, another holds the lock or is about to post the
    semaphore, or the semaphore is posted and every waiting process can go on. *)
Theorem lock_excludes (ps : gmap Z pc) (c : conf) :
  fresh ps -> Z.of_nat (size ps) < 2 ^ 31 - 1 -> run ps c ->
  (forall p q, c.(procs) !! p = Some Held -> c.(procs) !! q = Some Held -> p = q) /\
  (forall p, c.(procs) !! p = Some Acquiring ->
     (exists q, c.(procs) !! q = Some Held \/ c.(procs) !! q = Some Releasing) \/
     exists c', exec (p, Olock) c = Some c' /\ c'.(procs) !! p = Some Held).
Proof.
  intros Hf Hn Hr. destruct (run_inv ps c Hf Hn Hr) as [HI _]. split; [intros p q; by apply held_once|].
  intros p Hp. pose proof HI as [Hk H1 Hs _]. pose proof (number_at _ _ _ Hp).
  pose proof (number_nonneg Held c). destruct (Z.ltb_spec 0 (key (lk c))); [|lia].
  assert (Hsome : forall a, 0 < number a c -> exists q, c.(procs) !! q = Some a).
  { intros a Ha. destruct (msum_pos (at_pc a) (at_pc_nonneg a) _ Ha) as (q & x & Hq & Hx). exists q. rewrite Hq.
    unfold at_pc in Hx. case_decide; [by subst|lia]. }
  destruct (decide (0 < number Held c)) as [Hh|Hh]; [left; destruct (Hsome _ Hh) as [q Hq]; exists q; by left|].
  destruct (decide (0 < number Releasing c)) as [Hh'|Hh']; [left; destruct (Hsome _ Hh') as [q Hq]; exists q; by right|].
  right. pose proof (number_nonneg Releasing c). unfold exec. simpl. rewrite Hp. simpl. unfold semacquire.
  destruct (Z.ltb_spec 0 (sem (lk c))); [|lia]. simpl. eexists. split; [done|]. simpl. apply lookup_insert_eq.
Qed.

(** Three processes at a fresh lock. *)
Definition ex_procs : gmap Z pc := {[ 1 := Idle; 2 := Idle; 3 := Idle ]}.

(** A [canlock] that fails posts the semaphore although nobody waits, so
    the next [lock] finds the count above one, takes the stray post and returns
    while the first holder still has the lock. *)
Theorem canlock_breaks_exclusion :
  exists c, execs [(1, Olock); (2, Ocanlock); (2, Ocanlock); (2, Ocanlock); (3, Olock); (3, Olock)]
      (MkConf (MkLock 0 0) ex_procs) = Some c /\
    c.(procs) !! 1 = Some Held /\ c.(procs) !! 2 = Some Idle /\ c.(procs) !! 3 = Some Held.
Proof. eexists. split; [vm_compute; reflexivity|]. done. Qed.

Definition ex_conf : conf := MkConf (MkLock 2 0) {[ 1 := Held; 2 := Acquiring; 3 := Idle ]}.

Lemma execs_run ps es c c' :
  run ps c -> Forall (fun e => e.2 <> Ocanlock) es -> execs es c = Some c' -> run ps c'.
Proof.
  intros Hr Hes. revert c Hr. induction Hes as [|[p o] es Ho _ IH]; intros c Hr He; [by injection He as <-|].
  simpl in He. destruct (exec (p, o) c) as [c1|] eqn:E; simpl in He; [|done].
  eapply IH; [|exact He]. by eapply run_step.
Qed.

Lemma ex_run : run ex_procs ex_conf.
Proof.
  apply (execs_run _ [(1, Olock); (2, Olock)] _ _ (run_start _)); [by repeat constructor|vm_compute; reflexivity].
Qed.

Lemma lock_excludes_witness :
  (exists q, ex_conf.(procs) !! q = Some Held \/ ex_conf.(procs) !! q = Some Releasing) \/
  exists c', exec (2, Olock) ex_conf = Some c' /\ c'.(procs) !! 2 = Some Held.
Proof.
  apply (lock_excludes ex_procs ex_conf); [|by vm_compute|exact ex_run|done].
  intros k x. unfold ex_procs. rewrite !lookup_insert_Some, lookup_singleton_Some. naive_solver.
Defined.
