(* ===== verification/QLock.v ===== *)
(** Queueing locks, reader-writer locks and condition variables of
    [libc/9sys/qlock.c].

    A process that must wait takes a slot from a table of 1024 shared by every
    lock, links it into the queue of the lock and meets its waker by a
    [rendezvous] on the slot's address.  What a call does between [lock] and
    [unlock] of the structure's spin lock is one step ([Lock.v]); [wunlock]
    alone keeps the spin lock over several rendezvous, so that lock's state is
    part of an [RWLock].  Between steps a process is at a program point [pc].
    [rendezvous] is the kernel's: two processes that call it with the same tag
    meet and both go on, or a call is interrupted and answers [~0].

    No lock guards the table of slots: processes that hold the spin locks of
    different locks scan it at the same time, and slots are given back at any
    moment.  [getqlp] is the function as written, for a scan that nothing
    disturbs; in the steps of concurrent processes a scan is [getqlp_race],
    whose outcome the event chooses: any slot that is free at that moment, or
    none.  [QLockScan.v] runs the scans one [_tas] at a time and shows that
    this is what they come to. *)

From S2P Require Import Prelude Eff.

(** * Data *)

Definition nelem_ql : Z := 1024.

Definition Queuing : Z := 0.
Definition QueuingR : Z := 1.
Definition QueuingW : Z := 2.
Definition Sleeping : Z := 3.

Record QLp := MkQLp { inuse : Z; next : option Z; state : Z }.
Record QLock := MkQLock { locked : Z; head : option Z; tail : option Z }.
(** [rwlk]: the spin lock is kept between steps. *)
Record RWLock := MkRWLock { rwlk : bool; readers : Z; writer : Z; rwhead : option Z; rwtail : option Z }.
Record Rendez := MkRendez { rzl : option Z; rzhead : option Z; rztail : option Z }.

(** The slots [ql.x] by index, the cursor [ql.p], and the locks by address. *)
Record World := MkWorld {
  ql_x : gmap Z QLp;
  ql_p : Z;
  qlocks : gmap Z QLock;
  rwlocks : gmap Z RWLock;
  rendezes : gmap Z Rendez
}.

(** The table as it is at the start: nothing in use. *)
Definition slots0 : gmap Z QLp := list_to_map ((fun p => (p, MkQLp 0 None 0)) <$> seqZ 0 nelem_ql).

(** What a call acquires: a queueing lock, or a reader-writer lock to read or
    to write. *)
Inductive res := HQ (q : Z) | HR (q : Z) | HW (q : Z).

#[export] Instance res_eq_dec : EqDecision res.
Proof. solve_decision. Defined.

(** Where a process is between its steps: outside the calls, with the value of
    the last one; in the rendezvous on its own slot [mp], waiting for [g]; past
    it, before [mp->inuse = 0]; in the rendezvous on the slot [p] of the process
    to which it hands [g], after which [rsleep] waits on its own slot [me]; in
    the loop of [wunlock]; and in the loop of [rwakeupall]. *)
Inductive pc :=
  | Run (v : Z)
  | Wait (mp : Z) (g : res)
  | Clear (mp : Z) (g : res)
  | Wake (p : Z) (g : res) (me : option Z)
  | Drain (q p : Z)
  | Again (r i : Z).

(** A step ends the call with a value, having acquired something or not, or
    goes to a program point inside it. *)
Inductive after := Ret (v : Z) (got : option res) | Go (c : pc).

(** * Fields *)

Definition putx (p : Z) (x : QLp) : eff World unit := modify (fun w =>
  MkWorld (<[p := x]> w.(ql_x)) w.(ql_p) w.(qlocks) w.(rwlocks) w.(rendezes)).
Definition putp (p : Z) : eff World unit := modify (fun w =>
  MkWorld w.(ql_x) p w.(qlocks) w.(rwlocks) w.(rendezes)).
Definition putq (q : Z) (l : QLock) : eff World unit := modify (fun w =>
  MkWorld w.(ql_x) w.(ql_p) (<[q := l]> w.(qlocks)) w.(rwlocks) w.(rendezes)).
Definition putrw (q : Z) (l : RWLock) : eff World unit := modify (fun w =>
  MkWorld w.(ql_x) w.(ql_p) w.(qlocks) (<[q := l]> w.(rwlocks)) w.(rendezes)).
Definition putz (r : Z) (z : Rendez) : eff World unit := modify (fun w =>
  MkWorld w.(ql_x) w.(ql_p) w.(qlocks) w.(rwlocks) (<[r := z]> w.(rendezes))).

Definition setinuse (p v : Z) : eff World unit :=
  x ← deref ql_x p; putx p (MkQLp v x.(next) x.(state)).
Definition setnext (p : Z) (n : option Z) : eff World unit :=
  x ← deref ql_x p; putx p (MkQLp x.(inuse) n x.(state)).
Definition setstate (p v : Z) : eff World unit :=
  x ← deref ql_x p; putx p (MkQLp x.(inuse) x.(next) v).

(** * Slots *)

(** [_tas(&(p->inuse))] *)
Definition tas_inuse (p : Z) : eff World Z :=
  x ← deref ql_x p; setinuse p 0xdeadead;; mret x.(inuse).

Fixpoint getqlp_loop (fuel : nat) (p op : Z) : eff World Z :=
  match fuel with
  | O => fault
  | S fuel =>
      let p := if p =? nelem_ql then 0 else p in
      if p =? op then abort else
      old ← tas_inuse p;
      if old =? 0 then putp p;; setnext p None;; mret p
      else getqlp_loop fuel (p + 1) op
  end.

(** The scan comes back to where it began after at most 1024 slots. *)
Definition getqlp : eff World Z :=
  op ← gets ql_p; getqlp_loop (Z.to_nat nelem_ql) (op + 1) op.

(** A scan among others, as its outcome [s] was: the slot that it found free
    and took, or none, after which it came back to where it began. *)
Definition getqlp_race (s : option Z) : eff World Z :=
  match s with
  | None => abort
  | Some p =>
      old ← tas_inuse p;
      if old =? 0 then putp p;; setnext p None;; mret p else fault
  end.

(** "Chain into waiting list": the new ends of the queue. *)
Definition chain_in (h t : option Z) (mp : Z) : eff World (option Z * option Z) :=
  match t with
  | None => mret (Some mp, Some mp)
  | Some p => setnext p (Some mp);; mret (h, Some mp)
  end.

(** Take the first waiter [p] off: the new ends of the queue. *)
Definition chain_out (p : Z) (t : option Z) : eff World (option Z * option Z) :=
  x ← deref ql_x p;
  mret (x.(next), match x.(next) with None => None | Some _ => t end).

(** * Queueing locks *)

Definition qlock (s : option Z) (q : Z) : eff World after :=
  l ← deref qlocks q;
  if l.(locked) =? 0 then putq q (MkQLock 1 l.(head) l.(tail));; mret (Ret 0 (Some (HQ q))) else
  mp ← getqlp_race s;
  '(h, t) ← chain_in l.(head) l.(tail) mp;
  putq q (MkQLock l.(locked) h t);;
  setstate mp Queuing;;
  mret (Go (Wait mp (HQ q))).

(** Unlocking a lock that is not held only prints a message. *)
Definition qunlock (q : Z) : eff World after :=
  l ← deref qlocks q;
  match l.(head) with
  | Some p =>
      '(h, t) ← chain_out p l.(tail);
      putq q (MkQLock l.(locked) h t);;
      mret (Go (Wake p (HQ q) None))
  | None => putq q (MkQLock 0 l.(head) l.(tail));; mret (Ret 0 None)
  end.

(** [free]: whether [canlock] found the spin lock free.  What a [canlock] that
    fails does to the spin lock is in [Lock.v]; it leaves [q] alone. *)
Definition canqlock (free : bool) (q : Z) : eff World after :=
  if negb free then mret (Ret 0 None) else
  l ← deref qlocks q;
  if l.(locked) =? 0 then putq q (MkQLock 1 l.(head) l.(tail));; mret (Ret 1 (Some (HQ q)))
  else mret (Ret 0 None).

(** * Reader-writer locks *)

Definition nil (o : option Z) : bool := match o with None => true | Some _ => false end.

Definition rlock (s : option Z) (q : Z) : eff World after :=
  l ← deref rwlocks q;
  if (l.(writer) =? 0) && nil l.(rwhead) then
    putrw q (MkRWLock l.(rwlk) (s32 (l.(readers) + 1)) l.(writer) l.(rwhead) l.(rwtail));;
    mret (Ret 0 (Some (HR q)))
  else
  mp ← getqlp_race s;
  '(h, t) ← chain_in l.(rwhead) l.(rwtail) mp;
  putrw q (MkRWLock l.(rwlk) l.(readers) l.(writer) h t);;
  setnext mp None;;
  setstate mp QueuingR;;
  mret (Go (Wait mp (HR q))).

Definition canrlock (q : Z) : eff World after :=
  l ← deref rwlocks q;
  if (l.(writer) =? 0) && nil l.(rwhead) then
    putrw q (MkRWLock l.(rwlk) (s32 (l.(readers) + 1)) l.(writer) l.(rwhead) l.(rwtail));;
    mret (Ret 1 (Some (HR q)))
  else mret (Ret 0 None).

Definition runlock (q : Z) : eff World after :=
  l ← deref rwlocks q;
  if l.(readers) <=? 0 then abort else
  let n := l.(readers) - 1 in
  match l.(rwhead) with
  | None => putrw q (MkRWLock l.(rwlk) n l.(writer) l.(rwhead) l.(rwtail));; mret (Ret 0 None)
  | Some p =>
      if 0 <? n then putrw q (MkRWLock l.(rwlk) n l.(writer) l.(rwhead) l.(rwtail));; mret (Ret 0 None) else
      x ← deref ql_x p;
      if negb (x.(state) =? QueuingW) then abort else
      '(h, t) ← chain_out p l.(rwtail);
      putrw q (MkRWLock l.(rwlk) n 1 h t);;
      mret (Go (Wake p (HW q) None))
  end.

Definition wlock (s : option Z) (q : Z) : eff World after :=
  l ← deref rwlocks q;
  if (l.(readers) =? 0) && (l.(writer) =? 0) then
    putrw q (MkRWLock l.(rwlk) l.(readers) 1 l.(rwhead) l.(rwtail));; mret (Ret 0 (Some (HW q)))
  else
  mp ← getqlp_race s;
  '(h, t) ← chain_in l.(rwhead) l.(rwtail) mp;
  putrw q (MkRWLock l.(rwlk) l.(readers) l.(writer) h t);;
  setnext mp None;;
  setstate mp QueuingW;;
  mret (Go (Wait mp (HW q))).

Definition canwlock (q : Z) : eff World after :=
  l ← deref rwlocks q;
  if (l.(readers) =? 0) && (l.(writer) =? 0) then
    putrw q (MkRWLock l.(rwlk) l.(readers) 1 l.(rwhead) l.(rwtail));; mret (Ret 1 (Some (HW q)))
  else mret (Ret 0 None).

(** From the test of the loop that wakes readers to its next rendezvous, with
    the spin lock kept, or to the end of the call. *)
Definition wunlock_loop (q : Z) : eff World after :=
  l ← deref rwlocks q;
  let fin := putrw q (MkRWLock false l.(readers) 0 l.(rwhead) (if nil l.(rwhead) then None else l.(rwtail)));;
             mret (Ret 0 None) in
  match l.(rwhead) with
  | None => fin
  | Some p =>
      x ← deref ql_x p;
      if x.(state) =? QueuingR then
        putrw q (MkRWLock true (s32 (l.(readers) + 1)) l.(writer) x.(next) l.(rwtail));;
        mret (Go (Drain q p))
      else fin
  end.

Definition wunlock (q : Z) : eff World after :=
  l ← deref rwlocks q;
  if l.(writer) =? 0 then abort else
  match l.(rwhead) with
  | None => putrw q (MkRWLock l.(rwlk) l.(readers) 0 l.(rwhead) l.(rwtail));; mret (Ret 0 None)
  | Some p =>
      x ← deref ql_x p;
      if x.(state) =? QueuingW then
        '(h, t) ← chain_out p l.(rwtail);
        putrw q (MkRWLock l.(rwlk) l.(readers) l.(writer) h t);;
        mret (Go (Wake p (HW q) None))
      else if negb (x.(state) =? QueuingR) then abort
      else wunlock_loop q
  end.

(** * Sleeping and waking *)

Definition rsleep (s : option Z) (r : Z) : eff World after :=
  z ← deref rendezes r;
  match z.(rzl) with
  | None => abort
  | Some q =>
      l ← deref qlocks q;
      if l.(locked) =? 0 then abort else
      me ← getqlp_race s;
      setstate me Sleeping;;
      h ← (if nil z.(rzhead) then mret (Some me)
           else t ← nonnil z.(rztail); setnext t (Some me);; mret z.(rzhead));
      setnext me None;;
      putz r (MkRendez z.(rzl) h (Some me));;
      match l.(head) with
      | Some t =>
          '(h, tl) ← chain_out t l.(tail);
          putq q (MkQLock l.(locked) h tl);;
          mret (Go (Wake t (HQ q) (Some me)))
      | None => putq q (MkQLock 0 l.(head) l.(tail));; mret (Go (Wait me (HQ q)))
      end
  end.

Definition rwakeup (r : Z) : eff World Z :=
  z ← deref rendezes r;
  match z.(rzl) with
  | None => abort
  | Some q =>
      l ← deref qlocks q;
      if l.(locked) =? 0 then abort else
      match z.(rzhead) with
      | None => mret 0
      | Some t =>
          '(h, tl) ← chain_out t z.(rztail);
          putz r (MkRendez z.(rzl) h tl);;
          setnext t l.(head);;
          putq q (MkQLock l.(locked) (Some t) (match l.(tail) with None => Some t | Some _ => l.(tail) end));;
          setstate t Queuing;;
          mret 1
      end
  end.

(** One turn of the loop of [rwakeupall]. *)
Definition rwakeupall (r i : Z) : eff World after :=
  v ← rwakeup r;
  mret (if v =? 0 then Ret i None else Go (Again r (s32 (i + 1)))).

(** * Processes *)

(** [own]: who has what. *)
Record conf := MkConf { world : World; pcs : gmap Z pc; own : list (Z * res) }.

Inductive call :=
  | Cqlock (q : Z) | Cqunlock (q : Z) | Ccanqlock (free : bool) (q : Z)
  | Crlock (q : Z) | Ccanrlock (q : Z) | Crunlock (q : Z)
  | Cwlock (q : Z) | Ccanwlock (q : Z) | Cwunlock (q : Z)
  | Crsleep (r : Z) | Crwakeup (r : Z) | Crwakeupall (r : Z).

(** The step at which a call begins; [s] is the outcome of its scan for a slot,
    if it makes one. *)
Definition enter (s : option Z) (k : call) : eff World after :=
  match k with
  | Cqlock q => qlock s q
  | Cqunlock q => qunlock q
  | Ccanqlock free q => canqlock free q
  | Crlock q => rlock s q
  | Ccanrlock q => canrlock q
  | Crunlock q => runlock q
  | Cwlock q => wlock s q
  | Ccanwlock q => canwlock q
  | Cwunlock q => wunlock q
  | Crsleep r => rsleep s r
  | Crwakeup r => v ← rwakeup r; mret (Ret v None)
  | Crwakeupall r => rwakeupall r 0
  end.

(** What the caller gives up. *)
Definition gives (k : call) (w : World) : option res :=
  match k with
  | Cqunlock q => Some (HQ q)
  | Crunlock q => Some (HR q)
  | Cwunlock q => Some (HW q)
  | Crsleep r => z ← w.(rendezes) !! r; q ← z.(rzl); Some (HQ q)
  | _ => None
  end.

Fixpoint remove1 (x : Z * res) (l : list (Z * res)) : list (Z * res) :=
  match l with
  | [] => []
  | y :: l => if decide (y = x) then l else y :: remove1 x l
  end.

Definition gain (t : Z) (got : option res) (l : list (Z * res)) : list (Z * res) :=
  match got with Some g => (t, g) :: l | None => l end.
Definition lose (t : Z) (lost : option res) (l : list (Z * res)) : list (Z * res) :=
  match lost with Some g => remove1 (t, g) l | None => l end.

(** The process [t] is where [a] says. *)
Definition settled (t : Z) (a : after) (c : conf) : conf :=
  match a with
  | Ret v got => MkConf c.(world) (<[t := Run v]> c.(pcs)) (gain t got c.(own))
  | Go x => MkConf c.(world) (<[t := x]> c.(pcs)) c.(own)
  end.
Definition settle (t : Z) (a : after) : eff conf unit := modify (settled t a).

Definition inworld {A} (f : eff World A) : eff conf A := fun c =>
  match f c.(world) with
  | Ok (x, w) => Ok (x, MkConf w c.(pcs) c.(own))
  | Abort => Abort
  | Fault => Fault
  end.

(** The tag a process is in [rendezvous] with. *)
Definition tag (x : pc) : option Z :=
  match x with Wait p _ | Wake p _ _ | Drain _ p => Some p | _ => None end.

(** A process goes on after its rendezvous. *)
Definition resume (x : pc) : eff World after :=
  match x with
  | Wait mp g => mret (Go (Clear mp g))
  | Wake p g None => mret (Ret 0 None)
  | Wake p g (Some me) => mret (Go (Wait me g))
  | Drain q p => wunlock_loop q
  | _ => mret (Go x)
  end.

Inductive event :=
  | Call (t : Z) (k : call) (s : option Z)
  | Meet (t u : Z)       (* two processes in rendezvous with one tag *)
  | Interrupt (t : Z)    (* rendezvous answers [~0] *)
  | Free (t : Z)         (* [mp->inuse = 0] *)
  | Loop (t : Z).        (* the next turn of [rwakeupall] *)

Definition exec (e : event) : eff conf unit :=
  match e with
  | Call t k s =>
      modify (fun c => MkConf c.(world) c.(pcs) (lose t (gives k c.(world)) c.(own)));;
      a ← inworld (enter s k); settle t a
  | Meet t u =>
      x ← deref pcs t; y ← deref pcs u;
      a ← inworld (resume x); b ← inworld (resume y);
      settle t a;; settle u b
  | Interrupt t => mret tt
  | Free t =>
      x ← deref pcs t;
      match x with
      | Clear mp g => inworld (setinuse mp 0);; settle t (Ret 0 (Some g))
      | _ => fault
      end
  | Loop t =>
      x ← deref pcs t;
      match x with
      | Again r i => a ← inworld (rwakeupall r i); settle t a
      | _ => fault
      end
  end.
