(* ===== verification/QLockInv.v ===== *)
(** The invariant of the locks of [qlock.c].

    The queues of all locks are the projections of one ghost list of entries
    [(queue, (slot, what is waited for))].  The invariant has four parts: the
    slots in use are those of processes inside a waiting call, one each; the
    processes that sleep are those in a queue and those to which a waker is
    already on its way; each queue is the linked list that its lock's [head],
    [tail] and the slots' [next] describe; and the counters of each lock count
    what processes have, or are being handed. *)

From S2P Require Import Prelude Eff QLock.

(** * Sums over lists *)

Fixpoint lsum {A} (f : A -> Z) (l : list A) : Z :=
  match l with [] => 0 | x :: l => f x + lsum f l end.

Lemma lsum_app {A} (f : A -> Z) l k : lsum f (l ++ k) = lsum f l + lsum f k.
Proof. induction l as [|x l IH]; simpl; [done|]. rewrite IH. lia. Qed.

Lemma lsum_nonneg {A} (f : A -> Z) l : (forall x, 0 <= f x) -> 0 <= lsum f l.
Proof. intros Hf. induction l as [|x l IH]; simpl; [done|]. specialize (Hf x). lia. Qed.

Lemma lsum_elem {A} (f : A -> Z) l x : (forall y, 0 <= f y) -> x ∈ l -> f x <= lsum f l.
Proof.
  intros Hf. induction 1 as [x l|x y l _ IH]; simpl.
  - pose proof (lsum_nonneg f l Hf). lia.
  - specialize (Hf y). lia.
Qed.

Lemma lsum_pos {A} (f : A -> Z) l : 0 < lsum f l -> exists x, x ∈ l /\ 0 < f x.
Proof.
  induction l as [|x l IH]; simpl; [lia|]. intros H. destruct (decide (0 < f x)) as [Hx|Hx].
  - exists x. split; [by constructor|done].
  - destruct IH as (y & Hy & ?); [lia|]. exists y. split; [by constructor|done].
Qed.

Lemma lsum_const {A} (l : list A) : lsum (fun _ => 1) l = Zlen l.
Proof. induction l as [|x l IH]; simpl; [done|]. rewrite Zlen_cons, IH. lia. Qed.

Definition one {A} `{EqDecision A} (a b : A) : Z := if decide (b = a) then 1 else 0.
Lemma one_nonneg {A} `{EqDecision A} (a b : A) : 0 <= one a b.
Proof. unfold one. case_decide; lia. Qed.
Lemma one_same {A} `{EqDecision A} (a : A) : one a a = 1.
Proof. unfold one. by rewrite decide_True. Qed.
Lemma one_ne {A} `{EqDecision A} (a b : A) : b <> a -> one a b = 0.
Proof. intros. unfold one. by rewrite decide_False. Qed.

(** The weight of what may be missing. *)
Definition wt {A} (f : A -> Z) (o : option A) : Z := match o with Some x => f x | None => 0 end.
Lemma wt_nonneg {A} (f : A -> Z) o : (forall x, 0 <= f x) -> 0 <= wt f o.
Proof. intros Hf. destruct o; [apply Hf|done]. Qed.

#[export] Hint Resolve one_nonneg wt_nonneg : width.
(** A weight is not negative. *)
Ltac nn := solve [intros; cbv beta; auto with width].

Lemma lsum_remove1 f x l : x ∈ l -> lsum f (remove1 x l) = lsum f l - f x.
Proof.
  induction 1 as [x l|x y l _ IH]; simpl.
  - rewrite decide_True by done. lia.
  - case_decide as Hd; [subst; lia|]. simpl. lia.
Qed.

Lemma elem_remove1 x y l : y <> x -> y ∈ l -> y ∈ remove1 x l.
Proof.
  intros Hne. induction 1 as [y l|y z l Hy IH]; simpl.
  - rewrite decide_False by done. by constructor.
  - case_decide; [done|]. constructor. by apply IH.
Qed.

Lemma msum_two {A} (g : A -> Z) m k k' x y :
  (forall x, 0 <= g x) -> k <> k' -> m !! k = Some x -> m !! k' = Some y -> g x + g y <= msum g m.
Proof.
  intros Hg Hne Hx Hy. rewrite <- (insert_delete_id m k x Hx), msum_new by apply lookup_delete_eq.
  pose proof (msum_le g Hg (delete k m) k' y) as Hle. rewrite lookup_delete_ne in Hle by done. specialize (Hle Hy). lia.
Qed.

Lemma msum_mono {A} (g h : A -> Z) m : (forall x, g x <= h x) -> msum g m <= msum h m.
Proof.
  intros Hg. induction m as [|k x m Hk IH] using map_ind; [done|]. rewrite !msum_new by done. specialize (Hg x). lia.
Qed.

Lemma msum_one {A} (m : gmap Z A) : msum (fun _ => 1) m = Z.of_nat (size m).
Proof.
  induction m as [|k x m Hk IH] using map_ind; [done|]. rewrite msum_new, map_size_insert_None, IH by done. lia.
Qed.

(** * Queues *)

Inductive qid := IQ (q : Z) | IW (q : Z) | IS (r : Z).
#[export] Instance qid_eq_dec : EqDecision qid.
Proof. solve_decision. Defined.

Notation ent := (Z * res)%type.

Fixpoint Qof (i : qid) (Q : list (qid * ent)) : list ent :=
  match Q with
  | [] => []
  | (j, e) :: Q => if decide (j = i) then e :: Qof i Q else Qof i Q
  end.

Lemma Qof_app i Q Q' : Qof i (Q ++ Q') = Qof i Q ++ Qof i Q'.
Proof. induction Q as [|[j e] Q IH]; simpl; [done|]. rewrite IH. by case_decide. Qed.

Lemma Qof_elem i e Q : e ∈ Qof i Q <-> (i, e) ∈ Q.
Proof.
  induction Q as [|[j d] Q IH]; simpl; [split; intros H; inversion H|].
  rewrite elem_of_cons. case_decide as Hj; rewrite ?elem_of_cons, IH; naive_solver.
Qed.

Lemma Qof_snoc_same i e Q : Qof i (Q ++ [(i, e)]) = Qof i Q ++ [e].
Proof. rewrite Qof_app. simpl. by rewrite decide_True. Qed.
Lemma Qof_snoc_other i j e Q : j <> i -> Qof i (Q ++ [(j, e)]) = Qof i Q.
Proof. intros. rewrite Qof_app. simpl. rewrite decide_False by done. by rewrite app_nil_r. Qed.

(** The first of a queue leaves. *)
Lemma pop_spec i e l Q : Qof i Q = e :: l ->
  exists Q', Qof i Q' = l /\ (forall j, j <> i -> Qof j Q' = Qof j Q) /\
    (forall f : ent -> Z, lsum (fun d => f d.2) Q = f e + lsum (fun d => f d.2) Q') /\ (forall d, d ∈ Q' -> d ∈ Q).
Proof.
  induction Q as [|[j d] Q IH]; simpl; [done|]. case_decide as Hj.
  - intros [= -> <-]. exists Q. split_and!; [done| |done|by constructor].
    intros k Hk. rewrite decide_False by congruence. done.
  - intros H. destruct (IH H) as (Q' & H1 & H2 & H3 & H4). exists ((j, d) :: Q'). simpl.
    rewrite decide_False by done. split_and!; [done| | |].
    + intros k Hk. case_decide; [f_equal|]; by apply H2.
    + intros f. rewrite H3. lia.
    + intros x. rewrite !elem_of_cons. naive_solver.
Qed.

Lemma lsum_Qof f i Q : (forall e, 0 <= f e) -> lsum f (Qof i Q) <= lsum (fun d : qid * ent => f d.2) Q.
Proof.
  intros Hf. induction Q as [|[j e] Q IH]; simpl; [done|]. specialize (Hf e). case_decide; simpl; lia.
Qed.

(** * Linked lists of slots *)

Definition stated (x : QLp) (g : res) : Prop :=
  match g with HQ _ => True | HR _ => x.(state) = QueuingR | HW _ => x.(state) = QueuingW end.

Fixpoint chain (xs : gmap Z QLp) (h : option Z) (l : list ent) : Prop :=
  match l with
  | [] => h = None
  | (p, g) :: l => h = Some p /\ exists x, xs !! p = Some x /\ stated x g /\ chain xs x.(next) l
  end.

Definition lastp (l : list ent) : option Z := fst <$> last l.

Definition same_link (xs xs' : gmap Z QLp) (p : Z) : Prop :=
  forall x, xs !! p = Some x -> exists x', xs' !! p = Some x' /\ x'.(next) = x.(next) /\ x'.(state) = x.(state).

Lemma chain_frame xs xs' h l :
  chain xs h l -> (forall p g, (p, g) ∈ l -> same_link xs xs' p) -> chain xs' h l.
Proof.
  revert h. induction l as [|[p g] l IH]; intros h; simpl; [done|].
  intros [-> (x & Hx & Hs & Hc)] Hf. split; [done|].
  destruct (Hf p g ltac:(constructor) x Hx) as (x' & Hx' & Hn & Hst). exists x'. split_and!; [done| |].
  - by destruct g; simpl in *; rewrite ?Hst.
  - rewrite Hn. apply IH; [done|]. intros p' g' Hp. eapply Hf. by constructor.
Qed.

Lemma chain_nil xs l : chain xs None l -> l = [].
Proof. by destruct l as [|[]]; [|intros [? _]]. Qed.

Lemma chain_head xs p l : chain xs (Some p) l ->
  exists g l' x, l = (p, g) :: l' /\ xs !! p = Some x /\ stated x g /\ chain xs x.(next) l'.
Proof. destruct l as [|[p' g] l]; [done|]. intros [[= ->] (x & ?)]. by exists g, l, x. Qed.

Lemma chain_none xs h l : chain xs h l -> l = [] <-> h = None.
Proof. intros Hc. split; [intros ->; exact Hc|]. intros ->. by eapply chain_nil. Qed.

Lemma lastp_snoc l p g : lastp (l ++ [(p, g)]) = Some p.
Proof. unfold lastp. by rewrite last_snoc. Qed.
Lemma lastp_cons p g l : l <> [] -> lastp ((p, g) :: l) = lastp l.
Proof. by destruct l. Qed.
Lemma lastp_nil l : lastp l = None <-> l = [].
Proof. unfold lastp. rewrite fmap_None, last_None. done. Qed.
Lemma lastp_elem l p : lastp l = Some p -> exists g, (p, g) ∈ l.
Proof.
  unfold lastp. intros H. apply fmap_Some in H as ([p' g] & Hl & ->). exists g. by apply last_Some_elem_of.
Qed.

(** [mp] is the new last of a queue with last [t]. *)
Record enqueued (xs xs' : gmap Z QLp) (t : option Z) (mp : Z) (st : Z) : Prop := {
  eq_new : xs' !! mp = Some (MkQLp 0xdeadead None st);
  eq_last p : p <> mp -> t = Some p ->
    xs' !! p = (fun x => MkQLp x.(inuse) (Some mp) x.(state)) <$> xs !! p;
  eq_rest p : p <> mp -> t <> Some p -> xs' !! p = xs !! p
}.

Lemma chain_enqueue xs xs' h l mp g st :
  chain xs h l -> NoDup (fst <$> l) -> mp ∉ fst <$> l ->
  enqueued xs xs' (lastp l) mp st -> stated (MkQLp 0xdeadead None st) g ->
  chain xs' (if nil h then Some mp else h) (l ++ [(mp, g)]).
Proof.
  intros Hc Hnd Hmp [Hnew Hlast Hrest] Hs. revert h Hc.
  induction l as [|[p g'] l IH]; intros h; simpl.
  - intros ->. simpl. split; [done|]. by exists (MkQLp 0xdeadead None st).
  - intros [-> (x & Hx & Hsx & Hc)]. simpl in *. apply list.NoDup_cons in Hnd as [Hp Hnd].
    apply not_elem_of_cons in Hmp as [Hne Hmp]. split; [done|].
    destruct (decide (l = [])) as [->|Hl].
    + simpl in Hc. rewrite (Hlast p) by done. rewrite Hx. eexists. split; [done|].
      split; [by destruct g'|]. simpl. split; [done|]. by eexists.
    + rewrite lastp_cons in Hlast, Hrest by done. exists x. split_and!; [|done|].
      * rewrite Hrest; [done..|]. intros Ht. apply lastp_elem in Ht as [g2 Ht]. apply Hp.
        apply list_elem_of_fmap. by exists (p, g2).
      * destruct (nil (next x)) eqn:En.
        { destruct (next x); [done|]. destruct Hl. by eapply chain_nil. }
        specialize (IH Hnd Hmp Hlast Hrest (next x) Hc). by rewrite En in IH.
Qed.

(** [mp] comes first. *)
Lemma chain_push xs xs' h l mp g x :
  chain xs h l -> mp ∉ fst <$> l -> (forall p, p <> mp -> xs' !! p = xs !! p) ->
  xs' !! mp = Some x -> x.(next) = h -> stated x g -> chain xs' (Some mp) ((mp, g) :: l).
Proof.
  intros Hc Hmp Hr Hx <- Hs. split; [done|]. exists x. split_and!; [done..|].
  eapply chain_frame; [exact Hc|]. intros p g' Hp y Hy. exists y. split; [|done].
  rewrite Hr; [done|]. intros ->. apply Hmp, list_elem_of_fmap. by exists (mp, g').
Qed.

(** * What a program point means *)

Definition slot (x : pc) : option Z :=
  match x with Wait p _ | Clear p _ | Wake _ _ (Some p) => Some p | _ => None end.
(** Asleep on a slot, for something. *)
Definition sleeps (x : pc) : option ent :=
  match x with Wait p g | Wake _ g (Some p) => Some (p, g) | _ => None end.
(** On the way to wake a slot, with what its process waits for. *)
Definition target (x : pc) : option ent :=
  match x with Wake p g _ => Some (p, g) | Drain q p => Some (p, HR q) | _ => None end.
(** Carries something that is neither held nor free. *)
Definition grant (x : pc) : option res :=
  match x with Wake _ g _ | Clear _ g => Some g | Drain q _ => Some (HR q) | _ => None end.
Definition draining (x : pc) : option Z := match x with Drain q _ => Some q | _ => None end.

Definition users (ps : gmap Z pc) (p : Z) : Z := msum (fun x => wt (one p) (slot x)) ps.
Definition sleepers (f : ent -> Z) (ps : gmap Z pc) : Z := msum (fun x => wt f (sleeps x)) ps.
Definition wakers (f : ent -> Z) (ps : gmap Z pc) : Z := msum (fun x => wt f (target x)) ps.
Definition drains (ps : gmap Z pc) (q : Z) : Z := msum (fun x => wt (one q) (draining x)) ps.
(** How many have [g] or are being handed it. *)
Definition cnt (ps : gmap Z pc) (o : list (Z * res)) (g : res) : Z :=
  msum (fun x => wt (one g) (grant x)) ps + lsum (fun e => one g e.2) o.

(** * The invariant *)

(** What a process may wait for in a queue. *)
Definition fits (w : World) (i : qid) (g : res) : Prop :=
  match i with
  | IQ q => g = HQ q /\ is_Some (w.(qlocks) !! q)
  | IW q => (g = HR q \/ g = HW q) /\ is_Some (w.(rwlocks) !! q)
  | IS r => exists z q, w.(rendezes) !! r = Some z /\ z.(rzl) = Some q /\ g = HQ q
  end.

Record Base (c : conf) (Q : list (qid * ent)) : Prop := {
  b_dom p : is_Some (c.(world).(ql_x) !! p) <-> 0 <= p < nelem_ql;
  b_cur : 0 <= c.(world).(ql_p) < nelem_ql;
  b_use p x : c.(world).(ql_x) !! p = Some x -> users c.(pcs) p <= 1 /\ x.(inuse) = 0xdeadead * users c.(pcs) p;
  b_out p : c.(world).(ql_x) !! p = None -> users c.(pcs) p = 0;
  b_sleep f : sleepers f c.(pcs) = lsum (fun e => f e.2) Q + wakers f c.(pcs);
  b_fit i p g : (i, (p, g)) ∈ Q -> fits c.(world) i g;
  b_loop t r i : c.(pcs) !! t = Some (Again r i) ->
    exists z q, c.(world).(rendezes) !! r = Some z /\ z.(rzl) = Some q /\ (t, HQ q) ∈ c.(own);
  b_drain t q p : c.(pcs) !! t = Some (Drain q p) -> is_Some (c.(world).(rwlocks) !! q)
}.

Definition q_ok (xs : gmap Z QLp) (l : QLock) (qs : list ent) (n : Z) : Prop :=
  chain xs l.(head) qs /\ lastp qs = l.(tail) /\ l.(locked) = n /\ n <= 1 /\ (n = 0 -> qs = []).

(** The queue of a reader-writer lock: while the lock is not being drained, the
    first waiter is there because of those who have the lock. *)
Definition rw_ok (xs : gmap Z QLp) (l : RWLock) (q : Z) (qs : list ent) (nr nw nd : Z) : Prop :=
  chain xs l.(rwhead) qs /\ l.(readers) = nr /\ nd = (if l.(rwlk) then 1 else 0) /\
  if l.(rwlk) then (qs <> [] -> lastp qs = l.(rwtail)) /\ nw = 0 /\ 0 < nr /\ nr + Zlen qs <= nelem_ql
  else lastp qs = l.(rwtail) /\ l.(writer) = nw /\ nw <= 1 /\ (0 < nw -> nr = 0) /\
    (nr = 0 -> nw = 0 -> qs = []) /\ (0 < nr -> forall e qs', qs = e :: qs' -> e.2 = HW q).

Definition z_ok (w : World) (z : Rendez) (qs : list ent) : Prop :=
  chain w.(ql_x) z.(rzhead) qs /\ lastp qs = z.(rztail) /\
  (forall q, z.(rzl) = Some q -> is_Some (w.(qlocks) !! q)).

Definition lock_ok (w : World) (Q : list (qid * ent)) (n : res -> Z) (d : Z -> Z) (i : qid) : Prop :=
  match i with
  | IQ q => forall l, w.(qlocks) !! q = Some l -> q_ok w.(ql_x) l (Qof i Q) (n (HQ q))
  | IW q => forall l, w.(rwlocks) !! q = Some l -> rw_ok w.(ql_x) l q (Qof i Q) (n (HR q)) (n (HW q)) (d q)
  | IS r => forall z, w.(rendezes) !! r = Some z -> z_ok w z (Qof i Q)
  end.

Definition Inv (c : conf) (Q : list (qid * ent)) : Prop :=
  Base c Q /\ forall i, lock_ok c.(world) Q (cnt c.(pcs) c.(own)) (drains c.(pcs)) i.

(** * Consequences *)

Lemma cnt_nonneg ps o g : 0 <= cnt ps o g.
Proof.
  unfold cnt. assert (0 <= msum (fun x => wt (one g) (grant x)) ps) by (apply msum_nonneg; auto with width).
  assert (0 <= lsum (fun e : Z * res => one g e.2) o) by (apply lsum_nonneg; auto with width). lia.
Qed.

Lemma sleepers_users p ps : sleepers (fun e => one p e.1) ps <= users ps p.
Proof. apply msum_mono. intros [| | |? ? []| |]; simpl; auto with width; lia. Qed.

Section Conseq.
Context (c : conf) (Q : list (qid * ent)) (HB : Base c Q).

Lemma users_le p : 0 <= users c.(pcs) p <= 1.
Proof.
  split; [apply msum_nonneg; auto with width|]. destruct (ql_x (world c) !! p) as [x|] eqn:E.
  - by apply (b_use c Q HB p x).
  - rewrite (b_out c Q HB p E). lia.
Qed.

(** Two processes do not share a slot. *)
Lemma slot_unique t u x y p :
  c.(pcs) !! t = Some x -> c.(pcs) !! u = Some y -> slot x = Some p -> slot y = Some p -> t = u.
Proof.
  intros Hx Hy Sx Sy. destruct (decide (t = u)) as [|Hne]; [done|exfalso].
  pose proof (msum_two (fun x => wt (one p) (slot x)) _ t u x y ltac:(nn) Hne Hx Hy) as H.
  simpl in H. rewrite Sx, Sy in H. simpl in H. rewrite one_same in H.
  pose proof (users_le p) as Hle. unfold users in Hle. lia.
Qed.

Lemma queued_once : NoDup (fst <$> (snd <$> Q)).
Proof.
  assert (Hle : forall p, lsum (fun e : qid * ent => one p e.2.1) Q <= 1).
  { intros p. pose proof (b_sleep c Q HB (fun e => one p e.1)) as Hs. cbv beta in Hs. pose proof (sleepers_users p c.(pcs)).
    pose proof (users_le p). assert (0 <= wakers (fun e => one p e.1) c.(pcs)) by (apply msum_nonneg; auto with width). lia. }
  revert Hle. clear HB. induction Q as [|[i [p g]] Q' IH]; intros Hle; [constructor|].
  cbn. apply list.NoDup_cons. split.
  - intros Hin. rewrite <- list_fmap_compose in Hin. apply list_elem_of_fmap in Hin as ([j [p' g']] & Hp & Hin). simpl in Hp. subst p'.
    specialize (Hle p). simpl in Hle. rewrite one_same in Hle.
    pose proof (lsum_elem (fun e : qid * ent => one p e.2.1) Q' _ ltac:(nn) Hin) as H. simpl in H.
    rewrite one_same in H. lia.
  - apply IH. intros p'. specialize (Hle p'). simpl in Hle. pose proof (one_nonneg p' p). lia.
Qed.

Lemma queue_nodup i : NoDup (fst <$> Qof i Q).
Proof.
  pose proof queued_once as H. clear HB. induction Q as [|[j e] Q' IH]; [constructor|].
  cbn in H. apply list.NoDup_cons in H as [Hn H]. cbn. case_decide; [|by apply IH].
  cbn. apply list.NoDup_cons. split; [|by apply IH]. intros Hin. apply Hn.
  apply list_elem_of_fmap in Hin as (e' & -> & Hin). apply Qof_elem in Hin.
  apply list_elem_of_fmap. exists e'. split; [done|]. apply list_elem_of_fmap. by exists (i, e').
Qed.

Lemma queues_disjoint i j p g g' : (i, (p, g)) ∈ Q -> (j, (p, g')) ∈ Q -> i = j.
Proof.
  pose proof queued_once as H. clear HB. induction Q as [|[k [p' h]] Q' IH]; [intros Hn; inversion Hn|].
  cbn in H. apply list.NoDup_cons in H as [Hn H]. rewrite !elem_of_cons.
  assert (Hno : forall k g, (k, (p, g)) ∈ Q' -> p <> p').
  { intros k' g0 Hin ->. apply Hn. apply list_elem_of_fmap. exists (p', g0). split; [done|].
    apply list_elem_of_fmap. by exists (k', (p', g0)). }
  intros [E1|H1] [E2|H2]; simplify_eq; try done; [by destruct (Hno j g')|by destruct (Hno i g)|by apply IH].
Qed.

(** A slot in a queue is in use. *)
Lemma queued_used i p g : (i, (p, g)) ∈ Q -> users c.(pcs) p = 1.
Proof.
  intros Hin. pose proof (b_sleep c Q HB (fun e => one p e.1)) as Hs. cbv beta in Hs. pose proof (sleepers_users p c.(pcs)).
  pose proof (users_le p). assert (0 <= wakers (fun e => one p e.1) c.(pcs)) by (apply msum_nonneg; auto with width).
  pose proof (lsum_elem (fun e : qid * ent => one p e.2.1) Q _ ltac:(nn) Hin) as Hq. simpl in Hq.
  rewrite one_same in Hq. lia.
Qed.

Lemma queue_short i : Zlen (Qof i Q) <= nelem_ql.
Proof.
  assert (H : (fst <$> Qof i Q) ⊆+ seqZ 0 nelem_ql).
  { apply NoDup_submseteq; [apply queue_nodup|]. intros p ([p' g] & -> & Hin)%list_elem_of_fmap.
    pose proof (queued_used i p' g (proj1 (Qof_elem _ _ _) Hin)) as Hu. simpl.
    apply elem_of_seqZ. rewrite Z.add_0_l. apply (b_dom c Q HB). apply not_eq_None_Some. intros Hn.
    rewrite (b_out c Q HB p' Hn) in Hu. done. }
  apply submseteq_length in H. rewrite length_fmap, length_seqZ in H. unfold Zlen, nelem_ql in *. lia.
Qed.

(** A process on its way to wake a slot finds the process that sleeps there. *)
Lemma waker_meets t x p g : c.(pcs) !! t = Some x -> target x = Some (p, g) ->
  exists u y, c.(pcs) !! u = Some y /\ sleeps y = Some (p, g).
Proof.
  intros Hx Ht. pose proof (b_sleep c Q HB (one (p, g))) as Hs. cbv beta in Hs.
  assert (0 <= lsum (fun e : qid * ent => one (p, g) e.2) Q) by (apply lsum_nonneg; auto with width).
  pose proof (msum_le (fun x => wt (one (p, g)) (target x)) ltac:(nn) _ t x Hx) as Hle. simpl in Hle.
  rewrite Ht in Hle. simpl in Hle. rewrite one_same in Hle. unfold sleepers, wakers in Hs.
  destruct (msum_pos (fun x => wt (one (p, g)) (sleeps x)) ltac:(nn) c.(pcs)) as (u & y & Hu & Hy); [lia|].
  exists u, y. split; [done|]. destruct (sleeps y) as [e|]; simpl in Hy; [|lia].
  unfold one in Hy. case_decide; [by subst|lia].
Qed.

(** At most one process is on its way to a slot, and then it is in no queue. *)
Lemma waker_unique t u x y p g g' :
  c.(pcs) !! t = Some x -> c.(pcs) !! u = Some y -> target x = Some (p, g) -> target y = Some (p, g') -> t = u.
Proof.
  intros Hx Hy Tx Ty. destruct (decide (t = u)) as [|Hne]; [done|exfalso].
  pose proof (b_sleep c Q HB (fun e => one p e.1)) as Hs. cbv beta in Hs. pose proof (sleepers_users p c.(pcs)). pose proof (users_le p).
  assert (0 <= lsum (fun e : qid * ent => one p e.2.1) Q) by (apply lsum_nonneg; auto with width).
  pose proof (msum_two (fun x => wt (fun e => one p e.1) (target x)) _ t u x y ltac:(nn) Hne Hx Hy) as H'.
  simpl in H'. rewrite Tx, Ty in H'. simpl in H'. rewrite one_same in H'. unfold wakers in Hs. lia.
Qed.

(** Whoever sleeps is in a queue or about to be woken. *)
Lemma sleeper_found t x p g : c.(pcs) !! t = Some x -> sleeps x = Some (p, g) ->
  (exists i, (i, (p, g)) ∈ Q) \/ exists u y, c.(pcs) !! u = Some y /\ target y = Some (p, g).
Proof.
  intros Hx Hsl. pose proof (b_sleep c Q HB (one (p, g))) as Hs. cbv beta in Hs. unfold sleepers, wakers in Hs.
  pose proof (msum_le (fun x => wt (one (p, g)) (sleeps x)) ltac:(nn) _ t x Hx) as Hle. simpl in Hle.
  rewrite Hsl in Hle. simpl in Hle. rewrite one_same in Hle.
  destruct (decide (0 < lsum (fun e : qid * ent => one (p, g) e.2) Q)) as [Hq|Hq].
  - left. destruct (lsum_pos _ _ Hq) as ([i e] & Hin & He). simpl in He. exists i. unfold one in He. case_decide; [by subst|lia].
  - right. destruct (msum_pos (fun x => wt (one (p, g)) (target x)) ltac:(nn) c.(pcs)) as (u & y & Hu & Hy); [lia|].
    exists u, y. split; [done|]. destruct (target y) as [e|]; simpl in Hy; [|lia]. unfold one in Hy. case_decide; [by subst|lia].
Qed.

End Conseq.
