(* ===== verification/QLockSteps.v ===== *)
(** Every step of [qlock.c] preserves the invariant of [QLockInv.v]. *)

From S2P Require Import Prelude Eff QLock QLockInv.

(** * Finding a slot *)

Lemma slots0_lookup p : slots0 !! p = if bool_decide (0 <= p < nelem_ql) then Some (MkQLp 0 None 0) else None.
Proof.
  unfold slots0. case_bool_decide as Hp.
  - apply elem_of_list_to_map_1.
    + rewrite <- list_fmap_compose. rewrite list_fmap_id. apply NoDup_seqZ.
    + apply list_elem_of_fmap. exists p. split; [done|]. apply elem_of_seqZ. lia.
  - apply not_elem_of_list_to_map_1. rewrite <- list_fmap_compose, list_fmap_id, elem_of_seqZ. lia.
Qed.

Definition taken (x : QLp) : Prop := x.(inuse) = 0 \/ x.(inuse) = 0xdeadead.

(** The world after [getqlp] took the slot [mp]. *)
Definition with_slot (w : World) (mp st : Z) : World :=
  MkWorld (<[mp := MkQLp 0xdeadead None st]> w.(ql_x)) mp w.(qlocks) w.(rwlocks) w.(rendezes).

Lemma tas_run w p x : w.(ql_x) !! p = Some x ->
  tas_inuse p w = Ok (x.(inuse), MkWorld (<[p := MkQLp 0xdeadead x.(next) x.(state)]> w.(ql_x)) w.(ql_p) w.(qlocks) w.(rwlocks) w.(rendezes)).
Proof.
  intros Hx. unfold tas_inuse, setinuse, putx. eff_prim. rewrite eff_bind_assoc. eff_prim. eff_prim. done.
Qed.

(** The scan of a call found a slot. *)
Definition picked (s : option Z) (w : World) : Prop :=
  exists mp x, s = Some mp /\ w.(ql_x) !! mp = Some x /\ x.(inuse) = 0.

Lemma getqlp_race_run mp w x : w.(ql_x) !! mp = Some x -> x.(inuse) = 0 ->
  getqlp_race (Some mp) w = Ok (mp, with_slot w mp x.(state)).
Proof.
  intros Hx Hi. unfold getqlp_race. eff_with (tas_run w mp x Hx). rewrite Hi. simpl.
  unfold putp, setnext, putx. eff_prim. simpl. rewrite eff_bind_assoc.
  erewrite eff_bind_ok by (apply deref_run; simpl; apply lookup_insert_eq). cbv beta.
  eff_prim. simpl. unfold with_slot. by rewrite insert_insert_eq.
Qed.

Lemma getqlp_run c Q s : Base c Q -> picked s c.(world) ->
  exists mp x, c.(world).(ql_x) !! mp = Some x /\ users c.(pcs) mp = 0 /\
    getqlp_race s c.(world) = Ok (mp, with_slot c.(world) mp x.(state)).
Proof.
  intros HB (mp & x & -> & Hx & Hi). exists mp, x. split_and!; [done| |by apply getqlp_race_run].
  destruct (b_use c Q HB mp x Hx) as [_ Hu]. lia.
Qed.

(** * One step, in general *)

Definition samekeys (w w' : World) : Prop :=
  (forall q, is_Some (w.(qlocks) !! q) -> is_Some (w'.(qlocks) !! q)) /\
  (forall q, is_Some (w.(rwlocks) !! q) -> is_Some (w'.(rwlocks) !! q)) /\
  (forall r z, w.(rendezes) !! r = Some z -> exists z', w'.(rendezes) !! r = Some z' /\ z'.(rzl) = z.(rzl)).

Lemma fits_keys w w' i g : samekeys w w' -> fits w i g -> fits w' i g.
Proof.
  intros (H1 & H2 & H3). destruct i; simpl; [naive_solver..|].
  intros (z & q & Hz & Hq & ->). destruct (H3 r z Hz) as (z' & ? & ?). exists z', q. split_and!; congruence.
Qed.

(** The process goes from [x] to [y]: the slot it had is free, the one it has
    is taken. *)
Definition slots_step (xs xs' : gmap Z QLp) (x y : pc) : Prop :=
  (forall p, is_Some (xs' !! p) <-> is_Some (xs !! p)) /\
  (forall p, slot y = Some p -> is_Some (xs' !! p)) /\
  forall p z z', xs !! p = Some z -> xs' !! p = Some z' ->
    taken z' /\ z'.(inuse) = z.(inuse) + 0xdeadead * (wt (one p) (slot y) - wt (one p) (slot x)).

(** The lock [j] and the slots of its queue are as they were. *)
Definition untouched (w w' : World) (Q Q' : list (qid * ent)) (n n' : res -> Z) (d d' : Z -> Z) (j : qid) : Prop :=
  Qof j Q' = Qof j Q /\ (forall p g, (p, g) ∈ Qof j Q -> same_link w.(ql_x) w'.(ql_x) p) /\
  match j with
  | IQ q => w'.(qlocks) !! q = w.(qlocks) !! q /\ n' (HQ q) = n (HQ q)
  | IW q => w'.(rwlocks) !! q = w.(rwlocks) !! q /\ n' (HR q) = n (HR q) /\ n' (HW q) = n (HW q) /\ d' q = d q
  | IS r => w'.(rendezes) !! r = w.(rendezes) !! r
  end.

Lemma lock_ok_frame w w' Q Q' n n' d d' j :
  samekeys w w' -> untouched w w' Q Q' n n' d d' j -> lock_ok w Q n d j -> lock_ok w' Q' n' d' j.
Proof.
  intros (Hk & _) (HQ & Hl & Hj) Hok. destruct j as [q|q|r]; simpl in *.
  - destruct Hj as [Hj ->]. intros l. rewrite Hj, HQ. intros H. destruct (Hok l H) as (Hc & ?).
    split; [by eapply chain_frame|done].
  - destruct Hj as (Hj & -> & -> & ->). intros l. rewrite Hj, HQ. intros H. destruct (Hok l H) as (Hc & ?).
    split; [by eapply chain_frame|done].
  - intros z. rewrite Hj, HQ. intros H. destruct (Hok z H) as (Hc & ? & Hs).
    split_and!; [by eapply chain_frame|done|]. intros q Hq. by apply Hk, Hs.
Qed.

Lemma base_step c Q t x y w' o' Q' :
  Base c Q ->
  c.(pcs) !! t = Some x ->
  samekeys c.(world) w' -> 0 <= w'.(ql_p) < nelem_ql -> slots_step c.(world).(ql_x) w'.(ql_x) x y ->
  (forall f, wt f (sleeps y) + lsum (fun e => f e.2) Q + wt f (target x) =
             wt f (sleeps x) + lsum (fun e => f e.2) Q' + wt f (target y)) ->
  (forall i p g, (i, (p, g)) ∈ Q' -> (i, (p, g)) ∈ Q \/ fits w' i g) ->
  (forall u g, u <> t -> (u, g) ∈ c.(own) -> (u, g) ∈ o') ->
  (forall r i, y = Again r i -> exists z q, w'.(rendezes) !! r = Some z /\ z.(rzl) = Some q /\ (t, HQ q) ∈ o') ->
  (forall q p, y = Drain q p -> is_Some (w'.(rwlocks) !! q)) ->
  Base (MkConf w' (<[t := y]> c.(pcs)) o') Q'.
Proof.
  intros HB Ht Hk Hp (Hd & Hs & Hx) Hf Hfit Hown Hloop Hdrain.
  assert (Hset : forall g : pc -> Z, msum g (<[t := y]> c.(pcs)) = msum g c.(pcs) - g x + g y) by (intros; by apply msum_set).
  pose proof HB as [Bdom Bcur Buse Bout Bsleep Bfit Bloop Bdrain]. constructor; simpl.
  - intros p. rewrite Hd. apply Bdom.
  - done.
  - intros p z' Hz'. destruct (proj1 (Hd p) ltac:(by eexists)) as [z Hz]. destruct (Hx p z z' Hz Hz') as [Htk Hi].
      destruct (Buse p z Hz) as [_ Hz0]. unfold users in *. rewrite Hset. unfold taken in Htk. lia.
  - intros p Hn. unfold users in *. rewrite Hset.
      assert (Hz : ql_x (world c) !! p = None).
      { apply eq_None_not_Some. rewrite <- Hd, Hn. intros Hn'. by inversion Hn'. }
      assert (Hn0 : forall o, wt (one p) o = 1 \/ wt (one p) o = 0).
      { intros [s|]; simpl; [|by right]. unfold one. case_decide; auto. }
      specialize (Bout p Hz). destruct (Hn0 (slot x)) as [E|E]; rewrite E.
      { pose proof (msum_le (fun x => wt (one p) (slot x)) ltac:(nn) _ t x Ht) as Hle. cbv beta in Hle. lia. }
      destruct (slot y) as [s|]; simpl; [|lia]. destruct (decide (s = p)) as [->|Hps]; [|rewrite (one_ne p s) by done; lia].
      destruct (Hs p eq_refl) as [z Hz']. congruence.
  - intros f. unfold sleepers, wakers in *. rewrite !Hset. specialize (Bsleep f). specialize (Hf f). lia.
  - intros i p g Hin. destruct (Hfit i p g Hin) as [H|H]; [|done]. eapply fits_keys; [done|]. by eapply Bfit.
  - intros u r i. destruct (decide (u = t)) as [->|Hne].
    + rewrite lookup_insert_eq. intros [= ->]. by apply (Hloop r i).
    + rewrite lookup_insert_ne by done. intros Hu'. destruct (Bloop u r i Hu') as (z & q & Hz & Hq & Hin).
        destruct Hk as (_ & _ & Hk). destruct (Hk r z Hz) as (z' & Hz' & Hl). exists z', q. split_and!; [done|congruence|by apply Hown].
  - intros u q p. destruct (decide (u = t)) as [->|Hne].
    + rewrite lookup_insert_eq. intros [= ->]. by apply (Hdrain q p).
    + rewrite lookup_insert_ne by done. intros Hu'. by apply Hk, (Bdrain u q p).
Qed.

(** Except for the locks in [B]. *)
Definition Inv_but (B : list qid) (c : conf) (Q : list (qid * ent)) : Prop :=
  Base c Q /\ forall j, j ∉ B -> lock_ok c.(world) Q (cnt c.(pcs) c.(own)) (drains c.(pcs)) j.

Lemma inv_but c Q B : Inv c Q -> Inv_but B c Q.
Proof. intros [? H]. split; [done|]. intros j _. apply H. Qed.

Lemma inv_close B c Q : Inv_but B c Q -> (forall j, j ∈ B -> lock_ok c.(world) Q (cnt c.(pcs) c.(own)) (drains c.(pcs)) j) -> Inv c Q.
Proof. intros [? H] Hb. split; [done|]. intros j. destruct (decide (j ∈ B)); auto. Qed.

(** Program points outside the waiting and waking loops. *)
Definition idle (x : pc) : bool := match x with Run _ | Again _ _ => true | _ => false end.

Lemma idle_none x : idle x = true ->
  slot x = None /\ sleeps x = None /\ target x = None /\ grant x = None /\ draining x = None.
Proof. by destruct x. Qed.

Definition home (g : res) : qid := match g with HQ q => IQ q | HR q | HW q => IW q end.

Definition samelock (w w' : World) (j : qid) : Prop :=
  match j with
  | IQ q => w'.(qlocks) !! q = w.(qlocks) !! q
  | IW q => w'.(rwlocks) !! q = w.(rwlocks) !! q
  | IS r => w'.(rendezes) !! r = w.(rendezes) !! r
  end.

Definition occ (g : res) (o : list (Z * res)) : Z := lsum (fun e => one g e.2) o.

Lemma cnt_step ps o t x y o' g : ps !! t = Some x ->
  cnt (<[t := y]> ps) o' g = cnt ps o g - wt (one g) (grant x) + wt (one g) (grant y) + occ g o' - occ g o.
Proof. intros Ht. unfold cnt, occ. rewrite (msum_set _ _ t x y Ht). lia. Qed.

Lemma drains_step ps t x y q : ps !! t = Some x ->
  drains (<[t := y]> ps) q = drains ps q - wt (one q) (draining x) + wt (one q) (draining y).
Proof. intros Ht. unfold drains. by rewrite (msum_set _ _ t x y Ht). Qed.

Lemma taken_slot c Q p z : Base c Q -> c.(world).(ql_x) !! p = Some z -> taken z.
Proof. intros HB Hz. destruct (b_use c Q HB p z Hz) as [? Hi]. pose proof (users_le c Q HB p). unfold taken. lia. Qed.

Lemma slots_same c Q x y : Base c Q -> slot y = slot x -> (forall p, slot x = Some p -> is_Some (c.(world).(ql_x) !! p)) ->
  slots_step c.(world).(ql_x) c.(world).(ql_x) x y.
Proof.
  intros HB Hs Hp. split_and!; [done|by rewrite Hs|]. intros p z z' Hz Hz'. rewrite Hz in Hz'. injection Hz' as <-.
  split; [by eapply taken_slot|]. rewrite Hs. lia.
Qed.

(** A step that leaves the slots alone and concerns the lock [i] only. *)
Lemma inv_local_gen c Q t x y w' o' Q' i :
  Inv_but [i] c Q -> c.(pcs) !! t = Some x -> slot y = slot x ->
  (forall p, slot x = Some p -> is_Some (c.(world).(ql_x) !! p)) ->
  w'.(ql_x) = c.(world).(ql_x) -> w'.(ql_p) = c.(world).(ql_p) ->
  samekeys c.(world) w' -> (forall j, j <> i -> samelock c.(world) w' j) ->
  (forall f, wt f (sleeps y) + lsum (fun e => f e.2) Q + wt f (target x) =
             wt f (sleeps x) + lsum (fun e => f e.2) Q' + wt f (target y)) ->
  (forall d, d ∈ Q' -> d ∈ Q) -> (forall j, j <> i -> Qof j Q' = Qof j Q) ->
  (forall u g, u <> t -> (u, g) ∈ c.(own) -> (u, g) ∈ o') ->
  (forall r k, y <> Again r k) -> (forall q p, y = Drain q p -> is_Some (w'.(rwlocks) !! q)) ->
  (forall g, home g <> i -> wt (one g) (grant y) + occ g o' = wt (one g) (grant x) + occ g c.(own)) ->
  (forall q, IW q <> i -> wt (one q) (draining y) = wt (one q) (draining x)) ->
  lock_ok w' Q' (cnt (<[t := y]> c.(pcs)) o') (drains (<[t := y]> c.(pcs))) i ->
  Inv (MkConf w' (<[t := y]> c.(pcs)) o') Q'.
Proof.
  intros [HB Hok] Ht Hy Hsx Hxs Hp Hk Hsl Hf Hsub HQ Hown Hag Hdn Hg Hd Hi.
  apply (inv_close [i]); [split|intros j ->%list_elem_of_singleton; done].
  - apply (base_step c Q t x y w' o' Q'); try done.
    + rewrite Hp. apply (b_cur c Q HB).
    + rewrite Hxs. by apply (slots_same c Q).
    + intros j p g Hin. left. by apply Hsub.
    + intros r k E. by destruct (Hag r k).
  - simpl. intros j Hj. assert (Hji : j <> i) by (intros ->; by apply Hj, list_elem_of_singleton).
    eapply lock_ok_frame; [done| |by apply Hok]. split; [by apply HQ|]. split.
    { intros p g _ z Hz. exists z. by rewrite Hxs. }
    assert (Hc : forall g, home g <> i -> cnt (<[t:=y]> c.(pcs)) o' g = cnt c.(pcs) c.(own) g).
    { intros g Hgi. rewrite (cnt_step _ c.(own) t x y o' g Ht). specialize (Hg g Hgi). lia. }
    specialize (Hsl j Hji). destruct j as [q|q|r]; simpl in *; [| |done].
    + split; [done|by apply Hc].
    + split_and!; [done|by apply Hc|by apply Hc|]. rewrite (drains_step _ t x y q Ht), (Hd q Hji). lia.
Qed.

Lemma inv_local c Q t x y w' o' Q' i :
  Inv_but [i] c Q -> c.(pcs) !! t = Some x -> idle x = true -> slot y = None ->
  w'.(ql_x) = c.(world).(ql_x) -> w'.(ql_p) = c.(world).(ql_p) ->
  samekeys c.(world) w' -> (forall j, j <> i -> samelock c.(world) w' j) ->
  (forall f, wt f (sleeps y) + lsum (fun e => f e.2) Q = lsum (fun e => f e.2) Q' + wt f (target y)) ->
  (forall d, d ∈ Q' -> d ∈ Q) -> (forall j, j <> i -> Qof j Q' = Qof j Q) ->
  (forall u g, u <> t -> (u, g) ∈ c.(own) -> (u, g) ∈ o') ->
  (forall r k, y <> Again r k) -> (forall q p, y = Drain q p -> is_Some (w'.(rwlocks) !! q)) ->
  (forall g, home g <> i -> wt (one g) (grant y) + occ g o' = occ g c.(own)) ->
  (forall q, IW q <> i -> wt (one q) (draining y) = 0) ->
  lock_ok w' Q' (cnt (<[t := y]> c.(pcs)) o') (drains (<[t := y]> c.(pcs))) i ->
  Inv (MkConf w' (<[t := y]> c.(pcs)) o') Q'.
Proof.
  intros HI Ht Hx Hy Hxs Hp Hk Hsl Hf. destruct (idle_none x Hx) as (Sx & Lx & Tx & Gx & Dx).
  intros Hsub HQ Hown Hag Hdn Hg Hd. apply (inv_local_gen c Q t x y w' o' Q' i); try done.
  - congruence.
  - by rewrite Sx.
  - intros f. specialize (Hf f). rewrite Lx, Tx. simpl. lia.
  - intros g Hgi. rewrite Gx, (Hg g Hgi). simpl. lia.
  - intros q Hq. by rewrite Dx, (Hd q Hq).
Qed.

Lemma occ_gain g t g' o : occ g ((t, g') :: o) = one g g' + occ g o.
Proof. done. Qed.
Lemma occ_lose g t g' o : (t, g') ∈ o -> occ g (remove1 (t, g') o) = occ g o - one g g'.
Proof. intros H. unfold occ. by rewrite lsum_remove1. Qed.
Lemma others_gain (t : Z) (g : res) (o : list (Z * res)) (u : Z) (g' : res) : u <> t -> (u, g') ∈ o -> (u, g') ∈ (t, g) :: o.
Proof. intros. by constructor. Qed.
Lemma others_lose (t : Z) (g : res) (o : list (Z * res)) (u : Z) (g' : res) : u <> t -> (u, g') ∈ o -> (u, g') ∈ remove1 (t, g) o.
Proof. intros. apply elem_remove1; [congruence|done]. Qed.
Lemma home_ne g g' i : home g <> i -> home g' = i -> one g g' = 0.
Proof. intros H1 H2. apply one_ne. congruence. Qed.

(** The world with one structure changed. *)
Definition with_q (w : World) (q : Z) (l : QLock) : World :=
  MkWorld w.(ql_x) w.(ql_p) (<[q := l]> w.(qlocks)) w.(rwlocks) w.(rendezes).
Definition with_rw (w : World) (q : Z) (l : RWLock) : World :=
  MkWorld w.(ql_x) w.(ql_p) w.(qlocks) (<[q := l]> w.(rwlocks)) w.(rendezes).
Definition with_z (w : World) (r : Z) (z : Rendez) : World :=
  MkWorld w.(ql_x) w.(ql_p) w.(qlocks) w.(rwlocks) (<[r := z]> w.(rendezes)).

Lemma insert_keys {A} (m : gmap Z A) k x j : is_Some (m !! j) -> is_Some (<[k := x]> m !! j).
Proof. intros H. apply lookup_insert_is_Some. destruct (decide (k = j)); [by left|by right]. Qed.

Lemma keys_q w q l : samekeys w (with_q w q l).
Proof. split_and!; simpl; eauto. intros. by apply insert_keys. Qed.
Lemma keys_rw w q l : samekeys w (with_rw w q l).
Proof. split_and!; simpl; eauto. intros. by apply insert_keys. Qed.
Lemma keys_z w r z z' : w.(rendezes) !! r = Some z -> z'.(rzl) = z.(rzl) -> samekeys w (with_z w r z').
Proof.
  intros Hz Hl. split_and!; simpl; eauto. intros r' y Hy. destruct (decide (r' = r)) as [->|].
  - rewrite lookup_insert_eq. exists z'. split; [done|congruence].
  - rewrite lookup_insert_ne by done. eauto.
Qed.
Lemma same_q w q l j : j <> IQ q -> samelock w (with_q w q l) j.
Proof. intros Hj. destruct j as [q'|q'|r]; simpl; try done. rewrite lookup_insert_ne; [done|congruence]. Qed.
Lemma same_rw w q l j : j <> IW q -> samelock w (with_rw w q l) j.
Proof. intros Hj. destruct j as [q'|q'|r]; simpl; try done. rewrite lookup_insert_ne; [done|congruence]. Qed.

(** A step of process [t] runs and the invariant holds after it. *)
Definition reaches (c : conf) (t : Z) (o : list (Z * res)) (r : outcome (after * World)) : Prop :=
  exists a w' Q', r = Ok (a, w') /\ Inv (settled t a (MkConf w' c.(pcs) o)) Q'.

Lemma keys_refl w : samekeys w w.
Proof. split_and!; eauto. Qed.
Lemma same_refl w j : samelock w w j.
Proof. by destruct j. Qed.

#[export] Hint Resolve keys_refl same_refl keys_q keys_rw same_q same_rw others_gain others_lose : qlk.

(** The side conditions of [inv_local] that do not depend on the lock. *)
Ltac local_step := try done; eauto using inv_but with qlk; try (intros ?; simpl; lia).

(** Other structures are the same, and none disappears. *)
Ltac keys := split_and!; simpl; eauto; intros; by apply insert_keys.
Ltac samelocks :=
  let j := fresh "j" in intros j ? ?; destruct j; simpl; try done; rewrite lookup_insert_ne; [done|congruence].

(** * Queueing locks *)

Section Queueing.
Context (c : conf) (Q : list (qid * ent)) (HI : Inv c Q) (t : Z) (v : Z) (Ht : c.(pcs) !! t = Some (Run v)).
Notation w := c.(world).

(** The state in which nothing happened but the return. *)
Lemma return_inv v' : Inv (MkConf w (<[t := Run v']> c.(pcs)) c.(own)) Q.
Proof.
  apply (inv_local c Q t (Run v) (Run v') w c.(own) Q (IQ 0)); local_step.
  intros l Hl. rewrite (cnt_step _ c.(own) t (Run v) _ _ _ Ht). simpl.
  rewrite Z.sub_0_r, Z.add_0_r, Z.add_simpl_r. by apply (proj2 HI (IQ 0)).
Qed.

Lemma take_q q l : w.(qlocks) !! q = Some l -> l.(locked) = 0 -> forall v',
  Inv (MkConf (with_q w q (MkQLock 1 l.(head) l.(tail))) (<[t := Run v']> c.(pcs)) ((t, HQ q) :: c.(own))) Q.
Proof.
  intros Hl H0 v'. apply (inv_local c Q t (Run v) (Run v') _ _ Q (IQ q)); local_step.
  - intros g Hg. rewrite occ_gain, (home_ne g (HQ q) (IQ q)) by done. done.
  - intros l'. simpl. rewrite lookup_insert_eq. intros [= <-].
    destruct (proj2 HI (IQ q) l Hl) as (Hc & Htl & Hn & Hle & He). rewrite H0 in Hn.
    rewrite (cnt_step _ c.(own) t (Run v) _ _ (HQ q) Ht), occ_gain, one_same. simpl.
    rewrite (He ltac:(lia)) in *. split_and!; simpl; try done; lia.
Qed.

Lemma canqlock_inv free q l : w.(qlocks) !! q = Some l -> reaches c t c.(own) (canqlock free q w).
Proof.
  intros Hl. unfold canqlock. destruct free; simpl.
  - eff_with (deref_run qlocks q l w Hl). destruct (Z.eqb_spec (locked l) 0) as [H0|H0].
    + eexists _, _, Q. split; [reflexivity|]. by apply (take_q q l).
    + eexists _, _, Q. split; [reflexivity|]. apply return_inv.
  - eexists _, _, Q. split; [reflexivity|]. apply return_inv.
Qed.

(** [t] leaves with the process at the head of the queue to wake. *)
Lemma pass_q q l p : w.(qlocks) !! q = Some l -> l.(head) = Some p -> (t, HQ q) ∈ c.(own) ->
  exists x, w.(ql_x) !! p = Some x /\ exists Q',
    Inv (MkConf (with_q w q (MkQLock l.(locked) x.(next) (match x.(next) with None => None | Some _ => l.(tail) end)))
      (<[t := Wake p (HQ q) None]> c.(pcs)) (remove1 (t, HQ q) c.(own))) Q'.
Proof.
  intros Hl Hh Hown. destruct (proj2 HI (IQ q) l Hl) as (Hc & Htl & Hn & Hle & He). rewrite Hh in Hc.
  destruct (chain_head _ _ _ Hc) as (g & qs & x & HQq & Hx & Hst & Hc').
  assert (Hfit : fits w (IQ q) g).
  { apply (b_fit c Q (proj1 HI) (IQ q) p). apply Qof_elem. rewrite HQq. constructor. }
  destruct Hfit as [-> _].
  exists x. split; [done|]. destruct (pop_spec _ _ _ _ HQq) as (Q' & Hqs & Hoth & Hsum & Hsub). exists Q'.
  apply (inv_local c Q t (Run v) (Wake p (HQ q) None) _ _ Q' (IQ q)); local_step.
  - intros f. simpl. rewrite Hsum. lia.
  - intros g Hg. rewrite occ_lose by done. simpl. lia.
  - intros l'. simpl. rewrite lookup_insert_eq. intros [= <-]. rewrite Hqs.
    rewrite (cnt_step _ c.(own) t (Run v) _ _ (HQ q) Ht), occ_lose by done. simpl. rewrite one_same.
    replace (cnt (pcs c) (own c) (HQ q) - 0 + 1 + (occ (HQ q) (own c) - 1) - occ (HQ q) (own c)) with (cnt (pcs c) (own c) (HQ q)) by lia.
    split_and!; simpl; try done.
    + rewrite HQq in Htl. destruct (next x) eqn:En.
      * rewrite <- Htl. symmetry. apply lastp_cons. by intros ->.
      * apply chain_nil in Hc'. by subst.
    + intros H0. specialize (He H0). by rewrite HQq in He.
Qed.
End Queueing.

(** * Joining a queue *)

Definition with_x (w : World) (xs : gmap Z QLp) : World :=
  MkWorld xs w.(ql_p) w.(qlocks) w.(rwlocks) w.(rendezes).

Lemma setnext_run w p x n : w.(ql_x) !! p = Some x ->
  setnext p n w = Ok (tt, with_x w (<[p := MkQLp x.(inuse) n x.(state)]> w.(ql_x))).
Proof. intros H. unfold setnext. by eff_with (deref_run ql_x p x w H). Qed.
Lemma setstate_run w p x s : w.(ql_x) !! p = Some x ->
  setstate p s w = Ok (tt, with_x w (<[p := MkQLp x.(inuse) x.(next) s]> w.(ql_x))).
Proof. intros H. unfold setstate. by eff_with (deref_run ql_x p x w H). Qed.

Lemma enqueued_set xs xs' t mp st st' :
  enqueued xs xs' t mp st -> enqueued xs (<[mp := MkQLp 0xdeadead None st']> xs') t mp st'.
Proof.
  intros [H1 H2 H3]. constructor.
  - apply lookup_insert_eq.
  - intros p Hp. rewrite lookup_insert_ne by done. by apply H2.
  - intros p Hp. rewrite lookup_insert_ne by done. by apply H3.
Qed.

Lemma chain_in_run w mp st h t :
  (forall p, t = Some p -> p <> mp /\ is_Some (w.(ql_x) !! p)) ->
  exists xs', chain_in h t mp (with_slot w mp st) = Ok ((if nil t then Some mp else h, Some mp), with_x (with_slot w mp st) xs') /\
    enqueued w.(ql_x) xs' t mp st.
Proof.
  intros Hp. destruct t as [p|]; simpl.
  - destruct (Hp p eq_refl) as (Hne & x & Hx).
    exists (<[p := MkQLp x.(inuse) (Some mp) x.(state)]> (with_slot w mp st).(ql_x)). split.
    + erewrite eff_bind_ok by (apply setnext_run; simpl; rewrite lookup_insert_ne by done; exact Hx). done.
    + constructor; simpl.
      * rewrite lookup_insert_ne by done. apply lookup_insert_eq.
      * intros p' Hp' [= <-]. rewrite lookup_insert_eq, Hx. done.
      * intros p' Hp' Hne'. rewrite !lookup_insert_ne by congruence. done.
  - exists (with_slot w mp st).(ql_x). split; [by destruct w|].
    constructor; simpl; [apply lookup_insert_eq|done|]. intros p' Hp' _. by rewrite lookup_insert_ne.
Qed.

Lemma nil_ends xs h qs t : chain xs h qs -> lastp qs = t -> nil t = nil h.
Proof.
  intros Hc <-. destruct qs as [|[p g] qs]; simpl in Hc; [by subst|]. destruct Hc as [-> _].
  destruct (lastp ((p, g) :: qs)) eqn:E; [done|]. by apply lastp_nil in E.
Qed.

Section Join.
Context (c : conf) (Q : list (qid * ent)) (B : list qid) (HI : Inv_but B c Q).
Context (t : Z) (x : pc) (Ht : c.(pcs) !! t = Some x) (Hx : idle x = true).
Context (mp : Z) (Hmp : users c.(pcs) mp = 0).
Notation w := c.(world).
Let HB : Base c Q := proj1 HI.

Lemma not_queued i p g : (p, g) ∈ Qof i Q -> p <> mp.
Proof. intros H%Qof_elem ->. pose proof (queued_used c Q HB i mp g H). lia. Qed.

Lemma not_queued_map i : mp ∉ fst <$> Qof i Q.
Proof. intros ([p g] & E & H)%list_elem_of_fmap. by apply (not_queued i p g H). Qed.

Lemma last_slot i p : lastp (Qof i Q) = Some p -> p <> mp /\ is_Some (w.(ql_x) !! p).
Proof.
  intros (g & H)%lastp_elem. split; [by apply (not_queued i p g)|]. apply Qof_elem in H.
  pose proof (queued_used c Q HB i p g H) as Hu. destruct (w.(ql_x) !! p) eqn:E; [by eexists|].
  pose proof (b_out c Q HB p E). lia.
Qed.

Lemma enqueued_dom xs' i st : is_Some (w.(ql_x) !! mp) -> enqueued w.(ql_x) xs' (lastp (Qof i Q)) mp st ->
  forall p, is_Some (xs' !! p) <-> is_Some (w.(ql_x) !! p).
Proof.
  intros Hm [H1 H2 H3] p. destruct (decide (p = mp)) as [->|Hp]; [rewrite H1; split; eauto|].
  destruct (decide (lastp (Qof i Q) = Some p)) as [Hl|Hl]; [rewrite (H2 p Hp Hl), fmap_is_Some; done|by rewrite H3].
Qed.

Lemma inv_enqueue i g st w' o' :
  is_Some (w.(ql_x) !! mp) -> enqueued w.(ql_x) w'.(ql_x) (lastp (Qof i Q)) mp st -> w'.(ql_p) = mp ->
  i ∉ B -> samekeys w w' -> (forall j, j <> i -> j ∉ B -> samelock w w' j) -> fits w' i g ->
  (forall u g', u <> t -> (u, g') ∈ c.(own) -> (u, g') ∈ o') ->
  (forall g', home g' <> i -> home g' ∉ B -> occ g' o' = occ g' c.(own)) ->
  lock_ok w' (Q ++ [(i, (mp, g))]) (cnt (<[t := Wait mp g]> c.(pcs)) o') (drains (<[t := Wait mp g]> c.(pcs))) i ->
  Inv_but B (MkConf w' (<[t := Wait mp g]> c.(pcs)) o') (Q ++ [(i, (mp, g))]).
Proof.
  intros Hm Hq Hp HiB Hk Hsl Hfit Hown Hocc Hi. destruct (idle_none x Hx) as (Sx & Lx & Tx & Gx & Dx).
  pose proof (enqueued_dom _ i st Hm Hq) as Hdom. destruct Hq as [H1 H2 H3]. split.
  - apply (base_step c Q t x _ w' o'); try done.
    + rewrite Hp. by apply (b_dom c Q HB).
    + split_and!; [exact Hdom|intros p [= <-]; by rewrite H1|]. intros p z z' Hz Hz'. rewrite Sx. simpl.
      destruct (decide (p = mp)) as [->|Hne].
      * rewrite H1 in Hz'. injection Hz' as <-. destruct (b_use c Q HB mp z Hz) as [_ Hu]. rewrite one_same. unfold taken. simpl. lia.
      * rewrite (one_ne p mp) by done. assert (Hin : inuse z' = inuse z).
        { destruct (decide (lastp (Qof i Q) = Some p)) as [Hl|Hl].
          - rewrite (H2 p Hne Hl), Hz in Hz'. by injection Hz' as <-.
          - rewrite H3, Hz in Hz' by done. by injection Hz' as <-. }
        pose proof (taken_slot c Q p z HB Hz). unfold taken in *. lia.
    + intros f. rewrite Lx, Tx, lsum_app. simpl. lia.
    + intros j p g' [Hin|Hin]%elem_of_app; [by left|right]. apply list_elem_of_singleton in Hin. by simplify_eq.
  - simpl. intros j HjB. destruct (decide (j = i)) as [->|Hji]; [done|].
    assert (Hc : forall g', home g' <> i -> home g' ∉ B -> cnt (<[t:=Wait mp g]> c.(pcs)) o' g' = cnt c.(pcs) c.(own) g').
    { intros g' Hg Hg'. rewrite (cnt_step _ c.(own) t x _ o' g' Ht), Gx, (Hocc g' Hg Hg'). simpl. lia. }
    eapply lock_ok_frame; [done| |by apply (proj2 HI)]. split; [by apply Qof_snoc_other|]. split.
    { intros p g' Hin z Hz. exists z. rewrite H3; [done|by eapply not_queued|]. intros (g2 & Hl)%lastp_elem.
      apply Hji. by apply (queues_disjoint c Q HB j i p g' g2); apply Qof_elem. }
    specialize (Hsl j Hji HjB). destruct j as [q|q|r]; simpl in *; [| |done].
    + split; [done|by apply Hc].
    + split_and!; [done|by apply Hc|by apply Hc|]. rewrite (drains_step _ t x _ q Ht), Dx. simpl. lia.
Qed.

(** The queue that [mp] joined. *)
Lemma joined xs' i h g st : chain w.(ql_x) h (Qof i Q) -> enqueued w.(ql_x) xs' (lastp (Qof i Q)) mp st ->
  stated (MkQLp 0xdeadead None st) g ->
  chain xs' (if nil h then Some mp else h) (Qof i (Q ++ [(i, (mp, g))])) /\
  lastp (Qof i (Q ++ [(i, (mp, g))])) = Some mp.
Proof.
  intros Hc Hq Hs. rewrite Qof_snoc_same. split; [|apply lastp_snoc].
  eapply chain_enqueue; try done; [by apply (queue_nodup c Q HB)|apply not_queued_map].
Qed.

End Join.

Section Qlock.
Context (c : conf) (Q : list (qid * ent)) (HI : Inv c Q) (t : Z) (v : Z) (Ht : c.(pcs) !! t = Some (Run v)).
Notation w := c.(world).

Lemma qlock_inv s q l : w.(qlocks) !! q = Some l -> (l.(locked) <> 0 -> picked s w) ->
  reaches c t c.(own) (qlock s q w).
Proof.
  intros Hl Hs. unfold qlock. eff_with (deref_run qlocks q l w Hl). destruct (Z.eqb_spec (locked l) 0) as [H0|H0].
  { eexists _, _, Q. split; [reflexivity|]. by apply (take_q c Q HI t v Ht q l). }
  destruct (proj2 HI (IQ q) l Hl) as (Hc & Htl & Hn & Hle & He). pose proof (inv_but c Q [] HI) as HI'.
  destruct (getqlp_run c Q s (proj1 HI) (Hs H0)) as (mp & x & Hx & Hu & Hget). eff_with Hget.
  destruct (chain_in_run w mp x.(state) l.(head) l.(tail)) as (xs' & Hin & Hq).
  { rewrite <- Htl. apply (last_slot c Q [] HI' mp Hu). }
  eff_with Hin. unfold putq. eff_prim. pose proof (enqueued_set _ _ _ _ _ Queuing Hq) as Hq'.
  erewrite eff_bind_ok by (apply setstate_run; simpl; apply Hq). cbn. rewrite <- Htl in Hq'.
  eexists _, _, (Q ++ [(IQ q, (mp, HQ q))]). split; [reflexivity|]. simpl. apply (inv_close []); [|intros ? ?%elem_of_nil; done].
  eapply (inv_enqueue c Q [] HI' t (Run v) Ht eq_refl mp Hu (IQ q)); simpl; try done; eauto with qlk.
  - apply not_elem_of_nil.
  - keys.
  - samelocks.
  - split; [done|]. apply insert_keys. by exists l.
  - intros l'. rewrite lookup_insert_eq. intros [= <-].
    rewrite (cnt_step _ c.(own) t (Run v) _ _ (HQ q) Ht). simpl. rewrite Z.sub_0_r, Z.add_0_r, Z.add_simpl_r.
    destruct (joined c Q [] HI' mp Hu _ (IQ q) (head l) (HQ q) Queuing Hc Hq' I) as [Hc' Hl'].
    split_and!; simpl; try done; [|lia].
    by rewrite (nil_ends _ _ _ _ Hc Htl).
Qed.

Lemma qunlock_inv q l : w.(qlocks) !! q = Some l -> (t, HQ q) ∈ c.(own) ->
  reaches c t (remove1 (t, HQ q) c.(own)) (qunlock q w).
Proof.
  intros Hl Hown. unfold qunlock. eff_with (deref_run qlocks q l w Hl). destruct (head l) as [p|] eqn:Hh.
  - destruct (pass_q c Q HI t v Ht q l p Hl Hh Hown) as (x & Hx & Q' & HI').
    unfold chain_out. rewrite eff_bind_assoc. eff_with (deref_run ql_x p x w Hx). eff_prim.
    eexists _, _, Q'. split; [reflexivity|]. exact HI'.
  - eexists _, _, Q. split; [reflexivity|]. simpl.
    apply (inv_local c Q t (Run v) (Run 0) (with_q w q (MkQLock 0 None (tail l))) _ Q (IQ q)); local_step.
    + intros g Hg. rewrite occ_lose, (home_ne g (HQ q) (IQ q)) by done. simpl. lia.
    + intros l'. simpl. rewrite lookup_insert_eq. intros [= <-].
      destruct (proj2 HI (IQ q) l Hl) as (Hc & Htl & Hn & Hle & He). rewrite Hh in Hc. pose proof (chain_nil _ _ Hc) as HQ0.
      rewrite (cnt_step _ c.(own) t (Run v) _ _ (HQ q) Ht), occ_lose, one_same by done. simpl.
      assert (1 <= cnt (pcs c) (own c) (HQ q)).
      { unfold cnt. pose proof (lsum_elem (fun e : Z * res => one (HQ q) e.2) _ _ ltac:(nn) Hown) as Hle1. simpl in Hle1.
        rewrite one_same in Hle1. assert (0 <= msum (fun x => wt (one (HQ q)) (grant x)) (pcs c)) by (apply msum_nonneg; nn). lia. }
      rewrite HQ0 in *. split_and!; simpl; try done; lia.
Qed.
End Qlock.
