(* ===== verification/QLockRW.v ===== *)
(** The steps of the reader-writer locks of [qlock.c] preserve the invariant. *)

From S2P Require Import Prelude Eff QLock QLockInv QLockSteps.

Lemma own_counted c t g : (t, g) ∈ c.(own) -> 1 <= cnt c.(pcs) c.(own) g.
Proof.
  intros Hown. unfold cnt. pose proof (lsum_elem (fun e : Z * res => one g e.2) _ _ ltac:(nn) Hown) as Hle. simpl in Hle.
  rewrite one_same in Hle. assert (0 <= msum (fun x => wt (one g) (grant x)) (pcs c)) by (apply msum_nonneg; nn). lia.
Qed.

(** What the invariant says of a lock whose spin lock is free. *)
Definition rw_free (xs : gmap Z QLp) (l : RWLock) (q : Z) (qs : list ent) (nr nw : Z) : Prop :=
  lastp qs = l.(rwtail) /\ l.(writer) = nw /\ nw <= 1 /\ (0 < nw -> nr = 0) /\
  (nr = 0 -> nw = 0 -> qs = []) /\ (0 < nr -> forall e qs', qs = e :: qs' -> e.2 = HW q).

Section RW.
Context (c : conf) (Q : list (qid * ent)) (HI : Inv c Q) (t : Z) (v : Z) (Ht : c.(pcs) !! t = Some (Run v)).
Context (q : Z) (l : RWLock) (Hl : c.(world).(rwlocks) !! q = Some l) (Hlk : l.(rwlk) = false).
Notation w := c.(world).
Notation qs := (Qof (IW q) Q).
Notation nr := (cnt c.(pcs) c.(own) (HR q)).
Notation nw := (cnt c.(pcs) c.(own) (HW q)).

Lemma rw_facts : chain w.(ql_x) l.(rwhead) qs /\ l.(readers) = nr /\ drains c.(pcs) q = 0 /\
  rw_free w.(ql_x) l q qs nr nw /\ 0 <= nr /\ 0 <= nw.
Proof.
  pose proof (proj2 HI (IW q) l Hl) as (Hc & Hr & Hd & H). rewrite Hlk in *.
  split_and!; try done; try apply H; apply cnt_nonneg.
Qed.

Lemma count_gain y g g' : idle y = true ->
  cnt (<[t := y]> c.(pcs)) ((t, g') :: c.(own)) g = cnt c.(pcs) c.(own) g + one g g'.
Proof.
  intros Hy. destruct (idle_none y Hy) as (_ & _ & _ & Gy & _).
  rewrite (cnt_step _ c.(own) t (Run v) _ _ g Ht), occ_gain, Gy. simpl. lia.
Qed.

Lemma count_lose y g g' : (t, g') ∈ c.(own) ->
  cnt (<[t := y]> c.(pcs)) (remove1 (t, g') c.(own)) g = cnt c.(pcs) c.(own) g + wt (one g) (grant y) - one g g'.
Proof. intros Ho. rewrite (cnt_step _ c.(own) t (Run v) _ _ g Ht), occ_lose by done. simpl. lia. Qed.

Lemma drains_same y q' : draining y = None -> drains (<[t := y]> c.(pcs)) q' = drains c.(pcs) q'.
Proof. intros Hy. rewrite (drains_step _ t (Run v) y q' Ht), Hy. simpl. lia. Qed.

Lemma take_r v' : l.(writer) = 0 -> l.(rwhead) = None -> l.(readers) < 2 ^ 31 - 1 ->
  Inv (MkConf (with_rw w q (MkRWLock l.(rwlk) (s32 (l.(readers) + 1)) l.(writer) l.(rwhead) l.(rwtail)))
    (<[t := Run v']> c.(pcs)) ((t, HR q) :: c.(own))) Q.
Proof.
  intros Hw Hh Hlim. destruct rw_facts as (Hc & Hr & Hd & (Htl & Hnw & Hle & Hex & Hem & Hhd) & ? & ?).
  apply (inv_local c Q t (Run v) (Run v') _ _ Q (IW q)); local_step.
  - intros g Hg. by rewrite occ_gain, (home_ne g (HR q) (IW q)).
  - intros l'. simpl. rewrite lookup_insert_eq. intros [= <-]. rewrite !count_gain, drains_same by done.
    rewrite one_same, (one_ne (HW q) (HR q)) by done. rewrite Hh in Hc |- *. pose proof (chain_nil _ _ Hc) as HQ0.
    rewrite HQ0 in *. unfold rw_ok. simpl. rewrite Hlk. split_and!; try done; try lia. rewrite s32_small; lia.
Qed.

Lemma take_w v' : l.(readers) = 0 -> l.(writer) = 0 ->
  Inv (MkConf (with_rw w q (MkRWLock l.(rwlk) l.(readers) 1 l.(rwhead) l.(rwtail)))
    (<[t := Run v']> c.(pcs)) ((t, HW q) :: c.(own))) Q.
Proof.
  intros Hr0 Hw. destruct rw_facts as (Hc & Hr & Hd & (Htl & Hnw & Hle & Hex & Hem & Hhd) & ? & ?).
  apply (inv_local c Q t (Run v) (Run v') _ _ Q (IW q)); local_step.
  - intros g Hg. by rewrite occ_gain, (home_ne g (HW q) (IW q)).
  - intros l'. simpl. rewrite lookup_insert_eq. intros [= <-]. rewrite !count_gain, drains_same by done.
    rewrite one_same, (one_ne (HR q) (HW q)) by done.
    rewrite Hem in * by lia. unfold rw_ok. simpl. rewrite Hlk. split_and!; try done; lia.
Qed.

(** Joining the queue of the lock. *)
Lemma wait_rw s g st : picked s w -> g = HR q /\ st = QueuingR \/ g = HW q /\ st = QueuingW ->
  ~ (nr = 0 /\ nw = 0) -> (qs = [] -> 0 < nr -> g = HW q) ->
  reaches c t c.(own)
    ((mp ← getqlp_race s;
      '(h, tl) ← chain_in l.(rwhead) l.(rwtail) mp;
      putrw q (MkRWLock l.(rwlk) l.(readers) l.(writer) h tl);;
      setnext mp None;;
      setstate mp st;;
      mret (Go (Wait mp g))) w).
Proof.
  intros Hs Hg Hbusy Hfirst. destruct rw_facts as (Hc & Hr & Hd & (Htl & Hnw & Hle & Hex & Hem & Hhd) & ? & ?).
  pose proof (inv_but c Q [] HI) as HI'.
  destruct (getqlp_run c Q s (proj1 HI) Hs) as (mp & x & Hx & Hu & Hget). eff_with Hget.
  destruct (chain_in_run w mp x.(state) l.(rwhead) l.(rwtail)) as (xs' & Hin & Hq).
  { rewrite <- Htl. apply (last_slot c Q [] HI' mp Hu). }
  eff_with Hin. unfold putrw. eff_prim.
  pose proof (enqueued_set _ _ _ _ _ st (enqueued_set _ _ _ _ _ (state x) Hq)) as Hq'.
  erewrite eff_bind_ok by (apply setnext_run; simpl; apply Hq). cbn.
  erewrite eff_bind_ok by (apply setstate_run; simpl; apply lookup_insert_eq). cbn. rewrite <- Htl in Hq'.
  eexists _, _, (Q ++ [(IW q, (mp, g))]). split; [reflexivity|]. simpl. apply (inv_close []); [|intros ? ?%elem_of_nil; done].
  eapply (inv_enqueue c Q [] HI' t (Run v) Ht eq_refl mp Hu (IW q)); simpl; try done; eauto with qlk.
  - apply not_elem_of_nil.
  - keys.
  - samelocks.
  - split; [destruct Hg as [[-> _]|[-> _]]; auto|]. apply insert_keys. by exists l.
  - intros l'. rewrite lookup_insert_eq. intros [= <-].
    rewrite !(cnt_step _ c.(own) t (Run v) _ _ _ Ht), drains_same by done. simpl.
    rewrite !Z.sub_0_r, !Z.add_0_r, !Z.add_simpl_r.
    destruct (joined c Q [] HI' mp Hu _ (IW q) (rwhead l) g st Hc Hq') as [Hc' Hl'].
    { by destruct Hg as [[-> ->]|[-> ->]]. }
    unfold rw_ok. simpl. rewrite Hlk, (nil_ends _ _ _ _ Hc Htl). split_and!; try done.
    { intros H1 H2. by destruct Hbusy. }
    intros Hnr e qs'. rewrite Qof_snoc_same. destruct qs as [|d ds] eqn:EQ.
    + intros [= <- _]. by apply Hfirst.
    + intros [= <- _]. by apply (Hhd Hnr d ds).
Qed.

Lemma rlock_inv s : l.(readers) < 2 ^ 31 - 1 -> ((l.(writer) =? 0) && nil l.(rwhead) = false -> picked s w) ->
  reaches c t c.(own) (rlock s q w).
Proof.
  intros Hlim Hs. unfold rlock. eff_with (deref_run rwlocks q l w Hl).
  destruct rw_facts as (Hc & Hr & Hd & (Htl & Hnw & Hle & Hex & Hem & Hhd) & ? & ?).
  destruct ((writer l =? 0) && nil (rwhead l)) eqn:E.
  - zbool. destruct (rwhead l) eqn:Hh; [done|]. eexists _, _, Q. split; [reflexivity|]. rewrite <- Hh. by apply take_r.
  - assert (Hor : writer l <> 0 \/ qs <> []).
    { apply andb_false_iff in E as [E|E]; [left; by apply Z.eqb_neq|right]. intros HQ0. rewrite HQ0 in Hc. simpl in Hc.
      by rewrite Hc in E. }
    apply wait_rw; [by apply Hs|by left| |].
    + intros [H1 H2]. destruct Hor as [Hn|Hn]; [congruence|]. by apply Hn, Hem.
    + intros HQ0 Hpos. destruct Hor as [Hn|Hn]; [|done]. exfalso. specialize (Hex ltac:(lia)). lia.
Qed.

Lemma canrlock_inv : l.(readers) < 2 ^ 31 - 1 -> reaches c t c.(own) (canrlock q w).
Proof.
  intros Hlim. unfold canrlock. eff_with (deref_run rwlocks q l w Hl).
  destruct ((writer l =? 0) && nil (rwhead l)) eqn:E; (eexists _, _, Q; split; [reflexivity|]).
  - zbool. destruct (rwhead l) eqn:Hh; [done|]. simpl. rewrite <- Hh. by apply take_r.
  - by apply (return_inv c Q HI t v Ht).
Qed.

Lemma wlock_inv s : ((l.(readers) =? 0) && (l.(writer) =? 0) = false -> picked s w) ->
  reaches c t c.(own) (wlock s q w).
Proof.
  intros Hs. unfold wlock. eff_with (deref_run rwlocks q l w Hl).
  destruct rw_facts as (Hc & Hr & Hd & (Htl & Hnw & Hle & Hex & Hem & Hhd) & ? & ?).
  destruct ((readers l =? 0) && (writer l =? 0)) eqn:E.
  - zbool. eexists _, _, Q. split; [reflexivity|]. by apply take_w.
  - apply wait_rw; [by apply Hs|by right| |done]. intros [H1 H2]. apply andb_false_iff in E as [E|E]; zbool; congruence.
Qed.

Lemma canwlock_inv : reaches c t c.(own) (canwlock q w).
Proof.
  unfold canwlock. eff_with (deref_run rwlocks q l w Hl).
  destruct ((readers l =? 0) && (writer l =? 0)) eqn:E; (eexists _, _, Q; split; [reflexivity|]).
  - zbool. by apply take_w.
  - by apply (return_inv c Q HI t v Ht).
Qed.

(** The first waiter. *)
Lemma first_rw p : l.(rwhead) = Some p -> exists g x qs', qs = (p, g) :: qs' /\ w.(ql_x) !! p = Some x /\
  stated x g /\ chain w.(ql_x) x.(next) qs' /\ (g = HR q \/ g = HW q).
Proof.
  intros Hh. destruct rw_facts as (Hc & _). rewrite Hh in Hc.
  destruct (chain_head _ _ _ Hc) as (g & qs' & x & HQq & Hx & Hst & Hc'). exists g, x, qs'. split_and!; try done.
  apply (b_fit c Q (proj1 HI) (IW q) p). apply Qof_elem. rewrite HQq. constructor.
Qed.

(** Handing the lock to the writer at the head of the queue. *)
Lemma pass_w p g0 x n qs' : (t, g0) ∈ c.(own) -> home g0 = IW q -> l.(rwhead) = Some p ->
  qs = (p, HW q) :: qs' -> w.(ql_x) !! p = Some x -> chain w.(ql_x) x.(next) qs' ->
  nw - one (HW q) g0 = 0 -> nr - one (HR q) g0 = 0 -> n = 0 -> exists Q',
  Inv (MkConf (with_rw w q (MkRWLock l.(rwlk) n 1 x.(next) (match x.(next) with None => None | Some _ => l.(rwtail) end)))
    (<[t := Wake p (HW q) None]> c.(pcs)) (remove1 (t, g0) c.(own))) Q'.
Proof.
  intros Hown Hhome Hh HQq Hx Hc' Hw0 Hr0 ->. destruct rw_facts as (Hc & Hr & Hd & (Htl & Hnw & Hle & Hex & Hem & Hhd) & ? & ?).
  destruct (pop_spec _ _ _ _ HQq) as (Q' & Hqs & Hoth & Hsum & Hsub). exists Q'.
  apply (inv_local c Q t (Run v) (Wake p (HW q) None) _ _ Q' (IW q)); local_step.
  - intros f. simpl. rewrite Hsum. lia.
  - intros g Hg. rewrite occ_lose by done. simpl. rewrite (home_ne g (HW q) (IW q)), (home_ne g g0 (IW q)) by done. lia.
  - intros l'. simpl. rewrite lookup_insert_eq. intros [= <-]. rewrite Hqs, !count_lose, drains_same by done. simpl.
    rewrite one_same, (one_ne (HR q) (HW q)) by done. unfold rw_ok. simpl. rewrite Hlk. split_and!; try done; try lia.
    rewrite HQq in Htl. destruct (next x) eqn:En.
    + rewrite <- Htl. symmetry. apply lastp_cons. by intros ->.
    + apply chain_nil in Hc'. by subst.
Qed.

Lemma runlock_inv : (t, HR q) ∈ c.(own) -> reaches c t (remove1 (t, HR q) c.(own)) (runlock q w).
Proof.
  intros Hown. destruct rw_facts as (Hc & Hr & Hd & (Htl & Hnw & Hle & Hex & Hem & Hhd) & ? & ?).
  pose proof (own_counted c t _ Hown). assert (nw = 0) by lia.
  unfold runlock. eff_with (deref_run rwlocks q l w Hl). destruct (Z.leb_spec (readers l) 0); [lia|].
  (* without a process to wake *)
  assert (Hstay : qs = [] \/ 0 < nr - 1 -> Inv (MkConf (with_rw w q (MkRWLock l.(rwlk) (l.(readers) - 1) l.(writer) l.(rwhead) l.(rwtail)))
    (<[t := Run 0]> c.(pcs)) (remove1 (t, HR q) c.(own))) Q).
  { intros Hor. apply (inv_local c Q t (Run v) (Run 0) _ _ Q (IW q)); local_step.
    - intros g Hg. rewrite occ_lose, (home_ne g (HR q) (IW q)) by done. simpl. lia.
    - intros l'. simpl. rewrite lookup_insert_eq. intros [= <-]. rewrite !count_lose, drains_same by done. simpl.
      rewrite one_same, (one_ne (HW q) (HR q)) by done. unfold rw_ok. simpl. rewrite Hlk. split_and!; try done; try lia.
      + intros. destruct Hor; [done|lia].
      + intros _ e qs' HQe. apply (Hhd ltac:(lia) e qs' HQe). }
  destruct (rwhead l) as [p|] eqn:Hh.
  - destruct (Z.ltb_spec 0 (readers l - 1)).
    + eexists _, _, Q. split; [reflexivity|]. apply Hstay. right. lia.
    + destruct (first_rw p Hh) as (g & x & qs' & HQq & Hx & Hst & Hc' & _).
      assert (g = HW q) as -> by exact (Hhd ltac:(lia) _ _ HQq). eff_with (deref_run ql_x p x w Hx).
      simpl in Hst. rewrite Hst. simpl. unfold chain_out. rewrite eff_bind_assoc. eff_with (deref_run ql_x p x w Hx). eff_prim.
      destruct (pass_w p (HR q) x (readers l - 1) qs' Hown eq_refl Hh HQq Hx Hc') as (Q' & HI'); [rewrite one_ne by done; lia|rewrite one_same; lia|lia|].
      eexists _, _, Q'. split; [reflexivity|]. exact HI'.
  - eexists _, _, Q. split; [reflexivity|]. apply Hstay. left. by eapply chain_nil.
Qed.
End RW.

(** The loop of [wunlock], from its test on. *)
Lemma wunlock_loop_inv c Q t x q l :
  Inv_but [IW q] c Q -> c.(pcs) !! t = Some x -> idle x = true -> c.(world).(rwlocks) !! q = Some l ->
  let qs := Qof (IW q) Q in let nr := cnt c.(pcs) c.(own) (HR q) in
  chain c.(world).(ql_x) l.(rwhead) qs -> (qs <> [] -> lastp qs = l.(rwtail)) -> l.(readers) = nr ->
  cnt c.(pcs) c.(own) (HW q) = 0 -> drains c.(pcs) q = 0 -> nr + Zlen qs <= nelem_ql ->
  (forall e qs', qs = e :: qs' -> e.2 = HW q -> 0 < nr) ->
  reaches c t c.(own) (wunlock_loop q c.(world)).
Proof.
  intros HI Ht Hx Hl qs nr Hc Htl Hr Hw0 Hd Hlim Hfirst. destruct (idle_none x Hx) as (Sx & Lx & Tx & Gx & Dx).
  unfold wunlock_loop. eff_with (deref_run rwlocks q l c.(world) Hl).
  assert (Hn0 : 0 <= nr) by apply cnt_nonneg.
  assert (Hcnt : forall y g, cnt (<[t := y]> c.(pcs)) c.(own) g = cnt c.(pcs) c.(own) g + wt (one g) (grant y)).
  { intros y g. rewrite (cnt_step _ c.(own) t x _ _ g Ht), Gx. simpl. lia. }
  assert (Hdr : forall y, drains (<[t := y]> c.(pcs)) q = wt (one q) (draining y)).
  { intros y. rewrite (drains_step _ t x _ q Ht), Dx, Hd. simpl. lia. }
  assert (Hfin : (nr = 0 -> qs = []) -> (0 < nr -> forall e qs', qs = e :: qs' -> e.2 = HW q) ->
    reaches c t c.(own) ((putrw q (MkRWLock false (readers l) 0 (rwhead l) (if nil (rwhead l) then None else rwtail l));; mret (Ret 0 None)) c.(world))).
  { intros He Hh. eexists _, _, Q. split; [reflexivity|]. simpl.
    apply (inv_local c Q t x (Run 0) (with_rw (world c) q _) _ Q (IW q)); local_step.
    intros l'. simpl. rewrite lookup_insert_eq. intros [= <-]. rewrite !Hcnt, Hdr. simpl. rewrite !Z.add_0_r.
    unfold rw_ok. fold qs nr. simpl. split_and!; try done; try lia. 
    + destruct (rwhead l) as [p|] eqn:Eh; simpl; [|apply chain_nil in Hc; by rewrite Hc].
      apply Htl. intros HQ0. by rewrite HQ0 in Hc.
    + intros H0 _. by apply He. }
  destruct (rwhead l) as [p|] eqn:Hh; [|apply Hfin; [intros _; by eapply chain_nil|]; intros _ e qs' HQe; apply chain_nil in Hc; by rewrite Hc in HQe].
  destruct (chain_head _ _ _ Hc) as (g & qs' & y & HQq & Hy & Hst & Hc'). eff_with (deref_run ql_x p y c.(world) Hy).
  assert (Hfit : g = HR q \/ g = HW q).
  { apply (b_fit c Q (proj1 HI) (IW q) p). apply Qof_elem. fold qs. rewrite HQq. constructor. }
  destruct Hfit as [-> | ->]; simpl in Hst; rewrite Hst; simpl.
  - destruct (pop_spec _ _ _ _ HQq) as (Q' & Hqs & Hoth & Hsum & Hsub). eexists _, _, Q'. split; [reflexivity|]. simpl.
    apply (inv_local c Q t x (Drain q p) (with_rw (world c) q _) _ Q' (IW q)); local_step.
    + intros f. simpl. rewrite Hsum. lia.
    + intros q' p' [= <- _]. simpl. rewrite lookup_insert_eq. by eexists.
    + intros g Hg. simpl. by rewrite (home_ne g (HR q) (IW q)).
    + intros q' Hq'. simpl. apply one_ne. congruence.
    + intros l'. simpl. rewrite lookup_insert_eq. intros [= <-]. rewrite Hqs, !Hcnt, Hdr. simpl. rewrite !one_same, (one_ne (HW q) (HR q)) by done.
      fold nr. rewrite HQq, Zlen_cons in Hlim. unfold rw_ok. simpl. zpos. split_and!; try done; try lia.
      * rewrite s32_small; [lia|]. unfold nelem_ql in *. lia.
      * intros Hne. rewrite <- Htl; [|by rewrite HQq]. rewrite HQq. symmetry. by apply lastp_cons.
  - apply Hfin; [intros H0|intros _ e qs2 HQe; rewrite HQq in HQe; by injection HQe as <- _].
    specialize (Hfirst _ _ HQq eq_refl). lia.
Qed.

(** Giving up what one has. *)
Lemma lose_but c Q t x g : Inv c Q -> c.(pcs) !! t = Some x -> idle x = true -> (forall r i, x <> Again r i) -> (t, g) ∈ c.(own) ->
  Inv_but [home g] (MkConf c.(world) c.(pcs) (remove1 (t, g) c.(own))) Q.
Proof.
  intros [HB Hok] Ht Hx Hag Hown. split.
  - rewrite <- (insert_id c.(pcs) t x Ht). apply (base_step c Q t x x); try done; eauto with qlk.
    + apply (b_cur c Q HB).
    + apply (slots_same c Q); [done..|]. destruct (idle_none x Hx) as (-> & _). done.
    + intros r i ->. by destruct (Hag r i).
    + by intros q p ->.
  - intros j Hj. simpl. eapply lock_ok_frame; [apply keys_refl| |by apply Hok].
    assert (Hc : forall g', home g' <> home g -> cnt c.(pcs) (remove1 (t, g) c.(own)) g' = cnt c.(pcs) c.(own) g').
    { intros g' Hg. unfold cnt. change (lsum (fun e => one g' e.2) (remove1 (t, g) c.(own))) with (occ g' (remove1 (t, g) c.(own))).
      rewrite occ_lose, (home_ne g' g (home g)) by done. unfold occ. lia. }
    assert (Hji : j <> home g) by (intros ->; by apply Hj, list_elem_of_singleton).
    split_and!; [done|intros p g' _ z Hz; by exists z|]. destruct j; simpl; [split|split_and!|]; try done; by apply Hc.
Qed.

Lemma wunlock_inv c Q t v q l : Inv c Q -> c.(pcs) !! t = Some (Run v) ->
  c.(world).(rwlocks) !! q = Some l -> l.(rwlk) = false -> (t, HW q) ∈ c.(own) ->
  reaches c t (remove1 (t, HW q) c.(own)) (wunlock q c.(world)).
Proof.
  intros HI Ht Hl Hlk Hown.
  destruct (rw_facts c Q HI q l Hl Hlk) as (Hc & Hr & Hd & (Htl & Hnw & Hle & Hex & Hem & Hhd) & ? & ?).
  pose proof (own_counted c t _ Hown). specialize (Hex ltac:(lia)).
  unfold wunlock. eff_with (deref_run rwlocks q l c.(world) Hl). destruct (Z.eqb_spec (writer l) 0); [lia|].
  destruct (rwhead l) as [p|] eqn:Hh.
  - destruct (first_rw c Q HI q l Hl Hlk p Hh) as (g & x & qs' & HQq & Hx & Hst & Hc' & Hg).
    eff_with (deref_run ql_x p x c.(world) Hx). destruct Hg as [-> | ->]; simpl in Hst; rewrite Hst; simpl.
    + destruct (wunlock_loop_inv (MkConf c.(world) c.(pcs) (remove1 (t, HW q) c.(own))) Q t (Run v) q l) as (a & w' & Q' & Hrun & HI');
        simpl; try done; [by apply (lose_but c Q t (Run v) (HW q))|..].
      * by rewrite Hh.
      * rewrite <- (insert_id c.(pcs) t (Run v) Ht), (count_lose c t v Ht (Run v)) by done. simpl. rewrite one_ne by done. lia.
      * rewrite <- (insert_id c.(pcs) t (Run v) Ht), (count_lose c t v Ht (Run v)) by done. simpl. rewrite one_same. lia.
      * rewrite <- (insert_id c.(pcs) t (Run v) Ht), (count_lose c t v Ht (Run v)) by done. simpl. rewrite one_ne by done.
        pose proof (queue_short c Q (proj1 HI) (IW q)). lia.
      * intros e qs2 HQe. rewrite HQq in HQe. by injection HQe as <- _.
      * by exists a, w', Q'.
    + unfold chain_out. rewrite eff_bind_assoc. eff_with (deref_run ql_x p x c.(world) Hx). eff_prim.
      destruct (pass_w c Q HI t v Ht q l Hl Hlk p (HW q) x (readers l) qs' Hown eq_refl Hh HQq Hx Hc') as (Q' & HI');
        [rewrite one_same; lia|rewrite one_ne by done; lia|lia|].
      eexists _, _, Q'. split; [reflexivity|]. simpl in *. replace (writer l) with 1 by lia. exact HI'.
  - eexists _, _, Q. split; [reflexivity|]. simpl. pose proof (chain_nil _ _ Hc) as HQ0.
    apply (inv_local c Q t (Run v) (Run 0) (with_rw (world c) q _) _ Q (IW q)); local_step.
    + intros g Hg. rewrite occ_lose, (home_ne g (HW q) (IW q)) by done. simpl. lia.
    + intros l'. simpl. rewrite lookup_insert_eq. intros [= <-].
      rewrite !(count_lose c t v Ht), (drains_same c t v Ht) by done. simpl.
      rewrite one_same, (one_ne (HR q) (HW q)) by done. unfold rw_ok. simpl. rewrite Hlk, HQ0 in *. split_and!; try done; lia.
Qed.
