(* ===== verification/QLockSleep.v ===== *)
(** Sleeping, waking and meeting: the steps of [rsleep], [rwakeup] and
    [rwakeupall], the rendezvous and the release of slots preserve the
    invariant of [QLockInv.v]. *)

From S2P Require Import Prelude Eff QLock QLockInv QLockSteps QLockRW.

(** A process that only returns, or goes on in [rwakeupall]. *)
Lemma idle_inv c Q t x y : Inv c Q -> c.(pcs) !! t = Some x -> idle x = true -> idle y = true ->
  (forall r i, y = Again r i -> exists z q, c.(world).(rendezes) !! r = Some z /\ z.(rzl) = Some q /\ (t, HQ q) ∈ c.(own)) ->
  Inv (MkConf c.(world) (<[t := y]> c.(pcs)) c.(own)) Q.
Proof.
  intros [HB Hok] Ht Hx Hy Hloop. destruct (idle_none x Hx) as (Sx & Lx & Tx & Gx & Dx).
  destruct (idle_none y Hy) as (Sy & Ly & Ty & Gy & Dy). split; simpl.
  - apply (base_step c Q t x y); try done; eauto with qlk.
    + apply (b_cur c Q HB).
    + apply (slots_same c Q); [done|congruence|by rewrite Sx].
    + intros f. by rewrite Lx, Ly, Tx, Ty.
    + by intros q p ->.
  - intros j. eapply lock_ok_frame; [apply keys_refl| |apply Hok].
    assert (Hc : forall g, cnt (<[t := y]> c.(pcs)) c.(own) g = cnt c.(pcs) c.(own) g).
    { intros g. rewrite (cnt_step _ c.(own) t x y _ g Ht), Gx, Gy. simpl. lia. }
    split_and!; [done|intros p g _ z Hz; by exists z|]. destruct j; simpl; rewrite ?Hc; [done| |done].
    split_and!; try done. rewrite (drains_step _ t x y q Ht), Dx, Dy. simpl. lia.
Qed.

(** * Sleeping *)

Section Sleep.
Context (c : conf) (Q : list (qid * ent)) (HI : Inv c Q) (t v : Z) (Ht : c.(pcs) !! t = Some (Run v)).
Context (r q : Z) (z : Rendez) (l : QLock).
Context (Hz : c.(world).(rendezes) !! r = Some z) (Hzl : z.(rzl) = Some q) (Hl : c.(world).(qlocks) !! q = Some l).
Context (Hown : (t, HQ q) ∈ c.(own)) (s : option Z) (Hs : picked s c.(world)).
Notation w := c.(world).
Notation o' := (remove1 (t, HQ q) c.(own)).

(** The list of the sleepers with [me] at its end. *)
Definition slept (w : World) (xs' : gmap Z QLp) (me : Z) : World :=
  MkWorld xs' me w.(qlocks) w.(rwlocks)
    (<[r := MkRendez z.(rzl) (if nil z.(rzhead) then Some me else z.(rzhead)) (Some me)]> w.(rendezes)).

Lemma sleep_run : exists me xs', users c.(pcs) me = 0 /\ is_Some (w.(ql_x) !! me) /\
  enqueued w.(ql_x) xs' (lastp (Qof (IS r) Q)) me Sleeping /\
  forall (k : Z -> eff World after),
  (me ← getqlp_race s;
   setstate me Sleeping;;
   h ← (if nil z.(rzhead) then mret (Some me)
        else t ← nonnil z.(rztail); setnext t (Some me);; mret z.(rzhead));
   setnext me None;;
   putz r (MkRendez z.(rzl) h (Some me));;
   k me) w = k me (slept w xs' me).
Proof.
  destruct (proj2 HI (IS r) z Hz) as (Hc & Htl & _). pose proof (inv_but c Q [] HI) as HI'.
  destruct (getqlp_run c Q s (proj1 HI) Hs) as (me & x & Hx & Hu & Hget).
  assert (Hlast : forall p, z.(rztail) = Some p -> p <> me /\ is_Some (w.(ql_x) !! p)).
  { intros p Hp. rewrite <- Htl in Hp. by apply (last_slot c Q [] HI' me Hu (IS r)). }
  pose proof (nil_ends _ _ _ _ Hc Htl) as Hnil.
  set (xs1 := <[me := MkQLp 0xdeadead None Sleeping]> w.(ql_x)).
  set (xs2 := match z.(rztail) with
              | Some p => match w.(ql_x) !! p with Some y => <[p := MkQLp y.(inuse) (Some me) y.(state)]> xs1 | None => xs1 end
              | None => xs1 end).
  assert (H2 : enqueued w.(ql_x) xs2 z.(rztail) me Sleeping).
  { subst xs2 xs1. destruct (rztail z) as [p|] eqn:Et.
    - destruct (Hlast p eq_refl) as (Hne & y & Hy). rewrite Hy. constructor.
      + rewrite lookup_insert_ne by done. apply lookup_insert_eq.
      + intros p' Hp' [= <-]. by rewrite lookup_insert_eq, Hy.
      + intros p' Hp' Hn. rewrite !lookup_insert_ne by congruence. done.
    - constructor; [apply lookup_insert_eq|done|]. intros p' Hp' _. by rewrite lookup_insert_ne. }
  exists me, (<[me := MkQLp 0xdeadead None Sleeping]> xs2). split_and!; [done|by eexists| |].
  { rewrite Htl. by apply (enqueued_set _ _ _ _ Sleeping). }
  intros k. eff_with Hget. erewrite eff_bind_ok by (apply setstate_run; simpl; apply lookup_insert_eq). cbn.
  rewrite insert_insert_eq. fold xs1.
  erewrite (eff_bind_ok _ _ _ (if nil z.(rzhead) then Some me else z.(rzhead)) (with_x (with_slot w me Sleeping) xs2)).
  - erewrite eff_bind_ok by (apply setnext_run; simpl; apply H2). cbn. unfold putz. eff_prim. done.
  - rewrite <- Hnil. subst xs2. destruct (rztail z) as [p|] eqn:Et; simpl; [|done].
    destruct (Hlast p eq_refl) as (Hne & y & Hy). rewrite Hy. eff_prim.
    erewrite eff_bind_ok by (apply setnext_run; simpl; subst xs1; rewrite lookup_insert_ne by done; exact Hy). done.
Qed.

Lemma rsleep_inv : reaches c t o' (rsleep s r w).
Proof.
  destruct (proj2 HI (IQ q) l Hl) as (Hc & Htl & Hn & Hle & He). pose proof (own_counted c t _ Hown) as H1.
  destruct (proj2 HI (IS r) z Hz) as (Hcz & Htz & Hkz).
  unfold rsleep. eff_with (deref_run rendezes r z w Hz). rewrite Hzl. eff_with (deref_run qlocks q l w Hl).
  destruct (Z.eqb_spec (locked l) 0); [lia|].
  destruct sleep_run as (me & xs' & Hu & Hme & Hq & Hrun). rewrite <- Hzl. rewrite Hrun. clear Hrun.
  pose proof (lose_but c Q t (Run v) (HQ q) HI Ht eq_refl ltac:(done) Hown) as HL. simpl in HL.
  set (c1 := MkConf w c.(pcs) o') in HL. set (w2 := slept w xs' me). set (Q2 := Q ++ [(IS r, (me, HQ q))]).
  assert (HI2 : Inv_but [IQ q] (MkConf w2 (<[t := Wait me (HQ q)]> c.(pcs)) o') Q2).
  { eapply (inv_enqueue c1 Q [IQ q] HL t (Run v) Ht eq_refl me Hu (IS r)); simpl; try done; eauto with qlk.
    - intros H%list_elem_of_singleton. done.
    - split_and!; simpl; eauto. intros r' z' Hz'. destruct (decide (r' = r)) as [->|].
      + rewrite lookup_insert_eq. eexists. split; [done|]. simpl. congruence.
      + rewrite lookup_insert_ne by done. eauto.
    - samelocks.
    - exists (MkRendez z.(rzl) (if nil z.(rzhead) then Some me else z.(rzhead)) (Some me)), q.
      split_and!; [apply lookup_insert_eq|done|done].
    - intros z'. rewrite lookup_insert_eq. intros [= <-].
      destruct (joined c Q [] (inv_but c Q [] HI) me Hu _ (IS r) (rzhead z) (HQ q) Sleeping Hcz Hq I) as [Hc' Hl'].
      split_and!; simpl; try done. }
  assert (HQq : Qof (IQ q) Q2 = Qof (IQ q) Q) by (by apply Qof_snoc_other).
  assert (Hc2 : chain w2.(ql_x) l.(head) (Qof (IQ q) Q2)).
  { rewrite HQq. eapply chain_frame; [exact Hc|]. intros p g Hin x Hx. exists x. split; [|done]. destruct Hq as [_ _ Hrest]. simpl.
    rewrite Hrest; [done|by apply (not_queued c Q [] (inv_but c Q [] HI) me Hu (IQ q) p g)|].
    intros (g2 & H2)%lastp_elem. pose proof (queues_disjoint c Q (proj1 HI) (IQ q) (IS r) p g g2) as Hd.
    rewrite <- !Qof_elem in Hd. by specialize (Hd Hin H2). }
  assert (Hcnt : cnt (<[t := Wait me (HQ q)]> c.(pcs)) o' (HQ q) = cnt c.(pcs) c.(own) (HQ q) - 1).
  { rewrite (count_lose c t v Ht _ (HQ q) (HQ q) Hown), one_same. simpl. lia. }
  assert (Hslot : is_Some (w2.(ql_x) !! me)) by (destruct Hq as [Hnew _ _]; simpl; by rewrite Hnew).
  set (c2 := MkConf w2 (<[t := Wait me (HQ q)]> c.(pcs)) o') in HI2.
  destruct (head l) as [p|] eqn:Hh.
  - destruct (chain_head _ _ _ Hc2) as (g & qs & x & HQe & Hx & _ & Hc').
    assert (Hfit : fits w2 (IQ q) g).
    { apply (b_fit c2 Q2 (proj1 HI2) (IQ q) p). apply Qof_elem. rewrite HQe. constructor. }
    destruct Hfit as [-> _]. unfold chain_out. rewrite eff_bind_assoc. eff_with (deref_run ql_x p x w2 Hx). eff_prim.
    destruct (pop_spec _ _ _ _ HQe) as (Q3 & Hqs & Hoth & Hsum & Hsub). eexists _, _, Q3. split; [reflexivity|]. simpl.
    rewrite <- (insert_insert_eq c.(pcs) t (Wake p (HQ q) (Some me)) (Wait me (HQ q))).
    apply (inv_local_gen c2 Q2 t (Wait me (HQ q)) _ (with_q w2 q _) o' Q3 (IQ q)); local_step.
    + apply lookup_insert_eq.
    + by intros p' [= <-].
    + intros f. simpl. rewrite Hsum. lia.
    + intros g Hg. simpl. rewrite (home_ne g (HQ q) (IQ q)) by done. lia.
    + intros l'. simpl. rewrite lookup_insert_eq. intros [= <-]. rewrite insert_insert_eq, Hqs.
      rewrite (count_lose c t v Ht _ (HQ q) (HQ q) Hown). simpl. rewrite one_same.
      split_and!; simpl; try done; try lia. rewrite HQq in HQe. rewrite HQe in Htl. destruct (next x) eqn:En.
      * rewrite <- Htl. symmetry. apply lastp_cons. by intros ->.
      * apply chain_nil in Hc'. by subst.
  - eexists _, _, Q2. split; [reflexivity|]. simpl.
    rewrite <- (insert_insert_eq c.(pcs) t (Wait me (HQ q)) (Wait me (HQ q))).
    apply (inv_local_gen c2 Q2 t (Wait me (HQ q)) _ (with_q w2 q _) o' Q2 (IQ q)); local_step.
    + apply lookup_insert_eq.
    + by intros p' [= <-].
    + intros l'. simpl. rewrite lookup_insert_eq. intros [= <-]. rewrite insert_insert_eq, Hcnt.
      pose proof (chain_nil _ _ Hc2) as HQ0. rewrite HQ0. rewrite HQq in HQ0. rewrite HQ0 in Htl. split_and!; simpl; try done; lia.
Qed.
End Sleep.

(** * Waking *)

(** One sleeper moves to the front of the queue of the lock. *)
Lemma rwakeup_inv c Q t x r q z l : Inv c Q -> c.(pcs) !! t = Some x -> idle x = true ->
  c.(world).(rendezes) !! r = Some z -> z.(rzl) = Some q -> c.(world).(qlocks) !! q = Some l -> (t, HQ q) ∈ c.(own) ->
  exists v w' Q', rwakeup r c.(world) = Ok (v, w') /\ Inv (MkConf w' c.(pcs) c.(own)) Q' /\ samekeys c.(world) w'.
Proof.
  intros HI Ht Hidle Hz Hzl Hl Hown. destruct (proj2 HI (IQ q) l Hl) as (Hc & Htl & Hn & Hle & He).
  destruct (proj2 HI (IS r) z Hz) as (Hcz & Htz & Hkz). pose proof (own_counted c t _ Hown) as H1. pose proof (proj1 HI) as HB.
  unfold rwakeup. eff_with (deref_run rendezes r z c.(world) Hz). rewrite Hzl. eff_with (deref_run qlocks q l c.(world) Hl).
  destruct (Z.eqb_spec (locked l) 0); [lia|]. destruct (rzhead z) as [p|] eqn:Hh.
  2:{ exists 0, c.(world), Q. split_and!; [reflexivity|by destruct c|apply keys_refl]. }
  destruct (chain_head _ _ _ Hcz) as (g & qs & y & HQe & Hy & _ & Hc').
  assert (Hin : (IS r, (p, g)) ∈ Q) by (apply Qof_elem; rewrite HQe; constructor).
  assert (g = HQ q) as ->.
  { destruct (b_fit c Q HB _ _ _ Hin) as (z' & q' & Hz' & Hq' & ->). rewrite Hz in Hz'. injection Hz' as <-. congruence. }
  unfold chain_out. rewrite eff_bind_assoc. eff_with (deref_run ql_x p y c.(world) Hy). eff_prim. unfold putz. eff_prim.
  erewrite eff_bind_ok by (apply setnext_run; simpl; exact Hy). cbn. unfold putq. eff_prim.
  erewrite eff_bind_ok by (apply setstate_run; simpl; apply lookup_insert_eq). cbn. rewrite insert_insert_eq.
  destruct (pop_spec _ _ _ _ HQe) as (Q1 & Hqs & Hoth & Hsum & Hsub).
  pose proof (queue_nodup c Q HB (IS r)) as Hnd. rewrite HQe in Hnd. apply list.NoDup_cons in Hnd as [Hpq _].
  assert (Hnq : p ∉ fst <$> Qof (IQ q) Q).
  { intros ([p' g'] & Hp' & H2)%list_elem_of_fmap. simpl in Hp'. subst p'.
    by pose proof (queues_disjoint c Q HB (IS r) (IQ q) p _ g' Hin (proj1 (Qof_elem _ _ _) H2)). }
  eexists 1, _, ((IQ q, (p, HQ q)) :: Q1). split; [reflexivity|].
  match goal with |- Inv (MkConf ?W _ _) _ /\ _ => set (w' := W) end.
  assert (Hk : samekeys c.(world) w').
  { split_and!; simpl; eauto; [intros; by apply insert_keys|]. intros r' z' Hz'. destruct (decide (r' = r)) as [->|].
    - rewrite lookup_insert_eq. eexists. split; [done|]. simpl. congruence.
    - rewrite lookup_insert_ne by done. eauto. }
  split; [|exact Hk].
  assert (Hxs : forall p', p' <> p -> w'.(ql_x) !! p' = c.(world).(ql_x) !! p') by (intros; simpl; by rewrite lookup_insert_ne).
  assert (Hxp : w'.(ql_x) !! p = Some (MkQLp y.(inuse) l.(head) Queuing)) by apply lookup_insert_eq.
  split; simpl.
  - rewrite <- (insert_id c.(pcs) t x Ht). apply (base_step c Q t x x); try done.
    + apply (b_cur c Q HB).
    + destruct (idle_none x Hidle) as (Sx & _). split_and!; [|by rewrite Sx|].
      * intros p'. destruct (decide (p' = p)) as [->|]; [rewrite Hxp, Hy; split; eauto|by rewrite Hxs].
      * intros p' z1 z2 Hz1 Hz2. pose proof (taken_slot c Q p' z1 HB Hz1). rewrite Z.sub_diag, Z.mul_0_r, Z.add_0_r.
        destruct (decide (p' = p)) as [->|]; [rewrite Hxp in Hz2; rewrite Hy in Hz1|rewrite Hxs, Hz1 in Hz2 by done];
          simplify_eq; done.
    + intros f. simpl. rewrite Hsum. lia.
    + intros i p' g' [H2|H2]%elem_of_cons; [simplify_eq; right|left; by apply Hsub].
      split; [done|]. simpl. apply insert_keys. by exists l.
    + intros r' i ->. destruct (b_loop c Q HB t r' i Ht) as (z' & q' & Hz' & Hq' & Hi'). destruct Hk as (_ & _ & Hk).
      destruct (Hk r' z' Hz') as (z2 & Hz2 & Hl2). exists z2, q'. split_and!; [done|congruence|done].
    + by intros q' p' ->.
  - intros j. destruct (decide (j = IQ q)) as [->|Hjq]; [|destruct (decide (j = IS r)) as [->|Hjr]].
    + intros l'. simpl. rewrite lookup_insert_eq. intros [= <-]. rewrite decide_True, Hoth by done. split_and!; simpl; try lia.
      * apply (chain_push c.(world).(ql_x) w'.(ql_x) (head l) (Qof (IQ q) Q) p (HQ q) _ Hc Hnq Hxs Hxp eq_refl I).
      * rewrite <- Htl. destruct (lastp (Qof (IQ q) Q)) eqn:El.
        -- destruct (Qof (IQ q) Q) eqn:EQ; [done|]. rewrite lastp_cons by done. done.
        -- apply lastp_nil in El. by rewrite El.
    + intros z'. simpl. rewrite lookup_insert_eq. intros [= <-]. rewrite Hqs. split_and!; simpl.
      * eapply chain_frame; [exact Hc'|]. intros p' g' Hp' z1 Hz1. exists z1. split; [|done]. rewrite <- Hz1. apply Hxs.
        intros ->. apply Hpq, list_elem_of_fmap. by exists (p, g').
      * rewrite HQe in Htz. destruct (next y) eqn:En.
        -- rewrite <- Htz. symmetry. apply lastp_cons. by intros ->.
        -- apply chain_nil in Hc'. by subst.
      * intros q' Hq'. apply insert_keys. apply Hkz. congruence.
    + eapply lock_ok_frame; [exact Hk| |apply (proj2 HI)]. split.
      { simpl. rewrite decide_False by congruence. by apply Hoth. }
      split.
      * intros p' g' Hp' z1 Hz1. exists z1. split; [|done]. rewrite <- Hz1. apply Hxs. intros ->.
        apply Hjr. by apply (queues_disjoint c Q HB j (IS r) p g' (HQ q)); [apply Qof_elem|].
      * destruct j; simpl; try done; rewrite lookup_insert_ne by congruence; done.
Qed.

(** A turn of [rwakeupall], from outside the call or inside it. *)
Lemma rwakeupall_inv c Q t x r i q z l : Inv c Q -> c.(pcs) !! t = Some x -> idle x = true ->
  c.(world).(rendezes) !! r = Some z -> z.(rzl) = Some q -> c.(world).(qlocks) !! q = Some l -> (t, HQ q) ∈ c.(own) ->
  reaches c t c.(own) (rwakeupall r i c.(world)).
Proof.
  intros HI Ht Hx Hz Hzl Hl Hown.
  destruct (rwakeup_inv c Q t x r q z l HI Ht Hx Hz Hzl Hl Hown) as (v & w' & Q' & Hrun & HI' & _ & _ & Hk).
  unfold rwakeupall. eff_with Hrun. eexists _, w', Q'. split; [reflexivity|].
  destruct (Z.eqb_spec v 0); apply (idle_inv (MkConf w' c.(pcs) c.(own)) Q' t x); try done.
  intros r' i' [= <- <-]. destruct (Hk r z Hz) as (z' & Hz' & Hl'). exists z', q. split_and!; [done|congruence|done].
Qed.

(** * Meeting *)

(** The slot is free again and the call returns with what it waited for. *)
Lemma free_inv c Q t mp g : Inv c Q -> c.(pcs) !! t = Some (Clear mp g) ->
  exists w' Q', setinuse mp 0 c.(world) = Ok (tt, w') /\ Inv (MkConf w' (<[t := Run 0]> c.(pcs)) ((t, g) :: c.(own))) Q'.
Proof.
  intros [HB Hok] Ht. pose proof (users_le c Q HB mp) as Hu.
  pose proof (msum_le (fun x => wt (one mp) (slot x)) ltac:(nn) _ t _ Ht) as Hge. simpl in Hge. rewrite one_same in Hge.
  fold (users c.(pcs) mp) in Hge.
  destruct (ql_x (world c) !! mp) as [x|] eqn:Hx; [|pose proof (b_out c Q HB mp Hx); lia].
  exists (with_x c.(world) (<[mp := MkQLp 0 x.(next) x.(state)]> c.(world).(ql_x))), Q. split.
  { unfold setinuse. by eff_with (deref_run ql_x mp x c.(world) Hx). }
  assert (Hk : samekeys c.(world) (with_x c.(world) (<[mp := MkQLp 0 x.(next) x.(state)]> c.(world).(ql_x)))) by (split_and!; eauto).
  assert (Hlk : forall p, p <> mp -> (<[mp := MkQLp 0 x.(next) x.(state)]> c.(world).(ql_x)) !! p = c.(world).(ql_x) !! p)
    by (intros; by rewrite lookup_insert_ne).
  split; simpl.
  - apply (base_step c Q t (Clear mp g) (Run 0)); simpl; try done; eauto with qlk.
    + apply (b_cur c Q HB).
    + split_and!; [|done|].
      * intros p. destruct (decide (p = mp)) as [->|]; [rewrite lookup_insert_eq, Hx; split; eauto|by rewrite Hlk].
      * intros p z z' Hz Hz'. pose proof (taken_slot c Q p z HB Hz). simpl. destruct (decide (p = mp)) as [->|Hne].
        -- rewrite lookup_insert_eq in Hz'. rewrite Hx in Hz. destruct (b_use c Q HB mp x Hx) as [_ Hi]. simplify_eq.
           rewrite one_same. unfold taken. simpl. lia.
        -- rewrite Hlk in Hz' by done. rewrite (one_ne p mp) by done. simplify_eq. split; [done|lia].
  - intros j. eapply lock_ok_frame; [exact Hk| |apply Hok].
    assert (Hcnt : forall g', cnt (<[t := Run 0]> c.(pcs)) ((t, g) :: c.(own)) g' = cnt c.(pcs) c.(own) g').
    { intros g'. rewrite (cnt_step _ c.(own) t _ _ _ g' Ht), occ_gain. simpl. lia. }
    split_and!; [done| |].
    + intros p g' _ z Hz. simpl. destruct (decide (p = mp)) as [->|]; [|exists z; by rewrite Hlk].
      rewrite lookup_insert_eq. rewrite Hx in Hz. simplify_eq. by eexists.
    + destruct j; simpl; rewrite ?Hcnt; [done| |done]. split_and!; try done.
      rewrite (drains_step _ t _ (Run 0) q Ht). simpl. lia.
Qed.

Section Meet.
Context (c : conf) (Q : list (qid * ent)) (HI : Inv c Q) (t u p : Z) (g : res) (x y : pc).
Context (Htu : t <> u) (Ht : c.(pcs) !! t = Some x) (Hu : c.(pcs) !! u = Some (Wait p g)) (Hx : target x = Some (p, g)).
Context (Hy : slot y = slot x) (Hsl : sleeps y = sleeps x) (Hty : target y = None) (Hgy : grant y = None)
  (Hdy : draining y = None) (Hag : forall r i, y <> Again r i).
Notation ps' := (<[u := Clear p g]> (<[t := y]> c.(pcs))).

Lemma meet_sum (f : pc -> Z) : msum f ps' = msum f c.(pcs) - f x + f y - f (Wait p g) + f (Clear p g).
Proof.
  assert (Hu' : <[t := y]> c.(pcs) !! u = Some (Wait p g)) by (by rewrite lookup_insert_ne).
  rewrite (msum_set f _ u _ _ Hu'), (msum_set f _ t _ _ Ht). lia.
Qed.

Lemma meet_grant : grant x = Some g.
Proof. by destruct x; simpl in *; simplify_eq. Qed.

Lemma meet_cnt g' : cnt ps' c.(own) g' = cnt c.(pcs) c.(own) g'.
Proof. unfold cnt. rewrite meet_sum, Hgy, meet_grant. simpl. lia. Qed.

Lemma meet_drains q : drains ps' q = drains c.(pcs) q - wt (one q) (draining x).
Proof. unfold drains. rewrite meet_sum, Hdy. simpl. lia. Qed.

Lemma meet_base : Base (MkConf c.(world) ps' c.(own)) Q.
Proof.
  pose proof (proj1 HI) as HB. destruct HB as [Bdom Bcur Buse Bout Bsleep Bfit Bloop Bdrain].
  assert (Hus : forall p', users ps' p' = users c.(pcs) p') by (intros p'; unfold users; rewrite meet_sum, Hy; simpl; lia).
  constructor; simpl; try done.
  - intros p' z Hz. rewrite Hus. by apply Buse.
  - intros p' Hn. rewrite Hus. by apply Bout.
  - intros f. specialize (Bsleep f). unfold sleepers, wakers in *. rewrite !meet_sum, Hsl, Hty, Hx. simpl. lia.
  - intros s r i. destruct (decide (s = u)) as [->|]; [by rewrite lookup_insert_eq|]. rewrite lookup_insert_ne by done.
    destruct (decide (s = t)) as [->|]; [rewrite lookup_insert_eq; intros [= ->]; by destruct (Hag r i)|].
    rewrite lookup_insert_ne by done. apply Bloop.
  - intros s q p'. destruct (decide (s = u)) as [->|]; [by rewrite lookup_insert_eq|]. rewrite lookup_insert_ne by done.
    destruct (decide (s = t)) as [->|]; [rewrite lookup_insert_eq; intros [= ->]; done|].
    rewrite lookup_insert_ne by done. apply Bdrain.
Qed.

Lemma meet_but i : (forall q, i <> IW q -> wt (one q) (draining x) = 0) -> Inv_but [i] (MkConf c.(world) ps' c.(own)) Q.
Proof.
  intros Hd. split; [exact meet_base|]. intros j Hj. simpl. eapply lock_ok_frame; [apply keys_refl| |apply (proj2 HI)].
  assert (Hji : j <> i) by (intros ->; by apply Hj, list_elem_of_singleton).
  split_and!; [done|intros p' g' _ z Hz; by exists z|]. destruct j as [q|q|r]; simpl; rewrite ?meet_cnt; [done| |done].
  split_and!; try done. rewrite meet_drains, Hd by congruence. lia.
Qed.
End Meet.

(** A process that wakes another meets the one that sleeps on the slot. *)
Lemma meet_inv c Q t u p g x : Inv c Q -> t <> u -> c.(pcs) !! t = Some x -> c.(pcs) !! u = Some (Wait p g) ->
  target x = Some (p, g) -> exists a w' Q', resume x c.(world) = Ok (a, w') /\
    Inv (settled t a (MkConf w' (<[u := Clear p g]> c.(pcs)) c.(own))) Q'.
Proof.
  intros HI Htu Ht Hu Hx.
  assert (Hcase : (exists y, resume x c.(world) = Ok (y, c.(world)) /\
      (y = Ret 0 None /\ slot x = None /\ sleeps x = None \/ exists me, y = Go (Wait me g) /\ slot x = Some me /\ sleeps x = Some (me, g)) /\
      draining x = None) \/ exists q, x = Drain q p /\ g = HR q).
  { destruct x as [| | |p' g' [me|]|q p'|]; simpl in Hx; simplify_eq; [left|left|right; eauto].
    - exists (Go (Wait me g)). split_and!; [done|right; eauto|done].
    - exists (Ret 0 None). split_and!; [done|by left|done]. }
  destruct Hcase as [(a & Hrun & Ha & Hd)|(q & -> & ->)].
  - exists a, c.(world), Q. split; [done|].
    destruct Ha as [(-> & Hs & Hl)|(me & -> & Hs & Hl)]; simpl; rewrite insert_insert_ne by done.
    all: split; simpl; [eapply (meet_base c Q HI t u p g x); simpl; try done; congruence|].
    all: intros j; eapply lock_ok_frame; [apply keys_refl| |apply (proj2 HI)].
    all: split_and!; [done|intros p' g' _ z Hz; by exists z|].
    all: destruct j as [q|q|r]; simpl; rewrite ?(meet_cnt c t u p g x) by done; [done| |done]; split_and!; try done.
    all: rewrite (meet_drains c t u p g x) by done; rewrite Hd; simpl; lia.
  - set (c1 := MkConf c.(world) (<[u := Clear p (HR q)]> (<[t := Run 0]> c.(pcs))) c.(own)).
    assert (HI1 : Inv_but [IW q] c1 Q).
    { eapply (meet_but c Q HI t u p (HR q) (Drain q p)); simpl; try done. intros q' Hq'. apply one_ne. congruence. }
    assert (Hdr : 1 <= drains c.(pcs) q).
    { pose proof (msum_le (fun x => wt (one q) (draining x)) ltac:(nn) _ t _ Ht) as H. simpl in H. by rewrite one_same in H. }
    destruct (b_drain c Q (proj1 HI) t q p Ht) as [l Hl]. destruct (proj2 HI (IW q) l Hl) as (Hc & Hr & Hdd & Hlk).
    destruct (rwlk l) eqn:Hb; [|lia]. destruct Hlk as (Htl & Hnw & Hnr & Hlim).
    destruct (wunlock_loop_inv c1 Q t (Run 0) q l) as (a & w' & Q' & Hrun & HI'); simpl; try done.
    + rewrite lookup_insert_ne by done. apply lookup_insert_eq.
    + by rewrite (meet_cnt c t u p (HR q) (Drain q p)).
    + by rewrite (meet_cnt c t u p (HR q) (Drain q p)).
    + rewrite (meet_drains c t u p (HR q) (Drain q p)) by done. simpl. rewrite one_same. lia.
    + by rewrite (meet_cnt c t u p (HR q) (Drain q p)).
    + intros _ _ _ _. by rewrite (meet_cnt c t u p (HR q) (Drain q p)).
    + exists a, w', Q'. split; [exact Hrun|].
      assert (E : forall y, <[t := y]> (<[u := Clear p (HR q)]> (<[t := Run 0]> c.(pcs))) = <[t := y]> (<[u := Clear p (HR q)]> c.(pcs))).
      { intros y. by rewrite (insert_insert_ne c.(pcs) u t), insert_insert_eq. }
      destruct a as [v got|y]; simpl in *; by rewrite E in HI'.
Qed.
