(* ===== verification/QLockScan.v ===== *)
(** Scans of the table of slots of [qlock.c], one [_tas] at a time.

    Processes that hold the spin locks of different locks run [getqlp] at the
    same time, and others give slots back meanwhile.  Here each access of the
    shared table is a step of its own.  What the other files use of it: a scan
    comes to an end by itself, with a slot that was free when it took it
    ([getqlp_race]), and no two processes have the same slot.  A scan may also
    come round without a slot although few are in use at any time: the one that
    another process has moves on ahead of it. *)

From S2P Require Import Prelude Eff QLock QLockInv QLockSteps.

(** Where a process is in its scan: before the next [_tas], with the slot [op]
    at which the scan stops; past the [_tas] that found [p] free, before
    [ql.p = p]; before [p->next = nil]; with the slot. *)
Inductive scan :=
  | Out
  | Scan (p op : Z)
  | Found (p : Z)
  | Noted (p : Z)
  | Has (p : Z).

Record table := MkTable { tab : World; scans : gmap Z scan }.

Inductive access :=
  | Begin (t : Z)     (* [op = ql.p; p = op+1] *)
  | Test (t : Z)      (* the tests of the loop, up to the [_tas] *)
  | Note (t : Z)      (* [ql.p = p] *)
  | Clean (t : Z)     (* [p->next = nil] *)
  | Give (t : Z).     (* [mp->inuse = 0] *)

Definition intab {A} (f : eff World A) : eff table A := fun c =>
  match f c.(tab) with
  | Ok (x, w) => Ok (x, MkTable w c.(scans))
  | Abort => Abort
  | Fault => Fault
  end.

Definition goes (t : Z) (x : scan) : eff table unit := modify (fun c => MkTable c.(tab) (<[t := x]> c.(scans))).

Definition access1 (e : access) : eff table unit :=
  match e with
  | Begin t =>
      x ← deref scans t;
      match x with Out => op ← intab (gets ql_p); goes t (Scan (op + 1) op) | _ => fault end
  | Test t =>
      x ← deref scans t;
      match x with
      | Scan p op =>
          let p := if p =? nelem_ql then 0 else p in
          if p =? op then abort else
          old ← intab (tas_inuse p);
          goes t (if old =? 0 then Found p else Scan (p + 1) op)
      | _ => fault
      end
  | Note t => x ← deref scans t; match x with Found p => intab (putp p);; goes t (Noted p) | _ => fault end
  | Clean t => x ← deref scans t; match x with Noted p => intab (setnext p None);; goes t (Has p) | _ => fault end
  | Give t => x ← deref scans t; match x with Has p => intab (setinuse p 0);; goes t Out | _ => fault end
  end.

(** The slot that a process took. *)
Definition held (x : scan) : option Z := match x with Found p | Noted p | Has p => Some p | _ => None end.

(** The tests that a scan has before it. *)
Definition left_of (p op : Z) : Z := (op - p) mod nelem_ql.

Definition scan_ok (x : scan) : Prop :=
  match x with
  | Scan p op => 0 <= op < nelem_ql /\ 0 <= p <= nelem_ql
  | _ => True
  end.

(** Each slot is in use when one process took it, and free otherwise. *)
Record Tab (c : table) : Prop := {
  t_dom p : is_Some (c.(tab).(ql_x) !! p) <-> 0 <= p < nelem_ql;
  t_cur : 0 <= c.(tab).(ql_p) < nelem_ql;
  t_use p x : c.(tab).(ql_x) !! p = Some x ->
    msum (fun s => wt (one p) (held s)) c.(scans) <= 1 /\
    x.(inuse) = 0xdeadead * msum (fun s => wt (one p) (held s)) c.(scans);
  t_held t x p : c.(scans) !! t = Some x -> held x = Some p -> 0 <= p < nelem_ql;
  t_scan t x : c.(scans) !! t = Some x -> scan_ok x
}.

(** Accesses one after the other, as long as none aborts. *)
Fixpoint accesses (es : list access) (c : table) : option table :=
  match es with
  | [] => Some c
  | e :: es => match access1 e c with Ok (_, c') => accesses es c' | _ => None end
  end.

(** No process has a slot yet. *)
Definition untaken (c : table) : Prop :=
  (forall p, is_Some (c.(tab).(ql_x) !! p) <-> 0 <= p < nelem_ql) /\ 0 <= c.(tab).(ql_p) < nelem_ql /\
  (forall p x, c.(tab).(ql_x) !! p = Some x -> x.(inuse) = 0) /\ (forall t x, c.(scans) !! t = Some x -> x = Out).

(** * Every access keeps the table in order *)

Notation hands p := (fun s => wt (one p) (held s)).

Lemma table_start c : untaken c -> Tab c.
Proof.
  intros (Hd & Hc & Hu & Ho).
  assert (H0 : forall p, msum (hands p) c.(scans) = 0).
  { intros p. clear Hd Hc Hu. induction c.(scans) as [|t x m Ht IH] using map_ind; [done|]. rewrite msum_new by done.
    rewrite (Ho t x) by apply lookup_insert_eq. simpl. apply IH. intros u y Hy. apply (Ho u).
    rewrite lookup_insert_ne; [done|congruence]. }
  constructor; try done.
  - intros p x Hx. rewrite H0, (Hu p x Hx). lia.
  - intros t x p Ht. by rewrite (Ho t x Ht).
  - intros t x Ht. by rewrite (Ho t x Ht).
Qed.

(** The slots after a step in which [t] takes, keeps or gives back. *)
Lemma table_step c t x y w' : Tab c -> c.(scans) !! t = Some x -> scan_ok y -> 0 <= w'.(ql_p) < nelem_ql ->
  (forall p, is_Some (w'.(ql_x) !! p) <-> is_Some (c.(tab).(ql_x) !! p)) ->
  (forall p, held y = Some p -> is_Some (c.(tab).(ql_x) !! p)) ->
  (forall p z z', c.(tab).(ql_x) !! p = Some z -> w'.(ql_x) !! p = Some z' ->
     taken z' /\ z'.(inuse) = z.(inuse) + 0xdeadead * (wt (one p) (held y) - wt (one p) (held x))) ->
  Tab (MkTable w' (<[t := y]> c.(scans))).
Proof.
  intros [Td Tc Tu Th Ts] Ht Hy Hc Hd Hh Hx. constructor; simpl.
  - intros p. by rewrite Hd.
  - done.
  - intros p z' Hz'. destruct (proj1 (Hd p) ltac:(by eexists)) as [z Hz]. destruct (Hx p z z' Hz Hz') as [Htk Hi].
    destruct (Tu p z Hz) as [Hle Hz0]. rewrite (msum_set (hands p) _ t x y Ht). unfold taken in Htk. lia.
  - intros u z p. destruct (decide (u = t)) as [->|]; [rewrite lookup_insert_eq; intros [= <-] Hp|rewrite lookup_insert_ne by done; apply Th].
    by apply Td, Hh.
  - intros u z. destruct (decide (u = t)) as [->|]; [rewrite lookup_insert_eq; by intros [= <-]|rewrite lookup_insert_ne by done; apply Ts].
Qed.

Lemma table_taken c p z : Tab c -> c.(tab).(ql_x) !! p = Some z -> taken z.
Proof.
  intros HT Hz. destruct (t_use c HT p z Hz) as [Hle Hi].
  assert (0 <= msum (hands p) c.(scans)) by (apply msum_nonneg; nn). unfold taken. lia.
Qed.

Lemma intab_run {A} (f : eff World A) c x w' : f c.(tab) = Ok (x, w') -> intab f c = Ok (x, MkTable w' c.(scans)).
Proof. intros H. unfold intab. by rewrite H. Qed.

(** A slot is written, and what it says of its use changes with the process. *)
Lemma table_write c t x y p z z' w' : Tab c -> c.(scans) !! t = Some x -> scan_ok y ->
  c.(tab).(ql_x) !! p = Some z -> w'.(ql_x) = <[p := z']> c.(tab).(ql_x) -> w'.(ql_p) = c.(tab).(ql_p) ->
  taken z' -> z'.(inuse) = z.(inuse) + 0xdeadead * (wt (one p) (held y) - wt (one p) (held x)) ->
  (forall q, q <> p -> wt (one q) (held y) = wt (one q) (held x)) ->
  (forall q, held y = Some q -> is_Some (c.(tab).(ql_x) !! q)) ->
  Tab (MkTable w' (<[t := y]> c.(scans))).
Proof.
  intros HT Ht Hy Hz Hw Hp Htk Hi Hoth Hh. apply (table_step c t x y w' HT Ht Hy).
  - rewrite Hp. apply (t_cur c HT).
  - intros q. rewrite Hw. destruct (decide (q = p)) as [->|]; [rewrite lookup_insert_eq, Hz; split; eauto|by rewrite lookup_insert_ne].
  - done.
  - intros q z1 z2 Hz1. rewrite Hw. destruct (decide (q = p)) as [->|Hne].
    + rewrite lookup_insert_eq. intros [= <-]. rewrite Hz in Hz1. by simplify_eq.
    + rewrite lookup_insert_ne, Hz1 by done. intros [= <-]. split; [by eapply table_taken|]. rewrite Hoth by done. lia.
Qed.

Lemma table_same c t x y : Tab c -> c.(scans) !! t = Some x -> scan_ok y -> held y = held x ->
  Tab (MkTable c.(tab) (<[t := y]> c.(scans))).
Proof.
  intros HT Ht Hy Hh. apply (table_step c t x y c.(tab) HT Ht Hy); try done; [apply (t_cur c HT)| |].
  - rewrite Hh. intros p Hp. apply (t_dom c HT). by apply (t_held c HT t x).
  - intros p z z' Hz Hz'. rewrite Hz in Hz'. simplify_eq. rewrite Hh. split; [by eapply table_taken|lia].
Qed.

(** One test of a scan. *)
Definition wrapped (p : Z) : Z := if p =? nelem_ql then 0 else p.

Lemma wrapped_range p : 0 <= p <= nelem_ql -> 0 <= wrapped p < nelem_ql.
Proof. unfold wrapped, nelem_ql. destruct (Z.eqb_spec p 1024); lia. Qed.

Lemma left_wrapped p op : left_of (wrapped p) op = left_of p op.
Proof.
  unfold left_of, wrapped. destruct (Z.eqb_spec p nelem_ql) as [->|]; [|done]. unfold nelem_ql. Z.div_mod_to_equations. lia.
Qed.

Lemma left_next q op : 0 <= op < nelem_ql -> 0 <= q < nelem_ql -> q <> op -> left_of (q + 1) op = left_of q op - 1.
Proof. unfold left_of, nelem_ql. intros. Z.div_mod_to_equations. lia. Qed.

(** What a test does. *)
Definition tested (c : table) (t p op : Z) (x : QLp) : table :=
  MkTable (with_x c.(tab) (<[wrapped p := MkQLp 0xdeadead x.(next) x.(state)]> c.(tab).(ql_x)))
    (<[t := if x.(inuse) =? 0 then Found (wrapped p) else Scan (wrapped p + 1) op]> c.(scans)).

Lemma test_run c t p op : Tab c -> c.(scans) !! t = Some (Scan p op) ->
  if wrapped p =? op then access1 (Test t) c = Abort
  else exists x, c.(tab).(ql_x) !! wrapped p = Some x /\ access1 (Test t) c = Ok (tt, tested c t p op x).
Proof.
  intros HT Ht. pose proof (t_scan c HT t _ Ht) as [Hop Hp].
  destruct (proj2 (t_dom c HT (wrapped p)) (wrapped_range p Hp)) as [x Hx].
  unfold access1. eff_prim. fold (wrapped p). destruct (wrapped p =? op); [done|].
  exists x. split; [done|]. erewrite eff_bind_ok by (apply intab_run, tas_run; exact Hx). done.
Qed.

Lemma tested_table c t p op x : Tab c -> c.(scans) !! t = Some (Scan p op) -> c.(tab).(ql_x) !! wrapped p = Some x ->
  Tab (tested c t p op x).
Proof.
  intros HT Ht Hx. pose proof (t_scan c HT t _ Ht) as [Hop Hp]. pose proof (wrapped_range p Hp) as Hw.
  pose proof (table_taken c _ x HT Hx) as Htk. unfold tested.
  apply (table_write c t _ _ (wrapped p) x (MkQLp 0xdeadead x.(next) x.(state)) _ HT Ht); try done; [|by right|..].
  - destruct (inuse x =? 0); simpl; lia.
  - simpl. destruct (Z.eqb_spec (inuse x) 0) as [E|E]; simpl; [rewrite one_same; lia|]. destruct Htk; [done|lia].
  - intros q Hq. destruct (inuse x =? 0); simpl; [apply one_ne; congruence|done].
  - intros q. destruct (inuse x =? 0); simpl; [intros [= <-]; by eexists|done].
Qed.

(** Every access that is made keeps the table in order. *)
Lemma access_table e c c' : Tab c -> access1 e c = Ok (tt, c') -> Tab c'.
Proof.
  intros HT. destruct e as [t|t|t|t|t].
  - unfold access1. intros H. apply eff_bind_inv in H as (x & c1 & Hx & H). unfold deref in Hx.
    destruct (scans c !! t) as [y|] eqn:Ht; [|done]. simplify_eq. destruct x; try done.
    injection H as <-. apply (table_same c1 t _ _ HT Ht); [|done]. pose proof (t_cur c1 HT). simpl. lia.
  - intros H. destruct (scans c !! t) as [[|p op| | |]|] eqn:Ht;
      try (unfold access1, mbind, eff_bind, deref in H; rewrite Ht in H; done).
    pose proof (test_run c t p op HT Ht) as Hr. destruct (wrapped p =? op); [congruence|].
    destruct Hr as (x & Hx & Hr). rewrite Hr in H. injection H as <-. by apply tested_table.
  - unfold access1. intros H. apply eff_bind_inv in H as (x & c1 & Hx & H). unfold deref in Hx.
    destruct (scans c !! t) as [y|] eqn:Ht; [|done]. simplify_eq. destruct x as [| |p| |]; try done.
    injection H as <-. apply (table_step c1 t _ _ _ HT Ht); simpl; try done.
    + by apply (t_held c1 HT t _ p Ht).
    + intros q [= <-]. apply (t_dom c1 HT). by apply (t_held c1 HT t _ p Ht).
    + intros q z z' Hz Hz'. rewrite Hz in Hz'. simplify_eq. split; [by eapply table_taken|lia].
  - unfold access1. intros H. apply eff_bind_inv in H as (x & c1 & Hx & H). unfold deref in Hx.
    destruct (scans c !! t) as [y|] eqn:Ht; [|done]. simplify_eq. destruct x as [| | |p|]; try done.
    destruct (proj2 (t_dom c1 HT p) (t_held c1 HT t _ p Ht eq_refl)) as [z Hz].
    erewrite eff_bind_ok in H by (apply intab_run, setnext_run; exact Hz). injection H as <-.
    apply (table_write c1 t _ _ p z (MkQLp z.(inuse) None z.(state)) _ HT Ht); simpl; try done.
    + apply (table_taken c1 p z HT Hz).
    + lia.
    + intros q [= <-]. by eexists.
  - unfold access1. intros H. apply eff_bind_inv in H as (x & c1 & Hx & H). unfold deref in Hx.
    destruct (scans c !! t) as [y|] eqn:Ht; [|done]. simplify_eq. destruct x as [| | | |p]; try done.
    destruct (proj2 (t_dom c1 HT p) (t_held c1 HT t _ p Ht eq_refl)) as [z Hz].
    assert (Hset : setinuse p 0 c1.(tab) = Ok (tt, with_x c1.(tab) (<[p := MkQLp 0 z.(next) z.(state)]> c1.(tab).(ql_x)))).
    { unfold setinuse. by eff_with (deref_run ql_x p z _ Hz). }
    erewrite eff_bind_ok in H by (apply intab_run; exact Hset). injection H as <-.
    destruct (t_use c1 HT p z Hz) as [Hle Hi].
    pose proof (msum_le (hands p) ltac:(nn) _ t _ Ht) as Hge. simpl in Hge. rewrite one_same in Hge.
    apply (table_write c1 t _ _ p z (MkQLp 0 z.(next) z.(state)) _ HT Ht); simpl; try done.
    + by left.
    + rewrite one_same. lia.
    + intros q Hq. symmetry. apply one_ne. congruence.
Qed.

Lemma accesses_table es : forall c c', Tab c -> accesses es c = Some c' -> Tab c'.
Proof.
  induction es as [|e es IH]; intros c c' HT; simpl; [by intros [= <-]|].
  destruct (access1 e c) as [[[] c1]| |] eqn:He; try done. apply IH. by eapply access_table.
Qed.

Lemma table_unique c t u x y p : Tab c -> c.(scans) !! t = Some x -> c.(scans) !! u = Some y ->
  held x = Some p -> held y = Some p -> t = u.
Proof.
  intros HT Ht Hu Hx Hy. destruct (decide (t = u)) as [|Hne]; [done|exfalso].
  destruct (proj2 (t_dom c HT p) (t_held c HT t x p Ht Hx)) as [z Hz]. destruct (t_use c HT p z Hz) as [Hle _].
  pose proof (msum_two (hands p) _ t u x y ltac:(nn) Hne Ht Hu) as H. simpl in H. rewrite Hx, Hy in H. simpl in H.
  rewrite one_same in H. lia.
Qed.

(** * A scan ends *)

Definition tests (t : Z) (es : list access) : Z :=
  lsum (fun e => match e with Test u => if u =? t then 1 else 0 | _ => 0 end) es.

Definition mover (e : access) : Z := match e with Begin t | Test t | Note t | Clean t | Give t => t end.

Lemma access_frame e c c' t : mover e <> t -> access1 e c = Ok (tt, c') -> c'.(scans) !! t = c.(scans) !! t.
Proof.
  unfold access1, goes, intab, mbind, eff_bind, deref, gets, modify, mret, eff_ret, abort, fault.
  destruct e as [u|u|u|u|u]; simpl; intros Hu H; repeat case_match; simplify_eq; simpl; by rewrite lookup_insert_ne.
Qed.

(** How many tests a process still has before it. *)
Definition rank (c : table) (t : Z) : Z :=
  match c.(scans) !! t with Some (Scan p op) => left_of p op | _ => 0 end.

Lemma rank_range c t : 0 <= rank c t < nelem_ql.
Proof.
  unfold rank. destruct (scans c !! t) as [[|p op| | |]|]; try done. unfold left_of, nelem_ql. Z.div_mod_to_equations. lia.
Qed.

Lemma rank_step e c c' t : Tab c -> access1 e c = Ok (tt, c') -> e <> Begin t -> rank c' t + tests t [e] <= rank c t.
Proof.
  intros HT H Hb. destruct (decide (mover e = t)) as [<-|Hne].
  2:{ unfold rank, tests. rewrite (access_frame e c c' t Hne H). destruct e as [u|u|u|u|u]; simpl in *; try lia. destruct (Z.eqb_spec u t); [done|lia]. }
  destruct e as [t|t|t|t|t]; simpl in *; [done| |..].
  2-4: unfold goes, intab, mbind, eff_bind, deref, modify in H; repeat case_match; simplify_eq; unfold rank, tests; simpl;
    rewrite lookup_insert_eq; repeat case_match; simplify_eq; lia.
  - unfold tests, rank at 2. simpl. rewrite Z.eqb_refl. destruct (scans c !! t) as [[|p op| | |]|] eqn:Ht;
      try (unfold mbind, eff_bind, deref in H; rewrite Ht in H; done).
    pose proof (test_run c t p op HT Ht) as Hr. simpl in Hr. pose proof (t_scan c HT t _ Ht) as [Hop Hp].
    pose proof (wrapped_range p Hp) as Hw. destruct (Z.eqb_spec (wrapped p) op) as [|Hne]; [congruence|].
    destruct Hr as (x & Hx & Hr). rewrite Hr in H. injection H as <-. unfold rank. simpl. rewrite lookup_insert_eq.
    rewrite <- (left_wrapped p). assert (0 < left_of (wrapped p) op).
    { unfold left_of, nelem_ql in *. Z.div_mod_to_equations. lia. }
    destruct (inuse x =? 0); [lia|]. rewrite left_next by done. lia.
Qed.

Lemma rank_accesses es : forall c c' t, Tab c -> accesses es c = Some c' -> Begin t ∉ es -> rank c' t + tests t es <= rank c t.
Proof.
  induction es as [|e es IH]; intros c c' t HT; simpl; [intros [= <-] _; unfold tests; simpl; lia|].
  destruct (access1 e c) as [[[] c1]| |] eqn:He; try done. intros Hr [He1 Hes]%not_elem_of_cons.
  specialize (IH c1 c' t (access_table e c c1 HT He) Hr Hes). pose proof (rank_step e c c1 t HT He ltac:(congruence)) as H.
  unfold tests in *. simpl in *. lia.
Qed.

(** * What the scans come to *)

(** The slot [p] is in use because some process took it. *)
Definition taker (c : table) (p : Z) : Prop := exists t x, c.(scans) !! t = Some x /\ held x = Some p.

Lemma table_free c p x : Tab c -> c.(tab).(ql_x) !! p = Some x -> x.(inuse) <> 0 <-> taker c p.
Proof.
  intros HT Hx. destruct (t_use c HT p x Hx) as [_ Hi]. split.
  - intros Hne. destruct (msum_pos (hands p) ltac:(nn) c.(scans)) as (t & y & Ht & Hy).
    + assert (0 <= msum (hands p) c.(scans)) by (apply msum_nonneg; nn). lia.
    + exists t, y. split; [done|]. destruct (held y) as [q|]; simpl in Hy; [|lia]. unfold one in Hy. case_decide; [by subst|lia].
  - intros (t & y & Ht & Hy). pose proof (msum_le (hands p) ltac:(nn) _ t _ Ht) as Hge. simpl in Hge.
    rewrite Hy in Hge. simpl in Hge. rewrite one_same in Hge. lia.
Qed.

(** The rest of [getqlp], once its [_tas] found the slot free. *)
Lemma taken_runs c t p op x w' : Tab c -> c.(scans) !! t = Some (Scan p op) -> wrapped p <> op ->
  c.(tab).(ql_x) !! wrapped p = Some x -> x.(inuse) = 0 -> getqlp_race (Some (wrapped p)) c.(tab) = Ok (wrapped p, w') ->
  accesses [Test t; Note t; Clean t] c = Some (MkTable w' (<[t := Has (wrapped p)]> c.(scans))).
Proof.
  intros HT Ht Hop Hx Hi Hrace. rewrite (getqlp_race_run _ _ _ Hx Hi) in Hrace. injection Hrace as <-.
  pose proof (test_run c t p op HT Ht) as Hr. destruct (Z.eqb_spec (wrapped p) op); [done|].
  destruct Hr as (x' & Hx' & Hr). rewrite Hx in Hx'. simplify_eq. cbn [accesses]. rewrite Hr. unfold tested. rewrite Hi. simpl.
  unfold mbind, eff_bind, deref, goes, intab, modify, mret, eff_ret. simpl. rewrite !lookup_insert_eq. simpl.
  rewrite !lookup_insert_eq. erewrite setnext_run by (simpl; apply lookup_insert_eq). simpl.
  rewrite !insert_insert_eq. done.
Qed.

(** C38. However the scans of [getqlp] and the releases of slots by any number
    of processes interleave, one access of the table at a time: no two processes
    have the same slot, and a slot is in use exactly when a process has taken
    it; a scan that comes to a slot which is free at that moment takes it, with
    the effect of [getqlp_race]; it goes on past a slot in use, and aborts only
    when it is back where it began; and it ends after at most 1023 tests,
    whatever the others do. *)
Theorem scans_share_slots (es : list access) (c0 c : table) :
  untaken c0 -> accesses es c0 = Some c ->
  (forall t u x y p, c.(scans) !! t = Some x -> c.(scans) !! u = Some y -> held x = Some p -> held y = Some p -> t = u) /\
  (forall p x, c.(tab).(ql_x) !! p = Some x -> x.(inuse) <> 0 <-> taker c p) /\
  (forall t p op, c.(scans) !! t = Some (Scan p op) ->
     if wrapped p =? op then access1 (Test t) c = Abort else
     exists x, c.(tab).(ql_x) !! wrapped p = Some x /\
       if x.(inuse) =? 0 then
         forall w', getqlp_race (Some (wrapped p)) c.(tab) = Ok (wrapped p, w') ->
         accesses [Test t; Note t; Clean t] c = Some (MkTable w' (<[t := Has (wrapped p)]> c.(scans)))
       else exists c', access1 (Test t) c = Ok (tt, c') /\ c'.(scans) !! t = Some (Scan (wrapped p + 1) op)) /\
  (forall t es' c', accesses es' c = Some c' -> Begin t ∉ es' -> tests t es' <= 1023).
Proof.
  intros Hu%table_start Hes. pose proof (accesses_table es c0 c Hu Hes) as HT. split_and!.
  - intros t u x y p. by apply table_unique.
  - intros p x. by apply table_free.
  - intros t p op Ht. pose proof (test_run c t p op HT Ht) as Hr. destruct (Z.eqb_spec (wrapped p) op) as [|Hop]; [done|].
    destruct Hr as (x & Hx & Hr). exists x. split; [done|]. destruct (Z.eqb_spec (inuse x) 0) as [Hi|Hi].
    + intros w'. by apply (taken_runs c t p op x).
    + eexists. split; [exact Hr|]. simpl. rewrite lookup_insert_eq. by destruct (Z.eqb_spec (inuse x) 0).
  - intros t es' c' Hr Hb. pose proof (rank_accesses es' c c' t HT Hr Hb). pose proof (rank_range c t).
    pose proof (rank_range c' t). unfold nelem_ql in *. lia.
Qed.

(** * A scan that starves *)

Definition table0 : table :=
  MkTable (MkWorld slots0 0 ∅ ∅ ∅) {[ 1 := Out; 2 := Out ]}.

(** A process takes a slot, and gives it back. *)
Definition take (t : Z) : list access := [Begin t; Test t; Note t; Clean t].

(** The second process takes the slot that the first comes to next, each time. *)
Definition chase : list access :=
  Begin 1 :: take 2 ++ mjoin ((fun _ => Test 1 :: Give 2 :: take 2) <$> seqZ 1 1023).

Definition in_use (c : table) : Z := msum (fun x => if x.(inuse) =? 0 then 0 else 1) c.(tab).(ql_x).

(** Two processes are enough for the abort of [getqlp]: the scan comes round
    although 1023 of the 1024 slots are free. *)
Lemma scan_can_starve : exists c, accesses chase table0 = Some c /\ in_use c = 1 /\ access1 (Test 1) c = Abort.
Proof.
  assert (H : (c ← accesses chase table0;
    Some (in_use c, match access1 (Test 1) c with Abort => true | _ => false end)) = Some (1, true)) by (vm_compute; reflexivity).
  destruct (accesses chase table0) as [c|]; [|done]. exists c. change (Some (in_use c, match access1 (Test 1) c with Abort => true | _ => false end) = Some (1, true)) in H.
  assert (H1 : in_use c = 1) by congruence. split_and!; [done|done|].
  destruct (access1 (Test 1) c); [congruence|done|congruence].
Qed.

Lemma table0_untaken : untaken table0.
Proof.
  split_and!; [|done|done| |].
  - intros p. cbn. rewrite slots0_lookup. case_bool_decide; [split; eauto|]. split; [intros [? [=]]|done].
  - intros p x. cbn. rewrite slots0_lookup. case_bool_decide; [|done]. by intros [= <-].
  - intros t x. cbn. rewrite lookup_insert_Some, lookup_singleton_Some. naive_solver.
Qed.

(** The first process comes to the slot that the second has. *)
Definition table1 : table := default table0 (accesses (Begin 1 :: take 2) table0).

Lemma scans_share_slots_witness : exists x, table1.(tab).(ql_x) !! 1 = Some x /\ x.(inuse) <> 0 /\
  exists c', access1 (Test 1) table1 = Ok (tt, c') /\ c'.(scans) !! 1 = Some (Scan 2 0).
Proof.
  destruct (scans_share_slots (Begin 1 :: take 2) table0 table1 table0_untaken) as (_ & _ & H & _); [vm_compute; reflexivity|].
  specialize (H 1 1 0 ltac:(vm_compute; reflexivity)). change (wrapped 1) with 1 in H.
  change (1 =? 0) with false in H. cbv iota in H. destruct H as (x & Hx & H). exists x.
  assert (E : table1.(tab).(ql_x) !! 1 = Some (MkQLp 0xdeadead None 0)) by (vm_compute; reflexivity).
  assert (x = MkQLp 0xdeadead None 0) as -> by congruence. by split_and!.
Defined.
