(* ===== verification/QLockThm.v ===== *)
(** What the locks of [qlock.c] promise, whatever the processes do within the
    rules of the calls and however their steps interleave. *)

From S2P Require Import Prelude Eff QLock QLockInv QLockSteps QLockRW QLockSleep.

(** * Runs *)

(** What a caller must have: what it gives up, or the lock of the [Rendez]. *)
Definition needs (k : call) (w : World) : option res :=
  match k with
  | Crwakeup r | Crwakeupall r => gives (Crsleep r) w
  | _ => gives k w
  end.

(** The structures exist, the spin lock of a reader-writer lock is free, its
    count of readers can be incremented, and the [canlock] of [canqlock] does
    not fail: one that does breaks the spin lock ([Lock.v]), on which taking a
    locked section as one step rests. *)
Definition ready (k : call) (w : World) : bool :=
  match k with
  | Cqlock q | Cqunlock q | Ccanqlock true q => bool_decide (is_Some (w.(qlocks) !! q))
  | Ccanqlock false q => false
  | Crlock q | Ccanrlock q =>
      match w.(rwlocks) !! q with Some l => negb l.(rwlk) && (l.(readers) <? 2 ^ 31 - 1) | None => false end
  | Crunlock q | Cwlock q | Ccanwlock q | Cwunlock q =>
      match w.(rwlocks) !! q with Some l => negb l.(rwlk) | None => false end
  | Crsleep r | Crwakeup r | Crwakeupall r =>
      match w.(rendezes) !! r with
      | Some z => match z.(rzl) with Some q => bool_decide (is_Some (w.(qlocks) !! q)) | None => false end
      | None => false
      end
  end.

Definition has (o : list (Z * res)) (t : Z) (g : option res) : bool :=
  match g with Some g => bool_decide ((t, g) ∈ o) | None => true end.

(** A scan finds a slot that is free at that moment, or none. *)
Definition scanned (s : option Z) (w : World) : bool :=
  match s with
  | None => true
  | Some p => match w.(ql_x) !! p with Some x => x.(inuse) =? 0 | None => false end
  end.

(** The call must wait, so it scans for a slot. *)
Definition waits (k : call) (w : World) : bool :=
  match k with
  | Cqlock q => match w.(qlocks) !! q with Some l => negb (l.(locked) =? 0) | None => false end
  | Crlock q => match w.(rwlocks) !! q with Some l => negb ((l.(writer) =? 0) && nil l.(rwhead)) | None => false end
  | Cwlock q => match w.(rwlocks) !! q with Some l => negb ((l.(readers) =? 0) && (l.(writer) =? 0)) | None => false end
  | Crsleep r => true
  | _ => false
  end.

(** The steps that can come next when callers unlock only what they have and
    use a [Rendez] only with its lock. *)
Definition legal (e : event) (c : conf) : bool :=
  match e with
  | Call t k s =>
      match c.(pcs) !! t with
      | Some (Run _) => scanned s c.(world) && ready k c.(world) && has c.(own) t (needs k c.(world))
      | _ => false
      end
  | Meet t u =>
      match c.(pcs) !! t, c.(pcs) !! u with
      | Some x, Some y =>
          match tag x, tag y with Some p, Some p' => (p =? p') && negb (t =? u) | _, _ => false end
      | _, _ => false
      end
  | Interrupt t => match c.(pcs) !! t with Some x => negb (nil (tag x)) | None => false end
  | Free t => match c.(pcs) !! t with Some (Clear _ _) => true | _ => false end
  | Loop t => match c.(pcs) !! t with Some (Again _ _) => true | _ => false end
  end.

(** Zeroed structures and any number of processes, each outside the calls. *)
Record fresh (c : conf) : Prop := {
  fr_x : c.(world).(ql_x) = slots0;
  fr_p : c.(world).(ql_p) = 0;
  fr_q q l : c.(world).(qlocks) !! q = Some l -> l = MkQLock 0 None None;
  fr_rw q l : c.(world).(rwlocks) !! q = Some l -> l = MkRWLock false 0 0 None None;
  fr_z r z : c.(world).(rendezes) !! r = Some z ->
    z = MkRendez z.(rzl) None None /\ forall q, z.(rzl) = Some q -> is_Some (c.(world).(qlocks) !! q);
  fr_pcs t x : c.(pcs) !! t = Some x -> exists v, x = Run v;
  fr_own : c.(own) = []
}.

Inductive reach : conf -> Prop :=
  | reach_start c : fresh c -> reach c
  | reach_step c e c' : reach c -> legal e c = true -> exec e c = Ok (tt, c') -> reach c'.

(** * The invariant holds *)

Lemma fresh_sums c (f : pc -> Z) : fresh c -> (forall v, f (Run v) = 0) -> msum f c.(pcs) = 0.
Proof.
  intros Hf H0. pose proof (fr_pcs c Hf) as Hp. clear Hf. revert Hp.
  induction c.(pcs) as [|t x ps Ht IH] using map_ind; [done|]. intros Hp. rewrite msum_new by done.
  destruct (Hp t x) as [v ->]; [apply lookup_insert_eq|]. rewrite H0, IH; [done|].
  intros u y Hu. apply (Hp u). rewrite lookup_insert_ne; [done|congruence].
Qed.

Lemma fresh_inv c : fresh c -> Inv c [].
Proof.
  intros Hf. pose proof (fresh_sums c) as Hs. pose proof Hf as [Hx Hp Hq Hrw Hz Hpc Hown].
  assert (Hc : forall g, cnt c.(pcs) c.(own) g = 0) by (intros g; unfold cnt; rewrite Hs, Hown; done).
  assert (Hd : forall q, drains c.(pcs) q = 0) by (intros q; unfold drains; by rewrite Hs).
  assert (Hu : forall p, users c.(pcs) p = 0) by (intros p; unfold users; by rewrite Hs).
  split.
  - constructor; try done.
    + intros p. rewrite Hx, slots0_lookup. case_bool_decide; [split; eauto|]. split; [intros [? [=]]|done].
    + by rewrite Hp.
    + intros p x. rewrite Hx, slots0_lookup, Hu. case_bool_decide; [|done]. by intros [= <-].
    + intros f. unfold sleepers, wakers. by rewrite !Hs.
    + intros i p g Hin. by apply elem_of_nil in Hin.
    + intros t r i Ht. by destruct (Hpc t _ Ht).
    + intros t q p Ht. by destruct (Hpc t _ Ht).
  - intros [q|q|r]; simpl.
    + intros l Hl. rewrite (Hq q l Hl), Hc. by split_and!.
    + intros l Hl. rewrite (Hrw q l Hl), !Hc, Hd. unfold rw_ok. simpl. by split_and!.
    + intros z Hzl. destruct (Hz r z Hzl) as [-> Hl]. by split_and!.
Qed.

Lemma inworld_run {A} (f : eff World A) c x w' : f c.(world) = Ok (x, w') -> inworld f c = Ok (x, MkConf w' c.(pcs) c.(own)).
Proof. intros H. unfold inworld. by rewrite H. Qed.

(** A call that keeps what the caller has. *)
Lemma call_run c t k s o' : reaches c t o' (enter s k c.(world)) ->
  lose t (gives k c.(world)) c.(own) = o' -> exists c' Q', exec (Call t k s) c = Ok (tt, c') /\ Inv c' Q'.
Proof.
  intros (a & w' & Q' & Hrun & HI) Ho. exists (settled t a (MkConf w' c.(pcs) o')), Q'. split; [|done].
  unfold exec. eff_prim. rewrite Ho. erewrite eff_bind_ok by (apply inworld_run; simpl; exact Hrun). done.
Qed.

Lemma has_elem o t g : has o t (Some g) = true -> (t, g) ∈ o.
Proof. apply bool_decide_eq_true. Qed.

(** The lock of a [Rendez] in use. *)
Lemma rendez_ready r w :
  match w.(rendezes) !! r with
  | Some z => match z.(rzl) with Some q => bool_decide (is_Some (w.(qlocks) !! q)) | None => false end
  | None => false
  end = true ->
  exists z q l, w.(rendezes) !! r = Some z /\ z.(rzl) = Some q /\ w.(qlocks) !! q = Some l /\ gives (Crsleep r) w = Some (HQ q).
Proof.
  intros Hb. destruct (rendezes w !! r) as [z|] eqn:Ez; [|done]. destruct (rzl z) as [q|] eqn:Eq; [|done].
  apply bool_decide_eq_true in Hb as [l Hl]. exists z, q, l. simpl. rewrite Ez. simpl. by rewrite Eq.
Qed.

Lemma call_inv c Q t v k s : Inv c Q -> c.(pcs) !! t = Some (Run v) -> ready k c.(world) = true ->
  has c.(own) t (needs k c.(world)) = true -> (waits k c.(world) = true -> picked s c.(world)) ->
  exists c' Q', exec (Call t k s) c = Ok (tt, c') /\ Inv c' Q'.
Proof.
  intros HI Ht Hr Hh Hs. destruct k as [q|q|[] q|q|q|q|q|q|q|r|r|r]; simpl in Hr; try done.
  1-3: apply bool_decide_eq_true in Hr as [l Hl].
  4-9: destruct (rwlocks (world c) !! q) as [l|] eqn:Hl; [|done]; zbool.
  10-12: destruct (rendez_ready r _ Hr) as (z & q & l & Hrz & Hq & Hl & Hg); unfold needs in Hh; rewrite Hg in Hh; apply has_elem in Hh.
  all: simpl in Hs; rewrite ?Hl in Hs.
  - eapply call_run; [apply (qlock_inv c Q HI t v Ht s q l); [done|]|done]. intros Hne. apply Hs. by apply negb_true_iff, Z.eqb_neq.
  - eapply call_run; [apply (qunlock_inv c Q HI t v Ht q l); [done|by apply has_elem]|done].
  - eapply call_run; [by apply (canqlock_inv c Q HI t v Ht true q l)|done].
  - eapply call_run; [apply (rlock_inv c Q HI t v Ht q l); try done|done]. intros E. apply Hs. by rewrite E.
  - eapply call_run; [by apply (canrlock_inv c Q HI t v Ht q l)|done].
  - eapply call_run; [apply (runlock_inv c Q HI t v Ht q l); [done|done|by apply has_elem]|done].
  - eapply call_run; [apply (wlock_inv c Q HI t v Ht q l); try done|done]. intros E. apply Hs. by rewrite E.
  - eapply call_run; [by apply (canwlock_inv c Q HI t v Ht q l)|done].
  - eapply call_run; [apply (wunlock_inv c Q t v q l); try done; by apply has_elem|done].
  - eapply call_run; [apply (rsleep_inv c Q HI t v Ht r q z l Hrz Hq Hl Hh s (Hs eq_refl))|by rewrite Hg].
  - destruct (rwakeup_inv c Q t (Run v) r q z l HI Ht eq_refl Hrz Hq Hl Hh) as (n & w' & Q' & Hrun & HI' & _).
    eapply call_run; [|done]. eexists _, w', Q'. split; [simpl; by eff_with Hrun|].
    by apply (idle_inv (MkConf w' c.(pcs) c.(own)) Q' t (Run v)).
  - eapply call_run; [by apply (rwakeupall_inv c Q t (Run v) r 0 q z l)|done].
Qed.

(** A scan that finds no slot aborts the call that made it. *)
Lemma full_aborts c Q t v k : Inv c Q -> c.(pcs) !! t = Some (Run v) -> ready k c.(world) = true ->
  has c.(own) t (needs k c.(world)) = true -> waits k c.(world) = true -> exec (Call t k None) c = Abort.
Proof.
  intros HI Ht Hr Hh Hw. unfold exec. eff_prim. enough (H : enter None k c.(world) = Abort).
  { unfold mbind, eff_bind, inworld. simpl. by rewrite H. }
  destruct k as [q| | |q| | |q| | |r| |]; try done; simpl in Hw |- *.
  - destruct (qlocks (world c) !! q) as [l|] eqn:Hl; [|done]. apply negb_true_iff in Hw.
    unfold qlock. eff_with (deref_run qlocks q l c.(world) Hl). by rewrite Hw.
  - destruct (rwlocks (world c) !! q) as [l|] eqn:Hl; [|done]. apply negb_true_iff in Hw.
    unfold rlock. eff_with (deref_run rwlocks q l c.(world) Hl). by rewrite Hw.
  - destruct (rwlocks (world c) !! q) as [l|] eqn:Hl; [|done]. apply negb_true_iff in Hw.
    unfold wlock. eff_with (deref_run rwlocks q l c.(world) Hl). by rewrite Hw.
  - destruct (rendez_ready r _ Hr) as (z & q & l & Hrz & Hq & Hl & Hg). unfold needs in Hh. rewrite Hg in Hh. apply has_elem in Hh.
    destruct (proj2 HI (IQ q) l Hl) as (_ & _ & Hn & _). pose proof (own_counted c t _ Hh).
    unfold rsleep. eff_with (deref_run rendezes r z c.(world) Hrz). rewrite Hq. eff_with (deref_run qlocks q l c.(world) Hl).
    destruct (Z.eqb_spec (locked l) 0); [lia|done].
Qed.

(** Two processes with one tag are a waker and the sleeper it is to wake. *)
Lemma tags_meet c Q t u x y p : Base c Q -> t <> u -> c.(pcs) !! t = Some x -> c.(pcs) !! u = Some y ->
  tag x = Some p -> tag y = Some p ->
  exists g, (x = Wait p g /\ target y = Some (p, g)) \/ (y = Wait p g /\ target x = Some (p, g)).
Proof.
  intros HB Htu Hx Hy Tx Ty.
  assert (Hcase : forall z, tag z = Some p -> (exists g, z = Wait p g) \/ exists g, target z = Some (p, g)).
  { intros [|mp g|mp g|p' g me|q p'|r i]; simpl; intros [= <-]; eauto. }
  assert (Hmeet : forall s z g s' g', c.(pcs) !! s = Some z -> target z = Some (p, g) -> c.(pcs) !! s' = Some (Wait p g') -> g' = g).
  { intros s z g s' g' Hs Hz Hs'. destruct (waker_meets c Q HB s z p g Hs Hz) as (s2 & z2 & Hs2 & Hz2).
    assert (Hsl : slot z2 = Some p) by (destruct z2 as [| | |? ? []| |]; simpl in *; congruence).
    assert (s2 = s') as -> by (by apply (slot_unique c Q HB s2 s' z2 (Wait p g') p)).
    rewrite Hs' in Hs2. injection Hs2 as <-. simpl in Hz2. congruence. }
  destruct (Hcase x Tx) as [[g ->]|[g Hg]], (Hcase y Ty) as [[g' ->]|[g' Hg']].
  - destruct Htu. by apply (slot_unique c Q HB t u (Wait p g) (Wait p g') p).
  - exists g'. left. by rewrite (Hmeet u y g' t g Hy Hg' Hx).
  - exists g. right. by rewrite (Hmeet t x g u g' Hx Hg Hy).
  - destruct Htu. by apply (waker_unique c Q HB t u x y p g g').
Qed.

(** What [legal] says of a call. *)
Lemma legal_call t k s c : legal (Call t k s) c = true ->
  (exists v, c.(pcs) !! t = Some (Run v)) /\ scanned s c.(world) = true /\ ready k c.(world) = true /\ has c.(own) t (needs k c.(world)) = true.
Proof. simpl. destruct (pcs c !! t) as [[v| | | | |]|]; try done. intros H. zbool. split_and!; [by eexists|done..]. Qed.

(** The call must wait and its scan found no slot. *)
Definition starved (e : event) (c : conf) : bool :=
  match e with Call _ k None => waits k c.(world) | _ => false end.

Lemma locks_exec_inv c Q e : Inv c Q -> legal e c = true -> starved e c = false ->
  exists c' Q', exec e c = Ok (tt, c') /\ Inv c' Q'.
Proof.
  intros HI Hleg Hst. destruct e as [t k s|t u|t|t|t].
  - apply legal_call in Hleg as ([v Ht] & Hs & Hr & Hh). apply (call_inv c Q t v k s); try done.
    intros Hw. destruct s as [mp|]; simpl in *; [|by rewrite Hw in Hst].
    destruct (ql_x (world c) !! mp) as [x|] eqn:Hx; [|done]. apply Z.eqb_eq in Hs. by exists mp, x.
  - simpl in Hleg. destruct (pcs c !! t) as [x|] eqn:Hx; [|done]. destruct (pcs c !! u) as [y|] eqn:Hy; [|done].
    destruct (tag x) as [p|] eqn:Tx; [|done]. destruct (tag y) as [p'|] eqn:Ty; [|done]. zbool. subst p'.
    destruct (tags_meet c Q t u x y p (proj1 HI)) as (g & [[-> Hg]|[-> Hg]]); try done.
    + destruct (meet_inv c Q u t p g y HI) as (a & w' & Q' & Hrun & HI'); try done.
      eexists _, Q'. split; [|exact HI']. unfold exec. eff_with (deref_run pcs t _ c Hx). eff_with (deref_run pcs u _ c Hy).
      erewrite eff_bind_ok by (apply inworld_run; reflexivity). cbn.
      erewrite eff_bind_ok by (apply inworld_run; exact Hrun). cbn.
      unfold settle. eff_prim. done.
    + destruct (meet_inv c Q t u p g x HI) as (a & w' & Q' & Hrun & HI'); try done.
      eexists _, Q'. split; [|exact HI']. unfold exec. eff_with (deref_run pcs t _ c Hx). eff_with (deref_run pcs u _ c Hy).
      erewrite eff_bind_ok by (apply inworld_run; exact Hrun). cbn.
      erewrite eff_bind_ok by (apply inworld_run; reflexivity). cbn.
      unfold settle. eff_prim. rewrite modify_run. do 2 f_equal. destruct a; simpl; by rewrite insert_insert_ne by done.
  - by exists c, Q.
  - simpl in Hleg. destruct (pcs c !! t) as [[| |mp g| | |]|] eqn:Ht; try done.
    destruct (free_inv c Q t mp g HI Ht) as (w' & Q' & Hrun & HI'). eexists _, Q'. split; [|exact HI'].
    unfold exec. eff_with (deref_run pcs t _ c Ht). erewrite eff_bind_ok by (apply inworld_run; exact Hrun). done.
  - simpl in Hleg. destruct (pcs c !! t) as [[| | | | |r i]|] eqn:Ht; try done.
    destruct (b_loop c Q (proj1 HI) t r i Ht) as (z & q & Hz & Hq & Hown).
    destruct (proj2 HI (IS r) z Hz) as (_ & _ & Hk). destruct (Hk q Hq) as [l Hl].
    destruct (rwakeupall_inv c Q t (Again r i) r i q z l HI Ht eq_refl Hz Hq Hl Hown) as (a & w' & Q' & Hrun & HI').
    eexists _, Q'. split; [|exact HI'].
    unfold exec. eff_with (deref_run pcs t _ c Ht). erewrite eff_bind_ok by (apply inworld_run; exact Hrun). done.
Qed.

Lemma starved_aborts c Q e : Inv c Q -> legal e c = true -> starved e c = true -> exec e c = Abort.
Proof.
  intros HI Hleg Hst. destruct e as [t k [mp|]| | | |]; try done.
  apply legal_call in Hleg as ([v Ht] & _ & Hr & Hh). by apply (full_aborts c Q t v k).
Qed.

Lemma locks_reach_inv c : reach c -> exists Q, Inv c Q.
Proof.
  induction 1 as [c Hf|c e c' _ [Q HI] Hl He]; [exists []; by apply fresh_inv|].
  destruct (starved e c) eqn:Hst.
  - by rewrite (starved_aborts c Q e HI Hl Hst) in He.
  - destruct (locks_exec_inv c Q e HI Hl Hst) as (c2 & Q' & He' & HI'). exists Q'. rewrite He in He'. by injection He' as <-.
Qed.

(** * Finding a slot *)

(** [w'] is [w] with the slot [mp] taken and, of the others, only the value of
    an [inuse] that was set already changed. *)
Definition slot_taken (w w' : World) (mp : Z) (x : QLp) : Prop :=
  w'.(ql_p) = mp /\ w'.(ql_x) !! mp = Some (MkQLp 0xdeadead None x.(state)) /\
  (forall p z, p <> mp -> w.(ql_x) !! p = Some z -> exists z', w'.(ql_x) !! p = Some z' /\
     z'.(next) = z.(next) /\ z'.(state) = z.(state) /\ (z'.(inuse) = 0 <-> z.(inuse) = 0)) /\
  w'.(qlocks) = w.(qlocks) /\ w'.(rwlocks) = w.(rwlocks) /\ w'.(rendezes) = w.(rendezes).

Lemma getqlp_loop_total op fuel : forall p w,
  0 <= op < nelem_ql -> 0 <= p <= nelem_ql -> (forall q, is_Some (w.(ql_x) !! q) <-> 0 <= q < nelem_ql) ->
  (op - p) mod nelem_ql < Z.of_nat fuel ->
  (exists mp x w', getqlp_loop fuel p op w = Ok (mp, w') /\ w.(ql_x) !! mp = Some x /\ x.(inuse) = 0 /\ mp <> op /\ slot_taken w w' mp x) \/
  (getqlp_loop fuel p op w = Abort /\
   forall f y, w.(ql_x) !! f = Some y -> (f - p) mod nelem_ql < (op - p) mod nelem_ql -> y.(inuse) <> 0).
Proof.
  induction fuel as [|fuel IH]; intros p w Hop Hp Hdom Hfu.
  { pose proof (Z.mod_pos_bound (op - p) nelem_ql ltac:(done)). lia. }
  cbn [getqlp_loop]. set (p' := if p =? nelem_ql then 0 else p).
  assert (Hp' : 0 <= p' < nelem_ql) by (subst p'; unfold nelem_ql in *; destruct (Z.eqb_spec p 1024); lia).
  assert (Hm : forall a, (a - p) mod nelem_ql = (a - p') mod nelem_ql).
  { intros a. subst p'. destruct (Z.eqb_spec p nelem_ql) as [->|]; [|done]. unfold nelem_ql. Z.div_mod_to_equations. lia. }
  setoid_rewrite Hm. rewrite Hm in Hfu. clear Hm. clearbody p'.
  destruct (Z.eqb_spec p' op) as [->|Hne].
  { right. split; [done|]. intros f y _. rewrite Z.sub_diag. unfold nelem_ql. Z.div_mod_to_equations. lia. }
  destruct (proj2 (Hdom p') Hp') as [x Hx]. eff_with (tas_run w p' x Hx).
  destruct (Z.eqb_spec (inuse x) 0) as [Hi|Hi].
  - left. eexists p', x, _. split_and!; [|done|done|done|].
    + unfold putp, setnext, putx. eff_prim. simpl. rewrite eff_bind_assoc.
      erewrite eff_bind_ok by (apply deref_run; simpl; apply lookup_insert_eq). cbv beta. eff_prim. reflexivity.
    + split_and!; simpl; try done; [apply lookup_insert_eq|]. intros q z Hq Hz. rewrite !lookup_insert_ne by done. eauto.
  - match goal with |- context [getqlp_loop fuel (p' + 1) op ?W] => set (w1 := W) end.
    assert (Hw1 : forall q, q <> p' -> w1.(ql_x) !! q = w.(ql_x) !! q) by (intros; simpl; by rewrite lookup_insert_ne).
    assert (Hwp : w1.(ql_x) !! p' = Some (MkQLp 0xdeadead (next x) (state x))) by apply lookup_insert_eq.
    assert (Hd1 : forall q, is_Some (w1.(ql_x) !! q) <-> 0 <= q < nelem_ql).
    { intros q. rewrite <- Hdom. destruct (decide (q = p')) as [->|]; [rewrite Hwp, Hx; split; eauto|by rewrite Hw1]. }
    assert (Hf1 : (op - (p' + 1)) mod nelem_ql < Z.of_nat fuel) by (unfold nelem_ql in *; Z.div_mod_to_equations; lia).
    destruct (IH (p' + 1) w1 Hop ltac:(lia) Hd1 Hf1) as [(mp & y & w' & Hrun & Hy & Hy0 & Hmp & Ha & Hb & Hc & Hd)|[Hrun Hno]].
    + assert (mp <> p') by (intros ->; rewrite Hwp in Hy; by injection Hy as <-). rewrite Hw1 in Hy by done.
      left. exists mp, y, w'. split_and!; try done. split_and!; try done; try apply Hd. intros q z Hq Hz. destruct (decide (q = p')) as [->|Hqp].
      * destruct (Hc p' _ Hq Hwp) as (z' & Hz' & H1 & H2 & H3). rewrite Hx in Hz. injection Hz as <-. exists z'.
        split_and!; try done. simpl in H3. split; [intros H0; by apply H3 in H0|done].
      * apply (Hc q z Hq). by rewrite Hw1.
    + right. split; [done|]. intros f y Hf Hlt. destruct (decide (f = p')) as [->|Hfp]; [congruence|].
      pose proof (proj1 (Hdom f) ltac:(by eexists)). apply (Hno f y); [by rewrite Hw1|].
      unfold nelem_ql in *. Z.div_mod_to_equations. lia.
Qed.

(** * Theorems *)

(** C26. The search of [getqlp] ends: whatever the slots hold, it finds a slot
    that was free, not the one found last, and takes it, or aborts because every
    other slot is in use. *)
Theorem getqlp_terminates (w : World) :
  (forall p, is_Some (w.(ql_x) !! p) <-> 0 <= p < nelem_ql) -> 0 <= w.(ql_p) < nelem_ql ->
  (exists mp x w', getqlp w = Ok (mp, w') /\ w.(ql_x) !! mp = Some x /\ x.(inuse) = 0 /\ mp <> w.(ql_p) /\ slot_taken w w' mp x) \/
  (getqlp w = Abort /\ forall p x, w.(ql_x) !! p = Some x -> p <> w.(ql_p) -> x.(inuse) <> 0).
Proof.
  intros Hdom Hc. unfold getqlp. eff_prim.
  destruct (getqlp_loop_total w.(ql_p) (Z.to_nat nelem_ql) (w.(ql_p) + 1) w) as [H|[H Hno]]; try done.
  - lia.
  - unfold nelem_ql in *. Z.div_mod_to_equations. lia.
  - by left.
  - right. split; [done|]. intros p x Hp Hne. pose proof (proj1 (Hdom p) ltac:(by eexists)). apply (Hno p x Hp).
    unfold nelem_ql in *. Z.div_mod_to_equations. lia.
Qed.

(** C25. A step of a legal run aborts in one case, and never follows a bad
    pointer: the process must wait and its scan of the shared table found no
    slot.  In particular the linked lists are sound, the waiter that a reader or
    a writer wakes is of the kind the release expects, and [rsleep] and
    [rwakeup] find the lock of the [Rendez] held. *)
Theorem locks_never_abort (c : conf) (e : event) :
  reach c -> legal e c = true ->
  if starved e c then exec e c = Abort else exists c', exec e c = Ok (tt, c').
Proof.
  intros [Q HI]%locks_reach_inv Hl. destruct (starved e c) eqn:Hst; [by apply (starved_aborts c Q)|].
  destruct (locks_exec_inv c Q e HI Hl Hst) as (c' & _ & H & _). by exists c'.
Qed.

Lemma occ_two o t u g : t <> u -> (t, g) ∈ o -> (u, g) ∈ o -> 2 <= occ g o.
Proof.
  intros Hne. unfold occ. induction o as [|y o IH]; intros Ht Hu; [by apply elem_of_nil in Ht|].
  assert (Hel : forall s, (s, g) ∈ o -> 1 <= lsum (fun e : Z * res => one g e.2) o).
  { intros s Hs. pose proof (lsum_elem (fun e : Z * res => one g e.2) _ _ ltac:(nn) Hs) as H. simpl in H. by rewrite one_same in H. }
  apply elem_of_cons in Ht as [<-|Ht], Hu as [Hu|Hu]; [congruence|..]; simpl.
  - specialize (Hel u Hu). rewrite one_same. lia.
  - subst y. specialize (Hel t Ht). simpl. rewrite one_same. lia.
  - specialize (IH Ht Hu). pose proof (one_nonneg g y.2). lia.
Qed.

Lemma occ_cnt c g : occ g c.(own) <= cnt c.(pcs) c.(own) g.
Proof. unfold cnt, occ. assert (0 <= msum (fun x => wt (one g) (grant x)) c.(pcs)) by (apply msum_nonneg; nn). lia. Qed.

Lemma one_owner c t u g : cnt c.(pcs) c.(own) g <= 1 -> (t, g) ∈ c.(own) -> (u, g) ∈ c.(own) -> t = u.
Proof.
  intros Hle Ht Hu. destruct (decide (t = u)) as [|Hne]; [done|].
  pose proof (occ_two _ t u g Hne Ht Hu). pose proof (occ_cnt c g). lia.
Qed.

(** C23. Mutual exclusion, for any number of processes whose calls are legal
    (locks released by their owners, no [canqlock] whose [canlock] fails),
    whichever slots their scans of the shared table find: in every reachable
    state a queueing lock has at most one owner, and a reader-writer lock has at
    most one writer, and no reader while it has a writer. *)
Theorem locks_exclude (c : conf) :
  reach c ->
  (forall q t u, is_Some (c.(world).(qlocks) !! q) -> (t, HQ q) ∈ c.(own) -> (u, HQ q) ∈ c.(own) -> t = u) /\
  (forall q t u, is_Some (c.(world).(rwlocks) !! q) -> (t, HW q) ∈ c.(own) -> (u, HW q) ∈ c.(own) -> t = u) /\
  (forall q t u, is_Some (c.(world).(rwlocks) !! q) -> (t, HW q) ∈ c.(own) -> (u, HR q) ∉ c.(own)).
Proof.
  intros [Q HI]%locks_reach_inv.
  assert (Hrw : forall q, is_Some (c.(world).(rwlocks) !! q) -> cnt c.(pcs) c.(own) (HW q) <= 1 /\
      (0 < cnt c.(pcs) c.(own) (HW q) -> cnt c.(pcs) c.(own) (HR q) = 0)).
  { intros q [l Hl]. destruct (proj2 HI (IW q) l Hl) as (_ & _ & _ & H). destruct (rwlk l).
    - destruct H as (_ & -> & _). lia.
    - by destruct H as (_ & _ & H1 & H2 & _). }
  split_and!.
  - intros q t u [l Hl]. destruct (proj2 HI (IQ q) l Hl) as (_ & _ & _ & Hle & _). by apply one_owner.
  - intros q t u Hl. apply one_owner, (Hrw q Hl).
  - intros q t u Hl Ht Hu. destruct (Hrw q Hl) as [_ H0]. pose proof (own_counted c t _ Ht). pose proof (own_counted c u _ Hu). lia.
Qed.

(** The slot [mp] is in the list that begins at [h]. *)
Inductive linked (xs : gmap Z QLp) : option Z -> Z -> Prop :=
  | linked_here p x : xs !! p = Some x -> linked xs (Some p) p
  | linked_next p x mp : xs !! p = Some x -> linked xs x.(next) mp -> linked xs (Some p) mp.

Lemma chain_linked xs h qs p g : chain xs h qs -> (p, g) ∈ qs -> linked xs h p.
Proof.
  revert h. induction qs as [|[p' g'] qs IH]; intros h Hc Hin; [by apply elem_of_nil in Hin|].
  destruct Hc as [-> (x & Hx & _ & Hc)]. apply elem_of_cons in Hin as [[= -> ->]|Hin]; [by eapply linked_here|].
  eapply linked_next; [done|]. by apply IH.
Qed.

(** Some process has [g] or is being handed it. *)
Definition inhand (c : conf) (g : res) : Prop :=
  (exists u, (u, g) ∈ c.(own)) \/ exists u x, c.(pcs) !! u = Some x /\ grant x = Some g.

Lemma cnt_inhand c g : 0 < cnt c.(pcs) c.(own) g -> inhand c g.
Proof.
  unfold cnt. intros H. destruct (decide (0 < lsum (fun e : Z * res => one g e.2) c.(own))) as [Ho|Ho].
  - left. destruct (lsum_pos _ _ Ho) as ([u g'] & Hin & Hg). exists u. unfold one in Hg. simpl in Hg. case_decide; [by subst|lia].
  - right. destruct (msum_pos (fun x => wt (one g) (grant x)) ltac:(nn) c.(pcs)) as (u & x & Hu & Hx); [lia|].
    exists u, x. split; [done|]. destruct (grant x) as [g'|]; simpl in Hx; [|lia]. unfold one in Hx. case_decide; [by subst|lia].
Qed.

(** C24. No wakeup is lost: a process that waits can be met by a waker now, or
    its slot is in the queue of the lock it waits for and some process has that
    lock or is being handed it, or it sleeps in the list of a [Rendez]. *)
Theorem no_lost_wakeup (c : conf) (t mp : Z) (g : res) :
  reach c -> c.(pcs) !! t = Some (Wait mp g) ->
  (exists u, legal (Meet u t) c = true) \/
  (exists q l, g = HQ q /\ c.(world).(qlocks) !! q = Some l /\ linked c.(world).(ql_x) l.(head) mp /\ inhand c (HQ q)) \/
  (exists q l, (g = HR q \/ g = HW q) /\ c.(world).(rwlocks) !! q = Some l /\ linked c.(world).(ql_x) l.(rwhead) mp /\
     (inhand c (HR q) \/ inhand c (HW q))) \/
  (exists r z q, g = HQ q /\ c.(world).(rendezes) !! r = Some z /\ z.(rzl) = Some q /\ linked c.(world).(ql_x) z.(rzhead) mp).
Proof.
  intros [Q HI]%locks_reach_inv Ht. pose proof (proj1 HI) as HB.
  destruct (sleeper_found c Q HB t _ mp g Ht eq_refl) as [[i Hin]|(u & y & Hu & Hy)].
  - pose proof (b_fit c Q HB i mp g Hin) as Hfit. pose proof (proj2 (Qof_elem _ _ _) Hin) as Hq.
    right. destruct i as [q|q|r]; [left|right; left|right; right].
    + destruct Hfit as [-> [l Hl]]. destruct (proj2 HI (IQ q) l Hl) as (Hc & _ & _ & _ & He).
      exists q, l. split_and!; [done|done|by eapply chain_linked|]. apply cnt_inhand.
      pose proof (cnt_nonneg c.(pcs) c.(own) (HQ q)). destruct (decide (cnt c.(pcs) c.(own) (HQ q) = 0)) as [E|]; [|lia].
      rewrite (He E) in Hq. by apply elem_of_nil in Hq.
    + destruct Hfit as [Hg [l Hl]]. destruct (proj2 HI (IW q) l Hl) as (Hc & _ & _ & H).
      exists q, l. split_and!; [done|done|by eapply chain_linked|].
      pose proof (cnt_nonneg c.(pcs) c.(own) (HR q)). pose proof (cnt_nonneg c.(pcs) c.(own) (HW q)).
      destruct (decide (0 < cnt c.(pcs) c.(own) (HR q))) as [|Hr]; [left; by apply cnt_inhand|].
      right. apply cnt_inhand. destruct (rwlk l); [lia|]. destruct H as (_ & _ & _ & _ & He & _).
      destruct (decide (cnt c.(pcs) c.(own) (HW q) = 0)) as [E|]; [|lia]. rewrite He in Hq by lia. by apply elem_of_nil in Hq.
    + destruct Hfit as (z & q & Hz & Hzl & ->). destruct (proj2 HI (IS r) z Hz) as (Hc & _).
      exists r, z, q. split_and!; [done|done|done|by eapply chain_linked].
  - left. exists u. simpl. rewrite Hu, Ht. assert (Ty : tag y = Some mp) by (destruct y; simpl in *; congruence).
    rewrite Ty. simpl. rewrite Z.eqb_refl. simpl. apply negb_true_iff, Z.eqb_neq. intros ->. rewrite Ht in Hu. by injection Hu as <-.
Qed.

(** * A run *)

Fixpoint runs (es : list event) (c : conf) : option conf :=
  match es with
  | [] => Some c
  | e :: es => if legal e c then match exec e c with Ok (_, c') => runs es c' | _ => None end else None
  end.

Lemma runs_reach es : forall c c', reach c -> runs es c = Some c' -> reach c'.
Proof.
  induction es as [|e es IH]; intros c c' Hr; simpl; [by intros [= <-]|].
  destruct (legal e c) eqn:Hl; [|done]. destruct (exec e c) as [[[] c1]| |] eqn:He; [|done..].
  apply IH. by eapply reach_step.
Qed.

(** A queueing lock, a reader-writer lock, a [Rendez] and three processes. *)
Definition ex0 : conf :=
  MkConf (MkWorld slots0 0 {[ 10 := MkQLock 0 None None ]} {[ 20 := MkRWLock false 0 0 None None ]}
            {[ 30 := MkRendez (Some 10) None None ]})
         {[ 1 := Run 0; 2 := Run 0; 3 := Run 0 ]} [].

Lemma ex0_fresh : fresh ex0.
Proof.
  constructor; simpl; try done.
  - intros q l. rewrite lookup_singleton_Some. by intros [_ <-].
  - intros q l. rewrite lookup_singleton_Some. by intros [_ <-].
  - intros r z. rewrite lookup_singleton_Some. intros [_ <-]. split; [done|]. intros q [= <-]. by eexists.
  - intros t x. rewrite !lookup_insert_Some, lookup_singleton_Some. naive_solver.
Qed.

(** The second process sleeps, the first holds the lock and the third waits for
    it; a writer holds the reader-writer lock. *)
Definition ex_events : list event :=
  [Call 2 (Cqlock 10) None; Call 2 (Crsleep 30) (Some 7); Call 1 (Cqlock 10) None; Call 1 (Cwlock 20) None;
   Call 3 (Cqlock 10) (Some 2)].
Definition ex1 : conf := default ex0 (runs ex_events ex0).

Lemma ex1_reach : reach ex1.
Proof.
  apply (runs_reach ex_events ex0); [apply reach_start, ex0_fresh|]. unfold ex1.
  destruct (runs ex_events ex0) eqn:E; [done|]. vm_compute in E. discriminate E.
Qed.

Lemma getqlp_terminates_witness :
  (exists mp x w', getqlp ex0.(world) = Ok (mp, w') /\ ex0.(world).(ql_x) !! mp = Some x /\ x.(inuse) = 0 /\
     mp <> ex0.(world).(ql_p) /\ slot_taken ex0.(world) w' mp x) \/
  (getqlp ex0.(world) = Abort /\ forall p x, ex0.(world).(ql_x) !! p = Some x -> p <> ex0.(world).(ql_p) -> x.(inuse) <> 0).
Proof.
  apply (getqlp_terminates ex0.(world)); [|done]. intros p. simpl. rewrite slots0_lookup.
  case_bool_decide; [split; eauto|]. split; [intros [? [=]]|done].
Defined.

Lemma locks_never_abort_witness : exists c', exec (Call 1 (Crwakeup 30) None) ex1 = Ok (tt, c').
Proof. apply (locks_never_abort ex1 (Call 1 (Crwakeup 30) None)); [exact ex1_reach|vm_compute; reflexivity]. Defined.

Lemma locks_exclude_witness : (1, HW 20) ∈ ex1.(own) /\ (3, HR 20) ∉ ex1.(own).
Proof.
  assert (H : (1, HW 20) ∈ ex1.(own)) by (vm_compute; constructor).
  split; [exact H|]. destruct (locks_exclude ex1 ex1_reach) as (_ & _ & Hx). apply (Hx 20 1 3); [|exact H].
  vm_compute. by eexists.
Defined.

Lemma no_lost_wakeup_witness :
  (exists u, legal (Meet u 3) ex1 = true) \/
  (exists q l, HQ 10 = HQ q /\ ex1.(world).(qlocks) !! q = Some l /\ linked ex1.(world).(ql_x) l.(head) 2 /\ inhand ex1 (HQ q)) \/
  (exists q l, (HQ 10 = HR q \/ HQ 10 = HW q) /\ ex1.(world).(rwlocks) !! q = Some l /\ linked ex1.(world).(ql_x) l.(rwhead) 2 /\
     (inhand ex1 (HR q) \/ inhand ex1 (HW q))) \/
  (exists r z q, HQ 10 = HQ q /\ ex1.(world).(rendezes) !! r = Some z /\ z.(rzl) = Some q /\ linked ex1.(world).(ql_x) z.(rzhead) 2).
Proof. apply (no_lost_wakeup ex1 3 2 (HQ 10)); [exact ex1_reach|vm_compute; reflexivity]. Defined.
