(* ===== verification/Chan.v ===== *)
(** Channels of [libthread/channel.c].

    Threads of any number of processes send, receive and wait for several
    operations at once ([alt]) on shared channels.  What a call does under
    [chanlock] is one step.  A thread that must wait enters its [Alt]s in the
    queues of the channels and calls [_threadrendezvous] on the address of its
    local variable [c]; whoever serves one of them stores the channel there,
    which commits both, and meets it in that rendezvous.  Between steps a
    thread is at a program point [pc].

    A pointer to an [Alt] is a thread and an index, valid while that thread is
    inside [alt]; [tag], the address of a thread's [c], is the thread.  The
    fields kept for the debugger ([t->chan], [t->alt]), the delay of notes
    ([_procsplhi]), the end of a killed thread and debugging output are left
    out. *)

From S2P Require Import Prelude Fcall Eff.

(** * Data *)

Inductive ChanOp := CHANEND | CHANSND | CHANRCV | CHANNOP | CHANNOBLK.

(** The [err] of an [Alt]: [nil], [errcl] or something else. *)
Inductive errp := Noerr | Errcl | Errother (p : Z).

(** The values of [alt]'s local [c]: [nil], a channel, [~0]. *)
Inductive tagv := Tnil | Tchan (c : Z) | Tdead.

#[export] Instance chanop_eq_dec : EqDecision ChanOp.
Proof. solve_decision. Defined.
#[export] Instance errp_eq_dec : EqDecision errp.
Proof. solve_decision. Defined.
#[export] Instance tagv_eq_dec : EqDecision tagv.
Proof. solve_decision. Defined.

Record Alt := MkAlt {
  ac : option Z;       (* channel *)
  av : option Z;       (* pointer to value *)
  aop : ChanOp;
  aerr : errp;
  atag : option Z;
  entryno : Z
}.

Notation aptr := (Z * nat)%type.

(** [s], [f], [n], [e] and [v] of the source; [nentry] is the length of
    [qentry]; [v] is the array of [s] elements. *)
Record Channel := MkChannel {
  ch_s : Z; ch_f : Z; ch_n : Z; ch_e : Z;
  freed : bool;
  qentry : list (option aptr);
  closed : Z;
  ch_v : list (list Z)
}.

(** A thread inside [alt]: its array and its variable [c]. *)
Record Frame := MkFrame { alts : list Alt; tagc : tagv }.

(** What happened, for the theorems: a channel was made; a thread sent a value,
    read from its memory before the copy; a thread received a value, read from
    its memory after the copy; a call of a thread performed an operation. *)
Inductive note :=
  | Made (c : Z)
  | Sent (t c : Z) (d : list Z)
  | Got (t c : Z) (d : list Z)
  | Did (t : Z) (op : ChanOp) (c : Z).

(** [blocks]: the values that threads send from and receive into, by address. *)
Record World := MkWorld {
  chans : gmap Z Channel;
  frames : gmap Z Frame;
  blocks : gmap Z (list Z);
  log : list note
}.

(** * Fields *)

Definition putc (c : Z) (x : Channel) : eff World unit :=
  modify (fun w => MkWorld (<[c := x]> w.(chans)) w.(frames) w.(blocks) w.(log)).
Definition putf (t : Z) (x : Frame) : eff World unit :=
  modify (fun w => MkWorld w.(chans) (<[t := x]> w.(frames)) w.(blocks) w.(log)).
Definition putb (p : Z) (d : list Z) : eff World unit :=
  modify (fun w => MkWorld w.(chans) w.(frames) (<[p := d]> w.(blocks)) w.(log)).
Definition free (c : Z) : eff World unit :=
  modify (fun w => MkWorld (delete c w.(chans)) w.(frames) w.(blocks) w.(log)).
Definition leave (t : Z) : eff World unit :=
  modify (fun w => MkWorld w.(chans) (delete t w.(frames)) w.(blocks) w.(log)).
Definition record (x : note) : eff World unit :=
  modify (fun w => MkWorld w.(chans) w.(frames) w.(blocks) (w.(log) ++ [x])).

Definition set_n (k : Z) (x : Channel) := MkChannel x.(ch_s) x.(ch_f) k x.(ch_e) x.(freed) x.(qentry) x.(closed) x.(ch_v).
Definition set_f (k : Z) (x : Channel) := MkChannel x.(ch_s) k x.(ch_n) x.(ch_e) x.(freed) x.(qentry) x.(closed) x.(ch_v).
Definition set_freed (b : bool) (x : Channel) := MkChannel x.(ch_s) x.(ch_f) x.(ch_n) x.(ch_e) b x.(qentry) x.(closed) x.(ch_v).
Definition set_q (q : list (option aptr)) (x : Channel) := MkChannel x.(ch_s) x.(ch_f) x.(ch_n) x.(ch_e) x.(freed) q x.(closed) x.(ch_v).
Definition set_closed (k : Z) (x : Channel) := MkChannel x.(ch_s) x.(ch_f) x.(ch_n) x.(ch_e) x.(freed) x.(qentry) k x.(ch_v).
Definition set_v (l : list (list Z)) (x : Channel) := MkChannel x.(ch_s) x.(ch_f) x.(ch_n) x.(ch_e) x.(freed) x.(qentry) x.(closed) l.
Definition set_err (r : errp) (a : Alt) := MkAlt a.(ac) a.(av) a.(aop) r a.(atag) a.(entryno).
Definition set_tag (t : option Z) (a : Alt) := MkAlt a.(ac) a.(av) a.(aop) a.(aerr) t a.(entryno).
Definition set_entryno (k : Z) (a : Alt) := MkAlt a.(ac) a.(av) a.(aop) a.(aerr) a.(atag) k.

(** [*a] and its assignment. *)
Definition geta (p : aptr) : eff World Alt :=
  x ← deref frames p.1; match x.(alts) !! p.2 with Some a => mret a | None => fault end.
Definition puta (p : aptr) (a : Alt) : eff World unit :=
  x ← deref frames p.1; putf p.1 (MkFrame (<[p.2 := a]> x.(alts)) x.(tagc)).

(** [*a->tag] and its assignment. *)
Definition gettag (a : Alt) : eff World tagv :=
  t ← nonnil a.(atag); x ← deref frames t; mret x.(tagc).
Definition puttag (a : Alt) (k : tagv) : eff World unit :=
  t ← nonnil a.(atag); x ← deref frames t; putf t (MkFrame x.(alts) k).

(** * Values *)

(** Where a value is: nowhere, in a block, in a slot of a channel. *)
Inductive ptr := Nil | Blk (p : Z) | Slot (c : Z) (j : nat).

Definition vptr (p : option Z) : ptr := match p with None => Nil | Some p => Blk p end.

Definition bytes_of (p : ptr) : eff World (list Z) :=
  match p with
  | Nil => fault
  | Blk p => deref blocks p
  | Slot c j => x ← deref chans c; match x.(ch_v) !! j with Some d => mret d | None => fault end
  end.

(** The first [sz] bytes of [dst] become [d]. *)
Definition store (dst : ptr) (d : list Z) (sz : Z) : eff World unit :=
  o ← bytes_of dst;
  if Zlen o <? sz then fault else
  let d := take (Z.to_nat sz) d ++ drop (Z.to_nat sz) o in
  match dst with
  | Nil => fault
  | Blk p => putb p d
  | Slot c j => x ← deref chans c; putc c (set_v (<[j := d]> x.(ch_v)) x)
  end.

(** The value [altcopy] copies. *)
Definition value (src : ptr) (sz : Z) : eff World (list Z) :=
  match src with
  | Nil => mret (replicate (Z.to_nat sz) 0)
  | _ => d ← bytes_of src; if Zlen d <? sz then fault else mret (take (Z.to_nat sz) d)
  end.

Definition altcopy (dst src : ptr) (sz : Z) : eff World unit :=
  match dst with
  | Nil => mret tt
  | _ => d ← value src sz; store dst d sz
  end.

(** What the receiver has at [dst] after the copy.  One that gives [nil] throws
    away the value [d] it is offered. *)
Definition arrived (dst : ptr) (d : list Z) (sz : Z) : eff World (list Z) :=
  match dst with Nil => mret d | _ => value dst sz end.

(** * Channels *)

(** [_threadmalloc] gave the address [c], zeroed. *)
Definition chancreate (c elemsize elemcnt : Z) : eff World Z :=
  if (elemcnt <? 0) || (elemsize <=? 0) then mret 0 else
  putc c (MkChannel elemcnt 0 0 elemsize false [] 0
    (replicate (Z.to_nat elemcnt) (replicate (Z.to_nat elemsize) 0)));;
  record (Made c);;
  mret c.

(** [v]: the array that follows the structure in memory. *)
Definition chaninit (c : option Z) (elemsize elemcnt : Z) (v : list (list Z)) : eff World Z :=
  if (elemcnt <? 0) || (elemsize <=? 0) then mret (-1) else
  match c with
  | None => mret (-1)
  | Some c =>
      x ← deref chans c;
      putc c (MkChannel elemcnt 0 0 elemsize false x.(qentry) 0 v);;
      record (Made c);;
      mret 1
  end.

Definition full_entry (x : option aptr) : bool := match x with Some _ => true | None => false end.

Definition _chanfree (c : Z) : eff World unit :=
  x ← deref chans c;
  let inuse := (x.(closed) =? 1) || existsb full_entry x.(qentry) in
  if inuse then putc c (set_freed true x) else free c.

Definition chanfree (c : Z) : eff World unit := _chanfree c.

Definition isopenfor (x : Channel) (op : ChanOp) : bool :=
  (x.(closed) =? 0) || (bool_decide (op = CHANRCV) && (0 <? x.(ch_n))).

Definition chanclosing (c : Z) : eff World Z :=
  x ← deref chans c;
  mret (if x.(closed) =? 0 then -1 else s32 x.(ch_n)).

(** * Queues *)

Fixpoint empty_index (q : list (option aptr)) : nat :=
  match q with
  | [] => O
  | None :: _ => O
  | Some _ :: q => S (empty_index q)
  end.

(** The first empty entry; the queue grows by 16 when there is none. *)
Definition emptyentry (c : Z) : eff World nat :=
  x ← deref chans c;
  let i := empty_index x.(qentry) in
  (if (i <? length x.(qentry))%nat then mret tt
   else putc c (set_q (x.(qentry) ++ replicate 16 None) x));;
  mret i.

(** [t]: the thread whose variable [c] is the tag. *)
Definition enqueue (a : aptr) (t : Z) : eff World unit :=
  x ← geta a;
  puta a (set_tag (Some t) x);;
  c ← nonnil x.(ac);
  i ← emptyentry c;
  y ← deref chans c;
  putc c (set_q (<[i := Some a]> y.(qentry)) y).

#[export] Instance aptr_eq_dec : EqDecision aptr := _.

Fixpoint index_of (a : aptr) (q : list (option aptr)) : option nat :=
  match q with
  | [] => None
  | x :: q => if decide (x = Some a) then Some O else option_map S (index_of a q)
  end.

Definition dequeue (a : aptr) : eff World unit :=
  x ← geta a;
  c ← nonnil x.(ac);
  y ← deref chans c;
  match index_of a y.(qentry) with
  | None => mret tt
  | Some i =>
      putc c (set_q (<[i := None]> y.(qentry)) y);;
      if y.(freed) && negb (y.(closed) =? 1) then _chanfree c else mret tt
  end.

(** * Who can proceed *)

(** [(CHANSND+CHANRCV) - op] *)
Definition otherop (op : ChanOp) : ChanOp :=
  match op with CHANSND => CHANRCV | CHANRCV => CHANSND | x => x end.

(** [c->qentry[i] && c->qentry[i]->op==otherop && *c->qentry[i]->tag==nil] *)
Definition waits (x : option aptr) (op : ChanOp) : eff World bool :=
  match x with
  | None => mret false
  | Some p =>
      a ← geta p;
      if negb (bool_decide (a.(aop) = op)) then mret false else
      k ← gettag a; mret (bool_decide (k = Tnil))
  end.

Fixpoint anywaits (q : list (option aptr)) (op : ChanOp) : eff World bool :=
  match q with
  | [] => mret false
  | x :: q => b ← waits x op; if (b : bool) then mret true else anywaits q op
  end.

Definition canexec (a : Alt) : eff World bool :=
  c ← nonnil a.(ac);
  x ← deref chans c;
  b ← anywaits x.(qentry) (otherop a.(aop));
  if (b : bool) then mret true else
  mret (match a.(aop) with CHANSND => x.(ch_n) <? x.(ch_s) | CHANRCV => 0 <? x.(ch_n) | _ => false end).

Definition MASK : Z := 0x7fffffff.

(** The first value above [slop] of those that [lrand] will give; when [rs] ends
    it gives 0. *)
Fixpoint lrand_above (slop : Z) (rs : list Z) : Z * list Z :=
  match rs with
  | [] => (0, [])
  | v :: rs => if v <=? slop then lrand_above slop rs else (v, rs)
  end.

(** [rs]: what [lrand] will give. *)
Definition nrand (n : Z) (rs : list Z) : Z * list Z :=
  if n <? 0 then (n, rs) else
  if n =? 1 then (0, rs) else
  let '(v, rs) := lrand_above (MASK mod n) rs in (v mod n, rs).

Lemma nrand_1 rs : nrand 1 rs = (0, rs).
Proof. done. Qed.

(** Each of those that wait is chosen with the same probability. *)
Fixpoint choose (q : list (option aptr)) (op : ChanOp) (k : Z) (b : option aptr) (rs : list Z) : eff World (option aptr) :=
  match q with
  | [] => mret b
  | x :: q =>
      w ← waits x op;
      if (w : bool) then
        let '(r, rs) := nrand (k + 1) rs in
        choose q op (k + 1) (if r =? 0 then x else b) rs
      else choose q op k b rs
  end.

(** * Executing an operation *)

Definition u32mod (a b : Z) : nat := Z.to_nat (u32 a mod b).

Definition altexecbuffered (a : Alt) (willreplace : bool) : eff World ptr :=
  c ← nonnil a.(ac);
  x ← deref chans c;
  if bool_decide (a.(aop) = CHANRCV) && (0 <? x.(ch_n)) then
    (if willreplace then mret tt else putc c (set_n (u32 (x.(ch_n) - 1)) x));;
    x ← deref chans c;
    putc c (set_f (u32 (x.(ch_f) + 1)) x);;
    mret (Slot c (u32mod x.(ch_f) x.(ch_s)))
  else if bool_decide (a.(aop) = CHANSND) && (x.(ch_n) <? x.(ch_s)) then
    (if willreplace then mret tt else putc c (set_n (u32 (x.(ch_n) + 1)) x));;
    mret (Slot c (u32mod (x.(ch_f) + x.(ch_n)) x.(ch_s)))
  else abort.

(** A step of [alt] ends the call or waits in a rendezvous: on the thread's own
    tag, or on that of the thread it serves, and then returns an index. *)
Inductive after := Done (r : Z) | Wait | Serve (u : Z) (i : nat).

(** The operation [a] of thread [t], at index [i] of its array. *)
Definition altexec (t : Z) (i : nat) (a : Alt) (rs : list Z) : eff World after :=
  c ← nonnil a.(ac);
  x ← deref chans c;
  b ← choose x.(qentry) (otherop a.(aop)) 0 None rs;
  let me := vptr a.(av) in
  match b with
  | Some p =>
      b ← geta p;
      let waiter := vptr b.(av) in
      (if negb (x.(ch_s) =? 0) && negb (x.(ch_n) =? 0) then
         if negb (bool_decide (a.(aop) = CHANRCV)) then abort else
         buf ← altexecbuffered a true;
         d ← value buf x.(ch_e);
         altcopy me buf x.(ch_e);;
         d ← arrived me d x.(ch_e); record (Got t c d);;
         d ← value waiter x.(ch_e); record (Sent p.1 c d);;
         altcopy buf waiter x.(ch_e)
       else if bool_decide (a.(aop) = CHANRCV) then
         d ← value waiter x.(ch_e); record (Sent p.1 c d);;
         altcopy me waiter x.(ch_e);;
         d ← arrived me d x.(ch_e); record (Got t c d)
       else
         d ← value me x.(ch_e); record (Sent t c d);;
         altcopy waiter me x.(ch_e);;
         d ← arrived waiter d x.(ch_e); record (Got p.1 c d));;
      puttag b (Tchan c);;
      u ← nonnil b.(atag);
      mret (Serve u i)
  | None =>
      buf ← altexecbuffered a false;
      (if bool_decide (a.(aop) = CHANRCV)
       then d ← value buf x.(ch_e); altcopy me buf x.(ch_e);;
            d ← arrived me d x.(ch_e); record (Got t c d)
       else d ← value me x.(ch_e); record (Sent t c d);; altcopy buf me x.(ch_e));;
      record (Did t a.(aop) c);;
      mret (Done (Z.of_nat i))
  end.

(** * alt *)

(** The loop that tests whether any channel can proceed: the array as it leaves
    it and, unless a channel is [nil], the operation chosen, the index and kind
    of the end, and the random numbers left. *)
Fixpoint scan (al : list Alt) (i : nat) (k : Z) (a : option (nat * Alt)) (rs : list Z) :
    eff World (list Alt * option (option (nat * Alt) * nat * bool * list Z)) :=
  match al with
  | [] => fault
  | xa :: al' =>
      match xa.(aop) with
      | CHANEND => mret (al, Some (a, i, false, rs))
      | CHANNOBLK => mret (al, Some (a, i, true, rs))
      | op =>
          let xa := set_entryno (-1) xa in
          '(al', r) ← (if bool_decide (op = CHANNOP) then scan al' (S i) k a rs else
               match xa.(ac) with
               | None => mret (al', None)
               | Some c =>
                   x ← deref chans c;
                   can ← (if isopenfor x op then canexec xa else mret false);
                   if (can : bool) then
                     let '(r, rs) := nrand (k + 1) rs in
                     scan al' (S i) (k + 1) (if r =? 0 then Some (i, xa) else a) rs
                   else scan al' (S i) k a rs
               end);
          mret (xa :: al', r)
      end
  end.

(** The loop that enqueues on all channels open for the operation: whether it
    did, the last closed channel not reported yet, whether one was reported. *)
Fixpoint enqueue_all (al : list Alt) (t : Z) (i : nat) (waiting : bool) (ca : option nat) (allreadycl : bool) :
    eff World (bool * option nat * bool) :=
  match al with
  | [] => fault
  | xa :: al =>
      match xa.(aop) with
      | CHANEND => mret (waiting, ca, allreadycl)
      | CHANNOP => enqueue_all al t (S i) waiting ca allreadycl
      | op =>
          c ← nonnil xa.(ac);
          x ← deref chans c;
          if isopenfor x op then enqueue (t, i) t;; enqueue_all al t (S i) true ca allreadycl
          else if negb (bool_decide (xa.(aerr) = Errcl)) then enqueue_all al t (S i) waiting (Some i) allreadycl
          else enqueue_all al t (S i) waiting ca true
      end
  end.

(** [alt] until it returns or waits. *)
Definition alt (t : Z) (al : list Alt) (rs : list Z) : eff World after :=
  putf t (MkFrame al Tnil);;
  '(al, r) ← scan al 0 0 None rs;
  putf t (MkFrame al Tnil);;
  match r with
  | None => mret (Done (-1))
  | Some (a, j, nb, rs) =>
      match a with
      | Some (i, a) => altexec t i a rs
      | None =>
          if (nb : bool) then mret (Done (Z.of_nat j)) else
          '(waiting, ca, allreadycl) ← enqueue_all al t 0 false None false;
          if (waiting : bool) then mret Wait else
          match ca with
          | Some i =>
              x ← geta (t, i); puta (t, i) (set_err Errcl x);; mret (Done (Z.of_nat i))
          | None => mret (if (allreadycl : bool) then Done (-1) else Wait)
          end
      end
  end.

(** What [_threadrendezvous] answers: 0, [Closed], [Intred]. *)
Inductive rv := Rzero | Closed | Intred.
#[export] Instance rv_eq_dec : EqDecision rv.
Proof. solve_decision. Defined.

(** The loop that dequeues from all channels and finds the selected one. *)
Fixpoint dequeue_all (al : list Alt) (t : Z) (i : nat) (c : tagv) (r : rv) (a : option nat) : eff World (option nat) :=
  match al with
  | [] => fault
  | xa :: al =>
      match xa.(aop) with
      | CHANEND => mret a
      | CHANNOP => dequeue_all al t (S i) c r a
      | _ =>
          let sel := bool_decide (c = match xa.(ac) with Some k => Tchan k | None => Tnil end) in
          (if sel then x ← geta (t, i); puta (t, i) (set_err (if decide (r = Closed) then Errcl else Noerr) x)
           else mret tt);;
          dequeue (t, i);;
          dequeue_all al t (S i) c r (if sel then Some i else a)
      end
  end.

(** [alt] after the rendezvous on its own tag answered [r]. *)
Definition alt_resume (t : Z) (r : rv) : eff World after :=
  x ← deref frames t;
  if decide (r = Intred /\ x.(tagc) <> Tnil) then mret Wait else
  let c := if decide (r = Intred) then Tdead else x.(tagc) in
  putf t (MkFrame x.(alts) c);;
  a ← dequeue_all x.(alts) t 0 c r None;
  match a with
  | None => assertb (bool_decide (c = Tdead));; mret (Done (-1))
  | Some i =>
      (if decide (r = Rzero) then
         x ← geta (t, i);
         match x.(ac) with Some k => record (Did t x.(aop) k) | None => mret tt end
       else mret tt);;
      mret (Done (Z.of_nat i))
  end.

(** * Closing *)

(** The loop of [chanclose] from entry [i] to its next rendezvous, whose tag and
    entry it answers, or to the end. *)
Fixpoint close_loop (c : Z) (q : list (option aptr)) (i : nat) : eff World (option (Z * nat)) :=
  match q with
  | [] => mret None
  | None :: q => close_loop c q (S i)
  | Some p :: q =>
      a ← geta p;
      k ← gettag a;
      if negb (bool_decide (k = Tnil)) then close_loop c q (S i) else
      x ← deref chans c;
      if negb (bool_decide (a.(aop) = CHANSND)) && (negb (bool_decide (a.(aop) = CHANRCV)) || negb (x.(ch_n) =? 0))
      then close_loop c q (S i)
      else puttag a (Tchan c);; u ← nonnil a.(atag); mret (Some (u, i))
  end.

(** [None]: the call has returned. *)
Definition close_from (c : Z) (i : nat) : eff World (option (Z * nat)) :=
  x ← deref chans c;
  r ← close_loop c (drop i x.(qentry)) i;
  match r with
  | Some p => mret (Some p)
  | None =>
      x ← deref chans c;
      putc c (set_closed 2 x);;
      (if x.(freed) then _chanfree c else mret tt);;
      mret None
  end.

Definition chanclose (c : Z) : eff World (option (Z * nat) * Z) :=
  x ← deref chans c;
  if negb (x.(closed) =? 0) then mret (None, -1) else
  putc c (set_closed 1 x);;
  r ← close_from c 0;
  mret (r, 0).

(** * Send and receive *)

(** What a call does with the result of [alt]: nothing; [runop]; and then, for
    [recvul] and [recvp], the value of [v], unless the operation failed, and for
    [nbrecvul] and [nbrecvp], unless it answered 0. *)
Inductive wrap := Wint | Wrecv (v fail : Z) | Wnbrecv (v : Z).
Inductive kont := Kalt | Krunop (nb : bool) (w : wrap).

(** The switch of [runop]. *)
Definition runop_ret (nb : bool) (r : Z) (al : list Alt) : eff World Z :=
  if r =? -1 then mret (-1)
  else if r =? 1 then assertb nb;; mret 0
  else if r =? 0 then
    match al with
    | a :: _ => mret (if bool_decide (a.(aerr) = Noerr) then 1 else -1)
    | [] => fault
    end
  else abort.

Definition wrap_ret (w : wrap) (r : Z) : eff World Z :=
  match w with
  | Wint => mret r
  | Wrecv v fail => if r <? 0 then mret fail else d ← deref blocks v; mret (unle d)
  | Wnbrecv v => if r =? 0 then mret 0 else d ← deref blocks v; mret (unle d)
  end.

Definition kont_ret (k : kont) (r : Z) (al : list Alt) : eff World Z :=
  match k with
  | Kalt => mret r
  | Krunop nb w => r ← runop_ret nb r al; wrap_ret w r
  end.

(** The array of [runop]; its last element is not initialised but for [op]. *)
Definition runop_alts (op : ChanOp) (c : Z) (v : option Z) (nb : bool) : list Alt :=
  [MkAlt (Some c) v op Noerr None 0; MkAlt None None (if nb then CHANNOBLK else CHANEND) Noerr None 0].

Definition channelsize (c sz : Z) : eff World unit :=
  x ← deref chans c; if negb (x.(ch_e) =? sz) then abort else mret tt.

(** * The calls *)

Definition runop (op : ChanOp) (c : Z) (v : option Z) (nb : bool) (w : wrap) : list Alt * kont :=
  (runop_alts op c v nb, Krunop nb w).

Definition recv (c : Z) (v : option Z) := runop CHANRCV c v false Wint.
Definition nbrecv (c : Z) (v : option Z) := runop CHANRCV c v true Wint.
Definition send (c : Z) (v : option Z) := runop CHANSND c v false Wint.
Definition nbsend (c : Z) (v : option Z) := runop CHANSND c v true Wint.

(** [p]: where the caller's [v] is; both types have four bytes. *)
Definition sendul (c x p : Z) : eff World (list Alt * kont) :=
  channelsize c 4;; putb p (le 4 x);; mret (send c (Some p)).
Definition recvul (c p : Z) : eff World (list Alt * kont) :=
  channelsize c 4;; mret (runop CHANRCV c (Some p) false (Wrecv p (u32 (-1)))).
Definition sendp (c x p : Z) : eff World (list Alt * kont) :=
  channelsize c 4;; putb p (le 4 x);; mret (send c (Some p)).
Definition recvp (c p : Z) : eff World (list Alt * kont) :=
  channelsize c 4;; mret (runop CHANRCV c (Some p) false (Wrecv p 0)).
Definition nbsendul (c x p : Z) : eff World (list Alt * kont) :=
  channelsize c 4;; putb p (le 4 x);; mret (nbsend c (Some p)).
Definition nbrecvul (c p : Z) : eff World (list Alt * kont) :=
  channelsize c 4;; mret (runop CHANRCV c (Some p) true (Wnbrecv p)).
Definition nbsendp (c x p : Z) : eff World (list Alt * kont) :=
  channelsize c 4;; putb p (le 4 x);; mret (nbsend c (Some p)).
Definition nbrecvp (c p : Z) : eff World (list Alt * kont) :=
  channelsize c 4;; mret (runop CHANRCV c (Some p) true (Wnbrecv p)).

Inductive call :=
  | Calt (al : list Alt)
  | Crecv (c : Z) (v : option Z) | Cnbrecv (c : Z) (v : option Z)
  | Csend (c : Z) (v : option Z) | Cnbsend (c : Z) (v : option Z)
  | Csendul (c x p : Z) | Crecvul (c p : Z) | Csendp (c x p : Z) | Crecvp (c p : Z)
  | Cnbsendul (c x p : Z) | Cnbrecvul (c p : Z) | Cnbsendp (c x p : Z) | Cnbrecvp (c p : Z)
  | Cchancreate (c elemsize elemcnt : Z)
  | Cchaninit (c : option Z) (elemsize elemcnt : Z) (v : list (list Z))
  | Cchanfree (c : Z) | Cchanclose (c : Z) | Cchanclosing (c : Z).

(** The array with which a call goes to [alt], if it does. *)
Definition prepare (k : call) : option (eff World (list Alt * kont)) :=
  match k with
  | Calt al => Some (mret (al, Kalt))
  | Crecv c v => Some (mret (recv c v))
  | Cnbrecv c v => Some (mret (nbrecv c v))
  | Csend c v => Some (mret (send c v))
  | Cnbsend c v => Some (mret (nbsend c v))
  | Csendul c x p => Some (sendul c x p)
  | Crecvul c p => Some (recvul c p)
  | Csendp c x p => Some (sendp c x p)
  | Crecvp c p => Some (recvp c p)
  | Cnbsendul c x p => Some (nbsendul c x p)
  | Cnbrecvul c p => Some (nbrecvul c p)
  | Cnbsendp c x p => Some (nbsendp c x p)
  | Cnbrecvp c p => Some (nbrecvp c p)
  | _ => None
  end.

(** * Threads *)

(** Where a thread is between its steps: outside the calls, with the value of
    the last one and the array it leaves; in the rendezvous on its own tag; past
    it; in the rendezvous on the tag of [u], to return the index [i]; in
    [chanclose], in the rendezvous on the tag of the entry [i], and past it. *)
Inductive pc :=
  | Run (r : Z) (al : list Alt)
  | InAlt (k : kont)
  | Woken (k : kont) (r : rv)
  | Serving (k : kont) (u : Z) (i : nat)
  | Closing (c u : Z) (i : nat)
  | CloseNext (c : Z) (i : nat).

Record conf := MkConf { world : World; pcs : gmap Z pc }.

Definition inworld {A} (f : eff World A) : eff conf A := fun c =>
  match f c.(world) with
  | Ok (x, w) => Ok (x, MkConf w c.(pcs))
  | Abort => Abort
  | Fault => Fault
  end.

Definition goto (t : Z) (x : pc) : eff conf unit :=
  modify (fun c => MkConf c.(world) (<[t := x]> c.(pcs))).

(** [alt] returns [r] to the thread, and [k] goes on. *)
Definition return_alt (t : Z) (k : kont) (r : Z) : eff World pc :=
  x ← deref frames t;
  leave t;;
  v ← kont_ret k r x.(alts);
  mret (Run v x.(alts)).

Definition settle (t : Z) (k : kont) (a : after) : eff World pc :=
  match a with
  | Done r => return_alt t k r
  | Wait => mret (InAlt k)
  | Serve u i => mret (Serving k u i)
  end.

(** [alt] after the rendezvous in which it served another thread. *)
Definition served (t : Z) (k : kont) (i : nat) : eff World pc :=
  a ← geta (t, i);
  c ← nonnil a.(ac);
  record (Did t a.(aop) c);;
  return_alt t k (Z.of_nat i).

Definition close_settle (c : Z) (r : option (Z * nat)) (v : Z) : pc :=
  match r with Some (u, i) => Closing c u i | None => Run v [] end.

Definition enter (t : Z) (k : call) (rs : list Z) : eff World pc :=
  match prepare k with
  | Some p => '(al, kt) ← p; a ← alt t al rs; settle t kt a
  | None =>
      match k with
      | Cchancreate c e s => v ← chancreate c e s; mret (Run v [])
      | Cchaninit c e s v => r ← chaninit c e s v; mret (Run r [])
      | Cchanfree c => chanfree c;; mret (Run 0 [])
      | Cchanclose c => '(r, v) ← chanclose c; mret (close_settle c r v)
      | Cchanclosing c => v ← chanclosing c; mret (Run v [])
      | _ => fault
      end
  end.

Inductive event :=
  | Call (t : Z) (k : call) (rs : list Z)
  | Meet (t u : Z)       (* [t] meets [u] on the tag of [u] *)
  | Interrupt (t : Z)    (* the rendezvous of [t] answers [~0] *)
  | Resume (t : Z)       (* [t] locks [chanlock] after its rendezvous *)
  | Next (t : Z).        (* the next turn of the loop of [chanclose] *)

Definition exec (e : event) : eff conf unit :=
  match e with
  | Call t k rs => x ← inworld (enter t k rs); goto t x
  | Meet t u =>
      x ← deref pcs t; y ← deref pcs u;
      match x, y with
      | Serving k u' i, InAlt ku =>
          if negb (u' =? u) then fault else
          goto u (Woken ku Rzero);; z ← inworld (served t k i); goto t z
      | Closing c u' i, InAlt ku =>
          if negb (u' =? u) then fault else
          goto u (Woken ku Closed);; goto t (CloseNext c (S i))
      | _, _ => fault
      end
  | Interrupt t =>
      x ← deref pcs t;
      match x with
      | InAlt k => goto t (Woken k Intred)
      | _ => mret tt
      end
  | Resume t =>
      x ← deref pcs t;
      match x with
      | Woken k r => z ← inworld (a ← alt_resume t r; settle t k a); goto t z
      | _ => fault
      end
  | Next t =>
      x ← deref pcs t;
      match x with
      | CloseNext c i => r ← inworld (close_from c i); goto t (close_settle c r 0)
      | _ => fault
      end
  end.

Fixpoint execs (es : list event) : eff conf unit :=
  match es with [] => mret tt | e :: es => exec e;; execs es end.
