(* ===== verification/ChanInv.v ===== *)
(** The invariant of channels, and their steps as a relation.

    [Inv] relates the queues of the channels to the threads that wait in [alt]:
    every entry of a queue is of a thread that waits, every operation of a
    thread that waits is in the queue of its channel or that channel is closed,
    nothing that waits could proceed, and a thread is committed exactly when
    another is on its way to meet it.  [trans] says what each step does; that
    steps keep the invariant is proved for [trans], that the code makes only
    such steps in [ChanExec]. *)

From S2P Require Import Prelude Fcall Eff Chan.

(** * Queues as partial functions *)

Definition qat (q : list (option aptr)) (j : nat) : option aptr := mjoin (q !! j).

(** [q'] is [q] with [p] added, or taken away, at one place. *)
Definition qadd (q q' : list (option aptr)) (p : aptr) : Prop :=
  exists j, qat q j = None /\ forall k, qat q' k = if decide (k = j) then Some p else qat q k.
Definition qdel (q q' : list (option aptr)) (p : aptr) : Prop :=
  exists j, qat q j = Some p /\ forall k, qat q' k = if decide (k = j) then None else qat q k.

Definition queued (q : list (option aptr)) (p : aptr) : Prop := exists j, qat q j = Some p.
Definition qfun (q : list (option aptr)) : Prop := forall i j p, qat q i = Some p -> qat q j = Some p -> i = j.

(** * Arrays *)

Definition is_op (a : Alt) : Prop := a.(aop) = CHANSND \/ a.(aop) = CHANRCV.

(** The operation at index [i] of the array, on channel [ch]. *)
Definition entry (al : list Alt) (i : nat) (a : Alt) (ch : Z) : Prop :=
  al !! i = Some a /\ is_op a /\ a.(ac) = Some ch.

(** The array ends with [CHANEND], or with [CHANNOBLK] when [nb]. *)
Fixpoint ended (nb : bool) (al : list Alt) : bool :=
  match al with
  | [] => false
  | a :: al =>
      match a.(aop) with
      | CHANEND => negb nb && bool_decide (al = [])
      | CHANNOBLK => nb && bool_decide (al = [])
      | _ => ended nb al
      end
  end.

(** No channel twice. *)
Definition distinct (al : list Alt) : Prop :=
  forall i j a b ch, entry al i a ch -> entry al j b ch -> i = j.
Definition named (al : list Alt) : Prop := forall i a, al !! i = Some a -> is_op a -> is_Some a.(ac).

(** Arrays that differ only in what [alt] itself writes. *)
Definition same_alt (a b : Alt) : Prop := b.(ac) = a.(ac) /\ b.(av) = a.(av) /\ b.(aop) = a.(aop).
Definition same_array (al al' : list Alt) : Prop := Forall2 same_alt al al'.

(** * Channels *)

(** The counter of the elements taken may wrap only when that does not change
    the slot. *)
Definition ring (f s : Z) : Prop := 2 ^ 32 mod s = 0 \/ f + s <= 2 ^ 32.

Record chan_ok (x : Channel) : Prop := {
  ck_e : 0 < x.(ch_e) < 2 ^ 31;
  ck_s : 0 <= x.(ch_s) < 2 ^ 31;
  ck_n : 0 <= x.(ch_n) <= x.(ch_s);
  ck_f : 0 <= x.(ch_f) < 2 ^ 32;
  ck_len : Zlen x.(ch_v) = x.(ch_s);
  ck_v : Forall (fun d => Zlen d = x.(ch_e)) x.(ch_v);
  ck_ring : ring x.(ch_f) x.(ch_s);
  ck_q : qfun x.(qentry);
  ck_closed : x.(closed) = 0 \/ x.(closed) = 1 \/ x.(closed) = 2;
  ck_freed : x.(freed) = true -> x.(closed) = 1 \/ exists p, queued x.(qentry) p
}.

(** The elements in the buffer, first the one to be received next. *)
Definition contents (x : Channel) : list (list Z) :=
  map (fun j => nth (u32mod (x.(ch_f) + j) x.(ch_s)) x.(ch_v) []) (seqZ 0 x.(ch_n)).

(** What an operation on a channel does not touch. *)
Definition same_q (x x' : Channel) : Prop :=
  x'.(ch_s) = x.(ch_s) /\ x'.(ch_e) = x.(ch_e) /\ x'.(freed) = x.(freed) /\
  x'.(qentry) = x.(qentry) /\ x'.(closed) = x.(closed).

(** * Threads *)

Definition waiting (x : pc) : Prop := match x with InAlt _ | Woken _ _ => True | _ => False end.
(** Its [alt] has not been answered by a rendezvous. *)
Definition asleep (x : pc) : Prop := match x with InAlt _ | Woken _ Intred => True | _ => False end.
Definition inalt (x : pc) : Prop := match x with InAlt _ | Woken _ _ | Serving _ _ _ => True | _ => False end.
Definition target (x : pc) : option Z := match x with Serving _ u _ | Closing _ u _ => Some u | _ => None end.
(** It is closing [ch] and has seen the entries below [i]. *)
Definition closer (x : pc) (ch : Z) (i : nat) : Prop := x = CloseNext ch i \/ exists u j, x = Closing ch u j /\ i = S j.

(** The thread of an entry is not committed. *)
Definition unc (w : World) (p : aptr) : Prop := exists fr, w.(frames) !! p.1 = Some fr /\ fr.(tagc) = Tnil.
Definition has_op (w : World) (p : aptr) (op : ChanOp) : Prop :=
  exists fr a, w.(frames) !! p.1 = Some fr /\ fr.(alts) !! p.2 = Some a /\ a.(aop) = op.
(** An uncommitted entry of the queue with this operation. *)
Definition blocked (w : World) (q : list (option aptr)) (op : ChanOp) : Prop :=
  exists p, queued q p /\ unc w p /\ has_op w p op.

Definition block_ok (b : gmap Z (list Z)) (a : Alt) (x : Channel) : Prop :=
  forall v, a.(av) = Some v -> exists d, b !! v = Some d /\ x.(ch_e) <= Zlen d.

(** What is left to do after [alt] finds what it needs. *)
Definition kont_ok (b : gmap Z (list Z)) (k : kont) (nb : bool) (al : list Alt) : Prop :=
  match k with
  | Kalt => True
  | Krunop nb' w =>
      (nb' = true \/ nb = false) /\ length al = 2%nat /\
      match w with Wint => True | Wrecv v _ | Wnbrecv v => is_Some (b !! v) end
  end.

(** The array of [runop] has no error yet. *)
Definition clean (k : kont) (al : list Alt) : Prop :=
  match k with Krunop _ _ => forall a, al !! 0%nat = Some a -> a.(aerr) = Noerr | Kalt => True end.

Definition kont_of (x : pc) : option kont :=
  match x with InAlt k | Woken k _ | Serving k _ _ => Some k | _ => None end.

(** The state of one operation of a thread that waits. *)
Definition op_waits (w : World) (t : Z) (i : nat) (a : Alt) (ch : Z) : Prop :=
  exists x, w.(chans) !! ch = Some x /\ block_ok w.(blocks) a x /\
    (queued x.(qentry) (t, i) \/ (x.(closed) <> 0 /\ x.(freed) = false)).

(** Two threads never both wait, uncommitted, for what the other offers. *)
Record chan_inv (w : World) (ps : gmap Z pc) (ch : Z) (x : Channel) : Prop := {
  ci_ok : chan_ok x;
  ci_queue p : queued x.(qentry) p -> exists y fr a, ps !! p.1 = Some y /\ waiting y /\
    w.(frames) !! p.1 = Some fr /\ entry fr.(alts) p.2 a ch /\ a.(atag) = Some p.1;
  ci_recv : blocked w x.(qentry) CHANRCV -> x.(ch_n) = 0;
  ci_send : blocked w x.(qentry) CHANSND -> x.(ch_n) = x.(ch_s);
  ci_both : ~ (blocked w x.(qentry) CHANRCV /\ blocked w x.(qentry) CHANSND);
  ci_closing : x.(closed) = 1 -> exists u z i, ps !! u = Some z /\ closer z ch i;
  ci_closed p : x.(closed) = 2 -> queued x.(qentry) p -> ~ unc w p
}.

Definition frame_ok (w : World) (t : Z) (k : kont) (nb : bool) (fr : Frame) : Prop :=
  w.(frames) !! t = Some fr /\ distinct fr.(alts) /\ ended nb fr.(alts) = true /\ kont_ok w.(blocks) k nb fr.(alts).

(** A thread that is committed is in a queue of the channel in its tag, and as
    long as it sleeps another is on its way to meet it. *)
Definition tag_ok (w : World) (ps : gmap Z pc) (t : Z) (y : pc) (fr : Frame) : Prop :=
  (fr.(tagc) = Tnil /\ asleep y) \/
  (exists ch x i, fr.(tagc) = Tchan ch /\ w.(chans) !! ch = Some x /\ queued x.(qentry) (t, i) /\
     (asleep y -> exists u z, ps !! u = Some z /\ target z = Some t)).

Definition wait_ok (w : World) (ps : gmap Z pc) (t : Z) (y : pc) (k : kont) : Prop :=
  exists fr, frame_ok w t k false fr /\ named fr.(alts) /\
    (forall i a ch, entry fr.(alts) i a ch -> op_waits w t i a ch) /\ tag_ok w ps t y fr.

(** The thread [t] is committed to [ch] and sleeps. *)
Definition target_ok (w : World) (ps : gmap Z pc) (t ch : Z) : Prop :=
  exists y fr, ps !! t = Some y /\ asleep y /\ w.(frames) !! t = Some fr /\ fr.(tagc) = Tchan ch.

Definition close_ok (w : World) (ch : Z) (i : nat) : Prop :=
  exists x, w.(chans) !! ch = Some x /\ x.(closed) = 1 /\
    forall j p, (j < i)%nat -> qat x.(qentry) j = Some p -> ~ unc w p.

Definition thread_inv (w : World) (ps : gmap Z pc) (t : Z) (y : pc) : Prop :=
  match y with
  | Run _ _ => w.(frames) !! t = None
  | InAlt k | Woken k _ => wait_ok w ps t y k
  | Serving k u i =>
      exists fr nb a ch, frame_ok w t k nb fr /\ entry fr.(alts) i a ch /\ target_ok w ps u ch
  | Closing ch u i => w.(frames) !! t = None /\ target_ok w ps u ch /\ close_ok w ch (S i)
  | CloseNext ch i => w.(frames) !! t = None /\ close_ok w ch i
  end.

Record Inv (c : conf) : Prop := {
  i_chan ch x : c.(world).(chans) !! ch = Some x -> chan_inv c.(world) c.(pcs) ch x;
  i_thread t y : c.(pcs) !! t = Some y -> thread_inv c.(world) c.(pcs) t y;
  i_noframe t : c.(pcs) !! t = None -> c.(world).(frames) !! t = None;
  i_one u u' z z' t : c.(pcs) !! u = Some z -> c.(pcs) !! u' = Some z' -> target z = Some t -> target z' = Some t -> u = u';
  i_one_closer u u' z z' ch i i' : c.(pcs) !! u = Some z -> c.(pcs) !! u' = Some z' -> closer z ch i -> closer z' ch i' -> u = u'
}.

(** * Steps *)

(** Blocks keep their sizes. *)
Definition same_lens (b b' : gmap Z (list Z)) : Prop :=
  forall p d, b !! p = Some d -> exists d', b' !! p = Some d' /\ Zlen d' = Zlen d.

Definition idle (c : conf) (t : Z) : Prop := exists r al, c.(pcs) !! t = Some (Run r al).

(** A thread that may look at the entries of [ch] from [i] on to close it. *)
Definition may_close (c : conf) (t ch : Z) (x : Channel) (i : nat) : Prop :=
  c.(world).(chans) !! ch = Some x /\
  ((idle c t /\ x.(closed) = 0 /\ i = O) \/ c.(pcs) !! t = Some (CloseNext ch i)).

(** What a thread that begins to wait finds for one of its operations, and what
    it makes of it. *)
Definition opens (c : conf) (t : Z) (i : nat) (a : Alt) (ch : Z) (chans' : gmap Z Channel) : Prop :=
  exists x, c.(world).(chans) !! ch = Some x /\ block_ok c.(world).(blocks) a x /\ x.(freed) = false /\
    ((x.(closed) = 0 /\ a.(atag) = Some t /\
      (a.(aop) = CHANRCV -> x.(ch_n) = 0) /\ (a.(aop) = CHANSND -> x.(ch_n) = x.(ch_s)) /\
      ~ blocked c.(world) x.(qentry) (otherop a.(aop)) /\
      exists q', qadd x.(qentry) q' (t, i) /\ chans' !! ch = Some (set_q q' x)) \/
     (x.(closed) <> 0 /\ chans' !! ch = Some x)).

(** [ch] after the thread [t] took its entry [i] off. *)
Definition taken_off (x : Channel) (p : aptr) (o : option Channel) : Prop :=
  (~ queued x.(qentry) p /\ o = Some x) \/
  (exists q', qdel x.(qentry) q' p /\
    ((o = Some (set_q q' x) /\ (x.(freed) = true -> x.(closed) = 1 \/ exists r, queued q' r)) \/
     (o = None /\ x.(freed) = true /\ x.(closed) <> 1 /\ forall r, ~ queued q' r))).

(** What serving a waiter does to the buffer, and what is noted. *)
Definition exchange (t u ch : Z) (op : ChanOp) (x x' : Channel) (l : list note) : Prop :=
  (exists d d' l0, op = CHANRCV /\ contents x = d :: l0 /\ contents x' = l0 ++ [d'] /\ l = [Got t ch d; Sent u ch d']) \/
  (exists d, contents x = [] /\ contents x' = [] /\
     l = if decide (op = CHANRCV) then [Sent u ch d; Got t ch d] else [Sent t ch d; Got u ch d]).

Inductive trans (c : conf) : conf -> Prop :=
  | T_return t v al b' :
      idle c t -> same_lens c.(world).(blocks) b' ->
      trans c (MkConf (MkWorld c.(world).(chans) (delete t c.(world).(frames)) b' c.(world).(log)) (<[t := Run v al]> c.(pcs)))
  | T_recv t ch x x' d b' v al :
      idle c t -> c.(world).(chans) !! ch = Some x -> ~ blocked c.(world) x.(qentry) CHANSND ->
      same_q x x' -> chan_ok x' -> x.(ch_n) = 1 + x'.(ch_n) -> contents x = d :: contents x' ->
      same_lens c.(world).(blocks) b' ->
      trans c (MkConf (MkWorld (<[ch := x']> c.(world).(chans)) (delete t c.(world).(frames)) b'
        (c.(world).(log) ++ [Got t ch d; Did t CHANRCV ch])) (<[t := Run v al]> c.(pcs)))
  | T_send t ch x x' d b' v al :
      idle c t -> c.(world).(chans) !! ch = Some x -> ~ blocked c.(world) x.(qentry) CHANRCV ->
      same_q x x' -> chan_ok x' -> x'.(ch_n) = 1 + x.(ch_n) -> contents x' = contents x ++ [d] ->
      same_lens c.(world).(blocks) b' ->
      trans c (MkConf (MkWorld (<[ch := x']> c.(world).(chans)) (delete t c.(world).(frames)) b'
        (c.(world).(log) ++ [Sent t ch d; Did t CHANSND ch])) (<[t := Run v al]> c.(pcs)))
  | T_serve t k ch x x' i a frt u j b fru b' l nb :
      idle c t -> c.(world).(chans) !! ch = Some x ->
      entry frt.(alts) i a ch -> distinct frt.(alts) -> ended nb frt.(alts) = true -> kont_ok b' k nb frt.(alts) ->
      queued x.(qentry) (u, j) -> c.(world).(frames) !! u = Some fru -> fru.(tagc) = Tnil ->
      fru.(alts) !! j = Some b -> b.(aop) = otherop a.(aop) ->
      same_q x x' -> chan_ok x' -> x'.(ch_n) = x.(ch_n) -> exchange t u ch a.(aop) x x' l ->
      same_lens c.(world).(blocks) b' -> clean k frt.(alts) ->
      trans c (MkConf (MkWorld (<[ch := x']> c.(world).(chans))
          (<[u := MkFrame fru.(alts) (Tchan ch)]> (<[t := frt]> c.(world).(frames))) b' (c.(world).(log) ++ l))
        (<[t := Serving k u i]> c.(pcs)))
  | T_wait t k fr chans' b' :
      idle c t -> fr.(tagc) = Tnil -> ended false fr.(alts) = true -> named fr.(alts) -> distinct fr.(alts) ->
      kont_ok b' k false fr.(alts) -> same_lens c.(world).(blocks) b' ->
      (forall i a ch, entry fr.(alts) i a ch -> opens c t i a ch chans') ->
      (forall ch, (forall i a, ~ entry fr.(alts) i a ch) -> chans' !! ch = c.(world).(chans) !! ch) ->
      trans c (MkConf (MkWorld chans' (<[t := fr]> c.(world).(frames)) b' c.(world).(log)) (<[t := InAlt k]> c.(pcs)))
  | T_meet t u k ku i fr a ch v al :
      c.(pcs) !! t = Some (Serving k u i) -> c.(pcs) !! u = Some (InAlt ku) ->
      c.(world).(frames) !! t = Some fr -> entry fr.(alts) i a ch ->
      trans c (MkConf (MkWorld c.(world).(chans) (delete t c.(world).(frames)) c.(world).(blocks)
          (c.(world).(log) ++ [Did t a.(aop) ch]))
        (<[t := Run v al]> (<[u := Woken ku Rzero]> c.(pcs))))
  | T_meet_close t u ch j ku :
      c.(pcs) !! t = Some (Closing ch u j) -> c.(pcs) !! u = Some (InAlt ku) ->
      trans c (MkConf c.(world) (<[t := CloseNext ch (S j)]> (<[u := Woken ku Closed]> c.(pcs))))
  | T_interrupt t k :
      c.(pcs) !! t = Some (InAlt k) -> trans c (MkConf c.(world) (<[t := Woken k Intred]> c.(pcs)))
  | T_again t k fr :
      c.(pcs) !! t = Some (Woken k Intred) -> c.(world).(frames) !! t = Some fr -> fr.(tagc) <> Tnil ->
      trans c (MkConf c.(world) (<[t := InAlt k]> c.(pcs)))
  | T_resume t k r fr chans' v al l :
      c.(pcs) !! t = Some (Woken k r) -> c.(world).(frames) !! t = Some fr -> (r = Intred -> fr.(tagc) = Tnil) ->
      (forall i a ch x, entry fr.(alts) i a ch -> c.(world).(chans) !! ch = Some x -> taken_off x (t, i) (chans' !! ch)) ->
      (forall ch, (forall i a, ~ entry fr.(alts) i a ch) -> chans' !! ch = c.(world).(chans) !! ch) ->
      (if decide (r = Rzero) then exists i a ch, entry fr.(alts) i a ch /\ fr.(tagc) = Tchan ch /\ l = [Did t a.(aop) ch] else l = []) ->
      trans c (MkConf (MkWorld chans' (delete t c.(world).(frames)) c.(world).(blocks) (c.(world).(log) ++ l))
        (<[t := Run v al]> c.(pcs)))
  | T_close t ch x i u j jj fru b :
      may_close c t ch x i -> (i <= j)%nat -> qat x.(qentry) j = Some (u, jj) -> c.(world).(frames) !! u = Some fru ->
      fru.(tagc) = Tnil -> (forall k p, (i <= k < j)%nat -> qat x.(qentry) k = Some p -> ~ unc c.(world) p) ->
      b = fru.(alts) ->
      trans c (MkConf (MkWorld (<[ch := set_closed 1 x]> c.(world).(chans)) (<[u := MkFrame b (Tchan ch)]> c.(world).(frames))
          c.(world).(blocks) c.(world).(log))
        (<[t := Closing ch u j]> c.(pcs)))
  | T_closed t ch x i v o :
      may_close c t ch x i -> (forall k p, (i <= k)%nat -> qat x.(qentry) k = Some p -> ~ unc c.(world) p) ->
      ((o = Some (set_closed 2 x) /\ (x.(freed) = true -> exists p, queued x.(qentry) p)) \/
       (o = None /\ x.(freed) = true /\ forall p, ~ queued x.(qentry) p)) ->
      trans c (MkConf (MkWorld (partial_alter (fun _ => o) ch c.(world).(chans)) c.(world).(frames)
          c.(world).(blocks) c.(world).(log))
        (<[t := Run v []]> c.(pcs)))
  | T_free t ch x v o :
      idle c t -> c.(world).(chans) !! ch = Some x ->
      (forall u y fr i a, c.(pcs) !! u = Some y -> waiting y -> c.(world).(frames) !! u = Some fr ->
         entry fr.(alts) i a ch -> queued x.(qentry) (u, i)) ->
      ((o = Some (set_freed true x) /\ (x.(closed) = 1 \/ exists p, queued x.(qentry) p)) \/
       (o = None /\ x.(closed) <> 1 /\ forall p, ~ queued x.(qentry) p)) ->
      trans c (MkConf (MkWorld (partial_alter (fun _ => o) ch c.(world).(chans)) c.(world).(frames)
          c.(world).(blocks) c.(world).(log))
        (<[t := Run v []]> c.(pcs)))
  | T_make t ch x' v :
      idle c t -> chan_ok x' -> contents x' = [] -> (forall p, ~ queued x'.(qentry) p) ->
      x'.(closed) = 0 -> x'.(freed) = false ->
      (forall x, c.(world).(chans) !! ch = Some x -> x.(closed) <> 1) ->
      (forall u y fr i a, c.(pcs) !! u = Some y -> waiting y -> c.(world).(frames) !! u = Some fr -> ~ entry fr.(alts) i a ch) ->
      trans c (MkConf (MkWorld (<[ch := x']> c.(world).(chans)) c.(world).(frames) c.(world).(blocks)
          (c.(world).(log) ++ [Made ch]))
        (<[t := Run v []]> c.(pcs))).
