(* ===== verification/ChanKeep.v ===== *)
(** Every step of [trans] keeps the invariant of channels. *)

From S2P Require Import Prelude Fcall Eff Chan ChanInv.

Lemma waiting_inalt y : waiting y -> inalt y.
Proof. by destruct y. Qed.
Lemma asleep_waiting y : asleep y -> waiting y.
Proof. by destruct y as [| |? []| | |]. Qed.
#[export] Hint Resolve waiting_inalt asleep_waiting : chan.

Lemma same_lens_refl b : same_lens b b.
Proof. intros p d H. eauto. Qed.

Lemma same_lens_trans b1 b2 b3 : same_lens b1 b2 -> same_lens b2 b3 -> same_lens b1 b3.
Proof. intros H1 H2 p d Hp. destruct (H1 p d Hp) as (d' & Hd & E). destruct (H2 p d' Hd) as (d2 & ? & ?). exists d2. split; [done|congruence]. Qed.

#[export] Hint Resolve same_lens_refl : chan.

Lemma unc_ext w w' p : w'.(frames) !! p.1 = w.(frames) !! p.1 -> unc w' p <-> unc w p.
Proof. intros H. unfold unc. by rewrite H. Qed.
Lemma has_op_ext w w' p op : w'.(frames) !! p.1 = w.(frames) !! p.1 -> has_op w' p op <-> has_op w p op.
Proof. intros H. unfold has_op. by rewrite H. Qed.

Lemma blocked_ext w w' q op : (forall p, queued q p -> w'.(frames) !! p.1 = w.(frames) !! p.1) -> blocked w' q op <-> blocked w q op.
Proof.
  intros H. split; intros (p & Hq & Hu & Ho); exists p; (split; [done|]); specialize (H p Hq).
  - by rewrite unc_ext, has_op_ext in *.
  - rewrite (unc_ext w w') by done. by rewrite (has_op_ext w w').
Qed.

Lemma block_ok_keep b b' a x x' : same_lens b b' -> x'.(ch_e) = x.(ch_e) -> block_ok b a x -> block_ok b' a x'.
Proof.
  intros Hb He H v Hv. destruct (H v Hv) as (d & Hd & Hl). destruct (Hb v d Hd) as (d' & Hd' & Hl').
  exists d'. split; [done|]. by rewrite He, Hl'.
Qed.

Lemma kont_ok_keep b b' k nb al : same_lens b b' -> kont_ok b k nb al -> kont_ok b' k nb al.
Proof.
  intros Hb. destruct k as [|nb' w]; [done|]. intros (H1 & H2 & H3). split_and!; [done|done|].
  destruct w as [|v ?|v]; [done|..]; destruct H3 as [d Hd]; destruct (Hb v d Hd) as (d' & -> & _); eauto.
Qed.

(** Channels whose queues, sizes and ends are the same. *)
Definition same_chans (m m' : gmap Z Channel) : Prop :=
  (forall ch x', m' !! ch = Some x' -> exists x, m !! ch = Some x /\ same_q x x') /\
  (forall ch x, m !! ch = Some x -> exists x', m' !! ch = Some x' /\ same_q x x').

Lemma same_q_refl x : same_q x x.
Proof. by split_and!. Qed.

Lemma same_chans_refl m : same_chans m m.
Proof. split; intros ch x Hx; exists x; (split; [done|apply same_q_refl]). Qed.

Lemma same_chans_insert m ch x x' : m !! ch = Some x -> same_q x x' -> same_chans m (<[ch := x']> m).
Proof.
  intros Hx Hs. split; intros k y Hk.
  - destruct (decide (k = ch)) as [->|Hne].
    + rewrite lookup_insert_eq in Hk. injection Hk as <-. eauto.
    + rewrite lookup_insert_ne in Hk by done. exists y. split; [done|apply same_q_refl].
  - destruct (decide (k = ch)) as [->|Hne].
    + rewrite lookup_insert_eq. rewrite Hx in Hk. injection Hk as <-. eauto.
    + rewrite lookup_insert_ne by done. exists y. split; [done|apply same_q_refl].
Qed.

Lemma op_waits_same w w' t i a ch : same_chans w.(chans) w'.(chans) -> same_lens w.(blocks) w'.(blocks) ->
  op_waits w t i a ch -> op_waits w' t i a ch.
Proof.
  intros [_ Hc] Hb (x & Hx & Hbk & Hq). destruct (Hc ch x Hx) as (x' & Hx' & Hs & He & Hf & Hqe & Hcl).
  exists x'. split_and!; [done|by eapply block_ok_keep|]. rewrite Hqe, Hcl, Hf. done.
Qed.

(** * What a step leaves alone *)

Section Keep.
Context (w : World) (ps : gmap Z pc) (w' : World) (ps' : gmap Z pc).

(** The thread goes on waiting, with the same array, and is not made
    uncommitted. *)
Definition keeps (t : Z) : Prop :=
  (forall y, ps !! t = Some y -> waiting y -> exists y', ps' !! t = Some y' /\ waiting y') /\
  (forall fr, w.(frames) !! t = Some fr ->
     exists fr', w'.(frames) !! t = Some fr' /\ fr'.(alts) = fr.(alts) /\ (fr'.(tagc) = Tnil -> fr.(tagc) = Tnil)).

Lemma unc_keep p : (exists fr, w.(frames) !! p.1 = Some fr) -> keeps p.1 -> unc w' p -> unc w p.
Proof.
  intros [fr Hfr] [_ H] (fr2 & Hfr2 & Ht). destruct (H fr Hfr) as (fr' & Hfr' & _ & Ht').
  rewrite Hfr' in Hfr2. injection Hfr2 as <-. exists fr. split; [done|by apply Ht'].
Qed.

Lemma blocked_keep q op : (forall p, queued q p -> keeps p.1 /\ exists fr, w.(frames) !! p.1 = Some fr) ->
  blocked w' q op -> blocked w q op.
Proof.
  intros H (p & Hq & Hu & fr2 & a & Hfr2 & Ha & Ho). destruct (H p Hq) as [Hk [fr Hfr]].
  exists p. split; [done|]. split; [by apply unc_keep; eauto|].
  destruct Hk as [_ Hk]. destruct (Hk fr Hfr) as (fr' & Hfr' & Hal & _).
  rewrite Hfr' in Hfr2. injection Hfr2 as <-. rewrite Hal in Ha. by exists fr, a.
Qed.

Lemma chan_keep ch x x' :
  chan_inv w ps ch x -> chan_ok x' -> x'.(qentry) = x.(qentry) ->
  (blocked w x.(qentry) CHANRCV -> x'.(ch_n) = 0) -> (blocked w x.(qentry) CHANSND -> x'.(ch_n) = x'.(ch_s)) ->
  (forall p, queued x.(qentry) p -> keeps p.1) ->
  (x'.(closed) = 1 -> exists u z i, ps' !! u = Some z /\ closer z ch i) ->
  (x'.(closed) = 2 -> forall p, queued x.(qentry) p -> ~ unc w' p) ->
  chan_inv w' ps' ch x'.
Proof.
  intros [Hok Hqu Hr Hs Hb _ _] Hok' Hq Hr' Hs' Hk Hcl Hcd.
  assert (Hfr : forall p, queued x.(qentry) p -> exists fr, w.(frames) !! p.1 = Some fr)
    by (intros p Hp; destruct (Hqu p Hp) as (? & fr & ? & ? & ? & ? & _); eauto).
  assert (Hbl : forall op, blocked w' x'.(qentry) op -> blocked w x.(qentry) op)
    by (intros op; rewrite Hq; apply blocked_keep; intros p Hp; eauto).
  constructor; [done|..].
  - intros p Hp. rewrite Hq in Hp. destruct (Hqu p Hp) as (y & fr & a & Hy & Hw & Hf & He & Ht).
    destruct (Hk p Hp) as [K1 K2]. destruct (K1 y Hy Hw) as (y' & Hy' & Hw'). destruct (K2 fr Hf) as (fr' & Hf' & Hal & _).
    exists y', fr', a. rewrite Hal. done.
  - intros H. by apply Hr', Hbl.
  - intros H. by apply Hs', Hbl.
  - intros [H1 H2]. apply Hb. split; by apply Hbl.
  - done.
  - intros p H2 Hp. rewrite Hq in Hp. by apply Hcd.
Qed.

(** The operations of the thread [u] stay as they are. *)
Definition keeps_ops (u : Z) : Prop :=
  w'.(frames) !! u = w.(frames) !! u /\
  (forall y fr i a ch, ps !! u = Some y -> waiting y -> w.(frames) !! u = Some fr -> entry fr.(alts) i a ch ->
     op_waits w u i a ch -> op_waits w' u i a ch) /\
  (forall ch x i, w.(chans) !! ch = Some x -> queued x.(qentry) (u, i) ->
     exists x', w'.(chans) !! ch = Some x' /\ queued x'.(qentry) (u, i)).

Lemma tag_keep u y fr : keeps_ops u -> tag_ok w ps u y fr ->
  (forall v z, ps !! v = Some z -> target z = Some u -> exists v' z', ps' !! v' = Some z' /\ target z' = Some u) ->
  tag_ok w' ps' u y fr.
Proof.
  intros (_ & _ & Hq) [H|(ch & x & i & Ht & Hx & Hqi & Ha)] Hv; [by left|]. right.
  destruct (Hq ch x i Hx Hqi) as (x' & Hx' & Hq'). exists ch, x', i. split_and!; [done..|].
  intros Hs. destruct (Ha Hs) as (v & z & Hz & Hzt). by apply (Hv v z).
Qed.

Lemma wait_keep u y k : ps !! u = Some y -> waiting y -> keeps_ops u -> same_lens w.(blocks) w'.(blocks) -> wait_ok w ps u y k ->
  (forall v z, ps !! v = Some z -> target z = Some u -> exists v' z', ps' !! v' = Some z' /\ target z' = Some u) ->
  wait_ok w' ps' u y k.
Proof.
  intros Hy Hw Hk Hb (fr & (Hf & Hd & He & Hko) & Hn & Hop & Ht) Hv. exists fr. split_and!.
  - split_and!; [by rewrite (proj1 Hk)|done|done|by eapply kont_ok_keep].
  - done.
  - intros i a ch Hen. apply (proj1 (proj2 Hk) y fr); auto.
  - by apply tag_keep.
Qed.

Lemma thread_keep u y :
  ps !! u = Some y -> thread_inv w ps u y -> keeps_ops u -> same_lens w.(blocks) w'.(blocks) ->
  (forall v z, ps !! v = Some z -> target z = Some u -> exists v' z', ps' !! v' = Some z' /\ target z' = Some u) ->
  (forall v ch, target y = Some v -> target_ok w ps v ch -> target_ok w' ps' v ch) ->
  (forall ch i, closer y ch i -> close_ok w ch i -> close_ok w' ch i) ->
  thread_inv w' ps' u y.
Proof.
  intros Hy H Hk Hb Hv Ht Hc. destruct y as [r al|k|k r|k t i|ch t i|ch i]; simpl in H |- *.
  - by rewrite (proj1 Hk).
  - by apply wait_keep.
  - by apply wait_keep.
  - destruct H as (fr & nb & a & ch & (Hf & Hd & He & Hko) & Hen & Hto). exists fr, nb, a, ch.
    split_and!; [|done|by apply Ht]. split_and!; [by rewrite (proj1 Hk)|done|done|by eapply kont_ok_keep].
  - destruct H as (Hf & Hto & Hco). rewrite (proj1 Hk). split_and!; [done|by apply Ht|].
    apply Hc; [right; eauto|done].
  - destruct H as [Hf Hco]. rewrite (proj1 Hk). split; [done|]. apply Hc; [by left|done].
Qed.
End Keep.

(** * Facts of a state *)

Section Facts.
Context (c : conf) (HI : Inv c).

Lemma idle_noframe t : idle c t -> c.(world).(frames) !! t = None.
Proof. intros (r & al & Ht). exact (i_thread c HI t _ Ht). Qed.

Lemma queued_waits ch x p : c.(world).(chans) !! ch = Some x -> queued x.(qentry) p ->
  exists y fr a, c.(pcs) !! p.1 = Some y /\ waiting y /\ c.(world).(frames) !! p.1 = Some fr /\
    entry fr.(alts) p.2 a ch /\ a.(atag) = Some p.1.
Proof. intros Hx. apply (ci_queue _ _ _ _ (i_chan c HI ch x Hx)). Qed.

Lemma queued_not_idle ch x p t : c.(world).(chans) !! ch = Some x -> queued x.(qentry) p -> idle c t -> p.1 <> t.
Proof.
  intros Hx Hq (r & al & Ht) <-. destruct (queued_waits ch x p Hx Hq) as (y & _ & _ & Hy & Hw & _).
  rewrite Ht in Hy. by injection Hy as <-.
Qed.

(** What a thread that waits knows of its array and its operations. *)
Lemma waits_frame u y : c.(pcs) !! u = Some y -> waiting y -> exists k, kont_of y = Some k /\ wait_ok c.(world) c.(pcs) u y k.
Proof. intros Hy Hw. pose proof (i_thread c HI u y Hy). destruct y; try done; eauto. Qed.

Lemma waits_at u y fr i a ch x : c.(pcs) !! u = Some y -> waiting y -> c.(world).(frames) !! u = Some fr -> entry fr.(alts) i a ch ->
  c.(world).(chans) !! ch = Some x ->
  block_ok c.(world).(blocks) a x /\ (queued x.(qentry) (u, i) \/ (x.(closed) <> 0 /\ x.(freed) = false)).
Proof.
  intros Hy Hw Hf He Hx. destruct (waits_frame u y Hy Hw) as (k & _ & fr' & (Hf' & _) & _ & Hop & _).
  rewrite Hf in Hf'. injection Hf' as <-. destruct (Hop i a ch He) as (x' & Hx' & H1 & H2). rewrite Hx in Hx'. by injection Hx' as <-.
Qed.

(** Whoever is on its way to a thread finds it committed and asleep. *)
Lemma target_is v z t : c.(pcs) !! v = Some z -> target z = Some t -> exists ch, target_ok c.(world) c.(pcs) t ch.
Proof.
  intros Hz Ht. pose proof (i_thread c HI v z Hz) as H.
  destruct z as [r al|k|k r|k u i|ch u i|ch i]; simpl in *; try done; injection Ht as ->.
  - destruct H as (_ & _ & _ & ch & _ & _ & H). eauto.
  - destruct H as (_ & H & _). eauto.
Qed.

Lemma no_target v z t fr : c.(world).(frames) !! t = Some fr -> fr.(tagc) = Tnil -> c.(pcs) !! v = Some z -> target z <> Some t.
Proof.
  intros Hf Hn Hz Ht. destruct (target_is v z t Hz Ht) as (ch & y & fr' & _ & _ & Hf' & Hc).
  rewrite Hf in Hf'. injection Hf' as <-. congruence.
Qed.

Lemma target_not_idle v z t : c.(pcs) !! v = Some z -> target z = Some t -> ~ idle c t.
Proof.
  intros Hz Ht (r & al & Hi). destruct (target_is v z t Hz Ht) as (ch & y & fr & Hy & Ha & _).
  rewrite Hi in Hy. by injection Hy as <-.
Qed.
End Facts.

(** * Uniqueness *)

Definition one_target (ps : gmap Z pc) : Prop :=
  forall u u' z z' t, ps !! u = Some z -> ps !! u' = Some z' -> target z = Some t -> target z' = Some t -> u = u'.
Definition one_closer (ps : gmap Z pc) : Prop :=
  forall u u' z z' ch i i', ps !! u = Some z -> ps !! u' = Some z' -> closer z ch i -> closer z' ch i' -> u = u'.

Lemma one_target_insert ps t y : one_target ps ->
  (forall v u z, target y = Some v -> ps !! u = Some z -> u <> t -> target z <> Some v) -> one_target (<[t := y]> ps).
Proof.
  intros H Hn u u' z z' v Hu Hu' Hz Hz'.
  destruct (decide (u = t)) as [->|Hut], (decide (u' = t)) as [->|Hut']; try done;
    rewrite ?lookup_insert_eq, ?lookup_insert_ne in * by done.
  - injection Hu as <-. by destruct (Hn v u' z' Hz Hu' Hut').
  - injection Hu' as <-. by destruct (Hn v u z Hz' Hu Hut).
  - by apply (H u u' z z' v).
Qed.

Lemma one_closer_insert ps t y : one_closer ps ->
  (forall ch i u z j, closer y ch i -> ps !! u = Some z -> u <> t -> ~ closer z ch j) -> one_closer (<[t := y]> ps).
Proof.
  intros H Hn u u' z z' ch i i' Hu Hu' Hz Hz'.
  destruct (decide (u = t)) as [->|Hut], (decide (u' = t)) as [->|Hut']; try done;
    rewrite ?lookup_insert_eq, ?lookup_insert_ne in * by done.
  - injection Hu as <-. by destruct (Hn ch i u' z' i' Hz Hu' Hut').
  - injection Hu' as <-. by destruct (Hn ch i' u z i Hz' Hu Hut).
  - by apply (H u u' z z' ch i i').
Qed.

Lemma closer_kind z ch i : closer z ch i -> ~ inalt z /\ forall r al, z <> Run r al.
Proof. intros [-> |(u & j & -> & _)]; (split; [by intros []|done]). Qed.

(** * Steps of one thread, outside [alt] after them *)

(** The thread [t] waits for nobody and nobody for it. *)
Definition free_thread (c : conf) (t : Z) : Prop := idle c t \/ exists ch i, c.(pcs) !! t = Some (CloseNext ch i).

Lemma free_pc c t y : free_thread c t -> c.(pcs) !! t = Some y -> ~ inalt y /\ target y = None.
Proof. intros [(r & al & H)|(ch & i & H)] Hy; rewrite H in Hy; injection Hy as <-; (split; [by intros []|done]). Qed.

Lemma free_noframe c t : Inv c -> free_thread c t -> c.(world).(frames) !! t = None.
Proof. intros HI [Hi|(ch & i & H)]; [by apply idle_noframe|]. exact (proj1 (i_thread c HI t _ H)). Qed.

Section Quiet.
Context (c : conf) (HI : Inv c) (t : Z) (Ht : free_thread c t) (r : Z) (al : list Alt).
Context (m' : gmap Z Channel) (b' : gmap Z (list Z)) (l' : list note).
Let w' := MkWorld m' c.(world).(frames) b' l'.
Let ps' := <[t := Run r al]> c.(pcs).

Lemma keeps_quiet u : keeps c.(world) c.(pcs) w' ps' u.
Proof.
  split; [|by eauto]. intros y Hy Hw. exists y. split; [|done]. unfold ps'. rewrite lookup_insert_ne; [done|]. intros ->.
  destruct (free_pc c u y Ht Hy) as [Hn _]. by apply Hn, waiting_inalt.
Qed.

Lemma keep_quiet :
  same_lens c.(world).(blocks) b' ->
  (forall ch x', m' !! ch = Some x' -> chan_inv w' ps' ch x') ->
  (forall u y fr i a ch, c.(pcs) !! u = Some y -> waiting y -> c.(world).(frames) !! u = Some fr -> entry fr.(alts) i a ch ->
     op_waits c.(world) u i a ch -> op_waits w' u i a ch) ->
  (forall ch x p, c.(world).(chans) !! ch = Some x -> queued x.(qentry) p -> exists x', m' !! ch = Some x' /\ queued x'.(qentry) p) ->
  (forall u z ch i, u <> t -> c.(pcs) !! u = Some z -> closer z ch i -> close_ok c.(world) ch i -> close_ok w' ch i) ->
  Inv (MkConf w' ps').
Proof.
  intros Hb Hch Hop Hq Hcl. constructor; simpl.
  - exact Hch.
  - intros u y Hu. unfold ps' in Hu. apply lookup_insert_Some in Hu as [[<- <-]|[Hne Hu]].
    { simpl. by apply free_noframe. }
    pose proof (i_thread c HI u y Hu) as Hth.
    assert (Hv : forall v z, c.(pcs) !! v = Some z -> target z = Some u -> exists v' z', ps' !! v' = Some z' /\ target z' = Some u).
    { intros v z Hz Hzt. exists v, z. split; [|done]. unfold ps'. rewrite lookup_insert_ne; [done|]. intros ->.
      destruct (free_pc c v z Ht Hz) as [_ Hn]. congruence. }
    apply (thread_keep c.(world) c.(pcs) w' ps' u y Hu Hth); [|done|done| |].
    + split_and!; [done| |].
      * intros y' fr i a ch Hy' Hw Hf He. by apply (Hop u y' fr).
      * intros ch x i Hx. by apply Hq.
    + intros v ch Hv' (z & fr & Hz & Ha & Hf & Htc). exists z, fr. split_and!; try done.
      unfold ps'. rewrite lookup_insert_ne; [done|]. intros ->. destruct (free_pc c v z Ht Hz) as [Hn _].
      by apply Hn, waiting_inalt, asleep_waiting.
    + intros ch i Hc. by apply (Hcl u y).
  - intros u Hu. unfold ps' in Hu. apply lookup_insert_None in Hu as [Hu _]. by apply (i_noframe c HI).
  - apply (one_target_insert c.(pcs)); [exact (i_one c HI)|done].
  - apply (one_closer_insert c.(pcs)); [exact (i_one_closer c HI)|]. intros ch i u z j Hcr.
    destruct (closer_kind _ _ _ Hcr) as [_ Hn]. by destruct (Hn r al).
Qed.
End Quiet.

(** A closer other than [t] keeps its place in a channel whose queue and state
    stay. *)
Lemma close_keep w w' ch i x x' : w.(chans) !! ch = Some x -> w'.(chans) !! ch = Some x' ->
  x'.(qentry) = x.(qentry) -> x'.(closed) = x.(closed) -> (forall p, queued x.(qentry) p -> unc w' p -> unc w p) ->
  close_ok w ch i -> close_ok w' ch i.
Proof.
  intros Hx Hx' Hq Hc Hu (y & Hy & H1 & Hp). rewrite Hx in Hy. injection Hy as <-. exists x'. split_and!; [done|congruence|].
  intros j p Hj Hqj Hun. rewrite Hq in Hqj. apply (Hp j p Hj Hqj), Hu; [by exists j|done].
Qed.

Lemma closing_stays c t y ch x : Inv c -> free_thread c t -> c.(world).(chans) !! ch = Some x ->
  c.(pcs) !! t <> Some (CloseNext ch 0) -> (forall i, c.(pcs) !! t <> Some (CloseNext ch i)) -> x.(closed) = 1 ->
  exists u z i, <[t := y]> c.(pcs) !! u = Some z /\ closer z ch i.
Proof.
  intros HI Ht Hx _ Hn Hc. destruct (ci_closing _ _ _ _ (i_chan c HI ch x Hx) Hc) as (u & z & i & Hu & Hz).
  exists u, z, i. split; [|done]. rewrite lookup_insert_ne; [done|]. intros ->.
  destruct Ht as [(r & al & Hr)|(ch' & i' & Hr)]; rewrite Hr in Hu; injection Hu as <-.
  - destruct (closer_kind _ _ _ Hz) as [_ Hz']. by destruct (Hz' r al).
  - destruct Hz as [[= -> ->]|(? & ? & [=] & _)]. by apply (Hn i).
Qed.

Lemma idle_free c t : idle c t -> free_thread c t.
Proof. by left. Qed.
#[export] Hint Resolve idle_free : chan.

Lemma idle_not_closing c t ch i : idle c t -> c.(pcs) !! t <> Some (CloseNext ch i).
Proof. intros (r & al & H). congruence. Qed.

(** A channel that [t] does not touch. *)
Lemma other_chan c t r al m' b' l' ch x x' : Inv c -> free_thread c t -> c.(world).(chans) !! ch = Some x ->
  (forall i, c.(pcs) !! t <> Some (CloseNext ch i)) -> same_q x x' -> chan_ok x' ->
  (blocked c.(world) x.(qentry) CHANRCV -> x'.(ch_n) = 0) ->
  (blocked c.(world) x.(qentry) CHANSND -> x'.(ch_n) = x'.(ch_s)) ->
  chan_inv (MkWorld m' c.(world).(frames) b' l') (<[t := Run r al]> c.(pcs)) ch x'.
Proof.
  intros HI Ht Hx Hn (Hs & He & Hf & Hq & Hc) Hok Hr Hsn. pose proof (i_chan c HI ch x Hx) as HC.
  apply (chan_keep c.(world) c.(pcs) _ _ ch x); try done.
  - intros p _. apply keeps_quiet; [done].
  - rewrite Hc. by apply closing_stays.
  - rewrite Hc. intros H2 p Hp. pose proof (ci_closed _ _ _ _ HC p H2 Hp) as Hu. by rewrite (unc_ext c.(world)).
Qed.

Lemma keep_buffer c t v al m' b' l' :
  Inv c -> idle c t -> same_lens c.(world).(blocks) b' -> same_chans c.(world).(chans) m' ->
  (forall ch x', m' !! ch = Some x' -> chan_ok x' /\
     (blocked c.(world) x'.(qentry) CHANRCV -> x'.(ch_n) = 0) /\
     (blocked c.(world) x'.(qentry) CHANSND -> x'.(ch_n) = x'.(ch_s))) ->
  Inv (MkConf (MkWorld m' (delete t c.(world).(frames)) b' l') (<[t := Run v al]> c.(pcs))).
Proof.
  intros HI Hi Hb Hc Hok. rewrite delete_id by (by apply idle_noframe).
  apply keep_quiet; [done|auto with chan|done|..].
  - intros ch x' Hx'. destruct (proj1 Hc ch x' Hx') as (x & Hx & Hs). destruct (Hok ch x' Hx') as (H1 & H2 & H3).
    destruct Hs as (Hs1 & Hs2 & Hs3 & Hq & Hs4). rewrite Hq in *.
    apply (other_chan c t _ _ _ _ _ ch x x'); auto with chan; [|by split_and!]. intros i. by apply idle_not_closing.
  - intros u y fr i a ch _ _ _ _. by apply op_waits_same.
  - intros ch x p Hx Hp. destruct (proj2 Hc ch x Hx) as (x' & Hx' & _ & _ & _ & Hq & _). exists x'. by rewrite Hq.
  - intros u z ch i _ _ _ Hco. pose proof Hco as (x & Hx & _). destruct (proj2 Hc ch x Hx) as (x' & Hx' & _ & _ & _ & Hq & Hcl).
    by apply (close_keep c.(world) _ ch i x x').
Qed.

(** The channel [ch] becomes [o]: it is freed, or only its marks change. *)
Definition marked (x : Channel) (o : option Channel) : Prop :=
  match o with
  | Some x' => chan_ok x' /\ x'.(ch_s) = x.(ch_s) /\ x'.(ch_e) = x.(ch_e) /\ x'.(ch_n) = x.(ch_n) /\ x'.(qentry) = x.(qentry)
  | None => forall p, ~ queued x.(qentry) p
  end.

Lemma keep_mark c t v ch x o :
  Inv c -> free_thread c t -> c.(world).(chans) !! ch = Some x -> marked x o ->
  (forall ch' i, c.(pcs) !! t = Some (CloseNext ch' i) -> ch' = ch) ->
  (forall x', o = Some x' ->
     (x'.(closed) = 1 -> x.(closed) = 1 /\ forall i, c.(pcs) !! t <> Some (CloseNext ch i)) /\
     (x'.(closed) = 2 -> forall p, queued x.(qentry) p -> ~ unc c.(world) p)) ->
  (forall u y fr i a, c.(pcs) !! u = Some y -> waiting y -> c.(world).(frames) !! u = Some fr -> entry fr.(alts) i a ch ->
     queued x.(qentry) (u, i) \/ exists x', o = Some x' /\ x'.(closed) <> 0 /\ x'.(freed) = false) ->
  (forall u z i, u <> t -> c.(pcs) !! u = Some z -> closer z ch i -> x.(closed) = 1 -> exists x', o = Some x' /\ x'.(closed) = 1) ->
  Inv (MkConf (MkWorld (partial_alter (fun _ => o) ch c.(world).(chans)) c.(world).(frames) c.(world).(blocks) c.(world).(log))
    (<[t := Run v []]> c.(pcs))).
Proof.
  intros HI Ht Hx Hm Hnext Hcl Hwait Hcr. pose proof (i_chan c HI ch x Hx) as HC.
  assert (L : partial_alter (fun _ => o) ch c.(world).(chans) !! ch = o) by apply lookup_partial_alter_eq.
  assert (L' : forall k, k <> ch -> partial_alter (fun _ => o) ch c.(world).(chans) !! k = c.(world).(chans) !! k)
    by (intros k Hk; apply lookup_partial_alter_ne; done).
  apply keep_quiet; [done|done|apply same_lens_refl|..].
  - intros k x' Hk. destruct (decide (k = ch)) as [->|Hne].
    + rewrite L in Hk. subst o. destruct Hm as (Hok & Hs & He & Hn & Hq). destruct (Hcl x' eq_refl) as [H1 H2].
      apply (chan_keep c.(world) c.(pcs) _ _ ch x); try done.
      * rewrite Hn. apply (ci_recv _ _ _ _ HC).
      * rewrite Hn, Hs. apply (ci_send _ _ _ _ HC).
      * intros p _. by apply keeps_quiet.
      * intros Hc. destruct (H1 Hc) as [Hc' Hn']. by apply (closing_stays c t _ ch x).
    + rewrite L' in Hk by done. pose proof (i_chan c HI k x' Hk) as HC'.
      apply (other_chan c t _ _ _ _ _ k x'); try done; try apply HC'.
      intros i Hp. by destruct Hne; apply (Hnext k i).
  - intros u y fr i a k Hy Hw Hf He (z & Hz & Hb & Hqz). unfold op_waits. simpl.
    destruct (decide (k = ch)) as [->|Hne]; [|rewrite L' by done; by exists z].
    rewrite Hx in Hz. injection Hz as <-. rewrite L.
    destruct (Hwait u y fr i a Hy Hw Hf He) as [Hqu|(x' & -> & Hc & Hfr)].
    + destruct o as [x'|]; [|by destruct (Hm (u, i))]. destruct Hm as (_ & _ & He' & _ & Hq).
      exists x'. rewrite Hq. split_and!; [done|by eapply block_ok_keep; [apply same_lens_refl|..]|by left].
    + destruct Hm as (_ & _ & He' & _ & Hq). exists x'.
      split_and!; [done|by eapply block_ok_keep; [apply same_lens_refl|..]|by right].
  - intros k y p Hk Hp. destruct (decide (k = ch)) as [->|Hne]; [|rewrite L' by done; by exists y].
    rewrite Hx in Hk. injection Hk as <-. rewrite L. destruct o as [x'|]; [|by destruct (Hm p)].
    exists x'. by rewrite (proj2 (proj2 (proj2 (proj2 Hm)))).
  - intros u z k i Hne Hu Hz Hco. destruct (decide (k = ch)) as [->|Hne'].
    + pose proof Hco as (y & Hy & Hc1 & _). rewrite Hx in Hy. injection Hy as <-.
      destruct (Hcr u z i Hne Hu Hz Hc1) as (x' & -> & Hc'). destruct Hm as (_ & _ & _ & _ & Hq).
      apply (close_keep c.(world) _ ch i x x'); try done. congruence.
    + pose proof Hco as (y & Hy & _). apply (close_keep c.(world) _ k i y y); try done. simpl. by rewrite L'.
Qed.

Lemma chan_ok_mark x x' : chan_ok x -> same_q (set_freed x'.(freed) (set_closed x'.(closed) x)) x' ->
  x'.(ch_f) = x.(ch_f) -> x'.(ch_n) = x.(ch_n) -> x'.(ch_v) = x.(ch_v) ->
  (x'.(closed) = 0 \/ x'.(closed) = 1 \/ x'.(closed) = 2) ->
  (x'.(freed) = true -> x'.(closed) = 1 \/ exists p, queued x'.(qentry) p) -> chan_ok x'.
Proof.
  intros [] (Hs & He & _ & Hq & _) Hf Hn Hv Hc Hfr. simpl in *. constructor; rewrite ?Hs, ?He, ?Hf, ?Hn, ?Hv, ?Hq; try done.
  intros H. rewrite <- Hq. auto.
Qed.

Lemma keep_closed c t ch x i v o :
  Inv c -> may_close c t ch x i -> (forall k p, (i <= k)%nat -> qat x.(qentry) k = Some p -> ~ unc c.(world) p) ->
  ((o = Some (set_closed 2 x) /\ (x.(freed) = true -> exists p, queued x.(qentry) p)) \/
   (o = None /\ x.(freed) = true /\ forall p, ~ queued x.(qentry) p)) ->
  Inv (MkConf (MkWorld (partial_alter (fun _ => o) ch c.(world).(chans)) c.(world).(frames) c.(world).(blocks) c.(world).(log))
    (<[t := Run v []]> c.(pcs))).
Proof.
  intros HI [Hx Hmay] Hun Ho. pose proof (i_chan c HI ch x Hx) as HC.
  assert (Hall : forall p, queued x.(qentry) p -> ~ unc c.(world) p).
  { intros p [k Hk]. destruct Hmay as [(_ & _ & ->)|Hp]; [by apply (Hun k); [lia|]|].
    destruct (decide (i <= k)%nat) as [Hik|Hik]; [by apply (Hun k)|].
    destruct (i_thread c HI t _ Hp) as [_ (y & Hy & _ & Hseen)]. rewrite Hx in Hy. injection Hy as <-. apply (Hseen k); [lia|done]. }
  apply (keep_mark c t v ch x o); try done.
  - destruct Hmay as [(Hi & _)|Hp]; [by left|right; eauto].
  - destruct Ho as [[-> Hf]|(-> & _ & Hn)]; [|done]. simpl. split_and!; try done.
    apply (chan_ok_mark x); [apply HC|by split_and!|done..|simpl; auto|simpl; auto].
  - intros ch' i' Hp. destruct Hmay as [(Hi & _)|Hp']; [by destruct (idle_not_closing c t ch' i' Hi)|congruence].
  - intros x' ->. destruct Ho as [[[= ->] _]|[[=] _]]. split; done.
  - intros u y fr j a Hy Hw Hf He. destruct (waits_at c HI u y fr j a ch x Hy Hw Hf He Hx) as (_ & [Hq|[_ Hq]]); [by left|].
    destruct Ho as [[-> Hfr]|(-> & Hfr & Hn)]; [|congruence]. right. by exists (set_closed 2 x).
  - intros u z j Hne Hu Hz H1. exfalso. destruct Hmay as [(_ & H0 & _)|Hp]; [congruence|].
    apply Hne. apply (i_one_closer c HI u t z (CloseNext ch i) ch j i); try done. by left.
Qed.

Lemma keep_free c t ch x v o :
  Inv c -> idle c t -> c.(world).(chans) !! ch = Some x ->
  (forall u y fr i a, c.(pcs) !! u = Some y -> waiting y -> c.(world).(frames) !! u = Some fr ->
     entry fr.(alts) i a ch -> queued x.(qentry) (u, i)) ->
  ((o = Some (set_freed true x) /\ (x.(closed) = 1 \/ exists p, queued x.(qentry) p)) \/
   (o = None /\ x.(closed) <> 1 /\ forall p, ~ queued x.(qentry) p)) ->
  Inv (MkConf (MkWorld (partial_alter (fun _ => o) ch c.(world).(chans)) c.(world).(frames) c.(world).(blocks) c.(world).(log))
    (<[t := Run v []]> c.(pcs))).
Proof.
  intros HI Hi Hx Hall Ho. pose proof (i_chan c HI ch x Hx) as HC.
  apply (keep_mark c t v ch x o); try done; [by left| |..].
  - destruct Ho as [[-> Hf]|(-> & _ & Hn)]; [|done]. simpl. split_and!; try done.
    apply (chan_ok_mark x); [apply HC|by split_and!|done..|apply HC|done].
  - intros ch' i Hp. by destruct (idle_not_closing c t ch' i Hi).
  - intros x' ->. destruct Ho as [[[= ->] _]|[[=] _]]. simpl.
    split; [|intros H2 p; by apply (ci_closed _ _ _ _ HC)].
    intros H1. split; [done|]. intros i. by apply idle_not_closing.
  - intros u y fr i a Hy Hw Hf He. left. by apply (Hall u y fr i a).
  - intros u z i _ _ _ H1. destruct Ho as [[-> _]|(_ & Hn & _)]; [by exists (set_freed true x)|done].
Qed.

Lemma keep_make c t ch x' v l' :
  Inv c -> idle c t -> chan_ok x' -> (forall p, ~ queued x'.(qentry) p) -> x'.(closed) = 0 ->
  (forall x, c.(world).(chans) !! ch = Some x -> x.(closed) <> 1) ->
  (forall u y fr i a, c.(pcs) !! u = Some y -> waiting y -> c.(world).(frames) !! u = Some fr -> ~ entry fr.(alts) i a ch) ->
  Inv (MkConf (MkWorld (<[ch := x']> c.(world).(chans)) c.(world).(frames) c.(world).(blocks) l') (<[t := Run v []]> c.(pcs))).
Proof.
  intros HI Hi Hok Hnq Hc0 Hn1 Hno.
  assert (Hnb : forall w op, ~ blocked w x'.(qentry) op) by (intros w op (p & Hp & _); by apply (Hnq p)).
  apply keep_quiet; [done|by left|apply same_lens_refl|..].
  - intros k z Hk. apply lookup_insert_Some in Hk as [[<- <-]|[Hne Hk]].
    + constructor; simpl; try done; try (rewrite Hc0; done); try (intros H; by destruct (Hnb _ _ H)).
      * intros p Hp. by destruct (Hnq p).
      * intros [H _]. by destruct (Hnb _ _ H).
    + apply (other_chan c t _ _ _ _ _ k z); try done; try apply (i_chan c HI k z Hk); [by left|].
      intros i. by apply idle_not_closing.
  - intros u y fr i a k Hy Hw Hf He (z & Hz & Hb & Hq). exists z. simpl. rewrite lookup_insert_ne; [done|].
    intros <-. by apply (Hno u y fr i a).
  - intros k y p Hk Hp. destruct (decide (k = ch)) as [->|Hne]; [|rewrite lookup_insert_ne by done; by exists y].
    destruct (queued_waits c HI ch y p Hk Hp) as (z & fr & a & Hz & Hw & Hf & He & _). by destruct (Hno p.1 z fr p.2 a).
  - intros u z k i Hne Hu Hz Hco. pose proof Hco as (y & Hy & H1 & _).
    apply (close_keep c.(world) _ k i y y); try done. simpl. rewrite lookup_insert_ne; [done|]. intros <-. by destruct (Hn1 y Hy).
Qed.

(** * Committing a thread that waits *)

Section Commit.
Context (c : conf) (HI : Inv c) (t u : Z) (y' : pc) (fru : Frame) (ch : Z) (x : Channel) (j : nat).
Context (Ht : free_thread c t) (Hu : c.(world).(frames) !! u = Some fru) (Htag : fru.(tagc) = Tnil).
Context (Hx : c.(world).(chans) !! ch = Some x) (Hq : queued x.(qentry) (u, j)).
Context (Hy' : target y' = Some u).
Context (F : gmap Z Frame) (HF : forall v, v <> t -> F !! v = c.(world).(frames) !! v).
Context (m' : gmap Z Channel) (b' : gmap Z (list Z)) (l' : list note).
Let w' := MkWorld m' (<[u := MkFrame fru.(alts) (Tchan ch)]> F) b' l'.
Let ps' := <[t := y']> c.(pcs).

Lemma commit_ne : t <> u.
Proof. intros <-. rewrite (free_noframe c t HI Ht) in Hu. done. Qed.

Lemma commit_asleep : exists y, c.(pcs) !! u = Some y /\ asleep y.
Proof.
  destruct (queued_waits c HI ch x (u, j) Hx Hq) as (y & fr & a & Hy & Hw & Hf & _). exists y. split; [done|].
  destruct (waits_frame c HI u y Hy Hw) as (k & _ & fr' & (Hf' & _) & _ & _ & Htg).
  simpl in *. rewrite Hu in Hf'. injection Hf' as <-. destruct Htg as [[_ H]|(ch' & ? & ? & H & _)]; [done|congruence].
Qed.

Lemma commit_target : target_ok w' ps' u ch.
Proof.
  destruct commit_asleep as (y & Hy & Ha). exists y, (MkFrame fru.(alts) (Tchan ch)). split_and!; [|done|apply lookup_insert_eq|done].
  unfold ps'. rewrite lookup_insert_ne; [done|apply commit_ne].
Qed.

Lemma commit_keeps v : v <> t -> keeps c.(world) c.(pcs) w' ps' v.
Proof.
  intros Hv. split.
  - intros y Hy Hw. exists y. split; [|done]. unfold ps'. by rewrite lookup_insert_ne.
  - intros fr Hf. simpl. destruct (decide (v = u)) as [->|Hne].
    + rewrite lookup_insert_eq. rewrite Hu in Hf. injection Hf as <-. by eexists.
    + rewrite lookup_insert_ne, HF by done. eauto.
Qed.

Lemma queued_not_free k z p : c.(world).(chans) !! k = Some z -> queued z.(qentry) p -> p.1 <> t.
Proof.
  intros Hz Hp Heq. destruct (queued_waits c HI k z p Hz Hp) as (y & _ & _ & Hy & Hw & _). rewrite Heq in Hy.
  destruct (free_pc c t y Ht Hy) as [Hn _]. by apply Hn, waiting_inalt.
Qed.

Lemma keep_commit :
  thread_inv w' ps' t y' -> one_closer ps' -> same_lens c.(world).(blocks) b' ->
  (forall k z', m' !! k = Some z' -> exists z, c.(world).(chans) !! k = Some z /\ z'.(qentry) = z.(qentry) /\ chan_ok z' /\
     (blocked c.(world) z.(qentry) CHANRCV -> z'.(ch_n) = 0) /\ (blocked c.(world) z.(qentry) CHANSND -> z'.(ch_n) = z'.(ch_s)) /\
     (z'.(closed) = 1 -> exists v z i, ps' !! v = Some z /\ closer z k i) /\ (z'.(closed) = 2 -> z.(closed) = 2)) ->
  (forall k z, c.(world).(chans) !! k = Some z -> exists z', m' !! k = Some z' /\ z'.(ch_e) = z.(ch_e) /\
     z'.(qentry) = z.(qentry) /\ z'.(freed) = z.(freed) /\ (z.(closed) <> 0 -> z'.(closed) = z.(closed))) ->
  Inv (MkConf w' ps').
Proof.
  intros Hth Hoc Hb Hch Hch2. pose proof commit_ne as Htu.
  assert (Hun : forall k z p, c.(world).(chans) !! k = Some z -> queued z.(qentry) p -> unc w' p -> unc c.(world) p).
  { intros k z p Hz Hp. destruct (queued_waits c HI k z p Hz Hp) as (y & fr & a & Hy & Hw & Hf & _).
    apply (unc_keep c.(world) c.(pcs) w' ps'); [by exists fr|]. apply commit_keeps. by apply (queued_not_free k z). }
  assert (Hclo : forall k i, close_ok c.(world) k i -> close_ok w' k i).
  { intros k i (z & Hz & H1 & Hs). destruct (Hch2 k z Hz) as (z' & Hz' & _ & Hq' & _ & Hc'). exists z'. simpl.
    rewrite Hc' by congruence. split_and!; [done..|]. intros n p Hn Hqn Hup. rewrite Hq' in Hqn.
    apply (Hs n p Hn Hqn), (Hun k z p Hz); [by exists n|done]. }
  assert (Hops : forall v i a k, op_waits c.(world) v i a k -> op_waits w' v i a k).
  { intros v i a k (z & Hz & Hbk & Hd). destruct (Hch2 k z Hz) as (z' & Hz' & He' & Hq' & Hf' & Hc'). exists z'. simpl.
    split_and!; [done|by eapply block_ok_keep|]. rewrite Hq', Hf'. destruct Hd as [Hd|[Hc0 Hf0]]; [by left|right].
    by rewrite Hc'. }
  constructor; simpl.
  - intros k z' Hz'. destruct (Hch k z' Hz') as (z & Hz & Hq' & Hok & Hr & Hs & H1 & H2).
    pose proof (i_chan c HI k z Hz) as HC. apply (chan_keep c.(world) c.(pcs) _ _ k z); try done.
    + intros p Hp. apply commit_keeps. by apply (queued_not_free k z).
    + intros Hc2 p Hp Hup. apply (ci_closed _ _ _ _ HC p (H2 Hc2) Hp). by apply (Hun k z).
  - intros v y Hv. unfold ps' in Hv. apply lookup_insert_Some in Hv as [[<- <-]|[Hne Hv]]; [done|].
    pose proof (i_thread c HI v y Hv) as Hthv. destruct (decide (v = u)) as [->|Hvu].
    + destruct commit_asleep as (y2 & Hy2 & Ha). rewrite Hv in Hy2. injection Hy2 as <-.
      destruct (waits_frame c HI u y Hv (asleep_waiting y Ha)) as (k & Hk & fr & (Hf & Hd & He & Hko) & Hn & Hop & _).
      rewrite Hu in Hf. injection Hf as <-.
      assert (HW : wait_ok w' ps' u y k).
      { exists (MkFrame fru.(alts) (Tchan ch)). split_and!; simpl.
        - split_and!; [apply lookup_insert_eq|done|done|by eapply kont_ok_keep].
        - done.
        - intros i a k2 Hen. by apply Hops, Hop.
        - right. destruct (Hch2 ch x Hx) as (x' & Hx' & _ & Hq' & _). exists ch, x', j. split_and!; [done|done|by rewrite Hq'|].
          intros _. exists t, y'. split; [unfold ps'; apply lookup_insert_eq|done]. }
      destruct y as [| |k2 []| | |]; simpl in *; try done; by injection Hk as ->.
    + apply (thread_keep c.(world) c.(pcs) w' ps' v y Hv Hthv); [|done|..].
      * split_and!; simpl; [by rewrite lookup_insert_ne, HF|by intros; apply Hops|].
        intros k z i Hz Hqz. destruct (Hch2 k z Hz) as (z' & Hz' & _ & Hq' & _). exists z'. by rewrite Hq'.
      * intros s z Hs Hzt. exists s, z. split; [|done]. unfold ps'. rewrite lookup_insert_ne; [done|]. intros <-.
        destruct (free_pc c t z Ht Hs) as [_ Hn]. congruence.
      * intros s k Hst (z & fr & Hz & Ha & Hf & Hc). assert (s <> u) as Hsu.
        { intros ->. by destruct (no_target c HI v y u fru Hu Htag Hv). }
        assert (s <> t) as Hst'. { intros ->. destruct (free_pc c t z Ht Hz) as [Hn _]. by apply Hn, waiting_inalt, asleep_waiting. }
        exists z, fr. split_and!; try done; simpl; [unfold ps'; by rewrite lookup_insert_ne|].
        by rewrite lookup_insert_ne, HF.
      * intros k i _. apply Hclo.
  - intros v Hv. unfold ps' in Hv. apply lookup_insert_None in Hv as [Hv Hne].
    destruct (decide (v = u)) as [->|Hvu]; [destruct commit_asleep as (y & Hy & _); congruence|].
    rewrite lookup_insert_ne, HF by done. by apply (i_noframe c HI).
  - apply (one_target_insert c.(pcs)); [exact (i_one c HI)|]. intros v s z Hv Hs Hne. rewrite Hy' in Hv. injection Hv as <-.
    by apply (no_target c HI s z u fru).
  - exact Hoc.
Qed.
End Commit.

Lemma keep_serve c t k ch x x' i a frt u j fru b' l' nb :
  Inv c -> idle c t -> c.(world).(chans) !! ch = Some x ->
  entry frt.(alts) i a ch -> distinct frt.(alts) -> ended nb frt.(alts) = true -> kont_ok b' k nb frt.(alts) ->
  queued x.(qentry) (u, j) -> c.(world).(frames) !! u = Some fru -> fru.(tagc) = Tnil ->
  same_q x x' -> chan_ok x' -> x'.(ch_n) = x.(ch_n) -> same_lens c.(world).(blocks) b' ->
  Inv (MkConf (MkWorld (<[ch := x']> c.(world).(chans))
        (<[u := MkFrame fru.(alts) (Tchan ch)]> (<[t := frt]> c.(world).(frames))) b' l')
      (<[t := Serving k u i]> c.(pcs))).
Proof.
  intros HI Hi Hx He Hd Hend Hko Hq Hu Htag (Hs1 & Hs2 & Hs3 & Hs4 & Hs5) Hok Hn Hb. pose proof (i_chan c HI ch x Hx) as HC.
  assert (HF : forall v, v <> t -> <[t := frt]> c.(world).(frames) !! v = c.(world).(frames) !! v)
    by (intros v Hv; by rewrite lookup_insert_ne).
  assert (Htu : t <> u). { intros <-. rewrite (idle_noframe c HI t Hi) in Hu. done. }
  assert (Hcl : forall k2 z, c.(world).(chans) !! k2 = Some z -> z.(closed) = 1 ->
    exists v z i2, <[t := Serving k u i]> c.(pcs) !! v = Some z /\ closer z k2 i2).
  { intros k2 z Hz H1. apply (closing_stays c t _ k2 z HI); [by left|done|by apply idle_not_closing|intros ?; by apply idle_not_closing|done]. }
  apply (keep_commit c HI t u (Serving k u i) fru ch x j); try done; [by left|..].
  - simpl. exists frt, nb, a, ch. split_and!; try done.
    + split_and!; [simpl; by rewrite lookup_insert_ne, lookup_insert_eq|done..].
    + apply (commit_target c HI t u _ fru ch x j); try done. by left.
  - apply (one_closer_insert c.(pcs)); [exact (i_one_closer c HI)|]. intros k2 i2 v z j2 Hcr.
    by destruct (closer_kind _ _ _ Hcr) as [Hn2 _].
  - intros k2 z' Hz'. apply lookup_insert_Some in Hz' as [[<- <-]|[Hne Hz']].
    + exists x. rewrite Hs4, Hs5, Hn, Hs1. split_and!; try done; try apply HC. by apply Hcl.
    + pose proof (i_chan c HI k2 z' Hz') as HC'. exists z'. split_and!; try done; try apply HC'. by apply Hcl.
  - intros k2 z Hz. destruct (decide (k2 = ch)) as [->|Hne].
    + rewrite lookup_insert_eq. rewrite Hx in Hz. injection Hz as <-. by exists x'.
    + rewrite lookup_insert_ne by done. by exists z.
Qed.

Lemma keep_close c t ch x i u j jj fru :
  Inv c -> may_close c t ch x i -> (i <= j)%nat -> qat x.(qentry) j = Some (u, jj) -> c.(world).(frames) !! u = Some fru ->
  fru.(tagc) = Tnil -> (forall k p, (i <= k < j)%nat -> qat x.(qentry) k = Some p -> ~ unc c.(world) p) ->
  Inv (MkConf (MkWorld (<[ch := set_closed 1 x]> c.(world).(chans)) (<[u := MkFrame fru.(alts) (Tchan ch)]> c.(world).(frames))
        c.(world).(blocks) c.(world).(log))
      (<[t := Closing ch u j]> c.(pcs))).
Proof.
  intros HI [Hx Hmay] Hij Hqj Hu Htag Hseen. pose proof (i_chan c HI ch x Hx) as HC.
  assert (Ht : free_thread c t) by (destruct Hmay as [(Hi & _)|Hp]; [by left|right; eauto]).
  assert (Htu : t <> u). { intros <-. rewrite (free_noframe c t HI Ht) in Hu. done. }
  assert (Hqu : queued x.(qentry) (u, jj)) by (by exists j).
  assert (Hown : forall v z n, v <> t -> c.(pcs) !! v = Some z -> ~ closer z ch n).
  { intros v z n Hv Hz Hc. destruct Hmay as [(_ & H0 & _)|Hp].
    - assert (Hco : close_ok c.(world) ch n).
      { pose proof (i_thread c HI v z Hz) as Hth. destruct Hc as [-> |(u2 & j2 & -> & ->)]; apply Hth. }
      destruct Hco as (y & Hy & H1 & _). rewrite Hx in Hy. injection Hy as <-. congruence.
    - apply Hv. apply (i_one_closer c HI v t z (CloseNext ch i) ch n i); try done. by left. }
  assert (Hc2 : x.(closed) <> 2).
  { destruct Hmay as [(_ & H0 & _)|Hp]; [congruence|]. destruct (i_thread c HI t _ Hp) as [_ (y & Hy & H1 & _)].
    rewrite Hx in Hy. injection Hy as <-. congruence. }
  assert (Hall : forall k p, (k < j)%nat -> qat x.(qentry) k = Some p -> ~ unc c.(world) p).
  { intros k p Hk Hp. destruct (decide (i <= k)%nat) as [Hik|Hik]; [by apply (Hseen k); [lia|]|].
    destruct Hmay as [(_ & _ & ->)|Hpc]; [lia|]. destruct (i_thread c HI t _ Hpc) as [_ (y & Hy & _ & Hs)].
    rewrite Hx in Hy. injection Hy as <-. apply (Hs k); [lia|done]. }
  apply (keep_commit c HI t u (Closing ch u j) fru ch x jj); try done.
  - simpl. split_and!.
    + simpl. rewrite lookup_insert_ne by done. by apply free_noframe.
    + by apply (commit_target c HI t u _ fru ch x jj).
    + exists (set_closed 1 x). simpl. rewrite lookup_insert_eq. split_and!; [done..|]. intros k p Hk Hp (fr & Hf & Hn).
      destruct (decide (k = j)) as [->|Hkj].
      * simpl in Hf. rewrite Hqj in Hp. injection Hp as <-. simpl in Hf. rewrite lookup_insert_eq in Hf. by injection Hf as <-.
      * apply (Hall k p); [lia|done|]. simpl in Hf. destruct (decide (p.1 = u)) as [Hpu|Hpu].
        -- rewrite Hpu, lookup_insert_eq in Hf. by injection Hf as <-.
        -- rewrite lookup_insert_ne in Hf by done. by exists fr.
  - apply (one_closer_insert c.(pcs)); [exact (i_one_closer c HI)|].
    intros k n v z m [[=]|(u2 & j2 & [= <- <- <-] & _)] Hz Hv. by apply (Hown v).
  - apply same_lens_refl.
  - intros k z' Hz'. apply lookup_insert_Some in Hz' as [[<- <-]|[Hne Hz']].
    + exists x. split_and!; try done; try apply HC.
      * apply (chan_ok_mark x); [apply HC|by split_and!|done..|simpl; auto|simpl; auto].
      * intros _. exists t, (Closing ch u j), (S j). split; [apply lookup_insert_eq|right; eauto].
    + pose proof (i_chan c HI k z' Hz') as HC'. exists z'. split_and!; try done; try apply HC'.
      intros H1. apply (closing_stays c t _ k z' HI Ht Hz'); [|intros n|done];
        (destruct Hmay as [(Hi & _)|Hp]; [by apply idle_not_closing|rewrite Hp; congruence]).
  - intros k z Hz. destruct (decide (k = ch)) as [->|Hne].
    + rewrite lookup_insert_eq. rewrite Hx in Hz. injection Hz as <-. exists (set_closed 1 x). split_and!; try done.
      intros H. simpl. destruct (ck_closed x (ci_ok _ _ _ _ HC)) as [|[]]; done.
    + rewrite lookup_insert_ne by done. by exists z.
Qed.

(** * Rendezvous *)

Lemma keep_asleep c t y y' k :
  Inv c -> c.(pcs) !! t = Some y -> asleep y -> asleep y' -> kont_of y = Some k -> kont_of y' = Some k ->
  Inv (MkConf c.(world) (<[t := y']> c.(pcs))).
Proof.
  intros HI Ht Ha Ha' Hk Hk'. set (ps' := <[t := y']> c.(pcs)).
  assert (Hps : forall v z, v <> t -> c.(pcs) !! v = Some z -> ps' !! v = Some z) by (intros; unfold ps'; by rewrite lookup_insert_ne).
  assert (Hpt : ps' !! t = Some y') by apply lookup_insert_eq.
  assert (Hnt : target y = None /\ forall ch i, ~ closer y ch i) 
    by (split; [by destruct y as [| |? []| | |]|intros ch i Hc; destruct (closer_kind _ _ _ Hc) as [Hn _]; by apply Hn, waiting_inalt, asleep_waiting]).
  assert (Hkeep : forall v, keeps c.(world) c.(pcs) c.(world) ps' v).
  { intros v. split; [|by eauto]. intros z Hz Hw. destruct (decide (v = t)) as [->|Hne]; [|by eauto].
    exists y'. split; [done|by apply asleep_waiting]. }
  assert (Hv : forall s v z, c.(pcs) !! v = Some z -> target z = Some s -> exists v' z', ps' !! v' = Some z' /\ target z' = Some s).
  { intros s v z Hz Hzt. exists v, z. split; [|done]. apply Hps; [|done]. intros ->. rewrite Ht in Hz. injection Hz as <-. destruct Hnt as [Hnt _]. congruence. }
  constructor; simpl.
  - intros ch x Hx. pose proof (i_chan c HI ch x Hx) as HC. apply (chan_keep c.(world) c.(pcs) _ _ ch x); try done; [apply HC|apply HC|apply HC|..].
    + intros H1. destruct (ci_closing _ _ _ _ HC H1) as (v & z & i & Hz & Hc). exists v, z, i. split; [|done].
      apply Hps; [|done]. intros ->. rewrite Ht in Hz. injection Hz as <-. destruct Hnt as [_ Hn]. by destruct (Hn ch i).
    + intros H2 p. by apply (ci_closed _ _ _ _ HC).
  - intros v z Hz. apply lookup_insert_Some in Hz as [[<- <-]|[Hne Hz]].
    + destruct (waits_frame c HI t y Ht (asleep_waiting y Ha)) as (k' & Hk2 & fr & Hf & Hn & Hop & Htg).
      assert (k' = k) as -> by congruence.
      assert (HW : wait_ok c.(world) ps' t y' k).
      { exists fr. split_and!; try done. destruct Htg as [[Htn _]|(ch & x & i & H1 & H2 & H3 & H4)]; [by left|right].
        exists ch, x, i. split_and!; try done. intros _. destruct (H4 Ha) as (u & z & Hz & Hzt). by apply (Hv t u z). }
      destruct y' as [| |? []| | |]; simpl in *; try done; by injection Hk' as ->.
    + apply (thread_keep c.(world) c.(pcs) _ _ v z Hz (i_thread c HI v z Hz)); try done.
      * split_and!; try done. eauto.
      * apply same_lens_refl.
      * intros s z2. apply Hv.
      * intros s ch _ (z2 & fr & Hs & Has & Hf & Hc). destruct (decide (s = t)) as [->|Hst].
        -- exists y', fr. split_and!; try done.
        -- exists z2, fr. split_and!; try done. by apply Hps.
  - intros v Hvn. apply lookup_insert_None in Hvn as [Hvn _]. by apply (i_noframe c HI).
  - apply (one_target_insert c.(pcs)); [exact (i_one c HI)|]. intros v ? ? Hvt. destruct y' as [| |? []| | |]; done.
  - apply (one_closer_insert c.(pcs)); [exact (i_one_closer c HI)|]. intros ch i ? ? ? Hc.
    destruct (closer_kind _ _ _ Hc) as [Hn _]. by destruct Hn; apply waiting_inalt, asleep_waiting.
Qed.

Lemma target_not_waiting z s : target z = Some s -> ~ waiting z.
Proof. destruct z; simpl; try discriminate; intros _ []. Qed.

Section Meet.
Context (c : conf) (HI : Inv c) (t u : Z) (y y' : pc) (ku : kont) (r : rv).
Context (Ht : c.(pcs) !! t = Some y) (Hy : target y = Some u) (Hu : c.(pcs) !! u = Some (InAlt ku)).
Context (Hr : r <> Intred) (Hy' : target y' = None).
Context (F : gmap Z Frame) (HF : forall v, v <> t -> F !! v = c.(world).(frames) !! v) (l' : list note).
Let w' := MkWorld c.(world).(chans) F c.(world).(blocks) l'.
Let ps' := <[t := y']> (<[u := Woken ku r]> c.(pcs)).

Lemma meet_ne : t <> u.
Proof. intros <-. rewrite Ht in Hu. injection Hu as ->. done. Qed.

Lemma meet_other v z : v <> t -> v <> u -> c.(pcs) !! v = Some z -> ps' !! v = Some z.
Proof. intros H1 H2 H3. unfold ps'. by rewrite !lookup_insert_ne. Qed.

Lemma meet_u : ps' !! u = Some (Woken ku r).
Proof. unfold ps'. rewrite lookup_insert_ne, lookup_insert_eq; [done|apply meet_ne]. Qed.


Lemma keep_meet :
  thread_inv w' ps' t y' -> (forall ch x i, c.(world).(chans) !! ch = Some x -> closer y ch i -> exists i', closer y' ch i') ->
  (forall ch i, closer y' ch i -> exists i', closer y ch i') -> Inv (MkConf w' ps').
Proof.
  intros Hth Hcl Hcl'. pose proof meet_ne as Htu. pose proof (target_not_waiting y u Hy) as Hnw.
  assert (Hkeep : forall v, v <> t -> keeps c.(world) c.(pcs) w' ps' v).
  { intros v Hvt. split.
    - intros z Hz Hw. destruct (decide (v = u)) as [->|Hvu]; [exists (Woken ku r); split; [apply meet_u|done]|].
      exists z. split; [by apply meet_other|done].
    - intros fr Hf. exists fr. simpl. by rewrite HF. }
  assert (Hq : forall ch x p, c.(world).(chans) !! ch = Some x -> queued x.(qentry) p -> p.1 <> t).
  { intros ch x p Hx Hp Heq. destruct (queued_waits c HI ch x p Hx Hp) as (z & _ & _ & Hz & Hw & _). rewrite Heq, Ht in Hz. by injection Hz as <-. }
  assert (Hun : forall ch x p, c.(world).(chans) !! ch = Some x -> queued x.(qentry) p -> unc w' p -> unc c.(world) p).
  { intros ch x p Hx Hp. by rewrite (unc_ext c.(world) w') by (simpl; by apply HF, (Hq ch x)). }
  constructor; simpl.
  - intros ch x Hx. pose proof (i_chan c HI ch x Hx) as HC. apply (chan_keep c.(world) c.(pcs) _ _ ch x); try done; try apply HC.
    + intros p Hp. by apply Hkeep, (Hq ch x).
    + intros H1. destruct (ci_closing _ _ _ _ HC H1) as (v & z & i & Hz & Hc).
      destruct (decide (v = t)) as [->|Hvt].
      * rewrite Ht in Hz. injection Hz as <-. destruct (Hcl ch x i Hx Hc) as [i' Hc']. exists t, y', i'. split; [apply lookup_insert_eq|done].
      * exists v, z, i. split; [|done]. apply meet_other; [done| |done]. intros ->. rewrite Hu in Hz. injection Hz as <-.
        by destruct (closer_kind _ _ _ Hc) as [[] _].
    + intros H2 p Hp Hup. apply (ci_closed _ _ _ _ HC p H2 Hp). by apply (Hun ch x).
  - intros v z Hz. unfold ps' in Hz. apply lookup_insert_Some in Hz as [[<- <-]|[Hne Hz]]; [done|].
    assert (Hv : forall s v z, s <> u -> c.(pcs) !! v = Some z -> target z = Some s -> exists v' z', ps' !! v' = Some z' /\ target z' = Some s).
    { intros s v0 z0 Hsu Hz0 Hzt. exists v0, z0. split; [|done]. apply meet_other; [intros ->|intros ->|done].
      - rewrite Ht in Hz0. injection Hz0 as <-. congruence.
      - rewrite Hu in Hz0. by injection Hz0 as <-. }
    apply lookup_insert_Some in Hz as [[<- <-]|[Hvu Hz]].
    + destruct (waits_frame c HI u _ Hu I) as (k & [= <-] & fr & (Hf & Hd) & Hn & Hop & Htg). simpl.
      exists fr. split_and!; [split; [simpl; by rewrite HF|exact Hd]|done|done|].
      destruct Htg as [[Htn _]|(ch & x & i & H1 & H2 & H3 & H4)].
      * by destruct (no_target c HI t y u fr Hf Htn Ht).
      * right. exists ch, x, i. split_and!; try done. by destruct r.
    + apply (thread_keep c.(world) c.(pcs) _ _ v z Hz (i_thread c HI v z Hz)); try done.
      * split_and!; simpl; [by apply HF|done|eauto].
      * apply same_lens_refl.
      * intros s z2. by apply Hv.
      * intros s ch Hst (z2 & fr & Hs & Has & Hf & Hc).
        assert (s <> u) as Hsu. { intros ->. apply Hne. by apply (i_one c HI t v y z u). }
        assert (s <> t) as Hst'. { intros ->. rewrite Ht in Hs. injection Hs as <-. by apply Hnw, asleep_waiting. }
        exists z2, fr. split_and!; try done; [by apply meet_other|simpl; by rewrite HF].
      * intros ch i _ (x & Hx & H1 & Hs). exists x. split_and!; try done. intros j p Hj Hp Hup. apply (Hs j p Hj Hp), (Hun ch x p Hx); [by exists j|done].
  - intros v Hv. unfold ps' in Hv. apply lookup_insert_None in Hv as [Hv Hne]. apply lookup_insert_None in Hv as [Hv _].
    rewrite HF by done. by apply (i_noframe c HI).
  - apply (one_target_insert (<[u := Woken ku r]> c.(pcs))); [|by rewrite Hy'].
    apply (one_target_insert c.(pcs)); [exact (i_one c HI)|done].
  - apply one_closer_insert.
    + apply (one_closer_insert c.(pcs)); [exact (i_one_closer c HI)|]. intros ch i v z j Hc. by destruct (closer_kind _ _ _ Hc) as [[] _].
    + intros ch i v z j Hc Hz Hvt Hcz. apply lookup_insert_Some in Hz as [[<- <-]|[_ Hz]].
      * by destruct (closer_kind _ _ _ Hcz) as [[] _].
      * destruct (Hcl' ch i Hc) as [i' Hc']. apply Hvt. by apply (i_one_closer c HI v t z y ch j i').
Qed.
End Meet.

Lemma keep_meet_serve c t u k ku i fr v al l' :
  Inv c -> c.(pcs) !! t = Some (Serving k u i) -> c.(pcs) !! u = Some (InAlt ku) -> c.(world).(frames) !! t = Some fr ->
  Inv (MkConf (MkWorld c.(world).(chans) (delete t c.(world).(frames)) c.(world).(blocks) l')
    (<[t := Run v al]> (<[u := Woken ku Rzero]> c.(pcs)))).
Proof.
  intros HI Ht Hu Hf. apply (keep_meet c HI t u (Serving k u i) (Run v al) ku Rzero); try done.
  - intros s Hs. by rewrite lookup_delete_ne.
  - simpl. apply lookup_delete_eq.
  - intros ch x j _ Hc. by destruct (closer_kind _ _ _ Hc) as [[] _].
  - intros ch j Hc. destruct (closer_kind _ _ _ Hc) as [_ Hn]. by destruct (Hn v al).
Qed.

Lemma keep_meet_close c t u ch j ku :
  Inv c -> c.(pcs) !! t = Some (Closing ch u j) -> c.(pcs) !! u = Some (InAlt ku) ->
  Inv (MkConf c.(world) (<[t := CloseNext ch (S j)]> (<[u := Woken ku Closed]> c.(pcs)))).
Proof.
  intros HI Ht Hu. destruct (i_thread c HI t _ Ht) as (Hnf & _ & Hco).
  pose proof (keep_meet c HI t u (Closing ch u j) (CloseNext ch (S j)) ku Closed Ht eq_refl Hu ltac:(done) eq_refl
    c.(world).(frames) (fun _ _ => eq_refl) c.(world).(log)) as K.
  destruct c as [[cs fs bs lg] ps]. simpl in *. apply K.
  - by split.
  - intros k x i _ [[=]|(u2 & j2 & [= <- <- <-] & _)]. exists (S j). by left.
  - intros k i [[= <- <-]|(? & ? & [=] & _)]. exists (S j). right. eauto.
Qed.
