(* ===== verification/ChanWait.v ===== *)
(** Beginning to wait and waking up keep the invariant of channels; with
    [ChanKeep], every step does. *)

From S2P Require Import Prelude Fcall Eff Chan ChanInv ChanKeep.

Lemma entry_dec al ch : (exists i a, entry al i a ch) \/ (forall i a, ~ entry al i a ch).
Proof.
  induction al as [|b al IH].
  { right. intros i a (H & _). by rewrite lookup_nil in H. }
  destruct IH as [(i & a & He)|Hn].
  { left. by exists (S i), a. }
  destruct (decide ((b.(aop) = CHANSND \/ b.(aop) = CHANRCV) /\ b.(ac) = Some ch)) as [Hb|Hb].
  - left. exists O, b. by split.
  - right. intros [|i] a He; [|by apply (Hn i a)]. destruct He as ([= <-] & H1 & H2). by apply Hb.
Qed.

Lemma qadd_queued q q' p r : qadd q q' p -> queued q' r <-> r = p \/ queued q r.
Proof.
  intros (j & Hj & H). split.
  - intros [k Hk]. rewrite H in Hk. case_decide; [left; congruence|right; by exists k].
  - intros [->|[k Hk]]; [exists j; rewrite H; by rewrite decide_True|].
    exists k. rewrite H, decide_False; [done|]. intros ->. congruence.
Qed.

Lemma qadd_qfun q q' p : qadd q q' p -> qfun q -> ~ queued q p -> qfun q'.
Proof.
  intros (j & Hj & H) Hf Hn a b r Ha Hb. rewrite H in Ha, Hb.
  repeat case_decide; subst; try done; [| |by apply (Hf _ _ r)]; destruct Hn; eexists; naive_solver.
Qed.

Lemma qdel_queued q q' p r : qdel q q' p -> qfun q -> queued q' r <-> r <> p /\ queued q r.
Proof.
  intros (j & Hj & H) Hf. split.
  - intros [k Hk]. rewrite H in Hk. case_decide as Hkj; [done|]. split; [|by exists k].
    intros ->. apply Hkj. by apply (Hf _ _ p).
  - intros [Hne [k Hk]]. exists k. rewrite H, decide_False; [done|]. intros ->. congruence.
Qed.

Lemma qdel_qfun q q' p : qdel q q' p -> qfun q -> qfun q'.
Proof.
  intros (j & Hj & H) Hf a b r Ha Hb. rewrite H in Ha, Hb. repeat case_decide; try done. by apply (Hf _ _ r).
Qed.

Lemma qdel_sub q q' p j r : qdel q q' p -> qat q' j = Some r -> qat q j = Some r.
Proof. intros (k & _ & H) Hr. rewrite H in Hr. by case_decide. Qed.

Section Wait.
Context (c : conf) (HI : Inv c) (t : Z) (k : kont) (fr : Frame) (m' : gmap Z Channel) (b' : gmap Z (list Z)).
Context (Hi : idle c t) (Htag : fr.(tagc) = Tnil) (Hend : ended false fr.(alts) = true) (Hnam : named fr.(alts)).
Context (Hd : distinct fr.(alts)) (Hko : kont_ok b' k false fr.(alts)) (Hb : same_lens c.(world).(blocks) b').
Context (Hop : forall i a ch, entry fr.(alts) i a ch -> opens c t i a ch m').
Context (Hrest : forall ch, (forall i a, ~ entry fr.(alts) i a ch) -> m' !! ch = c.(world).(chans) !! ch).
Let w' := MkWorld m' (<[t := fr]> c.(world).(frames)) b' c.(world).(log).
Let ps' := <[t := InAlt k]> c.(pcs).

(** A channel stays, or gets the entry of [t]. *)
Lemma wait_chan ch x : c.(world).(chans) !! ch = Some x ->
  m' !! ch = Some x \/
  exists i a q', entry fr.(alts) i a ch /\ m' !! ch = Some (set_q q' x) /\ qadd x.(qentry) q' (t, i) /\
    x.(closed) = 0 /\ x.(freed) = false /\ a.(atag) = Some t /\
    (a.(aop) = CHANRCV -> x.(ch_n) = 0) /\ (a.(aop) = CHANSND -> x.(ch_n) = x.(ch_s)) /\
    ~ blocked c.(world) x.(qentry) (otherop a.(aop)).
Proof.
  intros Hx. destruct (entry_dec fr.(alts) ch) as [(i & a & He)|Hn].
  - destruct (Hop i a ch He) as (y & Hy & _ & Hf & [(H0 & Ht & H1 & H2 & H3 & q' & Hq & Hm)|(_ & Hm)]);
      rewrite Hx in Hy; injection Hy as <-; [|by left]. right. by exists i, a, q'.
  - left. rewrite <- Hx. by apply Hrest.
Qed.

Lemma wait_chan_inv ch x' : m' !! ch = Some x' -> exists x, c.(world).(chans) !! ch = Some x.
Proof.
  intros Hx. destruct (entry_dec fr.(alts) ch) as [(i & a & He)|Hn].
  - destruct (Hop i a ch He) as (y & Hy & _). eauto.
  - rewrite Hrest in Hx by done. eauto.
Qed.

Lemma wait_keeps v : v <> t -> keeps c.(world) c.(pcs) w' ps' v.
Proof.
  intros Hv. split; [|intros f Hf; exists f; simpl; by rewrite lookup_insert_ne].
  intros y Hy Hw. exists y. split; [|done]. unfold ps'. by rewrite lookup_insert_ne.
Qed.

Lemma wait_blocked ch x q' i a op : c.(world).(chans) !! ch = Some x -> qadd x.(qentry) q' (t, i) -> fr.(alts) !! i = Some a ->
  blocked w' q' op -> a.(aop) = op \/ blocked c.(world) x.(qentry) op.
Proof.
  intros Hx Hq Ha (p & Hp & Hu & f & b & Hf & Hb' & Ho). apply (qadd_queued _ _ _ p Hq) in Hp as [->|Hp].
  - left. simpl in Hf. rewrite lookup_insert_eq in Hf. injection Hf as <-. simpl in Hb'. congruence.
  - right. pose proof (queued_not_idle c HI ch x p t Hx Hp Hi) as Hne. exists p. split; [done|].
    rewrite <- (unc_ext c.(world) w'), <- (has_op_ext c.(world) w') by (simpl; by rewrite lookup_insert_ne).
    split; [done|]. by exists f, b.
Qed.

Lemma wait_chan_ok ch x' : m' !! ch = Some x' -> chan_inv w' ps' ch x'.
Proof.
  intros Hx'. destruct (wait_chan_inv ch x' Hx') as [x Hx]. pose proof (i_chan c HI ch x Hx) as HC.
  assert (Hk : forall p, queued x.(qentry) p -> keeps c.(world) c.(pcs) w' ps' p.1)
    by (intros p Hp; apply wait_keeps; by apply (queued_not_idle c HI ch x p t)).
  destruct (wait_chan ch x Hx) as [Hm|(i & a & q' & He & Hm & Hq & H0 & Hf0 & Hat & Hr & Hs & Hno)];
    rewrite Hx' in Hm; injection Hm as ->.
  - apply (chan_keep c.(world) c.(pcs) _ _ ch x); try done; [apply HC|apply HC|apply HC| |].
    + intros H1. apply (closing_stays c t _ ch x HI); [by left|done|by apply idle_not_closing|intros ?; by apply idle_not_closing|done].
    + intros H2 p Hp Hu. apply (ci_closed _ _ _ _ HC p H2 Hp).
      rewrite (unc_ext c.(world) w') in Hu; [done|]. simpl. rewrite lookup_insert_ne; [done|].
      intros Heq. by apply (queued_not_idle c HI ch x p t Hx Hp Hi).
  - assert (Hnq : ~ queued x.(qentry) (t, i)) by (intros Hqt; by apply (queued_not_idle c HI ch x (t, i) t Hx Hqt Hi)).
    assert (Hbl : forall op, blocked w' q' op -> a.(aop) = op \/ blocked c.(world) x.(qentry) op)
      by (intros op; apply (wait_blocked ch x q' i a op Hx Hq); apply He).
    constructor; simpl.
    + destruct (ci_ok _ _ _ _ HC). constructor; simpl; try done; [by eapply qadd_qfun|congruence].
    + intros p Hp. apply (qadd_queued _ _ _ p Hq) in Hp as [->|Hp].
      * exists (InAlt k), fr, a. simpl. split_and!; [apply lookup_insert_eq|done|apply lookup_insert_eq|apply He..|done].
      * destruct (queued_waits c HI ch x p Hx Hp) as (y & f & b & Hy & Hw & Hf & Hen & Htb).
        pose proof (queued_not_idle c HI ch x p t Hx Hp Hi) as Hne. exists y, f, b. unfold ps'. by rewrite !lookup_insert_ne.
    + intros H. apply Hbl in H as [H|H]; [auto|by apply (ci_recv _ _ _ _ HC)].
    + intros H. apply Hbl in H as [H|H]; [auto|by apply (ci_send _ _ _ _ HC)].
    + intros [H1 H2]. apply Hbl in H1 as [H1|H1], H2 as [H2|H2]; [congruence|..].
      * apply Hno. by rewrite H1.
      * apply Hno. by rewrite H2.
      * by apply (ci_both _ _ _ _ HC).
    + congruence.
    + congruence.
Qed.

Lemma wait_ops v i a ch : op_waits c.(world) v i a ch -> op_waits w' v i a ch.
Proof.
  intros (x & Hx & Hbk & Hq). destruct (wait_chan ch x Hx) as [Hm|(j & b & q' & He & Hm & Hqa & H0 & _)].
  - exists x. split_and!; [done|by eapply block_ok_keep|done].
  - exists (set_q q' x). split_and!; [done|by eapply block_ok_keep|]. destruct Hq as [Hq|[Hc _]]; [left|done].
    apply (qadd_queued _ _ _ _ Hqa). by right.
Qed.

Lemma keep_wait : Inv (MkConf w' ps').
Proof.
  constructor; simpl.
  - apply wait_chan_ok.
  - intros v y Hv. unfold ps' in Hv. apply lookup_insert_Some in Hv as [[<- <-]|[Hne Hv]].
    + simpl. exists fr. split_and!; try done.
      * split_and!; try done. apply lookup_insert_eq.
      * intros i a ch He. destruct (Hop i a ch He) as (x & Hx & Hbk & Hf & [(H0 & _ & _ & _ & _ & q' & Hq & Hm)|(H0 & Hm)]).
        -- exists (set_q q' x). split_and!; [done|by eapply block_ok_keep|]. left. apply (qadd_queued _ _ _ _ Hq). by left.
        -- exists x. split_and!; [done|by eapply block_ok_keep|]. by right.
      * left. by split.
    + apply (thread_keep c.(world) c.(pcs) _ _ v y Hv (i_thread c HI v y Hv)); [|done|..].
      * split_and!; simpl; [by rewrite lookup_insert_ne|intros; by apply wait_ops|].
        intros ch x i Hx Hq. destruct (wait_chan ch x Hx) as [Hm|(j & b & q' & He & Hm & Hqa & _)]; [eauto|].
        exists (set_q q' x). split; [done|]. apply (qadd_queued _ _ _ _ Hqa). by right.
      * intros s z Hs Hz. exists s, z. split; [|done]. unfold ps'. rewrite lookup_insert_ne; [done|]. intros <-.
        destruct Hi as (? & ? & Hi'). rewrite Hi' in Hs. by injection Hs as <-.
      * intros s ch _ (z & f & Hz & Ha & Hf & Hc).
        assert (s <> t). { intros ->. destruct Hi as (? & ? & Hi'). rewrite Hi' in Hz. by injection Hz as <-. }
        exists z, f. unfold ps'. simpl. by rewrite !lookup_insert_ne.
      * intros ch i _ (x & Hx & H1 & Hs). exists x. simpl. split_and!; [|done|].
        -- destruct (wait_chan ch x Hx) as [Hm|(j & b & q' & He & Hm & Hqa & H0 & _)]; [done|congruence].
        -- intros j p Hj Hp Hu. apply (Hs j p Hj Hp). rewrite (unc_ext c.(world) w') in Hu; [done|]. simpl.
           rewrite lookup_insert_ne; [done|]. intros Heq. apply (queued_not_idle c HI ch x p t Hx); [by exists j|done|done].
  - intros v Hv. unfold ps' in Hv. apply lookup_insert_None in Hv as [Hv Hne]. rewrite lookup_insert_ne by done. by apply (i_noframe c HI).
  - apply (one_target_insert c.(pcs)); [exact (i_one c HI)|done].
  - apply (one_closer_insert c.(pcs)); [exact (i_one_closer c HI)|]. intros ch i ? ? ? Hc. by destruct (closer_kind _ _ _ Hc) as [[] _].
Qed.
End Wait.

Section Resume.
Context (c : conf) (HI : Inv c) (t : Z) (k : kont) (r : rv) (fr : Frame) (m' : gmap Z Channel) (v : Z) (al : list Alt) (l' : list note).
Context (Ht : c.(pcs) !! t = Some (Woken k r)) (Hfr : c.(world).(frames) !! t = Some fr) (Hr : r = Intred -> fr.(tagc) = Tnil).
Context (Hop : forall i a ch x, entry fr.(alts) i a ch -> c.(world).(chans) !! ch = Some x -> taken_off x (t, i) (m' !! ch)).
Context (Hrest : forall ch, (forall i a, ~ entry fr.(alts) i a ch) -> m' !! ch = c.(world).(chans) !! ch).
Let w' := MkWorld m' (delete t c.(world).(frames)) c.(world).(blocks) l'.
Let ps' := <[t := Run v al]> c.(pcs).

Lemma resume_distinct : distinct fr.(alts) /\ forall i a ch, entry fr.(alts) i a ch -> op_waits c.(world) t i a ch.
Proof.
  destruct (waits_frame c HI t _ Ht I) as (k' & _ & f & (Hf & Hd & _) & _ & Hops & _). rewrite Hfr in Hf. by injection Hf as <-.
Qed.

(** The entry of [t] in the queue of a channel is that of its operation. *)
Lemma own_entry ch x i : c.(world).(chans) !! ch = Some x -> queued x.(qentry) (t, i) -> exists a, entry fr.(alts) i a ch.
Proof.
  intros Hx Hq. destruct (queued_waits c HI ch x (t, i) Hx Hq) as (y & f & a & _ & _ & Hf & He & _).
  simpl in *. rewrite Hfr in Hf. injection Hf as <-. eauto.
Qed.

(** A channel keeps the entries of the others, or is freed when there are none. *)
Definition left_over (x : Channel) (o : option Channel) : Prop :=
  match o with
  | Some x' => exists q', x' = set_q q' x /\ qfun q' /\ (forall j p, qat q' j = Some p -> qat x.(qentry) j = Some p) /\
      (forall p, queued q' p <-> p.1 <> t /\ queued x.(qentry) p) /\
      (x.(freed) = true -> x.(closed) = 1 \/ exists p, queued q' p)
  | None => x.(freed) = true /\ x.(closed) <> 1 /\ forall p, p.1 <> t -> ~ queued x.(qentry) p
  end.

Lemma resume_chan ch x : c.(world).(chans) !! ch = Some x -> left_over x (m' !! ch).
Proof.
  intros Hx. pose proof (ci_ok _ _ _ _ (i_chan c HI ch x Hx)) as Hok.
  assert (Hsame : (forall i, ~ queued x.(qentry) (t, i)) -> left_over x (Some x)).
  { intros Hn. exists x.(qentry). split_and!; [by destruct x|apply Hok|done| |apply Hok].
    intros p. split; [|by intros []]. intros Hp. split; [|done]. intros <-. destruct p as [p i]. by apply (Hn i). }
  destruct (entry_dec fr.(alts) ch) as [(i & a & He)|Hn].
  - assert (Honly : forall p, queued x.(qentry) p -> p.1 = t -> p = (t, i)).
    { intros [p j] Hp Heq. simpl in Heq. subst p. destruct (own_entry ch x j Hx Hp) as [b Hb].
      f_equal. by apply (proj1 resume_distinct j i b a ch). }
    destruct (Hop i a ch x He Hx) as [[Hnq ->]|(q' & Hq & Hcase)].
    + apply Hsame. intros j Hj. by rewrite (Honly _ Hj eq_refl) in Hj.
    + assert (Hiff : forall p, queued q' p <-> p.1 <> t /\ queued x.(qentry) p).
      { intros p. rewrite (qdel_queued _ _ _ p Hq (ck_q x Hok)). split; intros [H1 H2]; (split; [|done]).
        - intros Heq. by apply H1, Honly.
        - by intros ->. }
      destruct Hcase as [[-> Hf]|(-> & Hf & Hc & Hnone)].
      * exists q'. split_and!; [done|eapply qdel_qfun; [exact Hq|apply Hok]|intros j p; by eapply qdel_sub|done|done].
      * simpl. split_and!; [done|done|]. intros p Hp Hqp. apply (Hnone p). by apply Hiff.
  - rewrite Hrest, Hx by done. apply Hsame. intros i Hq. destruct (own_entry ch x i Hx Hq) as [a He]. by apply (Hn i a).
Qed.

Lemma resume_chan_inv ch x' : m' !! ch = Some x' -> exists x, c.(world).(chans) !! ch = Some x.
Proof.
  intros Hx. destruct (entry_dec fr.(alts) ch) as [(i & a & He)|Hn].
  - destruct (proj2 resume_distinct i a ch He) as (x & Hx2 & _). eauto.
  - rewrite Hrest in Hx by done. eauto.
Qed.

Lemma resume_frame s : s <> t -> w'.(frames) !! s = c.(world).(frames) !! s.
Proof. intros Hs. simpl. by rewrite lookup_delete_ne. Qed.

Lemma resume_blocked q q' op : (forall p, queued q' p -> p.1 <> t /\ queued q p) -> blocked w' q' op -> blocked c.(world) q op.
Proof.
  intros Hq (p & Hp & Hu & Ho). destruct (Hq p Hp) as [Hne Hp']. exists p. split; [done|].
  by rewrite <- (unc_ext c.(world) w'), <- (has_op_ext c.(world) w') by (by apply resume_frame).
Qed.

Lemma resume_chan_ok ch x' : m' !! ch = Some x' -> chan_inv w' ps' ch x'.
Proof.
  intros Hx'. destruct (resume_chan_inv ch x' Hx') as [x Hx]. pose proof (i_chan c HI ch x Hx) as HC.
  pose proof (resume_chan ch x Hx) as Hl. rewrite Hx' in Hl. destruct Hl as (q' & -> & Hf & Hsub & Hiff & Hfr').
  assert (Hbl : forall op, blocked w' q' op -> blocked c.(world) x.(qentry) op) by (intros op; apply resume_blocked; intros p; by apply Hiff).
  constructor; simpl.
  - destruct (ci_ok _ _ _ _ HC). constructor; done.
  - intros p Hp. apply Hiff in Hp as [Hne Hp]. destruct (queued_waits c HI ch x p Hx Hp) as (y & f & a & Hy & Hrest2).
    exists y, f, a. unfold ps'. by rewrite lookup_insert_ne, lookup_delete_ne.
  - intros H. by apply (ci_recv _ _ _ _ HC), Hbl.
  - intros H. by apply (ci_send _ _ _ _ HC), Hbl.
  - intros [H1 H2]. apply (ci_both _ _ _ _ HC). split; by apply Hbl.
  - intros H1. destruct (ci_closing _ _ _ _ HC H1) as (u & z & i & Hz & Hc). exists u, z, i. split; [|done].
    unfold ps'. rewrite lookup_insert_ne; [done|]. intros <-. rewrite Ht in Hz. injection Hz as <-. by destruct (closer_kind _ _ _ Hc) as [[] _].
  - intros p H2 Hp Hu. apply Hiff in Hp as [Hne Hp]. apply (ci_closed _ _ _ _ HC p H2 Hp). by rewrite (unc_ext c.(world) w') in Hu by (by apply resume_frame).
Qed.

Lemma resume_not_target s z : c.(pcs) !! s = Some z -> target z <> Some t.
Proof.
  intros Hz Hzt. destruct (target_is c HI s z t Hz Hzt) as (ch & y & f & Hy & Ha & Hf & Hc).
  rewrite Ht in Hy. injection Hy as <-. rewrite Hfr in Hf. injection Hf as <-.
  destruct r; simpl in Ha; try done. rewrite Hr in Hc by done. done.
Qed.

Lemma keep_resume : Inv (MkConf w' ps').
Proof.
  constructor; simpl.
  - apply resume_chan_ok.
  - intros s y Hs. unfold ps' in Hs. apply lookup_insert_Some in Hs as [[<- <-]|[Hne Hs]].
    { simpl. apply lookup_delete_eq. }
    apply (thread_keep c.(world) c.(pcs) _ _ s y Hs (i_thread c HI s y Hs)); [|apply same_lens_refl|..].
    + split_and!; [by apply resume_frame|..].
      * intros y' f i a ch _ _ _ _ (x & Hx & Hbk & Hq). pose proof (resume_chan ch x Hx) as Hl. unfold op_waits. simpl.
        destruct (m' !! ch) as [x'|].
        -- destruct Hl as (q' & -> & _ & _ & Hiff & _). exists (set_q q' x). split_and!; [done|done|].
           destruct Hq as [Hq|Hq]; [left|by right]. by apply Hiff.
        -- destruct Hl as (H1 & H2 & H3). destruct Hq as [Hq|[_ Hq]]; [by destruct (H3 (s, i))|congruence].
      * intros ch x i Hx Hq. pose proof (resume_chan ch x Hx) as Hl. simpl. destruct (m' !! ch) as [x'|].
        -- destruct Hl as (q' & -> & _ & _ & Hiff & _). exists (set_q q' x). split; [done|]. by apply Hiff.
        -- destruct Hl as (_ & _ & H3). by destruct (H3 (s, i)).
    + intros u z Hz Hzt. exists u, z. split; [|done]. unfold ps'. rewrite lookup_insert_ne; [done|]. intros <-.
      rewrite Ht in Hz. by injection Hz as <-.
    + intros u ch Hut (z & f & Hz & Ha & Hf & Hc). assert (u <> t) as Hu. { intros ->. by apply (resume_not_target s y). }
      exists z, f. split_and!; try done; [unfold ps'; by rewrite lookup_insert_ne|by rewrite resume_frame].
    + intros ch i _ (x & Hx & H1 & Hseen). pose proof (resume_chan ch x Hx) as Hl. unfold close_ok. simpl. destruct (m' !! ch) as [x'|].
      * destruct Hl as (q' & -> & _ & Hsub & Hiff & _). exists (set_q q' x). split_and!; [done|done|]. simpl. intros j p Hj Hp Hu.
        assert (p.1 <> t) by (apply Hiff; by exists j). apply (Hseen j p Hj); [by apply Hsub|]. by rewrite (unc_ext c.(world) w') in Hu by (by apply resume_frame).
      * by destruct Hl as (_ & Hl & _).
  - intros s Hs. unfold ps' in Hs. apply lookup_insert_None in Hs as [Hs Hne]. rewrite lookup_delete_ne by done. by apply (i_noframe c HI).
  - apply (one_target_insert c.(pcs)); [exact (i_one c HI)|done].
  - apply (one_closer_insert c.(pcs)); [exact (i_one_closer c HI)|]. intros ch i ? ? ? Hc.
    destruct (closer_kind _ _ _ Hc) as [_ Hn]. by destruct (Hn v al).
Qed.
End Resume.

(** * Every step *)

Lemma trans_inv c c' : Inv c -> trans c c' -> Inv c'.
Proof.
  intros HI HT. destruct HT.
  - apply keep_buffer; try done; [apply same_chans_refl|]. intros ch x Hx. pose proof (i_chan c HI ch x Hx) as HC.
    split_and!; apply HC.
  - pose proof (i_chan c HI ch x H0) as HC. apply keep_buffer; try done; [by apply (same_chans_insert _ _ x)|].
    intros k z Hz. apply lookup_insert_Some in Hz as [[<- <-]|[Hne Hz]].
    + destruct H2 as (Hs & _ & _ & Hq & _). rewrite Hq. split_and!; [done| |done].
      intros Hbl. pose proof (ci_recv _ _ _ _ HC Hbl). pose proof (ck_n x' H3). lia.
    + pose proof (i_chan c HI k z Hz) as HC'. split_and!; apply HC'.
  - pose proof (i_chan c HI ch x H0) as HC. apply keep_buffer; try done; [by apply (same_chans_insert _ _ x)|].
    intros k z Hz. apply lookup_insert_Some in Hz as [[<- <-]|[Hne Hz]].
    + destruct H2 as (Hs & _ & _ & Hq & _). rewrite Hq. split_and!; [done|done|].
      intros Hbl. pose proof (ci_send _ _ _ _ HC Hbl). pose proof (ck_n x' H3). lia.
    + pose proof (i_chan c HI k z Hz) as HC'. split_and!; apply HC'.
  - by eapply keep_serve.
  - by apply keep_wait.
  - by eapply keep_meet_serve.
  - by eapply keep_meet_close.
  - by eapply keep_asleep.
  - by eapply (keep_asleep c t (Woken k Intred) (InAlt k)).
  - by eapply keep_resume.
  - subst b. by eapply keep_close.
  - by eapply keep_closed.
  - by eapply keep_free.
  - by eapply keep_make.
Qed.
