(* ===== verification/ChanRun.v ===== *)
(** The loops of channels, run: what each of them answers and leaves, for a
    world whose queues hold good pointers. *)

From S2P Require Import Prelude Fcall Eff Chan ChanInv ChanKeep.

(** The entries of queues can be followed. *)
Definition good (w : World) (p : aptr) : Prop :=
  exists fr a, w.(frames) !! p.1 = Some fr /\ fr.(alts) !! p.2 = Some a /\ is_op a /\ a.(atag) = Some p.1.
Definition goodq (w : World) (q : list (option aptr)) : Prop := forall p, queued q p -> good w p.

Lemma queued_cons x q p : queued (x :: q) p <-> x = Some p \/ queued q p.
Proof.
  split.
  - intros [[|j] Hj]; [left|right; by exists j]. unfold qat in Hj. simpl in Hj. done.
  - intros [->|[j Hj]]; [by exists O|by exists (S j)].
Qed.

Lemma goodq_cons w x q : goodq w (x :: q) -> (forall p, x = Some p -> good w p) /\ goodq w q.
Proof. intros H. split; intros p Hp; apply H, queued_cons; auto. Qed.

(** ** Who waits *)

Definition waitsP (w : World) (x : option aptr) (op : ChanOp) : Prop :=
  exists p, x = Some p /\ unc w p /\ has_op w p op.

Lemma waits_run w x op : (forall p, x = Some p -> good w p) ->
  exists b, waits x op w = Ok (b, w) /\ (b = true <-> waitsP w x op).
Proof.
  intros Hg. destruct x as [p|]; [|exists false; split; [done|split; [done|by intros (? & [=] & _)]]].
  destruct (Hg p eq_refl) as (fr & a & Hf & Ha & Ho & Ht).
  assert (E : waits (Some p) op w = Ok (bool_decide (a.(aop) = op) && bool_decide (fr.(tagc) = Tnil), w)).
  { unfold waits, geta, gettag. erewrite eff_bind_ok; [|erewrite eff_bind_ok by (by apply deref_run); rewrite Ha; done].
    case_bool_decide as Hop; simpl; [|done].
    erewrite eff_bind_ok; [done|]. rewrite Ht. unfold nonnil. eff_prim. by erewrite eff_bind_ok by (by apply deref_run). }
  eexists. split; [exact E|]. rewrite andb_true_iff, !bool_decide_eq_true. split.
  - intros [H1 H2]. exists p. split_and!; [done|by exists fr|by exists fr, a].
  - intros (p' & [= <-] & (f & Hf' & Htn) & (f2 & a2 & Hf2 & Ha2 & Ho2)). rewrite Hf in Hf', Hf2.
    injection Hf' as <-. injection Hf2 as <-. split; congruence.
Qed.

Lemma blocked_cons w x q op : blocked w (x :: q) op <-> waitsP w x op \/ blocked w q op.
Proof.
  unfold blocked, waitsP. split.
  - intros (p & Hp & H). apply queued_cons in Hp as [->|Hp]; [left; eauto|right; eauto].
  - intros [(p & -> & H)|(p & Hp & H)]; exists p; (split; [|done]); apply queued_cons; auto.
Qed.

Lemma anywaits_run w q op : goodq w q -> exists b, anywaits q op w = Ok (b, w) /\ (b = true <-> blocked w q op).
Proof.
  induction q as [|x q IH]; intros Hg.
  { exists false. split; [done|]. split; [done|]. intros (p & [j Hj] & _). by destruct j. }
  apply goodq_cons in Hg as [Hx Hq]. destruct (waits_run w x op Hx) as (b & Hb & Hbw).
  setoid_rewrite blocked_cons. cbn [anywaits]. rewrite (eff_bind_ok _ _ _ _ _ Hb). destruct b.
  - exists true. split; [done|]. split; [intros _; left; by apply Hbw|done].
  - destruct (IH Hq) as (b & Hb2 & Hbw2). exists b. split; [done|]. rewrite Hbw2. split; [by right|].
    intros [H|H]; [by apply Hbw in H|done].
Qed.

Definition chosen (w : World) (q : list (option aptr)) (op : ChanOp) (o : option aptr) : Prop :=
  match o with Some p => queued q p /\ unc w p /\ has_op w p op | None => ~ blocked w q op end.

Lemma choose_run w q op : forall k b rs, goodq w q -> 0 <= k -> (b = None -> k = 0) ->
  exists o, choose q op k b rs w = Ok (o, w) /\ (o = b /\ (b = None -> ~ blocked w q op) \/ (o <> None /\ chosen w q op o)).
Proof.
  induction q as [|x q IH]; intros k b rs Hg Hk Hb.
  { exists b. split; [done|]. left. split; [done|]. intros _ (p & [j Hj] & _). by destruct j. }
  apply goodq_cons in Hg as [Hx Hq]. destruct (waits_run w x op Hx) as (b1 & Hb1 & Hbw).
  cbn [choose]. rewrite (eff_bind_ok _ _ _ _ _ Hb1). destruct b1.
  - assert (HwP : waitsP w x op) by (by apply Hbw). destruct (nrand (k + 1) rs) as [r rs'] eqn:Er.
    assert (Hr1 : b = None -> r = 0). { intros Hn. rewrite (Hb Hn), nrand_1 in Er. by injection Er. }
    destruct (IH (k + 1) (if r =? 0 then x else b) rs' Hq) as (o & Ho & Hcase); [lia| |].
    { intros Hn. exfalso. destruct (Z.eqb_spec r 0) as [Hr|Hr]; [by destruct HwP as (p & -> & _)|by apply Hr, Hr1]. }
    exists o. split; [done|]. destruct Hcase as [[-> _]|[Hn Hc]].
    + destruct (Z.eqb_spec r 0) as [Hr|Hr].
      * right. destruct HwP as (p & -> & H). split; [done|]. split; [|done]. apply queued_cons. by left.
      * left. split; [done|]. intros Hn. by destruct (Hr (Hr1 Hn)).
    + right. split; [done|]. destruct o as [p|]; [|done]. destruct Hc as (H1 & H2). split; [|done]. apply queued_cons. by right.
  - destruct (IH k b rs Hq Hk Hb) as (o & Ho & Hcase). exists o. split; [done|].
    destruct Hcase as [[Heq H]|[Hn Hc]].
    + left. split; [done|]. intros Hbn. rewrite blocked_cons. intros [Hw|Hw]; [by apply Hbw in Hw|by apply H].
    + right. split; [done|]. destruct o as [p|]; [|done]. destruct Hc as (H1 & H2). split; [|done]. apply queued_cons. by right.
Qed.

Lemma choose_run0 w q op rs : goodq w q -> exists o, choose q op 0 None rs w = Ok (o, w) /\ chosen w q op o.
Proof.
  intros Hg. destruct (choose_run w q op 0 None rs Hg ltac:(done) ltac:(done)) as (o & Ho & [[Heq H]|[_ H]]); exists o; (split; [done|]); [rewrite Heq; by apply H|done].
Qed.

(** ** Whether an operation can proceed *)

Definition room (x : Channel) (op : ChanOp) : Prop :=
  match op with CHANSND => x.(ch_n) < x.(ch_s) | CHANRCV => 0 < x.(ch_n) | _ => False end.
Definition can_go (w : World) (a : Alt) (x : Channel) : Prop :=
  blocked w x.(qentry) (otherop a.(aop)) \/ room x a.(aop).

Lemma canexec_run w a ch x : a.(ac) = Some ch -> w.(chans) !! ch = Some x -> goodq w x.(qentry) ->
  exists b, canexec a w = Ok (b, w) /\ (b = true <-> can_go w a x).
Proof.
  intros Ha Hx Hg. destruct (anywaits_run w x.(qentry) (otherop a.(aop)) Hg) as (b & Hb & Hbw).
  unfold canexec. rewrite Ha. unfold nonnil. eff_prim. rewrite (eff_bind_ok _ _ _ _ _ (deref_run chans ch x w Hx)).
  rewrite (eff_bind_ok _ _ _ _ _ Hb). unfold can_go. destruct b.
  - exists true. split; [done|]. split; [left; by apply Hbw|done].
  - eexists. split; [reflexivity|]. unfold room. rewrite <- Hbw. destruct (aop a); rewrite ?Z.ltb_lt; intuition congruence.
Qed.

(** ** The first loop of [alt] *)

Definition goodw (w : World) : Prop := forall ch x, w.(chans) !! ch = Some x -> goodq w x.(qentry).

Definition proceeds (w : World) (a : Alt) : Prop :=
  is_op a /\ exists ch x, a.(ac) = Some ch /\ w.(chans) !! ch = Some x /\ isopenfor x a.(aop) = true /\ can_go w a x.

(** What the loop found: an operation that can proceed, or that none can. *)
Definition scanned (w : World) (al : list Alt) (i : nat) (a a' : option (nat * Alt)) : Prop :=
  match a' with
  | Some (i', xa) => a' = a \/ exists j, i' = (i + j)%nat /\ al !! j = Some xa /\ proceeds w xa
  | None => a = None /\ forall j b ch, entry al j b ch ->
      exists x, w.(chans) !! ch = Some x /\ (isopenfor x b.(aop) = true -> ~ can_go w b x)
  end.

Lemma same_alt_refl a : same_alt a a.
Proof. by split_and!. Qed.
Lemma same_array_refl al : same_array al al.
Proof. induction al; constructor; [apply same_alt_refl|done]. Qed.

Lemma entry_S al b i a ch : entry (b :: al) (S i) a ch <-> entry al i a ch.
Proof. done. Qed.

Lemma scanned_nop w al i a a' b : ~ is_op b -> scanned w al (S i) a a' -> scanned w (b :: al) i a a'.
Proof.
  intros Hb. destruct a' as [[i' xa]|]; simpl.
  - intros [H|(j & -> & Hj & Hp)]; [by left|right]. exists (S j). split_and!; [lia|done|done].
  - intros [H1 H2]. split; [done|]. intros [|j] c ch He; [destruct He as ([= <-] & Ho & _); done|by apply (H2 j)].
Qed.

Lemma scanned_stuck w al i a a' b ch x : b.(ac) = Some ch -> w.(chans) !! ch = Some x ->
  (isopenfor x b.(aop) = true -> ~ can_go w b x) -> scanned w al (S i) a a' -> scanned w (b :: al) i a a'.
Proof.
  intros Hb Hx Hn. destruct a' as [[i' xa]|]; simpl.
  - intros [H|(j & -> & Hj & Hp)]; [by left|right]. exists (S j). split_and!; [lia|done|done].
  - intros [H1 H2]. split; [done|]. intros [|j] c ch' He; [|by apply (H2 j)].
    destruct He as ([= <-] & _ & Hc). rewrite Hb in Hc. injection Hc as <-. eauto.
Qed.

Lemma scanned_ready w al i a a' b r : proceeds w b -> (a = None -> r = true) ->
  scanned w al (S i) (if r then Some (i, b) else a) a' -> scanned w (b :: al) i a a'.
Proof.
  intros Hp Hr. destruct a' as [[i' xa]|]; simpl.
  - intros [H|(j & -> & Hj & Hp')]; [|right; exists (S j); split_and!; [lia|done|done]].
    destruct r; [|by left]. injection H as -> ->. right. exists O. split_and!; [lia|done|done].
  - intros [H1 H2]. destruct r; [done|]. by specialize (Hr H1).
Qed.

Lemma named_cons b al : (is_op b -> is_Some b.(ac)) -> named al -> named (b :: al).
Proof. intros Hb Hn [|i] a Ha Ho; [injection Ha as <-; by apply Hb|by apply (Hn i)]. Qed.

Lemma scan_op xa al i k a rs : is_op xa -> scan (xa :: al) i k a rs =
  ('(al', r) ← (match xa.(ac) with
       | None => mret (al, None)
       | Some c =>
           x ← deref chans c;
           can ← (if isopenfor x xa.(aop) then canexec (set_entryno (-1) xa) else mret false);
           if (can : bool) then
             let '(r, rs) := nrand (k + 1) rs in
             scan al (S i) (k + 1) (if r =? 0 then Some (i, set_entryno (-1) xa) else a) rs
           else scan al (S i) k a rs
       end);
   mret (set_entryno (-1) xa :: al', r)).
Proof. intros [H|H]; cbn [scan]; rewrite H; reflexivity. Qed.

Lemma scan_nop xa al i k a rs : xa.(aop) = CHANNOP -> scan (xa :: al) i k a rs =
  ('(al', r) ← scan al (S i) k a rs; mret (set_entryno (-1) xa :: al', r)).
Proof. intros H. cbn [scan]. rewrite H. reflexivity. Qed.

(** The test of one operation. *)
Lemma can_run w a ch x : goodw w -> a.(ac) = Some ch -> w.(chans) !! ch = Some x ->
  exists b, (if isopenfor x a.(aop) then canexec a else mret false) w = Ok (b, w) /\
    (b = true <-> isopenfor x a.(aop) = true /\ can_go w a x).
Proof.
  intros Hg Ha Hx. destruct (canexec_run w a ch x Ha Hx (Hg _ _ Hx)) as (b & Hb & Hiff).
  destruct (isopenfor x (aop a)); [exists b; split; [done|]; rewrite Hiff; intuition|].
  exists false. split; [done|]. by split; [|intros [? _]].
Qed.

Definition scan_post (w : World) (nb : bool) (al : list Alt) (i : nat) (a : option (nat * Alt))
    (r : list Alt * option (option (nat * Alt) * nat * bool * list Z)) : Prop :=
  same_array al r.1 /\ ended nb r.1 = true /\
  match r.2 with
  | None => True
  | Some (a', j, nb', rs') => nb' = nb /\ S j = (i + length al)%nat /\ named r.1 /\ scanned w r.1 i a a'
  end.

Lemma scan_end w nb xa al i a rs :
  (xa.(aop) = CHANEND \/ xa.(aop) = CHANNOBLK) -> ended nb (xa :: al) = true ->
  scan_post w nb (xa :: al) i a (xa :: al, Some (a, i, bool_decide (xa.(aop) = CHANNOBLK), rs)).
Proof.
  intros Hop He. split; [apply same_array_refl|]. split; [done|]. simpl in *.
  assert (Hal : al = [] /\ nb = bool_decide (aop xa = CHANNOBLK)).
  { destruct Hop as [H|H]; rewrite H in *; apply andb_true_iff in He as [H1 H2]; apply bool_decide_eq_true in H2; by destruct nb. }
  destruct Hal as [-> ->]. split_and!; [done|simpl; lia| |].
  - intros [|j] b Hb; [|done]. injection Hb as <-. intros [H|H]; rewrite H in Hop; by destruct Hop.
  - destruct a as [[i' b]|]; simpl; [by left|]. split; [done|]. intros [|j] b ch (Hb & Ho & _); [|done].
    injection Hb as <-. destruct Hop as [H|H], Ho as [H'|H']; congruence.
Qed.

Lemma ended_cons nb xa al : xa.(aop) <> CHANEND -> xa.(aop) <> CHANNOBLK -> ended nb (xa :: al) = ended nb al.
Proof. simpl. by destruct (aop xa). Qed.

Lemma scan_cons w nb xa al i a a' al' r :
  xa.(aop) <> CHANEND -> xa.(aop) <> CHANNOBLK -> (is_op xa -> is_Some xa.(ac)) ->
  (forall a'', scanned w al' (S i) a' a'' -> scanned w (set_entryno (-1) xa :: al') i a a'') ->
  scan_post w nb al (S i) a' (al', r) -> scan_post w nb (xa :: al) i a (set_entryno (-1) xa :: al', r).
Proof.
  intros H1 H2 Hn Hs (Ha & He & Hr). unfold scan_post. cbn [fst snd] in *. split; [by constructor|].
  split; [by rewrite ended_cons|]. destruct r as [[[[a'' j] nb'] rs']|]; [|done].
  destruct Hr as (-> & Hj & Hnm & Hsc). split_and!; [done|simpl; simpl in Hj; lia|by apply named_cons|by apply Hs].
Qed.

Lemma scan_run w nb al : goodw w -> forall i k a rs,
  (forall j b ch, entry al j b ch -> is_Some (w.(chans) !! ch)) -> ended nb al = true -> 0 <= k -> (a = None -> k = 0) ->
  exists r, scan al i k a rs w = Ok (r, w) /\ scan_post w nb al i a r.
Proof.
  intros Hg. induction al as [|xa al IH]; intros i k a rs Hc He Hk Ha; [done|].
  assert (Hc' : forall j b ch, entry al j b ch -> is_Some (w.(chans) !! ch)) by (intros j b ch H; by apply (Hc (S j) b)).
  destruct (decide (aop xa = CHANEND \/ aop xa = CHANNOBLK)) as [Hend|Hnend].
  { eexists. split; [|apply (scan_end _ _ _ _ _ _ rs Hend He)]. cbn [scan]. destruct Hend as [H|H]; by rewrite H. }
  assert (H1 : aop xa <> CHANEND) by tauto. assert (H2 : aop xa <> CHANNOBLK) by tauto.
  rewrite ended_cons in He by done.
  destruct (decide (aop xa = CHANNOP)) as [Hnop|Hnop].
  { destruct (IH (S i) k a rs Hc' He Hk Ha) as ([al' r] & Hrun & Hpost). rewrite scan_nop by done. eff_with Hrun.
    eexists. split; [reflexivity|]. assert (Ho : ~ is_op xa) by (intros [H|H]; congruence).
    apply (scan_cons _ _ _ _ _ _ a); [done|done|done| |done]. intros a''. by apply scanned_nop. }
  assert (Hop : is_op xa) by (unfold is_op; destruct (aop xa); auto; congruence).
  rewrite scan_op by done. destruct (ac xa) as [ch|] eqn:Hac.
  2: { eexists. split; [reflexivity|]. split; [constructor; [done|apply same_array_refl]|]. split; [cbn [fst]; by rewrite ended_cons|done]. }
  destruct (Hc O xa ch) as [x Hx]; [by split_and!|].
  destruct (can_run w (set_entryno (-1) xa) ch x Hg Hac Hx) as (b & Hb & Hiff).
  assert (Hn : is_op xa -> is_Some (ac xa)) by (rewrite Hac; eauto).
  destruct b.
  - destruct (nrand (k + 1) rs) as [r rs'] eqn:Er.
    assert (Hr1 : a = None -> r = 0). { intros Hz. rewrite (Ha Hz), nrand_1 in Er. by injection Er. }
    destruct (IH (S i) (k + 1) (if r =? 0 then Some (i, set_entryno (-1) xa) else a) rs' Hc' He)
      as ([al' o] & Hrun & Hpost); [lia| |].
    { intros H. exfalso. destruct (Z.eqb_spec r 0) as [|Hr]; [done|]. by apply Hr, Hr1. }
    erewrite eff_bind_ok; [|eff_prim; eff_with Hb; exact Hrun].
    eexists. split; [reflexivity|]. eapply scan_cons; [done|done|done| |done].
    intros a''. apply scanned_ready.
    + destruct (proj1 Hiff eq_refl) as [Hi Hcg]. split; [done|]. exists ch, x. by split_and!.
    + intros H. by rewrite (Hr1 H).
  - destruct (IH (S i) k a rs Hc' He Hk Ha) as ([al' r] & Hrun & Hpost).
    erewrite eff_bind_ok; [|eff_prim; eff_with Hb; exact Hrun].
    eexists. split; [reflexivity|]. eapply scan_cons; [done|done|done| |done].
    intros a''. apply (scanned_stuck _ _ _ _ _ _ ch x); [done|done|].
    intros H1' H2'. assert (false = true) by (by apply Hiff). done.
Qed.
