(* ===== verification/ChanLoops.v ===== *)
(** The loops of channels that change the queues, run: entering and leaving the
    queues in [alt], and the loop of [chanclose]. *)

From S2P Require Import Prelude Fcall Eff Chan ChanInv ChanKeep ChanRun.

(** A world in which only channels and the frame of [t] differ. *)
Definition upd (w : World) (m : gmap Z Channel) (t : Z) (fr : Frame) : World :=
  MkWorld m (<[t := fr]> w.(frames)) w.(blocks) w.(log).

Lemma upd_upd w m t fr m' fr' : upd (upd w m t fr) m' t fr' = upd w m' t fr'.
Proof. unfold upd. simpl. by rewrite insert_insert_eq. Qed.

Lemma upd_same w t fr : w.(frames) !! t = Some fr -> upd w w.(chans) t fr = w.
Proof. intros H. unfold upd. rewrite insert_id by done. by destruct w. Qed.

Lemma geta_run w t i fr a : w.(frames) !! t = Some fr -> fr.(alts) !! i = Some a -> geta (t, i) w = Ok (a, w).
Proof. intros Hf Ha. unfold geta. simpl. eff_prim. by rewrite Ha. Qed.

Lemma puta_run w t i fr a : w.(frames) !! t = Some fr ->
  puta (t, i) a w = Ok (tt, upd w w.(chans) t (MkFrame (<[i := a]> fr.(alts)) fr.(tagc))).
Proof. intros Hf. unfold puta. simpl. by eff_prim. Qed.

Lemma nonnil_run {S} (p : option Z) x (s : S) : p = Some x -> nonnil p s = Ok (x, s).
Proof. by intros ->. Qed.

Lemma upd_frame w m t fr : (upd w m t fr).(frames) !! t = Some fr.
Proof. apply lookup_insert_eq. Qed.

(** ** Entering a queue *)

Lemma empty_index_spec q : (empty_index q <= length q)%nat /\ qat q (empty_index q) = None.
Proof.
  induction q as [|[p|] q [IH1 IH2]]; simpl; [done|split; [lia|done]|split; [lia|done]].
Qed.

Lemma qat_app_None q n j : qat (q ++ replicate n None) j = qat q j.
Proof.
  unfold qat. destruct (decide (j < length q)%nat) as [H|H]; [by rewrite lookup_app_l|].
  rewrite lookup_app_r, (lookup_ge_None_2 q) by lia. destruct (replicate n None !! (j - length q)%nat) eqn:E; [|done].
  by apply lookup_replicate in E as [-> _].
Qed.

Lemma qat_insert q i p k : (i < length q)%nat -> qat (<[i := p]> q) k = if decide (k = i) then p else qat q k.
Proof.
  intros H. unfold qat. destruct (decide (k = i)) as [->|Hne]; [by rewrite list_lookup_insert_eq|by rewrite list_lookup_insert_ne].
Qed.

Lemma emptyentry_run w ch x : w.(chans) !! ch = Some x ->
  exists q i, emptyentry ch w = Ok (i, MkWorld (<[ch := set_q q x]> w.(chans)) w.(frames) w.(blocks) w.(log)) /\
    (i < length q)%nat /\ qat q i = None /\ forall k, qat q k = qat x.(qentry) k.
Proof.
  intros Hx. destruct (empty_index_spec x.(qentry)) as [H1 H2]. unfold emptyentry. eff_prim.
  destruct (Nat.ltb_spec (empty_index x.(qentry)) (length x.(qentry))) as [Hlt|Hge].
  - exists x.(qentry), (empty_index x.(qentry)). split_and!; [|done|done|done]. eff_prim. unfold mret, eff_ret. do 2 f_equal.
    destruct x, w. simpl in *. by rewrite insert_id.
  - eexists _, _. split; [unfold putc; eff_prim; reflexivity|]. rewrite length_app, length_replicate.
    split_and!; [lia|by rewrite qat_app_None|intros; apply qat_app_None].
Qed.

Lemma enqueue_run w t i fr a ch x : w.(frames) !! t = Some fr -> fr.(alts) !! i = Some a -> a.(ac) = Some ch ->
  w.(chans) !! ch = Some x ->
  exists q', qadd x.(qentry) q' (t, i) /\
    enqueue (t, i) t w = Ok (tt, upd w (<[ch := set_q q' x]> w.(chans)) t (MkFrame (<[i := set_tag (Some t) a]> fr.(alts)) fr.(tagc))).
Proof.
  intros Hf Ha Hc Hx. unfold enqueue. eff_with (geta_run _ _ _ _ _ Hf Ha). eff_with (puta_run _ _ i _ (set_tag (Some t) a) Hf).
  rewrite Hc. unfold nonnil. eff_prim.
  match goal with |- context [(_ ≫= _) ?w1] => destruct (emptyentry_run w1 ch x Hx) as (q & k & Hrun & Hk & Hkn & Hq) end.
  eff_with Hrun. erewrite eff_bind_ok by (apply deref_run, lookup_insert_eq). cbv beta iota.
  exists (<[k := Some (t, i)]> q). split.
  - exists k. split; [by rewrite <- Hq|]. intros j. rewrite qat_insert by done. by rewrite Hq.
  - unfold putc, modify, upd. simpl. by rewrite insert_insert_eq.
Qed.

(** What the loop makes of the channel of one operation. *)
Definition entered (t : Z) (i : nat) (a : Alt) (x : Channel) (o : option Channel) : Prop :=
  (isopenfor x a.(aop) = true /\ a.(atag) = Some t /\ exists q', qadd x.(qentry) q' (t, i) /\ o = Some (set_q q' x)) \/
  (isopenfor x a.(aop) = false /\ o = Some x).

Definition opened (w : World) (al : list Alt) : Prop :=
  exists i a ch x, entry al i a ch /\ w.(chans) !! ch = Some x /\ isopenfor x a.(aop) = true.

Lemma is_op_dec a : is_op a \/ ~ is_op a.
Proof. unfold is_op. destruct (aop a); intuition congruence. Qed.

Lemma same_alt_op a b : same_alt a b -> is_op b <-> is_op a.
Proof. intros (_ & _ & H). unfold is_op. by rewrite H. Qed.

Lemma same_array_lookup al al' i b : same_array al al' -> al' !! i = Some b -> exists a, al !! i = Some a /\ same_alt a b.
Proof. intros H Hb. apply Forall2_flip in H. destruct (Forall2_lookup_l _ _ _ _ _ H Hb) as (a & Ha & Hs). eauto. Qed.

Lemma same_array_lookup_l al al' i a : same_array al al' -> al !! i = Some a -> exists b, al' !! i = Some b /\ same_alt a b.
Proof. intros H Ha. destruct (Forall2_lookup_l _ _ _ _ _ H Ha) as (b & Hb & Hs). eauto. Qed.

Lemma same_entry al al' i b ch : same_array al al' -> entry al' i b ch -> exists a, entry al i a ch /\ same_alt a b.
Proof.
  intros H (Hb & Ho & Hc). destruct (same_array_lookup _ _ _ _ H Hb) as (a & Ha & Hs). exists a.
  destruct Hs as (H1 & H2 & H3). split; [|done]. split_and!; [done|unfold is_op in *; by rewrite <- H3|by rewrite <- H1].
Qed.
Lemma same_entry_l al al' i a ch : same_array al al' -> entry al i a ch -> exists b, entry al' i b ch /\ same_alt a b.
Proof.
  intros H (Ha & Ho & Hc). destruct (same_array_lookup_l _ _ _ _ H Ha) as (b & Hb & Hs). exists b.
  destruct Hs as (H1 & H2 & H3). split; [|done]. split_and!; [done|unfold is_op in *; by rewrite H3|by rewrite H1].
Qed.

Lemma same_array_trans a b c : same_array a b -> same_array b c -> same_array a c.
Proof.
  intros H1 H2. apply Forall2_same_length_lookup_2.
  - rewrite (Forall2_length _ _ _ H1). by apply (Forall2_length _ _ _ H2).
  - intros i x y Hx Hy. destruct (same_array_lookup_l _ _ _ _ H1 Hx) as (z & Hz & (A1 & A2 & A3)).
    destruct (same_array_lookup_l _ _ _ _ H2 Hz) as (y' & Hy' & (B1 & B2 & B3)). simplify_eq. split_and!; congruence.
Qed.

Lemma same_array_insert l i a b : l !! i = Some a -> same_alt a b -> same_array l (<[i := b]> l).
Proof.
  intros Ha Hs. rewrite <- (list_insert_id l i a) at 1 by done. apply Forall2_insert; [apply same_array_refl|done].
Qed.

Lemma same_distinct al al' : same_array al al' -> distinct al -> distinct al'.
Proof.
  intros H Hd i j a b ch Hi Hj. destruct (same_entry _ _ _ _ _ H Hi) as (a' & Ha & _).
  destruct (same_entry _ _ _ _ _ H Hj) as (b' & Hb & _). by eapply Hd.
Qed.
Lemma same_named al al' : same_array al al' -> named al -> named al'.
Proof.
  intros H Hn i b Hb Ho. destruct (same_array_lookup _ _ _ _ H Hb) as (a & Ha & Hs). destruct (Hn i a Ha) as [ch Hch].
  { by apply (same_alt_op _ _ Hs). } destruct Hs as (-> & _). eauto.
Qed.
Lemma same_ended nb al al' : same_array al al' -> ended nb al' = ended nb al.
Proof.
  induction 1 as [|a b al al' (H1 & H2 & H3) Hl IH]; [done|]. simpl. rewrite H3, IH. destruct Hl; [done|].
  by destruct (aop a).
Qed.

Definition enqueue_post (w : World) (t : Z) (i : nat) (l : list Alt) (wt : bool) (ca : option nat)
    (wt' : bool) (ca' : option nat) (m : gmap Z Channel) (lf : list Alt) : Prop :=
  same_array l lf /\ (forall j, (j < i)%nat -> lf !! j = l !! j) /\
  (forall j a ch, (i <= j)%nat -> entry lf j a ch -> exists x, w.(chans) !! ch = Some x /\ entered t j a x (m !! ch)) /\
  (forall ch, (forall j a, (i <= j)%nat -> ~ entry l j a ch) -> m !! ch = w.(chans) !! ch) /\
  (wt = true -> wt' = true) /\ (wt' = false -> m = w.(chans)) /\
  (forall k, ca' = Some k -> ca = Some k \/ exists a, l !! k = Some a /\ is_op a).

(** The first operation is passed over. *)
Lemma enqueue_skip w t i l wt ca ca0 wt' ca' m lf a :
  l !! i = Some a -> (forall ch, ~ entry l i a ch) \/
    (exists ch x, entry l i a ch /\ w.(chans) !! ch = Some x /\ isopenfor x a.(aop) = false /\
       forall j b, (S i <= j)%nat -> ~ entry l j b ch) ->
  (forall k, ca0 = Some k -> ca = Some k \/ (k = i /\ is_op a)) ->
  enqueue_post w t (S i) l wt ca0 wt' ca' m lf -> enqueue_post w t i l wt ca wt' ca' m lf.
Proof.
  intros Ha Hcase Hca (H1 & H2 & H3 & H4 & H5 & H6 & H7). split_and!; try done.
  - intros j Hj. apply H2. lia.
  - intros j b ch Hj He. destruct (decide (j = i)) as [->|Hne]; [|apply H3; [lia|done]].
    assert (He' := He). destruct He' as (Hb & He'). rewrite (H2 i ltac:(lia)), Ha in Hb. injection Hb as <-.
    destruct Hcase as [Hno|(ch0 & x & He0 & Hx & Hop & Hothers)]; [by destruct (Hno ch)|].
    destruct He0 as (_ & _ & Hc0), He as (_ & _ & Hc). rewrite Hc in Hc0. injection Hc0 as <-.
    exists x. split; [done|]. right. split; [done|]. rewrite <- Hx. by apply H4.
  - intros ch Hno. apply H4. intros j b Hj. apply Hno. lia.
  - intros k Hk. destruct (H7 k Hk) as [H|H]; [|by right]. destruct (Hca k H) as [->|[-> Ho]]; [by left|right; eauto].
Qed.

Lemma enqueue_step w t i l wt ca wt' ca' m lf a ch x q' :
  l !! i = Some a -> entry l i a ch -> w.(chans) !! ch = Some x -> isopenfor x a.(aop) = true -> qadd x.(qentry) q' (t, i) ->
  (forall j b, (S i <= j)%nat -> ~ entry l j b ch) ->
  enqueue_post (upd w (<[ch := set_q q' x]> w.(chans)) t (MkFrame (<[i := set_tag (Some t) a]> l) Tnil)) t (S i)
    (<[i := set_tag (Some t) a]> l) true ca wt' ca' m lf ->
  enqueue_post w t i l wt ca wt' ca' m lf.
Proof.
  intros Ha He Hx Hop Hq Hothers (H1 & H2 & H3 & H4 & H5 & H6 & H7). simpl in *.
  assert (Hsame : same_array l (<[i := set_tag (Some t) a]> l)) by (by eapply same_array_insert).
  assert (Hlen : (i < length l)%nat) by (by eapply lookup_lt_Some).
  assert (Hch : m !! ch = Some (set_q q' x)).
  { rewrite H4; [apply lookup_insert_eq|]. intros j b Hj (Hb & Hrest). rewrite list_lookup_insert_ne in Hb by lia. by apply (Hothers j b Hj). }
  split_and!.
  - by eapply same_array_trans.
  - intros j Hj. rewrite H2 by lia. apply list_lookup_insert_ne. lia.
  - intros j b ch' Hj He'. destruct (decide (j = i)) as [->|Hne].
    + assert (Hb : b = set_tag (Some t) a).
      { destruct He' as [Hb _]. rewrite (H2 i ltac:(lia)), list_lookup_insert_eq in Hb by done. by injection Hb. }
      subst b. destruct He as (_ & _ & Hc), He' as (_ & _ & Hc'). simpl in Hc'. rewrite Hc in Hc'. injection Hc' as <-.
      exists x. split; [done|]. left. split; [done|]. split; [done|]. by exists q'.
    + destruct (H3 j b ch' ltac:(lia) He') as (x' & Hx' & Hent). exists x'. split; [|done].
      rewrite lookup_insert_ne in Hx'; [done|]. intros <-.
      destruct (same_entry _ _ _ _ _ H1 He') as (b' & (Hb & Hrest) & _). rewrite list_lookup_insert_ne in Hb by lia.
      apply (Hothers j b'); [lia|done].
  - intros ch' Hno. assert (ch' <> ch) by (intros ->; by apply (Hno i a)).
    rewrite H4; [by rewrite lookup_insert_ne|]. intros j b Hj (Hb & Hrest). rewrite list_lookup_insert_ne in Hb by lia.
    apply (Hno j b); [lia|done].
  - intros _. by apply H5.
  - intros Hw. rewrite H5 in Hw; done.
  - intros k Hk. destruct (H7 k Hk) as [H|(b & Hb & Ho)]; [by left|]. right.
    destruct (decide (k = i)) as [->|Hne]; [exists a; by destruct He as (_ & ? & _)|]. rewrite list_lookup_insert_ne in Hb by done. eauto.
Qed.

Lemma drop_cons {A} (l : list A) i x k : drop i l = x :: k -> l !! i = Some x /\ drop (S i) l = k.
Proof.
  intros H. assert (Hi : l !! i = Some x). { rewrite <- (Nat.add_0_r i), <- lookup_drop, H. done. }
  split; [done|]. rewrite (drop_S l x i Hi) in H. by injection H.
Qed.

Lemma enqueue_op xa al t i wt ca cl : is_op xa -> enqueue_all (xa :: al) t i wt ca cl =
  (c ← nonnil xa.(ac);
   x ← deref chans c;
   if isopenfor x xa.(aop) then enqueue (t, i) t;; enqueue_all al t (S i) true ca cl
   else if negb (bool_decide (xa.(aerr) = Errcl)) then enqueue_all al t (S i) wt (Some i) cl
   else enqueue_all al t (S i) wt ca true).
Proof. intros [H|H]; cbn [enqueue_all]; rewrite H; reflexivity. Qed.

Lemma enqueue_all_run t al : forall w i l wt ca cl,
  w.(frames) !! t = Some (MkFrame l Tnil) -> drop i l = al -> ended false al = true -> distinct l -> named l ->
  (forall j a ch, (i <= j)%nat -> entry l j a ch -> is_Some (w.(chans) !! ch)) ->
  exists m lf wt' ca' cl', enqueue_all al t i wt ca cl w = Ok ((wt', ca', cl'), upd w m t (MkFrame lf Tnil)) /\
    enqueue_post w t i l wt ca wt' ca' m lf.
Proof.
  induction al as [|xa al IH]; intros w i l wt ca cl Hf Hd He Hdis Hnam Hch; [done|].
  apply drop_cons in Hd as [Hi Hd].
  assert (Hskip : (forall ch, ~ entry l i xa ch) -> aop xa <> CHANEND -> exists m lf wt' ca' cl',
    enqueue_all al t (S i) wt ca cl w = Ok ((wt', ca', cl'), upd w m t (MkFrame lf Tnil)) /\ enqueue_post w t i l wt ca wt' ca' m lf).
  { intros Hno Hend. destruct (IH w (S i) l wt ca cl) as (m & lf & wt' & ca' & cl' & Hrun & Hpost); try done.
    - simpl in He. by destruct (aop xa).
    - intros j a ch Hj. apply Hch. lia.
    - exists m, lf, wt', ca', cl'. split; [done|]. eapply enqueue_skip; [done|by left|by left|done]. }
  destruct (is_op_dec xa) as [Hop|Hop].
  - assert (Hend : ended false al = true) by (destruct Hop as [Ho|Ho]; simpl in He; by rewrite Ho in He).
    destruct (Hnam i xa Hi Hop) as [ch Hc]. assert (Hent : entry l i xa ch) by (by split_and!).
    destruct (Hch i xa ch ltac:(lia) Hent) as [x Hx].
    assert (Hothers : forall j b, (S i <= j)%nat -> ~ entry l j b ch).
    { intros j b Hj Hb. assert (i = j) by (by eapply Hdis). lia. }
    rewrite enqueue_op by done. erewrite eff_bind_ok by (by apply nonnil_run). eff_prim.
    destruct (isopenfor x (aop xa)) eqn:Hopen.
    + destruct (enqueue_run w t i _ xa ch x Hf Hi Hc Hx) as (q' & Hq & Hrun). eff_with Hrun. simpl.
      match goal with |- context [enqueue_all al t (S i) true ca cl ?w1] =>
        destruct (IH w1 (S i) (<[i := set_tag (Some t) xa]> l) true ca cl) as (m & lf & wt' & ca' & cl' & Hrun2 & Hpost) end.
      * apply upd_frame.
      * rewrite drop_insert_lt by lia. done.
      * done.
      * eapply same_distinct; [|done]. by eapply same_array_insert.
      * eapply same_named; [|done]. by eapply same_array_insert.
      * intros j a ch' Hj (Ha & Hrest). rewrite list_lookup_insert_ne in Ha by lia. simpl.
        apply lookup_insert_is_Some'. right. apply (Hch j a); [lia|done].
      * rewrite upd_upd in Hrun2. exists m, lf, wt', ca', cl'. split; [done|]. by eapply enqueue_step.
    + assert (Hnext : forall ca0 cl0, (forall k, ca0 = Some k -> ca = Some k \/ (k = i /\ is_op xa)) -> exists m lf wt' ca' cl',
        enqueue_all al t (S i) wt ca0 cl0 w = Ok ((wt', ca', cl'), upd w m t (MkFrame lf Tnil)) /\ enqueue_post w t i l wt ca wt' ca' m lf).
      { intros ca0 cl0 Hca. destruct (IH w (S i) l wt ca0 cl0) as (m & lf & wt' & ca' & cl' & Hrun & Hpost); try done.
        - intros j a ch' Hj. apply Hch. lia.
        - exists m, lf, wt', ca', cl'. split; [done|]. eapply enqueue_skip; [done| |done|done]. right. by exists ch, x. }
      destruct (bool_decide (aerr xa = Errcl)); simpl; apply Hnext; [by left|]. intros k [= <-]. by right.
  - assert (Hno : forall ch, ~ entry l i xa ch) by (intros ch (_ & H & _); done).
    unfold is_op in Hop. destruct (aop xa) eqn:Ho; try tauto.
    + exists w.(chans), l, wt, ca, cl. split.
      { cbn [enqueue_all]. rewrite Ho. by rewrite upd_same. }
      simpl in He. rewrite Ho in He. simpl in He. apply bool_decide_eq_true in He. subst al.
      assert (Hlen : forall j b, (i <= j)%nat -> l !! j = Some b -> j = i).
      { intros j b Hj Hb. assert (Hlt : (j < length l)%nat) by (by eapply lookup_lt_Some).
        assert (length (drop (S i) l) = O) by (by rewrite He). rewrite length_drop in H. lia. }
      split_and!; try done; [apply same_array_refl| |by left].
      intros j a ch Hj (Ha & Hrest). rewrite (Hlen j a Hj Ha) in Ha. rewrite Hi in Ha. injection Ha as <-. by destruct (Hno ch).
    + cbn [enqueue_all]. rewrite Ho. by apply Hskip.
    + simpl in He. by rewrite Ho in He.
Qed.

(** ** Leaving a queue *)

Lemma index_of_spec p q : match index_of p q with Some i => (i < length q)%nat /\ qat q i = Some p | None => ~ queued q p end.
Proof.
  induction q as [|x q IH]; simpl; [intros [j Hj]; by destruct j|].
  destruct (decide (x = Some p)) as [->|Hne]; [split; [lia|done]|].
  destruct (index_of p q) as [i|]; simpl; [destruct IH; split; [lia|done]|]. by intros [H|H]%queued_cons.
Qed.

Lemma existsb_queued q : if existsb full_entry q then exists p, queued q p else forall p, ~ queued q p.
Proof.
  induction q as [|[p|] q IH]; simpl; [intros p [j Hj]; by destruct j|exists p; by exists O|].
  destruct (existsb full_entry q); [destruct IH as [p Hp]; exists p|intros p]; rewrite queued_cons; [by right|by intros [H|H]; [|destruct (IH p)]].
Qed.

(** [_chanfree] on a channel: what becomes of it. *)
Definition released (x : Channel) (o : option Channel) : Prop :=
  (o = Some (set_freed true x) /\ (x.(closed) = 1 \/ exists p, queued x.(qentry) p)) \/
  (o = None /\ x.(closed) <> 1 /\ forall p, ~ queued x.(qentry) p).

Definition altered (w : World) (ch : Z) (o : option Channel) : World :=
  MkWorld (partial_alter (fun _ => o) ch w.(chans)) w.(frames) w.(blocks) w.(log).

Lemma chanfree_run w ch x : w.(chans) !! ch = Some x -> exists o, _chanfree ch w = Ok (tt, altered w ch o) /\ released x o.
Proof.
  intros Hx. unfold _chanfree. eff_prim. unfold released, altered.
  destruct (Z.eqb_spec x.(closed) 1) as [Hc|Hc]; simpl; [eexists; split; [reflexivity|]; left; auto|].
  assert (H := existsb_queued x.(qentry)). destruct (existsb full_entry x.(qentry)).
  - eexists. split; [reflexivity|]. left. auto.
  - exists None. split; [reflexivity|]. right. auto.
Qed.

Lemma set_freed_same x : x.(freed) = true -> set_freed true x = x.
Proof. destruct x; simpl. by intros ->. Qed.

Lemma altered_id w ch x : w.(chans) !! ch = Some x -> altered w ch (Some x) = w.
Proof. intros H. unfold altered. change (partial_alter _ ch w.(chans)) with (<[ch := x]> w.(chans)). rewrite insert_id by done. by destruct w. Qed.

Lemma altered_altered w ch o o' : altered (altered w ch o) ch o' = altered w ch o'.
Proof. unfold altered. simpl. by rewrite partial_alter_partial_alter_eq. Qed.

Lemma altered_chan w ch o : (altered w ch o).(chans) !! ch = o.
Proof. simpl. by rewrite lookup_partial_alter_eq. Qed.
Lemma altered_chan_ne w ch o ch' : ch' <> ch -> (altered w ch o).(chans) !! ch' = w.(chans) !! ch'.
Proof. intros H. simpl. by rewrite lookup_partial_alter_ne. Qed.

Lemma dequeue_run w t i fr a ch x : w.(frames) !! t = Some fr -> fr.(alts) !! i = Some a -> a.(ac) = Some ch ->
  w.(chans) !! ch = Some x ->
  exists o, dequeue (t, i) w = Ok (tt, altered w ch o) /\ taken_off x (t, i) o.
Proof.
  intros Hf Ha Hc Hx. unfold dequeue. eff_with (geta_run _ _ _ _ _ Hf Ha). erewrite eff_bind_ok by (by apply nonnil_run). eff_prim.
  assert (Hi := index_of_spec (t, i) x.(qentry)). destruct (index_of (t, i) x.(qentry)) as [j|].
  2: { exists (Some x). split; [by rewrite altered_id|]. by left. }
  destruct Hi as [Hj Hq]. set (q' := <[j := None]> x.(qentry)).
  assert (Hdel : qdel x.(qentry) q' (t, i)) by (exists j; split; [done|]; intros k; by apply qat_insert).
  change (putc ch (set_q q' x)) with (fun w : World => Ok (tt, altered w ch (Some (set_q q' x)))).
  erewrite eff_bind_ok; [|reflexivity]. cbv beta iota.
  destruct (freed x && negb (closed x =? 1)) eqn:Hb.
  - apply andb_true_iff in Hb as [Hfr Hcl]. apply negb_true_iff, Z.eqb_neq in Hcl.
    destruct (chanfree_run (altered w ch (Some (set_q q' x))) ch (set_q q' x)) as (o & Hrun & Ho); [apply altered_chan|].
    rewrite altered_altered in Hrun. exists o. split; [done|]. right. exists q'. split; [done|].
    destruct Ho as [[-> H]|(-> & H1 & H2)]; [left|right; auto]. rewrite set_freed_same by done. split; [done|]. by intros _.
  - exists (Some (set_q q' x)). split; [done|]. right. exists q'. split; [done|]. left. split; [done|].
    intros Hfr. rewrite Hfr in Hb. simpl in Hb. apply negb_false_iff, Z.eqb_eq in Hb. by left.
Qed.

(** What the loop leaves: the channels, with every entry taken off, the array,
    and the index of the last operation whose channel is [c]. *)
Definition answered (r : rv) : errp := if decide (r = Closed) then Errcl else Noerr.

Definition dequeue_post (w : World) (t : Z) (i : nat) (l : list Alt) (c : tagv) (r : rv) (a a' : option nat)
    (m : gmap Z Channel) (lf : list Alt) : Prop :=
  same_array l lf /\ (forall b, Forall (fun x => x.(atag) = b) l -> Forall (fun x => x.(atag) = b) lf) /\
  (forall j a ch x, (i <= j)%nat -> entry l j a ch -> w.(chans) !! ch = Some x -> taken_off x (t, j) (m !! ch)) /\
  (forall ch, (forall j a, (i <= j)%nat -> ~ entry l j a ch) -> m !! ch = w.(chans) !! ch) /\
  (a' = a \/ exists k b ch, a' = Some k /\ entry l k b ch /\ c = Tchan ch) /\
  (forall j b ch, (i <= j)%nat -> entry l j b ch -> c = Tchan ch -> a' <> None) /\
  (forall j, (j < i)%nat -> lf !! j = l !! j) /\
  (forall j b ch, (i <= j)%nat -> entry l j b ch -> c = Tchan ch -> exists b', lf !! j = Some b' /\ b'.(aerr) = answered r).

Lemma dequeue_op xa al t i c r a : is_op xa -> dequeue_all (xa :: al) t i c r a =
  (let sel := bool_decide (c = match xa.(ac) with Some k => Tchan k | None => Tnil end) in
   (if sel then x ← geta (t, i); puta (t, i) (set_err (if decide (r = Closed) then Errcl else Noerr) x)
    else mret tt);;
   dequeue (t, i);;
   dequeue_all al t (S i) c r (if sel then Some i else a)).
Proof. intros [H|H]; cbn [dequeue_all]; rewrite H; reflexivity. Qed.

(** Answering the selected operation. *)
Lemma select_run w t i fr a b r : w.(frames) !! t = Some fr -> fr.(alts) !! i = Some a ->
  exists a', (if (b : bool) then x ← geta (t, i); puta (t, i) (set_err (if decide (r = Closed) then Errcl else Noerr) x) else mret tt) w =
    Ok (tt, upd w w.(chans) t (MkFrame (<[i := a']> fr.(alts)) fr.(tagc))) /\
    same_alt a a' /\ a'.(atag) = a.(atag) /\ (b = true -> a'.(aerr) = answered r).
Proof.
  intros Hf Ha. destruct b.
  - eexists. split; [eff_with (geta_run _ _ _ _ _ Hf Ha); by apply puta_run|by split_and!].
  - exists a. split; [|by split_and!]. rewrite list_insert_id by done. destruct fr. by rewrite upd_same.
Qed.

Lemma upd_altered w m t fr ch o : altered (upd w m t fr) ch o = upd w (partial_alter (fun _ => o) ch m) t fr.
Proof. done. Qed.

Lemma taken_skip w t i l c r a a' m lf xa : l !! i = Some xa -> ~ is_op xa ->
  dequeue_post w t (S i) l c r a a' m lf -> dequeue_post w t i l c r a a' m lf.
Proof.
  intros Hi Hno (H1 & H2 & H3 & H4 & H5 & H6 & H7 & H8).
  assert (Hne : forall j b ch, entry l j b ch -> (i <= j)%nat -> (S i <= j)%nat).
  { intros j b ch (Hb & Ho & _) Hj. destruct (decide (j = i)) as [->|]; [|lia]. exfalso. simplify_eq. by apply Hno. }
  split_and!; try done.
  - intros j b ch x Hj He Hx. eapply H3; [by eapply Hne|done|done].
  - intros ch Hn. apply H4. intros j b Hj. apply Hn. lia.
  - intros j b ch Hj He. eapply H6; [by eapply Hne|done].
  - intros j Hj. apply H7. lia.
  - intros j b ch Hj He. eapply H8; [by eapply Hne|done].
Qed.

Lemma taken_step w t i l c r k a a' m lf xa xb ch x o :
  entry l i xa ch -> w.(chans) !! ch = Some x -> distinct l -> taken_off x (t, i) o -> same_alt xa xb -> xb.(atag) = xa.(atag) -> (c = Tchan ch -> xb.(aerr) = answered r) ->
  dequeue_post (upd w (partial_alter (fun _ => o) ch w.(chans)) t (MkFrame (<[i := xb]> l) k)) t (S i) (<[i := xb]> l) c r
    (if bool_decide (c = Tchan ch) then Some i else a) a' m lf ->
  dequeue_post w t i l c r a a' m lf.
Proof.
  intros He Hx Hdis Ho Hs Htag Herr (H1 & H2 & H3 & H4 & H5 & H6 & H7 & H8). simpl in *.
  assert (Hi : l !! i = Some xa) by apply He.
  assert (Hsame : same_array l (<[i := xb]> l)) by (by eapply same_array_insert).
  assert (Hge : forall j b ch', (S i <= j)%nat -> entry (<[i := xb]> l) j b ch' <-> entry l j b ch').
  { intros j b ch' Hj. unfold entry. rewrite list_lookup_insert_ne by lia. done. }
  assert (Hothers : forall j b, (S i <= j)%nat -> ~ entry l j b ch).
  { intros j b Hj Hb. assert (i = j) by (by eapply Hdis). lia. }
  assert (Hch : m !! ch = o).
  { rewrite H4; [apply lookup_partial_alter_eq|]. intros j b Hj. rewrite Hge by done. by apply Hothers. }
  split_and!.
  - by eapply same_array_trans.
  - intros b Hb. apply H2. apply Forall_insert; [done|]. rewrite Htag. by eapply Forall_lookup_1 in Hb.
  - intros j b ch' x' Hj He' Hx'. destruct (decide (j = i)) as [->|Hne].
    + destruct He as (_ & _ & Hc), He' as (Hb & _ & Hc'). rewrite Hi in Hb. injection Hb as <-.
      rewrite Hc in Hc'. injection Hc' as <-. rewrite Hx in Hx'. injection Hx' as <-. by rewrite Hch.
    + apply (H3 j b ch' x'); [lia|apply Hge; [lia|done]|]. rewrite lookup_partial_alter_ne; [done|].
      intros <-. apply (Hothers j b); [lia|done].
  - intros ch' Hno. assert (ch' <> ch) by (intros ->; by apply (Hno i xa)).
    rewrite H4; [by rewrite lookup_partial_alter_ne|]. intros j b Hj. rewrite Hge by done. apply Hno. lia.
  - destruct H5 as [->|(n & b & ch' & -> & Hb & Hc)].
    + case_bool_decide as Hsel; [|by left]. right. exists i, xa, ch. by split_and!.
    + right. destruct (same_entry _ _ _ _ _ Hsame Hb) as (b' & Hb' & _). by exists n, b', ch'.
  - intros j b ch' Hj Hb Hc. destruct (decide (j = i)) as [->|Hne].
    + destruct He as (_ & _ & Hc1), Hb as (Hb & _ & Hc2). rewrite Hi in Hb. injection Hb as <-. simplify_eq.
      destruct H5 as [->|(n & ? & ? & -> & _)]; [|done]. by rewrite bool_decide_true.
    + apply (H6 j b ch'); [lia|apply Hge; [lia|done]|done].
  - intros j Hj. rewrite H7 by lia. by rewrite list_lookup_insert_ne by lia.
  - intros j b ch' Hj Hb Hc. destruct (decide (j = i)) as [->|Hne]; [|apply (H8 j b ch'); [lia|apply Hge; [lia|done]|done]].
    exists xb. rewrite H7 by lia. split; [apply list_lookup_insert_eq; by eapply lookup_lt_Some|].
    apply Herr. destruct He as (_ & _ & Hc1), Hb as (Hb & _ & Hc2). congruence.
Qed.

Lemma dequeue_all_run t c r k al : forall w i l a,
  w.(frames) !! t = Some (MkFrame l k) -> drop i l = al -> ended false al = true -> distinct l -> named l ->
  (forall j b ch, (i <= j)%nat -> entry l j b ch -> is_Some (w.(chans) !! ch)) ->
  exists m lf a', dequeue_all al t i c r a w = Ok (a', upd w m t (MkFrame lf k)) /\ dequeue_post w t i l c r a a' m lf.
Proof.
  induction al as [|xa al IH]; intros w i l a Hf Hd He Hdis Hnam Hch; [done|].
  apply drop_cons in Hd as [Hi Hd]. destruct (is_op_dec xa) as [Hop|Hop].
  - assert (Hend : ended false al = true) by (destruct Hop as [Ho|Ho]; simpl in He; by rewrite Ho in He).
    destruct (Hnam i xa Hi Hop) as [ch Hc]. assert (Hent : entry l i xa ch) by (by split_and!).
    destruct (Hch i xa ch ltac:(lia) Hent) as [x Hx]. rewrite dequeue_op by done. rewrite Hc. cbv zeta.
    destruct (select_run w t i _ xa (bool_decide (c = Tchan ch)) r Hf Hi) as (xb & Hrun & Hs & Htag & Herr). eff_with Hrun. simpl.
    assert (Hlen : (i < length l)%nat) by (by eapply lookup_lt_Some).
    destruct (dequeue_run (upd w w.(chans) t (MkFrame (<[i := xb]> l) k)) t i _ xb ch x (upd_frame _ _ _ _)) as (o & Hrun2 & Ho).
    { by apply list_lookup_insert_eq. } { by destruct Hs as (-> & _). } { done. }
    eff_with Hrun2. rewrite upd_altered.
    match goal with |- context [dequeue_all al t (S i) c r ?a1 ?w1] =>
      destruct (IH w1 (S i) (<[i := xb]> l) a1) as (m & lf & a' & Hrun3 & Hpost) end.
    + apply upd_frame.
    + by rewrite drop_insert_lt by lia.
    + done.
    + eapply same_distinct; [|done]. by eapply same_array_insert.
    + eapply same_named; [|done]. by eapply same_array_insert.
    + intros j b ch' Hj (Hb & Hrest). rewrite list_lookup_insert_ne in Hb by lia. simpl.
      rewrite lookup_partial_alter_ne; [apply (Hch j b); [lia|done]|]. intros <-.
      assert (i = j) by (by eapply Hdis). lia.
    + rewrite upd_upd in Hrun3. exists m, lf, a'. split; [done|]. eapply taken_step; try done. intros Hcc. apply Herr. by apply bool_decide_eq_true.
  - assert (Hno := Hop). unfold is_op in Hop. destruct (aop xa) eqn:Ho; try tauto.
    + exists w.(chans), l, a. split; [cbn [dequeue_all]; rewrite Ho; by rewrite upd_same|].
      simpl in He. rewrite Ho in He. simpl in He. apply bool_decide_eq_true in He. subst al.
      assert (Hlen : forall j b, (i <= j)%nat -> l !! j = Some b -> b = xa).
      { intros j b Hj Hb. assert (Hlt : (j < length l)%nat) by (by eapply lookup_lt_Some).
        assert (length (drop (S i) l) = O) by (by rewrite He). rewrite length_drop in H.
        replace j with i in Hb by lia. rewrite Hi in Hb. by injection Hb. }
      split_and!; try done; [apply same_array_refl| |by left| |].
      * intros j b ch x Hj (Hb & Hob & _). by rewrite (Hlen j b Hj Hb) in Hob.
      * intros j b ch Hj (Hb & Hob & _). by rewrite (Hlen j b Hj Hb) in Hob.
      * intros j b ch Hj (Hb & Hob & _). by rewrite (Hlen j b Hj Hb) in Hob.
    + destruct (IH w (S i) l a) as (m & lf & a' & Hrun & Hpost); try done.
      * simpl in He. by rewrite Ho in He.
      * intros j b ch Hj. apply Hch. lia.
      * exists m, lf, a'. split; [cbn [dequeue_all]; by rewrite Ho|]. by eapply taken_skip.
    + simpl in He. by rewrite Ho in He.
Qed.

(** ** Closing *)

Definition committed (w : World) (u : Z) (fr : Frame) (c : Z) : World :=
  MkWorld w.(chans) (<[u := MkFrame fr.(alts) (Tchan c)]> w.(frames)) w.(blocks) w.(log).

(** The entry that the loop answers is the first that is not committed. *)
Definition close_post (w : World) (c : Z) (q : list (option aptr)) (i : nat) (r : option (Z * nat)) (w' : World) : Prop :=
  match r with
  | None => w' = w /\ forall k p, qat q k = Some p -> ~ unc w p
  | Some (u, j) => exists k jj fr, j = (i + k)%nat /\ qat q k = Some (u, jj) /\ w.(frames) !! u = Some fr /\ fr.(tagc) = Tnil /\
      (forall k' p, (k' < k)%nat -> qat q k' = Some p -> ~ unc w p) /\ w' = committed w u fr c
  end.

Lemma close_skip w c x q i r w' : (forall p, x = Some p -> ~ unc w p) ->
  close_post w c q (S i) r w' -> close_post w c (x :: q) i r w'.
Proof.
  intros Hx. destruct r as [[u j]|]; simpl.
  - intros (k & jj & fr & -> & Hq & Hf & Ht & Hk & ->). exists (S k), jj, fr. split_and!; [lia|done|done|done| |done].
    intros [|k'] p Hlt Hp; [by apply Hx|]. apply (Hk k'); [lia|done].
  - intros [-> Hk]. split; [done|]. intros [|k] p Hp; [by apply Hx|by apply (Hk k)].
Qed.

Lemma gettag_run w a t fr : a.(atag) = Some t -> w.(frames) !! t = Some fr -> gettag a w = Ok (fr.(tagc), w).
Proof. intros Ha Hf. unfold gettag. rewrite Ha. unfold nonnil. eff_prim. by eff_prim. Qed.

Lemma puttag_run w a t fr c : a.(atag) = Some t -> w.(frames) !! t = Some fr -> puttag a (Tchan c) w = Ok (tt, committed w t fr c).
Proof. intros Ha Hf. unfold puttag. rewrite Ha. unfold nonnil. eff_prim. by eff_prim. Qed.

Lemma close_loop_run w c x q : forall i, w.(chans) !! c = Some x -> goodq w q -> (blocked w q CHANRCV -> x.(ch_n) = 0) ->
  exists r w', close_loop c q i w = Ok (r, w') /\ close_post w c q i r w'.
Proof.
  induction q as [|p q IH]; intros i Hx Hg Hn; [by exists None, w|].
  apply goodq_cons in Hg as [Hp Hg].
  destruct (IH (S i) Hx Hg) as (r & w' & Hrun & Hpost); [intros Hb; apply Hn, blocked_cons; by right|].
  destruct p as [p|]; [|exists r, w'; split; [done|]; by apply close_skip].
  destruct (Hp p eq_refl) as (fr & a & Hf & Ha & Ho & Ht). destruct p as [u jj]. simpl in *.
  eff_with (geta_run _ _ _ _ _ Hf Ha). eff_with (gettag_run _ _ _ _ Ht Hf).
  case_bool_decide as Htag; simpl.
  - eff_prim. assert (Hb : negb (bool_decide (aop a = CHANSND)) && (negb (bool_decide (aop a = CHANRCV)) || negb (ch_n x =? 0)) = false).
    { destruct Ho as [Ho|Ho]; rewrite Ho; [done|]. simpl. rewrite Hn; [done|]. exists (u, jj). split; [by exists O|].
      split; [by exists fr|by exists fr, a]. }
    rewrite Hb. eff_with (puttag_run _ _ _ _ c Ht Hf). rewrite Ht. unfold nonnil. eff_prim.
    eexists _, _. split; [reflexivity|]. exists O, jj, fr. split_and!; [lia|done|done|done|intros; lia|done].
  - exists r, w'. split; [done|]. apply close_skip; [|done]. intros ? [= <-] (fr' & Hf' & Ht'). simpl in Hf'.
    rewrite Hf in Hf'. by injection Hf' as <-.
Qed.

Lemma qat_drop q i k : qat (drop i q) k = qat q (i + k).
Proof. unfold qat. by rewrite lookup_drop. Qed.

Lemma close_from_run w c x i : w.(chans) !! c = Some x -> x.(closed) = 1 -> goodq w x.(qentry) ->
  (blocked w x.(qentry) CHANRCV -> x.(ch_n) = 0) ->
  exists r w', close_from c i w = Ok (r, w') /\
    match r with
    | Some (u, j) => exists jj fr, (i <= j)%nat /\ qat x.(qentry) j = Some (u, jj) /\ w.(frames) !! u = Some fr /\ fr.(tagc) = Tnil /\
        (forall k p, (i <= k < j)%nat -> qat x.(qentry) k = Some p -> ~ unc w p) /\ w' = committed w u fr c
    | None => (forall k p, (i <= k)%nat -> qat x.(qentry) k = Some p -> ~ unc w p) /\
        exists o, w' = altered w c o /\
          ((o = Some (set_closed 2 x) /\ (x.(freed) = true -> exists p, queued x.(qentry) p)) \/
           (o = None /\ x.(freed) = true /\ forall p, ~ queued x.(qentry) p))
    end.
Proof.
  intros Hx Hcl Hg Hn. unfold close_from. eff_prim.
  assert (Hsub : forall p, queued (drop i x.(qentry)) p -> queued x.(qentry) p).
  { intros p [k Hk]. exists (i + k)%nat. by rewrite <- qat_drop. }
  destruct (close_loop_run w c x (drop i x.(qentry)) i Hx) as (r & w' & Hrun & Hpost).
  { intros p Hp. by apply Hg, Hsub. } { intros (p & Hp & H). apply Hn. exists p. auto. }
  eff_with Hrun. destruct r as [[u j]|].
  - destruct Hpost as (k & jj & fr & -> & Hq & Hf & Ht & Hk & ->). eexists _, _. split; [reflexivity|]. exists jj, fr.
    rewrite qat_drop in Hq. split_and!; [lia|done|done|done| |done]. intros k' p Hk' Hp. apply (Hk (k' - i)%nat); [lia|].
    rewrite qat_drop. by replace (i + (k' - i))%nat with k' by lia.
  - destruct Hpost as [-> Hk]. eff_prim.
    change (putc c (set_closed 2 x)) with (fun w : World => Ok (tt, altered w c (Some (set_closed 2 x)))).
    erewrite eff_bind_ok; [|reflexivity]. cbv beta iota.
    assert (Hno : forall k p, (i <= k)%nat -> qat x.(qentry) k = Some p -> ~ unc w p).
    { intros k p Hik Hp. apply (Hk (k - i)%nat). rewrite qat_drop. by replace (i + (k - i))%nat with k by lia. }
    destruct (freed x) eqn:Hfr.
    + destruct (chanfree_run (altered w c (Some (set_closed 2 x))) c (set_closed 2 x)) as (o & Hrun2 & Ho); [apply altered_chan|].
      rewrite altered_altered in Hrun2. eff_with Hrun2. exists None, (altered w c o). split; [done|]. split; [done|].
      exists o. split; [done|]. destruct Ho as [[-> [H|H]]|(-> & H1 & H2)]; [done| |by right].
      left. split; [|done]. f_equal. by destruct x; simpl in Hfr; subst.
    + eff_prim. eexists None, _. split; [reflexivity|]. split; [done|]. exists (Some (set_closed 2 x)). split; [done|]. by left.
Qed.
