(* ===== verification/ChanCopy.v ===== *)
(** Executing an operation of a channel: the circular buffer as a queue, copying
    values, and [altexec]. *)

From S2P Require Import Prelude Fcall Eff Chan ChanInv ChanKeep ChanRun ChanLoops.

(** ** The circular buffer *)

(** One more element may be taken: [ring] also holds afterwards. *)
Definition ring_room (f s : Z) : bool := (2 ^ 32 mod s =? 0) || (f + s <? 2 ^ 32).

Lemma ring_room_ring f s : ring_room f s = true -> ring f s.
Proof. unfold ring_room, ring. intros H. zbool; lia. Qed.

Lemma ring_next f s : 0 <= f -> 0 <= s -> ring_room f s = true -> ring (u32 (f + 1)) s.
Proof.
  unfold ring_room, ring. intros Hf Hs H. apply orb_true_iff in H as [H|H]; [left; lia|right]. apply Z.ltb_lt in H.
  destruct (decide (f + 1 < 2 ^ 32)) as [H1|H1]; [rewrite u32_small by lia; lia|].
  replace (f + 1) with (2 ^ 32) by lia. unfold u32. rewrite Z_mod_same_full. lia.
Qed.

Lemma u32_mod a s : 0 < s -> 2 ^ 32 mod s = 0 -> u32 a mod s = a mod s.
Proof. intros Hs H. unfold u32. apply Z.mod_mod_divide. apply Z.mod_divide; lia. Qed.

(** The slot of the element [j], as if counters did not wrap. *)
Lemma slot_eq f s j : 0 <= f -> 0 < s -> ring f s -> 0 <= j < s -> u32mod (f + j) s = Z.to_nat ((f + j) mod s).
Proof.
  intros Hf Hs [H|H] Hj; unfold u32mod; [by rewrite u32_mod|]. rewrite u32_small by lia. done.
Qed.

Lemma slot_ne f s j k : 0 <= f -> 0 < s -> ring f s -> 0 <= j < k -> k < s -> u32mod (f + j) s <> u32mod (f + k) s.
Proof.
  intros Hf Hs Hr Hj Hk. rewrite !slot_eq by (done || lia). intros E.
  apply Z2Nat.inj in E; [|apply Z.mod_pos_bound; lia..].
  assert (Hd : (f + k - (f + j)) mod s = 0). { rewrite Zminus_mod, E, Z.sub_diag. by apply Z.mod_0_l; lia. }
  replace (f + k - (f + j)) with (k - j) in Hd by lia. rewrite Z.mod_small in Hd by lia. lia.
Qed.

Lemma slot_lt f s j : 0 < s -> (u32mod (f + j) s < Z.to_nat s)%nat.
Proof. intros Hs. unfold u32mod. assert (0 <= u32 (f + j) mod s < s) by (apply Z.mod_pos_bound; lia). lia. Qed.

(** The slot of a new element, when the buffer is full, is that of the first. *)
Lemma slot_full f s : 0 <= f -> 0 < s -> ring_room f s = true -> u32mod (f + s) s = u32mod (f + 0) s.
Proof.
  intros Hf Hs H. unfold ring_room in H. apply orb_true_iff in H. unfold u32mod. f_equal. destruct H as [H|H].
  - apply Z.eqb_eq in H. rewrite !u32_mod by done. replace (f + s) with (f + 0 + 1 * s) by lia. apply Z_mod_plus_full.
  - apply Z.ltb_lt in H. rewrite !u32_small by lia. replace (f + s) with (f + 0 + 1 * s) by lia. apply Z_mod_plus_full.
Qed.

Lemma u32mod_next f j s : u32mod (u32 (f + 1) + j) s = u32mod (f + (1 + j)) s.
Proof. unfold u32mod, u32. rewrite Zplus_mod_idemp_l. by rewrite <- Z.add_assoc. Qed.

Lemma map_seqZ_shift {A} (g : Z -> A) m n : map g (seqZ (1 + m) n) = map (fun j => g (1 + j)) (seqZ m n).
Proof. rewrite <- (fmap_add_seqZ 1 m). apply map_map. Qed.

Lemma seqZ_mem j m n : In j (seqZ m n) -> m <= j < m + n.
Proof. intros H. apply list_elem_of_In, elem_of_seqZ in H. lia. Qed.

Section Ring.
Context (x : Channel) (Hok : chan_ok x).

Lemma contents_nil : x.(ch_n) = 0 -> contents x = [].
Proof. unfold contents. by intros ->. Qed.

Lemma contents_length : Zlen (contents x) = x.(ch_n).
Proof. unfold contents, Zlen. rewrite length_map, length_seqZ. destruct Hok. lia. Qed.

Lemma contents_take : 0 < x.(ch_n) ->
  contents x = nth (u32mod x.(ch_f) x.(ch_s)) x.(ch_v) [] :: contents (set_f (u32 (x.(ch_f) + 1)) (set_n (u32 (x.(ch_n) - 1)) x)).
Proof.
  intros Hn. destruct Hok. unfold contents. cbn [ch_f ch_n ch_s ch_v set_f set_n]. rewrite (u32_small (_ - 1)) by lia.
  rewrite (seqZ_cons 0) by lia. cbn [map]. rewrite Z.add_0_r. f_equal.
  change (Z.succ 0) with (1 + 0). rewrite map_seqZ_shift. rewrite <- Z.sub_1_r. apply map_ext. intros j. by rewrite u32mod_next.
Qed.

Lemma nth_insert_ne (l : list (list Z)) i j d : i <> j -> nth j (<[i := d]> l) [] = nth j l [].
Proof. intros H. rewrite !nth_lookup. by rewrite list_lookup_insert_ne. Qed.
Lemma nth_insert (l : list (list Z)) i d : (i < length l)%nat -> nth i (<[i := d]> l) [] = d.
Proof. intros H. rewrite nth_lookup. by rewrite list_lookup_insert_eq. Qed.

Lemma slot_in f j : 0 < x.(ch_s) -> (u32mod (f + j) x.(ch_s) < length x.(ch_v))%nat.
Proof. intros Hs. destruct Hok. unfold Zlen in ck_len. rewrite <- (Nat2Z.id (length _)), ck_len. by apply slot_lt. Qed.

Lemma contents_put d : x.(ch_n) < x.(ch_s) ->
  contents (set_v (<[u32mod (x.(ch_f) + x.(ch_n)) x.(ch_s) := d]> x.(ch_v)) (set_n (u32 (x.(ch_n) + 1)) x)) = contents x ++ [d].
Proof.
  intros Hn. assert (Hok' := Hok). destruct Hok'. unfold contents. cbn [ch_f ch_n ch_s ch_v set_v set_n]. rewrite u32_small by lia.
  rewrite (seqZ_app 0 x.(ch_n) 1) by lia. rewrite map_app. f_equal.
  - apply map_ext_in. intros j Hj%seqZ_mem. apply nth_insert_ne. apply not_eq_sym, slot_ne; lia || done.
  - simpl. f_equal. apply nth_insert, slot_in. lia.
Qed.

Lemma contents_swap d : 0 < x.(ch_s) -> x.(ch_n) = x.(ch_s) -> ring_room x.(ch_f) x.(ch_s) = true ->
  exists d0 l, contents x = d0 :: l /\ nth (u32mod x.(ch_f) x.(ch_s)) x.(ch_v) [] = d0 /\
    contents (set_v (<[u32mod x.(ch_f) x.(ch_s) := d]> x.(ch_v)) (set_f (u32 (x.(ch_f) + 1)) x)) = l ++ [d].
Proof.
  intros Hs Hn Hr. assert (Hok' := Hok). destruct Hok'. unfold contents. cbn [ch_f ch_n ch_s ch_v set_f set_v]. rewrite Hn.
  exists (nth (u32mod x.(ch_f) x.(ch_s)) x.(ch_v) []), (map (fun j => nth (u32mod (x.(ch_f) + j) x.(ch_s)) x.(ch_v) []) (seqZ 1 (x.(ch_s) - 1))).
  split_and!; [|done|].
  - rewrite (seqZ_cons 0) by lia. cbn [map]. rewrite Z.add_0_r. by rewrite <- Z.sub_1_r.
  - assert (E : seqZ 0 x.(ch_s) = seqZ 0 (x.(ch_s) - 1) ++ [x.(ch_s) - 1]).
    { replace (x.(ch_s)) with (x.(ch_s) - 1 + 1) at 1 by lia. by rewrite (seqZ_app 0) by lia. }
    rewrite E, map_app. f_equal.
    + change (seqZ 1) with (seqZ (1 + 0)). rewrite map_seqZ_shift. apply map_ext_in. intros j Hj%seqZ_mem.
      rewrite u32mod_next. apply nth_insert_ne. rewrite <- (Z.add_0_r x.(ch_f)) at 1. apply slot_ne; lia || done.
    + simpl. f_equal. rewrite u32mod_next. replace (1 + (x.(ch_s) - 1)) with (x.(ch_s)) by lia.
      rewrite slot_full by (done || lia). rewrite Z.add_0_r. apply nth_insert. rewrite <- (Z.add_0_r x.(ch_f)). by apply slot_in.
Qed.
End Ring.

(** ** Copying *)

(** The value a thread sends. *)
Definition vval (b : gmap Z (list Z)) (v : option Z) (e : Z) : list Z :=
  match v with None => replicate (Z.to_nat e) 0 | Some p => take (Z.to_nat e) (default [] (b !! p)) end.

Definition vok (b : gmap Z (list Z)) (v : option Z) (e : Z) : Prop :=
  forall p, v = Some p -> exists d, b !! p = Some d /\ e <= Zlen d.

Lemma vok_keep b b' v e : same_lens b b' -> vok b v e -> vok b' v e.
Proof. intros H Hv p Hp. destruct (Hv p Hp) as (d & Hd & He). destruct (H p d Hd) as (d' & Hd' & Hl). exists d'. split; [done|lia]. Qed.

Lemma vval_len b v e : 0 <= e -> vok b v e -> Zlen (vval b v e) = e.
Proof.
  intros He Hv. destruct v as [p|]; simpl; unfold Zlen; [|rewrite length_replicate; lia].
  destruct (Hv p eq_refl) as (d & Hd & Hle). rewrite Hd. simpl. unfold Zlen in Hle. rewrite length_take. lia.
Qed.

Lemma value_run w v e : vok w.(blocks) v e -> value (vptr v) e w = Ok (vval w.(blocks) v e, w).
Proof.
  intros Hv. destruct v as [p|]; simpl; [|done]. destruct (Hv p eq_refl) as (d & Hd & Hle). eff_prim. rewrite Hd. simpl.
  by rewrite (proj2 (Z.ltb_ge _ _) Hle).
Qed.

Lemma take_all (d : list Z) e : Zlen d = e -> take (Z.to_nat e) d = d.
Proof. intros H. apply take_ge. unfold Zlen in H. lia. Qed.

Lemma slot_run w c x j d e : w.(chans) !! c = Some x -> x.(ch_v) !! j = Some d -> Zlen d = e -> value (Slot c j) e w = Ok (d, w).
Proof.
  intros Hx Hj He. unfold value, bytes_of. erewrite eff_bind_ok; [|eff_prim; by rewrite Hj]. cbv beta.
  rewrite He, Z.ltb_irrefl. by rewrite take_all.
Qed.

(** Into the value of a thread. *)
Lemma copy_out w v src d e : 0 <= e -> vok w.(blocks) v e -> value src e w = Ok (d, w) -> Zlen d = e ->
  exists b', altcopy (vptr v) src e w = Ok (tt, MkWorld w.(chans) w.(frames) b' w.(log)) /\ same_lens w.(blocks) b' /\
    forall p, v = Some p -> take (Z.to_nat e) <$> (b' !! p) = Some d.
Proof.
  intros He Hv Hval Hd. destruct v as [p|]; simpl.
  2: { exists w.(blocks). split; [by destruct w|]. split; [apply same_lens_refl|done]. }
  destruct (Hv p eq_refl) as (o & Ho & Hle). eff_with Hval. unfold store, bytes_of. eff_prim.
  rewrite (proj2 (Z.ltb_ge _ _) Hle). eexists. split; [reflexivity|]. split.
  - intros q dq Hq. destruct (decide (p = q)) as [<-|Hne]; [|exists dq; by rewrite lookup_insert_ne].
    rewrite lookup_insert_eq. eexists. split; [reflexivity|]. rewrite Ho in Hq. injection Hq as <-.
    unfold Zlen in *. rewrite length_app, length_take, length_drop. lia.
  - intros q [= <-]. rewrite lookup_insert_eq. simpl. f_equal. rewrite (take_all d) by done.
    rewrite take_app_le by (unfold Zlen in Hd; lia). by apply take_all.
Qed.

(** Into a slot. *)
Lemma copy_in w c x j v d o e : w.(chans) !! c = Some x -> x.(ch_v) !! j = Some o -> Zlen o = e -> vok w.(blocks) v e ->
  d = vval w.(blocks) v e -> 0 <= e ->
  altcopy (Slot c j) (vptr v) e w = Ok (tt, MkWorld (<[c := set_v (<[j := d]> x.(ch_v)) x]> w.(chans)) w.(frames) w.(blocks) w.(log)).
Proof.
  intros Hx Hj Ho Hv -> He. unfold altcopy. eff_with (value_run w v e Hv). unfold store. erewrite eff_bind_ok; [|unfold bytes_of; eff_prim; by rewrite Hj].
  cbv beta. rewrite Ho, Z.ltb_irrefl. eff_prim. unfold putc, modify. do 5 f_equal.
  rewrite drop_ge by (unfold Zlen in Ho; lia). rewrite app_nil_r. do 2 f_equal. apply take_all, vval_len; done.
Qed.

(** ** Executing *)

(** The bytes at [v], if it is not [nil], begin with the value. *)
Definition delivered (b : gmap Z (list Z)) (v : option Z) (e : Z) (d : list Z) : Prop :=
  forall p, v = Some p -> take (Z.to_nat e) <$> (b !! p) = Some d.

(** [exec_post w t i a ch x r w']: what [altexec] answers and leaves. *)
Definition exec_post (w : World) (t : Z) (i : nat) (a : Alt) (ch : Z) (x : Channel) (r : after) (w' : World) : Prop :=
  match r with
  | Wait => False
  | Serve u i' =>
      i' = i /\ exists j b fru x' b' l,
        queued x.(qentry) (u, j) /\ w.(frames) !! u = Some fru /\ fru.(tagc) = Tnil /\ fru.(alts) !! j = Some b /\
        b.(aop) = otherop a.(aop) /\ same_q x x' /\ chan_ok x' /\ x'.(ch_n) = x.(ch_n) /\ exchange t u ch a.(aop) x x' l /\
        same_lens w.(blocks) b' /\
        w' = MkWorld (<[ch := x']> w.(chans)) (<[u := MkFrame fru.(alts) (Tchan ch)]> w.(frames)) b' (w.(log) ++ l) /\
        (exists d, (if decide (a.(aop) = CHANRCV) then Got t ch d ∈ l /\ delivered b' a.(av) x.(ch_e) d
                    else Got u ch d ∈ l /\ delivered b' b.(av) x.(ch_e) d))
  | Done r =>
      r = Z.of_nat i /\ ~ blocked w x.(qentry) (otherop a.(aop)) /\ exists x' d b' m,
        same_q x x' /\ chan_ok x' /\ same_lens w.(blocks) b' /\
        w' = MkWorld (<[ch := x']> w.(chans)) w.(frames) b' (w.(log) ++ [m; Did t a.(aop) ch]) /\
        (if decide (a.(aop) = CHANRCV)
         then x.(ch_n) = 1 + x'.(ch_n) /\ contents x = d :: contents x' /\ m = Got t ch d /\ delivered b' a.(av) x.(ch_e) d
         else x'.(ch_n) = 1 + x.(ch_n) /\ contents x' = contents x ++ [d] /\ m = Sent t ch d /\ d = vval w.(blocks) a.(av) x.(ch_e))
  end.

Lemma arrived_run w v d e : delivered w.(blocks) v e d -> Zlen d = e -> arrived (vptr v) d e w = Ok (d, w).
Proof.
  intros Hd He. destruct v as [p|]; [|done]. specialize (Hd p eq_refl). simpl. unfold arrived, value, bytes_of.
  destruct (w.(blocks) !! p) as [d0|] eqn:Hp; [|done]. injection Hd as Hd. eff_prim.
  destruct (Z.ltb_spec (Zlen d0) e) as [Hlt|Hge]; [|by rewrite Hd].
  exfalso. assert (H : Zlen d <= Zlen d0); [|lia]. rewrite <- Hd. unfold Zlen. rewrite length_take. lia.
Qed.

Lemma record_run w m : record m w = Ok (tt, MkWorld w.(chans) w.(frames) w.(blocks) (w.(log) ++ [m])).
Proof. done. Qed.

Section Exec.
Context (w : World) (t : Z) (i : nat) (a : Alt) (ch : Z) (x : Channel).
Context (Hop : is_op a) (Hc : a.(ac) = Some ch) (Hx : w.(chans) !! ch = Some x) (Hok : chan_ok x).
Context (Hg : goodq w x.(qentry)) (Hr : ring_room x.(ch_f) x.(ch_s) = true) (Hv : vok w.(blocks) a.(av) x.(ch_e)).
Context (Hvq : forall p fr b, queued x.(qentry) p -> w.(frames) !! p.1 = Some fr -> fr.(alts) !! p.2 = Some b -> vok w.(blocks) b.(av) x.(ch_e)).

Lemma elem_pos : 0 <= x.(ch_e).
Proof. destruct Hok. lia. Qed.

Lemma slot_elem f j : 0 < x.(ch_s) -> exists d, x.(ch_v) !! u32mod (f + j) x.(ch_s) = Some d /\ Zlen d = x.(ch_e) /\
  nth (u32mod (f + j) x.(ch_s)) x.(ch_v) [] = d.
Proof.
  intros Hs. destruct (lookup_lt_is_Some_2 _ _ (slot_in x Hok f j Hs)) as [d Hd]. exists d. split; [done|]. split.
  - destruct Hok. by apply (Forall_lookup_1 _ _ _ _ ck_v Hd).
  - by rewrite nth_lookup, Hd.
Qed.

(** From the buffer. *)
Lemma take_buffer rep : a.(aop) = CHANRCV -> 0 < x.(ch_n) ->
  altexecbuffered a rep w = Ok (Slot ch (u32mod x.(ch_f) x.(ch_s)),
    MkWorld (<[ch := set_f (u32 (x.(ch_f) + 1)) (if rep then x else set_n (u32 (x.(ch_n) - 1)) x)]> w.(chans)) w.(frames) w.(blocks) w.(log)).
Proof.
  intros Ha Hn. unfold altexecbuffered. erewrite eff_bind_ok by (by apply nonnil_run). eff_prim. rewrite Ha, (proj2 (Z.ltb_lt _ _) Hn).
  simpl. destruct rep; [eff_prim; by eff_prim|]. unfold putc. eff_prim. erewrite eff_bind_ok by (apply deref_run, lookup_insert_eq).
  cbv beta. eff_prim. simpl. by rewrite insert_insert_eq.
Qed.

Lemma chan_ok_take : 0 < x.(ch_n) -> chan_ok (set_f (u32 (x.(ch_f) + 1)) (set_n (u32 (x.(ch_n) - 1)) x)).
Proof.
  intros Hn. assert (Hok' := Hok). destruct Hok'. constructor; simpl; try done.
  - rewrite u32_small by lia. lia.
  - apply u32_range.
  - apply ring_next; [lia|lia|done].
Qed.

Lemma exec_recv rs : a.(aop) = CHANRCV -> 0 < x.(ch_n) -> ~ blocked w x.(qentry) (otherop a.(aop)) ->
  choose x.(qentry) (otherop a.(aop)) 0 None rs w = Ok (None, w) ->
  exists r w', altexec t i a rs w = Ok (r, w') /\ exec_post w t i a ch x r w'.
Proof.
  intros Ha Hn Hb Hch. unfold altexec. erewrite eff_bind_ok by (by apply nonnil_run). eff_prim.
  eff_with Hch. cbv zeta.
  assert (Hs : 0 < x.(ch_s)) by (destruct Hok; lia).
  destruct (slot_elem x.(ch_f) 0 Hs) as (d & Hd & Hde & Hnth). rewrite Z.add_0_r in Hd, Hnth.
  eff_with (take_buffer false Ha Hn). rewrite (bool_decide_true _ Ha). rewrite Ha.
  set (x' := set_f (u32 (x.(ch_f) + 1)) (set_n (u32 (x.(ch_n) - 1)) x)).
  destruct (copy_out (MkWorld (<[ch := x']> w.(chans)) w.(frames) w.(blocks) w.(log)) a.(av)
    (Slot ch (u32mod x.(ch_f) x.(ch_s))) d x.(ch_e) elem_pos) as (b' & Hcp & Hl & Hdel); [done| |done|].
  { eapply slot_run; [apply lookup_insert_eq|exact Hd|exact Hde]. }
  erewrite eff_bind_ok.
  2: { erewrite eff_bind_ok by (eapply slot_run; [apply lookup_insert_eq|exact Hd|exact Hde]). cbv beta.
       erewrite eff_bind_ok by (exact Hcp). cbv beta. erewrite eff_bind_ok by (by apply arrived_run). cbv beta.
       apply record_run. }
  erewrite eff_bind_ok by (apply record_run). eexists _, _. split; [reflexivity|].
  split; [done|]. split; [done|]. exists x', d, b', (Got t ch d). split; [by split_and!|].
  split; [by apply chan_ok_take|]. split; [done|]. split; [cbn [chans frames blocks log]; by rewrite Ha, <- app_assoc|].
  rewrite decide_True by done.
  split; [|split; [|split; [done|done]]].
  - simpl. rewrite u32_small by (destruct Hok; lia). lia.
  - unfold x'. rewrite <- Hnth. by apply contents_take.
Qed.

(** Into the buffer. *)
Lemma chan_ok_put d f n : 0 <= n <= x.(ch_s) -> 0 <= f < 2 ^ 32 -> ring f x.(ch_s) -> Zlen d = x.(ch_e) -> forall j,
  chan_ok (set_v (<[j := d]> x.(ch_v)) (set_f f (set_n n x))).
Proof.
  intros Hn Hf Hr2 Hd j. assert (Hok' := Hok). destruct Hok'. constructor; simpl; try done.
  - unfold Zlen. by rewrite length_insert.
  - by apply Forall_insert.
Qed.

Lemma exec_send rs : a.(aop) = CHANSND -> x.(ch_n) < x.(ch_s) -> ~ blocked w x.(qentry) (otherop a.(aop)) ->
  choose x.(qentry) (otherop a.(aop)) 0 None rs w = Ok (None, w) ->
  exists r w', altexec t i a rs w = Ok (r, w') /\ exec_post w t i a ch x r w'.
Proof.
  intros Ha Hn Hb Hch. unfold altexec. erewrite eff_bind_ok by (by apply nonnil_run). eff_prim. eff_with Hch. cbv zeta.
  assert (Hs : 0 < x.(ch_s)) by (destruct Hok; lia).
  assert (Hne : aop a <> CHANRCV) by (by rewrite Ha).
  destruct (slot_elem x.(ch_f) x.(ch_n) Hs) as (o & Ho & Hoe & _).
  set (x1 := set_n (u32 (x.(ch_n) + 1)) x). set (j := u32mod (x.(ch_f) + x.(ch_n)) x.(ch_s)) in *.
  assert (Hbuf : altexecbuffered a false w = Ok (Slot ch j, MkWorld (<[ch := x1]> w.(chans)) w.(frames) w.(blocks) w.(log))).
  { unfold altexecbuffered. erewrite eff_bind_ok by (by apply nonnil_run). eff_prim.
    rewrite (bool_decide_false _ Hne), (bool_decide_true _ Ha), (proj2 (Z.ltb_lt _ _) Hn). simpl. by eff_prim. }
  eff_with Hbuf. rewrite (bool_decide_false _ Hne). cbv iota. set (d := vval w.(blocks) a.(av) x.(ch_e)).
  erewrite eff_bind_ok.
  2: { erewrite eff_bind_ok by (by apply value_run). cbv beta. erewrite eff_bind_ok by (apply record_run). cbv beta.
       eapply (copy_in _ ch x1 j a.(av) d o); [apply lookup_insert_eq|exact Ho|done|done|done|apply elem_pos]. }
  erewrite eff_bind_ok by (apply record_run). eexists _, _. split; [reflexivity|].
  split; [done|]. split; [done|]. exists (set_v (<[j := d]> x.(ch_v)) x1), d, w.(blocks), (Sent t ch d).
  assert (Hde : Zlen d = x.(ch_e)) by (by apply vval_len; [apply elem_pos|]).
  split; [by split_and!|]. split.
  { unfold x1. destruct Hok. apply (chan_ok_put d x.(ch_f) (u32 (x.(ch_n) + 1))); [rewrite u32_small by lia; lia|lia|done|done]. }
  split; [apply same_lens_refl|]. split.
  { cbn [chans frames blocks log]. by rewrite insert_insert_eq, <- app_assoc. }
  rewrite decide_False by done. split; [|split; [|done]].
  - simpl. rewrite u32_small by (destruct Hok; lia). lia.
  - by apply contents_put.
Qed.

(** Serving a thread that waits. *)
Section Serve.
Context (u : Z) (j : nat) (fru : Frame) (b : Alt) (rs : list Z).
Context (Hq : queued x.(qentry) (u, j)) (Hfu : w.(frames) !! u = Some fru) (Hnil : fru.(tagc) = Tnil).
Context (Hbj : fru.(alts) !! j = Some b) (Hbo : b.(aop) = otherop a.(aop)) (Hbt : b.(atag) = Some u).
Context (Hch : choose x.(qentry) (otherop a.(aop)) 0 None rs w = Ok (Some (u, j), w)).
Context (Hrcv : blocked w x.(qentry) CHANRCV -> x.(ch_n) = 0) (Hsnd : blocked w x.(qentry) CHANSND -> x.(ch_n) = x.(ch_s)).

Lemma serve_blocked : blocked w x.(qentry) (otherop a.(aop)).
Proof. exists (u, j). split; [done|]. split; [by exists fru|by exists fru, b]. Qed.

Lemma serve_vok b' : same_lens w.(blocks) b' -> vok b' b.(av) x.(ch_e).
Proof. intros H. eapply vok_keep; [done|]. by apply (Hvq (u, j) fru b). Qed.

Lemma serve_end k m b' l : w.(frames) = k ->
  (puttag b (Tchan ch);; v ← nonnil b.(atag); mret (Serve v i)) (MkWorld m k b' l) =
    Ok (Serve u i, MkWorld m (<[u := MkFrame fru.(alts) (Tchan ch)]> k) b' l).
Proof.
  intros <-. erewrite eff_bind_ok by (by apply (puttag_run _ _ u fru)). by erewrite eff_bind_ok by (by apply nonnil_run).
Qed.

Lemma serve_post x' b' l : same_q x x' -> chan_ok x' -> x'.(ch_n) = x.(ch_n) -> exchange t u ch a.(aop) x x' l ->
  same_lens w.(blocks) b' ->
  (exists d, (if decide (a.(aop) = CHANRCV) then Got t ch d ∈ l /\ delivered b' a.(av) x.(ch_e) d
              else Got u ch d ∈ l /\ delivered b' b.(av) x.(ch_e) d)) ->
  exec_post w t i a ch x (Serve u i) (MkWorld (<[ch := x']> w.(chans)) (<[u := MkFrame fru.(alts) (Tchan ch)]> w.(frames)) b' (w.(log) ++ l)).
Proof. intros. split; [done|]. exists j, b, fru, x', b', l. by split_and!. Qed.

(** The buffer is full: the waiter's value takes the place of the first. *)
Lemma serve_full : a.(aop) = CHANRCV -> 0 < x.(ch_s) -> x.(ch_n) <> 0 ->
  exists r w', altexec t i a rs w = Ok (r, w') /\ exec_post w t i a ch x r w'.
Proof.
  intros Ha Hs Hn. assert (Hfull : x.(ch_n) = x.(ch_s)). { apply Hsnd. assert (H := serve_blocked). by rewrite Ha in H. }
  unfold altexec. erewrite eff_bind_ok by (by apply nonnil_run). eff_prim. eff_with Hch. cbv zeta.
  eff_with (geta_run _ _ _ _ _ Hfu Hbj). rewrite (proj2 (Z.eqb_neq _ _) Hn), (proj2 (Z.eqb_neq x.(ch_s) 0)) by lia.
  rewrite (bool_decide_true _ Ha). simpl andb. cbv iota. simpl negb. cbv iota.
  destruct (slot_elem x.(ch_f) 0 Hs) as (d & Hd & Hde & Hnth). rewrite Z.add_0_r in Hd, Hnth.
  set (x1 := set_f (u32 (x.(ch_f) + 1)) x). set (k := u32mod x.(ch_f) x.(ch_s)) in *.
  set (w1 := MkWorld (<[ch := x1]> w.(chans)) w.(frames) w.(blocks) w.(log)).
  assert (Hsl : forall b' l, value (Slot ch k) x.(ch_e) (MkWorld (<[ch := x1]> w.(chans)) w.(frames) b' l) = Ok (d, MkWorld (<[ch := x1]> w.(chans)) w.(frames) b' l)).
  { intros. eapply slot_run; [apply lookup_insert_eq|exact Hd|exact Hde]. }
  destruct (copy_out w1 a.(av) (Slot ch k) d x.(ch_e) elem_pos Hv (Hsl _ _) Hde) as (b' & Hcp & Hl & Hdel).
  assert (Hvb := serve_vok b' Hl). set (d' := vval b' b.(av) x.(ch_e)).
  assert (Hde' : Zlen d' = x.(ch_e)) by (by apply vval_len; [apply elem_pos|]).
  erewrite eff_bind_ok.
  2: { erewrite eff_bind_ok by (apply take_buffer; [done|destruct Hok; lia]). cbv beta iota.
       erewrite eff_bind_ok by (apply Hsl). cbv beta.
       erewrite eff_bind_ok by (exact Hcp). cbv beta. erewrite eff_bind_ok by (by apply arrived_run). cbv beta.
       erewrite eff_bind_ok by (apply record_run). cbv beta. erewrite eff_bind_ok by (by apply value_run). cbv beta.
       erewrite eff_bind_ok by (apply record_run). cbv beta.
       eapply (copy_in _ ch x1 k b.(av) d' d); [apply lookup_insert_eq|exact Hd|done|done|done|apply elem_pos]. }
  cbn [chans frames blocks log w1]. rewrite serve_end by done. rewrite insert_insert_eq, <- app_assoc.
  eexists _, _. split; [reflexivity|]. apply serve_post; [by split_and!| |done| |done|].
  - destruct Hok. apply (chan_ok_put d' (u32 (x.(ch_f) + 1)) x.(ch_n)); [lia|apply u32_range|apply ring_next; lia || done|done].
  - destruct (contents_swap x Hok d' Hs Hfull Hr) as (d0 & l0 & H1 & H2 & H3). left. exists d, d', l0.
    split; [done|]. split; [rewrite H1, <- H2; f_equal; exact Hnth|]. split; [exact H3|done].
  - exists d. rewrite decide_True by done. split; [set_solver|done].
Qed.

(** The buffer is empty: the value goes from thread to thread. *)
Lemma serve_empty : x.(ch_s) = 0 \/ x.(ch_n) = 0 ->
  exists r w', altexec t i a rs w = Ok (r, w') /\ exec_post w t i a ch x r w'.
Proof.
  intros Hn. assert (Hn0 : x.(ch_n) = 0) by (destruct Hok; lia).
  assert (Hb : negb (x.(ch_s) =? 0) && negb (x.(ch_n) =? 0) = false) by (rewrite Hn0; by rewrite andb_false_r).
  unfold altexec. erewrite eff_bind_ok by (by apply nonnil_run). eff_prim. eff_with Hch. cbv zeta.
  eff_with (geta_run _ _ _ _ _ Hfu Hbj). rewrite Hb.
  assert (Hid : <[ch := x]> w.(chans) = w.(chans)) by (by apply insert_id).
  assert (Hpost : forall b' l, same_lens w.(blocks) b' -> exchange t u ch a.(aop) x x l ->
    (exists d, (if decide (a.(aop) = CHANRCV) then Got t ch d ∈ l /\ delivered b' a.(av) x.(ch_e) d
              else Got u ch d ∈ l /\ delivered b' b.(av) x.(ch_e) d)) ->
    exec_post w t i a ch x (Serve u i) (MkWorld w.(chans) (<[u := MkFrame fru.(alts) (Tchan ch)]> w.(frames)) b' (w.(log) ++ l))).
  { intros b' l Hl He Hd. rewrite <- Hid. by apply serve_post. }
  assert (Hvb : vok w.(blocks) b.(av) x.(ch_e)) by (apply serve_vok, same_lens_refl).
  assert (Hcon := contents_nil x Hn0).
  destruct (decide (a.(aop) = CHANRCV)) as [Ha|Ha].
  - rewrite (bool_decide_true _ Ha). cbv iota. set (d := vval w.(blocks) b.(av) x.(ch_e)) in *.
    assert (Hde : Zlen d = x.(ch_e)) by (by apply vval_len; [apply elem_pos|]).
    destruct (copy_out (MkWorld w.(chans) w.(frames) w.(blocks) (w.(log) ++ [Sent u ch d])) a.(av) (vptr b.(av)) d x.(ch_e) elem_pos Hv)
      as (b' & Hcp & Hl & Hdel); [by apply value_run|done|].
    erewrite eff_bind_ok.
    2: { erewrite eff_bind_ok by (by apply value_run). cbv beta. erewrite eff_bind_ok by (apply record_run). cbv beta.
         erewrite eff_bind_ok by (exact Hcp). cbv beta. erewrite eff_bind_ok by (by apply arrived_run). cbv beta.
         apply record_run. }
    cbn [chans frames blocks log]. rewrite serve_end by done. rewrite <- app_assoc.
    eexists _, _. split; [reflexivity|]. apply Hpost; [done|right; exists d; rewrite decide_True by done; done|].
    exists d. split; [set_solver|done].
  - rewrite (bool_decide_false _ Ha). cbv iota. set (d := vval w.(blocks) a.(av) x.(ch_e)) in *.
    assert (Hde : Zlen d = x.(ch_e)) by (by apply vval_len; [apply elem_pos|]).
    destruct (copy_out (MkWorld w.(chans) w.(frames) w.(blocks) (w.(log) ++ [Sent t ch d])) b.(av) (vptr a.(av)) d x.(ch_e) elem_pos Hvb)
      as (b' & Hcp & Hl & Hdel); [by apply value_run|done|].
    erewrite eff_bind_ok.
    2: { erewrite eff_bind_ok by (by apply value_run). cbv beta. erewrite eff_bind_ok by (apply record_run). cbv beta.
         erewrite eff_bind_ok by (exact Hcp). cbv beta. erewrite eff_bind_ok by (by apply arrived_run). cbv beta.
         apply record_run. }
    cbn [chans frames blocks log]. rewrite serve_end by done. rewrite <- app_assoc.
    eexists _, _. split; [reflexivity|]. apply Hpost; [done|right; exists d; rewrite decide_False by done; done|].
    exists d. split; [set_solver|done].
Qed.
End Serve.

Lemma altexec_run rs : can_go w a x -> (blocked w x.(qentry) CHANRCV -> x.(ch_n) = 0) ->
  (blocked w x.(qentry) CHANSND -> x.(ch_n) = x.(ch_s)) ->
  exists r w', altexec t i a rs w = Ok (r, w') /\ exec_post w t i a ch x r w'.
Proof.
  intros Hgo Hrcv Hsnd. destruct (choose_run0 w x.(qentry) (otherop a.(aop)) rs Hg) as (o & Ho & Hcho). destruct o as [[u j]|].
  - destruct Hcho as (Hq & (fr & Hf & Hnil) & (fr' & b & Hf' & Hbj & Hbo)). rewrite Hf in Hf'. injection Hf' as <-.
    destruct (Hg _ Hq) as (fr' & b' & Hf' & Hbj' & _ & Ht). rewrite Hf in Hf'. injection Hf' as <-. rewrite Hbj in Hbj'. injection Hbj' as <-.
    destruct (decide (x.(ch_s) = 0 \/ x.(ch_n) = 0)) as [He|He]; [by eapply serve_empty|].
    assert (Hs : 0 < x.(ch_s)) by (destruct Hok; lia).
    assert (Hb : blocked w x.(qentry) (otherop a.(aop))) by (by eapply serve_blocked).
    destruct Hop as [Ha|Ha]; [rewrite Ha in Hb; exfalso; tauto|].
    eapply serve_full; try done. lia.
  - destruct Hgo as [Hb|Hroom]; [by destruct Hcho|]. destruct Hop as [Ha|Ha]; rewrite Ha in Hroom; simpl in Hroom.
    + by apply exec_send. + by apply exec_recv.
Qed.
End Exec.
