(* ===== verification/ChanAlt.v ===== *)
(** [alt], run: before a thread waits, and after it is woken. *)

From S2P Require Import Prelude Fcall Eff Chan ChanInv ChanKeep ChanWait ChanRun ChanLoops ChanCopy.

(** ** Calls that are in order *)

(** The channel of an operation exists and was not freed, its counter does not
    wrap, and the value has room for an element. *)
Definition alt_ok (w : World) (a : Alt) (ch : Z) : Prop :=
  exists x, w.(chans) !! ch = Some x /\ x.(freed) = false /\ ring_room x.(ch_f) x.(ch_s) = true /\ block_ok w.(blocks) a x.

Definition array_ok (w : World) (nb : bool) (al : list Alt) : Prop :=
  ended nb al = true /\ distinct al /\ forall i a ch, entry al i a ch -> alt_ok w a ch.

(** ** Returning *)

Definition ret_ok (nb : bool) (al : list Alt) (r : Z) : Prop :=
  r = -1 \/ (exists i a, r = Z.of_nat i /\ al !! i = Some a /\ is_op a) \/ (nb = true /\ 1 + r = Zlen al).

Lemma ended_tail nb b b' al : ended nb (b :: b' :: al) = true -> ended nb (b' :: al) = true.
Proof.
  cbn [ended]. rewrite bool_decide_false by done. rewrite !andb_false_r. by destruct (aop b).
Qed.

Lemma ended_last nb al a : ended nb al = true -> al !! (length al - 1)%nat = Some a -> ~ is_op a.
Proof.
  induction al as [|b [|b' al] IH]; intros He Ha Ho; [done| |].
  - injection Ha as <-. destruct Ho as [Ho|Ho]; simpl in He; by rewrite Ho in He.
  - revert Ho. apply IH; [by eapply ended_tail|]. simpl in *. by rewrite Nat.sub_0_r in *.
Qed.

(** What the caller of [alt] makes of its result [r]. *)
Definition run_answer (r : Z) (al : list Alt) : Z :=
  if r =? -1 then -1 else if r =? 1 then 0 else
  match al with a :: _ => if bool_decide (a.(aerr) = Noerr) then 1 else -1 | [] => -1 end.

Definition wrap_answer (b : gmap Z (list Z)) (w : wrap) (v : Z) : Z :=
  match w with
  | Wint => v
  | Wrecv p fail => if v <? 0 then fail else unle (default [] (b !! p))
  | Wnbrecv p => if v =? 0 then 0 else unle (default [] (b !! p))
  end.

Definition answer (b : gmap Z (list Z)) (k : kont) (r : Z) (al : list Alt) : Z :=
  match k with Kalt => r | Krunop _ w => wrap_answer b w (run_answer r al) end.

Lemma runop_ret_run {w : World} nb' nb r al : (nb' = true \/ nb = false) -> length al = 2%nat -> ended nb al = true -> ret_ok nb al r ->
  runop_ret nb' r al w = Ok (run_answer r al, w).
Proof.
  intros Hnb Hlen He Hr. unfold runop_ret, run_answer. destruct (Z.eqb_spec r (-1)); [done|]. destruct (Z.eqb_spec r 1) as [->|H1].
  - destruct nb'; [done|]. destruct Hnb as [Hnb| ->]; [done|]. exfalso.
    destruct Hr as [Hr|[(i & a & Hi & Ha & Ho)|[? _]]]; [lia| |done].
    replace i with (length al - 1)%nat in Ha by lia. by eapply ended_last.
  - destruct (Z.eqb_spec r 0) as [->|H0]; [by destruct al|]. exfalso.
    destruct Hr as [Hr|[(i & a & Hi & Ha & Ho)|[_ Hr]]]; [lia| |unfold Zlen in Hr; lia].
    apply lookup_lt_Some in Ha. lia.
Qed.

Lemma kont_ret_run w k nb al r : kont_ok w.(blocks) k nb al -> ended nb al = true -> ret_ok nb al r ->
  kont_ret k r al w = Ok (answer w.(blocks) k r al, w).
Proof.
  intros Hk He Hr. destruct k as [|nb' wr]; [done|]. destruct Hk as (Hnb & Hlen & Hw). unfold kont_ret.
  rewrite (eff_bind_ok _ _ _ _ _ (runop_ret_run _ _ _ _ Hnb Hlen He Hr)). simpl.
  destruct wr as [|p fail|p]; simpl; [done| |].
  - destruct (_ <? 0); [done|]. destruct Hw as [d Hd]. eff_prim. by rewrite Hd.
  - destruct (_ =? 0); [done|]. destruct Hw as [d Hd]. eff_prim. by rewrite Hd.
Qed.

Definition left_alone (w : World) (t : Z) : World := MkWorld w.(chans) (delete t w.(frames)) w.(blocks) w.(log).

Lemma return_alt_run w t k nb fr r : w.(frames) !! t = Some fr -> kont_ok w.(blocks) k nb fr.(alts) ->
  ended nb fr.(alts) = true -> ret_ok nb fr.(alts) r ->
  return_alt t k r w = Ok (Run (answer w.(blocks) k r fr.(alts)) fr.(alts), left_alone w t).
Proof.
  intros Hf Hk He Hr. unfold return_alt. eff_prim. unfold leave. eff_prim.
  by eff_with (kont_ret_run (left_alone w t) k nb fr.(alts) r Hk He Hr).
Qed.

Lemma kont_same b k nb al al' : same_array al al' -> kont_ok b k nb al -> kont_ok b k nb al'.
Proof. intros H. destruct k; simpl; [done|]. by rewrite (Forall2_length _ _ _ H). Qed.

(** ** What an answer says *)

(** The operations that the calls of a thread performed, and those whose value
    moved, in order. *)
Definition dids (t : Z) (l : list note) : list (ChanOp * Z) :=
  omap (fun m => match m with Did u op c => if u =? t then Some (op, c) else None | _ => None end) l.
Definition moves (t : Z) (l : list note) : list (ChanOp * Z) :=
  omap (fun m => match m with
    | Sent u c _ => if u =? t then Some (CHANSND, c) else None
    | Got u c _ => if u =? t then Some (CHANRCV, c) else None
    | _ => None end) l.

(** The call was made with the array [al0], leaves the array [al] and answers
    [v]: this says that it performed the operation [o], or none.  From [alt], the
    index of that operation, without error unless the caller left one there; or
    that of an operation on a closed channel, with the error; or that of
    [CHANNOBLK]; or -1.  From [runop], 1; or -1; or, when it need not wait, 0; the
    calls built on it make of that what [wrap_answer] says. *)
Definition told (al0 : list Alt) (b : gmap Z (list Z)) (k : kont) (v : Z) (al : list Alt) (o : option (ChanOp * Z)) : Prop :=
  same_array al0 al /\
  match k with
  | Kalt =>
      match o with
      | Some (op, ch) => exists i a a0, v = Z.of_nat i /\ entry al i a ch /\ a.(aop) = op /\
          al0 !! i = Some a0 /\ (a.(aerr) = Noerr \/ a.(aerr) = a0.(aerr))
      | None => v = -1 \/ exists i a, v = Z.of_nat i /\ al !! i = Some a /\
          (is_op a /\ a.(aerr) = Errcl \/ a.(aop) = CHANNOBLK)
      end
  | Krunop nb w =>
      exists r, v = wrap_answer b w r /\
      match o with
      | Some (op, ch) => r = 1 /\ exists a, entry al 0 a ch /\ a.(aop) = op
      | None => r = -1 \/ (nb = true /\ r = 0)
      end
  end.

Lemma only_entry nb' w b nb al i a : kont_ok b (Krunop nb' w) nb al -> ended nb al = true -> al !! i = Some a -> is_op a -> i = 0%nat.
Proof.
  intros (_ & Hlen & _) He Ha Ho. destruct i as [|i]; [done|exfalso]. assert (Hi := lookup_lt_Some _ _ _ Ha).
  replace (S i) with (length al - 1)%nat in Ha by lia. by eapply ended_last.
Qed.

Lemma told_done al0 b k nb al i a a0 ch : same_array al0 al -> kont_ok b k nb al -> ended nb al = true -> entry al i a ch ->
  al0 !! i = Some a0 -> (a.(aerr) = Noerr \/ a.(aerr) = a0.(aerr) /\ clean k al0) ->
  told al0 b k (answer b k (Z.of_nat i) al) al (Some (a.(aop), ch)).
Proof.
  intros Hs Hk He Hent H0 Herr. split; [done|]. assert (Hent' := Hent). destruct Hent' as (Ha & Ho & _).
  destruct k as [|nb' w]; [by exists i, a, a0; split_and!; auto; tauto|].
  assert (i = 0%nat) as -> by (by eapply only_entry). exists 1. split; [|split; [done|by exists a]].
  unfold answer, run_answer. simpl. destruct al as [|b0 al]; [done|]. injection Ha as ->.
  assert (aerr a = Noerr) as -> by (destruct Herr as [|[-> Hc]]; [done|by apply Hc]). done.
Qed.

Lemma told_none al0 b k nb al r : same_array al0 al -> kont_ok b k nb al -> ended nb al = true ->
  (r = -1 \/ (exists i a, r = Z.of_nat i /\ al !! i = Some a /\ is_op a /\ a.(aerr) = Errcl) \/ (nb = true /\ 1 + r = Zlen al)) ->
  told al0 b k (answer b k r al) al None.
Proof.
  intros Hs Hk He Hr. split; [done|]. destruct k as [|nb' w].
  - destruct Hr as [->|[(i & a & -> & Ha & Ho & Hc)|[-> Hr]]]; [by left|right; exists i, a; by auto|right].
    revert r Hr. clear -He. induction al as [|a al IH]; intros r Hr; [done|]. rewrite Zlen_cons in Hr. simpl answer. destruct al as [|a' al].
    + exists O, a. split; [unfold Zlen in Hr; simpl in Hr; lia|]. split; [done|]. right. simpl in He. by destruct (aop a).
    + destruct (IH ltac:(by eapply ended_tail) (r - 1) ltac:(lia)) as (i & a2 & Hi & Hb & H). simpl in Hi. exists (S i), a2. split_and!; [lia|done|done].
  - exists (run_answer r al). split; [done|]. unfold run_answer. destruct Hr as [->|[(i & a & -> & Ha & Ho & Hc)|[-> Hr]]].
    + by left.
    + assert (i = 0%nat) as -> by (by eapply only_entry). simpl. destruct al as [|b0 al]; [done|]. injection Ha as ->. left. by rewrite Hc.
    + destruct Hk as (Hnb & Hlen & _). unfold Zlen in Hr. rewrite Hlen in Hr. replace r with 1 by lia. right. split; [|done]. by destruct Hnb.
Qed.

(** Tests leave the errors of an array alone. *)
Lemma scan_errs al : forall i k a rs w al' r w', scan al i k a rs w = Ok ((al', r), w') -> map aerr al' = map aerr al.
Proof.
  induction al as [|xa al IH]; intros i k a rs w al' r w' H; [done|]. cbn [scan] in H.
  assert (Hgo : forall (f : eff World (list Alt * option (option (nat * Alt) * nat * bool * list Z))),
      (forall w al1 r1 w1, f w = Ok ((al1, r1), w1) -> map aerr al1 = map aerr al) ->
      ('(al', r) ← f; mret (set_entryno (-1) xa :: al', r)) w = Ok ((al', r), w') -> map aerr al' = map aerr (xa :: al)).
  { intros f Hf Hr. apply eff_bind_inv in Hr as ([al1 r1] & w1 & H1 & H2). injection H2 as <- _ _. simpl. f_equal. by eapply Hf. }
  assert (Hop : forall (w : World) al1 r1 w1, (match xa.(ac) with
      | None => mret (al, None)
      | Some c => x ← deref chans c;
          can ← (if isopenfor x xa.(aop) then canexec (set_entryno (-1) xa) else mret false);
          if (can : bool) then let '(r, rs) := nrand (k + 1) rs in
            scan al (S i) (k + 1) (if r =? 0 then Some (i, set_entryno (-1) xa) else a) rs
          else scan al (S i) k a rs end) w = Ok ((al1, r1), w1) -> map aerr al1 = map aerr al).
  { intros w2 al1 r1 w1 H1. destruct (ac xa) as [c|]; [|by injection H1 as <- _ _].
    apply eff_bind_inv in H1 as (x & w3 & _ & H1). apply eff_bind_inv in H1 as (can & w4 & _ & H1).
    destruct can; [destruct (nrand (k + 1) rs)|]; by eapply IH. }
  destruct (aop xa) eqn:Eop; try (by injection H as <- _ _);
    (eapply Hgo; [|exact H]; cbv beta; intros w2 al1 r1 w1 H1; simpl in H1; rewrite ?Eop in Hop); [by eapply Hop|by eapply Hop|by eapply IH].
Qed.

Lemma map_aerr_lookup (al al' : list Alt) i a : map aerr al' = map aerr al -> al' !! i = Some a ->
  exists a0, al !! i = Some a0 /\ a.(aerr) = a0.(aerr).
Proof.
  intros H Ha. assert (E : (aerr <$> al') !! i = (aerr <$> al) !! i) by (unfold fmap; change (map aerr al' !! i = map aerr al !! i); by rewrite H).
  rewrite !list_lookup_fmap, Ha in E. destruct (al !! i) as [a0|]; [|done]. injection E as E. eauto.
Qed.

Lemma clean_errs k al al' : map aerr al' = map aerr al -> clean k al -> clean k al'.
Proof. destruct k; [done|]. intros H Hc a Ha. destruct (map_aerr_lookup _ _ _ _ H Ha) as (a0 & H0 & ->). by apply Hc. Qed.

(** ** The queues hold good pointers *)

Lemma inv_good c : Inv c -> goodw c.(world).
Proof.
  intros HI ch x Hx p Hp. destruct (queued_waits c HI ch x p Hx Hp) as (y & fr & a & _ & _ & Hf & (Ha & Ho & _) & Ht).
  by exists fr, a.
Qed.

Lemma inv_vok c ch x p fr b : Inv c -> c.(world).(chans) !! ch = Some x -> queued x.(qentry) p ->
  c.(world).(frames) !! p.1 = Some fr -> fr.(alts) !! p.2 = Some b -> block_ok c.(world).(blocks) b x.
Proof.
  intros HI Hx Hp Hf Hb. destruct (queued_waits c HI ch x p Hx Hp) as (y & fr' & a & Hy & Hw & Hf' & He & _).
  rewrite Hf in Hf'. injection Hf' as <-. assert (Ha := He). destruct Ha as (Ha & _). rewrite Hb in Ha. injection Ha as <-.
  by destruct (waits_at c HI p.1 y fr p.2 b ch x Hy Hw Hf He Hx).
Qed.

Section Alt.
Context (c : conf) (t : Z) (b1 : gmap Z (list Z)).
Context (HI : Inv c) (Ht : idle c t) (Hl : same_lens c.(world).(blocks) b1).

(** The world inside [alt]. *)
Definition within (fr : Frame) : World := MkWorld c.(world).(chans) (<[t := fr]> c.(world).(frames)) b1 c.(world).(log).

Lemma within_frame fr ch x p : c.(world).(chans) !! ch = Some x -> queued x.(qentry) p ->
  (within fr).(frames) !! p.1 = c.(world).(frames) !! p.1.
Proof. intros Hx Hp. simpl. apply lookup_insert_ne. intros E. by apply (queued_not_idle c HI ch x p t Hx Hp Ht). Qed.

Lemma within_blocked fr ch x op : c.(world).(chans) !! ch = Some x ->
  blocked (within fr) x.(qentry) op <-> blocked c.(world) x.(qentry) op.
Proof. intros Hx. apply blocked_ext. intros p. by apply within_frame with ch. Qed.

Lemma within_good fr : goodw (within fr).
Proof.
  intros ch x Hx p Hp. simpl in Hx. destruct (inv_good c HI ch x Hx p Hp) as (f & a & Hf & H).
  exists f, a. split; [|done]. by rewrite within_frame with (ch := ch) (x := x).
Qed.

Lemma within_vok fr ch x p f b : c.(world).(chans) !! ch = Some x -> queued x.(qentry) p ->
  (within fr).(frames) !! p.1 = Some f -> f.(alts) !! p.2 = Some b -> vok b1 b.(av) x.(ch_e).
Proof.
  intros Hx Hp Hf Hb. rewrite within_frame with (ch := ch) (x := x) in Hf by done. eapply vok_keep; [done|].
  by apply (inv_vok c ch x p f b).
Qed.

Lemma within_left fr : left_alone (within fr) t = MkWorld c.(world).(chans) (delete t c.(world).(frames)) b1 c.(world).(log).
Proof. unfold left_alone. simpl. by rewrite delete_insert_eq. Qed.

(** What a step of the call adds to the log. *)
Definition noted (al0 : list Alt) (k : kont) (p : pc) (w' : World) : Prop :=
  exists l, w'.(log) = c.(world).(log) ++ l /\ (forall u, u <> t -> dids u l = []) /\
    match p with
    | Run v al => exists o, dids t l = option_list o /\ told al0 w'.(blocks) k v al o
    | _ => dids t l = []
    end.

(** What a call to [alt] with [al0] may make of the configuration. *)
Definition goes_on (al0 : list Alt) (k : kont) (r : after) (w : World) : Prop :=
  exists p w', settle t k r w = Ok (p, w') /\ trans c (MkConf w' (<[t := p]> c.(pcs))) /\ noted al0 k p w'.

Lemma goes_return al0 k nb fr r : kont_ok b1 k nb fr.(alts) -> ended nb fr.(alts) = true -> same_array al0 fr.(alts) ->
  (r = -1 \/ (exists i a, r = Z.of_nat i /\ fr.(alts) !! i = Some a /\ is_op a /\ a.(aerr) = Errcl) \/ (nb = true /\ 1 + r = Zlen fr.(alts))) ->
  goes_on al0 k (Done r) (within fr).
Proof.
  intros Hk He Hs Hno. assert (Hr : ret_ok nb fr.(alts) r).
  { destruct Hno as [H|[(i & a & H1 & H2 & H3 & _)|H]]; [by left|right; left; eauto|by right; right]. }
  assert (Hv : return_alt t k r (within fr) = Ok (Run (answer b1 k r fr.(alts)) fr.(alts), left_alone (within fr) t)).
  { by apply (return_alt_run (within fr) t k nb); [apply lookup_insert_eq|..]. }
  eexists _, _. split; [exact Hv|]. split; [rewrite within_left; by apply T_return|].
  exists []. split; [simpl; by rewrite app_nil_r|]. split; [done|]. exists None. split; [done|]. by eapply told_none.
Qed.

Lemma exchange_dids u ch op x x' l v : exchange t u ch op x x' l -> dids v l = [].
Proof. intros [(d & d' & l0 & _ & _ & _ & ->)|(d & _ & _ & ->)]; [done|]. by destruct (decide (op = CHANRCV)). Qed.

(** An operation was executed. *)
Lemma goes_exec al0 k nb al i a ch x r w' : same_array al0 al -> map aerr al = map aerr al0 -> clean k al0 -> kont_ok b1 k nb al -> ended nb al = true -> distinct al -> entry al i a ch ->
  c.(world).(chans) !! ch = Some x -> exec_post (within (MkFrame al Tnil)) t i a ch x r w' -> goes_on al0 k r w'.
Proof.
  intros Hsa Herr Hcl Hk He Hd Hent Hx Hpost. assert (Hent' := Hent). destruct Hent' as (Hi & Hop & Hc). destruct r as [r| |u i'].
  - destruct Hpost as (-> & Hnb & x' & d & b' & m & Hsq & Hok & Hsl & -> & Hcase).
    eexists _, _. split.
    { apply (return_alt_run _ t k nb (MkFrame al Tnil) (Z.of_nat i)); [apply lookup_insert_eq|by eapply kont_ok_keep|done|].
      right. left. eauto. }
    unfold left_alone. cbn [chans frames blocks log within]. rewrite delete_insert_eq.
    rewrite within_blocked in Hnb by (exact Hx). assert (Hsl' : same_lens c.(world).(blocks) b') by (by eapply same_lens_trans).
    split.
    + destruct Hop as [Ho|Ho]; rewrite Ho in Hcase, Hnb |- *; simpl in Hcase.
      * destruct Hcase as (H1 & H2 & -> & _). by eapply T_send.
      * destruct Hcase as (H1 & H2 & -> & _). by eapply T_recv.
    + exists [m; Did t a.(aop) ch]. split; [done|].
      assert (Hm : forall u, dids u [m; Did t a.(aop) ch] = if t =? u then [(a.(aop), ch)] else []).
      { intros u. destruct (decide (a.(aop) = CHANRCV)); destruct Hcase as (_ & _ & -> & _); simpl; by destruct (t =? u). }
      split; [intros u Hu; rewrite Hm; by rewrite (proj2 (Z.eqb_neq _ _) (not_eq_sym Hu))|].
      exists (Some (a.(aop), ch)). rewrite Hm, Z.eqb_refl. split; [done|].
      destruct (map_aerr_lookup _ _ _ _ Herr Hi) as (a0 & Ha0 & He0).
      eapply told_done; [done|by apply (kont_ok_keep b1)|done|done|exact Ha0|by right].
  - done.
  - destruct Hpost as (-> & j & b & fru & x' & b' & l & Hq & Hf & Htc & Hbj & Hbo & Hsq & Hok & Hn & Hex & Hsl & -> & _).
    rewrite within_frame with (ch := ch) (x := x) (p := (u, j)) in Hf by done.
    eexists _, _. split; [reflexivity|]. split.
    + eapply (T_serve c t k ch x x' i a (MkFrame al Tnil) u j b fru b' l nb); try done.
      * by eapply kont_ok_keep.
      * by eapply same_lens_trans.
      * by eapply clean_errs.
    + exists l. split; [done|]. assert (Hno : forall v, dids v l = []) by (intros v; by eapply exchange_dids). by split.
Qed.

Lemma array_same w nb al al' : same_array al al' -> array_ok w nb al -> array_ok w nb al'.
Proof.
  intros Hs (He & Hd & Ha). split; [by rewrite (same_ended _ _ _ Hs)|]. split; [by eapply same_distinct|].
  intros i b ch Hb. destruct (same_entry _ _ _ _ _ Hs Hb) as (a & Hent & (_ & Hav & _)).
  destruct (Ha i a ch Hent) as (x & Hx & Hf & Hr & Hbl). exists x. split_and!; [done|done|done|].
  intros v Hv. apply Hbl. congruence.
Qed.

Lemma goes_wait al0 k al m lf ca' wt' : kont_ok b1 k false al -> array_ok c.(world) false al -> named al ->
  scanned (within (MkFrame al Tnil)) al 0 None None ->
  enqueue_post (within (MkFrame al Tnil)) t 0 al false None wt' ca' m lf ->
  goes_on al0 k Wait (MkWorld m (<[t := MkFrame lf Tnil]> c.(world).(frames)) b1 c.(world).(log)).
Proof.
  intros Hk Hok Hnam [_ Hsc] (Hsame & _ & Hent & Hoth & _).
  destruct (array_same _ _ _ _ Hsame Hok) as (He & Hd & Ha).
  eexists _, _. split; [reflexivity|]. split; [|exists []; split; [simpl; by rewrite app_nil_r|done]].
  apply T_wait; cbn [alts tagc]; try done.
  - by eapply same_named.
  - by eapply kont_same.
  - intros i b ch Hb. destruct (Hent i b ch ltac:(lia) Hb) as (x & Hx & Hcase).
    destruct (Ha i b ch Hb) as (x' & Hx' & Hf & Hr & Hbl). simpl in Hx. rewrite Hx in Hx'. injection Hx' as <-.
    destruct (same_entry _ _ _ _ _ Hsame Hb) as (a & Hea & (_ & _ & Hao)).
    destruct (Hsc i a ch Hea) as (x' & Hx' & Hno). simpl in Hx'. rewrite Hx in Hx'. injection Hx' as <-. rewrite <- Hao in Hno.
    unfold can_go in Hno. rewrite within_blocked in Hno by done. rewrite <- Hao in Hno.
    assert (Hck := ci_ok _ _ _ _ (i_chan c HI ch x Hx)).
    exists x. split; [done|]. split; [done|]. split; [done|].
    destruct (decide (x.(closed) = 0)) as [Hcl|Hcl].
    + destruct Hcase as [(Hop & Htag & q' & Hq & Hm)|[Hop _]].
      2: { unfold isopenfor in Hop. rewrite Hcl in Hop. done. }
      specialize (Hno Hop). left. split; [done|]. split; [done|]. split_and!.
      * intros Ho. rewrite Ho in Hno. simpl in Hno. destruct Hck. lia.
      * intros Ho. rewrite Ho in Hno. simpl in Hno. destruct Hck. lia.
      * tauto.
      * by exists q'.
    + destruct Hcase as [(Hop & _)|[_ Hm]]; [|by right]. exfalso. apply (Hno Hop). right.
      unfold isopenfor in Hop. rewrite (proj2 (Z.eqb_neq _ _) Hcl) in Hop. simpl in Hop.
      apply andb_true_iff in Hop as [Hrc Hn]. apply bool_decide_eq_true in Hrc. rewrite Hrc. simpl. lia.
  - intros ch Hno. apply (Hoth ch). intros j a _ Ha'. destruct (same_entry_l _ _ _ _ _ Hsame Ha') as (b & Hb & _). by apply (Hno j b).
Qed.

Lemma alt_run k nb al rs : clean k al -> kont_ok b1 k nb al -> array_ok c.(world) nb al ->
  exists r w, alt t al rs (MkWorld c.(world).(chans) c.(world).(frames) b1 c.(world).(log)) = Ok (r, w) /\ goes_on al k r w.
Proof.
  intros Hcl Hk Hok. unfold alt, putf. eff_prim.
  destruct (scan_run (within (MkFrame al Tnil)) nb al (within_good _) 0 0 None rs) as ([al' r] & Hrun & Hpost); [|by destruct Hok|lia|done|].
  { intros i a ch Ha. destruct Hok as (_ & _ & Hok). destruct (Hok i a ch Ha) as (x & Hx & _). by exists x. }
  assert (Herr := scan_errs _ _ _ _ _ _ _ _ _ Hrun).
  eff_with Hrun. eff_prim. cbn [chans frames blocks log within]. rewrite insert_insert_eq.
  change (MkWorld _ _ _ _) with (within (MkFrame al' Tnil)).
  destruct Hpost as (Hsame & _ & Hr). cbn [fst snd] in *.
  assert (Hok' := array_same _ _ _ _ Hsame Hok). assert (Hk' := kont_same _ _ _ _ _ Hsame Hk).
  assert (He' := proj1 Hok').
  destruct r as [[[[a j] nb'] rs']|].
  2: { eexists _, _. split; [reflexivity|]. eapply (goes_return al k nb (MkFrame al' Tnil)); try done. by left. }
  destruct Hr as (-> & Hj & Hnam & Hsc).
  assert (Hsc' : scanned (within (MkFrame al' Tnil)) al' 0 None a).
  { destruct a as [[i xa]|]; simpl in *.
    - destruct Hsc as [Hn|(j' & -> & Hj' & Ho & ch & x & Hc & Hx & Hop & Hgo)]; [done|]. right. exists j'. split_and!; [done|done|].
      split; [done|]. exists ch, x. split_and!; [done|done|done|]. unfold can_go in *. by rewrite within_blocked in *.
    - split; [done|]. intros j0 b ch Hb. destruct (proj2 Hsc j0 b ch Hb) as (x & Hx & Hno). exists x. split; [done|].
      intros Hop. specialize (Hno Hop). unfold can_go in *. by rewrite within_blocked in *. }
  destruct a as [[i a]|].
  - destruct Hsc' as [Hn|(j' & Hj' & Ha & Ho & ch & x & Hc & Hx & Hop & Hgo)]; [done|]. simpl in Hj'. subst j'.
    assert (Hent : entry al' i a ch) by (by split_and!). destruct Hok' as (_ & Hd & Hal).
    destruct (Hal i a ch Hent) as (x' & Hx' & Hf & Hrr & Hbl). simpl in Hx. rewrite Hx in Hx'. injection Hx' as <-.
    assert (Hci := i_chan c HI ch x Hx).
    destruct (altexec_run (within (MkFrame al' Tnil)) t i a ch x) with (rs := rs') as (r & w' & Hex & Hpost); try done.
    + apply Hci.
    + by apply (within_good _ ch).
    + by eapply vok_keep.
    + intros p fr b Hp Hfr Hb. by apply (within_vok (MkFrame al' Tnil) ch x p fr b).
    + rewrite within_blocked by done. apply Hci.
    + rewrite within_blocked by done. apply Hci.
    + exists r, w'. split; [done|]. by eapply goes_exec.
  - destruct nb.
    + eexists _, _. split; [reflexivity|]. eapply (goes_return al k true (MkFrame al' Tnil)); try done.
      right. right. split; [done|]. simpl. unfold Zlen. rewrite <- (Forall2_length _ _ _ Hsame). lia.
    + destruct (enqueue_all_run t al' (within (MkFrame al' Tnil)) 0 al' false None false) as (m & lf & wt' & ca' & cl' & Hrun2 & Hpost2);
        [apply lookup_insert_eq|done|done|apply Hok'|done| |].
      { intros i a ch _ Ha. destruct Hok' as (_ & _ & Hal). destruct (Hal i a ch Ha) as (x & Hx & _). by exists x. }
      eff_with Hrun2. unfold upd. cbn [chans frames blocks log within]. rewrite insert_insert_eq.
      assert (Hwait := goes_wait al k al' m lf ca' wt' Hk' Hok' Hnam Hsc' Hpost2).
      destruct wt'; [eexists _, _; split; [reflexivity|done]|].
      destruct Hpost2 as (Hs2 & _ & _ & _ & _ & Hm & Hca). rewrite (Hm eq_refl) in *. simpl in *.
      assert (Hok2 := array_same _ _ _ _ Hs2 Hok'). assert (Hk2 := kont_same _ _ _ _ _ Hs2 Hk').
      destruct ca' as [i|].
      * destruct (Hca i eq_refl) as [|(a & Ha & Ho)]; [done|].
        destruct (same_array_lookup_l _ _ _ _ Hs2 Ha) as (a2 & Ha2 & Hs3).
        eff_with (geta_run (within (MkFrame lf Tnil)) t i (MkFrame lf Tnil) a2 (lookup_insert_eq _ _ _) Ha2).
        erewrite eff_bind_ok by (apply puta_run, lookup_insert_eq). cbv beta. unfold upd. cbn [chans frames blocks log within alts tagc].
        rewrite insert_insert_eq. eexists _, _. split; [reflexivity|].
        assert (Hs4 : same_array lf (<[i := set_err Errcl a2]> lf)) by (by eapply same_array_insert).
        eapply (goes_return al k false (MkFrame (<[i := set_err Errcl a2]> lf) Tnil)).
        -- by eapply kont_same.
        -- rewrite (same_ended _ _ _ Hs4). apply Hok2.
        -- eapply same_array_trans; [done|]. by eapply same_array_trans.
        -- right. left. exists i, (set_err Errcl a2). split; [done|]. split.
           { simpl. apply list_lookup_insert_eq. by eapply lookup_lt_Some. }
           apply (same_alt_op _ _ Hs3) in Ho. done.
      * destruct cl'; [|eexists _, _; split; [reflexivity|done]].
        eexists _, _. split; [reflexivity|]. eapply (goes_return al k false (MkFrame lf Tnil)); try done; [apply Hok2|by eapply same_array_trans|by left].
Qed.
End Alt.

(** ** After the rendezvous *)

Section Resume.
Context (c : conf) (t : Z) (k : kont) (r : rv) (HI : Inv c) (Ht : c.(pcs) !! t = Some (Woken k r)).

Lemma woken_tag fr : c.(world).(frames) !! t = Some fr -> r <> Intred ->
  exists i a ch, entry fr.(alts) i a ch /\ fr.(tagc) = Tchan ch.
Proof.
  intros Hf Hr. destruct (i_thread c HI t _ Ht) as (fr' & (Hf' & _) & _ & _ & Htag). rewrite Hf in Hf'. injection Hf' as <-.
  destruct Htag as [[_ Has]|(ch & x & i & Htc & Hx & Hq & _)]; [by destruct r|].
  destruct (queued_waits c HI ch x (t, i) Hx Hq) as (y & fr' & a & _ & _ & Hf' & He & _). simpl in *.
  rewrite Hf in Hf'. injection Hf' as <-. by exists i, a, ch.
Qed.

Lemma resume_return fr fr' m l a' : c.(world).(frames) !! t = Some fr -> (r = Intred -> fr.(tagc) = Tnil) ->
  same_array fr.(alts) fr'.(alts) ->
  (forall i a ch x, entry fr.(alts) i a ch -> c.(world).(chans) !! ch = Some x -> taken_off x (t, i) (m !! ch)) ->
  (forall ch, (forall i a, ~ entry fr.(alts) i a ch) -> m !! ch = c.(world).(chans) !! ch) ->
  (if decide (r = Rzero) then exists i a ch, entry fr.(alts) i a ch /\ fr.(tagc) = Tchan ch /\ l = [Did t a.(aop) ch] else l = []) ->
  ret_ok false fr'.(alts) a' ->
  exists w', settle t k (Done a') (MkWorld m (<[t := fr']> c.(world).(frames)) c.(world).(blocks) (c.(world).(log) ++ l)) =
      Ok (Run (answer c.(world).(blocks) k a' fr'.(alts)) fr'.(alts), w') /\
    trans c (MkConf w' (<[t := Run (answer c.(world).(blocks) k a' fr'.(alts)) fr'.(alts)]> c.(pcs))) /\
    w'.(log) = c.(world).(log) ++ l /\ w'.(blocks) = c.(world).(blocks).
Proof.
  intros Hf Hr Hs Hoff Hoth Hlog Hret.
  destruct (i_thread c HI t _ Ht) as (fr0 & (Hf' & _ & He & Hk) & _). rewrite Hf in Hf'. injection Hf' as <-.
  eexists. split.
  { apply (return_alt_run (MkWorld m (<[t := fr']> c.(world).(frames)) c.(world).(blocks) (c.(world).(log) ++ l)) t k false);
      [apply lookup_insert_eq|by eapply kont_same|by rewrite (same_ended _ _ _ Hs)|done]. }
  unfold left_alone. simpl. rewrite delete_insert_eq. split; [by eapply T_resume|done].
Qed.

(** Where a thread goes from there: back to wait for the one that is on its way
    to meet it, or on, with the result of [alt]. *)
Definition resumed (fr : Frame) (p : pc) : Prop :=
  (p = InAlt k /\ r = Intred /\ fr.(tagc) <> Tnil) \/
  (exists a' al, p = Run (answer c.(world).(blocks) k a' al) al /\ same_array fr.(alts) al /\
     if decide (r = Intred) then a' = -1 else
       exists i b ch, a' = Z.of_nat i /\ entry al i b ch /\ fr.(tagc) = Tchan ch /\ b.(aerr) = answered r).

Lemma alt_resume_run : exists p w', (a ← alt_resume t r; settle t k a) c.(world) = Ok (p, w') /\
  trans c (MkConf w' (<[t := p]> c.(pcs))) /\
  forall fr, c.(world).(frames) !! t = Some fr -> resumed fr p /\ noted c t fr.(alts) k p w'.
Proof.
  destruct (i_thread c HI t _ Ht) as (fr & (Hf & Hd & He & Hk) & Hnam & Hops & Htag). unfold alt_resume.
  rewrite eff_bind_assoc. eff_prim. destruct (decide (r = Intred /\ tagc fr <> Tnil)) as [[-> Hne]|Hne].
  { eexists _, _. split; [reflexivity|]. split; [assert (Htr := T_again c t k fr Ht Hf Hne); by destruct c|].
    intros fr' Hf'. rewrite Hf in Hf'. injection Hf' as <-. split; [by left|]. exists []. by rewrite app_nil_r. }
  set (cc := if decide (r = Intred) then Tdead else tagc fr).
  assert (Hnil : r = Intred -> tagc fr = Tnil) by (intros ->; destruct (decide (tagc fr = Tnil)); [done|tauto]).
  set (w1 := MkWorld c.(world).(chans) (<[t := MkFrame fr.(alts) cc]> c.(world).(frames)) c.(world).(blocks) c.(world).(log)).
  destruct (dequeue_all_run t cc r cc fr.(alts) w1 0 fr.(alts) None) as (m & lf & a' & Hrun & Hpost);
    [apply lookup_insert_eq|done|done|done|done| |].
  { intros j b ch _ Hb. destruct (Hops j b ch Hb) as (x & Hx & _). by exists x. }
  assert (Hrun' : (putf t (MkFrame fr.(alts) cc);; dequeue_all fr.(alts) t 0 cc r None) c.(world) =
    Ok (a', MkWorld m (<[t := MkFrame lf cc]> c.(world).(frames)) c.(world).(blocks) c.(world).(log))).
  { unfold putf. eff_prim. fold w1. rewrite Hrun. unfold upd. simpl. by rewrite insert_insert_eq. }
  destruct Hpost as (Hs & _ & Hoff & Hoth & Hsel & Hno & _ & Herr). simpl in Hoff, Hoth.
  assert (Hoff' : forall i a ch x, entry fr.(alts) i a ch -> c.(world).(chans) !! ch = Some x -> taken_off x (t, i) (m !! ch)).
  { intros i a ch x Hi. apply (Hoff i a ch x ltac:(lia) Hi). }
  assert (Hoth' : forall ch, (forall i a, ~ entry fr.(alts) i a ch) -> m !! ch = c.(world).(chans) !! ch).
  { intros ch Hn. apply Hoth. intros j a _. apply Hn. }
  assert (Hret := resume_return fr (MkFrame lf cc) m). cbn [alts] in Hret.
  destruct Hsel as [->|(i & b & ch & -> & Hb & Hcc)].
  - assert (r = Intred) as ->.
    { destruct (decide (r = Intred)) as [|Hr]; [done|]. exfalso. destruct (woken_tag fr Hf Hr) as (i & b & ch & Hb & Htc).
      by apply (Hno i b ch); [lia|done| |]. }
    destruct (Hret [] (-1)) as (w' & Hset & Htr & Hlog & Hbl); try done; [by left|]. rewrite app_nil_r in Hset.
    eexists _, w'. split; [|split; [exact Htr|]].
    2: { intros fr' Hf'. rewrite Hf in Hf'. injection Hf' as <-.
         split; [right; exists (-1), lf; split_and!; [done|done|by rewrite decide_True]|].
         exists []. split; [exact Hlog|]. split; [done|]. exists None. split; [done|]. rewrite Hbl.
         apply (told_none _ _ _ false); [done|by eapply kont_same|by rewrite (same_ended _ _ _ Hs)|by left]. }
    etrans; [|exact Hset].
    unfold mbind, eff_bind in Hrun' |- *. simpl in Hrun' |- *. fold w1 in Hrun' |- *. rewrite Hrun'. reflexivity.
  - assert (Hr : r <> Intred) by (intros ->; unfold cc in Hcc; by rewrite decide_True in Hcc).
    assert (Hcc' : tagc fr = Tchan ch) by (unfold cc in Hcc; by rewrite decide_False in Hcc).
    destruct (same_entry_l _ _ _ _ _ Hs Hb) as (b' & Hb' & (_ & _ & Hao)).
    assert (Hok : ret_ok false lf (Z.of_nat i)). { right. left. exists i, b'. by destruct Hb' as (? & ? & _). }
    assert (Hlk : lf !! i = Some b') by apply Hb'. assert (Hac : b'.(ac) = Some ch) by apply Hb'.
    destruct (Hret (if decide (r = Rzero) then [Did t b'.(aop) ch] else []) (Z.of_nat i)) as (w' & Hset & Htr & Hlog & Hbl); try done.
    { destruct (decide (r = Rzero)); [|done]. exists i, b, ch. by rewrite Hao. }
    eexists _, w'. split; [|split; [exact Htr|]].
    2: { intros fr' Hf'. rewrite Hf in Hf'. injection Hf' as <-.
         assert (Her : b'.(aerr) = answered r).
         { destruct (Herr i b ch ltac:(lia) Hb Hcc) as (b2 & Hb2 & He2). rewrite Hlk in Hb2. by injection Hb2 as <-. }
         assert (Hk2 := kont_same _ _ _ _ _ Hs Hk). assert (He2 : ended false lf = true) by (by rewrite (same_ended _ _ _ Hs)).
         split.
         - right. exists (Z.of_nat i), lf. split; [done|]. split; [done|].
           rewrite decide_False by done. by exists i, b', ch.
         - eexists. split; [exact Hlog|]. rewrite Hbl. destruct r; [|clear Hret Htr Hset|done]; simpl.
           + split; [intros u Hu; by rewrite (proj2 (Z.eqb_neq _ _) (not_eq_sym Hu))|].
             exists (Some (b'.(aop), ch)). rewrite Z.eqb_refl. split; [done|].
             eapply told_done; [done|done|done|done|apply Hb|by left].
           + split; [done|]. exists None. split; [done|]. eapply told_none; [done|done|done|].
             right. left. exists i, b'. split_and!; [done|done|apply Hb'|done]. }
    etrans; [|exact Hset]. unfold mbind, eff_bind in Hrun' |- *. simpl in Hrun' |- *.
    fold w1 in Hrun' |- *. rewrite Hrun'. destruct (decide (r = Rzero)); [|by rewrite app_nil_r].
    unfold geta, deref, mbind, eff_bind. simpl. rewrite lookup_insert_eq. simpl. rewrite Hlk. unfold mret, eff_ret. simpl. by rewrite Hac.
Qed.
End Resume.
