(* ===== verification/ChanExec.v ===== *)
(** The code of channels makes only the steps of [trans].

    [legal c e]: in the configuration [c] the event [e] can happen, and if it is
    a call its arguments are in order.  Such an event neither aborts nor uses
    memory that was freed, and takes a step of [trans]. *)

From S2P Require Import Prelude Fcall Eff Chan ChanInv ChanKeep ChanWait ChanRun ChanLoops ChanCopy ChanAlt.

(** * Calls in order *)

(** The channel an element of the array names, if it is an operation. *)
Definition op_chan (a : Alt) : option Z := match a.(aop) with CHANSND | CHANRCV => a.(ac) | _ => None end.

Definition alt_okb (w : World) (a : Alt) : bool :=
  match op_chan a with
  | None => true
  | Some ch =>
      match w.(chans) !! ch with
      | None => false
      | Some x =>
          negb x.(freed) && ring_room x.(ch_f) x.(ch_s) &&
          match a.(av) with
          | None => true
          | Some p => match w.(blocks) !! p with Some d => x.(ch_e) <=? Zlen d | None => false end
          end
      end
  end.

(** Every channel is named once. *)
Definition array_okb (w : World) (nb : bool) (al : list Alt) : bool :=
  ended nb al && forallb (alt_okb w) al && bool_decide (NoDup (omap op_chan al)).

Definition elem_size (w : World) (c k : Z) : bool :=
  match w.(chans) !! c with Some x => x.(ch_e) =? k | None => false end.
(** The variable [v] of a caller. *)
Definition word_at (w : World) (p : Z) : bool :=
  match w.(blocks) !! p with Some d => Zlen d =? 4 | None => false end.

(** What fits in memory: sizes that do not overflow. *)
Definition size_ok (elemsize elemcnt : Z) : bool := (elemsize <? 2 ^ 31) && (elemcnt <? 2 ^ 31) && (elemsize * elemcnt <? 2 ^ 31).

Definition legal_call (w : World) (k : call) : bool :=
  let word op c p nb := elem_size w c 4 && word_at w p && array_okb w nb (runop_alts op c (Some p) nb) in
  match k with
  | Calt al => array_okb w false al || array_okb w true al
  | Crecv c v => array_okb w false (runop_alts CHANRCV c v false)
  | Cnbrecv c v => array_okb w true (runop_alts CHANRCV c v true)
  | Csend c v => array_okb w false (runop_alts CHANSND c v false)
  | Cnbsend c v => array_okb w true (runop_alts CHANSND c v true)
  | Csendul c _ p | Csendp c _ p => word CHANSND c p false
  | Crecvul c p | Crecvp c p => word CHANRCV c p false
  | Cnbsendul c _ p | Cnbsendp c _ p => word CHANSND c p true
  | Cnbrecvul c p | Cnbrecvp c p => word CHANRCV c p true
  | Cchancreate c e s => match w.(chans) !! c with None => size_ok e s | Some _ => false end
  | Cchaninit None _ _ _ => true
  | Cchaninit (Some c) e s v =>
      match w.(chans) !! c with
      | None => false
      | Some x => negb (x.(closed) =? 1) && negb (existsb full_entry x.(qentry)) && size_ok e s &&
          (Zlen v =? s) && forallb (fun d => Zlen d =? e) v
      end
  | Cchanfree c | Cchanclose c | Cchanclosing c => bool_decide (is_Some (w.(chans) !! c))
  end.

(** The indices of a thread's operations on [ch]. *)
Fixpoint ops_on (al : list Alt) (ch : Z) (i : nat) : list nat :=
  match al with
  | [] => []
  | a :: al => (if bool_decide (op_chan a = Some ch) then [i] else []) ++ ops_on al ch (S i)
  end.

Definition waitingb (x : pc) : bool := match x with InAlt _ | Woken _ _ => true | _ => false end.

(** Every thread that waits for an operation on [ch] is in its queue. *)
Definition all_queued (c : conf) (ch : Z) (x : Channel) : bool :=
  forallb (fun '(u, y) =>
    negb (waitingb y) ||
    match c.(world).(frames) !! u with
    | Some fr => forallb (fun i => bool_decide (is_Some (index_of (u, i) x.(qentry)))) (ops_on fr.(alts) ch 0)
    | None => true
    end) (map_to_list c.(pcs)).

Definition legal (c : conf) (e : event) : bool :=
  match e with
  | Call t k _ =>
      match c.(pcs) !! t with
      | Some (Run _ _) =>
          legal_call c.(world) k &&
          match k with
          | Cchaninit (Some ch) _ _ _ | Cchanfree ch =>
              match c.(world).(chans) !! ch with Some x => all_queued c ch x | None => false end
          | _ => true
          end
      | _ => false
      end
  | Meet t u =>
      match c.(pcs) !! t, c.(pcs) !! u with
      | Some (Serving _ u' _), Some (InAlt _) | Some (Closing _ u' _), Some (InAlt _) => u' =? u
      | _, _ => false
      end
  | Interrupt t => match c.(pcs) !! t with Some (InAlt _) => true | _ => false end
  | Resume t => match c.(pcs) !! t with Some (Woken _ _) => true | _ => false end
  | Next t => match c.(pcs) !! t with Some (CloseNext _ _) => true | _ => false end
  end.

(** No channel yet; the threads [ts] run. *)
Definition start (b : gmap Z (list Z)) (ts : list Z) : conf :=
  MkConf (MkWorld ∅ ∅ b []) (list_to_map ((fun t => (t, Run 0 [])) <$> ts)).

Inductive reach : conf -> Prop :=
  | reach_start b ts : reach (start b ts)
  | reach_step c e c' : reach c -> legal c e = true -> exec e c = Ok (tt, c') -> reach c'.

(** * What the conditions mean *)

Lemma op_chan_entry al i a ch : entry al i a ch <-> al !! i = Some a /\ op_chan a = Some ch.
Proof.
  unfold entry, is_op, op_chan. split.
  - intros (H1 & [H2|H2] & H3); rewrite H2; auto.
  - intros [H1 H2]. destruct (aop a); try done; auto.
Qed.

Lemma distinct_NoDup al : NoDup (omap op_chan al) -> distinct al.
Proof.
  induction al as [|a al IH]; intros Hn; [by intros [] ? ? ? ? (? & _)|].
  assert (Hal : NoDup (omap op_chan al)) by (simpl in Hn; destruct (op_chan a); [by apply NoDup_cons in Hn as [_ Hn]|done]).
  assert (Hno : forall j b ch, entry al j b ch -> op_chan a <> Some ch).
  { intros j b ch He Hc. apply op_chan_entry in He as [Hb Hbc]. simpl in Hn. rewrite Hc in Hn. apply NoDup_cons in Hn as [Hn _].
    apply Hn. apply list_elem_of_omap. exists b. split; [by eapply list_elem_of_lookup_2|done]. }
  intros [|i] [|j] b1 b2 ch H1 H2; [done| | |].
  - exfalso. apply op_chan_entry in H1 as [[= <-] H1]. by apply (Hno j b2 ch).
  - exfalso. apply op_chan_entry in H2 as [[= <-] H2]. by apply (Hno i b1 ch).
  - f_equal. by apply (IH Hal i j b1 b2 ch).
Qed.

Lemma alt_okb_ok w a ch : alt_okb w a = true -> op_chan a = Some ch -> alt_ok w a ch.
Proof.
  unfold alt_okb, alt_ok. intros H Hc. rewrite Hc in H. destruct (w.(chans) !! ch) as [x|]; [|done]. exists x.
  apply andb_true_iff in H as [H Hb]. apply andb_true_iff in H as [Hf Hr]. split_and!; [done|by apply negb_true_iff|done|].
  intros p Hp. rewrite Hp in Hb. destruct (w.(blocks) !! p) as [d|]; [|done]. exists d. split; [done|lia].
Qed.

Lemma array_okb_ok w nb al : array_okb w nb al = true -> array_ok w nb al.
Proof.
  unfold array_okb. intros H. apply andb_true_iff in H as [H Hn]. apply andb_true_iff in H as [He Ha].
  apply bool_decide_eq_true in Hn. split; [done|]. split; [by apply distinct_NoDup|].
  intros i a ch Hent. apply op_chan_entry in Hent as [Hi Hc]. apply alt_okb_ok; [|done].
  rewrite forallb_forall in Ha. apply Ha. eapply list_elem_of_In, list_elem_of_lookup_2, Hi.
Qed.

Lemma ops_on_spec al ch i : forall j, In j (ops_on al ch i) <-> exists k a, j = (i + k)%nat /\ entry al k a ch.
Proof.
  revert i. induction al as [|a al IH]; intros i j; simpl.
  - split; [done|]. by intros (k & a & _ & (? & _)).
  - rewrite in_app_iff, IH. split.
    + intros [H|(k & b & -> & Hb)]; [|exists (S k), b; split; [lia|done]].
      case_bool_decide as Hc; [|done]. destruct H as [<-|[]]. exists O, a. split; [lia|]. by apply op_chan_entry.
    + intros ([|k] & b & -> & Hb); [left|right; exists k, b; split; [lia|done]].
      apply op_chan_entry in Hb as [[= <-] Hb]. rewrite bool_decide_true by done. left. lia.
Qed.

Lemma all_queued_spec c ch x : all_queued c ch x = true -> forall u y fr i a, c.(pcs) !! u = Some y -> waiting y ->
  c.(world).(frames) !! u = Some fr -> entry fr.(alts) i a ch -> queued x.(qentry) (u, i).
Proof.
  intros H u y fr i a Hu Hw Hf He. unfold all_queued in H. rewrite forallb_forall in H.
  specialize (H (u, y)). cbv beta iota in H. rewrite Hf in H. assert (Hwb : waitingb y = true) by (by destruct y). rewrite Hwb in H.
  simpl in H. assert (Hin : In (u, y) (map_to_list c.(pcs))) by (by apply list_elem_of_In, elem_of_map_to_list).
  specialize (H Hin). rewrite forallb_forall in H. specialize (H i).
  assert (Hi : In i (ops_on fr.(alts) ch 0)) by (apply ops_on_spec; by exists i, a).
  specialize (H Hi). apply bool_decide_eq_true in H as [k Hk]. assert (Hs := index_of_spec (u, i) x.(qentry)). rewrite Hk in Hs.
  destruct Hs as [_ Hs]. by exists k.
Qed.

(** ** The arrays of the calls *)

Lemma channelsize_run w c k : elem_size w c k = true -> channelsize c k w = Ok (tt, w).
Proof. unfold elem_size, channelsize. intros H. destruct (w.(chans) !! c) as [x|] eqn:E; [|done]. eff_prim. by rewrite H. Qed.

Definition with_blocks (w : World) (b : gmap Z (list Z)) : World := MkWorld w.(chans) w.(frames) b w.(log).

Definition prepared (w : World) (p : eff World (list Alt * kont)) : Prop :=
  exists al kt b1 nb, p w = Ok ((al, kt), with_blocks w b1) /\ same_lens w.(blocks) b1 /\ array_ok w nb al /\ kont_ok b1 kt nb al /\ clean kt al.

Lemma prepared_runop w op c v nb wr : array_okb w nb (runop_alts op c v nb) = true ->
  match wr with Wint => True | Wrecv p _ | Wnbrecv p => is_Some (w.(blocks) !! p) end ->
  prepared w (mret (runop op c v nb wr)).
Proof.
  intros H Hw. exists (runop_alts op c v nb), (Krunop nb wr), w.(blocks), nb. split; [by destruct w|].
  split; [apply same_lens_refl|]. split; [by apply array_okb_ok|].
  split; [|by intros a [= <-]]. split; [by destruct nb; auto|]. split; [done|]. by destruct wr.
Qed.

Lemma word_split w op c p nb : elem_size w c 4 && word_at w p && array_okb w nb (runop_alts op c (Some p) nb) = true ->
  elem_size w c 4 = true /\ (exists d, w.(blocks) !! p = Some d /\ Zlen d = 4) /\ array_okb w nb (runop_alts op c (Some p) nb) = true.
Proof.
  intros H. apply andb_true_iff in H as [H H3]. apply andb_true_iff in H as [H1 H2]. split; [done|]. split; [|done].
  unfold word_at in H2. destruct (w.(blocks) !! p) as [d|]; [|done]. exists d. split; [done|lia].
Qed.

Lemma prepared_send w c p d0 op nb : elem_size w c 4 && word_at w p && array_okb w nb (runop_alts op c (Some p) nb) = true ->
  Zlen d0 = 4 -> prepared w (channelsize c 4;; putb p d0;; mret (runop op c (Some p) nb Wint)).
Proof.
  intros H Hd. apply word_split in H as (H1 & (d & Hp & Hl) & H3).
  exists (runop_alts op c (Some p) nb), (Krunop nb Wint), (<[p := d0]> w.(blocks)), nb.
  split; [|split; [|split; [by apply array_okb_ok|split; [split; [by destruct nb; auto|done]|by intros a [= <-]]]]].
  - rewrite (eff_bind_ok _ _ _ _ _ (channelsize_run _ _ _ H1)). unfold putb. by eff_prim.
  - intros q e Hq. destruct (decide (p = q)) as [<-|Hne]; [|exists e; by rewrite lookup_insert_ne].
    rewrite lookup_insert_eq. exists d0. split; [done|]. rewrite Hp in Hq. injection Hq as <-. lia.
Qed.

Lemma prepared_recv w c p nb wr : elem_size w c 4 && word_at w p && array_okb w nb (runop_alts CHANRCV c (Some p) nb) = true ->
  match wr with Wint => True | Wrecv q _ | Wnbrecv q => q = p end ->
  prepared w (channelsize c 4;; mret (runop CHANRCV c (Some p) nb wr)).
Proof.
  intros H Hw. apply word_split in H as (H1 & (d & Hp & Hl) & H3).
  destruct (prepared_runop w CHANRCV c (Some p) nb wr H3) as (al & kt & b1 & nb' & Hrun & Hrest).
  { destruct wr; [done| |]; rewrite Hw; by exists d. }
  exists al, kt, b1, nb'. split; [|done]. by rewrite (eff_bind_ok _ _ _ _ _ (channelsize_run _ _ _ H1)).
Qed.

Lemma le4_len x : Zlen (le 4 x) = 4.
Proof. done. Qed.

Lemma prepare_run w k p : legal_call w k = true -> prepare k = Some p -> prepared w p.
Proof.
  intros H Hp. destruct k; simpl in H, Hp; try done; injection Hp as <-;
    first [by apply prepared_runop | by apply prepared_send | by apply prepared_recv | idtac].
  apply orb_true_iff in H as [H|H]; [exists al, Kalt, w.(blocks), false|exists al, Kalt, w.(blocks), true];
    (split; [by destruct w|]; split; [apply same_lens_refl|]; split; [by apply array_okb_ok|done]).
Qed.

(** * Every event takes a step *)

Definition steps_to (c : conf) (t : Z) (r : outcome (pc * World)) : Prop :=
  exists x w', r = Ok (x, w') /\ trans c (MkConf w' (<[t := x]> c.(pcs))).

Lemma enter_noted c t k rs p : Inv c -> idle c t -> legal_call c.(world) k = true -> prepare k = Some p ->
  exists al kt w1 x w', p c.(world) = Ok ((al, kt), w1) /\ enter t k rs c.(world) = Ok (x, w') /\
    trans c (MkConf w' (<[t := x]> c.(pcs))) /\ noted c t al kt x w'.
Proof.
  intros HI Ht Hleg Hp. destruct (prepare_run _ _ _ Hleg Hp) as (al & kt & b1 & nb & Hrun & Hl & Hok & Hk & Hcl).
  destruct (alt_run c t b1 HI Ht Hl kt nb al rs Hcl Hk Hok) as (r & w & Hr & (x & w' & Hset & Htr)).
  exists al, kt, (with_blocks c.(world) b1), x, w'. split; [exact Hrun|]. split; [|exact Htr].
  unfold enter. rewrite Hp. rewrite (eff_bind_ok _ _ _ _ _ Hrun). cbv beta iota.
  unfold with_blocks. by rewrite (eff_bind_ok _ _ _ _ _ Hr).
Qed.

Lemma enter_alt c t k rs p : Inv c -> idle c t -> legal_call c.(world) k = true -> prepare k = Some p ->
  steps_to c t (enter t k rs c.(world)).
Proof.
  intros HI Ht Hleg Hp. destruct (enter_noted c t k rs p HI Ht Hleg Hp) as (al & kt & w1 & x & w' & _ & Hrun & Htr & _).
  by exists x, w'.
Qed.

Lemma quiet_return c t v : Inv c -> idle c t -> trans c (MkConf c.(world) (<[t := Run v []]> c.(pcs))).
Proof.
  intros HI Ht. assert (H := T_return c t v [] c.(world).(blocks) Ht (same_lens_refl _)).
  rewrite delete_id in H by (by apply idle_noframe). by destruct c as [[]].
Qed.

Lemma ring_zero s : 0 <= s < 2 ^ 31 -> ring 0 s.
Proof. intros H. right. lia. Qed.

Lemma contents_empty x : x.(ch_n) = 0 -> contents x = [].
Proof. unfold contents. by intros ->. Qed.

Lemma fresh_ok e s v : 0 < e < 2 ^ 31 -> 0 <= s < 2 ^ 31 -> Zlen v = s -> Forall (fun d => Zlen d = e) v ->
  forall q, (forall p, ~ queued q p) -> chan_ok (MkChannel s 0 0 e false q 0 v).
Proof.
  intros He Hs Hv Hd q Hq. constructor; simpl; try done; try lia.
  - by apply ring_zero.
  - intros i j p Hi. destruct (Hq p). by exists i.
Qed.

Lemma size_ok_spec e s : size_ok e s = true -> (s <? 0) || (e <=? 0) = false -> 0 < e < 2 ^ 31 /\ 0 <= s < 2 ^ 31.
Proof. unfold size_ok. intros H H2. zbool; lia. Qed.

Lemma replicate_len {A} (n : Z) (d : A) : 0 <= n -> Zlen (replicate (Z.to_nat n) d) = n.
Proof. intros H. unfold Zlen. rewrite length_replicate. lia. Qed.

Lemma waits_not_missing c u y fr i a ch : Inv c -> c.(pcs) !! u = Some y -> waiting y -> c.(world).(frames) !! u = Some fr ->
  entry fr.(alts) i a ch -> c.(world).(chans) !! ch <> None.
Proof.
  intros HI Hy Hw Hf He Hn. destruct (waits_frame c HI u y Hy Hw) as (k & _ & (fr' & (Hf' & _) & _ & Hops & _)).
  rewrite Hf in Hf'. injection Hf' as <-. destruct (Hops i a ch He) as (x & Hx & _). congruence.
Qed.

Section Enter.
Context (c : conf) (t : Z) (HI : Inv c) (Ht : idle c t).

Lemma enter_create ch e s rs : c.(world).(chans) !! ch = None -> size_ok e s = true ->
  steps_to c t (enter t (Cchancreate ch e s) rs c.(world)).
Proof.
  intros Hx Hs. unfold enter, chancreate, steps_to. simpl.
  destruct ((s <? 0) || (e <=? 0)) eqn:Hb; [eexists _, _; split; [reflexivity|]; by apply quiet_return|].
  destruct (size_ok_spec e s Hs Hb) as [He Hs'].
  eexists _, _. split; [reflexivity|]. cbn [chans frames blocks log]. apply T_make; try done.
  - apply fresh_ok; [done|done|apply replicate_len; lia| |by intros p [[] Hj]]. apply Forall_replicate, replicate_len. lia.
  - by intros p [[] Hj].
  - congruence.
  - intros u y fr i a Hu Hw Hf He'. by apply (waits_not_missing c u y fr i a ch HI Hu Hw Hf He').
Qed.

Lemma enter_init ch x e s v rs : c.(world).(chans) !! ch = Some x -> x.(closed) <> 1 -> existsb full_entry x.(qentry) = false ->
  size_ok e s = true -> Zlen v = s -> forallb (fun d => Zlen d =? e) v = true -> all_queued c ch x = true ->
  steps_to c t (enter t (Cchaninit (Some ch) e s v) rs c.(world)).
Proof.
  intros Hx Hcl Hq Hs Hv Hd Hall. unfold enter, chaninit, steps_to. cbn [prepare].
  destruct ((s <? 0) || (e <=? 0)) eqn:Hb; [eexists _, _; split; [reflexivity|]; by apply quiet_return|].
  destruct (size_ok_spec e s Hs Hb) as [He Hs'].
  assert (Hempty : forall p, ~ queued x.(qentry) p) by (assert (H := existsb_queued x.(qentry)); by rewrite Hq in H).
  erewrite eff_bind_ok; [|erewrite eff_bind_ok by (by apply deref_run); reflexivity].
  eexists _, _. split; [reflexivity|]. cbn [chans frames blocks log]. apply T_make; try done.
  - apply fresh_ok; try done. apply Forall_forall. intros d Hin. rewrite forallb_forall in Hd. apply Z.eqb_eq, Hd. by apply list_elem_of_In.
  - intros x' Hx'. congruence.
  - intros u y fr i a Hu Hw Hf He'. by destruct (Hempty _ (all_queued_spec c ch x Hall u y fr i a Hu Hw Hf He')).
Qed.

Lemma enter_free ch x rs : c.(world).(chans) !! ch = Some x -> all_queued c ch x = true ->
  steps_to c t (enter t (Cchanfree ch) rs c.(world)).
Proof.
  intros Hx Hall. unfold enter, steps_to. cbn [prepare]. unfold chanfree.
  destruct (chanfree_run c.(world) ch x Hx) as (o & Hrun & Ho). rewrite (eff_bind_ok _ _ _ _ _ Hrun).
  eexists _, _. split; [reflexivity|]. eapply T_free; try done. by apply all_queued_spec.
Qed.

(** From the entry [i] on, in [chanclose]. *)
Lemma close_steps ch x i (w : World) v : may_close c t ch x i -> w = altered c.(world) ch (Some (set_closed 1 x)) ->
  exists r w', close_from ch i w = Ok (r, w') /\ trans c (MkConf w' (<[t := close_settle ch r v]> c.(pcs))).
Proof.
  intros Hmay ->. assert (Hx := proj1 Hmay). assert (Hci := i_chan c HI ch x Hx).
  set (w := altered c.(world) ch (Some (set_closed 1 x))).
  assert (Hunc : forall p, unc w p <-> unc c.(world) p) by (intros; by apply unc_ext).
  destruct (close_from_run w ch (set_closed 1 x) i) as (r & w' & Hrun & Hpost).
  { apply altered_chan. } { done. }
  { intros p Hp. destruct (inv_good c HI ch x Hx p Hp) as (fr & a & H). by exists fr, a. }
  { intros Hb. apply (ci_recv _ _ _ _ Hci). by rewrite (blocked_ext c.(world) w) in Hb. }
  exists r, w'. split; [done|]. destruct r as [[u j]|].
  - destruct Hpost as (jj & fr & Hij & Hq & Hf & Htc & Hk & ->).
    eapply (T_close c t ch x i u j jj fr); try done.
  - destruct Hpost as (Hk & o & -> & Ho). unfold w. rewrite altered_altered. eapply (T_closed c t ch x i v o); done.
Qed.

Lemma enter_close ch x rs : c.(world).(chans) !! ch = Some x -> steps_to c t (enter t (Cchanclose ch) rs c.(world)).
Proof.
  intros Hx. unfold enter, steps_to. cbn [prepare]. unfold chanclose. rewrite eff_bind_assoc. eff_prim.
  destruct (Z.eqb_spec x.(closed) 0) as [Hc|Hc]; simpl.
  - destruct (close_steps ch x 0 (altered c.(world) ch (Some (set_closed 1 x))) 0) as (r & w' & Hrun & Htr); [|done|].
    { split; [done|]. left. auto. }
    exists (close_settle ch r 0), w'. split; [|done]. rewrite eff_bind_assoc.
    change (putc ch (set_closed 1 x)) with (fun w : World => Ok (tt, altered w ch (Some (set_closed 1 x)))).
    erewrite eff_bind_ok; [|reflexivity]. cbv beta. rewrite eff_bind_assoc. by rewrite (eff_bind_ok _ _ _ _ _ Hrun).
  - eexists _, _. split; [reflexivity|]. by apply quiet_return.
Qed.

Lemma enter_steps k rs : legal c (Call t k rs) = true -> steps_to c t (enter t k rs c.(world)).
Proof.
  destruct Ht as (r0 & al0 & Hpc). simpl. rewrite Hpc. intros H. apply andb_true_iff in H as [H Hall].
  destruct (prepare k) as [p|] eqn:Hp; [by eapply enter_alt|].
  destruct k; try done; simpl in H.
  - destruct (c.(world).(chans) !! c0) eqn:Hx; [done|]. by apply enter_create.
  - destruct c0 as [ch|]; [|].
    + destruct (c.(world).(chans) !! ch) as [x|] eqn:Hx; [|done]. repeat (apply andb_true_iff in H as [H ?]).
      eapply enter_init; try done; [|by apply negb_true_iff|by apply Z.eqb_eq]. intros Hc. by rewrite Hc in H.
    + unfold enter, chaninit, steps_to. cbn [prepare]. exists (Run (-1) []), c.(world). split; [by destruct (_ || _)|by apply quiet_return].
  - destruct (c.(world).(chans) !! c0) as [x|] eqn:Hx; [|done]. by eapply enter_free.
  - apply bool_decide_eq_true in H as [x Hx]. by eapply enter_close.
  - apply bool_decide_eq_true in H as [x Hx]. unfold enter, chanclosing, steps_to. cbn [prepare]. rewrite eff_bind_assoc. eff_prim.
    eexists _, _. split; [reflexivity|]. by apply quiet_return.
Qed.
End Enter.

(** ** The other events *)

Lemma chan_inworld_run {A} (f : eff World A) c x w : f c.(world) = Ok (x, w) -> inworld f c = Ok (x, MkConf w c.(pcs)).
Proof. intros H. unfold inworld. by rewrite H. Qed.

Lemma steps_exec c t (f : eff World pc) : steps_to c t (f c.(world)) ->
  exists c', (x ← inworld f; goto t x) c = Ok (tt, c') /\ trans c c'.
Proof.
  intros (x & w' & Hrun & Htr). eexists. split; [|exact Htr]. rewrite (eff_bind_ok _ _ _ _ _ (chan_inworld_run _ _ _ _ Hrun)). done.
Qed.

Lemma served_run c t k u i ku : Inv c -> c.(pcs) !! t = Some (Serving k u i) -> c.(pcs) !! u = Some (InAlt ku) ->
  exists nb fr a ch, served t k i c.(world) = Ok (Run (answer c.(world).(blocks) k (Z.of_nat i) fr.(alts)) fr.(alts), MkWorld c.(world).(chans) (delete t c.(world).(frames)) c.(world).(blocks)
    (c.(world).(log) ++ [Did t a.(aop) ch])) /\ c.(world).(frames) !! t = Some fr /\ entry fr.(alts) i a ch /\
    kont_ok c.(world).(blocks) k nb fr.(alts) /\ ended nb fr.(alts) = true.
Proof.
  intros HI Ht Hu. destruct (i_thread c HI t _ Ht) as (fr & nb & a & ch & (Hf & _ & He & Hk) & Hent & _).
  assert (Ha : alts fr !! i = Some a) by apply Hent. assert (Hc : ac a = Some ch) by apply Hent.
  exists nb, fr, a, ch. split; [|by split_and!; try apply Hent]. unfold served.
  rewrite (eff_bind_ok _ _ _ _ _ (geta_run _ _ _ _ _ Hf Ha)).
  erewrite eff_bind_ok by (by apply nonnil_run). erewrite eff_bind_ok by (apply record_run).
  apply (return_alt_run (MkWorld c.(world).(chans) c.(world).(frames) c.(world).(blocks) (c.(world).(log) ++ [Did t a.(aop) ch])) t k nb);
    try done. right. left. exists i, a. by destruct Hent as (? & ? & _).
Qed.

Lemma exec_trans c e : Inv c -> legal c e = true -> exists c', exec e c = Ok (tt, c') /\ trans c c'.
Proof.
  intros HI Hleg. destruct e as [t k rs|t u|t|t|t]; cbn [exec].
  - apply steps_exec. apply enter_steps; [done| |done]. simpl in Hleg.
    destruct (c.(pcs) !! t) as [[r al| | | | |]|] eqn:Ht; try done. by exists r, al.
  - simpl in Hleg. destruct (c.(pcs) !! t) as [y|] eqn:Ht; [|done]. eff_prim.
    destruct y as [| | |k u' i|ch u' i|]; try done; (destruct (c.(pcs) !! u) as [[|ku| | | |]|] eqn:Hu; try done);
      apply Z.eqb_eq in Hleg as ->; eff_prim; rewrite Z.eqb_refl; cbv [negb].
    + assert (t <> u) by congruence. destruct (served_run c t k u i ku HI Ht Hu) as (nb & fr & a & ch & Hrun & Hf & He & _).
      unfold goto at 1. eff_prim.
      match goal with |- context [(_ ≫= _) ?c1] => rewrite (eff_bind_ok _ _ _ _ _ (chan_inworld_run _ c1 _ _ Hrun)) end.
      eexists. split; [reflexivity|]. exact (T_meet c t u k ku i fr a ch _ fr.(alts) Ht Hu Hf He).
    + eexists. split; [reflexivity|]. exact (T_meet_close c t u ch i ku Ht Hu).
  - simpl in Hleg. destruct (c.(pcs) !! t) as [[|k| | | |]|] eqn:Ht; try done. eff_prim. eexists. split; [reflexivity|]. exact (T_interrupt c t k Ht).
  - simpl in Hleg. destruct (c.(pcs) !! t) as [[| |k r| | |]|] eqn:Ht; try done. eff_prim. apply steps_exec. destruct (alt_resume_run c t k r HI Ht) as (p & w' & Hrun & Htr & _). by exists p, w'.
  - simpl in Hleg. destruct (c.(pcs) !! t) as [[| | | | |ch i]|] eqn:Ht; try done. eff_prim.
    destruct (i_thread c HI t _ Ht) as [_ (x & Hx & Hcl & _)].
    destruct (close_steps c t HI ch x i (altered c.(world) ch (Some (set_closed 1 x))) 0) as (r & w' & Hrun & Htr); [by split; auto|done|].
    assert (Hw : altered c.(world) ch (Some (set_closed 1 x)) = c.(world)).
    { rewrite altered_id; [done|]. rewrite Hx. f_equal. destruct x; simpl in *. by subst. }
    rewrite Hw in Hrun. rewrite (eff_bind_ok _ _ _ _ _ (chan_inworld_run _ _ _ _ Hrun)). eexists. split; [reflexivity|]. exact Htr.
Qed.

Lemma start_pcs b ts t y : (start b ts).(pcs) !! t = Some y -> y = Run 0 [].
Proof.
  simpl. intros H. apply elem_of_list_to_map_2 in H. apply list_elem_of_fmap in H as (? & [= -> ->] & _). done.
Qed.

Lemma chan_start_inv b ts : Inv (start b ts).
Proof.
  constructor.
  - done.
  - intros t y Ht. by rewrite (start_pcs b ts t y Ht).
  - done.
  - intros u u' z z' t Hu _ Hz. by rewrite (start_pcs b ts u z Hu) in Hz.
  - intros u u' z z' ch i i' Hu _ Hz. rewrite (start_pcs b ts u z Hu) in Hz. destruct Hz as [|(? & ? & ? & _)]; done.
Qed.

Lemma chan_reach_inv c : reach c -> Inv c.
Proof.
  induction 1 as [b ts|c e c' _ IH Hleg Hrun]; [apply chan_start_inv|].
  destruct (exec_trans c e IH Hleg) as (c2 & Hrun2 & Htr). rewrite Hrun in Hrun2. injection Hrun2 as <-. by eapply trans_inv.
Qed.

(** What holds at the start and is kept by the steps holds always. *)
Lemma reach_ind_trans (P : conf -> Prop) : (forall b ts, P (start b ts)) ->
  (forall c c', Inv c -> P c -> trans c c' -> P c') -> forall c, reach c -> P c.
Proof.
  intros Hs Hk c. induction 1 as [b ts|c e c' Hr IH Hleg Hrun]; [apply Hs|].
  assert (HI := chan_reach_inv c Hr). destruct (exec_trans c e HI Hleg) as (c2 & Hrun2 & Htr). rewrite Hrun in Hrun2.
  injection Hrun2 as <-. by eapply Hk.
Qed.

(** * What calls say *)

(** The call of [alt] that the thread is in when [e] happens, if it is in one:
    its array and what is done with its result. *)
Definition calling (c : conf) (e : event) (t : Z) : option (list Alt * kont) :=
  let inside :=
    match c.(pcs) !! t with
    | Some (InAlt k | Woken k _ | Serving k _ _) => fr ← c.(world).(frames) !! t; Some (fr.(alts), k)
    | _ => None
    end in
  match e with
  | Call u k _ =>
      if u =? t then p ← prepare k; match p c.(world) with Ok (x, _) => Some x | _ => None end else inside
  | _ => inside
  end.

(** A thread that serves another in [runop] has no error in its array. *)
Definition serving_clean (c : conf) : Prop :=
  forall t k u i fr, c.(pcs) !! t = Some (Serving k u i) -> c.(world).(frames) !! t = Some fr -> clean k fr.(alts).

Lemma serving_clean_trans c c' : Inv c -> serving_clean c -> trans c c' -> serving_clean c'.
Proof.
  intros HI HC Htr. inversion Htr; subst; intros s k0 v0 i0 fr0; cbn [pcs world frames]; intros Hs Hf.
  all: repeat match goal with
    | H : <[_ := _]> _ !! _ = Some _ |- _ => apply lookup_insert_Some in H as [[? ?]|[? H]]; simplify_eq
    | H : delete _ _ !! _ = Some _ |- _ => apply lookup_delete_Some in H as [? H]
    end; try done; simpl; first [by eapply HC | exfalso; by eapply queued_not_idle].
Qed.

Lemma chan_reach_clean c : reach c -> serving_clean c.
Proof.
  apply reach_ind_trans; [|exact serving_clean_trans].
  intros b ts t k u i fr Ht. by apply start_pcs in Ht.
Qed.

(** ** Calls that note nothing *)

Definition keeps_log {A} (f : eff World A) : Prop := forall w x w', f w = Ok (x, w') -> w'.(log) = w.(log).

Lemma keeps_bind {A B} (f : eff World A) (g : A -> eff World B) : keeps_log f -> (forall x, keeps_log (g x)) -> keeps_log (f ≫= g).
Proof. intros Hf Hg w y w' H. apply eff_bind_inv in H as (x & w1 & H1 & H2). rewrite (Hg x _ _ _ H2). by eapply Hf. Qed.
Lemma keeps_ret {A} (x : A) : keeps_log (mret x : eff World A).
Proof. by intros w y w' [= _ <-]. Qed.
Lemma keeps_abort {A} : keeps_log (abort : eff World A).
Proof. done. Qed.
Lemma keeps_fault {A} : keeps_log (fault : eff World A).
Proof. done. Qed.
Lemma keeps_deref {A} (st : World -> gmap Z A) p : keeps_log (deref st p).
Proof. intros w y w' H. unfold deref in H. destruct (st w !! p); by simplify_eq. Qed.
Lemma keeps_nonnil p : keeps_log (nonnil p : eff World Z).
Proof. destruct p; [apply keeps_ret|apply keeps_fault]. Qed.
Lemma keeps_modify (f : World -> World) : (forall w, (f w).(log) = w.(log)) -> keeps_log (modify f).
Proof. intros H w y w' [= _ <-]. apply H. Qed.

(** A computation made of commands that keep the log. *)
Ltac keep_log :=
  repeat first
  [ apply keeps_bind; [|intros ?] | apply keeps_ret | apply keeps_abort | apply keeps_fault | apply keeps_deref | apply keeps_nonnil
  | apply keeps_modify; reflexivity | case_match ].

Lemma keeps_geta p : keeps_log (geta p).
Proof. unfold geta. keep_log. Qed.
Lemma keeps_chanfree c : keeps_log (_chanfree c).
Proof. unfold _chanfree, putc, free. keep_log. Qed.

Lemma keeps_close_loop c q : forall i, keeps_log (close_loop c q i).
Proof.
  induction q as [|[p|] q IH]; intros i; cbn [close_loop]; [apply keeps_ret| |apply IH].
  unfold gettag, puttag, putf. apply keeps_bind; [apply keeps_geta|intros a]. keep_log; apply IH.
Qed.

Lemma keeps_close_from c i : keeps_log (close_from c i).
Proof.
  unfold close_from, _chanfree, putc, free. apply keeps_bind; [apply keeps_deref|intros x].
  apply keeps_bind; [apply keeps_close_loop|intros r]. keep_log.
Qed.

Lemma keeps_chanclose c : keeps_log (chanclose c).
Proof.
  unfold chanclose, putc. apply keeps_bind; [apply keeps_deref|intros x]. case_match; [apply keeps_ret|].
  apply keeps_bind; [by apply keeps_modify|intros _]. apply keeps_bind; [apply keeps_close_from|intros r]. apply keeps_ret.
Qed.

(** The other calls make a channel, or note nothing. *)
Lemma enter_other t k rs w x w' : prepare k = None -> enter t k rs w = Ok (x, w') ->
  exists l, w'.(log) = w.(log) ++ l /\ forall u, dids u l = [].
Proof.
  intros Hp H. unfold enter in H. rewrite Hp in H.
  assert (Hk : forall f : eff World pc, keeps_log f -> f w = Ok (x, w') -> exists l, w'.(log) = w.(log) ++ l /\ forall u, dids u l = []).
  { intros f Hf Hr. exists []. rewrite app_nil_r. split; [by eapply Hf|done]. }
  destruct k as [| | | | | | | | | | | | |c e s|[c|] e s v|c|c|c]; try done.
  - unfold chancreate in H. destruct (_ || _); [eapply Hk; [|exact H]; keep_log|].
    injection H as _ <-. by exists [Made c].
  - unfold chaninit in H. destruct (_ || _); [eapply Hk; [|exact H]; keep_log|].
    unfold deref, mbind, eff_bind, putc, modify, record in H. destruct (w.(chans) !! c); [|done]. injection H as _ <-. by exists [Made c].
  - unfold chaninit in H. destruct (_ || _); (eapply Hk; [|exact H]; keep_log).
  - eapply Hk; [|exact H]. apply keeps_bind; [apply keeps_chanfree|intros _; apply keeps_ret].
  - eapply Hk; [|exact H]. apply keeps_bind; [apply keeps_chanclose|intros [r v]; apply keeps_ret].
  - eapply Hk; [|exact H]. unfold chanclosing. keep_log.
Qed.

(** ** What a step notes *)

(** The notes [l] of a step, and the answer of a call that it ends. *)
Definition says (c : conf) (e : event) (c' : conf) (l : list note) (t : Z) : Prop :=
  match calling c e t, c'.(pcs) !! t with
  | Some (al0, k), Some (Run v al) => exists o, dids t l = option_list o /\ told al0 c'.(world).(blocks) k v al o
  | _, _ => dids t l = []
  end.

Lemma says_quiet c e c' l t : dids t l = [] -> calling c e t = None \/ (forall v al, c'.(pcs) !! t <> Some (Run v al)) -> says c e c' l t.
Proof.
  intros Hl Hc. unfold says. destruct (calling c e t) as [[al0 k]|]; [|done]. destruct Hc as [|Hc]; [done|].
  destruct (c'.(pcs) !! t) as [[v al| | | | |]|]; try done. by destruct (Hc v al).
Qed.

(** A thread that the step does not move. *)
Lemma says_still c e c' l t : dids t l = [] -> c'.(pcs) !! t = c.(pcs) !! t -> (forall k rs, e <> Call t k rs) -> says c e c' l t.
Proof.
  intros Hl Hp He. apply says_quiet; [done|]. rewrite Hp. destruct (c.(pcs) !! t) as [y|] eqn:Ht; [|by right].
  destruct y; try (by right). left. unfold calling. rewrite Ht. destruct e as [u k rs| | | |]; try done.
  destruct (Z.eqb_spec u t) as [->|]; [|done]. by destruct (He k rs).
Qed.

Lemma noted_says c e t al k p w' : calling c e t = Some (al, k) -> noted c t al k p w' -> (forall u, u <> t -> forall k rs, e <> Call u k rs) ->
  exists l, w'.(log) = c.(world).(log) ++ l /\ forall u, says c e (MkConf w' (<[t := p]> c.(pcs))) l u.
Proof.
  intros Hc (l & Hl & Hother & Hp) He. exists l. split; [done|]. intros u. destruct (decide (u = t)) as [->|Hne].
  - unfold says. rewrite Hc. cbn [pcs world]. rewrite lookup_insert_eq. by destruct p.
  - apply says_still; [by apply Hother|simpl; by rewrite lookup_insert_ne|by apply He].
Qed.

Lemma exec_says c e c' : reach c -> legal c e = true -> exec e c = Ok (tt, c') ->
  exists l, c'.(world).(log) = c.(world).(log) ++ l /\ forall t, says c e c' l t.
Proof.
  intros Hr Hleg Hex. assert (HI := chan_reach_inv c Hr). assert (HC := chan_reach_clean c Hr).
  assert (Hmove : forall t y, c' = MkConf c.(world) (<[t := y]> c.(pcs)) -> (forall k rs, e <> Call t k rs) -> (forall u k rs, e <> Call u k rs) ->
     (calling c e t = None \/ forall v al, y <> Run v al) -> exists l, c'.(world).(log) = c.(world).(log) ++ l /\ forall t, says c e c' l t).
  { intros t y -> He He' Hy. exists []. split; [simpl; by rewrite app_nil_r|]. intros u. destruct (decide (u = t)) as [->|Hne].
    - apply says_quiet; [done|]. destruct Hy as [|Hy]; [by left|right]. intros v al. simpl. rewrite lookup_insert_eq. intros [= ->]. by destruct (Hy v al).
    - apply says_still; [done|simpl; by rewrite lookup_insert_ne|by apply He']. }
  destruct e as [t k rs|t u|t|t|t]; cbn [exec] in Hex.
  - simpl in Hleg. destruct (c.(pcs) !! t) as [[r0 al0| | | | |]|] eqn:Ht; try done. apply andb_true_iff in Hleg as [Hleg _].
    assert (Hid : idle c t) by (by exists r0, al0).
    apply eff_bind_inv in Hex as (x & c1 & Hx & Hex). injection Hex as <-.
    unfold inworld in Hx. destruct (enter t k rs c.(world)) as [[x' w']| |] eqn:Hent; [|done..]. injection Hx as <- <-. cbn [world pcs].
    destruct (prepare k) as [p|] eqn:Hp.
    + destruct (enter_noted c t k rs p HI Hid Hleg Hp) as (al & kt & w1 & x2 & w2 & Hrun & Hent2 & _ & Hn).
      rewrite Hent in Hent2. injection Hent2 as <- <-. eapply noted_says; [|exact Hn|congruence].
      unfold calling. rewrite Z.eqb_refl, Hp. simpl. by rewrite Hrun.
    + destruct (enter_other _ _ _ _ _ _ Hp Hent) as (l & Hl & Hd). exists l. split; [done|]. intros u. destruct (decide (u = t)) as [->|Hne].
      * apply says_quiet; [apply Hd|left]. unfold calling. by rewrite Z.eqb_refl, Hp.
      * apply says_still; [apply Hd|simpl; by rewrite lookup_insert_ne|congruence].
  - simpl in Hleg. destruct (c.(pcs) !! t) as [y|] eqn:Ht; [|done]. erewrite eff_bind_ok in Hex by (by apply deref_run). cbv beta in Hex.
    destruct y as [| | |k u' i|ch u' i|]; try done; (destruct (c.(pcs) !! u) as [[|ku| | | |]|] eqn:Hu; try done);
      apply Z.eqb_eq in Hleg as ->; erewrite eff_bind_ok in Hex by (by apply deref_run); cbv beta iota in Hex; rewrite Z.eqb_refl in Hex; cbv [negb] in Hex.
    + assert (Htu : t <> u) by congruence. destruct (served_run c t k u i ku HI Ht Hu) as (nb & fr & a & ch & Hrun & Hf & He & Hk & Hend).
      unfold goto at 1 in Hex. erewrite eff_bind_ok in Hex by (apply modify_run). cbv beta in Hex.
      match type of Hex with context [(_ ≫= _) ?c1] => rewrite (eff_bind_ok _ _ _ _ _ (chan_inworld_run _ c1 _ _ Hrun)) in Hex end.
      injection Hex as <-. eexists. split; [reflexivity|]. intros s. destruct (decide (s = t)) as [->|Hst].
      * unfold says. cbn [world pcs]. rewrite lookup_insert_eq. unfold calling. rewrite Ht, Hf. simpl.
        exists (Some (a.(aop), ch)). rewrite Z.eqb_refl. split; [done|].
        eapply told_done; [apply same_array_refl|done|done|done|apply He|]. right. split; [done|]. by eapply HC.
      * assert (Hd : dids s [Did t a.(aop) ch] = []) by (simpl; by rewrite (proj2 (Z.eqb_neq _ _) (not_eq_sym Hst))).
        destruct (decide (s = u)) as [->|Hsu].
        -- apply says_quiet; [done|right]. intros v al. cbn [world pcs]. by rewrite lookup_insert_ne, lookup_insert_eq.
        -- apply says_still; [done|cbn [world pcs]; by rewrite !lookup_insert_ne|done].
    + injection Hex as <-. exists []. split; [simpl; by rewrite app_nil_r|]. intros s. cbn [world pcs].
      destruct (decide (s = t)) as [->|Hst]; [|destruct (decide (s = u)) as [->|Hsu]].
      * apply says_quiet; [done|right]. intros v al. cbn [world pcs]. by rewrite lookup_insert_eq.
      * apply says_quiet; [done|right]. intros v al. cbn [world pcs]. by rewrite lookup_insert_ne, lookup_insert_eq.
      * apply says_still; [done|cbn [world pcs]; by rewrite !lookup_insert_ne|done].
  - simpl in Hleg. destruct (c.(pcs) !! t) as [[|k| | | |]|] eqn:Ht; try done.
    erewrite eff_bind_ok in Hex by (by apply deref_run). injection Hex as <-. eapply Hmove; [reflexivity|done|done|by right].
  - simpl in Hleg. destruct (c.(pcs) !! t) as [[| |k r| | |]|] eqn:Ht; try done. erewrite eff_bind_ok in Hex by (by apply deref_run). cbv beta iota in Hex.
    destruct (alt_resume_run c t k r HI Ht) as (p & w' & Hrun & _ & Hres). rewrite (eff_bind_ok _ _ _ _ _ (chan_inworld_run _ _ _ _ Hrun)) in Hex.
    injection Hex as <-. destruct (i_thread c HI t _ Ht) as (fr & (Hf & _) & _).
    eapply noted_says; [|apply (proj2 (Hres fr Hf))|done]. unfold calling. rewrite Ht, Hf. done.
  - simpl in Hleg. destruct (c.(pcs) !! t) as [[| | | | |ch i]|] eqn:Ht; try done. erewrite eff_bind_ok in Hex by (by apply deref_run). cbv beta iota in Hex.
    apply eff_bind_inv in Hex as (r & c1 & Hx & Hex). injection Hex as <-.
    unfold inworld in Hx. destruct (close_from ch i c.(world)) as [[r' w']| |] eqn:Hcf; [|done..]. injection Hx as <- <-. cbn [world pcs].
    exists []. rewrite app_nil_r. split; [by eapply keeps_close_from|]. intros s. destruct (decide (s = t)) as [->|Hst].
    + apply says_quiet; [done|left]. unfold calling. by rewrite Ht.
    + apply says_still; [done|simpl; by rewrite lookup_insert_ne|done].
Qed.
