(* ===== verification/ChanThm.v ===== *)
(** What channels promise: first in, first out; one operation for each [alt];
    no wait that another thread could end; and what they do not. *)

From S2P Require Import Prelude Fcall Eff Chan ChanInv ChanKeep ChanWait ChanRun ChanLoops ChanCopy ChanAlt ChanExec.

(** * A channel is a queue *)

(** The log read as operations of a queue: [None] when a value was received that
    was not first in the queue. *)
Definition fifo_step (ch : Z) (q : option (list (list Z))) (m : note) : option (list (list Z)) :=
  match q with
  | None => None
  | Some q =>
      match m with
      | Made c => Some (if c =? ch then [] else q)
      | Sent _ c d => Some (if c =? ch then q ++ [d] else q)
      | Got _ c d =>
          if c =? ch then match q with d' :: q' => if decide (d = d') then Some q' else None | [] => None end
          else Some q
      | Did _ _ _ => Some q
      end
  end.
Definition fifo (ch : Z) (l : list note) : option (list (list Z)) := foldl (fifo_step ch) (Some []) l.

Lemma fifo_app ch l l' : fifo ch (l ++ l') = foldl (fifo_step ch) (fifo ch l) l'.
Proof. apply foldl_app. Qed.

Definition fifo_inv (c : conf) : Prop :=
  forall ch, exists q, fifo ch c.(world).(log) = Some q /\
    forall x, c.(world).(chans) !! ch = Some x -> contents x = q.

(** No value moves. *)
Definition quiet (l : list note) : Prop := Forall (fun m => exists t op c, m = Did t op c) l.

Lemma fifo_quiet ch l q : quiet l -> foldl (fifo_step ch) (Some q) l = Some q.
Proof. induction 1 as [|m l (t & op & c & ->) Hl IH]; [done|]. simpl. done. Qed.

Lemma fifo_keep c w' ps' l : fifo_inv c -> w'.(log) = c.(world).(log) ++ l -> quiet l ->
  (forall ch x', w'.(chans) !! ch = Some x' -> exists x, c.(world).(chans) !! ch = Some x /\ contents x' = contents x) ->
  fifo_inv (MkConf w' ps').
Proof.
  intros H Hl Hq Hc ch. destruct (H ch) as (q & Hf & Hx). exists q. cbn [world]. rewrite Hl, fifo_app, Hf, fifo_quiet by done.
  split; [done|]. intros x' Hx'. destruct (Hc ch x' Hx') as (x & Hx0 & ->). by apply Hx.
Qed.

(** The values that move are of one channel. *)
Lemma fifo_move c m f b l ps' ch x x' : fifo_inv c -> c.(world).(chans) !! ch = Some x -> m = <[ch := x']> c.(world).(chans) ->
  foldl (fifo_step ch) (Some (contents x)) l = Some (contents x') ->
  (forall ch' q, ch' <> ch -> foldl (fifo_step ch') (Some q) l = Some q) ->
  fifo_inv (MkConf (MkWorld m f b (c.(world).(log) ++ l)) ps').
Proof.
  intros H Hx -> Hl Ho ch'. cbn [world log chans]. destruct (H ch') as (q & Hf & Hq). rewrite fifo_app, Hf.
  destruct (decide (ch' = ch)) as [->|Hne].
  - rewrite <- (Hq x Hx), Hl. eexists. split; [done|]. intros x2. rewrite lookup_insert_eq. by intros [= <-].
  - rewrite Ho by done. exists q. split; [done|]. intros x2. rewrite lookup_insert_ne by done. apply Hq.
Qed.

Lemma fifo_step_other ch ch' q m : ch' <> ch ->
  (exists t d, m = Sent t ch d) \/ (exists t d, m = Got t ch d) \/ (exists t op, m = Did t op ch) \/ m = Made ch ->
  fifo_step ch' (Some q) m = Some q.
Proof.
  intros Hne H. assert ((ch =? ch') = false) by lia.
  destruct H as [(t & d & ->)|[(t & d & ->)|[(t & op & ->)| ->]]]; simpl; by rewrite ?H0.
Qed.

Lemma exchange_fifo t u ch op x x' l : exchange t u ch op x x' l ->
  foldl (fifo_step ch) (Some (contents x)) l = Some (contents x') /\
  forall ch' q, ch' <> ch -> foldl (fifo_step ch') (Some q) l = Some q.
Proof.
  intros H. assert (Hs : forall ch' q m, ch' <> ch -> (exists t d, m = Sent t ch d) \/ (exists t d, m = Got t ch d) -> fifo_step ch' (Some q) m = Some q).
  { intros ch' q m Hne [H1|H1]; apply (fifo_step_other ch); auto. }
  destruct H as [(d & d' & l0 & _ & Hx & Hx' & ->)|(d & Hx & Hx' & ->)]; rewrite Hx, Hx'; cbn [foldl].
  - split.
    + unfold fifo_step. rewrite Z.eqb_refl, decide_True by done. done.
    + intros ch' q Hne. rewrite !Hs by eauto. done.
  - destruct (decide (op = CHANRCV)); cbn [foldl].
    all: split; [unfold fifo_step; rewrite Z.eqb_refl; cbn [app]; rewrite decide_True by done; done|].
    all: intros ch' q Hne; rewrite !Hs by eauto; done.
Qed.

Lemma taken_contents x p o x' : taken_off x p o -> o = Some x' -> contents x' = contents x.
Proof. intros [[_ ->]|(q' & _ & [[-> _]|[-> _]])] [= <-]; done. Qed.

Lemma fifo_trans c c' : Inv c -> fifo_inv c -> trans c c' -> fifo_inv c'.
Proof.
  intros HI HF Htr. assert (Hsame : forall ps', fifo_inv (MkConf c.(world) ps')) by (intros ps' ch; apply (HF ch)).
  assert (Halter : forall ch x o f b ps', c.(world).(chans) !! ch = Some x -> (forall x', o = Some x' -> contents x' = contents x) ->
    fifo_inv (MkConf (MkWorld (partial_alter (fun _ => o) ch c.(world).(chans)) f b c.(world).(log)) ps')).
  { intros ch x o f b ps' Hx Ho. apply (fifo_keep c _ _ []); [done|by rewrite app_nil_r|constructor|]. intros ch' x'. simpl.
    destruct (decide (ch = ch')) as [<-|Hne]; [rewrite lookup_partial_alter_eq; eauto|rewrite lookup_partial_alter_ne by done; eauto]. }
  inversion Htr; subst; try (by apply Hsame).
  - apply (fifo_keep c _ _ []); [done|by rewrite app_nil_r|constructor|]. simpl. eauto.
  - eapply fifo_move; [done|done|done| |].
    + rewrite H5. cbn [foldl fifo_step]. rewrite Z.eqb_refl, decide_True by done. done.
    + intros ch' q Hne. cbn [foldl]. rewrite !(fifo_step_other ch) by eauto 6. done.
  - eapply fifo_move; [done|done|done| |].
    + rewrite H5. cbn [foldl fifo_step]. by rewrite Z.eqb_refl.
    + intros ch' q Hne. cbn [foldl]. rewrite !(fifo_step_other ch) by eauto 6. done.
  - eapply fifo_move; [done|done|done| |]; by eapply exchange_fifo.
  - apply (fifo_keep c _ _ []); [done|by rewrite app_nil_r|constructor|]. simpl. intros ch x' Hx'.
    destruct (entry_dec fr.(alts) ch) as [(i & a & He)|Hno]; [|rewrite H7 in Hx' by done; eauto].
    destruct (H6 i a ch He) as (x & Hx & _ & _ & [(_ & _ & _ & _ & _ & q' & _ & Hm)|[_ Hm]]); exists x; (split; [done|]);
      rewrite Hm in Hx'; by injection Hx' as <-.
  - eapply (fifo_keep c); [done|reflexivity|constructor; [eauto|constructor]|]. simpl. eauto.
  - eapply (fifo_keep c); [done|reflexivity| |].
    + destruct (decide (r = Rzero)); [destruct H4 as (i & a & ch & _ & _ & ->); constructor; [eauto|constructor]|subst l; constructor].
    + simpl. intros ch x' Hx'. destruct (entry_dec fr.(alts) ch) as [(i & a & He)|Hno]; [|rewrite H3 in Hx' by done; eauto].
      destruct (i_thread c HI t _ H) as (fr' & (Hf' & _) & _ & Hops & _). rewrite H0 in Hf'. injection Hf' as <-.
      destruct (Hops i a ch He) as (x & Hx & _). exists x. split; [done|]. eapply taken_contents; [by eapply H2|done].
  - apply Halter with (x := x) (o := Some (set_closed 1 x)); [apply H|]. by intros x' [= <-].
  - apply Halter with (x := x); [apply H|]. intros x' ->. destruct H1 as [[[= ->] _]|[? _]]; done.
  - apply Halter with (x := x); [done|]. intros x' ->. destruct H2 as [[[= ->] _]|[? _]]; done.
  - intros ch'. cbn [world log chans]. destruct (HF ch') as (q & Hf & Hq). rewrite fifo_app, Hf. cbn [foldl].
    destruct (decide (ch' = ch)) as [->|Hne].
    + exists []. simpl. rewrite Z.eqb_refl. split; [done|]. intros x2. rewrite lookup_insert_eq. by intros [= <-].
    + rewrite (fifo_step_other ch) by auto. exists q. split; [done|]. intros x2. rewrite lookup_insert_ne by done. apply Hq.
Qed.

Lemma fifo_start b ts : fifo_inv (start b ts).
Proof. intros ch. exists []. split; [done|]. intros x Hx. done. Qed.

(** * One operation for each call *)













Lemma insert_other {A} (f : gmap Z A) t u x : u <> t -> <[t := x]> f !! u = f !! u.
Proof. intros. by rewrite lookup_insert_ne. Qed.

















(** * Calls that need not wait *)

(** [runop] when the operation can proceed through the buffer. *)
Lemma runop_now c t op ch v nb rs x : Inv c -> idle c t -> op = CHANSND \/ op = CHANRCV ->
  array_ok c.(world) nb (runop_alts op ch v nb) -> c.(world).(chans) !! ch = Some x ->
  isopenfor x op = true -> room x op -> ~ blocked c.(world) x.(qentry) (otherop op) ->
  exists w' al, (a ← alt t (runop_alts op ch v nb) rs; settle t (Krunop nb Wint) a) c.(world) = Ok (Run 1 al, w') /\
    exists x' d m, w'.(chans) = <[ch := x']> c.(world).(chans) /\ w'.(log) = c.(world).(log) ++ [m; Did t op ch] /\
      (if decide (op = CHANRCV)
       then contents x = d :: contents x' /\ m = Got t ch d /\ delivered w'.(blocks) v x.(ch_e) d
       else contents x' = contents x ++ [d] /\ m = Sent t ch d /\ d = vval c.(world).(blocks) v x.(ch_e)).
Proof.
  intros HI Ht Hop Hok Hx Hopen Hroom Hnb.
  set (al := runop_alts op ch v nb) in *. set (a0 := MkAlt (Some ch) v op Noerr None (-1)).
  set (al' := [a0; MkAlt None None (if nb then CHANNOBLK else CHANEND) Noerr None 0]).
  set (W := within c t c.(world).(blocks)). assert (Hl := same_lens_refl c.(world).(blocks)).
  destruct Hok as (_ & _ & Hok). assert (Hent : entry al 0 (MkAlt (Some ch) v op Noerr None 0) ch) by (by split_and!).
  destruct (Hok _ _ _ Hent) as (x1 & Hx1 & _ & Hring & Hbl). rewrite Hx in Hx1. injection Hx1 as <-.
  assert (Hgood := within_good c t c.(world).(blocks) HI Ht). assert (Hci := i_chan c HI ch x Hx).
  assert (Hblk := fun fr op' => within_blocked c t c.(world).(blocks) HI Ht fr ch x op' Hx).
  destruct (can_run (W (MkFrame al Tnil)) a0 ch x (Hgood _) eq_refl Hx) as (b & Hb & Hiff).
  assert (b = true) as -> by (apply Hiff; split; [done|by right]).
  assert (Hscan : scan al 0 0 None rs (W (MkFrame al Tnil)) = Ok ((al', Some (Some (0%nat, a0), 1%nat, nb, rs)), W (MkFrame al Tnil))).
  { unfold al, runop_alts. destruct nb; (rewrite scan_op by done; cbn [ac]; erewrite eff_bind_ok;
      [|erewrite eff_bind_ok by (apply deref_run; exact Hx); cbv beta; erewrite eff_bind_ok by (exact Hb); cbv beta iota;
       rewrite nrand_1; reflexivity]; reflexivity). }
  destruct (altexec_run (W (MkFrame al' Tnil)) t 0 a0 ch x) with (rs := rs) as (r & w' & Hex & Hpost); try done.
  { apply Hci. } { by apply (Hgood _ ch). }
  { intros p fr b Hp Hfr Hbb. by apply (within_vok c t c.(world).(blocks) HI Ht Hl (MkFrame al' Tnil) ch x p fr b). }
  { by right. } { unfold W. rewrite Hblk. apply Hci. } { unfold W. rewrite Hblk. apply Hci. }
  destruct r as [r| |u i']; [|done|].
  2: { exfalso. apply Hnb. rewrite <- (Hblk (MkFrame al' Tnil)). destruct Hpost as (_ & j & b & fru & x' & b' & l & Hq & Hf & Hn & Hj & Ho & _).
       exists (u, j). split; [done|]. split; [by exists fru|by exists fru, b]. }
  destruct Hpost as (-> & _ & x' & d & b' & m & _ & _ & Hsl & -> & Hcase).
  eexists _, al'. split.
  - unfold alt, putf. rewrite eff_bind_assoc. eff_prim. rewrite eff_bind_assoc.
    erewrite eff_bind_ok by (exact Hscan). cbv beta iota. rewrite eff_bind_assoc. eff_prim.
    cbn [chans frames blocks log W within]. rewrite insert_insert_eq.
    erewrite eff_bind_ok by (exact Hex).
    apply (return_alt_run _ t (Krunop nb Wint) nb (MkFrame al' Tnil)); [apply lookup_insert_eq| | |].
    + split; [by destruct nb; auto|done].
    + by destruct nb, Hop as [->| ->].
    + right. left. by exists O, a0.
  - exists x', d, m. split; [done|]. split; [done|]. cbn [left_alone blocks aop a0] in *.
    destruct (decide (op = CHANRCV)); [|tauto]. by destruct Hcase as (_ & ? & ? & ?).
Qed.

(** * Theorems *)

(** A run of events that can happen. *)
Fixpoint runs (es : list event) (c : conf) : option conf :=
  match es with
  | [] => Some c
  | e :: es => if legal c e then match exec e c with Ok (_, c') => runs es c' | _ => None end else None
  end.

Lemma chan_runs_reach es : forall c c', reach c -> runs es c = Some c' -> reach c'.
Proof.
  induction es as [|e es IH]; intros c c' Hr Hrun; simpl in Hrun; [by injection Hrun as <-|].
  destruct (legal c e) eqn:Hleg; [|done]. destruct (exec e c) as [[[] c1]| |] eqn:He; [|done..]. eapply IH; [|done]. by eapply reach_step.
Qed.

Definition mem : gmap Z (list Z) := {[100 := [0; 0; 0; 0]; 101 := [7; 0; 0; 0]; 102 := [0; 0; 0; 0]; 103 := [9; 0; 0; 0]]}.
Definition op_on (c v : Z) (o : ChanOp) : Alt := MkAlt (Some c) (Some v) o Noerr None 0.
Definition alt_end : Alt := MkAlt None None CHANEND Noerr None 0.

(** Two sends to a channel of two elements, and a receive. *)
Definition demo : list event :=
  [Call 1 (Cchancreate 9 4 2) []; Call 1 (Csend 9 (Some 101)) []; Call 2 (Csend 9 (Some 103)) []].
(** A thread waits for a receive from one of two channels and is served. *)
Definition demo2 : list event :=
  [Call 1 (Cchancreate 8 4 0) []; Call 1 (Cchancreate 9 4 0) []; Call 1 (Crecv 9 (Some 100)) [];
   Call 2 (Calt [op_on 8 102 CHANRCV; op_on 9 103 CHANSND; alt_end]) []].

(** C18. From every configuration that calls in order can reach, the next call
    in order, or any other event that can happen, neither aborts nor follows a
    nil or freed pointer, and the queues stay consistent with the threads that
    wait. *)
Theorem channels_safe c e : reach c -> legal c e = true -> exists c', exec e c = Ok (tt, c') /\ Inv c'.
Proof.
  intros Hr Hleg. assert (HI := chan_reach_inv c Hr). destruct (exec_trans c e HI Hleg) as (c' & Hrun & Htr).
  exists c'. split; [done|]. by eapply trans_inv.
Qed.

Lemma channels_safe_witness :
  match runs demo2 (start mem [1; 2]) with
  | Some c => legal c (Meet 2 1) = true /\ exists c', exec (Meet 2 1) c = Ok (tt, c') /\ Inv c'
  | None => False
  end.
Proof.
  destruct (runs demo2 (start mem [1; 2])) as [c|] eqn:E; [|vm_compute in E; discriminate].
  assert (H : legal c (Meet 2 1) = true) by (vm_compute in E; injection E as <-; reflexivity).
  split; [exact H|]. apply channels_safe; [|exact H]. exact (chan_runs_reach demo2 _ c (reach_start mem [1; 2]) E).
Defined.

(** C17. A channel is a queue: the values received from it, as they are in the
    receivers' memory once copied, are in order those sent to it, as they were in
    the senders' memory before, and those not yet received are the contents of
    its buffer, never more than it has room for. *)
Theorem channel_fifo c ch : reach c ->
  exists q, fifo ch c.(world).(log) = Some q /\
    forall x, c.(world).(chans) !! ch = Some x -> contents x = q /\ Zlen q <= x.(ch_s).
Proof.
  intros Hr. assert (H : fifo_inv c) by (apply (reach_ind_trans fifo_inv); [apply fifo_start|apply fifo_trans|done]).
  destruct (H ch) as (q & Hf & Hq). exists q. split; [done|]. intros x Hx. rewrite <- (Hq x Hx). split; [done|].
  assert (Hok := ci_ok _ _ _ _ (i_chan c (chan_reach_inv c Hr) ch x Hx)). rewrite contents_length by done. destruct Hok. lia.
Qed.

Lemma channel_fifo_witness :
  match runs (demo ++ [Call 2 (Crecv 9 (Some 100)) []]) (start mem [1; 2]) with
  | Some c => c.(world).(blocks) !! 100 = Some [7; 0; 0; 0] /\ fifo 9 c.(world).(log) = Some [[9; 0; 0; 0]] /\
      exists q, fifo 9 c.(world).(log) = Some q /\
        forall x, c.(world).(chans) !! 9 = Some x -> contents x = q /\ Zlen q <= x.(ch_s)
  | None => False
  end.
Proof.
  destruct (runs (demo ++ [Call 2 (Crecv 9 (Some 100)) []]) (start mem [1; 2])) as [c|] eqn:E; [|vm_compute in E; discriminate].
  split; [vm_compute in E; injection E as <-; vm_compute; reflexivity|].
  split; [vm_compute in E; injection E as <-; vm_compute; reflexivity|].
  apply channel_fifo. exact (chan_runs_reach _ _ c (reach_start mem [1; 2]) E).
Defined.




(** C20. No thread waits for what could proceed: while an uncommitted receiver
    is in the queue of a channel its buffer is empty, while an uncommitted sender
    is it is full, there are never both, and when the channel is closed there is
    neither. *)
Theorem no_missed_rendezvous c ch x : reach c -> c.(world).(chans) !! ch = Some x ->
  (blocked c.(world) x.(qentry) CHANRCV -> contents x = []) /\
  (blocked c.(world) x.(qentry) CHANSND -> Zlen (contents x) = x.(ch_s)) /\
  ~ (blocked c.(world) x.(qentry) CHANRCV /\ blocked c.(world) x.(qentry) CHANSND) /\
  (x.(closed) = 2 -> forall op, ~ blocked c.(world) x.(qentry) op).
Proof.
  intros Hr Hx. destruct (i_chan c (chan_reach_inv c Hr) ch x Hx) as [Hok Hq Hrcv Hsnd Hboth _ Hcl].
  split; [intros H; by apply contents_empty, Hrcv|]. split; [intros H; rewrite contents_length by done; by apply Hsnd|].
  split; [done|]. intros Hc op (p & Hp & Hu & _). by apply (Hcl p).
Qed.

Lemma no_missed_rendezvous_witness :
  match runs (take 3 demo2) (start mem [1; 2]) with
  | Some c =>
      match c.(world).(chans) !! 9 with
      | Some x => contents x = [] /\
          (blocked c.(world) x.(qentry) CHANRCV -> contents x = []) /\
          (blocked c.(world) x.(qentry) CHANSND -> Zlen (contents x) = x.(ch_s)) /\
          ~ (blocked c.(world) x.(qentry) CHANRCV /\ blocked c.(world) x.(qentry) CHANSND) /\
          (x.(closed) = 2 -> forall op, ~ blocked c.(world) x.(qentry) op)
      | None => False
      end
  | None => False
  end.
Proof.
  destruct (runs (take 3 demo2) (start mem [1; 2])) as [c|] eqn:E; [|vm_compute in E; discriminate].
  destruct (c.(world).(chans) !! 9) as [x|] eqn:Hx; [|vm_compute in E; injection E as <-; vm_compute in Hx; discriminate].
  split; [vm_compute in E; injection E as <-; vm_compute in Hx; injection Hx as <-; reflexivity|].
  apply (no_missed_rendezvous c 9); [exact (chan_runs_reach _ _ c (reach_start mem [1; 2]) E)|exact Hx].
Defined.

(** C21. A thread on its way to meet another is never left alone: the other
    waits, committed, for exactly this thread, and either the rendezvous can
    happen or, after an interruption, the other goes back to it. *)
Theorem committed_threads_meet c u t z : reach c -> c.(pcs) !! u = Some z -> target z = Some t ->
  (forall v z', c.(pcs) !! v = Some z' -> target z' = Some t -> v = u) /\
  (legal c (Meet u t) = true \/
   exists c', legal c (Resume t) = true /\ exec (Resume t) c = Ok (tt, c') /\ legal c' (Meet u t) = true).
Proof.
  intros Hr Hu Hz. assert (HI := chan_reach_inv c Hr). split; [intros v z' Hv Hz'; by apply (i_one c HI v u z' z t)|].
  destruct (target_is c HI u z t Hu Hz) as (ch & y & fr & Hy & Has & Hf & Htc).
  assert (Hm : forall c' k, c'.(pcs) !! u = Some z -> c'.(pcs) !! t = Some (InAlt k) -> legal c' (Meet u t) = true).
  { intros c' k H1 H2. unfold legal. rewrite H1, H2. destruct z; try done; simpl in Hz; injection Hz as ->; apply Z.eqb_refl. }
  destruct y as [|k|k []| | |]; try done; [left; by eapply Hm|]. right.
  assert (Hleg : legal c (Resume t) = true) by (simpl; by rewrite Hy).
  destruct (alt_resume_run c t k Intred HI Hy) as (p & w' & Hrun & Htr & Hres). destruct (proj1 (Hres fr Hf)) as [(-> & _)|(a' & al & Hp & _ & Ha)].
  - exists (MkConf w' (<[t := InAlt k]> c.(pcs))). split; [done|]. split.
    + cbn [exec]. eff_prim. rewrite (eff_bind_ok _ _ _ _ _ (chan_inworld_run _ _ _ _ Hrun)). done.
    + apply (Hm _ k); simpl; [|by rewrite lookup_insert_eq]. rewrite lookup_insert_ne; [done|]. intros <-. rewrite Hy in Hu. by injection Hu as <-.
  - exfalso. unfold alt_resume in Hrun. rewrite eff_bind_assoc in Hrun. erewrite eff_bind_ok in Hrun by (by apply deref_run).
    rewrite decide_True in Hrun by (by rewrite Htc). simpl in Hrun. subst p. discriminate.
Qed.

Lemma committed_threads_meet_witness :
  match runs (demo2 ++ [Interrupt 1]) (start mem [1; 2]) with
  | Some c => legal c (Meet 2 1) = false /\
      (forall v z', c.(pcs) !! v = Some z' -> target z' = Some 1 -> v = 2) /\
      (legal c (Meet 2 1) = true \/
       exists c', legal c (Resume 1) = true /\ exec (Resume 1) c = Ok (tt, c') /\ legal c' (Meet 2 1) = true)
  | None => False
  end.
Proof.
  destruct (runs (demo2 ++ [Interrupt 1]) (start mem [1; 2])) as [c|] eqn:E; [|vm_compute in E; discriminate].
  split; [vm_compute in E; injection E as <-; vm_compute; reflexivity|].
  apply (committed_threads_meet c 2 1 (Serving Kalt 1 1)); [exact (chan_runs_reach _ _ c (reach_start mem [1; 2]) E)| |reflexivity].
  vm_compute in E. injection E as <-. vm_compute. reflexivity.
Defined.

(** What a send or receive that waited answers: 1 when another thread
    served it, -1 when the channel was closed under it or it was interrupted; an
    interrupted thread that is committed goes back to wait. *)
Theorem waiting_call_answers c t nb r c' : reach c -> c.(pcs) !! t = Some (Woken (Krunop nb Wint) r) ->
  exec (Resume t) c = Ok (tt, c') ->
  (r = Intred /\ c'.(pcs) !! t = Some (InAlt (Krunop nb Wint)) /\ c'.(world) = c.(world)) \/
  (exists al, c'.(pcs) !! t = Some (Run (if decide (r = Rzero) then 1 else -1) al)).
Proof.
  intros Hr Ht Hex. assert (HI := chan_reach_inv c Hr).
  destruct (alt_resume_run c t (Krunop nb Wint) r HI Ht) as (p & w' & Hrun & Htr & Hres).
  assert (Hc' : c' = MkConf w' (<[t := p]> c.(pcs))).
  { cbn [exec] in Hex. erewrite eff_bind_ok in Hex by (by apply deref_run). cbv beta iota in Hex.
    rewrite (eff_bind_ok _ _ _ _ _ (chan_inworld_run _ _ _ _ Hrun)) in Hex. by injection Hex as <-. }
  destruct (i_thread c HI t _ Ht) as (fr & (Hf & _ & Hend & (_ & Hlen & _)) & _).
  subst c'. cbn [pcs world]. rewrite lookup_insert_eq.
  destruct (proj1 (Hres fr Hf)) as [(-> & -> & Hne)|(a' & al & -> & Hs & Ha)]; [left|right; exists al].
  - split_and!; [done|done|]. unfold alt_resume in Hrun. rewrite eff_bind_assoc in Hrun. erewrite eff_bind_ok in Hrun by (by apply deref_run).
    rewrite decide_True in Hrun by done. by injection Hrun.
  - do 2 f_equal. unfold answer, wrap_answer. destruct (decide (r = Intred)) as [->|Hn]; [by subst a'|].
    destruct Ha as (i & b & ch & -> & (Hb & Ho & _) & _ & He). rewrite (Forall2_length _ _ _ Hs) in Hlen.
    destruct i as [|i].
    + destruct al as [|a al]; [done|]. injection Hb as ->. unfold run_answer. simpl. rewrite He. by destruct r.
    + exfalso. assert (Hi := lookup_lt_Some _ _ _ Hb). replace (S i) with (length al - 1)%nat in Hb by lia.
      eapply ended_last; [|exact Hb|done]. by rewrite (same_ended _ _ _ Hs).
Qed.

Lemma waiting_call_answers_witness :
  match runs (demo2 ++ [Meet 2 1]) (start mem [1; 2]) with
  | Some c =>
      match exec (Resume 1) c with
      | Ok (_, c') =>
          (Rzero = Intred /\ c'.(pcs) !! 1 = Some (InAlt (Krunop false Wint)) /\ c'.(world) = c.(world)) \/
          (exists al, c'.(pcs) !! 1 = Some (Run (if decide (Rzero = Rzero) then 1 else -1) al))
      | _ => False
      end
  | None => False
  end.
Proof.
  destruct (runs (demo2 ++ [Meet 2 1]) (start mem [1; 2])) as [c|] eqn:E; [|vm_compute in E; discriminate].
  destruct (exec (Resume 1) c) as [[[] c']| |] eqn:E2; [|vm_compute in E; injection E as <-; vm_compute in E2; discriminate..].
  apply (waiting_call_answers c 1 false Rzero c'); [exact (chan_runs_reach _ _ c (reach_start mem [1; 2]) E)| |exact E2].
  vm_compute in E. injection E as <-. vm_compute. reflexivity.
Defined.

Lemma legal_idle c t k rs : legal c (Call t k rs) = true -> idle c t /\ legal_call c.(world) k = true.
Proof.
  simpl. intros H. destruct (c.(pcs) !! t) as [[r al| | | | |]|] eqn:E; try done.
  apply andb_true_iff in H as [H _]. split; [by exists r, al|done].
Qed.

(** [recv] and [nbrecv] from a buffer that no sender waits for take its
    first value, put it where the caller asked, and answer 1. *)
Theorem recv_takes_first c t ch v (nb : bool) rs x d q :
  let k := if nb then Cnbrecv ch v else Crecv ch v in
  reach c -> legal c (Call t k rs) = true -> c.(world).(chans) !! ch = Some x -> contents x = d :: q ->
  ~ blocked c.(world) x.(qentry) CHANSND ->
  exists c' x' al, exec (Call t k rs) c = Ok (tt, c') /\ c'.(pcs) !! t = Some (Run 1 al) /\
    c'.(world).(chans) !! ch = Some x' /\ contents x' = q /\ delivered c'.(world).(blocks) v x.(ch_e) d /\
    c'.(world).(log) = c.(world).(log) ++ [Got t ch d; Did t CHANRCV ch].
Proof.
  intros k Hr Hleg Hx Hq Hnb. assert (HI := chan_reach_inv c Hr). destruct (legal_idle c t k rs Hleg) as [Ht Hcall].
  assert (Hok : array_ok c.(world) nb (runop_alts CHANRCV ch v nb)) by (apply array_okb_ok; by destruct nb).
  assert (Hn : 0 < x.(ch_n)).
  { rewrite <- (contents_length x (ci_ok _ _ _ _ (i_chan c HI ch x Hx))), Hq, Zlen_cons. assert (H := Zlen_nonneg q). lia. }
  assert (Hopen : isopenfor x CHANRCV = true) by (unfold isopenfor; rewrite (proj2 (Z.ltb_lt _ _) Hn); by rewrite orb_true_r).
  destruct (runop_now c t CHANRCV ch v nb rs x HI Ht ltac:(by right) Hok Hx Hopen Hn Hnb)
    as (w' & al & Hrun & x' & d' & m & Hch & Hlog & Hc & -> & Hdel).
  rewrite Hq in Hc. injection Hc as <- Hc. exists (MkConf w' (<[t := Run 1 al]> c.(pcs))), x', al. cbn [pcs world].
  split; [|split; [apply lookup_insert_eq|split; [rewrite Hch; apply lookup_insert_eq|by split_and!]]].
  assert (He : enter t k rs c.(world) = Ok (Run 1 al, w')) by (destruct nb; exact Hrun).
  cbn [exec]. by rewrite (eff_bind_ok _ _ _ _ _ (chan_inworld_run _ _ _ _ He)).
Qed.

Lemma recv_takes_first_witness :
  match runs demo (start mem [1; 2]) with
  | Some c =>
      match c.(world).(chans) !! 9 with
      | Some x => exists c' x' al, exec (Call 2 (Crecv 9 (Some 100)) []) c = Ok (tt, c') /\ c'.(pcs) !! 2 = Some (Run 1 al) /\
          c'.(world).(chans) !! 9 = Some x' /\ contents x' = [[9; 0; 0; 0]] /\ delivered c'.(world).(blocks) (Some 100) x.(ch_e) [7; 0; 0; 0] /\
          c'.(world).(log) = c.(world).(log) ++ [Got 2 9 [7; 0; 0; 0]; Did 2 CHANRCV 9]
      | None => False
      end
  | None => False
  end.
Proof.
  destruct (runs demo (start mem [1; 2])) as [c|] eqn:E; [|vm_compute in E; discriminate].
  destruct (c.(world).(chans) !! 9) as [x|] eqn:Hx; [|vm_compute in E; injection E as <-; vm_compute in Hx; discriminate].
  assert (Hr : reach c) by exact (chan_runs_reach _ _ c (reach_start mem [1; 2]) E).
  apply (recv_takes_first c 2 9 (Some 100) false [] x [7; 0; 0; 0] [[9; 0; 0; 0]] Hr).
  - vm_compute in E. injection E as <-. reflexivity.
  - exact Hx.
  - vm_compute in E. injection E as <-. vm_compute in Hx. injection Hx as <-. reflexivity.
  - intros (p & [j Hj] & _). vm_compute in E. injection E as <-. vm_compute in Hx. injection Hx as <-.
    unfold qat in Hj. cbn [qentry] in Hj. destruct j; discriminate.
Defined.

(** C22. Every configuration is well formed: the buffer of a channel is an array
    of its size of elements of its element size, it holds no more than that, and
    an entry of its queue is one operation, on that channel, of the array of one
    thread that waits in [alt], and is there only once. *)
Theorem channels_well_formed c ch x : reach c -> c.(world).(chans) !! ch = Some x ->
  0 < x.(ch_e) /\ Zlen x.(ch_v) = x.(ch_s) /\ Forall (fun d => Zlen d = x.(ch_e)) x.(ch_v) /\ 0 <= x.(ch_n) <= x.(ch_s) /\
  (forall i j p, qat x.(qentry) i = Some p -> qat x.(qentry) j = Some p -> i = j) /\
  forall t i, queued x.(qentry) (t, i) -> exists y fr a, c.(pcs) !! t = Some y /\ waitingb y = true /\
    c.(world).(frames) !! t = Some fr /\ fr.(alts) !! i = Some a /\ is_op a /\ a.(ac) = Some ch.
Proof.
  intros Hr Hx. assert (HI := chan_reach_inv c Hr). destruct (ci_ok _ _ _ _ (i_chan c HI ch x Hx)). split_and!; try lia; try done.
  intros t i Hq. destruct (queued_waits c HI ch x (t, i) Hx Hq) as (y & fr & a & Hy & Hw & Hf & (H1 & H2 & H3) & _).
  exists y, fr, a. by split_and!; destruct y.
Qed.

Lemma channels_well_formed_witness :
  match runs (take 3 demo2) (start mem [1; 2]) with
  | Some c =>
      match c.(world).(chans) !! 9 with
      | Some x => qat x.(qentry) 0 = Some (1, 0%nat) /\
          0 < x.(ch_e) /\ Zlen x.(ch_v) = x.(ch_s) /\ Forall (fun d => Zlen d = x.(ch_e)) x.(ch_v) /\ 0 <= x.(ch_n) <= x.(ch_s) /\
          (forall i j p, qat x.(qentry) i = Some p -> qat x.(qentry) j = Some p -> i = j) /\
          forall t i, queued x.(qentry) (t, i) -> exists y fr a, c.(pcs) !! t = Some y /\ waitingb y = true /\
            c.(world).(frames) !! t = Some fr /\ fr.(alts) !! i = Some a /\ is_op a /\ a.(ac) = Some 9
      | None => False
      end
  | None => False
  end.
Proof.
  destruct (runs (take 3 demo2) (start mem [1; 2])) as [c|] eqn:E; [|vm_compute in E; discriminate].
  destruct (c.(world).(chans) !! 9) as [x|] eqn:Hx; [|vm_compute in E; injection E as <-; vm_compute in Hx; discriminate].
  split; [vm_compute in E; injection E as <-; vm_compute in Hx; injection Hx as <-; reflexivity|].
  apply (channels_well_formed c 9); [exact (chan_runs_reach _ _ c (reach_start mem [1; 2]) E)|exact Hx].
Defined.

(** * What channels do not promise *)

(** Thread 1 waits to receive from a channel or to send to it; thread 2 sends. *)
Definition twice : list event :=
  [Call 1 (Cchancreate 9 4 0) []; Call 1 (Calt [op_on 9 100 CHANRCV; op_on 9 101 CHANSND; alt_end]) [];
   Call 2 (Csend 9 (Some 103)) []; Meet 2 1; Resume 1].

(** With a channel twice in its array [alt] may answer the wrong operation:
    the thread received a value, and is told that it sent one. *)
Theorem alt_twice_wrong_index :
  exists c al, execs twice (start mem [1; 2]) = Ok (tt, c) /\ c.(pcs) !! 1 = Some (Run 1 al) /\
    aop <$> (al !! 1%nat) = Some CHANSND /\ c.(world).(blocks) !! 100 = mem !! 103 /\
    c.(world).(log) = [Made 9; Sent 2 9 [9; 0; 0; 0]; Got 1 9 [9; 0; 0; 0]; Did 2 CHANSND 9; Did 1 CHANSND 9].
Proof. eexists _, _. split; [vm_compute; reflexivity|]. split; [reflexivity|]. by split_and!. Qed.

(** Thread 1 waits for two channels of which one is closed; thread 2 frees that
    one, and sends to the other. *)
Definition freed_closed : list event :=
  [Call 1 (Cchancreate 8 4 0) []; Call 1 (Cchancreate 9 4 0) []; Call 2 (Cchanclose 9) [];
   Call 1 (Calt [op_on 8 100 CHANRCV; op_on 9 102 CHANRCV; alt_end]) []; Call 2 (Cchanfree 9) [];
   Call 2 (Csend 8 (Some 103)) []; Meet 2 1; Resume 1].

(** [chanfree] does not see a thread whose [alt] names the channel but did
    not enter its queue because it was closed: the memory is released, and
    [dequeue] uses it when that thread goes on. *)
Theorem alt_uses_freed_channel :
  (exists c, runs (take 4 freed_closed) (start mem [1; 2]) = Some c /\ (exists k, c.(pcs) !! 1 = Some (InAlt k)) /\
     exists c', exec (Call 2 (Cchanfree 9) []) c = Ok (tt, c') /\ c'.(world).(chans) !! 9 = None) /\
  execs freed_closed (start mem [1; 2]) = Fault.
Proof.
  split; [|vm_compute; reflexivity]. eexists. split; [vm_compute; reflexivity|]. split; [by eexists|].
  eexists. split; [vm_compute; reflexivity|]. reflexivity.
Qed.

(** A channel of three elements that has passed on almost 2^32 of them. *)
Definition long_used : conf :=
  MkConf (MkWorld {[9 := MkChannel 3 (2 ^ 32 - 2) 0 4 false [] 0 (replicate 3 [0; 0; 0; 0])]} ∅ mem []) {[1 := Run 0 []]}.

(** When the counter of elements taken wraps and the size of the channel
    does not divide 2^32, the channel loses a value and repeats another: of three
    values sent the second never arrives and the third arrives twice. *)
Theorem ring_wrap_loses_value :
  exists c, execs [Call 1 (Csend 9 (Some 101)) []; Call 1 (Csend 9 (Some 103)) []; Call 1 (Csend 9 (Some 100)) [];
    Call 1 (Crecv 9 None) []; Call 1 (Crecv 9 None) []; Call 1 (Crecv 9 None) []] long_used = Ok (tt, c) /\
  omap (fun m => match m with Sent _ _ d => Some d | _ => None end) c.(world).(log) = [[7; 0; 0; 0]; [9; 0; 0; 0]; [0; 0; 0; 0]] /\
  omap (fun m => match m with Got _ _ d => Some d | _ => None end) c.(world).(log) = [[7; 0; 0; 0]; [0; 0; 0; 0]; [0; 0; 0; 0]].
Proof. eexists. split; [vm_compute; reflexivity|]. split; reflexivity. Qed.
