(* ===== verification/MpVec.v ===== *)
(** Vectors of digits, [libmp/port/mpvec*.c], [mpdigdiv.c] and [mpmul.c].

    A digit ([mpdigit]) has 32 bits on this machine.  Digits are in blocks of
    memory; a pointer is a block and an index, so that the arguments of a routine
    may be the same vector or overlap.  Reading or writing outside a block is
    [Fault]. *)

From S2P Require Import Prelude Eff.

Definition Dbits : Z := 32.
(** One more than the greatest digit. *)
Definition Base : Z := 2 ^ 32.

Notation Heap := (gmap Z (list Z)).
Notation dptr := (Z * Z)%type.

Definition dadd (p : dptr) (i : Z) : dptr := (p.1, p.2 + i).
Notation "p +d i" := (dadd p i) (at level 50, left associativity) : c_scope.
Open Scope c_scope.

Definition rd (p : dptr) : eff Heap Z :=
  l ← deref id p.1;
  if p.2 <? 0 then fault else match l !! Z.to_nat p.2 with Some x => mret x | None => fault end.

Definition wr (p : dptr) (x : Z) : eff Heap unit :=
  l ← deref id p.1;
  if (0 <=? p.2) && (p.2 <? Zlen l) then modify (fun h => <[p.1 := <[Z.to_nat p.2 := x]> l]> h) else fault.

(** [malloc], [free]: a block that is not in use; [memset] to zero and [memmove]
    of whole digits. *)
Definition new_block (h : Heap) : Z := 1 + map_fold (fun k _ m => Z.max k m) 0 h.
Definition mallocz (n : Z) : eff Heap Z :=
  b ← gets new_block; modify (fun h => <[b := replicate (Z.to_nat n) 0]> h);; mret b.
Definition free (b : Z) : eff Heap unit := modify (fun h => delete b h).

Fixpoint rdn (n : nat) (p : dptr) : eff Heap (list Z) :=
  match n with O => mret [] | S n => x ← rd p; l ← rdn n (p +d 1); mret (x :: l) end.
Fixpoint wrn (p : dptr) (l : list Z) : eff Heap unit :=
  match l with [] => mret tt | x :: l => wr p x;; wrn (p +d 1) l end.
Definition memmoved (dst src : dptr) (n : Z) : eff Heap unit := l ← rdn (Z.to_nat n) src; wrn dst l.
Definition memzero (p : dptr) (n : Z) : eff Heap unit := wrn p (replicate (Z.to_nat n) 0).

(** * mpvecadd.c *)

Fixpoint add_both (n : nat) (a b sum : dptr) (carry : Z) : eff Heap (dptr * dptr * Z) :=
  match n with
  | O => mret (a, sum, carry)
  | S n =>
      x ← rd a; y ← rd b;
      let x := u32 (x + carry) in
      let carry := cbool (x <? carry) in
      let x := u32 (x + y) in
      let carry := carry + cbool (x <? y) in
      wr sum x;;
      add_both n (a +d 1) (b +d 1) (sum +d 1) carry
  end.

Fixpoint add_rest (n : nat) (a sum : dptr) (carry : Z) : eff Heap (dptr * Z) :=
  match n with
  | O => mret (sum, carry)
  | S n =>
      x ← rd a;
      let x := u32 (x + carry) in
      let carry := cbool (x <? carry) in
      wr sum x;;
      add_rest n (a +d 1) (sum +d 1) carry
  end.

Definition mpvecadd (a : dptr) (alen : Z) (b : dptr) (blen : Z) (sum : dptr) : eff Heap unit :=
  '(a, sum, carry) ← add_both (Z.to_nat blen) a b sum 0;
  '(sum, carry) ← add_rest (Z.to_nat (alen - blen)) a sum carry;
  wr sum carry.

(** * mpvecsub.c *)

Fixpoint sub_both (n : nat) (a b diff : dptr) (borrow : Z) : eff Heap (dptr * dptr * Z) :=
  match n with
  | O => mret (a, diff, borrow)
  | S n =>
      x ← rd a; y ← rd b;
      let y := u32 (y + borrow) in
      let borrow := cbool (y <? borrow) in
      let borrow := borrow + cbool (x <? y) in
      wr diff (u32 (x - y));;
      sub_both n (a +d 1) (b +d 1) (diff +d 1) borrow
  end.

Fixpoint sub_rest (n : nat) (a diff : dptr) (borrow : Z) : eff Heap unit :=
  match n with
  | O => mret tt
  | S n =>
      x ← rd a;
      let y := u32 (x - borrow) in
      let borrow := cbool (x <? y) in
      wr diff y;;
      sub_rest n (a +d 1) (diff +d 1) borrow
  end.

Definition mpvecsub (a : dptr) (alen : Z) (b : dptr) (blen : Z) (diff : dptr) : eff Heap unit :=
  '(a, diff, borrow) ← sub_both (Z.to_nat blen) a b diff 0;
  sub_rest (Z.to_nat (alen - blen)) a diff borrow.

(** * mpveccmp.c *)

(** Whether one of the [n] digits at [p] is not zero, from the last. *)
Fixpoint any_digit (n : nat) (p : dptr) : eff Heap bool :=
  match n with
  | O => mret false
  | S n => x ← rd (p +d Z.of_nat n); if negb (x =? 0) then mret true else any_digit n p
  end.

Fixpoint cmp_loop (n : nat) (a b : dptr) : eff Heap Z :=
  match n with
  | O => mret 0
  | S n =>
      x ← rd (a +d Z.of_nat n); y ← rd (b +d Z.of_nat n);
      let d := u32 (x - y) in
      if d =? 0 then cmp_loop n a b else mret (if x <? d then -1 else 1)
  end.

Definition mpveccmp (a : dptr) (alen : Z) (b : dptr) (blen : Z) : eff Heap Z :=
  ahigh ← any_digit (Z.to_nat (alen - blen)) (a +d blen);
  if (ahigh : bool) then mret 1 else
  bhigh ← any_digit (Z.to_nat (blen - alen)) (b +d alen);
  if (bhigh : bool) then mret (-1) else
  cmp_loop (Z.to_nat (Z.min alen blen)) a b.

(** * mpvectscmp.c *)

Definition unot (x : Z) : Z := Base - 1 - x.
(** [(-v^v|v)>>Dbits-1] *)
Definition nonzero_bit (v : Z) : Z := Z.shiftr (Z.lor (Z.lxor (u32 (- v)) v) v) (Dbits - 1).

Fixpoint or_digits (n : nat) (p : dptr) (v : Z) : eff Heap Z :=
  match n with
  | O => mret v
  | S n => x ← rd (p +d Z.of_nat n); or_digits n p (Z.lor v x)
  end.

Fixpoint tscmp_loop (n : nat) (a b : dptr) (m p : Z) : eff Heap Z :=
  match n with
  | O => mret (Z.lor (p - m) m)
  | S n =>
      x ← rd (a +d Z.of_nat n); y ← rd (b +d Z.of_nat n);
      let z := u32 (x - y) in
      let x := unot x in
      let v := Z.land (nonzero_bit z) (unot m) in
      let p := Z.lor (Z.land (Z.shiftr (unot (Z.lor (Z.lor (Z.land x y) (Z.land x z)) (Z.land y z))) (Dbits - 1)) v) (Z.land p (unot v)) in
      let m := Z.lor m v in
      tscmp_loop n a b m p
  end.

Definition mpvectscmp (a : dptr) (alen : Z) (b : dptr) (blen : Z) : eff Heap Z :=
  if blen <? alen then
    v ← or_digits (Z.to_nat (alen - blen)) (a +d blen) 0;
    let m := nonzero_bit v in
    tscmp_loop (Z.to_nat blen) a b m m
  else if alen <? blen then
    v ← or_digits (Z.to_nat (blen - alen)) (b +d alen) 0;
    let m := nonzero_bit v in
    tscmp_loop (Z.to_nat alen) a b m (Z.lxor m 1)
  else tscmp_loop (Z.to_nat alen) a b 0 0.

(** * mpvecdigmuladd.c *)

Definition LO (x : Z) : Z := Z.land x (2 ^ (Dbits / 2) - 1).
Definition HI (x : Z) : Z := Z.shiftr x (Dbits / 2).

(** The two digits of a product. *)
Definition mpdigmul (a b : Z) : Z * Z :=
  let ah := HI a in let al := LO a in
  let bh := HI b in let bl := LO b in
  let p1 := u32 (ah * bl) in
  let p2 := u32 (bh * al) in
  let p3 := u32 (bl * al) in
  let p4 := u32 (ah * bh) in
  let x := u32 (Z.shiftl p1 (Dbits / 2)) in
  let p3 := u32 (p3 + x) in
  let carry := cbool (p3 <? x) in
  let x := u32 (Z.shiftl p2 (Dbits / 2)) in
  let p3 := u32 (p3 + x) in
  let carry := carry + cbool (p3 <? x) in
  let p4 := u32 (p4 + (carry + HI p1 + HI p2)) in
  (p3, p4).

Fixpoint muladd_loop (n : nat) (b : dptr) (m : Z) (p : dptr) (carry part1 : Z) : eff Heap unit :=
  match n with
  | O => wr p (u32 (part1 + carry))
  | S n =>
      let x := u32 (part1 + carry) in
      let carry := cbool (x <? carry) in
      y ← rd p;
      d ← rd b;
      let '(part0, part1) := mpdigmul d m in
      let x := u32 (x + part0) in
      let carry := carry + cbool (x <? part0) in
      let x := u32 (x + y) in
      let carry := carry + cbool (x <? y) in
      wr p x;;
      muladd_loop n (b +d 1) m (p +d 1) carry part1
  end.

Definition mpvecdigmuladd (b : dptr) (n : Z) (m : Z) (p : dptr) : eff Heap unit :=
  muladd_loop (Z.to_nat n) b m p 0 0.

Fixpoint mulsub_loop (n : nat) (b : dptr) (m : Z) (p : dptr) (borrow part1 : Z) : eff Heap Z :=
  match n with
  | O =>
      x ← rd p;
      let y := u32 (x - borrow - part1) in
      wr p y;;
      mret (if x <? y then -1 else 1)
  | S n =>
      x ← rd p;
      let y := u32 (x - borrow) in
      let borrow := cbool (x <? y) in
      let x := part1 in
      d ← rd b;
      let '(part0, part1) := mpdigmul d m in
      let x := u32 (x + part0) in
      let borrow := borrow + cbool (x <? part0) in
      let x := u32 (y - x) in
      let borrow := borrow + cbool (y <? x) in
      wr p x;;
      mulsub_loop n (b +d 1) m (p +d 1) borrow part1
  end.

Definition mpvecdigmulsub (b : dptr) (n : Z) (m : Z) (p : dptr) : eff Heap Z :=
  mulsub_loop (Z.to_nat n) b m p 0 0.

(** * mpdigdiv.c *)

(** [n]: one more than [i]. *)
Fixpoint digdiv_loop (n : nat) (divisor hi lo x q : Z) : Z * Z * Z :=
  match n with
  | O => (hi, lo, q)
  | S n =>
      if negb (0 <? hi) then (hi, lo, q) else
      let i := Z.of_nat n in
      let x := Z.shiftr x 1 in
      if hi <? x then digdiv_loop n divisor hi lo x q else
      let y := u32 (Z.shiftl divisor i) in
      if (x =? hi) && (lo <? y) then digdiv_loop n divisor hi lo x q else
      let hi := if lo <? y then u32 (hi - 1) else hi in
      let lo := u32 (lo - y) in
      let hi := u32 (hi - x) in
      let q := Z.lor q (u32 (Z.shiftl 1 i)) in
      digdiv_loop n divisor hi lo x q
  end.

Definition mpdigdiv (dividend : dptr) (divisor : Z) : eff Heap Z :=
  hi ← rd (dividend +d 1);
  lo ← rd dividend;
  if (divisor <=? hi) || (divisor =? 0) then mret (unot 0) else
  let '(hi, lo, q) := digdiv_loop (Z.to_nat Dbits) divisor hi lo divisor 0 in
  mret (u32 (q + lo / divisor)).

(** * mpmul.c *)

Definition KARATSUBAMIN : Z := 32.

(** The schoolbook loop; [skip]: digits that are 0 are skipped. *)
Fixpoint mul_loop (skip : bool) (n : nat) (a : dptr) (alen : Z) (b p : dptr) : eff Heap unit :=
  match n with
  | O => mret tt
  | S n =>
      d ← rd b;
      (if skip && (d =? 0) then mret tt else mpvecdigmuladd a alen d p);;
      mul_loop skip n a alen (b +d 1) (p +d 1)
  end.

(** [mul] is [mpvecmul]. *)
Definition mpkaratsuba (mul : dptr -> Z -> dptr -> Z -> dptr -> eff Heap unit)
    (a : dptr) (alen : Z) (b : dptr) (blen : Z) (p : dptr) : eff Heap unit :=
  let n := alen / 2 in
  let n := if Z.odd alen then n + 1 else n in
  let u0len := n in
  let u1len := alen - n in
  let '(v0len, v1len) := if n <? blen then (n, blen - n) else (blen, 0) in
  let u0 := a in
  let u1 := a +d u0len in
  let v0 := b in
  let v1 := b +d v0len in
  t ← mallocz (5 * (2 * n + 1));
  let t : dptr := (t, 0) in
  let u0v0 := t in
  let u1v1 := t +d (2 * n + 1) in
  let diffprod := t +d 2 * (2 * n + 1) in
  let res := t +d 3 * (2 * n + 1) in
  let reslen := 4 * n + 1 in
  c ← mpveccmp u1 u1len u0 u0len;
  sign ← (if c <? 0 then mpvecsub u0 u0len u1 u1len u0v0;; mret (-1)
          else mpvecsub u1 u1len u0 u1len u0v0;; mret 1);
  c ← mpveccmp v0 v0len v1 v1len;
  sign ← (if c <? 0 then mpvecsub v1 v1len v0 v1len u1v1;; mret (sign * -1)
          else mpvecsub v0 v0len v1 v1len u1v1;; mret sign);
  mul u0v0 u0len u1v1 v0len diffprod;;
  memzero t (2 * (2 * n + 1));;
  (if 0 <? v1len then mul u1 u1len v1 v1len u1v1 else mret tt);;
  mul u0 u0len v0 v0len u0v0;;
  mpvecadd res reslen u0v0 (u0len + v0len) res;;
  mpvecadd (res +d n) (reslen - n) u0v0 (u0len + v0len) (res +d n);;
  (if 0 <? v1len then
     mpvecadd (res +d n) (reslen - n) u1v1 (u1len + v1len) (res +d n);;
     mpvecadd (res +d 2 * n) (reslen - 2 * n) u1v1 (u1len + v1len) (res +d 2 * n)
   else mret tt);;
  (if sign <? 0 then mpvecsub (res +d n) (reslen - n) diffprod (u0len + v0len) (res +d n)
   else mpvecadd (res +d n) (reslen - n) diffprod (u0len + v0len) (res +d n));;
  memmoved p res (alen + blen);;
  free t.1.

Fixpoint vecmul (fuel : nat) (a : dptr) (alen : Z) (b : dptr) (blen : Z) (p : dptr) : eff Heap unit :=
  match fuel with
  | O => fault
  | S fuel =>
      let '(a, alen, b, blen) := if alen <? blen then (b, blen, a, alen) else (a, alen, b, blen) in
      if (KARATSUBAMIN <=? alen) && (1 <? blen) then mpkaratsuba (vecmul fuel) a alen b blen p
      else mul_loop true (Z.to_nat blen) a alen b p
  end.

(** Each level of [mpkaratsuba] at least shortens the longer vector by one. *)
Definition mpvecmul (a : dptr) (alen : Z) (b : dptr) (blen : Z) (p : dptr) : eff Heap unit :=
  vecmul (S (Z.to_nat (Z.max alen blen))) a alen b blen p.

Definition mpvectsmul (a : dptr) (alen : Z) (b : dptr) (blen : Z) (p : dptr) : eff Heap unit :=
  let '(a, alen, b, blen) := if alen <? blen then (b, blen, a, alen) else (a, alen, b, blen) in
  if blen =? 0 then mret tt else mul_loop false (Z.to_nat blen) a alen b p.
