(* ===== verification/MpHeap.v ===== *)
(** Vectors in memory: what a vector holds, and storing one. *)

From S2P Require Import Prelude Eff MpVec.

(** * Values *)

Definition digit (x : Z) : Prop := 0 <= x < Base.
Definition digits (l : list Z) : Prop := Forall digit l.

(** The number that a vector stands for, least significant digit first. *)
Fixpoint val (l : list Z) : Z := match l with [] => 0 | x :: l => x + Base * val l end.

Lemma Base_pos : 0 < Base.
Proof. done. Qed.
#[export] Hint Resolve Base_pos : mp.

Lemma pow_pos n : 0 <= n -> 0 < Base ^ n.
Proof. intros H. apply Z.pow_pos_nonneg; [done|lia]. Qed.

Lemma pow_succ n : 0 <= n -> Base ^ (1 + n) = Base * Base ^ n.
Proof. intros H. rewrite Z.pow_add_r by lia. lia. Qed.

Lemma digits_cons x l : digits (x :: l) <-> digit x /\ digits l.
Proof. apply Forall_cons. Qed.
Lemma digits_app l k : digits (l ++ k) <-> digits l /\ digits k.
Proof. apply Forall_app. Qed.
Lemma digits_zero n : digits (replicate n 0).
Proof. apply Forall_replicate. unfold digit. pose proof Base_pos. lia. Qed.
Lemma digits_take n l : digits l -> digits (take n l).
Proof. apply Forall_take. Qed.
Lemma digits_drop n l : digits l -> digits (drop n l).
Proof. apply Forall_drop. Qed.
#[export] Hint Resolve digits_zero digits_take digits_drop : mp.

Lemma u32_digit x : digit (u32 x).
Proof. apply u32_range. Qed.
#[export] Hint Resolve u32_digit : mp.

Lemma val_app l k : val (l ++ k) = val l + Base ^ Zlen l * val k.
Proof.
  induction l as [|x l IH]; simpl; [by rewrite Z.mul_1_l|]. rewrite IH, Zlen_cons, pow_succ by apply Zlen_nonneg. ring.
Qed.

Lemma val_zero n : val (replicate n 0) = 0.
Proof. induction n as [|n IH]; simpl; [done|]. by rewrite IH. Qed.

Lemma val_range l : digits l -> 0 <= val l < Base ^ Zlen l.
Proof.
  induction l as [|x l IH]; simpl; [done|]. intros [[H1 H2] Hl]%digits_cons. rewrite Zlen_cons, pow_succ by apply Zlen_nonneg.
  specialize (IH Hl). pose proof Base_pos. nia.
Qed.

Lemma val_split l n : (n <= length l)%nat -> val l = val (take n l) + Base ^ Z.of_nat n * val (drop n l).
Proof.
  intros H. rewrite <- (take_drop n l) at 1. rewrite val_app. unfold Zlen. by rewrite length_take, Nat.min_l.
Qed.

Lemma val_inj l k : digits l -> digits k -> length l = length k -> val l = val k -> l = k.
Proof.
  revert k. induction l as [|x l IH]; intros [|y k] Hl Hk Hlen Hv; try done.
  apply digits_cons in Hl as [Hx Hl]. apply digits_cons in Hk as [Hy Hk]. simpl in *. unfold digit in *.
  assert (x = y /\ val l = val k) as [-> Hv'].
  { assert (val l = val k); [|lia]. pose proof Base_pos. nia. }
  f_equal. apply IH; [done|done|lia|done].
Qed.

(** * Vectors in memory *)

(** The digits at [p] are [l]. *)
Definition arr (h : Heap) (p : dptr) (l : list Z) : Prop :=
  exists v, h !! p.1 = Some v /\ 0 <= p.2 /\ p.2 + Zlen l <= Zlen v /\ take (length l) (drop (Z.to_nat p.2) v) = l.

(** [l] stored at [p]. *)
Definition upd (h : Heap) (p : dptr) (l : list Z) : Heap :=
  match h !! p.1 with
  | Some v => <[p.1 := take (Z.to_nat p.2) v ++ l ++ drop (Z.to_nat p.2 + length l) v]> h
  | None => h
  end.

(** Two ranges that do not meet. *)
Definition apart (p : dptr) (n : Z) (q : dptr) (m : Z) : Prop := p.1 <> q.1 \/ p.2 + n <= q.2 \/ q.2 + m <= p.2.

(** Reading [n] digits upwards from [a] while writing upwards from [s] reads what
    was there before. *)
Definition ahead (a s : dptr) (n : Z) : Prop := a.1 <> s.1 \/ s.2 <= a.2 \/ a.2 + n <= s.2.

Lemma dadd_0 p : p +d 0 = p.
Proof. destruct p. unfold dadd. simpl. by rewrite Z.add_0_r. Qed.
Lemma dadd_dadd p i j : p +d i +d j = p +d (i + j).
Proof. unfold dadd. simpl. by rewrite Z.add_assoc. Qed.

Lemma arr_len h p l n : arr h p l -> n = length l -> exists v, h !! p.1 = Some v /\ 0 <= p.2 /\ p.2 + Z.of_nat n <= Zlen v.
Proof. intros (v & Hv & H0 & Hle & _) ->. eauto. Qed.

Lemma arr_nil h p l : arr h p l -> arr h p [].
Proof. intros (v & Hv & H0 & Hle & _). exists v. pose proof (Zlen_nonneg l). split_and!; [done|done|unfold Zlen in *; simpl; lia|done]. Qed.

Lemma take_app_inv {A} (l k : list A) n v : take (length (l ++ k)) (drop n v) = l ++ k ->
  take (length l) (drop n v) = l /\ take (length k) (drop (n + length l) v) = k.
Proof.
  intros H. rewrite <- drop_drop. split.
  - apply (f_equal (take (length l))) in H. rewrite take_take, length_app, Nat.min_l, take_app_length in H by lia. done.
  - apply (f_equal (drop (length l))) in H. rewrite skipn_firstn_comm, length_app, drop_app_length in H.
    by replace (length l + length k - length l)%nat with (length k) in H by lia.
Qed.

Lemma arr_app h p l k : arr h p (l ++ k) <-> arr h p l /\ arr h (p +d Zlen l) k.
Proof.
  unfold arr. rewrite Zlen_app. simpl. pose proof (Zlen_nonneg l). pose proof (Zlen_nonneg k). split.
  - intros (v & Hv & H1 & H2 & H3). destruct (take_app_inv _ _ _ _ H3) as [H4 H5]. split; exists v; split_and!; try done; try lia.
    rewrite Z2Nat.inj_add by lia. by rewrite to_nat_Zlen.
  - intros ((v & Hv & H1 & H2 & H3) & (v' & Hv' & H4 & H5 & H6)). rewrite Hv in Hv'. injection Hv' as <-. exists v. split_and!; [done|done|lia|].
    rewrite Z2Nat.inj_add, to_nat_Zlen in H6 by lia. rewrite <- drop_drop in H6. rewrite length_app.
    rewrite <- (take_drop (length l) (drop (Z.to_nat p.2) v)), H3.
    rewrite take_app_add. by rewrite H6.
Qed.

Lemma arr_take h p l n : arr h p l -> arr h p (take n l).
Proof. intros H. rewrite <- (take_drop n l) in H. by apply arr_app in H as [H _]. Qed.
Lemma arr_drop h p l n : arr h p l -> (n <= length l)%nat -> arr h (p +d Z.of_nat n) (drop n l).
Proof.
  intros H Hn. rewrite <- (take_drop n l) in H. apply arr_app in H as [_ H]. unfold Zlen in H. by rewrite length_take, Nat.min_l in H by done.
Qed.

Lemma arr_cons h p x l : arr h p (x :: l) -> arr h p [x] /\ arr h (p +d 1) l.
Proof. intros H. by apply (arr_app h p [x] l). Qed.

Lemma rd_run h p x l : arr h p (x :: l) -> rd p h = Ok (x, h).
Proof.
  intros (v & Hv & H0 & Hle & Ht). unfold rd. erewrite eff_bind_ok by (apply deref_run; exact Hv). cbv beta.
  destruct (Z.ltb_spec p.2 0); [lia|]. assert (Hx : v !! Z.to_nat p.2 = Some x); [|by rewrite Hx].
  rewrite <- (Nat.add_0_r (Z.to_nat p.2)), <- lookup_drop, <- (lookup_take_lt _ (length (x :: l)) 0), Ht by (simpl; lia). done.
Qed.

Lemma rd_at h p l i : arr h p l -> (i < length l)%nat -> rd (p +d Z.of_nat i) h = Ok (nth i l 0, h).
Proof.
  intros H Hi. apply arr_drop with (n := i) in H; [|lia]. destruct (drop i l) as [|x k] eqn:E.
  { apply (f_equal length) in E. rewrite length_drop in E. simpl in E. lia. }
  rewrite (rd_run _ _ _ _ H). do 2 f_equal. rewrite <- (take_drop i l), E, app_nth2 by (rewrite length_take; lia).
  rewrite length_take, Nat.min_l by lia. by rewrite Nat.sub_diag.
Qed.

(** ** Storing *)

Lemma upd_lookup h p l v : h !! p.1 = Some v ->
  upd h p l !! p.1 = Some (take (Z.to_nat p.2) v ++ l ++ drop (Z.to_nat p.2 + length l) v).
Proof. intros H. unfold upd. rewrite H. apply lookup_insert_eq. Qed.

Lemma upd_lookup_ne h p l q : q <> p.1 -> upd h p l !! q = h !! q.
Proof. intros H. unfold upd. destruct (h !! p.1); [by rewrite lookup_insert_ne|done]. Qed.

Lemma upd_nil h p : upd h p [] = h.
Proof.
  unfold upd. destruct (h !! p.1) as [v|] eqn:E; [|done]. simpl. rewrite Nat.add_0_r, take_drop. by rewrite insert_id.
Qed.

Lemma upd_len v (p l : list Z) n : (n + length l <= length v)%nat ->
  length (take n v ++ l ++ drop (n + length l) v) = length v.
Proof. intros H. rewrite !length_app, length_take, length_drop. lia. Qed.

(** There is room for [n] digits at [p]. *)
Definition room (h : Heap) (p : dptr) (n : Z) : Prop := exists v, h !! p.1 = Some v /\ 0 <= p.2 /\ p.2 + n <= Zlen v.

Lemma arr_room h p l : arr h p l -> room h p (Zlen l).
Proof. intros (v & H1 & H2 & H3 & _). by exists v. Qed.
Lemma room_le h p n m : room h p n -> m <= n -> room h p m.
Proof. intros (v & H1 & H2 & H3) H. exists v. split_and!; [done|done|lia]. Qed.
Lemma room_dadd h p n i : room h p n -> 0 <= i -> room h (p +d i) (n - i).
Proof. intros (v & H1 & H2 & H3) H. exists v. simpl. split_and!; [done|lia|lia]. Qed.
Lemma room_arr h p n : 0 <= n -> room h p n -> exists l, arr h p l /\ Zlen l = n.
Proof.
  intros Hn (v & H1 & H2 & H3). exists (take (Z.to_nat n) (drop (Z.to_nat p.2) v)).
  assert (Hl : length (take (Z.to_nat n) (drop (Z.to_nat p.2) v)) = Z.to_nat n) by (rewrite length_take, length_drop; unfold Zlen in H3; lia).
  split; [|unfold Zlen; lia]. exists v. unfold Zlen in *. rewrite Hl. split_and!; [done|done|lia|done].
Qed.

Lemma wr_run h p x : room h p 1 -> wr p x h = Ok (tt, upd h p [x]).
Proof.
  intros (v & Hv & H0 & Hle). unfold wr. erewrite eff_bind_ok by (apply deref_run; exact Hv). cbv beta.
  destruct (Z.leb_spec 0 p.2); [|lia]. destruct (Z.ltb_spec p.2 (Zlen v)); [|lia]. simpl. unfold modify, upd. rewrite Hv. do 2 f_equal.
  f_equal. rewrite insert_take_drop by (unfold Zlen in *; lia). f_equal. simpl. f_equal. f_equal. lia.
Qed.

Lemma store_next h p x l : room h p (1 + Zlen l) -> upd (upd h p [x]) (p +d 1) l = upd h p (x :: l).
Proof.
  intros (v & Hv & H0 & Hle). assert (E := upd_lookup h p [x] v Hv). unfold upd at 1. change (p +d 1).1 with p.1. change (p +d 1).2 with (p.2 + 1). rewrite E.
  unfold upd. rewrite Hv, insert_insert_eq. f_equal. pose proof (Zlen_nonneg l). unfold Zlen in *.
  replace (Z.to_nat (p.2 + 1)) with (Z.to_nat p.2 + 1)%nat by lia.
  assert (Hl : length (take (Z.to_nat p.2) v) = Z.to_nat p.2) by (rewrite length_take; lia).
  rewrite take_app_ge by lia. rewrite Hl. replace (Z.to_nat p.2 + 1 - Z.to_nat p.2)%nat with 1%nat by lia. simpl.
  rewrite <- app_assoc. f_equal. simpl. f_equal. f_equal.
  rewrite drop_app_ge by lia. rewrite Hl. replace (Z.to_nat p.2 + 1 + length l - Z.to_nat p.2)%nat with (S (length l)) by lia.
  simpl. rewrite drop_drop. f_equal. lia.
Qed.

Lemma room_upd h p l q n : room h p (Zlen l) -> room h q n -> room (upd h p l) q n.
Proof.
  intros (v & Hv & H0 & Hle) (k & Hk & H1 & H2). destruct (decide (q.1 = p.1)) as [E|E].
  - rewrite E in Hk. rewrite Hv in Hk. injection Hk as <-. eexists. rewrite E. split; [by apply upd_lookup|]. split; [done|].
    unfold Zlen in *. rewrite upd_len by lia || done. done.
  - exists k. by rewrite upd_lookup_ne.
Qed.

Lemma arr_upd_same h p l : room h p (Zlen l) -> arr (upd h p l) p l.
Proof.
  intros (v & Hv & H0 & Hle). eexists. split; [by apply upd_lookup|]. split; [done|]. unfold Zlen in *. rewrite upd_len by lia || done.
  split; [lia|]. rewrite drop_app_length' by (rewrite length_take; lia). by rewrite take_app_length.
Qed.

Lemma arr_upd_apart h p l q k : room h p (Zlen l) -> arr h q k -> apart q (Zlen k) p (Zlen l) -> arr (upd h p l) q k.
Proof.
  intros (v & Hv & H0 & Hle) (w & Hw & H1 & H2 & H3) Hap. destruct (decide (q.1 = p.1)) as [E|E].
  2: { exists w. by rewrite upd_lookup_ne. }
  rewrite E in Hw. rewrite Hv in Hw. injection Hw as <-. eexists. rewrite E. split; [by apply upd_lookup|]. split; [done|].
  unfold Zlen in *. rewrite upd_len by lia || done. split; [done|]. rewrite <- H3 at 2.
  assert (Hl : length (take (Z.to_nat p.2) v) = Z.to_nat p.2) by (rewrite length_take; lia).
  destruct Hap as [Hne|[Hap|Hap]]; [done| |]; unfold Zlen in Hap.
  - rewrite <- (take_drop (Z.to_nat p.2) v) at 3. rewrite !drop_app_le by lia.
    rewrite !take_app_le by (rewrite length_drop; lia). done.
  - rewrite !drop_app_ge by lia. rewrite Hl, drop_drop. f_equal. f_equal. lia.
Qed.

(** The rest of a vector read upwards, after a digit was written. *)
Lemma arr_ahead h a s x y l : arr h a (y :: l) -> room h s 1 -> ahead a s (1 + Zlen l) -> arr (upd h s [x]) (a +d 1) l.
Proof.
  intros Ha Hr Hah. apply arr_cons in Ha as [_ Ha]. apply arr_upd_apart; [done|done|]. unfold apart, ahead in *. simpl.
  change (Zlen [x]) with 1. pose proof (Zlen_nonneg l). destruct Hah as [H1|[H1|H1]]; [by left|right; right; lia|right; left; lia].
Qed.

Lemma ahead_step a s n : ahead a s (1 + n) -> ahead (a +d 1) (s +d 1) n.
Proof. unfold ahead. simpl. intros [H|[H|H]]; [by left|right; left; lia|right; right; lia]. Qed.

Lemma upd_room h p l n : room h p (Zlen l) -> room h p n -> room (upd h p l) p n.
Proof. apply room_upd. Qed.
