(* ===== verification/MpVecThm.v ===== *)
(** The vector routines compute on the numbers that vectors stand for. *)

From S2P Require Import Prelude Eff MpVec MpHeap.

(** * Addition *)

Lemma u32_add x y : digit x -> 0 <= y <= Base -> u32 (x + y) = if x + y <? Base then x + y else x + y - Base.
Proof.
  unfold digit, u32, Base. intros Hx Hy. destruct (Z.ltb_spec (x + y) (2 ^ 32)) as [H|H]; [apply Z.mod_small; lia|].
  rewrite <- (Z.mod_small (x + y - 2 ^ 32) (2 ^ 32)) by lia. replace (x + y) with (x + y - 2 ^ 32 + 1 * 2 ^ 32) at 1 by lia.
  apply Z_mod_plus_full.
Qed.

Lemma u32_sub x y : digit x -> digit y -> u32 (x - y) = if x <? y then x - y + Base else x - y.
Proof.
  unfold digit, u32, Base. intros Hx Hy. destruct (Z.ltb_spec x y) as [H|H]; [|apply Z.mod_small; lia].
  rewrite <- (Z.mod_small (x - y + 2 ^ 32) (2 ^ 32)) by lia. replace (x - y) with (x - y + 2 ^ 32 + -1 * 2 ^ 32) at 1 by lia.
  apply Z_mod_plus_full.
Qed.

(** One digit of a sum: the digit and the carry. *)
Lemma add_digits x y : digit x -> digit y ->
  u32 (x + y) + Base * cbool (u32 (x + y) <? y) = x + y /\ 0 <= cbool (u32 (x + y) <? y) <= 1.
Proof.
  intros Hx Hy. rewrite u32_add by (done || (unfold digit in *; lia)). unfold digit, cbool in *.
  destruct (Z.ltb_spec (x + y) Base); zif; lia.
Qed.

Lemma digit_bit c : 0 <= c <= 1 -> digit c.
Proof. unfold digit, Base. lia. Qed.
#[export] Hint Resolve digit_bit : mp.

Lemma add_digit x c : digit x -> 0 <= c <= 1 ->
  u32 (x + c) + Base * cbool (u32 (x + c) <? c) = x + c /\ 0 <= cbool (u32 (x + c) <? c) <= 1.
Proof. intros Hx Hc. apply add_digits; [done|by apply digit_bit]. Qed.

(** The two loops on lists. *)
Fixpoint vadd_both (la lb : list Z) (c : Z) : list Z * Z :=
  match la, lb with
  | x :: la, y :: lb =>
      let x := u32 (x + c) in
      let c := cbool (x <? c) in
      let x := u32 (x + y) in
      let c := c + cbool (x <? y) in
      let '(l, c) := vadd_both la lb c in (x :: l, c)
  | _, _ => ([], c)
  end.

Fixpoint vadd_rest (la : list Z) (c : Z) : list Z * Z :=
  match la with
  | x :: la => let x := u32 (x + c) in let c := cbool (x <? c) in let '(l, c) := vadd_rest la c in (x :: l, c)
  | [] => ([], c)
  end.

Lemma vadd_both_val la lb c : length la = length lb -> digits la -> digits lb -> 0 <= c <= 1 ->
  let '(l, c') := vadd_both la lb c in
  length l = length la /\ digits l /\ 0 <= c' <= 1 /\ val l + Base ^ Zlen la * c' = val la + val lb + c.
Proof.
  revert lb c. induction la as [|x la IH]; intros [|y lb] c Hlen Ha Hb Hc; try done; [unfold Zlen; simpl; split_and!; try done; lia|].
  apply digits_cons in Ha as [Hx Ha]. apply digits_cons in Hb as [Hy Hb]. cbn [vadd_both].
  destruct (add_digit x c Hx Hc) as [E1 B1]. set (x1 := u32 (x + c)) in *. set (c1 := cbool (x1 <? c)) in *.
  destruct (add_digits x1 y (u32_digit _) Hy) as [E2 B2]. set (x2 := u32 (x1 + y)) in *. set (c2 := cbool (x2 <? y)) in *.
  assert (Hd2 : digit x2) by apply u32_digit. assert (Hd1 : digit x1) by apply u32_digit. clearbody x2 c2 c1 x1.
  assert (Hc12 : 0 <= c1 + c2 <= 1).
  { unfold digit in *. pose proof Base_pos. split; [lia|]. destruct (decide (c1 = 1)) as [Z1|]; [|lia]. subst c1. nia. }
  specialize (IH lb (c1 + c2) ltac:(simpl in Hlen; lia) Ha Hb Hc12). destruct (vadd_both la lb (c1 + c2)) as [l c'].
  destruct IH as (Hl & Hd & Hc' & Hv). split_and!; [simpl; lia|by apply digits_cons|lia|lia|].
  rewrite Zlen_cons, pow_succ by apply Zlen_nonneg. cbn [val]. nia.
Qed.

Lemma vadd_rest_val la c : digits la -> 0 <= c <= 1 ->
  let '(l, c') := vadd_rest la c in
  length l = length la /\ digits l /\ 0 <= c' <= 1 /\ val l + Base ^ Zlen la * c' = val la + c.
Proof.
  revert c. induction la as [|x la IH]; intros c Ha Hc; [unfold Zlen; simpl; split_and!; try done; lia|].
  apply digits_cons in Ha as [Hx Ha]. cbn [vadd_rest].
  destruct (add_digit x c Hx Hc) as [E1 B1]. set (x1 := u32 (x + c)) in *. set (c1 := cbool (x1 <? c)) in *.
  specialize (IH c1 Ha B1). destruct (vadd_rest la c1) as [l c']. destruct IH as (Hl & Hd & Hc' & Hv).
  assert (Hd1 : digit x1) by apply u32_digit. clearbody x1 c1. split_and!; [simpl; lia|by apply digits_cons|lia|lia|].
  rewrite Zlen_cons, pow_succ by apply Zlen_nonneg. cbn [val]. nia.
Qed.

(** The sum of vectors, the first at least as long as the second. *)
Definition vadd (la lb : list Z) : list Z :=
  let '(l, c) := vadd_both (take (length lb) la) lb 0 in
  let '(k, c) := vadd_rest (drop (length lb) la) c in
  l ++ k ++ [c].

Lemma vadd_val la lb : (length lb <= length la)%nat -> digits la -> digits lb ->
  digits (vadd la lb) /\ length (vadd la lb) = S (length la) /\ val (vadd la lb) = val la + val lb.
Proof.
  intros Hlen Ha Hb. unfold vadd.
  assert (Hlt : length (take (length lb) la) = length lb) by (rewrite length_take; lia).
  pose proof (vadd_both_val (take (length lb) la) lb 0 Hlt (digits_take _ _ Ha) Hb ltac:(lia)) as H1.
  destruct (vadd_both (take (length lb) la) lb 0) as [l c]. destruct H1 as (Hl & Hd & Hc & Hv).
  pose proof (vadd_rest_val (drop (length lb) la) c (digits_drop _ _ Ha) Hc) as H2.
  destruct (vadd_rest (drop (length lb) la) c) as [k c']. destruct H2 as (Hk & Hdk & Hc' & Hvk).
  split; [|split].
  - apply digits_app. split; [done|]. apply digits_app. split; [done|]. apply digits_cons. split; [unfold digit, Base; lia|constructor].
  - rewrite !length_app, Hl, Hk, Hlt, length_drop. simpl. lia.
  - rewrite !val_app, (val_split la (length lb)) by done. unfold Zlen in *. rewrite Hl, Hk in *. rewrite Hlt in *. simpl. nia.
Qed.

Lemma vadd_both_length la : forall lb c, length la = length lb -> length (vadd_both la lb c).1 = length la.
Proof.
  induction la as [|x la IH]; intros [|y lb] c H; try done. cbn [vadd_both].
  specialize (IH lb (cbool (u32 (x + c) <? c) + cbool (u32 (u32 (x + c) + y) <? y)) ltac:(simpl in H; lia)).
  destruct (vadd_both la lb _). simpl in *. lia.
Qed.
Lemma vadd_rest_length la : forall c, length (vadd_rest la c).1 = length la.
Proof.
  induction la as [|x la IH]; intros c; [done|]. cbn [vadd_rest]. specialize (IH (cbool (u32 (x + c) <? c))).
  destruct (vadd_rest la _). simpl in *. lia.
Qed.

(** After a digit was written, the vectors that are still read and the room that
    is left. *)
Lemma next_room h s x n : 0 <= n -> room h s (1 + n) -> room (upd h s [x]) (s +d 1) n.
Proof.
  intros Hn Hr. apply room_upd; [eapply room_le; [done|change (Zlen [x]) with 1; lia]|].
  replace n with (1 + n - 1) by lia. apply room_dadd; [done|lia].
Qed.

Ltac next_read := erewrite eff_bind_ok by (by eapply rd_run); cbv beta.
Ltac next_write := erewrite eff_bind_ok by (apply wr_run; eapply room_le; [eassumption|lia]); cbv beta.

Lemma add_both_run la : forall lb h a b s c, length la = length lb ->
  arr h a la -> arr h b lb -> room h s (Zlen la) -> ahead a s (Zlen la) -> ahead b s (Zlen la) ->
  add_both (length la) a b s c h = Ok ((a +d Zlen la, s +d Zlen la, (vadd_both la lb c).2), upd h s (vadd_both la lb c).1).
Proof.
  induction la as [|x la IH]; intros [|y lb] h a b s c Hlen Ha Hb Hr Haa Hab; try done.
  { simpl. unfold mret, eff_ret. rewrite !dadd_0. by rewrite upd_nil. }
  cbn [add_both length vadd_both]. next_read. next_read.
  set (x2 := u32 (u32 (x + c) + y)). set (c2 := cbool (u32 (x + c) <? c) + cbool (x2 <? y)).
  rewrite Zlen_cons in Hr, Haa, Hab. pose proof (Zlen_nonneg la). assert (Hl : length la = length lb) by (simpl in Hlen; lia).
  next_write. rewrite (IH lb); [|done| | |by apply next_room|by apply ahead_step..].
  2: { eapply arr_ahead; [done|eapply room_le; [done|lia]|done]. }
  2: { eapply arr_ahead; [done|eapply room_le; [done|lia]|]. unfold Zlen in *. by rewrite <- Hl. }
  rewrite !dadd_dadd, Zlen_cons. pose proof (vadd_both_length la lb c2 Hl) as El.
  destruct (vadd_both la lb c2) as [l c']. cbn [fst snd] in *. rewrite store_next; [done|]. unfold Zlen in *. by rewrite El.
Qed.

Lemma add_rest_run la : forall h a s c, arr h a la -> room h s (Zlen la) -> ahead a s (Zlen la) ->
  add_rest (length la) a s c h = Ok ((s +d Zlen la, (vadd_rest la c).2), upd h s (vadd_rest la c).1).
Proof.
  induction la as [|x la IH]; intros h a s c Ha Hr Haa.
  { simpl. unfold mret, eff_ret. rewrite !dadd_0. by rewrite upd_nil. }
  cbn [add_rest length vadd_rest]. next_read. rewrite Zlen_cons in Hr, Haa. pose proof (Zlen_nonneg la).
  next_write. rewrite IH; [|eapply arr_ahead; [done|eapply room_le; [done|lia]|done]|by apply next_room|by apply ahead_step].
  rewrite !dadd_dadd, Zlen_cons. set (c1 := cbool (u32 (x + c) <? c)). pose proof (vadd_rest_length la c1) as El.
  destruct (vadd_rest la c1) as [l c']. cbn [fst snd] in *. rewrite store_next; [done|]. unfold Zlen in *. by rewrite El.
Qed.

(** Storing a vector in two pieces. *)
Lemma upd_app l : forall h p k, room h p (Zlen l + Zlen k) -> upd (upd h p l) (p +d Zlen l) k = upd h p (l ++ k).
Proof.
  induction l as [|x l IH]; intros h p k Hr; [by rewrite upd_nil, dadd_0|]. rewrite Zlen_cons in *. pose proof (Zlen_nonneg l). pose proof (Zlen_nonneg k).
  rewrite <- (store_next h p x l) by (eapply room_le; [done|lia]). rewrite <- dadd_dadd, IH; [|apply next_room; [lia|eapply room_le; [done|lia]]].
  cbn [app]. rewrite store_next; [done|]. rewrite Zlen_app. eapply room_le; [done|lia].
Qed.

Lemma ahead_drop a s n m : 0 <= m -> ahead a s n -> ahead (a +d m) (s +d m) (n - m).
Proof. unfold ahead. simpl. intros Hm [H|[H|H]]; [by left|right; left; lia|right; right; lia]. Qed.

Lemma ahead_le a s n m : ahead a s n -> m <= n -> ahead a s m.
Proof. unfold ahead. intros [H|[H|H]] Hm; [by left|right; left; lia|right; right; lia]. Qed.

Lemma arr_past h a s l k : room h s (Zlen k) -> arr h (a +d Zlen k) l -> ahead a s (Zlen k + Zlen l) -> arr (upd h s k) (a +d Zlen k) l.
Proof.
  intros Hr Ha Hah. apply arr_upd_apart; [done|done|]. unfold apart, ahead in *. simpl. pose proof (Zlen_nonneg l).
  destruct Hah as [H1|[H1|H1]]; [by left|right; right; lia|right; left; lia].
Qed.

Lemma Zlen_take {A} (l : list A) n : (n <= length l)%nat -> Zlen (take n l) = Z.of_nat n.
Proof. intros H. unfold Zlen. rewrite length_take. lia. Qed.
Lemma Zlen_drop {A} (l : list A) n : Zlen (drop n l) = Z.of_nat (length l - n).
Proof. unfold Zlen. by rewrite length_drop. Qed.

Lemma mpvecadd_run h a la b lb s : (length lb <= length la)%nat -> arr h a la -> arr h b lb ->
  room h s (Zlen la + 1) -> ahead a s (Zlen la) -> ahead b s (Zlen lb) ->
  mpvecadd a (Zlen la) b (Zlen lb) s h = Ok (tt, upd h s (vadd la lb)).
Proof.
  intros Hlen Ha Hb Hr Haa Hab. unfold mpvecadd. rewrite to_nat_Zlen.
  set (l1 := take (length lb) la). set (l2 := drop (length lb) la).
  assert (Hl1 : length l1 = length lb) by (unfold l1; rewrite length_take; lia).
  assert (Hz1 : Zlen l1 = Zlen lb) by (unfold Zlen; lia).
  assert (Hz : Zlen la = Zlen lb + Zlen l2) by (unfold l2; rewrite Zlen_drop; unfold Zlen; lia).
  pose proof (Zlen_nonneg l2). pose proof (Zlen_nonneg lb).
  assert (E1 := add_both_run l1 lb h a b s 0 Hl1 ltac:(by apply arr_take) Hb ltac:(eapply room_le; [done|lia])
    ltac:(eapply ahead_le; [done|lia]) ltac:(by rewrite Hz1)). rewrite Hl1, Hz1 in E1.
  rewrite (eff_bind_ok _ _ _ _ _ E1). unfold vadd. fold l1 l2.
  pose proof (vadd_both_length l1 lb 0 Hl1) as El. destruct (vadd_both l1 lb 0) as [k c]. cbn [fst snd] in *.
  assert (Hzk : Zlen k = Zlen lb) by (unfold Zlen; lia).
  replace (Z.to_nat (Zlen la - Zlen lb)) with (length l2) by (unfold Zlen in *; lia).
  rewrite <- Hzk. rewrite <- Hzk in Hz. pose proof (Zlen_nonneg k).
  assert (Hr1 : room h s (Zlen k)) by (eapply room_le; [done|lia]).
  assert (Ha2 : arr (upd h s k) (a +d Zlen k) l2).
  { apply arr_past; [done| |by rewrite <- Hz]. rewrite Hzk. unfold l2, Zlen. by apply arr_drop. }
  assert (Hah2 : ahead (a +d Zlen k) (s +d Zlen k) (Zlen l2)).
  { replace (Zlen l2) with (Zlen la - Zlen k) by lia. apply ahead_drop; [lia|done]. }
  assert (Hr2 : room (upd h s k) (s +d Zlen k) (Zlen l2 + 1)).
  { apply room_upd; [done|]. replace (Zlen l2 + 1) with (Zlen la + 1 - Zlen k) by lia. apply room_dadd; [done|lia]. }
  erewrite eff_bind_ok by (apply add_rest_run; [done|eapply room_le; [done|lia]|done]). cbv beta.
  pose proof (vadd_rest_length l2 c) as El2. destruct (vadd_rest l2 c) as [k2 c2]. cbn [fst snd] in *.
  assert (Hz2 : Zlen k2 = Zlen l2) by (unfold Zlen; lia). rewrite <- Hz2. rewrite <- Hz2 in Hz, Hr2. pose proof (Zlen_nonneg k2).
  rewrite wr_run. 2: { apply room_upd; [eapply room_le; [done|lia]|]. replace 1 with (Zlen k2 + 1 - Zlen k2) by lia. apply room_dadd; [done|lia]. }
  rewrite upd_app by exact Hr2. rewrite upd_app; [done|]. rewrite Zlen_app. change (Zlen [c2]) with 1. eapply room_le; [exact Hr|lia].
Qed.

(** * Subtraction *)

Lemma sub_digit x y : digit x -> digit y ->
  u32 (x - y) = x - y + Base * cbool (x <? y) /\ 0 <= cbool (x <? y) <= 1.
Proof.
  intros Hx Hy. rewrite u32_sub by done. unfold cbool. destruct (Z.ltb_spec x y); lia.
Qed.

(** [y > x] after [y = x - borrow]. *)
Lemma sub_bit x c : digit x -> 0 <= c <= 1 ->
  u32 (x - c) = x - c + Base * cbool (x <? u32 (x - c)) /\ 0 <= cbool (x <? u32 (x - c)) <= 1.
Proof.
  intros Hx Hc. rewrite u32_sub by (done || by apply digit_bit). unfold digit, cbool in *. assert (1 < Base) by done.
  destruct (Z.ltb_spec x c); zif; lia.
Qed.

Fixpoint vsub_both (la lb : list Z) (c : Z) : list Z * Z :=
  match la, lb with
  | x :: la, y :: lb =>
      let y := u32 (y + c) in
      let c := cbool (y <? c) in
      let c := c + cbool (x <? y) in
      let '(l, c) := vsub_both la lb c in (u32 (x - y) :: l, c)
  | _, _ => ([], c)
  end.

Fixpoint vsub_rest (la : list Z) (c : Z) : list Z * Z :=
  match la with
  | x :: la => let y := u32 (x - c) in let c := cbool (x <? y) in let '(l, c) := vsub_rest la c in (y :: l, c)
  | [] => ([], c)
  end.

Lemma vsub_both_val la lb c : length la = length lb -> digits la -> digits lb -> 0 <= c <= 1 ->
  let '(l, c') := vsub_both la lb c in
  length l = length la /\ digits l /\ 0 <= c' <= 1 /\ val l = val la - val lb - c + Base ^ Zlen la * c'.
Proof.
  revert lb c. induction la as [|x la IH]; intros [|y lb] c Hlen Ha Hb Hc; try done; [unfold Zlen; simpl; split_and!; try done; lia|].
  apply digits_cons in Ha as [Hx Ha]. apply digits_cons in Hb as [Hy Hb]. cbn [vsub_both].
  destruct (add_digit y c Hy Hc) as [E1 B1]. set (y1 := u32 (y + c)) in *. set (c1 := cbool (y1 <? c)) in *.
  assert (Hd1 : digit y1) by apply u32_digit. clearbody y1 c1.
  destruct (sub_digit x y1 Hx Hd1) as [E2 B2]. set (z := u32 (x - y1)) in *. set (c2 := cbool (x <? y1)) in *.
  assert (Hz : digit z) by apply u32_digit. 
  assert (Hc2 : c1 = 1 -> c2 = 0).
  { intros ->. unfold c2, cbool. unfold digit in *. destruct (Z.ltb_spec x y1); lia. }
  clearbody z c2.
  specialize (IH lb (c1 + c2) ltac:(simpl in Hlen; lia) Ha Hb ltac:(lia)). destruct (vsub_both la lb (c1 + c2)) as [l c'].
  destruct IH as (Hl & Hd & Hc' & Hv). split_and!; [simpl; lia|by apply digits_cons|lia|lia|].
  rewrite Zlen_cons, pow_succ by apply Zlen_nonneg. cbn [val]. nia.
Qed.

Lemma vsub_rest_val la c : digits la -> 0 <= c <= 1 ->
  let '(l, c') := vsub_rest la c in
  length l = length la /\ digits l /\ 0 <= c' <= 1 /\ val l = val la - c + Base ^ Zlen la * c'.
Proof.
  revert c. induction la as [|x la IH]; intros c Ha Hc; [unfold Zlen; simpl; split_and!; try done; lia|].
  apply digits_cons in Ha as [Hx Ha]. cbn [vsub_rest].
  destruct (sub_bit x c Hx Hc) as [E1 B1]. set (y1 := u32 (x - c)) in *. set (c1 := cbool (x <? y1)) in *.
  assert (Hd1 : digit y1) by apply u32_digit. clearbody y1 c1.
  specialize (IH c1 Ha B1). destruct (vsub_rest la c1) as [l c']. destruct IH as (Hl & Hd & Hc' & Hv).
  split_and!; [simpl; lia|by apply digits_cons|lia|lia|]. rewrite Zlen_cons, pow_succ by apply Zlen_nonneg. cbn [val]. nia.
Qed.

Definition vsub (la lb : list Z) : list Z :=
  let '(l, c) := vsub_both (take (length lb) la) lb 0 in l ++ (vsub_rest (drop (length lb) la) c).1.

(** The difference, modulo the size of the result when it would be negative. *)
Lemma vsub_mod la lb : (length lb <= length la)%nat -> digits la -> digits lb ->
  digits (vsub la lb) /\ length (vsub la lb) = length la /\
  val (vsub la lb) = val la - val lb + (if val la <? val lb then Base ^ Zlen la else 0).
Proof.
  intros Hlen Ha Hb. unfold vsub.
  assert (Hlt : length (take (length lb) la) = length lb) by (rewrite length_take; lia).
  pose proof (vsub_both_val (take (length lb) la) lb 0 Hlt (digits_take _ _ Ha) Hb ltac:(lia)) as H1.
  destruct (vsub_both (take (length lb) la) lb 0) as [l c]. destruct H1 as (Hl & Hd & Hc & Hv).
  pose proof (vsub_rest_val (drop (length lb) la) c (digits_drop _ _ Ha) Hc) as H2.
  destruct (vsub_rest (drop (length lb) la) c) as [k c']. destruct H2 as (Hk & Hdk & Hc' & Hvk). cbn [fst].
  assert (Hlen' : length (l ++ k) = length la) by (rewrite length_app, Hl, Hk, Hlt, length_drop; lia).
  assert (Hdig : digits (l ++ k)) by (by apply digits_app).
  assert (E : val (l ++ k) = val la - val lb + Base ^ Zlen la * c').
  { rewrite val_app, (val_split la (length lb)) by done.
    assert (Hz : Zlen la = Zlen l + Zlen (drop (length lb) la)) by (unfold Zlen in *; rewrite <- Hlen', length_app, Hk; lia).
    rewrite Hz, Z.pow_add_r by apply Zlen_nonneg. rewrite Hvk, Hv. unfold Zlen in *. rewrite Hl, Hlt. lia. }
  split; [done|]. split; [done|]. rewrite E. pose proof (val_range _ Hdig) as Hrange. pose proof (val_range la Ha). pose proof (val_range lb Hb).
  replace (Zlen (l ++ k)) with (Zlen la) in Hrange by (unfold Zlen; lia). pose proof (pow_pos (Zlen la) (Zlen_nonneg _)).
  assert (Hp : Base ^ Zlen lb <= Base ^ Zlen la) by (apply Z.pow_le_mono_r; [done|unfold Zlen; lia]).
  destruct (Z.ltb_spec (val la) (val lb)); assert (c' = 0 \/ c' = 1) as [->| ->] by lia; lia.
Qed.

Lemma vsub_val la lb : (length lb <= length la)%nat -> digits la -> digits lb -> val lb <= val la ->
  digits (vsub la lb) /\ length (vsub la lb) = length la /\ val (vsub la lb) = val la - val lb.
Proof.
  intros H1 H2 H3 H4. destruct (vsub_mod la lb H1 H2 H3) as (A & B & C). split_and!; [done|done|].
  rewrite C. destruct (Z.ltb_spec (val la) (val lb)); lia.
Qed.

Lemma vsub_both_length la : forall lb c, length la = length lb -> length (vsub_both la lb c).1 = length la.
Proof.
  induction la as [|x la IH]; intros [|y lb] c H; try done. cbn [vsub_both].
  specialize (IH lb (cbool (u32 (y + c) <? c) + cbool (x <? u32 (y + c))) ltac:(simpl in H; lia)).
  destruct (vsub_both la lb _). simpl in *. lia.
Qed.
Lemma vsub_rest_length la : forall c, length (vsub_rest la c).1 = length la.
Proof.
  induction la as [|x la IH]; intros c; [done|]. cbn [vsub_rest]. specialize (IH (cbool (x <? u32 (x - c)))).
  destruct (vsub_rest la _). simpl in *. lia.
Qed.

Lemma sub_both_run la : forall lb h a b s c, length la = length lb ->
  arr h a la -> arr h b lb -> room h s (Zlen la) -> ahead a s (Zlen la) -> ahead b s (Zlen la) ->
  sub_both (length la) a b s c h = Ok ((a +d Zlen la, s +d Zlen la, (vsub_both la lb c).2), upd h s (vsub_both la lb c).1).
Proof.
  induction la as [|x la IH]; intros [|y lb] h a b s c Hlen Ha Hb Hr Haa Hab; try done.
  { simpl. unfold mret, eff_ret. rewrite !dadd_0. by rewrite upd_nil. }
  cbn [sub_both length vsub_both]. next_read. next_read.
  set (y1 := u32 (y + c)). set (c2 := cbool (y1 <? c) + cbool (x <? y1)).
  rewrite Zlen_cons in Hr, Haa, Hab. pose proof (Zlen_nonneg la). assert (Hl : length la = length lb) by (simpl in Hlen; lia).
  next_write. rewrite (IH lb); [|done| | |by apply next_room|by apply ahead_step..].
  2: { eapply arr_ahead; [done|eapply room_le; [done|lia]|done]. }
  2: { eapply arr_ahead; [done|eapply room_le; [done|lia]|]. unfold Zlen in *. by rewrite <- Hl. }
  rewrite !dadd_dadd, Zlen_cons. pose proof (vsub_both_length la lb c2 Hl) as El.
  destruct (vsub_both la lb c2) as [l c']. cbn [fst snd] in *. rewrite store_next; [done|]. unfold Zlen in *. by rewrite El.
Qed.

Lemma sub_rest_run la : forall h a s c, arr h a la -> room h s (Zlen la) -> ahead a s (Zlen la) ->
  sub_rest (length la) a s c h = Ok (tt, upd h s (vsub_rest la c).1).
Proof.
  induction la as [|x la IH]; intros h a s c Ha Hr Haa.
  { simpl. unfold mret, eff_ret. by rewrite upd_nil. }
  cbn [sub_rest length vsub_rest]. next_read. rewrite Zlen_cons in Hr, Haa. pose proof (Zlen_nonneg la).
  next_write. rewrite IH; [|eapply arr_ahead; [done|eapply room_le; [done|lia]|done]|by apply next_room|by apply ahead_step].
  set (c1 := cbool (x <? u32 (x - c))). pose proof (vsub_rest_length la c1) as El.
  destruct (vsub_rest la c1) as [l c']. cbn [fst snd] in *. rewrite store_next; [done|]. unfold Zlen in *. by rewrite El.
Qed.

Lemma mpvecsub_run h a la b lb s : (length lb <= length la)%nat -> arr h a la -> arr h b lb ->
  room h s (Zlen la) -> ahead a s (Zlen la) -> ahead b s (Zlen lb) ->
  mpvecsub a (Zlen la) b (Zlen lb) s h = Ok (tt, upd h s (vsub la lb)).
Proof.
  intros Hlen Ha Hb Hr Haa Hab. unfold mpvecsub. rewrite to_nat_Zlen.
  set (l1 := take (length lb) la). set (l2 := drop (length lb) la).
  assert (Hl1 : length l1 = length lb) by (unfold l1; rewrite length_take; lia).
  assert (Hz1 : Zlen l1 = Zlen lb) by (unfold Zlen; lia).
  assert (Hz : Zlen la = Zlen lb + Zlen l2) by (unfold l2; rewrite Zlen_drop; unfold Zlen; lia).
  pose proof (Zlen_nonneg l2). pose proof (Zlen_nonneg lb).
  assert (E1 := sub_both_run l1 lb h a b s 0 Hl1 ltac:(by apply arr_take) Hb ltac:(eapply room_le; [done|lia])
    ltac:(eapply ahead_le; [done|lia]) ltac:(by rewrite Hz1)). rewrite Hl1, Hz1 in E1.
  rewrite (eff_bind_ok _ _ _ _ _ E1). unfold vsub. fold l1 l2.
  pose proof (vsub_both_length l1 lb 0 Hl1) as El. destruct (vsub_both l1 lb 0) as [k c]. cbn [fst snd] in *.
  assert (Hzk : Zlen k = Zlen lb) by (unfold Zlen; lia).
  replace (Z.to_nat (Zlen la - Zlen lb)) with (length l2) by (unfold Zlen in *; lia).
  rewrite <- Hzk. rewrite <- Hzk in Hz. pose proof (Zlen_nonneg k).
  assert (Hr1 : room h s (Zlen k)) by (eapply room_le; [done|lia]).
  rewrite sub_rest_run.
  - pose proof (vsub_rest_length l2 c). rewrite upd_app; [done|]. eapply room_le; [exact Hr|]. unfold Zlen in *. lia.
  - apply arr_past; [done| |by rewrite <- Hz]. rewrite Hzk. unfold l2, Zlen. by apply arr_drop.
  - apply room_upd; [done|]. replace (Zlen l2) with (Zlen la - Zlen k) by lia. apply room_dadd; [done|lia].
  - replace (Zlen l2) with (Zlen la - Zlen k) by lia. apply ahead_drop; [lia|done].
Qed.
