(* ===== verification/MpCmp.v ===== *)
(** Comparison of vectors, with early exit and in constant time. *)

From S2P Require Import Prelude Eff MpVec MpHeap MpVecThm.

(** * mpveccmp *)

Definition zcmp (x y : Z) : Z := if x <? y then -1 else if x =? y then 0 else 1.

Lemma val_take_S l n : (n < length l)%nat -> val (take (S n) l) = val (take n l) + Base ^ Z.of_nat n * nth n l 0.
Proof.
  intros H. rewrite (take_S_r _ _ (nth n l 0)) by (rewrite nth_lookup; destruct (lookup_lt_is_Some_2 _ _ H) as [x ->]; done).
  rewrite val_app, Zlen_take by lia. simpl. f_equal. f_equal. ring.
Qed.

Lemma digit_nth l n : digits l -> digit (nth n l 0).
Proof.
  intros Hl. rewrite nth_lookup. destruct (l !! n) as [x|] eqn:E; simpl; [by eapply Forall_lookup_1 in E|].
  unfold digit, Base. lia.
Qed.
#[export] Hint Resolve digit_nth : mp.

Lemma val_take_range l n : digits l -> (n <= length l)%nat -> 0 <= val (take n l) < Base ^ Z.of_nat n.
Proof. intros Hl Hn. pose proof (val_range _ (digits_take n l Hl)) as H. by rewrite Zlen_take in H. Qed.

Lemma any_digit_run n : forall h p l, arr h p l -> digits l -> (n <= length l)%nat ->
  any_digit n p h = Ok (negb (val (take n l) =? 0), h).
Proof.
  induction n as [|n IH]; intros h p l Hl Hd Hn; [done|]. cbn [any_digit]. erewrite eff_bind_ok by (apply rd_at; [done|lia]). cbv beta.
  rewrite val_take_S by lia. pose proof (val_take_range l n Hd ltac:(lia)). pose proof (digit_nth l n Hd) as Hx. unfold digit in Hx.
  pose proof (pow_pos (Z.of_nat n) ltac:(lia)). set (x := nth n l 0) in *. clearbody x.
  destruct (Z.eqb_spec x 0) as [->|Hne]; simpl.
  - rewrite (IH h p l Hl Hd) by lia. by rewrite Z.mul_0_r, Z.add_0_r.
  - destruct (Z.eqb_spec (val (take n l) + Base ^ Z.of_nat n * x) 0); [nia|done].
Qed.

Lemma zcmp_high x y u v n : 0 <= u < n -> 0 <= v < n -> 0 < n ->
  zcmp (u + n * x) (v + n * y) = if x =? y then zcmp u v else zcmp x y.
Proof.
  intros Hu Hv Hn. unfold zcmp. destruct (Z.eqb_spec x y) as [->|Hne].
  - destruct (Z.ltb_spec (u + n * y) (v + n * y)), (Z.ltb_spec u v); try lia.
    destruct (Z.eqb_spec (u + n * y) (v + n * y)), (Z.eqb_spec u v); lia.
  - destruct (Z.ltb_spec x y).
    + destruct (Z.ltb_spec (u + n * x) (v + n * y)); [done|nia].
    + destruct (Z.ltb_spec (u + n * x) (v + n * y)); [nia|]. destruct (Z.eqb_spec (u + n * x) (v + n * y)); [nia|done].
Qed.

Lemma cmp_loop_run n : forall h a b la lb, arr h a la -> arr h b lb -> digits la -> digits lb ->
  (n <= length la)%nat -> (n <= length lb)%nat ->
  cmp_loop n a b h = Ok (zcmp (val (take n la)) (val (take n lb)), h).
Proof.
  induction n as [|n IH]; intros h a b la lb Ha Hb Hda Hdb Hna Hnb; [done|]. cbn [cmp_loop].
  erewrite eff_bind_ok by (apply rd_at; [done|lia]). cbv beta. erewrite eff_bind_ok by (apply rd_at; [done|lia]). cbv beta.
  rewrite !val_take_S by lia. pose proof (digit_nth la n Hda) as Hx. pose proof (digit_nth lb n Hdb) as Hy.
  set (x := nth n la 0) in *. set (y := nth n lb 0) in *. clearbody x y.
  rewrite zcmp_high by (apply val_take_range; done || lia) || (apply pow_pos; lia).
  rewrite u32_sub by done. unfold digit in *. change (zcmp x y) with (if x <? y then -1 else if x =? y then 0 else 1).
  destruct (Z.ltb_spec x y) as [Hlt|Hge].
  - destruct (Z.eqb_spec (x - y + Base) 0); [lia|]. destruct (Z.eqb_spec x y); [lia|]. destruct (Z.ltb_spec x (x - y + Base)); [done|lia].
  - destruct (Z.eqb_spec x y) as [->|Hne].
    + rewrite Z.sub_diag. simpl. apply IH; done || lia.
    + destruct (Z.eqb_spec (x - y) 0); [lia|]. destruct (Z.ltb_spec x (x - y)); [lia|done].
Qed.

Lemma zcmp_longer la lb : digits la -> digits lb -> (length lb <= length la)%nat ->
  zcmp (val la) (val lb) = if val (drop (length lb) la) =? 0 then zcmp (val (take (length lb) la)) (val lb) else 1.
Proof.
  intros Ha Hb Hlen. rewrite (val_split la (length lb)) at 1 by done.
  pose proof (val_take_range la (length lb) Ha Hlen). pose proof (val_range lb Hb). unfold Zlen in *.
  pose proof (val_range _ (digits_drop (length lb) la Ha)). set (k := val (drop (length lb) la)) in *. clearbody k.
  destruct (Z.eqb_spec k 0) as [->|Hk]; [by rewrite Z.mul_0_r, Z.add_0_r|]. unfold zcmp.
  destruct (Z.ltb_spec (val (take (length lb) la) + Base ^ Z.of_nat (length lb) * k) (val lb)); [nia|].
  destruct (Z.eqb_spec (val (take (length lb) la) + Base ^ Z.of_nat (length lb) * k) (val lb)); [nia|done].
Qed.

Lemma zcmp_swap x y : zcmp x y = - zcmp y x.
Proof. unfold zcmp. destruct (Z.ltb_spec x y), (Z.ltb_spec y x), (Z.eqb_spec x y), (Z.eqb_spec y x); lia. Qed.

Lemma mpveccmp_run h a la b lb : arr h a la -> arr h b lb -> digits la -> digits lb ->
  mpveccmp a (Zlen la) b (Zlen lb) h = Ok (zcmp (val la) (val lb), h).
Proof.
  intros Ha Hb Hda Hdb. unfold mpveccmp. unfold Zlen.
  destruct (decide (length lb <= length la)%nat) as [Hlen|Hlen].
  - erewrite eff_bind_ok by (apply any_digit_run with (l := drop (length lb) la); [by apply arr_drop|by apply digits_drop|rewrite length_drop; lia]).
    cbv beta. rewrite take_ge by (rewrite length_drop; lia). rewrite zcmp_longer by done.
    destruct (Z.eqb_spec (val (drop (length lb) la)) 0); simpl; [|done].
    replace (Z.to_nat (Z.of_nat (length lb) - Z.of_nat (length la))) with O by lia. cbn [any_digit]. eff_prim.
    replace (Z.to_nat (Z.min (Z.of_nat (length la)) (Z.of_nat (length lb)))) with (length lb) by lia.
    rewrite (cmp_loop_run _ h a b la lb) by (done || lia). by rewrite (take_ge lb).
  - replace (Z.to_nat (Z.of_nat (length la) - Z.of_nat (length lb))) with O by lia. cbn [any_digit]. eff_prim.
    erewrite eff_bind_ok by (apply any_digit_run with (l := drop (length la) lb); [apply arr_drop; [done|lia]|by apply digits_drop|rewrite length_drop; lia]).
    cbv beta. rewrite take_ge by (rewrite length_drop; lia). rewrite zcmp_swap, zcmp_longer by (done || lia).
    destruct (Z.eqb_spec (val (drop (length la) lb)) 0); simpl; [|done].
    replace (Z.to_nat (Z.min (Z.of_nat (length la)) (Z.of_nat (length lb)))) with (length la) by lia.
    rewrite (cmp_loop_run _ h a b la lb) by (done || lia). rewrite (take_ge la) by lia. do 2 f_equal. apply zcmp_swap.
Qed.

(** * mpvectscmp *)

(** The top bit of a digit. *)
Definition top_bit (x : Z) : Z := Z.shiftr x (Dbits - 1).

Lemma top_bit_digit x : digit x -> top_bit x = cbool (2 ^ 31 <=? x).
Proof.
  intros Hx. unfold top_bit, digit, Base, cbool in *. rewrite Z.shiftr_div_pow2 by done. change (Dbits - 1) with 31.
  destruct (Z.leb_spec (2 ^ 31) x); width_lia.
Qed.

Lemma top_bit_unot x : top_bit (unot x) = 1 - top_bit x.
Proof.
  unfold top_bit, unot, Base. rewrite !Z.shiftr_div_pow2 by done. change (Dbits - 1) with 31. width_lia.
Qed.

Lemma unot_digit x : digit x -> digit (unot x).
Proof. unfold digit, unot. lia. Qed.
#[export] Hint Resolve unot_digit : mp.

Lemma nonzero_bit_spec v : digit v -> nonzero_bit v = cbool (negb (v =? 0)).
Proof.
  intros Hv. unfold nonzero_bit. rewrite Z.shiftr_lor, Z.shiftr_lxor. fold (top_bit v) (top_bit (u32 (- v))).
  replace (- v) with (0 - v) by lia. rewrite !top_bit_digit, u32_sub by (done || apply u32_digit). unfold digit, Base in Hv.
  destruct (Z.ltb_spec 0 v), (Z.leb_spec (2 ^ 31) v), (Z.eqb_spec v 0); try lia; unfold Base; zif; try done; unfold cbool; case_match; done.
Qed.

(** The borrow of a subtraction from the top bits, by majority. *)
Lemma borrow_majority x y : digit x -> digit y ->
  top_bit (unot (Z.lor (Z.lor (Z.land (unot x) y) (Z.land (unot x) (u32 (x - y)))) (Z.land y (u32 (x - y))))) = cbool (y <=? x).
Proof.
  intros Hx Hy. rewrite top_bit_unot. unfold top_bit. rewrite !Z.shiftr_lor, !Z.shiftr_land.
  fold (top_bit y) (top_bit (unot x)) (top_bit (u32 (x - y))).
  rewrite top_bit_unot, !top_bit_digit by (done || apply u32_digit). rewrite u32_sub by done. unfold digit, Base in *.
  destruct (Z.ltb_spec x y), (Z.leb_spec (2 ^ 31) x), (Z.leb_spec (2 ^ 31) y); try lia; zif; try done;
    match goal with |- context [2 ^ 31 <=? ?e] => destruct (Z.leb_spec (2 ^ 31) e) end; try lia; done.
Qed.

Lemma lor_digit x y : digit x -> digit y -> digit (Z.lor x y).
Proof.
  unfold digit, Base. intros Hx Hy. split; [apply Z.lor_nonneg; lia|].
  destruct (Z.eq_dec (Z.lor x y) 0) as [->|Hne]; [done|]. assert (0 <= Z.lor x y) by (apply Z.lor_nonneg; lia).
  apply Z.log2_lt_pow2; [lia|]. rewrite Z.log2_lor by lia.
  assert (Hlog : forall w, 0 <= w < 2 ^ 32 -> Z.log2 w < 32).
  { intros w Hw. destruct (Z.eq_dec w 0) as [->|]; [done|]. apply Z.log2_lt_pow2; lia. }
  pose proof (Hlog x Hx). pose proof (Hlog y Hy). lia.
Qed.

(** Whether a digit decided, [m], and how, [p], while the digits below are compared. *)
Definition ts_result (m p : Z) : Z := Z.lor (p - m) m.

Lemma or_digits_run n : forall h p l v, arr h p l -> digits l -> (n <= length l)%nat -> digit v ->
  exists w, or_digits n p v h = Ok (w, h) /\ digit w /\ (w = 0 <-> v = 0 /\ val (take n l) = 0).
Proof.
  induction n as [|n IH]; intros h p l v Hl Hd Hn Hv; [exists v; split_and!; [done|done|tauto]|].
  cbn [or_digits]. erewrite eff_bind_ok by (apply rd_at; [done|lia]). cbv beta. rewrite val_take_S by lia.
  pose proof (digit_nth l n Hd) as Hx. set (x := nth n l 0) in *. clearbody x.
  assert (Hw : digit (Z.lor v x)).
  { by apply lor_digit. }
  destruct (IH h p l (Z.lor v x) Hl Hd ltac:(lia) Hw) as (w & E & Hdw & Hz). exists w. split_and!; [done|done|]. rewrite Hz.
  pose proof (val_take_range l n Hd ltac:(lia)). pose proof (pow_pos (Z.of_nat n) ltac:(lia)). unfold digit in *.
  rewrite Z.lor_eq_0_iff. split; intros [H1 H2]; [split; [|nia]; lia|split; [split|]; nia].
Qed.

Lemma tscmp_loop_run n : forall h a b la lb m p, arr h a la -> arr h b lb -> digits la -> digits lb ->
  (n <= length la)%nat -> (n <= length lb)%nat -> (m = 0 \/ m = 1) -> (p = 0 \/ p = 1) ->
  tscmp_loop n a b m p h =
    Ok (if (m =? 0) && negb (val (take n la) =? val (take n lb)) then zcmp (val (take n la)) (val (take n lb)) else ts_result m p, h).
Proof.
  induction n as [|n IH]; intros h a b la lb m p Ha Hb Hda Hdb Hna Hnb Hm Hp; [by rewrite andb_false_r|]. cbn [tscmp_loop].
  erewrite eff_bind_ok by (apply rd_at; [done|lia]). cbv beta. erewrite eff_bind_ok by (apply rd_at; [done|lia]). cbv beta.
  rewrite !val_take_S by lia. pose proof (digit_nth la n Hda) as Hx. pose proof (digit_nth lb n Hdb) as Hy.
  set (x := nth n la 0) in *. set (y := nth n lb 0) in *. clearbody x y.
  pose proof (val_take_range la n Hda ltac:(lia)) as Ru. pose proof (val_take_range lb n Hdb ltac:(lia)) as Rv.
  pose proof (pow_pos (Z.of_nat n) ltac:(lia)) as Rn.
  rewrite zcmp_high by done. rewrite nonzero_bit_spec by apply u32_digit. fold (top_bit (unot (Z.lor (Z.lor (Z.land (unot x) y) (Z.land (unot x) (u32 (x - y)))) (Z.land y (u32 (x - y)))))).
  rewrite borrow_majority by done.
  assert (E : (u32 (x - y) =? 0) = (x =? y)).
  { rewrite u32_sub by done. unfold digit in *. destruct (Z.ltb_spec x y), (Z.eqb_spec x y); zif; done. }
  rewrite E. set (u := val (take n la)) in *. set (v := val (take n lb)) in *. set (k := Base ^ Z.of_nat n) in *.
  assert (Ev : (u + k * x =? v + k * y) = (u =? v) && (x =? y)).
  { destruct (Z.eqb_spec (u + k * x) (v + k * y)), (Z.eqb_spec u v), (Z.eqb_spec x y); try done; exfalso; nia. }
  rewrite Ev, (IH h a b la lb) by first [done|lia|destruct Hm as [->| ->], Hp as [->| ->], (x =? y), (y <=? x); simpl; auto].
  fold u v. clearbody u v k. unfold zcmp, ts_result.
  destruct Hm as [->| ->], Hp as [->| ->], (Z.eqb_spec x y); simpl; rewrite ?andb_false_r, ?andb_true_r; try done;
    destruct (Z.leb_spec y x), (Z.ltb_spec x y); try lia; done.
Qed.

(** The result of the comparison in constant time: that of [mpveccmp], but for
    equal numbers when the second vector is the longer. *)
Lemma mpvectscmp_run h a la b lb : arr h a la -> arr h b lb -> digits la -> digits lb ->
  mpvectscmp a (Zlen la) b (Zlen lb) h =
    Ok (if (val la =? val lb) && (Zlen la <? Zlen lb) then 1 else zcmp (val la) (val lb), h).
Proof.
  intros Ha Hb Hda Hdb. unfold mpvectscmp.
  assert (Hz : digit 0) by done.
  destruct (Z.ltb_spec (Zlen lb) (Zlen la)) as [Hlt|Hge]; [|destruct (Z.ltb_spec (Zlen la) (Zlen lb)) as [Hlt|Hge']].
  - assert (Hlen : (length lb <= length la)%nat) by (unfold Zlen in *; lia).
    replace (Z.to_nat (Zlen la - Zlen lb)) with (length la - length lb)%nat by (unfold Zlen; lia).
    destruct (or_digits_run (length la - length lb) h (a +d Zlen lb) (drop (length lb) la) 0) as (w & E & Hw & Hw0);
      [by apply arr_drop|by apply digits_drop|rewrite length_drop; lia|done|].
    rewrite (eff_bind_ok _ _ _ _ _ E); rewrite take_ge in Hw0 by (rewrite length_drop; lia).
    rewrite nonzero_bit_spec by done. rewrite to_nat_Zlen.
    rewrite (tscmp_loop_run _ h a b la lb) by first [done|lia|unfold cbool; case_match; auto].
    rewrite (proj2 (Z.ltb_ge (Zlen la) (Zlen lb)) ltac:(lia)), andb_false_r, (zcmp_longer la lb) by (done || lia). rewrite (take_ge lb) by lia. set (k := val (drop (length lb) la)) in *.
    destruct (Z.eqb_spec w 0) as [->|Hne]; simpl.
    + assert (k = 0) as -> by tauto. simpl. destruct (Z.eqb_spec (val (take (length lb) la)) (val lb)) as [->|]; [|done].
      unfold zcmp. by rewrite Z.ltb_irrefl, Z.eqb_refl.
    + destruct (Z.eqb_spec k 0); [tauto|done].
  - assert (Hlen : (length la <= length lb)%nat) by (unfold Zlen in *; lia).
    replace (Z.to_nat (Zlen lb - Zlen la)) with (length lb - length la)%nat by (unfold Zlen; lia).
    destruct (or_digits_run (length lb - length la) h (b +d Zlen la) (drop (length la) lb) 0) as (w & E & Hw & Hw0);
      [by apply arr_drop|by apply digits_drop|rewrite length_drop; lia|done|].
    rewrite (eff_bind_ok _ _ _ _ _ E); rewrite take_ge in Hw0 by (rewrite length_drop; lia).
    rewrite nonzero_bit_spec by done. rewrite to_nat_Zlen.
    rewrite (tscmp_loop_run _ h a b la lb) by first [done|lia|unfold cbool; case_match; simpl; auto].
    rewrite andb_true_r, (zcmp_swap (val la) (val lb)), (zcmp_longer lb la) by done. rewrite (take_ge la) by lia. set (k := val (drop (length la) lb)) in *.
    assert (Ev : (val la =? val lb) = (k =? 0) && (val la =? val (take (length la) lb))).
    { rewrite (val_split lb (length la)) by done. fold k. pose proof (val_take_range lb (length la) Hdb Hlen).
      pose proof (val_range _ (digits_drop (length la) lb Hdb)) as Rk. fold k in Rk. pose proof (val_range la Hda).
      unfold Zlen in *. destruct (Z.eqb_spec k 0), (Z.eqb_spec (val la) (val (take (length la) lb))); simpl; zif; try done; nia. }
    rewrite Ev. destruct (Z.eqb_spec w 0) as [->|Hne]; simpl.
    + assert (k = 0) as -> by tauto. simpl. destruct (Z.eqb_spec (val la) (val (take (length la) lb))) as [->|]; [done|].
      apply f_equal, f_equal2; [|done]. apply zcmp_swap.
    + destruct (Z.eqb_spec k 0); [tauto|done].
  - assert (Hlen : length la = length lb) by (unfold Zlen in *; lia). rewrite andb_false_r. rewrite to_nat_Zlen.
    rewrite (tscmp_loop_run _ _ _ _ la lb) by (done || lia || auto). rewrite (take_ge la), (take_ge lb) by lia. simpl.
    destruct (Z.eqb_spec (val la) (val lb)) as [->|]; [|done]. unfold zcmp, ts_result. by rewrite Z.ltb_irrefl, Z.eqb_refl.
Qed.
