(* ===== verification/MpMul.v ===== *)
(** Products with one digit, and quotients by one digit. *)

From S2P Require Import Prelude Eff MpVec MpHeap MpVecThm.

(** * The product of two digits *)

Lemma LO_mod x : LO x = x mod 2 ^ 16.
Proof. unfold LO. change (2 ^ (Dbits / 2) - 1) with (Z.ones 16). by rewrite Z.land_ones. Qed.
Lemma HI_div x : HI x = x / 2 ^ 16.
Proof. unfold HI. by rewrite Z.shiftr_div_pow2. Qed.

Lemma halves x : digit x -> x = HI x * 2 ^ 16 + LO x /\ 0 <= LO x < 2 ^ 16 /\ 0 <= HI x < 2 ^ 16.
Proof. rewrite LO_mod, HI_div. unfold digit, Base. intros Hx. width_lia. Qed.

Lemma digit_small x : digit x -> u32 x = x.
Proof. apply u32_small. Qed.

(** A half product moved up by half a digit. *)
Lemma shift_half p : digit p -> u32 (Z.shiftl p (Dbits / 2)) = p * 2 ^ 16 - Base * HI p.
Proof.
  intros Hp. rewrite HI_div, Z.shiftl_mul_pow2 by done. change (Dbits / 2) with 16. unfold digit, Base in *. width_lia.
Qed.

Lemma mpdigmul_val a b : digit a -> digit b ->
  let '(p0, p1) := mpdigmul a b in digit p0 /\ digit p1 /\ p0 + Base * p1 = a * b.
Proof.
  intros Ha Hb. unfold mpdigmul. destruct (halves a Ha) as (Ea & La & Ua). destruct (halves b Hb) as (Eb & Lb & Ub).
  set (ah := HI a) in *. set (al := LO a) in *. set (bh := HI b) in *. set (bl := LO b) in *. clearbody ah al bh bl.
  assert (Hp : forall x y, 0 <= x < 2 ^ 16 -> 0 <= y < 2 ^ 16 -> digit (x * y)) by (intros; unfold digit, Base; nia).
  rewrite !(digit_small (_ * _)) by auto.
  pose proof (Hp ah bl Ua Lb) as H1. pose proof (Hp bh al Ub La) as H2. pose proof (Hp bl al Lb La) as H3. pose proof (Hp ah bh Ua Ub) as H4.
  assert (Eab : a * b = bl * al + (ah * bl + bh * al) * 2 ^ 16 + Base * (ah * bh)) by (unfold Base; rewrite Ea, Eb; ring).
  set (p1 := ah * bl) in *. set (p2 := bh * al) in *. set (p3 := bl * al) in *. set (p4 := ah * bh) in *. clearbody p1 p2 p3 p4.
  rewrite !shift_half by done.
  assert (Hx : forall p, digit p -> digit (p * 2 ^ 16 - Base * HI p)).
  { intros p H. rewrite <- shift_half by done. apply u32_digit. }
  set (x1 := p1 * 2 ^ 16 - Base * HI p1). set (x2 := p2 * 2 ^ 16 - Base * HI p2).
  destruct (add_digits p3 x1 H3 (Hx _ H1)) as [E1 B1]. set (c1 := cbool (u32 (p3 + x1) <? x1)) in *. set (q1 := u32 (p3 + x1)) in *.
  destruct (add_digits q1 x2 (u32_digit _) (Hx _ H2)) as [E2 B2]. set (c2 := cbool (u32 (q1 + x2) <? x2)) in *. set (q2 := u32 (q1 + x2)) in *.
  assert (Hq2 : digit q2) by apply u32_digit. clearbody c2 q2 c1 q1.
  assert (E : q2 + Base * (p4 + (c1 + c2 + HI p1 + HI p2)) = a * b) by (unfold x1, x2 in *; lia).
  assert (Hd : digit (p4 + (c1 + c2 + HI p1 + HI p2))).
  { assert (Hab : 0 <= a * b <= (Base - 1) * (Base - 1)) by (unfold digit in Ha, Hb; split; [apply Z.mul_nonneg_nonneg|apply Z.mul_le_mono_nonneg]; lia).
    clear -E Hab Hq2. unfold digit, Base in *. lia. }
  rewrite (digit_small (p4 + _)) by done. split_and!; done.
Qed.

(** * mpvecdigmuladd *)

(** The loop on lists: [lb] the multiplicand, [lp] what is added to. *)
Fixpoint vmuladd (lb lp : list Z) (m carry part1 : Z) : list Z :=
  match lb, lp with
  | d :: lb, y :: lp =>
      let x := u32 (part1 + carry) in
      let carry := cbool (x <? carry) in
      let '(part0, part1) := mpdigmul d m in
      let x := u32 (x + part0) in
      let carry := carry + cbool (x <? part0) in
      let x := u32 (x + y) in
      let carry := carry + cbool (x <? y) in
      x :: vmuladd lb lp m carry part1
  | _, _ => [u32 (part1 + carry)]
  end.

Lemma vmuladd_val lb : forall lp m carry part1, length lb = length lp -> digits lb -> digits lp -> digit m ->
  digit part1 -> digit carry -> part1 + carry < Base ->
  let l := vmuladd lb lp m carry part1 in
  length l = S (length lb) /\ digits l /\ val l = val lp + m * val lb + part1 + carry.
Proof.
  induction lb as [|d lb IH]; intros [|y lp] m carry part1 Hlen Hb Hp Hm Hp1 Hc Hpend; try done.
  { cbn [vmuladd length]. rewrite digit_small by (unfold digit in *; lia).
    split; [done|]. split; [apply digits_cons; split; [unfold digit in *; lia|constructor]|]. cbn [val]. lia. }
  apply digits_cons in Hb as [Hd Hb]. apply digits_cons in Hp as [Hy Hp]. cbn [vmuladd].
  destruct (add_digits part1 carry Hp1 Hc) as [E1 B1]. set (x1 := u32 (part1 + carry)) in *. set (c1 := cbool (x1 <? carry)) in *.
  assert (Hx1 : digit x1) by apply u32_digit. clearbody x1 c1.
  pose proof (mpdigmul_val d m Hd Hm) as Hmul. destruct (mpdigmul d m) as [q0 q1]. destruct Hmul as (Hq0 & Hq1 & Eq).
  destruct (add_digits x1 q0 Hx1 Hq0) as [E2 B2]. set (x2 := u32 (x1 + q0)) in *. set (c2 := cbool (x2 <? q0)) in *.
  assert (Hx2 : digit x2) by apply u32_digit. clearbody x2 c2.
  destruct (add_digits x2 y Hx2 Hy) as [E3 B3]. set (x3 := u32 (x2 + y)) in *. set (c3 := cbool (x3 <? y)) in *.
  assert (Hx3 : digit x3) by apply u32_digit. clearbody x3 c3.
  assert (Hacc : x3 + Base * (q1 + (c1 + c2 + c3)) = part1 + carry + d * m + y) by lia.
  assert (Hnext : q1 + (c1 + c2 + c3) < Base) by (unfold digit in *; nia).
  specialize (IH lp m (c1 + c2 + c3) q1 ltac:(simpl in Hlen; lia) Hb Hp Hm Hq1 ltac:(unfold digit in *; lia) Hnext).
  cbv zeta in IH. destruct IH as (Hl & Hdl & Hv). cbv zeta. cbn [length val]. split; [lia|]. split; [by apply digits_cons|].
  rewrite Hv. lia.
Qed.

Lemma vmuladd_length lb : forall lp m carry part1, length lb = length lp -> length (vmuladd lb lp m carry part1) = S (length lb).
Proof.
  induction lb as [|d lb IH]; intros [|y lp] m carry part1 H; try done. cbn [vmuladd]. destruct (mpdigmul d m) as [q0 q1].
  cbn [length]. rewrite IH; [done|]. simpl in H. lia.
Qed.

Lemma muladd_loop_run lb : forall lp h b m p carry part1, length lb = length lp ->
  arr h b lb -> arr h p lp -> room h p (Zlen lp + 1) -> ahead b p (Zlen lb) ->
  muladd_loop (length lb) b m p carry part1 h = Ok (tt, upd h p (vmuladd lb lp m carry part1)).
Proof.
  induction lb as [|d lb IH]; intros [|y lp] h b m p carry part1 Hlen Hb Hp Hr Hah; try done.
  { cbn [muladd_loop length vmuladd]. by apply wr_run. }
  cbn [muladd_loop length vmuladd]. next_read. next_read. destruct (mpdigmul d m) as [q0 q1].
  rewrite Zlen_cons in *. pose proof (Zlen_nonneg lb). pose proof (Zlen_nonneg lp). assert (Hl : length lb = length lp) by (simpl in Hlen; lia).
  assert (Hr1 : room h p 1) by (eapply room_le; [done|lia]).
  erewrite eff_bind_ok by (by apply wr_run). cbv beta. rewrite (IH lp).
  - rewrite store_next; [done|]. set (c := _ + cbool (u32 (u32 (u32 _ + q0) + y) <? y)). pose proof (vmuladd_length lb lp m c q1 Hl).
    eapply room_le; [exact Hr|]. unfold Zlen. lia.
  - done.
  - by eapply arr_ahead.
  - apply arr_cons in Hp as [_ Hp]. apply arr_upd_apart; [done|done|]. unfold apart. simpl. change (Zlen [_]) with 1. lia.
  - apply next_room; [lia|]. by replace (1 + (Zlen lp + 1)) with (1 + Zlen lp + 1) by lia.
  - by apply ahead_step.
Qed.

Definition vdigmuladd (lb lp : list Z) (m : Z) : list Z := vmuladd lb (take (length lb) lp) m 0 0.

Lemma vdigmuladd_val lb lp m : (length lb <= length lp)%nat -> digits lb -> digits lp -> digit m ->
  digits (vdigmuladd lb lp m) /\ length (vdigmuladd lb lp m) = S (length lb) /\
  val (vdigmuladd lb lp m) = val (take (length lb) lp) + m * val lb.
Proof.
  intros Hlen Hb Hp Hm. destruct (vmuladd_val lb (take (length lb) lp) m 0 0) as (H1 & H2 & H3);
    [rewrite length_take; lia|done|by apply digits_take|done|done|done|done|].
  unfold vdigmuladd. split_and!; [done|done|]. rewrite H3. lia.
Qed.

Lemma mpvecdigmuladd_run h b lb m p lp : (length lb <= length lp)%nat -> arr h b lb -> arr h p lp ->
  room h p (Zlen lb + 1) -> ahead b p (Zlen lb) ->
  mpvecdigmuladd b (Zlen lb) m p h = Ok (tt, upd h p (vdigmuladd lb lp m)).
Proof.
  intros Hlen Hb Hp Hr Hah. unfold mpvecdigmuladd. rewrite to_nat_Zlen.
  apply muladd_loop_run; [rewrite length_take; lia|done|by apply arr_take| |done]. by rewrite Zlen_take.
Qed.

(** * mpvecdigmulsub *)

Lemma sub_borrow x c : digit x -> digit c ->
  u32 (x - c) = x - c + Base * cbool (x <? u32 (x - c)) /\ 0 <= cbool (x <? u32 (x - c)) <= 1.
Proof.
  intros Hx Hc. rewrite u32_sub by done. unfold digit, cbool in *. destruct (Z.ltb_spec x c); zif; lia.
Qed.

Fixpoint vmulsub (lb lp : list Z) (m borrow part1 : Z) : list Z * Z :=
  match lb, lp with
  | d :: lb, x :: lp =>
      let y := u32 (x - borrow) in
      let borrow := cbool (x <? y) in
      let x := part1 in
      let '(part0, part1) := mpdigmul d m in
      let x := u32 (x + part0) in
      let borrow := borrow + cbool (x <? part0) in
      let x := u32 (y - x) in
      let borrow := borrow + cbool (y <? x) in
      let '(l, s) := vmulsub lb lp m borrow part1 in (x :: l, s)
  | _, x :: _ => let y := u32 (x - borrow - part1) in ([y], if x <? y then -1 else 1)
  | _, [] => ([], 1)
  end.

(** What is left to subtract stays below [Base]; the sign says whether the
    subtraction ran out of digits. *)
Lemma vmulsub_val lb : forall lp m borrow part1, length lp = S (length lb) -> digits lb -> digits lp -> digit m ->
  digit part1 -> digit borrow -> part1 + borrow < Base ->
  let '(l, s) := vmulsub lb lp m borrow part1 in
  length l = length lp /\ digits l /\
  exists c, (c = 0 /\ s = 1 \/ c = 1 /\ s = -1) /\
  val l = val lp - m * val lb - part1 - borrow + Base ^ Zlen lp * c.
Proof.
  induction lb as [|d lb IH]; intros [|x lp] m borrow part1 Hlen Hb Hp Hm Hp1 Hc Hpend; try done.
  { destruct lp; [|done]. apply digits_cons in Hp as [Hx _]. cbn [vmulsub].
    replace (x - borrow - part1) with (x - (part1 + borrow)) by lia. assert (Hd : digit (part1 + borrow)) by (unfold digit in *; lia).
    destruct (sub_borrow x (part1 + borrow) Hx Hd) as [E B]. set (y := u32 (x - (part1 + borrow))) in *.
    assert (Hy : digit y) by apply u32_digit. clearbody y. split; [done|]. split; [apply digits_cons; split; [done|constructor]|].
    exists (cbool (x <? y)). cbn [val]. change (Base ^ Zlen [x]) with Base. split; [|lia]. unfold cbool. destruct (Z.ltb_spec x y); auto. }
  apply digits_cons in Hb as [Hd Hb]. apply digits_cons in Hp as [Hx Hp]. cbn [vmulsub].
  destruct (sub_borrow x borrow Hx Hc) as [E1 B1]. set (y := u32 (x - borrow)) in *. set (c1 := cbool (x <? y)) in *.
  assert (Hy : digit y) by apply u32_digit. clearbody y c1.
  pose proof (mpdigmul_val d m Hd Hm) as Hmul. destruct (mpdigmul d m) as [q0 q1]. destruct Hmul as (Hq0 & Hq1 & Eq).
  destruct (add_digits part1 q0 Hp1 Hq0) as [E2 B2]. set (x2 := u32 (part1 + q0)) in *. set (c2 := cbool (x2 <? q0)) in *.
  assert (Hx2 : digit x2) by apply u32_digit. clearbody x2 c2.
  destruct (sub_borrow y x2 Hy Hx2) as [E3 B3]. set (x3 := u32 (y - x2)) in *. set (c3 := cbool (y <? x3)) in *.
  assert (Hx3 : digit x3) by apply u32_digit. clearbody x3 c3.
  assert (Hacc : x3 - Base * (q1 + (c1 + c2 + c3)) = x - borrow - part1 - d * m) by lia.
  assert (Hnext : q1 + (c1 + c2 + c3) < Base) by (unfold digit in *; nia).
  specialize (IH lp m (c1 + c2 + c3) q1 ltac:(simpl in Hlen; lia) Hb Hp Hm Hq1 ltac:(unfold digit in *; lia) Hnext).
  destruct (vmulsub lb lp m (c1 + c2 + c3) q1) as [l s]. destruct IH as (Hl & Hdl & c & Hs & Hv).
  cbn [length val]. split; [lia|]. split; [by apply digits_cons|]. exists c. split; [done|].
  rewrite Hv, Zlen_cons, pow_succ by apply Zlen_nonneg. lia.
Qed.

Lemma vmulsub_length lb : forall lp m borrow part1, length lp = S (length lb) -> length (vmulsub lb lp m borrow part1).1 = length lp.
Proof.
  induction lb as [|d lb IH]; intros [|x lp] m borrow part1 H; try done. cbn [vmulsub]. destruct (mpdigmul d m) as [q0 q1].
  set (c := _ + cbool (_ <? u32 (_ - _))). specialize (IH lp m c q1 ltac:(simpl in H; lia)).
  destruct (vmulsub lb lp m c q1). simpl in *. lia.
Qed.

Lemma mulsub_loop_run lb : forall lp h b m p borrow part1, length lp = S (length lb) ->
  arr h b lb -> arr h p lp -> ahead b p (Zlen lb) ->
  mulsub_loop (length lb) b m p borrow part1 h =
    Ok ((vmulsub lb lp m borrow part1).2, upd h p (vmulsub lb lp m borrow part1).1).
Proof.
  induction lb as [|d lb IH]; intros [|x lp] h b m p borrow part1 Hlen Hb Hp Hah; try done.
  { cbn [mulsub_loop length vmulsub]. next_read. erewrite eff_bind_ok by (apply wr_run; eapply room_le; [by eapply arr_room|rewrite Zlen_cons; pose proof (Zlen_nonneg lp); lia]).
    done. }
  cbn [mulsub_loop length vmulsub]. next_read. next_read. destruct (mpdigmul d m) as [q0 q1].
  pose proof (arr_room _ _ _ Hp) as Hr.
  rewrite Zlen_cons in *. pose proof (Zlen_nonneg lb). pose proof (Zlen_nonneg lp). assert (Hl : length lp = S (length lb)) by (simpl in Hlen; lia).
  assert (Hr1 : room h p 1) by (eapply room_le; [done|lia]).
  erewrite eff_bind_ok by (by apply wr_run). cbv beta. rewrite (IH lp).
  - set (c := _ + cbool (_ <? u32 (_ - _))). pose proof (vmulsub_length lb lp m c q1 Hl) as El.
    destruct (vmulsub lb lp m c q1) as [l s]. cbn [fst snd] in *. rewrite store_next; [done|]. eapply room_le; [exact Hr|]. unfold Zlen. lia.
  - done.
  - by eapply arr_ahead.
  - apply arr_cons in Hp as [_ Hp]. apply arr_upd_apart; [done|done|]. unfold apart. simpl. change (Zlen [_]) with 1. lia.
  - by apply ahead_step.
Qed.

(** * mpdigdiv *)

Lemma digdiv_step x n : Z.shiftr (x / 2 ^ n) 1 = x / 2 ^ (n + 1) \/ n < 0.
Proof.
  destruct (Z.ltb_spec n 0); [by right|left]. rewrite Z.shiftr_div_pow2, Z.div_div by (done || lia). by rewrite Z.pow_add_r by lia.
Qed.

(** The divisor moved up by [i], in two digits. *)
Lemma shifted_divisor D i : 0 <= i <= 32 -> D * 2 ^ i = D / 2 ^ (32 - i) * Base + u32 (Z.shiftl D i).
Proof.
  intros Hi. rewrite Z.shiftl_mul_pow2 by lia. unfold u32, Base.
  assert (E : 2 ^ 32 = 2 ^ (32 - i) * 2 ^ i) by (rewrite <- Z.pow_add_r by lia; f_equal; lia).
  rewrite (Z.div_mod (D * 2 ^ i) (2 ^ 32)) at 1 by done. f_equal. rewrite Z.mul_comm. f_equal.
  rewrite E. apply Z.div_mul_cancel_r; apply Z.pow_nonzero; lia.
Qed.

Lemma set_bit q i : 0 <= i -> 0 <= q -> (2 ^ (i + 1) | q) -> Z.lor q (2 ^ i) = q + 2 ^ i.
Proof.
  intros Hi Hq [k ->]. apply lor_disjoint; [lia| |].
  - pose proof (Z.pow_pos_nonneg 2 (i + 1) ltac:(lia) ltac:(lia)). nia.
  - split; [apply Z.pow_nonneg; lia|apply Z.pow_lt_mono_r; lia].
Qed.

(** The remainder [hi * Base + lo] is below the divisor moved up by [n]. *)
Lemma digdiv_loop_val n : forall D hi lo q, (n <= 32)%nat -> 0 < D < Base -> digit hi -> digit lo ->
  hi * Base + lo < D * 2 ^ Z.of_nat n -> 0 <= q -> (2 ^ Z.of_nat n | q) -> q * D + (hi * Base + lo) < D * Base ->
  let '(hi', lo', q') := digdiv_loop n D hi lo (D / 2 ^ (32 - Z.of_nat n)) q in
  hi' = 0 /\ digit lo' /\ 0 <= q' /\ q' * D + lo' = q * D + (hi * Base + lo).
Proof.
  induction n as [|n IH]; intros D hi lo q Hn HD Hhi Hlo Hrem Hq Hdiv HqB.
  { cbn [digdiv_loop]. change (2 ^ Z.of_nat 0) with 1 in Hrem. unfold digit in *. assert (hi = 0) as -> by nia. lia. }
  cbn [digdiv_loop]. destruct (Z.ltb_spec 0 hi) as [Hpos|Hz]; simpl; [|unfold digit in *; assert (hi = 0) as -> by lia; lia].
  replace (Z.shiftr (D / 2 ^ (32 - Z.of_nat (S n))) 1) with (D / 2 ^ (32 - Z.of_nat n))
    by (destruct (digdiv_step D (32 - Z.of_nat (S n))) as [->|]; [f_equal; f_equal; lia|lia]).
  pose proof (shifted_divisor D (Z.of_nat n) ltac:(lia)) as Esh.
  assert (Hx : 0 <= D / 2 ^ (32 - Z.of_nat n)) by (apply Z.div_pos; [lia|apply Z.pow_pos_nonneg; lia]).
  assert (HS : 2 ^ Z.of_nat (S n) = 2 * 2 ^ Z.of_nat n) by (rewrite Nat2Z.inj_succ, Z.pow_succ_r by lia; lia).
  assert (Hdiv' : (2 ^ Z.of_nat n | q)) by (rewrite HS in Hdiv; eapply Z.divide_trans; [|exact Hdiv]; apply Z.divide_factor_r).
  pose proof (u32_digit (Z.shiftl D (Z.of_nat n))) as Hy. set (y := u32 (Z.shiftl D (Z.of_nat n))) in *.
  pose proof (fun hi lo => IH D hi lo) as Hnext. set (x := D / 2 ^ (32 - Z.of_nat n)) in *. clearbody y.
  assert (Hb : 0 < 2 ^ Z.of_nat n) by (apply Z.pow_pos_nonneg; lia).
  assert (Hskip : hi * Base + lo < x * Base + y -> hi * Base + lo < D * 2 ^ Z.of_nat n) by lia.
  destruct (Z.ltb_spec hi x) as [Hhx|Hhx]; [apply IH; first [done|lia|unfold digit in *; nia]|].
  destruct (Z.eqb_spec x hi) as [Exh|Nxh], (Z.ltb_spec lo y) as [Hly|Hly]; simpl; try (apply IH; first [done|lia|unfold digit in *; nia]);
    rewrite Z.shiftl_mul_pow2, Z.mul_1_l, (digit_small (2 ^ Z.of_nat n)), set_bit
      by first [done|lia|rewrite Z.add_1_r, <- Nat2Z.inj_succ; done|unfold digit, Base; split; [lia|apply Z.pow_lt_mono_r; lia]];
    rewrite (u32_sub lo y) by done; rewrite HS in Hrem.
  all: assert (Htake : forall hi' lo', digit hi' -> digit lo' -> hi' * Base + lo' = hi * Base + lo - (x * Base + y) ->
      let '(hi'', lo'', q') := digdiv_loop n D hi' lo' x (q + 2 ^ Z.of_nat n) in
      hi'' = 0 /\ digit lo'' /\ 0 <= q' /\ q' * D + lo'' = q * D + (hi * Base + lo))
    by (intros hi' lo' Hh Hl E; specialize (IH D hi' lo' (q + 2 ^ Z.of_nat n) ltac:(lia) HD Hh Hl ltac:(lia) ltac:(lia)
          ltac:(apply Z.divide_add_r; [done|apply Z.divide_refl]) ltac:(lia));
        fold x in IH; destruct (digdiv_loop n D hi' lo' x (q + 2 ^ Z.of_nat n)) as [[hi'' lo''] q']; destruct IH as (? & ? & ? & ?); split_and!; [done|done|done|lia]).
  all: unfold digit in *; destruct (Z.ltb_spec lo y); try lia; rewrite ?(digit_small (hi - 1)), (digit_small (_ - x)) by (unfold digit; lia);
    apply Htake; lia.
Qed.

Lemma mpdigdiv_run h p lo hi D : arr h p [lo; hi] -> digit lo -> digit hi -> digit D ->
  mpdigdiv p D h = Ok (if hi <? D then (hi * Base + lo) / D else Base - 1, h).
Proof.
  intros Hp Hlo Hhi HD. unfold mpdigdiv.
  erewrite eff_bind_ok by (eapply rd_run; apply (arr_app h p [lo] [hi]), Hp). cbv beta.
  erewrite eff_bind_ok by (eapply rd_run; exact Hp). cbv beta.
  unfold digit in HD. destruct (Z.leb_spec D hi) as [H|H]; cbn [orb]; [by zif|].
  destruct (Z.eqb_spec D 0); [unfold digit in *; lia|]. zif.
  assert (Hlt : hi * Base + lo < D * Base) by (unfold digit in *; nia).
  assert (E32 : 2 ^ Z.of_nat 32 = Base) by reflexivity.
  pose proof (digdiv_loop_val 32 D hi lo 0 ltac:(lia) ltac:(lia) Hhi Hlo) as Hloop.
  replace (D / 2 ^ (32 - Z.of_nat 32)) with D in Hloop by (change (32 - Z.of_nat 32) with 0; by rewrite Z.div_1_r).
  rewrite E32 in Hloop. specialize (Hloop Hlt ltac:(lia) (Z.divide_0_r _) ltac:(lia)).
  change (Z.to_nat Dbits) with 32%nat. destruct (digdiv_loop 32 D hi lo D 0) as [[hi' lo'] q]. destruct Hloop as (_ & Hlo' & Hq & E).
  assert (Ev : (hi * Base + lo) / D = q + lo' / D).
  { replace (hi * Base + lo) with (q * D + lo') by lia. rewrite Z.div_add_l by done. done. }
  rewrite <- Ev. rewrite eff_ret_run. do 2 f_equal. apply digit_small. unfold digit in *. split; [apply Z.div_pos; nia|].
  apply Z.div_lt_upper_bound; nia.
Qed.
