(* ===== verification/MpVecMul.v ===== *)
(** Products of vectors: the schoolbook loop and Karatsuba's method. *)

From S2P Require Import Prelude Eff MpVec MpHeap MpVecThm MpCmp MpMul.

(** * More on storing *)

Lemma apart_ahead a n s m : 0 <= m -> apart a n s m -> ahead a s n.
Proof. unfold apart, ahead. intros Hm [H|[H|H]]; [by left|right; by right|right; left; lia]. Qed.

Lemma store_same h p l : arr h p l -> upd h p l = h.
Proof.
  intros (v & Hv & H0 & Hle & Ht). unfold upd. rewrite Hv. apply insert_id. rewrite Hv. f_equal.
  rewrite <- (take_drop (Z.to_nat p.2) v) at 1. f_equal.
  rewrite <- (take_drop (length l) (drop (Z.to_nat p.2) v)), Ht. f_equal. by rewrite drop_drop.
Qed.

Lemma upd_cover h p l k : (length l <= length k)%nat -> room h p (Zlen k) -> upd (upd h p l) p k = upd h p k.
Proof.
  intros Hlen (v & Hv & H0 & Hle). assert (E := upd_lookup h p l v Hv). unfold upd at 1. rewrite E. unfold upd. rewrite Hv, insert_insert_eq.
  f_equal. unfold Zlen in *. assert (Ht : length (take (Z.to_nat p.2) v) = Z.to_nat p.2) by (rewrite length_take; lia).
  rewrite take_app_length' by done. f_equal. f_equal.
  rewrite drop_app_ge by lia. rewrite Ht, drop_app_ge, drop_drop by lia. f_equal. lia.
Qed.

(** A vector of which a part was stored anew. *)
Lemma arr_upd_in h p x y z l : arr h p (x ++ y ++ z) -> length l = length y -> arr (upd h (p +d Zlen x) l) p (x ++ l ++ z).
Proof.
  intros H Hl. apply arr_app in H as [Hx H]. apply arr_app in H as [Hy Hz].
  assert (E : Zlen l = Zlen y) by (unfold Zlen; lia). pose proof (arr_room _ _ _ Hy) as Hr. rewrite <- E in Hr, Hz.
  apply arr_app. split; [|apply arr_app; split].
  - apply arr_upd_apart; [done|done|]. right. left. simpl. lia.
  - by apply arr_upd_same.
  - apply arr_upd_apart; [done|done|]. right. right. simpl. lia.
Qed.

(** Storing digits that are already there. *)
Lemma upd_extend h p l k : arr h p (l ++ k) -> forall l', length l' = length l -> upd h p l' = upd h p (l' ++ k).
Proof.
  intros H l' Hl. assert (E : Zlen l' = Zlen l) by (unfold Zlen; lia). rewrite <- upd_app.
  - symmetry. apply store_same. apply arr_app in H as [H1 H2]. pose proof (arr_room _ _ _ H1) as Hr. rewrite E in *. rewrite <- E in Hr.
    apply arr_upd_apart; [done|done|]. right. right. simpl. lia.
  - rewrite E, <- Zlen_app. by apply arr_room.
Qed.

Lemma wrn_run l : forall h p, room h p (Zlen l) -> wrn p l h = Ok (tt, upd h p l).
Proof.
  induction l as [|x l IH]; intros h p Hr; [by rewrite upd_nil|]. cbn [wrn]. rewrite Zlen_cons in Hr. pose proof (Zlen_nonneg l).
  erewrite eff_bind_ok by (apply wr_run; eapply room_le; [exact Hr|lia]). cbv beta.
  rewrite IH by (apply next_room; [lia|done]). rewrite store_next; done.
Qed.

Lemma rdn_run l : forall h p, arr h p l -> rdn (length l) p h = Ok (l, h).
Proof.
  induction l as [|x l IH]; intros h p H; [done|]. cbn [rdn length]. next_read. apply arr_cons in H as [_ H].
  erewrite eff_bind_ok by (apply IH, H). done.
Qed.

Lemma memmoved_run h p q l : arr h q l -> room h p (Zlen l) -> memmoved p q (Zlen l) h = Ok (tt, upd h p l).
Proof.
  intros H Hr. unfold memmoved. rewrite to_nat_Zlen. erewrite eff_bind_ok by (by apply rdn_run). by apply wrn_run.
Qed.

Lemma memzero_run h p n : 0 <= n -> room h p n -> memzero p n h = Ok (tt, upd h p (replicate (Z.to_nat n) 0)).
Proof.
  intros Hn Hr. unfold memzero. apply wrn_run. unfold Zlen. by rewrite length_replicate, Z2Nat.id.
Qed.

(** * The schoolbook loop *)

Fixpoint vmul (skip : bool) (la lb lp : list Z) : list Z :=
  match lb with
  | [] => lp
  | d :: lb =>
      let l := if skip && (d =? 0) then lp else vdigmuladd la lp d ++ drop (S (length la)) lp in
      hd 0 l :: vmul skip la lb (tl l)
  end.

(** One row: [lp] had zeros above the digits of [la]. *)
Lemma vmul_row skip la lp d : digits la -> digits lp -> digit d -> (length la < length lp)%nat -> val (drop (length la) lp) = 0 ->
  let l := if skip && (d =? 0) then lp else vdigmuladd la lp d ++ drop (S (length la)) lp in
  digits l /\ length l = length lp /\ val l = val lp + d * val la /\ val (drop (S (length la)) l) = 0.
Proof.
  intros Ha Hp Hd Hlen Hz. assert (E1 : drop (length la) lp = nth (length la) lp 0 :: drop (S (length la)) lp).
  { rewrite <- (drop_S _ (nth (length la) lp 0) (length la)); [done|]. rewrite nth_lookup. destruct (lookup_lt_is_Some_2 lp (length la)) as [x ->]; done. }
  assert (Hz' : val (drop (S (length la)) lp) = 0).
  { rewrite E1 in Hz. cbn [val] in Hz. pose proof (digit_nth lp (length la) Hp). pose proof (val_range _ (digits_drop (S (length la)) lp Hp)).
    unfold digit in *. pose proof Base_pos. nia. }
  destruct (skip && (d =? 0)) eqn:E; cbv zeta.
  - apply andb_true_iff in E as [_ ->%Z.eqb_eq]. split_and!; [done|done|lia|done].
  - destruct (vdigmuladd_val la lp d) as (H1 & H2 & H3); [lia|done|done|done|]. split_and!.
    + apply digits_app. split; [done|by apply digits_drop].
    + rewrite length_app, H2, length_drop. lia.
    + rewrite val_app, Hz', H3. rewrite (val_split lp (length la)) at 1 by lia. rewrite Hz. lia.
    + by rewrite drop_app_length' by done.
Qed.

Lemma vmul_val skip la : digits la -> forall lb lp, digits lb -> digits lp -> length lp = (length la + length lb)%nat ->
  val (drop (length la) lp) = 0 ->
  digits (vmul skip la lb lp) /\ length (vmul skip la lb lp) = length lp /\ val (vmul skip la lb lp) = val lp + val la * val lb.
Proof.
  intros Ha. induction lb as [|d lb IH]; intros lp Hb Hp Hlen Hz; [cbn [vmul val]; split_and!; [done|done|lia]|].
  apply digits_cons in Hb as [Hd Hb]. cbn [vmul length] in *.
  destruct (vmul_row skip la lp d Ha Hp Hd ltac:(lia) Hz) as (H1 & H2 & H3 & H4).
  set (l := if skip && (d =? 0) then lp else _) in *. cbv zeta in *. clearbody l.
  destruct l as [|x l]; [simpl in H2; lia|]. cbn [hd tl]. apply digits_cons in H1 as [Hx H1].
  destruct (IH l Hb H1 ltac:(simpl in H2; lia) H4) as (D1 & D2 & D3). split_and!; [by apply digits_cons|simpl in *; lia|].
  cbn [val] in *. lia.
Qed.

Lemma vmul_length skip la lb : forall lp, length lp = (length la + length lb)%nat -> length (vmul skip la lb lp) = length lp.
Proof.
  induction lb as [|d lb IH]; intros lp Hlen; [done|]. cbn [vmul length] in *.
  set (l := if skip && (d =? 0) then lp else _). assert (Hl : length l = length lp).
  { unfold l. case_match; [done|]. unfold vdigmuladd. rewrite length_app, vmuladd_length, length_drop by (rewrite length_take; lia). lia. }
  clearbody l. destruct l as [|x l]; [simpl in Hl; lia|]. cbn [length tl] in *. rewrite IH; lia.
Qed.

Lemma mul_loop_run skip la lb : forall lp h a b p, length lp = (length la + length lb)%nat ->
  arr h a la -> arr h b lb -> arr h p lp -> apart a (Zlen la) p (Zlen lp) -> apart b (Zlen lb) p (Zlen lp) ->
  mul_loop skip (length lb) a (Zlen la) b p h = Ok (tt, upd h p (vmul skip la lb lp)).
Proof.
  induction lb as [|d lb IH]; intros lp h a b p Hlen Ha Hb Hp Haa Hab; [cbn; by rewrite store_same|].
  cbn [mul_loop vmul length] in *. next_read.
  set (l := if skip && (d =? 0) then lp else _).
  assert (Hl : length l = length lp).
  { unfold l. case_match; [done|]. unfold vdigmuladd. rewrite length_app, vmuladd_length, length_drop by (rewrite length_take; lia). lia. }
  assert (Hz : Zlen l = Zlen lp) by (unfold Zlen; lia). pose proof (arr_room _ _ _ Hp) as Hr. rewrite <- Hz in Hr.
  assert (Erow : (if skip && (d =? 0) then mret tt else mpvecdigmuladd a (Zlen la) d p) h = Ok (tt, upd h p l)).
  { unfold l. case_match; [by rewrite store_same|]. rewrite (mpvecdigmuladd_run h a la d p lp); [|lia|done|done| |].
    - f_equal. f_equal. assert (Hd : length (vdigmuladd la lp d) = S (length la)).
      { unfold vdigmuladd. rewrite vmuladd_length; [done|]. rewrite length_take. lia. }
      apply (upd_extend h p (take (S (length la)) lp)); [by rewrite take_drop|]. rewrite length_take. lia.
    - eapply room_le; [by eapply arr_room|]. unfold Zlen. lia.
    - apply apart_ahead with (m := Zlen lp); [apply Zlen_nonneg|done]. }
  rewrite (eff_bind_ok _ _ _ _ _ Erow). clearbody l. clear Erow. destruct l as [|x l]; [simpl in Hl; lia|]. cbn [hd tl] in *.
  rewrite Zlen_cons in *. pose proof (Zlen_nonneg l). pose proof (Zlen_nonneg lb). pose proof (Zlen_nonneg la).
  pose proof (arr_upd_same h p (x :: l) ltac:(by rewrite Zlen_cons)) as Hp'.
  assert (Haa' : apart a (Zlen la) p (Zlen (x :: l))) by (rewrite Zlen_cons, Hz; done).
  apply arr_cons in Hp' as [_ Hp'].
  rewrite (IH l); [|simpl in Hl; lia| | |done| |].
  - pose proof (vmul_length skip la lb l ltac:(simpl in Hl; lia)) as Hv.
    rewrite <- (store_next h p x l) by done. rewrite upd_cover; [|lia|].
    + rewrite store_next; [done|]. unfold Zlen in *. by rewrite Hv.
    + replace (Zlen (vmul skip la lb l)) with (Zlen l) by (unfold Zlen; lia). by apply next_room.
  - apply arr_upd_apart; [by rewrite Zlen_cons|done|done].
  - apply arr_upd_apart; [by rewrite Zlen_cons|by eapply arr_cons|]. rewrite Zlen_cons, Hz. unfold apart in *. simpl. lia.
  - rewrite Zlen_cons in Haa'. unfold apart in *. simpl. lia.
  - unfold apart in *. simpl. lia.
Qed.
