(* ===== verification/MpKaratsuba.v ===== *)
(** Karatsuba's method, [mpkaratsuba] and [mpvecmul] of [libmp/port/mpmul.c]. *)

From S2P Require Import Prelude Eff MpVec MpHeap MpVecThm MpCmp MpMul MpVecMul.

Lemma Zlen_zeros n : 0 <= n -> Zlen (replicate (Z.to_nat n) (0 : Z)) = n.
Proof. intros H. unfold Zlen. rewrite length_replicate. lia. Qed.

(** * A heap with one more block *)

Definition scratch (h : Heap) (t n : Z) (H : Heap) : Prop := exists v, H = <[t := v]> h /\ Zlen v = n.

Lemma scratch_upd h t n H i l : scratch h t n H -> 0 <= i -> i + Zlen l <= n -> scratch h t n (upd H (t, i) l).
Proof.
  intros (v & -> & Hv) Hi Hle. unfold upd. simpl. rewrite lookup_insert_eq. eexists. split; [by rewrite insert_insert_eq|].
  unfold Zlen in *. rewrite upd_len by lia || done. done.
Qed.

Lemma scratch_room h t n H i m : scratch h t n H -> 0 <= i -> i + m <= n -> room H (t, i) m.
Proof. intros (v & -> & Hv) Hi Hle. exists v. simpl. rewrite lookup_insert_eq. split_and!; [done|done|lia]. Qed.

Lemma scratch_arr h t n H p l : h !! t = None -> scratch h t n H -> arr h p l -> arr H p l.
Proof.
  intros Ht (v & -> & _) (w & Hw & Hrest). exists w. rewrite lookup_insert_ne; [done|]. intros E. congruence.
Qed.

Lemma arr_block h t p l : h !! t = None -> arr h p l -> p.1 <> t.
Proof. intros Ht (w & Hw & _) E. congruence. Qed.

Lemma scratch_delete h t n H p l : h !! t = None -> scratch h t n H -> room h p (Zlen l) -> delete t (upd H p l) = upd h p l.
Proof.
  intros Ht (v & -> & _) (w & Hw & H0 & Hle). assert (p.1 <> t) by congruence.
  unfold upd. rewrite lookup_insert_ne, Hw by done. rewrite insert_insert_ne by done. apply delete_insert_id.
  by rewrite lookup_insert_ne.
Qed.

Lemma mallocz_run n h : mallocz n h = Ok (new_block h, <[new_block h := replicate (Z.to_nat n) 0]> h).
Proof. done. Qed.

Lemma new_block_fresh h : h !! new_block h = None.
Proof.
  assert (Hle : forall k x, h !! k = Some x -> k <= map_fold (fun k _ m => Z.max k m) 0 h).
  { induction h as [|i x m Hi Hfirst IH] using map_first_key_ind; [done|]. intros k y Hk.
    rewrite map_fold_insert_first_key by done. destruct (decide (k = i)) as [->|Hne]; [lia|].
    rewrite lookup_insert_ne in Hk by done. specialize (IH _ _ Hk). lia. }
  unfold new_block. destruct (h !! _) as [x|] eqn:E; [|done]. apply Hle in E. lia.
Qed.

(** * The distance of two numbers *)

Lemma high_zero l n : digits l -> (n <= length l)%nat -> val l < Base ^ Z.of_nat n -> val (drop n l) = 0 /\ val (take n l) = val l.
Proof.
  intros Hl Hn Hlt. pose proof (val_take_range l n Hl Hn). pose proof (val_range _ (digits_drop n l Hl)) as [Hd _].
  pose proof (val_split l n Hn) as E. set (d := val (drop n l)) in *. set (m := Base ^ Z.of_nat n) in *. clearbody d m.
  assert (d = 0) as -> by nia. lia.
Qed.

Lemma zero_high la lb : digits la -> digits lb -> (length lb <= length la)%nat -> val la <= val lb ->
  val (drop (length lb) la) = 0 /\ val (take (length lb) la) = val la.
Proof. intros Ha Hb Hlen Hle. pose proof (val_range lb Hb). apply high_zero; [done|done|unfold Zlen in *; lia]. Qed.

(** The longer less the shorter, or the shorter less what the longer has at its
    places. *)
Lemma distance_run h a la b lb dst : (length lb <= length la)%nat -> arr h a la -> arr h b lb -> digits la -> digits lb ->
  arr h dst (replicate (length la) 0) -> apart a (Zlen la) dst (Zlen la) -> apart b (Zlen lb) dst (Zlen la) ->
  exists l, length l = length la /\ digits l /\ val l = Z.abs (val la - val lb) /\
  (val lb <= val la -> mpvecsub a (Zlen la) b (Zlen lb) dst h = Ok (tt, upd h dst l)) /\
  (val la <= val lb -> mpvecsub b (Zlen lb) a (Zlen lb) dst h = Ok (tt, upd h dst l)).
Proof.
  intros Hlen Ha Hb Hda Hdb Hdst Haa Hab.
  assert (Hr : room h dst (Zlen la)) by (apply arr_room in Hdst; unfold Zlen in *; by rewrite length_replicate in Hdst).
  pose proof (Zlen_nonneg la) as Hn.
  assert (Hsub1 : val lb <= val la -> mpvecsub a (Zlen la) b (Zlen lb) dst h = Ok (tt, upd h dst (vsub la lb))).
  { intros Hle. apply mpvecsub_run; [done|done|done|done|by eapply apart_ahead|by eapply apart_ahead]. }
  set (l1 := take (length lb) la). assert (Hl1 : length l1 = length lb) by (unfold l1; rewrite length_take; lia).
  assert (Hd1 : digits l1) by (unfold l1; by apply digits_take).
  set (l2 := vsub lb l1 ++ replicate (length la - length lb) 0).
  assert (Hsub2 : val la <= val lb -> digits l2 /\ length l2 = length la /\ val l2 = val lb - val la /\
                  mpvecsub b (Zlen lb) a (Zlen lb) dst h = Ok (tt, upd h dst l2)).
  { intros Hle. destruct (zero_high la lb Hda Hdb Hlen Hle) as [Hz Ht]. fold l1 in Ht.
    destruct (vsub_val lb l1 ltac:(lia) Hdb Hd1 ltac:(lia)) as (D & L & V). unfold l2.
    split; [apply digits_app; split; [done|apply digits_zero]|]. split; [rewrite length_app, L, length_replicate; lia|].
    split; [rewrite val_app, val_zero; lia|].
    assert (Hz1 : Zlen lb = Zlen l1) by (unfold Zlen; lia). rewrite Hz1 at 2.
    rewrite (mpvecsub_run h b lb a l1 dst).
    - f_equal. f_equal. apply (upd_extend h dst (replicate (length lb) 0)); [|by rewrite L, length_replicate].
      rewrite <- replicate_add. by replace (length lb + (length la - length lb))%nat with (length la) by lia.
    - lia.
    - done.
    - by apply arr_take.
    - eapply room_le; [done|unfold Zlen; lia].
    - by eapply apart_ahead.
    - rewrite <- Hz1. eapply ahead_le; [by eapply apart_ahead|unfold Zlen; lia]. }
  destruct (Z.le_gt_cases (val lb) (val la)) as [Hle|Hgt].
  - destruct (vsub_val la lb Hlen Hda Hdb Hle) as (D & L & V). exists (vsub la lb). split_and!; [done|done|lia|auto|].
    intros Hge. destruct (Hsub2 Hge) as (D2 & L2 & V2 & ->). do 2 f_equal. f_equal. apply val_inj; [done|done|lia|lia].
  - destruct (Hsub2 ltac:(lia)) as (D2 & L2 & V2 & E). exists l2. split_and!; [done|done|lia|lia|auto].
Qed.

(** * Sums and differences in place *)

(** The result area: [R] has a digit more than the numbers in it. *)
Lemma acc_high R k : digits R -> val R < Base ^ (Zlen R - 1) -> (k < length R)%nat ->
  let la := take (length R - 1 - k) (drop k R) in
  length la = (length R - 1 - k)%nat /\ digits la /\ val R = val (take k R) + Base ^ Z.of_nat k * val la.
Proof.
  intros HR Hlt Hk la.
  split; [unfold la; rewrite length_take, length_drop; lia|]. split; [by apply digits_take, digits_drop|].
  assert (HR1 : val R = val (take (length R - 1) R)).
  { symmetry. apply high_zero; [done|lia|]. by replace (Z.of_nat (length R - 1)) with (Zlen R - 1) by (unfold Zlen; lia). }
  rewrite HR1, (val_split (take (length R - 1) R) k) by (rewrite length_take; lia). rewrite take_take, Nat.min_l by lia.
  do 2 f_equal. unfold la. by rewrite skipn_firstn_comm.
Qed.

Lemma upd_high h p R k l : arr h p R -> (k + length l <= length R)%nat ->
  upd h (p +d Z.of_nat k) l = upd h p (take k R ++ l ++ drop (k + length l) R).
Proof.
  intros H Hk. assert (HR : R = take k R ++ take (length l) (drop k R) ++ drop (k + length l) R).
  { rewrite <- drop_drop, take_drop, take_drop. done. }
  set (x := take k R) in *. set (y := take (length l) (drop k R)) in *. set (z := drop (k + length l) R) in *.
  assert (Hx : Zlen x = Z.of_nat k) by (unfold x; apply Zlen_take; lia).
  assert (Hy : length l = length y) by (unfold y; rewrite length_take, length_drop; lia). clearbody x y z. subst R.
  assert (Hl : Zlen l = Zlen y) by (unfold Zlen; lia). pose proof (arr_room _ _ _ H) as Hr. rewrite !Zlen_app, <- Hl in Hr.
  rewrite <- (upd_app x) by (rewrite !Zlen_app; eapply room_le; [exact Hr|lia]).
  apply arr_app in H as [H1 H]. rewrite (store_same h p x) by done. rewrite Hx in *. apply arr_app in H as [H2 H3]. rewrite <- Hl in H3.
  rewrite <- (upd_app l) by (eapply room_le; [replace (p +d Z.of_nat k) with (p +d Z.of_nat k) by done; apply room_dadd; [exact Hr|lia]|lia]).
  symmetry. apply store_same. apply arr_upd_apart; [apply arr_room in H2; by rewrite Hl|done|]. right. right. simpl. lia.
Qed.

Lemma acc_add h p R b lb k : arr h p R -> digits R -> arr h b lb -> digits lb -> (length lb + S k <= length R)%nat ->
  apart b (Zlen lb) p (Zlen R) -> val R + Base ^ Z.of_nat k * val lb < Base ^ (Zlen R - 1) ->
  exists R', length R' = length R /\ digits R' /\ val R' = val R + Base ^ Z.of_nat k * val lb /\
  mpvecadd (p +d Z.of_nat k) (Zlen R - 1 - Z.of_nat k) b (Zlen lb) (p +d Z.of_nat k) h = Ok (tt, upd h p R').
Proof.
  intros Hp HR Hb Hdb Hlen Hap Hlt. pose proof (val_range lb Hdb) as Rb. pose proof (pow_pos (Z.of_nat k) ltac:(lia)) as Pk.
  destruct (acc_high R k HR ltac:(nia) ltac:(lia)) as (Hla & Hda & Hval). set (la := take (length R - 1 - k) (drop k R)) in *.
  assert (Hz : Zlen la = Zlen R - 1 - Z.of_nat k) by (unfold Zlen in *; lia).
  destruct (vadd_val la lb ltac:(lia) Hda Hdb) as (D & L & V).
  assert (Hk : Zlen (take k R) = Z.of_nat k) by (apply Zlen_take; lia).
  exists (take k R ++ vadd la lb ++ drop (k + length (vadd la lb)) R). rewrite L, (drop_ge R), app_nil_r by lia.
  split; [rewrite length_app, length_take, L, Hla; lia|]. split; [apply digits_app; split; [by apply digits_take|done]|]. split.
  { rewrite val_app, Hk, V, Hval. ring. }
  rewrite <- Hz. pose proof (arr_room _ _ _ Hp) as Hr. rewrite (mpvecadd_run h _ la b lb).
  - rewrite (upd_high h p R) by (done || lia). by rewrite (drop_ge R), app_nil_r by lia.
  - lia.
  - unfold la. apply arr_take. apply arr_drop; [done|lia].
  - done.
  - eapply room_le; [apply room_dadd; [exact Hr|lia]|lia].
  - right. left. lia.
  - unfold apart, ahead in *. simpl. unfold Zlen in *. lia.
Qed.

Lemma acc_sub h p R b lb k : arr h p R -> digits R -> arr h b lb -> digits lb -> (length lb + S k <= length R)%nat ->
  apart b (Zlen lb) p (Zlen R) -> val R < Base ^ (Zlen R - 1) -> Base ^ Z.of_nat k * val lb <= val R ->
  exists R', length R' = length R /\ digits R' /\ val R' = val R - Base ^ Z.of_nat k * val lb /\
  mpvecsub (p +d Z.of_nat k) (Zlen R - 1 - Z.of_nat k) b (Zlen lb) (p +d Z.of_nat k) h = Ok (tt, upd h p R').
Proof.
  intros Hp HR Hb Hdb Hlen Hap Hlt Hge. pose proof (val_range lb Hdb) as Rb. pose proof (pow_pos (Z.of_nat k) ltac:(lia)) as Pk.
  destruct (acc_high R k HR Hlt ltac:(lia)) as (Hla & Hda & Hval). set (la := take (length R - 1 - k) (drop k R)) in *.
  pose proof (val_take_range R k HR ltac:(lia)) as Rlow. pose proof (val_range la Hda) as Rla.
  assert (Hz : Zlen la = Zlen R - 1 - Z.of_nat k) by (unfold Zlen in *; lia).
  assert (Hle : val lb <= val la).
  { rewrite Hval in Hge. set (P := Base ^ Z.of_nat k) in *. clearbody P la. clear -Hge Rlow Pk.
    destruct (Z.le_gt_cases (val lb) (val la)) as [|Hc]; [done|]. assert (P * (val la + 1) <= P * val lb) by (apply Z.mul_le_mono_nonneg_l; lia). lia. }
  destruct (vsub_val la lb ltac:(lia) Hda Hdb Hle) as (D & L & V).
  assert (Hk : Zlen (take k R) = Z.of_nat k) by (apply Zlen_take; lia).
  set (z := drop (k + length (vsub la lb)) R).
  assert (Hzv : val z = 0).
  { unfold z. rewrite L, Hla. replace (k + (length R - 1 - k))%nat with (length R - 1)%nat by lia.
    apply high_zero; [done|lia|]. by replace (Z.of_nat (length R - 1)) with (Zlen R - 1) by (unfold Zlen; lia). }
  exists (take k R ++ vsub la lb ++ z).
  split; [rewrite !length_app, length_take, L, Hla; unfold z; rewrite length_drop, L, Hla; clear -Hlen; lia|].
  split; [apply digits_app; split; [by apply digits_take|apply digits_app; split; [done|by apply digits_drop]]|]. split.
  { rewrite !val_app, Hzv, Hk, V, Hval. ring. }
  rewrite <- Hz. pose proof (arr_room _ _ _ Hp) as Hr. rewrite (mpvecsub_run h _ la b lb).
  - rewrite (upd_high h p R) by (done || lia). done.
  - lia.
  - unfold la. apply arr_take. apply arr_drop; [done|lia].
  - done.
  - eapply room_le; [apply room_dadd; [exact Hr|lia]|lia].
  - right. left. lia.
  - unfold apart, ahead in *. simpl. unfold Zlen in *. lia.
Qed.

(** * The work area *)

Lemma block_arr h t v x y z : v = x ++ y ++ z -> arr (<[t := v]> h) ((t, 0) +d Zlen x) y.
Proof.
  intros ->. exists (x ++ y ++ z). change ((t, 0) +d Zlen x) with (t, Zlen x). cbn [fst snd]. rewrite lookup_insert_eq. pose proof (Zlen_nonneg x). pose proof (Zlen_nonneg z).
  split_and!; [done|lia|rewrite !Zlen_app; lia|]. rewrite to_nat_Zlen. by rewrite drop_app_length, take_app_length.
Qed.

Lemma block_upd h t x y z l : length l = length y -> upd (<[t := x ++ y ++ z]> h) ((t, 0) +d Zlen x) l = <[t := x ++ l ++ z]> h.
Proof.
  intros Hl. unfold upd. change ((t, 0) +d Zlen x) with (t, Zlen x). cbn [fst snd]. rewrite lookup_insert_eq, insert_insert_eq. f_equal.
  rewrite to_nat_Zlen, take_app_length. f_equal. f_equal. rewrite drop_app_ge, Hl by lia.
  replace (length x + length y - length x)%nat with (length y) by lia. by rewrite drop_app_length.
Qed.

(** Two areas for halves and partial products, one for the product of the
    differences, and the result. *)
Definition area (h : Heap) (t : Z) (A B D R : list Z) : Heap := <[t := A ++ B ++ D ++ R]> h.

Section Area.
Context (h : Heap) (t : Z) (Ht : h !! t = None) (W : Z).

Lemma area_arr A B D R p l : arr h p l -> arr (area h t A B D R) p l.
Proof.
  intros H. apply (scratch_arr h t (Zlen (A ++ B ++ D ++ R)) _ _ _ Ht); [by eexists|done].
Qed.

Lemma area_A A B D R : arr (area h t A B D R) (t, 0) A.
Proof. apply (block_arr h t _ [] A (B ++ D ++ R)). done. Qed.
Lemma area_B A B D R : Zlen A = W -> arr (area h t A B D R) ((t, 0) +d W) B.
Proof. intros <-. by apply (block_arr h t _ A B (D ++ R)). Qed.
Lemma area_D A B D R : Zlen A = W -> Zlen B = W -> arr (area h t A B D R) ((t, 0) +d 2 * W) D.
Proof.
  intros HA HB. replace (2 * W) with (Zlen (A ++ B)) by (rewrite Zlen_app; lia).
  apply (block_arr h t _ (A ++ B) D R). by rewrite <- !app_assoc.
Qed.
Lemma area_R A B D R : Zlen A = W -> Zlen B = W -> Zlen D = W -> arr (area h t A B D R) ((t, 0) +d 3 * W) R.
Proof.
  intros HA HB HD. replace (3 * W) with (Zlen (A ++ B ++ D)) by (rewrite !Zlen_app; lia).
  apply (block_arr h t _ (A ++ B ++ D) R []). by rewrite app_nil_r, <- !app_assoc.
Qed.

Lemma upd_A A k B D R l : length l = length A -> upd (area h t (A ++ k) B D R) (t, 0) l = area h t (l ++ k) B D R.
Proof. intros Hl. unfold area. rewrite <- !app_assoc. exact (block_upd h t [] A (k ++ B ++ D ++ R) l Hl). Qed.
Lemma upd_B A B k D R l : Zlen A = W -> length l = length B -> upd (area h t A (B ++ k) D R) ((t, 0) +d W) l = area h t A (l ++ k) D R.
Proof. intros <- Hl. unfold area. rewrite <- !app_assoc. exact (block_upd h t A B (k ++ D ++ R) l Hl). Qed.
Lemma upd_D A B D k R l : Zlen A = W -> Zlen B = W -> length l = length D ->
  upd (area h t A B (D ++ k) R) ((t, 0) +d 2 * W) l = area h t A B (l ++ k) R.
Proof.
  intros HA HB Hl. unfold area. replace (2 * W) with (Zlen (A ++ B)) by (rewrite Zlen_app; lia).
  pose proof (block_upd h t (A ++ B) D (k ++ R) l Hl) as E. by rewrite <- !app_assoc in *.
Qed.
Lemma upd_R A B D R l : Zlen A = W -> Zlen B = W -> Zlen D = W -> length l = length R ->
  upd (area h t A B D R) ((t, 0) +d 3 * W) l = area h t A B D l.
Proof.
  intros HA HB HD Hl. unfold area. replace (3 * W) with (Zlen (A ++ B ++ D)) by (rewrite !Zlen_app; lia).
  pose proof (block_upd h t (A ++ B ++ D) R [] l Hl) as E. by rewrite !app_nil_r, <- !app_assoc in E.
Qed.
Lemma upd_AB A B D R l k : length l = length A -> length k = length B ->
  upd (area h t A B D R) (t, 0) (l ++ k) = area h t l k D R.
Proof.
  intros Hl Hk. unfold area. pose proof (block_upd h t [] (A ++ B) (D ++ R) (l ++ k) ltac:(rewrite !length_app; lia)) as E.
  by rewrite <- !app_assoc in E.
Qed.
End Area.

Lemma kar_split alen : (if Z.odd alen then alen / 2 + 1 else alen / 2) = (alen + 1) / 2.
Proof.
  pose proof (Zmod_odd alen) as E. destruct (Z.odd alen); Z.div_mod_to_equations; lia.
Qed.

(** The sizes of the sums on the way. *)
Lemma kar_bounds X p0 p1 pd : 1 <= X -> 0 <= p0 <= X * X -> 0 <= p1 <= X * X -> 0 <= pd <= X * X ->
  p0 + X * p0 + X * p1 + X * X * p1 + X * pd <= 5 * (X * X * X * X).
Proof.
  intros HX H0 H1 Hd.
  assert (E2 : X * X <= X * X * X) by nia. assert (E3 : X * X * X <= X * X * X * X) by nia.
  assert (X * p0 <= X * (X * X)) by (apply Z.mul_le_mono_nonneg_l; lia).
  assert (X * p1 <= X * (X * X)) by (apply Z.mul_le_mono_nonneg_l; lia).
  assert (X * pd <= X * (X * X)) by (apply Z.mul_le_mono_nonneg_l; lia).
  assert (X * X * p1 <= X * X * (X * X)) by (apply Z.mul_le_mono_nonneg_l; lia). lia.
Qed.

(** * The steps of mpkaratsuba *)

(** What [mpvecmul] promises to callers with vectors below some length. *)
Definition mul_spec (mul : dptr -> Z -> dptr -> Z -> dptr -> eff Heap unit) (bound : Z) : Prop :=
  forall h a la b lb p, Zlen la < bound -> Zlen lb < bound -> arr h a la -> arr h b lb -> digits la -> digits lb ->
  arr h p (replicate (length la + length lb) 0) -> apart a (Zlen la) p (Zlen la + Zlen lb) -> apart b (Zlen lb) p (Zlen la + Zlen lb) ->
  exists l, length l = (length la + length lb)%nat /\ digits l /\ val l = val la * val lb /\
  mul a (Zlen la) b (Zlen lb) p h = Ok (tt, upd h p l).

Lemma zcmp_neg x y : (zcmp x y <? 0) = (x <? y).
Proof. unfold zcmp. destruct (Z.ltb_spec x y); [done|]. by destruct (x =? y). Qed.

Notation zeros n := (replicate n (0 : Z)).

Lemma zeros_split n m : (m <= n)%nat -> zeros n = zeros m ++ zeros (n - m).
Proof. intros H. rewrite <- replicate_add. f_equal. lia. Qed.

Section Steps.
Context (h : Heap) (t : Z) (Ht : h !! t = None) (w : nat).
Notation W := (Z.of_nat w).
Notation T := ((t, 0) : dptr).
Notation area := (area h t).

(** The distance of two vectors of the heap, put into the first area. *)
Lemma step_distance_A u0 lu0 u1 lu1 B D R : (length lu1 <= length lu0 <= w)%nat ->
  arr h u0 lu0 -> arr h u1 lu1 -> digits lu0 -> digits lu1 ->
  exists L, length L = length lu0 /\ digits L /\ val L = Z.abs (val lu0 - val lu1) /\
  (if zcmp (val lu1) (val lu0) <? 0 then mpvecsub u0 (Zlen lu0) u1 (Zlen lu1) T;; mret (-1)
   else mpvecsub u1 (Zlen lu1) u0 (Zlen lu1) T;; mret 1) (area (zeros w) B D R)
  = Ok (if val lu1 <? val lu0 then -1 else 1, area (L ++ zeros (w - length L)) B D R).
Proof.
  intros [Hlen Hw] H0 H1 Hd0 Hd1. rewrite zcmp_neg.
  pose proof (area_A h t (zeros w) B D R) as HA. rewrite (zeros_split w (length lu0)) in HA by done.
  destruct (distance_run (area (zeros w) B D R) u0 lu0 u1 lu1 T) as (L & HL & HdL & HvL & E1 & E2);
    [done|by apply area_arr|by apply area_arr|done|done| | | |].
  { rewrite (zeros_split w (length lu0)) by done. by apply arr_app in HA as [HA _]. }
  { left. simpl. by eapply arr_block. }
  { left. simpl. by eapply arr_block. }
  exists L. split_and!; [done|done|done|].
  assert (EL : upd (area (zeros w) B D R) T L = area (L ++ zeros (w - length L)) B D R).
  { rewrite (zeros_split w (length lu0)) by done. rewrite upd_A by (by rewrite length_replicate). by rewrite HL. }
  rewrite EL in E1, E2. destruct (Z.ltb_spec (val lu1) (val lu0)).
  - by rewrite (eff_bind_ok _ _ _ _ _ (E1 ltac:(lia))).
  - by rewrite (eff_bind_ok _ _ _ _ _ (E2 ltac:(lia))).
Qed.

Lemma step_distance_B s v0 lv0 v1 lv1 A D R : (length lv1 <= length lv0 <= w)%nat -> Zlen A = W ->
  arr h v0 lv0 -> arr h v1 lv1 -> digits lv0 -> digits lv1 ->
  exists L, length L = length lv0 /\ digits L /\ val L = Z.abs (val lv0 - val lv1) /\
  (if zcmp (val lv0) (val lv1) <? 0 then mpvecsub v1 (Zlen lv1) v0 (Zlen lv1) (T +d W);; mret (s * -1)
   else mpvecsub v0 (Zlen lv0) v1 (Zlen lv1) (T +d W);; mret s) (area A (zeros w) D R)
  = Ok (if val lv0 <? val lv1 then s * -1 else s, area A (L ++ zeros (w - length L)) D R).
Proof.
  intros [Hlen Hw] HAl H0 H1 Hd0 Hd1. rewrite zcmp_neg.
  pose proof (area_B h t W A (zeros w) D R HAl) as HB. rewrite (zeros_split w (length lv0)) in HB by done.
  destruct (distance_run (area A (zeros w) D R) v0 lv0 v1 lv1 (T +d W)) as (L & HL & HdL & HvL & E1 & E2);
    [done|by apply area_arr|by apply area_arr|done|done| | | |].
  { rewrite (zeros_split w (length lv0)) by done. by apply arr_app in HB as [HB _]. }
  { left. simpl. by eapply arr_block. }
  { left. simpl. by eapply arr_block. }
  exists L. split_and!; [done|done|done|].
  assert (EL : upd (area A (zeros w) D R) (T +d W) L = area A (L ++ zeros (w - length L)) D R).
  { rewrite (zeros_split w (length lv0)) by done. rewrite upd_B by (done || by rewrite length_replicate). by rewrite HL. }
  rewrite EL in E1, E2. destruct (Z.ltb_spec (val lv0) (val lv1)).
  - by rewrite (eff_bind_ok _ _ _ _ _ (E2 ltac:(lia))).
  - by rewrite (eff_bind_ok _ _ _ _ _ (E1 ltac:(lia))).
Qed.

Context (mul : dptr -> Z -> dptr -> Z -> dptr -> eff Heap unit) (bound : Z) (Hmul : mul_spec mul bound).

(** The product of the two distances, in the third area. *)
Lemma step_product_D L M R : (length M <= length L)%nat -> (length L + length M <= w)%nat -> Zlen L < bound ->
  digits L -> digits M ->
  exists P, length P = (length L + length M)%nat /\ digits P /\ val P = val L * val M /\
  mul T (Zlen L) (T +d W) (Zlen M) (T +d 2 * W) (area (L ++ zeros (w - length L)) (M ++ zeros (w - length M)) (zeros w) R)
  = Ok (tt, area (L ++ zeros (w - length L)) (M ++ zeros (w - length M)) (P ++ zeros (w - length P)) R).
Proof.
  intros Hlen Hw Hb HdL HdM. set (A := L ++ zeros (w - length L)). set (B := M ++ zeros (w - length M)).
  assert (HA : Zlen A = W) by (unfold A, Zlen; rewrite length_app, length_replicate; lia).
  assert (HB : Zlen B = W) by (unfold B, Zlen; rewrite length_app, length_replicate; lia).
  rewrite (zeros_split w (length L + length M)) by done. set (D := _ ++ _). set (H := area A B D R).
  assert (HaA : arr H T A) by apply area_A. assert (HaB : arr H (T +d W) B) by (by apply area_B).
  assert (HaD : arr H (T +d 2 * W) D) by (by apply area_D).
  destruct (Hmul H T L (T +d W) M (T +d 2 * W)) as (P & HP & HdP & HvP & E).
  - done.
  - unfold Zlen in *. lia.
  - by apply arr_app in HaA as [HaA _].
  - by apply arr_app in HaB as [HaB _].
  - done.
  - done.
  - by apply arr_app in HaD as [HaD _].
  - right. left. simpl. unfold Zlen. lia.
  - right. left. simpl. unfold Zlen. lia.
  - exists P. split_and!; [done|done|done|]. rewrite E. do 2 f_equal. unfold H, D. rewrite upd_D; [|done|done|by rewrite length_replicate].
    by rewrite HP.
Qed.

(** A product of two vectors of the heap, in the first and in the second area. *)
Lemma step_product_A u lu v lv B D R : (length lu + length lv <= w)%nat -> Zlen lu < bound -> Zlen lv < bound ->
  arr h u lu -> arr h v lv -> digits lu -> digits lv ->
  exists P, length P = (length lu + length lv)%nat /\ digits P /\ val P = val lu * val lv /\
  mul u (Zlen lu) v (Zlen lv) T (area (zeros w) B D R) = Ok (tt, area (P ++ zeros (w - length P)) B D R).
Proof.
  intros Hw Hbu Hbv Hu Hv Hdu Hdv. rewrite (zeros_split w (length lu + length lv)) by done. set (A := _ ++ _).
  assert (HaA : arr (area A B D R) T A) by apply area_A.
  destruct (Hmul (area A B D R) u lu v lv T) as (P & HP & HdP & HvP & E); [done|done|by apply area_arr|by apply area_arr|done|done| | | |].
  - by apply arr_app in HaA as [HaA _].
  - left. simpl. by eapply arr_block.
  - left. simpl. by eapply arr_block.
  - exists P. split_and!; [done|done|done|]. rewrite E. do 2 f_equal. unfold A. rewrite upd_A by (by rewrite length_replicate). by rewrite HP.
Qed.

Lemma step_product_B u lu v lv A D R : (length lu + length lv <= w)%nat -> Zlen A = W -> Zlen lu < bound -> Zlen lv < bound ->
  arr h u lu -> arr h v lv -> digits lu -> digits lv ->
  exists P, length P = (length lu + length lv)%nat /\ digits P /\ val P = val lu * val lv /\
  mul u (Zlen lu) v (Zlen lv) (T +d W) (area A (zeros w) D R) = Ok (tt, area A (P ++ zeros (w - length P)) D R).
Proof.
  intros Hw HA Hbu Hbv Hu Hv Hdu Hdv. rewrite (zeros_split w (length lu + length lv)) by done. set (B := _ ++ _).
  assert (HaB : arr (area A B D R) (T +d W) B) by (by apply area_B).
  destruct (Hmul (area A B D R) u lu v lv (T +d W)) as (P & HP & HdP & HvP & E); [done|done|by apply area_arr|by apply area_arr|done|done| | | |].
  - by apply arr_app in HaB as [HaB _].
  - left. simpl. by eapply arr_block.
  - left. simpl. by eapply arr_block.
  - exists P. split_and!; [done|done|done|]. rewrite E. do 2 f_equal. unfold B. rewrite upd_B by (done || by rewrite length_replicate). by rewrite HP.
Qed.

Lemma step_clear A B D R : length A = w -> length B = w ->
  memzero T (2 * W) (area A B D R) = Ok (tt, area (zeros w) (zeros w) D R).
Proof.
  intros HA HB. rewrite memzero_run; [|lia|].
  - do 2 f_equal. replace (Z.to_nat (2 * W)) with (w + w)%nat by lia. rewrite replicate_add. apply upd_AB; by rewrite length_replicate.
  - pose proof (block_arr h t _ [] (A ++ B) (D ++ R) eq_refl) as H. apply arr_room in H. rewrite Zlen_app in H. unfold area.
    rewrite <- app_assoc in H. eapply room_le; [exact H|]. unfold Zlen. lia.
Qed.

End Steps.

Section Sums.
Context (h : Heap) (t : Z) (w : nat).
Notation W := (Z.of_nat w).
Notation T := ((t, 0) : dptr).
Notation area := (area h t).

Lemma step_add_R A B D R q lb k : Zlen A = W -> Zlen B = W -> Zlen D = W ->
  arr (area A B D R) q lb -> apart q (Zlen lb) (T +d 3 * W) (Zlen R) -> digits R -> digits lb -> (length lb + S k <= length R)%nat ->
  val R + Base ^ Z.of_nat k * val lb < Base ^ (Zlen R - 1) ->
  exists R', length R' = length R /\ digits R' /\ val R' = val R + Base ^ Z.of_nat k * val lb /\
  mpvecadd (T +d 3 * W +d Z.of_nat k) (Zlen R - 1 - Z.of_nat k) q (Zlen lb) (T +d 3 * W +d Z.of_nat k) (area A B D R)
  = Ok (tt, area A B D R').
Proof.
  intros HA HB HD Hq Hap HR Hb Hlen Hlt.
  destruct (acc_add (area A B D R) (T +d 3 * W) R q lb k) as (R' & L & Dg & V & E); [by apply area_R|done..|].
  exists R'. split_and!; [done|done|done|]. by rewrite E, upd_R.
Qed.

Lemma step_sub_R A B D R q lb k : Zlen A = W -> Zlen B = W -> Zlen D = W ->
  arr (area A B D R) q lb -> apart q (Zlen lb) (T +d 3 * W) (Zlen R) -> digits R -> digits lb -> (length lb + S k <= length R)%nat ->
  val R < Base ^ (Zlen R - 1) -> Base ^ Z.of_nat k * val lb <= val R ->
  exists R', length R' = length R /\ digits R' /\ val R' = val R - Base ^ Z.of_nat k * val lb /\
  mpvecsub (T +d 3 * W +d Z.of_nat k) (Zlen R - 1 - Z.of_nat k) q (Zlen lb) (T +d 3 * W +d Z.of_nat k) (area A B D R)
  = Ok (tt, area A B D R').
Proof.
  intros HA HB HD Hq Hap HR Hb Hlen Hlt Hle.
  destruct (acc_sub (area A B D R) (T +d 3 * W) R q lb k) as (R' & L & Dg & V & E); [by apply area_R|done..|].
  exists R'. split_and!; [done|done|done|]. by rewrite E, upd_R.
Qed.

Context (N : nat) (Hw : w = (2 * N + 1)%nat).
Notation X := (Base ^ Z.of_nat N).

(** [res += u1*v1<<n + u1*v1<<2*n], when there is a [v1]. *)
Lemma step_add_high A B D R l1 z1 (v1len len : Z) : Zlen A = W -> B = l1 ++ z1 -> Zlen B = W -> Zlen D = W -> digits R -> digits l1 ->
  length R = (2 * w)%nat -> (length l1 <= 2 * N)%nat -> 0 <= v1len -> (v1len = 0 -> val l1 = 0) -> (0 < v1len -> len = Zlen l1) ->
  val R + X * val l1 + X * X * val l1 < Base ^ (4 * Z.of_nat N + 1) ->
  exists R', length R' = length R /\ digits R' /\ val R' = val R + X * val l1 + X * X * val l1 /\
  (if 0 <? v1len then
     mpvecadd (T +d 3 * W +d Z.of_nat N) (4 * Z.of_nat N + 1 - Z.of_nat N) (T +d W) len (T +d 3 * W +d Z.of_nat N);;
     mpvecadd (T +d 3 * W +d 2 * Z.of_nat N) (4 * Z.of_nat N + 1 - 2 * Z.of_nat N) (T +d W) len (T +d 3 * W +d 2 * Z.of_nat N)
   else mret tt) (area A B D R) = Ok (tt, area A B D R').
Proof.
  intros HA HBl HB HD HR Hl1 HlR Hll Hv0 Hvz Hlenv Hlt.
  destruct (Z.ltb_spec 0 v1len) as [Hpos|Hz].
  2: { exists R. rewrite Hvz by lia. split_and!; [done|done|lia|done]. }
  specialize (Hlenv Hpos). subst len. pose proof (val_range l1 Hl1) as [P1 _].
  pose proof (pow_pos (Z.of_nat N) ltac:(lia)) as PX.
  assert (EX : Base ^ Z.of_nat (2 * N) = X * X) by (rewrite <- Z.pow_add_r by lia; f_equal; lia).
  assert (HzR : Zlen R - 1 = 4 * Z.of_nat N + 1) by (unfold Zlen; lia).
  assert (Hq : forall R, arr (area A B D R) (T +d W) l1).
  { intros R0. pose proof (area_B h t W A B D R0 HA) as H. rewrite HBl in H |- *. by apply arr_app in H as [H _]. }
  assert (Hl1W : Zlen l1 <= W) by (rewrite <- HB, HBl, Zlen_app; pose proof (Zlen_nonneg z1); lia).
  assert (Hap : forall n, apart (T +d W) (Zlen l1) (T +d 3 * W) n) by (intros n; right; left; simpl; lia).
  assert (0 <= X * val l1 /\ 0 <= X * X * val l1) as [Q1 Q2] by nia.
  destruct (step_add_R A B D R (T +d W) l1 N) as (R1 & L1 & D1 & V1 & E1); [done|done|done|done|done|done|done|lia|rewrite HzR; lia|].
  assert (HzR1 : Zlen R1 = Zlen R) by (unfold Zlen; lia).
  destruct (step_add_R A B D R1 (T +d W) l1 (2 * N)) as (R2 & L2 & D2 & V2 & E2);
    [done|done|done|done|done|done|done|lia|rewrite HzR1, HzR, V1, EX; lia|].
  rewrite HzR in E1. rewrite HzR1, HzR in E2. replace (Z.of_nat (2 * N)) with (2 * Z.of_nat N) in E2 by lia.
  exists R2. split_and!; [lia|done|rewrite V2, V1, EX; lia|]. by rewrite (eff_bind_ok _ _ _ _ _ E1), E2.
Qed.

(** [res += (u1-u0)*(v0-v1)<<n] *)
Lemma step_add_mid A B D R ld zd (s : bool) : Zlen A = W -> Zlen B = W -> D = ld ++ zd -> Zlen D = W -> digits R -> digits ld ->
  length R = (2 * w)%nat -> (length ld <= 2 * N)%nat ->
  val R + X * val ld < Base ^ (4 * Z.of_nat N + 1) -> (s = true -> X * val ld <= val R) ->
  exists R', length R' = length R /\ digits R' /\ val R' = val R + (if s then - (X * val ld) else X * val ld) /\
  (if (if s then -1 else 1) <? 0 then mpvecsub (T +d 3 * W +d Z.of_nat N) (4 * Z.of_nat N + 1 - Z.of_nat N) (T +d 2 * W) (Zlen ld) (T +d 3 * W +d Z.of_nat N)
   else mpvecadd (T +d 3 * W +d Z.of_nat N) (4 * Z.of_nat N + 1 - Z.of_nat N) (T +d 2 * W) (Zlen ld) (T +d 3 * W +d Z.of_nat N)) (area A B D R)
  = Ok (tt, area A B D R').
Proof.
  intros HA HB HDl HD HR Hld HlR Hll Hlt Hs. pose proof (val_range ld Hld) as [P1 _].
  pose proof (pow_pos (Z.of_nat N) ltac:(lia)) as PX. assert (0 <= X * val ld) as Q1 by nia.
  assert (HzR : Zlen R - 1 = 4 * Z.of_nat N + 1) by (unfold Zlen; lia).
  assert (Hq : arr (area A B D R) (T +d 2 * W) ld).
  { pose proof (area_D h t W A B D R HA HB) as H. rewrite HDl in H |- *. by apply arr_app in H as [H _]. }
  assert (Hl1W : Zlen ld <= W) by (rewrite <- HD, HDl, Zlen_app; pose proof (Zlen_nonneg zd); lia).
  assert (Hap : apart (T +d 2 * W) (Zlen ld) (T +d 3 * W) (Zlen R)) by (right; left; simpl; lia).
  destruct s; cbn [Z.ltb Z.compare].
  - destruct (step_sub_R A B D R (T +d 2 * W) ld N) as (R' & L & Dg & V & E); [done|done|done|done|done|done|done|lia|rewrite HzR; lia|auto|].
    rewrite HzR in E. exists R'. split_and!; [done|done|lia|done].
  - destruct (step_add_R A B D R (T +d 2 * W) ld N) as (R' & L & Dg & V & E); [done|done|done|done|done|done|done|lia|rewrite HzR; lia|].
    rewrite HzR in E. exists R'. split_and!; [done|done|lia|done].
Qed.

(** [res = u0*v0<<n + u0*v0] *)
Lemma step_add_low A B D l0 z0 (k : unit -> eff Heap unit) : A = l0 ++ z0 -> Zlen A = W -> Zlen B = W -> Zlen D = W -> digits l0 ->
  (length l0 <= 2 * N)%nat -> val l0 + X * val l0 < Base ^ (4 * Z.of_nat N + 1) ->
  exists R', length R' = (2 * w)%nat /\ digits R' /\ val R' = val l0 + X * val l0 /\
  (mpvecadd (T +d 3 * W) (4 * Z.of_nat N + 1) T (Zlen l0) (T +d 3 * W) ≫=
   (fun _ => mpvecadd (T +d 3 * W +d Z.of_nat N) (4 * Z.of_nat N + 1 - Z.of_nat N) T (Zlen l0) (T +d 3 * W +d Z.of_nat N) ≫= k)) (area A B D (zeros (2 * w)))
  = k tt (area A B D R').
Proof.
  intros HAl HA HB HD Hl0 Hll Hlt. pose proof (val_range l0 Hl0) as [P1 _].
  pose proof (pow_pos (Z.of_nat N) ltac:(lia)) as PX. assert (0 <= X * val l0) as Q1 by nia.
  set (R := zeros (2 * w)). assert (HlR : length R = (2 * w)%nat) by apply length_replicate.
  assert (HvR : val R = 0) by apply val_zero. assert (HdR : digits R) by apply digits_zero.
  assert (HzR : Zlen R - 1 = 4 * Z.of_nat N + 1) by (unfold Zlen; lia).
  assert (Hq : forall R, arr (area A B D R) T l0).
  { intros R0. pose proof (area_A h t A B D R0) as H. rewrite HAl in H |- *. by apply arr_app in H as [H _]. }
  assert (Hl1W : Zlen l0 <= W) by (rewrite <- HA, HAl, Zlen_app; pose proof (Zlen_nonneg z0); lia).
  assert (Hap : forall n, apart T (Zlen l0) (T +d 3 * W) n) by (intros n; right; left; simpl; lia).
  assert (E0 : Base ^ Z.of_nat 0 = 1) by done.
  destruct (step_add_R A B D R T l0 0) as (R1 & L1 & D1 & V1 & E1); [done|done|done|done|done|done|done|lia|rewrite HzR, HvR, E0; lia|].
  assert (HzR1 : Zlen R1 = Zlen R) by (unfold Zlen; lia).
  destruct (step_add_R A B D R1 T l0 N) as (R2 & L2 & D2 & V2 & E2);
    [done|done|done|done|done|done|done|lia|rewrite HzR1, HzR, V1, HvR, E0; lia|].
  rewrite HzR in E1. rewrite HzR1, HzR in E2. change (Z.of_nat 0) with 0 in E1. rewrite dadd_0, Z.sub_0_r in E1.
  exists R2. split_and!; [lia|done|rewrite V2, V1, HvR, E0; lia|]. by rewrite (eff_bind_ok _ _ _ _ _ E1), (eff_bind_ok _ _ _ _ _ E2).
Qed.

End Sums.

(** * mpkaratsuba *)

Lemma val_split_any l n : val l = val (take n l) + Base ^ Z.of_nat n * val (drop n l).
Proof.
  destruct (decide (n <= length l)%nat); [by apply val_split|]. rewrite take_ge, drop_ge by lia. cbn [val]. lia.
Qed.

Lemma val_below l n : digits l -> (length l <= n)%nat -> 0 <= val l < Base ^ Z.of_nat n.
Proof.
  intros Hl Hn. pose proof (val_range l Hl). assert (Base ^ Zlen l <= Base ^ Z.of_nat n) by (apply Z.pow_le_mono_r; [done|unfold Zlen; lia]). lia.
Qed.

Lemma kar_value X u0 u1 v0 v1 :
  u0 * v0 + X * (u0 * v0) + X * (u1 * v1) + X * X * (u1 * v1) +
    (if xorb (u1 <? u0) (v0 <? v1) then - (X * (Z.abs (u0 - u1) * Z.abs (v0 - v1))) else X * (Z.abs (u0 - u1) * Z.abs (v0 - v1)))
  = (u0 + X * u1) * (v0 + X * v1).
Proof.
  destruct (Z.ltb_spec u1 u0), (Z.ltb_spec v0 v1); cbn [xorb];
    rewrite ?(Z.abs_eq (u0 - u1)), ?(Z.abs_neq (u0 - u1)), ?(Z.abs_eq (v0 - v1)), ?(Z.abs_neq (v0 - v1)) by lia; ring.
Qed.

(** The sizes of the partial products. *)
Lemma product_size X u v : 0 <= u < X -> 0 <= v < X -> 0 <= u * v <= X * X.
Proof. nia. Qed.

Lemma kar_sizes X u0 u1 v0 v1 p0 p1 pd bound : 0 <= u0 < X -> 0 <= u1 < X -> 0 <= v0 < X -> 0 <= v1 < X ->
  p0 = u0 * v0 -> p1 = u1 * v1 -> pd = Z.abs (u0 - u1) * Z.abs (v0 - v1) -> 5 * (X * X * X * X) < bound ->
  p0 + X * p0 < bound /\ p0 + X * p0 + X * p1 + X * X * p1 < bound /\ p0 + X * p0 + X * p1 + X * X * p1 + X * pd < bound /\
  (xorb (u1 <? u0) (v0 <? v1) = true -> X * pd <= p0 + X * p0 + X * p1 + X * X * p1) /\
  p0 + X * p0 + X * p1 + X * X * p1 + (if xorb (u1 <? u0) (v0 <? v1) then - (X * pd) else X * pd) = (u0 + X * u1) * (v0 + X * v1).
Proof.
  intros Ru0 Ru1 Rv0 Rv1 -> -> -> HB. pose proof (kar_value X u0 u1 v0 v1) as Hvalue.
  assert (Hprod : 0 <= (u0 + X * u1) * (v0 + X * v1)).
  { assert (0 <= X * u1) by (apply Z.mul_nonneg_nonneg; lia). assert (0 <= X * v1) by (apply Z.mul_nonneg_nonneg; lia).
    apply Z.mul_nonneg_nonneg; lia. }
  pose proof (product_size X _ _ Ru0 Rv0) as P0. pose proof (product_size X _ _ Ru1 Rv1) as P1.
  pose proof (product_size X (Z.abs (u0 - u1)) (Z.abs (v0 - v1)) ltac:(lia) ltac:(lia)) as Pd.
  assert (HX : 1 <= X) by lia. clear Ru0 Ru1 Rv0 Rv1. pose proof (kar_bounds X _ _ _ HX P0 P1 Pd) as Hb.
  set (p0 := u0 * v0) in *. set (p1 := u1 * v1) in *. set (pd := Z.abs _ * Z.abs _) in *. set (pr := _ * (v0 + X * v1)) in *.
  clearbody p0 p1 pd pr.
  assert (Q1 : 0 <= X * p1) by nia. assert (Qd : 0 <= X * pd) by nia. assert (Q2 : 0 <= X * X * p1) by nia.
  split_and!; [lia|lia|lia| |done]. intros Hs. rewrite Hs in Hvalue. lia.
Qed.

Lemma area_zeros h t w n : n = 5 * Z.of_nat w ->
  <[t := replicate (Z.to_nat n) 0]> h = area h t (zeros w) (zeros w) (zeros w) (zeros (2 * w)).
Proof. intros ->. unfold area. rewrite <- !replicate_add. do 2 f_equal. lia. Qed.

Lemma Zlen_filled (l : list Z) w : (length l <= w)%nat -> Zlen (l ++ zeros (w - length l)) = Z.of_nat w.
Proof. intros H. unfold Zlen. rewrite length_app, length_replicate. lia. Qed.

(** ** The halves *)

Section Halves.
Context (mul : dptr -> Z -> dptr -> Z -> dptr -> eff Heap unit) (bound : Z) (Hmul : mul_spec mul bound).
Context (h : Heap) (t : Z) (Ht : h !! t = None) (N w : nat) (Hw : w = (2 * N + 1)%nat) (HN : Z.of_nat N < bound).
Context (pu0 pu1 pv0 pv1 : dptr) (u0 u1 v0 v1 : list Z).
Context (Hu0 : arr h pu0 u0) (Hu1 : arr h pu1 u1) (Hv0 : arr h pv0 v0) (Hv1 : arr h pv1 v1).
Context (Du0 : digits u0) (Du1 : digits u1) (Dv0 : digits v0) (Dv1 : digits v1).
Context (Lu0 : length u0 = N) (Lu1 : (length u1 <= N)%nat) (Lv0 : (length v0 <= N)%nat) (Lv1 : (length v1 <= length v0)%nat).

Notation W := (Z.of_nat w).
Notation T := ((t, 0) : dptr).
Notation area := (area h t).
Notation X := (Base ^ Z.of_nat N).
Notation fill l := (l ++ zeros (w - length l)).
Notation minus := (xorb (val u1 <? val u0) (val v0 <? val v1)).

Ltac run E := rewrite (eff_bind_ok _ _ _ _ _ E); clear E.

Lemma halves_products R (k : Z -> eff Heap unit) : exists l0 l1 ld,
  (length l0 = N + length v0 /\ length l1 = length u1 + length v1 /\ length ld = N + length v0)%nat /\
  digits l0 /\ digits l1 /\ digits ld /\
  val l0 = val u0 * val v0 /\ val l1 = val u1 * val v1 /\ val ld = Z.abs (val u0 - val u1) * Z.abs (val v0 - val v1) /\
  (c ← mpveccmp pu1 (Zlen u1) pu0 (Z.of_nat N);
   sign ← (if c <? 0 then mpvecsub pu0 (Z.of_nat N) pu1 (Zlen u1) T;; mret (-1)
           else mpvecsub pu1 (Zlen u1) pu0 (Zlen u1) T;; mret 1);
   c ← mpveccmp pv0 (Zlen v0) pv1 (Zlen v1);
   sign ← (if c <? 0 then mpvecsub pv1 (Zlen v1) pv0 (Zlen v1) (T +d W);; mret (sign * -1)
           else mpvecsub pv0 (Zlen v0) pv1 (Zlen v1) (T +d W);; mret sign);
   mul T (Z.of_nat N) (T +d W) (Zlen v0) (T +d 2 * W);;
   memzero T (2 * W);;
   (if 0 <? Zlen v1 then mul pu1 (Zlen u1) pv1 (Zlen v1) (T +d W) else mret tt);;
   mul pu0 (Z.of_nat N) pv0 (Zlen v0) T;;
   k sign) (area (zeros w) (zeros w) (zeros w) R)
  = k (if minus then -1 else 1) (area (fill l0) (fill l1) (fill ld) R).
Proof.
  assert (Zu0 : Zlen u0 = Z.of_nat N) by (unfold Zlen; lia).
  destruct (step_distance_A h t Ht w pu0 u0 pu1 u1 (zeros w) (zeros w) R ltac:(lia) Hu0 Hu1 Du0 Du1) as (L & HL & DL & VL & E1).
  assert (ZL : Zlen L = Z.of_nat N) by (unfold Zlen; lia).
  destruct (step_distance_B h t Ht w (if val u1 <? val u0 then -1 else 1) pv0 v0 pv1 v1 (fill L) (zeros w) R ltac:(lia)
    (Zlen_filled L w ltac:(lia)) Hv0 Hv1 Dv0 Dv1) as (M & HM & DM & VM & E2).
  assert (ZM : Zlen M = Zlen v0) by (unfold Zlen; lia).
  destruct (step_product_D h t w mul bound Hmul L M R ltac:(lia) ltac:(lia) ltac:(lia) DL DM) as (ld & Hld & Dld & Vld & E3).
  assert (HP1 : exists l1, length l1 = (length u1 + length v1)%nat /\ digits l1 /\ val l1 = val u1 * val v1 /\
     (if 0 <? Zlen v1 then mul pu1 (Zlen u1) pv1 (Zlen v1) (T +d W) else mret tt) (area (zeros w) (zeros w) (fill ld) R)
     = Ok (tt, area (zeros w) (fill l1) (fill ld) R)).
  { destruct (Z.ltb_spec 0 (Zlen v1)).
    - apply step_product_B with (bound := bound); (done || (unfold Zlen in *; rewrite ?length_replicate; lia)).
    - assert (v1 = []) as -> by (destruct v1; [done|unfold Zlen in *; simpl in *; lia]). exists (zeros (length u1)).
      rewrite length_replicate, val_zero. split_and!; [simpl; lia|apply digits_zero|simpl; lia|]. by rewrite <- zeros_split by lia. }
  destruct HP1 as (l1 & Hl1 & Dl1 & Vl1 & E4).
  destruct (step_product_A h t Ht w mul bound Hmul pu0 u0 pv0 v0 (fill l1) (fill ld) R) as (l0 & Hl0 & Dl0 & Vl0 & E5);
    [lia|lia|unfold Zlen in *; lia|done..|].
  exists l0, l1, ld. split; [lia|]. split_and!; [done|done|done|done|done|by rewrite Vld, VL, VM|].
  pose proof (mpveccmp_run (area (zeros w) (zeros w) (zeros w) R) pu1 u1 pu0 u0 ltac:(by apply area_arr) ltac:(by apply area_arr) Du1 Du0) as E0.
  pose proof (mpveccmp_run (area (fill L) (zeros w) (zeros w) R) pv0 v0 pv1 v1 ltac:(by apply area_arr) ltac:(by apply area_arr) Dv0 Dv1) as E0'.
  rewrite Zu0 in *. rewrite ZL, ZM in E3. run E0. run E1. run E0'. run E2. run E3.
  rewrite (eff_bind_ok _ _ _ _ _ (step_clear h t w (fill L) (fill M) (fill ld) R ltac:(rewrite length_app, length_replicate; lia) ltac:(rewrite length_app, length_replicate; lia))).
  run E4. run E5. f_equal. by destruct (val u1 <? val u0), (val v0 <? val v1).
Qed.

Lemma halves_sums l0 l1 ld (k : unit -> eff Heap unit) :
  (length l0 = N + length v0 /\ length l1 = length u1 + length v1 /\ length ld = N + length v0)%nat ->
  digits l0 -> digits l1 -> digits ld ->
  val l0 = val u0 * val v0 -> val l1 = val u1 * val v1 -> val ld = Z.abs (val u0 - val u1) * Z.abs (val v0 - val v1) ->
  exists R, length R = (2 * w)%nat /\ digits R /\ val R = (val u0 + X * val u1) * (val v0 + X * val v1) /\
  (mpvecadd (T +d 3 * W) (4 * Z.of_nat N + 1) T (Z.of_nat N + Zlen v0) (T +d 3 * W);;
   mpvecadd (T +d 3 * W +d Z.of_nat N) (4 * Z.of_nat N + 1 - Z.of_nat N) T (Z.of_nat N + Zlen v0) (T +d 3 * W +d Z.of_nat N);;
   (if 0 <? Zlen v1 then
      mpvecadd (T +d 3 * W +d Z.of_nat N) (4 * Z.of_nat N + 1 - Z.of_nat N) (T +d W) (Zlen u1 + Zlen v1) (T +d 3 * W +d Z.of_nat N);;
      mpvecadd (T +d 3 * W +d 2 * Z.of_nat N) (4 * Z.of_nat N + 1 - 2 * Z.of_nat N) (T +d W) (Zlen u1 + Zlen v1) (T +d 3 * W +d 2 * Z.of_nat N)
    else mret tt);;
   (if (if minus then -1 else 1) <? 0 then mpvecsub (T +d 3 * W +d Z.of_nat N) (4 * Z.of_nat N + 1 - Z.of_nat N) (T +d 2 * W) (Z.of_nat N + Zlen v0) (T +d 3 * W +d Z.of_nat N)
    else mpvecadd (T +d 3 * W +d Z.of_nat N) (4 * Z.of_nat N + 1 - Z.of_nat N) (T +d 2 * W) (Z.of_nat N + Zlen v0) (T +d 3 * W +d Z.of_nat N)) ≫= k)
    (area (fill l0) (fill l1) (fill ld) (zeros (2 * w)))
  = k tt (area (fill l0) (fill l1) (fill ld) R).
Proof.
  intros (Hl0 & Hl1 & Hld) D0 D1 Dd V0 V1 Vd.
  pose proof (val_below u0 N Du0 ltac:(lia)) as Ru0. pose proof (val_below u1 N Du1 ltac:(lia)) as Ru1.
  pose proof (val_below v0 N Dv0 ltac:(lia)) as Rv0. pose proof (val_below v1 N Dv1 ltac:(lia)) as Rv1.
  pose proof (pow_pos (Z.of_nat N) ltac:(lia)) as PX.
  assert (HB : 5 * (X * X * X * X) < Base ^ (4 * Z.of_nat N + 1)).
  { replace (4 * Z.of_nat N + 1) with (1 + (Z.of_nat N + Z.of_nat N + Z.of_nat N + Z.of_nat N)) by lia.
    rewrite pow_succ, !Z.pow_add_r by lia. apply Z.mul_lt_mono_pos_r; [repeat apply Z.mul_pos_pos; done|done]. }
  destruct (kar_sizes X _ _ _ _ _ _ _ _ Ru0 Ru1 Rv0 Rv1 V0 V1 Vd HB) as (S1 & S2 & S3 & S4 & Hvalue). clear HB PX Ru0 Ru1 Rv0 Rv1.
  assert (Zd : Zlen ld = Z.of_nat N + Zlen v0) by (unfold Zlen; lia).
  assert (Z0 : Zlen l0 = Z.of_nat N + Zlen v0) by (unfold Zlen; lia).
  assert (FA : Zlen (fill l0) = W) by (apply Zlen_filled; lia). assert (FB : Zlen (fill l1) = W) by (apply Zlen_filled; lia).
  assert (FD : Zlen (fill ld) = W) by (apply Zlen_filled; lia).
  destruct (step_add_low h t w N Hw (fill l0) (fill l1) (fill ld) l0 (zeros (w - length l0)) (fun _ =>
   (if 0 <? Zlen v1 then
      mpvecadd (T +d 3 * W +d Z.of_nat N) (4 * Z.of_nat N + 1 - Z.of_nat N) (T +d W) (Zlen u1 + Zlen v1) (T +d 3 * W +d Z.of_nat N);;
      mpvecadd (T +d 3 * W +d 2 * Z.of_nat N) (4 * Z.of_nat N + 1 - 2 * Z.of_nat N) (T +d W) (Zlen u1 + Zlen v1) (T +d 3 * W +d 2 * Z.of_nat N)
    else mret tt);;
   (if (if minus then -1 else 1) <? 0 then mpvecsub (T +d 3 * W +d Z.of_nat N) (4 * Z.of_nat N + 1 - Z.of_nat N) (T +d 2 * W) (Z.of_nat N + Zlen v0) (T +d 3 * W +d Z.of_nat N)
    else mpvecadd (T +d 3 * W +d Z.of_nat N) (4 * Z.of_nat N + 1 - Z.of_nat N) (T +d 2 * W) (Z.of_nat N + Zlen v0) (T +d 3 * W +d Z.of_nat N)) ≫= k)
    eq_refl FA FB FD D0 ltac:(lia) S1) as (R1 & L1 & DR1 & VR1 & E1).
  rewrite Z0 in E1. rewrite E1. clear E1.
  destruct (step_add_high h t w N Hw (fill l0) (fill l1) (fill ld) R1 l1 (zeros (w - length l1)) (Zlen v1) (Zlen u1 + Zlen v1)
    FA eq_refl FB FD DR1 D1 ltac:(lia) ltac:(lia) (Zlen_nonneg _)) as (R2 & L2 & DR2 & VR2 & E2).
  { intros Hz. rewrite V1. assert (v1 = []) as -> by (destruct v1; [done|unfold Zlen in *; simpl in *; lia]). simpl. lia. }
  { intros _. unfold Zlen. lia. }
  { by rewrite VR1. }
  run E2.
  destruct (step_add_mid h t w N Hw (fill l0) (fill l1) (fill ld) R2 ld (zeros (w - length ld)) minus
    FA FB eq_refl FD DR2 Dd ltac:(lia) ltac:(lia)) as (R3 & L3 & DR3 & VR3 & E3).
  { by rewrite VR2, VR1. }
  { by rewrite VR2, VR1. }
  rewrite Zd in E3. run E3. exists R3. split_and!; [lia|done|by rewrite VR3, VR2, VR1|done].
Qed.

End Halves.

Lemma mpkaratsuba_run mul h a la b lb p : mul_spec mul (Zlen la) -> (2 <= length la)%nat -> (length lb <= length la)%nat ->
  arr h a la -> arr h b lb -> digits la -> digits lb -> room h p (Zlen la + Zlen lb) ->
  exists l, length l = (length la + length lb)%nat /\ digits l /\ val l = val la * val lb /\
  mpkaratsuba mul a (Zlen la) b (Zlen lb) p h = Ok (tt, upd h p l).
Proof.
  intros Hmul Hla Hlen Ha Hb Hda Hdb Hp. unfold mpkaratsuba. cbv zeta. rewrite kar_split.
  set (N := Z.to_nat ((Zlen la + 1) / 2)).
  assert (HN : (Zlen la + 1) / 2 = Z.of_nat N) by (unfold N, Zlen; rewrite Z2Nat.id; [done|apply Z.div_pos; lia]).
  assert (HN2 : (length la <= 2 * N <= length la + 1)%nat) by (unfold N, Zlen; Z.div_mod_to_equations; lia).
  rewrite HN. clearbody N. clear HN. set (w := (2 * N + 1)%nat). set (X := Base ^ Z.of_nat N).
  set (u0 := take N la). set (u1 := drop N la). set (v0 := take N lb). set (v1 := drop N lb).
  assert (Lu0 : length u0 = N) by (unfold u0; rewrite length_take; lia).
  assert (Lu1 : length u1 = (length la - N)%nat) by (unfold u1; by rewrite length_drop).
  assert (Lv0 : length v0 = Nat.min N (length lb)) by (unfold v0; by rewrite length_take).
  assert (Lv1 : length v1 = (length lb - N)%nat) by (unfold v1; by rewrite length_drop).
  assert (Ev : (if Z.of_nat N <? Zlen lb then (Z.of_nat N, Zlen lb - Z.of_nat N) else (Zlen lb, 0)) = (Zlen v0, Zlen v1)).
  { unfold Zlen. rewrite Lv0, Lv1. destruct (Z.ltb_spec (Z.of_nat N) (Z.of_nat (length lb))); f_equal; lia. }
  rewrite Ev. replace (Zlen la - Z.of_nat N) with (Zlen u1) by (unfold Zlen; lia).
  assert (Ha0 : arr h a u0) by (by apply arr_take). assert (Hb0 : arr h b v0) by (by apply arr_take).
  assert (Ha1 : arr h (a +d Z.of_nat N) u1) by (apply arr_drop; [done|lia]).
  assert (Hb1 : arr h (b +d Zlen v0) v1).
  { rewrite <- (take_drop N lb) in Hb. by apply arr_app in Hb as [_ Hb]. }
  assert (Hd0 : digits u0) by (by apply digits_take). assert (Hd1 : digits u1) by (by apply digits_drop).
  assert (He0 : digits v0) by (by apply digits_take). assert (He1 : digits v1) by (by apply digits_drop).
  assert (Eval : val la * val lb = (val u0 + X * val u1) * (val v0 + X * val v1)) by (by rewrite (val_split_any la N), (val_split_any lb N)).
  pose proof (val_below u0 N Hd0 ltac:(lia)) as Ru0. pose proof (val_below u1 N Hd1 ltac:(lia)) as Ru1.
  pose proof (val_below v0 N He0 ltac:(lia)) as Rv0. pose proof (val_below v1 N He1 ltac:(lia)) as Rv1. fold X in Ru0, Ru1, Rv0, Rv1.
  assert (Hzla : Zlen la = Z.of_nat (length la)) by done. assert (Hzlb : Zlen lb = Z.of_nat (length lb)) by done.
  clearbody u0 u1 v0 v1. clear Ev.
  erewrite eff_bind_ok by (apply mallocz_run). cbv beta. pose proof (new_block_fresh h) as Ht. set (t := new_block h) in *. clearbody t.
  rewrite (area_zeros h t w) by lia. replace (2 * Z.of_nat N + 1) with (Z.of_nat w) by lia.
  destruct (halves_products mul (Zlen la) Hmul h t Ht N w eq_refl ltac:(unfold Zlen; lia) a (a +d Z.of_nat N) b (b +d Zlen v0) u0 u1 v0 v1
    Ha0 Ha1 Hb0 Hb1 Hd0 Hd1 He0 He1 Lu0 ltac:(lia) ltac:(lia) ltac:(lia) (zeros (2 * w)) (fun sign =>
    mpvecadd ((t, 0) +d 3 * Z.of_nat w) (4 * Z.of_nat N + 1) (t, 0) (Z.of_nat N + Zlen v0) ((t, 0) +d 3 * Z.of_nat w);;
    mpvecadd ((t, 0) +d 3 * Z.of_nat w +d Z.of_nat N) (4 * Z.of_nat N + 1 - Z.of_nat N) (t, 0) (Z.of_nat N + Zlen v0) ((t, 0) +d 3 * Z.of_nat w +d Z.of_nat N);;
    (if 0 <? Zlen v1 then
       mpvecadd ((t, 0) +d 3 * Z.of_nat w +d Z.of_nat N) (4 * Z.of_nat N + 1 - Z.of_nat N) ((t, 0) +d Z.of_nat w) (Zlen u1 + Zlen v1) ((t, 0) +d 3 * Z.of_nat w +d Z.of_nat N);;
       mpvecadd ((t, 0) +d 3 * Z.of_nat w +d 2 * Z.of_nat N) (4 * Z.of_nat N + 1 - 2 * Z.of_nat N) ((t, 0) +d Z.of_nat w) (Zlen u1 + Zlen v1) ((t, 0) +d 3 * Z.of_nat w +d 2 * Z.of_nat N)
     else mret tt);;
    (if sign <? 0 then mpvecsub ((t, 0) +d 3 * Z.of_nat w +d Z.of_nat N) (4 * Z.of_nat N + 1 - Z.of_nat N) ((t, 0) +d 2 * Z.of_nat w) (Z.of_nat N + Zlen v0) ((t, 0) +d 3 * Z.of_nat w +d Z.of_nat N)
     else mpvecadd ((t, 0) +d 3 * Z.of_nat w +d Z.of_nat N) (4 * Z.of_nat N + 1 - Z.of_nat N) ((t, 0) +d 2 * Z.of_nat w) (Z.of_nat N + Zlen v0) ((t, 0) +d 3 * Z.of_nat w +d Z.of_nat N));;
    memmoved p ((t, 0) +d 3 * Z.of_nat w) (Zlen la + Zlen lb);; free t))
    as (l0 & l1 & ld & Hlens & D0 & D1 & Dd & V0 & V1 & Vd & E1).
  cbn [fst]. rewrite E1. clear E1.
  destruct (halves_sums h t N w eq_refl (b +d Zlen v0) u0 u1 v0 v1 Hb1 Hd0 Hd1 He0 He1 Lu0 ltac:(lia) ltac:(lia) ltac:(lia) l0 l1 ld
    (fun _ => memmoved p ((t, 0) +d 3 * Z.of_nat w) (Zlen la + Zlen lb);; free t) Hlens D0 D1 Dd V0 V1 Vd) as (R & LR & DR & VR & E2).
  rewrite E2. clear E2. fold X in VR. rewrite <- Eval in VR.
  set (m := (length la + length lb)%nat).
  assert (Hlt : val R < Base ^ Z.of_nat m).
  { rewrite VR. pose proof (val_range la Hda). pose proof (val_range lb Hdb). unfold m. rewrite Nat2Z.inj_add, Z.pow_add_r by lia.
    unfold Zlen in *. apply Z.mul_lt_mono_nonneg; lia. }
  destruct (high_zero R m DR ltac:(lia) Hlt) as [_ Vt]. exists (take m R).
  assert (Lt : length (take m R) = m) by (rewrite length_take; lia).
  split; [done|]. split; [by apply digits_take|]. split; [by rewrite Vt|].
  assert (Zt : Zlen (take m R) = Zlen la + Zlen lb) by (unfold Zlen; lia).
  assert (HR : arr (area h t (l0 ++ zeros (w - length l0)) (l1 ++ zeros (w - length l1)) (ld ++ zeros (w - length ld)) R)
    ((t, 0) +d 3 * Z.of_nat w) (take m R)) by (apply arr_take, area_R; apply Zlen_filled; lia).
  rewrite <- Zt. rewrite <- Zt in Hp. set (H := area h t _ _ _ R) in *.
  assert (HS : scratch h t (5 * Z.of_nat w) H).
  { eexists. split; [done|]. unfold Zlen. rewrite !length_app, !length_replicate. clear Hlt VR Vt V0 V1 Vd. lia. }
  rewrite (eff_bind_ok _ _ _ _ _ (memmoved_run H p _ (take m R) HR ltac:(destruct Hp as (v & Hv & ?); destruct HS as (v' & -> & _); exists v; by rewrite lookup_insert_ne by congruence))).
  unfold free, modify. by rewrite (scratch_delete h t (5 * Z.of_nat w) H).
Qed.

(** * mpvecmul *)

(** Enough fuel: one more than the length of the longer vector. *)
Lemma vecmul_spec fuel : mul_spec (vecmul fuel) (Z.of_nat fuel).
Proof.
  induction fuel as [|fuel IH]; intros h a la b lb p Hfa Hfb Ha Hb Hda Hdb Hp Haa Hab; [unfold Zlen in *; lia|].
  cbn [vecmul].
  assert (Hswap : exists a' la' b' lb', (length lb' <= length la')%nat /\ arr h a' la' /\ arr h b' lb' /\ digits la' /\ digits lb' /\
    Zlen la' < Z.of_nat (S fuel) /\ (length la' + length lb' = length la + length lb)%nat /\ val la' * val lb' = val la * val lb /\
    apart a' (Zlen la') p (Zlen la + Zlen lb) /\ apart b' (Zlen lb') p (Zlen la + Zlen lb) /\
    (if Zlen la <? Zlen lb then (b, Zlen lb, a, Zlen la) else (a, Zlen la, b, Zlen lb)) = (a', Zlen la', b', Zlen lb')).
  { destruct (Z.ltb_spec (Zlen la) (Zlen lb)).
    - exists b, lb, a, la. split_and!; try done; unfold Zlen in *; lia.
    - exists a, la, b, lb. split_and!; try done; unfold Zlen in *; lia. }
  destruct Hswap as (a' & la' & b' & lb' & Hlen & Ha' & Hb' & Hda' & Hdb' & Hf & Hl & Hv & Haa' & Hab' & E).
  rewrite E. rewrite <- Hl in *. rewrite <- Hv. assert (Hz : Zlen la + Zlen lb = Zlen la' + Zlen lb') by (unfold Zlen; lia). rewrite Hz in *.
  destruct ((KARATSUBAMIN <=? Zlen la') && (1 <? Zlen lb')) eqn:EK.
  - zbool. unfold KARATSUBAMIN in *. apply mpkaratsuba_run; [|unfold Zlen in *; lia|done..|].
    + intros h' x lx y ly q Hx Hy. apply IH; unfold Zlen in *; lia.
    + apply arr_room in Hp. unfold Zlen in *. rewrite length_replicate in Hp. eapply room_le; [exact Hp|lia].
  - assert (Hzp : Zlen (zeros (length la' + length lb')) = Zlen la' + Zlen lb') by (unfold Zlen; rewrite length_replicate; lia).
    destruct (vmul_val true la' Hda' lb' (zeros (length la' + length lb')) Hdb' (digits_zero _)) as (D & L & V);
      [apply length_replicate|by rewrite drop_replicate, val_zero|].
    exists (vmul true la' lb' (zeros (length la' + length lb'))). rewrite V, L, val_zero, length_replicate. split_and!; [done|done|lia|].
    rewrite to_nat_Zlen. apply mul_loop_run; [apply length_replicate|done|done|done|by rewrite Hzp|by rewrite Hzp].
Qed.

Lemma mpvecmul_run h a la b lb p : arr h a la -> arr h b lb -> digits la -> digits lb ->
  arr h p (zeros (length la + length lb)) -> apart a (Zlen la) p (Zlen la + Zlen lb) -> apart b (Zlen lb) p (Zlen la + Zlen lb) ->
  exists l, length l = (length la + length lb)%nat /\ digits l /\ val l = val la * val lb /\
  mpvecmul a (Zlen la) b (Zlen lb) p h = Ok (tt, upd h p l).
Proof. intros. apply vecmul_spec; try done; unfold Zlen; lia. Qed.

Lemma mpvectsmul_run h a la b lb p : arr h a la -> arr h b lb -> digits la -> digits lb ->
  arr h p (zeros (length la + length lb)) -> apart a (Zlen la) p (Zlen la + Zlen lb) -> apart b (Zlen lb) p (Zlen la + Zlen lb) ->
  exists l, length l = (length la + length lb)%nat /\ digits l /\ val l = val la * val lb /\
  mpvectsmul a (Zlen la) b (Zlen lb) p h = Ok (tt, upd h p l).
Proof.
  intros Ha Hb Hda Hdb Hp Haa Hab. unfold mpvectsmul.
  assert (Hrun : forall a la b lb, arr h a la -> arr h b lb -> digits la -> digits lb ->
    arr h p (zeros (length la + length lb)) -> apart a (Zlen la) p (Zlen la + Zlen lb) -> apart b (Zlen lb) p (Zlen la + Zlen lb) ->
    exists l, length l = (length la + length lb)%nat /\ digits l /\ val l = val la * val lb /\
    (if Zlen lb =? 0 then mret tt else mul_loop false (Z.to_nat (Zlen lb)) a (Zlen la) b p) h = Ok (tt, upd h p l)).
  { clear. intros a la b lb Ha Hb Hda Hdb Hp Haa Hab.
    assert (Hzp : Zlen (zeros (length la + length lb)) = Zlen la + Zlen lb) by (unfold Zlen; rewrite length_replicate; lia).
    destruct (vmul_val false la Hda lb (zeros (length la + length lb)) Hdb (digits_zero _)) as (D & L & V);
      [apply length_replicate|by rewrite drop_replicate, val_zero|].
    exists (vmul false la lb (zeros (length la + length lb))). rewrite V, L, val_zero, length_replicate. split_and!; [done|done|lia|].
    destruct (Z.eqb_spec (Zlen lb) 0) as [E|E].
    - destruct lb; [|rewrite Zlen_cons in E; pose proof (Zlen_nonneg lb); lia]. cbn [vmul]. by rewrite store_same.
    - rewrite to_nat_Zlen. apply mul_loop_run; [apply length_replicate|done|done|done|by rewrite Hzp|by rewrite Hzp]. }
  destruct (Z.ltb_spec (Zlen la) (Zlen lb)); [|by apply Hrun].
  rewrite Nat.add_comm, Z.mul_comm in *. rewrite Z.add_comm in Haa, Hab.
  destruct (Hrun b lb a la) as (l & L & D & V & E); [done..|]. exists l. split_and!; [lia|done|lia|done].
Qed.
