(* ===== verification/MpInt.v ===== *)
(** Multi-precision integers, [libmp/port]: [mpaux.c], [mpcmp.c], [mpadd.c],
    [mpsub.c], [mpleft.c], [mpright.c], [mpmul.c], the conversions from and to
    machine integers, [mpdiv.c] and [mpmod.c].

    A pointer to an [mpint] is the number of its structure; the digits that
    [mpnew] puts behind a structure are the block of that number, and other
    blocks have numbers of their own.  [nil] is 0. *)

From S2P Require Import Prelude Eff MpVec.

Record mpint := Mp {
  mp_sign : Z;
  mp_size : Z;
  mp_top : Z;
  mp_p : Z;      (** the block of the digits *)
  mp_flags : Z;
}.

Definition MPstatic : Z := 1.
Definition MPnorm : Z := 2.
Definition MPtimesafe : Z := 4.
Definition MPfield : Z := 8.

Record mpstate := MpS {
  ints : gmap Z mpint;
  digs : Heap;
  mpmindigits : Z;
}.

Definition nil : Z := 0.

(** A routine on vectors, run on the digits. *)
Definition vec {A} (c : eff Heap A) : eff mpstate A := fun s =>
  match c (digs s) with
  | Ok (x, h) => Ok (x, MpS (ints s) h (mpmindigits s))
  | Abort => Abort
  | Fault => Fault
  end.

Definition geti (b : Z) : eff mpstate mpint := deref ints b.
Definition puti (b : Z) (m : mpint) : eff mpstate unit := modify (fun s => MpS (<[b := m]> (ints s)) (digs s) (mpmindigits s)).

Definition with_sign (x : Z) (m : mpint) : mpint := Mp x (mp_size m) (mp_top m) (mp_p m) (mp_flags m).
Definition with_top (x : Z) (m : mpint) : mpint := Mp (mp_sign m) (mp_size m) x (mp_p m) (mp_flags m).
Definition with_flags (x : Z) (m : mpint) : mpint := Mp (mp_sign m) (mp_size m) (mp_top m) (mp_p m) x.
Definition with_vec (p n : Z) (m : mpint) : mpint := Mp (mp_sign m) n (mp_top m) p (mp_flags m).

Definition sets (b : Z) (f : mpint -> mpint) : eff mpstate unit := m ← geti b; puti b (f m).

(** [b->flags & f], and the changes of the flags. *)
Definition has (m : mpint) (f : Z) : bool := negb (Z.land (mp_flags m) f =? 0).
Definition set_flag (f : Z) (m : mpint) : mpint := with_flags (Z.lor (mp_flags m) f) m.
Definition clear_flag (f : Z) (m : mpint) : mpint := with_flags (Z.ldiff (mp_flags m) f) m.

(** [b->p[i]] *)
Definition dig (b i : Z) : eff mpstate Z := m ← geti b; vec (rd (mp_p m, i)).
Definition setdig (b i x : Z) : eff mpstate unit := m ← geti b; vec (wr (mp_p m, i) x).

(** C's division truncates. *)
Definition DIGITS (x : Z) : Z := Z.quot (Dbits - 1 + x) Dbits.

(** * mpaux.c *)

Definition mptwo : Z := -3.
Definition mpone : Z := -2.
Definition mpzero : Z := -1.

(** The constants, with digits in blocks -6, -5 and -4. *)
Definition mpstart : mpstate := MpS
  (<[mptwo := Mp 1 1 1 (-6) (Z.lor MPstatic MPnorm)]>
  (<[mpone := Mp 1 1 1 (-5) (Z.lor MPstatic MPnorm)]>
  {[mpzero := Mp 1 1 0 (-4) (Z.lor MPstatic MPnorm)]}))
  (<[-6 := [2]]> (<[-5 := [1]]> {[-4 := [0]]}))
  33.

Definition mpsetminbits (n : Z) : eff mpstate unit :=
  if n <? 0 then abort else
  let n := if n =? 0 then 1 else n in
  modify (fun s => MpS (ints s) (digs s) (DIGITS n)).

Definition mpnew (n : Z) : eff mpstate Z :=
  if n <? 0 then abort else
  let n := DIGITS n in
  mind ← gets mpmindigits;
  let n := if n <? mind then mind else n in
  b ← vec (mallocz n);
  puti b (Mp 1 n 0 b MPnorm);;
  mret b.

(** The blocks of [realloc] are always new ones. *)
Definition realloc (p n : Z) : eff Heap Z :=
  l ← deref id p;
  b ← mallocz n;
  modify (fun h => <[b := resize (Z.to_nat n) 0 l]> h);;
  free p;;
  mret b.

(** Room for [n] digits. *)
Definition grow (b n : Z) : eff mpstate unit :=
  i ← geti b;
  if n <=? mp_size i then mret tt else
  if mp_p i =? b then
    p ← vec (mallocz n);
    vec (memmoved (p, 0) (b, 0) (mp_top i));;
    vec (memzero (b, 0) (mp_size i));;
    sets b (with_vec p n)
  else
    p ← vec (realloc (mp_p i) n);
    sets b (with_vec p n).

Definition mpbits (b m : Z) : eff mpstate unit :=
  let n := DIGITS m in
  i ← geti b;
  if (n <=? mp_size i) && (n <=? mp_top i) then mret tt else
  grow b n;;
  i ← geti b;
  vec (memzero (mp_p i, mp_top i) (n - mp_top i));;
  sets b (with_top n);;
  sets b (clear_flag MPnorm).

Definition mpfree (b : Z) : eff mpstate unit :=
  if b =? nil then mret tt else
  i ← geti b;
  if has i MPstatic then abort else
  vec (memzero (mp_p i, 0) (mp_size i));;
  (if mp_p i =? b then mret tt else vec (free (mp_p i)));;
  vec (free b);;
  modify (fun s => MpS (delete b (ints s)) (digs s) (mpmindigits s)).

(** One more than the index of the last of [n] digits that is not zero. *)
Fixpoint norm_top (n : nat) (b : Z) : eff mpstate Z :=
  match n with
  | O => mret 0
  | S n => x ← dig b (Z.of_nat n); if negb (x =? 0) then mret (Z.of_nat (S n)) else norm_top n b
  end.

Definition mpnorm (b : Z) : eff mpstate Z :=
  i ← geti b;
  if has i MPtimesafe then
    assertb (mp_sign i =? 1);;
    sets b (clear_flag MPnorm);;
    mret b
  else
    top ← norm_top (Z.to_nat (mp_top i)) b;
    sets b (with_top top);;
    (if top =? 0 then sets b (with_sign 1) else mret tt);;
    sets b (set_flag MPnorm);;
    mret b.

Definition mpcopy (old : Z) : eff mpstate Z :=
  i ← geti old;
  new ← mpnew (Dbits * mp_size i);
  i ← geti old;
  sets new (with_top (mp_top i));;
  sets new (with_sign (mp_sign i));;
  sets new (with_flags (Z.ldiff (mp_flags i) (Z.lor MPstatic MPfield)));;
  n ← geti new;
  vec (memmoved (mp_p n, 0) (mp_p i, 0) (mp_top i));;
  mret new.

Definition mpassign (old new : Z) : eff mpstate unit :=
  if (new =? nil) || (old =? new) then mret tt else
  sets new (with_top 0);;
  i ← geti old;
  mpbits new (Dbits * mp_top i);;
  sets new (with_sign (mp_sign i));;
  sets new (with_top (mp_top i));;
  sets new (clear_flag MPnorm);;
  sets new (set_flag (Z.ldiff (mp_flags i) (Z.lor MPstatic MPfield)));;
  n ← geti new;
  vec (memmoved (mp_p n, 0) (mp_p i, 0) (mp_top i)).

(** The highest bit set below [n], plus one. *)
Fixpoint high_bit (n : nat) (d : Z) : Z :=
  match n with
  | O => 0
  | S n => if negb (Z.land d (Z.shiftl 1 (Z.of_nat n)) =? 0) then Z.of_nat (S n) else high_bit n d
  end.

Fixpoint signif_loop (i : nat) (n : Z) : eff mpstate Z :=
  match i with
  | O => mret 0
  | S i =>
      d ← dig n (Z.of_nat i);
      let j := high_bit (Z.to_nat Dbits) d in
      if negb (j =? 0) then mret (Z.of_nat i * Dbits + j) else signif_loop i n
  end.

Definition mpsignif (n : Z) : eff mpstate Z :=
  i ← geti n;
  if mp_top i =? 0 then mret 0 else signif_loop (Z.to_nat (mp_top i)) n.

(** * mpcmp.c *)

Definition mpmagcmp (b1 b2 : Z) : eff mpstate Z :=
  m1 ← geti b1; m2 ← geti b2;
  let i := Z.lor (mp_flags m1) (mp_flags m2) in
  if negb (Z.land i MPtimesafe =? 0) then vec (mpvectscmp (mp_p m1, 0) (mp_top m1) (mp_p m2, 0) (mp_top m2)) else
  let i' := mp_top m1 - mp_top m2 in
  if negb (Z.land i MPnorm =? 0) && negb (i' =? 0) then mret i'
  else vec (mpveccmp (mp_p m1, 0) (mp_top m1) (mp_p m2, 0) (mp_top m2)).

Definition mpcmp (b1 b2 : Z) : eff mpstate Z :=
  m1 ← geti b1; m2 ← geti b2;
  let sign := Z.shiftr (mp_sign m1 - mp_sign m2) 1 in
  c ← mpmagcmp b1 b2;
  mret (Z.lor sign (Z.land (Z.land sign 1 - 1) (c * mp_sign m1))).

(** * mpadd.c, mpsub.c *)

(** The timesafe flag of the arguments goes to the result. *)
Definition inherit (f1 f2 : Z) : mpint -> mpint := set_flag (Z.land (Z.lor f1 f2) MPtimesafe).
Definition flag3 (m1 m2 m3 : mpint) (f : Z) : bool := Z.land (Z.lor (Z.lor (mp_flags m1) (mp_flags m2)) (mp_flags m3)) f =? 0.

Definition mpmagadd (b1 b2 sum : Z) : eff mpstate unit :=
  m1 ← geti b1; m2 ← geti b2;
  sets sum (inherit (mp_flags m1) (mp_flags m2));;
  let '(b1, b2) := if mp_top m1 <? mp_top m2 then (b2, b1) else (b1, b2) in
  m1 ← geti b1; m2 ← geti b2;
  let n := mp_top m1 in
  let m := mp_top m2 in
  if n =? 0 then mpassign mpzero sum else
  if m =? 0 then mpassign b1 sum else
  mpbits sum ((n + 1) * Dbits);;
  sets sum (with_top (n + 1));;
  m1 ← geti b1; m2 ← geti b2; ms ← geti sum;
  vec (mpvecadd (mp_p m1, 0) n (mp_p m2, 0) m (mp_p ms, 0));;
  sets sum (with_sign 1);;
  mpnorm sum;;
  mret tt.

Definition mpmagsub (b1 b2 diff : Z) : eff mpstate unit :=
  c ← mpmagcmp b1 b2;
  m1 ← geti b1; m2 ← geti b2; md ← geti diff;
  '(sign, b1, b2) ←
    (if c <? 0 then assertb (flag3 m1 m2 md MPtimesafe);; mret (-1, b2, b1)
     else sets diff (inherit (mp_flags m1) (mp_flags m2));; mret (1, b1, b2));
  m1 ← geti b1; m2 ← geti b2;
  let n := mp_top m1 in
  let m := mp_top m2 in
  if m =? 0 then mpassign b1 diff;; sets diff (with_sign sign) else
  mpbits diff (n * Dbits);;
  m1 ← geti b1; m2 ← geti b2; md ← geti diff;
  vec (mpvecsub (mp_p m1, 0) n (mp_p m2, 0) m (mp_p md, 0));;
  sets diff (with_sign sign);;
  sets diff (with_top n);;
  mpnorm diff;;
  mret tt.

Definition mpadd (b1 b2 sum : Z) : eff mpstate unit :=
  m1 ← geti b1; m2 ← geti b2; ms ← geti sum;
  if negb (mp_sign m1 =? mp_sign m2) then
    assertb (flag3 m1 m2 ms MPtimesafe);;
    if mp_sign m1 <? 0 then mpmagsub b2 b1 sum else mpmagsub b1 b2 sum
  else
    let sign := mp_sign m1 in
    mpmagadd b1 b2 sum;;
    ms ← geti sum;
    if negb (mp_top ms =? 0) then sets sum (with_sign sign) else mret tt.

Definition mpsub (b1 b2 diff : Z) : eff mpstate unit :=
  m1 ← geti b1; m2 ← geti b2; md ← geti diff;
  let sign := mp_sign m1 in
  if negb (mp_sign m1 =? mp_sign m2) then
    assertb (flag3 m1 m2 md MPtimesafe);;
    mpmagadd b1 b2 diff;;
    sets diff (with_sign sign)
  else
    mpmagsub b1 b2 diff;;
    md ← geti diff;
    if negb (mp_top md =? 0) then sets diff (fun m => with_sign (mp_sign m * sign) m) else mret tt.

(** * mpleft.c, mpright.c *)

Fixpoint left_digits (i : nat) (b res d : Z) : eff mpstate unit :=
  match i with
  | O => mret tt
  | S i => x ← dig b (Z.of_nat i); setdig res (Z.of_nat i + d) x;; left_digits i b res d
  end.

Fixpoint left_bits (i : nat) (b res d l r last : Z) : eff mpstate Z :=
  match i with
  | O => mret last
  | S i =>
      this ← dig b (Z.of_nat i);
      setdig res (Z.of_nat i + d + 1) (Z.lor (u32 (Z.shiftl last l)) (Z.shiftr this r));;
      left_bits i b res d l r this
  end.

Fixpoint clear_digits (n : nat) (b i : Z) : eff mpstate unit :=
  match n with O => mret tt | S n => setdig b i 0;; clear_digits n b (i + 1) end.

Fixpoint right_digits (n : nat) (b res d i : Z) : eff mpstate unit :=
  match n with
  | O => mret tt
  | S n => x ← dig b (i + d); setdig res i x;; right_digits n b res d (i + 1)
  end.

Fixpoint right_bits (n : nat) (b res d l r i last : Z) : eff mpstate Z :=
  match n with
  | O => mret last
  | S n =>
      this ← dig b (i + d + 1);
      setdig res i (Z.lor (u32 (Z.shiftl this l)) (Z.shiftr last r));;
      right_bits n b res d l r (i + 1) this
  end.

(** [right] is [mpright], which a zero or negative shift calls. *)
Definition mpleft_with (right : Z -> Z -> Z -> eff mpstate unit) (b shift res : Z) : eff mpstate unit :=
  i ← geti b;
  sets res (with_sign (mp_sign i));;
  if mp_top i =? 0 then sets res (with_top 0) else
  if shift <=? 0 then right b (- shift) res else
  let otop := mp_top i in
  mpbits res (otop * Dbits + shift);;
  sets res (with_top (DIGITS (otop * Dbits + shift)));;
  let d := Z.quot shift Dbits in
  let l := shift - d * Dbits in
  let r := Dbits - l in
  (if l =? 0 then left_digits (Z.to_nat otop) b res d
   else
     last ← left_bits (Z.to_nat otop) b res d l r 0;
     setdig res d (u32 (Z.shiftl last l)));;
  clear_digits (Z.to_nat d) res 0;;
  i ← geti b;
  sets res (set_flag (Z.land (mp_flags i) MPtimesafe));;
  mpnorm res;;
  mret tt.

(** [left] is [mpleft], which a negative shift calls. *)
Definition mpright_with (left : Z -> Z -> Z -> eff mpstate unit) (b shift res : Z) : eff mpstate unit :=
  i ← geti b;
  sets res (with_sign (mp_sign i));;
  if mp_top i =? 0 then sets res (with_top 0) else
  if shift <? 0 then left b (- shift) res else
  if (res =? b) && (shift =? 0) then mret tt else
  (if negb (res =? b) then mpbits res (mp_top i * Dbits - shift) else mret tt);;
  let d := Z.quot shift Dbits in
  let r := shift - d * Dbits in
  let l := Dbits - r in
  i ← geti b;
  if mp_top i <=? d then sets res (with_sign 1);; sets res (with_top 0) else
  top ← (if r =? 0 then right_digits (Z.to_nat (mp_top i - d)) b res d 0;; mret (mp_top i - d)
         else
           last ← dig b d;
           last ← right_bits (Z.to_nat (mp_top i - d - 1)) b res d l r 0 last;
           setdig res (mp_top i - d - 1) (Z.shiftr last r);;
           mret (mp_top i - d));
  sets res (with_top top);;
  i ← geti b;
  sets res (set_flag (Z.land (mp_flags i) MPtimesafe));;
  mpnorm res;;
  mret tt.

(** Each calls the other at most once. *)
Definition mpleft : Z -> Z -> Z -> eff mpstate unit := mpleft_with (mpright_with (fun _ _ _ => fault)).
Definition mpright : Z -> Z -> Z -> eff mpstate unit := mpright_with (mpleft_with (fun _ _ _ => fault)).

(** * mpmul.c *)

Definition mpmul (b1 b2 prod : Z) : eff mpstate unit :=
  let oprod := prod in
  prod ← (if (prod =? b1) || (prod =? b2) then
            prod ← mpnew 0;
            o ← geti oprod;
            sets prod (with_flags (mp_flags o));;
            mret prod
          else mret prod);
  m1 ← geti b1; m2 ← geti b2;
  sets prod (inherit (mp_flags m1) (mp_flags m2));;
  sets prod (with_top 0);;
  mpbits prod ((mp_top m1 + mp_top m2 + 1) * Dbits);;
  mp ← geti prod;
  (if has mp MPtimesafe then vec (mpvectsmul (mp_p m1, 0) (mp_top m1) (mp_p m2, 0) (mp_top m2) (mp_p mp, 0))
   else vec (mpvecmul (mp_p m1, 0) (mp_top m1) (mp_p m2, 0) (mp_top m2) (mp_p mp, 0)));;
  sets prod (with_top (mp_top m1 + mp_top m2 + 1));;
  sets prod (with_sign (mp_sign m1 * mp_sign m2));;
  mpnorm prod;;
  if negb (oprod =? prod) then mpassign prod oprod;; mpfree prod else mret tt.

(** * mptoi.c, mptoui.c, mptov.c, mptouv.c *)

Definition MAXUINT : Z := 2 ^ 32 - 1.
Definition MAXINT : Z := 2 ^ 31 - 1.
Definition MAXVLONG : Z := 2 ^ 63 - 1.
Definition MINVLONG : Z := 2 ^ 63.
Definition VLDIGITS : Z := 2.
(** [sizeof(mpdigit)] *)
Definition Dbytes : Z := 4.

Definition itomp (i b : Z) : eff mpstate Z :=
  b ← (if b =? nil then mpnew 0 else mret b);
  let sign := Z.lor (Z.shiftr i 31) 1 in
  sets b (with_sign sign);;
  setdig b 0 (u32 (s32 (i * sign)));;
  sets b (with_top 1);;
  mpnorm b.

Definition mptoi (b : Z) : eff mpstate Z :=
  m ← geti b;
  if mp_top m =? 0 then mret 0 else
  x ← dig b 0;
  if 0 <? mp_sign m then mret (if (1 <? mp_top m) || (MAXINT <? x) then MAXINT else s32 x)
  else mret (if (1 <? mp_top m) || (MAXINT + 1 <? x) then s32 (MAXINT + 1) else s32 (- s32 x)).

Definition uitomp (i b : Z) : eff mpstate Z :=
  b ← (if b =? nil then mpnew 0 else mret b);
  setdig b 0 i;;
  sets b (with_top 1);;
  sets b (with_sign 1);;
  mpnorm b.

Definition mptoui (b : Z) : eff mpstate Z :=
  m ← geti b;
  x ← dig b 0;
  mret (if mp_sign m <? 0 then 0 else if 1 <? mp_top m then MAXUINT else x).

(** Two digits of a [uvlong]. *)
Fixpoint put_digits (n : nat) (b s uv : Z) : eff mpstate unit :=
  match n with
  | O => mret tt
  | S n => setdig b s (u32 uv);; put_digits n b (s + 1) (Z.shiftr uv Dbits)
  end.

Definition vtomp (v b : Z) : eff mpstate Z :=
  b ← (if b =? nil then mpnew (VLDIGITS * Dbytes) else mpbits b (VLDIGITS * Dbytes);; mret b);
  let sign := Z.lor (Z.shiftr v 63) 1 in
  sets b (with_sign sign);;
  put_digits (Z.to_nat VLDIGITS) b 0 (u64 (v * sign));;
  sets b (with_top VLDIGITS);;
  mpnorm b.

Definition uvtomp (v b : Z) : eff mpstate Z :=
  b ← (if b =? nil then mpnew (VLDIGITS * Dbytes) else mpbits b (VLDIGITS * Dbytes);; mret b);
  sets b (with_sign 1);;
  put_digits (Z.to_nat VLDIGITS) b 0 v;;
  sets b (with_top VLDIGITS);;
  mpnorm b.

(** [v |= (uvlong)b->p[s]<<(s*32)] *)
Fixpoint get_digits (n : nat) (b s v : Z) : eff mpstate Z :=
  match n with
  | O => mret v
  | S n => x ← dig b s; get_digits n b (s + 1) (Z.lor v (u64 (Z.shiftl x (s * Dbits))))
  end.

Definition mptouv (b : Z) : eff mpstate Z :=
  m ← geti b;
  if mp_top m =? 0 then mret 0 else
  if VLDIGITS <? mp_top m then mret MAXVLONG else
  get_digits (Z.to_nat (mp_top m)) b 0 0.

(** The shift of a 32-bit digit by 32 or more is undefined. *)
Fixpoint get_digits32 (n : nat) (b s v : Z) : eff mpstate Z :=
  match n with
  | O => mret v
  | S n =>
      x ← dig b s;
      if Dbits <=? s * Dbits then fault
      else get_digits32 n b (s + 1) (Z.lor v (u32 (Z.shiftl x (s * Dbits))))
  end.

Definition mptov (b : Z) : eff mpstate Z :=
  m ← geti b;
  if mp_top m =? 0 then mret 0 else
  if VLDIGITS <? mp_top m then mret (if 0 <? mp_sign m then MAXVLONG else s64 MINVLONG) else
  v ← get_digits32 (Z.to_nat (mp_top m)) b 0 0;
  mret (s64 (if 0 <? mp_sign m then (if MAXVLONG <? v then MAXVLONG else v)
             else if MINVLONG <? v then MINVLONG else u64 (- s64 v))).

(** * mpdiv.c *)

(** Zeros below the lowest set bit of a digit, and above the highest. *)
Fixpoint low_zeros (n : nat) (d s : Z) : Z :=
  match n with
  | O => s
  | S n => if Z.land (Z.shiftr d s) 1 =? 0 then low_zeros n d (s + 1) else s
  end.

Definition mpdighi : Z := 2 ^ 31.

Fixpoint high_zeros (n : nat) (qd s : Z) : Z :=
  match n with
  | O => s
  | S n => if Z.land qd mpdighi =? 0 then high_zeros n (u32 (Z.shiftl qd 1)) (s + 1) else s
  end.

(** D3a: [vp] and [up] are the highest digits; [fuel]: [div_trial_run] shows that
    three rounds are enough. *)
Fixpoint div_trial (fuel : nat) (t vp up : dptr) (qd : Z) : eff Heap Z :=
  match fuel with
  | O => fault
  | S fuel =>
      memzero t 3;;
      mpvecdigmuladd (vp +d -1) 2 qd t;;
      c ← mpveccmp t 3 (up +d -2) 3;
      if 0 <? c then div_trial fuel t vp up (u32 (qd - 1)) else mret qd
  end.

(** D3 to D5: one digit of the quotient. *)
Definition div_digit (t vp : dptr) (vn : Z) (up : dptr) : eff Heap Z :=
  v ← rd vp;
  qd ← mpdigdiv (up +d -1) v;
  qd ← (if 1 <? vn then div_trial 3 t vp up qd else mret qd);
  sign ← mpvecdigmulsub (vp +d (1 - vn)) vn qd (up +d - vn);
  if sign <? 0 then
    mpvecadd (up +d - vn) (vn + 1) (vp +d (1 - vn)) vn (up +d - vn);;
    mret (u32 (qd - 1))
  else mret qd.

(** D2, D7: [n] digits are left; [qp] is the next digit of the quotient. *)
Fixpoint div_loop (n : nat) (t vp : dptr) (vn u : Z) (up : dptr) (quotient : Z) (qp : dptr) : eff mpstate unit :=
  match n with
  | O => mret tt
  | S n =>
      qd ← vec (div_digit t vp vn up);
      (if negb (quotient =? nil) then vec (wr qp qd) else mret tt);;
      sets u (fun m => with_top (mp_top m - 1) m);;
      vec (wr up 0);;
      div_loop n t vp vn u (up +d -1) quotient (qp +d -1)
  end.

(** Division by one or a small power of two, the divisor's digit [v0]. *)
Definition div_pow2 (dividend v0 quotient remainder : Z) : eff mpstate unit :=
  md ← geti dividend;
  d0 ← dig dividend 0;
  let r := mp_sign md * Z.land d0 (u32 (v0 - 1)) in
  (if negb (quotient =? nil) then mpright dividend (low_zeros (Z.to_nat Dbits) v0 0) quotient else mret tt);;
  if negb (remainder =? nil) then
    md ← geti dividend;
    sets remainder (set_flag (Z.land (mp_flags md) MPtimesafe));;
    vtomp r remainder;;
    mret tt
  else mret tt.

(** D1: the dividend and the divisor, shifted by [s]. *)
Definition div_operands (dividend divisor quotient remainder s : Z) : eff mpstate (Z * Z) :=
  md ← geti dividend;
  u ← mpnew ((mp_top md + 2) * Dbits + s);
  if (s =? 0) && negb (divisor =? quotient) && negb (divisor =? remainder) then
    mpassign dividend u;;
    mret (u, divisor)
  else
    mpleft dividend s u;;
    mv ← geti divisor;
    v ← mpnew (mp_top mv * Dbits);
    mpleft divisor s v;;
    mret (u, v).

(** D1a: the high digit of the dividend is made less than that of the divisor. *)
Definition div_push (u : Z) (up vp : dptr) : eff mpstate dptr :=
  x ← vec (rd up); y ← vec (rd vp);
  if y <=? x then
    vec (wr (up +d 1) 0);;
    sets u (fun m => with_top (mp_top m + 1) m);;
    mret (up +d 1)
  else mret up.

(** The place of the first digit of the quotient. *)
Definition div_quotient (u vn quotient : Z) : eff mpstate dptr :=
  if negb (quotient =? nil) then
    mu ← geti u;
    mpbits quotient ((mp_top mu - vn) * Dbits);;
    sets quotient (with_top (mp_top mu - vn));;
    mq ← geti quotient;
    mret (mp_p mq, mp_top mq - 1)
  else mret (nil, 0).

Definition div_sign (dividend divisor quotient : Z) : eff mpstate unit :=
  if negb (quotient =? nil) then
    mq ← geti quotient;
    assertb (negb (has mq MPtimesafe));;
    mpnorm quotient;;
    md ← geti dividend; mv ← geti divisor;
    if negb (mp_sign md =? mp_sign mv) then sets quotient (with_sign (-1)) else mret tt
  else mret tt.

Definition div_remainder (dividend u s remainder : Z) : eff mpstate unit :=
  if negb (remainder =? nil) then
    mr ← geti remainder;
    assertb (negb (has mr MPtimesafe));;
    mpright u s remainder;;
    md ← geti dividend;
    sets remainder (with_sign (mp_sign md))
  else mret tt.

(** The general case, from D1 on. *)
Definition div_long (dividend divisor quotient remainder : Z) : eff mpstate unit :=
  mv ← geti divisor;
  qd ← dig divisor (mp_top mv - 1);
  let s := high_zeros (Z.to_nat Dbits) qd 0 in
  '(u, v) ← div_operands dividend divisor quotient remainder s;
  mu ← geti u; mv ← geti v;
  let vp : dptr := (mp_p mv, mp_top mv - 1) in
  let vn := mp_top mv in
  up ← div_push u (mp_p mu, mp_top mu - 1) vp;
  t ← mpnew (4 * Dbits);
  qp ← div_quotient u vn quotient;
  mt ← geti t; mu ← geti u;
  div_loop (Z.to_nat (mp_top mu - vn)) (mp_p mt, 0) vp vn u up quotient qp;;
  div_sign dividend divisor quotient;;
  div_remainder dividend u s remainder;;
  mpfree t;;
  mpfree u;;
  if negb (v =? divisor) then mpfree v else mret tt.

Definition mpdiv (dividend divisor quotient remainder : Z) : eff mpstate unit :=
  assertb (negb (quotient =? remainder));;
  mv ← geti divisor;
  assertb (has mv MPnorm);;
  if mp_top mv =? 0 then abort else
  v0 ← dig divisor 0;
  if (mp_top mv =? 1) && (Z.land v0 (u32 (v0 - 1)) =? 0) then div_pow2 dividend v0 quotient remainder else
  md ← geti dividend;
  assertb (negb (has md MPtimesafe));;
  c ← mpmagcmp dividend divisor;
  if c <? 0 then
    (if negb (remainder =? nil) then mpassign dividend remainder else mret tt);;
    (if negb (quotient =? nil) then mpassign mpzero quotient else mret tt)
  else div_long dividend divisor quotient remainder.

(** * mpmod.c *)

(** The reduction of a field modulus is a function pointer in the structure
    ([Mfield]); [reduce n x r] is its call and answers 0 when it has put [x mod n]
    into [r]. *)
Section Reduce.
Context (reduce : Z -> Z -> Z -> eff mpstate Z).

Definition mpmod (x n r : Z) : eff mpstate unit :=
  mx ← geti x;
  let sign := mp_sign mx in
  ns ← (if (sign <? 0) && (n =? r) then mpcopy n else mret n);
  mn ← geti n;
  (if has mn MPfield then
     c ← reduce n x r;
     if negb (c =? 0) then mpdiv x n nil r else mret tt
   else mpdiv x n nil r);;
  if sign <? 0 then
    mpmagsub ns r r;;
    if negb (ns =? n) then mpfree ns else mret tt
  else mret tt.

End Reduce.
