(* ===== verification/MpState.v ===== *)
(** The states of the integers: the invariant, what an operation on one integer
    leaves of the others, and the primitive operations. *)

From S2P Require Import Prelude Eff MpVec MpHeap MpVecThm MpCmp MpMul MpVecMul MpKaratsuba MpInt.

(** * Flags *)

Lemma has_bit m k : 0 <= k -> has m (2 ^ k) = Z.testbit (mp_flags m) k.
Proof.
  intros Hk. unfold has. rewrite <- (Z.mul_1_l (2 ^ k)), <- Z.shiftl_mul_pow2 by done.
  destruct (Z.testbit (mp_flags m) k) eqn:E.
  - apply negb_true_iff, Z.eqb_neq. intros H. apply (f_equal (fun z => Z.testbit z k)) in H.
    rewrite Z.land_spec, Z.bits_0, E, Z.shiftl_spec, Z.sub_diag in H by done. done.
  - apply negb_false_iff, Z.eqb_eq. apply Z.bits_inj'. intros i Hi. rewrite Z.land_spec, Z.bits_0, Z.shiftl_spec by done.
    destruct (Z.eq_dec i k) as [->|Hne]; [by rewrite E|]. replace (Z.testbit 1 (i - k)) with false; [by rewrite andb_false_r|].
    symmetry. destruct (Z.ltb_spec i k); [by rewrite Z.testbit_neg_r by lia|]. apply Z.bits_above_log2; [done|simpl; lia].
Qed.

Definition mpflag (f : Z) : Prop := f = MPstatic \/ f = MPnorm \/ f = MPtimesafe \/ f = MPfield.
Lemma mpflag_static : mpflag MPstatic. Proof. by left. Qed.
Lemma mpflag_norm : mpflag MPnorm. Proof. by right; left. Qed.
Lemma mpflag_timesafe : mpflag MPtimesafe. Proof. by right; right; left. Qed.
#[export] Hint Resolve mpflag_static mpflag_norm mpflag_timesafe : mp.

Lemma has_set m f g : mpflag f -> has (set_flag g m) f = has m f || negb (Z.land g f =? 0).
Proof.
  intros Hf. unfold has, set_flag. simpl. rewrite Z.land_lor_distr_l. destruct (Z.eqb_spec (Z.land g f) 0) as [->|Hg].
  - by rewrite Z.lor_0_r, orb_false_r.
  - rewrite orb_true_r. destruct (Z.eqb_spec (Z.lor (Z.land (mp_flags m) f) (Z.land g f)) 0) as [E|]; [|done].
    apply Z.lor_eq_0_iff in E. lia.
Qed.

Lemma has_clear m f g : mpflag f -> has (clear_flag g m) f = has m f && (Z.land g f =? 0).
Proof.
  intros Hf. unfold has, clear_flag. simpl.
  assert (Hbit : forall z, negb (Z.land z f =? 0) = Z.testbit z (Z.log2 f)).
  { intros z. pose proof (has_bit (Mp 0 0 0 0 z) (Z.log2 f) (Z.log2_nonneg f)) as E. unfold has in E. simpl in E.
    replace (2 ^ Z.log2 f) with f in E by (by destruct Hf as [->|[->|[->| ->]]]). done. }
  rewrite !Hbit, Z.ldiff_spec. f_equal. rewrite <- (negb_involutive (Z.land g f =? 0)), Hbit. done.
Qed.

(** * The invariant *)

Record good (s : mpstate) (b : Z) (m : mpint) : Prop := {
  g_nonnil : b <> nil;
  g_sign : mp_sign m = 1 \/ mp_sign m = -1;
  g_top : 0 <= mp_top m <= mp_size m;
  g_vec : exists l, digs s !! mp_p m = Some l /\ Zlen l = mp_size m /\ digits l;
  g_inline : 0 < b -> is_Some (digs s !! b);
  g_apart : mp_p m = b \/ ints s !! mp_p m = None;
  g_static : has m MPstatic = (b <? 0);
  g_plain : has m MPtimesafe = false;
}.

Record wf (s : mpstate) : Prop := {
  wf_good : forall b m, ints s !! b = Some m -> good s b m;
  wf_inj : forall b c m n, ints s !! b = Some m -> ints s !! c = Some n -> mp_p m = mp_p n -> b = c;
  wf_zero : exists l, ints s !! mpzero = Some (Mp 1 1 0 (-4) 3) /\ digs s !! (-4) = Some l;
  wf_one : ints s !! mpone = Some (Mp 1 1 1 (-5) 3) /\ digs s !! (-5) = Some [1];
  wf_min : 1 <= mpmindigits s;
}.

(** [b] holds the integer [x], normalised. *)
Definition Num (s : mpstate) (b x : Z) : Prop :=
  exists m l, ints s !! b = Some m /\ arr (digs s) (mp_p m, 0) l /\ digits l /\ Zlen l = mp_top m /\
  has m MPnorm = true /\ (l = [] -> mp_sign m = 1) /\ (l <> [] -> last l <> Some 0) /\ x = mp_sign m * val l.

(** The first digits of [b]. *)
Definition Vec (s : mpstate) (b : Z) (l : list Z) : Prop :=
  exists m, ints s !! b = Some m /\ arr (digs s) (mp_p m, 0) l.

(** Nothing but [b] changes. *)
Record frame (b : Z) (s s' : mpstate) : Prop := {
  f_ints : forall c, c <> b -> ints s' !! c = ints s !! c;
  f_digs : forall c m, c <> b -> ints s !! c = Some m -> digs s' !! mp_p m = digs s !! mp_p m;
  f_min : mpmindigits s' = mpmindigits s;
}.

Lemma frame_refl b s : frame b s s.
Proof. by split. Qed.

Lemma frame_trans b s1 s2 s3 : frame b s1 s2 -> frame b s2 s3 -> frame b s1 s3.
Proof.
  intros [I1 D1 M1] [I2 D2 M2]. split.
  - intros c Hc. by rewrite I2, I1.
  - intros c m Hc Hm. rewrite (D2 c m Hc) by (by rewrite I1). by apply (D1 c).
  - by rewrite M2.
Qed.

Lemma arr_same h h' p l : h' !! p.1 = h !! p.1 -> arr h p l -> arr h' p l.
Proof. intros E (v & Hv & H). exists v. by rewrite E. Qed.

Lemma frame_vec b s s' c l : frame b s s' -> c <> b -> Vec s c l -> Vec s' c l.
Proof.
  intros F Hc (m & Hm & Ha). exists m. split; [by rewrite (f_ints _ _ _ F)|]. eapply arr_same; [|exact Ha]. by apply (f_digs _ _ _ F c).
Qed.

Lemma frame_num b s s' c x : frame b s s' -> c <> b -> Num s c x -> Num s' c x.
Proof.
  intros F Hc (m & l & Hm & Ha & H). exists m, l. split; [by rewrite (f_ints _ _ _ F)|]. split; [|done].
  eapply arr_same; [|exact Ha]. by apply (f_digs _ _ _ F c).
Qed.

Lemma geti_run s b m : ints s !! b = Some m -> geti b s = Ok (m, s).
Proof. apply deref_run. Qed.

(** What the invariant says of the digits of an integer. *)
Lemma wf_arr s b m : wf s -> ints s !! b = Some m ->
  exists l, digs s !! mp_p m = Some l /\ Zlen l = mp_size m /\ digits l /\ arr (digs s) (mp_p m, 0) l.
Proof.
  intros W Hm. destruct (g_vec _ _ _ (wf_good _ W _ _ Hm)) as (l & Hl & Hz & Hd). exists l. split_and!; [done|done|done|].
  exists l. simpl. split_and!; [done|done|lia|]. by rewrite drop_0, take_ge.
Qed.

(** ** Writing a member of the structure *)

Definition put (s : mpstate) (b : Z) (m : mpint) : mpstate := MpS (<[b := m]> (ints s)) (digs s) (mpmindigits s).

Lemma sets_run s b f m : ints s !! b = Some m -> sets b f s = Ok (tt, put s b (f m)).
Proof. intros H. unfold sets. by rewrite (eff_bind_ok _ _ _ _ _ (geti_run _ _ _ H)). Qed.

Lemma put_lookup s b m : ints (put s b m) !! b = Some m.
Proof. apply lookup_insert_eq. Qed.

Lemma put_put s b m n : put (put s b m) b n = put s b n.
Proof. unfold put. simpl. by rewrite insert_insert_eq. Qed.

(** The new structure keeps its digits. *)
Definition same_vec (m n : mpint) : Prop := mp_p n = mp_p m /\ mp_size n = mp_size m.
Definition sound (b : Z) (m : mpint) : Prop :=
  (mp_sign m = 1 \/ mp_sign m = -1) /\ 0 <= mp_top m <= mp_size m /\ has m MPstatic = (b <? 0) /\ has m MPtimesafe = false.

Lemma good_sound s b m : good s b m -> sound b m.
Proof. intros [G1 G2 G3 G4 G5 G6 G7 G8]. unfold sound. tauto. Qed.

Lemma put_wf s b m n : wf s -> 0 < b -> ints s !! b = Some m -> same_vec m n -> sound b n -> wf (put s b n) /\ frame b s (put s b n).
Proof.
  intros W Hb Hm [Hp Hs] (S1 & S2 & S3 & S4). split; [split|split].
  - intros c k Hc. unfold put in Hc. simpl in Hc. destruct (decide (c = b)) as [->|Hne].
    + rewrite lookup_insert_eq in Hc. injection Hc as <-. destruct (wf_good _ W _ _ Hm) as [G1 G2 G3 G4 G5 G6 G7 G8].
      split; try done.
      * destruct G4 as (l & Hl & Hz & Hd). exists l. simpl. rewrite Hp, Hs. done.
      * simpl. rewrite Hp. destruct (decide (mp_p m = b)); [by left|]. destruct G6 as [?|G6]; [done|]. right. by rewrite lookup_insert_ne.
    + rewrite lookup_insert_ne in Hc by done. destruct (wf_good _ W _ _ Hc) as [G1 G2 G3 G4 G5 G6 G7 G8]. split; try done.
      destruct G6 as [?|G6]; [by left|]. right. simpl. rewrite lookup_insert_ne; [done|]. intros E. congruence.
  - intros c d k k' Hc Hd. unfold put in *. simpl in *. pose proof (wf_inj _ W) as Hinj.
    intros E. destruct (decide (c = b)) as [->|Hcb], (decide (d = b)) as [->|Hdb]; [done| | |].
    + rewrite lookup_insert_eq in Hc. rewrite lookup_insert_ne in Hd by done. injection Hc as <-. rewrite Hp in E. by apply (Hinj _ _ _ _ Hm Hd).
    + rewrite lookup_insert_ne in Hc by done. rewrite lookup_insert_eq in Hd. injection Hd as <-. rewrite Hp in E. by apply (Hinj _ _ _ _ Hc Hm).
    + rewrite lookup_insert_ne in Hc, Hd by done. by apply (Hinj _ _ _ _ Hc Hd).
  - simpl. rewrite lookup_insert_ne by (unfold mpzero; lia). apply W.
  - simpl. rewrite lookup_insert_ne by (unfold mpone; lia). apply W.
  - apply W.
  - intros c Hc. simpl. by rewrite lookup_insert_ne.
  - done.
  - done.
Qed.

Lemma put_vec s b m n c l : ints s !! b = Some m -> same_vec m n -> Vec s c l -> Vec (put s b n) c l.
Proof.
  intros Hm [Hp _] (k & Hk & Ha). unfold Vec, put. simpl. destruct (decide (c = b)) as [->|Hne].
  - rewrite Hm in Hk. injection Hk as <-. exists n. rewrite lookup_insert_eq, Hp. done.
  - exists k. by rewrite lookup_insert_ne.
Qed.

(** ** Writing digits *)

Definition store (s : mpstate) (h : Heap) : mpstate := MpS (ints s) h (mpmindigits s).

Lemma vec_run {A} (c : eff Heap A) s x h : c (digs s) = Ok (x, h) -> vec c s = Ok (x, store s h).
Proof. intros H. unfold vec. by rewrite H. Qed.

Lemma vec_read {A} (c : eff Heap A) s x : c (digs s) = Ok (x, digs s) -> vec c s = Ok (x, s).
Proof. intros H. rewrite (vec_run _ _ _ _ H). by destruct s. Qed.

Lemma store_wf s b m i k l : wf s -> 0 < b -> ints s !! b = Some m -> digs s !! mp_p m = Some l ->
  0 <= i -> i + Zlen k <= mp_size m -> digits k ->
  let h := upd (digs s) (mp_p m, i) k in wf (store s h) /\ frame b s (store s h) /\
  h !! mp_p m = Some (take (Z.to_nat i) l ++ k ++ drop (Z.to_nat i + length k) l).
Proof.
  intros W Hb Hm Hl Hi Hk Hdk h. destruct (wf_good _ W _ _ Hm) as [G1 G2 G3 (l' & Hl' & Hz & Hd) G5 G6 G7 G8].
  rewrite Hl in Hl'. injection Hl' as <-.
  assert (Eh : h !! mp_p m = Some (take (Z.to_nat i) l ++ k ++ drop (Z.to_nat i + length k) l)) by (apply (upd_lookup (digs s) (mp_p m, i)); done).
  assert (En : forall q, q <> mp_p m -> h !! q = digs s !! q) by (intros q Hq; by apply (upd_lookup_ne (digs s) (mp_p m, i))).
  assert (Hsome : forall q, is_Some (digs s !! q) -> is_Some (h !! q)).
  { intros q Hq. destruct (decide (q = mp_p m)) as [->|Hne]; [rewrite Eh; eauto|by rewrite En]. }
  assert (Hother : forall c n, c <> b -> ints s !! c = Some n -> mp_p n <> mp_p m).
  { intros c n Hc Hn E. apply Hc. by apply (wf_inj _ W _ _ _ _ Hn Hm). }
  split; [split|split; [split|]]; try done.
  - intros c n Hn. simpl in Hn. destruct (wf_good _ W _ _ Hn) as [C1 C2 C3 C4 C5 C6 C7 C8]. split; try done.
    + destruct (decide (c = b)) as [->|Hne].
      * rewrite Hm in Hn. injection Hn as <-. eexists. split; [exact Eh|]. unfold Zlen in *. rewrite upd_len by lia || done.
        split; [done|]. apply digits_app. split; [by apply digits_take|]. apply digits_app. split; [done|by apply digits_drop].
      * simpl. rewrite En by (by eapply Hother). done.
    + intros Hc. simpl. apply Hsome. by apply C5.
  - apply W.
  - simpl. destruct (wf_zero _ W) as (l0 & Hz0 & Hd0). exists l0. split; [done|]. rewrite En; [done|]. apply (Hother mpzero (Mp 1 1 0 (-4) 3)); [unfold mpzero; lia|done].
  - simpl. destruct (wf_one _ W) as (Hz0 & Hd0). split; [done|]. rewrite En; [done|]. apply (Hother mpone (Mp 1 1 1 (-5) 3)); [unfold mpone; lia|done].
  - apply W.
  - intros c n Hc Hn. simpl. apply En. by eapply Hother.
Qed.

(** ** Blocks *)

Lemma new_block_pos h : 0 < new_block h.
Proof.
  assert (H : 0 <= map_fold (fun k (_ : list Z) m => Z.max k m) 0 h); [|unfold new_block; lia].
  induction h as [|i x m Hi Hfirst IH] using map_first_key_ind; [by rewrite map_fold_empty|].
  rewrite map_fold_insert_first_key by done. lia.
Qed.

Lemma fresh_int s t : wf s -> 0 < t -> digs s !! t = None -> ints s !! t = None.
Proof.
  intros W Ht Hd. destruct (ints s !! t) as [m|] eqn:E; [|done].
  destruct (g_inline _ _ _ (wf_good _ W _ _ E) Ht) as [l Hl]. congruence.
Qed.

Lemma other_block s b c m n : wf s -> ints s !! b = Some m -> ints s !! c = Some n -> c <> b -> mp_p n <> mp_p m.
Proof. intros W Hm Hn Hc E. apply Hc. by apply (wf_inj _ W _ _ _ _ Hn Hm). Qed.

Lemma block_live s b m : wf s -> ints s !! b = Some m -> is_Some (digs s !! mp_p m).
Proof. intros W Hm. destruct (g_vec _ _ _ (wf_good _ W _ _ Hm)) as (l & Hl & _). eauto. Qed.

(** The digits of [b] move to a new block. *)
Lemma move_wf s b m t n v h : wf s -> 0 < b -> ints s !! b = Some m -> 0 < t -> digs s !! t = None ->
  h !! t = Some v -> Zlen v = n -> digits v -> mp_top m <= n ->
  (forall c k, c <> b -> ints s !! c = Some k -> h !! mp_p k = digs s !! mp_p k) ->
  (forall c k, 0 < c -> ints s !! c = Some k -> is_Some (h !! c)) ->
  let s' := MpS (<[b := with_vec t n m]> (ints s)) h (mpmindigits s) in wf s' /\ frame b s s'.
Proof.
  intros W Hb Hm Ht Hfresh Hv Hz Hd Htop Hother Hin s'.
  pose proof (fresh_int _ _ W Ht Hfresh) as Hit. assert (Htb : t <> b) by congruence.
  assert (Hpt : forall c k, ints s !! c = Some k -> mp_p k <> t).
  { intros c k Hk E. destruct (block_live _ _ _ W Hk) as [l Hl]. congruence. }
  assert (Hold : forall c k, c <> b -> ints s !! c = Some k -> good s' c k).
  { intros c k Hne Hk. destruct (wf_good _ W _ _ Hk) as [G1 G2 G3 G4 G5 G6 G7 G8]. split; try done.
    - simpl. rewrite (Hother c k) by done. done.
    - intros Hc. by apply (Hin c k).
    - destruct G6 as [?|G6]; [by left|]. right. simpl. rewrite lookup_insert_ne; [done|]. intros E. congruence. }
  split; [split|split]; simpl; try done.
  - intros c k Hk. destruct (decide (c = b)) as [->|Hne].
    + rewrite lookup_insert_eq in Hk. injection Hk as <-. destruct (wf_good _ W _ _ Hm) as [G1 G2 G3 G4 G5 G6 G7 G8]. split; try done.
      * simpl. lia.
      * exists v. done.
      * intros Hc. by apply (Hin b m).
      * right. simpl. by rewrite lookup_insert_ne.
    + rewrite lookup_insert_ne in Hk by done. by apply Hold.
  - intros c d k k' Hc Hd' E. destruct (decide (c = b)) as [->|Hcb], (decide (d = b)) as [->|Hdb]; [done| | |].
    + rewrite lookup_insert_eq in Hc. rewrite lookup_insert_ne in Hd' by done. injection Hc as <-. simpl in E. exfalso. by apply (Hpt d k').
    + rewrite lookup_insert_ne in Hc by done. rewrite lookup_insert_eq in Hd'. injection Hd' as <-. simpl in E. exfalso. by apply (Hpt c k).
    + rewrite lookup_insert_ne in Hc, Hd' by done. by apply (wf_inj _ W _ _ _ _ Hc Hd').
  - destruct (wf_zero _ W) as (l & Hz0 & Hl). exists l. rewrite lookup_insert_ne by (unfold mpzero; lia). split; [done|].
    pose proof (Hother mpzero (Mp 1 1 0 (-4) 3) ltac:(unfold mpzero; lia) Hz0) as E. simpl in E. by rewrite E.
  - destruct (wf_one _ W) as (Hz0 & Hl). rewrite lookup_insert_ne by (unfold mpone; lia). split; [done|].
    pose proof (Hother mpone (Mp 1 1 1 (-5) 3) ltac:(unfold mpone; lia) Hz0) as E. simpl in E. by rewrite E.
  - apply W.
  - intros c Hc. by rewrite lookup_insert_ne.
Qed.

Lemma arr_iff h q l v : h !! q = Some l -> arr h (q, 0) v <-> Zlen v <= Zlen l /\ take (length v) l = v.
Proof.
  intros Hl. split.
  - intros (k & Hk & _ & Hle & Ht). simpl in *. rewrite Hl in Hk. injection Hk as <-. rewrite drop_0 in Ht. split; [lia|done].
  - intros [Hle Ht]. exists l. simpl. rewrite drop_0. split_and!; [done|done|lia|done].
Qed.

Lemma vec_iff s b m l v : ints s !! b = Some m -> digs s !! mp_p m = Some l -> Vec s b v <-> Zlen v <= Zlen l /\ take (length v) l = v.
Proof.
  intros Hm Hl. rewrite <- (arr_iff (digs s) (mp_p m) l v Hl). unfold Vec. split; [|eauto].
  intros (k & Hk & Ha). rewrite Hm in Hk. by injection Hk as <-.
Qed.

(** ** mpbits *)

Lemma grow_run s b m n : wf s -> 0 < b -> ints s !! b = Some m ->
  exists s' p k, grow b n s = Ok (tt, s') /\ wf s' /\ frame b s s' /\ ints s' !! b = Some (with_vec p k m) /\ n <= k /\
  (k = mp_size m \/ mp_size m < n) /\
  forall v, Vec s b v -> Zlen v <= mp_top m -> Vec s' b v.
Proof.
  intros W Hb Hm. unfold grow. rewrite (eff_bind_ok _ _ _ _ _ (geti_run _ _ _ Hm)).
  destruct (Z.leb_spec n (mp_size m)) as [Hle|Hgt].
  { exists s, (mp_p m), (mp_size m). split_and!; [done|done|apply frame_refl|by destruct m|done|by left|done]. }
  pose proof (wf_good _ W _ _ Hm) as [G1 G2 G3 G4 G5 G6 G7 G8].
  destruct (wf_arr _ _ _ W Hm) as (l & Hl & Hz & Hd & Ha).
  pose proof (new_block_fresh (digs s)) as Hfresh. pose proof (new_block_pos (digs s)) as Hpos.
  destruct (Z.eqb_spec (mp_p m) b) as [Ep|Ep].
  - rewrite (eff_bind_ok _ _ _ _ _ (vec_run _ _ _ _ (mallocz_run n (digs s)))).
    set (t := new_block (digs s)) in *. clearbody t. set (h1 := <[t := _]> (digs s)).
    assert (Htb : t <> b) by (rewrite <- Ep; congruence).
    set (l1 := take (Z.to_nat (mp_top m)) l).
    assert (Hz1 : Zlen l1 = mp_top m) by (unfold l1; rewrite Zlen_take; unfold Zlen in *; lia).
    assert (E1 : arr h1 (b, 0) l1).
    { unfold l1. apply arr_take. eapply arr_same; [|rewrite <- Ep; exact Ha]. simpl. unfold h1. by rewrite lookup_insert_ne. }
    assert (Hr1 : room h1 (t, 0) (Zlen l1)).
    { exists (replicate (Z.to_nat n) 0). unfold h1. simpl. rewrite lookup_insert_eq, Zlen_zeros by lia. split_and!; [done|done|lia]. }
    pose proof (memmoved_run h1 (t, 0) (b, 0) l1 E1 Hr1) as E2. rewrite Hz1 in E2.
    rewrite (eff_bind_ok _ _ _ _ _ (vec_run _ (store s h1) _ _ E2)). set (h2 := upd h1 (t, 0) l1).
    assert (Hb2 : h2 !! b = Some l).
    { unfold h2. rewrite upd_lookup_ne by (simpl; congruence). unfold h1. rewrite lookup_insert_ne by done. by rewrite <- Ep. }
    assert (Hr2 : room h2 (b, 0) (mp_size m)) by (exists l; simpl; split_and!; [done|done|lia]).
    pose proof (memzero_run h2 (b, 0) (mp_size m) ltac:(lia) Hr2) as E3.
    rewrite (eff_bind_ok _ _ _ _ _ (vec_run _ (store (store s h1) h2) _ _ E3)). set (h3 := upd h2 (b, 0) _).
    change (store (store (store s h1) h2) h3) with (store s h3). rewrite (sets_run (store s h3) b _ m) by done.
    assert (Ht3 : h3 !! t = Some (l1 ++ replicate (Z.to_nat n - length l1) 0)).
    { unfold h3. rewrite upd_lookup_ne by (simpl; done). pose proof (upd_lookup h1 (t, 0) l1 (replicate (Z.to_nat n) 0)) as E. simpl in E.
      unfold h2. rewrite E by apply lookup_insert_eq. f_equal. by rewrite drop_replicate. }
    assert (Hdv : digits (l1 ++ replicate (Z.to_nat n - length l1) 0)) by (apply digits_app; split; [by apply digits_take|apply digits_zero]).
    assert (Hzv : Zlen (l1 ++ replicate (Z.to_nat n - length l1) 0) = n) by (unfold Zlen in *; rewrite length_app, length_replicate; lia).
    destruct (move_wf s b m t n _ h3 W Hb Hm Hpos Hfresh Ht3 Hzv Hdv ltac:(lia)) as [W' F'].
    { intros c k Hc Hk. pose proof (other_block _ _ _ _ _ W Hm Hk Hc) as Hne. unfold h3. rewrite upd_lookup_ne by (simpl; congruence).
      destruct (block_live _ _ _ W Hk) as [x Hx]. unfold h2. rewrite upd_lookup_ne by (simpl; congruence).
      unfold h1. by rewrite lookup_insert_ne by congruence. }
    { intros c k Hc Hk. destruct (decide (c = b)) as [->|Hcb].
      - unfold h3. rewrite (upd_lookup h2 (b, 0) _ l) by done. eauto.
      - unfold h3. rewrite upd_lookup_ne by done. destruct (g_inline _ _ _ (wf_good _ W _ _ Hk) Hc) as [x Hx].
        unfold h2. rewrite upd_lookup_ne by (simpl; congruence). unfold h1. rewrite lookup_insert_ne by congruence. eauto. }
    eexists _, t, n. split; [done|]. split; [exact W'|]. split; [exact F'|]. split; [apply lookup_insert_eq|]. split; [lia|]. split; [by right|].
    intros v Hv Hlen. apply (vec_iff s b m l v Hm Hl) in Hv as [Hv1 Hv2].
    eapply vec_iff; [apply lookup_insert_eq|exact Ht3|]. split; [unfold Zlen in *; lia|].
    rewrite take_app_le by (unfold Zlen in *; lia). unfold l1. rewrite take_take, Nat.min_l by (unfold Zlen in *; lia). done.
  - destruct G6 as [?|Hip]; [done|].
    set (t := new_block (digs s)) in *. set (v := resize (Z.to_nat n) 0 l). set (h := delete (mp_p m) (<[t := v]> (digs s))).
    assert (Htp : t <> mp_p m) by congruence.
    assert (E : vec (realloc (mp_p m) n) s = Ok (t, store s h)).
    { apply vec_run. unfold realloc. rewrite (eff_bind_ok _ _ _ _ _ (deref_run id _ _ _ Hl)), (eff_bind_ok _ _ _ _ _ (mallocz_run n (digs s))).
      fold t. cbv beta iota delta [mbind eff_bind mret eff_ret modify free]. unfold h, v. by rewrite insert_insert_eq. }
    rewrite (eff_bind_ok _ _ _ _ _ E). rewrite (sets_run (store s h) b _ m) by done. clearbody t.
    assert (Ht : h !! t = Some v) by (unfold h; rewrite lookup_delete_ne by done; apply lookup_insert_eq).
    assert (Hzv : Zlen v = n) by (unfold v, Zlen; rewrite length_resize; lia).
    assert (Hdv : digits v).
    { unfold v. rewrite resize_ge by (unfold Zlen in *; lia). apply digits_app. split; [done|apply digits_zero]. }
    destruct (move_wf s b m t n v h W Hb Hm Hpos Hfresh Ht Hzv Hdv ltac:(lia)) as [W' F'].
    { intros c k Hc Hk. pose proof (other_block _ _ _ _ _ W Hm Hk Hc) as Hne. destruct (block_live _ _ _ W Hk) as [x Hx].
      unfold h. rewrite lookup_delete_ne by done. rewrite lookup_insert_ne; [done|]. congruence. }
    { intros c k Hc Hk. destruct (g_inline _ _ _ (wf_good _ W _ _ Hk) Hc) as [x Hx].
      unfold h. rewrite lookup_delete_ne by congruence. rewrite lookup_insert_ne by congruence. eauto. }
    eexists _, t, n. split; [done|]. split; [exact W'|]. split; [exact F'|]. split; [apply lookup_insert_eq|]. split; [lia|]. split; [by right|].
    intros w Hw Hlen. apply (vec_iff s b m l w Hm Hl) in Hw as [Hw1 Hw2].
    eapply vec_iff; [apply lookup_insert_eq|exact Ht|]. split; [unfold Zlen in *; lia|].
    unfold v. rewrite resize_ge by (unfold Zlen in *; lia). rewrite take_app_le by (unfold Zlen in *; lia). done.
Qed.

(** How [mpbits] leaves its integer: [n] digits at least, the digits that were
    there, zeros above. *)
Record sized (s s' : mpstate) (b n : Z) (m m' : mpint) : Prop := {
  sz_int : ints s' !! b = Some m';
  sz_sign : mp_sign m' = mp_sign m;
  sz_size : n <= mp_size m';
  sz_top : mp_top m' = Z.max n (mp_top m);
  sz_vec : forall v, Vec s b v -> Zlen v <= mp_top m -> Vec s' b v;
  sz_zeros : forall v, Vec s b v -> Zlen v = mp_top m -> Vec s' b (v ++ replicate (Z.to_nat (n - mp_top m)) 0);
  sz_flags : mp_flags m' = mp_flags m \/ mp_flags m' = Z.ldiff (mp_flags m) MPnorm;
}.

Lemma mpbits_run s b bits m : wf s -> 0 < b -> ints s !! b = Some m ->
  exists s' m', mpbits b bits s = Ok (tt, s') /\ wf s' /\ frame b s s' /\ sized s s' b (DIGITS bits) m m'.
Proof.
  intros W Hb Hm. set (n := DIGITS bits).
  destruct (grow_run s b m n W Hb Hm) as (s1 & p & k & E & W1 & F1 & Hm1 & Hnk & Hk & Hv1).
  unfold mpbits. fold n. cbv zeta. rewrite (eff_bind_ok _ _ _ _ _ (geti_run _ _ _ Hm)).
  destruct ((n <=? mp_size m) && (n <=? mp_top m)) eqn:Edone.
  { zbool. exists s, m. split; [done|]. split; [done|]. split; [apply frame_refl|]. split; [done|done|lia|lia|done| |by left].
    intros v Hv _. replace (Z.to_nat (n - mp_top m)) with O by lia. by rewrite app_nil_r. }
  rewrite (eff_bind_ok _ _ _ _ _ E), (eff_bind_ok _ _ _ _ _ (geti_run _ _ _ Hm1)). cbn [mp_p mp_top with_vec].
  pose proof (g_top _ _ _ (wf_good _ W _ _ Hm)) as Htop.
  assert (Hn : mp_top m < n) by (apply andb_false_iff in Edone as [?|?]; zbool; lia).
  destruct (wf_arr _ _ _ W1 Hm1) as (l & Hl & Hz & Hd & Ha). cbn [mp_p mp_size with_vec] in *.
  assert (Hr : room (digs s1) (p, mp_top m) (n - mp_top m)) by (exists l; simpl; split_and!; [done|lia|lia]).
  rewrite (eff_bind_ok _ _ _ _ _ (vec_run _ _ _ _ (memzero_run (digs s1) (p, mp_top m) (n - mp_top m) ltac:(lia) Hr))).
  set (zs := replicate (Z.to_nat (n - mp_top m)) 0).
  assert (Hzs : Zlen zs = n - mp_top m) by (apply Zlen_zeros; lia).
  destruct (store_wf s1 b (with_vec p k m) (mp_top m) zs l W1 Hb Hm1 Hl ltac:(lia) ltac:(simpl; lia) (digits_zero _)) as (W2 & F2 & Hl2).
  cbn [mp_p with_vec] in *. set (s2 := store s1 (upd (digs s1) (p, mp_top m) zs)) in *.
  rewrite (eff_bind_ok _ _ _ _ _ (sets_run s2 b _ (with_vec p k m) Hm1)), (sets_run (put s2 b _) b _ _ (put_lookup _ _ _)), put_put.
  set (m' := clear_flag MPnorm (with_top n (with_vec p k m))).
  pose proof (good_sound _ _ _ (wf_good _ W _ _ Hm)) as (S1 & S2 & S3 & S4).
  destruct (put_wf s2 b (with_vec p k m) m' W2 Hb Hm1 ltac:(done)) as [W3 F3].
  { split; [done|]. split; [simpl; lia|]. unfold m'. rewrite !has_clear by auto with mp. by rewrite !andb_true_r. }
  exists (put s2 b m'), m'. split; [done|]. split; [done|]. split; [by eapply frame_trans; [|eapply frame_trans]|].
  assert (Hlv : forall v, Vec s b v -> Zlen v <= mp_top m -> Zlen v <= Zlen l /\ take (length v) l = v).
  { intros v Hv Hlen. eapply (vec_iff s1 b); [done|done|by apply Hv1]. }
  split; [apply put_lookup|done|done|simpl; lia| | |by right].
  - intros v Hv Hlen. destruct (Hlv v Hv Hlen) as [H1 H2]. eapply vec_iff; [apply put_lookup|exact Hl2|].
    assert (Hlt : length (take (Z.to_nat (mp_top m)) l) = Z.to_nat (mp_top m)) by (rewrite length_take; unfold Zlen in *; lia).
    split; [unfold Zlen in *; rewrite !length_app, length_drop, Hlt; lia|].
    rewrite take_app_le by (unfold Zlen in *; lia). rewrite take_take, Nat.min_l by (unfold Zlen in *; lia). done.
  - intros v Hv Hlen. destruct (Hlv v Hv ltac:(lia)) as [H1 H2]. eapply vec_iff; [apply put_lookup|exact Hl2|].
    assert (Hlt : length (take (Z.to_nat (mp_top m)) l) = Z.to_nat (mp_top m)) by (rewrite length_take; unfold Zlen in *; lia).
    assert (Hv' : take (Z.to_nat (mp_top m)) l = v) by (rewrite <- H2; f_equal; unfold Zlen in *; lia).
    fold zs. rewrite Hv'. rewrite Hv' in Hlt. split; [unfold Zlen in *; rewrite !length_app, length_drop; lia|].
    by rewrite app_assoc, take_app_length.
Qed.

(** ** mpnorm *)

Lemma dig_run s b m l i : ints s !! b = Some m -> arr (digs s) (mp_p m, 0) l -> (i < length l)%nat ->
  dig b (Z.of_nat i) s = Ok (nth i l 0, s).
Proof.
  intros Hm Ha Hi. unfold dig. rewrite (eff_bind_ok _ _ _ _ _ (geti_run _ _ _ Hm)). apply vec_read.
  exact (rd_at (digs s) (mp_p m, 0) l i Ha Hi).
Qed.

Lemma norm_top_run s b m l : ints s !! b = Some m -> arr (digs s) (mp_p m, 0) l -> forall n, (n <= length l)%nat ->
  exists t, (t <= n)%nat /\ norm_top n b s = Ok (Z.of_nat t, s) /\ val (take t l) = val (take n l) /\
  (take t l <> [] -> last (take t l) <> Some 0).
Proof.
  intros Hm Ha. induction n as [|n IH]; intros Hn; [exists O; split_and!; done|]. cbn [norm_top].
  rewrite (eff_bind_ok _ _ _ _ _ (dig_run _ _ _ _ n Hm Ha ltac:(lia))).
  destruct (Z.eqb_spec (nth n l 0) 0) as [Ez|Ez]; cbn [negb].
  - destruct (IH ltac:(lia)) as (t & Ht & E & V & L). exists t. split_and!; [lia|done|rewrite V, val_take_S by lia; rewrite Ez; lia|done].
  - exists (S n). split_and!; [lia|done|done|]. intros _.
    rewrite (take_S_r _ _ (nth n l 0)) by (rewrite nth_lookup; destruct (lookup_lt_is_Some_2 l n) as [x ->]; [lia|done]).
    rewrite last_snoc. congruence.
Qed.

Lemma wf_sign_zero : sound 1 (Mp 1 0 0 1 0).
Proof. unfold sound, has. simpl. split_and!; auto; lia. Qed.

Lemma mpnorm_run s b m l : wf s -> 0 < b -> ints s !! b = Some m -> Vec s b l -> Zlen l = mp_top m -> digits l ->
  exists s', mpnorm b s = Ok (b, s') /\ wf s' /\ frame b s s' /\ Num s' b (mp_sign m * val l).
Proof.
  intros W Hb Hm (m0 & Hm0 & Ha) Hz Hd. rewrite Hm in Hm0. injection Hm0 as <-.
  pose proof (good_sound _ _ _ (wf_good _ W _ _ Hm)) as (S1 & S2 & S3 & S4).
  unfold mpnorm. rewrite (eff_bind_ok _ _ _ _ _ (geti_run _ _ _ Hm)), S4. cbv beta iota.
  destruct (norm_top_run s b m l Hm Ha (length l) ltac:(lia)) as (t & Ht & E & V & L).
  rewrite (take_ge l (length l)) in V by lia. replace (Z.to_nat (mp_top m)) with (length l) by (unfold Zlen in *; lia).
  rewrite (eff_bind_ok _ _ _ _ _ E), (eff_bind_ok _ _ _ _ _ (sets_run s b (with_top (Z.of_nat t)) m Hm)).
  set (m1 := with_top (Z.of_nat t) m). set (m2 := if Z.of_nat t =? 0 then with_sign 1 m1 else m1).
  assert (E2 : (if Z.of_nat t =? 0 then sets b (with_sign 1) else mret tt) (put s b m1) = Ok (tt, put s b m2)).
  { unfold m2. destruct (Z.of_nat t =? 0); [|done]. rewrite (sets_run _ b _ m1 (put_lookup _ _ _)). by rewrite put_put. }
  rewrite (eff_bind_ok _ _ _ _ _ E2), (eff_bind_ok _ _ _ _ _ (sets_run _ b _ m2 (put_lookup _ _ _))), put_put.
  set (m3 := set_flag MPnorm m2).
  assert (Htop : mp_top m3 = Z.of_nat t) by (unfold m3, m2; by destruct (Z.of_nat t =? 0)).
  assert (Hp : same_vec m m3) by (unfold m3, m2; by destruct (Z.of_nat t =? 0)).
  assert (Hsign : mp_sign m3 = if Z.of_nat t =? 0 then 1 else mp_sign m) by (unfold m3, m2; by destruct (Z.of_nat t =? 0)).
  assert (Hflags : forall f, has m2 f = has m f) by (intros f; unfold m2; by destruct (Z.of_nat t =? 0)).
  destruct (put_wf s b m m3 W Hb Hm Hp) as [W' F'].
  { split; [rewrite Hsign; destruct (Z.of_nat t =? 0); auto|]. destruct Hp as [_ Hsz]. split; [rewrite Htop, Hsz; unfold Zlen in *; lia|].
    unfold m3. rewrite !has_set by auto with mp. by rewrite !Hflags, !orb_false_r. }
  exists (put s b m3). split; [done|]. split; [done|]. split; [done|]. exists m3, (take t l). split; [apply put_lookup|].
  split; [destruct Hp as [-> _]; by apply arr_take|]. split; [by apply digits_take|]. split; [rewrite Htop; by apply Zlen_take|].
  split; [unfold m3; rewrite has_set by auto with mp; apply orb_true_r|].
  assert (Ht0 : take t l = [] -> t = O) by (intros H; apply (f_equal length) in H; rewrite length_take in H; simpl in H; lia).
  split; [intros H; rewrite Hsign, (Ht0 H); done|]. split; [done|]. rewrite V, Hsign.
  destruct (Z.eqb_spec (Z.of_nat t) 0) as [E0|]; [|done]. assert (t = O) as -> by lia. simpl in V. rewrite <- V. lia.
Qed.

(** ** Several integers change *)

Record frames (bs : list Z) (s s' : mpstate) : Prop := {
  fs_ints : forall c, c ∉ bs -> ints s' !! c = ints s !! c;
  fs_digs : forall c m, c ∉ bs -> ints s !! c = Some m -> digs s' !! mp_p m = digs s !! mp_p m;
  fs_min : mpmindigits s' = mpmindigits s;
}.

Lemma frames_refl bs s : frames bs s s.
Proof. by split. Qed.

Lemma frames_trans bs s1 s2 s3 : frames bs s1 s2 -> frames bs s2 s3 -> frames bs s1 s3.
Proof.
  intros [I1 D1 M1] [I2 D2 M2]. split.
  - intros c Hc. by rewrite I2, I1.
  - intros c m Hc Hm. rewrite (D2 c m Hc) by (by rewrite I1). by apply (D1 c).
  - by rewrite M2.
Qed.

Lemma frame_frames b bs s s' : b ∈ bs -> frame b s s' -> frames bs s s'.
Proof.
  intros Hb [I D M]. split; [|intros c m Hc Hm; apply (D c); [|done]|done]; [intros c Hc; apply I|]; intros ->; done.
Qed.

Lemma frames_one b s s' : frames [b] s s' <-> frame b s s'.
Proof.
  split; [|apply frame_frames; by left]. intros [I D M]. split; [|intros c m Hc Hm; apply (D c); [|done]|done]; [intros c Hc; apply I|]; by rewrite list_elem_of_singleton.
Qed.

Lemma frames_num bs s s' c x : frames bs s s' -> c ∉ bs -> Num s c x -> Num s' c x.
Proof.
  intros F Hc (m & l & Hm & Ha & H). exists m, l. split; [by rewrite (fs_ints _ _ _ F)|]. split; [|done].
  eapply arr_same; [|exact Ha]. by apply (fs_digs _ _ _ F c).
Qed.

(** What was made and freed in between. *)
Lemma frames_temp t bs s s' : frames (t :: bs) s s' -> ints s !! t = None -> ints s' !! t = None -> frames bs s s'.
Proof.
  intros [I D M] H1 H2. split; [| |done].
  - intros c Hc. destruct (decide (c = t)) as [->|Hne]; [congruence|]. apply I. set_solver.
  - intros c m Hc Hm. destruct (decide (c = t)) as [->|Hne]; [congruence|]. apply (D c); [set_solver|done].
Qed.

(** ** mpnew, mpfree *)

Lemma mpnew_run s n : wf s -> 0 <= n ->
  exists t s', mpnew n s = Ok (t, s') /\ wf s' /\ frame t s s' /\ 0 < t /\ ints s !! t = None /\ Num s' t 0 /\
  exists m, ints s' !! t = Some m /\ DIGITS n <= mp_size m /\ mpmindigits s <= mp_size m /\ mp_top m = 0 /\ mp_flags m = MPnorm /\ mp_sign m = 1 /\
  digs s' !! mp_p m = Some (replicate (Z.to_nat (mp_size m)) 0).
Proof.
  intros W Hn. unfold mpnew. destruct (Z.ltb_spec n 0); [lia|]. cbv zeta.
  rewrite (eff_bind_ok _ _ _ _ _ (gets_run mpmindigits s)). set (k := if DIGITS n <? mpmindigits s then mpmindigits s else DIGITS n).
  assert (Hk : DIGITS n <= k /\ mpmindigits s <= k /\ 0 <= k).
  { pose proof (wf_min _ W). unfold k. destruct (Z.ltb_spec (DIGITS n) (mpmindigits s)); lia. }
  rewrite (eff_bind_ok _ _ _ _ _ (vec_run _ _ _ _ (mallocz_run k (digs s)))).
  pose proof (new_block_fresh (digs s)) as Hfresh. pose proof (new_block_pos (digs s)) as Hpos. set (t := new_block (digs s)) in *. clearbody t.
  pose proof (fresh_int _ _ W Hpos Hfresh) as Hit. set (zs := replicate (Z.to_nat k) 0). set (m := Mp 1 k 0 t MPnorm).
  set (s' := MpS (<[t := m]> (ints s)) (<[t := zs]> (digs s)) (mpmindigits s)).
  exists t, s'. split; [done|].
  assert (Hblk : forall c n, ints s !! c = Some n -> mp_p n <> t).
  { intros c m' Hm' E. destruct (block_live _ _ _ W Hm') as [l Hl]. congruence. }
  assert (Hzk : Zlen zs = k) by (apply Zlen_zeros; lia).
  split; [split|split; [split|split; [done|split; [done|split]]]]; simpl; try done.
  - intros c m' Hc. simpl in Hc. destruct (decide (c = t)) as [->|Hne].
    + rewrite lookup_insert_eq in Hc. injection Hc as <-. split; simpl; try done; auto.
      * unfold nil. lia.
      * lia.
      * exists zs. rewrite lookup_insert_eq. split_and!; [done|done|apply digits_zero].
      * rewrite lookup_insert_eq. eauto.
      * unfold has. simpl. symmetry. by apply Z.ltb_ge; lia.
    + rewrite lookup_insert_ne in Hc by done. destruct (wf_good _ W _ _ Hc) as [G1 G2 G3 G4 G5 G6 G7 G8]. split; try done.
      * simpl. rewrite lookup_insert_ne; [done|]. intros E. by apply (Hblk _ _ Hc).
      * intros Hc0. simpl. rewrite lookup_insert_ne by done. by apply G5.
      * destruct G6 as [?|G6]; [by left|]. right. simpl. rewrite lookup_insert_ne; [done|]. intros E. by apply (Hblk _ _ Hc).
  - intros c d k1 k2 Hc Hd E. simpl in *. destruct (decide (c = t)) as [->|Hcb], (decide (d = t)) as [->|Hdb]; [done| | |].
    + rewrite lookup_insert_eq in Hc. rewrite lookup_insert_ne in Hd by done. injection Hc as <-. simpl in E. exfalso. by apply (Hblk d k2).
    + rewrite lookup_insert_ne in Hc by done. rewrite lookup_insert_eq in Hd. injection Hd as <-. simpl in E. exfalso. by apply (Hblk c k1).
    + rewrite lookup_insert_ne in Hc, Hd by done. by apply (wf_inj _ W _ _ _ _ Hc Hd).
  - rewrite !lookup_insert_ne by (unfold mpzero; lia). apply W.
  - rewrite !lookup_insert_ne by (unfold mpone; lia). apply W.
  - apply W.
  - intros c Hc. by rewrite lookup_insert_ne.
  - intros c m' Hc Hm'. rewrite lookup_insert_ne; [done|]. intros E. by apply (Hblk _ _ Hm').
  - exists m, []. split; [apply lookup_insert_eq|]. split; [|split_and!; [constructor|done|done|done|done|done]].
    exists zs. simpl. rewrite lookup_insert_eq. split_and!; [done|done|unfold Zlen; simpl; lia|done].
  - exists m. split; [apply lookup_insert_eq|]. simpl. rewrite lookup_insert_eq. split_and!; [lia|lia|done|done|done|done].
Qed.

Lemma mpfree_run s t m : wf s -> 0 < t -> ints s !! t = Some m -> exists s', mpfree t s = Ok (tt, s') /\ wf s' /\ frame t s s' /\ ints s' !! t = None.
Proof.
  intros W Ht Hm. unfold mpfree. destruct (Z.eqb_spec t nil); [unfold nil in *; lia|].
  rewrite (eff_bind_ok _ _ _ _ _ (geti_run _ _ _ Hm)). pose proof (wf_good _ W _ _ Hm) as G.
  rewrite (g_static _ _ _ G). destruct (Z.ltb_spec t 0); [lia|].
  destruct (wf_arr _ _ _ W Hm) as (l & Hl & Hz & Hd & Ha). pose proof (g_top _ _ _ G).
  assert (Hr : room (digs s) (mp_p m, 0) (mp_size m)) by (exists l; simpl; split_and!; [done|lia|lia]).
  rewrite (eff_bind_ok _ _ _ _ _ (vec_run _ _ _ _ (memzero_run (digs s) (mp_p m, 0) (mp_size m) ltac:(lia) Hr))).
  set (h1 := upd (digs s) (mp_p m, 0) _). set (h2 := if mp_p m =? t then h1 else delete (mp_p m) h1).
  assert (E2 : (if mp_p m =? t then mret tt else vec (free (mp_p m))) (store s h1) = Ok (tt, store s h2)).
  { unfold h2. by destruct (mp_p m =? t). }
  rewrite (eff_bind_ok _ _ _ _ _ E2).
  set (s' := MpS (delete t (ints s)) (delete t h2) (mpmindigits s)). exists s'. split; [done|].
  assert (Hh : forall q, q <> t -> q <> mp_p m -> delete t h2 !! q = digs s !! q).
  { intros q Hq Hqm. rewrite lookup_delete_ne by done. unfold h2. destruct (mp_p m =? t); [|rewrite lookup_delete_ne by done];
      unfold h1; by rewrite upd_lookup_ne. }
  assert (Hown : forall c n, c <> t -> ints s !! c = Some n -> mp_p n <> t /\ mp_p n <> mp_p m).
  { intros c k Hc Hk. split; [|by eapply (other_block s t c)]. intros E. destruct (g_apart _ _ _ (wf_good _ W _ _ Hk)) as [E'|E']; congruence. }
  split; [split|split; [split|]]; simpl.
  - intros c k Hc. simpl in Hc. destruct (decide (c = t)) as [->|Hne]; [by rewrite lookup_delete_eq in Hc|].
    rewrite lookup_delete_ne in Hc by done. destruct (Hown _ _ Hne Hc) as [H1 H2]. destruct (wf_good _ W _ _ Hc) as [G1 G2 G3 G4 G5 G6 G7 G8].
    split; try done.
    + simpl. rewrite Hh by done. done.
    + intros Hc0. simpl. rewrite Hh; [by apply G5|done|]. intros E. destruct (g_apart _ _ _ G) as [E'|E']; [congruence|]. rewrite <- E in E'. congruence.
    + destruct G6 as [?|G6]; [by left|]. right. simpl. rewrite lookup_delete_None. by right.
  - intros c d k1 k2 Hc Hd'. apply lookup_delete_Some in Hc as [_ Hc]. apply lookup_delete_Some in Hd' as [_ Hd']. by apply (wf_inj _ W _ _ _ _ Hc Hd').
  - destruct (wf_zero _ W) as (lz & Hz0 & Hl0). destruct (Hown mpzero _ ltac:(unfold mpzero; lia) Hz0) as [H1 H2]. exists lz.
    rewrite lookup_delete_ne by (unfold mpzero; lia). split; [done|]. by rewrite Hh.
  - destruct (wf_one _ W) as (Hz0 & Hl0). destruct (Hown mpone _ ltac:(unfold mpone; lia) Hz0) as [H1 H2].
    rewrite lookup_delete_ne by (unfold mpone; lia). split; [done|]. by rewrite Hh.
  - apply W.
  - intros c Hc. by rewrite lookup_delete_ne.
  - intros c k Hc Hk. destruct (Hown _ _ Hc Hk). by rewrite Hh.
  - done.
  - apply lookup_delete_eq.
Qed.

(** ** mpassign, mpcopy *)

Lemma DIGITS_mul n : 0 <= n -> DIGITS (n * Dbits) = n.
Proof. intros Hn. unfold DIGITS, Dbits. rewrite Z.quot_div_nonneg by lia. Z.div_mod_to_equations. lia. Qed.

(** Several members written. *)
Lemma sets_put s b f n : sets b f (put s b n) = Ok (tt, put s b (f n)).
Proof. rewrite (sets_run (put s b n) b f n) by apply put_lookup. by rewrite put_put. Qed.

Lemma num_int s b x : Num s b x -> exists m, ints s !! b = Some m.
Proof. intros (m & l & Hm & _). eauto. Qed.

(** Whole vectors copied between integers. *)
Lemma copy_digits s old new m n l : wf s -> 0 < new -> ints s !! old = Some m -> ints s !! new = Some n ->
  arr (digs s) (mp_p m, 0) l -> digits l -> Zlen l <= mp_size n ->
  let h := upd (digs s) (mp_p n, 0) l in
  vec (memmoved (mp_p n, 0) (mp_p m, 0) (Zlen l)) s = Ok (tt, store s h) /\ wf (store s h) /\ frame new s (store s h) /\ arr h (mp_p n, 0) l.
Proof.
  intros W Hn Ho Hm Ha Hd Hle h. destruct (wf_arr _ _ _ W Hm) as (k & Hk & Hz & _).
  assert (Hr : room (digs s) (mp_p n, 0) (Zlen l)) by (exists k; simpl; split_and!; [done|lia|lia]).
  destruct (store_wf s new n 0 l k W Hn Hm Hk ltac:(lia) ltac:(lia) Hd) as (W' & F' & _).
  split; [apply vec_run; by apply memmoved_run|]. split_and!; [done|done|]. by apply arr_upd_same.
Qed.

Lemma mpassign_run s old new x n : wf s -> 0 < new -> ints s !! new = Some n -> Num s old x ->
  exists s', mpassign old new s = Ok (tt, s') /\ wf s' /\ frame new s s' /\ Num s' new x.
Proof.
  intros W Hnew Hn Hx. unfold mpassign. destruct (Z.eqb_spec new nil); [unfold nil in *; lia|].
  destruct (Z.eqb_spec old new) as [->|Hne]; simpl; [by exists s; split_and!; [done|done|apply frame_refl|done]|].
  pose proof Hx as (m & l & Hm & Ha & Hd & Hz & Hnorm & Hsign0 & Hlast & ->).
  rewrite (eff_bind_ok _ _ _ _ _ (sets_run _ _ (with_top 0) _ Hn)).
  pose proof (good_sound _ _ _ (wf_good _ W _ _ Hn)) as (N1 & N2 & N3 & N4).
  pose proof (good_sound _ _ _ (wf_good _ W _ _ Hm)) as (M1 & M2 & M3 & M4).
  destruct (put_wf s new n (with_top 0 n) W Hnew Hn ltac:(done) ltac:(split_and!; [done|simpl; lia|simpl; lia|done|done])) as [W1 F1].
  set (s1 := put s new (with_top 0 n)) in *.
  assert (Hm1 : ints s1 !! old = Some m) by (by rewrite (f_ints _ _ _ F1)).
  rewrite (eff_bind_ok _ _ _ _ _ (geti_run _ _ _ Hm1)).
  destruct (mpbits_run s1 new (Dbits * mp_top m) _ W1 Hnew (put_lookup _ _ _)) as (s2 & n2 & E2 & W2 & F2 & Z2).
  rewrite (eff_bind_ok _ _ _ _ _ E2). rewrite Z.mul_comm, DIGITS_mul in Z2 by lia.
  rewrite (eff_bind_ok _ _ _ _ _ (sets_run _ _ (with_sign (mp_sign m)) _ (sz_int _ _ _ _ _ _ Z2))).
  rewrite !(eff_bind_ok _ _ _ _ _ (sets_put _ _ _ _)).
  set (fl := Z.ldiff (mp_flags m) (Z.lor MPstatic MPfield)).
  set (n3 := set_flag fl (clear_flag MPnorm (with_top (mp_top m) (with_sign (mp_sign m) n2)))).
  pose proof (good_sound _ _ _ (wf_good _ W2 _ _ (sz_int _ _ _ _ _ _ Z2))) as (P1 & P2 & P3 & P4).
  pose proof (sz_size _ _ _ _ _ _ Z2) as Hsz.
  assert (Hflag : forall f, mpflag f -> has n3 f = (has n2 f && (Z.land MPnorm f =? 0)) || (has m f && (Z.land (Z.lor MPstatic MPfield) f =? 0))).
  { intros f Hf. unfold n3. rewrite has_set, has_clear by done. f_equal. exact (has_clear m f (Z.lor MPstatic MPfield) Hf). }
  destruct (put_wf s2 new n2 n3 W2 Hnew (sz_int _ _ _ _ _ _ Z2) ltac:(done)) as [W3 F3].
  { split; [done|]. split; [simpl; lia|]. rewrite !Hflag, P3, P4, M4 by auto with mp. simpl. by rewrite andb_true_r, andb_false_r, orb_false_r. }
  rewrite (eff_bind_ok _ _ _ _ _ (geti_run _ _ _ (put_lookup _ _ _))).
  assert (F03 : frame new s (put s2 new n3)) by (eapply frame_trans; [|exact F3]; by eapply frame_trans).
  assert (Hm3 : ints (put s2 new n3) !! old = Some m) by (by rewrite (f_ints _ _ _ F03)).
  assert (Ha3 : arr (digs (put s2 new n3)) (mp_p m, 0) l) by (eapply arr_same; [|exact Ha]; by apply (f_digs _ _ _ F03 old)).
  destruct (copy_digits (put s2 new n3) old new m n3 l W3 Hnew Hm3 (put_lookup _ _ _) Ha3 Hd ltac:(simpl; lia)) as (E4 & W4 & F4 & A4).
  rewrite Hz in E4. rewrite E4. eexists. split; [done|]. split; [done|]. split; [by eapply frame_trans|].
  exists n3, l. split; [apply put_lookup|]. split; [done|]. split; [done|]. split; [done|]. split.
  { rewrite Hflag, Hnorm by auto with mp. simpl. apply orb_true_r. }
  split; [exact Hsign0|]. split; [done|done].
Qed.

Lemma mpcopy_run s old x m : wf s -> ints s !! old = Some m -> Num s old x ->
  exists t s', mpcopy old s = Ok (t, s') /\ wf s' /\ frame t s s' /\ 0 < t /\ ints s !! t = None /\ Num s' t x /\
  exists k, ints s' !! t = Some k /\ mp_size m <= mp_size k /\ mp_top k = mp_top m.
Proof.
  intros W Hm Hx. unfold mpcopy. rewrite (eff_bind_ok _ _ _ _ _ (geti_run _ _ _ Hm)).
  pose proof (good_sound _ _ _ (wf_good _ W _ _ Hm)) as (M1 & M2 & M3 & M4).
  destruct (mpnew_run s (Dbits * mp_size m) W ltac:(unfold Dbits; lia)) as (t & s1 & E1 & W1 & F1 & Ht & Hfr & _ & n & Hn & Hsz & _ & Htop & Hfl & Hsg & _).
  rewrite (eff_bind_ok _ _ _ _ _ E1). rewrite Z.mul_comm, DIGITS_mul in Hsz by lia.
  assert (Hne : old <> t) by congruence.
  assert (Hm1 : ints s1 !! old = Some m) by (by rewrite (f_ints _ _ _ F1)).
  rewrite (eff_bind_ok _ _ _ _ _ (geti_run _ _ _ Hm1)), (eff_bind_ok _ _ _ _ _ (sets_run _ _ (with_top (mp_top m)) _ Hn)).
  rewrite !(eff_bind_ok _ _ _ _ _ (sets_put _ _ _ _)), (eff_bind_ok _ _ _ _ _ (geti_run _ _ _ (put_lookup _ _ _))).
  destruct Hx as (m' & l & Hm' & Ha & Hd & Hz & Hnorm & Hsign0 & Hlast & ->). rewrite Hm in Hm'. injection Hm' as <-.
  set (n3 := with_flags _ _). 
  assert (Hflag : forall f, mpflag f -> has n3 f = has m f && (Z.land (Z.lor MPstatic MPfield) f =? 0)).
  { intros f Hf. exact (has_clear m f (Z.lor MPstatic MPfield) Hf). }
  destruct (put_wf s1 t n n3 W1 Ht Hn ltac:(done)) as [W3 F3].
  { split; [done|]. split; [simpl; lia|]. rewrite !Hflag, M4 by auto with mp. simpl. rewrite andb_false_r. split; [|done]. symmetry. apply Z.ltb_ge. lia. }
  assert (F03 : frame t s (put s1 t n3)) by (by eapply frame_trans).
  assert (Ha3 : arr (digs (put s1 t n3)) (mp_p m, 0) l) by (eapply arr_same; [|exact Ha]; by apply (f_digs _ _ _ F03 old)).
  assert (Hm3 : ints (put s1 t n3) !! old = Some m) by (by rewrite (f_ints _ _ _ F03)).
  destruct (copy_digits (put s1 t n3) old t m n3 l W3 Ht Hm3 (put_lookup _ _ _) Ha3 Hd ltac:(simpl; lia)) as (E4 & W4 & F4 & A4).
  rewrite Hz in E4. rewrite (eff_bind_ok _ _ _ _ _ E4). eexists _, _. split; [done|]. split; [done|]. split; [by eapply frame_trans|].
  split; [done|]. split; [done|]. split.
  - exists n3, l. split; [apply put_lookup|]. split; [done|]. split; [done|]. split; [done|]. split; [rewrite Hflag, Hnorm by auto with mp; done|].
    split; [exact Hsign0|]. done.
  - exists n3. split; [apply put_lookup|]. split; [simpl; lia|done].
Qed.

(** The constant zero. *)
Lemma zero_num s : wf s -> Num s mpzero 0.
Proof.
  intros W. destruct (wf_zero _ W) as (l & Hz & Hl). exists (Mp 1 1 0 (-4) 3), []. split; [done|].
  split; [|split_and!; [constructor|done|done|done|done|done]]. exists l. simpl. split_and!; [done|done|unfold Zlen; simpl; lia|done].
Qed.
