(* ===== verification/MpArith.v ===== *)
(** Comparison, addition and subtraction of integers, whatever arguments are the same. *)

From S2P Require Import Prelude Eff MpVec MpHeap MpVecThm MpCmp MpMul MpVecMul MpKaratsuba MpInt MpState.

(** * Values *)

Lemma val_low l : digits l -> l <> [] -> last l <> Some 0 -> Base ^ (Zlen l - 1) <= val l.
Proof.
  intros Hd Hne Hl. destruct l as [|x l _] using rev_ind; [done|]. rewrite last_snoc in Hl. apply digits_app in Hd as [Hd Hx].
  apply digits_cons in Hx as [Hx _]. pose proof (val_range l Hd). pose proof (pow_pos (Zlen l) (Zlen_nonneg _)). unfold digit in Hx.
  rewrite val_app, Zlen_app. change (Zlen [x]) with 1. rewrite Z.add_simpl_r. cbn [val].
  assert (x <> 0) by congruence. nia.
Qed.

(** What is read of an integer. *)
Record reads (s : mpstate) (b x : Z) (m : mpint) (l : list Z) : Prop := {
  r_int : ints s !! b = Some m;
  r_vec : Vec s b l;
  r_digits : digits l;
  r_len : Zlen l = mp_top m;
  r_norm : has m MPnorm = true;
  r_plain : has m MPtimesafe = false;
  r_abs : val l = Z.abs x;
  r_sign : (mp_sign m = 1 /\ 0 <= x) \/ (mp_sign m = -1 /\ x < 0);
  r_last : l <> [] -> last l <> Some 0;
}.

Lemma val_nonzero l : digits l -> l <> [] -> last l <> Some 0 -> 0 < val l.
Proof.
  intros Hd Hne Hl. pose proof (val_low l Hd Hne Hl). assert (0 <= Zlen l - 1) by (destruct l; [done|rewrite Zlen_cons; pose proof (Zlen_nonneg l); lia]).
  pose proof (pow_pos (Zlen l - 1)). lia.
Qed.

Lemma num_reads s b x : wf s -> Num s b x -> exists m l, reads s b x m l.
Proof.
  intros W (m & l & Hm & Ha & Hd & Hz & Hn & Hs & Hl & ->). exists m, l. pose proof (wf_good _ W _ _ Hm) as G.
  pose proof (val_range l Hd) as [Hv _]. destruct (g_sign _ _ _ G) as [Eg|Eg]; rewrite Eg in *.
  - split; try done; [by exists m|apply G|lia|left; split; [done|lia]].
  - assert (Hne : l <> []) by (intros E; specialize (Hs E); lia). pose proof (val_nonzero l Hd Hne (Hl Hne)).
    split; try done; [by exists m|apply G|lia|right; split; [done|lia]].
Qed.

Lemma reads_zero s b x m l : reads s b x m l -> mp_top m = 0 <-> x = 0.
Proof.
  intros [H1 H2 Hd Hz Hn Hp Ha Hs Hl]. split.
  - intros E. assert (l = []) as -> by (destruct l; [done|rewrite Zlen_cons in Hz; pose proof (Zlen_nonneg l); lia]). simpl in Ha. lia.
  - intros ->. destruct l as [|y l]; [done|]. pose proof (val_nonzero (y :: l) Hd ltac:(done) (Hl ltac:(done))). simpl in *. lia.
Qed.

(** * Comparison *)

Lemma mpmagcmp_run s b1 b2 x y : wf s -> Num s b1 x -> Num s b2 y ->
  exists c, mpmagcmp b1 b2 s = Ok (c, s) /\ (c < 0 <-> Z.abs x < Z.abs y) /\ (c = 0 <-> Z.abs x = Z.abs y).
Proof.
  intros W Hx Hy. destruct (num_reads _ _ _ W Hx) as (m1 & l1 & R1). destruct (num_reads _ _ _ W Hy) as (m2 & l2 & R2).
  destruct R1 as [I1 (k1 & K1 & A1) D1 Z1 N1 P1 V1 S1 L1]. destruct R2 as [I2 (k2 & K2 & A2) D2 Z2 N2 P2 V2 S2 L2].
  rewrite I1 in K1. rewrite I2 in K2. injection K1 as <-. injection K2 as <-.
  unfold mpmagcmp. rewrite (eff_bind_ok _ _ _ _ _ (geti_run _ _ _ I1)), (eff_bind_ok _ _ _ _ _ (geti_run _ _ _ I2)). cbv zeta.
  assert (Hts : Z.land (Z.lor (mp_flags m1) (mp_flags m2)) MPtimesafe = 0).
  { unfold has in P1, P2. zbool. rewrite Z.land_lor_distr_l, P1, P2. done. }
  assert (Hnm : Z.land (Z.lor (mp_flags m1) (mp_flags m2)) MPnorm <> 0).
  { unfold has in N1. zbool. rewrite Z.land_lor_distr_l. intros E. apply Z.lor_eq_0_iff in E. tauto. }
  rewrite Hts. cbn [Z.eqb negb]. apply Z.eqb_neq in Hnm. rewrite Hnm. cbn [negb andb].
  rewrite <- V1, <- V2. destruct (Z.eqb_spec (mp_top m1 - mp_top m2) 0) as [E|E]; cbn [negb].
  - exists (zcmp (val l1) (val l2)). rewrite (vec_read _ s (zcmp (val l1) (val l2))).
    + split; [done|]. unfold zcmp. destruct (Z.ltb_spec (val l1) (val l2)), (Z.eqb_spec (val l1) (val l2)); lia.
    + rewrite <- Z1, <- Z2. by apply mpveccmp_run.
  - exists (mp_top m1 - mp_top m2). split; [done|]. rewrite <- Z1, <- Z2 in *.
    assert (Hlt : forall l k, digits l -> digits k -> (k <> [] -> last k <> Some 0) -> Zlen l < Zlen k -> val l < val k).
    { intros l k Hl Hk Hlast Hlen. pose proof (val_range l Hl) as [_ Hr]. assert (Hk0 : k <> []) by (intros ->; pose proof (Zlen_nonneg l); unfold Zlen in *; simpl in *; lia).
      pose proof (val_low k Hk Hk0 (Hlast Hk0)). assert (Base ^ Zlen l <= Base ^ (Zlen k - 1)) by (apply Z.pow_le_mono_r; [done|lia]). lia. }
    destruct (Z.lt_trichotomy (Zlen l1) (Zlen l2)) as [H|[H|H]]; [|lia|].
    + pose proof (Hlt l1 l2 D1 D2 L2 H). lia.
    + pose proof (Hlt l2 l1 D2 D1 L1 H). lia.
Qed.

Lemma mpcmp_run s b1 b2 x y : wf s -> Num s b1 x -> Num s b2 y ->
  exists c, mpcmp b1 b2 s = Ok (c, s) /\ (c < 0 <-> x < y) /\ (c = 0 <-> x = y).
Proof.
  intros W Hx Hy. destruct (num_reads _ _ _ W Hx) as (m1 & l1 & R1). destruct (num_reads _ _ _ W Hy) as (m2 & l2 & R2).
  destruct (mpmagcmp_run s b1 b2 x y W Hx Hy) as (c & E & C1 & C2).
  unfold mpcmp. rewrite (eff_bind_ok _ _ _ _ _ (geti_run _ _ _ (r_int _ _ _ _ _ R1))), (eff_bind_ok _ _ _ _ _ (geti_run _ _ _ (r_int _ _ _ _ _ R2))). cbv zeta.
  rewrite (eff_bind_ok _ _ _ _ _ E). eexists. split; [done|].
  destruct (r_sign _ _ _ _ _ R1) as [[-> Sx]|[-> Sx]], (r_sign _ _ _ _ _ R2) as [[-> Sy]|[-> Sy]].
  - change (Z.shiftr (1 - 1) 1) with 0. change (Z.land 0 1 - 1) with (-1). rewrite Z.lor_0_l, Z.land_m1_l. lia.
  - change (Z.shiftr (1 - -1) 1) with 1. change (Z.land 1 1 - 1) with 0. rewrite Z.land_0_l, Z.lor_0_r. lia.
  - change (Z.shiftr (-1 - 1) 1) with (-1). change (Z.land (-1) 1 - 1) with 0. rewrite Z.land_0_l, Z.lor_0_r. lia.
  - change (Z.shiftr (-1 - -1) 1) with 0. change (Z.land 0 1 - 1) with (-1). rewrite Z.lor_0_l, Z.land_m1_l. lia.
Qed.

(** * Addition and subtraction of magnitudes *)

Lemma inherit_id f1 f2 m : Z.land f1 MPtimesafe = 0 -> Z.land f2 MPtimesafe = 0 -> inherit f1 f2 m = m.
Proof.
  intros H1 H2. unfold inherit, set_flag, with_flags. rewrite Z.land_lor_distr_l, H1, H2, Z.lor_0_r. by destruct m.
Qed.

Lemma plain_land m : has m MPtimesafe = false -> Z.land (mp_flags m) MPtimesafe = 0.
Proof. unfold has. intros H. by zbool. Qed.

Lemma sets_id s b f m : ints s !! b = Some m -> f m = m -> sets b f s = Ok (tt, s).
Proof.
  intros Hm Hf. rewrite (sets_run s b f m Hm), Hf. unfold put. rewrite insert_id by done. by destruct s.
Qed.

Lemma vec_at s b m l : ints s !! b = Some m -> Vec s b l -> arr (digs s) (mp_p m, 0) l.
Proof. intros Hm (k & Hk & Ha). rewrite Hm in Hk. by injection Hk as <-. Qed.

Lemma num_sign s b z t : wf s -> 0 < b -> Num s b z -> (t = 1 \/ t = -1) -> (z = 0 -> t = 1) ->
  exists s', sets b (with_sign t) s = Ok (tt, s') /\ wf s' /\ frame b s s' /\ Num s' b (t * Z.abs z).
Proof.
  intros W Hb Hn Ht H0. destruct (num_reads _ _ _ W Hn) as (m & l & R). pose proof (reads_zero _ _ _ _ _ R) as Hz. destruct R as [I V D Z N P A S L].
  pose proof (good_sound _ _ _ (wf_good _ W _ _ I)) as (S1 & S2 & S3 & S4).
  destruct (put_wf s b m (with_sign t m) W Hb I ltac:(done) ltac:(done)) as [W' F'].
  rewrite (sets_run s b _ m I). eexists. split; [done|]. split; [done|]. split; [done|].
  exists (with_sign t m), l. split; [apply put_lookup|]. split; [exact (vec_at _ _ _ _ I V)|]. split; [done|]. split; [done|]. split; [done|].
  split; [intros ->; simpl; apply H0, Hz; by rewrite <- Z|]. split; [done|]. simpl. by rewrite A.
Qed.

(** The result is written: [n] digits wide, normalised. *)
Lemma finish_value s b m l t k : wf s -> 0 < b -> ints s !! b = Some m -> Zlen l = k -> k <= mp_size m -> digits l -> (t = 1 \/ t = -1) ->
  arr (digs s) (mp_p m, 0) l ->
  exists s', (sets b (with_sign t);; sets b (with_top k);; mpnorm b;; mret tt) s = Ok (tt, s') /\ wf s' /\ frame b s s' /\ Num s' b (t * val l).
Proof.
  intros W Hb Hm Hl Hk Hd Ht Ha. rewrite (eff_bind_ok _ _ _ _ _ (sets_run s b _ m Hm)), (eff_bind_ok _ _ _ _ _ (sets_put _ _ _ _)).
  pose proof (good_sound _ _ _ (wf_good _ W _ _ Hm)) as (S1 & S2 & S3 & S4). set (m' := with_top k (with_sign t m)).
  destruct (put_wf s b m m' W Hb Hm ltac:(done)) as [W1 F1].
  { split; [done|]. split; [simpl; pose proof (Zlen_nonneg l); lia|done]. }
  destruct (mpnorm_run (put s b m') b m' l W1 Hb (put_lookup _ _ _)) as (s2 & E2 & W2 & F2 & N2); [|done|done|].
  { exists m'. split; [apply put_lookup|done]. }
  rewrite (eff_bind_ok _ _ _ _ _ E2). exists s2. split; [done|]. split; [done|]. split; [by eapply frame_trans|done].
Qed.

Lemma mpmagadd_ordered s b1 b2 sum x y m1 l1 m2 l2 ms : wf s -> 0 < sum -> ints s !! sum = Some ms ->
  reads s b1 x m1 l1 -> reads s b2 y m2 l2 -> mp_top m2 <= mp_top m1 -> Num s b1 x ->
  exists s' z, (let n := mp_top m1 in
    let m := mp_top m2 in
    if n =? 0 then mpassign mpzero sum else
    if m =? 0 then mpassign b1 sum else
    mpbits sum ((n + 1) * Dbits);;
    sets sum (with_top (n + 1));;
    m1 ← geti b1; m2 ← geti b2; ms ← geti sum;
    vec (mpvecadd (mp_p m1, 0) n (mp_p m2, 0) m (mp_p ms, 0));;
    sets sum (with_sign 1);;
    mpnorm sum;;
    mret tt) s = Ok (tt, s') /\ wf s' /\ frame sum s s' /\ Num s' sum z /\ Z.abs z = Z.abs x + Z.abs y /\ (y <> 0 -> 0 <= z) /\ (y = 0 -> z = x).
Proof.
  intros W Hsum Hms R1 R2 Hle Hx. pose proof (reads_zero _ _ _ _ _ R1) as Z1. pose proof (reads_zero _ _ _ _ _ R2) as Z2.
  pose proof (g_top _ _ _ (wf_good _ W _ _ (r_int _ _ _ _ _ R2))) as Htop2. cbv zeta.
  destruct (Z.eqb_spec (mp_top m1) 0) as [En|En].
  { assert (Hy0 : y = 0) by (apply Z2; lia). assert (Hx0 : x = 0) by (by apply Z1).
    pose proof (zero_num s W) as H0.
    destruct (mpassign_run s mpzero sum 0 ms W Hsum Hms H0) as (s' & E & W' & F' & N'). exists s', 0. split_and!; [done|done|done|done|lia|lia|lia]. }
  destruct (Z.eqb_spec (mp_top m2) 0) as [Em|Em].
  { destruct (mpassign_run s b1 sum x ms W Hsum Hms Hx) as (s' & E & W' & F' & N'). exists s', x. assert (y = 0) by (by apply Z2). split_and!; [done|done|done|done|lia|done|done]. }
  destruct R1 as [I1 V1 D1 L1 N1 P1 A1 S1 T1]. destruct R2 as [I2 V2 D2 L2 N2 P2 A2 S2 T2].
  pose proof (Zlen_nonneg l1). pose proof (Zlen_nonneg l2).
  destruct (mpbits_run s sum ((mp_top m1 + 1) * Dbits) ms W Hsum Hms) as (s1 & k1 & E1 & W1 & F1 & Sz). rewrite DIGITS_mul in Sz by lia.
  rewrite (eff_bind_ok _ _ _ _ _ E1), (eff_bind_ok _ _ _ _ _ (sets_run s1 sum _ k1 (sz_int _ _ _ _ _ _ Sz))). set (k2 := with_top (mp_top m1 + 1) k1).
  pose proof (good_sound _ _ _ (wf_good _ W1 _ _ (sz_int _ _ _ _ _ _ Sz))) as (K1 & K2 & K3 & K4).
  destruct (put_wf s1 sum k1 k2 W1 Hsum (sz_int _ _ _ _ _ _ Sz) ltac:(done)) as [W2 F2].
  { split; [done|]. split; [simpl; pose proof (sz_size _ _ _ _ _ _ Sz); lia|done]. }
  assert (Hkeep : forall c m l, ints s !! c = Some m -> Vec s c l -> Zlen l = mp_top m -> Vec (put s1 sum k2) c l).
  { intros c m l Hc Hv Hl. apply (put_vec s1 sum k1 k2); [apply Sz|done|]. destruct (decide (c = sum)) as [->|Hne]; [|by eapply frame_vec].
    apply (sz_vec _ _ _ _ _ _ Sz); [done|]. rewrite Hms in Hc. injection Hc as Hc. rewrite Hc. lia. }
  pose proof (Hkeep b1 m1 l1 I1 V1 L1) as (q1 & Hq1 & Ha1). pose proof (Hkeep b2 m2 l2 I2 V2 L2) as (q2 & Hq2 & Ha2).
  rewrite (eff_bind_ok _ _ _ _ _ (geti_run _ _ _ Hq1)), (eff_bind_ok _ _ _ _ _ (geti_run _ _ _ Hq2)), (eff_bind_ok _ _ _ _ _ (geti_run _ _ _ (put_lookup _ _ _))).
  destruct (vadd_val l1 l2 ltac:(unfold Zlen in *; lia) D1 D2) as (Dv & Lv & Vv).
  destruct (wf_arr _ _ _ W2 (put_lookup _ _ _)) as (lk & Hlk & Hzk & _).
  assert (Hroom : room (digs (put s1 sum k2)) (mp_p k2, 0) (Zlen l1 + 1)) by (exists lk; simpl in *; split_and!; [done|lia|pose proof (sz_size _ _ _ _ _ _ Sz); lia]).
  pose proof (mpvecadd_run (digs (put s1 sum k2)) (mp_p q1, 0) l1 (mp_p q2, 0) l2 (mp_p k2, 0) ltac:(unfold Zlen in *; lia) Ha1 Ha2 Hroom ltac:(right; left; simpl; lia) ltac:(right; left; simpl; lia)) as E3.
  rewrite <- L1, <- L2. rewrite (eff_bind_ok _ _ _ _ _ (vec_run _ _ _ _ E3)).
  assert (Zv : Zlen (vadd l1 l2) = Zlen l1 + 1) by (unfold Zlen; lia).
  destruct (store_wf (put s1 sum k2) sum k2 0 (vadd l1 l2) lk W2 Hsum (put_lookup _ _ _) Hlk ltac:(lia) ltac:(simpl; pose proof (sz_size _ _ _ _ _ _ Sz); lia) Dv) as (W3 & F3 & _).
  set (s3 := store _ _) in *.
  assert (Ha3 : arr (digs s3) (mp_p k2, 0) (vadd l1 l2)) by (apply arr_upd_same; by rewrite Zv).
  destruct (finish_value s3 sum k2 (vadd l1 l2) 1 (mp_top k2) W3 Hsum (put_lookup _ _ _) ltac:(simpl; lia) ltac:(simpl; pose proof (sz_size _ _ _ _ _ _ Sz); lia) Dv ltac:(auto) Ha3) as (s4 & E4 & W4 & F4 & N4).
  rewrite (eff_bind_ok _ _ _ _ _ (sets_run s3 sum _ k2 (put_lookup _ _ _))) in E4. rewrite (eff_bind_ok _ _ _ _ _ (sets_run s3 sum _ k2 (put_lookup _ _ _))). rewrite (eff_bind_ok _ _ _ _ _ (sets_put _ _ _ _)) in E4.
  replace (with_top (mp_top k2) (with_sign 1 k2)) with (with_sign 1 k2) in E4 by done.
  exists s4, (1 * val (vadd l1 l2)). split; [exact E4|]. split; [done|]. split; [by do 3 (eapply frame_trans; [eassumption|])|].
  split; [done|]. rewrite Vv, A1, A2. split; [lia|]. split; [lia|]. intros ->. simpl in A2. exfalso. apply Em. by apply Z2.
Qed.

(** The magnitude of the sum; the sign is that of the other argument when one is zero. *)
Lemma mpmagadd_run s b1 b2 sum x y ms : wf s -> 0 < sum -> ints s !! sum = Some ms -> Num s b1 x -> Num s b2 y ->
  exists s' z, mpmagadd b1 b2 sum s = Ok (tt, s') /\ wf s' /\ frame sum s s' /\ Num s' sum z /\ Z.abs z = Z.abs x + Z.abs y /\
  (x <> 0 -> y <> 0 -> 0 <= z) /\ (y = 0 -> z = x) /\ (x = 0 -> z = y).
Proof.
  intros W Hsum Hms Hx Hy. destruct (num_reads _ _ _ W Hx) as (m1 & l1 & R1). destruct (num_reads _ _ _ W Hy) as (m2 & l2 & R2).
  pose proof (r_int _ _ _ _ _ R1) as I1. pose proof (r_int _ _ _ _ _ R2) as I2.
  pose proof (g_top _ _ _ (wf_good _ W _ _ I1)). pose proof (g_top _ _ _ (wf_good _ W _ _ I2)).
  unfold mpmagadd. rewrite (eff_bind_ok _ _ _ _ _ (geti_run _ _ _ I1)), (eff_bind_ok _ _ _ _ _ (geti_run _ _ _ I2)).
  rewrite (eff_bind_ok _ _ _ _ _ (sets_id s sum _ ms Hms ltac:(apply inherit_id; apply plain_land; [apply R1|apply R2]))).
  destruct (Z.ltb_spec (mp_top m1) (mp_top m2)) as [Hlt|Hge].
  - rewrite (eff_bind_ok _ _ _ _ _ (geti_run _ _ _ I2)), (eff_bind_ok _ _ _ _ _ (geti_run _ _ _ I1)).
    destruct (mpmagadd_ordered s b2 b1 sum y x m2 l2 m1 l1 ms W Hsum Hms R2 R1 ltac:(lia) Hy) as (s' & z & E & W' & F' & N' & Az & P1 & P2).
    exists s', z. split; [exact E|]. split_and!; [done|done|done|lia|auto| |done]. intros Hy0. pose proof (proj2 (reads_zero _ _ _ _ _ R2) Hy0). lia.
  - rewrite (eff_bind_ok _ _ _ _ _ (geti_run _ _ _ I1)), (eff_bind_ok _ _ _ _ _ (geti_run _ _ _ I2)).
    destruct (mpmagadd_ordered s b1 b2 sum x y m1 l1 m2 l2 ms W Hsum Hms R1 R2 ltac:(lia) Hx) as (s' & z & E & W' & F' & N' & Az & P1 & P2).
    exists s', z. split; [exact E|]. split_and!; [done|done|done|lia|auto|done|]. intros Hx0. pose proof (proj2 (reads_zero _ _ _ _ _ R1) Hx0).
    assert (y = 0) by (apply (reads_zero _ _ _ _ _ R2); lia). rewrite P2 by done. lia.
Qed.

(** The larger magnitude less the smaller. *)
Lemma mpmagsub_ordered s b1 b2 diff x y m1 l1 m2 l2 md t : wf s -> 0 < diff -> ints s !! diff = Some md ->
  reads s b1 x m1 l1 -> reads s b2 y m2 l2 -> Z.abs y <= Z.abs x -> Num s b1 x -> (t = 1 \/ t = -1) -> (Z.abs x = Z.abs y -> t = 1) ->
  exists s', (m1 ← geti b1; m2 ← geti b2;
    let n := mp_top m1 in
    let m := mp_top m2 in
    if m =? 0 then mpassign b1 diff;; sets diff (with_sign t) else
    mpbits diff (n * Dbits);;
    m1 ← geti b1; m2 ← geti b2; md ← geti diff;
    vec (mpvecsub (mp_p m1, 0) n (mp_p m2, 0) m (mp_p md, 0));;
    sets diff (with_sign t);;
    sets diff (with_top n);;
    mpnorm diff;;
    mret tt) s = Ok (tt, s') /\ wf s' /\ frame diff s s' /\ Num s' diff (t * (Z.abs x - Z.abs y)).
Proof.
  intros W Hdiff Hmd R1 R2 Hle Hx Ht Ht0. pose proof (reads_zero _ _ _ _ _ R2) as Z2.
  destruct R1 as [I1 V1 D1 L1 N1 P1 A1 S1 T1]. destruct R2 as [I2 V2 D2 L2 N2 P2 A2 S2 T2].
  pose proof (Zlen_nonneg l1). pose proof (Zlen_nonneg l2).
  rewrite (eff_bind_ok _ _ _ _ _ (geti_run _ _ _ I1)), (eff_bind_ok _ _ _ _ _ (geti_run _ _ _ I2)). cbv zeta.
  destruct (Z.eqb_spec (mp_top m2) 0) as [Em|Em].
  { assert (y = 0) as -> by (by apply Z2).
    destruct (mpassign_run s b1 diff x md W Hdiff Hmd Hx) as (s1 & E1 & W1 & F1 & Nx1). rewrite (eff_bind_ok _ _ _ _ _ E1).
    destruct (num_sign s1 diff x t W1 Hdiff Nx1 Ht ltac:(intros ->; apply Ht0; lia)) as (s2 & E2 & W2 & F2 & Nx2).
    exists s2. split; [done|]. split; [done|]. split; [by eapply frame_trans|]. by replace (Z.abs x - Z.abs 0) with (Z.abs x) by lia. }
  assert (Hlen : (length l2 <= length l1)%nat).
  { destruct (decide (length l2 <= length l1)%nat) as [|Hgt]; [done|]. assert (Hne : l2 <> []) by (intros ->; simpl in Hgt; lia).
    pose proof (val_low l2 D2 Hne (T2 Hne)). pose proof (val_range l1 D1).
    assert (Base ^ Zlen l1 <= Base ^ (Zlen l2 - 1)) by (apply Z.pow_le_mono_r; [done|unfold Zlen; lia]). lia. }
  destruct (mpbits_run s diff (mp_top m1 * Dbits) md W Hdiff Hmd) as (s1 & k1 & E1 & W1 & F1 & Sz). rewrite DIGITS_mul in Sz by lia.
  rewrite (eff_bind_ok _ _ _ _ _ E1).
  assert (Hkeep : forall c m l, ints s !! c = Some m -> Vec s c l -> Zlen l = mp_top m -> Vec s1 c l).
  { intros c m l Hc Hv Hl. destruct (decide (c = diff)) as [->|Hne]; [|by eapply frame_vec].
    apply (sz_vec _ _ _ _ _ _ Sz); [done|]. rewrite Hmd in Hc. injection Hc as Hc. rewrite Hc. lia. }
  pose proof (Hkeep b1 m1 l1 I1 V1 L1) as (q1 & Hq1 & Ha1). pose proof (Hkeep b2 m2 l2 I2 V2 L2) as (q2 & Hq2 & Ha2).
  pose proof (sz_int _ _ _ _ _ _ Sz) as Ik. pose proof (sz_size _ _ _ _ _ _ Sz) as Hsz.
  rewrite (eff_bind_ok _ _ _ _ _ (geti_run _ _ _ Hq1)), (eff_bind_ok _ _ _ _ _ (geti_run _ _ _ Hq2)), (eff_bind_ok _ _ _ _ _ (geti_run _ _ _ Ik)).
  destruct (vsub_val l1 l2 Hlen D1 D2 ltac:(lia)) as (Dv & Lv & Vv). assert (Zv : Zlen (vsub l1 l2) = Zlen l1) by (unfold Zlen; lia).
  destruct (wf_arr _ _ _ W1 Ik) as (lk & Hlk & Hzk & _).
  assert (Hroom : room (digs s1) (mp_p k1, 0) (Zlen l1)) by (exists lk; simpl; split_and!; [done|lia|lia]).
  pose proof (mpvecsub_run (digs s1) (mp_p q1, 0) l1 (mp_p q2, 0) l2 (mp_p k1, 0) Hlen Ha1 Ha2 Hroom ltac:(right; left; simpl; lia) ltac:(right; left; simpl; lia)) as E3.
  rewrite <- L1, <- L2. rewrite (eff_bind_ok _ _ _ _ _ (vec_run _ _ _ _ E3)).
  destruct (store_wf s1 diff k1 0 (vsub l1 l2) lk W1 Hdiff Ik Hlk ltac:(lia) ltac:(lia) Dv) as (W3 & F3 & _).
  set (s3 := store _ _) in *.
  assert (Ha3 : arr (digs s3) (mp_p k1, 0) (vsub l1 l2)) by (apply arr_upd_same; by rewrite Zv).
  destruct (finish_value s3 diff k1 (vsub l1 l2) t (Zlen l1) W3 Hdiff Ik Zv ltac:(lia) Dv Ht Ha3) as (s4 & E4 & W4 & F4 & N4).
  exists s4. split; [exact E4|]. split; [done|]. split; [by do 2 (eapply frame_trans; [eassumption|])|]. by rewrite <- A1, <- A2, <- Vv.
Qed.

Lemma flag3_plain m1 m2 m3 : has m1 MPtimesafe = false -> has m2 MPtimesafe = false -> has m3 MPtimesafe = false -> flag3 m1 m2 m3 MPtimesafe = true.
Proof.
  intros H1 H2 H3. unfold flag3. rewrite !Z.land_lor_distr_l, !plain_land by done. done.
Qed.

Lemma assert_run {S} (b : bool) (s : S) : b = true -> assertb b s = Ok (tt, s).
Proof. by intros ->. Qed.

Lemma mpmagsub_run s b1 b2 diff x y md : wf s -> 0 < diff -> ints s !! diff = Some md -> Num s b1 x -> Num s b2 y ->
  exists s', mpmagsub b1 b2 diff s = Ok (tt, s') /\ wf s' /\ frame diff s s' /\ Num s' diff (Z.abs x - Z.abs y).
Proof.
  intros W Hdiff Hmd Hx Hy. destruct (num_reads _ _ _ W Hx) as (m1 & l1 & R1). destruct (num_reads _ _ _ W Hy) as (m2 & l2 & R2).
  destruct (mpmagcmp_run s b1 b2 x y W Hx Hy) as (c & E & C1 & C2).
  pose proof (r_int _ _ _ _ _ R1) as I1. pose proof (r_int _ _ _ _ _ R2) as I2.
  unfold mpmagsub. rewrite (eff_bind_ok _ _ _ _ _ E), (eff_bind_ok _ _ _ _ _ (geti_run _ _ _ I1)), (eff_bind_ok _ _ _ _ _ (geti_run _ _ _ I2)), (eff_bind_ok _ _ _ _ _ (geti_run _ _ _ Hmd)).
  destruct (Z.ltb_spec c 0) as [Hc|Hc].
  - erewrite eff_bind_ok by (rewrite (eff_bind_ok _ _ _ _ _ (assert_run _ s (flag3_plain m1 m2 md (r_plain _ _ _ _ _ R1) (r_plain _ _ _ _ _ R2) (g_plain _ _ _ (wf_good _ W _ _ Hmd))))); reflexivity).
    destruct (mpmagsub_ordered s b2 b1 diff y x m2 l2 m1 l1 md (-1) W Hdiff Hmd R2 R1 ltac:(lia) Hy ltac:(auto) ltac:(lia)) as (s' & E' & W' & F' & N').
    exists s'. split; [exact E'|]. split_and!; [done|done|]. by replace (Z.abs x - Z.abs y) with (-1 * (Z.abs y - Z.abs x)) by lia.
  - erewrite eff_bind_ok by (rewrite (eff_bind_ok _ _ _ _ _ (sets_id s diff _ md Hmd ltac:(apply inherit_id; apply plain_land; [apply R1|apply R2]))); reflexivity).
    destruct (mpmagsub_ordered s b1 b2 diff x y m1 l1 m2 l2 md 1 W Hdiff Hmd R1 R2 ltac:(lia) Hx ltac:(auto) ltac:(auto)) as (s' & E' & W' & F' & N').
    exists s'. split; [exact E'|]. split_and!; [done|done|]. by replace (Z.abs x - Z.abs y) with (1 * (Z.abs x - Z.abs y)) by lia.
Qed.

(** * mpadd, mpsub *)

(** The sign written last, when the result is not zero. *)
Lemma resign s b z f : wf s -> 0 < b -> Num s b z -> (forall m, f m = with_sign (mp_sign (f m)) m) ->
  (forall m, mp_sign m = 1 \/ mp_sign m = -1 -> mp_sign (f m) = 1 \/ mp_sign (f m) = -1) ->
  exists s' w, (m ← geti b; if negb (mp_top m =? 0) then sets b f else mret tt) s = Ok (tt, s') /\ wf s' /\ frame b s s' /\ Num s' b w /\
  exists m, ints s !! b = Some m /\ ((z = 0 /\ w = 0) \/ (z <> 0 /\ w = mp_sign (f m) * Z.abs z)) /\ ((mp_sign m = 1 /\ 0 <= z) \/ (mp_sign m = -1 /\ z < 0)).
Proof.
  intros W Hb Hn Hf Hsg. destruct (num_reads _ _ _ W Hn) as (m & l & R). pose proof (reads_zero _ _ _ _ _ R) as Hz. pose proof (r_int _ _ _ _ _ R) as I.
  rewrite (eff_bind_ok _ _ _ _ _ (geti_run _ _ _ I)). destruct (Z.eqb_spec (mp_top m) 0) as [E|E]; cbn [negb].
  - exists s, 0. split; [done|]. split; [done|]. split; [apply frame_refl|]. assert (z = 0) as -> by (by apply Hz). split; [done|].
    exists m. split; [done|]. split; [by left|apply R].
  - assert (Hz0 : z <> 0) by (intros ->; apply E; by apply Hz).
    destruct (num_sign s b z (mp_sign (f m)) W Hb Hn) as (s' & E' & W' & F' & N'); [apply Hsg, (wf_good _ W _ _ I)|done|].
    exists s', (mp_sign (f m) * Z.abs z). split; [|split_and!; [done|done|done|]].
    + rewrite (sets_run s b (with_sign (mp_sign (f m))) m I) in E'. rewrite (sets_run s b f m I), Hf. done.
    + exists m. split; [done|]. split; [by right|apply R].
Qed.

Lemma mpadd_run s b1 b2 sum x y ms : wf s -> 0 < sum -> ints s !! sum = Some ms -> Num s b1 x -> Num s b2 y ->
  exists s', mpadd b1 b2 sum s = Ok (tt, s') /\ wf s' /\ frame sum s s' /\ Num s' sum (x + y).
Proof.
  intros W Hsum Hms Hx Hy. destruct (num_reads _ _ _ W Hx) as (m1 & l1 & R1). destruct (num_reads _ _ _ W Hy) as (m2 & l2 & R2).
  pose proof (r_int _ _ _ _ _ R1) as I1. pose proof (r_int _ _ _ _ _ R2) as I2.
  unfold mpadd. rewrite (eff_bind_ok _ _ _ _ _ (geti_run _ _ _ I1)), (eff_bind_ok _ _ _ _ _ (geti_run _ _ _ I2)), (eff_bind_ok _ _ _ _ _ (geti_run _ _ _ Hms)).
  pose proof (r_sign _ _ _ _ _ R1) as S1. pose proof (r_sign _ _ _ _ _ R2) as S2.
  destruct (Z.eqb_spec (mp_sign m1) (mp_sign m2)) as [Es|Es]; cbn [negb].
  - destruct (mpmagadd_run s b1 b2 sum x y ms W Hsum Hms Hx Hy) as (s1 & z & E1 & W1 & F1 & N1 & Az & _). cbv zeta.
    rewrite (eff_bind_ok _ _ _ _ _ E1).
    destruct (resign s1 sum z (with_sign (mp_sign m1)) W1 Hsum N1 ltac:(done) ltac:(simpl; intros; lia)) as (s2 & w & E2 & W2 & F2 & N2 & m & Im & Hw & _).
    exists s2. split; [exact E2|]. split; [done|]. split; [by eapply frame_trans|]. simpl in Hw. by replace (x + y) with w by lia.
  - rewrite (eff_bind_ok _ _ _ _ _ (assert_run _ s (flag3_plain m1 m2 ms (r_plain _ _ _ _ _ R1) (r_plain _ _ _ _ _ R2) (g_plain _ _ _ (wf_good _ W _ _ Hms))))).
    destruct (Z.ltb_spec (mp_sign m1) 0).
    + destruct (mpmagsub_run s b2 b1 sum y x ms W Hsum Hms Hy Hx) as (s' & E & W' & F' & N'). exists s'. split_and!; [done|done|done|].
      by replace (x + y) with (Z.abs y - Z.abs x) by lia.
    + destruct (mpmagsub_run s b1 b2 sum x y ms W Hsum Hms Hx Hy) as (s' & E & W' & F' & N'). exists s'. split_and!; [done|done|done|].
      by replace (x + y) with (Z.abs x - Z.abs y) by lia.
Qed.

Lemma mpsub_run s b1 b2 diff x y md : wf s -> 0 < diff -> ints s !! diff = Some md -> Num s b1 x -> Num s b2 y ->
  exists s', mpsub b1 b2 diff s = Ok (tt, s') /\ wf s' /\ frame diff s s' /\ Num s' diff (x - y).
Proof.
  intros W Hdiff Hmd Hx Hy. destruct (num_reads _ _ _ W Hx) as (m1 & l1 & R1). destruct (num_reads _ _ _ W Hy) as (m2 & l2 & R2).
  pose proof (r_int _ _ _ _ _ R1) as I1. pose proof (r_int _ _ _ _ _ R2) as I2.
  unfold mpsub. rewrite (eff_bind_ok _ _ _ _ _ (geti_run _ _ _ I1)), (eff_bind_ok _ _ _ _ _ (geti_run _ _ _ I2)), (eff_bind_ok _ _ _ _ _ (geti_run _ _ _ Hmd)). cbv zeta.
  pose proof (r_sign _ _ _ _ _ R1) as S1. pose proof (r_sign _ _ _ _ _ R2) as S2.
  destruct (Z.eqb_spec (mp_sign m1) (mp_sign m2)) as [Es|Es]; cbn [negb].
  - destruct (mpmagsub_run s b1 b2 diff x y md W Hdiff Hmd Hx Hy) as (s1 & E1 & W1 & F1 & N1). rewrite (eff_bind_ok _ _ _ _ _ E1).
    destruct (resign s1 diff _ (fun m => with_sign (mp_sign m * mp_sign m1) m) W1 Hdiff N1 ltac:(done) ltac:(simpl; intros; lia)) as (s2 & w & E2 & W2 & F2 & N2 & m & Im & Hw & Hm).
    exists s2. split; [exact E2|]. split; [done|]. split; [by eapply frame_trans|]. simpl in Hw. replace (x - y) with w; [done|].
    destruct Hw as [[H1 H2]|[H1 H2]]; [lia|]. rewrite H2. rewrite <- Es in S2.
    destruct Hm as [[-> Hm]|[-> Hm]], S1 as [[E S1]|[E S1]]; rewrite E in *; lia.
  - rewrite (eff_bind_ok _ _ _ _ _ (assert_run _ s (flag3_plain m1 m2 md (r_plain _ _ _ _ _ R1) (r_plain _ _ _ _ _ R2) (g_plain _ _ _ (wf_good _ W _ _ Hmd))))).
    destruct (mpmagadd_run s b1 b2 diff x y md W Hdiff Hmd Hx Hy) as (s1 & z & E1 & W1 & F1 & N1 & Az & _).
    rewrite (eff_bind_ok _ _ _ _ _ E1).
    destruct (num_sign s1 diff z (mp_sign m1) W1 Hdiff N1 ltac:(lia) ltac:(lia)) as (s2 & E2 & W2 & F2 & N2).
    exists s2. split; [exact E2|]. split; [done|]. split; [by eapply frame_trans|]. replace (x - y) with (mp_sign m1 * Z.abs z); [done|].
    rewrite Az. destruct S1 as [[Ea S1]|[Ea S1]], S2 as [[Eb S2]|[Eb S2]]; rewrite ?Ea, ?Eb in *; lia.
Qed.
