(* ===== verification/MpMulInt.v ===== *)
(** Multiplication of integers, whatever arguments are the same. *)

From S2P Require Import Prelude Eff MpVec MpHeap MpVecThm MpCmp MpMul MpVecMul MpKaratsuba MpInt MpState MpArith.

(** The product into an integer of its own. *)
Lemma mpmul_core s b1 b2 prod x y mp (K : eff mpstate unit) : wf s -> 0 < prod -> prod <> b1 -> prod <> b2 -> ints s !! prod = Some mp -> Num s b1 x -> Num s b2 y ->
  exists s', (m1 ← geti b1; m2 ← geti b2;
    sets prod (inherit (mp_flags m1) (mp_flags m2));;
    sets prod (with_top 0);;
    mpbits prod ((mp_top m1 + mp_top m2 + 1) * Dbits);;
    mp ← geti prod;
    (if has mp MPtimesafe then vec (mpvectsmul (mp_p m1, 0) (mp_top m1) (mp_p m2, 0) (mp_top m2) (mp_p mp, 0))
     else vec (mpvecmul (mp_p m1, 0) (mp_top m1) (mp_p m2, 0) (mp_top m2) (mp_p mp, 0)));;
    sets prod (with_top (mp_top m1 + mp_top m2 + 1));;
    sets prod (with_sign (mp_sign m1 * mp_sign m2));;
    mpnorm prod;;
    K) s = K s' /\ wf s' /\ frame prod s s' /\ Num s' prod (x * y).
Proof.
  intros W Hprod Hne1 Hne2 Hmp Hx Hy. destruct (num_reads _ _ _ W Hx) as (m1 & l1 & R1). destruct (num_reads _ _ _ W Hy) as (m2 & l2 & R2).
  destruct R1 as [I1 V1 D1 L1 N1 P1 A1 S1 T1]. destruct R2 as [I2 V2 D2 L2 N2 P2 A2 S2 T2].
  pose proof (Zlen_nonneg l1). pose proof (Zlen_nonneg l2).
  rewrite (eff_bind_ok _ _ _ _ _ (geti_run _ _ _ I1)), (eff_bind_ok _ _ _ _ _ (geti_run _ _ _ I2)).
  rewrite (eff_bind_ok _ _ _ _ _ (sets_id s prod (inherit (mp_flags m1) (mp_flags m2)) mp Hmp ltac:(apply inherit_id; by apply plain_land))).
  rewrite (eff_bind_ok _ _ _ _ _ (sets_run _ _ (with_top 0) _ Hmp)).
  pose proof (good_sound _ _ _ (wf_good _ W _ _ Hmp)) as (N1' & N2' & N3' & N4').
  destruct (put_wf s prod mp (with_top 0 mp) W Hprod Hmp ltac:(done) ltac:(split_and!; [done|simpl; lia|simpl; lia|done|done])) as [W1 F1].
  set (s1 := put s prod (with_top 0 mp)) in *. set (n := mp_top m1 + mp_top m2 + 1).
  destruct (mpbits_run s1 prod (n * Dbits) _ W1 Hprod (put_lookup _ _ _)) as (s2 & k & E2 & W2 & F2 & Sz).
  rewrite (eff_bind_ok _ _ _ _ _ E2). rewrite DIGITS_mul in Sz by lia.
  pose proof (sz_int _ _ _ _ _ _ Sz) as Ik. pose proof (sz_size _ _ _ _ _ _ Sz) as Hsz. pose proof (wf_good _ W2 _ _ Ik) as Gk.
  rewrite (eff_bind_ok _ _ _ _ _ (geti_run _ _ _ Ik)), (g_plain _ _ _ Gk). cbv beta iota.
  assert (F02 : frame prod s s2) by (by eapply frame_trans).
  assert (Hz : Vec s2 prod (zeros (length l1 + length l2) ++ zeros 1)).
  { rewrite <- replicate_add. replace (length l1 + length l2 + 1)%nat with (Z.to_nat (n - mp_top (with_top 0 mp))) by (unfold n, Zlen in *; simpl; lia).
    apply (sz_zeros _ _ _ _ _ _ Sz []); [|done]. destruct (wf_arr _ _ _ W1 (put_lookup _ _ _)) as (k1 & Hk1 & _ & _ & Ha). eexists. split; [apply put_lookup|by eapply arr_nil]. }
  pose proof (vec_at _ _ _ _ Ik Hz) as Hza. pose proof Hza as Hza'. apply arr_app in Hza' as [Hza0 _].
  assert (B1 : mp_p m1 <> mp_p k) by (eapply (other_block s2 prod b1); [done|done|by rewrite (f_ints _ _ _ F02)|done]).
  assert (B2 : mp_p m2 <> mp_p k) by (eapply (other_block s2 prod b2); [done|done|by rewrite (f_ints _ _ _ F02)|done]).
  assert (Ha1 : arr (digs s2) (mp_p m1, 0) l1) by (apply (vec_at s2 b1); [by rewrite (f_ints _ _ _ F02)|by eapply frame_vec]).
  assert (Ha2 : arr (digs s2) (mp_p m2, 0) l2) by (apply (vec_at s2 b2); [by rewrite (f_ints _ _ _ F02)|by eapply frame_vec]).
  destruct (mpvecmul_run (digs s2) (mp_p m1, 0) l1 (mp_p m2, 0) l2 (mp_p k, 0) Ha1 Ha2 D1 D2 Hza0 ltac:(by left) ltac:(by left)) as (l & Ll & Dl & Vl & E3).
  rewrite L1, L2 in E3. rewrite (eff_bind_ok _ _ _ _ _ (vec_run _ _ _ _ E3)).
  assert (Ext : upd (digs s2) (mp_p k, 0) l = upd (digs s2) (mp_p k, 0) (l ++ zeros 1)) by (eapply upd_extend; [exact Hza|by rewrite length_replicate]).
  assert (Dz : digits (l ++ zeros 1)) by (apply digits_app; split; [done|apply digits_zero]).
  assert (Lz : Zlen (l ++ zeros 1) = n) by (unfold n, Zlen in *; rewrite length_app, length_replicate; lia).
  destruct (wf_arr _ _ _ W2 Ik) as (lk & Hlk & Hzk & _).
  destruct (store_wf s2 prod k 0 (l ++ zeros 1) lk W2 Hprod Ik Hlk ltac:(lia) ltac:(lia) Dz) as (W3 & F3 & _).
  rewrite Ext. set (s3 := store _ _) in *.
  assert (Ha3 : arr (digs s3) (mp_p k, 0) (l ++ zeros 1)) by (apply arr_upd_same; exists lk; cbn [fst snd]; rewrite Lz; split_and!; [done|lia|lia]).
  rewrite (eff_bind_ok _ _ _ _ _ (sets_run s3 prod _ k Ik)), (eff_bind_ok _ _ _ _ _ (sets_put _ _ _ _)).
  set (k' := with_sign _ _).
  assert (Hsg : mp_sign m1 * mp_sign m2 = 1 \/ mp_sign m1 * mp_sign m2 = -1) by (destruct S1 as [[-> _]|[-> _]], S2 as [[-> _]|[-> _]]; auto).
  destruct (put_wf s3 prod k k' W3 Hprod Ik ltac:(done)) as [W4 F4].
  { split; [done|]. split; [simpl; fold n; lia|]. split; apply Gk. }
  destruct (mpnorm_run (put s3 prod k') prod k' (l ++ zeros 1) W4 Hprod (put_lookup _ _ _)) as (s5 & E5 & W5 & F5 & N5); [|done|done|].
  { eexists. split; [apply put_lookup|done]. }
  rewrite (eff_bind_ok _ _ _ _ _ E5).
  exists s5. split; [done|]. split; [done|]. split; [by do 3 (eapply frame_trans; [eassumption|])|].
  replace (x * y) with (mp_sign k' * val (l ++ zeros 1)); [done|]. rewrite val_app, val_zero, Vl, A1, A2. simpl.
  destruct S1 as [[-> S1]|[-> S1]], S2 as [[-> S2]|[-> S2]]; rewrite ?(Z.abs_eq x), ?(Z.abs_neq x), ?(Z.abs_eq y), ?(Z.abs_neq y) by lia; ring.
Qed.

Lemma mpmul_run s b1 b2 prod x y mp : wf s -> 0 < prod -> ints s !! prod = Some mp -> Num s b1 x -> Num s b2 y ->
  exists s', mpmul b1 b2 prod s = Ok (tt, s') /\ wf s' /\ frame prod s s' /\ Num s' prod (x * y).
Proof.
  intros W Hprod Hmp Hx Hy. unfold mpmul. cbv zeta.
  destruct ((prod =? b1) || (prod =? b2)) eqn:Ea.
  - rewrite eff_bind_assoc.
    destruct (mpnew_run s 0 W ltac:(lia)) as (t & s1 & E1 & W1 & F1 & Ht & Hfr & _ & n & Hn & Hsz & _ & Htop & Hfl & Hsg & _).
    rewrite (eff_bind_ok _ _ _ _ _ E1), eff_bind_assoc. assert (Hpt : prod <> t) by congruence.
    assert (Hmp1 : ints s1 !! prod = Some mp) by (by rewrite (f_ints _ _ _ F1)).
    rewrite (eff_bind_ok _ _ _ _ _ (geti_run _ _ _ Hmp1)), eff_bind_assoc, (eff_bind_ok _ _ _ _ _ (sets_run _ _ _ _ Hn)). rewrite (eff_bind_ok _ _ _ _ _ (eff_ret_run _ _)).
    set (n' := with_flags (mp_flags mp) n).
    pose proof (good_sound _ _ _ (wf_good _ W1 _ _ Hn)) as (K1 & K2 & K3 & K4). pose proof (wf_good _ W _ _ Hmp) as Gp.
    destruct (put_wf s1 t n n' W1 Ht Hn ltac:(done)) as [W2 F2].
    { split; [done|]. split; [done|]. split; [|apply Gp]. transitivity (prod <? 0); [apply Gp|]. by rewrite !(proj2 (Z.ltb_ge _ _)) by lia. }
    set (s2 := put s1 t n') in *. assert (F02 : frame t s s2) by (by eapply frame_trans).
    assert (H1 : t <> b1) by (destruct (num_int _ _ _ Hx) as [k Hk]; congruence). assert (H2 : t <> b2) by (destruct (num_int _ _ _ Hy) as [k Hk]; congruence).
    destruct (mpmul_core s2 b1 b2 t x y n' (if negb (prod =? t) then mpassign t prod;; mpfree t else mret tt) W2 Ht H1 H2 (put_lookup _ _ _)) as (s3 & E3 & W3 & F3 & N3); [by eapply frame_num..|].
    assert (F03 : frame t s s3) by (by eapply frame_trans).
    assert (Hp3 : ints s3 !! prod = Some mp) by (by rewrite (f_ints _ _ _ F03)).
    destruct (mpassign_run s3 t prod (x * y) mp W3 Hprod Hp3 N3) as (s4 & E4 & W4 & F4 & N4).
    destruct (num_int _ _ _ N3) as [k3 Hk3]. assert (Hk4 : ints s4 !! t = Some k3) by (by rewrite (f_ints _ _ _ F4)).
    destruct (mpfree_run s4 t k3 W4 Ht Hk4) as (s5 & E5 & W5 & F5 & G5).
    exists s5. split; [|split; [done|split; [|by eapply frame_num]]].
    + etrans; [exact E3|]. rewrite (proj2 (Z.eqb_neq _ _) Hpt). cbn [negb]. by rewrite (eff_bind_ok _ _ _ _ _ E4).
    + apply frames_one. apply (frames_temp t); [|done|done].
      eapply frames_trans; [apply (frame_frames t); [by left|exact F03]|]. eapply frames_trans; [apply (frame_frames prod); [by right; left|exact F4]|].
      apply (frame_frames t); [by left|done].
  - rewrite (eff_bind_ok _ _ _ _ _ (eff_ret_run _ _)). apply orb_false_iff in Ea as [H1 H2]. zbool.
    destruct (mpmul_core s b1 b2 prod x y mp (if negb (prod =? prod) then mpassign prod prod;; mpfree prod else mret tt) W Hprod H1 H2 Hmp Hx Hy) as (s' & E & W' & F' & N').
    exists s'. split; [|done]. etrans; [exact E|]. by rewrite Z.eqb_refl.
Qed.
