(* ===== verification/MpShift.v ===== *)
(** Shifts of integers, whatever arguments are the same. *)

From S2P Require Import Prelude Eff MpVec MpHeap MpVecThm MpCmp MpMul MpVecMul MpKaratsuba MpInt MpState MpArith.

(** * Digits *)

Section Bits.
Context (L R : Z) (HL : 0 < L) (HR : 0 < R) (HLR : L + R = 32).

Lemma pow_LR : 2 ^ L * 2 ^ R = Base.
Proof. rewrite <- Z.pow_add_r by lia. by rewrite HLR. Qed.

(** A digit moved up: what stays and what goes over. *)
Lemma shift_digit x : digit x -> u32 (Z.shiftl x L) = x mod 2 ^ R * 2 ^ L /\ Z.shiftr x R = x / 2 ^ R /\
  0 <= x mod 2 ^ R < 2 ^ R /\ 0 <= x / 2 ^ R < 2 ^ L /\ x = x / 2 ^ R * 2 ^ R + x mod 2 ^ R.
Proof.
  intros Hx. pose proof pow_LR as E. pose proof (Z.pow_pos_nonneg 2 R ltac:(lia) ltac:(lia)) as PR. pose proof (Z.pow_pos_nonneg 2 L ltac:(lia) ltac:(lia)) as PL.
  rewrite Z.shiftl_mul_pow2, Z.shiftr_div_pow2 by lia. split.
  - unfold u32. change (2 ^ 32) with Base. rewrite <- E, (Z.mul_comm (2 ^ L)). by rewrite Z.mul_mod_distr_r by lia.
  - split; [done|]. split; [by apply Z.mod_pos_bound|]. split; [|pose proof (Z.div_mod x (2 ^ R)); lia].
    unfold digit in Hx. split; [apply Z.div_pos; lia|]. apply Z.div_lt_upper_bound; lia.
Qed.

Lemma lor_carry x c : digit x -> 0 <= c < 2 ^ L -> Z.lor (u32 (Z.shiftl x L)) c = x mod 2 ^ R * 2 ^ L + c /\ digit (x mod 2 ^ R * 2 ^ L + c).
Proof.
  intros Hx Hc. destruct (shift_digit x Hx) as (-> & _ & Hm & _ & _). split; [apply lor_disjoint; lia|].
  pose proof pow_LR as E. unfold digit. rewrite <- E. nia.
Qed.

Fixpoint shl (l : list Z) (c : Z) : list Z :=
  match l with [] => [c] | x :: l => Z.lor (u32 (Z.shiftl x L)) c :: shl l (Z.shiftr x R) end.

Lemma shl_val l c : digits l -> 0 <= c < 2 ^ L -> digits (shl l c) /\ length (shl l c) = S (length l) /\ val (shl l c) = val l * 2 ^ L + c.
Proof.
  revert c. induction l as [|x l IH]; intros c Hl Hc.
  - simpl. split; [|split; [done|lia]]. apply digits_cons. split; [|constructor]. pose proof pow_LR as E. pose proof (Z.pow_pos_nonneg 2 R ltac:(lia) ltac:(lia)). unfold digit. nia.
  - apply digits_cons in Hl as [Hx Hl]. destruct (lor_carry x c Hx Hc) as [E D]. destruct (shift_digit x Hx) as (_ & Er & Hm & Hd & Ex).
    cbn [shl]. rewrite E, Er. destruct (IH (x / 2 ^ R) Hl Hd) as (D' & L' & V'). split; [by apply digits_cons|]. split; [simpl; lia|].
    cbn [val]. rewrite V'. pose proof pow_LR as EB. rewrite <- EB. rewrite Ex at 3. ring.
Qed.

(** What [left_bits] writes, above the lowest digit. *)
Fixpoint lefts (l : list Z) (last : Z) : list Z :=
  match l with [] => [] | x :: l => Z.lor (u32 (Z.shiftl (hd last l) L)) (Z.shiftr x R) :: lefts l last end.

Lemma lefts_snoc l x last : lefts (l ++ [x]) last = lefts l x ++ [Z.lor (u32 (Z.shiftl last L)) (Z.shiftr x R)].
Proof. induction l as [|y l IH]; [done|]. cbn [app lefts]. rewrite IH. by destruct l. Qed.

Lemma lefts_length l : forall last, length (lefts l last) = length l.
Proof. induction l as [|x l IH]; intros last; simpl; [done|]. by rewrite IH. Qed.

Lemma lefts_shl l : forall c, Z.lor (u32 (Z.shiftl (hd 0 l) L)) c :: lefts l 0 = shl l c.
Proof.
  induction l as [|x l IH]; intros c; [simpl; by rewrite Z.shiftl_0_l|]. cbn [lefts shl hd]. by rewrite IH.
Qed.

End Bits.

Lemma last_cons_eq (l : list Z) : forall t x, List.last (t :: l) x = List.last l t.
Proof. induction l as [|y l IH]; intros t x; [done|]. simpl in *. destruct l; [done|apply IH]. Qed.

Section Down.
Context (L R : Z) (HL : 0 < L) (HR : 0 < R) (HLR : L + R = 32).

(** What [right_bits] writes, and the digit it ends with. *)
Fixpoint rights (last : Z) (l : list Z) : list Z :=
  match l with [] => [] | t :: l => Z.lor (u32 (Z.shiftl t L)) (Z.shiftr last R) :: rights t l end.

Lemma rights_length l : forall x, length (rights x l) = length l.
Proof. induction l as [|t l IH]; intros x; simpl; [done|]. by rewrite IH. Qed.

Lemma rights_val l : forall x, digit x -> digits l ->
  let o := rights x l ++ [Z.shiftr (List.last l x) R] in digits o /\ length o = S (length l) /\ val o = val (x :: l) / 2 ^ R.
Proof.
  assert (Hgen : forall l x, digit x -> digits l -> let o := rights x l ++ [Z.shiftr (List.last l x) R] in
    digits o /\ length o = S (length l) /\ val o * 2 ^ R + x mod 2 ^ R = val (x :: l)).
  { clear l. induction l as [|t l IH]; intros x Hx Hl.
    - destruct (shift_digit L R HL HR HLR x Hx) as (_ & Er & Hm & Hd & Ex). cbn [rights app List.last val length]. rewrite Er.
      split; [|split; [done|lia]]. apply digits_cons. split; [|constructor]. pose proof (pow_LR L R HL HR HLR) as E. pose proof (Z.pow_pos_nonneg 2 R ltac:(lia) ltac:(lia)). unfold digit. nia.
    - apply digits_cons in Hl as [Ht Hl]. destruct (shift_digit L R HL HR HLR x Hx) as (_ & Er & Hm & Hd & Ex).
      rewrite last_cons_eq.
      destruct (IH t Ht Hl) as (D & Ln & V). cbv zeta in *. cbn [rights app length val]. rewrite Er.
      destruct (lor_carry L R HL HR HLR t _ Ht Hd) as [E D']. rewrite E. split; [by apply digits_cons|]. split; [lia|].
      cbn [val] in V. pose proof (pow_LR L R HL HR HLR) as EB. rewrite <- EB in *. rewrite Ex at 3. nia. }
  intros x Hx Hl. destruct (Hgen l x Hx Hl) as (D & Ln & V). cbv zeta in *. split_and!; [done|done|]. rewrite <- V.
  pose proof (Z.pow_pos_nonneg 2 R ltac:(lia) ltac:(lia)) as PR. rewrite Z.add_comm, Z.div_add by lia.
  rewrite Z.div_small; [lia|]. by apply Z.mod_pos_bound.
Qed.

End Down.

(** * The loops *)

Lemma upd_pre h p k l : room h p (Zlen k + Zlen l) -> upd (upd h (p +d Zlen k) l) p k = upd h p (k ++ l).
Proof.
  intros (v & Hv & H0 & Hle). rewrite <- upd_app by (exists v; split_and!; [done|done|lia]).
  unfold upd. simpl. rewrite Hv, !lookup_insert_eq, !insert_insert_eq. f_equal. pose proof (Zlen_nonneg k). pose proof (Zlen_nonneg l).
  rewrite Z2Nat.inj_add, to_nat_Zlen by lia. unfold Zlen in *. set (i := Z.to_nat p.2).
  assert (Hi : (i + length k + length l <= length v)%nat) by lia.
  assert (Ht : length (take i v) = i) by (rewrite length_take; lia).
  assert (Htk : length (take (i + length k) v) = (i + length k)%nat) by (rewrite length_take; lia).
  rewrite (take_app_le (take (i + length k) v)) by lia. rewrite take_take, Nat.min_l by lia.
  rewrite (take_app_ge (take i v)) by lia. rewrite Ht. replace (i + length k - i)%nat with (length k) by lia. rewrite take_app_length, <- app_assoc.
  do 2 f_equal. rewrite (drop_app_ge (take (i + length k) v)) by lia. rewrite Htk, Nat.sub_diag, drop_0.
  rewrite (drop_app_ge (take i v)) by lia. rewrite Ht, (drop_app_ge k) by lia. rewrite drop_drop. do 2 f_equal. lia.
Qed.

Lemma setdig_run s b m i x : ints s !! b = Some m -> room (digs s) (mp_p m, i) 1 -> setdig b i x s = Ok (tt, store s (upd (digs s) (mp_p m, i) [x])).
Proof. intros Hm Hr. unfold setdig. rewrite (eff_bind_ok _ _ _ _ _ (geti_run _ _ _ Hm)). apply vec_run. by apply wr_run. Qed.

Lemma dig_last s b m l x i : ints s !! b = Some m -> arr (digs s) (mp_p m, 0) (l ++ [x]) -> i = Zlen l -> dig b i s = Ok (x, s).
Proof.
  intros Hm Ha ->. unfold dig. rewrite (eff_bind_ok _ _ _ _ _ (geti_run _ _ _ Hm)). apply vec_read. apply arr_app in Ha as [_ Ha]. by eapply rd_run.
Qed.

Lemma dig_first s b m l x i : ints s !! b = Some m -> arr (digs s) (mp_p m, i) (x :: l) -> dig b i s = Ok (x, s).
Proof. intros Hm Ha. unfold dig. rewrite (eff_bind_ok _ _ _ _ _ (geti_run _ _ _ Hm)). apply vec_read. by eapply rd_run. Qed.

Section Loops.
Context (b res : Z) (mb mr : mpint) (d : Z) (Hd : 0 <= d).

Lemma left_digits_run l : forall s, ints s !! b = Some mb -> ints s !! res = Some mr ->
  arr (digs s) (mp_p mb, 0) l -> room (digs s) (mp_p mr, d) (Zlen l) ->
  left_digits (length l) b res d s = Ok (tt, store s (upd (digs s) (mp_p mr, d) l)).
Proof.
  induction l as [|x l IH] using rev_ind; intros s Hb Hr Ha Hroom; [cbn; rewrite upd_nil; by destruct s|].
  rewrite length_app, Nat.add_comm. cbn [length Nat.add left_digits]. rewrite Zlen_app in Hroom. change (Zlen [x]) with 1 in Hroom. pose proof (Zlen_nonneg l).
  rewrite (eff_bind_ok _ _ _ _ _ (dig_last s b mb l x _ Hb Ha ltac:(done))).
  assert (Hr1 : room (digs s) (mp_p mr, Z.of_nat (length l) + d) 1).
  { destruct Hroom as (v & Hv & H0 & Hle). exists v. simpl in *. unfold Zlen in *. split_and!; [done|lia|lia]. }
  rewrite (eff_bind_ok _ _ _ _ _ (setdig_run s res mr _ x Hr Hr1)). apply arr_app in Ha as [Ha _].
  rewrite IH; [|done|done| |].
  - do 2 f_equal. unfold store. simpl. f_equal.
    replace (mp_p mr, Z.of_nat (length l) + d) with ((mp_p mr, d) +d Zlen l) by (unfold dadd, Zlen; simpl; f_equal; lia).
    apply upd_pre. eapply room_le; [exact Hroom|]. change (Zlen [x]) with 1. lia.
  - simpl. apply arr_upd_apart; [done|done|]. unfold apart. simpl. unfold Zlen. right. left. lia.
  - simpl. apply room_upd; [done|]. eapply room_le; [exact Hroom|lia].
Qed.

Lemma left_bits_run L R l : forall s last, ints s !! b = Some mb -> ints s !! res = Some mr ->
  arr (digs s) (mp_p mb, 0) l -> room (digs s) (mp_p mr, d + 1) (Zlen l) ->
  left_bits (length l) b res d L R last s = Ok (hd last l, store s (upd (digs s) (mp_p mr, d + 1) (lefts L R l last))).
Proof.
  induction l as [|x l IH] using rev_ind; intros s last Hb Hr Ha Hroom; [cbn; rewrite upd_nil; by destruct s|].
  rewrite length_app, Nat.add_comm. cbn [length Nat.add left_bits]. rewrite Zlen_app in Hroom. change (Zlen [x]) with 1 in Hroom. pose proof (Zlen_nonneg l).
  rewrite (eff_bind_ok _ _ _ _ _ (dig_last s b mb l x _ Hb Ha ltac:(done))).
  assert (Hr1 : room (digs s) (mp_p mr, Z.of_nat (length l) + d + 1) 1).
  { destruct Hroom as (v & Hv & H0 & Hle). exists v. simpl in *. unfold Zlen in *. split_and!; [done|lia|lia]. }
  rewrite (eff_bind_ok _ _ _ _ _ (setdig_run s res mr _ _ Hr Hr1)). apply arr_app in Ha as [Ha _].
  rewrite IH; [|done|done| |].
  - f_equal. f_equal; [by destruct l|]. unfold store. simpl. f_equal. rewrite lefts_snoc.
    replace (mp_p mr, Z.of_nat (length l) + d + 1) with ((mp_p mr, d + 1) +d Zlen (lefts L R l x)) by (unfold dadd, Zlen; simpl; rewrite lefts_length; f_equal; lia).
    apply upd_pre. eapply room_le; [exact Hroom|]. unfold Zlen. rewrite lefts_length. simpl. lia.
  - simpl. apply arr_upd_apart; [done|done|]. unfold apart. simpl. unfold Zlen. right. left. lia.
  - simpl. apply room_upd; [done|]. eapply room_le; [exact Hroom|lia].
Qed.

Lemma clear_digits_run n : forall s i, ints s !! res = Some mr -> room (digs s) (mp_p mr, i) (Z.of_nat n) ->
  clear_digits n res i s = Ok (tt, store s (upd (digs s) (mp_p mr, i) (zeros n))).
Proof.
  induction n as [|n IH]; intros s i Hr Hroom; [cbn; rewrite upd_nil; by destruct s|]. cbn [clear_digits].
  assert (Hr1 : room (digs s) (mp_p mr, i) 1) by (eapply room_le; [done|lia]).
  rewrite (eff_bind_ok _ _ _ _ _ (setdig_run s res mr i 0 Hr Hr1)). rewrite IH; [|done|].
  - do 2 f_equal. unfold store. simpl. f_equal. apply (store_next (digs s) (mp_p mr, i) 0 (zeros n)). eapply room_le; [exact Hroom|]. unfold Zlen. rewrite length_replicate. lia.
  - simpl. apply (next_room (digs s) (mp_p mr, i) 0 (Z.of_nat n)); [lia|]. by replace (1 + Z.of_nat n) with (Z.of_nat (S n)) by lia.
Qed.

Lemma right_digits_run l : forall s i, 0 <= i -> ints s !! b = Some mb -> ints s !! res = Some mr ->
  arr (digs s) (mp_p mb, i + d) l -> room (digs s) (mp_p mr, i) (Zlen l) ->
  right_digits (length l) b res d i s = Ok (tt, store s (upd (digs s) (mp_p mr, i) l)).
Proof.
  induction l as [|x l IH]; intros s i Hi Hb Hr Ha Hroom; [cbn; rewrite upd_nil; by destruct s|]. cbn [length right_digits].
  rewrite Zlen_cons in Hroom. pose proof (Zlen_nonneg l). rewrite (eff_bind_ok _ _ _ _ _ (dig_first s b mb l x _ Hb Ha)).
  assert (Hr1 : room (digs s) (mp_p mr, i) 1) by (eapply room_le; [done|lia]).
  rewrite (eff_bind_ok _ _ _ _ _ (setdig_run s res mr i x Hr Hr1)). rewrite IH; [|lia|done|done| |].
  - do 2 f_equal. unfold store. simpl. f_equal. by apply (store_next (digs s) (mp_p mr, i) x l).
  - simpl. replace (i + 1 + d) with (i + d + 1) by lia. apply (arr_ahead (digs s) (mp_p mb, i + d) (mp_p mr, i) x x l Ha Hr1).
    unfold ahead. simpl. right. left. lia.
  - simpl. by apply (next_room (digs s) (mp_p mr, i) x (Zlen l)).
Qed.

Lemma right_bits_run L R l : forall s i last, 0 <= i -> ints s !! b = Some mb -> ints s !! res = Some mr ->
  arr (digs s) (mp_p mb, i + d + 1) l -> room (digs s) (mp_p mr, i) (Zlen l) ->
  right_bits (length l) b res d L R i last s = Ok (List.last l last, store s (upd (digs s) (mp_p mr, i) (rights L R last l))).
Proof.
  induction l as [|x l IH]; intros s i last Hi Hb Hr Ha Hroom; [cbn; rewrite upd_nil; by destruct s|]. cbn [length right_bits rights].
  rewrite Zlen_cons in Hroom. pose proof (Zlen_nonneg l). rewrite (eff_bind_ok _ _ _ _ _ (dig_first s b mb l x _ Hb Ha)).
  assert (Hr1 : room (digs s) (mp_p mr, i) 1) by (eapply room_le; [done|lia]).
  rewrite (eff_bind_ok _ _ _ _ _ (setdig_run s res mr i _ Hr Hr1)). rewrite IH; [|lia|done|done| |].
  - f_equal. f_equal.
    + by rewrite last_cons_eq.
    + unfold store. simpl. f_equal. apply (store_next (digs s) (mp_p mr, i) _ (rights L R x l)). unfold Zlen in *. by rewrite rights_length.
  - simpl. replace (i + 1 + d + 1) with (i + d + 1 + 1) by lia. apply (arr_ahead (digs s) (mp_p mb, i + d + 1) (mp_p mr, i) _ x l Ha Hr1).
    unfold ahead. simpl. right. left. lia.
  - simpl. by apply (next_room (digs s) (mp_p mr, i) _ (Zlen l)).
Qed.

End Loops.

(** * mpright *)

(** An integer whose flag says that it is normalised. *)
Definition flagged (s : mpstate) (b : Z) : Prop := exists m, ints s !! b = Some m /\ has m MPnorm = true.

Lemma num_flagged s b x : Num s b x -> flagged s b.
Proof. intros (m & l & Hm & _ & _ & _ & Hn & _). by exists m. Qed.

Lemma set_zero s b m : wf s -> 0 < b -> ints s !! b = Some m -> has m MPnorm = true ->
  let m' := with_top 0 (with_sign 1 m) in wf (put s b m') /\ frame b s (put s b m') /\ Num (put s b m') b 0.
Proof.
  intros W Hb Hm Hn m'. pose proof (good_sound _ _ _ (wf_good _ W _ _ Hm)) as (S1 & S2 & S3 & S4).
  destruct (put_wf s b m m' W Hb Hm ltac:(done) ltac:(split_and!; [by left|simpl; lia|simpl; lia|done|done])) as [W' F'].
  split; [done|]. split; [done|]. exists m', []. split; [apply put_lookup|]. split; [|split_and!; [constructor|done|done|done|done|simpl; lia]].
  destruct (wf_arr _ _ _ W Hm) as (l & _ & _ & _ & Ha). by eapply arr_nil.
Qed.

(** The digits are there; the rest of a shift. *)
Lemma shift_finish s b res m mr l : wf s -> 0 < res -> ints s !! b = Some m -> ints s !! res = Some mr ->
  arr (digs s) (mp_p mr, 0) l -> Zlen l = mp_top mr -> digits l ->
  exists s', (i ← geti b; sets res (set_flag (Z.land (mp_flags i) MPtimesafe));; mpnorm res;; mret tt) s = Ok (tt, s') /\
  wf s' /\ frame res s s' /\ Num s' res (mp_sign mr * val l).
Proof.
  intros W Hres Hm Hmr Ha Hl Hd. rewrite (eff_bind_ok _ _ _ _ _ (geti_run _ _ _ Hm)).
  assert (Hid : set_flag (Z.land (mp_flags m) MPtimesafe) mr = mr).
  { rewrite plain_land by apply (wf_good _ W _ _ Hm). unfold set_flag, with_flags. rewrite Z.lor_0_r. by destruct mr. }
  rewrite (eff_bind_ok _ _ _ _ _ (sets_id s res _ mr Hmr Hid)).
  destruct (mpnorm_run s res mr l W Hres Hmr ltac:(by exists mr) Hl Hd) as (s' & E & W' & F' & N').
  rewrite (eff_bind_ok _ _ _ _ _ E). by exists s'.
Qed.

(** Digits written from the first: the state and the new value. *)
Lemma write_digits s b m l : wf s -> 0 < b -> ints s !! b = Some m -> Zlen l <= mp_size m -> digits l ->
  let s' := store s (upd (digs s) (mp_p m, 0) l) in wf s' /\ frame b s s' /\ ints s' !! b = Some m /\ arr (digs s') (mp_p m, 0) l.
Proof.
  intros W Hb Hm Hle Hd s'. destruct (wf_arr _ _ _ W Hm) as (k & Hk & Hz & _).
  destruct (store_wf s b m 0 l k W Hb Hm Hk ltac:(lia) ltac:(lia) Hd) as (W' & F' & _). split_and!; [done|done|done|].
  apply arr_upd_same. exists k. simpl. split_and!; [done|lia|lia].
Qed.

Lemma size_room s b m i n : wf s -> ints s !! b = Some m -> 0 <= i -> i + n <= mp_size m -> room (digs s) (mp_p m, i) n.
Proof. intros W Hm Hi Hle. destruct (wf_arr _ _ _ W Hm) as (k & Hk & Hz & _). exists k. simpl. split_and!; [done|lia|lia]. Qed.

Lemma right_tail s b res m mr l shift : wf s -> 0 < res -> ints s !! b = Some m -> ints s !! res = Some mr ->
  arr (digs s) (mp_p m, 0) l -> Zlen l = mp_top m -> digits l -> 0 <= shift ->
  let d := Z.quot shift Dbits in let r := shift - d * Dbits in let lo := Dbits - r in
  d < mp_top m -> mp_top m - d <= mp_size mr ->
  exists s', (top ← (if r =? 0 then right_digits (Z.to_nat (mp_top m - d)) b res d 0;; mret (mp_top m - d)
         else
           last ← dig b d;
           last ← right_bits (Z.to_nat (mp_top m - d - 1)) b res d lo r 0 last;
           setdig res (mp_top m - d - 1) (Z.shiftr last r);;
           mret (mp_top m - d));
    sets res (with_top top);;
    i ← geti b;
    sets res (set_flag (Z.land (mp_flags i) MPtimesafe));;
    mpnorm res;;
    mret tt) s = Ok (tt, s') /\ wf s' /\ frame res s s' /\ Num s' res (mp_sign mr * (val l / 2 ^ shift)).
Proof.
  intros W Hres Hm Hmr Ha Hl Hd Hsh d r lo Hdt Hsz.
  assert (Hdr : 0 <= d /\ 0 <= r < 32 /\ shift = 32 * d + r).
  { unfold r, d, Dbits. rewrite Z.quot_div_nonneg by lia. Z.div_mod_to_equations. lia. }
  set (k := drop (Z.to_nat d) l). set (n := mp_top m - d) in *.
  assert (Hk : digits k) by (by apply digits_drop). assert (Zk : Zlen k = n) by (unfold k, n; rewrite Zlen_drop; unfold Zlen in *; lia).
  assert (Hak : arr (digs s) (mp_p m, 0 + d) k).
  { replace (mp_p m, 0 + d) with ((mp_p m, 0) +d Z.of_nat (Z.to_nat d)) by (unfold dadd; simpl; f_equal; lia). apply arr_drop; [done|]. unfold Zlen in *. lia. }
  assert (Hvk : val l / 2 ^ shift = val k / 2 ^ r).
  { replace (2 ^ shift) with (Base ^ d * 2 ^ r) by (unfold Base; rewrite <- Z.pow_mul_r, <- Z.pow_add_r by lia; f_equal; lia).
    pose proof (pow_pos d ltac:(lia)). rewrite <- Z.div_div by (try apply Z.pow_pos_nonneg; lia). f_equal.
    rewrite (val_split_any l (Z.to_nat d)). fold k. rewrite Z2Nat.id by lia. pose proof (val_take_range l (Z.to_nat d) Hd ltac:(unfold Zlen in *; lia)) as Ht.
    rewrite Z2Nat.id in Ht by lia. rewrite Z.mul_comm, Z.div_add by lia. rewrite Z.div_small by done. lia. }
  assert (Hrm : forall i q, 0 <= i -> i + q <= mp_size mr -> room (digs s) (mp_p mr, i) q) by (intros; by apply (size_room s res)).
  assert (Hout : exists o, Zlen o = n /\ digits o /\ val o = val k / 2 ^ r /\
    (if r =? 0 then right_digits (Z.to_nat n) b res d 0;; mret n
     else last ← dig b d; last ← right_bits (Z.to_nat (n - 1)) b res d lo r 0 last; setdig res (n - 1) (Z.shiftr last r);; mret n) s
    = Ok (n, store s (upd (digs s) (mp_p mr, 0) o))).
  { destruct (Z.eqb_spec r 0) as [E|E].
    - exists k. rewrite E, Z.div_1_r. split_and!; [done|done|done|]. replace (Z.to_nat n) with (length k) by (unfold Zlen in *; lia).
      rewrite (eff_bind_ok _ _ _ _ _ (right_digits_run b res m mr d ltac:(lia) k s 0 ltac:(lia) Hm Hmr Hak ltac:(apply Hrm; lia))). done.
    - destruct k as [|x k]; [unfold Zlen in Zk; simpl in Zk; lia|]. rewrite Zlen_cons in Zk. apply digits_cons in Hk as [Hx Hk].
      destruct (rights_val lo r ltac:(unfold lo, Dbits; lia) ltac:(lia) ltac:(unfold lo, Dbits; lia) k x Hx Hk) as (Do & Lo & Vo).
      set (o := rights lo r x k ++ [Z.shiftr (List.last k x) r]) in *. exists o. split; [unfold Zlen in *; lia|]. split; [done|]. split; [done|].
      rewrite (eff_bind_ok _ _ _ _ _ (dig_first s b m k x _ Hm Hak)). replace (Z.to_nat (n - 1)) with (length k) by (unfold Zlen in *; lia).
      assert (Hak1 : arr (digs s) (mp_p m, 0 + d + 1) k) by (by apply (arr_cons (digs s) (mp_p m, 0 + d) x k)).
      rewrite (eff_bind_ok _ _ _ _ _ (right_bits_run b res m mr d ltac:(lia) lo r k s 0 x ltac:(lia) Hm Hmr Hak1 ltac:(apply Hrm; lia))).
      set (s1 := store s _).
      assert (Zr : Zlen (rights lo r x k) = n - 1) by (unfold Zlen; rewrite rights_length; unfold Zlen in *; lia).
      assert (Hr1 : room (digs s1) (mp_p mr, n - 1) 1) by (apply room_upd; apply Hrm; pose proof (Zlen_nonneg k); lia).
      rewrite (eff_bind_ok _ _ _ _ _ (setdig_run s1 res mr (n - 1) _ Hmr Hr1)), eff_ret_run. do 2 f_equal. unfold s1, store. cbn [ints digs mpmindigits]. f_equal.
      rewrite <- Zr. replace (mp_p mr, Zlen (rights lo r x k)) with ((mp_p mr, 0) +d Zlen (rights lo r x k)) by done.
      apply upd_app. apply Hrm; [lia|]. rewrite Zr. change (Zlen [_]) with 1. lia. }
  destruct Hout as (o & Zo & Do & Vo & E). rewrite (eff_bind_ok _ _ _ _ _ E).
  destruct (write_digits s res mr o W Hres Hmr ltac:(lia) Do) as (W1 & F1 & Hmr1 & Ha1). set (s1 := store s _) in *.
  rewrite (eff_bind_ok _ _ _ _ _ (sets_run s1 res _ mr Hmr1)). set (mr' := with_top n mr).
  pose proof (good_sound _ _ _ (wf_good _ W _ _ Hmr)) as (S1 & S2 & S3 & S4).
  destruct (put_wf s1 res mr mr' W1 Hres Hmr1 ltac:(done)) as [W2 F2]; [split_and!; [done|simpl; lia|simpl; lia|done|done]|].
  assert (Hb2 : exists i, ints (put s1 res mr') !! b = Some i).
  { destruct (decide (b = res)) as [->|Hne]; [eexists; apply put_lookup|]. exists m. unfold put. simpl. by rewrite lookup_insert_ne. }
  destruct Hb2 as [i Hi].
  destruct (shift_finish (put s1 res mr') b res i mr' o W2 Hres Hi (put_lookup _ _ _) Ha1 Zo Do) as (s3 & E3 & W3 & F3 & N3).
  exists s3. split; [done|]. split; [done|]. split; [by do 2 (eapply frame_trans; [eassumption|])|]. rewrite Hvk, <- Vo. done.
Qed.

Lemma mpbits_none s b bits m : ints s !! b = Some m -> DIGITS bits <= mp_top m -> mp_top m <= mp_size m -> mpbits b bits s = Ok (tt, s).
Proof.
  intros Hm H1 H2. unfold mpbits. cbv zeta. rewrite (eff_bind_ok _ _ _ _ _ (geti_run _ _ _ Hm)).
  rewrite (proj2 (Z.leb_le _ _)) by lia. rewrite (proj2 (Z.leb_le _ _)) by lia. done.
Qed.

Lemma DIGITS_neg m : m <= 0 -> DIGITS m <= 0.
Proof.
  intros Hm. unfold DIGITS, Dbits. destruct (Z.le_gt_cases 0 (32 - 1 + m)).
  - rewrite Z.quot_div_nonneg by lia. Z.div_mod_to_equations. lia.
  - pose proof (Z.quot_opp_l (- (32 - 1 + m)) 32 ltac:(lia)) as E. rewrite Z.opp_involutive in E. rewrite E.
    pose proof (Z.quot_pos (- (32 - 1 + m)) 32 ltac:(lia) ltac:(lia)). lia.
Qed.

Lemma DIGITS_add n r : 0 <= n -> 0 <= r < 32 -> DIGITS (n * Dbits + r) = n + (if r =? 0 then 0 else 1).
Proof.
  intros Hn Hr. unfold DIGITS, Dbits. rewrite Z.quot_div_nonneg by lia. destruct (Z.eqb_spec r 0); Z.div_mod_to_equations; lia.
Qed.

Lemma DIGITS_sub n r : 1 <= n -> 0 <= r < 32 -> DIGITS (n * Dbits - r) = n.
Proof. intros Hn Hr. unfold DIGITS, Dbits. rewrite Z.quot_div_nonneg by lia. Z.div_mod_to_equations; lia. Qed.

Lemma quot_sign x y t : 0 < y -> (t = 1 /\ 0 <= x) \/ (t = -1 /\ x < 0) -> Z.quot x y = t * (Z.abs x / y).
Proof.
  intros Hy [[-> Hx]|[-> Hx]].
  - rewrite Z.quot_div_nonneg, Z.abs_eq by lia. lia.
  - rewrite Z.abs_neq by lia. rewrite <- (Z.opp_involutive x) at 1. rewrite Z.quot_opp_l by lia. rewrite Z.quot_div_nonneg by lia. lia.
Qed.

(** A sign written to an integer that is about to be overwritten. *)
Lemma put_sign s b res m mr : wf s -> 0 < res -> ints s !! b = Some m -> ints s !! res = Some mr ->
  let mr' := with_sign (mp_sign m) mr in
  wf (put s res mr') /\ frame res s (put s res mr') /\ ints (put s res mr') !! b = Some (if decide (b = res) then mr' else m) /\
  (b = res -> mr' = m).
Proof.
  intros W Hres Hm Hmr mr'. pose proof (good_sound _ _ _ (wf_good _ W _ _ Hmr)) as (S1 & S2 & S3 & S4).
  destruct (put_wf s res mr mr' W Hres Hmr ltac:(done)) as [W' F']; [split; [apply (wf_good _ W _ _ Hm)|done]|].
  split; [done|]. split; [done|]. split.
  - case_decide as E; [subst; apply put_lookup|]. unfold put. simpl. by rewrite lookup_insert_ne.
  - intros ->. rewrite Hm in Hmr. injection Hmr as <-. unfold mr', with_sign. by destruct m.
Qed.

(** A shift to the right reads digits that need not be normalised. *)
Lemma mpright_vec left s b res m mr l shift : wf s -> 0 < res -> ints s !! b = Some m -> Vec s b l -> digits l -> Zlen l = mp_top m ->
  (mp_top m = 0 -> mp_sign m = 1) -> (b = res -> Num s b (mp_sign m * val l)) -> ints s !! res = Some mr -> has mr MPnorm = true -> 0 <= shift ->
  exists s', mpright_with left b shift res s = Ok (tt, s') /\ wf s' /\ frame res s s' /\ Num s' res (mp_sign m * (val l / 2 ^ shift)).
Proof.
  intros W Hres I V D L S0 Hown Hmr Hfl Hsh.
  pose proof (g_top _ _ _ (wf_good _ W _ _ I)) as Htop. pose proof (Z.pow_pos_nonneg 2 shift ltac:(lia) Hsh) as Hpow.
  unfold mpright_with. rewrite (eff_bind_ok _ _ _ _ _ (geti_run _ _ _ I)), (eff_bind_ok _ _ _ _ _ (sets_run _ _ _ _ Hmr)).
  destruct (put_sign s b res m mr W Hres I Hmr) as (W1 & F1 & I1 & Hsame). set (mr1 := with_sign (mp_sign m) mr) in *. set (s1 := put s res mr1) in *.
  assert (Hmr1 : ints s1 !! res = Some mr1) by apply put_lookup.
  destruct (Z.eqb_spec (mp_top m) 0) as [E0|E0].
  { pose proof (S0 E0) as Es. assert (l = []) as -> by (destruct l; [done|rewrite Zlen_cons in L; pose proof (Zlen_nonneg l); lia]).
    destruct (set_zero s1 res mr1 W1 Hres Hmr1 Hfl) as (W2 & F2 & N2). rewrite (sets_run _ _ _ _ Hmr1).
    exists (put s1 res (with_top 0 mr1)). split; [done|]. replace (with_top 0 mr1) with (with_top 0 (with_sign 1 mr1)) by (unfold mr1; by rewrite Es).
    split; [done|]. split; [by eapply frame_trans|]. simpl val. rewrite Z.div_0_l by lia. by rewrite Z.mul_0_r. }
  rewrite (proj2 (Z.ltb_ge shift 0)) by lia.
  destruct ((res =? b) && (shift =? 0)) eqn:Eret.
  { apply andb_true_iff in Eret as [E1 E2]. zbool. subst res shift. rewrite <- (Hsame eq_refl) in *. exists s1. split; [done|]. split; [done|]. split; [done|].
    rewrite Z.div_1_r. specialize (Hown eq_refl).
    replace s1 with s; [by rewrite (Hsame eq_refl)|]. unfold s1, put. rewrite insert_id by exact I. by destruct s. }
  assert (Hdr : exists d r, Z.quot shift Dbits = d /\ shift - d * Dbits = r /\ 0 <= d /\ 0 <= r < 32 /\ shift = 32 * d + r).
  { eexists _, _. split; [done|]. split; [done|]. unfold Dbits. rewrite Z.quot_div_nonneg by lia. Z.div_mod_to_equations. lia. }
  destruct Hdr as (d & r & Ed & Er & Hd & Hr & Eshift). cbv zeta. rewrite !Ed, !Er.
  assert (Ha1 : Vec s1 b l) by (by apply (put_vec s res mr mr1)).
  assert (Hgrow : exists s2 m2 mr2, (if negb (res =? b) then mpbits res (mp_top m * Dbits - shift) else mret tt) s1 = Ok (tt, s2) /\ wf s2 /\ frame res s1 s2 /\
    ints s2 !! b = Some m2 /\ mp_top m2 = mp_top m /\ ints s2 !! res = Some mr2 /\ mp_sign mr2 = mp_sign m /\ Vec s2 b l /\
    (d < mp_top m -> mp_top m - d <= mp_size mr2) /\ (mp_top m <= d -> has mr2 MPnorm = true)).
  { destruct (Z.eqb_spec res b) as [E|E]; cbn [negb].
    - subst res. assert (Em : mr1 = m) by auto. exists s1, m, mr1. split_and!; try done; [by rewrite Hmr1, Em|rewrite Em; lia].
    - destruct (Z.le_gt_cases (mp_top m) d) as [Hle|Hgt].
      + pose proof (g_top _ _ _ (wf_good _ W1 _ _ Hmr1)) as Ht1. pose proof (DIGITS_neg (mp_top m * Dbits - shift) ltac:(unfold Dbits; lia)).
        exists s1, m, mr1. rewrite (mpbits_none s1 res _ mr1 Hmr1) by lia. split_and!; try done; [by rewrite I1, decide_False by congruence|lia].
      + destruct (mpbits_run s1 res (mp_top m * Dbits - shift) mr1 W1 Hres Hmr1) as (s2 & mr2 & E2 & W2 & F2 & Sz).
        replace (mp_top m * Dbits - shift) with ((mp_top m - d) * Dbits - r) in Sz by (unfold Dbits; lia). rewrite DIGITS_sub in Sz by lia.
        exists s2, m, mr2. split; [done|]. split; [done|]. split; [done|]. split; [rewrite (f_ints _ _ _ F2), I1, decide_False by congruence; done|].
        split; [done|]. split; [apply Sz|]. split; [apply Sz|]. split; [by eapply frame_vec|]. split; [intros _; apply Sz|lia]. }
  destruct Hgrow as (s2 & m2 & mr2 & E2 & W2 & F2 & I2 & T2 & J2 & Sg2 & V2 & Hsz & Hfl2).
  rewrite (eff_bind_ok _ _ _ _ _ E2), (eff_bind_ok _ _ _ _ _ (geti_run _ _ _ I2)).
  destruct (Z.leb_spec (mp_top m2) d) as [Hle|Hgt].
  - rewrite (eff_bind_ok _ _ _ _ _ (sets_run _ _ _ _ J2)), sets_put.
    destruct (set_zero s2 res mr2 W2 Hres J2 ltac:(apply Hfl2; lia)) as (W3 & F3 & N3). eexists. split; [done|]. split; [done|].
    split; [by do 2 (eapply frame_trans; [eassumption|])|]. rewrite Z.div_small; [by rewrite Z.mul_0_r|].
    pose proof (val_range l D) as [Hv1 Hv2]. split; [done|]. eapply Z.lt_le_trans; [exact Hv2|]. unfold Base. rewrite <- Z.pow_mul_r by (try apply Zlen_nonneg; lia).
    apply Z.pow_le_mono_r; lia.
  - destruct (right_tail s2 b res m2 mr2 l shift W2 Hres I2 J2 (vec_at _ _ _ _ I2 V2) ltac:(lia) D Hsh) as (s3 & E3 & W3 & F3 & N3); [rewrite Ed; lia|rewrite Ed, T2; apply Hsz; lia|].
    rewrite Ed, Er in E3. exists s3. split; [exact E3|]. split; [done|]. split; [by do 2 (eapply frame_trans; [eassumption|])|]. by rewrite <- Sg2.
Qed.

Lemma mpright_pos left s b res x shift : wf s -> 0 < res -> Num s b x -> flagged s res -> 0 <= shift ->
  exists s', mpright_with left b shift res s = Ok (tt, s') /\ wf s' /\ frame res s s' /\ Num s' res (Z.quot x (2 ^ shift)).
Proof.
  intros W Hres Hx (mr & Hmr & Hfl) Hsh. destruct (num_reads _ _ _ W Hx) as (m & l & R).
  pose proof (reads_zero _ _ _ _ _ R) as Hzero. destruct R as [I V D L N P A S T].
  pose proof (Z.pow_pos_nonneg 2 shift ltac:(lia) Hsh) as Hpow. rewrite (quot_sign x _ (mp_sign m) Hpow S), <- A.
  apply (mpright_vec left s b res m mr l shift); try done.
  - intros E. assert (x = 0) as -> by (by apply Hzero). destruct S as [[Es _]|[_ ?]]; [done|lia].
  - intros _. rewrite A. replace (mp_sign m * Z.abs x) with x by (destruct S as [[-> S]|[-> S]]; lia). done.
Qed.

(** * mpleft *)

Lemma left_tail s b res m mr l shift n : wf s -> 0 < res -> ints s !! b = Some m -> ints s !! res = Some mr ->
  Vec s b l -> digits l -> l <> [] -> 0 < shift ->
  let otop := Zlen l in let d := Z.quot shift Dbits in let lo := shift - d * Dbits in let r := Dbits - lo in
  n = otop + d + (if lo =? 0 then 0 else 1) -> n <= mp_size mr -> mp_top mr = n ->
  exists s', ((if lo =? 0 then left_digits (Z.to_nat otop) b res d
   else last ← left_bits (Z.to_nat otop) b res d lo r 0; setdig res d (u32 (Z.shiftl last lo)));;
    clear_digits (Z.to_nat d) res 0;;
    i ← geti b;
    sets res (set_flag (Z.land (mp_flags i) MPtimesafe));;
    mpnorm res;;
    mret tt) s = Ok (tt, s') /\ wf s' /\ frame res s s' /\ Num s' res (mp_sign mr * (val l * 2 ^ shift)).
Proof.
  intros W Hres Hm Hmr Hv Hd Hne Hsh otop d lo r Hn Hsz Htop. pose proof (vec_at _ _ _ _ Hm Hv) as Ha.
  assert (Hdr : 0 <= d /\ 0 <= lo < 32 /\ shift = 32 * d + lo).
  { unfold lo, d, Dbits. rewrite Z.quot_div_nonneg by lia. Z.div_mod_to_equations. lia. }
  assert (Hpos : 0 < otop) by (unfold otop; destruct l; [done|rewrite Zlen_cons; pose proof (Zlen_nonneg l); lia]).
  assert (Hrm : forall i q, 0 <= i -> i + q <= mp_size mr -> room (digs s) (mp_p mr, i) q) by (intros; by apply (size_room s res)).
  replace (Z.to_nat otop) with (length l) by (unfold otop, Zlen; lia).
  assert (Hnd : otop + d <= n) by (rewrite Hn; destruct (lo =? 0); lia).
  assert (Hout : exists o, Zlen o = n - d /\ digits o /\ val o = val l * 2 ^ lo /\
    (if lo =? 0 then left_digits (length l) b res d else last ← left_bits (length l) b res d lo r 0; setdig res d (u32 (Z.shiftl last lo))) s
    = Ok (tt, store s (upd (digs s) (mp_p mr, d) o))).
  { destruct (Z.eqb_spec lo 0) as [E|E].
    - exists l. rewrite E, Z.mul_1_r. split_and!; [unfold otop in *; lia|done|done|]. apply (left_digits_run b res m mr); [lia|done|done|done|apply Hrm; unfold otop in *; lia].
    - destruct (shl_val lo r ltac:(lia) ltac:(unfold r, Dbits; lia) ltac:(unfold r, Dbits; lia) l 0 Hd) as (Do & Lo & Vo); [pose proof (Z.pow_pos_nonneg 2 lo); lia|].
      exists (shl lo r l 0). split; [unfold otop, Zlen in *; lia|]. split; [done|]. split; [lia|].
      rewrite (eff_bind_ok _ _ _ _ _ (left_bits_run b res m mr d ltac:(lia) lo r l s 0 Hm Hmr Ha ltac:(apply Hrm; unfold otop in *; lia))).
      set (s1 := store s _). assert (Zl : Zlen (lefts lo r l 0) = otop) by (unfold otop, Zlen; by rewrite lefts_length).
      assert (Hr1 : room (digs s1) (mp_p mr, d) 1) by (apply room_upd; apply Hrm; unfold otop in *; lia).
      rewrite (setdig_run s1 res mr d _ Hmr Hr1). do 2 f_equal. unfold s1, store. cbn [ints digs mpmindigits]. f_equal.
      rewrite <- lefts_shl, Z.lor_0_r. apply (upd_pre (digs s) (mp_p mr, d) [_] (lefts lo r l 0)).
      apply Hrm; [lia|]. rewrite Zl. change (Zlen [_]) with 1. unfold otop in *. lia. }
  destruct Hout as (o & Zo & Do & Vo & E). rewrite (eff_bind_ok _ _ _ _ _ E). set (s1 := store s _).
  assert (Hr2 : room (digs s1) (mp_p mr, 0) (Z.of_nat (Z.to_nat d))) by (apply room_upd; apply Hrm; unfold otop in *; lia).
  rewrite (eff_bind_ok _ _ _ _ _ (clear_digits_run res mr (Z.to_nat d) s1 0 Hmr Hr2)).
  set (o' := zeros (Z.to_nat d) ++ o). assert (Zz : Zlen (zeros (Z.to_nat d)) = d) by (apply Zlen_zeros; lia).
  assert (Zo' : Zlen o' = n) by (unfold o'; rewrite Zlen_app; lia).
  assert (Es : store s1 (upd (digs s1) (mp_p mr, 0) (zeros (Z.to_nat d))) = store s (upd (digs s) (mp_p mr, 0) o')).
  { unfold s1, store. cbn [ints digs mpmindigits]. f_equal. unfold o'. rewrite <- upd_pre by (apply Hrm; lia). by rewrite Zz. }
  rewrite Es. assert (Do' : digits o') by (apply digits_app; split; [apply digits_zero|done]).
  destruct (write_digits s res mr o' W Hres Hmr ltac:(lia) Do') as (W2 & F2 & Hmr2 & Ha2).
  set (s2 := store s (upd (digs s) (mp_p mr, 0) o')) in *.
  destruct (shift_finish s2 b res m mr o' W2 Hres Hm Hmr2 Ha2 ltac:(lia) Do') as (s3 & E3 & W3 & F3 & N3).
  exists s3. split; [done|]. split; [done|]. split; [by eapply frame_trans|].
  replace (val l * 2 ^ shift) with (val o'); [done|]. unfold o'. rewrite val_app, val_zero, Zz, Vo.
  replace (2 ^ shift) with (Base ^ d * 2 ^ lo) by (unfold Base; rewrite <- Z.pow_mul_r, <- Z.pow_add_r by lia; f_equal; lia). ring.
Qed.

Lemma mpleft_with_run right s b res x shift : wf s -> 0 < res -> Num s b x -> flagged s res ->
  (shift <= 0 -> forall s1, wf s1 -> Num s1 b x -> flagged s1 res ->
    exists s', right b (- shift) res s1 = Ok (tt, s') /\ wf s' /\ frame res s1 s' /\ Num s' res (Z.quot x (2 ^ - shift))) ->
  exists s', mpleft_with right b shift res s = Ok (tt, s') /\ wf s' /\ frame res s s' /\
  Num s' res (if 0 <? shift then x * 2 ^ shift else Z.quot x (2 ^ - shift)).
Proof.
  intros W Hres Hx (mr & Hmr & Hfl) Hright. destruct (num_reads _ _ _ W Hx) as (m & l & R).
  pose proof (reads_zero _ _ _ _ _ R) as Hzero. destruct R as [I V D L N P A S T].
  pose proof (g_top _ _ _ (wf_good _ W _ _ I)) as Htop.
  unfold mpleft_with. rewrite (eff_bind_ok _ _ _ _ _ (geti_run _ _ _ I)), (eff_bind_ok _ _ _ _ _ (sets_run _ _ _ _ Hmr)).
  destruct (put_sign s b res m mr W Hres I Hmr) as (W1 & F1 & I1 & Hsame). set (mr1 := with_sign (mp_sign m) mr) in *. set (s1 := put s res mr1) in *.
  assert (Hmr1 : ints s1 !! res = Some mr1) by apply put_lookup.
  destruct (Z.eqb_spec (mp_top m) 0) as [E0|E0].
  { assert (x = 0) as -> by (by apply Hzero). destruct S as [[Es _]|[_ ?]]; [|lia].
    destruct (set_zero s1 res mr1 W1 Hres Hmr1 Hfl) as (W2 & F2 & N2). rewrite (sets_run _ _ _ _ Hmr1).
    exists (put s1 res (with_top 0 mr1)). split; [done|]. replace (with_top 0 mr1) with (with_top 0 (with_sign 1 mr1)) by (unfold mr1; by rewrite Es).
    split; [done|]. split; [by eapply frame_trans|]. destruct (Z.ltb_spec 0 shift); [done|]. rewrite Z.quot_0_l; [done|]. apply Z.pow_nonzero; lia. }
  assert (Hx1 : Num s1 b x).
  { destruct (decide (b = res)) as [->|Hne]; [|by eapply frame_num]. replace s1 with s; [done|]. unfold s1, put. rewrite (Hsame eq_refl), insert_id by done. by destruct s. }
  destruct (Z.leb_spec shift 0) as [Hle|Hgt].
  { rewrite (proj2 (Z.ltb_ge 0 shift)) by lia. destruct (Hright Hle s1 W1 Hx1 ltac:(by exists mr1)) as (s2 & E2 & W2 & F2 & N2).
    exists s2. split; [done|]. split; [done|]. split; [by eapply frame_trans|done]. }
  rewrite (proj2 (Z.ltb_lt 0 shift)) by lia. cbv zeta.
  set (d := Z.quot shift Dbits). set (lo := shift - d * Dbits).
  assert (Hdr : 0 <= d /\ 0 <= lo < 32 /\ shift = 32 * d + lo).
  { unfold lo, d, Dbits. rewrite Z.quot_div_nonneg by lia. Z.div_mod_to_equations. lia. }
  assert (En : DIGITS (mp_top m * Dbits + shift) = Zlen l + d + (if lo =? 0 then 0 else 1)).
  { replace (mp_top m * Dbits + shift) with ((mp_top m + d) * Dbits + lo) by (unfold Dbits; lia). rewrite DIGITS_add by lia. by rewrite L. }
  destruct (mpbits_run s1 res (mp_top m * Dbits + shift) mr1 W1 Hres Hmr1) as (s2 & mr2 & E2 & W2 & F2 & Sz). rewrite En in *.
  set (n := Zlen l + d + _) in *. assert (Hnd : Zlen l + d <= n) by (unfold n; destruct (lo =? 0); lia).
  rewrite (eff_bind_ok _ _ _ _ _ E2), (eff_bind_ok _ _ _ _ _ (sets_run _ _ _ _ (sz_int _ _ _ _ _ _ Sz))).
  set (mr3 := with_top n mr2). pose proof (sz_int _ _ _ _ _ _ Sz) as J2. pose proof (sz_size _ _ _ _ _ _ Sz) as Hsz.
  pose proof (good_sound _ _ _ (wf_good _ W2 _ _ J2)) as (S1' & S2' & S3' & S4'). pose proof (Zlen_nonneg l).
  destruct (put_wf s2 res mr2 mr3 W2 Hres J2 ltac:(done)) as [W3 F3]; [split_and!; [done|simpl; lia|simpl; lia|done|done]|].
  assert (V3 : Vec (put s2 res mr3) b l).
  { apply (put_vec s2 res mr2 mr3); [done|done|]. destruct (decide (b = res)) as [->|Hne].
    - apply (sz_vec _ _ _ _ _ _ Sz); [by apply (put_vec s res mr mr1)|]. rewrite (Hsame eq_refl). lia.
    - eapply frame_vec; [exact F2|done|]. by apply (put_vec s res mr mr1). }
  destruct V3 as (m3 & I3 & A3).
  destruct (left_tail (put s2 res mr3) b res m3 mr3 l shift n W3 Hres I3 (put_lookup _ _ _) ltac:(by exists m3) D) as (s4 & E4 & W4 & F4 & N4); [intros ->; apply E0; by rewrite <- L|lia|done|done|done|].
  fold d lo in E4. rewrite L in E4. exists s4. split; [exact E4|]. split; [done|]. split; [by do 3 (eapply frame_trans; [eassumption|])|].
  replace (x * 2 ^ shift) with (mp_sign mr3 * (val l * 2 ^ shift)); [done|]. unfold mr3. simpl. rewrite (sz_sign _ _ _ _ _ _ Sz), A. simpl.
  destruct S as [[-> S]|[-> S]]; [rewrite Z.abs_eq by lia|rewrite Z.abs_neq by lia]; ring.
Qed.

Lemma mpleft_run s b res x shift : wf s -> 0 < res -> Num s b x -> flagged s res ->
  exists s', mpleft b shift res s = Ok (tt, s') /\ wf s' /\ frame res s s' /\
  Num s' res (if 0 <? shift then x * 2 ^ shift else Z.quot x (2 ^ - shift)).
Proof.
  intros W Hres Hx Hfl. apply mpleft_with_run; [done|done|done|done|].
  intros Hle s1 W1 Hx1 Hfl1. apply mpright_pos; [done|done|done|done|lia].
Qed.

(** A negative right shift is a left shift. *)
Lemma mpright_run s b res x shift : wf s -> 0 < res -> Num s b x -> flagged s res ->
  exists s', mpright b shift res s = Ok (tt, s') /\ wf s' /\ frame res s s' /\
  Num s' res (if shift <? 0 then x * 2 ^ - shift else Z.quot x (2 ^ shift)).
Proof.
  intros W Hres Hx Hfl. destruct (Z.ltb_spec shift 0) as [Hneg|Hpos]; [|by apply mpright_pos].
  pose proof Hfl as (mr & Hmr & Hn). destruct (num_reads _ _ _ W Hx) as (m & l & R). pose proof (reads_zero _ _ _ _ _ R) as Hzero.
  pose proof (r_int _ _ _ _ _ R) as I. pose proof (r_sign _ _ _ _ _ R) as S.
  unfold mpright, mpright_with. rewrite (eff_bind_ok _ _ _ _ _ (geti_run _ _ _ I)), (eff_bind_ok _ _ _ _ _ (sets_run _ _ _ _ Hmr)).
  destruct (put_sign s b res m mr W Hres I Hmr) as (W1 & F1 & I1 & Hsame). set (mr1 := with_sign (mp_sign m) mr) in *. set (s1 := put s res mr1) in *.
  assert (Hmr1 : ints s1 !! res = Some mr1) by apply put_lookup.
  destruct (Z.eqb_spec (mp_top m) 0) as [E0|E0].
  { assert (x = 0) as -> by (by apply Hzero). destruct S as [[Es _]|[_ ?]]; [|lia].
    destruct (set_zero s1 res mr1 W1 Hres Hmr1 Hn) as (W2 & F2 & N2). rewrite (sets_run _ _ _ _ Hmr1).
    exists (put s1 res (with_top 0 mr1)). split; [done|]. replace (with_top 0 mr1) with (with_top 0 (with_sign 1 mr1)) by (unfold mr1; by rewrite Es).
    split; [done|]. split; [by eapply frame_trans|done]. }
  assert (Hx1 : Num s1 b x).
  { destruct (decide (b = res)) as [->|Hne]; [|by eapply frame_num]. replace s1 with s; [done|]. unfold s1, put. rewrite (Hsame eq_refl), insert_id by done. by destruct s. }
  rewrite (proj2 (Z.ltb_lt shift 0)) by lia.
  destruct (mpleft_with_run (fun _ _ _ => fault) s1 b res x (- shift) W1 Hres Hx1 ltac:(by exists mr1) ltac:(lia)) as (s' & E & W' & F' & N').
  rewrite (proj2 (Z.ltb_lt 0 (- shift))) in N' by lia. exists s'. split; [exact E|]. split; [done|]. split; [by eapply frame_trans|done].
Qed.
