(* ===== verification/MpGrow.v ===== *)
(** No routine that writes to an integer makes its block of digits smaller. *)

From S2P Require Import Prelude Eff MpVec MpInt.

Definition grows (s s' : mpstate) : Prop :=
  forall b m, ints s !! b = Some m -> exists m', ints s' !! b = Some m' /\ mp_size m <= mp_size m'.

#[export] Instance grows_preorder : PreOrder grows.
Proof.
  split; [intros s b m Hm; by exists m|].
  intros s1 s2 s3 H1 H2 b m Hm. destruct (H1 b m Hm) as (m2 & Hm2 & L2). destruct (H2 b m2 Hm2) as (m3 & Hm3 & L3). exists m3. split; [done|lia].
Qed.

(** Whatever the computation answers. *)
Definition growing {A} (c : eff mpstate A) : Prop := forall s x s', c s = Ok (x, s') -> grows s s'.

Create HintDb growing.

Lemma growing_ret {A} (x : A) : growing (mret x).
Proof. intros s y s' H. injection H as <- <-. reflexivity. Qed.

Lemma growing_bind {A B} (c : eff mpstate A) (k : A -> eff mpstate B) : growing c -> (forall x, growing (k x)) -> growing (c ≫= k).
Proof. intros Hc Hk s y s' (x & s1 & E1 & E2)%eff_bind_inv. etrans; [by eapply Hc|by eapply Hk]. Qed.

Lemma growing_vec {A} (c : eff Heap A) : growing (vec c).
Proof. intros s x s'. unfold vec. destruct (c (digs s)) as [[y h]| |]; try done. intros H. injection H as <- <-. intros b m Hm. by exists m. Qed.

Lemma growing_geti b : growing (geti b).
Proof. intros s x s'. unfold geti, deref. destruct (ints s !! b); try done. intros H. injection H as <- <-. reflexivity. Qed.

Lemma growing_none {A} : growing (fault : eff mpstate A).
Proof. done. Qed.

Lemma growing_sets b f : (forall m, mp_size (f m) = mp_size m) -> growing (sets b f).
Proof.
  intros Hf s x s' (m & s1 & E1 & E2)%eff_bind_inv. unfold geti, deref in E1. destruct (ints s !! b) eqn:Hm; try done. injection E1 as <- <-.
  injection E2 as <- <-. intros c k Hk. simpl. destruct (decide (c = b)) as [->|Hne].
  - rewrite lookup_insert_eq. eexists. split; [done|]. rewrite Hm in Hk. injection Hk as <-. rewrite Hf. lia.
  - exists k. by rewrite lookup_insert_ne.
Qed.

#[export] Hint Resolve growing_ret growing_vec growing_geti growing_none : growing.

(** The cases of a computation, one after the other. *)
Ltac growing :=
  repeat match goal with
  | |- growing (mbind _ _) => apply growing_bind; [|intros]
  | |- growing (sets _ _) => apply growing_sets; done
  | |- growing (if ?x then _ else _) => destruct x
  | |- growing (match ?x with _ => _ end) => destruct x
  | |- growing (let _ := _ in _) => cbv zeta
  | |- growing _ => solve [eauto with growing]
  end.

(** The new block of [grow] is larger. *)
Lemma growing_vec_set s s1 s2 b m p n x y : ints s !! b = Some m -> ints s1 = ints s -> mp_size m < n ->
  sets b (with_vec p n) s1 = Ok (x, s2) -> y = s2 -> grows s y.
Proof.
  intros Hm H1 Hn (k & s3 & E1 & E2)%eff_bind_inv ->. unfold geti, deref in E1. rewrite H1, Hm in E1. injection E1 as <- <-. injection E2 as <- <-.
  intros c k Hk. simpl. rewrite H1. destruct (decide (c = b)) as [->|Hne].
  - rewrite lookup_insert_eq. eexists. split; [done|]. simpl. rewrite Hm in Hk. injection Hk as <-. lia.
  - exists k. by rewrite lookup_insert_ne.
Qed.

Lemma vec_ints {A} (c : eff Heap A) s x s' : vec c s = Ok (x, s') -> ints s' = ints s.
Proof. unfold vec. destruct (c (digs s)) as [[y h]| |]; try done. intros H. by injection H as <- <-. Qed.

Lemma growing_grow b n : growing (grow b n).
Proof.
  intros s x s' (m & s1 & E1 & E2)%eff_bind_inv. unfold geti, deref in E1. destruct (ints s !! b) eqn:Hm; try done. injection E1 as <- <-.
  destruct (Z.leb_spec n (mp_size m0)); [injection E2 as <- <-; reflexivity|]. destruct (mp_p m0 =? b).
  - apply eff_bind_inv in E2 as (p & s1 & E1 & E2). apply eff_bind_inv in E2 as (? & s2 & E3 & E2). apply eff_bind_inv in E2 as (? & s3 & E4 & E2).
    eapply (growing_vec_set s s3); [exact Hm| |eassumption|exact E2|done]. by rewrite (vec_ints _ _ _ _ E4), (vec_ints _ _ _ _ E3), (vec_ints _ _ _ _ E1).
  - apply eff_bind_inv in E2 as (p & s1 & E1 & E2).
    eapply (growing_vec_set s s1); [exact Hm| |eassumption|exact E2|done]. by rewrite (vec_ints _ _ _ _ E1).
Qed.
#[export] Hint Resolve growing_grow : growing.

Lemma growing_dig b i : growing (dig b i).
Proof. unfold dig. growing. Qed.
Lemma growing_setdig b i x : growing (setdig b i x).
Proof. unfold setdig. growing. Qed.
#[export] Hint Resolve growing_dig growing_setdig : growing.

Lemma growing_mpbits b n : growing (mpbits b n).
Proof. unfold mpbits. growing. Qed.

Lemma growing_assert b : growing (assertb b).
Proof. intros s x s'. unfold assertb. destruct b; [apply growing_ret|done]. Qed.
#[export] Hint Resolve growing_mpbits growing_assert : growing.

Lemma growing_norm_top b n : growing (norm_top n b).
Proof. induction n as [|n IH]; cbn [norm_top]; growing. Qed.
#[export] Hint Resolve growing_norm_top : growing.

Lemma growing_mpnorm b : growing (mpnorm b).
Proof. unfold mpnorm. growing. Qed.
Lemma growing_mpassign b c : growing (mpassign b c).
Proof. unfold mpassign. growing. Qed.
#[export] Hint Resolve growing_mpnorm growing_mpassign : growing.

Section Loops.
Context (b res d l r : Z).

Lemma growing_left_digits n : growing (left_digits n b res d).
Proof. induction n as [|n IH]; cbn [left_digits]; growing. Qed.
Lemma growing_left_bits n last : growing (left_bits n b res d l r last).
Proof. revert last. induction n as [|n IH]; intros last; cbn [left_bits]; growing. Qed.
Lemma growing_clear_digits n i : growing (clear_digits n b i).
Proof. revert i. induction n as [|n IH]; intros i; cbn [clear_digits]; growing. Qed.
Lemma growing_right_digits n i : growing (right_digits n b res d i).
Proof. revert i. induction n as [|n IH]; intros i; cbn [right_digits]; growing. Qed.
Lemma growing_right_bits n i last : growing (right_bits n b res d l r i last).
Proof. revert i last. induction n as [|n IH]; intros i last; cbn [right_bits]; growing. Qed.

End Loops.
#[export] Hint Resolve growing_left_digits growing_left_bits growing_clear_digits growing_right_digits growing_right_bits : growing.

Lemma growing_mpleft_with right b shift res : (forall n, growing (right b n res)) -> growing (mpleft_with right b shift res).
Proof. intros H. unfold mpleft_with. growing. Qed.
Lemma growing_mpright_with left b shift res : (forall n, growing (left b n res)) -> growing (mpright_with left b shift res).
Proof. intros H. unfold mpright_with. growing. Qed.

Lemma growing_mpleft b shift res : growing (mpleft b shift res).
Proof. apply growing_mpleft_with. intros n. apply growing_mpright_with. intros k. apply growing_none. Qed.
#[export] Hint Resolve growing_mpleft : growing.
