(* ===== verification/MpDigit.v ===== *)
(** One digit of a quotient, steps D3 to D6 of [mpdiv]. *)

From S2P Require Import Prelude Eff MpVec MpHeap MpVecThm MpCmp MpMul MpVecMul MpKaratsuba MpInt.

(** * The trial digit *)

(** A trial digit from the first digits of the dividend is not too small. *)
Lemma trial_low q v W P v1 U : 0 < P -> 0 < v1 -> 0 <= q -> P * v1 <= v -> q * v <= W -> W < P * (U + 1) -> q * v1 <= U.
Proof.
  intros HP Hv1 Hq Hv Hqv HW. destruct (Z.le_gt_cases (q * v1) U) as [|Hgt]; [done|].
  assert (P * (U + 1) <= P * (q * v1)) by (apply Z.mul_le_mono_nonneg_l; lia).
  assert (q * (P * v1) <= q * v) by (apply Z.mul_le_mono_nonneg_l; lia). lia.
Qed.

(** And too large by less than the quotient over the first digits of the divisor. *)
Lemma trial_high q qt v W P v1 : 0 < P -> 0 < v1 -> 0 <= q -> v < P * (v1 + 1) -> W < (q + 1) * v -> P * (qt * v1) <= W ->
  (qt - q - 1) * v1 <= q.
Proof.
  intros HP Hv1 Hq Hv HW Hqt.
  assert (H1 : (q + 1) * v <= (q + 1) * (P * (v1 + 1) - 1)) by (apply Z.mul_le_mono_nonneg_l; lia).
  assert (H2 : P * (qt * v1) < P * ((q + 1) * (v1 + 1))) by nia.
  apply Z.mul_lt_mono_pos_l in H2; [|done]. nia.
Qed.

Lemma div_trial_run fuel : forall h t vp up v2 v1 u3 u2 u1 qd q,
  arr h (vp +d -1) [v2; v1] -> arr h (up +d -2) [u3; u2; u1] -> digit v2 -> digit v1 -> digit u3 -> digit u2 -> digit u1 ->
  room h t 3 -> t.1 <> vp.1 -> t.1 <> up.1 -> digit qd -> 0 <= q <= qd -> qd < q + Z.of_nat fuel ->
  q * (v2 + Base * v1) <= u3 + Base * (u2 + Base * u1) ->
  exists qd' l, div_trial fuel t vp up qd h = Ok (qd', upd h t l) /\ length l = 3%nat /\ digits l /\ q <= qd' <= qd /\
  qd' * (v2 + Base * v1) <= u3 + Base * (u2 + Base * u1).
Proof.
  induction fuel as [|fuel IH]; intros h t vp up v2 v1 u3 u2 u1 qd q Hv Hu D2 D1 E3 E2 E1 Ht Htv Htu Hqd Hq Hfuel Hle; [lia|].
  cbn [div_trial]. rewrite (eff_bind_ok _ _ _ _ _ (memzero_run h t 3 ltac:(lia) Ht)). change (Z.to_nat 3) with 3%nat. set (h1 := upd h t (zeros 3)).
  assert (Hr : room h t (Zlen (zeros 3))) by done.
  assert (Hz1 : arr h1 t (zeros 3)) by (by apply arr_upd_same).
  assert (Hv1 : arr h1 (vp +d -1) [v2; v1]) by (apply arr_upd_apart; [done|done|left; simpl; congruence]).
  assert (Hdv : digits [v2; v1]) by (repeat (apply digits_cons; split; [done|]); constructor).
  assert (Hdu : digits [u3; u2; u1]) by (repeat (apply digits_cons; split; [done|]); constructor).
  destruct (vdigmuladd_val [v2; v1] (zeros 3) qd ltac:(simpl; lia) Hdv (digits_zero 3) Hqd) as (Dm & Lm & Vm).
  pose proof (mpvecdigmuladd_run h1 (vp +d -1) [v2; v1] qd t (zeros 3) ltac:(simpl; lia) Hv1 Hz1 ltac:(by apply room_upd) ltac:(left; simpl; congruence)) as Em.
  change (Zlen [v2; v1]) with 2 in Em. rewrite (eff_bind_ok _ _ _ _ _ Em). set (lm := vdigmuladd _ _ _) in *.
  assert (Eh : upd h1 t lm = upd h t lm).
  { unfold h1. apply upd_cover; [rewrite Lm; done|]. unfold Zlen. rewrite Lm. done. }
  rewrite Eh. set (h2 := upd h t lm).
  assert (Hrm : room h t (Zlen lm)) by (unfold Zlen; rewrite Lm; done).
  assert (Hm2 : arr h2 t lm) by (by apply arr_upd_same).
  assert (Hu2 : arr h2 (up +d -2) [u3; u2; u1]) by (apply arr_upd_apart; [done|done|left; simpl; congruence]).
  pose proof (mpveccmp_run h2 t lm (up +d -2) [u3; u2; u1] Hm2 Hu2 Dm Hdu) as Ec.
  replace (Zlen lm) with 3 in Ec by (unfold Zlen; rewrite Lm; done). change (Zlen [u3; u2; u1]) with 3 in Ec.
  rewrite (eff_bind_ok _ _ _ _ _ Ec).
  assert (Vm' : val lm = qd * (v2 + Base * v1)) by (rewrite Vm; simpl; ring).
  assert (Vu : val [u3; u2; u1] = u3 + Base * (u2 + Base * u1)) by (simpl; ring).
  rewrite Vm', Vu. destruct (Z.ltb_spec 0 (zcmp (qd * (v2 + Base * v1)) (u3 + Base * (u2 + Base * u1)))) as [Hgt|Hngt].
  - assert (Hbig : u3 + Base * (u2 + Base * u1) < qd * (v2 + Base * v1)).
    { revert Hgt. unfold zcmp. case_match; [lia|]. case_match; zbool; lia. }
    assert (Hqlt : q <= qd - 1).
    { destruct (Z.eq_dec q qd) as [->|]; lia. }
    rewrite (digit_small (qd - 1)) by (unfold digit in *; lia).
    assert (Hr2 : room h2 t 3) by (apply room_upd; done).
    assert (Hv2 : arr h2 (vp +d -1) [v2; v1]) by (apply arr_upd_apart; [done|done|left; simpl; congruence]).
    destruct (IH h2 t vp up v2 v1 u3 u2 u1 (qd - 1) q) as (qd' & l & E & L & D & R & F); try done; [clear -Hqlt Hqd Hq; unfold digit in *; lia|clear -Hqlt Hq; lia|clear -Hfuel; lia|].
    exists qd', l. split; [|split_and!; [done|done|lia|lia|done]]. rewrite E. do 2 f_equal. unfold h2. apply upd_cover; [rewrite L, Lm; done|]. unfold Zlen. rewrite L. done.
  - exists qd, lm. split; [done|]. split; [done|]. split; [done|]. split; [lia|].
    revert Hngt. unfold zcmp. case_match; [zbool; lia|]. case_match; zbool; lia.
Qed.

(** * One digit *)

(** The trial digit of [mpdigdiv]: not below the quotient, and at most two above. *)
Lemma digdiv_trial v1 u2 u1 v W q P : digit v1 -> digit u2 -> digit u1 -> Base <= 2 * v1 -> 0 < P ->
  P * v1 <= v < P * (v1 + 1) -> P * (u2 + Base * u1) <= W < P * (u2 + Base * u1 + 1) -> 0 <= q < Base -> q * v <= W < (q + 1) * v ->
  let qd := if u1 <? v1 then (u1 * Base + u2) / v1 else Base - 1 in digit qd /\ q <= qd <= q + 2.
Proof.
  intros D1 E2 E1 Hnorm HP Hv HW Hq Hqv qd. unfold digit in *.
  assert (Hv1 : 0 < v1) by lia.
  pose proof (trial_low q v W P v1 (u2 + Base * u1) HP Hv1 ltac:(lia) ltac:(lia) ltac:(lia) ltac:(lia)) as Hlow.
  assert (Hqd : qd * v1 <= u2 + Base * u1 /\ 0 <= qd < Base /\ q <= qd).
  { unfold qd. destruct (Z.ltb_spec u1 v1).
    - split; [rewrite Z.mul_comm, (Z.add_comm u2), (Z.mul_comm Base); by apply Z.mul_div_le|]. split.
      + split; [apply Z.div_pos; nia|]. apply Z.div_lt_upper_bound; nia.
      + apply Z.div_le_lower_bound; lia.
    - split; [nia|]. split; [lia|lia]. }
  destruct Hqd as (H1 & H2 & H3). split; [done|]. split; [done|].
  assert (Hm : P * (qd * v1) <= W) by (assert (P * (qd * v1) <= P * (u2 + Base * u1)) by (apply Z.mul_le_mono_nonneg_l; lia); lia).
  pose proof (trial_high q qd v W P v1 HP Hv1 ltac:(lia) ltac:(lia) ltac:(lia) Hm) as Hh.
  destruct (Z.le_gt_cases qd (q + 2)) as [|Hgt]; [done|]. assert (2 * v1 <= (qd - q - 1) * v1) by (apply Z.mul_le_mono_nonneg_r; lia). lia.
Qed.

Lemma val_cons_nil x : val [x] = x.
Proof. simpl. lia. Qed.

(** The last one or two elements of a list. *)
Lemma snoc_inv1 (l : list Z) : l <> [] -> exists k x, l = k ++ [x].
Proof. intros H. destruct l as [|x k _] using rev_ind; [done|eauto]. Qed.
Lemma snoc_inv2 (l : list Z) n : length l = S (S n) -> exists k x y, l = k ++ [x; y] /\ length k = n.
Proof.
  intros H. destruct (snoc_inv1 l ltac:(by intros ->)) as (k & y & ->). rewrite length_app in H. simpl in H.
  destruct (snoc_inv1 k) as (j & x & ->); [intros ->; simpl in H; lia|]. rewrite length_app in H. simpl in H.
  exists j, x, y. split; [by rewrite <- app_assoc|lia].
Qed.

(** The whole of D3: the trial digit is the digit of the quotient or one more; only
    the temporary number is written. *)
Lemma trial_run h t vp up lv v1 win : let vn := Zlen lv + 1 in
  arr h (vp +d - Zlen lv) (lv ++ [v1]) -> arr h (up +d - vn) win -> length win = S (S (length lv)) ->
  digits (lv ++ [v1]) -> digits win -> Base <= 2 * v1 -> val win < val (lv ++ [v1]) * Base ->
  room h t 3 -> t.1 <> vp.1 -> t.1 <> up.1 ->
  exists qd lt, (qd ← mpdigdiv (up +d -1) v1; if 1 <? vn then div_trial 3 t vp up qd else mret qd) h = Ok (qd, upd h t lt) /\
  Zlen lt <= 3 /\ digits lt /\ digit qd /\ let q := val win / val (lv ++ [v1]) in q <= qd <= q + 1.
Proof.
  intros vn Hv Hw Lw Dv Dw Hnorm Hlt Ht Htv Htu.
  destruct (snoc_inv2 win (length lv) Lw) as (lw & u2 & u1 & -> & Llw).
  pose proof (proj1 (digits_app _ _) Dv) as [Dlv [Dv1 _]%digits_cons]. pose proof (proj1 (digits_app _ _) Dw) as [Dlw [Du2 [Du1 _]%digits_cons]%digits_cons].
  assert (Ez : Zlen lw = Zlen lv) by (unfold Zlen; lia).
  assert (Hu : arr h (up +d -1) [u2; u1]).
  { apply arr_app in Hw as [_ Hw]. rewrite dadd_dadd in Hw. by replace (- vn + Zlen lw) with (-1) in Hw by lia. }
  rewrite (eff_bind_ok _ _ _ _ _ (mpdigdiv_run h (up +d -1) u2 u1 v1 Hu Du2 Du1 Dv1)).
  set (v := val (lv ++ [v1])) in *. set (W := val (lw ++ [u2; u1])) in *. set (q := W / v).
  pose proof (val_range _ Dlv) as Rlv. pose proof (val_range _ Dlw) as Rlw. rewrite Ez in Rlw.
  set (P := Base ^ Zlen lv) in *. assert (HP : 0 < P) by (apply pow_pos, Zlen_nonneg).
  assert (Ev : v = val lv + P * v1) by (unfold v; rewrite val_app; simpl; fold P; ring).
  assert (Ew : W = val lw + P * (u2 + Base * u1)) by (unfold W; rewrite val_app, Ez; simpl; fold P; ring).
  assert (Hv1 : 0 < v1) by (pose proof Base_pos; lia).
  assert (Hvpos : 0 < v) by (assert (0 < P * v1) by (by apply Z.mul_pos_pos); lia).
  assert (HW0 : 0 <= W) by (pose proof (val_range _ Dw); lia).
  assert (Hq : 0 <= q < Base) by (split; [apply Z.div_pos; lia|apply Z.div_lt_upper_bound; lia]).
  assert (Hqv : q * v <= W < (q + 1) * v).
  { pose proof (Z.mul_div_le W v Hvpos). pose proof (Z.mul_succ_div_gt W v Hvpos). fold q in H, H0. lia. }
  pose proof (digdiv_trial v1 u2 u1 v W q P Dv1 Du2 Du1 Hnorm HP ltac:(lia) ltac:(lia) Hq Hqv) as (Hd0 & Hq0).
  set (qd0 := if u1 <? v1 then _ else _) in *.
  destruct (decide (lv = [])) as [->|Hne].
  - (* one digit: the trial is exact *)
    assert (Hsmall : u1 < v1).
    { destruct lw; [|done]. rewrite Ev, Ew in Hlt. change P with 1 in Hlt. simpl in Hlt. clear -Hlt Du2 Du1. unfold digit, Base in *. lia. }
    exists qd0, []. change (1 <? vn) with false. cbv match. rewrite upd_nil. split; [done|]. split; [by compute|]. split; [constructor|]. split; [done|]. cbv zeta. fold q.
    assert (qd0 = q) as ->; [|lia]. unfold qd0. destruct (Z.ltb_spec u1 v1); [|lia]. unfold q. destruct lw; [|done]. f_equal; [|].
    + rewrite Ew. change P with 1. simpl. ring.
    + rewrite Ev. change P with 1. simpl. ring.
  - (* two digits and more *)
    destruct (snoc_inv1 lv Hne) as (ly & v2 & ->). assert (Hw2 : lw <> []) by (intros ->; destruct ly; done).
    destruct (snoc_inv1 lw Hw2) as (lx & u3 & ->).
    pose proof (proj1 (digits_app _ _) Dlv) as [Dly [Dv2 _]%digits_cons]. pose proof (proj1 (digits_app _ _) Dlw) as [Dlx [Du3 _]%digits_cons].
    assert (Evn : vn = Zlen ly + 2) by (unfold vn; rewrite Zlen_app; change (Zlen [v2]) with 1; lia). clearbody vn.
    rewrite !Zlen_app in Ez. rewrite Zlen_app in Hv. change (Zlen [v2]) with 1 in *. change (Zlen [u3]) with 1 in *.
    pose proof (Zlen_nonneg ly).
    destruct (Z.ltb_spec 1 vn); [|lia].
    assert (Hv2 : arr h (vp +d -1) [v2; v1]).
    { rewrite <- app_assoc in Hv. apply arr_app in Hv as [_ Hv]. rewrite dadd_dadd in Hv. by replace (- (Zlen ly + 1) + Zlen ly) with (-1) in Hv by lia. }
    assert (Hu3 : arr h (up +d -2) [u3; u2; u1]).
    { rewrite <- app_assoc in Hw. apply arr_app in Hw as [_ Hw]. rewrite dadd_dadd in Hw. by replace (- vn + Zlen lx) with (-2) in Hw by lia. }
    set (P2 := Base ^ Zlen ly). assert (HP2 : 0 < P2) by (by apply pow_pos).
    assert (EP : P = P2 * Base) by (unfold P, P2; rewrite Zlen_app, Z.pow_add_r by (done || apply Zlen_nonneg); done).
    pose proof (val_range _ Dly) as Rly. pose proof (val_range _ Dlx) as Rlx. replace (Zlen lx) with (Zlen ly) in Rlx by lia. fold P2 in Rly, Rlx.
    set (v' := v2 + Base * v1). set (u' := u3 + Base * (u2 + Base * u1)).
    assert (Ev' : v = val ly + P2 * v') by (rewrite Ev, val_app, EP; fold P2; simpl; unfold v'; ring).
    assert (Ew' : W = val lx + P2 * u').
    { rewrite Ew, val_app, EP. replace (Zlen lx) with (Zlen ly) by lia. fold P2. simpl. unfold u'. ring. }
    assert (Hv' : Base <= v') by (clear -Dv2 Hv1; unfold v', digit, Base in *; lia).
    pose proof (trial_low q v W P2 v' u' HP2 ltac:(pose proof Base_pos; lia) ltac:(lia) ltac:(lia) ltac:(lia) ltac:(lia)) as Hlow.
    destruct (div_trial_run 3 h t vp up v2 v1 u3 u2 u1 qd0 q Hv2 Hu3 Dv2 Dv1 Du3 Du2 Du1 Ht Htv Htu Hd0 ltac:(lia) ltac:(lia) Hlow)
      as (qd' & l & E & L & D & R & F). fold v' u' in F.
    exists qd', l. split; [done|]. split; [unfold Zlen; lia|]. split; [done|]. split; [unfold digit in *; lia|]. cbv zeta. fold q. split; [lia|].
    assert (Hm : P2 * (qd' * v') <= W) by (assert (P2 * (qd' * v') <= P2 * u') by (apply Z.mul_le_mono_nonneg_l; lia); lia).
    pose proof (trial_high q qd' v W P2 v' HP2 ltac:(pose proof Base_pos; lia) ltac:(lia) ltac:(lia) ltac:(lia) Hm) as Hh.
    destruct (Z.le_gt_cases qd' (q + 1)) as [|Hgt]; [done|]. assert (1 * v' <= (qd' - q - 1) * v') by (apply Z.mul_le_mono_nonneg_r; lia). lia.
Qed.

(** ** The digit and the remainder *)
Lemma div_digit_run h t vp up lv v1 win : let vn := Zlen lv + 1 in
  arr h (vp +d - Zlen lv) (lv ++ [v1]) -> arr h (up +d - vn) win -> length win = S (S (length lv)) ->
  digits (lv ++ [v1]) -> digits win -> Base <= 2 * v1 -> val win < val (lv ++ [v1]) * Base ->
  room h t 3 -> room h (up +d - vn) (vn + 2) -> t.1 <> vp.1 -> t.1 <> up.1 -> vp.1 <> up.1 ->
  exists lt r ex, div_digit t vp vn up h = Ok (val win / val (lv ++ [v1]), upd (upd h t lt) (up +d - vn) (r ++ ex)) /\
  Zlen lt <= 3 /\ digits lt /\ (length ex <= 1)%nat /\ digits (r ++ ex) /\ length r = length win /\ val r = val win mod val (lv ++ [v1]).
Proof.
  intros vn Hv Hw Lw Dv Dw Hnorm Hlt Ht Hroom Htv Htu Hvu.
  destruct (trial_run h t vp up lv v1 win Hv Hw Lw Dv Dw Hnorm Hlt Ht Htv Htu) as (qd & lt & E & Llt & Dlt & Dqd & Hqd). fold vn in E. cbv zeta in Hqd.
  assert (Hrv : rd vp h = Ok (v1, h)).
  { apply (rd_run h vp v1 []). apply arr_app in Hv as [_ Hv]. rewrite dadd_dadd, Z.add_opp_diag_l, dadd_0 in Hv. done. }
  unfold div_digit. rewrite (eff_bind_ok _ _ _ _ _ Hrv). rewrite <- eff_bind_assoc, (eff_bind_ok _ _ _ _ _ E). clear E Hrv.
  set (h1 := upd h t lt). set (v := val (lv ++ [v1])) in *. set (q := val win / v) in *.
  assert (Hrt : room h t (Zlen lt)) by (eapply room_le; [exact Ht|done]).
  assert (Hv1 : arr h1 (vp +d - Zlen lv) (lv ++ [v1])) by (apply arr_upd_apart; [done|done|left; simpl; congruence]).
  assert (Hw1 : arr h1 (up +d - vn) win) by (apply arr_upd_apart; [done|done|left; simpl; congruence]).
  assert (Lv : length win = S (length (lv ++ [v1]))) by (rewrite Lw, length_app; simpl; lia).
  assert (Hvn : Zlen (lv ++ [v1]) = vn) by (rewrite Zlen_app; done).
  pose proof (mulsub_loop_run (lv ++ [v1]) win h1 (vp +d - Zlen lv) qd (up +d - vn) 0 0 Lv Hv1 Hw1 ltac:(left; simpl; congruence)) as Em.
  pose proof (vmulsub_val (lv ++ [v1]) win qd 0 0 Lv Dv Dw Dqd ltac:(done) ltac:(done) ltac:(done)) as Hm.
  destruct (vmulsub (lv ++ [v1]) win qd 0 0) as [l s]. cbn [fst snd] in Em. destruct Hm as (Ll & Dl & c & Hc & Vl). fold v in Vl.
  replace (length (lv ++ [v1])) with (Z.to_nat vn) in Em by (rewrite <- Hvn; apply to_nat_Zlen).
  replace (- Zlen lv) with (1 - vn) in Em by (unfold vn; lia). unfold mpvecdigmulsub. rewrite (eff_bind_ok _ _ _ _ _ Em). clear Em.
  assert (Zw : Zlen win = vn + 1) by (unfold Zlen in *; rewrite Lv; lia).
  assert (Zl : Zlen l = vn + 1) by (unfold Zlen in *; rewrite Ll; lia).
  pose proof (val_range _ Dw) as Rw. pose proof (val_range _ Dl) as Rl. pose proof (val_range _ Dv) as Rv. fold v in Rv.
  assert (Hvpos : 0 < v).
  { unfold v. rewrite val_app. pose proof (proj1 (digits_app _ _) Dv) as [Dlv _]. pose proof (val_range _ Dlv).
    pose proof (pow_pos (Zlen lv) (Zlen_nonneg lv)) as HP. assert (H1 : 0 < v1) by (clear -Hnorm; pose proof Base_pos; lia).
    pose proof (Z.mul_pos_pos _ _ HP H1) as H2. rewrite val_cons_nil. clear -H2 H. lia. }
  assert (Hqv : val win mod v = val win - q * v) by (rewrite Z.mod_eq by lia; fold q; ring).
  pose proof (Z.mod_pos_bound (val win) v Hvpos) as Hr. rewrite Zw in Vl, Rw. rewrite Zl in Rl. rewrite Hvn in Rv.
  assert (Epow : Base ^ (vn + 1) = Base * Base ^ vn) by (rewrite Z.add_comm; apply pow_succ; unfold vn; pose proof (Zlen_nonneg lv); lia).
  assert (Hq0 : 0 <= q) by (apply Z.div_pos; lia).
  assert (Ev : v = val (lv ++ [v1])) by done. clearbody q. clearbody v. clear Hlt Hnorm.
  remember (Base ^ (vn + 1)) as B1 eqn:EB1. remember (Base ^ vn) as B0 eqn:EB0. assert (HB : B0 < B1) by (clear -Epow Rv; unfold Base in Epow; lia).
  set (h2 := upd h1 (up +d - vn) l).
  destruct (decide (qd = q)) as [->|Hneq].
  - assert (c = 0) as -> by (destruct Hc as [[-> _]|[-> _]]; lia). destruct Hc as [[_ ->]|[? _]]; [|lia].
    exists lt, l, []. change (1 <? 0) with false. cbv match. rewrite app_nil_r. split_and!; [done|done|done|simpl; lia|done|lia|lia].
  - assert (qd = q + 1) as -> by lia. assert (c = 1) as -> by (destruct Hc as [[-> _]|[-> _]]; lia). destruct Hc as [[? _]|[_ ->]]; [lia|].
    change (-1 <? 0) with true. cbv match.
    assert (Hrl : room h1 (up +d - vn) (Zlen l)) by (rewrite Zl, <- Zw; by apply arr_room).
    assert (Hl2 : arr h2 (up +d - vn) l) by (by apply arr_upd_same).
    assert (Hv2 : arr h2 (vp +d (1 - vn)) (lv ++ [v1])).
    { apply arr_upd_apart; [done| |left; simpl; congruence]. replace (1 - vn) with (- Zlen lv) by (unfold vn; lia). done. }
    assert (Hr2 : room h2 (up +d - vn) (vn + 2)) by (apply room_upd; [done|apply room_upd; done]).
    pose proof (mpvecadd_run h2 (up +d - vn) l (vp +d (1 - vn)) (lv ++ [v1]) (up +d - vn) ltac:(lia) Hl2 Hv2) as Ea.
    rewrite Zl, Hvn in Ea. specialize (Ea ltac:(eapply room_le; [exact Hr2|lia]) ltac:(right; left; lia) ltac:(left; simpl; congruence)).
    rewrite (eff_bind_ok _ _ _ _ _ Ea). clear Ea.
    destruct (vadd_val l (lv ++ [v1]) ltac:(lia) Dl Dv) as (Da & La & Va). set (la := vadd l (lv ++ [v1])) in *. clearbody la. rewrite <- Ev in Va.
    destruct (snoc_inv1 la ltac:(intros ->; done)) as (r & ex & ->). rewrite length_app in La. simpl in La.
    pose proof (proj1 (digits_app _ _) Da) as [Dr [Dex _]%digits_cons]. pose proof (val_range _ Dr) as Rr.
    assert (Zr : Zlen r = vn + 1) by (clear -La Zl; unfold Zlen in *; lia). rewrite Zr, <- EB1 in Rr.
    rewrite val_app, Zr, <- EB1 in Va. simpl in Va. rewrite Z.mul_0_r, Z.add_0_r in Va.
    assert (Hsum : val r + B1 * ex = (val win - q * v) + B1) by lia.
    assert (ex = 1) as ->.
    { assert (0 <= ex) by (unfold digit in Dex; lia). assert (ex < 2) by (destruct (Z.lt_ge_cases ex 2); [done|assert (B1 * 2 <= B1 * ex) by (apply Z.mul_le_mono_nonneg_l; lia); lia]).
      destruct (decide (ex = 0)) as [->|]; [lia|lia]. }
    exists lt, r, [1]. rewrite digit_small by (unfold digit in *; lia). replace (q + 1 - 1) with q by lia. split_and!; [|done|done|simpl; lia|done|lia|lia].
    unfold mret, eff_ret. do 2 f_equal. unfold h2. apply upd_cover; [rewrite length_app; simpl; lia|].
    eapply room_le; [apply room_upd; [exact Hrt|exact Hroom]|]. rewrite Zlen_app, Zr. change (Zlen [1]) with 1. lia.
Qed.
