(* ===== verification/MpDiv.v ===== *)
(** Division of integers, [mpdiv.c]: the loop over the digits of the quotient and
    the whole routine. *)

From S2P Require Import Prelude Eff MpVec MpHeap MpVecThm MpCmp MpMul MpVecMul MpKaratsuba MpInt MpState MpArith MpShift MpDigit.

(** * The loop *)

(** Storing digits in one integer: the state after it. *)
Lemma store_step s b m i k : wf s -> 0 < b -> ints s !! b = Some m -> 0 <= i -> i + Zlen k <= mp_size m -> digits k ->
  let h := upd (digs s) (mp_p m, i) k in wf (store s h) /\ frame b s (store s h) /\ room (digs s) (mp_p m, i) (Zlen k).
Proof.
  intros W Hb Hm Hi Hk Hd h. destruct (wf_arr _ _ _ W Hm) as (l & Hl & Hz & _).
  destruct (store_wf s b m i k l W Hb Hm Hl Hi Hk Hd) as (W' & F' & _). split_and!; [done|done|]. exists l. simpl. split_and!; [done|done|lia].
Qed.

Lemma int_room s b m i n : wf s -> ints s !! b = Some m -> 0 <= i -> i + n <= mp_size m -> room (digs s) (mp_p m, i) n.
Proof. intros W Hm Hi Hn. destruct (wf_arr _ _ _ W Hm) as (l & Hl & Hz & _). exists l. simpl. split_and!; [done|done|lia]. Qed.

Section Loop.
Context (t u v quotient : Z).
Context (mt mv : mpint).
Context (lo : list Z) (v1 : Z).
Let lv := lo ++ [v1].
Let vn := Zlen lo + 1.

Record div_names : Prop := {
  nm_t : 0 < t; nm_u : 0 < u; nm_tu : t <> u; nm_tv : t <> v; nm_uv : u <> v;
  nm_q : quotient = nil \/ (0 < quotient /\ quotient <> t /\ quotient <> u /\ quotient <> v);
}.
Hypothesis N : div_names.
Hypothesis Dv : digits lv.
Hypothesis Hnorm : Base <= 2 * v1.

(** Before a digit: the dividend's top, the place for the digit. *)
Record div_ready (s : mpstate) (mu : mpint) (lu : list Z) (n : nat) : Prop := {
  rd_wf : wf s;
  rd_t : ints s !! t = Some mt; rd_t3 : 3 <= mp_size mt;
  rd_v : ints s !! v = Some mv; rd_lv : arr (digs s) (mp_p mv, 0) lv;
  rd_u : ints s !! u = Some mu; rd_lu : arr (digs s) (mp_p mu, 0) lu; rd_du : digits lu;
  rd_len : length lu = (n + S (length lo))%nat; rd_top : mp_top mu = Zlen lu; rd_size : Zlen lu + 1 <= mp_size mu;
  rd_win : val lu < Base ^ Z.of_nat n * val lv;
}.

Definition quot_ready (s : mpstate) (mq : mpint) (n : nat) (qhi : list Z) : Prop :=
  quotient = nil \/ (ints s !! quotient = Some mq /\ arr (digs s) (mp_p mq, Z.of_nat n) qhi /\ Z.of_nat n <= mp_size mq).

Lemma val_lv_pos : 0 < val lv.
Proof.
  unfold lv. rewrite val_app, val_cons_nil. pose proof (proj1 (digits_app _ _) Dv) as [D _]. pose proof (val_range _ D).
  assert (H1 : 0 < v1) by (pose proof Base_pos; lia). pose proof (Z.mul_pos_pos _ _ (pow_pos (Zlen lo) (Zlen_nonneg lo)) H1). lia.
Qed.

Lemma lv_len : Zlen lv = vn.
Proof. unfold lv, vn. by rewrite Zlen_app. Qed.

(** A remainder fits in the digits of the divisor. *)
Lemma rem_top r : digits r -> Zlen r = vn + 1 -> val r < val lv -> exists r0, r = r0 ++ [0] /\ digits r0 /\ Zlen r0 = vn /\ val r0 = val r.
Proof.
  intros Dr Lr Hr. assert (Hne : r <> []) by (intros ->; unfold vn in *; pose proof (Zlen_nonneg lo); unfold Zlen in *; simpl in *; lia).
  destruct (snoc_inv1 r Hne) as (r0 & x & ->). rewrite Zlen_app in Lr. change (Zlen [x]) with 1 in Lr.
  pose proof (proj1 (digits_app _ _) Dr) as [D0 [Dx _]%digits_cons]. pose proof (val_range _ D0) as R0. pose proof (val_range _ Dv) as Rv. rewrite lv_len in Rv.
  assert (E0 : Zlen r0 = vn) by lia. rewrite val_app, val_cons_nil, E0 in Hr. rewrite E0 in R0.
  assert (x = 0) as ->.
  { destruct (Z.eq_dec x 0) as [|Hx]; [done|]. unfold digit in Dx. assert (Base ^ vn * 1 <= Base ^ vn * x) by (apply Z.mul_le_mono_nonneg_l; lia). lia. }
  exists r0. split_and!; [done|done|done|]. rewrite val_app. simpl. lia.
Qed.

Lemma block_apart s b c m k i n j l : wf s -> ints s !! b = Some m -> ints s !! c = Some k -> c <> b -> apart (mp_p k, i) n (mp_p m, j) l.
Proof. intros W Hm Hk Hc. left. exact (other_block s b c m k W Hm Hk Hc). Qed.

Lemma ready_blocks s mu lu n : div_ready s mu lu n ->
  mp_p mt <> mp_p mv /\ mp_p mt <> mp_p mu /\ mp_p mv <> mp_p mu.
Proof.
  intros [W It T3 Iv Av Iu Au Du Lu Tu Su Hw]. pose proof (other_block s) as O. destruct N as [N1 N2 N3 N4 N5 N6].
  split_and!; [by apply (O v t mv mt)|by apply (O u t mu mt)|apply (O u v mu mv); done].
Qed.

(** One digit of the quotient. *)
Lemma div_digit_step s mu lu n : div_ready s mu lu (S n) ->
  exists s' lu' qd, vec (div_digit (mp_p mt, 0) (mp_p mv, Zlen lo) vn (mp_p mu, Z.of_nat n + vn)) s = Ok (qd, s') /\ wf s' /\ frames [t; u] s s' /\
  ints s' = ints s /\ digit qd /\ arr (digs s') (mp_p mu, 0) lu' /\ digits lu' /\ length lu' = (n + S (length lo))%nat /\
  val lu = Base ^ Z.of_nat n * (qd * val lv) + val lu' /\ val lu' < Base ^ Z.of_nat n * val lv.
Proof.
  intros R. destruct (ready_blocks _ _ _ _ R) as (Btv & Btu & Bvu). destruct R as [W It T3 Iv Av Iu Au Du Lu Tu Su Hw].
  set (win := drop n lu) in *. pose proof (pow_pos (Z.of_nat n) ltac:(lia)) as HP.
  assert (Vlu : val lu = val (take n lu) + Base ^ Z.of_nat n * val win) by (apply val_split; lia).
  pose proof (val_range (take n lu) ltac:(by apply digits_take)) as Rt. rewrite Zlen_take in Rt by lia.
  assert (Hwin : val win < val lv * Base).
  { apply (Z.mul_lt_mono_pos_l (Base ^ Z.of_nat n)); [done|]. rewrite Nat2Z.inj_succ, Z.pow_succ_r in Hw by lia. lia. }
  clear Hw. rename Hwin into Hw.
  assert (Lw : length win = S (S (length lo))) by (unfold win; rewrite length_drop; lia).
  assert (Zlu : Zlen lu = Z.of_nat n + vn + 1) by (unfold vn, Zlen; lia).
  assert (Aw : arr (digs s) ((mp_p mu, Z.of_nat n + vn) +d - vn) win).
  { unfold dadd. simpl. replace (Z.of_nat n + vn + - vn) with (Z.of_nat n) by lia. apply (arr_drop (digs s) (mp_p mu, 0)); [done|lia]. }
  assert (Av' : arr (digs s) ((mp_p mv, Zlen lo) +d - Zlen lo) lv) by (unfold dadd; simpl; by rewrite Z.add_opp_diag_r).
  assert (Ru : room (digs s) ((mp_p mu, Z.of_nat n + vn) +d - vn) (vn + 2)).
  { unfold dadd. simpl. apply (int_room s u mu); [done|done|lia|lia]. }
  destruct (div_digit_run (digs s) (mp_p mt, 0) (mp_p mv, Zlen lo) (mp_p mu, Z.of_nat n + vn) lo v1 win Av' Aw Lw Dv ltac:(by apply digits_drop) Hnorm Hw
    ltac:(by apply (int_room s t mt)) Ru Btv Btu Bvu) as (lt & r & ex & E & Llt & Dlt & Lex & Drx & Lr & Vr). fold vn lv in E, Vr.
  set (up := (mp_p mu, Z.of_nat n + vn)) in *. assert (Eup : up +d - vn = (mp_p mu, Z.of_nat n)) by (unfold up, dadd; simpl; f_equal; lia). rewrite Eup in *.
  pose proof (proj1 (digits_app _ _) Drx) as [Dr Dex]. pose proof val_lv_pos as Hv.
  assert (Zw : Zlen win = vn + 1) by (unfold vn, Zlen in *; lia). assert (Zr : Zlen r = vn + 1) by (unfold Zlen in *; lia).
  destruct (rem_top r Dr Zr) as (r0 & -> & D0 & L0 & V0); [rewrite Vr; by apply Z.mod_pos_bound|].
  destruct (store_step s t mt 0 lt W (nm_t N) It ltac:(lia) ltac:(lia) Dlt) as (W1 & F1 & Rlt). set (s1 := store s (upd (digs s) (mp_p mt, 0) lt)) in *.
  assert (Zrx : Zlen ((r0 ++ [0]) ++ ex) <= vn + 2) by (rewrite Zlen_app, Zr; unfold Zlen; lia).
  destruct (store_step s1 u mu (Z.of_nat n) ((r0 ++ [0]) ++ ex) W1 (nm_u N) Iu ltac:(lia) ltac:(lia) Drx) as (W2 & F2 & Rx).
  set (s2 := store s1 _) in *.
  assert (At : arr (digs s2) (mp_p mu, 0) (take n lu ++ r0)).
  { assert (Zt : Zlen (take n lu) = Z.of_nat n) by (apply Zlen_take; lia).
    apply arr_app. rewrite Zt. split.
    - apply arr_upd_apart; [done| |right; left; simpl; lia]. apply arr_upd_apart; [done|by apply arr_take|apply (block_apart s t u mt mu); [done|done|done|]; intros E0; by apply (nm_tu N)].
    - pose proof (arr_upd_same (digs s1) (mp_p mu, Z.of_nat n) _ Rx) as Ax. do 2 apply arr_app in Ax as [Ax _]; exact Ax. }
  assert (Hq : 0 <= val win / val lv < Base).
  { pose proof (val_range win ltac:(by apply digits_drop)). split; [apply Z.div_pos; lia|apply Z.div_lt_upper_bound; lia]. }
  exists s2, (take n lu ++ r0), (val win / val lv). split; [apply vec_run in E; exact E|]. split; [done|].
  split; [eapply frames_trans; [eapply frame_frames; [by left|exact F1]|eapply frame_frames; [right; by left|exact F2]]|].
  split; [done|]. split; [exact Hq|]. split; [done|]. split; [apply digits_app; split; [by apply digits_take|done]|].
  split; [rewrite length_app, length_take; unfold vn, Zlen in *; lia|]. split.
  - rewrite Vlu, val_app, Zlen_take by lia. rewrite V0, Vr, Z.mod_eq by lia. ring.
  - rewrite val_app, Zlen_take, V0, Vr by lia. pose proof (Z.mod_pos_bound (val win) (val lv) Hv).
    assert (Base ^ Z.of_nat n * (val win mod val lv + 1) <= Base ^ Z.of_nat n * val lv) by (apply Z.mul_le_mono_nonneg_l; lia). lia.
Qed.

Lemma quotient_digit s mu lu n mq qd qhi qp : wf s -> ints s !! u = Some mu -> arr (digs s) (mp_p mu, 0) lu -> digit qd ->
  quot_ready s mq (S n) qhi -> (quotient <> nil -> qp = (mp_p mq, Z.of_nat (S n) - 1)) ->
  exists s', (if negb (quotient =? nil) then vec (wr qp qd) else mret tt) s = Ok (tt, s') /\ wf s' /\ frames [t; u; quotient] s s' /\
  ints s' = ints s /\ arr (digs s') (mp_p mu, 0) lu /\ quot_ready s' mq n (qd :: qhi).
Proof.
  intros W Iu Au Dq Q Hqp. destruct Q as [Eq|(Iq & Aq & Sq)].
  { exists s. rewrite Eq. split; [done|]. split; [done|]. split; [apply frames_refl|]. split; [done|]. split; [done|by left]. }
  pose proof (g_nonnil _ _ _ (wf_good _ W _ _ Iq)) as Hnil.
  destruct N as [N1 N2 N3 N4 N5 [?|(Hq0 & Hqt & Hqu & Hqv)]]; [done|].
  assert (Eqp : qp = (mp_p mq, Z.of_nat n)) by (rewrite (Hqp Hnil); f_equal; lia).
  destruct (store_step s quotient mq (Z.of_nat n) [qd] W Hq0 Iq ltac:(lia) ltac:(change (Zlen [qd]) with 1; lia)) as (W' & F' & R').
  { apply digits_cons. split; [done|constructor]. }
  exists (store s (upd (digs s) (mp_p mq, Z.of_nat n) [qd])). destruct (Z.eqb_spec quotient nil) as [?|_]; [done|]. cbn [negb].
  split; [rewrite Eqp; apply vec_run; by apply wr_run|]. split; [done|]. split; [eapply frame_frames; [right; right; by left|done]|]. split; [done|]. split.
  - apply arr_upd_apart; [done|done|]. apply (block_apart s quotient u mq mu); done.
  - right. split; [done|]. split; [|lia]. change (qd :: qhi) with ([qd] ++ qhi). apply arr_app. split; [by apply arr_upd_same|].
    apply arr_upd_apart; [done| |right; right; simpl; unfold dadd; simpl; change (Zlen [qd]) with 1; lia].
    replace ((mp_p mq, Z.of_nat n) +d Zlen [qd]) with (mp_p mq, Z.of_nat (S n)); [done|]. unfold dadd. simpl. f_equal. unfold Zlen. simpl. lia.
Qed.

Lemma frames_weaken bs cs s s' : bs ⊆ cs -> frames bs s s' -> frames cs s s'.
Proof. intros H [I D M]. split; [|intros c m Hc Hm; apply (D c); [|done]|done]; [intros c Hc; apply I|]; intros Hb; by apply Hc, H. Qed.

Lemma div_loop_run n : forall s mu lu qhi mq qp, div_ready s mu lu n -> quot_ready s mq n qhi ->
  (quotient <> nil -> qp = (mp_p mq, Z.of_nat n - 1)) ->
  exists s' lr qs, div_loop n (mp_p mt, 0) (mp_p mv, Zlen lo) vn u (mp_p mu, Z.of_nat n + vn - 1) quotient qp s = Ok (tt, s') /\
  wf s' /\ frames [t; u; quotient] s s' /\ ints s' = <[u := with_top vn mu]> (ints s) /\
  arr (digs s') (mp_p mu, 0) lr /\ digits lr /\ Zlen lr = vn /\ val lr < val lv /\ digits qs /\ length qs = n /\
  (quotient <> nil -> arr (digs s') (mp_p mq, 0) (qs ++ qhi)) /\ val lu = val qs * val lv + val lr.
Proof.
  induction n as [|n IH]; intros s mu lu qhi mq qp R Q Hqp.
  { destruct R as [W It T3 Iv Av Iu Au Du Lu Tu Su Hw]. assert (Zlu : Zlen lu = vn) by (unfold vn, Zlen; lia).
    exists s, lu, []. split; [done|]. split; [done|]. split; [apply frames_refl|]. split.
    { rewrite insert_id; [done|]. rewrite Iu. f_equal. rewrite <- Zlu, <- Tu. by destruct mu. }
    split_and!; [done|done|done|change (Base ^ Z.of_nat 0) with 1 in Hw; lia|constructor|done| |simpl; lia].
    intros Hq. destruct Q as [?|(_ & Q & _)]; [done|]. exact Q. }
  destruct (div_digit_step s mu lu n R) as (s1 & lu1 & qd & E1 & W1 & F1 & I1 & Dqd & Au1 & Du1 & Lu1 & V1 & Hw1).
  destruct R as [W It T3 Iv Av Iu Au Du Lu Tu Su Hw]. assert (Zlu : Zlen lu = Z.of_nat n + vn + 1) by (unfold vn, Zlen; lia).
  assert (Zlu1 : Zlen lu1 = Z.of_nat n + vn) by (unfold vn, Zlen; lia).
  assert (Iu1 : ints s1 !! u = Some mu) by (by rewrite I1).
  destruct (quotient_digit s1 mu lu1 n mq qd qhi qp W1 Iu1 Au1) as (s2 & E2 & W2 & F2 & I2 & Au2 & Q2); [done| |done|].
  { destruct Q as [?|(Iq & Aq & Sq)]; [by left|right]. rewrite I1. split; [done|]. split; [|done].
    destruct N as [N1 N2 N3 N4 N5 [?|(Hq0 & Hqt & Hqu & Hqv)]]; [pose proof (g_nonnil _ _ _ (wf_good _ W _ _ Iq)); done|].
    eapply arr_same; [|exact Aq]. apply (fs_digs _ _ _ F1 quotient); [rewrite !not_elem_of_cons; split_and!; [done|done|apply not_elem_of_nil]|done]. }
  (* the top of the dividend *)
  pose proof (g_top _ _ _ (wf_good _ W _ _ Iu)) as Htop. rewrite I1 in I2.
  set (mu' := with_top (mp_top mu - 1) mu). assert (Iu2 : ints s2 !! u = Some mu) by (by rewrite I2).
  assert (Hvn : 1 <= vn) by (unfold vn; pose proof (Zlen_nonneg lo); lia).
  pose proof (good_sound _ _ _ (wf_good _ W _ _ Iu)) as (M1 & M2 & M3 & M4).
  destruct (put_wf s2 u mu mu' W2 (nm_u N) Iu2 ltac:(done) ltac:(split_and!; [done|simpl; lia|simpl; lia|done|done])) as [W3 F3].
  set (s3 := put s2 u mu') in *.
  destruct (store_step s3 u mu' (Z.of_nat n + vn) [0] W3 (nm_u N) (put_lookup _ _ _) ltac:(lia) ltac:(change (Zlen [0]) with 1; simpl; lia) (digits_zero 1)) as (W4 & F4 & R4).
  set (s4 := store s3 _) in *. change (mp_p mu') with (mp_p mu) in *.
  assert (F24 : frames [t; u; quotient] s2 s4) by (eapply frame_frames; [right; by left|]; by eapply frame_trans).
  assert (F04 : frames [t; u; quotient] s s4).
  { eapply frames_trans; [|exact F24]. eapply frames_trans; [|exact F2]. eapply frames_weaken; [|exact F1]. intros c. rewrite !elem_of_cons. tauto. }
  assert (Au4 : arr (digs s4) (mp_p mu, 0) lu1) by (apply arr_upd_apart; [done|done|right; left; simpl; lia]).
  assert (I4 : ints s4 = <[u := mu']> (ints s)) by (unfold s4, s3, put; simpl; by rewrite I2).
  assert (Hvnot : v ∉ [t; u; quotient]).
  { pose proof (g_nonnil _ _ _ (wf_good _ W _ _ Iv)). assert (v <> quotient) by (destruct N as [N1 N2 N3 N4 N5 [Eq|(Hq0 & Hqt & Hqu & Hqv)]]; congruence).
    pose proof (nm_tv N). pose proof (nm_uv N). rewrite !not_elem_of_cons. split_and!; [congruence|congruence|done|apply not_elem_of_nil]. }
  assert (R' : div_ready s4 mu' lu1 n).
  { split; try done.
    - rewrite I4, lookup_insert_ne; [done|]. intros E. by apply (nm_tu N).
    - rewrite I4, lookup_insert_ne; [done|]. by apply (nm_uv N).
    - eapply arr_same; [|exact Av]. by apply (fs_digs _ _ _ F04 v).
    - rewrite I4. apply lookup_insert_eq.
    - simpl. lia.
    - simpl. lia. }
  assert (Q' : quot_ready s4 mq n (qd :: qhi)).
  { destruct Q2 as [?|(Iq & Aq & Sq)]; [by left|right].
    destruct N as [N1 N2 N3 N4 N5 [?|(Hq0 & Hqt & Hqu & Hqv')]]; [pose proof (g_nonnil _ _ _ (wf_good _ W2 _ _ Iq)); done|].
    split; [rewrite I4, lookup_insert_ne by done; by rewrite <- I2|]. split; [|done].
    eapply arr_same; [|exact Aq]. apply (f_digs u s2 s4 ltac:(by eapply frame_trans) quotient); done. }
  destruct (IH s4 mu' lu1 (qd :: qhi) mq (qp +d -1) R' Q') as (s5 & lr & qs & E5 & W5 & F5 & I5 & Ar & Dr & Lr & Vr & Dq & Lq & Aq & V5).
  { intros Hq. rewrite (Hqp Hq). unfold dadd. simpl. f_equal. lia. }
  exists s5, lr, (qs ++ [qd]). split.
  { cbn [div_loop]. replace (Z.of_nat (S n) + vn - 1) with (Z.of_nat n + vn) by lia. rewrite (eff_bind_ok _ _ _ _ _ E1), (eff_bind_ok _ _ _ _ _ E2).
    rewrite (eff_bind_ok _ _ _ _ _ (sets_run s2 u _ mu Iu2)). fold mu' s3.
    rewrite (eff_bind_ok _ _ _ _ _ (vec_run _ s3 _ _ (wr_run (digs s3) (mp_p mu, Z.of_nat n + vn) 0 R4))). fold s4.
    exact E5. }
  split; [done|]. split; [by eapply frames_trans|]. split; [by rewrite I5, I4, insert_insert_eq|].
  split_and!; [done|done|done|done|apply digits_app; split; [done|apply digits_cons; split; [done|constructor]]|rewrite length_app; simpl; lia|by rewrite <- app_assoc|].
  rewrite V1, V5, val_app, val_cons_nil. replace (Zlen qs) with (Z.of_nat n) by (unfold Zlen; lia). ring.
Qed.

End Loop.
