(* ===== verification/MpDivInt.v ===== *)
(** Division of integers, [mpdiv.c] and [mpmod.c]: what is done before and after
    the loop, and the whole routines. *)

From S2P Require Import Prelude Eff MpVec MpHeap MpVecThm MpCmp MpMul MpVecMul MpKaratsuba MpInt MpState MpArith MpShift MpGrow MpDigit MpDiv.

(** * D1: the shift *)

Lemma high_bit_clear q : digit q -> (Z.land q mpdighi =? 0) = (q <? 2 ^ 31).
Proof.
  intros Hq. pose proof (has_bit (Mp 0 0 0 0 q) 31 ltac:(done)) as E. unfold has in E. cbn [mp_flags] in E.
  apply (f_equal negb) in E. rewrite negb_involutive in E. unfold mpdighi. rewrite E. unfold digit, Base in Hq.
  destruct (Z.ltb_spec q (2 ^ 31)).
  - apply negb_true_iff, Z.testbit_false; [done|]. by rewrite Z.div_small by lia.
  - apply negb_false_iff, Z.testbit_true; [done|]. replace (q / 2 ^ 31) with 1; [done|]. apply (Z.div_unique q (2 ^ 31) 1 (q - 2 ^ 31)); lia.
Qed.

Lemma high_zeros_run n : forall q s, 0 < q < Base -> 2 ^ 31 <= q * 2 ^ Z.of_nat n ->
  exists k, high_zeros n q s = s + k /\ 0 <= k /\ 2 ^ 31 <= q * 2 ^ k < 2 ^ 32.
Proof.
  induction n as [|n IH]; intros q s Hq Hn.
  { exists 0. change (2 ^ Z.of_nat 0) with 1 in Hn. rewrite Z.add_0_r. split; [done|]. unfold Base in Hq. change (2 ^ 0) with 1. lia. }
  cbn [high_zeros]. rewrite high_bit_clear by (unfold digit; lia). destruct (Z.ltb_spec q (2 ^ 31)) as [Hlt|Hge].
  - assert (E2 : u32 (Z.shiftl q 1) = 2 * q) by (rewrite Z.shiftl_mul_pow2 by done; rewrite digit_small by (unfold digit, Base; lia); lia).
    rewrite E2. rewrite Nat2Z.inj_succ, Z.pow_succ_r in Hn by lia.
    destruct (IH (2 * q) (s + 1)) as (k & Ek & Hk & Hr); [unfold Base; lia|lia|].
    exists (1 + k). split; [rewrite Ek; lia|]. split; [lia|]. rewrite Z.pow_add_r by lia. lia.
  - exists 0. rewrite Z.add_0_r. split; [done|]. split; [done|]. unfold Base in Hq. change (2 ^ 0) with 1. lia.
Qed.

(** The shift of a digit that is not zero. *)
Lemma shift_run q : 0 < q < Base -> exists k, high_zeros (Z.to_nat Dbits) q 0 = k /\ 0 <= k < 32 /\ 2 ^ 31 <= q * 2 ^ k < 2 ^ 32.
Proof.
  intros Hq. destruct (high_zeros_run (Z.to_nat Dbits) q 0 Hq) as (k & E & Hk & Hr); [change (2 ^ Z.of_nat (Z.to_nat Dbits)) with (2 ^ 32); lia|].
  exists k. split; [by rewrite E|]. split; [|done]. split; [done|]. destruct (Z.lt_ge_cases k 32) as [|Hge]; [done|].
  pose proof (Z.pow_le_mono_r 2 32 k ltac:(lia) Hge). nia.
Qed.

(** A number between powers of the base has as many digits. *)
Lemma digits_count l x k : digits (l ++ [x]) -> x <> 0 -> 0 <= k -> Base ^ k <= val (l ++ [x]) < Base ^ (k + 1) -> Zlen l = k.
Proof.
  intros D Hx Hk Hv. pose proof (val_low (l ++ [x]) D ltac:(by destruct l) ltac:(rewrite last_snoc; congruence)) as H1.
  pose proof (val_range _ D) as [_ H2]. rewrite Zlen_app in H1, H2. change (Zlen [x]) with 1 in *. rewrite Z.add_simpl_r in H1. pose proof (Zlen_nonneg l).
  destruct (Z.lt_trichotomy (Zlen l) k) as [Hlt|[|Hgt]]; [|done|].
  - pose proof (Z.pow_le_mono_r Base (Zlen l + 1) k ltac:(done) ltac:(lia)). lia.
  - pose proof (Z.pow_le_mono_r Base (k + 1) (Zlen l) ltac:(done) ltac:(lia)). lia.
Qed.

Lemma nonempty_top l : digits l -> 0 < val l -> (l <> [] -> last l <> Some 0) -> exists lo x, l = lo ++ [x] /\ digits lo /\ 0 < x < Base.
Proof.
  intros D Hv Hl. destruct (snoc_inv1 l) as (lo & x & ->); [by intros ->|]. exists lo, x. split; [done|].
  apply digits_app in D as [D [Dx _]%digits_cons]. split; [done|]. specialize (Hl ltac:(by destruct lo)). rewrite last_snoc in Hl. unfold digit in Dx.
  assert (x <> 0) by congruence. lia.
Qed.

(** The divisor [Y] with [y1] as its top digit, after the shift. *)
Lemma shifted_top lv Y y1 k n : digits lv -> (lv <> [] -> last lv <> Some 0) -> val lv = Y * 2 ^ k -> 0 <= k < 32 -> 0 < y1 -> 0 <= n ->
  Base ^ n * y1 <= Y < Base ^ n * (y1 + 1) -> 2 ^ 31 <= y1 * 2 ^ k < 2 ^ 32 ->
  exists lo v1, lv = lo ++ [v1] /\ Zlen lo = n /\ Base <= 2 * v1.
Proof.
  intros D Hl Hv Hk Hy1 Hn HY Hr. pose proof (pow_pos n Hn) as HP. set (P := Base ^ n) in *. pose proof (Z.pow_pos_nonneg 2 k ltac:(lia) ltac:(lia)) as H2.
  assert (Hlo : P * 2 ^ 31 <= val lv).
  { rewrite Hv. assert (P * y1 * 2 ^ k <= Y * 2 ^ k) by (apply Z.mul_le_mono_nonneg_r; lia).
    assert (P * 2 ^ 31 <= P * (y1 * 2 ^ k)) by (apply Z.mul_le_mono_nonneg_l; lia). lia. }
  assert (Hy2 : (y1 + 1) * 2 ^ k <= 2 ^ 32).
  { assert (E : 2 ^ 32 = 2 ^ (32 - k) * 2 ^ k) by (rewrite <- Z.pow_add_r by lia; f_equal; lia). rewrite E in Hr |- *.
    apply Z.mul_le_mono_nonneg_r; [lia|]. destruct Hr as [_ Hr]. apply Z.mul_lt_mono_pos_r in Hr; lia. }
  assert (Hhi : val lv < P * Base).
  { rewrite Hv. assert (Y * 2 ^ k < P * (y1 + 1) * 2 ^ k) by (apply Z.mul_lt_mono_pos_r; lia).
    assert (P * ((y1 + 1) * 2 ^ k) <= P * 2 ^ 32) by (apply Z.mul_le_mono_nonneg_l; lia). unfold Base at 1. lia. }
  destruct (nonempty_top lv D ltac:(lia) Hl) as (lo & v1 & -> & Dlo & Hv1).
  assert (El : Zlen lo = n).
  { apply (digits_count lo v1 n D ltac:(lia) Hn). fold P. rewrite Z.add_comm, pow_succ by done. fold P. lia. }
  exists lo, v1. split; [done|]. split; [done|]. pose proof (val_range lo Dlo) as Rlo. rewrite El in Rlo. fold P in Rlo.
  rewrite val_app, val_cons_nil, El in Hlo. fold P in Hlo.
  destruct (Z.le_gt_cases Base (2 * v1)) as [|Hgt]; [done|]. assert (P * (v1 + 1) <= P * 2 ^ 31) by (apply Z.mul_le_mono_nonneg_l; unfold Base in Hgt; lia). lia.
Qed.

(** * The operands *)

Lemma DIGITS_ge n r : 0 <= n -> 0 <= r -> n <= DIGITS (n * Dbits + r).
Proof. intros Hn Hr. unfold DIGITS, Dbits. rewrite Z.quot_div_nonneg by lia. Z.div_mod_to_equations; lia. Qed.

(** A copy shifted to the left into a new integer. *)
Lemma shifted_copy s b x t k n : wf s -> Num s b x -> 0 < t -> Num s t 0 -> (exists m, ints s !! t = Some m /\ n <= mp_size m) -> 0 <= k ->
  exists s', mpleft b k t s = Ok (tt, s') /\ wf s' /\ frame t s s' /\ Num s' t (x * 2 ^ k) /\ exists m, ints s' !! t = Some m /\ n <= mp_size m.
Proof.
  intros W Hx Ht Ht0 (m & Hm & Hs) Hk. destruct (mpleft_run s b t x k W Ht Hx (num_flagged _ _ _ Ht0)) as (s' & E & W' & F' & N').
  destruct (growing_mpleft b k t s _ s' E t m Hm) as (m' & Hm' & Hs'). exists s'. split; [done|]. split; [done|]. split; [done|]. split; [|exists m'; split; [done|lia]].
  destruct (Z.ltb_spec 0 k); [done|]. assert (k = 0) as -> by lia. change (2 ^ - 0) with 1 in N'. by rewrite Z.quot_1_r, <- (Z.mul_1_r x) in N'.
Qed.

(** The integers made by [div_operands]. *)
Record operands (s s1 : mpstate) (divisor quotient remainder u v x y k n : Z) : Prop := {
  op_wf : wf s1;
  op_u : 0 < u; op_fresh : ints s !! u = None;
  op_v : (v = divisor /\ divisor <> quotient /\ divisor <> remainder) \/ (0 < v /\ ints s !! v = None /\ v <> u);
  op_frame : frames (if decide (v = divisor) then [u] else [u; v]) s s1;
  op_x : Num s1 u (x * 2 ^ k); op_size : exists m, ints s1 !! u = Some m /\ n <= mp_size m;
  op_y : Num s1 v (y * 2 ^ k);
}.

Lemma div_operands_run s dividend divisor quotient remainder x y k md : wf s -> ints s !! dividend = Some md -> Num s dividend x -> Num s divisor y -> 0 <= k ->
  exists u v s1, div_operands dividend divisor quotient remainder k s = Ok ((u, v), s1) /\
  operands s s1 divisor quotient remainder u v x y k (mp_top md + 2).
Proof.
  intros W Hmd Hx Hy Hk. unfold div_operands. rewrite (eff_bind_ok _ _ _ _ _ (geti_run _ _ _ Hmd)).
  pose proof (g_top _ _ _ (wf_good _ W _ _ Hmd)) as Htop. pose proof (DIGITS_ge (mp_top md + 2) k ltac:(lia) Hk) as HD.
  destruct (mpnew_run s ((mp_top md + 2) * Dbits + k) W ltac:(unfold Dbits; lia)) as (u & s1 & E1 & W1 & F1 & Hu & Hfr & N1 & mu & Hmu & Hsz & _).
  rewrite (eff_bind_ok _ _ _ _ _ E1).
  destruct (num_int _ _ _ Hx) as [mx Imx]. destruct (num_int _ _ _ Hy) as [my Imy].
  assert (Hdu : dividend <> u) by congruence. assert (Hvu : divisor <> u) by congruence.
  pose proof (frame_num u s s1 dividend x F1 Hdu Hx) as Hx1. pose proof (frame_num u s s1 divisor y F1 Hvu Hy) as Hy1.
  destruct ((k =? 0) && negb (divisor =? quotient) && negb (divisor =? remainder)) eqn:Ek.
  - apply andb_true_iff in Ek as [[Ek Eq]%andb_true_iff Er]. zbool. subst k.
    destruct (mpassign_run s1 dividend u x mu W1 Hu Hmu Hx1) as (s2 & E2 & W2 & F2 & N2). rewrite (eff_bind_ok _ _ _ _ _ E2).
    destruct (growing_mpassign dividend u s1 _ s2 E2 u mu Hmu) as (mu2 & Hmu2 & Hs2).
    assert (E0 : forall z, z * 2 ^ 0 = z) by (intros z; rewrite Z.pow_0_r; lia).
    exists u, divisor, s2. split; [done|]. split; try done.
    + left. split_and!; done.
    + rewrite decide_True by done. apply frames_one. by eapply frame_trans.
    + by rewrite E0.
    + exists mu2. split; [done|lia].
    + rewrite E0. by eapply frame_num.
  - destruct (shifted_copy s1 dividend x u k (mp_top md + 2) W1 Hx1 Hu N1 ltac:(exists mu; split; [done|lia]) Hk) as (s2 & E2 & W2 & F2 & N2 & Hs2).
    rewrite (eff_bind_ok _ _ _ _ _ E2). pose proof (frame_num u s1 s2 divisor y F2 Hvu Hy1) as Hy2. destruct (num_int _ _ _ Hy2) as [mv Hmv].
    rewrite (eff_bind_ok _ _ _ _ _ (geti_run _ _ _ Hmv)). pose proof (g_top _ _ _ (wf_good _ W2 _ _ Hmv)) as Htv.
    destruct (mpnew_run s2 (mp_top mv * Dbits) W2 ltac:(unfold Dbits; lia)) as (v & s3 & E3 & W3 & F3 & Hv & Hfv & N3 & mv3 & Hmv3 & _).
    rewrite (eff_bind_ok _ _ _ _ _ E3). destruct Hs2 as (mu2 & Hmu2 & Hs2).
    assert (Huv : u <> v) by congruence. assert (Hdv : divisor <> v) by congruence.
    destruct (shifted_copy s3 divisor y v k 0 W3 ltac:(by eapply frame_num) Hv N3 ltac:(exists mv3; split; [done|pose proof (g_top _ _ _ (wf_good _ W3 _ _ Hmv3)); lia]) Hk)
      as (s4 & E4 & W4 & F4 & N4 & _).
    rewrite (eff_bind_ok _ _ _ _ _ E4). exists u, v, s4. split; [done|].
    assert (F24 : frame v s2 s4) by (by eapply frame_trans). assert (F02 : frame u s s2) by (by eapply frame_trans).
    assert (Hfv0 : ints s !! v = None) by (rewrite <- (f_ints _ _ _ F02); [done|congruence]).
    split; try done.
    + right. split_and!; congruence.
    + rewrite decide_False by congruence. eapply frames_trans; [eapply frame_frames; [by left|exact F02]|]. eapply frame_frames; [right; by left|exact F24].
    + by eapply frame_num.
    + exists mu2. split; [by rewrite (f_ints _ _ _ F24)|done].
Qed.

(** * D1a *)

(** The dividend when the loop starts. *)
Record pushed (s : mpstate) (u : Z) (mu : mpint) (lu lv : list Z) : Prop := {
  pu_int : ints s !! u = Some mu;
  pu_arr : arr (digs s) (mp_p mu, 0) lu;
  pu_digits : digits lu;
  pu_top : mp_top mu = Zlen lu;
  pu_size : Zlen lu + 1 <= mp_size mu;
  pu_len : Zlen lv <= Zlen lu;
  pu_val : val lu < Base ^ (Zlen lu - Zlen lv) * val lv;
}.

(** Shorter and not less is impossible; how far the digits of the divisor reach. *)
Lemma divisor_len lo v1 lu : digits (lo ++ [v1]) -> digits lu -> 0 < v1 -> val (lo ++ [v1]) <= val lu -> Zlen lo + 1 <= Zlen lu.
Proof.
  intros Dv Du Hv1 Hle. apply digits_app in Dv as [Dlo _]. pose proof (val_range lo Dlo). pose proof (val_range lu Du) as [_ Hu]. rewrite val_app, val_cons_nil in Hle.
  pose proof (pow_pos (Zlen lo) (Zlen_nonneg _)) as HP. assert (Base ^ Zlen lo * 1 <= Base ^ Zlen lo * v1) by (apply Z.mul_le_mono_nonneg_l; lia).
  destruct (Z.le_gt_cases (Zlen lo + 1) (Zlen lu)) as [|Hgt]; [done|]. pose proof (Z.pow_le_mono_r Base (Zlen lu) (Zlen lo) ltac:(done) ltac:(lia)). lia.
Qed.

Lemma push_val lo v1 lw u1 : digits (lo ++ [v1]) -> digits (lw ++ [u1]) -> 0 < v1 -> Zlen lo <= Zlen lw ->
  (u1 < v1 -> val (lw ++ [u1]) < Base ^ (Zlen lw - Zlen lo) * val (lo ++ [v1])) /\
  val (lw ++ [u1]) < Base ^ (Zlen lw - Zlen lo + 1) * val (lo ++ [v1]).
Proof.
  intros Dv Du Hv1 Hlen. pose proof (val_range _ Du) as [_ Hu]. rewrite Zlen_app in Hu. change (Zlen [u1]) with 1 in Hu.
  apply digits_app in Dv as [Dlo _]. apply digits_app in Du as [Dlw _]. pose proof (val_range lo Dlo). pose proof (val_range lw Dlw) as [_ Hw].
  pose proof (Zlen_nonneg lo). pose proof (pow_pos (Zlen lo) ltac:(done)) as HP. pose proof (pow_pos (Zlen lw - Zlen lo) ltac:(lia)) as HQ.
  assert (E : Base ^ Zlen lw = Base ^ (Zlen lw - Zlen lo) * Base ^ Zlen lo) by (rewrite <- Z.pow_add_r by lia; f_equal; lia).
  rewrite (val_app lo), val_cons_nil. set (P := Base ^ Zlen lo) in *. set (Q := Base ^ (Zlen lw - Zlen lo)) in *. split.
  - intros Hlt. rewrite val_app, val_cons_nil, E. rewrite E in Hw.
    assert (Q * P * (u1 + 1) <= Q * P * v1) by (apply Z.mul_le_mono_nonneg_l; lia).
    assert (0 <= Q * val lo) by (apply Z.mul_nonneg_nonneg; lia). lia.
  - rewrite Z.pow_add_r, Z.pow_1_r by lia. fold Q. rewrite Z.pow_add_r, Z.pow_1_r, E in Hu by lia.
    assert (Q * Base * (P * 1) <= Q * Base * (val lo + P * v1)); [|lia].
    apply Z.mul_le_mono_nonneg_l; [pose proof Base_pos; lia|]. assert (P * 1 <= P * v1) by (apply Z.mul_le_mono_nonneg_l; lia). lia.
Qed.

Lemma div_push_run s u mu lu lo v1 vp : wf s -> 0 < u -> ints s !! u = Some mu -> arr (digs s) (mp_p mu, 0) lu -> digits lu -> mp_top mu = Zlen lu ->
  arr (digs s) vp [v1] -> digits (lo ++ [v1]) -> 0 < v1 -> val (lo ++ [v1]) <= val lu -> Zlen lu + 1 <= mp_size mu ->
  (forall lw u1, lu = lw ++ [u1] -> v1 <= u1 -> Zlen lu + 2 <= mp_size mu) ->
  exists s' mu' lu', div_push u (mp_p mu, mp_top mu - 1) vp s = Ok ((mp_p mu, Zlen lu' - 1), s') /\ wf s' /\ frame u s s' /\
  pushed s' u mu' lu' (lo ++ [v1]) /\ mp_p mu' = mp_p mu /\ mp_sign mu' = mp_sign mu /\ val lu' = val lu.
Proof.
  intros W Hu Iu Au Du Tu Av Dv Hv1 Hle Hs1 Hs2. pose proof (divisor_len lo v1 lu Dv Du Hv1 Hle) as Hlen.
  destruct (snoc_inv1 lu) as (lw & u1 & ->); [intros ->; pose proof (Zlen_nonneg lo); unfold Zlen in *; simpl in *; lia|].
  assert (El : Zlen (lw ++ [u1]) = Zlen lw + 1) by (by rewrite Zlen_app). assert (Elv : Zlen (lo ++ [v1]) = Zlen lo + 1) by (by rewrite Zlen_app).
  destruct (push_val lo v1 lw u1 Dv Du Hv1 ltac:(lia)) as [Hno Hyes]. pose proof (Zlen_nonneg lw).
  unfold div_push. assert (Hru : rd (mp_p mu, mp_top mu - 1) (digs s) = Ok (u1, digs s)).
  { apply (rd_run _ _ _ []). pose proof (proj2 (proj1 (arr_app (digs s) (mp_p mu, 0) lw [u1]) Au)) as A1. unfold dadd in A1. simpl in A1. by replace (mp_top mu - 1) with (Zlen lw) by lia. }
  rewrite (eff_bind_ok _ _ _ _ _ (vec_read _ _ _ Hru)), (eff_bind_ok _ _ _ _ _ (vec_read _ _ _ (rd_run (digs s) vp v1 [] Av))).
  destruct (Z.leb_spec v1 u1) as [Hge|Hlt].
  - specialize (Hs2 lw u1 eq_refl Hge). destruct (store_step s u mu (mp_top mu) [0] W Hu Iu ltac:(lia) ltac:(change (Zlen [0]) with 1; lia) (digits_zero 1)) as (W1 & F1 & R1).
    assert (Eup : (mp_p mu, mp_top mu - 1) +d 1 = (mp_p mu, mp_top mu)) by (unfold dadd; simpl; f_equal; lia). rewrite Eup.
    rewrite (eff_bind_ok _ _ _ _ _ (vec_run _ _ _ _ (wr_run _ _ 0 R1))). set (s1 := store s _) in *. set (mu' := with_top (mp_top mu + 1) mu).
    rewrite (eff_bind_ok _ _ _ _ _ (sets_run s1 u _ mu Iu)). fold mu'.
    pose proof (good_sound _ _ _ (wf_good _ W _ _ Iu)) as (S1 & S2 & S3 & S4).
    destruct (put_wf s1 u mu mu' W1 Hu Iu ltac:(done) ltac:(split_and!; [done|simpl; lia|simpl; lia|done|done])) as [W2 F2].
    assert (El' : Zlen ((lw ++ [u1]) ++ [0]) = Zlen lw + 2) by (rewrite Zlen_app, El; change (Zlen [0]) with 1; lia).
    exists (put s1 u mu'), mu', ((lw ++ [u1]) ++ [0]). split; [unfold mret, eff_ret; do 3 f_equal; lia|]. split; [done|]. split; [by eapply frame_trans|].
    split; [split|split_and!; [done|done|rewrite (val_app (lw ++ [u1])); simpl; lia]].
    + apply put_lookup.
    + apply arr_app. split; [apply arr_upd_apart; [done|done|right; left; simpl; lia]|]. replace ((mp_p mu', 0) +d Zlen (lw ++ [u1])) with (mp_p mu, mp_top mu) by (unfold dadd; simpl; f_equal; lia).
      by apply arr_upd_same.
    + apply digits_app. split; [done|apply (digits_zero 1)].
    + simpl. lia.
    + simpl. lia.
    + lia.
    + rewrite (val_app (lw ++ [u1])). replace (val [0]) with 0 by done. rewrite Z.mul_0_r, Z.add_0_r.
      replace (Zlen ((lw ++ [u1]) ++ [0]) - Zlen (lo ++ [v1])) with (Zlen lw - Zlen lo + 1) by lia. done.
  - exists s, mu, (lw ++ [u1]). split; [unfold mret, eff_ret; do 3 f_equal; lia|]. split; [done|]. split; [apply frame_refl|]. split; [|done].
    split; try done; [lia|]. replace (Zlen (lw ++ [u1]) - Zlen (lo ++ [v1])) with (Zlen lw - Zlen lo) by lia. by apply Hno.
Qed.

(** * The results *)

(** A result that is wanted. *)
Definition wanted (s : mpstate) (b : Z) : Prop := 0 < b /\ flagged s b.

Lemma nil_eqb b : (b =? nil) = false <-> b <> nil.
Proof. apply Z.eqb_neq. Qed.

Lemma div_quotient_run s u mu vn quotient : wf s -> ints s !! u = Some mu -> vn <= mp_top mu -> quotient <> u -> quotient = nil \/ wanted s quotient ->
  exists s' mq qp, div_quotient u vn quotient s = Ok (qp, s') /\ wf s' /\ frame quotient s s' /\
  (quotient <> nil -> qp = (mp_p mq, mp_top mu - vn - 1) /\ ints s' !! quotient = Some mq /\ mp_top mq = mp_top mu - vn /\ mp_top mu - vn <= mp_size mq /\
    exists mq0, ints s !! quotient = Some mq0 /\ mp_sign mq = mp_sign mq0).
Proof.
  intros W Iu Hn Hqu [->|(Hq & mq0 & Iq & _)].
  { exists s, (Mp 0 0 0 0 0), (nil, 0). split; [done|]. split; [done|]. split; [apply frame_refl|done]. }
  unfold div_quotient. rewrite (proj2 (nil_eqb quotient)) by (unfold nil; lia). cbn [negb]. rewrite (eff_bind_ok _ _ _ _ _ (geti_run _ _ _ Iu)).
  destruct (mpbits_run s quotient ((mp_top mu - vn) * Dbits) mq0 W Hq Iq) as (s1 & mq & E1 & W1 & F1 & Sz). rewrite DIGITS_mul in Sz by lia.
  rewrite (eff_bind_ok _ _ _ _ _ E1). destruct Sz as [I1 Sg Sz St _ _ _]. rewrite (eff_bind_ok _ _ _ _ _ (sets_run _ _ _ _ I1)). set (mq' := with_top _ mq).
  rewrite (eff_bind_ok _ _ _ _ _ (geti_run _ _ _ (put_lookup s1 quotient mq'))).
  pose proof (good_sound _ _ _ (wf_good _ W1 _ _ I1)) as (S1 & S2 & S3 & S4).
  destruct (put_wf s1 quotient mq mq' W1 Hq I1 ltac:(done) ltac:(split_and!; [done|simpl; lia|simpl; lia|done|done])) as [W2 F2].
  exists (put s1 quotient mq'), mq', (mp_p mq, mp_top mu - vn - 1). split; [done|]. split; [done|]. split; [by eapply frame_trans|].
  intros _. split; [done|]. split; [apply put_lookup|]. split; [done|]. split; [done|]. by exists mq0.
Qed.

(** The sign of a quotient that is not zero: it is made negative or left alone. *)
Lemma div_sign_run s dividend divisor quotient mq md mv qs : wf s -> quotient = nil \/ 0 < quotient -> quotient <> dividend -> quotient <> divisor ->
  ints s !! dividend = Some md -> ints s !! divisor = Some mv ->
  (quotient <> nil -> ints s !! quotient = Some mq /\ arr (digs s) (mp_p mq, 0) qs /\ digits qs /\ Zlen qs = mp_top mq /\ 0 < val qs) ->
  exists s', div_sign dividend divisor quotient s = Ok (tt, s') /\ wf s' /\ frame quotient s s' /\
  (quotient <> nil -> Num s' quotient ((if mp_sign md =? mp_sign mv then mp_sign mq else -1) * val qs)).
Proof.
  intros W [->|Hq] Hqd Hqv Id Iv Hmq.
  { exists s. split; [done|]. split; [done|]. split; [apply frame_refl|done]. }
  assert (Hnil : quotient <> nil) by (unfold nil; lia). destruct (Hmq Hnil) as (Iq & Aq & Dq & Lq & Vq).
  unfold div_sign. rewrite (proj2 (nil_eqb quotient)) by done. cbn [negb]. rewrite (eff_bind_ok _ _ _ _ _ (geti_run _ _ _ Iq)).
  pose proof (wf_good _ W _ _ Iq) as G. rewrite (eff_bind_ok _ _ _ _ _ (assert_run (negb (has mq MPtimesafe)) s ltac:(by rewrite (g_plain _ _ _ G)))).
  destruct (mpnorm_run s quotient mq qs W Hq Iq ltac:(by exists mq) Lq Dq) as (s1 & E1 & W1 & F1 & N1). rewrite (eff_bind_ok _ _ _ _ _ E1).
  rewrite (eff_bind_ok _ _ _ _ _ (geti_run s1 dividend md ltac:(rewrite (f_ints _ _ _ F1) by congruence; exact Id))).
  rewrite (eff_bind_ok _ _ _ _ _ (geti_run s1 divisor mv ltac:(rewrite (f_ints _ _ _ F1) by congruence; exact Iv))).
  destruct (mp_sign md =? mp_sign mv); cbn [negb].
  - exists s1. split; [done|]. split; [done|]. split; [done|]. by intros _.
  - assert (Hz : mp_sign mq * val qs <> 0) by (destruct (g_sign _ _ _ G) as [E|E]; rewrite E; lia).
    destruct (num_sign s1 quotient _ (-1) W1 Hq N1 ltac:(by right) ltac:(lia)) as (s2 & E2 & W2 & F2 & N2). rewrite E2.
    exists s2. split; [done|]. split; [done|]. split; [by eapply frame_trans|]. intros _.
    replace (-1 * val qs) with (-1 * Z.abs (mp_sign mq * val qs)); [done|]. destruct (g_sign _ _ _ G) as [E|E]; rewrite E; lia.
Qed.

(** Sign [t] and absolute value [r], normalised; a zero may have the sign -1. *)
Definition Mag (s : mpstate) (b t r : Z) : Prop :=
  exists m l, ints s !! b = Some m /\ arr (digs s) (mp_p m, 0) l /\ digits l /\ Zlen l = mp_top m /\
  has m MPnorm = true /\ (l <> [] -> last l <> Some 0) /\ mp_sign m = t /\ val l = r.

Lemma mag_num s b t r : Mag s b t r -> (r = 0 -> t = 1) -> Num s b (t * r).
Proof.
  intros (m & l & Im & Am & Dm & Lm & Nm & Sm & <- & <-) H0. exists m, l. split; [done|]. split; [done|]. split; [done|]. split; [done|]. split; [done|].
  split; [intros ->; by apply H0|done].
Qed.

Lemma num_mag s b x : wf s -> Num s b x -> Mag s b (if x <? 0 then -1 else 1) (Z.abs x).
Proof.
  intros W Hx. destruct (num_reads _ _ _ W Hx) as (m & l & [I V D L N P A S T]). exists m, l. split; [done|]. split; [exact (vec_at _ _ _ _ I V)|].
  split; [done|]. split; [done|]. split; [done|]. split; [done|]. split; [|done].
  destruct S as [[-> S]|[-> S]]; destruct (Z.ltb_spec x 0); lia.
Qed.

Lemma mag_frames bs s s' b t r : frames bs s s' -> b ∉ bs -> Mag s b t r -> Mag s' b t r.
Proof.
  intros F Hb (m & l & Hm & Ha & H). exists m, l. split; [by rewrite (fs_ints _ _ _ F)|]. split; [|done].
  eapply arr_same; [|exact Ha]. by apply (fs_digs _ _ _ F b).
Qed.

Lemma mag_sign s b t r t' m : wf s -> 0 < b -> Mag s b t r -> t' = 1 \/ t' = -1 -> ints s !! b = Some m ->
  let s' := put s b (with_sign t' m) in wf s' /\ frame b s s' /\ Mag s' b t' r.
Proof.
  intros W Hb (m' & l & Hm & Ha & Dl & Ll & Nl & Tl & _ & Vl) Ht Hm'. rewrite Hm' in Hm. injection Hm as ->.
  pose proof (good_sound _ _ _ (wf_good _ W _ _ Hm')) as (S1 & S2 & S3 & S4).
  destruct (put_wf s b m' (with_sign t' m') W Hb Hm' ltac:(done) ltac:(done)) as [W' F']. split; [done|]. split; [done|].
  exists (with_sign t' m'), l. split; [apply put_lookup|done].
Qed.

Lemma div_remainder_run s dividend u k remainder md mu lr : wf s -> remainder = nil \/ wanted s remainder -> u <> remainder -> dividend <> u ->
  ints s !! dividend = Some md -> ints s !! u = Some mu -> arr (digs s) (mp_p mu, 0) lr -> digits lr -> Zlen lr = mp_top mu -> 0 < mp_top mu -> 0 <= k ->
  exists s', div_remainder dividend u k remainder s = Ok (tt, s') /\ wf s' /\ frame remainder s s' /\
  (remainder <> nil -> let r := val lr / 2 ^ k in
    Mag s' remainder (if remainder =? dividend then (if r =? 0 then 1 else mp_sign mu) else mp_sign md) r).
Proof.
  intros W [->|(Hr & mr & Ir & Hfl)] Hur Hdu Id Iu Au Du Lu Htop Hk.
  { exists s. split; [done|]. split; [done|]. split; [apply frame_refl|done]. }
  unfold div_remainder. rewrite (proj2 (nil_eqb remainder)) by (unfold nil; lia). cbn [negb]. rewrite (eff_bind_ok _ _ _ _ _ (geti_run _ _ _ Ir)).
  rewrite (eff_bind_ok _ _ _ _ _ (assert_run (negb (has mr MPtimesafe)) s ltac:(by rewrite (g_plain _ _ _ (wf_good _ W _ _ Ir))))).
  destruct (mpright_vec (mpleft_with (fun _ _ _ => fault)) s u remainder mu mr lr k W Hr Iu ltac:(by exists mu) Du Lu ltac:(lia) ltac:(done) Ir Hfl Hk) as (s1 & E1 & W1 & F1 & N1).
  change (mpright_with (mpleft_with (fun _ _ _ => fault)) u k remainder) with (mpright u k remainder) in E1. rewrite (eff_bind_ok _ _ _ _ _ E1).
  pose proof (num_mag _ _ _ W1 N1) as M1. destruct (num_int _ _ _ N1) as [mr1 Ir1].
  set (r := val lr / 2 ^ k) in *. assert (Hr0 : 0 <= r) by (apply Z.div_pos; [by apply val_range|by apply Z.pow_pos_nonneg]).
  pose proof (g_sign _ _ _ (wf_good _ W _ _ Iu)) as Sgu.
  replace (Z.abs (mp_sign mu * r)) with r in M1 by (destruct Sgu as [E|E]; rewrite E; lia).
  assert (Es : (if mp_sign mu * r <? 0 then -1 else 1) = if r =? 0 then 1 else mp_sign mu).
  { destruct (Z.eqb_spec r 0) as [->|]; [by rewrite Z.mul_0_r|]. destruct Sgu as [E|E]; rewrite E; destruct (Z.ltb_spec (mp_sign mu * r) 0); rewrite ?E in *; case_match; zbool; lia. }
  rewrite Es in M1. destruct (Z.eqb_spec remainder dividend) as [Erd|Erd].
  - assert (Id1 : ints s1 !! dividend = Some mr1) by (by rewrite <- Erd). rewrite (eff_bind_ok _ _ _ _ _ (geti_run _ _ _ Id1)).
    rewrite (sets_id s1 remainder _ mr1 Ir1) by (by destruct mr1). exists s1. split; [done|]. split; [done|]. split; [done|]. by intros _.
  - rewrite (eff_bind_ok _ _ _ _ _ (geti_run s1 dividend md ltac:(rewrite (f_ints _ _ _ F1) by congruence; exact Id))).
    rewrite (sets_run s1 remainder _ mr1 Ir1). destruct (mag_sign s1 remainder _ r (mp_sign md) mr1 W1 Hr M1 (g_sign _ _ _ (wf_good _ W _ _ Id)) Ir1) as (W2 & F2 & M2).
    eexists. split; [done|]. split; [done|]. split; [by eapply frame_trans|]. by intros _.
Qed.

(** * The general case *)

Lemma div_values X Y k Q R : 0 < Y -> 0 <= k -> X * 2 ^ k = Q * (Y * 2 ^ k) + R -> 0 <= R < Y * 2 ^ k -> Q = X / Y /\ R / 2 ^ k = X mod Y.
Proof.
  intros HY Hk E HR. pose proof (Z.pow_pos_nonneg 2 k ltac:(lia) Hk) as HP. set (P := 2 ^ k) in *.
  assert (ER : R = (X - Q * Y) * P) by lia. assert (H0 : 0 <= X - Q * Y < Y).
  { split; [|apply (Z.mul_lt_mono_pos_r P); lia]. destruct (Z.le_gt_cases 0 (X - Q * Y)) as [|Hlt]; [done|].
    assert ((X - Q * Y) * P < 0) by (by apply Z.mul_neg_pos). lia. }
  assert (EQ : Q = X / Y) by (apply (Z.div_unique X Y Q (X - Q * Y)); lia). split; [done|].
  rewrite ER, Z.div_mul by lia. rewrite Z.mod_eq, <- EQ by lia. lia.
Qed.

(** The length of the dividend, [X] in [D] digits, after the shift. *)
Lemma dividend_len lu X k D : digits lu -> (lu <> [] -> last lu <> Some 0) -> val lu = X * 2 ^ k -> 0 <= k < 32 -> 0 <= X < Base ^ D -> 0 <= D ->
  Zlen lu <= D + 1 /\ forall lw u1 v1, lu = lw ++ [u1] -> Base <= 2 * v1 -> v1 <= u1 -> Zlen lu <= D.
Proof.
  intros Du Hl Hv Hk HX HD. pose proof (pow_pos D HD) as HP. pose proof (Z.pow_pos_nonneg 2 k ltac:(lia) ltac:(lia)) as H2.
  assert (Hlt : val lu < Base ^ D * 2 ^ k) by (rewrite Hv; apply Z.mul_lt_mono_pos_r; lia).
  pose proof (Z.pow_le_mono_r 2 k 31 ltac:(lia) ltac:(lia)) as H31.
  assert (Hlt2 : Base ^ D * 2 ^ k <= Base ^ D * 2 ^ 31) by (apply Z.mul_le_mono_nonneg_l; lia). split.
  - destruct (Z.le_gt_cases (Zlen lu) (D + 1)) as [|Hgt]; [done|].
    assert (Hne : lu <> []) by (intros ->; unfold Zlen in Hgt; simpl in Hgt; lia). pose proof (val_low lu Du Hne (Hl Hne)).
    pose proof (Z.pow_le_mono_r Base (D + 1) (Zlen lu - 1) ltac:(done) ltac:(lia)) as H1. rewrite Z.pow_add_r, Z.pow_1_r in H1 by lia.
    unfold Base at 2 in H1. lia.
  - intros lw u1 v1 -> Hnorm Hge. rewrite Zlen_app. change (Zlen [u1]) with 1. destruct (Z.le_gt_cases (Zlen lw + 1) D) as [|Hgt]; [done|].
    apply digits_app in Du as [Dlw _]. pose proof (val_range lw Dlw). rewrite val_app, val_cons_nil in Hlt.
    pose proof (Z.pow_le_mono_r Base D (Zlen lw) ltac:(done) ltac:(lia)). unfold Base in Hnorm.
    assert (Base ^ D * u1 <= Base ^ Zlen lw * u1) by (apply Z.mul_le_mono_nonneg_r; lia).
    assert (Base ^ D * 2 ^ 31 <= Base ^ D * u1) by (apply Z.mul_le_mono_nonneg_l; lia). lia.
Qed.

Definition zsign (x : Z) : Z := if x <? 0 then -1 else 1.

Lemma reads_sign s b x m l : reads s b x m l -> mp_sign m = zsign x.
Proof. intros [I V D L N P A [[-> S]|[-> S]] T]; unfold zsign; destruct (Z.ltb_spec x 0); lia. Qed.

Lemma zsign_mul x k : 0 <= k -> zsign (x * 2 ^ k) = zsign x.
Proof.
  intros Hk. pose proof (Z.pow_pos_nonneg 2 k ltac:(lia) Hk). unfold zsign. destruct (Z.ltb_spec x 0), (Z.ltb_spec (x * 2 ^ k) 0); try done; nia.
Qed.

(** The numbers that are shifted, up to D1a. *)
Lemma div_start s s1 dividend divisor quotient remainder u v x y k md mv0 ld l0 lo0 y1 :
  wf s -> reads s dividend x md ld -> reads s divisor y mv0 l0 -> l0 = lo0 ++ [y1] -> 0 < y1 -> 0 <= k < 32 -> 2 ^ 31 <= y1 * 2 ^ k < 2 ^ 32 ->
  0 < Z.abs y <= Z.abs x -> operands s s1 divisor quotient remainder u v x y k (mp_top md + 2) ->
  exists mu mv lo v1 s2 mu2 lu2, ints s1 !! u = Some mu /\ ints s1 !! v = Some mv /\ mp_top mv = Zlen lo + 1 /\
  arr (digs s1) (mp_p mv, 0) (lo ++ [v1]) /\ digits (lo ++ [v1]) /\ Base <= 2 * v1 /\ val (lo ++ [v1]) = Z.abs y * 2 ^ k /\
  div_push u (mp_p mu, mp_top mu - 1) (mp_p mv, mp_top mv - 1) s1 = Ok ((mp_p mu, Zlen lu2 - 1), s2) /\ wf s2 /\ frame u s1 s2 /\
  pushed s2 u mu2 lu2 (lo ++ [v1]) /\ mp_p mu2 = mp_p mu /\ mp_sign mu2 = zsign x /\ val lu2 = Z.abs x * 2 ^ k.
Proof.
  intros W R1 R2 E0 Hy1 Hk Hr Hxy [W1 Hu Hfr Hv F Nx (mu & Iu & Su) Ny].
  destruct (num_reads _ _ _ W1 Nx) as (mu' & lu & Ru). pose proof (r_int _ _ _ _ _ Ru) as Iu'. rewrite Iu in Iu'. injection Iu' as <-.
  destruct (num_reads _ _ _ W1 Ny) as (mv & lv & Rv). pose proof (r_int _ _ _ _ _ Rv) as Iv.
  pose proof (Z.pow_pos_nonneg 2 k ltac:(lia) ltac:(lia)) as HP.
  assert (Vu : val lu = Z.abs x * 2 ^ k) by (rewrite (r_abs _ _ _ _ _ Ru), Z.abs_mul, (Z.abs_eq (2 ^ k)) by lia; done).
  assert (Vv : val lv = Z.abs y * 2 ^ k) by (rewrite (r_abs _ _ _ _ _ Rv), Z.abs_mul, (Z.abs_eq (2 ^ k)) by lia; done).
  pose proof (r_abs _ _ _ _ _ R2) as V0. rewrite E0, val_app, val_cons_nil in V0. pose proof (r_digits _ _ _ _ _ R2) as D0. rewrite E0 in D0. apply digits_app in D0 as [D0 _]. pose proof (val_range lo0 D0) as R0.
  destruct (shifted_top lv (Z.abs y) y1 k (Zlen lo0) (r_digits _ _ _ _ _ Rv) (r_last _ _ _ _ _ Rv) Vv Hk Hy1 (Zlen_nonneg _) ltac:(lia) Hr) as (lo & v1 & -> & Elo & Hnorm).
  pose proof (r_len _ _ _ _ _ Rv) as Lv. rewrite Zlen_app in Lv. change (Zlen [v1]) with 1 in Lv.
  pose proof (vec_at _ _ _ _ Iv (r_vec _ _ _ _ _ Rv)) as Av. pose proof (vec_at _ _ _ _ Iu (r_vec _ _ _ _ _ Ru)) as Au.
  pose proof (val_range ld (r_digits _ _ _ _ _ R1)) as Rd. rewrite (r_abs _ _ _ _ _ R1), (r_len _ _ _ _ _ R1) in Rd.
  pose proof (g_top _ _ _ (wf_good _ W _ _ (r_int _ _ _ _ _ R1))) as Hd.
  destruct (dividend_len lu (Z.abs x) k (mp_top md) (r_digits _ _ _ _ _ Ru) (r_last _ _ _ _ _ Ru) Vu Hk Rd ltac:(lia)) as [Hlen1 Hlen2].
  destruct (div_push_run s1 u mu lu lo v1 (mp_p mv, mp_top mv - 1) W1 Hu Iu Au (r_digits _ _ _ _ _ Ru) ltac:(by rewrite (r_len _ _ _ _ _ Ru))) as (s2 & mu2 & lu2 & E2 & W2 & F2 & P2 & Ep & Es & Ev).
  - apply arr_app in Av as [_ Av]. unfold dadd in Av. simpl in Av. by replace (mp_top mv - 1) with (Zlen lo) by lia.
  - apply (r_digits _ _ _ _ _ Rv).
  - pose proof Base_pos. lia.
  - rewrite Vu, Vv. apply Z.mul_le_mono_nonneg_r; lia.
  - lia.
  - intros lw u1 El Hge. specialize (Hlen2 lw u1 v1 El Hnorm Hge). lia.
  - exists mu, mv, lo, v1, s2, mu2, lu2. split_and!; try done; [apply (r_digits _ _ _ _ _ Rv)| |by rewrite Ev].
    rewrite Es, (reads_sign _ _ _ _ _ Ru). apply zsign_mul. lia.
Qed.

(** From the allocation of [t] to the end of the loop; [K] is what follows. *)
Lemma div_middle s u v quotient mu lu mv lo v1 (K : Z -> eff mpstate unit) : wf s -> 0 < u -> u <> v -> pushed s u mu lu (lo ++ [v1]) ->
  ints s !! v = Some mv -> arr (digs s) (mp_p mv, 0) (lo ++ [v1]) -> digits (lo ++ [v1]) -> Base <= 2 * v1 ->
  quotient = nil \/ wanted s quotient -> quotient <> u -> quotient <> v ->
  exists t s' mq lr qs, (t ← mpnew (4 * Dbits);
    qp ← div_quotient u (Zlen lo + 1) quotient;
    mt ← geti t; mu' ← geti u;
    div_loop (Z.to_nat (mp_top mu' - (Zlen lo + 1))) (mp_p mt, 0) (mp_p mv, Zlen lo) (Zlen lo + 1) u (mp_p mu, Zlen lu - 1) quotient qp;; K t) s = K t s' /\
  0 < t /\ ints s !! t = None /\ wf s' /\ frames [t; u; quotient] s s' /\ is_Some (ints s' !! t) /\
  ints s' !! u = Some (with_top (Zlen lo + 1) mu) /\ arr (digs s') (mp_p mu, 0) lr /\ digits lr /\ Zlen lr = Zlen lo + 1 /\ 0 <= val lr < val (lo ++ [v1]) /\
  val lu = val qs * val (lo ++ [v1]) + val lr /\
  (quotient <> nil -> ints s' !! quotient = Some mq /\ arr (digs s') (mp_p mq, 0) qs /\ digits qs /\ Zlen qs = mp_top mq /\
    exists mq0, ints s !! quotient = Some mq0 /\ mp_sign mq = mp_sign mq0).
Proof.
  intros W Hu Huv [Iu Au Du Tu Su Lu Vu] Iv Av Dv Hnorm Hq Hqu Hqv.
  assert (Elv : Zlen (lo ++ [v1]) = Zlen lo + 1) by (by rewrite Zlen_app). rewrite Elv in *. set (vn := Zlen lo + 1) in *.
  destruct (mpnew_run s (4 * Dbits) W ltac:(by compute)) as (t & s1 & E1 & W1 & F1 & Ht & Hft & _ & mt & It & St & _).
  rewrite DIGITS_mul in St by lia. rewrite (eff_bind_ok _ _ _ _ _ E1).
  assert (Htu : t <> u) by congruence. assert (Htv : t <> v) by congruence.
  assert (Hq1 : quotient = nil \/ wanted s1 quotient).
  { destruct Hq as [?|(Hq0 & m & Im & Fm)]; [by left|right]. split; [done|]. exists m. split; [|done]. rewrite (f_ints _ _ _ F1); [done|congruence]. }
  assert (Htq : quotient <> t) by (destruct Hq as [->|(Hq0 & m & Im & Fm)]; [unfold nil; lia|congruence]).
  assert (Iu1 : ints s1 !! u = Some mu) by (by rewrite (f_ints _ _ _ F1)).
  destruct (div_quotient_run s1 u mu vn quotient W1 Iu1 ltac:(lia) Hqu Hq1) as (s2 & mq & qp & E2 & W2 & F2 & Q2). rewrite (eff_bind_ok _ _ _ _ _ E2).
  assert (It2 : ints s2 !! t = Some mt) by (rewrite (f_ints _ _ _ F2) by congruence; done).
  assert (Iu2 : ints s2 !! u = Some mu) by (rewrite (f_ints _ _ _ F2) by congruence; done).
  rewrite (eff_bind_ok _ _ _ _ _ (geti_run _ _ _ It2)), (eff_bind_ok _ _ _ _ _ (geti_run _ _ _ Iu2)).
  assert (F02 : frames [t; u; quotient] s s2).
  { eapply frames_trans; [eapply frame_frames; [by left|exact F1]|]. eapply frame_frames; [right; right; by left|exact F2]. }
  set (n := Z.to_nat (mp_top mu - vn)) in *. assert (En : Z.of_nat n = Zlen lu - vn) by (unfold n; lia).
  assert (Hsame : forall c m l, c <> t -> c <> quotient -> ints s !! c = Some m -> arr (digs s) (mp_p m, 0) l -> arr (digs s2) (mp_p m, 0) l).
  { intros c m l H1 H2 Hm Ha. eapply arr_same; [|exact Ha]. simpl. rewrite (f_digs _ _ _ F2 c m) by (try done; by rewrite (f_ints _ _ _ F1)). by apply (f_digs _ _ _ F1 c). }
  destruct (div_loop_run t u v quotient mt mv lo v1) with (n := n) (s := s2) (mu := mu) (lu := lu) (qhi := @List.nil Z) (mq := mq) (qp := qp)
    as (s3 & lr & qs & E3 & W3 & F3 & I3 & A3 & D3 & L3 & V3 & Dq3 & Lq3 & Aq3 & E4).
  - split; try done. destruct Hq as [?|(Hq0 & _)]; [by left|right]. done.
  - done.
  - done.
  - split; try done; [lia|rewrite (f_ints _ _ _ F2), (f_ints _ _ _ F1) by congruence; done|by apply (Hsame v)|by apply (Hsame u)| |by rewrite En].
    unfold n, vn, Zlen in *. lia.
  - destruct Hq as [?|(Hq0 & _)]; [by left|right]. destruct (Q2 ltac:(unfold nil; lia)) as (_ & Iq & Tq & Sq & _). split; [done|]. split; [|lia].
    destruct (wf_arr _ _ _ W2 Iq) as (l & Hl & Hz & _). exists l. simpl. split_and!; [done|lia|unfold Zlen at 1; simpl; lia|done].
  - intros Hnil. destruct (Q2 Hnil) as (-> & _). f_equal. lia.
  - fold vn in E3, I3, L3. rewrite En in E3. replace (Zlen lu - vn + vn - 1) with (Zlen lu - 1) in E3 by lia. rewrite (eff_bind_ok _ _ _ _ _ E3).
    exists t, s3, mq, lr, qs. split; [done|]. split; [done|]. split; [done|]. split; [done|]. split; [by eapply frames_trans|].
    split; [rewrite I3, lookup_insert_ne, It2 by done; eauto|]. split; [rewrite I3; apply lookup_insert_eq|].
    split_and!; [done|done|done|by apply val_range|done|done|].
    intros Hnil. destruct (Q2 Hnil) as (_ & Iq & Tq & Sq & mq0 & Iq0 & Sgq). split; [rewrite I3, lookup_insert_ne by done; done|].
    split; [specialize (Aq3 Hnil); by rewrite app_nil_r in Aq3|]. split; [done|]. split; [unfold Zlen; lia|]. exists mq0. split; [|done].
    rewrite <- (f_ints _ _ _ F1) by done. done.
Qed.

(** [t], [u] and, where it is a copy, [v] are freed. *)
Lemma div_frees s t u v divisor : wf s -> 0 < t -> 0 < u -> t <> u -> is_Some (ints s !! t) -> is_Some (ints s !! u) ->
  v = divisor \/ (0 < v /\ v <> t /\ v <> u /\ is_Some (ints s !! v)) ->
  exists s', (mpfree t;; mpfree u;; if negb (v =? divisor) then mpfree v else mret tt) s = Ok (tt, s') /\ wf s' /\
  frames (t :: u :: if decide (v = divisor) then [] else [v]) s s' /\ ints s' !! t = None /\ ints s' !! u = None /\ (v <> divisor -> ints s' !! v = None).
Proof.
  intros W Ht Hu Htu [mt It] [mu Iu] Hv.
  destruct (mpfree_run s t mt W Ht It) as (s1 & E1 & W1 & F1 & N1). rewrite (eff_bind_ok _ _ _ _ _ E1).
  destruct (mpfree_run s1 u mu W1 Hu ltac:(rewrite (f_ints _ _ _ F1) by congruence; done)) as (s2 & E2 & W2 & F2 & N2). rewrite (eff_bind_ok _ _ _ _ _ E2).
  assert (Nt2 : ints s2 !! t = None) by (by rewrite (f_ints _ _ _ F2)).
  assert (F02 : forall L, frames (t :: u :: L) s s2).
  { intros L. eapply frames_trans; [eapply frame_frames; [by left|exact F1]|]. eapply frame_frames; [right; by left|exact F2]. }
  destruct (Z.eqb_spec v divisor) as [E|Hne]; cbn [negb].
  - exists s2. rewrite decide_True by done. split_and!; done.
  - destruct Hv as [?|(Hv0 & Hvt & Hvu & mv & Iv)]; [done|].
    destruct (mpfree_run s2 v mv W2 Hv0 ltac:(rewrite (f_ints _ _ _ F2), (f_ints _ _ _ F1) by congruence; done)) as (s3 & E3 & W3 & F3 & N3).
    exists s3. rewrite decide_False by done. split; [done|]. split; [done|]. split; [eapply frames_trans; [apply F02|eapply frame_frames; [right; right; by left|exact F3]]|].
    rewrite !(f_ints _ _ _ F3) by congruence. done.
Qed.

(** The quotient rounds towards zero; its sign is made negative or is the sign that
    the integer had before.  The remainder has the sign of the dividend. *)
Lemma div_long_run s dividend divisor quotient remainder x y : wf s -> Num s dividend x -> Num s divisor y -> 0 < Z.abs y <= Z.abs x ->
  quotient = nil \/ wanted s quotient -> remainder = nil \/ wanted s remainder ->
  quotient <> remainder -> quotient <> dividend -> quotient <> divisor ->
  exists s', div_long dividend divisor quotient remainder s = Ok (tt, s') /\ wf s' /\ frames [quotient; remainder] s s' /\
  (quotient <> nil -> exists mq, ints s !! quotient = Some mq /\ Num s' quotient ((if zsign x =? zsign y then mp_sign mq else -1) * (Z.abs x / Z.abs y))) /\
  (remainder <> nil -> let r := Z.abs x mod Z.abs y in Mag s' remainder (if (remainder =? dividend) && (r =? 0) then 1 else zsign x) r).
Proof.
  intros W Hx Hy Hxy Hq Hr Hqr Hqd Hqv.
  destruct (num_reads _ _ _ W Hx) as (md & ld & R1). destruct (num_reads _ _ _ W Hy) as (mv0 & l0 & R2).
  pose proof (r_int _ _ _ _ _ R1) as Id. pose proof (r_int _ _ _ _ _ R2) as Iv0.
  destruct (nonempty_top l0 (r_digits _ _ _ _ _ R2) ltac:(rewrite (r_abs _ _ _ _ _ R2); lia) (r_last _ _ _ _ _ R2)) as (lo0 & y1 & El0 & D0 & Hy1).
  unfold div_long. rewrite (eff_bind_ok _ _ _ _ _ (geti_run _ _ _ Iv0)).
  pose proof (vec_at _ _ _ _ Iv0 (r_vec _ _ _ _ _ R2)) as A0. pose proof (r_len _ _ _ _ _ R2) as L0. rewrite El0 in A0, L0. rewrite Zlen_app in L0. change (Zlen [y1]) with 1 in L0.
  rewrite (eff_bind_ok _ _ _ _ _ (dig_last s divisor mv0 lo0 y1 (mp_top mv0 - 1) Iv0 A0 ltac:(lia))).
  destruct (shift_run y1 Hy1) as (k & -> & Hk & Hk2). cbv zeta.
  destruct (div_operands_run s dividend divisor quotient remainder x y k md W Id Hx Hy ltac:(lia)) as (u & v & s1 & E1 & O). rewrite (eff_bind_ok _ _ _ _ _ E1). cbv beta iota.
  destruct (div_start s s1 dividend divisor quotient remainder u v x y k md mv0 ld l0 lo0 y1 W R1 R2 El0 ltac:(lia) Hk Hk2 Hxy O)
    as (mu & mv & lo & v1 & s2 & mu2 & lu2 & Iu & Iv & Tv & Av & Dv & Hnorm & Vv & E2 & W2 & F2 & P2 & Ep & Es & Ev).
  rewrite (eff_bind_ok _ _ _ _ _ (geti_run _ _ _ Iu)), (eff_bind_ok _ _ _ _ _ (geti_run _ _ _ Iv)). rewrite (eff_bind_ok _ _ _ _ _ E2).
  destruct O as [W1 Hu Hfu Hv F1 _ _ _]. set (L := if decide (v = divisor) then [u] else [u; v]) in *.
  assert (Hlive : forall c, is_Some (ints s !! c) -> c ∉ L).
  { intros c [mc Hc]. unfold L. case_decide; rewrite !not_elem_of_cons; split_and!; try apply not_elem_of_nil; try congruence.
    destruct Hv as [[? _]|(_ & Hfv & _)]; [done|congruence]. }
  assert (Hlu : forall c, is_Some (ints s !! c) -> c <> u) by (intros c [mc Hc]; congruence).
  assert (Huv : u <> v) by (destruct Hv as [(-> & _)|(_ & _ & ?)]; [intros E; by apply (Hlu divisor); [eauto|]|done]).
  assert (Hsome : forall b, b = nil \/ wanted s b -> b = nil \/ is_Some (ints s !! b)) by (intros b [?|(_ & m & Hm & _)]; eauto).
  assert (Hv2 : ints s2 !! v = Some mv) by (rewrite (f_ints _ _ _ F2) by congruence; done).
  assert (Av2 : arr (digs s2) (mp_p mv, 0) (lo ++ [v1])) by (eapply arr_same; [|exact Av]; apply (f_digs _ _ _ F2 v); [congruence|done]).
  assert (F02 : frames L s s2).
  { eapply frames_trans; [exact F1|]. eapply frame_frames; [|exact F2]. unfold L. case_decide; by left. }
  assert (Hw2 : forall b, b = nil \/ wanted s b -> b = nil \/ wanted s2 b).
  { intros b [?|(Hb & m & Im & Fm)]; [by left|right]. split; [done|]. exists m. split; [|done]. rewrite (fs_ints _ _ _ F02); [done|]. apply Hlive. eauto. }
  assert (Hqu : quotient <> u) by (destruct (Hsome _ Hq) as [->|Hs]; [unfold nil; lia|by apply Hlu]).
  assert (Hru : remainder <> u) by (destruct (Hsome _ Hr) as [->|Hs]; [unfold nil; lia|by apply Hlu]).
  assert (Hqv2 : quotient <> v).
  { destruct Hv as [(-> & _)|(Hv0 & Hfv & _)]; [done|]. destruct (Hsome _ Hq) as [->|[m Hm]]; [unfold nil; lia|congruence]. }
  assert (Hrv2 : remainder <> v).
  { destruct Hv as [(-> & _ & ?)|(Hv0 & Hfv & _)]; [congruence|]. destruct (Hsome _ Hr) as [->|[m Hm]]; [unfold nil; lia|congruence]. }
  rewrite Tv. replace (Zlen lo + 1 - 1) with (Zlen lo) by lia. clear E2. rewrite <- Ep.
  destruct (div_middle s2 u v quotient mu2 lu2 mv lo v1 (fun t => div_sign dividend divisor quotient;; div_remainder dividend u k remainder;;
    mpfree t;; mpfree u;; if negb (v =? divisor) then mpfree v else mret tt) W2 Hu Huv P2 Hv2 Av2 Dv Hnorm (Hw2 _ Hq) Hqu Hqv2)
    as (t & s3 & mq & lr & qs & E3 & Ht & Hft & W3 & F3 & It3 & Iu3 & Ar & Dr & Lr & Vr & Vq & Q3). rewrite E3. clear E3.
  assert (Htf : ints s !! t = None).
  { destruct (ints s !! t) as [m|] eqn:E; [|done]. rewrite <- (fs_ints _ _ _ F02) in E by (apply Hlive; rewrite E; eauto). congruence. }
  set (full := t :: L ++ [quotient; remainder]).
  assert (HuL : u ∈ L) by (unfold L; case_decide; by left).
  assert (Hsub1 : L ⊆ full) by (intros c Hc; right; apply elem_of_app; by left).
  assert (HqF : quotient ∈ full) by (right; apply elem_of_app; right; by left).
  assert (HrF : remainder ∈ full) by (right; apply elem_of_app; right; right; by left).
  assert (F03 : frames full s s3).
  { eapply frames_trans; [by eapply frames_weaken|]. eapply frames_weaken; [|exact F3]. intros c. rewrite !elem_of_cons, elem_of_nil. intros [->|[->|[->|[]]]]; [by left|by apply Hsub1|done]. }
  assert (Hnot : forall c, is_Some (ints s !! c) -> c <> quotient -> c ∉ [t; u; quotient] /\ c ∉ L).
  { intros c Hc Hcq. pose proof (Hlive c Hc). split; [|done]. rewrite !not_elem_of_cons. split_and!; [|by apply Hlu|done|apply not_elem_of_nil]. destruct Hc; congruence. }
  assert (Hkeep : forall c m, c <> quotient -> ints s !! c = Some m -> ints s3 !! c = Some m).
  { intros c m Hcq Hm. destruct (Hnot c ltac:(eauto) Hcq) as [H1 H2]. by rewrite (fs_ints _ _ _ F3), (fs_ints _ _ _ F02). }
  (* the values *)
  rewrite Ev, Vv in Vq. rewrite Vv in Vr. destruct (div_values (Z.abs x) (Z.abs y) k (val qs) (val lr) ltac:(lia) ltac:(lia) Vq Vr) as [EQ ER].
  assert (HQ : 0 < val qs) by (rewrite EQ; apply Z.div_str_pos; lia).
  (* the sign of the quotient *)
  destruct (div_sign_run s3 dividend divisor quotient mq md mv0 qs W3 ltac:(destruct Hq as [?|[? _]]; auto) Hqd Hqv (Hkeep dividend md ltac:(congruence) Id) (Hkeep divisor mv0 ltac:(congruence) Iv0))
    as (s4 & E4 & W4 & F4 & N4).
  { intros Hnil. destruct (Q3 Hnil) as (? & ? & ? & ? & _). done. }
  rewrite (eff_bind_ok _ _ _ _ _ E4). set (mu3 := with_top (Zlen lo + 1) mu2) in *.
  assert (Iu4 : ints s4 !! u = Some mu3) by (by rewrite (f_ints _ _ _ F4) by congruence).
  assert (Ar4 : arr (digs s4) (mp_p mu3, 0) lr) by (eapply arr_same; [|exact Ar]; apply (f_digs _ _ _ F4 u mu3); [congruence|done]).
  (* the remainder *)
  assert (Hrt : forall b, b = nil \/ wanted s b -> b <> t) by (intros b Hb ->; destruct (Hsome _ Hb) as [->|[m Hm]]; [unfold nil in Ht; lia|by rewrite Htf in Hm]).
  assert (Hr4 : remainder = nil \/ wanted s4 remainder).
  { destruct Hr as [?|(Hr0 & m & Im & Fm)]; [by left|right]. split; [done|]. exists m. split; [|done]. rewrite (f_ints _ _ _ F4) by congruence. by apply Hkeep. }
  destruct (div_remainder_run s4 dividend u k remainder md mu3 lr W4 Hr4 ltac:(congruence) ltac:(apply Hlu; eauto) ltac:(rewrite (f_ints _ _ _ F4) by congruence; apply Hkeep; [congruence|done])
    Iu4 Ar4 Dr Lr ltac:(simpl; pose proof (Zlen_nonneg lo); lia) ltac:(lia)) as (s5 & E5 & W5 & F5 & M5).
  rewrite (eff_bind_ok _ _ _ _ _ E5).
  (* the temporary numbers *)
  assert (Hlate : forall c, c <> quotient -> c <> remainder -> ints s5 !! c = ints s3 !! c) by (intros c H1 H2; by rewrite (f_ints _ _ _ F5), (f_ints _ _ _ F4)).
  assert (Hqt : quotient <> t) by (by apply Hrt). assert (Hrt' : remainder <> t) by (by apply Hrt).
  assert (Hv3 : v <> divisor -> v <> t /\ is_Some (ints s3 !! v)).
  { intros Hne. assert (v <> t) by congruence. split; [done|]. rewrite (fs_ints _ _ _ F3); [eauto|]. rewrite !not_elem_of_cons. split_and!; [done|congruence|congruence|apply not_elem_of_nil]. }
  destruct (div_frees s5 t u v divisor W5 Ht Hu) as (s6 & E6 & W6 & F6 & Nt & Nu & Nv).
  - intros ->. by rewrite Hft in It3 || (destruct P2; congruence).
  - by rewrite Hlate.
  - rewrite Hlate by congruence. rewrite Iu3. eauto.
  - destruct (decide (v = divisor)) as [|Hne]; [by left|right]. destruct (Hv3 Hne) as [H1 H2]. destruct Hv as [[? _]|(Hv0 & _ & Hvu)]; [done|].
    split_and!; [done|done|done|]. by rewrite Hlate by congruence.
  - exists s6. split; [exact E6|]. split; [done|].
    assert (F06 : frames full s s6).
    { eapply frames_trans; [exact F03|]. eapply frames_trans; [eapply frame_frames; [exact HqF|exact F4]|]. eapply frames_trans; [eapply frame_frames; [exact HrF|exact F5]|].
      eapply frames_weaken; [|exact F6]. intros c [->|Hc]%elem_of_cons; [by left|]. right. apply elem_of_app. left.
      apply elem_of_cons in Hc as [->|Hc]; [exact HuL|]. revert Hc. unfold L. destruct (decide (v = divisor)); [by intros Hc%not_elem_of_nil|]. by right. }
    assert (Hout : forall c, c = quotient \/ c = remainder -> c ∉ t :: u :: if decide (v = divisor) then [] else [v]).
    { intros c Hc. assert (c <> t /\ c <> u /\ c <> v) as (H1 & H2 & H3) by (destruct Hc as [-> | ->]; done).
      rewrite !not_elem_of_cons. split_and!; [done|done|]. case_decide; [apply not_elem_of_nil|]. by apply not_elem_of_cons; split; [|apply not_elem_of_nil]. }
    split; [|split].
    + apply (frames_temp t); [|done|done]. unfold full, L in F06. destruct (decide (v = divisor)) as [|Hne].
      * apply (frames_temp u); [|done|done]. eapply frames_weaken; [|exact F06]. intros c. clear. cbn [app]. rewrite !elem_of_cons. tauto.
      * destruct Hv as [[? _]|(_ & Hfv & _)]; [done|]. apply (frames_temp v); [|done|by apply Nv]. apply (frames_temp u); [|done|done].
        eapply frames_weaken; [|exact F06]. intros c. clear. cbn [app]. rewrite !elem_of_cons. tauto.
    + intros Hnil. destruct (Q3 Hnil) as (_ & _ & _ & _ & mq0 & Iq0 & Sq0). exists mq0. split.
      { rewrite <- (fs_ints _ _ _ F02); [done|]. apply Hlive. destruct (Hsome _ Hq); done. }
      specialize (N4 Hnil). rewrite (reads_sign _ _ _ _ _ R1), (reads_sign _ _ _ _ _ R2), Sq0, EQ in N4.
      eapply frames_num; [exact F6|apply Hout; by left|]. by eapply frame_num.
    + intros Hnil. specialize (M5 Hnil). cbv zeta in M5. rewrite ER in M5. eapply mag_frames; [exact F6|apply Hout; by right|].
      replace (mp_sign mu3) with (zsign x) in M5 by (by rewrite <- Es). rewrite (reads_sign _ _ _ _ _ R1) in M5. destruct (remainder =? dividend); [|done]. by destruct (Z.abs x mod Z.abs y =? 0).
Qed.
