(* ===== verification/MpDivThm.v ===== *)
(** Division of integers, [mpdiv.c] and [mpmod.c]: small powers of two, and the
    whole routines. *)

From S2P Require Import Prelude Eff MpVec MpHeap MpVecThm MpMul MpKaratsuba MpInt MpState MpArith MpShift MpGrow MpDiv MpDivInt.

(** * Powers of two *)

Lemma pow2_test q : 0 < q -> (Z.land q (q - 1) =? 0) = true <-> q = 2 ^ Z.log2 q.
Proof.
  intros Hq. rewrite Z.eqb_eq. pose proof (Z.log2_nonneg q) as Hk. pose proof (Z.log2_spec q Hq) as [H1 H2]. split.
  - intros E. destruct (Z.eq_dec q (2 ^ Z.log2 q)) as [|Hne]; [done|].
    assert (Hb : Z.testbit (Z.land q (q - 1)) (Z.log2 q) = true); [|by rewrite E, Z.bits_0 in Hb].
    rewrite Z.land_spec, Z.bit_log2 by done. replace (Z.log2 q) with (Z.log2 (q - 1)); [apply Z.bit_log2; pose proof (Z.pow_pos_nonneg 2 (Z.log2 q)); lia|].
    apply Z.log2_unique; [done|]. rewrite Z.pow_succ_r in * by done. lia.
  - intros E. set (k := Z.log2 q) in *. clearbody k. subst q. replace (2 ^ k - 1) with (Z.ones k) by (rewrite Z.ones_equiv; lia).
    rewrite Z.land_ones by done. apply Z.mod_same. pose proof (Z.pow_pos_nonneg 2 k). lia.
Qed.

Lemma low_zeros_run n : forall k s, 0 <= s <= k -> k < s + Z.of_nat n -> low_zeros n (2 ^ k) s = k.
Proof.
  induction n as [|n IH]; intros k s Hs Hn; [lia|]. cbn [low_zeros]. rewrite Z.shiftr_div_pow2 by lia.
  destruct (Z.eq_dec s k) as [->|Hne].
  - rewrite Z.div_same by (apply Z.pow_nonzero; lia). done.
  - assert (E : 2 ^ k = 2 ^ (k - s - 1) * 2 * 2 ^ s) by (replace k with (k - s - 1 + 1 + s) at 1 by lia; rewrite !Z.pow_add_r, Z.pow_1_r by lia; done).
    rewrite E at 1. rewrite Z.div_mul by (apply Z.pow_nonzero; lia). change 1 with (Z.ones 1) at 2. rewrite Z.land_ones by done. change (2 ^ 1) with 2. rewrite Z.mod_mul by done.
    cbn [Z.eqb]. apply IH; lia.
Qed.

(** ** vtomp *)

Lemma put_digits_run s b m v : wf s -> 0 < b -> ints s !! b = Some m -> 2 <= mp_size m -> 0 <= v < 2 ^ 64 ->
  exists l, put_digits 2 b 0 v s = Ok (tt, store s (upd (digs s) (mp_p m, 0) l)) /\ digits l /\ Zlen l = 2 /\ val l = v.
Proof.
  intros W Hb Hm Hs Hv. cbn [put_digits]. set (x := u32 v). set (y := u32 (Z.shiftr v Dbits)).
  assert (Hrm : forall i n, 0 <= i -> i + n <= 2 -> room (digs s) (mp_p m, i) n) by (intros i n Hi Hn; apply (int_room s b m i n W Hm Hi); lia).
  rewrite (eff_bind_ok _ _ _ _ _ (setdig_run s b m 0 x Hm (Hrm 0 1 ltac:(done) ltac:(done)))). set (s1 := store s _).
  assert (R1 : room (digs s1) (mp_p m, 1) 1) by (apply room_upd; [by apply (Hrm 0 1)|by apply (Hrm 1 1)]).
  change (0 + 1) with 1. rewrite (eff_bind_ok _ _ _ _ _ (setdig_run s1 b m 1 y Hm R1)).
  exists [x; y]. split.
  { unfold mret, eff_ret, store. cbn [ints digs mpmindigits s1]. do 3 f_equal. apply (upd_app [x] (digs s) (mp_p m, 0) [y]). by apply (Hrm 0 2). }
  split; [apply digits_cons; split; [apply u32_digit|apply digits_cons; split; [apply u32_digit|constructor]]|]. split; [done|].
  assert (Ey : y = v / Base).
  { unfold y, Dbits. rewrite Z.shiftr_div_pow2 by done. apply digit_small. change (2 ^ 32) with Base. unfold digit. split; [apply Z.div_pos; [lia|done]|]. apply Z.div_lt_upper_bound; [done|]; unfold Base; lia. }
  assert (Ex : x = v mod Base) by done. simpl. rewrite Ex, Ey. pose proof (Z.div_mod v Base ltac:(done)). lia.
Qed.

Lemma vtomp_run s b m v : wf s -> 0 < b -> ints s !! b = Some m -> 2 <= mp_size m -> - 2 ^ 63 < v < 2 ^ 63 ->
  exists s', vtomp v b s = Ok (b, s') /\ wf s' /\ frame b s s' /\ Num s' b v.
Proof.
  intros W Hb Hm Hs Hv. unfold vtomp. rewrite (proj2 (nil_eqb b)) by (unfold nil; lia).
  destruct (mpbits_run s b (VLDIGITS * Dbytes) m W Hb Hm) as (s1 & m1 & E1 & W1 & F1 & Sz).
  assert (Hs1 : 2 <= mp_size m1).
  { destruct (growing_mpbits b (VLDIGITS * Dbytes) s _ s1 E1 b m Hm) as (m' & Hm' & Hle). rewrite (sz_int _ _ _ _ _ _ Sz) in Hm'. injection Hm' as <-. lia. }
  pose proof (sz_int _ _ _ _ _ _ Sz) as I1. rewrite eff_bind_assoc, (eff_bind_ok _ _ _ _ _ E1), (eff_bind_ok _ _ _ _ _ (eff_ret_run b s1)).
  set (sg := Z.lor (Z.shiftr v 63) 1). cbv zeta.
  assert (Hsg : sg = zsign v /\ u64 (v * sg) = Z.abs v).
  { unfold sg, zsign. rewrite Z.shiftr_div_pow2 by done. destruct (Z.ltb_spec v 0).
    - replace (v / 2 ^ 63) with (-1) by (apply (Z.div_unique v (2 ^ 63) (-1) (v + 2 ^ 63)); lia). change (Z.lor (-1) 1) with (-1). split; [done|].
      rewrite u64_small by lia. lia.
    - rewrite Z.div_small by lia. change (Z.lor 0 1) with 1. split; [done|]. rewrite u64_small by lia. lia. }
  destruct Hsg as [-> ->].
  rewrite (eff_bind_ok _ _ _ _ _ (sets_run s1 b _ m1 I1)). set (m2 := with_sign (zsign v) m1).
  pose proof (good_sound _ _ _ (wf_good _ W1 _ _ I1)) as (S1 & S2 & S3 & S4).
  destruct (put_wf s1 b m1 m2 W1 Hb I1 ltac:(done)) as [W2 F2]; [split; [unfold m2, zsign; simpl; destruct (v <? 0); auto|done]|].
  set (s2 := put s1 b m2) in *. assert (I2 : ints s2 !! b = Some m2) by apply put_lookup.
  destruct (put_digits_run s2 b m2 (Z.abs v) W2 Hb I2 ltac:(done) ltac:(lia)) as (l & E3 & D3 & L3 & V3).
  change (Z.to_nat VLDIGITS) with 2%nat. rewrite (eff_bind_ok _ _ _ _ _ E3).
  destruct (store_step s2 b m2 0 l W2 Hb I2 ltac:(done) ltac:(simpl; lia) D3) as (W3 & F3 & R3). set (s3 := store s2 _) in *.
  rewrite (eff_bind_ok _ _ _ _ _ (sets_run s3 b _ m2 I2)). set (m3 := with_top VLDIGITS m2).
  destruct (put_wf s3 b m2 m3 W3 Hb I2 ltac:(done)) as [W4 F4]; [split; [unfold m3, m2, zsign; simpl; destruct (v <? 0); auto|split_and!; [done|simpl; unfold VLDIGITS; lia|done|done]]|].
  destruct (mpnorm_run (put s3 b m3) b m3 l W4 Hb (put_lookup _ _ _)) as (s5 & E5 & W5 & F5 & N5); [exists m3; split; [apply put_lookup|by apply arr_upd_same]|by rewrite L3|done|].
  exists s5. split; [exact E5|]. split; [done|]. split; [by do 4 (eapply frame_trans; [eassumption|])|].
  replace v with (mp_sign m3 * val l); [done|]. rewrite V3. unfold m3, m2, zsign. simpl. destruct (Z.ltb_spec v 0); lia.
Qed.

(** ** The whole branch *)

Lemma rem_zsign x y : 0 < y -> Z.rem x y = zsign x * (Z.abs x mod y).
Proof.
  intros Hy. unfold zsign. destruct (Z.ltb_spec x 0).
  - rewrite Z.abs_neq by lia. rewrite <- (Z.opp_involutive x) at 1. rewrite Z.rem_opp_l by lia. rewrite Z.rem_mod_nonneg by lia. lia.
  - rewrite Z.abs_eq, Z.rem_mod_nonneg by lia. lia.
Qed.

Lemma first_digit l k : l <> [] -> digits l -> 0 <= k < 32 -> nth 0 l 0 mod 2 ^ k = val l mod 2 ^ k.
Proof.
  intros Hl D Hk. destruct l as [|d l]; [done|]. cbn [nth val]. pose proof (Z.pow_pos_nonneg 2 k ltac:(lia) ltac:(lia)).
  replace Base with (2 ^ (32 - k) * 2 ^ k) by (unfold Base; rewrite <- Z.pow_add_r by lia; f_equal; lia).
  replace (d + 2 ^ (32 - k) * 2 ^ k * val l) with (d + (2 ^ (32 - k) * val l) * 2 ^ k) by ring. by rewrite Z.mod_add by lia.
Qed.

Lemma div_pow2_run s dividend quotient remainder x k : wf s -> Num s dividend x -> x <> 0 -> 0 <= k < 32 ->
  quotient = nil \/ wanted s quotient -> (remainder = nil \/ (wanted s remainder /\ exists m, ints s !! remainder = Some m /\ 2 <= mp_size m)) -> quotient <> remainder ->
  exists s', div_pow2 dividend (2 ^ k) quotient remainder s = Ok (tt, s') /\ wf s' /\ frames [quotient; remainder] s s' /\
  (quotient <> nil -> Num s' quotient (Z.quot x (2 ^ k))) /\ (remainder <> nil -> Num s' remainder (Z.rem x (2 ^ k))).
Proof.
  intros W Hx Hx0 Hk Hq Hr Hqr. destruct (num_reads _ _ _ W Hx) as (md & l & R). pose proof (reads_sign _ _ _ _ _ R) as Sg. destruct R as [I V D L N P A S T].
  pose proof (Z.pow_pos_nonneg 2 k ltac:(lia) ltac:(lia)) as HP. pose proof (Z.pow_lt_mono_r 2 k 32 ltac:(lia) ltac:(lia) ltac:(lia)) as HP2.
  assert (Hl : l <> []) by (intros ->; simpl in A; lia).
  unfold div_pow2. rewrite (eff_bind_ok _ _ _ _ _ (geti_run _ _ _ I)).
  assert (Hd0 : dig dividend 0 s = Ok (nth 0 l 0, s)) by (apply (dig_run s dividend md l 0 I (vec_at _ _ _ _ I V)); destruct l; [done|simpl; lia]).
  rewrite (eff_bind_ok _ _ _ _ _ Hd0). cbv zeta.
  assert (Er : mp_sign md * Z.land (nth 0 l 0) (u32 (2 ^ k - 1)) = Z.rem x (2 ^ k)).
  { rewrite Sg, rem_zsign, digit_small by (unfold digit, Base; lia). replace (2 ^ k - 1) with (Z.ones k) by (rewrite Z.ones_equiv; lia).
    rewrite Z.land_ones, first_digit, A by (done || lia). done. }
  rewrite Er, low_zeros_run by (change (Z.of_nat (Z.to_nat Dbits)) with 32; lia).
  assert (Q : exists s1, (if negb (quotient =? nil) then mpright dividend k quotient else mret tt) s = Ok (tt, s1) /\ wf s1 /\ frame quotient s s1 /\
    (quotient <> nil -> Num s1 quotient (Z.quot x (2 ^ k))) /\ exists md1, ints s1 !! dividend = Some md1).
  { destruct Hq as [->|(Hq0 & Hfl)]; [exists s; split; [done|]; split; [done|]; split; [apply frame_refl|]; split; [done|eauto]|].
    rewrite (proj2 (nil_eqb quotient)) by (unfold nil; lia). cbn [negb].
    destruct (mpright_run s dividend quotient x k W Hq0 Hx Hfl) as (s1 & E1 & W1 & F1 & N1). rewrite (proj2 (Z.ltb_ge k 0)) in N1 by lia.
    exists s1. split; [done|]. split; [done|]. split; [done|]. split; [done|]. destruct (decide (dividend = quotient)) as [->|Hne]; [by eapply num_int|].
    exists md. by rewrite (f_ints _ _ _ F1). }
  destruct Q as (s1 & E1 & W1 & F1 & N1 & md1 & I1). rewrite (eff_bind_ok _ _ _ _ _ E1).
  destruct Hr as [->|((Hr0 & mr & Ir & Fr) & m' & Hm' & Hsz)].
  { exists s1. split; [done|]. split; [done|]. split; [eapply frame_frames; [by left|exact F1]|]. split; [done|done]. }
  rewrite Ir in Hm'. injection Hm' as <-. rewrite (proj2 (nil_eqb remainder)) by (unfold nil; lia). cbn [negb].
  assert (Ir1 : ints s1 !! remainder = Some mr) by (by rewrite (f_ints _ _ _ F1)).
  rewrite (eff_bind_ok _ _ _ _ _ (geti_run _ _ _ I1)).
  assert (Hid : set_flag (Z.land (mp_flags md1) MPtimesafe) mr = mr).
  { rewrite plain_land by apply (wf_good _ W1 _ _ I1). unfold set_flag, with_flags. rewrite Z.lor_0_r. by destruct mr. }
  rewrite (eff_bind_ok _ _ _ _ _ (sets_id s1 remainder _ mr Ir1 Hid)).
  pose proof (Z.mod_pos_bound (Z.abs x) (2 ^ k) HP) as Hb. pose proof (rem_zsign x (2 ^ k) HP) as Ez.
  destruct (vtomp_run s1 remainder mr (Z.rem x (2 ^ k)) W1 Hr0 Ir1 Hsz) as (s2 & E2 & W2 & F2 & N2).
  { rewrite Ez. unfold zsign. destruct (x <? 0); lia. }
  rewrite (eff_bind_ok _ _ _ _ _ E2). exists s2. split; [done|]. split; [done|].
  split; [eapply frames_trans; [eapply frame_frames; [by left|exact F1]|eapply frame_frames; [right; by left|exact F2]]|]. split; [|done].
  intros Hnil. eapply frame_num; [exact F2|done|by apply N1].
Qed.

(** * mpdiv *)

(** A divisor that takes the first branch. *)
Definition small_pow2 (y : Z) : Prop := exists k, 0 <= k < 32 /\ Z.abs y = 2 ^ k.

Lemma one_digit s b y m l : reads s b y m l -> y <> 0 -> exists v0 k, l = v0 :: k /\ digit v0 /\ (mp_top m = 1 <-> k = []) /\ Z.abs y = v0 + Base * val k.
Proof.
  intros [I V D L N P A S T] Hy. destruct l as [|v0 k]; [simpl in A; lia|]. exists v0, k. pose proof (proj1 (digits_cons _ _) D) as [D0 _].
  split; [done|]. split; [done|]. split; [|by rewrite <- A]. rewrite Zlen_cons in L. pose proof (Zlen_nonneg k). split; [|by intros ->; change (Zlen []) with 0 in L; lia].
  intros E. destruct k as [|z k]; [done|]. rewrite Zlen_cons in *. pose proof (Zlen_nonneg k). lia.
Qed.

Lemma small_test s b y m l v0 k : reads s b y m l -> l = v0 :: k -> y <> 0 ->
  (if (mp_top m =? 1) && (Z.land v0 (u32 (v0 - 1)) =? 0) then small_pow2 y /\ v0 = Z.abs y else ~ small_pow2 y).
Proof.
  intros R El Hy. destruct (one_digit s b y m l R Hy) as (v0' & k' & El' & D0 & Htop & Hv). rewrite El in El'. injection El' as <- <-. unfold digit in D0.
  destruct (Z.eqb_spec (mp_top m) 1) as [E1|E1]; cbn [andb].
  - assert (k = []) as -> by (by apply Htop). simpl in Hv. assert (Hpos : 0 < v0) by lia. rewrite digit_small by (unfold digit; lia).
    pose proof (pow2_test v0 Hpos) as Ht. pose proof (Z.log2_nonneg v0). destruct (Z.land v0 (v0 - 1) =? 0).
    + split; [|lia]. exists (Z.log2 v0). split; [|rewrite <- (proj1 Ht eq_refl); lia]. split; [done|]. apply Z.log2_lt_pow2; [done|]. unfold Base in D0. lia.
    + intros (j & Hj & Ej). assert (Hf : false = true); [|done]. apply Ht. replace v0 with (2 ^ j) by lia. by rewrite Z.log2_pow2 by lia.
  - intros (j & Hj & Ej). destruct k as [|z k]; [by apply E1, Htop|]. pose proof (Z.pow_lt_mono_r 2 j 32 ltac:(lia) ltac:(lia) ltac:(lia)) as H2. rewrite <- Ej, Hv in H2.
    assert (Hk : 0 < val (z :: k)).
    { apply val_nonzero; [|done|].
      - pose proof (r_digits _ _ _ _ _ R) as D. rewrite El in D. by apply digits_cons in D as [_ D].
      - pose proof (r_last _ _ _ _ _ R) as T. rewrite El in T. by apply T. }
    unfold Base in H2. lia.
Qed.

(** What [mpdiv] leaves in the quotient and the remainder, exactly: see
    [div_long_run] for the sign of the quotient. *)
Lemma mpdiv_run s dividend divisor quotient remainder x y : wf s -> Num s dividend x -> Num s divisor y -> y <> 0 -> ~ small_pow2 y ->
  quotient = nil \/ wanted s quotient -> remainder = nil \/ wanted s remainder ->
  quotient <> remainder -> quotient <> dividend -> quotient <> divisor ->
  exists s', mpdiv dividend divisor quotient remainder s = Ok (tt, s') /\ wf s' /\ frames [quotient; remainder] s s' /\
  (quotient <> nil -> exists mq, ints s !! quotient = Some mq /\
    Num s' quotient (if Z.abs x <? Z.abs y then 0 else (if zsign x =? zsign y then mp_sign mq else -1) * (Z.abs x / Z.abs y))) /\
  (remainder <> nil -> let r := Z.abs x mod Z.abs y in
    Mag s' remainder (if (r =? 0) && ((x =? 0) || (remainder =? dividend)) then 1 else zsign x) r).
Proof.
  intros W Hx Hy Hy0 Hsmall Hq Hr Hqr Hqd Hqv. destruct (num_reads _ _ _ W Hy) as (mv & lv & R). pose proof (r_int _ _ _ _ _ R) as Iv.
  destruct (num_reads _ _ _ W Hx) as (md & ld & Rd). pose proof (r_int _ _ _ _ _ Rd) as Id.
  unfold mpdiv. rewrite (eff_bind_ok _ _ _ _ _ (assert_run _ s ltac:(apply negb_true_iff, Z.eqb_neq; exact Hqr))), (eff_bind_ok _ _ _ _ _ (geti_run _ _ _ Iv)).
  rewrite (eff_bind_ok _ _ _ _ _ (assert_run _ s (r_norm _ _ _ _ _ R))).
  pose proof (reads_zero _ _ _ _ _ R) as Hz. destruct (Z.eqb_spec (mp_top mv) 0) as [E|E]; [by apply Hz in E|].
  destruct (one_digit _ _ _ _ _ R Hy0) as (v0 & kv & Elv & D0 & _).
  pose proof (vec_at _ _ _ _ Iv (r_vec _ _ _ _ _ R)) as Av. rewrite Elv in Av.
  rewrite (eff_bind_ok _ _ _ _ _ (dig_first s divisor mv kv v0 0 Iv Av)).
  pose proof (small_test _ _ _ _ _ _ _ R Elv Hy0) as Ht. destruct ((mp_top mv =? 1) && (Z.land v0 (u32 (v0 - 1)) =? 0)); [by destruct Ht as [? _]|]. clear Ht.
  rewrite (eff_bind_ok _ _ _ _ _ (geti_run _ _ _ Id)), (eff_bind_ok _ _ _ _ _ (assert_run (negb (has md MPtimesafe)) s ltac:(rewrite (r_plain _ _ _ _ _ Rd); done))).
  destruct (mpmagcmp_run s dividend divisor x y W Hx Hy) as (c & Ec & C1 & C2). rewrite (eff_bind_ok _ _ _ _ _ Ec).
  destruct (Z.ltb_spec c 0) as [Hc|Hc].
  - pose proof (proj1 C1 Hc) as Hlt. rewrite (proj2 (Z.ltb_lt (Z.abs x) (Z.abs y)) Hlt).
    assert (S1 : exists s1, (if negb (remainder =? nil) then mpassign dividend remainder else mret tt) s = Ok (tt, s1) /\ wf s1 /\ frame remainder s s1 /\ (remainder <> nil -> Num s1 remainder x)).
    { destruct Hr as [->|(Hr0 & mr & Ir & _)]; [exists s; split; [done|]; split; [done|]; split; [apply frame_refl|done]|].
      rewrite (proj2 (nil_eqb remainder)) by (unfold nil; lia). destruct (mpassign_run s dividend remainder x mr W Hr0 Ir Hx) as (s1 & E1 & W1 & F1 & N1). exists s1. auto. }
    destruct S1 as (s1 & E1 & W1 & F1 & N1). rewrite (eff_bind_ok _ _ _ _ _ E1).
    assert (S2 : exists s2, (if negb (quotient =? nil) then mpassign mpzero quotient else mret tt) s1 = Ok (tt, s2) /\ wf s2 /\ frame quotient s1 s2 /\ (quotient <> nil -> Num s2 quotient 0)).
    { destruct Hq as [->|(Hq0 & mq & Iq & _)]; [exists s1; split; [done|]; split; [done|]; split; [apply frame_refl|done]|].
      rewrite (proj2 (nil_eqb quotient)) by (unfold nil; lia).
      destruct (mpassign_run s1 mpzero quotient 0 mq W1 Hq0 ltac:(rewrite (f_ints _ _ _ F1) by congruence; exact Iq) (zero_num s1 W1)) as (s2 & E2 & W2 & F2 & N2). exists s2. auto. }
    destruct S2 as (s2 & E2 & W2 & F2 & N2). exists s2. split; [exact E2|]. split; [done|].
    split; [eapply frames_trans; [eapply frame_frames; [right; by left|exact F1]|eapply frame_frames; [by left|exact F2]]|]. split.
    + intros Hnil. destruct Hq as [?|(Hq0 & mq & Iq & _)]; [done|]. exists mq. split; [done|by apply N2].
    + intros Hnil. cbv zeta. rewrite Z.mod_small by lia.
      assert (Nr : Num s2 remainder x) by (eapply frame_num; [exact F2|congruence|by apply N1]). pose proof (num_mag _ _ _ W2 Nr) as M. fold (zsign x) in M.
      destruct (Z.eqb_spec (Z.abs x) 0) as [E0|E0]; [|done]. assert (x = 0) as -> by lia. done.
  - assert (Hle : Z.abs y <= Z.abs x) by (destruct (Z.le_gt_cases (Z.abs y) (Z.abs x)); [done|lia]).
    destruct (div_long_run s dividend divisor quotient remainder x y W Hx Hy ltac:(lia) Hq Hr Hqr Hqd Hqv) as (s' & E' & W' & F' & Q' & M').
    exists s'. split; [done|]. split; [done|]. split; [done|]. split.
    + intros Hnil. destruct (Q' Hnil) as (mq & Iq & Nq). exists mq. split; [done|]. by rewrite (proj2 (Z.ltb_ge (Z.abs x) (Z.abs y))).
    + intros Hnil. specialize (M' Hnil). cbv zeta in M' |- *. rewrite andb_comm in M'. destruct (Z.eqb_spec x 0) as [->|]; [lia|]. done.
Qed.

(** The first branch of [mpdiv]. *)
Lemma mpdiv_small s dividend divisor quotient remainder x y : wf s -> Num s dividend x -> Num s divisor y -> small_pow2 y -> x <> 0 ->
  quotient = nil \/ wanted s quotient -> (remainder = nil \/ (wanted s remainder /\ exists m, ints s !! remainder = Some m /\ 2 <= mp_size m)) -> quotient <> remainder ->
  exists s', mpdiv dividend divisor quotient remainder s = Ok (tt, s') /\ wf s' /\ frames [quotient; remainder] s s' /\
  (quotient <> nil -> Num s' quotient (Z.quot x (Z.abs y))) /\ (remainder <> nil -> Num s' remainder (Z.rem x y)).
Proof.
  intros W Hx Hy Hsmall Hx0 Hq Hr Hqr. destruct Hsmall as (k & Hk & Ey) eqn:Es. pose proof (Z.pow_pos_nonneg 2 k ltac:(lia) ltac:(lia)) as HP.
  destruct (num_reads _ _ _ W Hy) as (mv & lv & R). pose proof (r_int _ _ _ _ _ R) as Iv. assert (Hy0 : y <> 0) by lia.
  unfold mpdiv. rewrite (eff_bind_ok _ _ _ _ _ (assert_run _ s ltac:(apply negb_true_iff, Z.eqb_neq; exact Hqr))), (eff_bind_ok _ _ _ _ _ (geti_run _ _ _ Iv)).
  rewrite (eff_bind_ok _ _ _ _ _ (assert_run _ s (r_norm _ _ _ _ _ R))).
  pose proof (reads_zero _ _ _ _ _ R) as Hz. destruct (Z.eqb_spec (mp_top mv) 0) as [E|E]; [by apply Hz in E|].
  destruct (one_digit _ _ _ _ _ R Hy0) as (v0 & kv & Elv & D0 & _).
  pose proof (vec_at _ _ _ _ Iv (r_vec _ _ _ _ _ R)) as Av. rewrite Elv in Av.
  rewrite (eff_bind_ok _ _ _ _ _ (dig_first s divisor mv kv v0 0 Iv Av)).
  pose proof (small_test _ _ _ _ _ _ _ R Elv Hy0) as Ht. destruct ((mp_top mv =? 1) && (Z.land v0 (u32 (v0 - 1)) =? 0)); [|by destruct Ht; exists k].
  destruct Ht as [_ ->]. rewrite Ey. destruct (div_pow2_run s dividend quotient remainder x k W Hx Hx0 Hk Hq Hr Hqr) as (s' & E' & W' & F' & Q' & R').
  exists s'. split; [done|]. split; [done|]. split; [done|]. split; [done|]. intros Hnil.
  replace (Z.rem x y) with (Z.rem x (2 ^ k)); [by apply R'|]. rewrite <- Ey. symmetry. destruct (Z.abs_eq_or_opp y) as [-> | ->]; [done|by rewrite Z.rem_opp_r by done].
Qed.

(** * mpmod *)

(** The remainder by a positive number; only a zero may have a wrong sign. *)
Lemma mpdiv_rem s x n r a m : wf s -> Num s x a -> Num s n m -> 0 < m -> wanted s r ->
  (small_pow2 m -> a <> 0 /\ exists k, ints s !! r = Some k /\ 2 <= mp_size k) -> (a < 0 -> a mod m <> 0) ->
  exists s', mpdiv x n nil r s = Ok (tt, s') /\ wf s' /\ frame r s s' /\ Num s' r (Z.rem a m).
Proof.
  intros W Ha Hm Hm0 Hr Hsmall Hneg. assert (Hrn : nil <> r) by (destruct Hr; unfold nil; lia).
  assert (Hnil : forall b z, Num s b z -> nil <> b) by (intros b z Hb; destruct (num_int _ _ _ Hb) as [k Ik]; pose proof (g_nonnil _ _ _ (wf_good _ W _ _ Ik)); congruence).
  assert (Hframe : forall s', frames [nil; r] s s' -> wf s' -> frame r s s').
  { intros s' F W'. apply frames_one, (frames_temp nil); [done| |].
    - destruct (ints s !! nil) as [k|] eqn:E; [|done]. by destruct (g_nonnil _ _ _ (wf_good _ W _ _ E)).
    - destruct (ints s' !! nil) as [k|] eqn:E; [|done]. by destruct (g_nonnil _ _ _ (wf_good _ W' _ _ E)). }
  assert (Hdec : small_pow2 m \/ ~ small_pow2 m).
  { destruct (decide (m = 2 ^ Z.log2 m /\ Z.log2 m < 32)) as [[E1 E2]|Hne].
    - left. exists (Z.log2 m). split; [split; [apply Z.log2_nonneg|done]|rewrite <- E1; lia].
    - right. intros (k & Hk & Ek). apply Hne. rewrite Z.abs_eq in Ek by lia. rewrite Ek, Z.log2_pow2 by lia. lia. }
  rewrite (rem_zsign a m Hm0). destruct Hdec as [Hs|Hs].
  - destruct (Hsmall Hs) as (Ha0 & Hsz). destruct (mpdiv_small s x n nil r a m W Ha Hm Hs Ha0 ltac:(by left) ltac:(by right) Hrn) as (s' & E & W' & F & _ & N').
    exists s'. split; [done|]. split; [done|]. split; [by apply Hframe|]. rewrite <- rem_zsign by done. by apply N'.
  - destruct (mpdiv_run s x n nil r a m W Ha Hm ltac:(lia) Hs ltac:(by left) ltac:(by right) Hrn (Hnil _ _ Ha) (Hnil _ _ Hm)) as (s' & E & W' & F & _ & M').
    exists s'. split; [done|]. split; [done|]. split; [by apply Hframe|]. specialize (M' ltac:(done)). cbv zeta in M'. rewrite (Z.abs_eq m) in M' by lia.
    apply mag_num in M'.
    + destruct (Z.eqb_spec (Z.abs a mod m) 0) as [E0|E0]; [rewrite E0, Z.mul_0_r in *; done|done].
    + intros E0. rewrite E0. cbn [Z.eqb andb]. destruct (Z.ltb_spec a 0) as [Hlt|Hge]; [|unfold zsign; rewrite (proj2 (Z.ltb_ge a 0)) by lia; by destruct (_ || _)].
      exfalso. apply (Hneg Hlt). rewrite Z.abs_neq in E0 by lia. apply Z.mod_opp_l_z in E0; [|lia]. by rewrite Z.opp_involutive in E0.
Qed.

Lemma mod_neg a m : a < 0 -> 0 < m -> a mod m <> 0 -> a mod m = m - Z.abs a mod m.
Proof. intros Ha Hm H0. rewrite Z.abs_neq by lia. rewrite <- (Z.opp_involutive a) at 1. rewrite Z.mod_opp_l_nz; [done|lia|]. intros E. apply H0. apply Z.mod_opp_l_z in E; [|lia]. by rewrite Z.opp_involutive in E. Qed.

(** A [reduce] that leaves the work to [mpdiv]. *)
Definition declines (c : eff mpstate Z) : Prop := forall s, exists z, z <> 0 /\ c s = Ok (z, s).

Lemma mod_core (c : eff mpstate Z) (d : eff mpstate unit) (b : bool) s s' : d s = Ok (tt, s') -> (b = true -> declines c) ->
  (if b then z ← c; if negb (z =? 0) then d else mret tt else d) s = Ok (tt, s').
Proof.
  intros E Hd. destruct b; [|done]. destruct (Hd eq_refl s) as (z & Hz & Ez). rewrite (eff_bind_ok _ _ _ _ _ Ez). by rewrite (proj2 (Z.eqb_neq z 0) Hz).
Qed.

Lemma mpmod_run reduce s x n r a m : wf s -> Num s x a -> Num s n m -> 0 < m -> wanted s r ->
  (forall mn, ints s !! n = Some mn -> has mn MPfield = true -> declines (reduce n x r)) ->
  (small_pow2 m -> a <> 0 /\ exists k, ints s !! r = Some k /\ 2 <= mp_size k) -> (a < 0 -> a mod m <> 0) ->
  exists s', mpmod reduce x n r s = Ok (tt, s') /\ wf s' /\ frame r s s' /\ Num s' r (a mod m).
Proof.
  intros W Ha Hm Hm0 Hr Hfield Hsmall Hneg. destruct (num_reads _ _ _ W Ha) as (mx & lx & Rx). pose proof (r_int _ _ _ _ _ Rx) as Ix.
  destruct (num_int _ _ _ Hm) as [mn In]. pose proof Hr as (Hr0 & mr & Ir & Hfl).
  unfold mpmod. rewrite (eff_bind_ok _ _ _ _ _ (geti_run _ _ _ Ix)). rewrite (reads_sign _ _ _ _ _ Rx). cbv zeta.
  destruct (Z.ltb_spec a 0) as [Hlt|Hge].
  - assert (Es : (zsign a <? 0) = true) by (unfold zsign; by rewrite (proj2 (Z.ltb_lt a 0)) by lia). rewrite Es. cbn [andb].
    assert (S1 : exists ns s1, (if n =? r then mpcopy n else mret n) s = Ok (ns, s1) /\ wf s1 /\ Num s1 ns m /\ ns <> r /\
      ((ns = n /\ s1 = s) \/ (n = r /\ 0 < ns /\ ints s !! ns = None /\ frame ns s s1))).
    { destruct (Z.eqb_spec n r) as [->|Hne].
      - destruct (mpcopy_run s r m mn W In Hm) as (ns & s1 & E & W1 & F1 & Hns & Hfr & N1 & _). exists ns, s1. split_and!; [done|done|done|congruence|].
        right. split_and!; done.
      - exists n, s. split_and!; [done|done|done|done|]. by left. }
    destruct S1 as (ns & s1 & E1 & W1 & N1 & Hnr & C1). rewrite (eff_bind_ok _ _ _ _ _ E1).
    assert (Hsame : forall c k, ints s !! c = Some k -> ints s1 !! c = Some k).
    { intros c k Hk. destruct C1 as [[_ ->]|(_ & _ & Hfr & F1)]; [done|]. rewrite (f_ints _ _ _ F1); [done|congruence]. }
    assert (Hnum : forall c z, Num s c z -> Num s1 c z).
    { intros c z Hz. destruct C1 as [[_ ->]|(_ & _ & Hfr & F1)]; [done|]. eapply frame_num; [exact F1| |done]. destruct (num_int _ _ _ Hz); congruence. }
    rewrite (eff_bind_ok _ _ _ _ _ (geti_run _ _ _ (Hsame _ _ In))).
    destruct (mpdiv_rem s1 x n r a m W1 (Hnum _ _ Ha) (Hnum _ _ Hm) Hm0) as (s2 & E2 & W2 & F2 & N2); [split; [done|exists mr; auto]| |done|].
    { intros Hs. destruct (Hsmall Hs) as (H0 & k & Ik & Hk). split; [done|]. exists k. auto. }
    rewrite (eff_bind_ok _ _ _ _ _ (mod_core _ _ _ _ _ E2 (Hfield _ In))). destruct (num_int _ _ _ N2) as [mr2 Ir2].
    destruct (mpmagsub_run s2 ns r r m (Z.rem a m) mr2 W2 Hr0 Ir2 ltac:(by eapply frame_num) N2) as (s3 & E3 & W3 & F3 & N3). rewrite (eff_bind_ok _ _ _ _ _ E3).
    assert (Ev : Z.abs m - Z.abs (Z.rem a m) = a mod m).
    { rewrite mod_neg by (done || auto). pose proof (Z.mod_pos_bound (Z.abs a) m Hm0). rewrite rem_zsign by done. unfold zsign. rewrite (proj2 (Z.ltb_lt a 0)) by lia. lia. }
    rewrite Ev in N3. destruct C1 as [[-> ->]|(-> & Hns & Hfr & F1)].
    + rewrite Z.eqb_refl. exists s3. split; [done|]. split; [done|]. split; [by eapply frame_trans|done].
    + rewrite (proj2 (Z.eqb_neq ns r) Hnr). cbn [negb]. destruct (num_int _ _ _ N1) as [mns Ins].
      destruct (mpfree_run s3 ns mns W3 Hns) as (s4 & E4 & W4 & F4 & Hgone); [rewrite (f_ints _ _ _ F3), (f_ints _ _ _ F2) by done; done|].
      exists s4. split; [exact E4|]. split; [done|]. split; [|by eapply frame_num].
      apply frames_one, (frames_temp ns); [|done|done].
      assert (Hw : forall b s s', b ∈ [ns; r] -> frame b s s' -> frames [ns; r] s s') by (intros; by eapply frame_frames).
      eapply frames_trans; [apply (Hw ns); [by left|exact F1]|]. eapply frames_trans; [apply (Hw r); [right; by left|exact F2]|].
      eapply frames_trans; [apply (Hw r); [right; by left|exact F3]|]. apply (Hw ns); [by left|exact F4].
  - assert (Es : (zsign a <? 0) = false) by (unfold zsign; by rewrite (proj2 (Z.ltb_ge a 0)) by lia). rewrite Es. cbn [andb].
    rewrite (eff_bind_ok _ _ _ _ _ (eff_ret_run n s)), (eff_bind_ok _ _ _ _ _ (geti_run _ _ _ In)).
    destruct (mpdiv_rem s x n r a m W Ha Hm Hm0 Hr Hsmall Hneg) as (s' & E & W' & F & N'). rewrite (eff_bind_ok _ _ _ _ _ (mod_core _ _ _ _ _ E (Hfield _ In))).
    exists s'. split; [done|]. split; [done|]. split; [done|]. by rewrite Z.rem_mod_nonneg in N' by lia.
Qed.
