(* ===== verification/MpThm.v ===== *)
(** The operations of [libmp] as a machine whose state holds integers, and the
    theorems on vectors, division and conversions. *)

From S2P Require Import Prelude Eff MpVec MpHeap MpVecThm MpCmp MpMul MpVecMul MpKaratsuba MpInt MpState MpArith MpMulInt MpShift MpGrow MpDigit MpDiv MpDivInt MpDivThm.

(** * The operations *)

Inductive mpop :=
  | Onew (n : Z) | Ocopy (b : Z) | Ofree (b : Z) | Oassign (b d : Z)
  | Oadd (a b d : Z) | Osub (a b d : Z) | Omul (a b d : Z)
  | Oleft (a k d : Z) | Oright (a k d : Z)
  | Odiv (a b q r : Z) | Omod (a n d : Z) | Ocmp (a b : Z).

(** None of these operations makes a field; a [reduce] that declines stands for the
    function that is never called. *)
Definition nofield : Z -> Z -> Z -> eff mpstate Z := fun _ _ _ => mret 1.

Definition run_mpop (o : mpop) : eff mpstate Z :=
  match o with
  | Onew n => mpnew n
  | Ocopy b => mpcopy b
  | Ofree b => mpfree b;; mret 0
  | Oassign b d => mpassign b d;; mret 0
  | Oadd a b d => mpadd a b d;; mret 0
  | Osub a b d => mpsub a b d;; mret 0
  | Omul a b d => mpmul a b d;; mret 0
  | Oleft a k d => mpleft a k d;; mret 0
  | Oright a k d => mpright a k d;; mret 0
  | Odiv a b q r => mpdiv a b q r;; mret 0
  | Omod a n d => mpmod nofield a n d;; mret 0
  | Ocmp a b => mpcmp a b
  end.

(** ** The specification: a map from pointers to integers *)

Notation numbers := (gmap Z Z).

(** A destination is an integer of the program, not a constant of the library. *)
Definition dest (n : numbers) (d : Z) : Prop := 0 < d /\ is_Some (n !! d).
Definition src (n : numbers) (b : Z) : Prop := is_Some (n !! b).
Definition value_at (n : numbers) (b : Z) : Z := default 0 (n !! b).

(** What a caller must respect: the arguments exist; the cases in which a quotient or
    a remainder is wrong are left out. *)
Definition lawful (n : numbers) (o : mpop) : Prop :=
  match o with
  | Onew k => 0 <= k
  | Ocopy b => src n b
  | Ofree b => dest n b
  | Oassign b d => src n b /\ dest n d
  | Oadd a b d | Osub a b d | Omul a b d => src n a /\ src n b /\ dest n d
  | Oleft a _ d | Oright a _ d => src n a /\ dest n d
  | Odiv a b q r => src n a /\ src n b /\ dest n q /\ dest n r /\ q <> r /\ q <> a /\ q <> b /\
      let x := value_at n a in let y := value_at n b in
      y <> 0 /\ ~ small_pow2 y /\ (zsign x = zsign y -> 0 <= value_at n q) /\ (x < 0 -> Z.rem x y <> 0)
  | Omod a m d => src n a /\ src n m /\ dest n d /\
      let x := value_at n a in let y := value_at n m in 0 < y /\ ~ small_pow2 y /\ (x < 0 -> x mod y <> 0)
  | Ocmp a b => src n a /\ src n b
  end.

Definition shifted (x k : Z) : Z := if 0 <? k then x * 2 ^ k else Z.quot x (2 ^ - k).

(** The effect on the integers; [r] is what the operation answers. *)
Definition meaning (n : numbers) (o : mpop) (r : Z) : numbers :=
  match o with
  | Onew _ => <[r := 0]> n
  | Ocopy b => <[r := value_at n b]> n
  | Ofree b => delete b n
  | Oassign b d => <[d := value_at n b]> n
  | Oadd a b d => <[d := value_at n a + value_at n b]> n
  | Osub a b d => <[d := value_at n a - value_at n b]> n
  | Omul a b d => <[d := value_at n a * value_at n b]> n
  | Oleft a k d => <[d := shifted (value_at n a) k]> n
  | Oright a k d => <[d := shifted (value_at n a) (- k)]> n
  | Odiv a b q r => <[r := Z.rem (value_at n a) (value_at n b)]> (<[q := Z.quot (value_at n a) (value_at n b)]> n)
  | Omod a m d => <[d := value_at n a mod value_at n m]> n
  | Ocmp _ _ => n
  end.

(** The answer: a new pointer, or how two integers compare. *)
Definition answered (n : numbers) (o : mpop) (r : Z) : Prop :=
  match o with
  | Onew _ | Ocopy _ => 0 < r /\ n !! r = None
  | Ocmp a b => Z.sgn r = Z.sgn (value_at n a - value_at n b)
  | _ => r = 0
  end.

(** The state holds the integers. *)
Definition holds (s : mpstate) (n : numbers) : Prop := wf s /\ forall b, match n !! b with Some x => Num s b x | None => ints s !! b = None end.

Lemma holds_src s n b : holds s n -> src n b -> Num s b (value_at n b).
Proof. intros [_ H] [x Hx]. specialize (H b). unfold value_at. by rewrite Hx in H |- *. Qed.

Lemma holds_int s n d : holds s n -> dest n d -> 0 < d /\ exists m, ints s !! d = Some m /\ has m MPnorm = true.
Proof.
  intros [_ H] [H0 [x Hx]]. specialize (H d). rewrite Hx in H. destruct H as (m & l & Hm & _ & _ & _ & Hn & _). eauto.
Qed.

(** One integer was written, another is new or is gone. *)
Lemma holds_write s s' n d z : holds s n -> wf s' -> frame d s s' -> Num s' d z -> holds s' (<[d := z]> n).
Proof.
  intros [W H] W' F Hd. split; [done|]. intros b. destruct (decide (b = d)) as [->|Hne]; [by rewrite lookup_insert_eq|].
  rewrite lookup_insert_ne by done. specialize (H b). destruct (n !! b); [by eapply frame_num|]. by rewrite (f_ints _ _ _ F).
Qed.

Lemma holds_free s s' n d : holds s n -> wf s' -> frame d s s' -> ints s' !! d = None -> holds s' (delete d n).
Proof.
  intros [W H] W' F Hd. split; [done|]. intros b. destruct (decide (b = d)) as [->|Hne]; [by rewrite lookup_delete_eq|].
  rewrite lookup_delete_ne by done. specialize (H b). destruct (n !! b); [by eapply frame_num|]. by rewrite (f_ints _ _ _ F).
Qed.

Lemma holds_fresh s n b : holds s n -> ints s !! b = None -> n !! b = None.
Proof. intros [_ H] Hb. specialize (H b). destruct (n !! b) as [x|]; [|done]. destruct (num_int _ _ _ H). congruence. Qed.

(** ** Division, for the machine *)

Lemma quot_zsign x y : y <> 0 -> Z.quot x y = (if zsign x =? zsign y then 1 else -1) * (Z.abs x / Z.abs y).
Proof.
  intros Hy. rewrite Z.quot_div by done. destruct (Z.eq_dec x 0) as [->|Hx].
  - rewrite Z.abs_0, Z.div_0_l by lia. by rewrite !Z.mul_0_r.
  - f_equal. unfold zsign. destruct (Z.ltb_spec x 0), (Z.ltb_spec y 0); rewrite ?(Z.sgn_neg x), ?(Z.sgn_pos x), ?(Z.sgn_neg y), ?(Z.sgn_pos y) by lia; done.
Qed.

Lemma rem_zsign_any x y : y <> 0 -> Z.rem x y = zsign x * (Z.abs x mod Z.abs y).
Proof.
  intros Hy. rewrite Z.rem_mod by done. destruct (Z.eq_dec x 0) as [->|Hx].
  - rewrite Z.abs_0, Z.mod_0_l by lia. by rewrite !Z.mul_0_r.
  - f_equal. unfold zsign. destruct (Z.ltb_spec x 0); [apply Z.sgn_neg|apply Z.sgn_pos]; lia.
Qed.

Lemma odiv_run s n a b q r : holds s n -> lawful n (Odiv a b q r) ->
  exists s', mpdiv a b q r s = Ok (tt, s') /\ holds s' (meaning n (Odiv a b q r) 0).
Proof.
  intros Hs (Ha & Hb & Hq & Hr & Hqr & Hqa & Hqb & Hy & Hsm & Hsg & Hz). pose proof (holds_src _ _ _ Hs Ha) as Na. pose proof (holds_src _ _ _ Hs Hb) as Nb.
  destruct (holds_int _ _ _ Hs Hq) as (Hq0 & mq & Iq & Fq). destruct (holds_int _ _ _ Hs Hr) as (Hr0 & mr & Ir & Fr).
  pose proof Hs as [W H]. cbn [meaning]. set (x := value_at n a) in *. set (y := value_at n b) in *.
  destruct (mpdiv_run s a b q r x y W Na Nb Hy Hsm) as (s' & E & W' & F & Q & R); try done; [right; split; [done|by exists mq]|right; split; [done|by exists mr]|].
  exists s'. split; [done|]. split; [done|]. destruct (Q ltac:(unfold nil; lia)) as (mq' & Iq' & Nq). rewrite Iq in Iq'. injection Iq' as <-.
  specialize (R ltac:(unfold nil; lia)). cbv zeta in R.
  assert (Sq : zsign x = zsign y -> mp_sign mq = 1).
  { intros E0. specialize (Hsg E0). pose proof (holds_src s n q Hs (proj2 Hq)) as Nq'. destruct (num_reads _ _ _ W Nq') as (m' & l & R').
    rewrite (r_int _ _ _ _ _ R') in Iq. injection Iq as ->. rewrite (reads_sign _ _ _ _ _ R'). unfold zsign. by rewrite (proj2 (Z.ltb_ge _ 0)). }
  assert (Nq1 : Num s' q (Z.quot x y)).
  { rewrite quot_zsign by done. destruct (Z.ltb_spec (Z.abs x) (Z.abs y)) as [Hlt|Hge].
    - rewrite Z.div_small, Z.mul_0_r by lia. done.
    - destruct (Z.eqb_spec (zsign x) (zsign y)) as [E0|E0]; [by rewrite Sq in Nq|done]. }
  assert (Nr1 : Num s' r (Z.rem x y)).
  { rewrite rem_zsign_any by done. apply mag_num in R; [|intros E0].
    - destruct (Z.eqb_spec (Z.abs x mod Z.abs y) 0) as [E0|E0]; [rewrite E0, Z.mul_0_r in *; done|done].
    - rewrite E0. cbn [Z.eqb andb]. destruct (_ || _); [done|]. unfold zsign. destruct (Z.ltb_spec x 0) as [Hlt|]; [|done].
      destruct (Hz Hlt). by rewrite rem_zsign_any, E0, Z.mul_0_r by done. }
  intros c. destruct (decide (c = r)) as [->|Hcr]; [by rewrite lookup_insert_eq|]. rewrite lookup_insert_ne by done.
  destruct (decide (c = q)) as [->|Hcq]; [by rewrite lookup_insert_eq|]. rewrite lookup_insert_ne by done.
  assert (Hc : c ∉ [q; r]) by (rewrite !not_elem_of_cons; split_and!; [done|done|apply not_elem_of_nil]).
  specialize (H c). destruct (n !! c); [by eapply frames_num|]. by rewrite (fs_ints _ _ _ F).
Qed.

(** ** One operation *)

Lemma step_dest (c : eff mpstate unit) s n d z : holds s n ->
  (exists s', c s = Ok (tt, s') /\ wf s' /\ frame d s s' /\ Num s' d z) ->
  exists r s', (c;; mret 0) s = Ok (r, s') /\ r = 0 /\ holds s' (<[d := z]> n).
Proof.
  intros Hs (s' & E & W' & F & Nd). exists 0, s'. rewrite (eff_bind_ok _ _ _ _ _ E). split; [done|]. split; [done|]. by eapply holds_write.
Qed.

Lemma sgn_diff c x y : (c < 0 <-> x < y) -> (c = 0 <-> x = y) -> Z.sgn c = Z.sgn (x - y).
Proof.
  intros H1 H2. destruct (Z.lt_trichotomy x y) as [H|[H|H]].
  - rewrite !Z.sgn_neg; [done|lia|by apply H1].
  - rewrite (proj2 H2 H). replace (x - y) with 0 by lia. done.
  - rewrite !Z.sgn_pos; [done|lia|]. destruct (Z.lt_trichotomy c 0) as [Hc|[Hc|Hc]]; [apply H1 in Hc; lia|apply H2 in Hc; lia|done].
Qed.

Lemma mpop_step s n o : holds s n -> lawful n o -> exists r s', run_mpop o s = Ok (r, s') /\ answered n o r /\ holds s' (meaning n o r).
Proof.
  intros Hs Hl. pose proof (proj1 Hs) as W. pose proof (holds_src s n) as Hsrc. pose proof (holds_int s n) as Hdst.
  destruct o as [k|b|b|b d|a b d|a b d|a b d|a k d|a k d|a b q r|a m d|a b]; cbn [run_mpop lawful answered meaning] in *.
  - destruct (mpnew_run s k W Hl) as (t & s' & E & W' & F & Ht & Hf & N & _). exists t, s'. split; [done|]. split; [split; [done|by eapply holds_fresh]|]. by eapply holds_write.
  - destruct (num_int _ _ _ (Hsrc b Hs Hl)) as [m Im]. destruct (mpcopy_run s b _ m W Im (Hsrc b Hs Hl)) as (t & s' & E & W' & F & Ht & Hf & N & _).
    exists t, s'. split; [done|]. split; [split; [done|by eapply holds_fresh]|]. by eapply holds_write.
  - destruct (Hdst b Hs Hl) as (H0 & m & Im & _). destruct (mpfree_run s b m W H0 Im) as (s' & E & W' & F & Hg). exists 0, s'. rewrite (eff_bind_ok _ _ _ _ _ E).
    split; [done|]. split; [done|]. by eapply holds_free.
  - destruct Hl as [Hb Hd]. destruct (Hdst d Hs Hd) as (H0 & m & Im & _). apply step_dest; [done|]. by apply (mpassign_run s b d _ m W H0 Im (Hsrc b Hs Hb)).
  - destruct Hl as (Ha & Hb & Hd). destruct (Hdst d Hs Hd) as (H0 & m & Im & _). apply step_dest; [done|]. by apply (mpadd_run s a b d _ _ m W H0 Im (Hsrc a Hs Ha) (Hsrc b Hs Hb)).
  - destruct Hl as (Ha & Hb & Hd). destruct (Hdst d Hs Hd) as (H0 & m & Im & _). apply step_dest; [done|]. by apply (mpsub_run s a b d _ _ m W H0 Im (Hsrc a Hs Ha) (Hsrc b Hs Hb)).
  - destruct Hl as (Ha & Hb & Hd). destruct (Hdst d Hs Hd) as (H0 & m & Im & _). apply step_dest; [done|]. by apply (mpmul_run s a b d _ _ m W H0 Im (Hsrc a Hs Ha) (Hsrc b Hs Hb)).
  - destruct Hl as (Ha & Hd). destruct (Hdst d Hs Hd) as (H0 & m & Im & Fm). apply step_dest; [done|]. apply (mpleft_run s a d _ k W H0 (Hsrc a Hs Ha)). by exists m.
  - destruct Hl as (Ha & Hd). destruct (Hdst d Hs Hd) as (H0 & m & Im & Fm). apply step_dest; [done|].
    destruct (mpright_run s a d _ k W H0 (Hsrc a Hs Ha) ltac:(by exists m)) as (s' & E & W' & F & N). exists s'. split; [done|]. split; [done|]. split; [done|].
    unfold shifted. destruct (Z.ltb_spec k 0), (Z.ltb_spec 0 (- k)); try lia; [done|]. by rewrite Z.opp_involutive.
  - destruct (odiv_run s n a b q r Hs Hl) as (s' & E & H'). exists 0, s'. rewrite (eff_bind_ok _ _ _ _ _ E). done.
  - destruct Hl as (Ha & Hm & Hd & Hy & Hsm & Hz). destruct (Hdst d Hs Hd) as (H0 & md & Im & Fm). apply step_dest; [done|].
    apply (mpmod_run nofield s a m d _ _ W (Hsrc a Hs Ha) (Hsrc m Hs Hm) Hy); [split; [done|by exists md]| |by intros ?|done].
    intros _ _ _ st. by exists 1.
  - destruct Hl as (Ha & Hb). destruct (mpcmp_run s a b _ _ W (Hsrc a Hs Ha) (Hsrc b Hs Hb)) as (c & E & C1 & C2). exists c, s. split; [done|]. split; [by apply sgn_diff|done].
Qed.

(** ** Programs *)

Definition constants : numbers := <[mptwo := 2]> (<[mpone := 1]> {[mpzero := 0]}).

(** The operations a program has done, the last one first, with their answers. *)
Inductive executed : list (mpop * Z) -> mpstate -> numbers -> Prop :=
  | ex_start : executed [] mpstart constants
  | ex_step tr s n o r s' : executed tr s n -> lawful n o -> run_mpop o s = Ok (r, s') -> executed ((o, r) :: tr) s' (meaning n o r).

Lemma start_ints b m : ints mpstart !! b = Some m ->
  (b = mptwo /\ m = Mp 1 1 1 (-6) 3) \/ (b = mpone /\ m = Mp 1 1 1 (-5) 3) \/ (b = mpzero /\ m = Mp 1 1 0 (-4) 3).
Proof.
  unfold mpstart. cbn [ints]. intros H. apply lookup_insert_Some in H as [[<- <-]|[_ H]]; [by left|].
  apply lookup_insert_Some in H as [[<- <-]|[_ H]]; [right; by left|]. apply lookup_singleton_Some in H as [<- <-]. right. by right.
Qed.

Lemma wf_start : wf mpstart.
Proof.
  split.
  - intros b m H. apply start_ints in H as [[-> ->]|[[-> ->]|[-> ->]]]; (split; [done|by left|simpl; lia| |done|by right|done|done]); eexists; (split; [reflexivity|]; split; [done|]);
      apply digits_cons; (split; [by unfold digit|constructor]).
  - intros b c m n H1 H2. apply start_ints in H1 as [[-> ->]|[[-> ->]|[-> ->]]]; apply start_ints in H2 as [[-> ->]|[[-> ->]|[-> ->]]]; done.
  - exists [0]. done.
  - done.
  - done.
Qed.

Lemma holds_start : holds mpstart constants.
Proof.
  split; [apply wf_start|]. intros b. unfold constants.
  assert (Hn : forall p x, digs mpstart !! p = Some [x] -> arr (digs mpstart) (p, 0) [x]) by (intros p x Hp; exists [x]; cbn [fst snd]; by rewrite Hp).
  destruct (decide (b = mptwo)) as [->|H3]; [rewrite lookup_insert_eq|rewrite lookup_insert_ne by done; destruct (decide (b = mpone)) as [->|H2];
    [rewrite lookup_insert_eq|rewrite lookup_insert_ne by done; destruct (decide (b = mpzero)) as [->|H1]; [rewrite lookup_singleton_eq|rewrite lookup_singleton_ne by done]]].
  - exists (Mp 1 1 1 (-6) 3), [2]. split; [done|]. split; [by apply Hn|]. split; [apply digits_cons; split; [done|constructor]|done].
  - exists (Mp 1 1 1 (-5) 3), [1]. split; [done|]. split; [by apply Hn|]. split; [apply digits_cons; split; [done|constructor]|done].
  - apply zero_num, wf_start.
  - destruct (ints mpstart !! b) eqn:E; [|done]. apply start_ints in E as [[-> _]|[[-> _]|[-> _]]]; done.
Qed.

Lemma executed_holds tr s n : executed tr s n -> holds s n.
Proof.
  induction 1 as [|tr s n o r s' _ IH Hl E]; [apply holds_start|]. destruct (mpop_step s n o IH Hl) as (r' & s1 & E' & _ & H'). rewrite E in E'. by injection E' as <- <-.
Qed.

(** C11. [libmp] refines arithmetic on the integers.  After any program of lawful operations
    - integers made, copied and freed, assigned, added, subtracted, multiplied (by the
    method of Karatsuba when they are long), shifted either way, divided, reduced and
    compared, whatever arguments are the same, but that the quotient of a division is
    neither its dividend nor its divisor ([lawful]) - every integer of the state is normalised
    and holds the value the specification gives it, the memory is as the invariant says,
    and every lawful operation runs to its end with the answer of the specification. *)
Theorem mp_refines_integers tr s n : executed tr s n ->
  holds s n /\ forall o, lawful n o -> exists r s', run_mpop o s = Ok (r, s') /\ answered n o r /\ holds s' (meaning n o r).
Proof. intros H. apply executed_holds in H as Hs. split; [done|]. intros o Ho. by apply mpop_step. Qed.

(** Two numbers made, three and its square: what comes next is lawful. *)
Definition three : mpstate := match (t ← mpnew 0; u ← mpnew 0; mpadd mpone mptwo t;; mpmul t t u;; mret t) mpstart with Ok (_, s) => s | _ => mpstart end.

Lemma three_executed : exists tr n, executed tr three n /\ n !! 1 = Some 3 /\ n !! 2 = Some 9.
Proof.
  eexists _, _. split.
  - eapply (ex_step _ _ _ (Omul 1 1 2) 0); [eapply (ex_step _ _ _ (Oadd mpone mptwo 1) 0); [eapply (ex_step _ _ _ (Onew 0) 2); [eapply (ex_step _ _ _ (Onew 0) 1); [apply ex_start|done|vm_compute; reflexivity]|done|vm_compute; reflexivity]| |vm_compute; reflexivity]| |vm_compute; reflexivity].
    + cbn [lawful]. unfold dest, src. split_and!; [by eexists|by eexists|done|by eexists].
    + cbn [lawful]. unfold dest, src. split_and!; [by eexists|by eexists|done|by eexists].
  - split; reflexivity.
Qed.

Lemma mp_refines_integers_witness : exists tr n, executed tr three n /\ n !! 1 = Some 3 /\ n !! 2 = Some 9 /\ holds three n.
Proof.
  destruct three_executed as (tr & n & H & H1 & H2). exists tr, n. split; [exact H|]. split; [exact H1|]. split; [exact H2|]. exact (proj1 (mp_refines_integers tr three n H)).
Defined.

(** * Vectors *)

(** C12. The recursive multiplication of Karatsuba and the one that takes the same time for all
    arguments of the same length write the same digits, those of the product, and
    nothing else; the fuel of the recursion, one more than the longer length, is enough. *)
Theorem mpvecmul_mpvectsmul h a la b lb p : arr h a la -> arr h b lb -> digits la -> digits lb ->
  arr h p (zeros (length la + length lb)) -> apart a (Zlen la) p (Zlen la + Zlen lb) -> apart b (Zlen lb) p (Zlen la + Zlen lb) ->
  exists l, length l = (length la + length lb)%nat /\ digits l /\ val l = val la * val lb /\
  mpvecmul a (Zlen la) b (Zlen lb) p h = Ok (tt, upd h p l) /\ mpvectsmul a (Zlen la) b (Zlen lb) p h = Ok (tt, upd h p l).
Proof.
  intros Ha Hb Da Db Hp Aa Ab. destruct (mpvecmul_run h a la b lb p Ha Hb Da Db Hp Aa Ab) as (l & Ll & Dl & Vl & E).
  destruct (mpvectsmul_run h a la b lb p Ha Hb Da Db Hp Aa Ab) as (k & Lk & Dk & Vk & E').
  assert (k = l) as -> by (apply val_inj; congruence). by exists l.
Qed.

(** Vectors of forty digits, long enough for Karatsuba. *)
Definition forty : Heap := <[1 := replicate 40 (Base - 1)]> (<[2 := replicate 40 7]> {[3 := replicate 80 0]}).

Lemma mpvecmul_mpvectsmul_witness : exists l, val l = val (replicate 40 (Base - 1)) * val (replicate 40 7) /\
  mpvecmul (1, 0) 40 (2, 0) 40 (3, 0) forty = Ok (tt, upd forty (3, 0) l).
Proof.
  destruct (mpvecmul_mpvectsmul forty (1, 0) (replicate 40 (Base - 1)) (2, 0) (replicate 40 7) (3, 0)) as (l & _ & _ & V & E & _).
  - eexists. split; [reflexivity|]. split; [done|]. split; [vm_compute; discriminate|reflexivity].
  - eexists. split; [reflexivity|]. split; [done|]. split; [vm_compute; discriminate|reflexivity].
  - apply Forall_replicate. done.
  - apply Forall_replicate. done.
  - eexists. split; [reflexivity|]. split; [done|]. split; [vm_compute; discriminate|reflexivity].
  - left. done.
  - left. done.
  - exists l. split; [exact V|exact E].
Defined.

(** * Division *)

(** C13. [mpdiv], for divisors other than plus or minus a power of two below 2^32 and a
    quotient that is neither the dividend nor the divisor: it ends, changes only its results and keeps the
    invariant; the quotient is that of the absolute values, rounded down, negative when the
    signs differ and otherwise with the sign that its integer had before; the remainder is
    that of the absolute values with the sign of the dividend, of a zero too, unless the
    remainder and the dividend are the same integer. *)
Theorem mpdiv_exact s dividend divisor quotient remainder x y : wf s -> Num s dividend x -> Num s divisor y -> y <> 0 -> ~ small_pow2 y ->
  quotient = nil \/ wanted s quotient -> remainder = nil \/ wanted s remainder ->
  quotient <> remainder -> quotient <> dividend -> quotient <> divisor ->
  exists s', mpdiv dividend divisor quotient remainder s = Ok (tt, s') /\ wf s' /\ frames [quotient; remainder] s s' /\
  (quotient <> nil -> exists mq, ints s !! quotient = Some mq /\
    Num s' quotient (if Z.abs x <? Z.abs y then 0 else (if zsign x =? zsign y then mp_sign mq else -1) * (Z.abs x / Z.abs y))) /\
  (remainder <> nil -> let r := Z.abs x mod Z.abs y in
    Mag s' remainder (if (r =? 0) && ((x =? 0) || (remainder =? dividend)) then 1 else zsign x) r).
Proof. apply mpdiv_run. Qed.

(** Nine by three, the remainder in the divisor. *)
Lemma mpdiv_exact_witness : exists s', mpdiv 2 1 nil 1 three = Ok (tt, s') /\ Mag s' 1 1 0.
Proof.
  destruct three_executed as (tr & n & H & H1 & H2). pose proof (executed_holds _ _ _ H) as Hs.
  assert (N3 : Num three 1 3) by (pose proof (proj2 Hs 1) as E; by rewrite H1 in E).
  assert (N9 : Num three 2 9) by (pose proof (proj2 Hs 2) as E; by rewrite H2 in E).
  destruct (mpdiv_exact three 2 1 nil 1 9 3 (proj1 Hs) N9 N3) as (s' & E & _ & _ & _ & M).
  - done.
  - intros (k & Hk & Ek). destruct (Z.eq_dec k 0) as [->|]; [done|]. destruct (Z.eq_dec k 1) as [->|]; [done|].
    pose proof (Z.pow_le_mono_r 2 2 k ltac:(lia) ltac:(lia)). change (Z.abs 3) with 3 in Ek. change (2 ^ 2) with 4 in *. lia.
  - by left.
  - right. split; [done|]. by eapply num_flagged.
  - done.
  - done.
  - done.
  - exists s'. split; [exact E|]. exact (M ltac:(done)).
Defined.

(** ** Where the results are wrong *)

(** The value of an integer, read from its structure. *)
Definition value_of (b : Z) (s : mpstate) : option Z :=
  m ← ints s !! b; l ← digs s !! mp_p m; Some (mp_sign m * val (take (Z.to_nat (mp_top m)) l)).

(** The numbers of a program, and a result of it. *)
Definition after_run (c : eff mpstate unit) (b : Z) : option Z := match c mpstart with Ok (_, s) => value_of b s | _ => None end.

(** 20 / 3 into an integer that holds -7. *)
Definition div_old_sign : eff mpstate unit := x ← itomp 20 nil; y ← itomp 3 nil; q ← itomp (-7) nil; mpdiv x y q nil.
(** -6 mod 3. *)
Definition mod_multiple : eff mpstate unit := x ← itomp (-6) nil; n ← itomp 3 nil; r ← mpnew 0; mpmod nofield x n r.
(** 5 shifted right until it is zero, mod 2. *)
Definition mod_stale : eff mpstate unit := x ← itomp 5 nil; mpright x 32 x;; n ← itomp 2 nil; r ← mpnew 0; mpmod nofield x n r.
(** 12 / -4. *)
Definition div_minus_pow2 : eff mpstate unit := x ← itomp 12 nil; y ← itomp (-4) nil; q ← mpnew 0; mpdiv x y q nil.
(** A remainder by 4 into an integer of one digit. *)
Definition div_one_digit : eff mpstate unit := mpsetminbits 1;; x ← itomp 7 nil; y ← itomp 4 nil; r ← mpnew 0; mpdiv x y nil r.

(** The results of division that are wrong: a quotient keeps a negative sign that it had before, the
    remainder of a negative multiple is the modulus and not zero, a dividend that has
    become zero leaves its last digit as the remainder of a power of two, a quotient by a
    negative power of two has the wrong sign, and a remainder by a power of two writes two
    digits into an integer that has one. *)
Lemma division_errors : after_run div_old_sign 3 = Some (-6) /\ after_run mod_multiple 3 = Some 3 /\ after_run mod_stale 3 = Some 1 /\
  after_run div_minus_pow2 3 = Some 3 /\ div_one_digit mpstart = Fault.
Proof. vm_compute. done. Qed.

(** * Machine integers *)

Lemma s32_in x : - 2 ^ 31 <= x < 2 ^ 31 -> s32 x = x.
Proof.
  intros Hx. destruct (Z.le_gt_cases 0 x); [by apply s32_small; lia|]. unfold s32, u32. replace (x mod 2 ^ 32) with (x + 2 ^ 32).
  - destruct (Z.ltb_spec (x + 2 ^ 32) (2 ^ 31)); lia.
  - apply (Z.mod_unique x (2 ^ 32) (-1)); lia.
Qed.

Lemma mptoi_run s b x : wf s -> Num s b x -> mptoi b s = Ok (Z.max (- 2 ^ 31) (Z.min (2 ^ 31 - 1) x), s).
Proof.
  intros W Hx. destruct (num_reads _ _ _ W Hx) as (m & l & R). pose proof (r_int _ _ _ _ _ R) as I. pose proof (reads_zero _ _ _ _ _ R) as Hz.
  unfold mptoi. rewrite (eff_bind_ok _ _ _ _ _ (geti_run _ _ _ I)). destruct (Z.eqb_spec (mp_top m) 0) as [E|E].
  { assert (x = 0) as -> by (by apply Hz). done. }
  assert (Hx0 : x <> 0) by (intros ->; by apply E, Hz). destruct (one_digit _ _ _ _ _ R Hx0) as (v0 & k & -> & D0 & Htop & Hv).
  rewrite (eff_bind_ok _ _ _ _ _ (dig_first s b m k v0 0 I (vec_at _ _ _ _ I (r_vec _ _ _ _ _ R)))).
  assert (Hbig : 1 < mp_top m -> Base <= Z.abs x).
  { intros Ht. pose proof (r_len _ _ _ _ _ R) as L. pose proof (val_low _ (r_digits _ _ _ _ _ R) ltac:(done) (r_last _ _ _ _ _ R ltac:(done))) as Hl.
    rewrite (r_abs _ _ _ _ _ R), L in Hl. pose proof (Z.pow_le_mono_r Base 1 (mp_top m - 1) ltac:(done) ltac:(lia)) as Hp. rewrite Z.pow_1_r in Hp. lia. }
  assert (Hone : mp_top m <= 1 -> Z.abs x = v0).
  { intros Ht. pose proof (g_top _ _ _ (wf_good _ W _ _ I)). assert (k = []) as -> by (apply Htop; lia). simpl in Hv. lia. }
  assert (Hok : forall z z' : Z, z = z' -> (mret z : eff mpstate Z) s = Ok (z', s)) by (by intros z z' ->).
  unfold digit, Base, MAXINT in *.
  destruct (r_sign _ _ _ _ _ R) as [[-> Hs]|[-> Hs]]; cbn [Z.ltb Z.compare]; apply Hok; destruct (Z.ltb_spec 1 (mp_top m)) as [Ht|Ht]; cbn [orb].
  - specialize (Hbig Ht). lia.
  - specialize (Hone Ht). destruct (Z.ltb_spec (2 ^ 31 - 1) v0); [lia|]. rewrite s32_in; lia.
  - specialize (Hbig Ht). change (s32 (2 ^ 31 - 1 + 1)) with (- 2 ^ 31). lia.
  - specialize (Hone Ht). destruct (Z.ltb_spec (2 ^ 31 - 1 + 1) v0); [change (s32 (2 ^ 31 - 1 + 1)) with (- 2 ^ 31); lia|].
    destruct (Z.eq_dec v0 (2 ^ 31)) as [->|]; [change (s32 (- s32 (2 ^ 31))) with (- 2 ^ 31); lia|]. rewrite (s32_in v0), s32_in; lia.
Qed.

Lemma itomp_run s b m i : wf s -> 0 < b -> ints s !! b = Some m -> 1 <= mp_size m -> - 2 ^ 31 <= i < 2 ^ 31 ->
  exists s', itomp i b s = Ok (b, s') /\ wf s' /\ frame b s s' /\ Num s' b i.
Proof.
  intros W Hb Hm Hs Hi. unfold itomp. rewrite (proj2 (nil_eqb b)) by (unfold nil; lia). rewrite (eff_bind_ok _ _ _ _ _ (eff_ret_run b s)). cbv zeta.
  assert (Hsg : Z.lor (Z.shiftr i 31) 1 = zsign i).
  { rewrite Z.shiftr_div_pow2 by done. unfold zsign. destruct (Z.ltb_spec i 0); [|by rewrite Z.div_small by lia].
    replace (i / 2 ^ 31) with (-1); [done|]. apply (Z.div_unique i (2 ^ 31) (-1) (i + 2 ^ 31)); lia. }
  rewrite Hsg. rewrite (eff_bind_ok _ _ _ _ _ (sets_run s b _ m Hm)). set (m1 := with_sign (zsign i) m).
  pose proof (good_sound _ _ _ (wf_good _ W _ _ Hm)) as (S1 & S2 & S3 & S4).
  assert (Ssg : zsign i = 1 \/ zsign i = -1) by (unfold zsign; destruct (i <? 0); auto).
  destruct (put_wf s b m m1 W Hb Hm ltac:(done) ltac:(done)) as [W1 F1]. set (s1 := put s b m1) in *. assert (I1 : ints s1 !! b = Some m1) by apply put_lookup.
  set (d := u32 (s32 (i * zsign i))).
  assert (Hd : digit d /\ d = Z.abs i).
  { split; [apply u32_digit|]. unfold d. destruct (Z.eq_dec i (- 2 ^ 31)) as [->|Hne]; [done|]. replace (i * zsign i) with (Z.abs i) by (unfold zsign; destruct (Z.ltb_spec i 0); lia).
    rewrite s32_small by lia. apply digit_small. unfold digit, Base. lia. }
  destruct Hd as [Dd Ed].
  destruct (store_step s1 b m1 0 [d] W1 Hb I1 ltac:(done) ltac:(change (Zlen [d]) with 1; simpl; lia) ltac:(apply digits_cons; split; [done|constructor])) as (W2 & F2 & R2).
  rewrite (eff_bind_ok _ _ _ _ _ (setdig_run s1 b m1 0 d I1 R2)). set (s2 := store s1 _) in *.
  rewrite (eff_bind_ok _ _ _ _ _ (sets_run s2 b _ m1 I1)). set (m3 := with_top 1 m1).
  destruct (put_wf s2 b m1 m3 W2 Hb I1 ltac:(done)) as [W3 F3]; [split; [done|split_and!; [done|simpl; lia|done|done]]|].
  destruct (mpnorm_run (put s2 b m3) b m3 [d] W3 Hb (put_lookup _ _ _)) as (s5 & E5 & W5 & F5 & N5); [exists m3; split; [apply put_lookup|by apply arr_upd_same]|done|apply digits_cons; split; [done|constructor]|].
  exists s5. split; [exact E5|]. split; [done|]. split; [by do 3 (eapply frame_trans; [eassumption|])|].
  replace i with (mp_sign m3 * val [d]); [done|]. rewrite val_cons_nil, Ed. unfold m3, m1, zsign. simpl. destruct (Z.ltb_spec i 0); lia.
Qed.

(** [mptoi] gives the integer, or the nearest that an [int] holds. *)
Theorem mptoi_clamps s b x : wf s -> Num s b x ->
  exists i, mptoi b s = Ok (i, s) /\ - 2 ^ 31 <= i < 2 ^ 31 /\ (i = x \/ (x < - 2 ^ 31 /\ i = - 2 ^ 31) \/ (2 ^ 31 <= x /\ i = 2 ^ 31 - 1)).
Proof. intros W Hx. exists (Z.max (- 2 ^ 31) (Z.min (2 ^ 31 - 1) x)). split; [by apply mptoi_run|lia]. Qed.

Lemma mptoi_clamps_witness : mptoi 2 three = Ok (9, three).
Proof.
  destruct three_executed as (tr & n & H & H1 & H2). pose proof (executed_holds _ _ _ H) as Hs.
  assert (N9 : Num three 2 9) by (pose proof (proj2 Hs 2) as E; by rewrite H2 in E).
  destruct (mptoi_clamps three 2 9 (proj1 Hs) N9) as (i & E & _ & [->|[[Hi _]|[Hi _]]]); [exact E|lia|lia].
Defined.

(** Every [int], the least one too, goes into an integer of the program by [itomp] and comes
    back by [mptoi]; nothing but that integer changes. *)
Theorem itomp_mptoi s b m i : wf s -> 0 < b -> ints s !! b = Some m -> 1 <= mp_size m -> - 2 ^ 31 <= i < 2 ^ 31 ->
  exists s', itomp i b s = Ok (b, s') /\ wf s' /\ frame b s s' /\ Num s' b i /\ mptoi b s' = Ok (i, s').
Proof.
  intros W Hb Hm Hs Hi. destruct (itomp_run s b m i W Hb Hm Hs Hi) as (s' & E & W' & F & N). exists s'. do 4 (split; [done|]).
  rewrite (mptoi_run s' b i W' N). do 2 f_equal. lia.
Qed.

Lemma itomp_mptoi_witness : exists s', itomp (- 2 ^ 31) 1 three = Ok (1, s') /\ mptoi 1 s' = Ok (- 2 ^ 31, s').
Proof.
  destruct three_executed as (tr & n & H & H1 & H2). pose proof (executed_holds _ _ _ H) as Hs.
  destruct (itomp_mptoi three 1 (Mp 1 33 1 1 MPnorm) (- 2 ^ 31)) as (s' & E & _ & _ & _ & E').
  - exact (proj1 Hs).
  - done.
  - vm_compute. done.
  - done.
  - done.
  - exists s'. split; [exact E|exact E'].
Defined.
